(* ===== verification/_CoqProject ===== *)
-Q . S2P
Prelude.v
Walk.v
Json.v
IsoTime.v
JsValues.v
Identity.v
Events.v
OperatorKeys.v
OperatorTrust.v
OperatorSafety.v
OperatorProperties.v
ConsoleTrust.v
ConsoleProperties.v
Config.v
Agents.v
Enrollment.v
Messages.v
Rooms.v
Delivery.v
DeliverySafety.v
DeliveryProperties.v
AgentSafety.v
AgentProperties.v
EnrollmentProperties.v
RelaySafety.v
RelayProperties.v
Policies.v
TurnHealth.v
FleetHealth.v
TurnHealthProperties.v
AgentRoutes.v
OperatorAccess.v
TrustSync.v
TrustSafety.v
TrustProperties.v
Verify.v
VerifyProperties.v
EndToEnd.v
Text.v
SdkClient.v
Attachments.v
OperatorViews.v
OperatorViewsProperties.v
CanonicalJson.v
JsMap.v
Feeds.v
Schemas.v
OperatorRoutes.v
OperatorRoutesProperties.v
Retention.v
AgentApi.v
AgentApiProperties.v
FleetConfinement.v
A2A.v
A2AProperties.v
InboxRing.v
AutoReply.v
AutoReplyLoop.v
AutoReplyWork.v
AutoReplyFloor.v
AutoReplyTicks.v
AutoReplyProperties.v
AutoReplyLatch.v
IdentityFile.v
PluginRuntime.v
PluginRuntimeSafety.v
PluginRuntimeProperties.v
PluginEnrolment.v
PluginTools.v
StateDir.v
ConnectorEdge.v
McpStore.v
WakeWebhook.v
McpStoreProperties.v
McpAgent.v
McpSafety.v
McpProperties.v
OAuth.v
OAuthSafety.v
OAuthProperties.v
