(* ===== verification/Prelude.v ===== *)
(** * Ekho: a verification development

    Ekho is a relay through which the AI agents of a fleet exchange messages
    under an operator's control.  This library models the decision logic of the
    relay ([packages/relay/src]), of the agents' side of the trust story
    ([packages/sdk/src/identity]), of the MCP connector ([packages/mcp-connector])
    and of the OpenClaw plugin ([packages/openclaw-plugin]) as executable Rocq
    definitions, written one per operation of the source, and proves what makes
    them correct.

    ** The program and its parts

    The relay is one process over one SQLite database ([db.ts], class [EkhoDb]),
    reached by HTTP: agents authenticate every request ([auth.ts],
    [routes-agent.ts]), operators log in and hold session tokens
    ([routes-operator.ts], [operator-session.ts], [login-throttle.ts],
    [tailnet.ts]).  A message of an agent clears one gate ([message-gate.ts]:
    status, rate limit, policies, extensions), is stored with one delivery per
    recipient, is handed out by inbox polls, acknowledged, retried by sweeps and
    dead-lettered.  Operators sign with Ed25519 keys the relay registers, endorses,
    revokes and recovers; agents pin such keys themselves and verify messages
    without trusting the relay, from what an inbox poll carries (roster, operator
    keys, signatures).  Two clients embed that verification: the MCP connector,
    which keeps a durable unread queue for a client that reads over MCP behind an
    OAuth server of its own, and the OpenClaw plugin, whose loop wakes the agent for
    the messages that pass its gates.  The relay also speaks A2A ([a2a/]), polls
    RSS feeds ([feeds.ts]) and stores attachments.

    ** The files, in order of dependency

    - [Prelude]: results of operations that may throw ([result]) and their
      notations, SQL tables as lists or maps ([select], [update_where],
      [order_by]), shared lemmas, tactics ([inv_ok], [bools]) and the hint database.
    - [Walk]: loops with a visited set, used by the two key walks.
    - [Json], [IsoTime], [JsValues]: parsed JSON and [canonicalize]; ISO timestamps
      and why the development may carry them as milliseconds; [String], [Number],
      truthiness, sorting; the class [NodeCrypto].
    - [Identity]: [operator-identity.ts] and [identity/primitives.ts]: the signed
      payloads and [verifyCanonical], over the class [Crypto].
    - [Events]: [recordEvent].
    - [OperatorKeys], [OperatorTrust], [OperatorSafety], [OperatorProperties]: the
      relay's operator keys, agent identity keys and recovery grants ([db.ts],
      "Operator signing keys"), the trust rule and its inductive specification
      [Trusted], the step relation [key_step] with its invariant [key_inv], and the
      theorems.
    - [ConsoleTrust], [ConsoleProperties]: the rules of the operator console's
      Security screen ([frontend/src/operatorTrust.js]) over what the relay
      publishes, compared with what the relay then accepts.
    - [Config]: [config.ts], an argument of every operation that reads it.
    - [Agents], [AgentSafety], [AgentProperties]: heartbeats, controls, liveness,
      rate limits, approvals; traces ([agent_op], [exec], [run]).
    - [Enrollment], [EnrollmentProperties]: bootstrap, enrolment tokens,
      credentials, [requireAgentAuth] and the replay nonces; traces ([auth_op]).
    - [Messages], [Rooms], [Delivery]: the mail tables and every operation on them;
      [DeliverySafety], [DeliveryProperties]: the delivery state machine
      ([mail_step], [mail_ok]); [RelaySafety], [RelayProperties]: agents and mail
      together ([relay_step], [relay_ok]).
    - [Policies], [AgentRoutes]: the admission gate and the agent
      routes over one [World] of tables.
    - [TurnHealth], [FleetHealth], [TurnHealthProperties]: the plugin's record of its
      model calls, the verdict its heartbeats carry, and the health board,
      attention queue and topology the relay makes of them ([fleet-health.ts]).
    - [OperatorAccess]: the login throttle, the tailnet gate,
      sessions, the login route.
    - [TrustSync], [TrustSafety], [TrustProperties]: the
      agents' pins ([identity/verification.ts], [syncPinnedOperatorKeys], with the
      exception it can throw between its two writes) and the throttle of its
      warnings.
    - [Verify], [VerifyProperties]: [identity/verify.ts] and the verdicts, the wake
      gate and the signing of [identity/verification.ts]; a verdict that throws takes
      those of its batch with it.
    - [EndToEnd]: an agent's signature, through the relay, to its recipient.
    - [Text]: string functions of the platform; [CanonicalJson]: what the canonical
      text of a value determines; [JsMap]: a [Map] in insertion order, and objects
      used as records.
    - [SdkClient]: the agents' client ([sdk/src/client.ts]): what every
      call signs, the path [fetch] requests for the one it signed ([url_path]), and
      what [requireAgentAuth] says to it.
    - [Attachments]: [routes-attachments.ts], the rows and the
      files of attachments, and their sweep.
    - [OperatorViews], [OperatorViewsProperties]: what the operator reads (search,
      sorting, paging; lists, timelines, the overview); [restrict] keeps one fleet's
      rows of the tables these read.
    - [Feeds]: [feeds.ts], the guard on addresses, and polls of a
      feed that interleave.
    - [Schemas]: the zod schemas of [types.ts]; [OperatorRoutes],
      [OperatorRoutesProperties]: every route behind an operator's session over one
      [OpWorld], the invariant [world_ok], and [untouched], what a request leaves of
      another fleet.
    - [Retention]: pruning of events and heartbeats, stall
      notices, and one tick of the sweep job.
    - [AgentApi], [AgentApiProperties]: every route of an agent, and enrolment, over
      the same [OpWorld]; [serve], any request; [relay_life], runs in which operators,
      agents, newcomers and the sweep job take turns; [as_itself], what an agent's
      request leaves of everybody else.
    - [FleetConfinement]: [own_world], the state that holds nothing but one fleet's
      rows and files; every read of an operator's routes depends on it alone, and a
      request leaves that of every fleet it does not prove as it is.
    - [A2A], [A2AProperties]: tasks, their store and the JSON-RPC methods.
    - [IdentityFile]: the agent's identity on disk.
    - [PluginRuntime], [PluginRuntimeSafety], [PluginRuntimeProperties],
      [PluginEnrolment]: the copies of the plugin that reloads leave in one host
      process ([connection.ts], [runtime-registry.ts], [credentials.ts]), as a step
      relation whose steps are the awaits of a connect ([proc_step]); who beats and
      polls; the enrolment lock.
    - [PluginTools]: the plugin's sending tools, its uploads
      and downloads, its dead-letter file; [StateDir]: where its files live and how
      those of an older install are carried over.
    - [McpStore], [McpAgent], [McpSafety] with [McpStoreProperties] and
      [McpProperties]: the connector's queue, its ingest and its sends, and traces of
      polls, reads and confirmations over any relay.
    - [WakeWebhook]: the connector's wake webhook ([webhook.ts]).
    - [ConnectorEdge]: the connector's bearer tokens, rate limit,
      capped bodies and router ([auth.ts], [http.ts]).
    - [OAuth], [OAuthSafety], [OAuthProperties]: the connector's OAuth server.
    - [InboxRing]: the plugin's inbox cache and the labels of
      its inbox tool ([inbox-trust.ts]).
    - [AutoReply], [AutoReplyLoop]: [autoreply.ts]: who may wake the agent, the rate
      gate, the turn latch, messages held back for the floor; and the tick, with what
      each of its awaits returns and [stop()] at any of them.  [AutoReplyWork],
      [AutoReplyFloor], [AutoReplyTicks] follow the messages a tick handles;
      [AutoReplyProperties] and [AutoReplyLatch] hold the theorems on runs.

    ** State and operations

    A table is a [gmap] by its primary key where the code reaches it only by key,
    and the list of its rows in rowid order where the code scans, orders or
    appends.  A method of [EkhoDb] is the definition of the same name: it takes the
    tables it reads, the time and the fresh ids it draws as arguments, and returns
    the tables it writes, its result and the audit rows it inserts.  An error that
    the source throws is [Throw] of a constructor per message; the transaction
    rolls back, so the state is the one before.  Where the code returns [null] or
    [false] the model returns [None] or [false].  Foreign keys that SQLite enforces
    are checked where a statement can violate them ([known_agents]).  Guards keep
    the order of the source, because the error of a doubly wrong call depends on
    it.  Loop bodies of the source are definitions of their own ([ack_step],
    [retry_step], [revocation_step], ...), folded over the rows the code iterates.
    Invariants are proved for every state reachable by any interleaving of the
    modelled operations, with times that only need not go back where a theorem
    depends on it.

    ** What the theorems show

    - Operator keys: whatever sequence of registrations, endorsements, revocations
      and recoveries the API performs, a fleet with endorsed agents keeps a key that
      may endorse; the trust rule is decided exactly; stored signatures verify;
      chains are acyclic; tombstones are final; recovery grants are single-use.
    - The console: it offers to endorse a key exactly when the relay accepts it, but
      for the cycle the relay looks for and the console does not, and warns before the
      last live key is revoked.
    - Agents' trust root: no relay, however hostile, can make an agent with pins
      trust a key not linked to its pins by endorsements, drop a pin or lift a
      tombstone without a signed instruction, or leave it without a pin, whether its
      syncs complete or throw (one that throws can leave a key pinned and tombstoned,
      [half_a_revocation]); signed revocations are honoured; unproven claims stay
      visible in the log.
    - Verification: what wakes a strict agent is rooted in its pins, message by message
      when the ids of a batch are distinct; a signature
      binds text, type, priority, attachments, sender and addressee; an honestly
      signed message survives the relay and verifies, quoted or delivered.
    - Messages: fleets are isolated; a send reaches exactly its stated recipients;
      a poll discloses only what the poller may read; agents cannot speak as the
      operator; nothing is sent without passing the gate.
    - Delivery: the state machine, the exact meaning of "acked", bounded
      redelivery, and that an unacknowledged delivery comes back, is dead-lettered
      with a row that says so, or expires on record.
    - Requests and enrolment: a call of the agents' client is accepted exactly when its
      credentials, clock and nonce are, unless the address parser changes its path,
      and then never; an accepted request is never accepted again;
      tokens are single-use.
    - Agents: an operator's stop holds until an operator resumes; liveness, rate
      limits and approvals act exactly as stated.
    - The relay as a whole: over any life of it, a request changes nothing of a fleet
      that its session, signature or enrolment token does not prove (the floor row of
      a conversation id that two fleets share excepted), and nothing the operators of
      that fleet can see; an agent's request leaves the rows of every
      other agent as they are.
    - Operators: the login throttle is exact and bounded; what an operator sees, over
      every GET route, comes from its own fleet's rows alone; a refused request writes
      nothing; search is literal and pages show every row once.
    - The connector: a client sees as verified only what is rooted in its pins (a
      message that shares its id with another of its batch shares its verdict); what
      was acknowledged to the relay is unread, read, evicted or rejected on record;
      its store refines an abstract mailbox, stays bounded, and reading drains it
      of every id;
      OAuth tokens come only from consent, and codes and refresh tokens work once;
      its rate limit bounds every client, sweeps of its bounded table counted; every message a wake was asked for is
      accounted for.
    - The plugin: a message kept for a turn is accounted for whatever fails and
      wherever the loop stops; it starts at most one turn; a turn holds only what the
      gates admitted; teammates get a bounded number of turns while the loop can count
      their conversations; a failed message never
      reads as anything but failed, and a verified label is earned by that message;
      however the host reloads it, one copy beats and polls for an agent, the newest
      takes over, and the enrolment token is not sent again once its enrolment is on
      disk; the health board shows what
      its model calls say; what its sending tool posts verifies at the recipient, its
      downloads stay in their directory, and a migrated agent stays itself.
    - A2A, attachments, feeds, retention: tasks exist for their participants only;
      what is on disk is accounted for and within quota; a feed item is delivered
      once, and every address fetched is guarded; pruning spares the audit trail and
      the newest heartbeats.

    ** Bounds and fuel

    [trust_walk] and [cycle_walk] take one unit of fuel per key and one more; the
    visited set stops the loop of the source after at most as many hops, and the
    theorems on them say that more fuel changes nothing.  [digits_fuel] takes one
    unit per binary digit.  [fetch_from] has the redirects that are left.  Everything
    else is structural.  Times are milliseconds
    in [Z]; [IsoTime] shows that comparing canonical texts is comparing these on
    the years 0-9999.

    ** Limits of the model

    - Cryptography, base64url, [Date.parse] outside the ISO form and password
      hashing are parameters ([Crypto], [NodeCrypto], [Signing]); what a theorem
      needs of them is a hypothesis ([SigningLaws]) with an instance.
    - JSON numbers are integers; [Number] of a text reads decimal integers;
      characters are the code units 0-255; [toLowerCase] acts on ASCII letters.
    - A property that every JavaScript object inherits ([constructor], ...) is modelled
      where an id the relay chooses is looked up in the pins, tombstones and
      admissions, in a sort column, and in the plugin's record of held messages
      ([__proto__]); other records keyed by an id are finite maps.
    - The fields of the relay's JSON have their declared types on the agents' side.
    - The formats zod knows by name are parameters.  The table of floors has the
      conversation id alone as its key, so that two fleets that use one id share a
      floor: what a request leaves of other fleets is stated apart for it
      ([floors_kept]).
    - The connector's token bucket counts in exact fractions of a token; of the
      address parser, paths are modelled, the origin is taken as it is configured.
    - Random ids and clock readings are arguments; a theorem that needs fresh ids
      says so.

    ** Not modelled

    Of the plugin, the text of the prompt and its registration with the
    host; the console's React components; of the connector, the rendering of its tools.  Left out
    for good: process start-up, TLS, licences, migrations, metrics text, command
    lines, and the Python SDK and plugin, which hold no decision logic of their own
    or are not TypeScript. *)

From stdpp Require Export base tactics strings list gmap sorting.
From Stdlib Require Export ZArith Lia Ascii String.
From stdpp Require Export strings list.

Declare Scope ekho_scope.
Delimit Scope ekho_scope with ekho.

(** ** Results of operations that may throw *)

(** The outcome of a TypeScript operation: a value, or the [Error] it throws.
    A throw carries no state: every operation modelled with [result] throws
    either before its first write or inside the better-sqlite3 transaction that
    rolls its writes back, so the state after the throw is the state before. *)
Inductive result (E A : Type) : Type :=
  | Ok (a : A)
  | Throw (e : E).
Arguments Ok {E A} a.
Arguments Throw {E A} e.

Notation "'let?' x ':=' m 'in' k" :=
  (match m with Ok x => k | Throw e => Throw e end)
  (at level 10, x pattern, m at level 100, k at level 200)
  : ekho_scope.
Notation "'throw_if' c 'with' e ';;' k" :=
  (if c then Throw e else k)
  (at level 10, c at level 99, e at level 99, k at level 200)
  : ekho_scope.
Notation "'fetch' x ':=' o 'orelse' e ';;' k" :=
  (match o with Some x => k | None => Throw e end)
  (at level 10, x pattern, o at level 99, e at level 99, k at level 200) : ekho_scope.

Definition is_ok {E A} (r : result E A) : bool :=
  match r with Ok _ => true | Throw _ => false end.

(** ** Decidable equality as the [===] of the source *)
Notation "x ==? y" := (bool_decide (x = y)) (at level 70, no associativity) : ekho_scope.
Open Scope ekho_scope.

(** JavaScript truthiness of a nullable string column: NULL and the empty
    string are falsy. *)
Definition truthy (o : option string) : option string :=
  match o with
  | Some s => if s ==? ""%string then None else Some s
  | None => None
  end.

Lemma truthy_Some o s : truthy o = Some s <-> o = Some s /\ s <> ""%string.
Proof.
  destruct o as [t|]; simpl; [|naive_solver].
  case_bool_decide; naive_solver.
Qed.

(** ** Tables

    A SQL table that is scanned, ordered or appended to is the list of its rows
    in rowid order; the statements of the source are these combinators.  Tables
    accessed only through their primary key are [gmap]s. *)
Section Table.
Context {R : Type}.
Implicit Types (p : R -> bool) (f : R -> R) (t : list R).

(** SELECT ... WHERE p *)
Definition select p t : list R := List.filter p t.
(** SELECT ... WHERE p LIMIT 1 *)
Definition select_one p t : option R := List.find p t.
Definition exists_row p t : bool := existsb p t.
(** UPDATE ... SET f WHERE p, and the [changes] it reports *)
Definition update_where p f t : list R := map (fun r => if p r then f r else r) t.
Definition changes p t : nat := length (List.filter p t).
(** DELETE ... WHERE p *)
Definition delete_where p t : list R := List.filter (fun r => negb (p r)) t.

Lemma elem_of_select p t r : r ∈ select p t <-> r ∈ t /\ p r = true.
Proof. unfold select. rewrite !list_elem_of_In. apply filter_In. Qed.

Lemma elem_of_delete_where p t r : r ∈ delete_where p t <-> r ∈ t /\ p r = false.
Proof.
  unfold delete_where. rewrite !list_elem_of_In, filter_In.
  by rewrite negb_true_iff.
Qed.

Lemma elem_of_update_where p f t r :
  r ∈ update_where p f t <-> exists r0, r0 ∈ t /\ r = if p r0 then f r0 else r0.
Proof.
  unfold update_where. rewrite list_elem_of_In, in_map_iff.
  setoid_rewrite list_elem_of_In. naive_solver.
Qed.

Lemma exists_row_true p t : exists_row p t = true <-> exists r, r ∈ t /\ p r = true.
Proof.
  unfold exists_row. rewrite existsb_exists. by setoid_rewrite list_elem_of_In.
Qed.

Lemma exists_row_false p t : exists_row p t = false <-> forall r, r ∈ t -> p r = false.
Proof.
  rewrite <- not_true_iff_false, exists_row_true.
  split.
  - intros Hn r Hr. destruct (p r) eqn:Hp; [|done]. exfalso; eauto.
  - intros Hall (r & Hr & Hp). rewrite Hall in Hp; done.
Qed.

Lemma select_one_Some p t r : select_one p t = Some r -> r ∈ t /\ p r = true.
Proof. intros H. apply find_some in H. by rewrite list_elem_of_In. Qed.

Lemma select_one_None p t : select_one p t = None -> forall r, r ∈ t -> p r = false.
Proof. intros H r Hr. eapply find_none; [exact H|]. by apply list_elem_of_In. Qed.

Lemma length_update_where p f t : length (update_where p f t) = length t.
Proof. apply length_map. Qed.

(** An update that leaves a projection of every row alone leaves it alone in
    the table. *)
Lemma map_update_where {A} (k : R -> A) p f t :
  (forall r, p r = true -> k (f r) = k r) -> map k (update_where p f t) = map k t.
Proof.
  intros Hk. unfold update_where. rewrite map_map. apply map_ext.
  intros r. destruct (p r) eqn:Hp; auto.
Qed.

Lemma map_update_where_in {A} (k : R -> A) p f t :
  (forall r, r ∈ t -> p r = true -> k (f r) = k r) -> map k (update_where p f t) = map k t.
Proof.
  intros Hk. unfold update_where. rewrite map_map. apply map_ext_in.
  intros r Hr%list_elem_of_In. destruct (p r) eqn:Hp; auto.
Qed.

(** Two updates of the same rows by the same function, one after the other, on
    disjoint conditions the function keeps. *)
Lemma update_where_compose p q f t :
  (forall r, p r = true -> q (f r) = false) ->
  (forall r, p r = true -> q r = false) ->
  update_where q f (update_where p f t) = update_where (fun r => p r || q r) f t.
Proof.
  intros Hpq Hd. unfold update_where. rewrite map_map. apply map_ext. intros r.
  destruct (p r) eqn:Hp; simpl; [by rewrite Hpq|done].
Qed.

Lemma update_where_ext p q f t :
  (forall r, r ∈ t -> p r = q r) -> update_where p f t = update_where q f t.
Proof.
  intros He. unfold update_where. apply map_ext_in. intros r Hr%list_elem_of_In. by rewrite He.
Qed.

(** An update that keeps the rows' keys, on a table where the key is unique. *)
Lemma update_where_lookup p f t r :
  r ∈ t -> (if p r then f r else r) ∈ update_where p f t.
Proof. intros Hr. apply elem_of_update_where. by exists r. Qed.

Lemma update_where_none p f t :
  (forall r, r ∈ t -> p r = false) -> update_where p f t = t.
Proof.
  intros Hn. unfold update_where. rewrite <- (map_id t) at 2.
  apply map_ext_in. intros r Hr. rewrite Hn; [done|]. by apply list_elem_of_In.
Qed.

(** An update that creates no new match, and a stronger condition, match no
    more rows. *)
Lemma changes_update_where_le p q f t :
  (forall r, q r = true -> p (f r) = true -> p r = true) ->
  (changes p (update_where q f t) <= changes p t)%nat.
Proof.
  intros Hf. unfold changes, update_where. induction t as [|r t IH]; simpl; [done|].
  destruct (q r) eqn:Hq; [destruct (p (f r)) eqn:Hp; [rewrite (Hf r) by done|]|];
    destruct (p r); simpl; lia.
Qed.

Lemma changes_le p q t :
  (forall r, p r = true -> q r = true) -> (changes p t <= changes q t)%nat.
Proof.
  intros Hpq. unfold changes. induction t as [|r t IH]; simpl; [done|].
  destruct (p r) eqn:Hp; [rewrite (Hpq r) by done|destruct (q r)]; simpl; lia.
Qed.

Lemma changes_app p t u : changes p (t ++ u) = (changes p t + changes p u)%nat.
Proof. unfold changes. by rewrite List.filter_app, length_app. Qed.

Lemma changes_zero p t : (forall r, r ∈ t -> p r = false) -> changes p t = 0%nat.
Proof.
  intros Hn. unfold changes. induction t as [|r t IH]; simpl; [done|].
  rewrite Hn by by left. apply IH. intros x Hx. apply Hn. by right.
Qed.

(** At most one row matches. *)
Lemma changes_le_one p t r r' :
  (changes p t <= 1)%nat -> r ∈ t -> r' ∈ t -> p r = true -> p r' = true -> r = r'.
Proof.
  unfold changes. intros Hle Hr Hr' Hp Hp'.
  assert (r ∈ select p t /\ r' ∈ select p t) as [H1 H2] by by rewrite !elem_of_select.
  unfold select in *. destruct (List.filter p t) as [|x [|y l]]; simpl in Hle; [| |lia].
  - by apply elem_of_nil in H1.
  - apply list_elem_of_singleton in H1 as ->, H2 as ->. done.
Qed.

(** A key that identifies rows. *)
Lemma NoDup_map_inj {A} (k : R -> A) t r r' :
  NoDup (map k t) -> r ∈ t -> r' ∈ t -> k r = k r' -> r = r'.
Proof.
  induction t as [|x t IH]; simpl; [by intros _ ?%elem_of_nil|].
  intros [Hx Hnd]%NoDup_cons Hr Hr' Heq.
  assert (Hin : forall y, y ∈ t -> k y ∈ map k t).
  { intros y. rewrite !list_elem_of_In. apply in_map. }
  apply elem_of_cons in Hr as [->|Hr]; apply elem_of_cons in Hr' as [->|Hr']; [done| | |auto].
  - exfalso. apply Hx. rewrite Heq. auto.
  - exfalso. apply Hx. rewrite <- Heq. auto.
Qed.

Lemma filter_nil p t : (forall r, r ∈ t -> p r = false) -> List.filter p t = [].
Proof.
  intros Hn. apply length_zero_iff_nil. by apply changes_zero.
Qed.

(** At most one row matches when the matching rows share a unique key. *)
Lemma changes_unique {A} (k : R -> A) p t :
  NoDup (map k t) -> (forall r s, p r = true -> p s = true -> k r = k s) -> (changes p t <= 1)%nat.
Proof.
  intros Hnd Hk. induction t as [|x t IH]; [cbn; lia|]. apply NoDup_cons in Hnd as [Hx Hnd].
  unfold changes in *. simpl. destruct (p x) eqn:Hp; [|by apply IH].
  rewrite filter_nil; [simpl; lia|]. intros r Hr. destruct (p r) eqn:Hpr; [|done].
  destruct Hx. rewrite (Hk x r Hp Hpr). apply list_elem_of_In, in_map. by apply list_elem_of_In.
Qed.

Lemma changes_pos p t : (0 < changes p t)%nat <-> exists r, r ∈ t /\ p r = true.
Proof.
  unfold changes. split.
  - destruct (List.filter p t) as [|r l] eqn:E; simpl; [lia|]. intros _.
    exists r. apply elem_of_select. unfold select. rewrite E. by left.
  - intros (r & Hr & Hp). assert (Hin : r ∈ select p t) by by apply elem_of_select.
    unfold select in Hin. destruct (List.filter p t); simpl; [by apply elem_of_nil in Hin|lia].
Qed.
End Table.

(** The rows of one fleet, of a table that is a map. *)
Definition fleet_rows `{Countable K} {V} (fleet_of : V -> string) (fleet : string) (t : gmap K V) : list (K * V) :=
  map_to_list (filter (fun kv => fleet_of (snd kv) = fleet) t).

Lemma elem_of_fleet_rows `{Countable K} {V} (f : V -> string) fleet (t : gmap K V) i v :
  (i, v) ∈ fleet_rows f fleet t <-> t !! i = Some v /\ f v = fleet.
Proof. unfold fleet_rows. by rewrite elem_of_map_to_list, map_lookup_filter_Some. Qed.

(** ** ORDER BY

    A stable insertion sort by an integer key; [ORDER BY k DESC, rowid DESC] is
    the reverse of it. *)
Section OrderBy.
Context {R : Type} (key : R -> Z).

Fixpoint insert_by (x : R) (l : list R) : list R :=
  match l with
  | [] => [x]
  | y :: l' => if (key x <=? key y)%Z then x :: y :: l' else y :: insert_by x l'
  end.

Definition order_by (l : list R) : list R := foldr insert_by [] l.

Lemma insert_by_perm x l : insert_by x l ≡ₚ x :: l.
Proof.
  induction l as [|y l IH]; simpl; [done|].
  destruct (_ <=? _)%Z; [done|]. rewrite IH. apply perm_swap.
Qed.

Lemma order_by_perm l : order_by l ≡ₚ l.
Proof.
  induction l as [|x l IH]; simpl; [done|]. by rewrite insert_by_perm, IH.
Qed.

Lemma insert_by_sorted x l :
  StronglySorted (fun a b => (key a <= key b)%Z) l ->
  StronglySorted (fun a b => (key a <= key b)%Z) (insert_by x l).
Proof.
  induction 1 as [|y l Hs IH Hall]; simpl; [by repeat constructor|].
  destruct (key x <=? key y)%Z eqn:E.
  - apply Z.leb_le in E. constructor; [by constructor|].
    constructor; [done|]. eapply Forall_impl; [exact Hall|]. simpl; lia.
  - apply Z.leb_gt in E. constructor; [done|].
    rewrite insert_by_perm. constructor; [lia|done].
Qed.

Lemma order_by_sorted l : StronglySorted (fun a b => (key a <= key b)%Z) (order_by l).
Proof.
  induction l; simpl; [constructor|]. by apply insert_by_sorted.
Qed.

Lemma order_by_id l : StronglySorted (fun a b => (key a <= key b)%Z) l -> order_by l = l.
Proof.
  induction 1 as [|x l Hs IH Hall]; simpl; [done|]. rewrite IH.
  destruct Hall as [|y l Hxy _]; simpl; [done|]. by rewrite (proj2 (Z.leb_le _ _) Hxy).
Qed.

Lemma elem_of_order_by x l : x ∈ order_by l <-> x ∈ l.
Proof. by rewrite order_by_perm. Qed.

(** SELECT ... ORDER BY key DESC LIMIT 1 *)
Definition latest_by (l : list R) : option R := last (order_by l).

Lemma latest_by_Some x l : latest_by l = Some x -> x ∈ l.
Proof.
  unfold latest_by. intros H. apply elem_of_order_by.
  apply last_Some in H as [l' ->]. apply elem_of_app. right. by left.
Qed.

Lemma latest_by_None l : latest_by l = None -> l = [].
Proof.
  unfold latest_by. intros H%last_None.
  apply Permutation_nil_r. by rewrite <- (order_by_perm l), H.
Qed.

Lemma order_by_snoc x l : (forall y, y ∈ l -> (key y <= key x)%Z) -> order_by (l ++ [x]) = (order_by l ++ [x])%list.
Proof.
  induction l as [|y l IH]; [done|]. intros Hle. simpl. rewrite IH by (intros z Hz; apply Hle; by right).
  assert (Hy : (key y <= key x)%Z) by (apply Hle; by left).
  generalize (order_by l). intros l'. induction l' as [|z l' IH']; simpl.
  - by rewrite (proj2 (Z.leb_le _ _) Hy).
  - rewrite IH'. by destruct (_ <=? _)%Z.
Qed.

Lemma latest_by_snoc x l : (forall y, y ∈ l -> (key y <= key x)%Z) -> latest_by (l ++ [x]) = Some x.
Proof. intros Hle. unfold latest_by. by rewrite order_by_snoc, last_snoc. Qed.

Lemma latest_by_max x l y : latest_by l = Some x -> y ∈ l -> (key y <= key x)%Z.
Proof.
  unfold latest_by. intros H Hy. apply elem_of_order_by in Hy.
  pose proof (order_by_sorted l) as Hs.
  apply last_Some in H as [l' Hl]. rewrite Hl in Hs, Hy. clear Hl.
  induction l' as [|z l' IH]; simpl in *.
  - apply list_elem_of_singleton in Hy. subst. lia.
  - apply StronglySorted_inv in Hs as [Hs Hall].
    apply elem_of_cons in Hy as [->|Hy]; [|auto].
    rewrite Forall_forall in Hall. apply Hall. apply elem_of_app. right. by left.
Qed.

(** Stability: dropping rows before or after the sort is the same. *)
Lemma insert_by_filter q x l :
  StronglySorted (fun a b => (key a <= key b)%Z) l ->
  List.filter q (insert_by x l) = if q x then insert_by x (List.filter q l) else List.filter q l.
Proof.
  assert (Hhead : forall l, Forall (fun b => (key x <= key b)%Z) l -> insert_by x l = x :: l).
  { intros [|y l'] Hf; [done|]. apply Forall_inv in Hf. simpl. by rewrite (proj2 (Z.leb_le _ _) Hf). }
  induction 1 as [|y l Hs IH Hall]; [done|]. cbn [insert_by]. destruct (Z.leb_spec (key x) (key y)).
  - cbn [List.filter]. destruct (q x); [|done]. rewrite Hhead; [done|].
    assert (Hxl : Forall (fun b => (key x <= key b)%Z) (y :: l)).
    { constructor; [done|]. eapply Forall_impl; [exact Hall|]. simpl; lia. }
    rewrite Forall_forall in Hxl |- *. intros b Hb. apply Hxl. apply list_elem_of_In.
    apply list_elem_of_In in Hb. by apply (proj1 (filter_In q b (y :: l))) in Hb as [? _].
  - cbn [List.filter]. rewrite IH. destruct (q y), (q x); try done. cbn [insert_by].
    destruct (Z.leb_spec (key x) (key y)); [lia|done].
Qed.

Lemma order_by_filter q l : order_by (List.filter q l) = List.filter q (order_by l).
Proof.
  induction l as [|x l IH]; [done|]. simpl order_by at 2. change (foldr insert_by [] l) with (order_by l).
  rewrite insert_by_filter by apply order_by_sorted. simpl. destruct (q x); simpl; [|done]. by rewrite <- IH.
Qed.

Lemma latest_by_filter q l x : latest_by l = Some x -> q x = true -> latest_by (List.filter q l) = Some x.
Proof.
  unfold latest_by. rewrite order_by_filter. intros [l' ->]%last_Some Hq.
  rewrite List.filter_app. simpl. rewrite Hq. apply last_snoc.
Qed.
End OrderBy.

(** ** Finite sets *)

Lemma size_list_to_set_le `{Countable A} (l : list A) :
  (size (list_to_set l : gset A) <= length l)%nat.
Proof.
  induction l as [|x l IH]; [done|]. cbn [list_to_set length].
  rewrite size_union_alt, size_singleton.
  assert (size (list_to_set l ∖ {[x]} : gset A) <= size (list_to_set l : gset A))%nat
    by (apply subseteq_size; set_solver).
  lia.
Qed.

(** ** Lists *)

Section Lists.
Context {A : Type}.
Implicit Types (p q : A -> bool) (l : list A).

Lemma elem_of_where p l x : x ∈ List.filter p l <-> x ∈ l /\ p x = true.
Proof. by rewrite !list_elem_of_In, filter_In. Qed.

Lemma filter_sublist p l : sublist (List.filter p l) l.
Proof. induction l as [|x l IH]; simpl; [done|]. destruct (p x); by constructor. Qed.

Lemma sublist_map {B} (f : A -> B) l l' : sublist l l' -> sublist (map f l) (map f l').
Proof. induction 1; simpl; [done|by constructor..]. Qed.

Lemma sublist_filter p l l' : sublist l l' -> sublist (List.filter p l) (List.filter p l').
Proof. induction 1 as [|x l l' _ IH|x l l' _ IH]; simpl; [done|..]; destruct (p x); try done; by constructor. Qed.

Lemma filter_perm p l l' : l ≡ₚ l' -> List.filter p l ≡ₚ List.filter p l'.
Proof.
  induction 1 as [|x l l' _ IH|x y l|l1 l2 l3 _ IH1 _ IH2]; simpl; [done| | |by rewrite IH1];
    repeat match goal with |- context [p ?z] => destruct (p z) end; by try constructor.
Qed.

Lemma find_filter p q l : List.find (fun x => p x && q x) l = List.find p (List.filter q l).
Proof.
  induction l as [|x l IH]; [done|]. simpl. destruct (q x); simpl; [by rewrite andb_true_r; destruct (p x)|].
  by rewrite andb_false_r.
Qed.

Lemma find_ext p q l : (forall x, p x = q x) -> List.find p l = List.find q l.
Proof. intros Hpq. induction l as [|x l IH]; [done|]. simpl. by rewrite Hpq, IH. Qed.

Lemma filter_filter p q l : List.filter p (List.filter q l) = List.filter (fun x => q x && p x) l.
Proof. induction l as [|x l IH]; [done|]. simpl. destruct (q x); simpl; by rewrite IH. Qed.

Lemma filter_ext' p q l : (forall x, p x = q x) -> List.filter p l = List.filter q l.
Proof. intros Hpq. induction l as [|x l IH]; [done|]. simpl. by rewrite Hpq, IH. Qed.

Lemma elem_of_drop_incl n l x : x ∈ drop n l -> x ∈ l.
Proof. rewrite <- (take_drop n l) at 2. rewrite elem_of_app. by right. Qed.

Lemma elem_of_take_drop l i x : x ∈ (take i l ++ drop (S i) l)%list -> x ∈ l.
Proof.
  rewrite <- (take_drop i l) at 3. rewrite !elem_of_app. intros [?|Hx]; [by left|right].
  rewrite <- Nat.add_1_r, <- drop_drop in Hx. by apply elem_of_drop_incl in Hx.
Qed.
End Lists.

(** ** Tactics *)

Lemma perm_end {A} (l l' : list A) : (l ++ [] ≡ₚ l' ++ [])%list -> l ≡ₚ l'.
Proof. by rewrite !app_nil_r. Qed.

(** The same parts, appended in another order. *)
Ltac perm_pull X :=
  repeat match goal with
    | |- Permutation _ (X ++ _)%list => fail 1
    | |- Permutation _ ?R => match R with context [(?Y ++ X ++ ?Z)%list] => rewrite (Permutation_app_swap_app Y X Z) end
    end.
Ltac perm :=
  apply perm_end; rewrite <- ?app_assoc; cbn [app];
  repeat (first [reflexivity
    | match goal with |- Permutation (?X ++ _)%list _ => perm_pull X; apply Permutation_app_head end]).

(** [lia] on quotients and remainders by constants. *)
Ltac zdiv := Z.div_mod_to_equations; lia.

(** Follow the code of an operation in a hypothesis that says it returned [Ok]:
    every guard that throws is discharged, every guard that passed is kept as an
    equation. *)
Ltac inv_ok H :=
  repeat (cbv beta iota zeta in H;
          match type of H with
          | Throw _ = Ok _ => discriminate H
          | context [match ?x with _ => _ end] =>
              lazymatch x with
              | context [match _ with _ => _ end] => fail
              | _ => let E := fresh "E" in destruct x eqn:E; try discriminate H
              end
          end);
  try (injection H; clear H; intros; subst).

(** Turn the boolean guards of the context into propositions. *)
Ltac bools :=
  cbv beta in *;
  repeat match goal with
    | H : bool_decide _ = true |- _ => apply bool_decide_eq_true in H
    | H : bool_decide _ = false |- _ => apply bool_decide_eq_false in H
    | H : negb _ = true |- _ => apply negb_true_iff in H
    | H : negb _ = false |- _ => apply negb_false_iff in H
    | H : _ && _ = true |- _ => apply andb_true_iff in H as [? ?]
    | H : _ || _ = false |- _ => apply orb_false_iff in H as [? ?]
    | H : (_ <=? _)%Z = true |- _ => apply Z.leb_le in H
    | H : (_ <=? _)%Z = false |- _ => apply Z.leb_gt in H
    | H : (_ =? _)%Z = true |- _ => apply Z.eqb_eq in H
    | H : (_ =? _)%Z = false |- _ => apply Z.eqb_neq in H
    | H : (_ <? _)%Z = true |- _ => apply Z.ltb_lt in H
    | H : (_ <? _)%Z = false |- _ => apply Z.ltb_ge in H
    end.

Create HintDb ekho.
#[export] Hint Resolve elem_of_select elem_of_order_by latest_by_Some : ekho.

(** ** Strings *)

(** The ASCII white space [String.prototype.trim] removes (code points 9-13, 32
    and the no-break space 160). *)
Definition is_space (c : Ascii.ascii) : bool :=
  let n := Ascii.nat_of_ascii c in
  ((9 <=? n) && (n <=? 13) || (n =? 32) || (n =? 160))%nat.

Fixpoint trim_left (s : string) : string :=
  match s with
  | String.EmptyString => s
  | String.String c s' => if is_space c then trim_left s' else s
  end.

Fixpoint trim_right (s : string) : string :=
  match s with
  | String.EmptyString => s
  | String.String c s' =>
      match trim_right s' with
      | String.EmptyString =>
          if is_space c then String.EmptyString else String.String c String.EmptyString
      | r => String.String c r
      end
  end.

(** [s.trim()] *)
Definition trim (s : string) : string := trim_right (trim_left s).
