(* ===== verification/Walk.v ===== *)
(** * Walks with a visited set

    Two loops of the relay follow the recorded endorser of a key until a
    verdict, with a set of the keys walked so far because the live table may
    hold a cycle.  A walk over a deterministic step returns [true] exactly when
    some number of steps reaches the verdict [true]: the visited set only cuts
    off walks that would never end. *)

From S2P Require Import Prelude.

Inductive verdict (A : Type) : Type :=
  | Stop (b : bool)
  | Next (a : A).
Arguments Stop {A} b.
Arguments Next {A} a.

Section Walk.
Context {A : Type} `{Countable A} (step : A -> verdict A).

Fixpoint walk (fuel : nat) (walked : gset A) (c : A) : bool :=
  match fuel with
  | O => false
  | S fuel' =>
      if bool_decide (c ∈ walked) then false
      else match step c with
           | Stop b => b
           | Next p => walk fuel' ({[c]} ∪ walked) p
           end
  end.

(** [c] reaches the verdict [true] after [n] hops. *)
Inductive reaches : nat -> A -> Prop :=
  | reaches_stop c : step c = Stop true -> reaches 0 c
  | reaches_next n c p : step c = Next p -> reaches n p -> reaches (S n) c.

Lemma reaches_unique n m c : reaches n c -> reaches m c -> n = m.
Proof.
  intros Hn. revert m. induction Hn as [c Hs|n c p Hs Hn IH]; intros m Hm;
    inversion Hm as [c' Hs'|n' c' p' Hs' Hm']; subst;
    rewrite Hs in Hs'; try discriminate; [done|].
  injection Hs' as <-. f_equal. by apply IH.
Qed.

Lemma walk_sound fuel walked c : walk fuel walked c = true -> exists n, reaches n c.
Proof.
  revert walked c. induction fuel as [|fuel IH]; simpl; intros walked c Hw; [done|].
  case_bool_decide; [done|].
  destruct (step c) as [b|p] eqn:Hs.
  - subst. exists 0. by constructor.
  - apply IH in Hw as [n Hn]. exists (S n). by econstructor.
Qed.

Lemma walk_complete n c fuel walked :
  reaches n c -> (n < fuel)%nat ->
  (forall w, w ∈ walked -> exists m, (n < m)%nat /\ reaches m w) ->
  walk fuel walked c = true.
Proof.
  intros Hr. revert fuel walked. induction Hr as [c Hs|n c p Hs Hr IH];
    intros [|fuel] walked Hf Hw; try lia; simpl.
  - rewrite bool_decide_false, Hs; [done|].
    intros (m & Hm & Hrm)%Hw.
    pose proof (reaches_unique 0 m c ltac:(by constructor) Hrm). lia.
  - rewrite bool_decide_false, Hs.
    + apply IH; [lia|]. intros w [->%elem_of_singleton|Hin]%elem_of_union.
      * exists (S n). split; [lia|]. by econstructor.
      * destruct (Hw w Hin) as (m & Hm & Hrm). exists m. split; [lia|done].
    + intros (m & Hm & Hrm)%Hw.
      pose proof (reaches_unique (S n) m c ltac:(by econstructor) Hrm). lia.
Qed.

(** Every node passed on the way lies in a finite set, so the number of hops
    is below its size. *)
Lemma reaches_bound (D : gset A) n c :
  (forall x p, step x = Next p -> x ∈ D) -> reaches n c -> (n <= size D)%nat.
Proof.
  intros HD Hr.
  assert (exists X : gset A, X ⊆ D /\ size X = n /\ forall x, x ∈ X -> exists m, (m <= n)%nat /\ reaches m x)
    as (X & HX & <- & _); [|by apply subseteq_size].
  induction Hr as [c Hs|n c p Hs Hr (X & HX & Hsz & Hm)].
  - exists ∅. split_and!; [set_solver|apply size_empty|set_solver].
  - exists ({[c]} ∪ X). split_and!.
    + apply HD in Hs. set_solver.
    + rewrite size_union; [rewrite size_singleton; lia|].
      apply disjoint_singleton_l. intros (m & Hle & Hrm)%Hm.
      pose proof (reaches_unique (S n) m c ltac:(by econstructor) Hrm). lia.
    + intros x [->%elem_of_singleton|(m & Hle & Hrm)%Hm]%elem_of_union.
      * exists (S n). split; [lia|]. by econstructor.
      * exists m. split; [lia|done].
Qed.

Lemma walk_spec (D : gset A) fuel c :
  (forall x p, step x = Next p -> x ∈ D) -> (size D < fuel)%nat ->
  walk fuel ∅ c = true <-> exists n, reaches n c.
Proof.
  intros HD Hf. split; [apply walk_sound|].
  intros [n Hn]. apply (walk_complete n); [done| |set_solver].
  pose proof (reaches_bound D n c HD Hn). lia.
Qed.
End Walk.
