(* ===== verification/Json.v ===== *)
(** * JSON values and the canonical serialization

    Signed payloads are plain JSON objects; [canonicalize] (the same function in
    [packages/relay/src/operator-identity.ts] and
    [packages/sdk/src/identity/primitives.ts]) fixes the exact text that is
    signed.  Strings are sequences of code units; the model covers the code
    units 0-255.  Numbers are the integers the payloads carry. *)

From S2P Require Import Prelude.
Import Ascii String.
Open Scope string_scope.

(** The values [JSON.parse] produces. *)
Inductive json : Type :=
  | JNull
  | JBool (b : bool)
  | JNum (z : Z)
  | JStr (s : string)
  | JArr (l : list json)
  | JObj (kvs : list (string * json)).

(** [JSON.stringify] of a string: quote, backslash and the control characters
    are escaped, everything else is copied. *)
Definition hex_digit (n : nat) : ascii :=
  ascii_of_nat (if (n <? 10)%nat then 48 + n else 87 + n).

Definition escape_char (c : ascii) : string :=
  let n := nat_of_ascii c in
  if (n =? 34)%nat then "\" +:+ String c ""
  else if (n =? 92)%nat then "\\"
  else if (n =? 8)%nat then "\b"
  else if (n =? 9)%nat then "\t"
  else if (n =? 10)%nat then "\n"
  else if (n =? 12)%nat then "\f"
  else if (n =? 13)%nat then "\r"
  else if (n <? 32)%nat then
    "\u00" +:+ String (hex_digit (n / 16)) (String (hex_digit (n mod 16)) "")
  else String c "".

Fixpoint escape_string (s : string) : string :=
  match s with
  | "" => ""
  | String c s' => escape_char c +:+ escape_string s'
  end.

Definition dquote : string := String (ascii_of_nat 34) "".

Definition stringify_string (s : string) : string :=
  dquote +:+ escape_string s +:+ dquote.

(** Decimal text of an integer. *)
Definition digit (n : Z) : ascii := ascii_of_nat (48 + Z.to_nat n).

Fixpoint digits_fuel (fuel : nat) (n : Z) (acc : string) : string :=
  match fuel with
  | O => acc
  | S f =>
      let acc' := String (digit (n mod 10)) acc in
      if (n <? 10)%Z then acc' else digits_fuel f (n / 10) acc'
  end.

(** Enough fuel: one unit per binary digit. *)
Definition stringify_nat (n : Z) : string := digits_fuel (S (Z.to_nat (Z.log2_up (n + 1)))) n "".

Definition stringify_num (z : Z) : string :=
  if (z <? 0)%Z then "-" +:+ stringify_nat (- z) else stringify_nat z.

(** [Array.prototype.sort] on strings compares code units. *)
Fixpoint string_leb (a b : string) : bool :=
  match a, b with
  | "", _ => true
  | String _ _, "" => false
  | String x a', String y b' =>
      let m := nat_of_ascii x in
      let n := nat_of_ascii y in
      if (m <? n)%nat then true else if (n <? m)%nat then false else string_leb a' b'
  end.

Fixpoint insert_key {A} (x : string * A) (l : list (string * A)) : list (string * A) :=
  match l with
  | [] => [x]
  | y :: l' => if string_leb x.1 y.1 then x :: y :: l' else y :: insert_key x l'
  end.

Definition sort_keys {A} (l : list (string * A)) : list (string * A) := foldr insert_key [] l.

Definition join_comma (l : list string) : string :=
  match l with
  | [] => ""
  | x :: l' => x +:+ foldr (fun s acc => "," +:+ s +:+ acc) "" l'
  end.

Fixpoint canonicalize (v : json) : string :=
  match v with
  | JNull => "null"
  | JBool true => "true"
  | JBool false => "false"
  | JNum z => stringify_num z
  | JStr s => stringify_string s
  | JArr l => "[" +:+ join_comma (map canonicalize l) +:+ "]"
  | JObj kvs =>
      let rendered := map (fun kv => (kv.1, canonicalize kv.2)) kvs in
      "{" +:+ join_comma (map (fun kt => stringify_string kt.1 +:+ ":" +:+ kt.2)
                              (sort_keys rendered)) +:+ "}"
  end.

(** [obj[k]] on a parsed object: [None] is [undefined]. *)
Definition obj_get (k : string) (kvs : list (string * json)) : option json :=
  snd <$> List.find (fun kv => kv.1 ==? k) kvs.

Example canonicalize_sorts :
  canonicalize (JObj [("b", JNum (-12)); ("a", JArr [JStr "x"; JNull])]) =
  "{" +:+ dquote +:+ "a" +:+ dquote +:+ ":[" +:+ dquote +:+ "x" +:+ dquote +:+ ",null],"
      +:+ dquote +:+ "b" +:+ dquote +:+ ":-12}".
Proof. vm_compute. reflexivity. Qed.
