(* ===== verification/IsoTime.v ===== *)
(** * Timestamps

    The relay stores every time as the text [Date.prototype.toISOString] makes
    and compares the texts.  This file gives that text ([to_iso]), the parse of
    the form [ISO_TIMESTAMP] accepts ([parse_iso]) and the check
    [isCanonicalIsoTimestamp], and shows that on the years 0-9999 a canonical
    text and its millisecond count determine each other.  The rest of the
    development then carries times as millisecond counts in [Z]. *)

From S2P Require Import Prelude.
Import Ascii String.
Open Scope Z_scope.

(** ** The proleptic Gregorian calendar *)

Definition is_leap (y : Z) : bool :=
  (y mod 4 =? 0) && (negb (y mod 100 =? 0) || (y mod 400 =? 0)).

(** Days from 0000-01-01 to the first day of year [y]. *)
Definition days_before_year (y : Z) : Z :=
  365 * y + (y + 3) / 4 - (y + 99) / 100 + (y + 399) / 400.

(** Days from 0000-01-01 to 1970-01-01. *)
Definition epoch_days : Z := 719528.

(** The year of a day number: an estimate, then at most one step either way. *)
Definition year_of_days (d : Z) : Z :=
  let c := 400 * d / 146097 in
  if days_before_year (c + 1) <=? d then c + 1
  else if d <? days_before_year c then c - 1 else c.

(** Days of the year before month [m] (1-based; month 13 is the year's end). *)
Definition days_before_month (leap : bool) (m : Z) : Z :=
  let l := if leap then 1 else 0 in
  if m <=? 1 then 0 else if m <=? 2 then 31
  else l + (if m <=? 3 then 59 else if m <=? 4 then 90 else if m <=? 5 then 120
  else if m <=? 6 then 151 else if m <=? 7 then 181 else if m <=? 8 then 212
  else if m <=? 9 then 243 else if m <=? 10 then 273 else if m <=? 11 then 304
  else if m <=? 12 then 334 else 365).

Definition month_of_yday (leap : bool) (yd : Z) : Z :=
  let at_least m := days_before_month leap m <=? yd in
  if at_least 12 then 12 else if at_least 11 then 11 else if at_least 10 then 10
  else if at_least 9 then 9 else if at_least 8 then 8 else if at_least 7 then 7
  else if at_least 6 then 6 else if at_least 5 then 5 else if at_least 4 then 4
  else if at_least 3 then 3 else if at_least 2 then 2 else 1.

(** The fields of a time. *)
Record civil := Civil {
  c_year : Z; c_month : Z; c_day : Z;
  c_hour : Z; c_min : Z; c_sec : Z; c_ms : Z
}.

Definition ms_per_day : Z := 86400000.

Definition civil_of_ms (t : Z) : civil :=
  let d := t / ms_per_day + epoch_days in
  let r := t mod ms_per_day in
  let y := year_of_days d in
  let yd := d - days_before_year y in
  let m := month_of_yday (is_leap y) yd in
  Civil y m (yd - days_before_month (is_leap y) m + 1)
        (r / 3600000) (r / 60000 mod 60) (r / 1000 mod 60) (r mod 1000).

Definition ms_of_civil (c : civil) : Z :=
  (days_before_year (c_year c) + days_before_month (is_leap (c_year c)) (c_month c)
    + c_day c - 1 - epoch_days) * ms_per_day
  + c_hour c * 3600000 + c_min c * 60000 + c_sec c * 1000 + c_ms c.

(** ** The text *)

Definition digit (n : Z) : ascii := ascii_of_nat (48 + Z.to_nat n).
Definition is_digit (c : ascii) : bool :=
  let n := nat_of_ascii c in ((48 <=? n) && (n <=? 57))%nat.
Definition digit_val (c : ascii) : Z := Z.of_nat (nat_of_ascii c) - 48.

(** [n] in exactly [k] decimal digits. *)
Fixpoint pad (k : nat) (n : Z) : list ascii :=
  match k with
  | O => []
  | S k' => pad k' (n / 10) ++ [digit (n mod 10)]
  end.

Definition chr (n : nat) : ascii := ascii_of_nat n.

(** [YYYY-MM-DDTHH:mm:ss.sssZ] *)
Definition iso_chars (c : civil) : list ascii :=
  pad 4 (c_year c) ++ [chr 45] ++ pad 2 (c_month c) ++ [chr 45] ++ pad 2 (c_day c) ++
  [chr 84] ++ pad 2 (c_hour c) ++ [chr 58] ++ pad 2 (c_min c) ++ [chr 58] ++
  pad 2 (c_sec c) ++ [chr 46] ++ pad 3 (c_ms c) ++ [chr 90].

(** [new Date(t).toISOString()], for the times of the years 0-9999. *)
Definition to_iso (t : Z) : string := string_of_list_ascii (iso_chars (civil_of_ms t)).

(** The decimal value of exactly [k] leading digits. *)
Fixpoint read_digits (k : nat) (acc : Z) (s : list ascii) : option (Z * list ascii) :=
  match k with
  | O => Some (acc, s)
  | S k' =>
      match s with
      | c :: s' => if is_digit c then read_digits k' (10 * acc + digit_val c) s' else None
      | [] => None
      end
  end.

Definition read_char (n : nat) (s : list ascii) : option (list ascii) :=
  match s with
  | c :: s' => if c ==? chr n then Some s' else None
  | [] => None
  end.

(** The optional fraction: [\.\d{1,3}], in milliseconds. *)
Definition read_fraction (s : list ascii) : option (Z * list ascii) :=
  match read_char 46 s with
  | None => Some (0, s)
  | Some s1 =>
      match read_digits 3 0 s1 with
      | Some (n, r) => Some (n, r)
      | None =>
          match read_digits 2 0 s1 with
          | Some (n, r) => Some (10 * n, r)
          | None =>
              match read_digits 1 0 s1 with
              | Some (n, r) => Some (100 * n, r)
              | None => None
              end
          end
      end
  end.

(** The bounds the ISO date parser checks: a month, a day of the longest month,
    and a time of day up to 24:00:00. *)
Definition in_bounds (c : civil) : bool :=
  (1 <=? c_month c) && (c_month c <=? 12) && (1 <=? c_day c) && (c_day c <=? 31) &&
  (c_min c <=? 59) && (c_sec c <=? 59) &&
  ((c_hour c <=? 23) ||
   ((c_hour c =? 24) && (c_min c =? 0) && (c_sec c =? 0) && (c_ms c =? 0))).

(** [new Date(s)] on the texts [ISO_TIMESTAMP] matches; [None] for a text it
    does not match. *)
Definition parse_iso_chars (s : list ascii) : option Z :=
  '(y, s) ← read_digits 4 0 s; s ← read_char 45 s;
  '(mo, s) ← read_digits 2 0 s; s ← read_char 45 s;
  '(d, s) ← read_digits 2 0 s; s ← read_char 84 s;
  '(h, s) ← read_digits 2 0 s; s ← read_char 58 s;
  '(mi, s) ← read_digits 2 0 s; s ← read_char 58 s;
  '(sec, s) ← read_digits 2 0 s;
  '(ms, s) ← read_fraction s;
  s ← read_char 90 s;
  match s with
  | [] => let c := Civil y mo d h mi sec ms in
          if in_bounds c then Some (ms_of_civil c) else None
  | _ => None
  end.

Definition parse_iso (s : string) : option Z := parse_iso_chars (list_ascii_of_string s).

(** [isCanonicalIsoTimestamp]: the text matches, and printing what it parses to
    gives it back. *)
Definition isCanonicalIsoTimestamp (s : string) : bool :=
  match parse_iso s with
  | Some t => to_iso t ==? s
  | None => false
  end.

(** The times whose year has four digits. *)
Definition iso_min : Z := - epoch_days * ms_per_day.
Definition iso_max : Z := (days_before_year 10000 - epoch_days) * ms_per_day.
Definition in_iso_range (t : Z) : Prop := iso_min <= t < iso_max.

(** ** Calendar lemmas *)

(** Evaluate the month table at literal months. *)
Ltac month_table :=
  cbv [days_before_month Z.add Z.leb Z.compare Pos.add Pos.succ Pos.add_carry
       Pos.compare Pos.compare_cont] in *.

Lemma days_in_year y :
  days_before_year (y + 1) - days_before_year y = 365 + if is_leap y then 1 else 0.
Proof.
  unfold days_before_year, is_leap.
  destruct (y mod 4 =? 0) eqn:E4, (y mod 100 =? 0) eqn:E1, (y mod 400 =? 0) eqn:E400;
    cbn [andb orb negb]; bools; zdiv.
Qed.

Lemma year_of_days_spec d :
  days_before_year (year_of_days d) <= d < days_before_year (year_of_days d + 1).
Proof.
  unfold year_of_days.
  set (c := 400 * d / 146097).
  assert (Hc : 146097 * c <= 400 * d < 146097 * (c + 1)) by (unfold c; zdiv).
  clearbody c.
  destruct (days_before_year (c + 1) <=? d) eqn:E1;
    [|destruct (d <? days_before_year c) eqn:E2]; bools;
    unfold days_before_year in *; zdiv.
Qed.

Lemma month_of_yday_spec (leap : bool) yd :
  0 <= yd < 365 + (if leap then 1 else 0) ->
  1 <= month_of_yday leap yd <= 12 /\
  days_before_month leap (month_of_yday leap yd) <= yd
    < days_before_month leap (month_of_yday leap yd + 1).
Proof.
  intros H. unfold month_of_yday; cbv beta zeta.
  repeat match goal with
    | |- context [if days_before_month leap ?a <=? yd then _ else _] =>
        destruct (days_before_month leap a <=? yd) eqn:?
    end; bools;
  destruct leap; month_table; lia.
Qed.

Lemma ms_of_civil_of_ms t : ms_of_civil (civil_of_ms t) = t.
Proof.
  unfold ms_of_civil, civil_of_ms, ms_per_day; cbn [c_year c_month c_day c_hour c_min c_sec c_ms].
  set (d := t / 86400000 + epoch_days). set (r := t mod 86400000).
  assert (Hr : 0 <= r < 86400000) by (unfold r; zdiv).
  assert (Ht : t = (d - epoch_days) * 86400000 + r) by (unfold d, r; zdiv).
  clearbody d r. subst t.
  set (a := days_before_year _). set (b := days_before_month _ _).
  replace (a + b + (d - a - b + 1) - 1 - epoch_days) with (d - epoch_days) by lia.
  generalize (d - epoch_days). intros e. zdiv.
Qed.

Lemma month_cases m (P : Z -> Prop) :
  1 <= m <= 12 ->
  P 1 -> P 2 -> P 3 -> P 4 -> P 5 -> P 6 -> P 7 -> P 8 -> P 9 -> P 10 -> P 11 -> P 12 -> P m.
Proof.
  intros Hm. intros.
  assert (Hc : m = 1 \/ m = 2 \/ m = 3 \/ m = 4 \/ m = 5 \/ m = 6 \/ m = 7 \/ m = 8 \/
          m = 9 \/ m = 10 \/ m = 11 \/ m = 12) by lia.
  repeat (destruct Hc as [->|Hc]; [done|]). by subst.
Qed.

Lemma month_bounds (leap : bool) m :
  1 <= m <= 12 ->
  0 <= days_before_month leap m /\
  days_before_month leap m + 31 <= 365 + (if leap then 1 else 0) /\
  days_before_month leap (m + 1) - days_before_month leap m <= 31.
Proof. intros Hm. pattern m. apply month_cases; [done|..]; destruct leap; month_table; lia. Qed.

Lemma days_before_year_mono a b : a <= b -> days_before_year a <= days_before_year b.
Proof. unfold days_before_year. zdiv. Qed.

(** The fields are in the ranges the text has room for. *)
Lemma civil_of_ms_range t :
  in_iso_range t ->
  let c := civil_of_ms t in
  0 <= c_year c < 10000 /\ 1 <= c_month c <= 12 /\ 1 <= c_day c <= 31 /\
  0 <= c_hour c < 24 /\ 0 <= c_min c < 60 /\ 0 <= c_sec c < 60 /\ 0 <= c_ms c < 1000.
Proof.
  unfold in_iso_range, iso_min, iso_max. intros Ht. cbv zeta.
  unfold civil_of_ms; cbn [c_year c_month c_day c_hour c_min c_sec c_ms].
  set (d := t / ms_per_day + epoch_days).
  assert (Hd : 0 <= d < days_before_year 10000) by (unfold d, ms_per_day in *; zdiv).
  pose proof (year_of_days_spec d) as Hy.
  pose proof (days_in_year (year_of_days d)) as Hdy.
  pose proof (month_of_yday_spec (is_leap (year_of_days d)) (d - days_before_year (year_of_days d))
                ltac:(lia)) as (Hm1 & Hm2).
  set (y := year_of_days d) in *. set (m := month_of_yday _ _) in *.
  assert (0 <= y < 10000).
  { clear Hdy Hm1 Hm2. unfold days_before_year in *. zdiv. }
  pose proof (month_bounds (is_leap y) m ltac:(lia)).
  unfold ms_per_day. repeat split; try lia; zdiv.
Qed.

(** ** Text lemmas *)

Lemma digit_is_digit n : 0 <= n < 10 -> is_digit (digit n) = true.
Proof.
  intros H. unfold is_digit, digit. rewrite nat_ascii_embedding by lia.
  apply andb_true_iff; split; apply Nat.leb_le; lia.
Qed.

Lemma digit_val_digit n : 0 <= n < 10 -> digit_val (digit n) = n.
Proof. intros H. unfold digit_val, digit. rewrite nat_ascii_embedding by lia. lia. Qed.

Lemma length_pad k n : length (pad k n) = k.
Proof.
  revert n. induction k as [|k IH]; intros n; simpl; [done|].
  rewrite length_app, IH. simpl. lia.
Qed.

Lemma read_digits_app k j acc s r x :
  read_digits k acc s = Some (x, []) ->
  read_digits (k + j) acc (s ++ r) = read_digits j x r.
Proof.
  revert acc s. induction k as [|k IH]; intros acc s H; simpl in *.
  - by simplify_eq.
  - destruct s as [|c s]; [done|]. simpl. destruct (is_digit c); [auto|done].
Qed.

Lemma read_digits_pad_nil k acc n :
  0 <= n < 10 ^ Z.of_nat k ->
  read_digits k acc (pad k n) = Some (acc * 10 ^ Z.of_nat k + n, []).
Proof.
  revert acc n. induction k as [|k IH]; intros acc n H.
  - cbn in *. do 2 f_equal. lia.
  - cbn [pad]. rewrite Nat2Z.inj_succ, Z.pow_succ_r in * by lia.
    replace (S k) with (k + 1)%nat by lia.
    erewrite read_digits_app; [|apply IH; zdiv].
    cbn [read_digits]. rewrite digit_is_digit, digit_val_digit by zdiv. do 2 f_equal. zdiv.
Qed.

Lemma read_digits_pad k n s :
  0 <= n < 10 ^ Z.of_nat k -> read_digits k 0 (pad k n ++ s) = Some (n, s).
Proof.
  intros H. rewrite <- (Nat.add_0_r k) at 1.
  erewrite read_digits_app; [|by apply read_digits_pad_nil]. done.
Qed.

Lemma read_char_cons n s : read_char n ([chr n] ++ s) = Some s.
Proof. simpl. by rewrite bool_decide_eq_true_2. Qed.

Lemma parse_iso_to_iso t : in_iso_range t -> parse_iso (to_iso t) = Some t.
Proof.
  intros Ht. pose proof (civil_of_ms_range t Ht) as Hr. cbv zeta in Hr.
  unfold parse_iso, to_iso. rewrite list_ascii_of_string_of_list_ascii.
  rewrite <- (ms_of_civil_of_ms t) at 2.
  destruct (civil_of_ms t) as [y m d h mi s ms].
  cbn [c_year c_month c_day c_hour c_min c_sec c_ms] in *.
  unfold iso_chars, parse_iso_chars; cbn [c_year c_month c_day c_hour c_min c_sec c_ms].
  rewrite read_digits_pad by lia; cbn [mbind option_bind]. rewrite read_char_cons.
  cbn [mbind option_bind].
  do 4 (rewrite read_digits_pad by lia; cbn [mbind option_bind]; rewrite read_char_cons;
        cbn [mbind option_bind]).
  rewrite read_digits_pad by lia; cbn [mbind option_bind].
  unfold read_fraction. rewrite read_char_cons. cbv iota.
  rewrite read_digits_pad by lia; cbn [mbind option_bind].
  rewrite <- (app_nil_r [chr 90]), read_char_cons. cbn [mbind option_bind].
  cbv zeta. unfold in_bounds; cbn [c_year c_month c_day c_hour c_min c_sec c_ms].
  rewrite !(proj2 (Z.leb_le _ _)) by lia. done.
Qed.

Lemma to_iso_inj a b : in_iso_range a -> in_iso_range b -> to_iso a = to_iso b -> a = b.
Proof.
  intros Ha Hb H. apply (f_equal parse_iso) in H.
  rewrite !parse_iso_to_iso in H by done. congruence.
Qed.

(** The length of the text of any time, so a longer year would not parse. *)
Lemma to_iso_nonempty t : to_iso t <> EmptyString.
Proof.
  unfold to_iso, iso_chars. intros H.
  apply (f_equal list_ascii_of_string) in H.
  rewrite list_ascii_of_string_of_list_ascii in H. simpl in H.
  by destruct (c_year (civil_of_ms t)).
Qed.

(** ** Canonical texts *)

Lemma read_digits_bounds k acc s n r :
  0 <= acc -> read_digits k acc s = Some (n, r) ->
  acc * 10 ^ Z.of_nat k <= n < (acc + 1) * 10 ^ Z.of_nat k.
Proof.
  revert acc s. induction k as [|k IH]; intros acc s Hacc H.
  - cbn in *. simplify_eq. lia.
  - cbn [read_digits] in H. destruct s as [|c s]; [done|].
    destruct (is_digit c) eqn:Hd; [|done].
    assert (0 <= digit_val c < 10).
    { unfold is_digit, digit_val in *. apply andb_true_iff in Hd as [H1 H2].
      apply Nat.leb_le in H1, H2. lia. }
    apply IH in H; [|lia]. rewrite Nat2Z.inj_succ, Z.pow_succ_r by lia. nia.
Qed.

Lemma read_fraction_bounds s n r : read_fraction s = Some (n, r) -> 0 <= n < 1000.
Proof.
  unfold read_fraction. intros H.
  destruct (read_char 46 s) as [s1|]; [|simplify_eq; lia].
  destruct (read_digits 3 0 s1) as [[a ?]|] eqn:E3;
    [|destruct (read_digits 2 0 s1) as [[a ?]|] eqn:E2;
      [|destruct (read_digits 1 0 s1) as [[a ?]|] eqn:E1; [|done]]];
    simplify_eq;
    match goal with E : read_digits _ _ _ = _ |- _ =>
      apply read_digits_bounds in E; [cbn in E; lia|lia] end.
Qed.

(** What the parse accepts lies in the four-digit years, or is their end. *)
Lemma parse_iso_range s t : parse_iso s = Some t -> iso_min <= t <= iso_max.
Proof.
  unfold parse_iso, parse_iso_chars. intros H.
  repeat match type of H with
    | (?m ≫= _) = _ =>
        let E := fresh "E" in destruct m as [[? ?]|] eqn:E; [|done]; cbn [mbind option_bind] in H
    | (?m ≫= _) = _ =>
        let E := fresh "E" in destruct m as [?|] eqn:E; [|done]; cbn [mbind option_bind] in H
    end.
  case_match; [|done]. cbv zeta in H.
  destruct (in_bounds _) eqn:Hb; [|done]. simplify_eq.
  repeat match goal with
    | E : read_digits _ _ _ = _ |- _ => apply read_digits_bounds in E; [|lia]
    | E : read_fraction _ = _ |- _ => apply read_fraction_bounds in E
    end.
  unfold in_bounds, ms_of_civil in *; cbn [c_year c_month c_day c_hour c_min c_sec c_ms] in *.
  bools. cbn in *.
  pose proof (month_bounds (is_leap z) z0 ltac:(lia)) as (? & ? & _).
  pose proof (days_in_year z). pose proof (days_before_year_mono 0 z ltac:(lia)).
  pose proof (days_before_year_mono (z + 1) 10000 ltac:(lia)).
  unfold iso_min, iso_max. change (days_before_year 0) with 0 in *.
  assert (0 <= z2 * 3600000 + z3 * 60000 + z4 * 1000 + z5 <= ms_per_day).
  { unfold ms_per_day. 
    match goal with Ho : _ || _ = true |- _ => apply orb_true_iff in Ho as [Ho|Ho] end;
      bools; lia. }
  unfold ms_per_day in *. nia.
Qed.

(** [isCanonicalIsoTimestamp] accepts exactly the texts [toISOString] makes of
    the times of the years 0-9999. *)
Lemma canonical_iff s :
  isCanonicalIsoTimestamp s = true <-> exists t, in_iso_range t /\ s = to_iso t.
Proof.
  unfold isCanonicalIsoTimestamp. split.
  - destruct (parse_iso s) as [t|] eqn:Hp; [|done]. intros Hc. bools.
    exists t. split; [|done].
    pose proof (parse_iso_range s t Hp) as Hr.
    destruct (decide (t = iso_max)) as [->|]; [|unfold in_iso_range; lia].
    exfalso. subst s. vm_compute in Hp. congruence.
  - intros (t & Ht & ->). rewrite parse_iso_to_iso by done. by apply bool_decide_eq_true.
Qed.

(** ** The order of the texts is the order of the times *)

(** SQLite compares TEXT by its bytes. *)
Fixpoint lex_compare (a b : list ascii) : comparison :=
  match a, b with
  | [], [] => Eq
  | [], _ => Lt
  | _, [] => Gt
  | x :: a', y :: b' =>
      match Nat.compare (nat_of_ascii x) (nat_of_ascii y) with
      | Eq => lex_compare a' b'
      | c => c
      end
  end.

Definition then_compare (c d : comparison) : comparison := match c with Eq => d | _ => c end.

Lemma lex_compare_app a b r s :
  length a = length b ->
  lex_compare (a ++ r) (b ++ s) = then_compare (lex_compare a b) (lex_compare r s).
Proof.
  revert b. induction a as [|x a IH]; intros [|y b] H; simpl in *; try done.
  destruct (Nat.compare _ _); [|done..]. apply IH. lia.
Qed.

Lemma lex_compare_refl a : lex_compare a a = Eq.
Proof. induction a as [|x a IH]; simpl; [done|]. by rewrite Nat.compare_refl. Qed.

Lemma compare_digit m n :
  0 <= m < 10 -> 0 <= n < 10 ->
  Nat.compare (nat_of_ascii (digit m)) (nat_of_ascii (digit n)) = (m ?= n).
Proof.
  intros Hm Hn. unfold digit. rewrite !nat_ascii_embedding by lia.
  destruct (m ?= n) eqn:E.
  - apply Z.compare_eq in E. subst. apply Nat.compare_refl.
  - apply Nat.compare_lt_iff. rewrite Z.compare_lt_iff in E. lia.
  - apply Nat.compare_gt_iff. rewrite Z.compare_gt_iff in E. lia.
Qed.

Lemma lex_compare_pad k m n :
  0 <= m < 10 ^ Z.of_nat k -> 0 <= n < 10 ^ Z.of_nat k ->
  lex_compare (pad k m) (pad k n) = (m ?= n).
Proof.
  revert m n. induction k as [|k IH]; intros m n Hm Hn.
  - cbn in *. replace m with n by lia. by rewrite Z.compare_refl.
  - rewrite Nat2Z.inj_succ, Z.pow_succ_r in * by lia. cbn [pad].
    rewrite lex_compare_app by by rewrite !length_pad.
    rewrite IH by zdiv. cbn [lex_compare].
    rewrite compare_digit by zdiv.
    destruct (m / 10 ?= n / 10) eqn:E; cbn [then_compare].
    + apply Z.compare_eq in E.
      destruct (m mod 10 ?= n mod 10) eqn:E2; symmetry.
      * apply Z.compare_eq in E2. apply Z.compare_eq_iff. zdiv.
      * rewrite Z.compare_lt_iff in *. zdiv.
      * rewrite Z.compare_gt_iff in *. zdiv.
    + symmetry. rewrite Z.compare_lt_iff in *. zdiv.
    + symmetry. rewrite Z.compare_gt_iff in *. zdiv.
Qed.

Lemma iso_chars_compare c d :
  (0 <= c_year c < 10000 /\ 1 <= c_month c <= 12 /\ 1 <= c_day c <= 31 /\
   0 <= c_hour c < 24 /\ 0 <= c_min c < 60 /\ 0 <= c_sec c < 60 /\ 0 <= c_ms c < 1000) ->
  (0 <= c_year d < 10000 /\ 1 <= c_month d <= 12 /\ 1 <= c_day d <= 31 /\
   0 <= c_hour d < 24 /\ 0 <= c_min d < 60 /\ 0 <= c_sec d < 60 /\ 0 <= c_ms d < 1000) ->
  lex_compare (iso_chars c) (iso_chars d) =
    then_compare (c_year c ?= c_year d) (then_compare (c_month c ?= c_month d)
      (then_compare (c_day c ?= c_day d) (then_compare (c_hour c ?= c_hour d)
        (then_compare (c_min c ?= c_min d) (then_compare (c_sec c ?= c_sec d)
          (c_ms c ?= c_ms d)))))).
Proof.
  intros Hc Hd. unfold iso_chars.
  repeat (rewrite lex_compare_app by (rewrite ?length_pad; done)).
  rewrite !lex_compare_pad by lia. rewrite !lex_compare_refl.
  by destruct (c_ms c ?= c_ms d).
Qed.

Lemma days_before_month_mono (leap : bool) m n :
  1 <= m <= 12 -> m < n <= 12 -> days_before_month leap (m + 1) <= days_before_month leap n.
Proof.
  intros Hm Hn. revert Hn. pattern m. apply month_cases; [done|..]; intros Hn;
    (assert (Hn' : 1 <= n <= 12) by lia; revert Hn; pattern n; apply month_cases; [done|..]);
    intros; destruct leap; month_table; lia.
Qed.

(** A day lies inside its month. *)
Lemma civil_day_in_month t :
  let c := civil_of_ms t in
  days_before_month (is_leap (c_year c)) (c_month c) + c_day c
    <= days_before_month (is_leap (c_year c)) (c_month c + 1) /\
  days_before_month (is_leap (c_year c)) (c_month c) + c_day c
    <= 365 + (if is_leap (c_year c) then 1 else 0).
Proof.
  cbv zeta. unfold civil_of_ms; cbn [c_year c_month c_day c_hour c_min c_sec c_ms].
  set (d := t / ms_per_day + epoch_days).
  pose proof (year_of_days_spec d) as Hy.
  pose proof (days_in_year (year_of_days d)) as Hdy.
  pose proof (month_of_yday_spec (is_leap (year_of_days d)) (d - days_before_year (year_of_days d))
                ltac:(lia)). lia.
Qed.

(** The comparison of two stored timestamps is the comparison of the times. *)
Lemma to_iso_compare a b :
  in_iso_range a -> in_iso_range b ->
  lex_compare (list_ascii_of_string (to_iso a)) (list_ascii_of_string (to_iso b)) = (a ?= b).
Proof.
  intros Ha Hb. unfold to_iso. rewrite !list_ascii_of_string_of_list_ascii.
  pose proof (civil_of_ms_range a Ha) as Ra. pose proof (civil_of_ms_range b Hb) as Rb.
  pose proof (civil_day_in_month a) as Ma. pose proof (civil_day_in_month b) as Mb.
  cbv zeta in *. rewrite iso_chars_compare by done.
  rewrite <- (ms_of_civil_of_ms a) at 8. rewrite <- (ms_of_civil_of_ms b) at 8.
  unfold ms_of_civil.
  destruct (civil_of_ms a) as [y m d h mi s ms], (civil_of_ms b) as [y' m' d' h' mi' s' ms'].
  cbn [c_year c_month c_day c_hour c_min c_sec c_ms] in *.
  pose proof (days_in_year y). pose proof (days_in_year y').
  destruct (y ?= y') eqn:Ey; cbn [then_compare];
    [apply Z.compare_eq in Ey; subst y'| |].
  2: { symmetry. rewrite Z.compare_lt_iff in *. unfold ms_per_day.
       pose proof (days_before_year_mono (y + 1) y' ltac:(lia)).
       pose proof (month_bounds (is_leap y') m' ltac:(lia)). lia. }
  2: { symmetry. rewrite Z.compare_gt_iff in *. unfold ms_per_day.
       pose proof (days_before_year_mono (y' + 1) y ltac:(lia)).
       pose proof (month_bounds (is_leap y) m ltac:(lia)). lia. }
  destruct (m ?= m') eqn:Em; cbn [then_compare];
    [apply Z.compare_eq in Em; subst m'| |].
  2: { symmetry. rewrite Z.compare_lt_iff in *. unfold ms_per_day.
       pose proof (days_before_month_mono (is_leap y) m m' ltac:(lia) ltac:(lia)). lia. }
  2: { symmetry. rewrite Z.compare_gt_iff in *. unfold ms_per_day.
       pose proof (days_before_month_mono (is_leap y) m' m ltac:(lia) ltac:(lia)). lia. }
  unfold ms_per_day.
  repeat match goal with
    | |- then_compare (?u ?= ?v) _ = _ =>
        let E := fresh "E" in
        destruct (u ?= v) eqn:E; cbn [then_compare];
        [apply Z.compare_eq in E; subst v
        |symmetry; rewrite Z.compare_lt_iff in *; lia
        |symmetry; rewrite Z.compare_gt_iff in *; lia]
    end.
  destruct (ms ?= ms') eqn:E; symmetry.
  - apply Z.compare_eq in E. subst. apply Z.compare_refl.
  - rewrite Z.compare_lt_iff in *. lia.
  - rewrite Z.compare_gt_iff in *. lia.
Qed.
