(* ===== verification/JsValues.v ===== *)
(** * JavaScript's conversions

    What the source takes from the language: [String], [Number], truthiness and
    [toLowerCase], on the values [JSON.parse] makes.  [toLowerCase] is modelled
    on ASCII letters. *)

From S2P Require Import Prelude Json IsoTime.
Import Ascii String.
Open Scope string_scope.
Open Scope Z_scope.

(** The hashes of Node's crypto module and [Date.parse], which is
    implementation-defined outside the ISO format. *)
Class NodeCrypto := {
  node_sha256 : string -> string;
  node_hmac_sha256 : string -> string -> string;
  date_parse : string -> option Z
}.

(** ** Inherited properties *)

(** The names every object answers to without having them: reading one gives a
    function (or, for [__proto__], an object), which is truthy and no string. *)
Definition INHERITED : list string :=
  ["constructor"; "toString"; "valueOf"; "hasOwnProperty"; "isPrototypeOf"; "propertyIsEnumerable"; "toLocaleString";
   "__proto__"; "__defineGetter__"; "__defineSetter__"; "__lookupGetter__"; "__lookupSetter__"].

Definition inherited (k : string) : bool := bool_decide (k ∈ INHERITED).

(** ** Letters *)

Definition lower (c : ascii) : ascii :=
  let n := nat_of_ascii c in
  if ((65 <=? n) && (n <=? 90))%nat then ascii_of_nat (n + 32) else c.

Fixpoint lower_string (s : string) : string :=
  match s with EmptyString => s | String c s' => String (lower c) (lower_string s') end.

(** ** JSON values *)

(** [String(value)] on a parsed JSON value. *)
Fixpoint js_String (j : json) : string :=
  match j with
  | JNull => "null"
  | JBool b => if b then "true" else "false"
  | JNum n => stringify_num n
  | JStr s => s
  | JArr l => join_comma (map (fun x => match x with JNull => "" | _ => js_String x end) l)
  | JObj _ => "[object Object]"
  end.

Definition js_truthy (j : json) : bool :=
  match j with
  | JNull => false
  | JBool b => b
  | JNum n => negb (n =? 0)
  | JStr s => negb (s ==? "")
  | _ => true
  end.

(** [Array.isArray(o.k) ? o.k.map(String) : []] *)
Definition string_list (j : json) (k : string) : list string :=
  match j with
  | JObj kvs => match obj_get k kvs with Some (JArr l) => map js_String l | _ => [] end
  | _ => []
  end.

(** [typeof o.k === "string" ? o.k : undefined] *)
Definition string_field (j : json) (k : string) : option string :=
  match j with
  | JObj kvs => match obj_get k kvs with Some (JStr s) => Some s | _ => None end
  | _ => None
  end.

Definition jlist (l : list string) : json := JArr (map JStr l).

(** [l.sort()] on strings. *)
Fixpoint insert_string (x : string) (l : list string) : list string :=
  match l with
  | [] => [x]
  | y :: l' => if string_leb x y then x :: y :: l' else y :: insert_string x l'
  end.
Definition sort_strings (l : list string) : list string := foldr insert_string [] l.

Lemma insert_string_perm x l : insert_string x l ≡ₚ x :: l.
Proof.
  induction l as [|y l IH]; simpl; [done|]. destruct (string_leb x y); [done|].
  rewrite IH. apply perm_swap.
Qed.

Lemma sort_strings_perm l : sort_strings l ≡ₚ l.
Proof. induction l as [|x l IH]; simpl; [done|]. by rewrite insert_string_perm, IH. Qed.

Lemma string_leb_total x y : string_leb x y = false -> string_leb y x = true.
Proof.
  revert y. induction x as [|a x IH]; intros [|b y]; simpl; try done.
  destruct (nat_of_ascii a <? nat_of_ascii b)%nat eqn:E1; [done|].
  destruct (nat_of_ascii b <? nat_of_ascii a)%nat eqn:E2; [done|]. apply IH.
Qed.

(** Each element is at most the next. *)
Fixpoint ascending (l : list string) : bool :=
  match l with
  | x :: (y :: _) as l' => string_leb x y && ascending l'
  | _ => true
  end.

Lemma insert_string_ascending x l : ascending l = true -> ascending (insert_string x l) = true.
Proof.
  induction l as [|y l IH]; simpl; [done|]. intros Hl.
  destruct (string_leb x y) eqn:E; [simpl; rewrite E; exact Hl|].
  apply string_leb_total in E. destruct l as [|z l]; simpl; [by rewrite E|].
  apply andb_true_iff in Hl as [Hyz Hl]. specialize (IH Hl). simpl in IH.
  destruct (string_leb x z); simpl in *; rewrite ?E, ?Hyz; exact IH.
Qed.

Lemma sort_strings_ascending l : ascending (sort_strings l) = true.
Proof. induction l; simpl; [done|by apply insert_string_ascending]. Qed.

Lemma sort_strings_id l : ascending l = true -> sort_strings l = l.
Proof.
  induction l as [|x l IH]; [done|]. intros Hl. simpl.
  rewrite IH by (destruct l; [done|by apply andb_true_iff in Hl as [_ ?]]).
  destruct l as [|y l]; [done|]. simpl. by apply andb_true_iff in Hl as [-> _].
Qed.

Lemma sort_strings_idem l : sort_strings (sort_strings l) = sort_strings l.
Proof. apply sort_strings_id, sort_strings_ascending. Qed.

(** ** Numbers *)

(** [Number(s)] as an integer: white space around decimal digits with an optional
    sign.  (Number also reads fractions, exponents and radix prefixes, which no
    value the source converts has.)  The callers deal with the empty string. *)
Definition digits_value (s : string) : option Z :=
  match list_ascii_of_string s with
  | [] => None
  | l => if forallb is_digit l then Some (foldl (fun acc c => acc * 10 + digit_val c) 0 l) else None
  end.

Definition js_integer (s : string) : option Z :=
  match trim s with
  | String "-" s' => option_map Z.opp (digits_value s')
  | String "+" s' => digits_value s'
  | s' => digits_value s'
  end.

(** [Number(v)] of a parsed value: [None] is [NaN]. *)
Definition js_Number (v : json) : option Z :=
  let of_text s := if trim s ==? "" then Some 0 else js_integer s in
  match v with
  | JNull => Some 0
  | JBool b => Some (if b then 1 else 0)
  | JNum n => Some n
  | JStr s => of_text s
  | JArr _ => of_text (js_String v)
  | JObj _ => None
  end.

(** [v?.k]: only objects have the fields the source reads. *)
Definition prop (v : json) (k : string) : option json :=
  match v with JObj kvs => obj_get k kvs | _ => None end.

(** [v === s] for a string [s]. *)
Definition is_str (v : option json) (s : string) : bool :=
  match v with Some (JStr t) => t ==? s | _ => false end.

Lemma is_str_true v s : is_str v s = true <-> v = Some (JStr s).
Proof.
  destruct v as [[| | |t| |]|]; simpl; try (split; congruence).
  rewrite bool_decide_eq_true. split; congruence.
Qed.

(** A concrete instance for the witnesses: hashes that keep their input. *)
Definition toy_node : NodeCrypto := {|
  node_sha256 := fun s => s;
  node_hmac_sha256 := fun key s => key +:+ s;
  date_parse := parse_iso
|}.

(** ORDER BY of a text column. *)
Section OrderByText.
Context {R : Type} (key : R -> string).

Fixpoint insert_text (x : R) (l : list R) : list R :=
  match l with
  | [] => [x]
  | y :: l' => if string_leb (key x) (key y) then x :: l else y :: insert_text x l'
  end.

Definition order_by_text (l : list R) : list R := foldr insert_text [] l.

Lemma order_by_text_perm l : order_by_text l ≡ₚ l.
Proof.
  induction l as [|x l IH]; [done|]. simpl. rewrite <- IH at 2. generalize (order_by_text l). clear.
  induction l as [|y l IH]; simpl; [done|]. destruct (string_leb _ _); [done|]. rewrite IH. apply perm_swap.
Qed.
End OrderByText.
