(* ===== verification/Identity.v ===== *)
(** * Signed payloads

    The cryptographic primitives are Node's and noble's, not this program's:
    they are the class [Crypto].  On top of it this file has the key ids, the
    four payload builders and [verifyCanonical], which the relay
    ([packages/relay/src/operator-identity.ts]) and the agents
    ([packages/sdk/src/identity/primitives.ts]) share. *)

From S2P Require Import Prelude Json.
Import Ascii String.
Open Scope string_scope.

(** Byte strings are [string]s.  [ed25519_verify sig msg pub] is [None] where
    the library throws (a key or signature of the wrong length). *)
Class Crypto := {
  sha256 : string -> string;
  b64url : string -> string;
  fromB64url : string -> string;
  ed25519_verify : string -> string -> string -> option bool
}.

(** base64url(sha256(pub))[:16] *)
Definition keyId `{Crypto} (publicKey : string) : string :=
  substring 0 16 (b64url (sha256 publicKey)).

(** Never throws: a throw of the library is [false]. *)
Definition verifyCanonical `{Crypto} (payload : json) (sig publicKey : string) : bool :=
  match ed25519_verify (fromB64url sig) (canonicalize payload) publicKey with
  | Some b => b
  | None => false
  end.

Definition endorsementPayload (fleetId newKeyId newPublicKey : string) : json :=
  JObj [("v", JNum 1); ("t", JStr "op-key-endorsement"); ("fleet_id", JStr fleetId);
        ("key_id", JStr newKeyId); ("public_key", JStr newPublicKey)].

Definition revocationPayload (fleetId revokedKeyId revokedAt : string) : json :=
  JObj [("v", JNum 1); ("t", JStr "op-key-revocation"); ("fleet_id", JStr fleetId);
        ("key_id", JStr revokedKeyId); ("revoked_at", JStr revokedAt)].

(** Throws on an empty nonce; the callers check the nonce first. *)
Definition unrevokePayload (fleetId revokedKeyId revokedAtBeingCleared issuedAt nonce : string)
    : option json :=
  if nonce ==? "" then None else
  Some (JObj [("v", JNum 1); ("t", JStr "op-key-unrevoke"); ("fleet_id", JStr fleetId);
              ("key_id", JStr revokedKeyId);
              ("revoked_at_being_cleared", JStr revokedAtBeingCleared);
              ("issued_at", JStr issuedAt); ("nonce", JStr nonce)]).

Definition agentKeyEndorsementPayload (fleetId agentId agentKeyId agentPublicKey : string) : json :=
  JObj [("v", JNum 1); ("t", JStr "agent-key-endorsement"); ("fleet_id", JStr fleetId);
        ("agent_id", JStr agentId); ("key_id", JStr agentKeyId);
        ("public_key", JStr agentPublicKey)].

(** A concrete instance for the witnesses: a signature is the key followed by
    the message it signs. *)
Definition toy_crypto : Crypto := {|
  sha256 := fun s => s;
  b64url := fun s => s;
  fromB64url := fun s => s;
  ed25519_verify := fun sig msg pub => Some (sig ==? pub +:+ msg)
|}.

(** The toy signature of a payload. *)
Definition toy_sign (pub : string) (payload : json) : string := pub +:+ canonicalize payload.
