(* ===== verification/Events.v ===== *)
(** * The audit trail

    [recordEvent] ([packages/relay/src/db.ts]) inserts one row into [events].
    Operations of the model return the rows they insert, in order. *)

From S2P Require Import Prelude Json.
Open Scope string_scope.

(** A row of [events]; the random primary key is not modelled. *)
Record Event := MkEvent {
  ev_fleet : string;
  ev_type : string;
  ev_actor_kind : string;
  ev_actor : option string;
  ev_resource_kind : string;
  ev_resource : option string;
  ev_conversation : option string;
  ev_payload : json;
  ev_at : Z
}.

Definition recordEvent (now : Z) (fleet type actor_kind : string) (actor : option string)
    (resource_kind : string) (resource conversation : option string) (payload : json) : Event :=
  MkEvent fleet type actor_kind actor resource_kind resource conversation payload now.

(** A nullable column in a payload. *)
Definition jopt (o : option string) : json :=
  match o with Some s => JStr s | None => JNull end.
