(* ===== verification/OperatorKeys.v ===== *)
(** * Operator keys on the relay

    [packages/relay/src/db.ts], "Operator signing keys": the tables
    [fleet_operator_keys], [agent_identity_keys] and
    [operator_recovery_grants], the rule that says which key may endorse, and
    the operations that register, endorse, revoke and recover keys. *)

From S2P Require Import Prelude Json IsoTime JsValues Identity Events.
Import Ascii String.
Open Scope string_scope.
Open Scope Z_scope.

(** ** State *)

(** A row of [fleet_operator_keys]; its primary key (fleet, key id) is the
    index of the map.  [revoked_at] is text supplied (and signed) by a device. *)
Record OperatorKeyRow := MkOperatorKeyRow {
  ok_public_key : string;
  ok_label : string;
  ok_created_at : Z;
  ok_last_used_at : option Z;
  ok_revoked_at : option string;
  ok_endorsed_by : option string;
  ok_endorsement_sig : option string;
  ok_revoked_by : option string;
  ok_revocation_sig : option string
}.

(** A row of [agent_identity_keys]; its primary key (agent, key id) is the
    index of the map. *)
Record AgentIdentityKeyRow := MkAgentIdentityKeyRow {
  ak_fleet : string;
  ak_public_key : string;
  ak_created_at : Z;
  ak_revoked_at : option Z;
  ak_endorsed_by : option string;
  ak_endorsement_sig : option string;
  ak_endorsed_at : option Z
}.

(** A row of [operator_recovery_grants]. *)
Record OperatorRecoveryGrantRow := MkGrant {
  g_id : string;
  g_fleet : string;
  g_endorser : string;
  g_target : string;
  g_confirmed_by : string;
  g_created_at : Z;
  g_expires_at : Z;
  g_consumed_at : option Z;
  g_cancelled_at : option Z
}.

Record KeyDb := MkKeyDb {
  kd_fleets : gset string;
  kd_keys : gmap (string * string) OperatorKeyRow;
  kd_agent_keys : gmap (string * string) AgentIdentityKeyRow;
  kd_grants : list OperatorRecoveryGrantRow
}.

Definition with_keys (k : gmap (string * string) OperatorKeyRow) (db : KeyDb) : KeyDb :=
  MkKeyDb (kd_fleets db) k (kd_agent_keys db) (kd_grants db).
Definition with_agent_keys (k : gmap (string * string) AgentIdentityKeyRow) (db : KeyDb) : KeyDb :=
  MkKeyDb (kd_fleets db) (kd_keys db) k (kd_grants db).
Definition with_grants (g : list OperatorRecoveryGrantRow) (db : KeyDb) : KeyDb :=
  MkKeyDb (kd_fleets db) (kd_keys db) (kd_agent_keys db) g.

(** The errors the operations throw, one constructor per message. *)
Inductive KeyErr : Type :=
  | UntrustedEndorser (k : string)
  | BadTtl | ConfirmedByRequired | GrantOverItself | FleetNotFound
  | RecoveringKeyUnknown | RecoveringKeyRevoked
  | SuccessorUnknown | SuccessorRevoked | SuccessorEndorsed
  | GrantAlreadyArmed (id : string)
  | GrantUsed | GrantCancelled | GrantExpired | GrantNamesOther | GrantTargetEndorsed
  | GrantNotUsable
  | EndorsementCycle
  | EndorserUnknownOrRevoked | BadEndorsementSignature | KeyAlreadyRegistered
  | SelfEndorsement | KeyNotFound | TargetRevoked
  | AlreadyRevoked | OnlyLiveKey | SelfRevocation | SignerUnknown | SignerRevoked
  | UntrustedSigner | OnlyPinnedRoot | SignerLosesRoot
  | BadRevokedAt | RevokedAtSkew | BadRevocationSignature
  | AgentKeyNotFound.

(** ** Which key may endorse *)

Definition live_row (row : OperatorKeyRow) : bool := ok_revoked_at row ==? None.

(** SELECT endorsed_by_key_id FROM agent_identity_keys WHERE fleet_id = ? AND
    revoked_at IS NULL *)
Definition live_agent_endorsers (db : KeyDb) (fleet : string) : list (option string) :=
  map ak_endorsed_by
    (List.filter (fun r => ak_revoked_at r ==? None) (map snd (fleet_rows ak_fleet fleet (kd_agent_keys db)))).

(** The operator keys agents report as pinned; [None] when no agent is
    endorsed yet. *)
Definition agentPinnedRoots (db : KeyDb) (fleet : string) : option (gset string) :=
  let ks := live_agent_endorsers db fleet in
  if forallb (fun k => truthy k ==? None) ks then None
  else Some (list_to_set (omap truthy ks)).

(** SELECT 1 FROM operator_recovery_grants WHERE ... consumed_at IS NOT NULL *)
Definition recoveredVia (db : KeyDb) (fleet target endorser : string) : bool :=
  exists_row (fun g => (g_fleet g ==? fleet) && (g_target g ==? target) &&
                       (g_endorser g ==? endorser) && negb (g_consumed_at g ==? None))
    (kd_grants db).

(** The walk of [endorserIsTrusted]: [walked] is the walked set, [roots] the
    pinned roots without the excluded key.  One unit of fuel per iteration. *)
Fixpoint trust_walk (fuel : nat) (db : KeyDb) (fleet : string) (roots : gset string)
    (exclude : option string) (walked : gset string) (cursor : string) : bool :=
  match fuel with
  | O => false
  | S fuel' =>
      if (cursor ==? "") || bool_decide (cursor ∈ walked) then false
      else match kd_keys db !! (fleet, cursor) with
      | None => false
      | Some row =>
          if negb (truthy (ok_revoked_at row) ==? None) || (Some cursor ==? exclude) then false
          else if bool_decide (cursor ∈ roots) then true
          else match truthy (ok_endorsed_by row) with
          | None => false
          | Some p =>
              if recoveredVia db fleet cursor p then true
              else trust_walk fuel' db fleet roots exclude ({[cursor]} ∪ walked) p
          end
      end
  end.

(** Enough fuel: every iteration but the last walks a row not walked before. *)
Definition walk_fuel (db : KeyDb) : nat := S (size (kd_keys db)).

(** [if (excludeKeyId) roots.delete(excludeKeyId)] *)
Definition roots_without (exclude : option string) (pinned : gset string) : gset string :=
  match truthy exclude with Some x => pinned ∖ {[x]} | None => pinned end.

Definition endorserIsTrusted (db : KeyDb) (fleet endorserKeyId : string)
    (excludeKeyId : option string) : bool :=
  match agentPinnedRoots db fleet with
  | None => true
  | Some pinned =>
      trust_walk (walk_fuel db) db fleet (roots_without excludeKeyId pinned) excludeKeyId ∅
        endorserKeyId
  end.

(** May [keyId] endorse today? *)
Definition operatorKeyMayEndorse (db : KeyDb) (fleet keyId : string) : bool :=
  match kd_keys db !! (fleet, keyId) with
  | None => false
  | Some row =>
      if negb (truthy (ok_revoked_at row) ==? None) then false
      else endorserIsTrusted db fleet keyId None
  end.

(** ** Recovery grants *)

Definition RECOVERY_GRANT_DEFAULT_TTL_MINUTES : Z := 30.
Definition RECOVERY_GRANT_MAX_TTL_MINUTES : Z := 120.

(** A JS number as [Number.isInteger] sees it. *)
Inductive js_number := JsInt (z : Z) | JsNotInteger.

Definition armed (now : Z) (g : OperatorRecoveryGrantRow) : bool :=
  (g_consumed_at g ==? None) && (g_cancelled_at g ==? None) && (now <? g_expires_at g).

(** Arm a one-off recovery grant (host only); [new_id] is [id("rcg")]. *)
Definition createOperatorRecoveryGrant (db : KeyDb) (now : Z) (new_id fleet : string)
    (endorserKeyId targetKeyId : string) (confirmedBy : option string)
    (ttlMinutes : option js_number)
    : result KeyErr (KeyDb * OperatorRecoveryGrantRow * list Event) :=
  let ttl := default (JsInt RECOVERY_GRANT_DEFAULT_TTL_MINUTES) ttlMinutes in
  fetch ttl := (match ttl with
                | JsInt n => if (n <? 1) || (RECOVERY_GRANT_MAX_TTL_MINUTES <? n) then None else Some n
                | JsNotInteger => None
                end) orelse BadTtl ;;
  let confirmed := trim (default "" confirmedBy) in
  throw_if confirmed ==? "" with ConfirmedByRequired ;;
  throw_if endorserKeyId ==? targetKeyId with GrantOverItself ;;
  throw_if negb (bool_decide (fleet ∈ kd_fleets db)) with FleetNotFound ;;
  fetch endorser := kd_keys db !! (fleet, endorserKeyId) orelse RecoveringKeyUnknown ;;
  throw_if negb (truthy (ok_revoked_at endorser) ==? None) with RecoveringKeyRevoked ;;
  fetch target := kd_keys db !! (fleet, targetKeyId) orelse SuccessorUnknown ;;
  throw_if negb (truthy (ok_revoked_at target) ==? None) with SuccessorRevoked ;;
  throw_if negb (truthy (ok_endorsed_by target) ==? None) with SuccessorEndorsed ;;
  let grant := MkGrant new_id fleet endorserKeyId targetKeyId confirmed now
                 (now + ttl * 60000) None None in
  match select_one (fun g => (g_fleet g ==? fleet) && armed now g) (kd_grants db) with
  | Some live => Throw (GrantAlreadyArmed (g_id live))
  | None =>
      Ok (with_grants (kd_grants db ++ [grant]) db, grant,
          [recordEvent now fleet "operator_key.recovery_grant_armed" "host" None "operator_key"
             (Some targetKeyId) None
             (JObj [("grant_id", JStr new_id); ("endorser_key_id", JStr endorserKeyId);
                    ("target_key_id", JStr targetKeyId); ("confirmed_by", JStr confirmed);
                    ("expires_at", JStr (to_iso (g_expires_at grant)))])])
  end.

Definition cancelOperatorRecoveryGrant (db : KeyDb) (now : Z) (fleet grantId : string)
    : KeyDb * bool * list Event :=
  let hit := fun g => (g_fleet g ==? fleet) && (g_id g ==? grantId) &&
                      (g_consumed_at g ==? None) && (g_cancelled_at g ==? None) in
  let db' := with_grants
    (update_where hit (fun g => MkGrant (g_id g) (g_fleet g) (g_endorser g) (g_target g)
       (g_confirmed_by g) (g_created_at g) (g_expires_at g) (g_consumed_at g) (Some now))
       (kd_grants db)) db in
  if (0 <? changes hit (kd_grants db))%nat then
    (db', true,
     [recordEvent now fleet "operator_key.recovery_grant_cancelled" "host" None
        "operator_recovery_grant" (Some grantId) None
        (JObj [("cancelled_at", JStr (to_iso now))])])
  else (db', false, []).

Definition listOperatorRecoveryGrants (db : KeyDb) (fleet : string)
    : list OperatorRecoveryGrantRow :=
  order_by g_created_at (select (fun g => g_fleet g ==? fleet) (kd_grants db)).

Definition getActiveOperatorRecoveryGrant (db : KeyDb) (now : Z) (fleet : string)
    : option OperatorRecoveryGrantRow :=
  latest_by g_created_at (select (fun g => (g_fleet g ==? fleet) && armed now g) (kd_grants db)).

(** The grant that lets [endorser] endorse [target] right now, or why not. *)
Definition requireRecoveryGrant (db : KeyDb) (now : Z) (fleet endorserKeyId targetKeyId : string)
    (target : OperatorKeyRow) : result KeyErr OperatorRecoveryGrantRow :=
  fetch grant := latest_by g_created_at
      (select (fun g => (g_fleet g ==? fleet) && (g_endorser g ==? endorserKeyId)) (kd_grants db))
    orelse UntrustedEndorser endorserKeyId ;;
  throw_if negb (g_consumed_at grant ==? None) with GrantUsed ;;
  throw_if negb (g_cancelled_at grant ==? None) with GrantCancelled ;;
  throw_if g_expires_at grant <=? now with GrantExpired ;;
  throw_if negb (g_target grant ==? targetKeyId) with GrantNamesOther ;;
  throw_if negb (truthy (ok_endorsed_by target) ==? None) with GrantTargetEndorsed ;;
  Ok grant.

(** ** Endorsement chains *)

(** The walk of [assertNoEndorsementCycle]: [true] when it reaches the target
    (the code throws). *)
Fixpoint cycle_walk (fuel : nat) (db : KeyDb) (fleet targetKeyId : string)
    (walked : gset string) (cursor : string) : bool :=
  match fuel with
  | O => false
  | S fuel' =>
      if cursor ==? "" then false
      else if cursor ==? targetKeyId then true
      else if bool_decide (cursor ∈ walked) then false
      else match kd_keys db !! (fleet, cursor) with
      | Some row =>
          match ok_endorsed_by row with
          | Some p => cycle_walk fuel' db fleet targetKeyId ({[cursor]} ∪ walked) p
          | None => false
          end
      | None => false
      end
  end.

(** [assertNoEndorsementCycle]: does the endorser already chain back to the
    target?  One more unit of fuel than rows: the step after the last row. *)
Definition chainsBackTo (db : KeyDb) (fleet targetKeyId endorserKeyId : string) : bool :=
  cycle_walk (S (walk_fuel db)) db fleet targetKeyId ∅ endorserKeyId.

(** ** Registering and endorsing operator keys *)

Record Endorsement := MkEndorsement { e_by : string; e_signature : string }.

(** SELECT public_key ... AND revoked_at IS NULL *)
Definition live_key (db : KeyDb) (fleet key_id : string) : option OperatorKeyRow :=
  match kd_keys db !! (fleet, key_id) with
  | Some row => if live_row row then Some row else None
  | None => None
  end.

Section Signed.
Context `{Crypto}.

Definition registerOperatorKey (db : KeyDb) (now : Z) (fleet publicKeyB64url label : string)
    (endorsement : option Endorsement) (actorKeyId : option string)
    : result KeyErr (KeyDb * string * list Event) :=
  let kid := keyId (fromB64url publicKeyB64url) in
  let? _ := (match endorsement with
    | None => Ok tt
    | Some e =>
        fetch endorser := live_key db fleet (e_by e) orelse EndorserUnknownOrRevoked ;;
        throw_if negb (verifyCanonical (endorsementPayload fleet kid publicKeyB64url)
                         (e_signature e) (fromB64url (ok_public_key endorser)))
          with BadEndorsementSignature ;;
        throw_if negb (endorserIsTrusted db fleet (e_by e) None) with UntrustedEndorser (e_by e) ;;
        Ok tt
    end) in
  match kd_keys db !! (fleet, kid) with
  | Some _ => Throw KeyAlreadyRegistered
  | None =>
      let by_ := option_map e_by endorsement in
      Ok (with_keys (<[(fleet, kid) := MkOperatorKeyRow publicKeyB64url label now None None by_
                         (option_map e_signature endorsement) None None]> (kd_keys db)) db,
          kid,
          [recordEvent now fleet "operator_key.registered" "operator" actorKeyId "operator_key"
             (Some kid) None (JObj [("endorsed_by_key_id", jopt by_)])])
  end.

(** UPDATE operator_recovery_grants SET consumed_at ... and its guard on the
    number of rows changed. *)
Definition consumeGrant (now : Z) (grant_id : string) (grants : list OperatorRecoveryGrantRow)
    : result KeyErr (list OperatorRecoveryGrantRow) :=
  let hit := fun g => (g_id g ==? grant_id) && armed now g in
  if (changes hit grants =? 1)%nat then
    Ok (update_where hit (fun g => MkGrant (g_id g) (g_fleet g) (g_endorser g) (g_target g)
          (g_confirmed_by g) (g_created_at g) (g_expires_at g) (Some now) (g_cancelled_at g)) grants)
  else Throw GrantNotUsable.

(** SET endorsed_by_key_id = ?, endorsement_sig = ? *)
Definition endorsed (row : OperatorKeyRow) (e : Endorsement) : OperatorKeyRow :=
  MkOperatorKeyRow (ok_public_key row) (ok_label row) (ok_created_at row) (ok_last_used_at row)
    (ok_revoked_at row) (Some (e_by e)) (Some (e_signature e)) (ok_revoked_by row)
    (ok_revocation_sig row).

Definition endorseOperatorKey (db : KeyDb) (now : Z) (fleet targetKeyId : string)
    (e : Endorsement) (actorKeyId : option string) : result KeyErr (KeyDb * list Event) :=
  throw_if e_by e ==? targetKeyId with SelfEndorsement ;;
  fetch target := kd_keys db !! (fleet, targetKeyId) orelse KeyNotFound ;;
  throw_if negb (truthy (ok_revoked_at target) ==? None) with TargetRevoked ;;
  fetch endorser := live_key db fleet (e_by e) orelse EndorserUnknownOrRevoked ;;
  let? grant := (if endorserIsTrusted db fleet (e_by e) None then Ok None
                 else let? g := requireRecoveryGrant db now fleet (e_by e) targetKeyId target in
                      Ok (Some g)) in
  throw_if chainsBackTo db fleet targetKeyId (e_by e) with EndorsementCycle ;;
  throw_if negb (verifyCanonical (endorsementPayload fleet targetKeyId (ok_public_key target))
                   (e_signature e) (fromB64url (ok_public_key endorser)))
    with BadEndorsementSignature ;;
  let? grants := (match grant with
                  | None => Ok (kd_grants db)
                  | Some g => consumeGrant now (g_id g) (kd_grants db)
                  end) in
  let actor := Some (default (e_by e) actorKeyId) in
  Ok (with_grants grants
        (with_keys (<[(fleet, targetKeyId) := endorsed target e]> (kd_keys db)) db),
      recordEvent now fleet "operator_key.endorsed" "operator" actor "operator_key"
        (Some targetKeyId) None
        (JObj (("endorsed_by_key_id", JStr (e_by e)) ::
               match grant with
               | Some g => [("recovery_grant_id", JStr (g_id g))]
               | None => []
               end)) ::
      match grant with
      | Some g =>
          [recordEvent now fleet "operator_key.recovery_grant_consumed" "operator" actor
             "operator_recovery_grant" (Some (g_id g)) None
             (JObj [("endorser_key_id", JStr (g_endorser g)); ("target_key_id", JStr (g_target g));
                    ("consumed_at", JStr (to_iso now))])]
      | None => []
      end).

(** ** Listing operator keys *)

(** WHERE fleet_id = ? ORDER BY created_at; keys created in the same
    millisecond come in the order of the map. *)
Definition listOperatorKeys (db : KeyDb) (fleet : string) : list (string * OperatorKeyRow) :=
  order_by (fun kr => ok_created_at (snd kr))
    (map (fun kr => (snd (fst kr), snd kr)) (map_to_list (filter (fun kr => fst (fst kr) = fleet) (kd_keys db)))).

Definition getActiveOperatorKeys (db : KeyDb) (fleet : string)
    : list (string * OperatorKeyRow) :=
  List.filter (fun kr => live_row (snd kr)) (listOperatorKeys db fleet).

(** The wire shape of a key. *)
Record AgentKeyView := MkAgentKeyView {
  v_key_id : string;
  v_public_key : string;
  v_revoked : bool;
  v_revoked_at : option string;
  v_revoked_by_key_id : option string;
  v_revocation_sig : option string;
  v_endorsed_by_key_id : option string;
  v_endorsement_sig : option string
}.

Definition operatorKeysForAgents (db : KeyDb) (fleet : string) : list AgentKeyView :=
  map (fun kr => let k := snd kr in
         MkAgentKeyView (fst kr) (ok_public_key k) (negb (truthy (ok_revoked_at k) ==? None))
           (ok_revoked_at k) (ok_revoked_by k) (ok_revocation_sig k) (ok_endorsed_by k)
           (ok_endorsement_sig k))
    (listOperatorKeys db fleet).

(** ** Revoking operator keys *)

Definition REVOCATION_MAX_SKEW_MS : Z := 5 * 60 * 1000.

Record SignedOperatorKeyRevocation := MkRevocation {
  r_revoked_at : string;
  r_by : string;
  r_signature : string
}.

(** [None] is the return without a throw. *)
Definition assertAuthoritySurvives (db : KeyDb) (fleet targetKeyId signerKeyId : string)
    : option KeyErr :=
  match agentPinnedRoots db fleet with
  | None => None
  | Some pinned =>
      if bool_decide (targetKeyId ∈ pinned) && (size pinned =? 1)%nat then Some OnlyPinnedRoot
      else if negb (endorserIsTrusted db fleet signerKeyId (Some targetKeyId))
      then Some SignerLosesRoot
      else None
  end.

(** A legacy tombstone: [revoked_at] set, no signature. *)
Definition legacy_unsigned (row : OperatorKeyRow) : bool :=
  negb (ok_revoked_at row ==? None) && (ok_revocation_sig row ==? None).

(** SET revoked_at = ?, revoked_by_key_id = ?, revocation_sig = ? *)
Definition tombstoned (row : OperatorKeyRow) (s : SignedOperatorKeyRevocation) : OperatorKeyRow :=
  MkOperatorKeyRow (ok_public_key row) (ok_label row) (ok_created_at row) (ok_last_used_at row)
    (Some (r_revoked_at s)) (ok_endorsed_by row) (ok_endorsement_sig row) (Some (r_by s))
    (Some (r_signature s)).

Definition revokeOperatorKey (db : KeyDb) (now : Z) (fleet targetKeyId : string)
    (signed : SignedOperatorKeyRevocation) (actorOperatorId claimedActorKeyId : option string)
    : result KeyErr (KeyDb * (string * string) * list Event) :=
  fetch target := kd_keys db !! (fleet, targetKeyId) orelse KeyNotFound ;;
  let legacyRevokedAt := if legacy_unsigned target then truthy (ok_revoked_at target) else None in
  throw_if negb (truthy (ok_revoked_at target) ==? None) && (legacyRevokedAt ==? None)
    with AlreadyRevoked ;;
  throw_if (legacyRevokedAt ==? None) && (length (getActiveOperatorKeys db fleet) <=? 1)%nat
    with OnlyLiveKey ;;
  throw_if r_by signed ==? targetKeyId with SelfRevocation ;;
  fetch signer := kd_keys db !! (fleet, r_by signed) orelse SignerUnknown ;;
  throw_if negb (truthy (ok_revoked_at signer) ==? None) with SignerRevoked ;;
  throw_if negb (endorserIsTrusted db fleet (r_by signed) None) with UntrustedSigner ;;
  match assertAuthoritySurvives db fleet targetKeyId (r_by signed) with
  | Some e => Throw e
  | None =>
  throw_if negb (isCanonicalIsoTimestamp (r_revoked_at signed)) with BadRevokedAt ;;
  fetch revokedAtMs := parse_iso (r_revoked_at signed) orelse BadRevokedAt ;;
  throw_if REVOCATION_MAX_SKEW_MS <? Z.abs (revokedAtMs - now) with RevokedAtSkew ;;
  throw_if negb (verifyCanonical (revocationPayload fleet targetKeyId (r_revoked_at signed))
                   (r_signature signed) (fromB64url (ok_public_key signer)))
    with BadRevocationSignature ;;
  throw_if negb (match legacyRevokedAt with
                 | Some at_ => (ok_revoked_at target ==? Some at_) && (ok_revocation_sig target ==? None)
                 | None => ok_revoked_at target ==? None
                 end) with AlreadyRevoked ;;
  Ok (with_keys (<[(fleet, targetKeyId) := tombstoned target signed]> (kd_keys db)) db,
      (r_revoked_at signed, r_by signed),
      [recordEvent now fleet "operator_key.revoked" "operator"
         (Some (default (r_by signed) actorOperatorId)) "operator_key" (Some targetKeyId) None
         (JObj ([("revoked_at", JStr (r_revoked_at signed));
                 ("revoked_by_key_id", JStr (r_by signed));
                 ("claimed_actor_key_id_unverified", jopt claimedActorKeyId)] ++
                match legacyRevokedAt with
                | Some at_ => [("legacy_resign", JBool true);
                               ("prior_unsigned_revoked_at", JStr at_)]
                | None => []
                end))])
  end.

(** ** Agent identity keys *)

Definition setAgentIdentityKey (db : KeyDb) (now : Z) (agentId fleet publicKeyB64url : string)
    : KeyDb * string :=
  let kid := keyId (fromB64url publicKeyB64url) in
  match kd_agent_keys db !! (agentId, kid) with
  | Some _ => (db, kid)
  | None =>
      (with_agent_keys (<[(agentId, kid) :=
         MkAgentIdentityKeyRow fleet publicKeyB64url now None None None None]> (kd_agent_keys db)) db,
       kid)
  end.

(** SET endorsed_by_key_id = ?, endorsement_sig = ?, endorsed_at = ? *)
Definition agent_endorsed (row : AgentIdentityKeyRow) (e : Endorsement) (now : Z)
    : AgentIdentityKeyRow :=
  MkAgentIdentityKeyRow (ak_fleet row) (ak_public_key row) (ak_created_at row) (ak_revoked_at row)
    (Some (e_by e)) (Some (e_signature e)) (Some now).

(** The row is found by fleet, agent and key id, so the UPDATE changes it. *)
Definition endorseAgentKey (db : KeyDb) (now : Z) (fleet agentId targetKeyId : string)
    (e : Endorsement) (actorKeyId : option string) : result KeyErr (KeyDb * list Event) :=
  fetch row := (match kd_agent_keys db !! (agentId, targetKeyId) with
                | Some r => if ak_fleet r ==? fleet then Some r else None
                | None => None
                end) orelse AgentKeyNotFound ;;
  fetch endorser := live_key db fleet (e_by e) orelse EndorserUnknownOrRevoked ;;
  throw_if negb (endorserIsTrusted db fleet (e_by e) None) with UntrustedEndorser (e_by e) ;;
  throw_if negb (verifyCanonical
                   (agentKeyEndorsementPayload fleet agentId targetKeyId (ak_public_key row))
                   (e_signature e) (fromB64url (ok_public_key endorser)))
    with BadEndorsementSignature ;;
  Ok (with_agent_keys (<[(agentId, targetKeyId) := agent_endorsed row e now]> (kd_agent_keys db)) db,
      [recordEvent now fleet "agent_key.endorsed" "operator"
         (Some (default (e_by e) actorKeyId)) "agent_key" (Some targetKeyId) None
         (JObj [("agent_id", JStr agentId); ("endorsed_by_key_id", JStr (e_by e))])]).

Definition getAgentIdentityKeys (db : KeyDb) (fleet : string)
    : list ((string * string) * AgentIdentityKeyRow) :=
  List.filter (fun kr => ak_revoked_at (snd kr) ==? None) (fleet_rows ak_fleet fleet (kd_agent_keys db)).

End Signed.
