(* ===== verification/OperatorTrust.v ===== *)
(** * Who may endorse: the trust rule and the endorsement chains

    The two loops of [OperatorKeys] against their specifications.
    [Trusted] says in three rules which key the fleet follows; [endorses] is the
    recorded-endorser relation between keys.  Both walks decide them on every
    table, cyclic ones included. *)

From stdpp Require Import relations.
From S2P Require Import Prelude Walk Json Identity Events OperatorKeys.
Import Ascii String.
Open Scope string_scope.

(** The ids of the registered keys: an upper bound for the length of a walk. *)
Definition key_ids (db : KeyDb) : gset string :=
  list_to_set (map (fun kr => snd (fst kr)) (map_to_list (kd_keys db))).

Lemma elem_of_key_ids db fleet k row : kd_keys db !! (fleet, k) = Some row -> k ∈ key_ids db.
Proof.
  intros Hk%elem_of_map_to_list. unfold key_ids. apply elem_of_list_to_set.
  apply list_elem_of_In, in_map_iff. exists (fleet, k, row).
  by rewrite <- list_elem_of_In.
Qed.

Lemma size_key_ids db : (size (key_ids db) <= size (kd_keys db))%nat.
Proof.
  unfold key_ids. etrans; [apply size_list_to_set_le|]. by rewrite length_map, length_map_to_list.
Qed.

(** ** The trust rule *)

Section Trust.
Context (db : KeyDb) (fleet : string) (roots : gset string) (exclude : option string).

(** A registered key that is not revoked and not the excluded one. *)
Definition usable (k : string) (row : OperatorKeyRow) : Prop :=
  k <> "" /\ kd_keys db !! (fleet, k) = Some row /\ truthy (ok_revoked_at row) = None /\
  Some k <> exclude.

(** The fleet follows a key that agents pin, one that a consumed recovery
    grant placed, and one whose recorded endorser the fleet follows. *)
Inductive Trusted : string -> Prop :=
  | trusted_root k row : usable k row -> k ∈ roots -> Trusted k
  | trusted_recovered k row p :
      usable k row -> truthy (ok_endorsed_by row) = Some p ->
      recoveredVia db fleet k p = true -> Trusted k
  | trusted_hop k row p :
      usable k row -> truthy (ok_endorsed_by row) = Some p -> Trusted p -> Trusted k.

(** One iteration of the loop. *)
Definition trust_step (k : string) : verdict string :=
  if k ==? "" then Stop false
  else match kd_keys db !! (fleet, k) with
  | None => Stop false
  | Some row =>
      if negb (truthy (ok_revoked_at row) ==? None) || (Some k ==? exclude) then Stop false
      else if bool_decide (k ∈ roots) then Stop true
      else match truthy (ok_endorsed_by row) with
      | None => Stop false
      | Some p => if recoveredVia db fleet k p then Stop true else Next p
      end
  end.

Lemma trust_walk_walk fuel walked k :
  trust_walk fuel db fleet roots exclude walked k = walk trust_step fuel walked k.
Proof.
  revert walked k. induction fuel as [|fuel IH]; intros walked k; simpl; [done|].
  unfold trust_step. destruct (k ==? "") eqn:Hk; simpl.
  { by repeat case_match. }
  case_match; [done|]. destruct (kd_keys db !! (fleet, k)) as [row|]; [|done].
  destruct (_ || _); [done|]. case_match; [done|].
  destruct (truthy (ok_endorsed_by row)) as [p|]; [|done].
  destruct (recoveredVia db fleet k p); [done|]. apply IH.
Qed.

(** The rules of [Trusted] and the iteration say the same. *)
Lemma trust_step_usable k v :
  trust_step k = v -> v <> Stop false -> exists row, usable k row.
Proof.
  unfold trust_step, usable. intros <- Hv.
  destruct (k ==? "") eqn:Hk; [done|]. bools.
  destruct (kd_keys db !! (fleet, k)) as [row|] eqn:Hrow; [|done].
  destruct (_ || _) eqn:Hg; [done|]. bools. eauto 10.
Qed.

Lemma trust_step_eval k row :
  usable k row ->
  trust_step k =
    if bool_decide (k ∈ roots) then Stop true
    else match truthy (ok_endorsed_by row) with
         | None => Stop false
         | Some p => if recoveredVia db fleet k p then Stop true else Next p
         end.
Proof.
  intros (Hk & Hrow & Hrev & Hex). unfold trust_step.
  rewrite (bool_decide_false _ Hk), Hrow, Hrev. simpl.
  by rewrite (bool_decide_false _ Hex).
Qed.

Lemma reaches_Trusted n k : reaches trust_step n k -> Trusted k.
Proof.
  induction 1 as [k Hs|n k p Hs _ IH];
    destruct (trust_step_usable _ _ Hs ltac:(done)) as [row Hu];
    rewrite (trust_step_eval k row Hu) in Hs;
    (case_bool_decide; [try done; eauto using trusted_root|]);
    (destruct (truthy (ok_endorsed_by row)) as [q|] eqn:Hq; [|done]);
    destruct (recoveredVia db fleet k q) eqn:Hr; simplify_eq;
    eauto using trusted_recovered, trusted_hop.
Qed.

Lemma Trusted_reaches k : Trusted k -> exists n, reaches trust_step n k.
Proof.
  induction 1 as [k row Hu Hk|k row p Hu Hp Hr|k row p Hu Hp _ [n Hn]].
  - exists O. constructor. by rewrite (trust_step_eval k row Hu), bool_decide_true.
  - exists O. constructor. rewrite (trust_step_eval k row Hu), Hp, Hr. by case_match.
  - pose proof (trust_step_eval k row Hu) as Hs. rewrite Hp in Hs.
    destruct (bool_decide (k ∈ roots)); [exists O; by constructor|].
    destruct (recoveredVia db fleet k p); [exists O; by constructor|].
    exists (S n). by econstructor.
Qed.

Lemma trust_walk_Trusted k :
  trust_walk (walk_fuel db) db fleet roots exclude ∅ k = true <-> Trusted k.
Proof.
  rewrite trust_walk_walk.
  rewrite (walk_spec trust_step (key_ids db)).
  - split; [intros [n Hn]; by eapply reaches_Trusted|apply Trusted_reaches].
  - intros x p Hs. destruct (trust_step_usable _ _ Hs ltac:(done)) as (row & _ & Hrow & _).
    by eapply elem_of_key_ids.
  - pose proof (size_key_ids db). unfold walk_fuel. lia.
Qed.
End Trust.

(** The trust rule asked of a key of the fleet: the pinned roots it starts from
    are the endorsers of live agent keys. *)
Definition TrustedIn (db : KeyDb) (fleet : string) (exclude : option string) (k : string) : Prop :=
  match agentPinnedRoots db fleet with
  | None => True
  | Some pinned => Trusted db fleet (roots_without exclude pinned) exclude k
  end.

Lemma endorserIsTrusted_iff db fleet k exclude :
  endorserIsTrusted db fleet k exclude = true <-> TrustedIn db fleet exclude k.
Proof.
  unfold endorserIsTrusted, TrustedIn.
  destruct (agentPinnedRoots db fleet); [apply trust_walk_Trusted|done].
Qed.

Lemma endorserIsTrusted_false db fleet k exclude :
  endorserIsTrusted db fleet k exclude = false <-> ~ TrustedIn db fleet exclude k.
Proof. by rewrite <- endorserIsTrusted_iff, not_true_iff_false. Qed.

(** A key that is trusted with another one excluded is trusted. *)
Lemma Trusted_weaken db fleet roots roots' exclude k :
  roots ⊆ roots' -> Trusted db fleet roots exclude k -> Trusted db fleet roots' None k.
Proof.
  intros Hsub. induction 1 as [k row (?&?&?&?) Hk|k row p (?&?&?&?)|k row p (?&?&?&?)];
    [eapply trusted_root|eapply trusted_recovered|eapply trusted_hop];
    unfold usable; eauto; set_solver.
Qed.

(** ** Endorsement chains *)

(** [k] records [p] as its endorser. *)
Definition endorses (db : KeyDb) (fleet : string) (k p : string) : Prop :=
  k <> "" /\ exists row, kd_keys db !! (fleet, k) = Some row /\ ok_endorsed_by row = Some p.

(** [k] chains back to [t] in any number of hops. *)
Definition chains_to (db : KeyDb) (fleet k t : string) : Prop := rtc (endorses db fleet) k t.

Section Cycle.
Context (db : KeyDb) (fleet target : string).

Definition cycle_step (c : string) : verdict string :=
  if c ==? "" then Stop false
  else if c ==? target then Stop true
  else match kd_keys db !! (fleet, c) with
  | Some row => match ok_endorsed_by row with Some p => Next p | None => Stop false end
  | None => Stop false
  end.

Lemma cycle_walk_walk fuel walked c :
  target ∉ walked ->
  cycle_walk fuel db fleet target walked c = walk cycle_step fuel walked c.
Proof.
  revert walked c. induction fuel as [|fuel IH]; intros walked c Ht; simpl; [done|].
  unfold cycle_step. destruct (c ==? "") eqn:Hc; [by case_match|].
  destruct (c ==? target) eqn:Hct; bools.
  { subst. by rewrite bool_decide_false. }
  case_match; [done|].
  destruct (kd_keys db !! (fleet, c)) as [row|]; [|done].
  destruct (ok_endorsed_by row); [|done]. apply IH. set_solver.
Qed.

Lemma cycle_step_Next c p :
  cycle_step c = Next p <-> c <> target /\ endorses db fleet c p.
Proof.
  unfold cycle_step, endorses.
  destruct (c ==? "") eqn:Hc; bools; [naive_solver|].
  destruct (c ==? target) eqn:Hct; bools; [naive_solver|].
  destruct (kd_keys db !! (fleet, c)) as [row|]; [|naive_solver].
  destruct (ok_endorsed_by row) eqn:He; naive_solver.
Qed.

Lemma cycle_step_Stop c : target <> "" -> cycle_step c = Stop true <-> c = target.
Proof.
  intros Ht. unfold cycle_step.
  destruct (c ==? "") eqn:Hc; bools; [naive_solver|].
  destruct (c ==? target) eqn:Hct; bools; [naive_solver|].
  repeat case_match; naive_solver.
Qed.

Lemma reaches_chains c :
  target <> "" -> (exists n, reaches cycle_step n c) <-> chains_to db fleet c target.
Proof.
  intros Ht. split.
  - intros [n Hn]. induction Hn as [c Hs|n c p Hs _ IH].
    + apply (cycle_step_Stop _ Ht) in Hs as ->. apply rtc_refl.
    + apply cycle_step_Next in Hs as [_ Hs]. by eapply rtc_l.
  - unfold chains_to. intros Hc. remember target as t eqn:Et.
    induction Hc as [|c p t Hs _ IH].
    + exists O. constructor. subst. by apply cycle_step_Stop.
    + destruct (decide (c = target)) as [->|Hne].
      * exists O. constructor. by apply cycle_step_Stop; subst.
      * destruct IH as [n Hn]; [done..|]. exists (S n). econstructor; [|done].
        by apply cycle_step_Next.
Qed.

Lemma chainsBackTo_iff e :
  target <> "" -> chainsBackTo db fleet target e = true <-> chains_to db fleet e target.
Proof.
  intros Ht. unfold chainsBackTo. rewrite cycle_walk_walk by set_solver.
  rewrite (walk_spec cycle_step (key_ids db)); [by apply reaches_chains| |].
  - intros x p [_ (_ & row & Hrow & _)]%cycle_step_Next. by eapply elem_of_key_ids.
  - pose proof (size_key_ids db). unfold walk_fuel. lia.
Qed.
End Cycle.

(** Any fuel beyond the number of keys decides the rule. *)
Lemma trust_walk_fuel db fleet roots exclude fuel k :
  (walk_fuel db <= fuel)%nat ->
  trust_walk fuel db fleet roots exclude ∅ k = true <-> Trusted db fleet roots exclude k.
Proof.
  intros Hf. rewrite trust_walk_walk, <- trust_walk_Trusted, trust_walk_walk.
  pose proof (size_key_ids db). unfold walk_fuel in *.
  assert (HD : forall x p, trust_step db fleet roots exclude x = Next p -> x ∈ key_ids db).
  { intros x p Hs. destruct (trust_step_usable _ _ _ _ _ _ Hs ltac:(done)) as (row & _ & Hrow & _).
    by eapply elem_of_key_ids. }
  rewrite !(walk_spec _ (key_ids db)); [done|done|lia|done|lia].
Qed.
