(* ===== verification/OperatorSafety.v ===== *)
(** * Safety of the operator-key tables

    The operations of [OperatorKeys] as a step relation, and what holds in
    every state they reach: every recorded endorsement and every tombstone
    carries a signature that verifies, chains have no cycle, a fleet that has
    endorsed an agent always has a key that may endorse, and at most one
    recovery grant of a fleet is armed. *)

From stdpp Require Import relations.
From S2P Require Import Prelude Walk Json IsoTime JsValues Identity Events OperatorKeys OperatorTrust.
Import Ascii String.
Open Scope string_scope.
Open Scope Z_scope.

(** ** What each operation did when it returned *)

Section Inversion.
Context `{Crypto}.

Lemma live_key_Some db fleet k row :
  live_key db fleet k = Some row <-> kd_keys db !! (fleet, k) = Some row /\ ok_revoked_at row = None.
Proof.
  unfold live_key, live_row. destruct (kd_keys db !! (fleet, k)) as [r|]; [|naive_solver].
  case_bool_decide; naive_solver.
Qed.

(** The endorsement an operation accepted: a live, trusted endorser signed. *)
Definition accepted (db : KeyDb) (fleet k pub : string) (e : Endorsement) : Prop :=
  exists endorser, live_key db fleet (e_by e) = Some endorser /\
    verifyCanonical (endorsementPayload fleet k pub) (e_signature e)
      (fromB64url (ok_public_key endorser)) = true.

Lemma registerOperatorKey_Ok db now fleet pub label e actor db' kid evs :
  registerOperatorKey db now fleet pub label e actor = Ok (db', kid, evs) ->
  kid = keyId (fromB64url pub) /\ kd_keys db !! (fleet, kid) = None /\
  db' = with_keys (<[(fleet, kid) := MkOperatorKeyRow pub label now None None (option_map e_by e)
                       (option_map e_signature e) None None]> (kd_keys db)) db /\
  match e with
  | None => True
  | Some e => accepted db fleet kid pub e /\ TrustedIn db fleet None (e_by e)
  end.
Proof.
  unfold registerOperatorKey. intros Hr.
  destruct e as [e|]; simpl in *; inv_ok Hr; split_and!; auto; bools.
  - eexists. split; [done|]. assumption.
  - by apply endorserIsTrusted_iff.
Qed.

(** An endorsement rests on the trust rule, which leaves the grants alone, or
    on a grant it consumes. *)
Definition endorse_authority (db : KeyDb) (now : Z) (fleet target_id : string)
    (target : OperatorKeyRow) (e : Endorsement) (grants : list OperatorRecoveryGrantRow) : Prop :=
  (TrustedIn db fleet None (e_by e) /\ grants = kd_grants db) \/
  (~ TrustedIn db fleet None (e_by e) /\ exists g,
     requireRecoveryGrant db now fleet (e_by e) target_id target = Ok g /\
     consumeGrant now (g_id g) (kd_grants db) = Ok grants).

Lemma endorseOperatorKey_Ok db now fleet k e actor db' evs :
  endorseOperatorKey db now fleet k e actor = Ok (db', evs) ->
  exists target grants,
    e_by e <> k /\ kd_keys db !! (fleet, k) = Some target /\ truthy (ok_revoked_at target) = None /\
    accepted db fleet k (ok_public_key target) e /\
    endorse_authority db now fleet k target e grants /\
    chainsBackTo db fleet k (e_by e) = false /\
    db' = with_grants grants (with_keys (<[(fleet, k) := endorsed target e]> (kd_keys db)) db).
Proof.
  unfold endorseOperatorKey. intros Hr. unfold endorse_authority, accepted.
  destruct (endorserIsTrusted db fleet (e_by e) None) eqn:Ht.
  - inv_ok Hr; bools; eexists _, _; split_and!; eauto.
    left. by rewrite <- endorserIsTrusted_iff.
  - rewrite endorserIsTrusted_false in Ht. inv_ok Hr; bools; eexists _, _; split_and!; eauto 10.
Qed.

Lemma revokeOperatorKey_Ok db now fleet k s actor claimed db' out evs :
  revokeOperatorKey db now fleet k s actor claimed = Ok (db', out, evs) ->
  exists target signer,
    kd_keys db !! (fleet, k) = Some target /\ kd_keys db !! (fleet, r_by s) = Some signer /\
    (ok_revoked_at target = None \/
       (exists at_, ok_revoked_at target = Some at_) /\ ok_revocation_sig target = None) /\
    r_by s <> k /\ truthy (ok_revoked_at signer) = None /\
    TrustedIn db fleet None (r_by s) /\
    assertAuthoritySurvives db fleet k (r_by s) = None /\
    isCanonicalIsoTimestamp (r_revoked_at s) = true /\
    verifyCanonical (revocationPayload fleet k (r_revoked_at s)) (r_signature s)
      (fromB64url (ok_public_key signer)) = true /\
    (exists ms, parse_iso (r_revoked_at s) = Some ms /\ Z.abs (ms - now) <= REVOCATION_MAX_SKEW_MS) /\
    db' = with_keys (<[(fleet, k) := tombstoned target s]> (kd_keys db)) db.
Proof.
  unfold revokeOperatorKey. intros Hr.
  destruct (kd_keys db !! (fleet, k)) as [target|] eqn:Ht; [|discriminate Hr].
  destruct (_ && _) eqn:? in Hr; [discriminate Hr|].
  destruct (_ && _) eqn:? in Hr; [discriminate Hr|].
  destruct (r_by s ==? k) eqn:Hself in Hr; [discriminate Hr|].
  destruct (kd_keys db !! (fleet, r_by s)) as [signer|] eqn:Hs; [|discriminate Hr].
  destruct (negb (truthy (ok_revoked_at signer) ==? None)) eqn:Hsr in Hr; [discriminate Hr|].
  destruct (endorserIsTrusted db fleet (r_by s) None) eqn:Htr; [|discriminate Hr]. simpl in Hr.
  destruct (assertAuthoritySurvives db fleet k (r_by s)) eqn:Ha; [discriminate Hr|].
  destruct (isCanonicalIsoTimestamp (r_revoked_at s)) eqn:Hc; [|discriminate Hr]. simpl in Hr.
  destruct (parse_iso (r_revoked_at s)) as [ms|] eqn:Hp; [|discriminate Hr].
  destruct (REVOCATION_MAX_SKEW_MS <? _) eqn:Hk; [discriminate Hr|].
  destruct (verifyCanonical _ _ _) eqn:Hv; [|discriminate Hr]. simpl in Hr.
  destruct (negb _) eqn:Hg in Hr; [discriminate Hr|]. injection Hr as <- _ _.
  apply endorserIsTrusted_iff in Htr. bools.
  exists target, signer. split_and!; auto; [|by exists ms].
  destruct (if legacy_unsigned target then _ else None) as [at_|]; bools; eauto.
Qed.

Lemma endorseAgentKey_Ok db now fleet agent k e actor db' evs :
  endorseAgentKey db now fleet agent k e actor = Ok (db', evs) ->
  exists row endorser,
    kd_agent_keys db !! (agent, k) = Some row /\ ak_fleet row = fleet /\
    live_key db fleet (e_by e) = Some endorser /\ TrustedIn db fleet None (e_by e) /\
    verifyCanonical (agentKeyEndorsementPayload fleet agent k (ak_public_key row)) (e_signature e)
      (fromB64url (ok_public_key endorser)) = true /\
    db' = with_agent_keys (<[(agent, k) := agent_endorsed row e now]> (kd_agent_keys db)) db.
Proof.
  unfold endorseAgentKey. intros Hr. inv_ok Hr; bools.
  eexists _, _; split_and!; eauto. by apply endorserIsTrusted_iff.
Qed.
End Inversion.

(** ** Pinned roots *)

(** A live identity key of the fleet is endorsed by [x]. *)
Definition pins (db : KeyDb) (fleet x : string) : Prop :=
  x <> "" /\ exists a row, kd_agent_keys db !! a = Some row /\ ak_fleet row = fleet /\
    ak_revoked_at row = None /\ ak_endorsed_by row = Some x.

Lemma elem_of_live_agent_endorsers db fleet o :
  o ∈ live_agent_endorsers db fleet <->
  exists a row, kd_agent_keys db !! a = Some row /\ ak_fleet row = fleet /\
    ak_revoked_at row = None /\ ak_endorsed_by row = o.
Proof.
  unfold live_agent_endorsers. rewrite list_elem_of_In, in_map_iff.
  setoid_rewrite filter_In. setoid_rewrite in_map_iff. setoid_rewrite <- list_elem_of_In.
  split.
  - intros (row & <- & ([a r] & <- & [Hin Hf]%elem_of_fleet_rows) & Hp). exists a, r. bools. auto.
  - intros (a & row & Ha & <- & Hrev & <-). exists row. split; [done|]. split.
    + exists (a, row). by rewrite elem_of_fleet_rows.
    + by rewrite bool_decide_true.
Qed.

Lemma pins_truthy db fleet x :
  pins db fleet x <-> exists o, o ∈ live_agent_endorsers db fleet /\ truthy o = Some x.
Proof.
  unfold pins. setoid_rewrite elem_of_live_agent_endorsers. setoid_rewrite truthy_Some.
  naive_solver.
Qed.

Lemma agentPinnedRoots_None db fleet :
  agentPinnedRoots db fleet = None <-> forall x, ~ pins db fleet x.
Proof.
  unfold agentPinnedRoots. setoid_rewrite pins_truthy.
  destruct (forallb _ _) eqn:E; (split; [|try done]).
  - intros _ x (o & Hin & Ho). rewrite forallb_forall in E.
    apply list_elem_of_In, E in Hin. bools. congruence.
  - done.
  - intros Hn. exfalso. apply not_true_iff_false in E.
    apply E, forallb_forall. intros o Hin%list_elem_of_In. apply bool_decide_eq_true.
    destruct (truthy o) as [x|] eqn:Ho; [|done]. exfalso. by eapply Hn; eauto.
Qed.

Lemma agentPinnedRoots_Some db fleet P :
  agentPinnedRoots db fleet = Some P -> forall x, x ∈ P <-> pins db fleet x.
Proof.
  unfold agentPinnedRoots. destruct (forallb _ _); [done|]. intros [= <-] x.
  rewrite elem_of_list_to_set, list_elem_of_omap, pins_truthy. naive_solver.
Qed.

(** The pinned roots depend on the pins only. *)
Lemma agentPinnedRoots_ext db db' fleet :
  (forall x, pins db fleet x <-> pins db' fleet x) ->
  agentPinnedRoots db fleet = agentPinnedRoots db' fleet.
Proof.
  intros Hp. destruct (agentPinnedRoots db' fleet) as [P'|] eqn:E'.
  - destruct (agentPinnedRoots db fleet) as [P|] eqn:E.
    + f_equal. apply set_eq. intros x.
      rewrite (agentPinnedRoots_Some _ _ _ E), (agentPinnedRoots_Some _ _ _ E'). apply Hp.
    + exfalso. rewrite agentPinnedRoots_None in E.
      assert (agentPinnedRoots db' fleet = None) as ?; [|congruence].
      apply agentPinnedRoots_None. intros x Hx%Hp. by eapply E.
  - rewrite agentPinnedRoots_None in *. intros x Hx%Hp. by eapply E'.
Qed.

(** ** Steps *)

Section Steps.
Context `{Crypto}.

(** One operation at the time [now].  A refused operation leaves the state
    alone.  The bootstrap creates fleets; a grant id already in the table
    violates its primary key. *)
Inductive key_step (now : Z) (db : KeyDb) : KeyDb -> Prop :=
  | step_create_fleet fleet :
      key_step now db (MkKeyDb ({[fleet]} ∪ kd_fleets db) (kd_keys db) (kd_agent_keys db) (kd_grants db))
  | step_register fleet pub label e actor db' kid evs :
      registerOperatorKey db now fleet pub label e actor = Ok (db', kid, evs) -> key_step now db db'
  | step_endorse fleet k e actor db' evs :
      endorseOperatorKey db now fleet k e actor = Ok (db', evs) -> key_step now db db'
  | step_revoke fleet k s actor claimed db' out evs :
      revokeOperatorKey db now fleet k s actor claimed = Ok (db', out, evs) -> key_step now db db'
  | step_set_agent_key agent fleet pub :
      key_step now db (fst (setAgentIdentityKey db now agent fleet pub))
  | step_endorse_agent fleet agent k e actor db' evs :
      endorseAgentKey db now fleet agent k e actor = Ok (db', evs) -> key_step now db db'
  | step_arm fleet new_id endorser target confirmed ttl db' g evs :
      new_id ∉ map g_id (kd_grants db) ->
      createOperatorRecoveryGrant db now new_id fleet endorser target confirmed ttl = Ok (db', g, evs) ->
      key_step now db db'
  | step_cancel fleet grant_id :
      key_step now db (fst (fst (cancelOperatorRecoveryGrant db now fleet grant_id))).

Definition empty_key_db : KeyDb := MkKeyDb ∅ ∅ ∅ [].

(** A run of operations, with the time of the last one: clocks do not run
    backwards. *)
Inductive key_run (t0 : Z) (db0 : KeyDb) : Z -> KeyDb -> Prop :=
  | run_refl : key_run t0 db0 t0 db0
  | run_step t now db db' :
      key_run t0 db0 t db -> t <= now -> key_step now db db' -> key_run t0 db0 now db'.

Lemma key_run_trans t0 db0 t1 db1 t2 db2 :
  key_run t0 db0 t1 db1 -> key_run t1 db1 t2 db2 -> key_run t0 db0 t2 db2.
Proof. intros H1. induction 1; [done|]. by eapply run_step. Qed.

(** The states an empty relay reaches. *)
Definition key_reach (t : Z) (db : KeyDb) : Prop := exists t0, key_run t0 empty_key_db t db.

Lemma create_Ok db now new_id fleet endorser target confirmed ttl db' g evs :
  createOperatorRecoveryGrant db now new_id fleet endorser target confirmed ttl = Ok (db', g, evs) ->
  g_id g = new_id /\ g_fleet g = fleet /\ g_created_at g = now /\ g_consumed_at g = None /\
  now < g_expires_at g <= now + RECOVERY_GRANT_MAX_TTL_MINUTES * 60000 /\
  db' = with_grants (kd_grants db ++ [g]) db /\
  forall g', g' ∈ kd_grants db -> g_fleet g' = fleet -> armed now g' = false.
Proof.
  unfold createOperatorRecoveryGrant. intros Hr.
  destruct (match default _ ttl with JsInt n => _ | _ => _ end) as [n|] eqn:Hn; [|discriminate Hr].
  repeat (destruct (_ ==? _) eqn:? in Hr; [discriminate Hr|]).
  destruct (negb _) eqn:? in Hr; [discriminate Hr|].
  destruct (kd_keys db !! (fleet, endorser)); [|discriminate Hr].
  destruct (negb _) eqn:? in Hr; [discriminate Hr|].
  destruct (kd_keys db !! (fleet, target)); [|discriminate Hr].
  destruct (negb _) eqn:? in Hr; [discriminate Hr|].
  destruct (negb _) eqn:? in Hr; [discriminate Hr|].
  destruct (select_one _ _) eqn:Hs in Hr; [discriminate Hr|].
  injection Hr as <- <- _. simpl. repeat (split; [done|]).
  split.
  { unfold RECOVERY_GRANT_MAX_TTL_MINUTES in *. destruct (default _ ttl); [|done].
    destruct (_ || _) eqn:Hb; [done|]. bools. injection Hn as <-. lia. }
  split; [done|]. intros g' Hin Hf. apply (select_one_None _ _ Hs) in Hin.
  rewrite bool_decide_true in Hin by done. exact Hin.
Qed.

(** The step touches keys, agent keys or grants; this lemma names the parts a
    step leaves alone. *)
Lemma cancel_keys db now fleet gid :
  kd_keys (fst (fst (cancelOperatorRecoveryGrant db now fleet gid))) = kd_keys db /\
  kd_agent_keys (fst (fst (cancelOperatorRecoveryGrant db now fleet gid))) = kd_agent_keys db /\
  kd_grants (fst (fst (cancelOperatorRecoveryGrant db now fleet gid))) =
    update_where (fun g => (g_fleet g ==? fleet) && (g_id g ==? gid) &&
                      (g_consumed_at g ==? None) && (g_cancelled_at g ==? None))
      (fun g => MkGrant (g_id g) (g_fleet g) (g_endorser g) (g_target g)
       (g_confirmed_by g) (g_created_at g) (g_expires_at g) (g_consumed_at g) (Some now))
      (kd_grants db).
Proof. unfold cancelOperatorRecoveryGrant. by destruct (0 <? _)%nat. Qed.
End Steps.

(** ** Integrity of the stored signatures *)

Section Integrity.
Context `{Crypto}.

(** Key [p] of the fleet is registered with the public key [pub]. *)
Definition registered (db : KeyDb) (fleet p pub : string) : Prop :=
  exists q, kd_keys db !! (fleet, p) = Some q /\ ok_public_key q = pub.

(** [sig] is the stored signature of key [p] over [payload]. *)
Definition signed_by (db : KeyDb) (fleet p : string) (sig : option string) (payload : json) : Prop :=
  exists s pub, sig = Some s /\ registered db fleet p pub /\
    verifyCanonical payload s (fromB64url pub) = true.

Record key_row_ok (db : KeyDb) (fleet k : string) (row : OperatorKeyRow) : Prop := {
  kr_id : k = keyId (fromB64url (ok_public_key row));
  kr_endorsed p : ok_endorsed_by row = Some p ->
    signed_by db fleet p (ok_endorsement_sig row) (endorsementPayload fleet k (ok_public_key row));
  kr_revoked t : ok_revoked_at row = Some t ->
    exists p, ok_revoked_by row = Some p /\ p <> k /\ isCanonicalIsoTimestamp t = true /\
      signed_by db fleet p (ok_revocation_sig row) (revocationPayload fleet k t)
}.

Record agent_row_ok (db : KeyDb) (agent k : string) (row : AgentIdentityKeyRow) : Prop := {
  ar_id : k = keyId (fromB64url (ak_public_key row));
  ar_live : ak_revoked_at row = None;
  ar_endorsed p : ak_endorsed_by row = Some p ->
    signed_by db (ak_fleet row) p (ak_endorsement_sig row)
      (agentKeyEndorsementPayload (ak_fleet row) agent k (ak_public_key row))
}.

Definition signatures_ok (db : KeyDb) : Prop :=
  (forall f k row, kd_keys db !! (f, k) = Some row -> key_row_ok db f k row) /\
  (forall a k row, kd_agent_keys db !! (a, k) = Some row -> agent_row_ok db a k row).

(** Registered keys keep their public key. *)
Definition keeps_keys (db db' : KeyDb) : Prop :=
  forall f p pub, registered db f p pub -> registered db' f p pub.

Lemma signed_by_mono db db' f p sig payload :
  keeps_keys db db' -> signed_by db f p sig payload -> signed_by db' f p sig payload.
Proof. intros Hk (s & pub & ? & ? & ?). exists s, pub. auto. Qed.

Lemma key_row_ok_mono db db' f k row :
  keeps_keys db db' -> key_row_ok db f k row -> key_row_ok db' f k row.
Proof.
  intros Hk [Hid He Hr]. split; [done|eauto using signed_by_mono|].
  intros t Ht. destruct (Hr t Ht) as (p & ? & ? & ? & ?).
  exists p. eauto using signed_by_mono.
Qed.

Lemma agent_row_ok_mono db db' a k row :
  keeps_keys db db' -> agent_row_ok db a k row -> agent_row_ok db' a k row.
Proof. intros Hk [Hid Hl He]. split; [done..|]. eauto using signed_by_mono. Qed.

(** Writing one good row of the same public key keeps the table good. *)
Lemma keeps_keys_insert db fleet k row :
  (forall old, kd_keys db !! (fleet, k) = Some old -> ok_public_key row = ok_public_key old) ->
  forall grants, keeps_keys db (with_grants grants (with_keys (<[(fleet, k) := row]> (kd_keys db)) db)).
Proof.
  intros Hold grants f p pub (q & Hq & <-). unfold registered. simpl.
  destruct (decide ((fleet, k) = (f, p))) as [[= -> ->]|Hne].
  - exists row. rewrite lookup_insert_eq. eauto.
  - exists q. by rewrite lookup_insert_ne.
Qed.

Lemma signatures_ok_insert db fleet k row grants :
  signatures_ok db ->
  (forall old, kd_keys db !! (fleet, k) = Some old -> ok_public_key row = ok_public_key old) ->
  let db' := with_grants grants (with_keys (<[(fleet, k) := row]> (kd_keys db)) db) in
  key_row_ok db fleet k row -> signatures_ok db'.
Proof.
  intros [HK HA] Hold db' Hrow. pose proof (keeps_keys_insert db fleet k row Hold grants) as Hkeep.
  split.
  - intros f k' row'. simpl. rewrite lookup_insert_Some.
    intros [[[= -> ->] <-]|[Hne Hl]]; eauto using key_row_ok_mono.
  - simpl. intros a k' row' Hl. eauto using agent_row_ok_mono.
Qed.

Lemma accepted_signed db fleet k pub e :
  accepted db fleet k pub e ->
  signed_by db fleet (e_by e) (Some (e_signature e)) (endorsementPayload fleet k pub).
Proof.
  intros (endorser & [Hl _]%live_key_Some & Hv). exists (e_signature e), (ok_public_key endorser).
  split_and!; [done| |done]. by exists endorser.
Qed.

Lemma with_grants_same db : with_grants (kd_grants db) db = db.
Proof. by destruct db. Qed.

Lemma signatures_ok_grants db db' :
  kd_keys db' = kd_keys db -> kd_agent_keys db' = kd_agent_keys db ->
  signatures_ok db -> signatures_ok db'.
Proof.
  intros Hk Ha [HK HA]. assert (keeps_keys db db') as Hkeep.
  { intros f p pub. unfold registered. by rewrite Hk. }
  split; [rewrite Hk|rewrite Ha]; eauto using key_row_ok_mono, agent_row_ok_mono.
Qed.

Lemma signatures_ok_agent db a k row :
  signatures_ok db -> agent_row_ok db a k row ->
  signatures_ok (with_agent_keys (<[(a, k) := row]> (kd_agent_keys db)) db).
Proof.
  intros [HK HA] Hrow.
  assert (keeps_keys db (with_agent_keys (<[(a, k) := row]> (kd_agent_keys db)) db)) as Hkeep.
  { by intros f p pub. }
  split; simpl; [eauto using key_row_ok_mono|].
  intros a' k' row'. rewrite lookup_insert_Some.
  intros [[[= -> ->] <-]|[Hne Hl]]; eauto using agent_row_ok_mono.
Qed.

Lemma endorse_signatures_ok db now fleet k e actor db' evs :
  endorseOperatorKey db now fleet k e actor = Ok (db', evs) ->
  signatures_ok db -> signatures_ok db'.
Proof.
  intros (target & grants & Hne & Ht & Hrev & Hacc & _ & _ & ->)%endorseOperatorKey_Ok Hok.
  destruct (proj1 Hok _ _ _ Ht) as [Hid He Hr].
  apply signatures_ok_insert; [done| |].
  { intros old. rewrite Ht. by intros [= <-]. }
  split; simpl; [done| |done]. intros p [= <-]. by apply accepted_signed.
Qed.

Lemma revoke_signatures_ok db now fleet k s actor claimed db' out evs :
  revokeOperatorKey db now fleet k s actor claimed = Ok (db', out, evs) ->
  signatures_ok db -> signatures_ok db'.
Proof.
  intros (target & signer & Ht & Hs & _ & Hne & _ & _ & _ & Hc & Hv & _ & ->)%revokeOperatorKey_Ok Hok.
  destruct (proj1 Hok _ _ _ Ht) as [Hid He Hr].
  rewrite <- (with_grants_same (with_keys _ _)). apply signatures_ok_insert; [done| |].
  { intros old. rewrite Ht. by intros [= <-]. }
  split; simpl; [done..|]. intros t [= <-]. exists (r_by s). split_and!; [done..|].
  exists (r_signature s), (ok_public_key signer). split_and!; [done| |done]. by exists signer.
Qed.

Lemma key_step_signatures now db db' :
  key_step now db db' -> signatures_ok db -> signatures_ok db'.
Proof.
  intros Hstep Hok. destruct Hstep.
  - by apply (signatures_ok_grants db).
  - apply registerOperatorKey_Ok in H0 as (-> & Hnew & -> & He).
    rewrite <- (with_grants_same (with_keys _ _)). apply signatures_ok_insert; [done| |].
    { intros old. by rewrite Hnew. }
    split; simpl; [done| |done]. intros p. destruct e as [e|]; [|done].
    intros [= <-]. by apply accepted_signed, He.
  - by eapply endorse_signatures_ok.
  - by eapply revoke_signatures_ok.
  - unfold setAgentIdentityKey. destruct (kd_agent_keys db !! _); [done|]. simpl.
    by apply signatures_ok_agent.
  - apply endorseAgentKey_Ok in H0 as (row & endorser & Hrow & <- & [Hl _]%live_key_Some & _ & Hv & ->).
    destruct (proj2 Hok _ _ _ Hrow) as [Hid Hlive He].
    apply signatures_ok_agent; [done|]. split; simpl; [done..|].
    intros p [= <-]. exists (e_signature e), (ok_public_key endorser).
    split_and!; [done| |done]. by exists endorser.
  - apply create_Ok in H1 as (_ & _ & _ & _ & _ & -> & _). by apply (signatures_ok_grants db).
  - destruct (cancel_keys db now fleet grant_id) as (? & ? & _). by apply (signatures_ok_grants db).
Qed.
End Integrity.

(** ** Chains without cycles *)

Section Acyclic.
Context {A : Type} `{EqDecision A}.
Implicit Types R : A -> A -> Prop.

Definition acyclic R : Prop := forall x, ~ tc R x x.

(** Only the edges that leave [k] are new. *)
Variables (R R' : A -> A -> Prop) (k : A).
Hypothesis Hsame : forall x y, x <> k -> R' x y -> R x y.

Lemma rtc_to_changed c : rtc R' c k -> rtc R c k.
Proof.
  intros Hc. remember k as t eqn:Et. induction Hc as [c|c p t Hs Hp IH]; [apply rtc_refl|].
  destruct (decide (c = k)) as [->|Hne]; [subst; apply rtc_refl|].
  subst. eapply rtc_l; [|by apply IH]. by apply Hsame.
Qed.

Lemma tc_split x y : tc R' x y -> tc R x y \/ (rtc R' x k /\ tc R' k y).
Proof.
  induction 1 as [x y Hs|x p y Hs Hp IH].
  - destruct (decide (x = k)) as [->|Hne]; [right|left; apply tc_once; auto].
    split; [apply rtc_refl|by apply tc_once].
  - destruct (decide (x = k)) as [->|Hne].
    + right. split; [apply rtc_refl|by eapply tc_l].
    + destruct IH as [IH|[IH1 IH2]]; [left; eapply tc_l; eauto|].
      right. split; [by eapply rtc_l|done].
Qed.

Lemma acyclic_update :
  (forall y, R' k y -> ~ rtc R y k) -> acyclic R -> acyclic R'.
Proof.
  intros Hnew Hac.
  assert (Hk : ~ tc R' k k).
  { intros Hk.
    inversion Hk as [x y Hs|x p y Hs Hp]; subst.
    - eapply Hnew; [exact Hs|apply rtc_refl].
    - eapply Hnew; [exact Hs|]. apply rtc_to_changed. by apply tc_rtc. }
  intros x Hx. destruct (tc_split x x Hx) as [Hx'|[Hxk Hkx]]; [by apply (Hac x)|].
  apply Hk. eapply tc_rtc_r; [exact Hkx|exact Hxk].
Qed.
End Acyclic.

Section Authority.
Context `{Crypto}.

Lemma endorses_insert db fleet k row grants f x y :
  (f, x) <> (fleet, k) ->
  endorses (with_grants grants (with_keys (<[(fleet, k) := row]> (kd_keys db)) db)) f x y ->
  endorses db f x y.
Proof.
  intros Hne (Hx & r & Hr & He). simpl in Hr.
  rewrite lookup_insert_ne in Hr by congruence. split; [done|]. by exists r.
Qed.

Lemma endorses_insert_eq db fleet k row grants y :
  endorses (with_grants grants (with_keys (<[(fleet, k) := row]> (kd_keys db)) db)) fleet k y ->
  k <> "" /\ ok_endorsed_by row = Some y.
Proof.
  intros (Hx & r & Hr & He). simpl in Hr. rewrite lookup_insert_eq in Hr. by simplify_eq.
Qed.

Lemma acyclic_insert db fleet k row grants :
  (forall y, k <> "" -> ok_endorsed_by row = Some y -> ~ chains_to db fleet y k) ->
  (forall f, acyclic (endorses db f)) ->
  forall f, acyclic (endorses
    (with_grants grants (with_keys (<[(fleet, k) := row]> (kd_keys db)) db)) f).
Proof.
  intros Hnew Hac f. destruct (decide (f = fleet)) as [->|Hne].
  - apply (acyclic_update (endorses db fleet) _ k); [| |apply Hac].
    + intros x y Hx. apply endorses_insert. congruence.
    + intros y [Hk Hy]%endorses_insert_eq. by apply Hnew.
  - intros x Hx. apply (Hac f x). revert Hx. apply (tc_congruence id). intros y z.
    apply endorses_insert. congruence.
Qed.

Lemma acyclic_same_keys db db' :
  kd_keys db' = kd_keys db -> (forall f, acyclic (endorses db f)) ->
  forall f, acyclic (endorses db' f).
Proof. intros Hk Hac f. unfold endorses. rewrite Hk. apply Hac. Qed.

(** A chain that ends at a key other than its start ends at a registered one. *)
Lemma chains_to_registered db f c t :
  signatures_ok db -> chains_to db f c t -> c = t \/ is_Some (kd_keys db !! (f, t)).
Proof.
  intros [HK _] Hc. induction Hc as [c|c p t (Hne & row & Hrow & He) Hp IH]; [by left|].
  right. destruct IH as [->|]; [|done].
  destruct (kr_endorsed _ _ _ _ (HK _ _ _ Hrow) _ He) as (? & ? & _ & (q & Hq & _) & _). eauto.
Qed.

Lemma key_step_acyclic now db db' :
  key_step now db db' -> signatures_ok db ->
  (forall f, acyclic (endorses db f)) -> forall f, acyclic (endorses db' f).
Proof.
  intros Hstep Hok Hac. destruct Hstep as
    [fleet|fleet pub label e actor db' kid evs Hr|fleet k e actor db' evs Hr
    |fleet k s actor claimed db' out evs Hr| agent fleet pub|fleet agent k e actor db' evs Hr
    |fleet new_id endorser target confirmed ttl db' g evs _ Hr|fleet gid].
  - by apply (acyclic_same_keys db).
  - apply registerOperatorKey_Ok in Hr as (-> & Hnew & -> & He).
    rewrite <- (with_grants_same (with_keys _ _)). apply acyclic_insert; [|done].
    intros y _ Hy Hc. destruct e as [e|]; [|done]. injection Hy as <-.
    destruct He as [(q & [Hq _]%live_key_Some & _) _].
    apply chains_to_registered in Hc as [Heq|[? ?]]; [|congruence|done]. congruence.
  - apply endorseOperatorKey_Ok in Hr as (target & grants & _ & _ & _ & _ & _ & Hc & ->).
    apply acyclic_insert; [|done]. intros y Hk [= <-] Hy%chainsBackTo_iff; [|done]. congruence.
  - apply revokeOperatorKey_Ok in Hr
      as (target & signer & Ht & _ & _ & _ & _ & _ & _ & _ & _ & _ & ->).
    rewrite <- (with_grants_same (with_keys _ _)). apply acyclic_insert; [|done].
    simpl. intros y Hk Hy Hc. apply (Hac fleet k). eapply tc_rtc_r; [|exact Hc].
    apply tc_once. split; [done|]. eauto.
  - unfold setAgentIdentityKey. by destruct (kd_agent_keys db !! _).
  - apply endorseAgentKey_Ok in Hr as (row & endorser & _ & _ & _ & _ & _ & ->).
    by apply (acyclic_same_keys db).
  - apply create_Ok in Hr as (_ & _ & _ & _ & _ & -> & _). by apply (acyclic_same_keys db).
  - apply (acyclic_same_keys db); [|done]. apply cancel_keys.
Qed.
End Authority.

(** ** Authority survives *)

(** Usable keys other than [t] and consumed grants carry over to [db']. *)
Definition carries_over (db db' : KeyDb) (fleet t : string) : Prop :=
  (forall k row, k <> t -> usable db fleet None k row ->
     exists row', usable db' fleet None k row' /\ ok_endorsed_by row' = ok_endorsed_by row) /\
  (forall k p, recoveredVia db fleet k p = true -> recoveredVia db' fleet k p = true).

Lemma Trusted_off_chain db db' fleet roots t c :
  carries_over db db' fleet t -> Trusted db fleet roots None c ->
  ~ chains_to db fleet c t -> Trusted db' fleet roots None c.
Proof.
  intros [Hu Hr]. induction 1 as [k row Hk Hroot|k row p Hk Hp Hrec|k row p Hk Hp Ht IH];
    intros Hc;
    (assert (k <> t) as Hkt by (intros ->; apply Hc, rtc_refl));
    destruct (Hu k row Hkt Hk) as (row' & Hk' & He); try rewrite <- He in Hp.
  - by eapply trusted_root.
  - eapply trusted_recovered; eauto.
  - eapply trusted_hop; [done..|]. apply IH. intros Hpc. apply Hc. eapply rtc_l; [|exact Hpc].
    rewrite He in Hp. destruct Hk as (? & ? & _). apply truthy_Some in Hp as [? _].
    split; eauto.
Qed.

Lemma Trusted_carries_over db db' fleet roots t k :
  carries_over db db' fleet t ->
  (Trusted db fleet roots None t -> Trusted db' fleet roots None t) ->
  Trusted db fleet roots None k -> Trusted db' fleet roots None k.
Proof.
  intros [Hu Hr] Ht Hk. induction Hk as [k row Hk Hroot|k row p Hk Hp Hrec|k row p Hk Hp Hpt IH];
    (destruct (decide (k = t)) as [->|Hkt];
     [apply Ht; eauto using trusted_root, trusted_recovered, trusted_hop|]);
    destruct (Hu k row Hkt Hk) as (row' & Hk' & He); try rewrite <- He in Hp;
    eauto using trusted_root, trusted_recovered, trusted_hop.
Qed.

Lemma usable_insert_ne db fleet t row grants k r :
  k <> t -> usable db fleet None k r ->
  usable (with_grants grants (with_keys (<[(fleet, t) := row]> (kd_keys db)) db)) fleet None k r.
Proof.
  intros Hne (? & ? & ? & ?). split_and!; [done| |done..]. simpl.
  rewrite lookup_insert_ne; [done|congruence].
Qed.

(** Consuming a grant keeps the consumed ones and adds one. *)
Lemma consumeGrant_Ok now gid grants grants' :
  consumeGrant now gid grants = Ok grants' ->
  grants' = update_where (fun g => (g_id g ==? gid) && armed now g)
    (fun g => MkGrant (g_id g) (g_fleet g) (g_endorser g) (g_target g)
          (g_confirmed_by g) (g_created_at g) (g_expires_at g) (Some now) (g_cancelled_at g)) grants /\
  changes (fun g => (g_id g ==? gid) && armed now g) grants = 1%nat.
Proof.
  unfold consumeGrant. destruct (_ =? 1)%nat eqn:E; [|done]. intros [= <-].
  by apply Nat.eqb_eq in E.
Qed.

Lemma recoveredVia_true db fleet k p :
  recoveredVia db fleet k p = true <->
  exists g, g ∈ kd_grants db /\ g_fleet g = fleet /\ g_target g = k /\ g_endorser g = p /\
    g_consumed_at g <> None.
Proof.
  unfold recoveredVia. rewrite exists_row_true. split.
  - intros (g & Hin & Hp). bools. exists g. auto.
  - intros (g & Hin & <- & <- & <- & Hc). exists g. split; [done|].
    rewrite !bool_decide_true by done. simpl. by destruct (g_consumed_at g).
Qed.

Section Survives.
Context `{Crypto}.

Lemma requireRecoveryGrant_Ok db now fleet e k target g :
  requireRecoveryGrant db now fleet e k target = Ok g ->
  g ∈ kd_grants db /\ g_fleet g = fleet /\ g_endorser g = e /\ g_target g = k /\
  armed now g = true /\ truthy (ok_endorsed_by target) = None.
Proof.
  unfold requireRecoveryGrant.
  destruct (latest_by _ _) as [g'|] eqn:Hl; [|done]. intros Hr. inv_ok Hr.
  apply latest_by_Some, elem_of_select in Hl as [Hin Hp]. bools.
  split_and!; [done..| |done]. unfold armed.
  rewrite !bool_decide_true by done. simpl. by apply Z.ltb_lt.
Qed.

(** The grant an endorsement consumed is in the table, consumed. *)
Lemma consumeGrant_consumed now g grants grants' :
  consumeGrant now (g_id g) grants = Ok grants' -> g ∈ grants -> armed now g = true ->
  exists g', g' ∈ grants' /\ g_id g' = g_id g /\ g_fleet g' = g_fleet g /\ g_endorser g' = g_endorser g /\
    g_target g' = g_target g /\ g_consumed_at g' = Some now.
Proof.
  intros [-> _]%consumeGrant_Ok Hin Ha. eexists. split; [apply elem_of_update_where; exists g; split; [done|reflexivity]|].
  by rewrite bool_decide_true, Ha.
Qed.

Lemma endorse_authority_recovered db now fleet k target e grants db' :
  endorse_authority db now fleet k target e grants -> kd_grants db' = grants ->
  forall f t p, recoveredVia db f t p = true -> recoveredVia db' f t p = true.
Proof.
  intros Ha Hg f t p. rewrite !recoveredVia_true, Hg.
  intros (g & Hin & Hf & Ht & He & Hc). destruct Ha as [[_ ->]|(_ & g' & _ & Hcg)].
  - by exists g.
  - apply consumeGrant_Ok in Hcg as [-> _]. exists g. split_and!; [|done..].
    apply elem_of_update_where. exists g. split; [done|].
    unfold armed. rewrite (bool_decide_false _ Hc). simpl. by rewrite andb_false_r.
Qed.

(** The heart of the matter: an endorsement, ordinary or by a recovery grant,
    takes the trust of no key away. *)
Lemma endorse_keeps_Trusted db now fleet k e actor db' evs roots c :
  agentPinnedRoots db fleet = Some roots ->
  endorseOperatorKey db now fleet k e actor = Ok (db', evs) ->
  Trusted db fleet roots None c -> Trusted db' fleet roots None c.
Proof.
  intros HP (target & grants & Hne & Ht & Hrev & Hacc & Hauth & Hchain & ->)%endorseOperatorKey_Ok Hc.
  set (db' := with_grants grants (with_keys (<[(fleet, k):=endorsed target e]> (kd_keys db)) db)).
  assert (Hcarry : carries_over db db' fleet k).
  { split; [|by eapply endorse_authority_recovered].
    intros c' row Hck Hu. exists row. split; [by apply usable_insert_ne|done]. }
  apply (Trusted_carries_over db db' fleet roots k); [done| |done]. intros Hk.
  assert (Hu : k <> "" -> usable db' fleet None k (endorsed target e)).
  { intros Hk0. split_and!; [done| |done..]. apply lookup_insert_eq. }
  assert (Hk0 : k <> "") by (by inversion Hk as [? ? (?&?)|? ? ? (?&?)|? ? ? (?&?)]).
  destruct Hauth as [[Htr _]|(Htr & g & Hg & Hcg)].
  - unfold TrustedIn in Htr. rewrite HP in Htr. simpl in Htr.
    apply (trusted_hop _ _ _ _ _ _ (e_by e) (Hu Hk0)).
    + apply truthy_Some. split; [done|]. by inversion Htr as [? ? (?&?)|? ? ? (?&?)|? ? ? (?&?)].
    + eapply Trusted_off_chain; [exact Hcarry|exact Htr|].
      intros Hch%chainsBackTo_iff; [congruence|done].
  - apply requireRecoveryGrant_Ok in Hg as (_ & _ & _ & _ & _ & Hnone).
    inversion Hk as [? row Hr Hroot|? row p (_&Hr&_) Hp|? row p (_&Hr&_) Hp]; subst;
      [by eapply trusted_root; eauto| |]; rewrite Ht in Hr; simplify_eq; congruence.
Qed.
End Survives.

Lemma operatorKeyMayEndorse_iff db fleet k P :
  agentPinnedRoots db fleet = Some P ->
  operatorKeyMayEndorse db fleet k = true <-> Trusted db fleet P None k.
Proof.
  intros HP. unfold operatorKeyMayEndorse.
  assert (Heq : endorserIsTrusted db fleet k None = true <-> Trusted db fleet P None k).
  { rewrite endorserIsTrusted_iff. unfold TrustedIn. by rewrite HP. }
  rewrite <- Heq. split.
  - destruct (kd_keys db !! (fleet, k)); [|done]. by case_match.
  - intros Ht. rewrite Heq in Ht.
    assert (exists row, usable db fleet None k row) as (row & _ & -> & -> & _)
      by (inversion Ht; eauto).
    simpl. by apply Heq.
Qed.

(** Once the fleet has endorsed an agent, some key may endorse. *)
Definition AuthorityAlive (db : KeyDb) (fleet : string) : Prop :=
  agentPinnedRoots db fleet = None \/ exists k, operatorKeyMayEndorse db fleet k = true.

Lemma authority_keeps db db' fleet :
  agentPinnedRoots db' fleet = agentPinnedRoots db fleet ->
  (forall roots c, agentPinnedRoots db fleet = Some roots ->
     Trusted db fleet roots None c -> exists c', Trusted db' fleet roots None c') ->
  AuthorityAlive db fleet -> AuthorityAlive db' fleet.
Proof.
  intros HP Hk Ha. unfold AuthorityAlive in *. rewrite HP.
  destruct (agentPinnedRoots db fleet) as [P|] eqn:E; [|by left].
  right. destruct Ha as [|[k Hmay]]; [done|].
  rewrite (operatorKeyMayEndorse_iff _ _ _ P E) in Hmay.
  destruct (Hk P k) as [c Hc]; [done..|]. exists c.
  by apply (operatorKeyMayEndorse_iff _ _ _ P).
Qed.

Lemma authority_carries db db' fleet t :
  t = "" -> kd_agent_keys db' = kd_agent_keys db -> carries_over db db' fleet t ->
  AuthorityAlive db fleet -> AuthorityAlive db' fleet.
Proof.
  intros -> Ha Hc. apply authority_keeps.
  - unfold agentPinnedRoots, live_agent_endorsers. by rewrite Ha.
  - intros roots c _ Ht. exists c. apply (Trusted_carries_over db db' fleet roots ""); [done| |done].
    intros Hbad. by inversion Hbad as [? ? (?&?)|? ? ? (?&?)|? ? ? (?&?)].
Qed.

(** Tables whose live rows are a superset carry every key over. *)
Lemma carries_over_intro db db' f t :
  (forall k row, k <> t -> kd_keys db !! (f, k) = Some row -> kd_keys db' !! (f, k) = Some row) ->
  (forall k p, recoveredVia db f k p = true -> recoveredVia db' f k p = true) ->
  carries_over db db' f t.
Proof.
  intros Hk Hr. split; [|done]. intros k row Hne (? & ? & ? & ?).
  exists row. split; [|done]. split_and!; auto.
Qed.

Section AuthoritySteps.
Context `{Crypto}.

Lemma revoke_keeps_authority db now fleet k s actor claimed db' out evs :
  revokeOperatorKey db now fleet k s actor claimed = Ok (db', out, evs) ->
  forall P, agentPinnedRoots db fleet = Some P -> Trusted db' fleet P None (r_by s).
Proof.
  intros (target & signer & Ht & Hs & _ & Hne & _ & _ & Hsurv & _ & _ & _ & ->)%revokeOperatorKey_Ok P HP.
  unfold assertAuthoritySurvives in Hsurv. rewrite HP in Hsurv.
  destruct (_ && _); [done|]. destruct (endorserIsTrusted _ _ _ _) eqn:Htr in Hsurv; [|done].
  apply endorserIsTrusted_iff in Htr. unfold TrustedIn in Htr. rewrite HP in Htr.
  rewrite <- (with_grants_same (with_keys _ _)). simpl. clear Ht Hs Hne Hsurv.
  assert (Hu : forall c row, usable db fleet (Some k) c row ->
    usable (with_grants (kd_grants db) (with_keys (<[(fleet, k):=tombstoned target s]> (kd_keys db)) db))
      fleet None c row).
  { intros c row (? & ? & ? & ?). apply usable_insert_ne; [congruence|]. by split_and!. }
  assert (Hroots : roots_without (Some k) P ⊆ P).
  { unfold roots_without. case_match; set_solver. }
  induction Htr as [c row Hc Hroot|c row p Hc Hp Hrec|c row p Hc Hp Htr IH].
  - eapply trusted_root; [by apply Hu|set_solver].
  - eapply trusted_recovered; [by apply Hu|done|done].
  - eapply trusted_hop; [by apply Hu|done|done].
Qed.

Lemma Trusted_nonempty db fleet roots exclude k : Trusted db fleet roots exclude k -> k <> "".
Proof. by intros Hk; inversion Hk as [? ? (?&?)|? ? ? (?&?)|? ? ? (?&?)]. Qed.

(** The pins after one agent key is endorsed: of a revoked key or of another
    fleet nothing changes; in its own fleet the only new pin is the endorser. *)
Lemma pins_agent_endorsed db a row e now f x :
  kd_agent_keys db !! a = Some row ->
  let db' := with_agent_keys (<[a := agent_endorsed row e now]> (kd_agent_keys db)) db in
  (f <> ak_fleet row \/ ak_revoked_at row <> None -> pins db' f x <-> pins db f x) /\
  (pins db' f x -> x = e_by e \/ pins db f x).
Proof.
  intros Hrow db'.
  assert (Hother : forall b r, b <> a -> kd_agent_keys db' !! b = Some r <-> kd_agent_keys db !! b = Some r).
  { intros b r Hb. unfold db'. simpl. by rewrite lookup_insert_ne. }
  assert (Hself : kd_agent_keys db' !! a = Some (agent_endorsed row e now)) by apply lookup_insert_eq.
  split.
  - intros Hwhich. unfold pins. apply and_iff_compat_l.
    split; intros (b & r & Hr & Hf & Hl & He);
      (destruct (decide (b = a)) as [->|Hne];
       [rewrite ?Hself, ?Hrow in Hr; simplify_eq; simpl in *; naive_solver
       |exists b, r; split; [by apply Hother|done]]).
  - intros (Hx & b & r & Hr & Hf & Hl & He). destruct (decide (b = a)) as [->|Hne].
    + left. rewrite Hself in Hr. simplify_eq. simpl in He. congruence.
    + right. split; [done|]. exists b, r. by rewrite <- Hother.
Qed.

Lemma endorse_agent_keeps_authority db now fleet agent k e actor db' evs f :
  endorseAgentKey db now fleet agent k e actor = Ok (db', evs) ->
  AuthorityAlive db f -> AuthorityAlive db' f.
Proof.
  intros (row & endorser & Hrow & Hf & [Hl Hlive]%live_key_Some & Htr & _ & ->)%endorseAgentKey_Ok Ha.
  set (db' := with_agent_keys _ db).
  pose proof (fun x => pins_agent_endorsed db _ row e now f x Hrow) as Hpins. simpl in Hpins.
  destruct (decide (f = fleet /\ ak_revoked_at row = None)) as [[-> Hrow_live]|Hsame].
  - destruct (agentPinnedRoots db' fleet) as [P'|] eqn:E'; [|by left]. right.
    destruct (decide (e_by e = "")) as [He0|He0].
    + exfalso. unfold TrustedIn in Htr. destruct (agentPinnedRoots db fleet) as [P|] eqn:E.
      { by apply Trusted_nonempty in Htr. }
      rewrite agentPinnedRoots_None in E.
      assert (agentPinnedRoots db' fleet = None) as ?; [|congruence].
      apply agentPinnedRoots_None. intros x Hx. destruct (proj2 (Hpins x) Hx) as [->|Hx'].
      * by destruct Hx.
      * by apply (E x).
    + exists (e_by e). apply (operatorKeyMayEndorse_iff _ _ _ P' E').
      apply (trusted_root _ _ _ _ _ endorser); [by split_and!; rewrite ?Hlive|].
      apply (agentPinnedRoots_Some _ _ _ E'). split; [done|].
      exists (agent, k), (agent_endorsed row e now). simpl. by rewrite lookup_insert_eq.
  - revert Ha. apply authority_keeps; [|].
    2: { intros roots c _ Hc. exists c. revert Hc.
         apply (Trusted_carries_over db db' f roots ""); [by apply carries_over_intro|].
         by intros Hbad%Trusted_nonempty. }
    apply agentPinnedRoots_ext. intros x. apply Hpins.
    destruct (decide (f = ak_fleet row)); [right|by left]. intros ?. by apply Hsame; subst.
Qed.

Lemma key_step_authority now db db' f :
  key_step now db db' -> AuthorityAlive db f -> AuthorityAlive db' f.
Proof.
  intros Hstep. destruct Hstep as
    [fleet|fleet pub label e actor db' kid evs Hr|fleet k e actor db' evs Hr
    |fleet k s actor claimed db' out evs Hr| agent fleet pub|fleet agent k e actor db' evs Hr
    |fleet new_id endorser target confirmed ttl db' g evs _ Hr|fleet gid].
  - apply (authority_carries _ _ _ ""); [done..|]. by apply carries_over_intro.
  - apply registerOperatorKey_Ok in Hr as (-> & Hnew & -> & _).
    apply (authority_carries _ _ _ ""); [done..|]. apply carries_over_intro; [|done].
    intros k row _ Hk. simpl. rewrite lookup_insert_ne; congruence.
  - pose proof Hr as Hr'. apply endorseOperatorKey_Ok in Hr'
      as (target & grants & _ & _ & _ & _ & Hauth & _ & Hdb).
    destruct (decide (f = fleet)) as [->|Hne].
    + apply authority_keeps; [by subst|]. intros roots c HP Hc. exists c.
      by eapply endorse_keeps_Trusted.
    + subst db'. apply (authority_carries _ _ _ ""); [done..|]. apply carries_over_intro.
      * intros c row _ Hc. simpl. rewrite lookup_insert_ne; congruence.
      * by eapply endorse_authority_recovered.
  - destruct (decide (f = fleet)) as [->|Hne].
    + apply authority_keeps.
      * apply revokeOperatorKey_Ok in Hr
          as (target & signer & _ & _ & _ & _ & _ & _ & _ & _ & _ & _ & ->). done.
      * intros roots c HP _. exists (r_by s). by eapply revoke_keeps_authority.
    + apply revokeOperatorKey_Ok in Hr
        as (target & signer & _ & _ & _ & _ & _ & _ & _ & _ & _ & _ & ->).
      apply (authority_carries _ _ _ ""); [done..|]. apply carries_over_intro; [|done].
      intros c row _ Hc. simpl. rewrite lookup_insert_ne; congruence.
  - unfold setAgentIdentityKey. destruct (kd_agent_keys db !! _) eqn:E; [done|]. simpl.
    apply authority_keeps.
    + apply agentPinnedRoots_ext. intros x. unfold pins. apply and_iff_compat_l. simpl.
      split; intros (b & r & Hb & ?); exists b, r.
      * rewrite lookup_insert_Some in Hb. destruct Hb as [[<- <-]|[_ Hb]]; [naive_solver|done].
      * rewrite lookup_insert_ne; [done|congruence].
    + intros roots c _ Hc. exists c. revert Hc.
      apply (Trusted_carries_over db _ f roots ""); [by apply carries_over_intro|].
      by intros Hbad%Trusted_nonempty.
  - by eapply endorse_agent_keeps_authority.
  - apply create_Ok in Hr as (_ & _ & _ & _ & _ & -> & _).
    apply (authority_carries _ _ _ ""); [done..|]. apply carries_over_intro; [done|].
    intros k p. rewrite !recoveredVia_true. simpl. setoid_rewrite elem_of_app. naive_solver.
  - destruct (cancel_keys db now fleet gid) as (Hk & Ha & Hg).
    apply (authority_carries _ _ _ ""); [done..|]. apply carries_over_intro; [by rewrite Hk|].
    intros k p. rewrite !recoveredVia_true, Hg. intros (g & Hin & Hrest). eexists.
    split; [apply elem_of_update_where; exists g; split; [done|reflexivity]|]. by case_match.
Qed.
End AuthoritySteps.

(** ** Recovery grants *)

Section Grants.
Context `{Crypto}.

(** Grant ids are a key, and a fleet has at most one armed grant. *)
Definition grants_ok (t : Z) (db : KeyDb) : Prop :=
  NoDup (map g_id (kd_grants db)) /\
  forall f, (changes (fun g => (g_fleet g ==? f) && armed t g) (kd_grants db) <= 1)%nat.

Lemma armed_earlier t t' g : t <= t' -> armed t' g = true -> armed t g = true.
Proof.
  unfold armed. intros Ht Ha. bools. rewrite !bool_decide_true by done. simpl.
  apply Z.ltb_lt. lia.
Qed.

Lemma grants_ok_later t t' db : t <= t' -> grants_ok t db -> grants_ok t' db.
Proof.
  intros Ht [Hnd Hone]. split; [done|]. intros f. etrans; [|apply (Hone f)].
  apply changes_le. intros g Hg. bools. subst. rewrite bool_decide_true by done. simpl.
  by eapply armed_earlier.
Qed.

(** A step either keeps the grants, adds one where none is armed, or disarms. *)
Lemma key_step_grants now db db' :
  key_step now db db' -> signatures_ok db ->
  kd_grants db' = kd_grants db \/
  (exists g, kd_grants db' = (kd_grants db ++ [g])%list /\ (g_id g ∉ map g_id (kd_grants db)) /\
     g_created_at g = now /\
     forall g', g' ∈ kd_grants db -> g_fleet g' = g_fleet g -> armed now g' = false) \/
  (exists q f, kd_grants db' = update_where q f (kd_grants db) /\
     forall g, q g = true -> g_consumed_at g = None /\ g_id (f g) = g_id g /\
       g_created_at (f g) = g_created_at g /\ g_fleet (f g) = g_fleet g /\
       armed now (f g) = false).
Proof.
  intros Hstep _. destruct Hstep as
    [fleet|fleet pub label e actor db' kid evs Hr|fleet k e actor db' evs Hr
    |fleet k s actor claimed db' out evs Hr| agent fleet pub|fleet agent k e actor db' evs Hr
    |fleet new_id endorser target confirmed ttl db' g evs Hid Hr|fleet gid].
  - by left.
  - apply registerOperatorKey_Ok in Hr as (_ & _ & -> & _). by left.
  - apply endorseOperatorKey_Ok in Hr as (target & grants & _ & _ & _ & _ & Ha & _ & ->).
    destruct Ha as [[_ ->]|(_ & g & _ & Hc)]; [by left|]. right; right.
    apply consumeGrant_Ok in Hc as [-> _]. eexists _, _. split; [reflexivity|].
    intros g' Hg. bools. unfold armed in *. bools. by split_and!.
  - apply revokeOperatorKey_Ok in Hr
      as (target & signer & _ & _ & _ & _ & _ & _ & _ & _ & _ & _ & ->). by left.
  - unfold setAgentIdentityKey. destruct (kd_agent_keys db !! _); by left.
  - apply endorseAgentKey_Ok in Hr as (row & endorser & _ & _ & _ & _ & _ & ->). by left.
  - apply create_Ok in Hr as (<- & <- & Hnow & _ & _ & -> & Hnone). right; left. by exists g.
  - right; right. destruct (cancel_keys db now fleet gid) as (_ & _ & Hg). eexists _, _.
    split; [exact Hg|]. intros g' Hg'. bools. split_and!; [done..|].
    unfold armed. simpl. by rewrite andb_false_r.
Qed.

Lemma key_step_grants_ok now db db' :
  key_step now db db' -> signatures_ok db -> grants_ok now db -> grants_ok now db'.
Proof.
  intros Hstep Hsig [Hnd Hone].
  destruct (key_step_grants now db db' Hstep Hsig)
    as [Hg|[(g & Hg & Hid & _ & Hnone)|(q & f & Hg & Hq)]]; unfold grants_ok; rewrite Hg.
  - done.
  - rewrite map_app. split.
    { apply NoDup_app. split; [done|]. split; [|apply NoDup_singleton].
      intros x Hx ->%list_elem_of_singleton. done. }
    intros fl. rewrite changes_app. destruct (decide (fl = g_fleet g)) as [->|Hne].
    + rewrite changes_zero; [unfold changes; simpl; by destruct (_ && _); simpl; lia|].
      intros g' Hin. destruct (g_fleet g' ==? g_fleet g) eqn:E; [|done]. bools. simpl. auto.
    + pose proof (Hone fl). unfold changes at 2. simpl.
      rewrite bool_decide_false by congruence. simpl. lia.
  - rewrite map_update_where by (intros g Hgq; apply Hq, Hgq). split; [done|].
    intros fl. etrans; [|apply (Hone fl)]. apply changes_update_where_le.
    intros g (_ & _ & _ & _ & Hdis)%Hq Hg2. bools. congruence.
Qed.

(** The table lists the grants as they were armed, and a fleet's armed grant is
    its last one. *)
Definition superseded (t : Z) (a b : OperatorRecoveryGrantRow) : Prop :=
  g_created_at a <= g_created_at b /\ (g_fleet a = g_fleet b -> armed t a = false).

Definition grants_in_order (t : Z) (l : list OperatorRecoveryGrantRow) : Prop :=
  StronglySorted (superseded t) l /\ Forall (fun g => g_created_at g <= t) l.

Lemma grants_in_order_later t t' l : t <= t' -> grants_in_order t l -> grants_in_order t' l.
Proof.
  intros Ht [Hs Hc]. split; [|eapply Forall_impl; [exact Hc|]; simpl; lia].
  induction Hs as [|a l Hs IH Hall]; [constructor|]. inversion Hc; subst.
  constructor; [auto|]. eapply Forall_impl; [exact Hall|]. intros b [Hle Hoff].
  split; [done|]. intros Hf. destruct (armed t' a) eqn:E; [|done].
  by rewrite (armed_earlier t t') in Hoff; auto.
Qed.

Lemma grants_in_order_disarm t q f l :
  (forall g, q g = true -> g_created_at (f g) = g_created_at g /\ g_fleet (f g) = g_fleet g /\
     armed t (f g) = false) ->
  grants_in_order t l -> grants_in_order t (update_where q f l).
Proof.
  intros Hq [Hs Hc]. unfold update_where.
  assert (Hk : forall g, let g' := if q g then f g else g in
    g_created_at g' = g_created_at g /\ g_fleet g' = g_fleet g /\ (armed t g = false -> armed t g' = false)).
  { intros g. simpl. destruct (q g) eqn:E; [|done]. by destruct (Hq g E) as (-> & -> & ->). }
  split; [|apply Forall_map; eapply Forall_impl; [exact Hc|]; intros g; simpl;
             by destruct (Hk g) as (-> & _)].
  induction Hs as [|a l Hs IH Hall]; [constructor|]. inversion Hc; subst. simpl.
  constructor; [auto|]. apply Forall_map. eapply Forall_impl; [exact Hall|].
  intros b [Hle Hoff]. destruct (Hk a) as (Ha1 & Ha2 & Ha3), (Hk b) as (Hb1 & Hb2 & _).
  unfold superseded. simpl. rewrite Ha1, Ha2, Hb1, Hb2. auto.
Qed.

Lemma key_step_grants_in_order now db db' :
  key_step now db db' -> signatures_ok db -> grants_in_order now (kd_grants db) ->
  grants_in_order now (kd_grants db').
Proof.
  intros Hstep Hsig Hord.
  destruct (key_step_grants now db db' Hstep Hsig)
    as [->|[(g & -> & _ & Hnow & Hnone)|(q & f & -> & Hq)]]; [done| |].
  - destruct Hord as [Hs Hc]. split; [|apply Forall_app; split; [done|]; repeat constructor; lia].
    apply StronglySorted_app_2; [|done|repeat constructor].
    intros a Ha b ->%list_elem_of_singleton. split; [|by apply Hnone].
    rewrite Hnow. rewrite Forall_forall in Hc. by apply Hc.
  - apply grants_in_order_disarm; [|done]. naive_solver.
Qed.

(** A consumed grant stays in the table as it is. *)
Lemma key_step_consumed now db db' g :
  key_step now db db' -> signatures_ok db -> g ∈ kd_grants db -> g_consumed_at g <> None ->
  g ∈ kd_grants db'.
Proof.
  intros Hstep Hsig Hin Hc.
  destruct (key_step_grants now db db' Hstep Hsig)
    as [->|[(g' & -> & _)|(q & f & -> & Hq)]].
  - done.
  - apply elem_of_app. by left.
  - apply elem_of_update_where. exists g. split; [done|].
    destruct (q g) eqn:E; [|done]. by destruct (Hq g E).
Qed.

(** ** Revoked keys *)

(** The timestamp of a tombstone is not empty, so JavaScript sees it. *)
Lemma tombstone_dead db fleet k row at_ :
  signatures_ok db -> kd_keys db !! (fleet, k) = Some row -> ok_revoked_at row = Some at_ ->
  truthy (ok_revoked_at row) <> None.
Proof.
  intros [HK _] Hrow Hat. destruct (kr_revoked _ _ _ _ (HK _ _ _ Hrow) _ Hat) as (p & _ & _ & Hc & _).
  apply canonical_iff in Hc as (t & _ & ->). rewrite Hat.
  assert (truthy (Some (to_iso t)) = Some (to_iso t)) as ->; [|done].
  apply truthy_Some. split; [done|]. apply to_iso_nonempty.
Qed.

Lemma key_step_tombstone now db db' fleet k row at_ :
  key_step now db db' -> signatures_ok db ->
  kd_keys db !! (fleet, k) = Some row -> ok_revoked_at row = Some at_ ->
  kd_keys db' !! (fleet, k) = Some row.
Proof.
  intros Hstep Hok Hrow Hat. pose proof (tombstone_dead _ _ _ _ _ Hok Hrow Hat) as Hdead.
  destruct (kr_revoked _ _ _ _ (proj1 Hok _ _ _ Hrow) _ Hat) as (p & _ & _ & _ & (sg & _ & Hsig & _)).
  destruct Hstep as
    [fl|fl pub label e actor db' kid evs Hr|fl k' e actor db' evs Hr
    |fl k' s actor claimed db' out evs Hr| agent fl pub|fl agent k' e actor db' evs Hr
    |fl new_id endorser target confirmed ttl db' g evs Hid Hr|fl gid].
  - done.
  - apply registerOperatorKey_Ok in Hr as (-> & Hnew & -> & _). simpl.
    rewrite lookup_insert_ne; congruence.
  - apply endorseOperatorKey_Ok in Hr as (target & grants & _ & Ht & Hl & _ & _ & _ & ->). simpl.
    rewrite lookup_insert_ne; congruence.
  - apply revokeOperatorKey_Ok in Hr
      as (target & signer & Ht & _ & Hl & _ & _ & _ & _ & _ & _ & _ & ->). simpl.
    rewrite lookup_insert_ne; [done|]. intros [= -> ->]. simplify_eq.
    destruct Hl as [?|[_ ?]]; congruence.
  - unfold setAgentIdentityKey. by destruct (kd_agent_keys db !! _).
  - apply endorseAgentKey_Ok in Hr as (arow & endorser & _ & _ & _ & _ & _ & ->). done.
  - apply create_Ok in Hr as (_ & _ & _ & _ & _ & -> & _). done.
  - by rewrite (proj1 (cancel_keys db now fl gid)).
Qed.

(** No operation accepts a signature of a key the table holds as revoked. *)
Lemma dead_key_refused db fleet k row :
  kd_keys db !! (fleet, k) = Some row -> truthy (ok_revoked_at row) <> None ->
  operatorKeyMayEndorse db fleet k = false /\
  (forall now target s actor claimed, r_by s = k ->
     is_ok (revokeOperatorKey db now fleet target s actor claimed) = false) /\
  (forall now target e actor, e_by e = k ->
     is_ok (endorseOperatorKey db now fleet target e actor) = false) /\
  (forall now agent target e actor, e_by e = k ->
     is_ok (endorseAgentKey db now fleet agent target e actor) = false) /\
  (forall now pub label e actor, e_by e = k ->
     is_ok (registerOperatorKey db now fleet pub label (Some e) actor) = false).
Proof.
  intros Hrow Hdead.
  assert (Hl : live_key db fleet k = None).
  { unfold live_key, live_row. rewrite Hrow. case_bool_decide as E; [|done]. by rewrite E in Hdead. }
  split_and!.
  - unfold operatorKeyMayEndorse. rewrite Hrow. by rewrite bool_decide_false.
  - intros now target s actor claimed Hs.
    destruct (revokeOperatorKey db now fleet target s actor claimed) as [[[? ?] ?]|] eqn:E; [|done].
    apply revokeOperatorKey_Ok in E as (t & signer & _ & Hsg & _ & _ & Hsl & _).
    rewrite Hs, Hrow in Hsg. by simplify_eq.
  - intros now target e actor <-.
    destruct (endorseOperatorKey db now fleet target e actor) as [[? ?]|] eqn:E; [|done].
    apply endorseOperatorKey_Ok in E as (t & gr & _ & _ & _ & (en & Hen & _) & _). congruence.
  - intros now agent target e actor <-.
    destruct (endorseAgentKey db now fleet agent target e actor) as [[? ?]|] eqn:E; [|done].
    apply endorseAgentKey_Ok in E as (r & en & _ & _ & Hen & _). congruence.
  - intros now pub label e actor <-.
    destruct (registerOperatorKey db now fleet pub label (Some e) actor) as [[[? ?] ?]|] eqn:E; [|done].
    apply registerOperatorKey_Ok in E as (_ & _ & _ & (en & Hen & _) & _). congruence.
Qed.

(** ** Every reachable state *)

Record key_inv (t : Z) (db : KeyDb) : Prop := {
  ki_signed : signatures_ok db;
  ki_acyclic : forall f, acyclic (endorses db f);
  ki_alive : forall f, AuthorityAlive db f;
  ki_grants : grants_ok t db;
  ki_order : grants_in_order t (kd_grants db)
}.

Lemma key_inv_run t0 db0 t db : key_run t0 db0 t db -> key_inv t0 db0 -> key_inv t db.
Proof.
  induction 1 as [|t now db db' Hrun IH Hle Hstep]; [done|]. intros Hi.
  destruct (IH Hi) as [Hs Ha Hl Hg Ho]. split.
  - by eapply key_step_signatures.
  - by eapply key_step_acyclic.
  - intros f. by eapply key_step_authority.
  - eapply key_step_grants_ok; [done..|]. by eapply grants_ok_later.
  - eapply key_step_grants_in_order; [done..|]. by eapply grants_in_order_later.
Qed.

Lemma key_inv_reach t db : key_reach t db -> key_inv t db.
Proof.
  intros [t0 Hrun]. apply (key_inv_run _ _ _ _ Hrun). split.
  - split; intros * Hr; simpl in Hr; by rewrite lookup_empty in Hr.
  - intros f x Hx. inversion Hx as [? ? (_ & r & Hr & _)|? ? ? (_ & r & Hr & _)]; subst;
      simpl in Hr; by rewrite lookup_empty in Hr.
  - intros f. by left.
  - split; [constructor|]. intros f. unfold changes. simpl. lia.
  - split; constructor.
Qed.

Lemma run_consumed t0 db0 t db g :
  key_run t0 db0 t db -> key_inv t0 db0 -> g ∈ kd_grants db0 -> g_consumed_at g <> None ->
  g ∈ kd_grants db.
Proof.
  induction 1 as [|t now db db' Hrun IH Hle Hstep]; [done|]. intros Hi Hin Hc.
  eapply key_step_consumed; [done| |by apply IH|done].
  by eapply ki_signed, key_inv_run.
Qed.

Lemma run_tombstone t0 db0 t db fleet k row at_ :
  key_inv t0 db0 -> kd_keys db0 !! (fleet, k) = Some row -> ok_revoked_at row = Some at_ ->
  key_run t0 db0 t db -> kd_keys db !! (fleet, k) = Some row.
Proof.
  intros Hi Hrow Hat. induction 1 as [|t now db db' Hrun IH Hle Hstep]; [done|].
  eapply key_step_tombstone; [done| |done..]. by eapply ki_signed, key_inv_run.
Qed.
End Grants.

(** ** The guards of a revocation *)

Section RevokeGuards.
Context `{Crypto}.

Definition revocable (db : KeyDb) (fleet : string) (target : OperatorKeyRow) : bool :=
  match ok_revoked_at target with
  | None => (1 <? length (getActiveOperatorKeys db fleet))%nat
  | Some t => negb (t ==? "") && (ok_revocation_sig target ==? None)
  end.

Definition revokedAt_ok (now : Z) (at_ : string) : bool :=
  isCanonicalIsoTimestamp at_ &&
  match parse_iso at_ with
  | Some t => Z.abs (t - now) <=? REVOCATION_MAX_SKEW_MS
  | None => false
  end.

(** All guards of [revokeOperatorKey] in one condition. *)
Definition revoke_guards (db : KeyDb) (now : Z) (fleet k : string)
    (s : SignedOperatorKeyRevocation) : bool :=
  match kd_keys db !! (fleet, k), kd_keys db !! (fleet, r_by s) with
  | Some target, Some signer =>
      revocable db fleet target && negb (r_by s ==? k) && (truthy (ok_revoked_at signer) ==? None) &&
      endorserIsTrusted db fleet (r_by s) None &&
      match assertAuthoritySurvives db fleet k (r_by s) with None => true | Some _ => false end &&
      revokedAt_ok now (r_revoked_at s) &&
      verifyCanonical (revocationPayload fleet k (r_revoked_at s)) (r_signature s)
        (fromB64url (ok_public_key signer))
  | _, _ => false
  end.

Lemma revocable_guards db fleet target :
  let legacy := if legacy_unsigned target then truthy (ok_revoked_at target) else None in
  (if negb (truthy (ok_revoked_at target) ==? None) && (legacy ==? None) then false else
   if (legacy ==? None) && (length (getActiveOperatorKeys db fleet) <=? 1)%nat then false else
   match legacy with
   | Some at_ => (ok_revoked_at target ==? Some at_) && (ok_revocation_sig target ==? None)
   | None => ok_revoked_at target ==? None
   end) = revocable db fleet target.
Proof.
  unfold revocable, legacy_unsigned.
  destruct (ok_revoked_at target) as [t|]; simpl.
  - destruct (decide (t = "")) as [->|Ht].
    + simpl. by destruct (ok_revocation_sig target ==? None); simpl; case_match.
    + rewrite (bool_decide_false _ Ht). simpl.
      destruct (ok_revocation_sig target ==? None) eqn:E; simpl; rewrite ?E;
        by rewrite ?(bool_decide_true (Some t = Some t)).
  - destruct (1 <? _)%nat eqn:E.
    + apply Nat.ltb_lt in E. by rewrite (proj2 (Nat.leb_gt _ _) E).
    + apply Nat.ltb_ge in E. by rewrite (proj2 (Nat.leb_le _ _) E).
Qed.

Lemma revokeOperatorKey_guards db now fleet k s actor claimed :
  is_ok (revokeOperatorKey db now fleet k s actor claimed) = revoke_guards db now fleet k s.
Proof.
  unfold revokeOperatorKey, revoke_guards, revokedAt_ok.
  destruct (kd_keys db !! (fleet, k)) as [target|]; [|done].
  rewrite <- revocable_guards. cbv zeta.
  set (legacy := if legacy_unsigned target then _ else None).
  destruct (negb (truthy (ok_revoked_at target) ==? None) && (legacy ==? None)); [by case_match|].
  destruct ((legacy ==? None) && _); [by case_match|].
  set (free := match legacy with Some _ => _ | None => _ end). clearbody free.
  destruct (r_by s ==? k); simpl.
  { case_match; [by rewrite andb_false_r|done]. }
  rewrite andb_true_r.
  destruct (kd_keys db !! (fleet, r_by s)) as [signer|]; [|done].
  destruct (truthy (ok_revoked_at signer) ==? None); simpl; [|by rewrite andb_false_r].
  rewrite andb_true_r.
  destruct (endorserIsTrusted db fleet (r_by s) None); simpl; [|by rewrite andb_false_r].
  rewrite andb_true_r.
  destruct (assertAuthoritySurvives db fleet k (r_by s)); simpl; [by rewrite andb_false_r|].
  rewrite andb_true_r.
  destruct (isCanonicalIsoTimestamp (r_revoked_at s)); simpl; [|by rewrite andb_false_r].
  destruct (parse_iso (r_revoked_at s)) as [t|]; simpl; [|by rewrite andb_false_r].
  rewrite Z.leb_antisym. destruct (REVOCATION_MAX_SKEW_MS <? Z.abs (t - now)); simpl;
    [by rewrite andb_false_r|]. rewrite andb_true_r.
  destruct (verifyCanonical _ _ _); simpl; [|by rewrite andb_false_r].
  rewrite andb_true_r. by destruct free.
Qed.

(** What the guards mean. *)
Lemma revocable_iff db fleet target :
  revocable db fleet target = true <->
  (ok_revoked_at target = None /\ (1 < length (getActiveOperatorKeys db fleet))%nat) \/
  (truthy (ok_revoked_at target) <> None /\ ok_revocation_sig target = None).
Proof.
  unfold revocable. destruct (ok_revoked_at target) as [t|] eqn:E.
  - rewrite andb_true_iff, negb_true_iff, bool_decide_eq_false, bool_decide_eq_true.
    unfold truthy. case_bool_decide; naive_solver.
  - rewrite Nat.ltb_lt. simpl. naive_solver.
Qed.

Lemma authoritySurvives_iff db fleet k signer :
  match assertAuthoritySurvives db fleet k signer with None => true | Some _ => false end = true <->
  forall P, agentPinnedRoots db fleet = Some P -> P <> {[k]} /\ TrustedIn db fleet (Some k) signer.
Proof.
  unfold assertAuthoritySurvives. destruct (agentPinnedRoots db fleet) as [P|] eqn:HP; [|naive_solver].
  setoid_rewrite <- endorserIsTrusted_iff.
  assert (Hone : bool_decide (k ∈ P) && (size P =? 1)%nat = true <-> P = {[k]}).
  { rewrite andb_true_iff, bool_decide_eq_true, Nat.eqb_eq. split.
    - intros [Hk Hs]. apply size_1_elem_of in Hs as [x Hx]. set_solver.
    - intros ->. split; [set_solver|apply size_singleton]. }
  destruct (bool_decide (k ∈ P) && _) eqn:E.
  - assert (P = {[k]}) by by apply Hone. naive_solver.
  - destruct (endorserIsTrusted db fleet signer (Some k)); simpl; [|naive_solver].
    split; [|done]. intros _ P' [= <-]. split; [|done]. intros HP'. by apply Hone in HP'.
Qed.

Lemma revokedAt_iff now at_ :
  revokedAt_ok now at_ = true <->
  exists t, in_iso_range t /\ at_ = to_iso t /\ Z.abs (t - now) <= 300000.
Proof.
  unfold revokedAt_ok. rewrite andb_true_iff, canonical_iff. split.
  - intros [(t & Ht & ->) Hs]. exists t. rewrite parse_iso_to_iso in Hs by done.
    apply Z.leb_le in Hs. done.
  - intros (t & Ht & -> & Hs). split; [by exists t|]. rewrite parse_iso_to_iso by done.
    by apply Z.leb_le.
Qed.
End RevokeGuards.
