(* ===== verification/OperatorProperties.v ===== *)
(** * Properties of the operator keys

    The theorems about [OperatorKeys], each with a run of a concrete relay on
    which its hypotheses hold. *)

From stdpp Require Import relations.
From S2P Require Import Prelude Walk Json IsoTime JsValues Identity Events OperatorKeys OperatorTrust OperatorSafety.
Import Ascii String.
Open Scope string_scope.
Open Scope Z_scope.

(** ** A concrete relay

    Device [A] is the first key of the fleet, endorses the identity key of one
    agent and the key of device [B], and [B] revokes nothing yet. *)

Definition demo_endorsement (by_ k : string) : Endorsement :=
  MkEndorsement by_ (by_ +:+ canonicalize (endorsementPayload "f" k k)).

Definition demo_agent_endorsement (by_ agent k : string) : Endorsement :=
  MkEndorsement by_ (by_ +:+ canonicalize (agentKeyEndorsementPayload "f" agent k k)).

Definition demo_revocation (by_ k : string) (now : Z) : SignedOperatorKeyRevocation :=
  MkRevocation (to_iso now) by_ (by_ +:+ canonicalize (revocationPayload "f" k (to_iso now))).

Definition ok_db {A} (d : KeyDb) (r : result KeyErr (KeyDb * A)) : KeyDb :=
  match r with Ok (db, _) => db | Throw _ => d end.
Definition ok_db3 {A B} (d : KeyDb) (r : result KeyErr (KeyDb * A * B)) : KeyDb :=
  match r with Ok (db, _, _) => db | Throw _ => d end.

Lemma ok_db_eta {A} d db (r : result KeyErr (KeyDb * A)) :
  db = ok_db d r -> is_ok r = true -> exists evs, r = Ok (db, evs).
Proof. intros ->. destruct r as [[? a]|]; [by exists a|done]. Qed.
Lemma ok_db3_eta {A B} d db (r : result KeyErr (KeyDb * A * B)) :
  db = ok_db3 d r -> is_ok r = true -> exists a evs, r = Ok (db, a, evs).
Proof. intros ->. destruct r as [[[? a] b]|]; [by exists a, b|done]. Qed.

Section DemoSteps.
Context `{Crypto}.

(** The steps by their outcome, for runs that evaluate. *)
Lemma do_register now db fleet pub label e actor :
  is_ok (registerOperatorKey db now fleet pub label e actor) = true ->
  key_step now db (ok_db3 db (registerOperatorKey db now fleet pub label e actor)).
Proof. destruct (registerOperatorKey _ _ _ _ _ _ _) as [[[? ?] ?]|] eqn:E; [intros _|done]. by eapply step_register. Qed.

Lemma do_endorse now db fleet k e actor :
  is_ok (endorseOperatorKey db now fleet k e actor) = true ->
  key_step now db (ok_db db (endorseOperatorKey db now fleet k e actor)).
Proof. destruct (endorseOperatorKey _ _ _ _ _ _) as [[? ?]|] eqn:E; [intros _|done]. by eapply step_endorse. Qed.

Lemma do_endorse_agent now db fleet agent k e actor :
  is_ok (endorseAgentKey db now fleet agent k e actor) = true ->
  key_step now db (ok_db db (endorseAgentKey db now fleet agent k e actor)).
Proof. destruct (endorseAgentKey _ _ _ _ _ _ _) as [[? ?]|] eqn:E; [intros _|done]. by eapply step_endorse_agent. Qed.

Lemma do_revoke now db fleet k s actor claimed :
  is_ok (revokeOperatorKey db now fleet k s actor claimed) = true ->
  key_step now db (ok_db3 db (revokeOperatorKey db now fleet k s actor claimed)).
Proof. destruct (revokeOperatorKey _ _ _ _ _ _ _) as [[[? ?] ?]|] eqn:E; [intros _|done]. by eapply step_revoke. Qed.

Lemma do_arm now db fleet new_id endorser target confirmed ttl :
  bool_decide (new_id ∈ map g_id (kd_grants db)) = false ->
  is_ok (createOperatorRecoveryGrant db now new_id fleet endorser target confirmed ttl) = true ->
  key_step now db (ok_db3 db (createOperatorRecoveryGrant db now new_id fleet endorser target confirmed ttl)).
Proof.
  intros Hid. destruct (createOperatorRecoveryGrant _ _ _ _ _ _ _ _) as [[[? ?] ?]|] eqn:E; [intros _|done].
  eapply step_arm; [by apply bool_decide_eq_false in Hid|done].
Qed.
End DemoSteps.

Section Demo.
#[local] Existing Instance toy_crypto.

Definition demo0 : KeyDb := MkKeyDb {["f"]} ∅ ∅ [].
Definition demo1 : KeyDb := ok_db3 demo0 (registerOperatorKey demo0 1 "f" "A" "laptop" None None).
Definition demo2 : KeyDb :=
  ok_db3 demo1 (registerOperatorKey demo1 2 "f" "B" "phone" (Some (demo_endorsement "A" "B")) None).
Definition demo3 : KeyDb := fst (setAgentIdentityKey demo2 3 "tars" "f" "X").
(** Both roots are pinned: tars by A, case by B. *)
Definition demo4 : KeyDb :=
  ok_db demo3 (endorseAgentKey demo3 4 "f" "tars" "X" (demo_agent_endorsement "A" "tars" "X") None).
Definition demo5 : KeyDb := fst (setAgentIdentityKey demo4 5 "case" "f" "Y").
Definition demo6 : KeyDb :=
  ok_db demo5 (endorseAgentKey demo5 6 "f" "case" "Y" (demo_agent_endorsement "B" "case" "Y") None).
(** B revokes A. *)
Definition demo7 : KeyDb :=
  ok_db3 demo6 (revokeOperatorKey demo6 7 "f" "A" (demo_revocation "B" "A" 7) None None).

(** A third device registers unendorsed, and the host arms a recovery grant
    that lets the unendorsed fourth device endorse it. *)
Definition demo8 : KeyDb := ok_db3 demo7 (registerOperatorKey demo7 8 "f" "C" "lost" None None).
Definition demo9 : KeyDb := ok_db3 demo8 (registerOperatorKey demo8 9 "f" "D" "new" None None).
Definition demo10 : KeyDb :=
  ok_db3 demo9 (createOperatorRecoveryGrant demo9 10 "rcg_1" "f" "C" "D" (Some "JW, by phone") None).
Definition demo11 : KeyDb :=
  ok_db demo10 (endorseOperatorKey demo10 11 "f" "D" (demo_endorsement "C" "D") None).

Lemma demo_run6 : key_run 0 empty_key_db 6 demo6.
Proof.
  apply (run_step _ _ 5 6 demo5); [| lia|apply do_endorse_agent; by vm_compute].
  apply (run_step _ _ 4 5 demo4); [|lia|apply step_set_agent_key].
  apply (run_step _ _ 3 4 demo3); [|lia|apply do_endorse_agent; by vm_compute].
  apply (run_step _ _ 2 3 demo2); [|lia|apply step_set_agent_key].
  apply (run_step _ _ 1 2 demo1); [|lia|apply do_register; by vm_compute].
  apply (run_step _ _ 0 1 demo0); [|lia|apply do_register; by vm_compute].
  apply (run_step _ _ 0 0 empty_key_db); [constructor|lia|].
  apply (step_create_fleet 0 empty_key_db "f").
Qed.

Lemma demo_run7 : key_run 0 empty_key_db 7 demo7.
Proof. apply (run_step _ _ 6 7 demo6); [exact demo_run6|lia|apply do_revoke; by vm_compute]. Qed.

Lemma demo_run7_10 : key_run 7 demo7 10 demo10.
Proof.
  apply (run_step _ _ 9 10 demo9); [|lia|apply do_arm; by vm_compute].
  apply (run_step _ _ 8 9 demo8); [|lia|apply do_register; by vm_compute].
  apply (run_step _ _ 7 8 demo7); [constructor|lia|apply do_register; by vm_compute].
Qed.

Lemma demo_run10 : key_run 0 empty_key_db 10 demo10.
Proof. eapply key_run_trans; [exact demo_run7|exact demo_run7_10]. Qed.

Lemma demo_run11 : key_run 10 demo10 11 demo11.
Proof. apply (run_step _ _ 10 11 demo10); [constructor|lia|apply do_endorse; by vm_compute]. Qed.
End Demo.

(** ** Authority *)

(** C1. Authority survives: whatever sequence of operations an empty relay
    performs (registering, endorsing, revoking, recovering, pinning agents), a
    fleet that has endorsed an agent keeps a live key that may endorse, so the
    operator can never be locked out through the API. *)
Theorem authority_survives `{Crypto} t db fleet :
  key_reach t db ->
  agentPinnedRoots db fleet = None \/ exists k, operatorKeyMayEndorse db fleet k = true.
Proof. intros Hr. exact (ki_alive _ _ (key_inv_reach _ _ Hr) fleet). Qed.

Lemma authority_survives_witness :
  agentPinnedRoots demo7 "f" = None \/ exists k, operatorKeyMayEndorse demo7 "f" k = true.
Proof. apply (@authority_survives toy_crypto 7). exists 0. exact demo_run7. Defined.

(** C24. [endorserIsTrusted] decides the trust rule: on every table, cyclic ones
    included, with or without a key treated as revoked, it answers [true]
    exactly for the keys that reach a pinned root or a consumed recovery grant
    over live hops, and more iterations change nothing. *)
Theorem endorserIsTrusted_decides_trust db fleet k exclude :
  (endorserIsTrusted db fleet k exclude = true <->
   match agentPinnedRoots db fleet with
   | None => True
   | Some pinned => Trusted db fleet (roots_without exclude pinned) exclude k
   end) /\
  (forall roots fuel, (walk_fuel db <= fuel)%nat ->
     trust_walk fuel db fleet roots exclude ∅ k = trust_walk (walk_fuel db) db fleet roots exclude ∅ k).
Proof.
  split; [apply endorserIsTrusted_iff|]. intros roots fuel Hf.
  apply eq_true_iff_eq. by rewrite trust_walk_fuel, trust_walk_Trusted.
Qed.

(** An endorsement, ordinary or by a recovery grant, takes no key's trust
    away: every key of the fleet that could endorse before still can. *)
Theorem endorseOperatorKey_keeps_trust `{Crypto} db now fleet k e actor db' evs c :
  endorseOperatorKey db now fleet k e actor = Ok (db', evs) ->
  operatorKeyMayEndorse db fleet c = true -> operatorKeyMayEndorse db' fleet c = true.
Proof.
  intros Hr Hc. destruct (agentPinnedRoots db fleet) as [P|] eqn:HP.
  - rewrite (operatorKeyMayEndorse_iff _ _ _ _ HP) in Hc.
    assert (HP' : agentPinnedRoots db' fleet = Some P).
    { apply endorseOperatorKey_Ok in Hr as (? & ? & _ & _ & _ & _ & _ & _ & ->). done. }
    rewrite (operatorKeyMayEndorse_iff _ _ _ _ HP'). eapply endorse_keeps_Trusted; [exact HP|exact Hr|exact Hc].
  - apply endorseOperatorKey_Ok in Hr as (target & grants & _ & Ht & Hrev & _ & _ & _ & ->).
    unfold operatorKeyMayEndorse, endorserIsTrusted in *.
    change (agentPinnedRoots (with_grants _ _) fleet) with (agentPinnedRoots db fleet).
    rewrite HP. simpl. destruct (decide (c = k)) as [->|Hne].
    + rewrite lookup_insert_eq. simpl. by rewrite Hrev.
    + rewrite lookup_insert_ne by congruence. destruct (kd_keys db !! (fleet, c)); [|done].
      by destruct (negb _).
Qed.

Lemma endorseOperatorKey_keeps_trust_witness :
  operatorKeyMayEndorse demo10 "f" "B" = true /\ operatorKeyMayEndorse demo11 "f" "B" = true /\
  operatorKeyMayEndorse demo10 "f" "D" = false /\ operatorKeyMayEndorse demo11 "f" "D" = true.
Proof.
  split; [by vm_compute|]. split; [|by vm_compute].
  destruct (ok_db_eta demo10 demo11 _ eq_refl ltac:(by vm_compute)) as [evs Hev].
  apply (@endorseOperatorKey_keeps_trust toy_crypto _ _ _ _ _ _ _ _ "B" Hev).
  vm_compute. reflexivity.
Defined.

(** Every stored signature verifies: in every reachable state a key's id is
    the digest of its public key, a recorded endorser is a registered key of the
    fleet whose signature over the endorsement payload verifies, a tombstone
    carries a canonical timestamp and the verifying signature of another
    registered key, and the endorsement of an agent key verifies likewise. *)
Theorem stored_signatures_verify `{Crypto} t db :
  key_reach t db ->
  (forall f k row, kd_keys db !! (f, k) = Some row -> key_row_ok db f k row) /\
  (forall a k row, kd_agent_keys db !! (a, k) = Some row -> agent_row_ok db a k row).
Proof. intros Hr. exact (ki_signed _ _ (key_inv_reach _ _ Hr)). Qed.

Lemma stored_signatures_verify_witness :
  (forall f k row, kd_keys demo7 !! (f, k) = Some row -> @key_row_ok toy_crypto demo7 f k row) /\
  (forall a k row, kd_agent_keys demo7 !! (a, k) = Some row -> @agent_row_ok toy_crypto demo7 a k row).
Proof. apply (@stored_signatures_verify toy_crypto 7). exists 0. exact demo_run7. Defined.

(** C33. Endorsement chains end: the cycle check of [endorseOperatorKey] finds
    exactly the endorsers that chain back to the target, and no reachable table
    holds a chain that comes back to its start. *)
Theorem endorsement_chains_acyclic `{Crypto} t db fleet :
  key_reach t db ->
  (forall k, ~ tc (endorses db fleet) k k) /\
  (forall k e, k <> "" -> chainsBackTo db fleet k e = true <-> chains_to db fleet e k).
Proof.
  intros Hr. split; [exact (ki_acyclic _ _ (key_inv_reach _ _ Hr) fleet)|].
  intros k e Hk. by apply chainsBackTo_iff.
Qed.

Lemma endorsement_chains_acyclic_witness :
  (forall k, ~ tc (endorses demo7 "f") k k) /\
  (forall k e, k <> "" -> chainsBackTo demo7 "f" k e = true <-> chains_to demo7 "f" e k).
Proof. apply (@endorsement_chains_acyclic toy_crypto 7). exists 0. exact demo_run7. Defined.

(** ** Revocation *)

(** A tombstone is final: once a key is revoked its row never changes again,
    the key may not endorse, and no operation accepts its signature, whatever
    the relay does later. *)
Theorem tombstone_is_final `{Crypto} t0 db0 t db fleet k row at_ :
  key_reach t0 db0 -> kd_keys db0 !! (fleet, k) = Some row -> ok_revoked_at row = Some at_ ->
  key_run t0 db0 t db ->
  kd_keys db !! (fleet, k) = Some row /\
  operatorKeyMayEndorse db fleet k = false /\
  (forall now target s actor claimed, r_by s = k ->
     is_ok (revokeOperatorKey db now fleet target s actor claimed) = false) /\
  (forall now target e actor, e_by e = k ->
     is_ok (endorseOperatorKey db now fleet target e actor) = false) /\
  (forall now agent target e actor, e_by e = k ->
     is_ok (endorseAgentKey db now fleet agent target e actor) = false) /\
  (forall now pub label e actor, e_by e = k ->
     is_ok (registerOperatorKey db now fleet pub label (Some e) actor) = false).
Proof.
  intros Hreach Hrow Hat Hrun. pose proof (key_inv_reach _ _ Hreach) as Hinv.
  assert (Hnow : kd_keys db !! (fleet, k) = Some row) by (by eapply run_tombstone).
  assert (Hdead : truthy (ok_revoked_at row) <> None).
  { eapply tombstone_dead; [by eapply ki_signed|done|done]. }
  split; [done|]. by eapply dead_key_refused.
Qed.

Lemma tombstone_is_final_witness :
  exists row, kd_keys demo7 !! ("f", "A") = Some row /\ ok_revoked_at row = Some (to_iso 7) /\
    kd_keys demo10 !! ("f", "A") = Some row /\
    operatorKeyMayEndorse demo10 "f" "A" = false /\ operatorKeyMayEndorse demo6 "f" "A" = true.
Proof.
  assert (Hrow : exists row, kd_keys demo7 !! ("f", "A") = Some row /\ ok_revoked_at row = Some (to_iso 7)).
  { eexists. split; vm_compute; reflexivity. }
  destruct Hrow as (row & Hrow & Hat). exists row.
  assert (H6 : operatorKeyMayEndorse demo6 "f" "A" = true) by (vm_compute; reflexivity).
  destruct (@tombstone_is_final toy_crypto 7 demo7 10 demo10 "f" "A" row (to_iso 7)
    (ex_intro _ 0 demo_run7) Hrow Hat demo_run7_10) as (H10 & Hmay & _).
  exact (conj Hrow (conj Hat (conj H10 (conj Hmay H6)))).
Defined.

(** [revokeOperatorKey] succeeds exactly under its documented rules: the
    target is registered and live (with another live key in the fleet) or an
    unsigned legacy tombstone; the signer is another registered live key the
    fleet trusts; authority survives; the timestamp is canonical and within the
    skew of the relay clock; the signature verifies. *)
Theorem revokeOperatorKey_rules `{Crypto} db now fleet k s actor claimed :
  is_ok (revokeOperatorKey db now fleet k s actor claimed) = true <->
  exists target signer,
    kd_keys db !! (fleet, k) = Some target /\ kd_keys db !! (fleet, r_by s) = Some signer /\
    ((ok_revoked_at target = None /\ (1 < length (getActiveOperatorKeys db fleet))%nat) \/
     (truthy (ok_revoked_at target) <> None /\ ok_revocation_sig target = None)) /\
    r_by s <> k /\ truthy (ok_revoked_at signer) = None /\
    TrustedIn db fleet None (r_by s) /\
    (forall P, agentPinnedRoots db fleet = Some P ->
       P <> {[k]} /\ TrustedIn db fleet (Some k) (r_by s)) /\
    (exists t, in_iso_range t /\ r_revoked_at s = to_iso t /\ Z.abs (t - now) <= 300000) /\
    verifyCanonical (revocationPayload fleet k (r_revoked_at s)) (r_signature s)
      (fromB64url (ok_public_key signer)) = true.
Proof.
  rewrite revokeOperatorKey_guards. unfold revoke_guards.
  destruct (kd_keys db !! (fleet, k)) as [target|]; [|naive_solver].
  destruct (kd_keys db !! (fleet, r_by s)) as [signer|]; [|naive_solver].
  rewrite !andb_true_iff, negb_true_iff, bool_decide_eq_false, bool_decide_eq_true.
  rewrite revocable_iff, endorserIsTrusted_iff, authoritySurvives_iff, revokedAt_iff.
  split; [intros [[[[[[? ?] ?] ?] ?] ?] ?]; by exists target, signer|].
  intros (target' & signer' & [= <-] & [= <-] & ?). tauto.
Qed.

(** ** Recovery grants *)

(** A recovery grant is spent at most once: when an endorser the fleet does
    not trust gets an endorsement through, an armed grant named exactly this
    endorser and this successor, it is consumed from then on in every later
    state, and it never again lets any key endorse anything. *)
Theorem recovery_grant_single_use `{Crypto} t0 db0 now fleet k e actor db1 evs t db :
  key_reach t0 db0 -> t0 <= now ->
  endorseOperatorKey db0 now fleet k e actor = Ok (db1, evs) ->
  ~ TrustedIn db0 fleet None (e_by e) ->
  key_run now db1 t db ->
  exists g g', g ∈ kd_grants db0 /\ armed now g = true /\
    g_fleet g = fleet /\ g_endorser g = e_by e /\ g_target g = k /\
    g' ∈ kd_grants db /\ g_id g' = g_id g /\ g_consumed_at g' = Some now /\
    forall now' fleet' e' k' target' g2,
      requireRecoveryGrant db now' fleet' e' k' target' = Ok g2 -> g_id g2 <> g_id g.
Proof.
  intros Hreach Hle Hr Hnt Hrun. pose proof (key_inv_reach _ _ Hreach) as Hinv0.
  assert (Hinv1 : key_inv now db1).
  { eapply (key_inv_run t0 db0); [|done]. eapply run_step; [constructor|done|by eapply step_endorse]. }
  apply endorseOperatorKey_Ok in Hr as (target & grants & _ & _ & _ & _ & Ha & _ & Hdb).
  destruct Ha as [[? _]|(_ & g & Hg & Hc)]; [done|].
  apply requireRecoveryGrant_Ok in Hg as (Hin & Hf & He & Ht & Harm & _).
  destruct (consumeGrant_consumed _ _ _ _ Hc Hin Harm) as (g' & Hin' & Hid & _ & _ & _ & Hcons).
  assert (Hlater : g' ∈ kd_grants db).
  { eapply (run_consumed now db1); [done|done|by subst|by rewrite Hcons]. }
  exists g, g'. split_and!; [done..|]. intros now' fleet' e' k' target' g2 Hg2 Heq.
  apply requireRecoveryGrant_Ok in Hg2 as (Hin2 & _ & _ & _ & Harm2 & _).
  destruct (ki_grants _ _ (key_inv_run _ _ _ _ Hrun Hinv1)) as [Hnd _].
  assert (g2 = g') as -> by (eapply NoDup_map_inj; [done..|congruence]).
  unfold armed in Harm2. by rewrite Hcons in Harm2.
Qed.

Lemma recovery_grant_single_use_witness :
  exists g g', g ∈ kd_grants demo10 /\ armed 11 g = true /\
    g_fleet g = "f" /\ g_endorser g = "C" /\ g_target g = "D" /\
    g' ∈ kd_grants demo11 /\ g_id g' = g_id g /\ g_consumed_at g' = Some 11 /\
    forall now' fleet' e' k' target' g2,
      requireRecoveryGrant demo11 now' fleet' e' k' target' = Ok g2 -> g_id g2 <> g_id g.
Proof.
  assert (Hnt : ~ TrustedIn demo10 "f" None "C").
  { apply endorserIsTrusted_false. vm_compute. reflexivity. }
  destruct (ok_db_eta demo10 demo11 _ eq_refl ltac:(vm_compute; reflexivity)) as [evs Hev].
  exact (@recovery_grant_single_use toy_crypto 10 demo10 11 "f" "D" (demo_endorsement "C" "D") None
    demo11 evs 11 demo11 (ex_intro _ 0 demo_run10) ltac:(lia) Hev Hnt (run_refl _ _)).
Defined.

(** At most one way in: in every reachable state and at every later time, two
    armed grants of one fleet are the same grant, and an armed grant is the one
    [getActiveOperatorRecoveryGrant] reports. *)
Theorem at_most_one_armed_grant `{Crypto} t db now g1 g2 :
  key_reach t db -> t <= now ->
  g1 ∈ kd_grants db -> g2 ∈ kd_grants db -> g_fleet g1 = g_fleet g2 ->
  armed now g1 = true -> armed now g2 = true ->
  g1 = g2 /\ getActiveOperatorRecoveryGrant db now (g_fleet g1) = Some g1.
Proof.
  intros Hr Hle H1 H2 Hf Ha1 Ha2.
  destruct (grants_ok_later _ _ _ Hle (ki_grants _ _ (key_inv_reach _ _ Hr))) as [_ Hone].
  assert (Huniq : forall g, g ∈ kd_grants db -> g_fleet g = g_fleet g1 -> armed now g = true -> g = g1).
  { intros g Hin Hfg Hag. eapply changes_le_one; [exact (Hone (g_fleet g1))|done|done| |];
      simpl; by rewrite bool_decide_true. }
  split; [symmetry; auto|]. unfold getActiveOperatorRecoveryGrant.
  destruct (latest_by _ _) as [g|] eqn:Hl.
  - apply latest_by_Some, elem_of_select in Hl as [Hin Hp]. bools. f_equal. auto.
  - apply latest_by_None in Hl. exfalso.
    assert (g1 ∈ select (fun g => (g_fleet g ==? g_fleet g1) && armed now g) (kd_grants db)) as Hin.
    { apply elem_of_select. by rewrite bool_decide_true. }
    rewrite Hl in Hin. by apply elem_of_nil in Hin.
Qed.

Lemma at_most_one_armed_grant_witness :
  exists g, g ∈ kd_grants demo10 /\ armed 10 g = true /\
    g = g /\ getActiveOperatorRecoveryGrant demo10 10 (g_fleet g) = Some g.
Proof.
  assert (Hg : exists g, kd_grants demo10 = [g] /\ armed 10 g = true).
  { eexists. split; vm_compute; reflexivity. }
  destruct Hg as (g & Hg & Ha). exists g.
  assert (Hin : g ∈ kd_grants demo10) by (rewrite Hg; by left).
  split; [exact Hin|]. split; [exact Ha|].
  exact (@at_most_one_armed_grant toy_crypto 10 demo10 10 g g (ex_intro _ 0 demo_run10)
    ltac:(lia) Hin Hin eq_refl Ha Ha).
Defined.
