(* ===== verification/ConsoleTrust.v ===== *)
(** * What the console lets the operator press

    [packages/relay/frontend/src/operatorTrust.js]: the rules behind the Security
    screen, over the keys, agent keys and recovery grant the relay publishes
    ([GET /v1/operator/keys] and [/agent-keys] of [routes-operator.ts]).  A text
    shown to the operator is a constructor with the values put into it. *)

From S2P Require Import Prelude Json IsoTime JsValues Identity Events OperatorKeys.
Import Ascii String.
Open Scope string_scope.
Open Scope Z_scope.

(** ** What the relay publishes *)

(** A row of [keys]; an older relay sends no [trusted]. *)
Record OperatorKey := MkOperatorKey {
  k_id : string;
  k_label : option string;
  k_revoked_at : option string;
  k_endorsed_by : option string;
  k_revocation_sig : option string;
  k_trusted : option bool
}.

Record AgentKey := MkAgentKey {
  a_agent : string;
  a_key_id : string;
  a_endorsed_by : option string
}.

Record RecoveryGrant := MkRecoveryGrant {
  rg_endorser : option string;
  rg_target : option string;
  rg_expires_at : option string
}.

(** The rows the two routes answer with. *)
Definition console_key (db : KeyDb) (fleet : string) (kr : string * OperatorKeyRow) : OperatorKey :=
  MkOperatorKey (fst kr) (Some (ok_label (snd kr))) (ok_revoked_at (snd kr)) (ok_endorsed_by (snd kr))
    (ok_revocation_sig (snd kr)) (Some (operatorKeyMayEndorse db fleet (fst kr))).

Definition console_keys (db : KeyDb) (fleet : string) : list OperatorKey :=
  map (console_key db fleet) (listOperatorKeys db fleet).

Definition console_grant (db : KeyDb) (now : Z) (fleet : string) : option RecoveryGrant :=
  option_map (fun g => MkRecoveryGrant (Some (g_endorser g)) (Some (g_target g))
                         (Some (to_iso (g_expires_at g))))
    (getActiveOperatorRecoveryGrant db now fleet).

Definition console_agents (db : KeyDb) (fleet : string) : list AgentKey :=
  map (fun kr => MkAgentKey (fst (fst kr)) (snd (fst kr)) (ak_endorsed_by (snd kr)))
    (getAgentIdentityKeys db fleet).

(** ** How a key stands *)

Definition find_key (id : string) (keys : list OperatorKey) : option OperatorKey :=
  List.find (fun k => k_id k ==? id) keys.

(** [!k.revoked_at] *)
Definition key_live (k : OperatorKey) : bool := truthy (k_revoked_at k) ==? None.

Inductive EndorserState := Unendorsed | Revoked | Foreign | Current.

#[export] Instance EndorserState_eq_dec : EqDecision EndorserState.
Proof. solve_decision. Defined.

Record EndorserStatus := MkStatus {
  st_state : EndorserState;
  st_endorser : option string;
  st_label : option string;
  st_needs_action : bool
}.

Definition endorserStatus (ak : AgentKey) (keys : list OperatorKey) (currentKeyId : option string)
    : EndorserStatus :=
  match truthy (a_endorsed_by ak) with
  | None => MkStatus Unendorsed None None true
  | Some id =>
      let endorser := find_key id keys in
      let label := truthy (endorser ≫= k_label) in
      if negb (from_option key_live false endorser) then MkStatus Revoked (Some id) label true
      else if truthy currentKeyId ==? Some id then MkStatus Current (Some id) label false
      else MkStatus Foreign (Some id) label false
  end.

Definition consolidationTargets (agents : list AgentKey) (keys : list OperatorKey)
    (currentKeyId : option string) : list AgentKey :=
  match truthy currentKeyId with
  | None => []
  | Some _ => List.filter (fun ak => st_state (endorserStatus ak keys currentKeyId) ==? Foreign) agents
  end.

Definition dependentsOf (id : string) (agents : list AgentKey) : nat :=
  length (List.filter (fun ak => a_endorsed_by ak ==? Some id) agents).

(** The loop of [trustRootKey]: the best key so far and its dependents. *)
Definition root_step (agents : list AgentKey) (acc : option OperatorKey * nat) (k : OperatorKey)
    : option OperatorKey * nat :=
  if negb (key_live k) then acc
  else let deps := dependentsOf (k_id k) agents in
       if (snd acc <? deps)%nat then (Some k, deps) else acc.

Definition trustRootKey (keys : list OperatorKey) (agents : list AgentKey) : option OperatorKey :=
  fst (fold_left (root_step agents) keys (None, 0%nat)).

Definition thisBrowserHoldsTrustRoot (unlockedKeyId : option string) (keys : list OperatorKey)
    (agents : list AgentKey) : bool :=
  match truthy unlockedKeyId, trustRootKey keys agents with
  | Some u, Some root => k_id root ==? u
  | _, _ => false
  end.

(** [k.label || k.key_id] *)
Definition shown_name (k : OperatorKey) : string := default (k_id k) (truthy (k_label k)).

Definition actingDeviceLabel (keys : list OperatorKey) (agents : list AgentKey) : option string :=
  option_map shown_name (trustRootKey keys agents).

(** ** Fleet health *)

Inductive TrustProblem := TrustRevokedKey (agents : nat) | NotEndorsedYet (agents : nat).

Record TrustHealth := MkHealth {
  th_ok : bool;
  th_problems : list TrustProblem;
  th_revoked : nat;
  th_unendorsed : nat;
  th_total : nat
}.

(** The loop of [trustHealth]. *)
Definition health_step (keys : list OperatorKey) (currentKeyId : option string)
    (acc : nat * nat) (ak : AgentKey) : nat * nat :=
  match st_state (endorserStatus ak keys currentKeyId) with
  | Revoked => (S (fst acc), snd acc)
  | Unendorsed => (fst acc, S (snd acc))
  | _ => acc
  end.

Definition trustHealth (keys : list OperatorKey) (agents : list AgentKey)
    (currentKeyId : option string) : TrustHealth :=
  let '(revoked, unendorsed) := fold_left (health_step keys currentKeyId) agents (0, 0)%nat in
  let problems := ((if (0 <? revoked)%nat then [TrustRevokedKey revoked] else []) ++
                  (if (0 <? unendorsed)%nat then [NotEndorsedYet unendorsed] else []))%list in
  MkHealth (bool_decide (length problems = 0%nat)) problems revoked unendorsed (length agents).

(** ** What this browser's key can do *)

Inductive SigningReason :=
  | UnlockToSign | KeyUnknownToRelay (k : string) | KeyIsRevoked (k : string).
Inductive SigningRecovery :=
  | ForgetThenEnrol | RescueFrom (label : string) | RescueFromAnother.

Record SigningState := MkSigning {
  ss_can_sign : bool;
  ss_revoked : bool;
  ss_reason : option SigningReason;
  ss_recovery : option SigningRecovery
}.

Definition deviceKeySigningState (keys : list OperatorKey) (unlockedKeyId : option string)
    (agents : option (list AgentKey)) : SigningState :=
  match truthy unlockedKeyId with
  | None => MkSigning false false (Some UnlockToSign) None
  | Some u =>
      match find_key u keys with
      | None => MkSigning false false (Some (KeyUnknownToRelay u)) (Some ForgetThenEnrol)
      | Some key =>
          if negb (key_live key) then
            MkSigning false true (Some (KeyIsRevoked u))
              (Some match truthy (agents ≫= actingDeviceLabel keys) with
                    | Some label => RescueFrom label
                    | None => RescueFromAnother
                    end)
          else MkSigning true false None None
      end
  end.

Definition liveOperatorKeys (keys : list OperatorKey) : list OperatorKey := List.filter key_live keys.

Inductive RevocationState := RevLive | RevSigned | RevUnsigned.

Definition revocationState (k : OperatorKey) : RevocationState :=
  if key_live k then RevLive
  else match truthy (k_revocation_sig k) with Some _ => RevSigned | None => RevUnsigned end.

(** ** Revoking *)

Inductive RevokeMessage :=
  | OnlyLiveOperatorKey (k : string)
  | ThisDevicesKey (k : string) (from : option string) (dependents : nat)
  | IsTheirTrustRoot (k : string) (dependents : nat)
  | ConfirmRevoke (k : string).

Record RevokeGuard := MkRevokeGuard {
  rv_blocked : bool;
  rv_self : bool;
  rv_message : RevokeMessage
}.

Definition revokeGuard (id : string) (keys : list OperatorKey) (unlockedKeyId : option string)
    (dependents : nat) (agents : list AgentKey) : RevokeGuard :=
  let live := liveOperatorKeys keys in
  let self := unlockedKeyId ==? Some id in
  let isLastLive := (length live <=? 1)%nat && List.existsb (fun k => k_id k ==? id) live in
  if isLastLive then MkRevokeGuard true self (OnlyLiveOperatorKey id)
  else if self then
    let other := match trustRootKey keys agents with
                 | Some root => if negb (k_id root ==? id) then Some root
                                else List.find (fun k => negb (k_id k ==? id)) live
                 | None => List.find (fun k => negb (k_id k ==? id)) live
                 end in
    MkRevokeGuard true true (ThisDevicesKey id (option_map shown_name other) dependents)
  else if (0 <? dependents)%nat then MkRevokeGuard false false (IsTheirTrustRoot id dependents)
  else MkRevokeGuard false false (ConfirmRevoke id).

(** ** Endorsing *)

(** The armed grant by this browser's clock. *)
Definition activeRecoveryGrant (grant : option RecoveryGrant) (now : Z)
    : option (string * string * Z) :=
  match grant with
  | None => None
  | Some g =>
      match truthy (rg_endorser g), truthy (rg_target g), truthy (rg_expires_at g) with
      | Some e, Some t, Some x =>
          match parse_iso x with
          | Some expires => if expires <=? now then None else Some (e, t, expires)
          | None => None
          end
      | _, _, _ => None
      end
  end.

(** The notice names the two keys and the time, [HH:MM]. *)
Record RecoveryNotice := MkNotice { n_endorser : string; n_target : string; n_until : string }.

Definition recoveryNotice (g : string * string * Z) : RecoveryNotice :=
  MkNotice (fst (fst g)) (snd (fst g)) (substring 11 5 (to_iso (snd g))).

Inductive Refusal :=
  | UnlockIdentityFirst
  | NotRegistered (k : string)
  | CannotEndorseRevoked (k : string) (from : option string)
  | OneRecoveryOnly (k target : string)
  | LiveButUntrusted (k : string) (from : option string)
  | CannotEndorseItself
  | UnknownKey (k : string)
  | TargetIsRevoked (k : string)
  | AlreadyEndorsed (k : string).

Record Authority := MkAuthority {
  au_allowed : bool;
  au_reason : option Refusal;
  au_notice : option RecoveryNotice   (* set exactly when [recovery] is *)
}.

Definition allow : Authority := MkAuthority true None None.
Definition allow_recovery (n : RecoveryNotice) : Authority := MkAuthority true None (Some n).
Definition refuse_repair (r : Refusal) : Authority := MkAuthority false (Some r) None.

(** The console's own reading, for a relay that publishes no verdict: the key
    roots an agent, or a live key endorses it, or no agent is endorsed. *)
Definition local_reading (u : string) (mine : OperatorKey) (keys : list OperatorKey)
    (agents : list AgentKey) : bool :=
  (0 <? dependentsOf u agents)%nat ||
  match truthy (k_endorsed_by mine) with
  | Some p => List.existsb (fun k => (k_id k ==? p) && key_live k) keys
  | None => false
  end ||
  forallb (fun a => truthy (a_endorsed_by a) ==? None) agents.

(** [recovery] is the grant and the target the caller passes, and the clock. *)
Definition endorseAuthority (unlockedKeyId : option string) (keys : list OperatorKey)
    (agents : list AgentKey) (recoveryGrant : option RecoveryGrant) (targetKeyId : option string)
    (now : Z) : Authority :=
  match truthy unlockedKeyId with
  | None => refuse_repair UnlockIdentityFirst
  | Some u =>
  match find_key u keys with
  | None => refuse_repair (NotRegistered u)
  | Some mine =>
      if negb (key_live mine) then
        refuse_repair (CannotEndorseRevoked u (truthy (actingDeviceLabel keys agents)))
      else if match k_trusted mine with
              | Some verdict => verdict
              | None => local_reading u mine keys agents
              end then allow
      else match activeRecoveryGrant recoveryGrant now with
      | Some (e, t, x) =>
          if e ==? u then
            if truthy targetKeyId ==? Some t then allow_recovery (recoveryNotice (e, t, x))
            else refuse_repair (OneRecoveryOnly u t)
          else refuse_repair (LiveButUntrusted u (truthy (actingDeviceLabel keys agents)))
      | None => refuse_repair (LiveButUntrusted u (truthy (actingDeviceLabel keys agents)))
      end
  end
  end.

Definition orphanedOperatorKeys (keys : list OperatorKey) (rootKeyId : option string)
    : list OperatorKey :=
  match truthy rootKeyId with
  | None => []
  | Some root => List.filter (fun k => key_live k && (truthy (k_endorsed_by k) ==? None) &&
                                       negb (k_id k ==? root)) keys
  end.

Definition rescueGuard (targetKeyId : string) (keys : list OperatorKey)
    (unlockedKeyId : option string) (agents : list AgentKey) (recoveryGrant : option RecoveryGrant)
    (now : Z) : Authority :=
  if negb (targetKeyId ==? "") && (unlockedKeyId ==? Some targetKeyId) then refuse_repair CannotEndorseItself
  else
    let authority := endorseAuthority unlockedKeyId keys agents recoveryGrant (Some targetKeyId) now in
    if negb (au_allowed authority) then authority
    else match find_key targetKeyId keys with
    | None => refuse_repair (UnknownKey targetKeyId)
    | Some target =>
        if negb (key_live target) then refuse_repair (TargetIsRevoked targetKeyId)
        else match au_notice authority with
        | Some n => if negb (truthy (k_endorsed_by target) ==? None)
                    then refuse_repair (AlreadyEndorsed targetKeyId) else allow_recovery n
        | None => allow
        end
    end.

(** ** Minting a new identity *)

(** [unlocked] is the key id of the unlocked identity. *)
Definition pickEndorser (unlocked : option string) (keys : list OperatorKey) : option string :=
  match truthy unlocked with
  | None => None
  | Some u => if List.existsb (fun k => k_id k ==? u) (liveOperatorKeys keys) then Some u else None
  end.

Inductive NextStep :=
  | EndorseFrom (label : string) | EndorseFromAnother | LiveRootOn (label : string) | UseAnother.

Record MintAnswer := MkMint { mi_allowed : bool; mi_next : option NextStep }.

Definition mayGenerateNewOperatorIdentity (unlocked : option string) (keys : list OperatorKey)
    (agents : list AgentKey) : MintAnswer :=
  match liveOperatorKeys keys with
  | [] => MkMint true None
  | _ =>
      match pickEndorser unlocked keys with
      | Some _ => MkMint true None
      | None =>
          let label := truthy (actingDeviceLabel keys agents) in
          match truthy unlocked with
          | None => MkMint true (Some (from_option EndorseFrom EndorseFromAnother label))
          | Some _ => MkMint false (Some (from_option LiveRootOn UseAnother label))
          end
      end
  end.
