(* ===== verification/ConsoleProperties.v ===== *)
(** * Properties of the console's trust rules

    The Security screen offers what the relay does: the theorems compare
    [ConsoleTrust], over what the relay publishes, with [OperatorKeys]. *)

From stdpp Require Import sorting.
From S2P Require Import Prelude Walk Json IsoTime JsValues Identity Events OperatorKeys OperatorTrust OperatorSafety OperatorProperties ConsoleTrust.
Import Ascii String.
Open Scope string_scope.
Open Scope Z_scope.

(** ** The published rows *)

Section Published.
Context (db : KeyDb) (fleet : string).

Lemma elem_of_listOperatorKeys kr :
  kr ∈ listOperatorKeys db fleet <-> kd_keys db !! (fleet, fst kr) = Some (snd kr).
Proof.
  unfold listOperatorKeys. rewrite elem_of_order_by, list_elem_of_In, in_map_iff.
  setoid_rewrite <- list_elem_of_In. destruct kr as [k row]. split.
  - intros ([[f k'] row'] & [= -> ->] & [Hk Hf]%elem_of_map_to_list%map_lookup_filter_Some). by simplify_eq/=.
  - intros Hk. exists ((fleet, k), row). split; [done|]. by apply elem_of_map_to_list, map_lookup_filter_Some.
Qed.

Lemma elem_of_console_keys v :
  v ∈ console_keys db fleet <->
  exists row, kd_keys db !! (fleet, k_id v) = Some row /\ v = console_key db fleet (k_id v, row).
Proof.
  unfold console_keys. rewrite list_elem_of_fmap. setoid_rewrite elem_of_listOperatorKeys. split.
  - intros ([k row] & -> & Hk). by exists row.
  - intros (row & Hk & Hv). by exists (k_id v, row).
Qed.

Lemma find_console_key u :
  find_key u (console_keys db fleet) =
  option_map (fun row => console_key db fleet (u, row)) (kd_keys db !! (fleet, u)).
Proof.
  unfold find_key. destruct (List.find _ _) as [v|] eqn:E.
  - apply find_some in E as [Hin Hu]. bools. subst u.
    apply list_elem_of_In, elem_of_console_keys in Hin as (row & Hk & Hv). rewrite Hk. simpl. by f_equal.
  - destruct (kd_keys db !! (fleet, u)) as [row|] eqn:Hk; [|done]. exfalso.
    apply find_none with (x := console_key db fleet (u, row)) in E.
    + simpl in E. by bools.
    + apply list_elem_of_In, elem_of_console_keys. by exists row.
Qed.

Lemma elem_of_console_agents v :
  v ∈ console_agents db fleet <->
  exists row, kd_agent_keys db !! (a_agent v, a_key_id v) = Some row /\ ak_fleet row = fleet /\
    ak_revoked_at row = None /\ a_endorsed_by v = ak_endorsed_by row.
Proof.
  unfold console_agents, getAgentIdentityKeys.
  rewrite list_elem_of_In, in_map_iff. setoid_rewrite filter_In. setoid_rewrite <- list_elem_of_In.
  split.
  - intros ([[a k] row] & <- & [Hin Hf]%elem_of_fleet_rows & Hp). exists row. bools. auto.
  - intros (row & Hk & <- & Hr & He). exists ((a_agent v, a_key_id v), row).
    rewrite elem_of_fleet_rows. split; [by destruct v; simpl in *; subst|]. split; [done|]. by rewrite bool_decide_true.
Qed.

(** An agent endorsed by a key is a pin of that key. *)
Lemma agent_pins v p : v ∈ console_agents db fleet -> truthy (a_endorsed_by v) = Some p -> pins db fleet p.
Proof.
  intros (row & Hk & Hf & Hr & ->)%elem_of_console_agents [He Hp]%truthy_Some.
  split; [done|]. by exists (a_agent v, a_key_id v), row.
Qed.

Lemma dependents_pos id agents :
  (0 < dependentsOf id agents)%nat <-> exists v, v ∈ agents /\ a_endorsed_by v = Some id.
Proof.
  unfold dependentsOf. split.
  - destruct (List.filter _ _) as [|v l] eqn:E; [simpl; lia|]. intros _. exists v.
    assert (In v (v :: l)) as Hin by by left. rewrite <- E in Hin. apply filter_In in Hin as [Hin Hv].
    bools. by rewrite list_elem_of_In.
  - intros (v & Hin & Hv). destruct (List.filter _ _) as [|w l] eqn:E; [|simpl; lia].
    assert (In v []) as []. rewrite <- E. apply filter_In. rewrite <- list_elem_of_In.
    split; [done|]. by apply bool_decide_eq_true.
Qed.

Lemma key_live_console k row : key_live (console_key db fleet (k, row)) = (truthy (ok_revoked_at row) ==? None).
Proof. done. Qed.

(** A pinned key that is live may endorse, by the relay's own verdict. *)
Lemma pinned_live_may_endorse k row :
  kd_keys db !! (fleet, k) = Some row -> truthy (ok_revoked_at row) = None -> pins db fleet k ->
  operatorKeyMayEndorse db fleet k = true.
Proof.
  intros Hk Hr Hp. destruct (agentPinnedRoots db fleet) as [P|] eqn:HP.
  - apply (operatorKeyMayEndorse_iff _ _ _ P HP). eapply trusted_root; [|by apply (agentPinnedRoots_Some _ _ _ HP)].
    destruct Hp as [Hne _]. split_and!; [done..|]. done.
  - rewrite agentPinnedRoots_None in HP. by destruct (HP k).
Qed.

Lemma may_endorse_live k :
  operatorKeyMayEndorse db fleet k = true ->
  exists row, kd_keys db !! (fleet, k) = Some row /\ truthy (ok_revoked_at row) = None.
Proof.
  unfold operatorKeyMayEndorse. destruct (kd_keys db !! (fleet, k)) as [row|]; [|done].
  destruct (truthy (ok_revoked_at row) ==? None) eqn:E; [|done]. bools. eauto.
Qed.
End Published.

(** ** The trust root *)

Lemma root_fold agents keys acc acc' :
  fold_left (root_step agents) keys acc = acc' ->
  (acc' = acc \/ exists k, k ∈ keys /\ key_live k = true /\ (snd acc < snd acc')%nat /\
                   acc' = (Some k, dependentsOf (k_id k) agents)) /\
  (snd acc <= snd acc')%nat /\
  (forall k, k ∈ keys -> key_live k = true -> (dependentsOf (k_id k) agents <= snd acc')%nat).
Proof.
  revert acc. induction keys as [|k keys IH]; intros acc; simpl.
  - intros <-. split; [by left|]. split; [done|]. by intros ? ?%elem_of_nil.
  - intros Hf. destruct (IH _ Hf) as (Hcase & Hle & Hmax). clear IH Hf.
    unfold root_step in *. destruct (key_live k) eqn:Hl; simpl in *.
    + set (d := dependentsOf (k_id k) agents) in *.
      destruct (snd acc <? d)%nat eqn:E; [apply Nat.ltb_lt in E|apply Nat.ltb_ge in E]; simpl in *.
      * split; [right|split; [lia|]].
        -- destruct Hcase as [->|(k' & Hin & Hl' & Hlt & ->)].
           { exists k. split_and!; [by left|done..]. }
           exists k'. split_and!; [by right|done|simpl in *; lia|done].
        -- intros k' [->|Hin]%elem_of_cons Hl'; [exact Hle|]. by apply Hmax.
      * split; [|split; [lia|]].
        -- destruct Hcase as [->|(k' & Hin & ?)]; [by left|]. right. exists k'. split; [by right|done].
        -- intros k' [->|Hin]%elem_of_cons Hl'; [fold d; lia|]. by apply Hmax.
    + split; [|split; [done|]].
      * destruct Hcase as [->|(k' & Hin & ?)]; [by left|]. right. exists k'. split; [by right|done].
      * intros k' [->|Hin]%elem_of_cons Hl'; [congruence|]. by apply Hmax.
Qed.

Lemma trustRootKey_Some keys agents root :
  trustRootKey keys agents = Some root ->
  root ∈ keys /\ key_live root = true /\ (0 < dependentsOf (k_id root) agents)%nat /\
  (forall k, k ∈ keys -> key_live k = true ->
     (dependentsOf (k_id k) agents <= dependentsOf (k_id root) agents)%nat).
Proof.
  unfold trustRootKey. destruct (fold_left _ _ _) as [b n] eqn:E. simpl. intros ->.
  apply root_fold in E as ([?|(k & Hin & Hl & Hlt & [= -> ->])] & _ & Hmax); [done|].
  by split_and!.
Qed.

Lemma trustRootKey_None keys agents :
  trustRootKey keys agents = None ->
  forall k, k ∈ keys -> key_live k = true -> dependentsOf (k_id k) agents = 0%nat.
Proof.
  unfold trustRootKey. destruct (fold_left _ _ _) as [b n] eqn:E. simpl. intros ->.
  apply root_fold in E as ([[= ->]|(k & _ & _ & _ & ?)] & _ & Hmax); [|done].
  intros k Hin Hl. specialize (Hmax k Hin Hl). simpl in Hmax. lia.
Qed.

(** ** Fleet health *)

Definition count_state (s : EndorserState) (keys : list OperatorKey) (cur : option string)
    (agents : list AgentKey) : nat :=
  length (List.filter (fun ak => st_state (endorserStatus ak keys cur) ==? s) agents).

Lemma health_fold keys cur agents acc :
  fold_left (health_step keys cur) agents acc =
  (fst acc + count_state Revoked keys cur agents, snd acc + count_state Unendorsed keys cur agents)%nat.
Proof.
  unfold count_state. revert acc. induction agents as [|ak agents IH]; intros [r u]; simpl; [f_equal; lia|].
  rewrite IH. unfold health_step. destruct (st_state _); simpl; f_equal; lia.
Qed.

Lemma count_state_zero s keys cur agents :
  count_state s keys cur agents = 0%nat <->
  forall ak, ak ∈ agents -> st_state (endorserStatus ak keys cur) <> s.
Proof.
  unfold count_state. rewrite length_zero_iff_nil. split.
  - intros Hf ak Hin Hs. assert (In ak []) as []. rewrite <- Hf. apply filter_In.
    rewrite <- list_elem_of_In. split; [done|]. by apply bool_decide_eq_true.
  - intros Hn. destruct (List.filter _ _) as [|ak l] eqn:E; [done|]. exfalso.
    assert (In ak (ak :: l)) as Hin by by left. rewrite <- E in Hin. apply filter_In in Hin as [Hin Hs].
    bools. apply list_elem_of_In in Hin. by apply Hn in Hin.
Qed.

Lemma trustHealth_ok keys agents cur :
  th_ok (trustHealth keys agents cur) = true <->
  count_state Revoked keys cur agents = 0%nat /\ count_state Unendorsed keys cur agents = 0%nat.
Proof.
  unfold trustHealth. rewrite health_fold. simpl.
  destruct (count_state Revoked keys cur agents), (count_state Unendorsed keys cur agents); simpl;
    naive_solver.
Qed.

(** An agent is well when its endorser is a live key of the list. *)
Lemma endorserStatus_well ak keys cur :
  st_state (endorserStatus ak keys cur) <> Revoked /\ st_state (endorserStatus ak keys cur) <> Unendorsed <->
  exists p k, truthy (a_endorsed_by ak) = Some p /\ find_key p keys = Some k /\ key_live k = true.
Proof.
  unfold endorserStatus. destruct (truthy (a_endorsed_by ak)) as [p|].
  2: { split; [by intros [_ []]|by intros (? & ? & [=] & _)]. }
  assert (Hk : (exists p' k, Some p = Some p' /\ find_key p' keys = Some k /\ key_live k = true) <->
               from_option key_live false (find_key p keys) = true).
  { split; [by intros (p' & k & [= <-] & -> & Hl)|].
    destruct (find_key p keys) as [k|] eqn:E; [|done]. intros Hl. by exists p, k. }
  rewrite Hk. destruct (from_option key_live false (find_key p keys)); simpl.
  - by destruct (_ ==? Some p).
  - split; [by intros [[] _]|done].
Qed.

Lemma well_agent db fleet ak cur :
  ak ∈ console_agents db fleet ->
  (st_state (endorserStatus ak (console_keys db fleet) cur) <> Revoked /\
   st_state (endorserStatus ak (console_keys db fleet) cur) <> Unendorsed <->
   exists p, truthy (a_endorsed_by ak) = Some p /\ operatorKeyMayEndorse db fleet p = true).
Proof.
  intros Hin. rewrite endorserStatus_well. setoid_rewrite find_console_key. split.
  - intros (p & k & Hp & Hk & Hl). exists p. split; [done|].
    destruct (kd_keys db !! (fleet, p)) as [row|] eqn:Hrow; [|done]. simplify_eq/=.
    rewrite key_live_console in Hl. bools.
    eapply pinned_live_may_endorse; [done..|by eapply agent_pins].
  - intros (p & Hp & (row & Hrow & Hr)%may_endorse_live). eexists p, _. rewrite Hrow. simpl.
    split_and!; [done..|]. rewrite key_live_console. by apply bool_decide_eq_true.
Qed.

(** ** Endorsing *)

Lemma authority_console db fleet u grant target now :
  u <> "" ->
  au_allowed (endorseAuthority (Some u) (console_keys db fleet) (console_agents db fleet) grant target now) =
  operatorKeyMayEndorse db fleet u ||
  match kd_keys db !! (fleet, u), activeRecoveryGrant grant now with
  | Some row, Some (e, t, _) =>
      (truthy (ok_revoked_at row) ==? None) && (e ==? u) && (truthy target ==? Some t)
  | _, _ => false
  end.
Proof.
  intros Hu. unfold endorseAuthority. simpl. rewrite bool_decide_false by done.
  rewrite find_console_key. unfold operatorKeyMayEndorse at 1.
  destruct (kd_keys db !! (fleet, u)) as [row|] eqn:Hrow; simpl; [|done].
  rewrite key_live_console.
  destruct (truthy (ok_revoked_at row) ==? None) eqn:Hr; simpl; [|by destruct (activeRecoveryGrant grant now) as [[[? ?] ?]|]].
  assert (operatorKeyMayEndorse db fleet u = endorserIsTrusted db fleet u None) as ->.
  { unfold operatorKeyMayEndorse. by rewrite Hrow, Hr. }
  destruct (endorserIsTrusted db fleet u None); [done|]. simpl.
  destruct (activeRecoveryGrant grant now) as [[[e t] x]|]; [|done].
  destruct (e ==? u); simpl; [|done]. by destruct (_ ==? Some t).
Qed.

(** ** Recovery grants *)

Section Grants.
Context `{Crypto}.

(** An armed grant is the latest of every selection of its fleet's grants. *)
Lemma latest_armed t db now g p :
  key_inv t db -> t <= now -> g ∈ kd_grants db -> armed now g = true -> p g = true ->
  (forall g', p g' = true -> g_fleet g' = g_fleet g) ->
  latest_by g_created_at (select p (kd_grants db)) = Some g.
Proof.
  intros Hi Hle Hin Ha Hp Hf.
  destruct (grants_in_order_later _ _ _ Hle (ki_order _ _ Hi)) as [Hs _].
  unfold latest_by. rewrite order_by_id.
  - apply list_elem_of_split in Hin as (l1 & l2 & E). rewrite E in *. unfold select.
    rewrite List.filter_app. simpl. rewrite Hp.
    assert (List.filter p l2 = []) as ->; [|by rewrite last_snoc].
    destruct (List.filter p l2) as [|b l] eqn:El; [done|]. exfalso.
    assert (In b (b :: l)) as Hb by by left. rewrite <- El in Hb. apply filter_In in Hb as [Hb Hpb].
    apply StronglySorted_app_1_r in Hs. apply StronglySorted_cons in Hs as [Hall _].
    rewrite Forall_forall in Hall. apply list_elem_of_In, Hall in Hb as [_ Hoff].
    rewrite Hoff in Ha; [done|]. symmetry. by apply Hf.
  - clear Hin. induction Hs as [|a l Hs IH Hall]; simpl; [constructor|].
    destruct (p a); [|done]. constructor; [done|]. apply Forall_forall. intros b Hb.
    apply elem_of_select in Hb as [Hb _]. rewrite Forall_forall in Hall. by apply Hall.
Qed.

Lemma active_grant_iff t db now fleet g :
  key_inv t db -> t <= now ->
  getActiveOperatorRecoveryGrant db now fleet = Some g <->
  g ∈ kd_grants db /\ g_fleet g = fleet /\ armed now g = true.
Proof.
  intros Hi Hle. unfold getActiveOperatorRecoveryGrant. split.
  - intros [Hin Hp]%latest_by_Some%elem_of_select. bools. auto.
  - intros (Hin & <- & Ha). apply (latest_armed t db now); [done..| |].
    + by rewrite bool_decide_true, Ha.
    + intros g' Hg'. by bools.
Qed.

(** The relay's answer, when it consults a grant, in terms of the one it
    publishes. *)
Lemma requireRecoveryGrant_active t db now fleet e k target :
  key_inv t db -> t <= now ->
  is_ok (requireRecoveryGrant db now fleet e k target) =
  match getActiveOperatorRecoveryGrant db now fleet with
  | Some g => (g_endorser g ==? e) && (g_target g ==? k) && (truthy (ok_endorsed_by target) ==? None)
  | None => false
  end.
Proof.
  intros Hi Hle. apply eq_true_iff_eq. split.
  - destruct (requireRecoveryGrant _ _ _ _ _ _) as [g|] eqn:E; [|done]. intros _.
    apply requireRecoveryGrant_Ok in E as (Hin & Hf & <- & <- & Ha & Hn).
    rewrite (proj2 (active_grant_iff t db now fleet g Hi Hle)) by done.
    by rewrite !bool_decide_true.
  - destruct (getActiveOperatorRecoveryGrant db now fleet) as [g|] eqn:E; [|done].
    apply (active_grant_iff t) in E as (Hin & Hf & Ha); [|done..]. intros Hb. bools. subst.
    unfold requireRecoveryGrant. rewrite (latest_armed t db now g); [|done..|by rewrite !bool_decide_true|].
    2: { intros g' Hg'. by bools. }
    unfold armed in Ha. bools. rewrite !bool_decide_true by done.
    assert ((g_expires_at g <=? now) = false) as -> by lia. done.
Qed.

Lemma consumeGrant_armed t db now g :
  key_inv t db -> g ∈ kd_grants db -> armed now g = true ->
  is_ok (consumeGrant now (g_id g) (kd_grants db)) = true.
Proof.
  intros Hi Hin Ha. unfold consumeGrant. destruct (ki_grants _ _ Hi) as [Hnd _].
  assert (changes (fun g' => (g_id g' ==? g_id g) && armed now g') (kd_grants db) = 1%nat) as ->; [|done].
  apply Nat.le_antisymm.
  - apply (changes_unique g_id); [done|]. intros r s Hr Hs. bools. congruence.
  - apply changes_pos. exists g. by rewrite bool_decide_true.
Qed.

(** An endorsement whose content the relay accepts, or whose content is all that it
    refuses: the cycle it would close or the signature. *)
Definition standing_ok {A} (r : result KeyErr A) : bool :=
  match r with
  | Ok _ | Throw EndorsementCycle | Throw BadEndorsementSignature => true
  | Throw _ => false
  end.

Lemma requireRecoveryGrant_Throw db now fleet u k target x :
  requireRecoveryGrant db now fleet u k target = Throw x -> standing_ok (@Throw KeyErr KeyDb x) = false.
Proof. unfold requireRecoveryGrant. intros Hr. repeat (case_match; simplify_eq/=; try done). Qed.

(** [endorseOperatorKey]: who may endorse whom. *)
Lemma endorse_standing t db now fleet k e actor target endorser :
  key_inv t db -> t <= now ->
  kd_keys db !! (fleet, k) = Some target -> kd_keys db !! (fleet, e_by e) = Some endorser ->
  standing_ok (endorseOperatorKey db now fleet k e actor) =
  negb (e_by e ==? k) && (truthy (ok_revoked_at target) ==? None) && live_row endorser &&
  (endorserIsTrusted db fleet (e_by e) None || is_ok (requireRecoveryGrant db now fleet (e_by e) k target)).
Proof.
  intros Hi Hle Ht He. unfold endorseOperatorKey, live_key. rewrite Ht, He.
  destruct (e_by e ==? k); [done|]. simpl.
  destruct (truthy (ok_revoked_at target) ==? None); [|done]. simpl.
  destruct (live_row endorser); [|done]. simpl.
  destruct (endorserIsTrusted _ _ _ _); simpl.
  { destruct (chainsBackTo _ _ _ _); [done|]. simpl. by destruct (verifyCanonical _ _ _). }
  destruct (requireRecoveryGrant _ _ _ _ _ _) as [g|x] eqn:E; simpl.
  2: { by apply requireRecoveryGrant_Throw in E. }
  destruct (chainsBackTo _ _ _ _); [done|]. simpl. destruct (verifyCanonical _ _ _); [|done]. simpl.
  apply requireRecoveryGrant_Ok in E as (Hin & _ & _ & _ & Ha & _).
  pose proof (consumeGrant_armed t db now g Hi Hin Ha). by destruct (consumeGrant _ _ _).
Qed.
End Grants.

(** ** The endorse buttons *)

Lemma live_row_truthy `{Crypto} t db fleet k row :
  key_inv t db -> kd_keys db !! (fleet, k) = Some row ->
  live_row row = (truthy (ok_revoked_at row) ==? None).
Proof.
  intros Hi Hk. unfold live_row. destruct (ok_revoked_at row) as [at_|] eqn:E; [|done].
  destruct (kr_revoked _ _ _ _ (proj1 (ki_signed _ _ Hi) _ _ _ Hk) _ E) as (_ & _ & _ & Hc & _).
  destruct (decide (at_ = "")) as [->|Hne]; [by vm_compute in Hc|].
  simpl. by rewrite (bool_decide_false (at_ = "")).
Qed.

Definition sound_request `{Crypto} (db : KeyDb) (fleet k : string) (e : Endorsement) : Prop :=
  chainsBackTo db fleet k (e_by e) = false /\
  forall target endorser,
    kd_keys db !! (fleet, k) = Some target -> kd_keys db !! (fleet, e_by e) = Some endorser ->
    verifyCanonical (endorsementPayload fleet k (ok_public_key target)) (e_signature e)
      (fromB64url (ok_public_key endorser)) = true.

Lemma active_console_grant db now fleet :
  (forall g, g ∈ kd_grants db -> in_iso_range (g_expires_at g)) ->
  activeRecoveryGrant (console_grant db now fleet) now =
  match getActiveOperatorRecoveryGrant db now fleet with
  | Some g => if (g_endorser g ==? "") || (g_target g ==? "") then None
              else Some (g_endorser g, g_target g, g_expires_at g)
  | None => None
  end.
Proof.
  intros Hiso. unfold console_grant. destruct (getActiveOperatorRecoveryGrant _ _ _) as [g|] eqn:E; [|done].
  apply latest_by_Some, elem_of_select in E as [Hin Hp].
  pose proof (parse_iso_to_iso _ (Hiso _ Hin)) as Hx.
  assert (Hne : to_iso (g_expires_at g) <> "") by (intros He'; rewrite He' in Hx; discriminate Hx).
  unfold option_map. generalize dependent (to_iso (g_expires_at g)). intros x Hx Hne. simpl.
  destruct (g_endorser g ==? "") eqn:He; [done|]. destruct (g_target g ==? "") eqn:Ht; [done|]. simpl.
  rewrite (bool_decide_false _ Hne), Hx. unfold armed in Hp. bools.
  by assert ((g_expires_at g <=? now) = false) as -> by lia.
Qed.

Lemma rescue_allowed db fleet k u grant now :
  u <> "" -> k <> "" ->
  au_allowed (rescueGuard k (console_keys db fleet) (Some u) (console_agents db fleet) grant now) =
  negb (u ==? k) &&
  match kd_keys db !! (fleet, k), kd_keys db !! (fleet, u) with
  | Some target, Some mine =>
      (truthy (ok_revoked_at target) ==? None) && (truthy (ok_revoked_at mine) ==? None) &&
      (endorserIsTrusted db fleet u None ||
       match activeRecoveryGrant grant now with
       | Some (e, t, _) => (e ==? u) && (t ==? k) && (truthy (ok_endorsed_by target) ==? None)
       | None => false
       end)
  | _, _ => false
  end.
Proof.
  intros Hu Hk. unfold rescueGuard. rewrite (bool_decide_false (k = "")) by done. simpl.
  assert (bool_decide (Some u = Some k) = (u ==? k)) as ->.
  { apply bool_decide_ext. naive_solver. }
  destruct (u ==? k); [done|]. simpl.
  unfold endorseAuthority. simpl. rewrite (bool_decide_false (u = "")), (bool_decide_false (k = "")) by done.
  rewrite !find_console_key.
  destruct (kd_keys db !! (fleet, u)) as [mine|] eqn:Hm; simpl; [|by destruct (kd_keys db !! (fleet, k))].
  rewrite key_live_console.
  destruct (truthy (ok_revoked_at mine) ==? None) eqn:Hr; simpl.
  2: { destruct (kd_keys db !! (fleet, k)); [|done]. by rewrite andb_false_r. }
  assert (operatorKeyMayEndorse db fleet u = endorserIsTrusted db fleet u None) as ->.
  { unfold operatorKeyMayEndorse. by rewrite Hm, Hr. }
  destruct (endorserIsTrusted db fleet u None); simpl.
  { destruct (kd_keys db !! (fleet, k)) as [target|]; simpl; [|done]. rewrite key_live_console.
    by destruct (truthy (ok_revoked_at target) ==? None). }
  destruct (activeRecoveryGrant grant now) as [[[e t] x]|]; simpl;
    [|destruct (kd_keys db !! (fleet, k)); by rewrite ?andb_false_r].
  assert (bool_decide (Some k = Some t) = (t ==? k)) as ->.
  { apply bool_decide_ext. naive_solver. }
  destruct (e ==? u); simpl; [|destruct (kd_keys db !! (fleet, k)); by rewrite ?andb_false_r].
  destruct (t ==? k); simpl; [|destruct (kd_keys db !! (fleet, k)); by rewrite ?andb_false_r].
  destruct (kd_keys db !! (fleet, k)) as [target|]; simpl; [|done]. rewrite key_live_console.
  destruct (truthy (ok_revoked_at target) ==? None); simpl; [|done].
  by destruct (truthy (ok_endorsed_by target) ==? None).
Qed.

(** A sound request is refused for nothing but its standing. *)
Lemma sound_standing `{Crypto} db now fleet k e actor :
  sound_request db fleet k e ->
  standing_ok (endorseOperatorKey db now fleet k e actor) = is_ok (endorseOperatorKey db now fleet k e actor).
Proof.
  intros [Hc Hv]. unfold endorseOperatorKey, live_key.
  destruct (e_by e ==? k); [done|]. simpl.
  destruct (kd_keys db !! (fleet, k)) as [target|] eqn:Ht; [|done]. simpl.
  destruct (truthy (ok_revoked_at target) ==? None); [|done]. simpl.
  destruct (kd_keys db !! (fleet, e_by e)) as [mine|] eqn:Hm; [|done].
  destruct (live_row mine); [|done]. simpl. rewrite Hc, (Hv _ _ eq_refl eq_refl).
  destruct (endorserIsTrusted _ _ _ _); [done|]. simpl.
  destruct (requireRecoveryGrant _ _ _ _ _ _) as [g|x] eqn:E; simpl;
    [|by apply requireRecoveryGrant_Throw in E].
  unfold consumeGrant. by destruct (_ =? 1)%nat.
Qed.

(** C25. The endorse button of an operator key is exact: in every reachable state
    and at every later time, over the keys, agents and grant the relay
    publishes, the console offers "endorse this key" from the unlocked device
    exactly when the relay accepts that endorsement, ordinary or by a one-time
    recovery grant, or refuses it for nothing but the cycle it closes or its
    signature.  So the button is exact for a genuine signature that closes no
    cycle; whether it closes one the console does not ask ([cycle_offered]). *)
Theorem endorse_button_exact `{Crypto} t db now fleet k e actor :
  key_reach t db -> t <= now ->
  (forall g, g ∈ kd_grants db -> in_iso_range (g_expires_at g)) ->
  e_by e <> "" -> k <> "" ->
  let offered := au_allowed (rescueGuard k (console_keys db fleet) (Some (e_by e)) (console_agents db fleet)
                               (console_grant db now fleet) now) in
  offered = standing_ok (endorseOperatorKey db now fleet k e actor) /\
  (sound_request db fleet k e -> offered = is_ok (endorseOperatorKey db now fleet k e actor)).
Proof.
  intros Hr Hle Hiso Hu Hk offered. pose proof (key_inv_reach _ _ Hr) as Hi.
  enough (offered = standing_ok (endorseOperatorKey db now fleet k e actor)) as ->
    by (split; [done|]; apply sound_standing).
  unfold offered. rewrite rescue_allowed, active_console_grant by done.
  destruct (kd_keys db !! (fleet, k)) as [target|] eqn:Ht.
  2: { rewrite andb_false_r. unfold endorseOperatorKey. rewrite Ht. by destruct (_ ==? k). }
  destruct (kd_keys db !! (fleet, e_by e)) as [mine|] eqn:Hm.
  2: { rewrite andb_false_r. unfold endorseOperatorKey, live_key. rewrite Ht, Hm.
       destruct (_ ==? k); [done|]. by case_match. }
  rewrite (endorse_standing t db now fleet k e actor target mine) by auto.
  rewrite (live_row_truthy t db fleet (e_by e) mine) by done.
  rewrite (requireRecoveryGrant_active t) by done. rewrite <- !andb_assoc.
  do 2 f_equal. f_equal. f_equal.
  destruct (getActiveOperatorRecoveryGrant db now fleet) as [g|]; [|done].
  destruct (g_endorser g ==? "") eqn:He, (g_target g ==? "") eqn:Hg; simpl; [..|done]; bools;
    rewrite ?He, ?Hg.
  - by rewrite (bool_decide_false ("" = e_by e)) by done.
  - by rewrite (bool_decide_false ("" = e_by e)) by done.
  - by rewrite (bool_decide_false ("" = k)), andb_false_r by done.
Qed.

Lemma endorse_button_exact_witness :
  au_allowed (rescueGuard "D" (console_keys demo10 "f") (Some "C") (console_agents demo10 "f")
    (console_grant demo10 10 "f") 10) = true /\
  au_allowed (rescueGuard "D" (console_keys demo10 "f") (Some "C") (console_agents demo10 "f")
    (console_grant demo10 10 "f") 10) =
  is_ok (@endorseOperatorKey toy_crypto demo10 10 "f" "D" (demo_endorsement "C" "D") None).
Proof.
  split; [by vm_compute|].
  assert (Hg : forallb (fun g => (iso_min <=? g_expires_at g) && (g_expires_at g <? iso_max))
                 (kd_grants demo10) = true) by (vm_compute; reflexivity).
  apply (proj2 (A := au_allowed (rescueGuard "D" (console_keys demo10 "f") (Some "C") (console_agents demo10 "f")
    (console_grant demo10 10 "f") 10) = standing_ok (@endorseOperatorKey toy_crypto demo10 10 "f" "D" (demo_endorsement "C" "D") None))
    (B := @sound_request toy_crypto demo10 "f" "D" (demo_endorsement "C" "D") -> _)).
  1: apply (@endorse_button_exact toy_crypto 10 demo10 10 "f" "D" (demo_endorsement "C" "D") None).
  - exists 0. exact demo_run10.
  - lia.
  - intros g Hin%list_elem_of_In. rewrite forallb_forall in Hg. apply Hg in Hin.
    apply andb_true_iff in Hin as [Hlo%Z.leb_le Hhi%Z.ltb_lt]. by split.
  - done.
  - done.
  - split; [by vm_compute|]. intros target endorser Ht He.
    vm_compute in Ht. vm_compute in He. injection Ht as <-. injection He as <-. by vm_compute.
Defined.

(** The console has no cycle check.  B, endorsed by A, has taken over the agent A
    anchored: A is live, unendorsed and without dependents, its row has the button, B
    is offered to press it, and the relay refuses what it sends. *)
Example cycle_offered :
  let db := ok_db demo6 (@endorseAgentKey toy_crypto demo6 7 "f" "tars" "X" (demo_agent_endorsement "B" "tars" "X") None) in
  dependentsOf "A" (console_agents db "f") = 0%nat /\
  (ok_endorsed_by <$> kd_keys db !! ("f", "A")) = Some None /\
  au_allowed (rescueGuard "A" (console_keys db "f") (Some "B") (console_agents db "f") (console_grant db 8 "f") 8) = true /\
  @endorseOperatorKey toy_crypto db 8 "f" "A" (demo_endorsement "B" "A") None = Throw EndorsementCycle.
Proof. by vm_compute. Qed.

(** ** The device to walk to *)

(** The device the copy sends the operator to can act: when no key has the
    empty id, the key [actingDeviceLabel] names is registered, not revoked and,
    by the relay's own verdict, may endorse; from it every panel is open; and no
    other live key anchors more agents.  When it names none, no live key anchors
    any agent. *)
Theorem trust_root_can_act db fleet now :
  kd_keys db !! (fleet, "") = None ->
  let keys := console_keys db fleet in
  let agents := console_agents db fleet in
  match trustRootKey keys agents with
  | Some root =>
      actingDeviceLabel keys agents = Some (shown_name root) /\
      (exists row, kd_keys db !! (fleet, k_id root) = Some row /\ truthy (ok_revoked_at row) = None) /\
      operatorKeyMayEndorse db fleet (k_id root) = true /\
      endorseAuthority (Some (k_id root)) keys agents None None now = allow /\
      thisBrowserHoldsTrustRoot (Some (k_id root)) keys agents = true /\
      forall k, k ∈ keys -> key_live k = true ->
        (dependentsOf (k_id k) agents <= dependentsOf (k_id root) agents)%nat
  | None => forall k a, k ∈ keys -> key_live k = true -> a ∈ agents -> a_endorsed_by a <> Some (k_id k)
  end.
Proof.
  intros He keys agents. destruct (trustRootKey keys agents) as [root|] eqn:Hroot.
  - pose proof Hroot as (Hin & Hl & Hd & Hmax)%trustRootKey_Some.
    apply elem_of_console_keys in Hin as (row & Hk & Hv).
    assert (Hne : k_id root <> "") by (intros E; congruence).
    rewrite Hv, key_live_console in Hl. bools.
    apply dependents_pos in Hd as (v & Hva & Hve).
    assert (Hmay : operatorKeyMayEndorse db fleet (k_id root) = true).
    { eapply pinned_live_may_endorse; [done..|]. eapply agent_pins; [exact Hva|]. by apply truthy_Some. }
    split_and!; [by unfold actingDeviceLabel; rewrite Hroot|by exists row|done| | |done].
    + unfold endorseAuthority. simpl. rewrite bool_decide_false by done. unfold keys.
      rewrite find_console_key, Hk. simpl. rewrite key_live_console, (bool_decide_true _ Hl). simpl.
      by rewrite Hmay.
    + unfold thisBrowserHoldsTrustRoot. simpl. rewrite bool_decide_false, Hroot by done.
      by apply bool_decide_eq_true.
  - intros k a Hin Hl Ha Hae. pose proof (trustRootKey_None _ _ Hroot k Hin Hl) as H0.
    assert (0 < dependentsOf (k_id k) agents)%nat; [|lia]. apply dependents_pos. by exists a.
Qed.

(** The trust summary is exact: the banner is silent exactly when every agent
    key the relay lists is endorsed by a key that, by the relay's own verdict,
    may endorse; its counts are the agents on a dead chain and those never
    endorsed; and in a healthy fleet with an agent some device can act. *)
Theorem trust_health_exact db fleet cur :
  let keys := console_keys db fleet in
  let agents := console_agents db fleet in
  (th_ok (trustHealth keys agents cur) = true <->
   forall a, a ∈ agents -> exists p, truthy (a_endorsed_by a) = Some p /\ operatorKeyMayEndorse db fleet p = true) /\
  th_revoked (trustHealth keys agents cur) = count_state Revoked keys cur agents /\
  th_unendorsed (trustHealth keys agents cur) = count_state Unendorsed keys cur agents /\
  (th_ok (trustHealth keys agents cur) = true -> agents <> [] -> trustRootKey keys agents <> None).
Proof.
  intros keys agents.
  assert (Hex : th_ok (trustHealth keys agents cur) = true <->
    forall a, a ∈ agents -> exists p, truthy (a_endorsed_by a) = Some p /\ operatorKeyMayEndorse db fleet p = true).
  { rewrite trustHealth_ok, !count_state_zero. split.
    - intros [Hr Hu] a Ha. apply (well_agent db fleet a cur Ha). auto.
    - intros Hw. split; intros a Ha; by apply (well_agent db fleet a cur Ha), Hw. }
  split; [exact Hex|]. unfold trustHealth at 1 2. rewrite health_fold. simpl. split_and!; [done..|].
  intros Hok Hne Hroot. apply Hex with (a := hd (MkAgentKey "" "" None) agents) in Hok as (p & Hp & Hmay).
  2: { destruct agents as [|a l]; [done|]. by left. }
  destruct agents as [|a l] eqn:El; [done|]. simpl in Hp.
  apply may_endorse_live in Hmay as (row & Hrow & Hr).
  set (k := console_key db fleet (p, row)).
  assert (Hk : k ∈ keys) by (apply elem_of_console_keys; by exists row).
  pose proof (trustRootKey_None _ _ Hroot k Hk) as H0.
  assert (0 < dependentsOf (k_id k) (a :: l))%nat as Hd.
  { apply dependents_pos. exists a. split; [by left|]. by apply truthy_Some in Hp as [-> _]. }
  rewrite H0 in Hd; [lia|]. unfold k. rewrite key_live_console. by apply bool_decide_eq_true.
Qed.

(** ** Revoking *)

Lemma live_console_keys db fleet :
  liveOperatorKeys (console_keys db fleet) =
  map (console_key db fleet)
    (List.filter (fun kr => truthy (ok_revoked_at (snd kr)) ==? None) (listOperatorKeys db fleet)).
Proof.
  unfold liveOperatorKeys, console_keys. induction (listOperatorKeys db fleet) as [|kr l IH]; [done|].
  simpl. rewrite IH. destruct kr as [k row]. rewrite key_live_console. simpl. by case_match.
Qed.

Lemma length_live_console `{Crypto} t db fleet :
  key_inv t db ->
  length (liveOperatorKeys (console_keys db fleet)) = length (getActiveOperatorKeys db fleet).
Proof.
  intros Hi. rewrite live_console_keys, length_map. unfold getActiveOperatorKeys. f_equal.
  apply filter_ext_in. intros [k row] Hin%list_elem_of_In. apply elem_of_listOperatorKeys in Hin.
  symmetry. by eapply live_row_truthy.
Qed.

Lemma live_console db fleet k :
  List.existsb (fun v => k_id v ==? k) (liveOperatorKeys (console_keys db fleet)) = true <->
  exists row, kd_keys db !! (fleet, k) = Some row /\ truthy (ok_revoked_at row) = None.
Proof.
  rewrite existsb_exists. unfold liveOperatorKeys. setoid_rewrite filter_In.
  setoid_rewrite <- list_elem_of_In. setoid_rewrite elem_of_console_keys. split.
  - intros (v & [(row & Hk & Hv) Hl] & He). bools. subst k. exists row. split; [done|].
    rewrite Hv, key_live_console in Hl. by bools.
  - intros (row & Hk & Hr). exists (console_key db fleet (k, row)). split; [split; [by exists row|]|].
    + rewrite key_live_console. by apply bool_decide_eq_true.
    + by apply bool_decide_eq_true.
Qed.

(** The revoke guard refuses what it says and nothing the relay would do: in
    every reachable state it blocks a key exactly when it is the fleet's only
    live key or the device's own, and a revocation that the relay accepts from
    this device is never blocked. *)
Theorem revoke_guard_exact `{Crypto} t db now fleet k u deps actor claimed :
  key_reach t db ->
  let keys := console_keys db fleet in
  let agents := console_agents db fleet in
  (rv_blocked (revokeGuard k keys (Some u) deps agents) = true <->
   k = u \/ (exists row, kd_keys db !! (fleet, k) = Some row /\ truthy (ok_revoked_at row) = None /\
               (length (getActiveOperatorKeys db fleet) <= 1)%nat)) /\
  forall s, r_by s = u -> is_ok (revokeOperatorKey db now fleet k s actor claimed) = true ->
    rv_blocked (revokeGuard k keys (Some u) deps agents) = false.
Proof.
  intros Hr keys agents. pose proof (key_inv_reach _ _ Hr) as Hi.
  assert (Hex : rv_blocked (revokeGuard k keys (Some u) deps agents) = true <->
   k = u \/ (exists row, kd_keys db !! (fleet, k) = Some row /\ truthy (ok_revoked_at row) = None /\
               (length (getActiveOperatorKeys db fleet) <= 1)%nat)).
  { unfold revokeGuard, keys. rewrite (length_live_console t) by done.
    pose proof (live_console db fleet k) as Hl.
    destruct (List.existsb _ _); rewrite ?andb_true_r, ?andb_false_r.
    - destruct (proj1 Hl eq_refl) as (row & Hk & Hrow).
      destruct (length (getActiveOperatorKeys db fleet) <=? 1)%nat eqn:E; simpl.
      + apply Nat.leb_le in E. split; [|done]. intros _. right. by exists row.
      + apply Nat.leb_gt in E. case_bool_decide as Hs; simpl; [naive_solver|].
        assert (k <> u) by congruence. case_match; naive_solver lia.
    - case_bool_decide as Hs; simpl; [naive_solver|]. assert (k <> u) by congruence.
      assert (~ exists row, kd_keys db !! (fleet, k) = Some row /\ truthy (ok_revoked_at row) = None)
        by (intros Hc; by apply Hl in Hc).
      case_match; naive_solver. }
  split; [exact Hex|]. intros s <-. rewrite revokeOperatorKey_guards. unfold revoke_guards.
  destruct (kd_keys db !! (fleet, k)) as [target|] eqn:Hk; [|done].
  destruct (kd_keys db !! (fleet, r_by s)) as [signer|]; [|done].
  rewrite !andb_true_iff, negb_true_iff, bool_decide_eq_false, revocable_iff.
  intros [[[[[[Hrev Hne] _] _] _] _] _]. apply not_true_iff_false. rewrite Hex.
  intros [->|(row & [= <-] & Hnone & Hlen)]; [done|].
  destruct Hrev as [[_ Hlen']|[Hsome _]]; [lia|done].
Qed.

Lemma trust_root_can_act_witness :
  match trustRootKey (console_keys demo6 "f") (console_agents demo6 "f") with
  | Some root => k_id root = "A" /\ operatorKeyMayEndorse demo6 "f" (k_id root) = true
  | None => False
  end.
Proof.
  pose proof (trust_root_can_act demo6 "f" 10 ltac:(vm_compute; reflexivity)) as Hact.
  assert (Hid : option_map k_id (trustRootKey (console_keys demo6 "f") (console_agents demo6 "f")) = Some "A")
    by (vm_compute; reflexivity).
  cbv zeta in Hact. destruct (trustRootKey _ _) as [root|]; [|discriminate Hid].
  split; [by injection Hid|]. exact (proj1 (proj2 (proj2 Hact))).
Defined.

Lemma revoke_guard_exact_witness :
  is_ok (@revokeOperatorKey toy_crypto demo6 7 "f" "A" (demo_revocation "B" "A" 7) None None) = true /\
  rv_blocked (revokeGuard "A" (console_keys demo6 "f") (Some "B") 1 (console_agents demo6 "f")) = false.
Proof.
  assert (Hok : is_ok (@revokeOperatorKey toy_crypto demo6 7 "f" "A" (demo_revocation "B" "A" 7) None None) = true)
    by (vm_compute; reflexivity).
  split; [exact Hok|].
  exact (proj2 (@revoke_guard_exact toy_crypto 6 demo6 7 "f" "A" "B" 1 None None (ex_intro _ 0 demo_run6))
    (demo_revocation "B" "A" 7) eq_refl Hok).
Defined.

(** ** What the local reading misses

    With a relay that publishes no verdict the console reads one hop.  After the
    host's recovery grant is spent and the lost key revoked, the successor is
    trusted by the relay and refused by the local reading. *)
Example local_reading_refuses_successor :
  let db := ok_db3 demo11 (@revokeOperatorKey toy_crypto demo11 12 "f" "C" (demo_revocation "D" "C" 12) None None) in
  let old := map (fun k => MkOperatorKey (k_id k) (k_label k) (k_revoked_at k) (k_endorsed_by k)
                             (k_revocation_sig k) None) (console_keys db "f") in
  operatorKeyMayEndorse db "f" "D" = true /\
  au_allowed (endorseAuthority (Some "D") old (console_agents db "f") None None 13) = false /\
  au_allowed (endorseAuthority (Some "D") (console_keys db "f") (console_agents db "f") None None 13) = true.
Proof. by vm_compute. Qed.
