(* ===== verification/Config.v ===== *)
(** * Configuration of the relay

    The numeric settings of [packages/relay/src/config.ts] the modelled code
    reads.  Operations take them as an argument, so the theorems hold for every
    environment; [default_config] has the fallbacks of the source. *)

From S2P Require Import Prelude.
Open Scope Z_scope.

Record Config := MkConfig {
  operatorSessionTtlSeconds : Z;
  timestampSkewSeconds : Z;
  envelopeNonceRetentionSeconds : Z;
  retryBackoffSeconds : list Z;
  maxRetries : Z;
  deliveryTimeoutSeconds : Z;
  rateLimitWindowSeconds : Z;
  rateLimitMaxMessages : Z;
  loginMaxFailures : Z;
  loginWindowSeconds : Z;
  loginThrottleMaxBuckets : Z;
  floorTtlSeconds : Z;
  floorTtlMaxSeconds : Z;
  floorTailLimit : Z;
  heartbeatLivenessThreshold : Z;
  heartbeatTimeoutSeconds : Z;
  rateLimitViolationThreshold : Z;
  rateLimitViolationWindowSeconds : Z;
  attachmentMaxBytes : Z;
  attachmentMaxPerMessage : Z;
  attachmentUploadMaxPerWindow : Z;
  attachmentFleetQuotaBytes : Z;
  attachmentUnboundTtlSeconds : Z;
  attachmentRetentionSeconds : Z;
  heartbeatRetentionSeconds : Z;
  eventRetentionSeconds : Z
}.

Definition default_config : Config := {|
  operatorSessionTtlSeconds := 86400;
  timestampSkewSeconds := 300;
  envelopeNonceRetentionSeconds := 24 * 3600 + 1200;
  retryBackoffSeconds := [60; 300; 900; 3600; 7200];
  maxRetries := 5;
  deliveryTimeoutSeconds := 120;
  rateLimitWindowSeconds := 60;
  rateLimitMaxMessages := 30;
  loginMaxFailures := 10;
  loginWindowSeconds := 900;
  loginThrottleMaxBuckets := 50000;
  floorTtlSeconds := 240;
  floorTtlMaxSeconds := 600;
  floorTailLimit := 20;
  heartbeatLivenessThreshold := 3;
  heartbeatTimeoutSeconds := 90;
  rateLimitViolationThreshold := 5;
  rateLimitViolationWindowSeconds := 3600;
  attachmentMaxBytes := 25 * 1024 * 1024;
  attachmentMaxPerMessage := 10;
  attachmentUploadMaxPerWindow := 20;
  attachmentFleetQuotaBytes := 1024 * 1024 * 1024;
  attachmentUnboundTtlSeconds := 6 * 3600;
  attachmentRetentionSeconds := 30 * 24 * 3600;
  heartbeatRetentionSeconds := 48 * 3600;
  eventRetentionSeconds := 30 * 24 * 3600
|}.

(** [addSeconds] *)
Definition addSeconds (t seconds : Z) : Z := t + seconds * 1000.
