(* ===== verification/Agents.v ===== *)
(** * Agents: status, controls, heartbeats, approvals, rate limits

    The part of [packages/relay/src/db.ts] that decides whether an agent may
    act: heartbeats and the liveness sweep, operator controls, quarantine, the
    rate limit, the trust and delegation flags, and the approval workflow. *)

From S2P Require Import Prelude Json IsoTime JsValues Events Config.
Import Ascii String.
Open Scope string_scope.
Open Scope Z_scope.

(** ** State *)

Inductive AgentStatus := Healthy | Degraded | Quarantined | Paused.
Inductive QuarantineReason := HeartbeatTimeout | RateLimitAbuse | ByOperator.

#[global] Instance AgentStatus_eq_dec : EqDecision AgentStatus.
Proof. solve_decision. Defined.
#[global] Instance QuarantineReason_eq_dec : EqDecision QuarantineReason.
Proof. solve_decision. Defined.

(** A row of [agents]; the primary key is the index of the map. *)
Record AgentRow := MkAgent {
  ag_fleet : string;
  ag_display_name : string;
  ag_runtime : string;
  ag_status : AgentStatus;
  ag_hostname : option string;
  ag_created_at : Z;
  ag_last_seen_at : option Z;
  ag_revoked_at : option Z;
  ag_missed : Z;
  ag_auto_quarantined_at : option Z;
  ag_quarantine_reason : option QuarantineReason;
  ag_operator_trusted : bool;
  ag_peer_autoreply : bool;
  ag_peer_turn_budget : Z
}.

(** The UPDATEs of the source, as row functions. *)
Definition set_status (st : AgentStatus) (auto : option Z) (reason : option QuarantineReason)
    (a : AgentRow) : AgentRow :=
  MkAgent (ag_fleet a) (ag_display_name a) (ag_runtime a) st (ag_hostname a) (ag_created_at a)
    (ag_last_seen_at a) (ag_revoked_at a) (ag_missed a) auto reason (ag_operator_trusted a)
    (ag_peer_autoreply a) (ag_peer_turn_budget a).
Definition set_seen (at_ : Z) (missed : Z) (a : AgentRow) : AgentRow :=
  MkAgent (ag_fleet a) (ag_display_name a) (ag_runtime a) (ag_status a) (ag_hostname a)
    (ag_created_at a) (Some at_) (ag_revoked_at a) missed (ag_auto_quarantined_at a)
    (ag_quarantine_reason a) (ag_operator_trusted a) (ag_peer_autoreply a) (ag_peer_turn_budget a).
Definition set_missed (missed : Z) (a : AgentRow) : AgentRow :=
  MkAgent (ag_fleet a) (ag_display_name a) (ag_runtime a) (ag_status a) (ag_hostname a)
    (ag_created_at a) (ag_last_seen_at a) (ag_revoked_at a) missed (ag_auto_quarantined_at a)
    (ag_quarantine_reason a) (ag_operator_trusted a) (ag_peer_autoreply a) (ag_peer_turn_budget a).
Definition set_trust (trusted : bool) (a : AgentRow) : AgentRow :=
  MkAgent (ag_fleet a) (ag_display_name a) (ag_runtime a) (ag_status a) (ag_hostname a)
    (ag_created_at a) (ag_last_seen_at a) (ag_revoked_at a) (ag_missed a) (ag_auto_quarantined_at a)
    (ag_quarantine_reason a) trusted (ag_peer_autoreply a) (ag_peer_turn_budget a).
Definition set_delegation (autoreply : bool) (budget : Z) (a : AgentRow) : AgentRow :=
  MkAgent (ag_fleet a) (ag_display_name a) (ag_runtime a) (ag_status a) (ag_hostname a)
    (ag_created_at a) (ag_last_seen_at a) (ag_revoked_at a) (ag_missed a) (ag_auto_quarantined_at a)
    (ag_quarantine_reason a) (ag_operator_trusted a) autoreply budget.
Definition set_display_name (name : string) (a : AgentRow) : AgentRow :=
  MkAgent (ag_fleet a) name (ag_runtime a) (ag_status a) (ag_hostname a)
    (ag_created_at a) (ag_last_seen_at a) (ag_revoked_at a) (ag_missed a) (ag_auto_quarantined_at a)
    (ag_quarantine_reason a) (ag_operator_trusted a) (ag_peer_autoreply a) (ag_peer_turn_budget a).

Inductive ControlAction := CPause | CResume | CQuarantine.
#[global] Instance ControlAction_eq_dec : EqDecision ControlAction.
Proof. solve_decision. Defined.

Definition control_name (c : ControlAction) : string :=
  match c with CPause => "pause" | CResume => "resume" | CQuarantine => "quarantine" end.

(** A row of [control_actions]; [target_kind] is always ["agent"]. *)
Record ControlRow := MkControl {
  c_id : string;
  c_fleet : string;
  c_target : string;
  c_action : ControlAction;
  c_payload : json;
  c_issued_by : string;
  c_created_at : Z;
  c_expires_at : option Z
}.

Definition set_expires (at_ : Z) (c : ControlRow) : ControlRow :=
  MkControl (c_id c) (c_fleet c) (c_target c) (c_action c) (c_payload c) (c_issued_by c)
    (c_created_at c) (Some at_).

(** A row of [heartbeats]. *)
Record HeartbeatRow := MkHeartbeat {
  h_id : string;
  h_agent : string;
  h_status : string;
  h_metrics : json;
  h_received_at : Z
}.

(** A row of [approvals]; the primary key is the index of the map. *)
Record ApprovalRow := MkApproval {
  ap_fleet : string;
  ap_agent : string;
  ap_conversation : string;
  ap_action_type : string;
  ap_risk_level : string;
  ap_summary : string;
  ap_payload : json;
  ap_status : string;
  ap_requested_at : Z;
  ap_resolved_at : option Z;
  ap_resolved_by : option string
}.

(** A row of [rate_limit_violations]. *)
Record ViolationRow := MkViolation {
  rv_fleet : string;
  rv_agent : string;
  rv_window_start : Z;
  rv_count : Z;
  rv_limit : Z;
  rv_created_at : Z
}.

(** A row of [operators]; the primary key is the index of the map. *)
Record OperatorRow := MkOperator {
  op_fleet : string;
  op_email : string;
  op_password_hash : string;
  op_role : string;
  op_created_at : Z;
  op_display_name : option string
}.

Record AgentDb := MkAgentDb {
  ad_agents : gmap string AgentRow;
  ad_controls : list ControlRow;
  ad_heartbeats : list HeartbeatRow;
  ad_approvals : gmap string ApprovalRow;
  ad_counters : gmap (string * Z) Z;
  ad_violations : list ViolationRow;
  ad_operators : gmap string OperatorRow
}.

Definition with_agents x (d : AgentDb) :=
  MkAgentDb x (ad_controls d) (ad_heartbeats d) (ad_approvals d) (ad_counters d) (ad_violations d) (ad_operators d).
Definition with_controls x (d : AgentDb) :=
  MkAgentDb (ad_agents d) x (ad_heartbeats d) (ad_approvals d) (ad_counters d) (ad_violations d) (ad_operators d).
Definition with_heartbeats x (d : AgentDb) :=
  MkAgentDb (ad_agents d) (ad_controls d) x (ad_approvals d) (ad_counters d) (ad_violations d) (ad_operators d).
Definition with_approvals x (d : AgentDb) :=
  MkAgentDb (ad_agents d) (ad_controls d) (ad_heartbeats d) x (ad_counters d) (ad_violations d) (ad_operators d).
Definition with_counters x (d : AgentDb) :=
  MkAgentDb (ad_agents d) (ad_controls d) (ad_heartbeats d) (ad_approvals d) x (ad_violations d) (ad_operators d).
Definition with_violations x (d : AgentDb) :=
  MkAgentDb (ad_agents d) (ad_controls d) (ad_heartbeats d) (ad_approvals d) (ad_counters d) x (ad_operators d).
Definition with_operators x (d : AgentDb) :=
  MkAgentDb (ad_agents d) (ad_controls d) (ad_heartbeats d) (ad_approvals d) (ad_counters d) (ad_violations d) x.

(** ** Turn budgets *)

Definition NO_TURN_LIMIT : Z := 0.

(** Storage to wire: a positive cap, or null. *)
Definition turnBudgetOut (stored : Z) : option Z := if 0 <? stored then Some stored else None.

(** Input to storage: null and anything not positive clear the cap. *)
Definition turnBudgetIn (input : option Z) : Z :=
  match input with Some n => if 0 <? n then n else NO_TURN_LIMIT | None => NO_TURN_LIMIT end.

Definition jbudget (b : option Z) : json := match b with Some n => JNum n | None => JNull end.

(** ** Heartbeats *)

Definition is_standing (now : Z) (e : option Z) : bool :=
  match e with None => true | Some t => now <? t end.

(** UPDATE control_actions SET expires_at = now, on the standing controls of an
    agent among [actions]. *)
Definition expire_controls (now : Z) (agent : string) (actions : list ControlAction)
    (cs : list ControlRow) : list ControlRow :=
  update_where (fun c => (c_target c ==? agent) && bool_decide (c_action c ∈ actions) &&
                         is_standing now (c_expires_at c))
    (set_expires now) cs.

Definition insertHeartbeat (d : AgentDb) (now : Z) (hb_id agentId status : string) (metrics : json)
    : AgentDb * list Event :=
  match ad_agents d !! agentId with
  | None => (d, [])
  | Some agent =>
      let newStatus := if status ==? "healthy" then Healthy else Degraded in
      let d1 := with_heartbeats
                  ((ad_heartbeats d ++ [MkHeartbeat hb_id agentId status metrics now])%list) d in
      let hb := recordEvent now (ag_fleet agent) "agent.heartbeat" "agent" (Some agentId) "agent"
                  (Some agentId) None (JObj [("status", JStr status); ("metrics", metrics)]) in
      if (ag_status agent ==? Quarantined) && (ag_quarantine_reason agent ==? Some HeartbeatTimeout)
      then
        (with_controls (expire_controls now agentId [CQuarantine] (ad_controls d1))
           (with_agents (<[agentId := set_seen now 0 (set_status newStatus None None agent)]>
              (ad_agents d1)) d1),
         [recordEvent now (ag_fleet agent) "agent.auto_unquarantined" "system" None "agent"
            (Some agentId) None (JObj [("reason", JStr "heartbeat_resumed")]); hb])
      else
        (with_agents
           (if (ag_status agent ==? Quarantined) || (ag_status agent ==? Paused) then ad_agents d1
            else <[agentId := set_seen now 0
                     (set_status newStatus (ag_auto_quarantined_at agent)
                        (ag_quarantine_reason agent) agent)]> (ad_agents d1)) d1,
         [hb])
  end.

(** ** Operator controls *)

(** SELECT ... WHERE id = ? AND fleet_id = ? AND runtime != 'operator' *)
Definition fleet_agent (d : AgentDb) (fleet agentId : string) : option AgentRow :=
  match ad_agents d !! agentId with
  | Some a => if (ag_fleet a ==? fleet) && negb (ag_runtime a ==? "operator") then Some a else None
  | None => None
  end.

Definition next_status (action : ControlAction) : AgentStatus :=
  match action with CPause => Paused | CQuarantine => Quarantined | CResume => Healthy end.

Definition controlAgent (d : AgentDb) (now : Z) (ctl_id fleet agentId operatorId : string)
    (action : ControlAction) (payload : json) : AgentDb * bool * list Event :=
  match fleet_agent d fleet agentId with
  | None => (d, false, [])
  | Some agent =>
      let cs := if action ==? CResume
                then expire_controls now agentId [CPause; CQuarantine] (ad_controls d)
                else ad_controls d in
      let expiresAt := if action ==? CResume then Some (addSeconds now 3600) else None in
      (with_controls
         ((cs ++ [MkControl ctl_id fleet agentId action payload operatorId now expiresAt])%list)
         (with_agents
            (<[agentId := set_status (next_status action) None
                 (if action ==? CQuarantine then Some ByOperator else None) agent]> (ad_agents d)) d),
       true,
       [recordEvent now fleet ("agent." +:+ control_name action) "operator" (Some operatorId) "agent"
          (Some agentId) None payload])
  end.

Definition setAgentTrust (d : AgentDb) (now : Z) (fleet agentId operatorId : string)
    (trusted : bool) : AgentDb * option bool * list Event :=
  match fleet_agent d fleet agentId with
  | None => (d, None, [])
  | Some agent =>
      (with_agents (<[agentId := set_trust trusted agent]> (ad_agents d)) d, Some trusted,
       [recordEvent now fleet "agent.trust_changed" "operator" (Some operatorId) "agent"
          (Some agentId) None (JObj [("operator_trusted", JBool trusted)])])
  end.

(** [budget]: [None] leaves the stored budget, [Some None] is null. *)
Definition setPeerAutoreply (d : AgentDb) (now : Z) (fleet agentId operatorId : string)
    (autoreply : bool) (budget : option (option Z))
    : AgentDb * option (bool * option Z) * list Event :=
  match fleet_agent d fleet agentId with
  | None => (d, None, [])
  | Some agent =>
      let stored := match budget with
                    | Some b => turnBudgetIn b
                    | None => ag_peer_turn_budget agent
                    end in
      let out := turnBudgetOut stored in
      (with_agents (<[agentId := set_delegation autoreply stored agent]> (ad_agents d)) d,
       Some (autoreply, out),
       [recordEvent now fleet "agent.peer_autoreply_changed" "operator" (Some operatorId) "agent"
          (Some agentId) None
          (JObj [("peer_autoreply", JBool autoreply); ("peer_turn_budget", jbudget out)])])
  end.

(** ** Approvals *)

Inductive Decision := Deny | Allow | PendingApproval (approval_id : string).

Definition proposeAction (d : AgentDb) (now : Z) (apr_id agentId conversationId actionType summary
    riskLevel : string) (payload : json) : AgentDb * Decision * list Event :=
  match ad_agents d !! agentId with
  | None => (d, Deny, [])
  | Some agent =>
      if (ag_status agent ==? Paused) || (ag_status agent ==? Quarantined) then (d, Deny, [])
      else if (riskLevel ==? "high") || (riskLevel ==? "critical") then
        (with_approvals
           (<[apr_id := MkApproval (ag_fleet agent) agentId conversationId actionType riskLevel
                          summary payload "pending" now None None]> (ad_approvals d)) d,
         PendingApproval apr_id,
         [recordEvent now (ag_fleet agent) "approval.requested" "agent" (Some agentId) "approval"
            (Some apr_id) (Some conversationId)
            (JObj [("action_type", JStr actionType); ("risk_level", JStr riskLevel)])])
      else (d, Allow, [])
  end.

(** SELECT ... FROM approvals WHERE id = ? AND fleet_id = ? AND agent_id = ? *)
Definition own_approval (d : AgentDb) (approvalId fleet agentId : string) : option ApprovalRow :=
  match ad_approvals d !! approvalId with
  | Some a => if (ap_fleet a ==? fleet) && (ap_agent a ==? agentId) then Some a else None
  | None => None
  end.

Definition resolve (status : string) (at_ : Z) (by_ : option string) (a : ApprovalRow) : ApprovalRow :=
  MkApproval (ap_fleet a) (ap_agent a) (ap_conversation a) (ap_action_type a) (ap_risk_level a)
    (ap_summary a) (ap_payload a) status (ap_requested_at a) (Some at_) by_.

Definition completeActionResult (d : AgentDb) (now : Z) (approvalId fleet agentId result_ : string)
    (output : json) : AgentDb * bool * list Event :=
  match own_approval d approvalId fleet agentId with
  | None => (d, false, [])
  | Some a =>
      (with_approvals (<[approvalId := resolve result_ now (ap_resolved_by a) a]> (ad_approvals d)) d,
       true,
       [recordEvent now (ap_fleet a) "approval.result" "agent" (Some (ap_agent a)) "approval"
          (Some approvalId) (Some (ap_conversation a))
          (JObj [("result", JStr result_); ("output", output)])])
  end.

Definition getApprovalStatus (d : AgentDb) (approvalId fleet agentId : string)
    : option (string * string * string * string * Z * option Z) :=
  match own_approval d approvalId fleet agentId with
  | Some a => Some (ap_status a, ap_action_type a, ap_risk_level a, ap_summary a,
                    ap_requested_at a, ap_resolved_at a)
  | None => None
  end.

(** [approved] stands for the status argument ["approved"] or ["rejected"]. *)
Definition approveOrReject (d : AgentDb) (now : Z) (approvalId fleet operatorId : string)
    (approved : bool) : AgentDb * bool * list Event :=
  let status := if approved then "approved" else "rejected" in
  match ad_approvals d !! approvalId with
  | Some a =>
      if (ap_fleet a ==? fleet) && (ap_status a ==? "pending") then
        (with_approvals (<[approvalId := resolve status now (Some operatorId) a]> (ad_approvals d)) d,
         true,
         [recordEvent now (ap_fleet a) ("approval." +:+ status) "operator" (Some operatorId)
            "approval" (Some approvalId) (Some (ap_conversation a)) (JObj [])])
      else (d, false, [])
  | None => (d, false, [])
  end.

(** ** Quarantine automation *)

Definition system_operator (fleet : string) : string := "opr_system_" +:+ fleet.

Definition ensureSystemOperator (d : AgentDb) (now : Z) (fleet : string) : AgentDb * string :=
  let sid := system_operator fleet in
  match ad_operators d !! sid with
  | Some _ => (d, sid)
  | None =>
      (with_operators (<[sid := MkOperator fleet "system@ekho.internal" "!system-no-login" "system"
                                  now None]> (ad_operators d)) d, sid)
  end.

(** UPDATE agents SET status = 'quarantined', ... WHERE id = ? AND status NOT IN
    ('quarantined', 'paused') *)
Definition quarantine_unless_stopped (now : Z) (agentId : string) (m : gmap string AgentRow)
    : gmap string AgentRow :=
  alter (fun a => if (ag_status a ==? Quarantined) || (ag_status a ==? Paused) then a
                  else set_status Quarantined (Some now) (Some RateLimitAbuse) a) agentId m.

Section Limits.
Context (cfg : Config).

Definition checkRateLimitQuarantine (d : AgentDb) (now : Z) (ctl_id agentId fleet : string)
    : AgentDb * list Event :=
  let cutoff := now - rateLimitViolationWindowSeconds cfg * 1000 in
  let count := Z.of_nat (changes (fun v => (rv_agent v ==? agentId) && (cutoff <? rv_created_at v))
                           (ad_violations d)) in
  if rateLimitViolationThreshold cfg <=? count then
    let '(d1, sid) := ensureSystemOperator d now fleet in
    let payload := JObj [("reason", JStr "rate_limit_abuse"); ("violation_count", JNum count)] in
    (with_controls
       ((ad_controls d1 ++ [MkControl ctl_id fleet agentId CQuarantine payload sid now None])%list)
       (with_agents (quarantine_unless_stopped now agentId (ad_agents d1)) d1),
     [recordEvent now fleet "agent.auto_quarantined" "system" None "agent" (Some agentId) None payload])
  else (d, []).

(** The start of the current window, in ms. *)
Definition window_start (now : Z) : Z :=
  (now / 1000) / rateLimitWindowSeconds cfg * rateLimitWindowSeconds cfg * 1000.

Definition counter (d : AgentDb) (key : string) (w : Z) : Z := default 0 (ad_counters d !! (key, w)).

Record RateVerdict := MkRateVerdict { rl_allowed : bool; rl_current : Z; rl_limit : Z }.

Definition checkAndIncrementRateLimit (d : AgentDb) (now : Z) (ctl_id agentId fleet : string)
    : AgentDb * RateVerdict * list Event :=
  let w := window_start now in
  let limit := rateLimitMaxMessages cfg in
  let current := counter d agentId w in
  if limit <=? current then
    let d1 := with_violations
                ((ad_violations d ++ [MkViolation fleet agentId w current limit now])%list)
                (with_counters (<[(agentId, w) := current]> (ad_counters d)) d) in
    let e := recordEvent now fleet "agent.rate_limit_exceeded" "agent" (Some agentId) "agent"
               (Some agentId) None
               (JObj [("window_start", JStr (to_iso w)); ("message_count", JNum current);
                      ("limit", JNum limit)]) in
    let '(d2, es) := checkRateLimitQuarantine d1 now ctl_id agentId fleet in
    (d2, MkRateVerdict false current limit, e :: es)
  else
    (with_counters (<[(agentId, w) := current + 1]> (ad_counters d)) d,
     MkRateVerdict true (current + 1) limit, []).

(** The upload limit: the same counters under a key of its own. *)
Definition checkAndIncrementUploadLimit (d : AgentDb) (now : Z) (uploaderId fleet : string)
    : AgentDb * RateVerdict * list Event :=
  let w := window_start now in
  let limit := attachmentUploadMaxPerWindow cfg in
  let key := "upload:" +:+ uploaderId in
  let current := counter d key w in
  if limit <=? current then
    (with_counters (<[(key, w) := current]> (ad_counters d)) d,
     MkRateVerdict false current limit,
     [recordEvent now fleet "attachment.rate_limit_exceeded" "agent" (Some uploaderId) "agent"
        (Some uploaderId) None
        (JObj [("window_start", JStr (to_iso w)); ("upload_count", JNum current);
               ("limit", JNum limit)])])
  else
    (with_counters (<[(key, w) := current + 1]> (ad_counters d)) d,
     MkRateVerdict true (current + 1) limit, []).

Definition sweepStaleRateLimitCounters (d : AgentDb) (now : Z) : AgentDb :=
  let cutoff := now - rateLimitWindowSeconds cfg * 2 * 1000 in
  with_counters (filter (fun kv => cutoff <= snd (fst kv)) (ad_counters d)) d.

(** *** The liveness sweep *)

(** MAX(created_at) of the resumes that still give an agent grace *)
Definition resumed_at (d : AgentDb) (now : Z) (fleet agentId : string) : option Z :=
  let livenessWindowMs := heartbeatTimeoutSeconds cfg * heartbeatLivenessThreshold cfg * 1000 in
  option_map c_created_at
    (latest_by c_created_at
       (select (fun c => (c_fleet c ==? fleet) && (c_target c ==? agentId) && (c_action c ==? CResume) &&
                         (is_standing now (c_expires_at c) || (now - livenessWindowMs <? c_created_at c)))
          (ad_controls d))).

(** The agents the sweep looks at. *)
Definition watched (a : AgentRow) : bool :=
  ((ag_status a ==? Healthy) || (ag_status a ==? Degraded)) && negb (ag_last_seen_at a ==? None).

Definition missed_heartbeats (d : AgentDb) (now : Z) (agentId : string) (a : AgentRow) : Z :=
  let lastSeen := Z.max (default 0 (ag_last_seen_at a))
                    (default 0 (resumed_at d now (ag_fleet a) agentId)) in
  (now - lastSeen) / (heartbeatTimeoutSeconds cfg * 1000).

(** One iteration: [d0] is the state the SELECT read, [ctl_id] the id of the
    control it may insert. *)
Definition liveness_step (d0 : AgentDb) (now : Z) (ctl_id : string -> string)
    (acc : AgentDb * nat * list Event) (row : string * AgentRow) : AgentDb * nat * list Event :=
  let '(d, n, es) := acc in
  let '(agentId, a) := row in
  let missed := missed_heartbeats d0 now agentId a in
  let d1 := with_agents (alter (set_missed missed) agentId (ad_agents d)) d in
  if heartbeatLivenessThreshold cfg <=? missed then
    let '(d2, sid) := ensureSystemOperator d1 now (ag_fleet a) in
    let payload := JObj [("reason", JStr "heartbeat_timeout"); ("missed_count", JNum missed)] in
    (with_controls
       ((ad_controls d2 ++ [MkControl (ctl_id agentId) (ag_fleet a) agentId CQuarantine payload sid
                              now None])%list)
       (with_agents (alter (fun b => set_missed missed
                              (set_status Quarantined (Some now) (Some HeartbeatTimeout) b))
                       agentId (ad_agents d2)) d2),
     S n,
     (es ++ [recordEvent now (ag_fleet a) "agent.auto_quarantined" "system" None "agent"
               (Some agentId) None payload])%list)
  else (d1, n, es).

Definition sweepHeartbeatLiveness (d : AgentDb) (now : Z) (ctl_id : string -> string)
    : AgentDb * nat * list Event :=
  fold_left (liveness_step d now ctl_id)
    (List.filter (fun row => watched (snd row)) (map_to_list (ad_agents d))) (d, O, []).
End Limits.
