(* ===== verification/Enrollment.v ===== *)
(** * Enrolment and authentication

    [packages/relay/src/db.ts] (bootstrap, operators, enrolment tokens, agent
    credentials, replay nonces) and [packages/relay/src/auth.ts]
    ([requireAgentAuth]). *)

From S2P Require Import Prelude Json IsoTime JsValues Events Config Agents.
Import Ascii String.
Open Scope string_scope.
Open Scope Z_scope.

(** ** State *)

Record FleetRow := MkFleet { fl_name : string; fl_created_at : Z }.

(** A row of [enrollment_tokens]. *)
Record TokenRow := MkToken {
  t_id : string;
  t_fleet : string;
  t_hash : string;
  t_issued_by : string;
  t_expires_at : Z;
  t_used_at : option Z;
  t_used_by : option string
}.

(** A row of [agent_credentials]; [status] is always ["active"] when written. *)
Record CredentialRow := MkCredential {
  cr_id : string;
  cr_agent : string;
  cr_secret_hash : string;
  cr_status : string;
  cr_created_at : Z
}.

Record EnrollDb := MkEnrollDb {
  ed_fleets : gmap string FleetRow;
  ed_tokens : list TokenRow;
  ed_credentials : list CredentialRow;
  ed_nonces : gmap (string * string) Z
}.

Definition with_fleets x (d : EnrollDb) := MkEnrollDb x (ed_tokens d) (ed_credentials d) (ed_nonces d).
Definition with_tokens x (d : EnrollDb) := MkEnrollDb (ed_fleets d) x (ed_credentials d) (ed_nonces d).
Definition with_credentials x (d : EnrollDb) := MkEnrollDb (ed_fleets d) (ed_tokens d) x (ed_nonces d).
Definition with_nonces x (d : EnrollDb) := MkEnrollDb (ed_fleets d) (ed_tokens d) (ed_credentials d) x.

(** ** Fleets and operators *)

(** A duplicate fleet name violates its UNIQUE constraint.  [password_hash] is
    [hashPassword(password)], salted at random. *)
Definition createBootstrap (e : EnrollDb) (d : AgentDb) (now : Z) (fleetId operatorId fleetName email
    password_hash : string) : result string (EnrollDb * AgentDb * (string * string)) :=
  if bool_decide (map_Exists (fun _ f => fl_name f = fleetName) (ed_fleets e))
  then Throw "UNIQUE constraint failed: fleets.name"
  else
    Ok (with_fleets (<[fleetId := MkFleet fleetName now]> (ed_fleets e)) e,
        with_operators (<[operatorId := MkOperator fleetId email password_hash "owner" now None]>
                          (ad_operators d)) d,
        (fleetId, operatorId)).

Definition findFleetByName (e : EnrollDb) (name : string) : option (string * FleetRow) :=
  select_one (fun kv => fl_name (snd kv) ==? name) (map_to_list (ed_fleets e)).

(** [verify] is [verifyPassword]: does it match, and is the hash a legacy one;
    [rehash] is [hashPassword(password)]. *)
Definition authenticateOperator (verify : string -> string -> bool * bool) (rehash : string)
    (e : EnrollDb) (d : AgentDb) (fleetName email password : string)
    : AgentDb * option (string * OperatorRow) :=
  match select_one (fun kv => (op_email (snd kv) ==? email) &&
                     bool_decide (fl_name <$> ed_fleets e !! op_fleet (snd kv) = Some fleetName))
          (map_to_list (ad_operators d)) with
  | None => (d, None)
  | Some (oid, row) =>
      let '(ok, legacy) := verify password (op_password_hash row) in
      if negb ok then (d, None)
      else if legacy then
        (with_operators (<[oid := MkOperator (op_fleet row) (op_email row) rehash (op_role row)
                                    (op_created_at row) (op_display_name row)]> (ad_operators d)) d,
         Some (oid, row))
      else (d, Some (oid, row))
  end.

Definition operatorBelongsToFleet (d : AgentDb) (operatorId fleetId : string) : bool :=
  match ad_operators d !! operatorId with
  | Some o => op_fleet o ==? fleetId
  | None => false
  end.

(** The label, the profile and the display name of an operator. *)
Definition operatorLabel (d : AgentDb) (operatorId : string) : string :=
  match ad_operators d !! operatorId with
  | Some o => let name := trim (default "" (op_display_name o)) in
              if name ==? "" then "Operator" else name
  | None => "Operator"
  end.

Definition getOperatorProfile (d : AgentDb) (operatorId : string)
    : option (string * string * option string) :=
  match ad_operators d !! operatorId with
  | Some o => Some (operatorId, op_email o, op_display_name o)
  | None => None
  end.

Definition operator_agent (fleetId : string) : string := "op_" +:+ fleetId.

(** The synthetic sender of operator messages: born revoked. *)
Definition ensureOperatorAgent (d : AgentDb) (now : Z) (fleetId : string) : AgentDb * string :=
  let opId := operator_agent fleetId in
  match ad_agents d !! opId with
  | Some _ => (d, opId)
  | None =>
      (with_agents (<[opId := MkAgent fleetId "Operator" "operator" Healthy None now None (Some now)
                                0 None None false true NO_TURN_LIMIT]> (ad_agents d)) d, opId)
  end.

Definition setOperatorDisplayName (d : AgentDb) (now : Z) (operatorId displayName : string)
    : AgentDb * option (string * string * option string) :=
  match ad_operators d !! operatorId with
  | None => (d, None)
  | Some o =>
      let name := trim displayName in
      let d1 := with_operators (<[operatorId := MkOperator (op_fleet o) (op_email o)
                  (op_password_hash o) (op_role o) (op_created_at o) (Some name)]> (ad_operators d)) d in
      let '(d2, opId) := ensureOperatorAgent d1 now (op_fleet o) in
      let d3 := with_agents (alter (set_display_name name) opId (ad_agents d2)) d2 in
      (d3, getOperatorProfile d3 operatorId)
  end.

Section Crypto.
Context `{NodeCrypto}.

Definition hashSecret (secret : string) : string := node_sha256 secret.

(** ** Enrolment tokens *)

(** [tokenId] and [tok] are the two random ids. *)
Definition issueEnrollmentToken (e : EnrollDb) (now : Z) (tokenId tok fleetId operatorId : string)
    : EnrollDb * string :=
  let token := tokenId +:+ "." +:+ tok in
  (with_tokens ((ed_tokens e ++ [MkToken tokenId fleetId (hashSecret token) operatorId
                                   (addSeconds now 3600) None None])%list) e, token).

(** The row of a fresh agent. *)
Definition fresh_agent (fleet displayName runtime : string) (hostname : option string) (now : Z)
    : AgentRow :=
  MkAgent fleet displayName runtime Healthy hostname now None None 0 None None false true NO_TURN_LIMIT.

Definition claimable (now : Z) (hash fleet : string) (t : TokenRow) : bool :=
  (t_hash t ==? hash) && (t_fleet t ==? fleet) && (t_used_at t ==? None) && (now <? t_expires_at t).

Definition claim_token (now : Z) (t : TokenRow) : TokenRow :=
  MkToken (t_id t) (t_fleet t) (t_hash t) (t_issued_by t) (t_expires_at t) (Some now) (t_used_by t).
Definition use_token (agent : string) (t : TokenRow) : TokenRow :=
  MkToken (t_id t) (t_fleet t) (t_hash t) (t_issued_by t) (t_expires_at t) (t_used_at t) (Some agent).

(** [None] is the refusal; the claim that changed no row is a no-op. *)
Definition createAgentFromEnrollment (e : EnrollDb) (d : AgentDb) (now : Z) (agentId secret credId : string)
    (fleetId token displayName runtime : string) (hostname : option string)
    : EnrollDb * AgentDb * option (string * string) :=
  let hash := hashSecret token in
  let hit := claimable now hash fleetId in
  let tokens := update_where hit (claim_token now) (ed_tokens e) in
  if negb (changes hit (ed_tokens e) =? 1)%nat then (with_tokens tokens e, d, None)
  else match select_one (fun t => (t_hash t ==? hash) && (t_fleet t ==? fleetId)) tokens with
  | None => (with_tokens tokens e, d, None)
  | Some tk =>
      (with_credentials ((ed_credentials e ++ [MkCredential credId agentId (hashSecret secret) "active"
                                                 now])%list)
         (with_tokens (update_where (fun t => t_id t ==? t_id tk) (use_token agentId) tokens) e),
       with_agents (<[agentId := fresh_agent fleetId displayName runtime hostname now]> (ad_agents d)) d,
       Some (agentId, secret))
  end.

(** ** Authentication *)

(** The newest active credential of an agent that is not revoked. *)
Definition authenticateAgent (e : EnrollDb) (d : AgentDb) (agentId : string)
    : option (AgentRow * string) :=
  match ad_agents d !! agentId with
  | Some a =>
      if ag_revoked_at a ==? None then
        match latest_by cr_created_at
                (select (fun c => (cr_agent c ==? agentId) && (cr_status c ==? "active"))
                   (ed_credentials e)) with
        | Some c => Some (a, cr_secret_hash c)
        | None => None
        end
      else None
  | None => None
  end.

(** INSERT OR IGNORE: [true] on the first use. *)
Definition claimNonce (e : EnrollDb) (now : Z) (agentId nonce : string) : EnrollDb * bool :=
  match ed_nonces e !! (agentId, nonce) with
  | Some _ => (e, false)
  | None => (with_nonces (<[(agentId, nonce) := now]> (ed_nonces e)) e, true)
  end.

Definition claimEnvelopeNonce (e : EnrollDb) (now : Z) (agentId nonce : string) : EnrollDb * bool :=
  claimNonce e now agentId ("env:" +:+ nonce).

(** [nonce LIKE 'env:%'], which SQLite matches without regard to ASCII case. *)
Definition like_env (nonce : string) : bool :=
  match nonce with
  | String a (String b (String c (String d _))) =>
      (lower a ==? "e"%char) && (lower b ==? "n"%char) && (lower c ==? "v"%char) && (d ==? ":"%char)
  | _ => false
  end.

(** Rows kept by the two prunes. *)
Definition nonce_fresh (cfg : Config) (now : Z) (nonce : string) (created_at : Z) : bool :=
  if like_env nonce then now - envelopeNonceRetentionSeconds cfg * 1000 <=? created_at
  else now - timestampSkewSeconds cfg * 2 * 1000 <=? created_at.

Definition sweepStaleNonces (cfg : Config) (e : EnrollDb) (now : Z) : EnrollDb * nat :=
  let kept := filter (fun kv => nonce_fresh cfg now (snd (fst kv)) (snd kv) = true) (ed_nonces e) in
  (with_nonces kept e, (size (ed_nonces e) - size kept)%nat).

(** The request [requireAgentAuth] reads: its headers, method, path without the
    query, and the JSON text of its body. *)
Record SignedRequest := MkRequest {
  rq_agent_id : option string;
  rq_timestamp : option string;
  rq_nonce : option string;
  rq_signature : option string;
  rq_secret : option string;
  rq_method : string;
  rq_path : string;
  rq_body : string
}.

Definition newline : string := String (ascii_of_nat 10) EmptyString.

Definition request_payload (r : SignedRequest) (timestamp nonce : string) : string :=
  rq_method r +:+ newline +:+ rq_path r +:+ newline +:+ timestamp +:+ newline +:+ nonce +:+
  newline +:+ node_sha256 (rq_body r).

Inductive AuthErr := MissingHeaders | BadCredentials | ClockSkew | BadSignature | ReplayedNonce.

(** The verdict carries the state: the nonce claim is its only write. *)
Definition requireAgentAuth (cfg : Config) (e : EnrollDb) (d : AgentDb) (now : Z) (r : SignedRequest)
    : EnrollDb * result AuthErr (string * string * AgentStatus) :=
  match rq_agent_id r, rq_timestamp r, rq_nonce r, rq_signature r, rq_secret r with
  | Some agentId, Some timestamp, Some nonce, Some signature, Some sharedSecret =>
      match authenticateAgent e d agentId with
      | None => (e, Throw BadCredentials)
      | Some (agent, secret_hash) =>
          if negb (secret_hash ==? hashSecret sharedSecret) then (e, Throw BadCredentials)
          else match date_parse timestamp with
          | None => (e, Throw ClockSkew)
          | Some ts =>
              if timestampSkewSeconds cfg * 1000 <? Z.abs (now - ts) then (e, Throw ClockSkew)
              else if negb (node_hmac_sha256 sharedSecret (request_payload r timestamp nonce) ==? signature)
              then (e, Throw BadSignature)
              else
                let '(e', first) := claimNonce e now agentId nonce in
                if first then (e', Ok (agentId, ag_fleet agent, ag_status agent))
                else (e', Throw ReplayedNonce)
          end
      end
  | _, _, _, _, _ => (e, Throw MissingHeaders)
  end.
End Crypto.
