(* ===== verification/Messages.v ===== *)
(** * Messages: sending, rooms, visibility

    [packages/relay/src/db.ts]: the tables of messages, deliveries, rooms and
    attachments, the two send paths and the rules that say who receives and who
    may read a message. *)

From S2P Require Import Prelude Json IsoTime JsValues Events Config OperatorKeys Agents Enrollment.
Import Ascii String.
Open Scope string_scope.
Open Scope Z_scope.

(** ** State *)

Inductive MessageStatus := MQueued | MAcked | MDeadLettered | MExpired.
Inductive DeliveryStatus := DQueued | DDelivered | DAcked | DDeadLettered | DExpired.

#[global] Instance MessageStatus_eq_dec : EqDecision MessageStatus.
Proof. solve_decision. Defined.
#[global] Instance DeliveryStatus_eq_dec : EqDecision DeliveryStatus.
Proof. solve_decision. Defined.

(** A row of [messages]; bodies and metadata are kept parsed. *)
Record MessageRow := MkMessage {
  ms_id : string;
  ms_fleet : string;
  ms_conversation : string;
  ms_correlation : string;
  ms_sender : string;
  ms_recipient_kind : string;
  ms_recipient_id : option string;
  ms_type : string;
  ms_priority : string;
  ms_requires_approval : bool;
  ms_body : json;
  ms_metadata : option json;
  ms_ttl : Z;
  ms_created_at : Z;
  ms_expires_at : Z;
  ms_status : MessageStatus
}.

Definition set_message_status (st : MessageStatus) (m : MessageRow) : MessageRow :=
  MkMessage (ms_id m) (ms_fleet m) (ms_conversation m) (ms_correlation m) (ms_sender m)
    (ms_recipient_kind m) (ms_recipient_id m) (ms_type m) (ms_priority m) (ms_requires_approval m)
    (ms_body m) (ms_metadata m) (ms_ttl m) (ms_created_at m) (ms_expires_at m) st.

(** A row of [message_deliveries]; [acked_at] is the time the agent claims. *)
Record DeliveryRow := MkDelivery {
  dl_id : string;
  dl_message : string;
  dl_recipient : string;
  dl_attempts : Z;
  dl_queued_at : Z;
  dl_delivered_at : option Z;
  dl_acked_at : option string;
  dl_status : DeliveryStatus;
  dl_retry_count : Z;
  dl_next_retry_at : option Z;
  dl_failure : option string
}.

(** A row of [dead_letters]. *)
Record DeadLetterRow := MkDeadLetter {
  dd_id : string;
  dd_fleet : string;
  dd_message : string;
  dd_delivery : string;
  dd_recipient : string;
  dd_sender : string;
  dd_conversation : string;
  dd_type : string;
  dd_body : json;
  dd_metadata : option json;
  dd_retry_count : Z;
  dd_reason : string;
  dd_at : Z
}.

(** A row of [rooms]; the primary key is the index of the map. *)
Record RoomRow := MkRoom {
  rm_fleet : string;
  rm_name : string;
  rm_created_at : Z;
  rm_by_operator : option string;
  rm_by_agent : option string;
  rm_project_mode : bool;
  rm_project_turn_budget : Z
}.

(** A row of [attachments]; the primary key is the index of the map. *)
Record AttachmentRow := MkAttachment {
  at_fleet : string;
  at_uploader_kind : string;
  at_uploader_id : string;
  at_filename : string;
  at_mime : string;
  at_size_bytes : Z;
  at_storage_path : string;
  at_created_at : Z;
  at_bound_message : option string;
  at_bound_at : option Z
}.

(** A row of [conversation_floors]: its primary key is the conversation alone. *)
Record FloorRow := MkFloor {
  fr_fleet : string;
  fr_holder : string;
  fr_acquired_at : Z;
  fr_expires_at : Z
}.

Record MailDb := MkMailDb {
  md_messages : list MessageRow;
  md_deliveries : list DeliveryRow;
  md_dead : list DeadLetterRow;
  md_rooms : gmap string RoomRow;
  md_members : list (string * string);
  md_attachments : gmap string AttachmentRow;
  md_floors : gmap string FloorRow
}.

Definition with_messages x (m : MailDb) :=
  MkMailDb x (md_deliveries m) (md_dead m) (md_rooms m) (md_members m) (md_attachments m) (md_floors m).
Definition with_deliveries x (m : MailDb) :=
  MkMailDb (md_messages m) x (md_dead m) (md_rooms m) (md_members m) (md_attachments m) (md_floors m).
Definition with_dead x (m : MailDb) :=
  MkMailDb (md_messages m) (md_deliveries m) x (md_rooms m) (md_members m) (md_attachments m) (md_floors m).
Definition with_rooms x (m : MailDb) :=
  MkMailDb (md_messages m) (md_deliveries m) (md_dead m) x (md_members m) (md_attachments m) (md_floors m).
Definition with_members x (m : MailDb) :=
  MkMailDb (md_messages m) (md_deliveries m) (md_dead m) (md_rooms m) x (md_attachments m) (md_floors m).
Definition with_attachments x (m : MailDb) :=
  MkMailDb (md_messages m) (md_deliveries m) (md_dead m) (md_rooms m) (md_members m) x (md_floors m).
Definition with_floors x (m : MailDb) :=
  MkMailDb (md_messages m) (md_deliveries m) (md_dead m) (md_rooms m) (md_members m) (md_attachments m) x.

(** The errors the send paths throw; [ForeignKey] is SQLite's. *)
Inductive SendErr :=
  | TooManyAttachments | AttachmentNotOwned | RoomNotFound | RoomMismatch
  | RecipientNotFound | UnsupportedRecipient
  | UnknownSigner (k : string) | RevokedSigner (k : string)
  | ForeignKey.

(** ** Who can receive *)

(** Live agents of a fleet, the synthetic operator left out. *)
Definition live_member (fleet : string) (a : AgentRow) : bool :=
  (ag_fleet a ==? fleet) && negb (ag_runtime a ==? "operator") && (ag_revoked_at a ==? None).

Definition live_agent_ids (d : AgentDb) (fleet : string) : list string :=
  map fst (List.filter (fun kv => live_member fleet (snd kv)) (map_to_list (ad_agents d))).

Definition broadcastRecipientIds (d : AgentDb) (fleet sender : string) : list string :=
  List.filter (fun i => negb (i ==? sender)) (live_agent_ids d fleet).

Definition isDeliverableAgent (d : AgentDb) (fleet agentId : string) : bool :=
  if agentId ==? operator_agent fleet then true
  else match ad_agents d !! agentId with Some a => live_member fleet a | None => false end.

Definition findFleetAgent (d : AgentDb) (fleet agentId : string) : option AgentRow :=
  match ad_agents d !! agentId with
  | Some a =>
      if (ag_fleet a ==? fleet) &&
         ((agentId ==? operator_agent fleet) ||
          (negb (ag_runtime a ==? "operator") && (ag_revoked_at a ==? None)))
      then Some a else None
  | None => None
  end.

Definition isRoomConversation (m : MailDb) (fleet conversationId : string) : bool :=
  match md_rooms m !! conversationId with
  | Some r => rm_fleet r ==? fleet
  | None => false
  end.

Definition is_member (m : MailDb) (room agentId : string) : bool :=
  exists_row (fun p => (fst p ==? room) && (snd p ==? agentId)) (md_members m).

(** Members of a room who are live agents (of any runtime but operator). *)
Definition roomMemberIds (d : AgentDb) (m : MailDb) (fleet conversationId sender : string)
    (requireSenderMembership : bool) : option (list string) :=
  if negb (isRoomConversation m fleet conversationId) then None
  else if requireSenderMembership && negb (is_member m conversationId sender) then None
  else Some (map snd (select (fun p => (fst p ==? conversationId) && negb (snd p ==? sender) &&
                match ad_agents d !! snd p with
                | Some a => negb (ag_runtime a ==? "operator") && (ag_revoked_at a ==? None)
                | None => false
                end) (md_members m))).

Definition canonicalDmId (fleetId agentId : string) : string := "dm-" +:+ fleetId +:+ "-" +:+ agentId.

(** ** Attachments of a message *)

Definition owned_by (m : MailDb) (fleet uploader i : string) : bool :=
  match md_attachments m !! i with
  | Some a => (at_fleet a ==? fleet) && (at_uploader_id a ==? uploader)
  | None => false
  end.

(** COUNT(DISTINCT id) of the rows that match, against the distinct ids. *)
Definition validateAttachmentOwnership (m : MailDb) (fleet uploader : string) (ids : list string) : bool :=
  let distinct : gset string := list_to_set ids in
  (size (filter (fun i => owned_by m fleet uploader i = true) distinct) =? size distinct)%nat.

Definition bind_attachment (message : string) (at_ : Z) (a : AttachmentRow) : AttachmentRow :=
  MkAttachment (at_fleet a) (at_uploader_kind a) (at_uploader_id a) (at_filename a) (at_mime a)
    (at_size_bytes a) (at_storage_path a) (at_created_at a) (Some message) (Some at_).

(** UPDATE attachments SET bound_message_id, bound_at WHERE id IN (...) *)
Definition bind_attachments (message : string) (at_ : Z) (ids : list string)
    (m : gmap string AttachmentRow) : gmap string AttachmentRow :=
  foldr (alter (bind_attachment message at_)) m ids.

(** ** Queueing *)

(** The delivery rows of a message; [dly i] is the i-th fresh delivery id. *)
Definition queued_deliveries (message : string) (at_ : Z) (dly : nat -> string)
    (recipients : list string) : list DeliveryRow :=
  imap (fun i r => MkDelivery (dly i) message r 0 at_ None None DQueued 0 None None) recipients.

(** Every delivery's recipient must be a row of [agents]. *)
Definition known_agents (d : AgentDb) (ids : list string) : bool :=
  forallb (fun i => bool_decide (is_Some (ad_agents d !! i))) ids.

(** INSERT the message and its deliveries, stamp its attachments. *)
Definition queue_message (msg : MessageRow) (dly : nat -> string) (recipients attachmentIds : list string)
    (m : MailDb) : MailDb :=
  with_attachments (bind_attachments (ms_id msg) (ms_created_at msg) attachmentIds (md_attachments m))
    (with_deliveries
       ((md_deliveries m ++ queued_deliveries (ms_id msg) (ms_created_at msg) dly recipients)%list)
       (with_messages ((md_messages m ++ [msg])%list) m)).

(** ** Sending: agents *)

Record MessageInput := MkMessageInput {
  mi_fleet : string;
  mi_sender : string;
  mi_recipient_kind : string;
  mi_recipient_id : option string;
  mi_type : string;
  mi_priority : string;
  mi_ttl : Z;
  mi_requires_approval : bool;
  mi_body : json;
  mi_metadata : option json;
  mi_conversation : string;
  mi_correlation : string
}.

(** A group message threads under its room, a reply to the operator under the
    sender's canonical DM. *)
Definition routed_conversation (i : MessageInput) : string :=
  match truthy (mi_recipient_id i) with
  | Some r =>
      if mi_recipient_kind i ==? "group" then r
      else if (mi_recipient_kind i ==? "agent") && (r ==? operator_agent (mi_fleet i))
      then canonicalDmId (mi_fleet i) (mi_sender i)
      else mi_conversation i
  | None => mi_conversation i
  end.

(** The recipients of an agent's message, or why it is refused. *)
Definition route (d : AgentDb) (m : MailDb) (i : MessageInput) (conversationId : string)
    : result SendErr (list string) :=
  match (if mi_recipient_kind i ==? "group"
         then roomMemberIds d m (mi_fleet i) conversationId (mi_sender i) true else None) with
  | Some members => Ok members
  | None =>
      throw_if mi_recipient_kind i ==? "group" with RoomNotFound ;;
      throw_if isRoomConversation m (mi_fleet i) conversationId with RoomMismatch ;;
      match (if mi_recipient_kind i ==? "agent" then truthy (mi_recipient_id i) else None) with
      | Some r => if isDeliverableAgent d (mi_fleet i) r then Ok [r] else Throw RecipientNotFound
      | None =>
          if mi_recipient_kind i ==? "broadcast"
          then Ok (broadcastRecipientIds d (mi_fleet i) (mi_sender i))
          else Throw UnsupportedRecipient
      end
  end.

Section Send.
Context (cfg : Config).

Definition createMessage (d : AgentDb) (m : MailDb) (now : Z) (messageId : string) (dly : nat -> string)
    (i : MessageInput) : result SendErr (MailDb * list Event) :=
  let attachmentIds := string_list (mi_body i) "attachments" in
  throw_if attachmentMaxPerMessage cfg <? Z.of_nat (length attachmentIds) with TooManyAttachments ;;
  throw_if negb (validateAttachmentOwnership m (mi_fleet i) (mi_sender i) attachmentIds)
    with AttachmentNotOwned ;;
  let conversationId := routed_conversation i in
  throw_if negb (known_agents d [mi_sender i]) with ForeignKey ;;
  let? recipients := route d m i conversationId in
  throw_if negb (known_agents d recipients) with ForeignKey ;;
  let msg := MkMessage messageId (mi_fleet i) conversationId (mi_correlation i) (mi_sender i)
               (mi_recipient_kind i) (mi_recipient_id i) (mi_type i) (mi_priority i)
               (mi_requires_approval i) (mi_body i) (mi_metadata i) (mi_ttl i) now
               (addSeconds now (mi_ttl i)) MQueued in
  Ok (queue_message msg dly recipients attachmentIds m,
      [recordEvent now (mi_fleet i) "message.queued" "agent" (Some (mi_sender i)) "message"
         (Some messageId) (Some conversationId)
         (JObj ([("recipient_kind", JStr (mi_recipient_kind i));
                 ("recipient_id", jopt (mi_recipient_id i)); ("message_type", JStr (mi_type i))] ++
                match string_field (mi_body i) "text" with
                | Some t => [("text", JStr t)]
                | None => []
                end ++ [("attachments", jlist attachmentIds)]))]).

(** ** Sending: the operator *)

Record OperatorSignature := MkOperatorSignature {
  os_sig : string;
  os_key_id : string;
  os_canonical : json
}.

Record OperatorMessageInput := MkOperatorMessageInput {
  oi_fleet : string;
  oi_operator : string;
  oi_recipient_id : option string;
  oi_room_id : option string;
  oi_text : string;
  oi_conversation : option string;
  oi_attachments : list string;
  oi_mentions : list string;
  oi_reply_to : option string;
  oi_signature : option OperatorSignature
}.

Definition operator_ttl : Z := 86400.

(** Where an operator message goes: conversation, recipient kind and id, type.
    [fallback] is the fresh [op-...] conversation of a broadcast. *)
Definition operator_target (m : MailDb) (fallback : string) (i : OperatorMessageInput)
    : result SendErr (string * string * option string * string) :=
  match truthy (option_map trim (oi_room_id i)) with
  | Some room =>
      if isRoomConversation m (oi_fleet i) room
      then Ok (room, "room", Some room, "direct") else Throw RoomNotFound
  | None =>
      let isBroadcast := oi_recipient_id i ==? Some "broadcast" in
      let recipientId := if isBroadcast then None else oi_recipient_id i in
      let conversationId :=
        match truthy (option_map trim (oi_conversation i)) with
        | Some passed => passed
        | None => match truthy recipientId with
                  | Some r => canonicalDmId (oi_fleet i) r
                  | None => fallback
                  end
        end in
      Ok (conversationId, if isBroadcast then "broadcast" else "agent", recipientId,
          if isBroadcast then "broadcast" else "direct")
  end.

(** The recipients of an operator message; none when it names nobody. *)
Definition operator_route (d : AgentDb) (m : MailDb) (fleet conversationId sender recipientKind : string)
    (recipientId : option string) : result SendErr (list string) :=
  match roomMemberIds d m fleet conversationId sender false with
  | Some members => Ok members
  | None =>
      match (if recipientKind ==? "agent" then truthy recipientId else None) with
      | Some r => if isDeliverableAgent d fleet r then Ok [r] else Throw RecipientNotFound
      | None =>
          Ok (if recipientKind ==? "broadcast" then broadcastRecipientIds d fleet sender else [])
      end
  end.

Definition operator_metadata (senderLabel : string) (i : OperatorMessageInput) : json :=
  JObj ([("sender_label", JStr senderLabel); ("operator_id", JStr (oi_operator i))] ++
        (if oi_mentions i ==? [] then [] else [("mentions", jlist (oi_mentions i))]) ++
        match truthy (oi_reply_to i) with
        | Some r => [("reply_to_message_id", JStr r)]
        | None => []
        end ++
        match oi_signature i with
        | Some s => [("operator_sig", JStr (os_sig s)); ("key_id", JStr (os_key_id s));
                     ("sig_canonical", os_canonical s)]
        | None => []
        end).

(** A send signed by a key the fleet does not hold live is refused before any
    write. *)
Definition check_signer (keys : KeyDb) (i : OperatorMessageInput) : option SendErr :=
  match oi_signature i with
  | None => None
  | Some s =>
      match kd_keys keys !! (oi_fleet i, os_key_id s) with
      | None => Some (UnknownSigner (os_key_id s))
      | Some row => if truthy (ok_revoked_at row) ==? None then None
                    else Some (RevokedSigner (os_key_id s))
      end
  end.

(** [ensureOperatorAgent] commits before the checks that may still throw, so
    the agents are part of both outcomes. *)
Definition createOperatorMessage (keys : KeyDb) (d : AgentDb) (m : MailDb) (now : Z)
    (messageId correlationId fallback : string) (dly : nat -> string) (i : OperatorMessageInput)
    : AgentDb * result SendErr (MailDb * string * list Event) :=
  match check_signer keys i with
  | Some e => (d, Throw e)
  | None =>
      let '(d1, senderId) := ensureOperatorAgent d now (oi_fleet i) in
      let senderLabel := operatorLabel d1 (oi_operator i) in
      (d1,
       let? target := operator_target m fallback i in
       let '(conversationId, recipientKind, recipientId, messageType) := target in
       let attachmentIds := oi_attachments i in
       throw_if attachmentMaxPerMessage cfg <? Z.of_nat (length attachmentIds) with TooManyAttachments ;;
       throw_if negb (validateAttachmentOwnership m (oi_fleet i) (oi_operator i) attachmentIds)
         with AttachmentNotOwned ;;
       let? recipients := operator_route d1 m (oi_fleet i) conversationId senderId recipientKind
                            recipientId in
       throw_if negb (known_agents d1 recipients) with ForeignKey ;;
       let body := JObj (("text", JStr (oi_text i)) ::
                         if attachmentIds ==? [] then [] else [("attachments", jlist attachmentIds)]) in
       let msg := MkMessage messageId (oi_fleet i) conversationId correlationId senderId recipientKind
                    recipientId messageType "normal" false body
                    (Some (operator_metadata senderLabel i)) operator_ttl now
                    (addSeconds now operator_ttl) MQueued in
       Ok (queue_message msg dly recipients attachmentIds m, conversationId,
           [recordEvent now (oi_fleet i) "message.queued" "operator" (Some senderId) "message"
              (Some messageId) (Some conversationId)
              (JObj [("recipient_kind", JStr recipientKind); ("recipient_id", jopt recipientId);
                     ("message_type", JStr messageType); ("sender_label", JStr senderLabel);
                     ("text", JStr (oi_text i)); ("attachments", jlist attachmentIds)])]))
  end.
End Send.
