(* ===== verification/Rooms.v ===== *)
(** * Rooms, conversations, floors and visibility

    [packages/relay/src/db.ts]: rooms and their members, the operator's resume
    of a conversation, conversation floors, and the one rule
    ([messageVisibleToSql]) that says which messages an agent may read beyond
    its own deliveries. *)

From S2P Require Import Prelude Json IsoTime JsValues Events Config OperatorKeys Agents Enrollment Messages.
Import Ascii String.
Open Scope string_scope.
Open Scope Z_scope.

(** [[...new Set(l)]]: the first occurrences, in order. *)
Fixpoint js_set_from (seen : gset string) (l : list string) : list string :=
  match l with
  | [] => []
  | x :: l' => if bool_decide (x ∈ seen) then js_set_from seen l'
               else x :: js_set_from ({[x]} ∪ seen) l'
  end.
Definition js_set (l : list string) : list string := js_set_from ∅ l.

(** INSERT OR IGNORE *)
Definition insert_ignore {A} `{EqDecision A} (x : A) (l : list A) : list A :=
  if bool_decide (x ∈ l) then l else (l ++ [x])%list.

(** ** Rooms *)

(** The creator: [true] for an agent. *)
Definition createRoom (d : AgentDb) (m : MailDb) (now : Z) (roomId fleet : string) (by_agent : bool)
    (creator name : string) (memberAgentIds : list string)
    : MailDb * list string * list Event :=
  let valid := live_agent_ids d fleet in
  let requested := (memberAgentIds ++ if by_agent then [creator] else [])%list in
  let members := List.filter (fun x => bool_decide (x ∈ valid)) (js_set requested) in
  let room := MkRoom fleet name now (if by_agent then None else Some creator)
                (if by_agent then Some creator else None) false NO_TURN_LIMIT in
  (with_members (foldl (fun l x => insert_ignore (roomId, x) l) (md_members m) members)
     (with_rooms (<[roomId := room]> (md_rooms m)) m),
   members,
   [recordEvent now fleet "room.created" (if by_agent then "agent" else "operator") (Some creator)
      "room" (Some roomId) (Some roomId) (JObj [("name", JStr name); ("members", jlist members)])]).

(** The rooms of a fleet, newest first, with the members that are not revoked, by
    display name. *)
Definition listRooms (d : AgentDb) (m : MailDb) (fleet : string)
    : list (string * RoomRow * list (string * string * AgentStatus)) :=
  let rooms := map_to_list (filter (fun kv => rm_fleet (snd kv) = fleet) (md_rooms m)) in
  map (fun kv =>
         (fst kv, snd kv,
          order_by_text (fun x => snd (fst x))
            (omap (fun p => match ad_agents d !! snd p with
                            | Some a => if ag_revoked_at a ==? None
                                        then Some (snd p, ag_display_name a, ag_status a) else None
                            | None => None
                            end)
               (select (fun p => fst p ==? fst kv) (md_members m)))))
    (reverse (order_by (fun kv => rm_created_at (snd kv)) rooms)).

Definition set_project_mode (enabled : bool) (budget : Z) (r : RoomRow) : RoomRow :=
  MkRoom (rm_fleet r) (rm_name r) (rm_created_at r) (rm_by_operator r) (rm_by_agent r) enabled budget.

Definition fleet_room (m : MailDb) (fleet roomId : string) : option RoomRow :=
  match md_rooms m !! roomId with
  | Some r => if rm_fleet r ==? fleet then Some r else None
  | None => None
  end.

(** [budget]: [None] leaves the stored budget, [Some None] is null. *)
Definition setRoomProjectMode (m : MailDb) (now : Z) (fleet roomId operatorId : string) (enabled : bool)
    (budget : option (option Z)) : MailDb * option (bool * option Z) * list Event :=
  match fleet_room m fleet roomId with
  | None => (m, None, [])
  | Some r =>
      let stored := match budget with
                    | Some b => turnBudgetIn b
                    | None => rm_project_turn_budget r
                    end in
      let out := turnBudgetOut stored in
      (with_rooms (<[roomId := set_project_mode enabled stored r]> (md_rooms m)) m,
       Some (enabled, out),
       [recordEvent now fleet "room.project_mode_changed" "operator" (Some operatorId) "room"
          (Some roomId) (Some roomId)
          (JObj [("project_mode", JBool enabled); ("project_turn_budget", jbudget out)])])
  end.

Definition deleteRoom (m : MailDb) (now : Z) (fleet roomId operatorId : string)
    : MailDb * bool * list Event :=
  match fleet_room m fleet roomId with
  | None => (m, false, [])
  | Some _ =>
      (with_members (delete_where (fun p => fst p ==? roomId) (md_members m))
         (with_rooms (delete roomId (md_rooms m)) m), true,
       [recordEvent now fleet "room.deleted" "operator" (Some operatorId) "room" (Some roomId)
          (Some roomId) (JObj [])])
  end.

(** ** Participation and visibility *)

Definition delivered_to (m : MailDb) (messageId agentId : string) : bool :=
  exists_row (fun dl => (dl_message dl ==? messageId) && (dl_recipient dl ==? agentId))
    (md_deliveries m).

Definition isConversationParticipant (m : MailDb) (fleet conversationId agentId : string) : bool :=
  (isRoomConversation m fleet conversationId && is_member m conversationId agentId) ||
  exists_row (fun x => (ms_fleet x ==? fleet) && (ms_conversation x ==? conversationId) &&
                       ((ms_sender x ==? agentId) || delivered_to m (ms_id x) agentId))
    (md_messages m).

(** The predicate of [messageVisibleToSql]. *)
Definition messageVisibleTo (m : MailDb) (agentId : string) (x : MessageRow) : bool :=
  let in_room := isRoomConversation m (ms_fleet x) (ms_conversation x) in
  (ms_sender x ==? agentId) ||
  (in_room && is_member m (ms_conversation x) agentId) ||
  (negb in_room && delivered_to m (ms_id x) agentId).

(** The newest [limit] rows in chronological order: ORDER BY created_at DESC,
    rowid DESC LIMIT n, reversed. *)
Definition newest (limit : Z) (l : list MessageRow) : list MessageRow :=
  reverse (take (Z.to_nat limit) (reverse (order_by ms_created_at l))).

Definition visible_tail (m : MailDb) (fleet conversationId agentId : string) (limit : Z)
    : list MessageRow :=
  newest (Z.max 1 limit)
    (select (fun x => (ms_fleet x ==? fleet) && (ms_conversation x ==? conversationId) &&
                      messageVisibleTo m agentId x) (md_messages m)).

(** What an agent is shown of a message. *)
Record Snapshot := MkSnapshot {
  sn_message_id : string;
  sn_sender : string;
  sn_from_operator : bool;
  sn_sender_label : string;
  sn_text : string;
  sn_created_at : Z;
  sn_operator_sig : option json;
  sn_agent_sig : option json;
  sn_key_id : option json;
  sn_sig_canonical : option json;
  sn_message_type : string;
  sn_priority : string;
  sn_attachments : list string
}.

(** [meta.k ?? null] *)
Definition meta_field (meta : option json) (k : string) : option json :=
  match meta with
  | Some (JObj kvs) => match obj_get k kvs with Some JNull | None => None | Some v => Some v end
  | _ => None
  end.

(** The sender kind is the relay's own: an agent cannot put an operator
    signature on its message, nor the operator an agent's. *)
Definition snapshotOf (d : AgentDb) (x : MessageRow) : Snapshot :=
  let info := ad_agents d !! ms_sender x in
  let from_operator := bool_decide (ag_runtime <$> info = Some "operator") in
  MkSnapshot (ms_id x) (ms_sender x) from_operator
    (if from_operator then match meta_field (ms_metadata x) "sender_label" with
                           | Some l => js_String l | None => "Operator" end
     else match info with Some a => ag_display_name a | None => ms_sender x end)
    (default "" (string_field (ms_body x) "text")) (ms_created_at x)
    (if from_operator then meta_field (ms_metadata x) "operator_sig" else None)
    (if from_operator then None else meta_field (ms_metadata x) "agent_sig")
    (meta_field (ms_metadata x) "key_id") (meta_field (ms_metadata x) "sig_canonical")
    (ms_type x) (ms_priority x) (string_list (ms_body x) "attachments").

Definition getConversationTail (d : AgentDb) (m : MailDb) (fleet conversationId agentId : string)
    (limit : Z) : list Snapshot :=
  map (snapshotOf d) (visible_tail m fleet conversationId agentId limit).

(** ** Resuming a conversation *)

Definition live_participants (d : AgentDb) (m : MailDb) (fleet conversationId : string) : list string :=
  List.filter (fun a =>
      exists_row (fun x => (ms_fleet x ==? fleet) && (ms_conversation x ==? conversationId) &&
                           ((ms_sender x ==? a) || delivered_to m (ms_id x) a)) (md_messages m))
    (live_agent_ids d fleet).

(** The text of a resume nobody worded; its first character is the triangle. *)
Definition default_nudge (triangle dash : string) : string :=
  triangle +:+ " Operator resumed this thread " +:+ dash +:+
  " fresh turn budget, continue where you left off.".

(** [None] when there is nobody to wake. *)
Definition resumeConversation (cfg : Config) (nudge_default : string) (keys : KeyDb) (d : AgentDb)
    (m : MailDb) (now : Z) (messageId correlationId fallback : string) (dly : nat -> string)
    (fleet operatorId conversationId : string) (text : option string)
    : AgentDb * result SendErr (option (MailDb * string * list Event)) :=
  let nudge := default nudge_default (truthy (option_map trim text)) in
  let resumed := recordEvent now fleet "conversation.resumed" "operator" (Some operatorId)
                   "conversation" (Some conversationId) (Some conversationId) (JObj []) in
  match fleet_room m fleet conversationId with
  | Some _ =>
      let '(d1, r) := createOperatorMessage cfg keys d m now messageId correlationId fallback dly
                        (MkOperatorMessageInput fleet operatorId None (Some conversationId) nudge None
                           [] [] None None) in
      (d1, match r with
           | Ok (m1, conv, es) => Ok (Some (m1, conv, (es ++ [resumed])%list))
           | Throw e => Throw e
           end)
  | None =>
      let participants := live_participants d m fleet conversationId in
      if participants ==? [] then (d, Ok None)
      else
        let '(d1, senderId) := ensureOperatorAgent d now fleet in
        let senderLabel := operatorLabel d1 operatorId in
        let msg := MkMessage messageId fleet conversationId correlationId senderId "broadcast" None
                     "broadcast" "normal" false (JObj [("text", JStr nudge)])
                     (Some (JObj [("sender_label", JStr senderLabel); ("operator_id", JStr operatorId);
                                  ("resumed", JBool true)]))
                     operator_ttl now (addSeconds now operator_ttl) MQueued in
        (d1, Ok (Some
          (queue_message msg dly participants [] m, conversationId,
           [recordEvent now fleet "message.queued" "operator" (Some senderId) "message" (Some messageId)
              (Some conversationId)
              (JObj [("recipient_kind", JStr "broadcast"); ("recipient_id", JNull);
                     ("message_type", JStr "broadcast"); ("sender_label", JStr senderLabel);
                     ("text", JStr nudge)]);
            resumed])))
  end.

(** ** Floors *)

Record FloorVerdict := MkFloorVerdict { fv_granted : bool; fv_holder : string; fv_expires_at : Z }.

(** SELECT ... WHERE conversation_id = ? AND fleet_id = ? *)
Definition fleet_floor (m : MailDb) (fleet conversationId : string) : option FloorRow :=
  match md_floors m !! conversationId with
  | Some f => if fr_fleet f ==? fleet then Some f else None
  | None => None
  end.

(** The upsert is on the conversation alone. *)
Definition acquireFloor (m : MailDb) (now : Z) (fleet conversationId agentId : string) (ttlSeconds : Z)
    : MailDb * FloorVerdict :=
  let expiresAt := addSeconds now (Z.max 0 ttlSeconds) in
  let grant := (with_floors (<[conversationId := MkFloor fleet agentId now expiresAt]> (md_floors m)) m,
                MkFloorVerdict true agentId expiresAt) in
  match fleet_floor m fleet conversationId with
  | None => grant
  | Some cur =>
      if (fr_expires_at cur <=? now) || (fr_holder cur ==? agentId) then grant
      else (m, MkFloorVerdict false (fr_holder cur) (fr_expires_at cur))
  end.

Definition releaseFloor (m : MailDb) (fleet conversationId agentId : string) : MailDb * bool :=
  match fleet_floor m fleet conversationId with
  | Some cur => if fr_holder cur ==? agentId
                then (with_floors (delete conversationId (md_floors m)) m, true) else (m, false)
  | None => (m, false)
  end.
