(* ===== verification/Delivery.v ===== *)
(** * The delivery state machine

    [packages/relay/src/db.ts]: what an inbox poll hands out, acknowledgements,
    the retry and expiry sweeps, dead letters, and the status a sender sees.
    A delivery is queued, delivered, acked, dead-lettered or expired. *)

From S2P Require Import Prelude Json IsoTime JsValues Events Config OperatorKeys Agents Enrollment Messages Rooms.
Import Ascii String.
Open Scope string_scope.
Open Scope Z_scope.

(** ** Row updates *)

Definition deliver (at_ : Z) (dl : DeliveryRow) : DeliveryRow :=
  MkDelivery (dl_id dl) (dl_message dl) (dl_recipient dl) (dl_attempts dl + 1) (dl_queued_at dl)
    (Some at_) (dl_acked_at dl) DDelivered (dl_retry_count dl) (dl_next_retry_at dl) (dl_failure dl).
Definition ack_delivery (received_at : string) (dl : DeliveryRow) : DeliveryRow :=
  MkDelivery (dl_id dl) (dl_message dl) (dl_recipient dl) (dl_attempts dl) (dl_queued_at dl)
    (dl_delivered_at dl) (Some received_at) DAcked (dl_retry_count dl) (dl_next_retry_at dl) (dl_failure dl).
Definition requeue (count next_ : Z) (dl : DeliveryRow) : DeliveryRow :=
  MkDelivery (dl_id dl) (dl_message dl) (dl_recipient dl) (dl_attempts dl) (dl_queued_at dl)
    None (dl_acked_at dl) DQueued count (Some next_) (Some "timeout").
Definition set_delivery_status (st : DeliveryStatus) (dl : DeliveryRow) : DeliveryRow :=
  MkDelivery (dl_id dl) (dl_message dl) (dl_recipient dl) (dl_attempts dl) (dl_queued_at dl)
    (dl_delivered_at dl) (dl_acked_at dl) st (dl_retry_count dl) (dl_next_retry_at dl) (dl_failure dl).

Definition message_by_id (m : MailDb) (i : string) : option MessageRow :=
  select_one (fun x => ms_id x ==? i) (md_messages m).

(** message_deliveries JOIN messages, on the rows that satisfy [p]. *)
Definition join_messages (m : MailDb) (p : DeliveryRow -> MessageRow -> bool)
    : list (DeliveryRow * MessageRow) :=
  omap (fun dl => match message_by_id m (dl_message dl) with
                  | Some x => if p dl x then Some (dl, x) else None
                  | None => None
                  end) (md_deliveries m).

(** LIMIT n: a negative limit is none. *)
Definition limit_rows {A} (limit : Z) (l : list A) : list A :=
  if limit <? 0 then l else take (Z.to_nat limit) l.

(** ** The inbox *)

Definition due (now : Z) (dl : DeliveryRow) : bool :=
  match dl_next_retry_at dl with None => true | Some t => t <=? now end.

(** The rows of a poll. *)
Definition pending_deliveries (m : MailDb) (now : Z) (agentId : string) (limit : Z)
    : list (DeliveryRow * MessageRow) :=
  limit_rows limit
    (order_by (fun r => dl_queued_at (fst r))
       (join_messages m (fun dl x => (dl_recipient dl ==? agentId) && (dl_status dl ==? DQueued) &&
                                     (now <? ms_expires_at x) && due now dl))).

(** UPDATE message_deliveries SET status = 'delivered', ... for every row *)
Definition mark_delivered (now : Z) (rows : list (DeliveryRow * MessageRow)) (ds : list DeliveryRow)
    : list DeliveryRow :=
  foldl (fun acc r => update_where (fun dl => dl_id dl ==? dl_id (fst r)) (deliver now) acc) ds rows.

Definition poll (m : MailDb) (now : Z) (agentId : string) (limit : Z)
    : MailDb * list (DeliveryRow * MessageRow) * list Event :=
  let rows := pending_deliveries m now agentId limit in
  (with_deliveries (mark_delivered now rows (md_deliveries m)) m, rows,
   map (fun r => recordEvent now (ms_fleet (snd r)) "message.delivered" "agent" (Some agentId) "message"
                   (Some (ms_id (snd r))) (Some (ms_conversation (snd r)))
                   (JObj [("delivery_id", JStr (dl_id (fst r)))])) rows).

(** *** The rest of the response *)

Record RosterEntry := MkRosterEntry {
  ro_agent_id : string;
  ro_display_name : string;
  ro_runtime : string;
  ro_status : AgentStatus;
  ro_quarantine_reason : option QuarantineReason;
  ro_identity_public_key : option string;
  ro_key_id : option string;
  ro_endorsed_by : option string;
  ro_endorsement_sig : option string
}.

(** One identity key per agent, an endorsed one when it has one. *)
Definition identity_keys (keys : KeyDb) (fleet : string) : gmap string (string * AgentIdentityKeyRow) :=
  foldl (fun acc kr =>
           let agent := fst (fst kr) in
           let k := (snd (fst kr), snd kr) in
           match acc !! agent with
           | None => <[agent := k]> acc
           | Some (_, old) =>
               if negb (truthy (ak_endorsed_by (snd kr)) ==? None) && (truthy (ak_endorsed_by old) ==? None)
               then <[agent := k]> acc else acc
           end) ∅ (getAgentIdentityKeys keys fleet).

(** ORDER BY last_seen_at DESC NULLS LAST, created_at DESC; times are those of
    the relay's clock, after 1970. *)
Definition roster_key (a : AgentRow) : Z := default (-1) (ag_last_seen_at a).

Definition roster (keys : KeyDb) (d : AgentDb) (fleet agentId : string) : list RosterEntry :=
  let ids := identity_keys keys fleet in
  map (fun kv =>
         let a := snd kv in
         let ik := ids !! fst kv in
         MkRosterEntry (fst kv) (ag_display_name a) (ag_runtime a) (ag_status a)
           (if ag_status a ==? Quarantined then ag_quarantine_reason a else None)
           (option_map (fun k => ak_public_key (snd k)) ik) (option_map fst ik)
           (match ik with Some k => ak_endorsed_by (snd k) | None => None end)
           (match ik with Some k => ak_endorsement_sig (snd k) | None => None end))
    (take 50 (reverse (order_by (fun kv => roster_key (snd kv))
       (order_by (fun kv => ag_created_at (snd kv))
          (List.filter (fun kv => (ag_fleet (snd kv) ==? fleet) && negb (ag_runtime (snd kv) ==? "operator") &&
                                  negb (fst kv ==? agentId)) (map_to_list (ad_agents d))))))).

Record InboxMessage := MkInboxMessage {
  im_message_id : string;
  im_conversation : string;
  im_correlation : string;
  im_sender : string;
  im_from_operator : bool;
  im_type : string;
  im_priority : string;
  im_body : json;
  im_attachments : list (string * string * string * Z);
  im_metadata : option json;
  im_mentions : list string;
  im_reply_to : option Snapshot;
  im_operator_sig : option json;
  im_agent_sig : option json;
  im_key_id : option json;
  im_sig_canonical : option json;
  im_created_at : Z;
  im_deadline_at : Z
}.

(** Metadata of an attachment of the fleet: never its bytes. *)
Definition attachment_meta (m : MailDb) (fleet i : string) : option (string * string * string * Z) :=
  match md_attachments m !! i with
  | Some a => if at_fleet a ==? fleet then Some (i, at_filename a, at_mime a, at_size_bytes a) else None
  | None => None
  end.

(** The quoted message: same conversation, visible to the poller. *)
Definition reply_snapshot (d : AgentDb) (m : MailDb) (fleet agentId : string) (x : MessageRow)
    : option Snapshot :=
  match meta_field (ms_metadata x) "reply_to_message_id" with
  | None => None
  | Some v =>
      if negb (js_truthy v) then None
      else match select_one (fun y => (ms_id y ==? js_String v) && (ms_fleet y ==? fleet) &&
                                      messageVisibleTo m agentId y) (md_messages m) with
      | Some y => if ms_conversation y ==? ms_conversation x then Some (snapshotOf d y) else None
      | None => None
      end
  end.

Definition inbox_message (d : AgentDb) (m : MailDb) (fleet agentId : string) (x : MessageRow)
    : InboxMessage :=
  let from_operator := bool_decide (ag_runtime <$> ad_agents d !! ms_sender x = Some "operator") in
  MkInboxMessage (ms_id x) (ms_conversation x) (ms_correlation x) (ms_sender x) from_operator
    (ms_type x) (ms_priority x) (ms_body x)
    (omap (attachment_meta m fleet) (string_list (ms_body x) "attachments"))
    (ms_metadata x) (match ms_metadata x with Some j => string_list j "mentions" | None => [] end)
    (reply_snapshot d m fleet agentId x)
    (if from_operator then meta_field (ms_metadata x) "operator_sig" else None)
    (if from_operator then None else meta_field (ms_metadata x) "agent_sig")
    (meta_field (ms_metadata x) "key_id") (meta_field (ms_metadata x) "sig_canonical")
    (ms_created_at x) (ms_expires_at x).

Definition HISTORY_LIMIT : Z := 15.

(** Rooms among the batch's conversations that the poller is a member of. *)
Definition batch_rooms (m : MailDb) (fleet agentId : string) (rows : list (DeliveryRow * MessageRow))
    : list (string * string) :=
  omap (fun c => match fleet_room m fleet c with
                 | Some r => if is_member m c agentId then Some (c, rm_name r) else None
                 | None => None
                 end) (js_set (map (fun r => ms_conversation (snd r)) rows)).

Definition conversation_history (d : AgentDb) (m : MailDb) (fleet agentId : string)
    (rows : list (DeliveryRow * MessageRow)) : list (string * list Snapshot) :=
  map (fun c => (fst c, map (snapshotOf d)
         (newest HISTORY_LIMIT
            (select (fun x => (ms_fleet x ==? fleet) && (ms_conversation x ==? fst c)) (md_messages m)))))
    (batch_rooms m fleet agentId rows).

(** Budgets of the project rooms the poller is in: 0 for no limit. *)
Definition conversation_budgets (m : MailDb) (fleet agentId : string) : list (string * Z) :=
  omap (fun kv => if (rm_fleet (snd kv) ==? fleet) && is_member m (fst kv) agentId && rm_project_mode (snd kv)
                  then Some (fst kv, default NO_TURN_LIMIT (turnBudgetOut (rm_project_turn_budget (snd kv))))
                  else None) (map_to_list (md_rooms m)).

Definition inbox_controls (d : AgentDb) (now : Z) (agentId : string) : list (string * ControlAction * json) :=
  map (fun c => (c_id c, c_action c, default (JStr "operator control") (meta_field (Some (c_payload c)) "reason")))
    (reverse (order_by c_created_at
       (select (fun c => (c_target c ==? agentId) && is_standing now (c_expires_at c)) (ad_controls d)))).

Record InboxResponse := MkInbox {
  ib_messages : list InboxMessage;
  ib_controls : list (string * ControlAction * json);
  ib_fleet : option string;
  ib_operator_trusted : bool;
  ib_peer_autoreply : bool;
  ib_peer_turn_budget : option Z;
  ib_conversation_budgets : list (string * Z);
  ib_roster : list RosterEntry;
  ib_history : list (string * list Snapshot);
  ib_rooms : list (string * string);
  ib_operator_keys : list AgentKeyView
}.

(** An unknown agent polls an empty, untrusted inbox. *)
Definition getInbox (keys : KeyDb) (d : AgentDb) (m : MailDb) (now : Z) (agentId : string) (limit : Z)
    : MailDb * InboxResponse * list Event :=
  let '(m1, rows, es) := poll m now agentId limit in
  let self := ad_agents d !! agentId in
  let fleet := option_map ag_fleet self in
  let in_fleet {A} (f : string -> list A) : list A := match fleet with Some fl => f fl | None => [] end in
  (m1,
   MkInbox
     (map (fun r => inbox_message d m1 (default "" fleet) agentId (snd r)) rows)
     (inbox_controls d now agentId) fleet
     (match self with Some a => ag_operator_trusted a | None => false end)
     (match self with Some a => ag_peer_autoreply a | None => false end)
     (match self with Some a => turnBudgetOut (ag_peer_turn_budget a) | None => None end)
     (in_fleet (fun fl => conversation_budgets m1 fl agentId))
     (in_fleet (fun fl => roster keys d fl agentId))
     (in_fleet (fun fl => conversation_history d m1 fl agentId rows))
     (in_fleet (fun fl => batch_rooms m1 fl agentId rows))
     (in_fleet (fun fl => operatorKeysForAgents keys fl)),
   es).

(** ** Acknowledgements *)

(** The agent's own delivery of a message, not acked yet. *)
Definition ack_hit (messageId agentId : string) (dl : DeliveryRow) : bool :=
  (dl_message dl ==? messageId) && (dl_recipient dl ==? agentId) && negb (dl_status dl ==? DAcked).

(** Is some recipient's ack still missing? *)
Definition ack_pending (messageId : string) (ds : list DeliveryRow) : bool :=
  exists_row (fun dl => (dl_message dl ==? messageId) && negb (dl_status dl ==? DAcked)) ds.

(** The delivery, then the message once every recipient has acked. *)
Definition ack_tables (m : MailDb) (agentId messageId received_at : string) : MailDb :=
  let m1 := with_deliveries
              (update_where (ack_hit messageId agentId) (ack_delivery received_at) (md_deliveries m)) m in
  if ack_pending messageId (md_deliveries m1) then m1
  else with_messages (update_where (fun x => ms_id x ==? messageId) (set_message_status MAcked)
                        (md_messages m1)) m1.

(** One ack; it is a no-op when no delivery matches. *)
Definition ack_step (now : Z) (agentId : string) (acc : MailDb * nat * list Event)
    (ack : string * string) : MailDb * nat * list Event :=
  let '(m, updated, es) := acc in
  let '(messageId, received_at) := ack in
  if (changes (ack_hit messageId agentId) (md_deliveries m) =? 0)%nat then acc
  else
    let m2 := ack_tables m agentId messageId received_at in
    (m2, S updated,
     match message_by_id m2 messageId with
     | Some x => (es ++ [recordEvent now (ms_fleet x) "message.acked" "agent" (Some agentId) "message"
                           (Some messageId) (Some (ms_conversation x))
                           (JObj [("received_at", JStr received_at)])])%list
     | None => es
     end).

Definition ackMessages (m : MailDb) (now : Z) (agentId : string) (acks : list (string * string))
    : MailDb * nat * list Event :=
  foldl (ack_step now agentId) (m, O, []) acks.

(** ** Sweeps *)

Section Sweeps.
Context (cfg : Config).

(** Dead-letter a delivery that is still delivered. *)
Definition moveToDeadLetter (m : MailDb) (now : Z) (dl_new_id : string) (row : DeliveryRow * MessageRow)
    : MailDb * list Event :=
  let '(dl, x) := row in
  let hit := fun y => (dl_id y ==? dl_id dl) && (dl_status y ==? DDelivered) in
  if (changes hit (md_deliveries m) =? 0)%nat then (m, [])
  else
    (with_messages (update_where (fun y => (ms_id y ==? ms_id x) && negb (ms_status y ==? MAcked))
                      (set_message_status MDeadLettered) (md_messages m))
       (with_dead ((md_dead m ++ [MkDeadLetter dl_new_id (ms_fleet x) (ms_id x) (dl_id dl)
                      (dl_recipient dl) (ms_sender x) (ms_conversation x) (ms_type x) (ms_body x)
                      (ms_metadata x) (dl_retry_count dl) "max_retries_exceeded" now])%list)
          (with_deliveries (update_where hit (set_delivery_status DDeadLettered) (md_deliveries m)) m)),
     [recordEvent now (ms_fleet x) "message.dead_lettered" "system" None "message" (Some (ms_id x))
        (Some (ms_conversation x))
        (JObj [("delivery_id", JStr (dl_id dl)); ("retry_count", JNum (dl_retry_count dl));
               ("dead_letter_id", JStr dl_new_id)])]).

Definition backoff (retryCount : Z) : Z :=
  let last_index := Z.of_nat (length (retryBackoffSeconds cfg)) - 1 in
  nth (Z.to_nat (Z.min (retryCount - 1) last_index)) (retryBackoffSeconds cfg) 0.

(** One timed-out delivery; [fresh] supplies the dead-letter id. *)
Definition retry_step (now : Z) (fresh : string -> string) (acc : MailDb * (nat * nat) * list Event)
    (row : DeliveryRow * MessageRow) : MailDb * (nat * nat) * list Event :=
  let '(m, (retried, dead), es) := acc in
  let '(dl, x) := row in
  let retryCount := dl_retry_count dl + 1 in
  if maxRetries cfg <? retryCount then
    let '(m1, e1) := moveToDeadLetter m now (fresh (dl_id dl)) row in
    (m1, (retried, S dead), (es ++ e1)%list)
  else
    let nextRetryAt := addSeconds now (backoff retryCount) in
    (with_deliveries (update_where (fun y => (dl_id y ==? dl_id dl) && (dl_status y ==? DDelivered))
                        (requeue retryCount nextRetryAt) (md_deliveries m)) m,
     (S retried, dead),
     (es ++ [recordEvent now (ms_fleet x) "message.retry_requeued" "system" None "message"
               (Some (ms_id x)) (Some (ms_conversation x))
               (JObj [("delivery_id", JStr (dl_id dl)); ("retry_count", JNum retryCount);
                      ("next_retry_at", JStr (to_iso nextRetryAt))])])%list).

Definition timed_out (m : MailDb) (now : Z) : list (DeliveryRow * MessageRow) :=
  let threshold := addSeconds now (- deliveryTimeoutSeconds cfg) in
  join_messages m (fun dl x => (dl_status dl ==? DDelivered) &&
                     match dl_delivered_at dl with Some t => t <? threshold | None => false end &&
                     (now <? ms_expires_at x)).

Definition sweepRetryDeliveries (m : MailDb) (now : Z) (fresh : string -> string)
    : MailDb * (nat * nat) * list Event :=
  foldl (retry_step now fresh) (m, (O, O), []) (timed_out m now).

Definition expiry_step (now : Z) (acc : MailDb * list Event) (row : DeliveryRow * MessageRow)
    : MailDb * list Event :=
  let '(m, es) := acc in
  let '(dl, x) := row in
  (with_messages (update_where (fun y => (ms_id y ==? ms_id x) && negb (ms_status y ==? MAcked) &&
                                         negb (ms_status y ==? MDeadLettered))
                    (set_message_status MExpired) (md_messages m))
     (with_deliveries (update_where (fun y => dl_id y ==? dl_id dl) (set_delivery_status DExpired)
                         (md_deliveries m)) m),
   (es ++ [recordEvent now (ms_fleet x) "message.expired" "system" None "message" (Some (ms_id x))
             (Some (ms_conversation x)) (JObj [])])%list).

Definition expired_rows (m : MailDb) (now : Z) : list (DeliveryRow * MessageRow) :=
  join_messages m (fun dl x => ((dl_status dl ==? DQueued) || (dl_status dl ==? DDelivered)) &&
                               (ms_expires_at x <=? now)).

Definition sweepExpiredMessages (m : MailDb) (now : Z) : MailDb * nat * list Event :=
  let rows := expired_rows m now in
  let '(m1, es) := foldl (expiry_step now) (m, []) rows in
  (m1, length rows, es).
End Sweeps.

(** ** What a sender sees *)

Record SentStatus := MkSentStatus {
  ss_message : MessageRow;
  ss_expired : bool;
  ss_deliveries : list (DeliveryRow * option DeadLetterRow)
}.

(** Scoped to the sender: another agent's message is as unknown as no message.  The
    deliveries come by the time they were queued and their ids, each with its dead
    letters. *)
Definition getSentMessageStatus (m : MailDb) (now : Z) (fleet sender messageId : string)
    : option SentStatus :=
  match select_one (fun x => (ms_id x ==? messageId) && (ms_fleet x ==? fleet) && (ms_sender x ==? sender))
          (md_messages m) with
  | None => None
  | Some x =>
      Some (MkSentStatus x (ms_expires_at x <=? now)
        (flat_map (fun dl => match select (fun dd => dd_delivery dd ==? dl_id dl) (md_dead m) with
                             | [] => [(dl, None)]
                             | dead => map (fun dd => (dl, Some dd)) dead
                             end)
           (order_by dl_queued_at (order_by_text dl_id
              (select (fun dl => dl_message dl ==? messageId) (md_deliveries m))))))
  end.

(** The counts of a message's deliveries by status. *)
Record DeliveryCounts := MkCounts {
  n_total : nat; n_queued : nat; n_delivered : nat; n_acked : nat; n_dead_lettered : nat
}.

Definition delivery_counts (m : MailDb) (messageId : string) : DeliveryCounts :=
  let count st := changes (fun dl => (dl_message dl ==? messageId) && (dl_status dl ==? st)) (md_deliveries m) in
  MkCounts (changes (fun dl => dl_message dl ==? messageId) (md_deliveries m))
    (count DQueued) (count DDelivered) (count DAcked) (count DDeadLettered).

(** An agent's own messages, newest first; [since] is exclusive. *)
Definition listSentMessages (m : MailDb) (fleet agentId : string) (since : option Z) (limit : Z)
    : list (MessageRow * DeliveryCounts) :=
  map (fun x => (x, delivery_counts m (ms_id x)))
    (take (Z.to_nat (Z.max 1 limit)) (reverse (order_by ms_created_at
       (select (fun x => (ms_fleet x ==? fleet) && (ms_sender x ==? agentId) &&
                         match since with Some t => t <? ms_created_at x | None => true end)
          (md_messages m))))).

Record ConversationEntry := MkConversationEntry {
  ce_conversation : string;
  ce_room_name : option string;
  ce_message_count : nat;
  ce_sent_count : nat;
  ce_last_message_at : option Z;
  ce_last_activity_at : option Z
}.

(** The conversations an agent takes part in: it sent, received or is a member. *)
Definition participated (m : MailDb) (fleet agentId : string) : list string :=
  js_set
    ((map ms_conversation (select (fun x => (ms_fleet x ==? fleet) && (ms_sender x ==? agentId)) (md_messages m)) ++
      map (fun r => ms_conversation (snd r))
        (join_messages m (fun dl x => (dl_recipient dl ==? agentId) && (ms_fleet x ==? fleet))) ++
      omap (fun p => if (snd p ==? agentId) && isRoomConversation m fleet (fst p)
                     then Some (fst p) else None) (md_members m))%list).

Definition conversation_entry (m : MailDb) (fleet agentId c : string) : ConversationEntry :=
  let here := select (fun x => (ms_fleet x ==? fleet) && (ms_conversation x ==? c)) (md_messages m) in
  let last_at := option_map ms_created_at (latest_by ms_created_at here) in
  let room := fleet_room m fleet c in
  MkConversationEntry c (option_map rm_name room) (length here)
    (changes (fun x => ms_sender x ==? agentId) here) last_at
    (match last_at with Some t => Some t | None => option_map rm_created_at room end).

Definition listAgentConversations (m : MailDb) (fleet agentId : string) (limit : Z)
    : list ConversationEntry :=
  take (Z.to_nat (Z.max 1 limit))
    (reverse (order_by (fun e => default (-1) (ce_last_activity_at e))
       (map (conversation_entry m fleet agentId) (participated m fleet agentId)))).
