(* ===== verification/DeliverySafety.v ===== *)
(** * Safety of delivery

    How each operation of [Delivery] moves delivery rows, the invariant of the
    mail tables, and the theorems about polling, acknowledging and retrying. *)

From S2P Require Import Prelude Json IsoTime JsValues Events Config OperatorKeys Agents Enrollment Messages Rooms Delivery.
Import Ascii String.
Open Scope string_scope.
Open Scope Z_scope.

(** ** Joins *)

Lemma elem_of_join m p dl x :
  (dl, x) ∈ join_messages m p <->
  dl ∈ md_deliveries m /\ message_by_id m (dl_message dl) = Some x /\ p dl x = true.
Proof.
  unfold join_messages. rewrite list_elem_of_omap. split.
  - intros (dl' & Hin & Hj). destruct (message_by_id m (dl_message dl')) as [x'|] eqn:Hx; [|done].
    destruct (p dl' x') eqn:Hp; [|done]. by simplify_eq.
  - intros (Hin & Hx & Hp). exists dl. by rewrite Hx, Hp.
Qed.

Lemma message_by_id_Some m i x : message_by_id m i = Some x -> x ∈ md_messages m /\ ms_id x = i.
Proof. intros [Hin Hp]%select_one_Some. bools. done. Qed.

(** A change of message statuses keeps the messages findable. *)
Lemma message_by_id_update m m' p st i x :
  md_messages m' = update_where p (set_message_status st) (md_messages m) ->
  message_by_id m i = Some x ->
  exists x', message_by_id m' i = Some x' /\ ms_expires_at x' = ms_expires_at x.
Proof.
  unfold message_by_id, select_one. intros ->. induction (md_messages m) as [|y l IH]; simpl; [done|].
  destruct (p y); simpl; (destruct (ms_id y ==? i); [|exact IH]); intros [= <-]; eauto.
Qed.

Lemma join_ids_sublist m p :
  sublist (map (fun r => dl_id (fst r)) (join_messages m p)) (map dl_id (md_deliveries m)).
Proof.
  unfold join_messages. induction (md_deliveries m) as [|dl ds IH]; simpl; [constructor|].
  destruct (message_by_id m (dl_message dl)) as [x|]; [|by apply sublist_cons].
  destruct (p dl x); simpl; [by apply sublist_skip|by apply sublist_cons].
Qed.

Lemma join_ids_NoDup m p :
  NoDup (map dl_id (md_deliveries m)) -> NoDup (map (fun r => dl_id (fst r)) (join_messages m p)).
Proof. intros Hnd. eapply sublist_NoDup; [exact Hnd|apply join_ids_sublist]. Qed.

(** ** Polling *)

Lemma limit_rows_sublist {A} limit (l : list A) : sublist (limit_rows limit l) l.
Proof. unfold limit_rows. destruct (limit <? 0); [done|apply sublist_take]. Qed.

Lemma elem_of_limit_rows {A} limit (l : list A) x : x ∈ limit_rows limit l -> x ∈ l.
Proof.
  unfold limit_rows. destruct (limit <? 0); [done|].
  rewrite elem_of_take. intros (i & Hi & _). by eapply list_elem_of_lookup_2.
Qed.

Lemma pending_spec m now agentId limit dl x :
  (dl, x) ∈ pending_deliveries m now agentId limit ->
  dl ∈ md_deliveries m /\ message_by_id m (dl_message dl) = Some x /\
  dl_recipient dl = agentId /\ dl_status dl = DQueued /\ now < ms_expires_at x /\ due now dl = true.
Proof.
  unfold pending_deliveries. intros Hin%elem_of_limit_rows. rewrite elem_of_order_by in Hin.
  apply elem_of_join in Hin as (Hd & Hx & Hp). bools. by split_and!.
Qed.

Lemma pending_ids_NoDup m now agentId limit :
  NoDup (map dl_id (md_deliveries m)) ->
  NoDup (map (fun r => dl_id (fst r)) (pending_deliveries m now agentId limit)).
Proof.
  intros Hnd. unfold pending_deliveries.
  eapply sublist_NoDup; [|apply fmap_sublist, limit_rows_sublist].
  eapply NoDup_Permutation_proper; [apply fmap_Permutation, order_by_perm|].
  by apply join_ids_NoDup.
Qed.

Definition row_ids (rows : list (DeliveryRow * MessageRow)) : list string :=
  map (fun r => dl_id (fst r)) rows.

(** The loop of the poll updates exactly the rows it selected, each once. *)
Lemma mark_delivered_eq now rows ds :
  NoDup (row_ids rows) ->
  mark_delivered now rows ds = update_where (fun dl => bool_decide (dl_id dl ∈ row_ids rows)) (deliver now) ds.
Proof.
  unfold mark_delivered. revert ds. induction rows as [|r rows IH]; simpl; intros ds.
  - intros _. symmetry. apply update_where_none. done.
  - intros [Hr Hnd]%NoDup_cons. rewrite IH by done. rewrite update_where_compose.
    + apply update_where_ext. intros dl _. apply eq_true_iff_eq.
      rewrite orb_true_iff, !bool_decide_eq_true, elem_of_cons. done.
    + intros dl Hdl. bools. simpl. rewrite Hdl. by apply bool_decide_eq_false.
    + intros dl Hdl. bools. rewrite Hdl. by apply bool_decide_eq_false.
Qed.

(** ** The invariant *)

(** A delivery row: how often it was handed out, and what it carries in each
    status. *)
Definition delivery_ok (cfg : Config) (dl : DeliveryRow) : Prop :=
  0 <= dl_retry_count dl <= maxRetries cfg /\
  dl_retry_count dl <= dl_attempts dl <= dl_retry_count dl + 1 /\
  (dl_status dl = DAcked <-> dl_acked_at dl <> None) /\
  match dl_status dl with
  | DQueued => dl_attempts dl = dl_retry_count dl /\ dl_delivered_at dl = None
  | DDelivered => dl_attempts dl = dl_retry_count dl + 1 /\ dl_delivered_at dl <> None
  | DDeadLettered => dl_attempts dl = dl_retry_count dl + 1 /\ dl_retry_count dl = maxRetries cfg
  | DAcked | DExpired => True
  end.

(** A message is acked exactly when it has recipients and all of them acked. *)
Definition acked_ok (m : MailDb) : Prop :=
  forall x, x ∈ md_messages m ->
    (ms_status x = MAcked <->
     (exists dl, dl ∈ md_deliveries m /\ dl_message dl = ms_id x) /\
     (forall dl, dl ∈ md_deliveries m -> dl_message dl = ms_id x -> dl_status dl = DAcked)).

Record mail_ok (cfg : Config) (m : MailDb) : Prop := {
  mo_delivery_ids : NoDup (map dl_id (md_deliveries m));
  mo_message_ids : NoDup (map ms_id (md_messages m));
  mo_rows : forall dl, dl ∈ md_deliveries m -> delivery_ok cfg dl;
  mo_known : forall dl, dl ∈ md_deliveries m -> dl_message dl ∈ map ms_id (md_messages m);
  mo_acked : acked_ok m
}.

(** The parts of the tables [acked_ok] looks at. *)
Definition ack_view (ds : list DeliveryRow) : list (string * bool) :=
  map (fun dl => (dl_message dl, dl_status dl ==? DAcked)) ds.
Definition done_view (ms : list MessageRow) : list (string * bool) :=
  map (fun x => (ms_id x, ms_status x ==? MAcked)) ms.

Lemma elem_of_ack_view ds i b :
  (i, b) ∈ ack_view ds <-> exists dl, dl ∈ ds /\ dl_message dl = i /\ (dl_status dl ==? DAcked) = b.
Proof.
  unfold ack_view. rewrite list_elem_of_In, in_map_iff. setoid_rewrite <- list_elem_of_In.
  naive_solver.
Qed.

Lemma elem_of_done_view ms i b :
  (i, b) ∈ done_view ms <-> exists x, x ∈ ms /\ ms_id x = i /\ (ms_status x ==? MAcked) = b.
Proof.
  unfold done_view. rewrite list_elem_of_In, in_map_iff. setoid_rewrite <- list_elem_of_In.
  naive_solver.
Qed.

Lemma acked_ok_view m :
  acked_ok m <->
  forall i b, (i, b) ∈ done_view (md_messages m) ->
    (b = true <-> (exists c, (i, c) ∈ ack_view (md_deliveries m)) /\
                  (forall c, (i, c) ∈ ack_view (md_deliveries m) -> c = true)).
Proof.
  unfold acked_ok. setoid_rewrite elem_of_done_view. setoid_rewrite elem_of_ack_view.
  split.
  - intros Ha i b (x & Hx & <- & <-). rewrite bool_decide_eq_true, (Ha x Hx).
    split; (intros [(dl & Hdl) Hall]; split).
    + destruct Hdl as [Hdl Hm]. by eexists _, dl.
    + intros c (dl' & Hdl' & Hm' & <-). apply bool_decide_eq_true_2. auto.
    + destruct Hdl as (dl' & Hdl' & Hm' & _). eauto.
    + intros dl' Hdl' Hm'. specialize (Hall (dl_status dl' ==? DAcked)).
      apply (bool_decide_eq_true_1 _), Hall. eauto.
  - intros Ha x Hx. specialize (Ha (ms_id x) (ms_status x ==? MAcked) ltac:(eauto)).
    rewrite bool_decide_eq_true in Ha. rewrite Ha.
    split; (intros [(dl & Hdl) Hall]; split).
    + destruct Hdl as (dl' & Hdl' & Hm' & _). eauto.
    + intros dl' Hdl' Hm'. specialize (Hall (dl_status dl' ==? DAcked)).
      apply (bool_decide_eq_true_1 _), Hall. eauto.
    + destruct Hdl as [Hdl Hm]. by eexists _, dl.
    + intros c (dl' & Hdl' & Hm' & <-). apply bool_decide_eq_true_2. auto.
Qed.

Lemma acked_ok_same_views m m' :
  ack_view (md_deliveries m') = ack_view (md_deliveries m) ->
  done_view (md_messages m') = done_view (md_messages m) ->
  acked_ok m -> acked_ok m'.
Proof. rewrite !acked_ok_view. by intros -> ->. Qed.

(** A change of deliveries and message statuses that acks nothing. *)
Lemma mail_ok_update cfg m m' p f q st :
  md_deliveries m' = update_where p f (md_deliveries m) ->
  md_messages m' = update_where q (set_message_status st) (md_messages m) ->
  (forall dl, dl ∈ md_deliveries m -> p dl = true ->
     dl_id (f dl) = dl_id dl /\ dl_message (f dl) = dl_message dl /\
     dl_status dl <> DAcked /\ dl_status (f dl) <> DAcked /\ delivery_ok cfg (f dl)) ->
  (forall x, q x = true -> ms_status x <> MAcked /\ st <> MAcked) ->
  mail_ok cfg m -> mail_ok cfg m'.
Proof.
  intros Hds Hms Hf Hq [Hdi Hmi Hrows Hknown Hacked].
  assert (Hids : map ms_id (md_messages m') = map ms_id (md_messages m)).
  { rewrite Hms. by apply map_update_where. }
  split.
  - rewrite Hds, map_update_where_in; [done|]. intros dl Hin Hp. by apply Hf.
  - by rewrite Hids.
  - rewrite Hds. intros dl' (dl & Hin & ->)%elem_of_update_where.
    destruct (p dl) eqn:Hp; [by apply Hf|auto].
  - rewrite Hids, Hds. intros dl' (dl & Hin & ->)%elem_of_update_where.
    destruct (p dl) eqn:Hp; [|auto]. destruct (Hf dl Hin Hp) as (_ & -> & _). auto.
  - apply (acked_ok_same_views m); [| |done].
    + rewrite Hds. apply map_update_where_in. intros dl Hin Hp.
      destruct (Hf dl Hin Hp) as (_ & -> & H1 & H2 & _).
      by rewrite !(bool_decide_false (_ = DAcked)).
    + rewrite Hms. apply map_update_where. intros x Hx. simpl.
      destruct (Hq x Hx). by rewrite !(bool_decide_false (_ = MAcked)).
Qed.

(** The same, with the messages left alone. *)
Lemma mail_ok_update_deliveries cfg m p f :
  (forall dl, dl ∈ md_deliveries m -> p dl = true ->
     dl_id (f dl) = dl_id dl /\ dl_message (f dl) = dl_message dl /\
     dl_status dl <> DAcked /\ dl_status (f dl) <> DAcked /\ delivery_ok cfg (f dl)) ->
  mail_ok cfg m -> mail_ok cfg (with_deliveries (update_where p f (md_deliveries m)) m).
Proof.
  intros Hf. eapply (mail_ok_update cfg m _ p f (fun _ => false) MQueued); [done| |done|done].
  simpl. symmetry. by apply update_where_none.
Qed.

(** ** Every operation keeps the invariant *)

(** The invariant of a rewritten row, from that of the old one. *)
Ltac row_ok := unfold delivery_ok in *; simpl in *; split_and?; try done; try lia; naive_solver.

(** A selected row is the row of its id. *)
Lemma row_of_id m rows dl :
  NoDup (map dl_id (md_deliveries m)) ->
  (forall r, r ∈ rows -> fst r ∈ md_deliveries m) ->
  dl ∈ md_deliveries m -> dl_id dl ∈ row_ids rows -> exists x, (dl, x) ∈ rows.
Proof.
  intros Hnd Hrows Hdl Hid. unfold row_ids in Hid.
  apply list_elem_of_In, in_map_iff in Hid as ([dl' x] & Heq & Hin%list_elem_of_In).
  exists x. simpl in Heq. specialize (Hrows _ Hin). simpl in Hrows.
  by rewrite (NoDup_map_inj dl_id _ dl dl' Hnd Hdl Hrows (eq_sym Heq)).
Qed.

Lemma poll_ok cfg m now agentId limit :
  mail_ok cfg m -> mail_ok cfg (fst (fst (poll m now agentId limit))).
Proof.
  intros Hok. unfold poll. cbn [fst].
  rewrite mark_delivered_eq by apply pending_ids_NoDup, Hok.
  apply mail_ok_update_deliveries; [|done]. intros dl Hdl Hid. bools.
  apply (row_of_id m) in Hid as [x Hx]; [|apply Hok| |done].
  2: { intros [dl' x'] Hin. by apply pending_spec in Hin as (? & _). }
  apply pending_spec in Hx as (_ & _ & _ & Hst & _).
  destruct (mo_rows _ _ Hok dl Hdl) as (Hr & Ha & Hack & Hst'). rewrite Hst in *.
  destruct Hst' as [Hatt Hdel]. row_ok.
Qed.

(** A row update keyed by a unique id touches that row only. *)
Lemma hit_row m dl0 dl :
  NoDup (map dl_id (md_deliveries m)) -> dl0 ∈ md_deliveries m -> dl ∈ md_deliveries m ->
  dl_id dl = dl_id dl0 -> dl = dl0.
Proof. intros Hnd H0 H1 He. by eapply NoDup_map_inj. Qed.

(** Rows selected from the table, by id once each. *)
Definition selection (m : MailDb) (rows : list (DeliveryRow * MessageRow)) : Prop :=
  NoDup (row_ids rows) /\ forall r, r ∈ rows -> fst r ∈ md_deliveries m.

Lemma selection_join m p :
  NoDup (map dl_id (md_deliveries m)) -> selection m (join_messages m p).
Proof.
  intros Hnd. split; [by apply join_ids_NoDup|]. intros [dl x] Hin.
  by apply elem_of_join in Hin as [? _].
Qed.

(** A loop over selected rows whose body keeps an invariant and the rows of
    other ids keeps the invariant. *)
Lemma foldl_selection {B} (db : B -> MailDb) (step : B -> DeliveryRow * MessageRow -> B)
    (P : MailDb -> Prop) (Q : DeliveryRow * MessageRow -> Prop) rows acc :
  (forall b r, Q r -> P (db b) -> fst r ∈ md_deliveries (db b) ->
     P (db (step b r)) /\
     forall dl, dl ∈ md_deliveries (db b) -> dl_id dl <> dl_id (fst r) ->
       dl ∈ md_deliveries (db (step b r))) ->
  (forall r, r ∈ rows -> Q r) ->
  P (db acc) -> selection (db acc) rows -> P (db (foldl step acc rows)).
Proof.
  intros Hstep. revert acc. induction rows as [|r rows IH]; intros acc HQ HP [Hnd Hin]; [done|].
  apply NoDup_cons in Hnd as [Hr Hnd].
  destruct (Hstep acc r (HQ r ltac:(by left)) HP (Hin r ltac:(by left))) as [HP' Hkeep].
  simpl. apply IH; [intros r' Hr'; apply HQ; by right|done|]. split; [done|].
  intros r' Hr'. apply Hkeep; [apply Hin; by right|]. intros Heq. apply Hr. rewrite <- Heq.
  apply list_elem_of_In, in_map_iff. exists r'. by rewrite <- list_elem_of_In.
Qed.

Lemma keep_other_rows {R} (p : R -> bool) f ds dl :
  dl ∈ ds -> p dl = false -> dl ∈ update_where p f ds.
Proof. intros Hin Hp. apply elem_of_update_where. exists dl. by rewrite Hp. Qed.

(** The facts of a timed-out or expired row that stay true while the loop runs. *)
Definition row_delivered (r : DeliveryRow * MessageRow) : Prop := dl_status (fst r) = DDelivered.
Definition row_open (r : DeliveryRow * MessageRow) : Prop :=
  dl_status (fst r) = DQueued \/ dl_status (fst r) = DDelivered.

Lemma retry_step_ok cfg now fresh acc r :
  row_delivered r -> mail_ok cfg (fst (fst acc)) -> fst r ∈ md_deliveries (fst (fst acc)) ->
  mail_ok cfg (fst (fst (retry_step cfg now fresh acc r))) /\
  forall dl, dl ∈ md_deliveries (fst (fst acc)) -> dl_id dl <> dl_id (fst r) ->
    dl ∈ md_deliveries (fst (fst (retry_step cfg now fresh acc r))).
Proof.
  destruct acc as [[m [retried dead]] es], r as [dl0 x]. unfold row_delivered. simpl.
  intros Hst Hok Hin. pose proof (mo_delivery_ids _ _ Hok) as Hnd.
  destruct (mo_rows _ _ Hok dl0 Hin) as (Hr & Ha & Hack & Hrest). rewrite Hst in *.
  destruct Hrest as [Hatt Hdel].
  destruct (maxRetries cfg <? dl_retry_count dl0 + 1) eqn:Hmax; bools.
  - unfold moveToDeadLetter. destruct (_ =? 0)%nat; simpl; [done|]. split.
    + eapply (mail_ok_update cfg m); [reflexivity|reflexivity| | |done].
      * intros dl Hdl Hhit. bools. rewrite (hit_row m dl0 dl), Hst by done. row_ok.
      * intros y Hy. bools. done.
    + intros dl Hdl Hne. apply keep_other_rows; [done|]. by rewrite bool_decide_false.
  - simpl. split.
    + apply mail_ok_update_deliveries; [|done]. intros dl Hdl Hhit. bools.
      rewrite (hit_row m dl0 dl), Hst by done. row_ok.
    + intros dl Hdl Hne. apply keep_other_rows; [done|]. by rewrite bool_decide_false.
Qed.

Lemma sweepRetryDeliveries_ok cfg m now fresh :
  mail_ok cfg m -> mail_ok cfg (fst (fst (sweepRetryDeliveries cfg m now fresh))).
Proof.
  intros Hok. unfold sweepRetryDeliveries.
  apply (foldl_selection (fun a => fst (fst a)) (retry_step cfg now fresh) (mail_ok cfg) row_delivered).
  - intros b r. apply retry_step_ok.
  - intros [dl x] Hin. apply elem_of_join in Hin as (_ & _ & Hp). by bools.
  - done.
  - apply selection_join, Hok.
Qed.

Lemma expiry_step_ok cfg now acc r :
  row_open r -> mail_ok cfg (fst acc) -> fst r ∈ md_deliveries (fst acc) ->
  mail_ok cfg (fst (expiry_step now acc r)) /\
  forall dl, dl ∈ md_deliveries (fst acc) -> dl_id dl <> dl_id (fst r) ->
    dl ∈ md_deliveries (fst (expiry_step now acc r)).
Proof.
  destruct acc as [m es], r as [dl0 x]. unfold row_open. simpl. intros Hst Hok Hin.
  pose proof (mo_delivery_ids _ _ Hok) as Hnd. split.
  - eapply (mail_ok_update cfg m); [reflexivity|reflexivity| | |done].
    + intros dl Hdl Hhit. bools. rewrite (hit_row m dl0 dl) by done.
      destruct (mo_rows _ _ Hok dl0 Hin) as (Hr & Ha & Hack & Hrest). destruct Hst as [Hst|Hst]; rewrite Hst in *; row_ok.
    + intros y Hy. bools. done.
  - intros dl Hdl Hne. apply keep_other_rows; [done|]. by rewrite bool_decide_false.
Qed.

Lemma sweepExpiredMessages_ok cfg m now :
  mail_ok cfg m -> mail_ok cfg (fst (fst (sweepExpiredMessages m now))).
Proof.
  intros Hok. unfold sweepExpiredMessages.
  destruct (foldl (expiry_step now) (m, []) (expired_rows m now)) as [m1 es] eqn:E. simpl.
  replace m1 with (fst (foldl (expiry_step now) (m, []) (expired_rows m now))) by by rewrite E.
  apply (foldl_selection fst (expiry_step now) (mail_ok cfg) row_open).
  - intros b r. apply expiry_step_ok.
  - intros [dl x] Hin. apply elem_of_join in Hin as (_ & _ & Hp). simpl in Hp.
    apply andb_true_iff in Hp as [Hp _]. apply orb_true_iff in Hp as [Hp|Hp]; bools; [by left|by right].
  - done.
  - apply selection_join, Hok.
Qed.

(** The message of an ack is acked exactly when its last recipient has. *)
Lemma ack_acked_ok m i agentId received_at :
  changes (ack_hit i agentId) (md_deliveries m) <> 0%nat ->
  acked_ok m -> acked_ok (ack_tables m agentId i received_at).
Proof.
  intros Hchg Hok. unfold ack_tables. set (hit := ack_hit i agentId) in *.
  set (m1 := with_deliveries _ m).
  set (pending := ack_pending i (md_deliveries m1)).
  assert (Hhit : exists dl0, dl0 ∈ md_deliveries m /\ hit dl0 = true) by (apply changes_pos; lia).
  destruct Hhit as (dl0 & Hdl0 & Hhit0).
  assert (Hother : forall j, j <> i -> forall dl, dl_message dl = j ->
            dl ∈ md_deliveries m1 <-> dl ∈ md_deliveries m).
  { intros j Hj dl Hdl. unfold m1. simpl. rewrite elem_of_update_where. split.
    - intros (r & Hr & ->). destruct (hit r) eqn:E; [|done]. unfold hit, ack_hit in E. bools. simpl in Hdl. congruence.
    - intros Hin. exists dl. split; [done|]. unfold hit, ack_hit. by rewrite bool_decide_false by congruence. }
  assert (Hacked0 : ack_delivery received_at dl0 ∈ md_deliveries m1).
  { unfold m1. simpl. apply elem_of_update_where. exists dl0. by rewrite Hhit0. }
  unfold hit, ack_hit in Hhit0. bools.
  assert (Hmsgs : forall x, ms_id x <> i ->
    (x ∈ md_messages (if pending then m1 else with_messages (update_where (fun x => ms_id x ==? i)
       (set_message_status MAcked) (md_messages m1)) m1) <-> x ∈ md_messages m)).
  { intros x Hx. destruct pending; [done|]. simpl. rewrite elem_of_update_where. split.
    - intros (r & Hr & ->). case_bool_decide; [|done]. simpl in Hx. congruence.
    - intros Hin. exists x. by rewrite bool_decide_false. }
  assert (Hds : md_deliveries (if pending then m1 else with_messages (update_where (fun x => ms_id x ==? i)
       (set_message_status MAcked) (md_messages m1)) m1) = md_deliveries m1) by by destruct pending.
  intros x Hx. rewrite Hds. destruct (decide (ms_id x = i)) as [Hi|Hi].
  - (* the acked message *)
    destruct pending eqn:Hp.
    + apply exists_row_true in Hp as (dl & Hdl & Hp'). bools.
      assert (Hold : ms_status x <> MAcked).
      { intros Hst. simpl in Hx. apply (Hok x Hx) in Hst as [_ Hall].
        assert (dl_status dl0 = DAcked) by (apply Hall; [done|congruence]). done. }
      split; [done|]. intros [_ Hall]. assert (dl_status dl = DAcked) by (apply Hall; [done|congruence]). done.
    + pose proof (proj1 (exists_row_false _ _) Hp) as Hall. clear Hp. split.
      * intros _. split; [exists (ack_delivery received_at dl0); split; [done|simpl; congruence]|].
        intros dl Hdl Hm. specialize (Hall dl Hdl). cbv beta in Hall.
        apply andb_false_iff in Hall as [Hall|Hall]; bools; congruence.
      * intros _. simpl in Hx. apply elem_of_update_where in Hx as (r & Hr & ->).
        case_bool_decide; [done|]. done.
  - apply Hmsgs in Hx; [|done]. rewrite (Hok x Hx). split; (intros [(dl & Hdl & Hm) Hall]; split).
    + exists dl. by rewrite (Hother _ Hi).
    + intros dl' Hdl' Hm'. rewrite (Hother _ Hi) in Hdl' by done. auto.
    + exists dl. by rewrite (Hother _ Hi) in Hdl.
    + intros dl' Hdl' Hm'. apply Hall; [by rewrite (Hother _ Hi)|done].
Qed.

(** Acknowledging a delivery of the message [i]: it is acked, every other
    message is as it was. *)
Lemma ack_tables_ok cfg m agentId i received_at :
  changes (ack_hit i agentId) (md_deliveries m) <> 0%nat ->
  mail_ok cfg m -> mail_ok cfg (ack_tables m agentId i received_at).
Proof.
  intros Hchg [Hdi Hmi Hrows Hknown Hacked].
  pose proof (ack_acked_ok m i agentId received_at Hchg Hacked) as Hack.
  assert (Hds : md_deliveries (ack_tables m agentId i received_at) =
                update_where (ack_hit i agentId) (ack_delivery received_at) (md_deliveries m)).
  { unfold ack_tables. by destruct (ack_pending _ _). }
  assert (Hids : map ms_id (md_messages (ack_tables m agentId i received_at)) = map ms_id (md_messages m)).
  { unfold ack_tables. destruct (ack_pending _ _); [done|]. simpl. by apply map_update_where. }
  split; rewrite ?Hids, ?Hds; [|done| | |done].
  - by rewrite map_update_where.
  - intros dl' (dl & Hin & ->)%elem_of_update_where. specialize (Hrows dl Hin).
    destruct (ack_hit i agentId dl); [|done]. row_ok.
  - intros dl' (dl & Hin & ->)%elem_of_update_where. specialize (Hknown dl Hin).
    by destruct (ack_hit i agentId dl).
Qed.

Lemma ack_step_ok cfg now agentId acc a :
  mail_ok cfg (fst (fst acc)) -> mail_ok cfg (fst (fst (ack_step now agentId acc a))).
Proof.
  destruct acc as [[m updated] es], a as [i received_at]. simpl. intros Hok.
  destruct (_ =? 0)%nat eqn:Hchg; [done|]. simpl.
  apply ack_tables_ok; [by apply Nat.eqb_neq|done].
Qed.

Lemma ackMessages_ok cfg m now agentId acks :
  mail_ok cfg m -> mail_ok cfg (fst (fst (ackMessages m now agentId acks))).
Proof.
  intros Hok. unfold ackMessages.
  assert (Hall : forall acc, mail_ok cfg (fst (fst acc)) ->
    mail_ok cfg (fst (fst (foldl (ack_step now agentId) acc acks)))).
  { induction acks as [|a acks IH]; intros acc Hacc; [done|]. by apply IH, ack_step_ok. }
  by apply Hall.
Qed.

(** ** Sending *)

(** A send uses a fresh message id and fresh delivery ids. *)
Definition fresh_send (m : MailDb) (messageId : string) (dly : nat -> string) (n : nat) : Prop :=
  (messageId ∉ map ms_id (md_messages m)) /\ (forall i j, dly i = dly j -> i = j) /\
  (forall i, dly i ∉ map dl_id (md_deliveries m)).

Lemma elem_of_queued message at_ dly recipients dl :
  dl ∈ queued_deliveries message at_ dly recipients <->
  exists i r, recipients !! i = Some r /\
    dl = MkDelivery (dly i) message r 0 at_ None None DQueued 0 None None.
Proof.
  unfold queued_deliveries. rewrite list_elem_of_lookup. setoid_rewrite list_lookup_imap_Some.
  naive_solver.
Qed.

Lemma queued_ids_NoDup message at_ dly recipients :
  (forall i j, dly i = dly j -> i = j) ->
  NoDup (map dl_id (queued_deliveries message at_ dly recipients)).
Proof.
  intros Hinj. apply NoDup_alt. intros i j k.
  change (map ?f ?l) with (f <$> l). rewrite !list_lookup_fmap.
  unfold queued_deliveries. rewrite !list_lookup_imap.
  destruct (recipients !! i), (recipients !! j); simpl; intros [= <-] [= ?]; auto.
Qed.

Lemma queue_message_ok cfg m msg dly recipients att :
  0 <= maxRetries cfg -> ms_status msg = MQueued -> fresh_send m (ms_id msg) dly (length recipients) ->
  mail_ok cfg m -> mail_ok cfg (queue_message msg dly recipients att m).
Proof.
  intros Hmax Hst (Hmid & Hinj & Hdly) [Hdi Hmi Hrows Hknown Hacked].
  unfold queue_message. split; simpl.
  - rewrite map_app. apply NoDup_app. split_and!; [done| |by apply queued_ids_NoDup].
    intros i Hi Hq. apply list_elem_of_In, in_map_iff in Hq as (dl & <- & Hq%list_elem_of_In).
    apply elem_of_queued in Hq as (j & r & _ & ->). by apply (Hdly j).
  - rewrite map_app. apply NoDup_app. split_and!; [done| |apply NoDup_singleton].
    intros i Hi ->%list_elem_of_singleton. done.
  - intros dl [Hdl|Hdl]%elem_of_app; [auto|].
    apply elem_of_queued in Hdl as (j & r & _ & ->). row_ok.
  - intros dl [Hdl|Hdl]%elem_of_app; rewrite map_app; apply elem_of_app; [by left; auto|right].
    apply elem_of_queued in Hdl as (j & r & _ & ->). by left.
  - intros x [Hx|Hx]%elem_of_app; simpl.
    + assert (Hne : ms_id x <> ms_id msg).
      { intros He. apply Hmid. rewrite <- He. rewrite list_elem_of_In. apply in_map.
        by apply list_elem_of_In. }
      assert (Hsame : forall dl, dl_message dl = ms_id x ->
        dl ∈ (md_deliveries m ++ queued_deliveries (ms_id msg) (ms_created_at msg) dly recipients)%list <->
        dl ∈ md_deliveries m).
      { intros dl Hm. rewrite elem_of_app. split; [|by left]. intros [?|Hq]; [done|].
        apply elem_of_queued in Hq as (j & r & _ & ->). simpl in Hm. congruence. }
      rewrite (Hacked x Hx). split; (intros [(dl & Hdl & Hm) Hall]; split).
      * exists dl. by rewrite Hsame.
      * intros dl' Hdl' Hm'. rewrite Hsame in Hdl' by done. auto.
      * exists dl. by rewrite Hsame in Hdl.
      * intros dl' Hdl' Hm'. apply Hall; [by apply Hsame|done].
    + apply list_elem_of_singleton in Hx as ->. rewrite Hst. split; [done|].
      intros [(dl & Hdl & Hm) Hall]. pose proof (Hall dl Hdl Hm) as Hack.
      apply elem_of_app in Hdl as [Hdl|Hdl].
      * exfalso. apply Hmid. rewrite <- Hm. auto.
      * apply elem_of_queued in Hdl as (j & r & _ & ->). done.
Qed.

(** ** Steps of the mail tables *)

Section Steps.
Context (cfg : Config).

(** A send, as it changes the mail tables. *)
Definition sends (now : Z) (m m' : MailDb) : Prop :=
  exists msg dly recipients att,
    m' = queue_message msg dly recipients att m /\ ms_status msg = MQueued /\
    ms_created_at msg = now /\ fresh_send m (ms_id msg) dly (length recipients).

Inductive mail_step (now : Z) (m : MailDb) : MailDb -> Prop :=
  | mstep_send d mid dly i m' es :
      createMessage cfg d m now mid dly i = Ok (m', es) -> fresh_send m mid dly 0 -> mail_step now m m'
  | mstep_operator_send keys d mid cor conv dly i d' m' c es :
      createOperatorMessage cfg keys d m now mid cor conv dly i = (d', Ok (m', c, es)) ->
      fresh_send m mid dly 0 -> mail_step now m m'
  | mstep_resume nudge keys d mid cor conv dly f o c t d' m' c' es :
      resumeConversation cfg nudge keys d m now mid cor conv dly f o c t = (d', Ok (Some (m', c', es))) ->
      fresh_send m mid dly 0 -> mail_step now m m'
  | mstep_create_room d rid f b c n l :
      mail_step now m (fst (fst (createRoom d m now rid f b c n l)))
  | mstep_project_mode f rid o b bu :
      mail_step now m (fst (fst (setRoomProjectMode m now f rid o b bu)))
  | mstep_delete_room f rid o : mail_step now m (fst (fst (deleteRoom m now f rid o)))
  | mstep_acquire f c a ttl : mail_step now m (fst (acquireFloor m now f c a ttl))
  | mstep_release f c a : mail_step now m (fst (releaseFloor m f c a))
  | mstep_poll a limit : mail_step now m (fst (fst (poll m now a limit)))
  | mstep_ack a acks : mail_step now m (fst (fst (ackMessages m now a acks)))
  | mstep_retry fresh : mail_step now m (fst (fst (sweepRetryDeliveries cfg m now fresh)))
  | mstep_expire : mail_step now m (fst (fst (sweepExpiredMessages m now))).

Lemma createMessage_Ok d m now mid dly i m' es :
  createMessage cfg d m now mid dly i = Ok (m', es) ->
  exists recipients,
    route d m i (routed_conversation i) = Ok recipients /\
    known_agents d (mi_sender i :: recipients) = true /\
    validateAttachmentOwnership m (mi_fleet i) (mi_sender i) (string_list (mi_body i) "attachments") = true /\
    m' = queue_message
           (MkMessage mid (mi_fleet i) (routed_conversation i) (mi_correlation i) (mi_sender i)
              (mi_recipient_kind i) (mi_recipient_id i) (mi_type i) (mi_priority i)
              (mi_requires_approval i) (mi_body i) (mi_metadata i) (mi_ttl i) now
              (addSeconds now (mi_ttl i)) MQueued)
           dly recipients (string_list (mi_body i) "attachments") m.
Proof.
  unfold createMessage. intros Hr.
  destruct (_ <? _) eqn:? in Hr; [discriminate Hr|].
  destruct (validateAttachmentOwnership _ _ _ _) eqn:Hv in Hr; [|discriminate Hr]. cbn [negb] in Hr.
  destruct (known_agents d [_]) eqn:Hk1 in Hr; [|discriminate Hr]. cbn [negb] in Hr.
  destruct (route _ _ _ _) as [recipients|] eqn:Hrt in Hr; [|discriminate Hr].
  destruct (known_agents d recipients) eqn:Hk2 in Hr; [|discriminate Hr]. cbn [negb] in Hr.
  injection Hr as <- _. exists recipients. split_and!; [done| |done|done].
  unfold known_agents in *. simpl in *. rewrite andb_true_r in Hk1. by rewrite Hk1.
Qed.

Lemma createMessage_sends d m now mid dly i m' es :
  createMessage cfg d m now mid dly i = Ok (m', es) -> fresh_send m mid dly 0 -> sends now m m'.
Proof.
  intros (recipients & _ & _ & _ & ->)%createMessage_Ok Hf. by eexists _, dly, recipients, _.
Qed.

Lemma createOperatorMessage_Ok keys d m now mid cor conv dly i d' m' c es :
  createOperatorMessage cfg keys d m now mid cor conv dly i = (d', Ok (m', c, es)) ->
  check_signer keys i = None /\ d' = fst (ensureOperatorAgent d now (oi_fleet i)) /\
  exists msg recipients kind rid ty,
    m' = queue_message msg dly recipients (oi_attachments i) m /\
    operator_target m conv i = Ok (c, kind, rid, ty) /\
    operator_route d' m (oi_fleet i) c (operator_agent (oi_fleet i)) kind rid = Ok recipients /\
    known_agents d' recipients = true /\
    ms_id msg = mid /\ ms_fleet msg = oi_fleet i /\ ms_conversation msg = c /\
    ms_sender msg = operator_agent (oi_fleet i) /\ ms_status msg = MQueued /\ ms_created_at msg = now.
Proof.
  unfold createOperatorMessage. destruct (check_signer keys i) eqn:Hs; [by intros [=]|].
  assert (Hid : snd (ensureOperatorAgent d now (oi_fleet i)) = operator_agent (oi_fleet i)).
  { unfold ensureOperatorAgent. by destruct (ad_agents d !! _). }
  destruct (ensureOperatorAgent d now (oi_fleet i)) as [d1 sender] eqn:He. simpl in Hid. subst sender.
  intros Hr. injection Hr as <- Hr. split; [done|]. split; [done|].
  destruct (operator_target m conv i) as [[[[c' kind] rid] ty]|] eqn:Ht; [|discriminate Hr].
  destruct (_ <? _) eqn:? in Hr; [discriminate Hr|].
  destruct (negb _) eqn:? in Hr; [discriminate Hr|].
  destruct (operator_route _ _ _ _ _ _ _) as [recipients|] eqn:Hrt in Hr; [|discriminate Hr].
  destruct (known_agents d1 recipients) eqn:Hk in Hr; [|discriminate Hr]. cbn [negb] in Hr.
  injection Hr as <- <- _.
  eexists _, recipients, kind, rid, ty. split; [reflexivity|]. by split_and!.
Qed.

Lemma createOperatorMessage_sends keys d m now mid cor conv dly i d' m' c es :
  createOperatorMessage cfg keys d m now mid cor conv dly i = (d', Ok (m', c, es)) ->
  fresh_send m mid dly 0 -> sends now m m'.
Proof.
  intros (_ & _ & msg & recipients & kind & rid & ty & -> & _ & _ & _ & <- & _ & _ & _ & Hst & Hat)%createOperatorMessage_Ok Hf.
  by eexists msg, dly, recipients, _.
Qed.

Lemma resumeConversation_sends nudge keys d m now mid cor conv dly f o c t d' m' c' es :
  resumeConversation cfg nudge keys d m now mid cor conv dly f o c t = (d', Ok (Some (m', c', es))) ->
  fresh_send m mid dly 0 -> sends now m m'.
Proof.
  unfold resumeConversation. intros Hr Hf. destruct (fleet_room m f c) as [room|].
  - destruct (createOperatorMessage _ _ _ _ _ _ _ _ _ _) as [d1 [[[m1 c1] es1]|]] eqn:Hs; [|done].
    injection Hr as <- <- _ _. by eapply createOperatorMessage_sends.
  - destruct (live_participants d m f c ==? []); [done|].
    destruct (ensureOperatorAgent d now f) as [d1 sender]. injection Hr as <- <- _ _.
    by eexists _, dly, _, [].
Qed.

Lemma sends_ok now m m' : 0 <= maxRetries cfg -> sends now m m' -> mail_ok cfg m -> mail_ok cfg m'.
Proof.
  intros Hmax (msg & dly & recipients & att & -> & Hst & _ & Hf) Hok. by apply queue_message_ok.
Qed.

(** The steps that leave messages and deliveries alone. *)
Lemma mail_ok_same m m' :
  md_messages m' = md_messages m -> md_deliveries m' = md_deliveries m ->
  mail_ok cfg m -> mail_ok cfg m'.
Proof.
  intros Hm Hd [Hdi Hmi Hrows Hknown Hacked]. split; unfold acked_ok; rewrite ?Hm, ?Hd; done.
Qed.

Lemma mail_step_cases now m m' :
  mail_step now m m' ->
  sends now m m' \/ (md_messages m' = md_messages m /\ md_deliveries m' = md_deliveries m) \/
  (exists a limit, m' = fst (fst (poll m now a limit))) \/
  (exists a acks, m' = fst (fst (ackMessages m now a acks))) \/
  (exists fresh, m' = fst (fst (sweepRetryDeliveries cfg m now fresh))) \/
  m' = fst (fst (sweepExpiredMessages m now)).
Proof.
  intros Hstep. destruct Hstep.
  - left. by eapply createMessage_sends.
  - left. by eapply createOperatorMessage_sends.
  - left. by eapply resumeConversation_sends.
  - right; left. done.
  - right; left. unfold setRoomProjectMode. by destruct (fleet_room _ _ _).
  - right; left. unfold deleteRoom. by destruct (fleet_room _ _ _).
  - right; left. unfold acquireFloor. destruct (fleet_floor _ _ _); [|done]. by destruct (_ || _).
  - right; left. unfold releaseFloor. destruct (fleet_floor _ _ _); [|done]. by destruct (_ ==? _).
  - do 2 right; left. eauto.
  - do 3 right; left. eauto.
  - do 4 right; left. eauto.
  - by do 5 right.
Qed.

Lemma mail_step_ok now m m' :
  0 <= maxRetries cfg -> mail_step now m m' -> mail_ok cfg m -> mail_ok cfg m'.
Proof.
  intros Hmax Hstep Hok.
  apply mail_step_cases in Hstep as [Hs|[[Hm Hd]|[(a & l & ->)|[(a & l & ->)|[(f & ->)| ->]]]]].
  - by eapply sends_ok.
  - by eapply mail_ok_same.
  - by apply poll_ok.
  - by apply ackMessages_ok.
  - by apply sweepRetryDeliveries_ok.
  - by apply sweepExpiredMessages_ok.
Qed.

Definition empty_mail : MailDb := MkMailDb [] [] [] ∅ [] ∅ ∅.

Inductive mail_run (t0 : Z) (m0 : MailDb) : Z -> MailDb -> Prop :=
  | mrun_refl : mail_run t0 m0 t0 m0
  | mrun_step t now m m' :
      mail_run t0 m0 t m -> t <= now -> mail_step now m m' -> mail_run t0 m0 now m'.

Lemma mail_run_ok t0 m0 t m :
  0 <= maxRetries cfg -> mail_run t0 m0 t m -> mail_ok cfg m0 -> mail_ok cfg m.
Proof. intros Hmax. induction 1; [done|]. intros Hok. eapply mail_step_ok; eauto. Qed.

Lemma empty_mail_ok : mail_ok cfg empty_mail.
Proof.
  split; simpl.
  - apply NoDup_nil_2.
  - apply NoDup_nil_2.
  - by intros ? ?%elem_of_nil.
  - by intros ? ?%elem_of_nil.
  - by intros ? ?%elem_of_nil.
Qed.
End Steps.

(** ** How a step moves a delivery row *)

Section Transitions.
Context (cfg : Config).

Inductive row_trans (now : Z) (dl : DeliveryRow) : DeliveryRow -> Prop :=
  | rt_same : row_trans now dl dl
  | rt_deliver : dl_status dl = DQueued -> row_trans now dl (deliver now dl)
  | rt_ack received_at : dl_status dl <> DAcked -> row_trans now dl (ack_delivery received_at dl)
  | rt_requeue :
      dl_status dl = DDelivered -> dl_retry_count dl + 1 <= maxRetries cfg ->
      row_trans now dl
        (requeue (dl_retry_count dl + 1) (addSeconds now (backoff cfg (dl_retry_count dl + 1))) dl)
  | rt_dead_letter :
      dl_status dl = DDelivered -> maxRetries cfg < dl_retry_count dl + 1 ->
      row_trans now dl (set_delivery_status DDeadLettered dl)
  | rt_expire :
      dl_status dl = DQueued \/ dl_status dl = DDelivered ->
      row_trans now dl (set_delivery_status DExpired dl).

Lemma row_trans_id now dl dl' :
  row_trans now dl dl' ->
  dl_id dl' = dl_id dl /\ dl_message dl' = dl_message dl /\ dl_recipient dl' = dl_recipient dl.
Proof. by destruct 1. Qed.

Definition rows_move (now : Z) (m m' : MailDb) : Prop :=
  forall dl, dl ∈ md_deliveries m -> exists dl', dl' ∈ md_deliveries m' /\ row_trans now dl dl'.

Lemma poll_rows now m a limit : mail_ok cfg m -> rows_move now m (fst (fst (poll m now a limit))).
Proof.
  intros Hok dl Hdl. unfold poll. cbn [fst]. simpl.
  rewrite mark_delivered_eq by apply pending_ids_NoDup, Hok.
  eexists. split; [by apply update_where_lookup|].
  case_bool_decide as Hid; [|constructor]. apply rt_deliver.
  apply (row_of_id m) in Hid as [x Hx]; [|apply Hok| |done].
  - by apply pending_spec in Hx as (_ & _ & _ & ? & _).
  - intros [dl' x'] Hin. by apply pending_spec in Hin as (? & _).
Qed.

Lemma ack_tables_deliveries m a i r :
  md_deliveries (ack_tables m a i r) = update_where (ack_hit i a) (ack_delivery r) (md_deliveries m).
Proof. unfold ack_tables. by destruct (ack_pending _ _). Qed.

(** A row after any number of acks: itself, or acked once. *)
Lemma ack_rows now m a acks :
  rows_move now m (fst (fst (ackMessages m now a acks))).
Proof.
  assert (Hgen : forall acc dl, dl ∈ md_deliveries (fst (fst acc)) ->
    exists dl', dl' ∈ md_deliveries (fst (fst (foldl (ack_step now a) acc acks))) /\
      (dl' = dl \/ (dl_status dl <> DAcked /\ exists r, dl' = ack_delivery r dl))).
  { induction acks as [|[i r] acks IH]; intros acc dl Hdl; [by exists dl; auto|].
    simpl. destruct acc as [[m1 n] es]. simpl in *.
    destruct (_ =? 0)%nat; [by apply IH|].
    assert (Hnext : (if ack_hit i a dl then ack_delivery r dl else dl)
              ∈ md_deliveries (ack_tables m1 a i r)).
    { rewrite ack_tables_deliveries. by apply update_where_lookup. }
    match goal with |- context [foldl _ ?acc acks] =>
      destruct (IH acc _ Hnext) as (dl' & Hdl' & Hd) end.
    exists dl'. split; [exact Hdl'|]. destruct (ack_hit i a dl) eqn:Hhit; [|done].
    unfold ack_hit in Hhit. bools. right. split; [done|].
    destruct Hd as [->|[Hn _]]; [by exists r|by simpl in Hn]. }
  intros dl Hdl. destruct (Hgen (m, O, []) dl Hdl) as (dl' & Hin & Hd).
  exists dl'. split; [exact Hin|]. destruct Hd as [->|[Hn [r ->]]]; by constructor.
Qed.

(** One iteration of a sweep moves the row it is about and no other. *)
Lemma sweep_rows now m0 (step_row : DeliveryRow -> DeliveryRow) p m1 dl0 :
  mail_ok cfg m0 -> dl0 ∈ md_deliveries m0 ->
  (forall dl, p dl = true -> dl_id dl = dl_id dl0) ->
  row_trans now dl0 (step_row dl0) ->
  NoDup (map dl_id (md_deliveries m1)) -> dl0 ∈ md_deliveries m1 ->
  rows_move now m0 m1 ->
  forall m2, md_deliveries m2 = update_where p step_row (md_deliveries m1) -> rows_move now m0 m2.
Proof.
  intros Hok0 Hdl0 Hp Ht Hnd1 Hdl1 Hmove m2 Hm2 dl Hdl.
  destruct (Hmove dl Hdl) as (dl' & Hin & Htr).
  exists (if p dl' then step_row dl' else dl'). split.
  { rewrite Hm2. by apply update_where_lookup. }
  destruct (p dl') eqn:E; [|done]. apply Hp in E.
  assert (dl' = dl0) as -> by by eapply NoDup_map_inj.
  apply row_trans_id in Htr as (Hid & _).
  by rewrite (hit_row m0 dl0 dl) by (done || apply Hok0).
Qed.

Lemma rows_move_refl now m : rows_move now m m.
Proof. intros dl Hdl. exists dl. split; [done|constructor]. Qed.

Lemma retry_rows now m fresh :
  mail_ok cfg m -> rows_move now m (fst (fst (sweepRetryDeliveries cfg m now fresh))).
Proof.
  intros Hok. unfold sweepRetryDeliveries.
  apply (foldl_selection (fun a => fst (fst a)) (retry_step cfg now fresh)
           (fun m1 => mail_ok cfg m1 /\ rows_move now m m1)
           (fun r => row_delivered r /\ fst r ∈ md_deliveries m)).
  - intros b r [Hst Hin0] [Hok1 Hmove] Hin1.
    destruct (retry_step_ok cfg now fresh b r Hst Hok1 Hin1) as [Hok2 Hkeep].
    split; [split; [done|]|done]. destruct b as [[m1 [n1 n2]] es], r as [dl0 x]. simpl in *.
    destruct (maxRetries cfg <? dl_retry_count dl0 + 1) eqn:Hmax; bools.
    + unfold moveToDeadLetter. destruct (_ =? 0)%nat; [done|]. simpl.
      eapply (sweep_rows now m _ _ m1 dl0); [done|done| | |apply Hok1|done|done|reflexivity].
      * intros dl Hp. by bools.
      * by apply rt_dead_letter.
    + eapply (sweep_rows now m _ _ m1 dl0); [done|done| | |apply Hok1|done|done|reflexivity].
      * intros dl Hp. by bools.
      * by apply rt_requeue.
  - intros [dl x] Hin. apply elem_of_join in Hin as (Hd & _ & Hp). bools. done.
  - split; [done|apply rows_move_refl].
  - apply selection_join, Hok.
Qed.

Lemma expire_rows now m :
  mail_ok cfg m -> rows_move now m (fst (fst (sweepExpiredMessages m now))).
Proof.
  intros Hok. unfold sweepExpiredMessages.
  destruct (foldl (expiry_step now) (m, []) (expired_rows m now)) as [m1 es] eqn:E. simpl.
  replace m1 with (fst (foldl (expiry_step now) (m, []) (expired_rows m now))) by by rewrite E.
  apply (foldl_selection fst (expiry_step now)
           (fun m1 => mail_ok cfg m1 /\ rows_move now m m1)
           (fun r => row_open r /\ fst r ∈ md_deliveries m)).
  - intros b r [Hst Hin0] [Hok1 Hmove] Hin1.
    destruct (expiry_step_ok cfg now b r Hst Hok1 Hin1) as [Hok2 Hkeep].
    split; [split; [done|]|done]. destruct b as [m2 es'], r as [dl0 x]. simpl in *.
    eapply (sweep_rows now m _ _ m2 dl0); [done|done| | |apply Hok1|done|done|reflexivity].
    + intros dl Hp. by bools.
    + by apply rt_expire.
  - intros [dl x] Hin. apply elem_of_join in Hin as (Hd & _ & Hp).
    apply andb_true_iff in Hp as [Hp _].
    split; [apply orb_true_iff in Hp as [Hp|Hp]; bools; [by left|by right]|done].
  - split; [done|apply rows_move_refl].
  - apply selection_join, Hok.
Qed.

Lemma mail_step_rows now m m' :
  mail_ok cfg m -> mail_step cfg now m m' -> rows_move now m m'.
Proof.
  intros Hok Hstep.
  apply mail_step_cases in Hstep as [Hs|[[Hm Hd]|[(a & l & ->)|[(a & l & ->)|[(f & ->)| ->]]]]].
  - destruct Hs as (msg & dly & recipients & att & -> & _). intros dl Hdl. exists dl.
    split; [|constructor]. simpl. apply elem_of_app. by left.
  - intros dl Hdl. exists dl. rewrite Hd. split; [done|constructor].
  - by apply poll_rows.
  - apply ack_rows.
  - by apply retry_rows.
  - by apply expire_rows.
Qed.
End Transitions.

(** ** What a retry sweep leaves behind *)

Section RetryExact.
Context (cfg : Config).

(** Rows a sweep does not select stay as they are. *)
Lemma retry_fold_keeps now fresh rows acc dl :
  dl ∈ md_deliveries (fst (fst acc)) -> dl_id dl ∉ row_ids rows ->
  dl ∈ md_deliveries (fst (fst (foldl (retry_step cfg now fresh) acc rows))).
Proof.
  revert acc. induction rows as [|[dl0 x] rows IH]; intros acc Hdl Hid; [done|].
  unfold row_ids in Hid. simpl in Hid. apply not_elem_of_cons in Hid as [Hne Hid].
  simpl. apply IH; [|done]. destruct acc as [[m [n1 n2]] es]. simpl in *.
  destruct (_ <? _).
  - unfold moveToDeadLetter. destruct (_ =? 0)%nat; [done|]. simpl.
    apply keep_other_rows; [done|]. by rewrite bool_decide_false.
  - simpl. apply keep_other_rows; [done|]. by rewrite bool_decide_false.
Qed.

(** A timed-out delivery with retries left is queued again, with its backoff. *)
Lemma retry_fold_requeues now fresh rows acc dl x :
  (forall r, r ∈ rows -> fst r ∈ md_deliveries (fst (fst acc))) -> NoDup (row_ids rows) ->
  (dl, x) ∈ rows -> dl_status dl = DDelivered -> dl_retry_count dl + 1 <= maxRetries cfg ->
  requeue (dl_retry_count dl + 1) (addSeconds now (backoff cfg (dl_retry_count dl + 1))) dl
    ∈ md_deliveries (fst (fst (foldl (retry_step cfg now fresh) acc rows))).
Proof.
  revert acc. induction rows as [|[dl0 x0] rows IH]; intros acc Hin Hnd Hrow Hst Hmax.
  { by apply elem_of_nil in Hrow. }
  unfold row_ids in Hnd. simpl in Hnd. apply NoDup_cons in Hnd as [Hid Hnd].
  apply elem_of_cons in Hrow as [[= <- <-]|Hrow].
  - simpl. apply retry_fold_keeps; [|done].
    destruct acc as [[m [n1 n2]] es]. simpl in *.
    rewrite (proj2 (Z.ltb_ge _ _)) by lia. simpl. apply elem_of_update_where. exists dl.
    split; [apply (Hin (dl, x)); by left|]. by rewrite !bool_decide_true.
  - simpl. apply IH; [|done..]. intros r Hr.
    assert (Hne : dl_id (fst r) <> dl_id dl0).
    { intros Heq. apply Hid. rewrite <- Heq. apply list_elem_of_In, in_map_iff.
      exists r. by rewrite <- list_elem_of_In. }
    specialize (Hin r ltac:(by right)). destruct acc as [[m [n1 n2]] es]. simpl in *.
    destruct (_ <? _).
    + unfold moveToDeadLetter. destruct (_ =? 0)%nat; [done|]. simpl.
      apply keep_other_rows; [done|]. by rewrite bool_decide_false.
    + simpl. apply keep_other_rows; [done|]. by rewrite bool_decide_false.
Qed.

Lemma sweep_requeues m now fresh dl x t :
  mail_ok cfg m -> dl ∈ md_deliveries m -> message_by_id m (dl_message dl) = Some x ->
  dl_status dl = DDelivered -> dl_delivered_at dl = Some t -> dl_retry_count dl < maxRetries cfg ->
  t < addSeconds now (- deliveryTimeoutSeconds cfg) -> now < ms_expires_at x ->
  requeue (dl_retry_count dl + 1) (addSeconds now (backoff cfg (dl_retry_count dl + 1))) dl
    ∈ md_deliveries (fst (fst (sweepRetryDeliveries cfg m now fresh))).
Proof.
  intros Hok Hdl Hx Hst Ht Hr Hto Hexp. unfold sweepRetryDeliveries.
  apply (retry_fold_requeues now fresh _ (m, (O, O), []) dl x); [| | |done|lia].
  - intros [dl' x'] Hin. by apply elem_of_join in Hin as [? _].
  - apply join_ids_NoDup, Hok.
  - apply elem_of_join. split_and!; [done..|]. rewrite Ht, bool_decide_true by done. simpl.
    by rewrite (proj2 (Z.ltb_lt _ _) Hto), (proj2 (Z.ltb_lt _ _) Hexp).
Qed.

(** What a sweep writes about a delivery it gives up. *)
Definition gave_up (m : MailDb) (es : list Event) (now : Z) (new_id : string) (dl : DeliveryRow) (x : MessageRow) : Prop :=
  (exists dd, dd ∈ md_dead m /\ dd_id dd = new_id /\ dd_delivery dd = dl_id dl /\ dd_message dd = ms_id x /\
     dd_recipient dd = dl_recipient dl /\ dd_sender dd = ms_sender x /\ dd_body dd = ms_body x /\
     dd_reason dd = "max_retries_exceeded" /\ dd_at dd = now) /\
  exists e, e ∈ es /\ ev_type e = "message.dead_lettered" /\ ev_resource e = Some (ms_id x).

Lemma retry_fold_grows now fresh rows acc :
  let acc' := foldl (retry_step cfg now fresh) acc rows in
  (forall dd, dd ∈ md_dead (fst (fst acc)) -> dd ∈ md_dead (fst (fst acc'))) /\ (forall e, e ∈ snd acc -> e ∈ snd acc').
Proof.
  revert acc. induction rows as [|[dl0 x0] rows IH]; intros acc; [done|]. cbn [foldl].
  destruct (IH (retry_step cfg now fresh acc (dl0, x0))) as [IH1 IH2]. cbv zeta.
  destruct acc as [[m [n1 n2]] es]. split; [intros dd Hd; apply IH1|intros e He; apply IH2]; simpl in *; destruct (_ <? _);
    try (unfold moveToDeadLetter; destruct (_ =? 0)%nat); simpl; rewrite ?app_nil_r, ?elem_of_app; auto.
Qed.

(** A timed-out delivery without retries left is dead-lettered. *)
Lemma retry_fold_dead_letters now fresh rows acc dl x :
  (forall r, r ∈ rows -> fst r ∈ md_deliveries (fst (fst acc))) -> NoDup (row_ids rows) ->
  (dl, x) ∈ rows -> dl_status dl = DDelivered -> maxRetries cfg < dl_retry_count dl + 1 ->
  let acc' := foldl (retry_step cfg now fresh) acc rows in
  set_delivery_status DDeadLettered dl ∈ md_deliveries (fst (fst acc')) /\
  gave_up (fst (fst acc')) (snd acc') now (fresh (dl_id dl)) dl x.
Proof.
  revert acc. induction rows as [|[dl0 x0] rows IH]; intros acc Hin Hnd Hrow Hst Hmax; [by apply elem_of_nil in Hrow|].
  unfold row_ids in Hnd. simpl in Hnd. apply NoDup_cons in Hnd as [Hid Hnd]. cbv zeta. cbn [foldl].
  apply elem_of_cons in Hrow as [[= <- <-]|Hrow].
  - pose proof (retry_fold_grows now fresh rows (retry_step cfg now fresh acc (dl, x))) as [Hdd Hes].
    pose proof (retry_fold_keeps now fresh rows (retry_step cfg now fresh acc (dl, x)) (set_delivery_status DDeadLettered dl)) as Hk.
    specialize (Hin (dl, x) ltac:(by left)). destruct acc as [[m [n1 n2]] es]. simpl in *.
    rewrite (proj2 (Z.ltb_lt _ _)) in * by lia. unfold moveToDeadLetter in *.
    destruct (changes _ (md_deliveries m) =? 0)%nat eqn:E.
    { apply Nat.eqb_eq in E. exfalso. apply (Nat.lt_irrefl 0). rewrite <- E at 2. apply changes_pos. exists dl.
      by rewrite !bool_decide_true. }
    simpl in *. split.
    + apply Hk; [|done]. apply elem_of_update_where. exists dl. by rewrite !bool_decide_true.
    + split; [eexists; split; [apply Hdd, elem_of_app; right; by left|done]|].
      eexists. split; [apply Hes, elem_of_app; right; by left|done].
  - apply IH; [|done..]. intros r Hr.
    assert (Hne : dl_id (fst r) <> dl_id dl0).
    { intros Heq. apply Hid. rewrite <- Heq. apply list_elem_of_In, in_map_iff. exists r. by rewrite <- list_elem_of_In. }
    apply (retry_fold_keeps now fresh [(dl0, x0)] acc); [by apply Hin; right|]. unfold row_ids. simpl.
    intros Hi%list_elem_of_singleton. done.
Qed.

Lemma sweep_dead_letters m now fresh dl x t :
  mail_ok cfg m -> dl ∈ md_deliveries m -> message_by_id m (dl_message dl) = Some x ->
  dl_status dl = DDelivered -> dl_delivered_at dl = Some t -> maxRetries cfg <= dl_retry_count dl ->
  t < addSeconds now (- deliveryTimeoutSeconds cfg) -> now < ms_expires_at x ->
  let out := sweepRetryDeliveries cfg m now fresh in
  set_delivery_status DDeadLettered dl ∈ md_deliveries (fst (fst out)) /\
  gave_up (fst (fst out)) (snd out) now (fresh (dl_id dl)) dl x.
Proof.
  intros Hok Hdl Hx Hst Ht Hr Hto Hexp. unfold sweepRetryDeliveries.
  apply (retry_fold_dead_letters now fresh _ (m, (O, O), []) dl x); [| | |done|lia].
  - intros [dl' x'] Hin. by apply elem_of_join in Hin as [? _].
  - apply join_ids_NoDup, Hok.
  - apply elem_of_join. split_and!; [done..|]. rewrite Ht, bool_decide_true by done. simpl.
    by rewrite (proj2 (Z.ltb_lt _ _) Hto), (proj2 (Z.ltb_lt _ _) Hexp).
Qed.

(** A delivery whose message expired before it was acked is marked so. *)
Lemma sweep_expires m now dl x :
  mail_ok cfg m -> dl ∈ md_deliveries m -> message_by_id m (dl_message dl) = Some x ->
  dl_status dl = DQueued \/ dl_status dl = DDelivered -> ms_expires_at x <= now ->
  let '(m1, _, es) := sweepExpiredMessages m now in
  set_delivery_status DExpired dl ∈ md_deliveries m1 /\
  exists e, e ∈ es /\ ev_type e = "message.expired" /\ ev_resource e = Some (ms_id x).
Proof.
  intros Hok Hdl Hx Hst Hexp. unfold sweepExpiredMessages.
  assert (Hrow : (dl, x) ∈ expired_rows m now).
  { apply elem_of_join. split_and!; [done..|]. rewrite (proj2 (Z.leb_le _ _) Hexp), andb_true_r.
    destruct Hst as [-> | ->]; done. }
  pose proof (join_ids_NoDup m (fun dl x => ((dl_status dl ==? DQueued) || (dl_status dl ==? DDelivered)) && (ms_expires_at x <=? now))
    (mo_delivery_ids _ _ Hok)) as Hnd. change (join_messages m _) with (expired_rows m now) in Hnd.
  assert (Hkeep : forall rows acc y, y ∈ md_deliveries (fst acc) -> dl_id y ∉ row_ids rows ->
    y ∈ md_deliveries (fst (foldl (expiry_step now) acc rows))).
  { clear. induction rows as [|[dl0 x0] rows IH]; intros [m es] y Hy Hid; [done|]. unfold row_ids in Hid. simpl in Hid.
    apply not_elem_of_cons in Hid as [Hne Hid]. cbn [foldl]. apply IH; [|done]. simpl.
    apply keep_other_rows; [done|]. by rewrite bool_decide_false. }
  assert (Hlog : forall rows acc e, e ∈ snd acc -> e ∈ snd (foldl (expiry_step now) acc rows)).
  { clear. induction rows as [|[dl0 x0] rows IH]; intros [m es] e He; [done|]. cbn [foldl]. apply IH. simpl.
    apply elem_of_app. by left. }
  assert (Hgen : forall rows acc, dl ∈ md_deliveries (fst acc) -> NoDup (row_ids rows) -> (dl, x) ∈ rows ->
    let acc' := foldl (expiry_step now) acc rows in
    set_delivery_status DExpired dl ∈ md_deliveries (fst acc') /\
    exists e, e ∈ snd acc' /\ ev_type e = "message.expired" /\ ev_resource e = Some (ms_id x)).
  { induction rows as [|[dl0 x0] rows IH]; intros [m1 es] Hin Hn Hr; [by apply elem_of_nil in Hr|].
    unfold row_ids in Hn. simpl in Hn. apply NoDup_cons in Hn as [Hid Hn]. cbv zeta. cbn [foldl].
    apply elem_of_cons in Hr as [[= <- <-]|Hr].
    - split.
      + apply Hkeep; [|done]. simpl. apply elem_of_update_where. exists dl. by rewrite bool_decide_true.
      + eexists. split; [apply Hlog; simpl; apply elem_of_app; right; by left|done].
    - apply IH; [|done..]. simpl. apply keep_other_rows; [done|]. apply bool_decide_eq_false. intros Heq. apply Hid.
      rewrite <- Heq. apply list_elem_of_In, in_map_iff. exists (dl, x). by rewrite <- list_elem_of_In. }
  specialize (Hgen (expired_rows m now) (m, []) Hdl Hnd Hrow). cbv zeta in Hgen.
  by destruct (foldl (expiry_step now) (m, []) (expired_rows m now)).
Qed.

(** The messages keep their ids, texts and deadlines through a sweep. *)
Lemma retry_fold_messages now fresh rows acc i x :
  message_by_id (fst (fst acc)) i = Some x ->
  exists x', message_by_id (fst (fst (foldl (retry_step cfg now fresh) acc rows))) i = Some x' /\
             ms_expires_at x' = ms_expires_at x.
Proof.
  revert acc x. induction rows as [|[dl0 x0] rows IH]; intros acc x Hx; [by exists x|].
  simpl. assert (Hstep : exists x', message_by_id (fst (fst (retry_step cfg now fresh acc (dl0, x0)))) i = Some x' /\
                           ms_expires_at x' = ms_expires_at x).
  { destruct acc as [[m [n1 n2]] es]. simpl in *. destruct (_ <? _); [|by exists x].
    unfold moveToDeadLetter. destruct (_ =? 0)%nat; [by exists x|]. simpl.
    by eapply message_by_id_update. }
  destruct Hstep as (x' & Hx' & <-). by apply IH.
Qed.
End RetryExact.

(** ** Completeness of a poll *)

(** The rows left out by a limit come after those taken. *)
Lemma sorted_take_le {A} (key : A -> Z) (l : list A) n x y :
  StronglySorted (fun a b => key a <= key b) l ->
  x ∈ take n l -> y ∈ drop n l -> key x <= key y.
Proof.
  revert n. induction l as [|z l IH]; intros [|n] Hs Hx Hy; simpl in *; try (by apply elem_of_nil in Hx).
  apply StronglySorted_inv in Hs as [Hs Hall]. apply elem_of_cons in Hx as [->|Hx]; [|by eapply IH].
  rewrite Forall_forall in Hall. apply Hall. by eapply subseteq_drop.
Qed.

Lemma pending_complete m now a limit dl x :
  (dl, x) ∈ join_messages m (fun dl x => (dl_recipient dl ==? a) && (dl_status dl ==? DQueued) &&
                                     (now <? ms_expires_at x) && due now dl) ->
  (dl, x) ∈ pending_deliveries m now a limit \/
  (0 <= limit /\ length (pending_deliveries m now a limit) = Z.to_nat limit /\
   forall dl' x', (dl', x') ∈ pending_deliveries m now a limit -> dl_queued_at dl' <= dl_queued_at dl).
Proof.
  unfold pending_deliveries. set (l := join_messages m _). intros Hin.
  apply (elem_of_order_by (fun r => dl_queued_at (fst r))) in Hin.
  pose proof (order_by_sorted (fun r : DeliveryRow * MessageRow => dl_queued_at (fst r)) l) as Hs.
  set (s := order_by _ l) in *. unfold limit_rows. destruct (limit <? 0) eqn:Hl; [by left|]. bools.
  rewrite <- (take_drop (Z.to_nat limit) s) in Hin. apply elem_of_app in Hin as [Hin|Hin]; [by left|right].
  split; [done|]. split.
  - rewrite length_take. enough (Z.to_nat limit < length s)%nat by lia.
    destruct (Nat.lt_ge_cases (Z.to_nat limit) (length s)) as [|Hge]; [done|].
    rewrite drop_ge in Hin by done. by apply elem_of_nil in Hin.
  - intros dl' x' Hin'. exact (sorted_take_le (fun r => dl_queued_at (fst r)) s _ (dl', x') (dl, x) Hs Hin' Hin).
Qed.

(** ** Acks of other agents *)

Lemma ack_tables_foreign m a i r dl :
  dl_recipient dl <> a ->
  dl ∈ md_deliveries (ack_tables m a i r) <-> dl ∈ md_deliveries m.
Proof.
  intros Hne. rewrite ack_tables_deliveries, elem_of_update_where. split.
  - intros (dl0 & Hin & ->). destruct (ack_hit i a dl0) eqn:E; [|done].
    unfold ack_hit in E. bools. simpl in Hne. congruence.
  - intros Hin. exists dl. split; [done|]. unfold ack_hit.
    rewrite (bool_decide_false (dl_recipient dl = a)) by done. by rewrite andb_false_r.
Qed.

Lemma ack_tables_other_message m a i r x :
  ms_id x <> i -> x ∈ md_messages m -> x ∈ md_messages (ack_tables m a i r).
Proof.
  intros Hne Hin. unfold ack_tables. destruct (ack_pending _ _); [done|]. simpl.
  apply elem_of_update_where. exists x. split; [done|]. by rewrite bool_decide_false.
Qed.
