(* ===== verification/DeliveryProperties.v ===== *)
(** * Properties of delivery

    The theorems about the delivery state machine, for every reachable state of
    the mail tables. *)

From S2P Require Import Prelude Json IsoTime JsValues Events Config OperatorKeys Agents Enrollment Messages Rooms Delivery DeliverySafety.
Import Ascii String.
Open Scope string_scope.
Open Scope Z_scope.

(** ** A concrete relay: agent a1 writes to a2 *)

Definition demo_agents : AgentDb :=
  MkAgentDb (<["a1" := fresh_agent "f" "Tars" "openclaw" None 0]>
             (<["a2" := fresh_agent "f" "Case" "openclaw" None 0]> ∅)) [] [] ∅ ∅ [] ∅.

Definition demo_input : MessageInput :=
  MkMessageInput "f" "a1" "agent" (Some "a2") "direct" "normal" 86400 false
    (JObj [("text", JStr "hello")]) None "c1" "cor1".

Fixpoint tick (n : nat) : string := match n with O => "d" | S n => "d" +:+ tick n end.

Definition demo_mail1 : MailDb :=
  match createMessage default_config demo_agents empty_mail 1000 "m1" tick demo_input with
  | Ok (m, _) => m | Throw _ => empty_mail
  end.
(** a2 polls, and never acks. *)
Definition demo_mail2 : MailDb := fst (fst (poll demo_mail1 2000 "a2" 50)).
(** Two minutes later the sweep queues the delivery again. *)
Definition demo_mail3 : MailDb :=
  fst (fst (sweepRetryDeliveries default_config demo_mail2 200000 (fun i => i))).
(** a2 polls again once the backoff is over, and acks. *)
Definition demo_mail4 : MailDb := fst (fst (poll demo_mail3 300000 "a2" 50)).
Definition demo_mail5 : MailDb := fst (fst (ackMessages demo_mail4 301000 "a2" [("m1", "t")])).

Lemma tick_inj i j : tick i = tick j -> i = j.
Proof. revert j. induction i as [|i IH]; destruct j; simpl; try done; intros [= ?]; [by destruct j|by destruct i|f_equal; auto]. Qed.

Lemma demo_run1 : mail_run default_config 0 empty_mail 1000 demo_mail1.
Proof.
  eapply (mrun_step _ _ _ 0 1000 empty_mail); [constructor|lia|].
  eapply (mstep_send _ _ _ demo_agents "m1" tick demo_input demo_mail1); [vm_compute; reflexivity|].
  split_and!; [by intros ?%elem_of_nil|apply tick_inj|intros i; by intros ?%elem_of_nil].
Qed.

Lemma demo_run2 : mail_run default_config 0 empty_mail 2000 demo_mail2.
Proof. eapply mrun_step; [exact demo_run1|lia|apply mstep_poll]. Qed.
Lemma demo_run3 : mail_run default_config 0 empty_mail 200000 demo_mail3.
Proof. eapply mrun_step; [exact demo_run2|lia|apply mstep_retry]. Qed.
Lemma demo_run4 : mail_run default_config 0 empty_mail 300000 demo_mail4.
Proof. eapply mrun_step; [exact demo_run3|lia|apply mstep_poll]. Qed.
Lemma demo_run5 : mail_run default_config 0 empty_mail 301000 demo_mail5.
Proof. eapply mrun_step; [exact demo_run4|lia|apply mstep_ack]. Qed.

(** ** The invariant *)

(** C23. A message is acked exactly when it has at least one recipient and every
    recipient has acked its own delivery, in every reachable state. *)
Theorem message_acked_iff_all_acked cfg t m x :
  0 <= maxRetries cfg -> mail_run cfg 0 empty_mail t m -> x ∈ md_messages m ->
  (ms_status x = MAcked <->
   (exists dl, dl ∈ md_deliveries m /\ dl_message dl = ms_id x) /\
   (forall dl, dl ∈ md_deliveries m -> dl_message dl = ms_id x -> dl_status dl = DAcked)).
Proof.
  intros Hmax Hrun. apply (mo_acked cfg). by eapply mail_run_ok, empty_mail_ok.
Qed.

Lemma message_acked_iff_all_acked_witness :
  exists x, x ∈ md_messages demo_mail5 /\ ms_status x = MAcked /\
  (ms_status x = MAcked <->
   (exists dl, dl ∈ md_deliveries demo_mail5 /\ dl_message dl = ms_id x) /\
   (forall dl, dl ∈ md_deliveries demo_mail5 -> dl_message dl = ms_id x -> dl_status dl = DAcked)).
Proof.
  assert (Hx : exists x, md_messages demo_mail5 = [x] /\ ms_status x = MAcked).
  { eexists. split; vm_compute; reflexivity. }
  destruct Hx as (x & Hx & Hst). exists x.
  assert (Hin : x ∈ md_messages demo_mail5) by (rewrite Hx; by left).
  refine (conj Hin (conj Hst (message_acked_iff_all_acked default_config 301000 demo_mail5 x _ demo_run5 Hin))).
  simpl; lia.
Defined.

(** Redelivery is bounded: in every reachable state a delivery has been
    requeued at most [maxRetries] times and handed out at most once more than
    that, and it is dead-lettered only when its retries are used up. *)
Theorem redelivery_bounded cfg t m dl :
  0 <= maxRetries cfg -> mail_run cfg 0 empty_mail t m -> dl ∈ md_deliveries m ->
  0 <= dl_retry_count dl <= maxRetries cfg /\
  dl_retry_count dl <= dl_attempts dl <= dl_retry_count dl + 1 /\
  dl_attempts dl <= maxRetries cfg + 1 /\
  (dl_status dl = DDeadLettered -> dl_attempts dl = maxRetries cfg + 1).
Proof.
  intros Hmax Hrun Hdl.
  assert (Hok : mail_ok cfg m) by by eapply mail_run_ok, empty_mail_ok.
  destruct (mo_rows _ _ Hok dl Hdl) as (Hr & Ha & _ & Hst).
  split_and!; try lia. intros Hd. rewrite Hd in Hst. lia.
Qed.

Lemma redelivery_bounded_witness :
  exists dl, dl ∈ md_deliveries demo_mail4 /\ dl_retry_count dl = 1 /\ dl_attempts dl = 2 /\
  0 <= dl_retry_count dl <= 5 /\
  dl_retry_count dl <= dl_attempts dl <= dl_retry_count dl + 1 /\
  dl_attempts dl <= 5 + 1 /\
  (dl_status dl = DDeadLettered -> dl_attempts dl = 5 + 1).
Proof.
  assert (Hx : exists dl, md_deliveries demo_mail4 = [dl] /\ dl_retry_count dl = 1 /\ dl_attempts dl = 2).
  { eexists. split; [vm_compute; reflexivity|]. split; reflexivity. }
  destruct Hx as (dl & Hx & Hr & Ha). exists dl.
  assert (Hin : dl ∈ md_deliveries demo_mail4) by (rewrite Hx; by left).
  refine (conj Hin (conj Hr (conj Ha (redelivery_bounded default_config 300000 demo_mail4 dl _ demo_run4 Hin)))).
  simpl; lia.
Defined.

(** The delivery state machine: one operation on a reachable state moves
    every delivery row along one documented transition at most (queued to
    delivered, delivered back to queued or to a dead letter, unacked to acked,
    open to expired) and loses none; an acked delivery is never changed again. *)
Theorem delivery_state_machine cfg t now m m' dl :
  0 <= maxRetries cfg -> mail_run cfg 0 empty_mail t m -> mail_step cfg now m m' ->
  dl ∈ md_deliveries m ->
  (exists dl', dl' ∈ md_deliveries m' /\ row_trans cfg now dl dl') /\
  (dl_status dl = DAcked -> dl ∈ md_deliveries m').
Proof.
  intros Hmax Hrun Hstep Hdl.
  assert (Hok : mail_ok cfg m) by by eapply mail_run_ok, empty_mail_ok.
  destruct (mail_step_rows cfg now m m' Hok Hstep dl Hdl) as (dl' & Hin & Ht).
  split; [by exists dl'|]. intros Hst.
  inversion Ht; subst; try done; try congruence.
  destruct H as [H|H]; congruence.
Qed.

Lemma delivery_state_machine_witness :
  exists dl, dl ∈ md_deliveries demo_mail2 /\ dl_status dl = DDelivered /\
  (exists dl', dl' ∈ md_deliveries demo_mail3 /\ row_trans default_config 200000 dl dl') /\
  (dl_status dl = DAcked -> dl ∈ md_deliveries demo_mail3).
Proof.
  assert (Hx : exists dl, md_deliveries demo_mail2 = [dl] /\ dl_status dl = DDelivered).
  { eexists. split; vm_compute; reflexivity. }
  destruct Hx as (dl & Hx & Hst). exists dl.
  assert (Hin : dl ∈ md_deliveries demo_mail2) by (rewrite Hx; by left).
  refine (conj Hin (conj Hst (delivery_state_machine default_config 2000 200000 demo_mail2 demo_mail3 dl
    _ demo_run2 (mstep_retry _ _ _ (fun i => i)) Hin))).
  simpl; lia.
Defined.

(** ** Polling *)

(** A poll hands out the agent's own queued, due, unexpired deliveries, the
    oldest first, up to the limit and all of them when there is room; each is
    marked delivered, so that no poll of any agent hands it out again before a
    sweep has queued it again. *)
Theorem poll_hands_out cfg t m now a limit :
  0 <= maxRetries cfg -> mail_run cfg 0 empty_mail t m ->
  let m' := fst (fst (poll m now a limit)) in
  let rows := snd (fst (poll m now a limit)) in
  let eligible dl x := dl ∈ md_deliveries m /\ message_by_id m (dl_message dl) = Some x /\
     dl_recipient dl = a /\ dl_status dl = DQueued /\ now < ms_expires_at x /\ due now dl = true in
  (forall dl x, (dl, x) ∈ rows -> eligible dl x) /\
  (forall dl x, eligible dl x -> (dl, x) ∈ rows \/
     (0 <= limit /\ length rows = Z.to_nat limit /\
      forall dl' x', (dl', x') ∈ rows -> dl_queued_at dl' <= dl_queued_at dl)) /\
  (forall dl x now' a' limit' dl' x', (dl, x) ∈ rows ->
     (dl', x') ∈ pending_deliveries m' now' a' limit' -> dl_id dl' <> dl_id dl).
Proof.
  intros Hmax Hrun. cbv zeta. unfold poll. cbn [fst snd].
  assert (Hok : mail_ok cfg m) by by eapply mail_run_ok, empty_mail_ok.
  split; [intros dl x; apply pending_spec|]. split.
  - intros dl x (Hd & Hx & Hr & Hst & Hexp & Hdue). apply pending_complete; [done..|].
    apply elem_of_join. split_and!; [done..|].
    rewrite !bool_decide_true by done. simpl. by rewrite (proj2 (Z.ltb_lt _ _) Hexp).
  - intros dl x now' a' limit' dl' x' Hrow (Hd' & _ & _ & Hst' & _)%pending_spec Heq.
    simpl in Hd'. rewrite mark_delivered_eq in Hd' by apply pending_ids_NoDup, Hok.
    apply elem_of_update_where in Hd' as (dl0 & Hd0 & ->).
    case_bool_decide as Hid; [done|]. apply Hid. rewrite Heq.
    unfold row_ids. apply list_elem_of_In, in_map_iff. exists (dl, x). by rewrite <- list_elem_of_In.
Qed.

Lemma poll_hands_out_witness :
  exists r, snd (fst (poll demo_mail1 2000 "a2" 50)) = [r] /\
    forall dl x now' a' limit' dl' x', (dl, x) ∈ snd (fst (poll demo_mail1 2000 "a2" 50)) ->
      (dl', x') ∈ pending_deliveries demo_mail2 now' a' limit' -> dl_id dl' <> dl_id dl.
Proof.
  assert (Hr : exists r, snd (fst (poll demo_mail1 2000 "a2" 50)) = [r]).
  { eexists. vm_compute. reflexivity. }
  destruct Hr as [r Hr]. exists r. split; [exact Hr|].
  assert (Hmax : 0 <= maxRetries default_config) by (simpl; lia).
  destruct (poll_hands_out default_config 1000 demo_mail1 2000 "a2" 50 Hmax demo_run1) as (_ & _ & H3).
  exact H3.
Defined.

(** C32. No delivery is lost.  One that was handed out and not acked within the timeout,
    its message unexpired, is taken up by the next sweep.  With retries left it is
    queued again, and a poll of its recipient after the backoff and before the deadline
    hands it out again (or fills its limit with older deliveries); without, it is
    dead-lettered: the delivery, a row of [dead_letters] with the message, the parties
    and the reason, and a row of the log say so.  One that is not acked when its
    message expires is marked expired by the next sweep, and the log says so; an
    expired message leaves no dead letter. *)
Theorem unacked_delivery_comes_back cfg t m now fresh dl x :
  0 <= maxRetries cfg -> mail_run cfg 0 empty_mail t m ->
  dl ∈ md_deliveries m -> message_by_id m (dl_message dl) = Some x ->
  let retry := sweepRetryDeliveries cfg m now fresh in
  (forall at_, dl_status dl = DDelivered -> dl_delivered_at dl = Some at_ ->
   at_ + deliveryTimeoutSeconds cfg * 1000 < now -> now < ms_expires_at x ->
   (dl_retry_count dl < maxRetries cfg ->
    forall now2 limit, addSeconds now (backoff cfg (dl_retry_count dl + 1)) <= now2 -> now2 < ms_expires_at x ->
    let rows := snd (fst (poll (fst (fst retry)) now2 (dl_recipient dl) limit)) in
    (exists dl' x', (dl', x') ∈ rows /\ dl_id dl' = dl_id dl) \/
    (0 <= limit /\ length rows = Z.to_nat limit /\
     forall dl' x', (dl', x') ∈ rows -> dl_queued_at dl' <= dl_queued_at dl)) /\
   (maxRetries cfg <= dl_retry_count dl ->
    set_delivery_status DDeadLettered dl ∈ md_deliveries (fst (fst retry)) /\
    gave_up (fst (fst retry)) (snd retry) now (fresh (dl_id dl)) dl x)) /\
  (dl_status dl = DQueued \/ dl_status dl = DDelivered -> ms_expires_at x <= now ->
   let '(m1, _, es) := sweepExpiredMessages m now in
   set_delivery_status DExpired dl ∈ md_deliveries m1 /\
   exists e, e ∈ es /\ ev_type e = "message.expired" /\ ev_resource e = Some (ms_id x)).
Proof.
  intros Hmax Hrun Hdl Hx. cbv zeta.
  assert (Hok : mail_ok cfg m) by by eapply mail_run_ok, empty_mail_ok.
  split; [|by apply (sweep_expires cfg)]. intros at_ Hst Hat Hto Hexp.
  assert (Hto' : at_ < addSeconds now (- deliveryTimeoutSeconds cfg)) by (unfold addSeconds; lia).
  split; [|intros Hr; by eapply sweep_dead_letters]. intros Hr now2 limit Hnow2 Hexp2.
  set (m1 := fst (fst (sweepRetryDeliveries cfg m now fresh))).
  set (dl1 := requeue (dl_retry_count dl + 1) (addSeconds now (backoff cfg (dl_retry_count dl + 1))) dl).
  assert (Hdl1 : dl1 ∈ md_deliveries m1) by by eapply sweep_requeues.
  destruct (retry_fold_messages cfg now fresh (timed_out cfg m now) (m, (O, O), []) _ _ Hx)
    as (x1 & Hx1 & Hex1).
  unfold poll. cbn [fst snd].
  destruct (pending_complete m1 now2 (dl_recipient dl) limit dl1 x1) as [Hin|Hfull].
  - apply elem_of_join. split_and!; [done|exact Hx1|]. unfold dl1. simpl.
    rewrite !bool_decide_true by done. simpl.
    rewrite (proj2 (Z.ltb_lt _ _)) by congruence. simpl. by apply Z.leb_le.
  - left. by exists dl1, x1.
  - right. exact Hfull.
Qed.

(** Handed out with retries left; and with none. *)
Definition no_retries : Config := {|
  operatorSessionTtlSeconds := operatorSessionTtlSeconds default_config;
  timestampSkewSeconds := timestampSkewSeconds default_config;
  envelopeNonceRetentionSeconds := envelopeNonceRetentionSeconds default_config;
  retryBackoffSeconds := retryBackoffSeconds default_config;
  maxRetries := 0;
  deliveryTimeoutSeconds := deliveryTimeoutSeconds default_config;
  rateLimitWindowSeconds := rateLimitWindowSeconds default_config;
  rateLimitMaxMessages := rateLimitMaxMessages default_config;
  loginMaxFailures := loginMaxFailures default_config;
  loginWindowSeconds := loginWindowSeconds default_config;
  loginThrottleMaxBuckets := loginThrottleMaxBuckets default_config;
  floorTtlSeconds := floorTtlSeconds default_config;
  floorTtlMaxSeconds := floorTtlMaxSeconds default_config;
  floorTailLimit := floorTailLimit default_config;
  heartbeatLivenessThreshold := heartbeatLivenessThreshold default_config;
  heartbeatTimeoutSeconds := heartbeatTimeoutSeconds default_config;
  rateLimitViolationThreshold := rateLimitViolationThreshold default_config;
  rateLimitViolationWindowSeconds := rateLimitViolationWindowSeconds default_config;
  attachmentMaxBytes := attachmentMaxBytes default_config;
  attachmentMaxPerMessage := attachmentMaxPerMessage default_config;
  attachmentUploadMaxPerWindow := attachmentUploadMaxPerWindow default_config;
  attachmentFleetQuotaBytes := attachmentFleetQuotaBytes default_config;
  attachmentUnboundTtlSeconds := attachmentUnboundTtlSeconds default_config;
  attachmentRetentionSeconds := attachmentRetentionSeconds default_config;
  heartbeatRetentionSeconds := heartbeatRetentionSeconds default_config;
  eventRetentionSeconds := eventRetentionSeconds default_config
|}.

Lemma demo_run2_none : mail_run no_retries 0 empty_mail 2000 demo_mail2.
Proof.
  eapply mrun_step; [eapply (mrun_step _ _ _ 0 1000 empty_mail); [constructor|lia|]|lia|apply mstep_poll].
  eapply (mstep_send _ _ _ demo_agents "m1" tick demo_input demo_mail1); [vm_compute; reflexivity|].
  split_and!; [by intros ?%elem_of_nil|apply tick_inj|intros i; by intros ?%elem_of_nil].
Qed.

Lemma unacked_delivery_comes_back_witness :
  (exists dl, dl ∈ md_deliveries demo_mail2 /\
    ((exists dl' x', (dl', x') ∈ snd (fst (poll demo_mail3 300000 (dl_recipient dl) 50)) /\ dl_id dl' = dl_id dl) \/
     (0 <= 50 /\ length (snd (fst (poll demo_mail3 300000 (dl_recipient dl) 50))) = Z.to_nat 50 /\
      forall dl' x', (dl', x') ∈ snd (fst (poll demo_mail3 300000 (dl_recipient dl) 50)) ->
        dl_queued_at dl' <= dl_queued_at dl))) /\
  exists dl, dl ∈ md_deliveries demo_mail2 /\
    set_delivery_status DDeadLettered dl ∈ md_deliveries (fst (fst (sweepRetryDeliveries no_retries demo_mail2 200000 (fun i => i)))).
Proof.
  assert (Hx : exists dl x, md_deliveries demo_mail2 = [dl] /\ message_by_id demo_mail2 (dl_message dl) = Some x /\
    dl_status dl = DDelivered /\ dl_delivered_at dl = Some 2000 /\ dl_retry_count dl = 0 /\
    ms_expires_at x = 86401000).
  { eexists _, _. repeat split; vm_compute; reflexivity. }
  destruct Hx as (dl & x & Hds & Hx & Hst & Hat & Hr & Hex).
  assert (Hin : dl ∈ md_deliveries demo_mail2) by (rewrite Hds; by left).
  assert (Hto : 2000 + deliveryTimeoutSeconds default_config * 1000 < 200000) by (simpl; lia).
  assert (He1 : 200000 < ms_expires_at x) by (rewrite Hex; lia). split; exists dl; (split; [exact Hin|]).
  - assert (Hmax : 0 <= maxRetries default_config) by (simpl; lia).
    assert (Hlt : dl_retry_count dl < maxRetries default_config) by (rewrite Hr; simpl; lia).
    assert (He2 : 300000 < ms_expires_at x) by (rewrite Hex; lia).
    assert (Hb : addSeconds 200000 (backoff default_config (dl_retry_count dl + 1)) <= 300000).
    { rewrite Hr. vm_compute. discriminate. }
    exact (proj1 (proj1 (unacked_delivery_comes_back default_config 2000 demo_mail2 200000 (fun i => i) dl x
      Hmax demo_run2 Hin Hx) 2000 Hst Hat Hto He1) Hlt 300000 50 Hb He2).
  - assert (Hge : maxRetries no_retries <= dl_retry_count dl) by (rewrite Hr; simpl; lia).
    exact (proj1 (proj2 (proj1 (unacked_delivery_comes_back no_retries 2000 demo_mail2 200000 (fun i => i) dl x
      ltac:(simpl; lia) demo_run2_none Hin Hx) 2000 Hst Hat Hto He1) Hge)).
Defined.

(** ** Acknowledging *)

(** An agent acknowledges only its own deliveries: acks by an agent leave the
    deliveries of every other recipient exactly as they were, and leave every
    message they do not name as it was. *)
Theorem acks_touch_own_deliveries m now a acks :
  (forall dl, dl_recipient dl <> a ->
     dl ∈ md_deliveries (fst (fst (ackMessages m now a acks))) <-> dl ∈ md_deliveries m) /\
  (forall x, x ∈ md_messages m ->
     (forall i r, (i, r) ∈ acks -> i <> ms_id x) -> x ∈ md_messages (fst (fst (ackMessages m now a acks)))).
Proof.
  unfold ackMessages.
  assert (Hgen : forall acc,
    (forall dl, dl_recipient dl <> a ->
       dl ∈ md_deliveries (fst (fst (foldl (ack_step now a) acc acks))) <-> dl ∈ md_deliveries (fst (fst acc))) /\
    (forall x, (forall i r, (i, r) ∈ acks -> i <> ms_id x) -> x ∈ md_messages (fst (fst acc)) ->
       x ∈ md_messages (fst (fst (foldl (ack_step now a) acc acks))))); [|naive_solver].
  induction acks as [|[i r] acks IH]; intros acc; [done|]. simpl.
  destruct (IH (ack_step now a acc (i, r))) as [IH1 IH2]. split.
  - intros dl Hne. rewrite (IH1 dl Hne). destruct acc as [[m1 n] es]. simpl.
    destruct (_ =? 0)%nat; [done|]. simpl. by apply ack_tables_foreign.
  - intros x Hx Hin. apply IH2; [intros i' r' Hi; by eapply Hx; right|].
    destruct acc as [[m1 n] es]. simpl in *. destruct (_ =? 0)%nat; [done|]. simpl.
    apply ack_tables_other_message; [|done]. eapply not_eq_sym, (Hx i r). by left.
Qed.
