(* ===== verification/AgentSafety.v ===== *)
(** * Agents: traces of operations and what they keep

    Every entry point that writes the agent tables is an [agent_op], a trace is a
    list of timed operations, and [exec] runs one with the definitions of
    [Agents] and [Enrollment].  The file shows how an operation changes one
    agent's row ([agent_trans]), one approval and the counters; the invariants
    and the trace properties of [AgentProperties] follow by induction. *)

From S2P Require Import Prelude Json IsoTime JsValues Events Config Agents Enrollment.
Import Ascii String.
Open Scope string_scope.
Open Scope Z_scope.

(** The results an agent may report ([actionResultSchema]). *)
Inductive ActionResult := Executed | Cancelled | Failed.
Definition result_name (r : ActionResult) : string :=
  match r with Executed => "executed" | Cancelled => "cancelled" | Failed => "failed" end.

(** ** Operations and traces *)

Inductive agent_op :=
  | OpHeartbeat (hb_id agentId status : string) (metrics : json)
  | OpControl (ctl_id fleet agentId operatorId : string) (action : ControlAction) (payload : json)
  | OpTrust (fleet agentId operatorId : string) (trusted : bool)
  | OpDelegate (fleet agentId operatorId : string) (autoreply : bool) (budget : option (option Z))
  | OpPropose (apr_id agentId conversationId actionType summary riskLevel : string) (payload : json)
  | OpComplete (approvalId fleet agentId : string) (r : ActionResult) (output : json)
  | OpResolve (approvalId fleet operatorId : string) (approved : bool)
  | OpSend (ctl_id agentId fleet : string)
  | OpUpload (uploaderId fleet : string)
  | OpSweepCounters
  | OpSweepLiveness (ctl_id : string -> string)
  | OpOperatorAgent (fleetId : string)
  | OpOperatorName (operatorId displayName : string)
  | OpEnroll (e : EnrollDb) (agentId secret credId fleetId token displayName runtime : string)
      (hostname : option string).

Section Traces.
Context `{NodeCrypto} (cfg : Config).

(** One operation at time [now].  An INSERT under a primary key that is taken
    throws, and its transaction rolls back. *)
Definition exec (d : AgentDb) (now : Z) (op : agent_op) : AgentDb :=
  match op with
  | OpHeartbeat h a s m => fst (insertHeartbeat d now h a s m)
  | OpControl c f a o x p => fst (fst (controlAgent d now c f a o x p))
  | OpTrust f a o t => fst (fst (setAgentTrust d now f a o t))
  | OpDelegate f a o r b => fst (fst (setPeerAutoreply d now f a o r b))
  | OpPropose i a c t s r p =>
      match ad_approvals d !! i with
      | Some _ => d
      | None => fst (fst (proposeAction d now i a c t s r p))
      end
  | OpComplete i f a r o => fst (fst (completeActionResult d now i f a (result_name r) o))
  | OpResolve i f o b => fst (fst (approveOrReject d now i f o b))
  | OpSend c a f => fst (fst (checkAndIncrementRateLimit cfg d now c a f))
  | OpUpload u f => fst (fst (checkAndIncrementUploadLimit cfg d now u f))
  | OpSweepCounters => sweepStaleRateLimitCounters cfg d now
  | OpSweepLiveness c => fst (fst (sweepHeartbeatLiveness cfg d now c))
  | OpOperatorAgent f => fst (ensureOperatorAgent d now f)
  | OpOperatorName o n => fst (setOperatorDisplayName d now o n)
  | OpEnroll e i s c f t n r h =>
      match ad_agents d !! i with
      | Some _ => d
      | None => snd (fst (createAgentFromEnrollment e d now i s c f t n r h))
      end
  end.

Definition trace := list (Z * agent_op).

Definition run (d : AgentDb) (tr : trace) : AgentDb :=
  foldl (fun d x => exec d (fst x) (snd x)) d tr.

(** The clock does not run backwards. *)
Fixpoint timed (t : Z) (tr : trace) : Prop :=
  match tr with [] => True | (now, _) :: tr' => t <= now /\ timed now tr' end.

(** ** One agent's row under one operation *)

Definition stopped (a : AgentRow) : bool :=
  (ag_status a ==? Quarantined) || (ag_status a ==? Paused).

Inductive agent_trans (now : Z) (op : agent_op) (i : string) (a : AgentRow) : AgentRow -> Prop :=
  | at_keep : agent_trans now op i a a
  | at_beat st : stopped a = false -> st <> Quarantined -> st <> Paused ->
      agent_trans now op i a
        (set_seen now 0 (set_status st (ag_auto_quarantined_at a) (ag_quarantine_reason a) a))
  | at_recover st : ag_status a = Quarantined -> ag_quarantine_reason a = Some HeartbeatTimeout ->
      st <> Quarantined -> st <> Paused ->
      agent_trans now op i a (set_seen now 0 (set_status st None None a))
  | at_control c f o x p : op = OpControl c f i o x p ->
      agent_trans now op i a
        (set_status (next_status x) None (if x ==? CQuarantine then Some ByOperator else None) a)
  | at_trust b : agent_trans now op i a (set_trust b a)
  | at_delegate b n : agent_trans now op i a (set_delegation b n a)
  | at_name n : agent_trans now op i a (set_display_name n a)
  | at_abuse : stopped a = false ->
      agent_trans now op i a (set_status Quarantined (Some now) (Some RateLimitAbuse) a)
  | at_watch n : agent_trans now op i a (set_missed n a)
  | at_lost n : watched a = true ->
      agent_trans now op i a
        (set_missed n (set_status Quarantined (Some now) (Some HeartbeatTimeout) a)).

(** A row that an operation inserts: healthy, and either the synthetic operator
    of a fleet, born revoked, or an enrolled agent. *)
Definition born (op : agent_op) (i : string) (a : AgentRow) : Prop :=
  (ag_status a = Healthy /\ ag_auto_quarantined_at a = None /\ ag_quarantine_reason a = None) /\
  ((i = operator_agent (ag_fleet a) /\ ag_runtime a = "operator" /\ is_Some (ag_revoked_at a)) \/
   (exists e s c t n h, op = OpEnroll e i s c (ag_fleet a) t n (ag_runtime a) h)).

(** The agents after an operation: the rows that were there, each moved by one
    transition, and rows just born. *)
Definition agents_move (now : Z) (op : agent_op) (m m' : gmap string AgentRow) : Prop :=
  (forall i a, m !! i = Some a -> exists a', m' !! i = Some a' /\ agent_trans now op i a a') /\
  (forall i a', m !! i = None -> m' !! i = Some a' -> born op i a').

Lemma agents_move_refl now op m : agents_move now op m m.
Proof. split; [intros i a Hi; exists a; split; [done|constructor]|congruence]. Qed.

Lemma agents_move_insert now op m i a a' :
  m !! i = Some a -> agent_trans now op i a a' -> agents_move now op m (<[i := a']> m).
Proof.
  intros Hi Ht. split.
  - intros j b Hj. destruct (decide (i = j)) as [<-|Hne].
    + simplify_eq. exists a'. by rewrite lookup_insert_eq.
    + exists b. rewrite lookup_insert_ne by done. split; [done|constructor].
  - intros j b Hj Hj'. destruct (decide (i = j)) as [<-|Hne]; [congruence|].
    rewrite lookup_insert_ne in Hj' by done. congruence.
Qed.

Lemma alter_Some {A} (m : gmap string A) i f a : m !! i = Some a -> alter f i m = <[i := f a]> m.
Proof.
  intros Hi. apply map_eq. intros j. destruct (decide (i = j)) as [<-|Hne].
  - by rewrite lookup_alter_eq, lookup_insert_eq, Hi.
  - by rewrite lookup_alter_ne, lookup_insert_ne.
Qed.

Lemma agents_move_alter now op m i f :
  (forall a, m !! i = Some a -> agent_trans now op i a (f a)) -> agents_move now op m (alter f i m).
Proof.
  intros Hf. destruct (m !! i) as [a|] eqn:E.
  - rewrite (alter_Some m i f a) by done. eapply agents_move_insert; eauto.
  - assert (alter f i m = m) as ->; [|apply agents_move_refl].
    apply map_eq. intros j. destruct (decide (i = j)) as [<-|Hne].
    + by rewrite lookup_alter_eq, E.
    + by rewrite lookup_alter_ne.
Qed.

Lemma agents_move_born now op m i a :
  m !! i = None -> born op i a -> agents_move now op m (<[i := a]> m).
Proof.
  intros Hi Hb. split.
  - intros j b Hj. exists b. rewrite lookup_insert_ne by congruence. split; [done|constructor].
  - intros j b Hj Hj'. destruct (decide (i = j)) as [<-|Hne].
    + rewrite lookup_insert_eq in Hj'. by simplify_eq.
    + rewrite lookup_insert_ne in Hj' by done. congruence.
Qed.

Lemma fleet_agent_Some d f i a :
  fleet_agent d f i = Some a <->
  ad_agents d !! i = Some a /\ ag_fleet a = f /\ ag_runtime a <> "operator".
Proof.
  unfold fleet_agent. destruct (ad_agents d !! i) as [b|]; [|naive_solver].
  destruct (_ && _) eqn:E.
  - bools. naive_solver.
  - split; [done|]. intros (? & ? & ?). simplify_eq. by apply andb_false_iff in E as [E|E]; bools.
Qed.

(** *** The liveness sweep, row by row *)

Definition lost (d0 : AgentDb) (now : Z) (i : string) (a : AgentRow) : bool :=
  heartbeatLivenessThreshold cfg <=? missed_heartbeats cfg d0 now i a.

(** The row the sweep leaves behind for an agent it watches. *)
Definition swept (d0 : AgentDb) (now : Z) (i : string) (a : AgentRow) : AgentRow :=
  let n := missed_heartbeats cfg d0 now i a in
  if lost d0 now i a then set_missed n (set_status Quarantined (Some now) (Some HeartbeatTimeout) a)
  else set_missed n a.

Lemma ensureSystemOperator_agents d now f : ad_agents (fst (ensureSystemOperator d now f)) = ad_agents d.
Proof. unfold ensureSystemOperator. by destruct (_ !! _). Qed.
Lemma ensureSystemOperator_controls d now f :
  ad_controls (fst (ensureSystemOperator d now f)) = ad_controls d.
Proof. unfold ensureSystemOperator. by destruct (_ !! _). Qed.
Lemma ensureSystemOperator_rest d now f :
  ad_approvals (fst (ensureSystemOperator d now f)) = ad_approvals d /\
  ad_counters (fst (ensureSystemOperator d now f)) = ad_counters d /\
  snd (ensureSystemOperator d now f) = system_operator f.
Proof. unfold ensureSystemOperator. by destruct (_ !! _). Qed.

Lemma liveness_step_agents d0 now ctl d n es i a b :
  ad_agents d !! i = Some b ->
  ad_agents (fst (fst (liveness_step cfg d0 now ctl (d, n, es) (i, a)))) =
  <[i := (if lost d0 now i a
          then set_missed (missed_heartbeats cfg d0 now i a)
                 (set_status Quarantined (Some now) (Some HeartbeatTimeout) b)
          else set_missed (missed_heartbeats cfg d0 now i a) b)]> (ad_agents d).
Proof.
  intros Hb. unfold liveness_step, lost.
  set (k := missed_heartbeats cfg d0 now i a). cbv zeta.
  destruct (_ <=? _).
  - destruct (ensureSystemOperator _ _ _) as [d2 sid] eqn:E. cbn [fst snd with_controls with_agents ad_agents].
    assert (Hd2 : ad_agents d2 = alter (set_missed k) i (ad_agents d)).
    { replace d2 with (fst (ensureSystemOperator (with_agents (alter (set_missed k) i (ad_agents d)) d) now
        (ag_fleet a))) by by rewrite E. by rewrite ensureSystemOperator_agents. }
    rewrite Hd2, (alter_Some _ i (set_missed k) b) by done.
    by rewrite alter_insert_eq.
  - cbn [fst ad_agents with_agents]. by rewrite (alter_Some _ i (set_missed k) b).
Qed.

Definition quarantine_row (now : Z) (ctl_id : string -> string) (i : string) (a : AgentRow)
    (missed : Z) : ControlRow :=
  MkControl (ctl_id i) (ag_fleet a) i CQuarantine
    (JObj [("reason", JStr "heartbeat_timeout"); ("missed_count", JNum missed)])
    (system_operator (ag_fleet a)) now None.

Lemma liveness_step_controls d0 now ctl acc i a :
  let acc' := liveness_step cfg d0 now ctl acc (i, a) in
  let new := if lost d0 now i a
             then [quarantine_row now ctl i a (missed_heartbeats cfg d0 now i a)] else [] in
  ad_controls (fst (fst acc')) = (ad_controls (fst (fst acc)) ++ new)%list /\
  snd (fst acc') = (snd (fst acc) + length new)%nat /\
  ad_approvals (fst (fst acc')) = ad_approvals (fst (fst acc)) /\
  ad_counters (fst (fst acc')) = ad_counters (fst (fst acc)).
Proof.
  destruct acc as [[d n] es]. unfold liveness_step, lost.
  set (k := missed_heartbeats cfg d0 now i a). cbv zeta.
  destruct (_ <=? _).
  - set (d1 := with_agents _ d).
    pose proof (ensureSystemOperator_controls d1 now (ag_fleet a)) as Hc.
    pose proof (ensureSystemOperator_rest d1 now (ag_fleet a)) as (Ha & Hn & Hs).
    destruct (ensureSystemOperator d1 now (ag_fleet a)) as [d2 sid]. cbn [fst snd] in *. subst sid.
    cbn. rewrite Hc. split_and!; [done|lia|exact Ha|exact Hn].
  - cbn. rewrite app_nil_r. split_and!; [done|lia|done|done].
Qed.

Abbreviation sweep d now ctl := (sweepHeartbeatLiveness cfg d now ctl).
Abbreviation watched_rows d := (List.filter (fun row : string * AgentRow => watched (snd row))
                              (map_to_list (ad_agents d))).

Lemma watched_rows_spec d i a :
  (i, a) ∈ watched_rows d <-> ad_agents d !! i = Some a /\ watched a = true.
Proof. rewrite list_elem_of_In, filter_In, <- list_elem_of_In. by rewrite elem_of_map_to_list. Qed.

Lemma watched_rows_NoDup d : NoDup (map fst (watched_rows d)).
Proof.
  eapply sublist_NoDup; [apply (NoDup_fst_map_to_list (ad_agents d))|].
  apply (fmap_sublist fst). induction (map_to_list (ad_agents d)) as [|x l IH]; simpl; [constructor|].
  destruct (watched x.2); by constructor.
Qed.

Lemma liveness_fold_agents d0 now ctl rows acc i :
  NoDup (map fst rows) ->
  (forall j a, (j, a) ∈ rows -> ad_agents (fst (fst acc)) !! j = Some a) ->
  let m' := ad_agents (fst (fst (fold_left (liveness_step cfg d0 now ctl) rows acc))) in
  (forall a, (i, a) ∈ rows -> m' !! i = Some (swept d0 now i a)) /\
  ((forall a, (i, a) ∉ rows) -> m' !! i = ad_agents (fst (fst acc)) !! i).
Proof.
  revert acc. induction rows as [|[j b] rows IH]; intros acc Hnd Hin; simpl.
  { split; [by intros a ?%elem_of_nil|done]. }
  apply NoDup_cons in Hnd as [Hj Hnd].
  assert (Hb : ad_agents (fst (fst acc)) !! j = Some b) by (apply Hin; by left).
  destruct acc as [[d n] es]. simpl in Hb.
  pose proof (liveness_step_agents d0 now ctl d n es j b b Hb) as Hstep.
  fold (swept d0 now j b) in Hstep.
  destruct (IH (liveness_step cfg d0 now ctl (d, n, es) (j, b)) Hnd) as [IH1 IH2].
  { intros k a Hk. rewrite Hstep, lookup_insert_ne; [apply Hin; by right|].
    intros ->. apply Hj. apply list_elem_of_In, in_map_iff. exists (k, a). by rewrite <- list_elem_of_In. }
  split.
  - intros a [Heq|Ha]%elem_of_cons; [|by apply IH1].
    injection Heq as -> ->. rewrite IH2, Hstep, lookup_insert_eq; [done|].
    intros a Ha. apply Hj. apply list_elem_of_In, in_map_iff. exists (j, a). by rewrite <- list_elem_of_In.
  - intros Hno. rewrite IH2.
    + rewrite Hstep, lookup_insert_ne; [done|]. intros ->. apply (Hno b). by left.
    + intros a Ha. apply (Hno a). by right.
Qed.

Lemma sweep_agent d now ctl i :
  ad_agents (fst (fst (sweep d now ctl))) !! i =
  (fun a => if watched a then swept d now i a else a) <$> ad_agents d !! i.
Proof.
  destruct (liveness_fold_agents d now ctl (watched_rows d) (d, O, []) i) as [H1 H2].
  { apply watched_rows_NoDup. }
  { intros j a Hj. by apply watched_rows_spec in Hj as [? _]. }
  unfold sweepHeartbeatLiveness. destruct (ad_agents d !! i) as [a|] eqn:E; simpl.
  - destruct (watched a) eqn:Hw.
    + apply H1, watched_rows_spec; done.
    + rewrite H2; [done|]. intros b [Hb Hwb]%watched_rows_spec. congruence.
  - rewrite H2; [done|]. intros b [Hb _]%watched_rows_spec. congruence.
Qed.

Lemma sweep_controls d now ctl :
  let lost_rows := List.filter (fun row => lost d now (fst row) (snd row)) (watched_rows d) in
  let acc' := sweep d now ctl in
  ad_controls (fst (fst acc')) =
    (ad_controls d ++ map (fun row => quarantine_row now ctl (fst row) (snd row)
       (missed_heartbeats cfg d now (fst row) (snd row))) lost_rows)%list /\
  snd (fst acc') = length lost_rows /\
  ad_approvals (fst (fst acc')) = ad_approvals d /\
  ad_counters (fst (fst acc')) = ad_counters d.
Proof.
  unfold sweepHeartbeatLiveness.
  assert (Hgen : forall rows acc,
    let lr := List.filter (fun row => lost d now (fst row) (snd row)) rows in
    let acc' := fold_left (liveness_step cfg d now ctl) rows acc in
    ad_controls (fst (fst acc')) =
      (ad_controls (fst (fst acc)) ++ map (fun row => quarantine_row now ctl (fst row) (snd row)
         (missed_heartbeats cfg d now (fst row) (snd row))) lr)%list /\
    snd (fst acc') = (snd (fst acc) + length lr)%nat /\
    ad_approvals (fst (fst acc')) = ad_approvals (fst (fst acc)) /\
    ad_counters (fst (fst acc')) = ad_counters (fst (fst acc))).
  { induction rows as [|[i a] rows IH]; intros acc; simpl.
    { rewrite app_nil_r. split_and!; [done|lia|done|done]. }
    destruct (IH (liveness_step cfg d now ctl acc (i, a))) as (Hc & Hn & Ha & Hk).
    destruct (liveness_step_controls d now ctl acc i a) as (Hc1 & Hn1 & Ha1 & Hk1).
    rewrite Hc, Hn, Ha, Hk, Hc1, Hn1, Ha1, Hk1.
    destruct (lost d now i a); simpl; rewrite <- ?app_assoc, ?app_nil_r; split_and!; done || lia. }
  apply (Hgen (watched_rows d) (d, O, [])).
Qed.

(** *** Every operation moves every row by one transition *)

Lemma rateLimitQuarantine_agents d now c i f :
  ad_agents (fst (checkRateLimitQuarantine cfg d now c i f)) = ad_agents d \/
  ad_agents (fst (checkRateLimitQuarantine cfg d now c i f)) =
    quarantine_unless_stopped now i (ad_agents d).
Proof.
  unfold checkRateLimitQuarantine. destruct (_ <=? _); [|by left].
  pose proof (ensureSystemOperator_agents d now f) as Ha.
  destruct (ensureSystemOperator d now f) as [d1 sid]. right. cbn in *. by rewrite Ha.
Qed.

Lemma quarantine_unless_stopped_move now op m i :
  agents_move now op m (quarantine_unless_stopped now i m).
Proof.
  apply agents_move_alter. intros a Ha. destruct (_ || _) eqn:E; [constructor|].
  by apply at_abuse.
Qed.

Lemma sweep_move d now ctl op :
  agents_move now op (ad_agents d) (ad_agents (fst (fst (sweep d now ctl)))).
Proof.
  split.
  - intros i a Ha. rewrite sweep_agent, Ha. simpl. eexists; split; [done|].
    destruct (watched a) eqn:Hw; [|constructor].
    unfold swept. destruct (lost _ _ _ _); [by apply at_lost|constructor].
  - intros i a' Hn. by rewrite sweep_agent, Hn.
Qed.

Lemma operator_name_move d now o n op :
  agents_move now op (ad_agents d) (ad_agents (fst (setOperatorDisplayName d now o n))).
Proof.
  unfold setOperatorDisplayName. destruct (ad_operators d !! o) as [row|]; [|apply agents_move_refl].
  unfold ensureOperatorAgent. cbn [ad_agents with_operators]. destruct (ad_agents d !! _) eqn:E.
  - cbn. apply agents_move_alter. constructor.
  - cbn. rewrite alter_insert_eq. apply agents_move_born; [done|]. split; [done|]. left. by eauto.
Qed.

Lemma heartbeat_move d now h i s m op :
  agents_move now op (ad_agents d) (ad_agents (fst (insertHeartbeat d now h i s m))).
Proof.
  unfold insertHeartbeat. destruct (ad_agents d !! i) as [a|] eqn:E; [|apply agents_move_refl].
  destruct (_ && _) eqn:Hq; cbn.
  - bools. eapply agents_move_insert; [done|]. apply at_recover; [done|done|..]; by destruct (s ==? _).
  - destruct (_ || _) eqn:Hs; [apply agents_move_refl|].
    eapply agents_move_insert; [done|]. apply at_beat; [done|..]; by destruct (s ==? _).
Qed.

Lemma exec_agents d now op : agents_move now op (ad_agents d) (ad_agents (exec d now op)).
Proof.
  destruct op; cbn [exec]; try apply agents_move_refl.
  - apply heartbeat_move.
  - unfold controlAgent. destruct (fleet_agent d fleet agentId) as [a|] eqn:E; [|apply agents_move_refl].
    apply fleet_agent_Some in E as (E & _ & _). cbn. eapply agents_move_insert; [done|by eapply at_control].
  - unfold setAgentTrust. destruct (fleet_agent d fleet agentId) as [a|] eqn:E; [|apply agents_move_refl].
    apply fleet_agent_Some in E as (E & _ & _). cbn. eapply agents_move_insert; [done|constructor].
  - unfold setPeerAutoreply. destruct (fleet_agent d fleet agentId) as [a|] eqn:E; [|apply agents_move_refl].
    apply fleet_agent_Some in E as (E & _ & _). cbn. eapply agents_move_insert; [done|constructor].
  - destruct (ad_approvals d !! _); [apply agents_move_refl|].
    unfold proposeAction. destruct (ad_agents d !! _); [|apply agents_move_refl].
    destruct (_ || _); [apply agents_move_refl|]. destruct (_ || _); apply agents_move_refl.
  - unfold completeActionResult. destruct (own_approval _ _ _ _); apply agents_move_refl.
  - unfold approveOrReject. destruct (ad_approvals d !! _); [|apply agents_move_refl].
    destruct (_ && _); apply agents_move_refl.
  - unfold checkAndIncrementRateLimit. destruct (_ <=? _); [|apply agents_move_refl].
    set (d1 := with_violations _ _).
    pose proof (rateLimitQuarantine_agents d1 now ctl_id agentId fleet) as Hq.
    destruct (checkRateLimitQuarantine _ d1 _ _ _ _) as [d2 es]. cbn in *.
    destruct Hq as [->| ->]; [apply agents_move_refl|apply quarantine_unless_stopped_move].
  - unfold checkAndIncrementUploadLimit. destruct (_ <=? _); apply agents_move_refl.
  - apply sweep_move.
  - unfold ensureOperatorAgent. destruct (ad_agents d !! _) eqn:E; [apply agents_move_refl|].
    cbn. apply agents_move_born; [done|]. split; [done|]. left. by eauto.
  - apply operator_name_move.
  - destruct (ad_agents d !! agentId) eqn:E; [apply agents_move_refl|].
    unfold createAgentFromEnrollment. destruct (negb _); [apply agents_move_refl|].
    destruct (select_one _ _); [|apply agents_move_refl]. cbn. apply agents_move_born; [done|].
    split; [done|]. right. by repeat eexists.
Qed.

(** ** Invariants of the agent rows *)

(** What [status], [quarantine_reason] and [auto_quarantined_at] say of each
    other: a reason is set exactly on a quarantined agent, and the time of an
    automatic quarantine exactly with an automatic reason. *)
Definition reason_ok (a : AgentRow) : Prop :=
  (ag_status a = Quarantined <-> is_Some (ag_quarantine_reason a)) /\
  (is_Some (ag_auto_quarantined_at a) <->
   ag_quarantine_reason a = Some HeartbeatTimeout \/ ag_quarantine_reason a = Some RateLimitAbuse).

Definition reasons_ok (d : AgentDb) : Prop := map_Forall (fun _ a => reason_ok a) (ad_agents d).

Lemma stopped_false a : stopped a = false <-> ag_status a <> Quarantined /\ ag_status a <> Paused.
Proof. unfold stopped. rewrite orb_false_iff. rewrite !bool_decide_eq_false. done. Qed.

Lemma agent_trans_reason now op i a a' : agent_trans now op i a a' -> reason_ok a -> reason_ok a'.
Proof.
  unfold reason_ok. intros Ht [H1 H2].
  destruct Ht as [|st Hs%stopped_false| st |c f o x p ->| | | | | |]; simpl; try done.
  - split; [|done]. rewrite <- H1. naive_solver.
  - split; split; try done; try naive_solver; by intros [? ?].
  - destruct x; simpl; split; split; try done; try (by intros [? ?]); naive_solver.
  - split; split; naive_solver.
  - split; split; naive_solver.
Qed.

Lemma exec_reasons d now op : reasons_ok d -> reasons_ok (exec d now op).
Proof.
  intros Hok i a' Hi. destruct (exec_agents d now op) as [Hmove Hborn].
  destruct (ad_agents d !! i) as [a|] eqn:E.
  - destruct (Hmove i a E) as (b & Hb & Ht). simplify_eq.
    eapply agent_trans_reason; [done|]. by apply (Hok i).
  - destruct (Hborn i a' E Hi) as [(H1 & H2 & H3) _]. unfold reason_ok. rewrite H1, H2, H3.
    split; split; try done; try (by intros [? ?]); naive_solver.
Qed.

Lemma run_reasons tr d : reasons_ok d -> reasons_ok (run d tr).
Proof. revert d. induction tr as [|[now op] tr IH]; intros d Hd; [done|]. by apply IH, exec_reasons. Qed.

(** ** Stops that only an operator lifts *)

(** Paused, or quarantined for anything but a missed heartbeat. *)
Definition held (a : AgentRow) : bool :=
  (ag_status a ==? Paused) ||
  ((ag_status a ==? Quarantined) && negb (ag_quarantine_reason a ==? Some HeartbeatTimeout)).

Definition is_resume (i : string) (op : agent_op) : bool :=
  match op with OpControl _ _ a _ CResume _ => a ==? i | _ => false end.

Lemma held_spec a :
  held a = true <->
  ag_status a = Paused \/ (ag_status a = Quarantined /\ ag_quarantine_reason a <> Some HeartbeatTimeout).
Proof. unfold held. rewrite orb_true_iff, andb_true_iff, negb_true_iff. rewrite !bool_decide_eq_true, bool_decide_eq_false. done. Qed.

Lemma agent_trans_held now op i a a' :
  agent_trans now op i a a' -> is_resume i op = false -> held a = true -> held a' = true.
Proof.
  rewrite !held_spec. intros Ht Hr Hh.
  destruct Ht as [|st [? ?]%stopped_false| st |c f o x p ->| | | |[? ?]%stopped_false| |n Hw]; simpl; try done.
  - destruct Hh as [?|[? ?]]; congruence.
  - destruct Hh as [?|[? ?]]; congruence.
  - destruct x; simpl in *; [by left| |by right]. by rewrite bool_decide_true in Hr.
  - destruct Hh as [?|[? ?]]; congruence.
  - unfold watched in Hw. apply andb_true_iff in Hw as [Hw _]. apply orb_true_iff in Hw as [Hw|Hw]; bools; destruct Hh as [?|[? ?]]; congruence.
Qed.

Lemma run_held tr d i a :
  ad_agents d !! i = Some a -> held a = true ->
  Forall (fun x => is_resume i (snd x) = false) tr ->
  exists a', ad_agents (run d tr) !! i = Some a' /\ held a' = true.
Proof.
  revert d a. induction tr as [|[now op] tr IH]; intros d a Hi Hh Hf; [by exists a|].
  apply Forall_cons in Hf as [Hop Hf]. destruct (exec_agents d now op) as [Hmove _].
  destruct (Hmove i a Hi) as (b & Hb & Ht). apply (IH _ b Hb); [|done]. by eapply agent_trans_held.
Qed.

(** A row keeps the agent's fleet and runtime. *)
Lemma agent_trans_fleet now op i a a' :
  agent_trans now op i a a' ->
  ag_fleet a' = ag_fleet a /\ ag_runtime a' = ag_runtime a /\ ag_revoked_at a' = ag_revoked_at a.
Proof. by destruct 1. Qed.

Lemma run_fleet tr d i a :
  ad_agents d !! i = Some a ->
  exists a', ad_agents (run d tr) !! i = Some a' /\ ag_fleet a' = ag_fleet a /\ ag_runtime a' = ag_runtime a.
Proof.
  revert d a. induction tr as [|[now op] tr IH]; intros d a Hi; [by exists a|].
  destruct (exec_agents d now op) as [Hmove _]. destruct (Hmove i a Hi) as (b & Hb & Ht).
  destruct (IH _ b Hb) as (c & Hc & H1 & H2). exists c. split; [done|].
  apply agent_trans_fleet in Ht as (? & ? & _). split; congruence.
Qed.

(** ** Controls *)

Lemma expire_controls_keeps now i actions cs c :
  c_action c ∉ actions -> c ∈ cs -> c ∈ expire_controls now i actions cs.
Proof.
  intros Hn Hc. apply elem_of_update_where. exists c. split; [done|].
  by rewrite (bool_decide_false (c_action c ∈ actions)), andb_false_r.
Qed.

Lemma rateLimitQuarantine_controls d now k i f c :
  c ∈ ad_controls d -> c ∈ ad_controls (fst (checkRateLimitQuarantine cfg d now k i f)).
Proof.
  intros Hc. unfold checkRateLimitQuarantine. destruct (_ <=? _); [|done].
  pose proof (ensureSystemOperator_controls d now f) as Ha.
  destruct (ensureSystemOperator d now f) as [d1 sid]. cbn in *. rewrite Ha.
  apply elem_of_app. by left.
Qed.

(** A resume is never taken back: no operation rewrites its row. *)
Lemma exec_resume_stays d now op c :
  c ∈ ad_controls d -> c_action c = CResume -> c ∈ ad_controls (exec d now op).
Proof.
  intros Hc Hr. destruct op; cbn [exec]; try done.
  - unfold insertHeartbeat. destruct (ad_agents d !! _); [|done]. destruct (_ && _); cbn; [|done].
    apply expire_controls_keeps; [|done]. rewrite Hr. set_solver.
  - unfold controlAgent. destruct (fleet_agent d fleet agentId); [|done]. cbn. apply elem_of_app. left.
    destruct (_ ==? _); [|done]. apply expire_controls_keeps; [|done]. rewrite Hr. set_solver.
  - unfold setAgentTrust. by destruct (fleet_agent d fleet agentId).
  - unfold setPeerAutoreply. by destruct (fleet_agent d fleet agentId).
  - destruct (ad_approvals d !! _); [done|]. unfold proposeAction. destruct (ad_agents d !! _); [|done].
    destruct (_ || _); [done|]. by destruct (_ || _).
  - unfold completeActionResult. by destruct (own_approval _ _ _ _).
  - unfold approveOrReject. destruct (ad_approvals d !! _); [|done]. by destruct (_ && _).
  - unfold checkAndIncrementRateLimit. destruct (_ <=? _); [|done].
    set (d1 := with_violations _ _).
    pose proof (rateLimitQuarantine_controls d1 now ctl_id agentId fleet c Hc) as Hq.
    by destruct (checkRateLimitQuarantine _ d1 _ _ _ _) as [d2 es].
  - unfold checkAndIncrementUploadLimit. by destruct (_ <=? _).
  - destruct (sweep_controls d now ctl_id) as [Hs _]. rewrite Hs. apply elem_of_app. by left.
  - unfold ensureOperatorAgent. by destruct (ad_agents d !! _).
  - unfold setOperatorDisplayName. destruct (ad_operators d !! _); [|done].
    unfold ensureOperatorAgent. cbn [ad_agents with_operators]. by destruct (ad_agents d !! _).
  - destruct (ad_agents d !! agentId); [done|]. unfold createAgentFromEnrollment.
    destruct (negb _); [done|]. by destruct (select_one _ _).
Qed.

Lemma run_resume_stays tr d c :
  c ∈ ad_controls d -> c_action c = CResume -> c ∈ ad_controls (run d tr).
Proof.
  revert d. induction tr as [|[now op] tr IH]; intros d Hc Hr; [done|].
  apply IH; [by apply exec_resume_stays|done].
Qed.

(** A resume in the last liveness window counts as the agent's last sign of life. *)
Lemma resumed_at_ge d now f i c :
  c ∈ ad_controls d -> c_fleet c = f -> c_target c = i -> c_action c = CResume ->
  now - heartbeatTimeoutSeconds cfg * heartbeatLivenessThreshold cfg * 1000 < c_created_at c ->
  c_created_at c <= default 0 (resumed_at cfg d now f i).
Proof.
  intros Hc Hf Ht Ha Hw. unfold resumed_at.
  set (p := fun x : ControlRow => _ && _).
  assert (Hin : c ∈ select p (ad_controls d)).
  { apply elem_of_select. split; [done|]. unfold p. rewrite !bool_decide_true by done. simpl.
    apply orb_true_iff. right. by apply Z.ltb_lt. }
  destruct (latest_by _ _) as [x|] eqn:E; simpl.
  - by eapply latest_by_max.
  - apply latest_by_None in E. rewrite E in Hin. by apply elem_of_nil in Hin.
Qed.

(** ** Approvals *)

(** How one operation may change one approval. *)
Inductive approval_trans (now : Z) (op : agent_op) (i : string) (a : ApprovalRow) : ApprovalRow -> Prop :=
  | apt_keep : approval_trans now op i a a
  | apt_result r o : op = OpComplete i (ap_fleet a) (ap_agent a) r o ->
      approval_trans now op i a (resolve (result_name r) now (ap_resolved_by a) a)
  | apt_decide o b : op = OpResolve i (ap_fleet a) o b -> ap_status a = "pending" ->
      approval_trans now op i a (resolve (if b then "approved" else "rejected") now (Some o) a).

Lemma approvals_same now op i a (m m' : gmap string ApprovalRow) :
  m' = m -> m !! i = Some a -> exists a', m' !! i = Some a' /\ approval_trans now op i a a'.
Proof. intros ->. exists a. split; [done|constructor]. Qed.

Lemma own_approval_Some d i f g a :
  own_approval d i f g = Some a <-> ad_approvals d !! i = Some a /\ ap_fleet a = f /\ ap_agent a = g.
Proof.
  unfold own_approval. destruct (ad_approvals d !! i) as [b|]; [|naive_solver].
  destruct (_ && _) eqn:E.
  - bools. naive_solver.
  - split; [done|]. intros (? & ? & ?). simplify_eq. by apply andb_false_iff in E as [E|E]; bools.
Qed.

Lemma exec_approvals d now op i a :
  ad_approvals d !! i = Some a ->
  exists a', ad_approvals (exec d now op) !! i = Some a' /\ approval_trans now op i a a'.
Proof.
  intros Hi. destruct op; cbn [exec]; try (by eapply approvals_same).
  - unfold insertHeartbeat. destruct (ad_agents d !! _); [|by eapply approvals_same].
    destruct (_ && _); by eapply approvals_same.
  - unfold controlAgent. destruct (fleet_agent d fleet agentId); by eapply approvals_same.
  - unfold setAgentTrust. destruct (fleet_agent d fleet agentId); by eapply approvals_same.
  - unfold setPeerAutoreply. destruct (fleet_agent d fleet agentId); by eapply approvals_same.
  - destruct (ad_approvals d !! apr_id) eqn:E; [by eapply approvals_same|].
    unfold proposeAction. destruct (ad_agents d !! _); [|by eapply approvals_same].
    destruct (_ || _); [by eapply approvals_same|]. destruct (_ || _); [|by eapply approvals_same].
    cbn. exists a. rewrite lookup_insert_ne by congruence. split; [done|constructor].
  - unfold completeActionResult. destruct (own_approval d approvalId fleet agentId) as [b|] eqn:E;
      [|by eapply approvals_same]. apply own_approval_Some in E as (E & <- & <-). cbn.
    destruct (decide (approvalId = i)) as [->|Hne].
    + simplify_eq. rewrite lookup_insert_eq. eexists. split; [done|]. by eapply apt_result.
    + exists a. rewrite lookup_insert_ne by done. split; [done|constructor].
  - unfold approveOrReject. destruct (ad_approvals d !! approvalId) as [b|] eqn:E;
      [|by eapply approvals_same]. destruct (_ && _) eqn:G; [|by eapply approvals_same]. bools. cbn.
    destruct (decide (approvalId = i)) as [->|Hne].
    + simplify_eq. rewrite lookup_insert_eq. eexists. split; [done|]. by eapply apt_decide.
    + exists a. rewrite lookup_insert_ne by done. split; [done|constructor].
  - unfold checkAndIncrementRateLimit. destruct (_ <=? _); [|by eapply approvals_same].
    unfold checkRateLimitQuarantine. destruct (_ <=? _); [|by eapply approvals_same].
    set (d1 := with_violations _ _).
    pose proof (ensureSystemOperator_rest d1 now fleet) as (Ha & _).
    destruct (ensureSystemOperator d1 now fleet) as [d2 sid]. by eapply approvals_same.
  - unfold checkAndIncrementUploadLimit. destruct (_ <=? _); by eapply approvals_same.
  - destruct (sweep_controls d now ctl_id) as (_ & _ & Hs & _). by eapply approvals_same.
  - unfold ensureOperatorAgent. destruct (ad_agents d !! _); by eapply approvals_same.
  - unfold setOperatorDisplayName. destruct (ad_operators d !! _); [|by eapply approvals_same].
    unfold ensureOperatorAgent. cbn [ad_agents with_operators].
    destruct (ad_agents d !! _); by eapply approvals_same.
  - destruct (ad_agents d !! agentId); [by eapply approvals_same|]. unfold createAgentFromEnrollment.
    destruct (negb _); [by eapply approvals_same|]. destruct (select_one _ _); by eapply approvals_same.
Qed.

(** What an approval was asked for never changes. *)
Definition same_request (a b : ApprovalRow) : Prop :=
  ap_fleet b = ap_fleet a /\ ap_agent b = ap_agent a /\ ap_action_type b = ap_action_type a /\
  ap_risk_level b = ap_risk_level a /\ ap_summary b = ap_summary a /\ ap_payload b = ap_payload a.

Lemma run_approval tr d i a :
  ad_approvals d !! i = Some a ->
  exists b, ad_approvals (run d tr) !! i = Some b /\ same_request a b /\
    (ap_status a <> "pending" -> ap_status b <> "pending" /\ ap_resolved_by b = ap_resolved_by a).
Proof.
  revert d a. induction tr as [|[now op] tr IH]; intros d a Hi; [by exists a|].
  destruct (exec_approvals d now op i a Hi) as (a1 & Ha1 & Ht).
  destruct (IH _ a1 Ha1) as (b & Hb & Hs & Hp). exists b. split; [done|].
  destruct Ht as [|r o ->|o x -> Hpend]; [done|..].
  - split; [done|]. intros _. apply Hp. by destruct r.
  - split; [done|]. by intros [].
Qed.

(** ** The rate limit *)

(** The sends of agent [a] let through in the window that starts at [w]. *)
Fixpoint sends_in (d : AgentDb) (tr : trace) (a : string) (w : Z) : Z :=
  match tr with
  | [] => 0
  | (now, op) :: tr' =>
      match op with
      | OpSend c b f =>
          if (b ==? a) && (window_start cfg now =? w) &&
             rl_allowed (snd (fst (checkAndIncrementRateLimit cfg d now c b f)))
          then 1 else 0
      | _ => 0
      end + sends_in (exec d now op) tr' a w
  end.

Fixpoint end_time (t : Z) (tr : trace) : Z :=
  match tr with [] => t | (now, _) :: tr' => end_time now tr' end.

Lemma counter_insert d i w x j v :
  counter (with_counters (<[(i, w) := x]> (ad_counters d)) d) j v =
  if (i ==? j) && (w =? v) then x else counter d j v.
Proof.
  unfold counter. cbn. destruct (_ && _) eqn:E.
  - bools. subst. by rewrite lookup_insert_eq.
  - rewrite lookup_insert_ne; [done|]. intros [= -> ->].
    apply andb_false_iff in E as [E|E]; bools; done.
Qed.

Lemma counters_same d d' a w : ad_counters d' = ad_counters d -> counter d' a w = counter d a w.
Proof. unfold counter. by intros ->. Qed.

Lemma rateLimitQuarantine_counters d now k i f :
  ad_counters (fst (checkRateLimitQuarantine cfg d now k i f)) = ad_counters d.
Proof.
  unfold checkRateLimitQuarantine. destruct (_ <=? _); [|done].
  pose proof (ensureSystemOperator_rest d now f) as (_ & Ha & _).
  by destruct (ensureSystemOperator d now f) as [d1 sid].
Qed.

Lemma send_counter d now c i f j v :
  counter (fst (fst (checkAndIncrementRateLimit cfg d now c i f))) j v =
  counter d j v +
  (if (i ==? j) && (window_start cfg now =? v) &&
      rl_allowed (snd (fst (checkAndIncrementRateLimit cfg d now c i f))) then 1 else 0).
Proof.
  unfold checkAndIncrementRateLimit. destruct (_ <=? counter d i _) eqn:Hl.
  - set (d1 := with_violations _ _).
    pose proof (rateLimitQuarantine_counters d1 now c i f) as Hq.
    destruct (checkRateLimitQuarantine cfg d1 now c i f) as [d2 es]. cbn [fst snd rl_allowed] in *.
    rewrite andb_false_r, Z.add_0_r. rewrite (counters_same d1 d2) by done.
    rewrite (counters_same (with_counters (<[(i, window_start cfg now) := counter d i (window_start cfg now)]>
      (ad_counters d)) d) d1) by done.
    rewrite counter_insert. destruct (_ && _) eqn:E; [|done]. bools. by subst.
  - cbn [fst snd rl_allowed]. rewrite andb_true_r, counter_insert.
    destruct (_ && _) eqn:E; [|lia]. bools. by subst.
Qed.

Lemma rl_allowed_iff d now c i f :
  rl_allowed (snd (fst (checkAndIncrementRateLimit cfg d now c i f))) = true <->
  counter d i (window_start cfg now) < rateLimitMaxMessages cfg.
Proof.
  unfold checkAndIncrementRateLimit. destruct (_ <=? counter d i _) eqn:Hl; bools.
  - destruct (checkRateLimitQuarantine _ _ _ _ _ _). cbn. split; [done|lia].
  - cbn. split; [lia|done].
Qed.

Lemma upload_counter d now u f a w :
  (forall v, a <> "upload:" +:+ v) ->
  counter (fst (fst (checkAndIncrementUploadLimit cfg d now u f))) a w = counter d a w.
Proof.
  intros Ha. unfold checkAndIncrementUploadLimit.
  destruct (_ <=? _); cbn [fst]; rewrite counter_insert, bool_decide_false by (intros He; by apply (Ha u)); done.
Qed.

Lemma window_start_bounds now :
  0 < rateLimitWindowSeconds cfg ->
  window_start cfg now <= now < window_start cfg now + rateLimitWindowSeconds cfg * 1000.
Proof.
  intros HW. unfold window_start. set (W := rateLimitWindowSeconds cfg) in *.
  pose proof (Z.mod_pos_bound now 1000). pose proof (Z.mod_pos_bound (now / 1000) W).
  pose proof (Z.div_mod now 1000). pose proof (Z.div_mod (now / 1000) W). nia.
Qed.

(** Operations that write no counter. *)
Lemma exec_counter d now op a w :
  (forall v, a <> "upload:" +:+ v) -> 0 < rateLimitWindowSeconds cfg ->
  match op with OpSend _ _ _ => True | _ =>
    counter (exec d now op) a w = counter d a w \/ w + rateLimitWindowSeconds cfg * 1000 <= now
  end.
Proof.
  intros Ha HW. destruct op; cbn [exec]; try done;
    lazymatch goal with
    | |- context [sweepStaleRateLimitCounters] => idtac
    | |- context [checkAndIncrementUploadLimit] => left; by apply upload_counter
    | _ => left; apply counters_same
    end.
  - unfold insertHeartbeat. destruct (ad_agents d !! _); [|done]. by destruct (_ && _).
  - unfold controlAgent. by destruct (fleet_agent d fleet agentId).
  - unfold setAgentTrust. by destruct (fleet_agent d fleet agentId).
  - unfold setPeerAutoreply. by destruct (fleet_agent d fleet agentId).
  - destruct (ad_approvals d !! _); [done|]. unfold proposeAction. destruct (ad_agents d !! _); [|done].
    destruct (_ || _); [done|]. by destruct (_ || _).
  - unfold completeActionResult. by destruct (own_approval _ _ _ _).
  - unfold approveOrReject. destruct (ad_approvals d !! _); [|done]. by destruct (_ && _).
  - unfold sweepStaleRateLimitCounters, counter. cbn.
    destruct (decide (now - rateLimitWindowSeconds cfg * 2 * 1000 <= w)) as [Hk|Hk]; [left|right; lia].
    f_equal. rewrite map_lookup_filter. destruct (ad_counters d !! (a, w)); simpl; [|done].
    by rewrite option_guard_True.
  - by destruct (sweep_controls d now ctl_id) as (_ & _ & _ & Hs).
  - unfold ensureOperatorAgent. by destruct (ad_agents d !! _).
  - unfold setOperatorDisplayName. destruct (ad_operators d !! _); [|done].
    unfold ensureOperatorAgent. cbn [ad_agents with_operators]. by destruct (ad_agents d !! _).
  - destruct (ad_agents d !! agentId); [done|]. unfold createAgentFromEnrollment.
    destruct (negb _); [done|]. by destruct (select_one _ _).
Qed.

(** The counter of a window that is not over is the number of sends let through. *)
Lemma run_counter tr d t a w n :
  (forall v, a <> "upload:" +:+ v) -> 0 < rateLimitWindowSeconds cfg ->
  timed t tr -> n <= rateLimitMaxMessages cfg ->
  counter d a w = n \/ w + rateLimitWindowSeconds cfg * 1000 <= t ->
  n + sends_in d tr a w <= rateLimitMaxMessages cfg /\
  (counter (run d tr) a w = n + sends_in d tr a w \/
   w + rateLimitWindowSeconds cfg * 1000 <= end_time t tr).
Proof.
  intros Ha HW. revert d t n. induction tr as [|[now op] tr IH]; intros d t n Ht Hn Hc; simpl.
  { rewrite Z.add_0_r. done. }
  destruct Ht as [Hnow Ht].
  assert (Hstep : exists k, (match op with OpSend c b f => if (b ==? a) && (window_start cfg now =? w) &&
     rl_allowed (snd (fst (checkAndIncrementRateLimit cfg d now c b f))) then 1 else 0 | _ => 0 end) = k /\
     n + k <= rateLimitMaxMessages cfg /\
     (counter (exec d now op) a w = n + k \/ w + rateLimitWindowSeconds cfg * 1000 <= now)).
  { eexists. split; [done|]. pose proof (exec_counter d now op a w Ha HW) as He.
    destruct op; try (split; [lia|]; destruct He as [->|He]; [|by right]; destruct Hc; [left|right]; lia).
    cbn [exec]. rewrite send_counter. destruct (_ && _) eqn:G; [|split; [lia|]; destruct Hc; [left|right]; lia].
    apply andb_true_iff in G as [G1 G2]. bools. subst agentId w. apply rl_allowed_iff in G2.
    pose proof (window_start_bounds now HW). destruct Hc as [Hc|Hc]; [|lia]. split; [lia|left; lia]. }
  destruct Hstep as (k & -> & Hk & Hk2). destruct (IH _ now (n + k) Ht Hk Hk2) as [H1 H2].
  rewrite <- !Z.add_assoc in *. done.
Qed.
End Traces.
