(* ===== verification/AgentProperties.v ===== *)
(** * Properties of agents: stops, liveness, rate limits, approvals

    The theorems about [Agents], for every trace of the operations of
    [AgentSafety]. *)

From S2P Require Import Prelude Json IsoTime JsValues Events Config Agents Enrollment AgentSafety.
Import Ascii String.
Open Scope string_scope.
Open Scope Z_scope.

(** ** A concrete relay: one healthy agent, last seen at time 0 *)

Definition demo_row : AgentRow :=
  MkAgent "f" "Tars" "openclaw" Healthy None 0 (Some 0) None 0 None None false true 0.
Definition demo_db : AgentDb := MkAgentDb (<["a1" := demo_row]> ∅) [] [] ∅ ∅ [] ∅.
Definition demo_control (x : ControlAction) (now : Z) : Z * agent_op :=
  (now, OpControl "ctl1" "f" "a1" "op1" x (JObj [])).
Definition demo_beat (now : Z) : Z * agent_op := (now, OpHeartbeat "h1" "a1" "healthy" (JObj [])).
Definition demo_sweep (now : Z) : Z * agent_op := (now, OpSweepLiveness (fun i => "ctl-" +:+ i)).
Definition demo_send (now : Z) : Z * agent_op := (now, OpSend "ctl2" "a1" "f").
Abbreviation demo_run d tr := (@run toy_node default_config d tr).

(** ** Stops *)

(** C31. An agent that is paused, or quarantined for anything but missed
    heartbeats, stays paused or quarantined, and every action it proposes is
    denied, whatever it and the relay's own sweeps do, until an operator
    resumes it. *)
Theorem operator_stop_holds `{NodeCrypto} cfg tr d i a :
  ad_agents d !! i = Some a -> held a = true ->
  Forall (fun x => is_resume i (snd x) = false) tr ->
  exists a', ad_agents (run cfg d tr) !! i = Some a' /\ held a' = true /\
    forall now apr c t s r p, proposeAction (run cfg d tr) now apr i c t s r p = (run cfg d tr, Deny, []).
Proof.
  intros Hi Hh Hf. destruct (run_held cfg tr d i a Hi Hh Hf) as (a' & Ha' & Hh'). exists a'.
  split_and!; [done|done|]. intros. unfold proposeAction. rewrite Ha'.
  apply held_spec in Hh' as [-> | [-> _]]; done.
Qed.

Lemma operator_stop_holds_witness :
  let d := demo_run demo_db [demo_control CPause 1000] in
  exists a a', ad_agents d !! "a1" = Some a /\ held a = true /\
    ad_agents (demo_run d [demo_beat 2000; demo_sweep 900000; demo_beat 901000]) !! "a1" = Some a' /\
    held a' = true.
Proof.
  assert (Ha : exists a, ad_agents (demo_run demo_db [demo_control CPause 1000]) !! "a1" = Some a /\
                         held a = true).
  { eexists. split; vm_compute; reflexivity. }
  destruct Ha as (a & Ha & Hh).
  assert (Hf : Forall (fun x => is_resume "a1" (snd x) = false)
    [demo_beat 2000; demo_sweep 900000; demo_beat 901000]) by (repeat constructor).
  destruct (@operator_stop_holds toy_node default_config _ _ "a1" a Ha Hh Hf) as (a' & Ha' & Hh' & _).
  exists a, a'. exact (conj Ha (conj Hh (conj Ha' Hh'))).
Defined.

(** Status and quarantine bookkeeping agree in every reachable state: an
    agent has a quarantine reason exactly while it is quarantined, and the time
    of an automatic quarantine exactly while the reason is an automatic one. *)
Theorem quarantine_reason_agrees `{NodeCrypto} cfg tr d i a :
  reasons_ok d -> ad_agents (run cfg d tr) !! i = Some a ->
  (ag_status a = Quarantined <-> is_Some (ag_quarantine_reason a)) /\
  (is_Some (ag_auto_quarantined_at a) <->
   ag_quarantine_reason a = Some HeartbeatTimeout \/ ag_quarantine_reason a = Some RateLimitAbuse).
Proof. intros Hd Hi. exact (run_reasons cfg tr d Hd i a Hi). Qed.

Lemma demo_reasons_ok : reasons_ok demo_db.
Proof.
  intros i a Hi. unfold demo_db in Hi. cbn in Hi. rewrite insert_empty in Hi.
  apply lookup_singleton_Some in Hi as [_ <-].
  split; split; cbn; try done; try (by intros [? ?]); naive_solver.
Qed.

Lemma quarantine_reason_agrees_witness :
  exists a, ad_agents (demo_run demo_db [demo_sweep 300000]) !! "a1" = Some a /\
    ag_status a = Quarantined /\
    (ag_status a = Quarantined <-> is_Some (ag_quarantine_reason a)) /\
    (is_Some (ag_auto_quarantined_at a) <->
     ag_quarantine_reason a = Some HeartbeatTimeout \/ ag_quarantine_reason a = Some RateLimitAbuse).
Proof.
  assert (Ha : exists a, ad_agents (demo_run demo_db [demo_sweep 300000]) !! "a1" = Some a /\
                         ag_status a = Quarantined).
  { eexists. split; vm_compute; reflexivity. }
  destruct Ha as (a & Ha & Hs). exists a.
  exact (conj Ha (conj Hs
    (@quarantine_reason_agrees toy_node default_config _ _ "a1" a demo_reasons_ok Ha))).
Defined.

(** What a heartbeat does to the agent that sends it. It lifts a quarantine
    for missed heartbeats, and ends that agent's standing quarantine controls;
    it refreshes an agent that is not stopped, keeping its reason; it changes
    nothing about an agent that an operator or the rate limit stopped, but the
    heartbeat is recorded. No other agent's row changes. *)
Theorem heartbeat_effect d now h i s m a :
  ad_agents d !! i = Some a ->
  let d' := fst (insertHeartbeat d now h i s m) in
  let st := if s ==? "healthy" then Healthy else Degraded in
  ad_agents d' !! i = Some
    (if (ag_status a ==? Quarantined) && (ag_quarantine_reason a ==? Some HeartbeatTimeout)
     then set_seen now 0 (set_status st None None a)
     else if stopped a then a
     else set_seen now 0 (set_status st (ag_auto_quarantined_at a) (ag_quarantine_reason a) a)) /\
  (ag_status a = Quarantined -> ag_quarantine_reason a = Some HeartbeatTimeout ->
   forall c t, c ∈ ad_controls d' -> c_target c = i -> c_action c = CQuarantine -> now <= t ->
     is_standing t (c_expires_at c) = false) /\
  (held a = true -> ad_controls d' = ad_controls d) /\
  ad_heartbeats d' = (ad_heartbeats d ++ [MkHeartbeat h i s m now])%list /\
  (forall j, j <> i -> ad_agents d' !! j = ad_agents d !! j).
Proof.
  intros Hi. cbv zeta. unfold insertHeartbeat. rewrite Hi. destruct (_ && _) eqn:Hq.
  - cbn. bools. split_and!.
    + apply lookup_insert_eq.
    + intros _ _ c t Hc Ht Ha Hle. apply elem_of_update_where in Hc as (c0 & _ & ->).
      destruct (_ && _) eqn:G; simpl; [apply Z.ltb_ge; lia|].
      destruct (is_standing t (c_expires_at c0)) eqn:Hst; [|done].
      assert (Hn : is_standing now (c_expires_at c0) = true).
      { destruct (c_expires_at c0); simpl in *; bools; [apply Z.ltb_lt; lia|done]. }
      simpl in Ht, Ha. rewrite Hn, Ht, Ha, !bool_decide_true in G by set_solver. done.
    + intros [?|[? ?]]%held_spec; congruence.
    + done.
    + intros j Hj. by rewrite lookup_insert_ne.
  - assert (Hne : ~ (ag_status a = Quarantined /\ ag_quarantine_reason a = Some HeartbeatTimeout)).
    { intros [H1 H2]. by rewrite !bool_decide_true in Hq. }
    cbn. unfold stopped. destruct (_ || _); split_and!; try done; try (intros H1 H2; by destruct Hne).
    + apply lookup_insert_eq.
    + intros j Hj. by rewrite lookup_insert_ne.
Qed.

Lemma heartbeat_effect_witness :
  let d := demo_run demo_db [demo_sweep 300000] in
  exists a, ad_agents d !! "a1" = Some a /\ ag_status a = Quarantined /\
    ad_agents (fst (insertHeartbeat d 310000 "h2" "a1" "healthy" (JObj []))) !! "a1" =
      Some (set_seen 310000 0 (set_status Healthy None None a)).
Proof.
  assert (Ha : exists a, ad_agents (demo_run demo_db [demo_sweep 300000]) !! "a1" = Some a /\
    ag_status a = Quarantined /\ ag_quarantine_reason a = Some HeartbeatTimeout).
  { eexists. split_and!; vm_compute; reflexivity. }
  destruct Ha as (a & Ha & Hs & Hr). exists a.
  destruct (heartbeat_effect (demo_run demo_db [demo_sweep 300000]) 310000 "h2" "a1" "healthy" (JObj []) a Ha)
    as [H1 _].
  rewrite Hs, Hr in H1. exact (conj Ha (conj Hs H1)).
Defined.

(** ** The liveness sweep *)

(** The liveness sweep is exact. It quarantines an agent exactly when that
    agent is healthy or degraded, has been seen before, and gave no sign of life
    (its last heartbeat or a live operator resume) for the whole liveness
    window; it issues one quarantine control per agent it stops and returns
    their number; a stopped or never seen agent is left exactly as it was. *)
Theorem liveness_sweep_exact cfg d now ctl i a :
  0 < heartbeatTimeoutSeconds cfg -> ad_agents d !! i = Some a ->
  let '(d', n, _) := sweepHeartbeatLiveness cfg d now ctl in
  let silent := watched a = true /\
    heartbeatTimeoutSeconds cfg * heartbeatLivenessThreshold cfg * 1000 <=
    now - Z.max (default 0 (ag_last_seen_at a)) (default 0 (resumed_at cfg d now (ag_fleet a) i)) in
  exists a', ad_agents d' !! i = Some a' /\
    (silent -> ag_status a' = Quarantined /\ ag_quarantine_reason a' = Some HeartbeatTimeout /\
               ag_auto_quarantined_at a' = Some now) /\
    (~ silent -> ag_status a' = ag_status a /\ ag_quarantine_reason a' = ag_quarantine_reason a) /\
    (watched a = false -> a' = a) /\
    (n + length (ad_controls d) = length (ad_controls d'))%nat /\
    (silent <-> exists c, c ∈ drop (length (ad_controls d)) (ad_controls d') /\ c_target c = i).
Proof.
  intros HT Hi. pose proof (sweep_agent cfg d now ctl i) as Ha.
  pose proof (sweep_controls cfg d now ctl) as (Hc & Hn & _).
  destruct (sweepHeartbeatLiveness cfg d now ctl) as [[d' n] es]. cbn [fst snd] in *.
  set (rows := List.filter _ (List.filter _ _)) in Hc, Hn.
  set (silent := _ /\ _).
  assert (Hsil : silent <-> watched a = true /\ lost cfg d now i a = true).
  { unfold silent, lost, missed_heartbeats. rewrite Z.leb_le. apply and_iff_compat_l.
    set (x := now - _). set (T := heartbeatTimeoutSeconds cfg) in *. set (k := heartbeatLivenessThreshold cfg).
    split; intros Hx.
    - apply Z.div_le_lower_bound; lia.
    - pose proof (Z.mul_div_le x (T * 1000)). nia. }
  exists (if watched a then swept cfg d now i a else a). rewrite Ha, Hi. split; [done|].
  rewrite Hsil, Hc, length_app, length_map, Hn, drop_app_length.
  unfold swept. split_and!.
  - by intros [-> ->].
  - intros Hns. destruct (watched a); [|done]. destruct (lost cfg d now i a); [by destruct Hns|done].
  - by intros ->.
  - lia.
  - assert (Hrow : forall j b, (j, b) ∈ rows <->
      ad_agents d !! j = Some b /\ watched b = true /\ lost cfg d now j b = true).
    { intros j b. unfold rows. rewrite list_elem_of_In, filter_In, <- list_elem_of_In, watched_rows_spec. tauto. }
    split.
    + intros [Hw Hl]. eexists. split.
      * apply list_elem_of_In, in_map_iff. exists (i, a). split; [reflexivity|].
        apply list_elem_of_In, Hrow. done.
      * done.
    + intros (c & Hcin & Ht). apply list_elem_of_In, in_map_iff in Hcin as ([j b] & <- & Hb).
      apply list_elem_of_In, Hrow in Hb as (Hj & Hw & Hl). simpl in Ht. subst j. by simplify_eq.
Qed.

Lemma liveness_sweep_exact_witness :
  0 < heartbeatTimeoutSeconds default_config /\
  let '(d', n, _) := sweepHeartbeatLiveness default_config demo_db 270000 (fun i => i) in
  exists a', ad_agents d' !! "a1" = Some a' /\ ag_status a' = Quarantined /\ n = 1%nat.
Proof.
  assert (HT : 0 < heartbeatTimeoutSeconds default_config) by (cbn; lia). split; [exact HT|].
  assert (Hi : ad_agents demo_db !! "a1" = Some demo_row) by (vm_compute; reflexivity).
  assert (Hr : resumed_at default_config demo_db 270000 (ag_fleet demo_row) "a1" = None)
    by (vm_compute; reflexivity).
  assert (Hn : snd (fst (sweepHeartbeatLiveness default_config demo_db 270000 (fun i => i))) = 1%nat)
    by (vm_compute; reflexivity).
  pose proof (liveness_sweep_exact default_config demo_db 270000 (fun i => i) "a1" demo_row HT Hi) as H.
  destruct (sweepHeartbeatLiveness default_config demo_db 270000 (fun i => i)) as [[d' n] es].
  destruct H as (a' & Ha' & Hs & _). exists a'. split; [exact Ha'|]. split; [|exact Hn].
  apply Hs. rewrite Hr. cbn. split; [reflexivity|lia].
Defined.

(** Resume gives grace: once an operator has resumed an agent, and whatever
    happens afterwards, no liveness sweep before the end of one full liveness
    window changes that agent's status. *)
Theorem resume_grants_grace `{NodeCrypto} cfg d r ctl0 f i o p tr now ctl :
  0 < heartbeatTimeoutSeconds cfg ->
  snd (fst (controlAgent d r ctl0 f i o CResume p)) = true ->
  now < r + heartbeatTimeoutSeconds cfg * heartbeatLivenessThreshold cfg * 1000 ->
  let d1 := run cfg (fst (fst (controlAgent d r ctl0 f i o CResume p))) tr in
  exists a a', ad_agents d1 !! i = Some a /\
    ad_agents (fst (fst (sweepHeartbeatLiveness cfg d1 now ctl))) !! i = Some a' /\
    ag_status a' = ag_status a /\ ag_quarantine_reason a' = ag_quarantine_reason a.
Proof.
  intros HT Hok Hnow. cbv zeta.
  destruct (fleet_agent d f i) as [a0|] eqn:Hf; [|by unfold controlAgent in Hok; rewrite Hf in Hok].
  set (d0 := fst (fst (controlAgent d r ctl0 f i o CResume p))).
  set (c := MkControl ctl0 f i CResume p o r (Some (addSeconds r 3600))).
  assert (Hd0 : (exists a, ad_agents d0 !! i = Some a /\ ag_fleet a = f) /\ c ∈ ad_controls d0).
  { unfold d0, controlAgent. rewrite Hf. apply fleet_agent_Some in Hf as (Hi & <- & _). cbn.
    rewrite lookup_insert_eq. split; [by eexists|]. apply elem_of_app. right. by left. }
  destruct Hd0 as [(a1 & Ha1 & Hfl) Hc].
  destruct (run_fleet cfg tr d0 i a1 Ha1) as (a & Ha & Hfa & _). exists a.
  rewrite sweep_agent, Ha. simpl.
  exists (if watched a then swept cfg (run cfg d0 tr) now i a else a). split_and!; [done|done|..];
    (destruct (watched a) eqn:Hw; [|done]); unfold swept;
    (assert (Hl : lost cfg (run cfg d0 tr) now i a = false); [|by rewrite Hl]);
    unfold lost, missed_heartbeats; apply Z.leb_gt;
    apply Z.div_lt_upper_bound; try lia;
    pose proof (resumed_at_ge cfg (run cfg d0 tr) now (ag_fleet a) i c
      (run_resume_stays cfg tr d0 c Hc eq_refl)) as Hge; cbn in Hge;
    specialize (Hge ltac:(congruence) eq_refl eq_refl ltac:(lia)); lia.
Qed.

Lemma resume_grants_grace_witness :
  let d := demo_run demo_db [demo_sweep 300000] in
  snd (fst (controlAgent d 310000 "c9" "f" "a1" "op1" CResume (JObj []))) = true /\
  exists a a',
    ad_agents (demo_run (fst (fst (controlAgent d 310000 "c9" "f" "a1" "op1" CResume (JObj [])))) [demo_sweep 400000])
      !! "a1" = Some a /\
    ad_agents (fst (fst (sweepHeartbeatLiveness default_config
      (demo_run (fst (fst (controlAgent d 310000 "c9" "f" "a1" "op1" CResume (JObj [])))) [demo_sweep 400000])
      579999 (fun i => i)))) !! "a1" = Some a' /\
    ag_status a' = ag_status a /\ ag_quarantine_reason a' = ag_quarantine_reason a.
Proof.
  assert (HT : 0 < heartbeatTimeoutSeconds default_config) by (cbn; lia).
  assert (Hok : snd (fst (controlAgent (demo_run demo_db [demo_sweep 300000]) 310000 "c9" "f" "a1" "op1"
    CResume (JObj []))) = true) by (vm_compute; reflexivity).
  assert (Hn : 579999 < 310000 + heartbeatTimeoutSeconds default_config *
    heartbeatLivenessThreshold default_config * 1000) by (cbn; lia).
  exact (conj Hok (@resume_grants_grace toy_node default_config _ 310000 "c9" "f" "a1" "op1" (JObj [])
    [demo_sweep 400000] 579999 (fun i => i) HT Hok Hn)).
Defined.

(** ** The rate limit *)

(** The rate limit is exact. From a relay with no counters, and over any
    trace in which time does not run backwards, an agent gets at most
    [rateLimitMaxMessages] sends through in any one window, sweeps of old
    counters included; and its next send is let through exactly when fewer than
    the limit were let through in the current window. *)
Theorem rate_limit_exact `{NodeCrypto} cfg tr d t0 a w :
  0 < rateLimitWindowSeconds cfg -> 0 <= rateLimitMaxMessages cfg ->
  (forall u, a <> "upload:" +:+ u) -> ad_counters d = ∅ -> timed t0 tr ->
  sends_in cfg d tr a w <= rateLimitMaxMessages cfg /\
  (forall now ctl f, end_time t0 tr <= now ->
     rl_allowed (snd (fst (checkAndIncrementRateLimit cfg (run cfg d tr) now ctl a f))) = true <->
     sends_in cfg d tr a (window_start cfg now) < rateLimitMaxMessages cfg).
Proof.
  intros HW Hlim Ha Hd Ht.
  assert (H0 : forall v, counter d a v = 0 \/ v + rateLimitWindowSeconds cfg * 1000 <= t0).
  { intros v. left. unfold counter. by rewrite Hd, lookup_empty. }
  split.
  - destruct (run_counter cfg tr d t0 a w 0 Ha HW Ht Hlim (H0 w)) as [H1 _]. lia.
  - intros now ctl f Hnow. rewrite rl_allowed_iff.
    destruct (run_counter cfg tr d t0 a (window_start cfg now) 0 Ha HW Ht Hlim (H0 _)) as [_ [-> | H2]]; [done|].
    pose proof (window_start_bounds cfg now HW). lia.
Qed.

Lemma rate_limit_exact_witness :
  let cfg := default_config in
  sends_in (H := toy_node) cfg demo_db [demo_send 60000; demo_send 61000; demo_send 62000] "a1" 60000 = 3 /\
  sends_in (H := toy_node) cfg demo_db [demo_send 60000; demo_send 61000; demo_send 62000] "a1" 60000 <= 30.
Proof.
  assert (Hu : forall u, "a1" <> "upload:" +:+ u) by (intros u; discriminate).
  assert (Ht : timed 0 [demo_send 60000; demo_send 61000; demo_send 62000]) by (cbn; lia).
  split; [vm_compute; reflexivity|].
  apply (@rate_limit_exact toy_node default_config _ demo_db 0 "a1" 60000);
    [cbn; lia|cbn; lia|exact Hu|reflexivity|exact Ht].
Defined.

(** ** Approvals *)

(** An operator's decision on an approval is taken by an operator of the
    approval's own fleet, while it is pending, and once: afterwards, whatever
    happens, the row keeps the operator who decided and the request that was
    decided on, and no further approve or reject takes effect. *)
Theorem approval_decided_once `{NodeCrypto} cfg d now i f o b tr :
  snd (fst (approveOrReject d now i f o b)) = true ->
  exists a, ad_approvals d !! i = Some a /\ ap_fleet a = f /\ ap_status a = "pending" /\
  let d' := run cfg (fst (fst (approveOrReject d now i f o b))) tr in
  (exists a', ad_approvals d' !! i = Some a' /\ same_request a a' /\ ap_resolved_by a' = Some o) /\
  (forall now' f' o' b', approveOrReject d' now' i f' o' b' = (d', false, [])).
Proof.
  intros Hok. unfold approveOrReject in Hok.
  destruct (ad_approvals d !! i) as [a|] eqn:Hi; [|done].
  destruct (_ && _) eqn:G; [|done]. exists a. bools.
  set (d1 := fst (fst (approveOrReject d now i f o b))).
  assert (Hd1 : ad_approvals d1 !! i = Some (resolve (if b then "approved" else "rejected") now (Some o) a)).
  { unfold d1, approveOrReject. rewrite Hi, !bool_decide_true by done. cbn. apply lookup_insert_eq. }
  destruct (run_approval cfg tr d1 i _ Hd1) as (a' & Ha' & Hs & Hp).
  destruct Hp as [Hst Hby]; [by destruct b|].
  split; [done|]. split; [done|]. split; [done|]. cbv zeta. split.
  - exists a'. split_and!; done.
  - intros now' f' o' b'. unfold approveOrReject. rewrite Ha'.
    by rewrite (bool_decide_false (ap_status a' = "pending")), andb_false_r.
Qed.

Definition demo_apr : AgentDb :=
  demo_run demo_db [(5000, OpPropose "apr1" "a1" "c" "deploy" "ship it" "high" (JObj []))].

Lemma approval_decided_once_witness :
  snd (fst (approveOrReject demo_apr 6000 "apr1" "f" "op1" false)) = true /\
  exists a', ad_approvals (demo_run (fst (fst (approveOrReject demo_apr 6000 "apr1" "f" "op1" false)))
       [(7000, OpResolve "apr1" "f" "op2" true); (8000, OpComplete "apr1" "f" "a1" Cancelled (JObj []))])
     !! "apr1" = Some a' /\ ap_resolved_by a' = Some "op1".
Proof.
  assert (Hok : snd (fst (approveOrReject demo_apr 6000 "apr1" "f" "op1" false)) = true)
    by (vm_compute; reflexivity).
  split; [exact Hok|].
  destruct (@approval_decided_once toy_node default_config demo_apr 6000 "apr1" "f" "op1" false
    [(7000, OpResolve "apr1" "f" "op2" true); (8000, OpComplete "apr1" "f" "a1" Cancelled (JObj []))] Hok)
    as (a & _ & _ & _ & (a' & Ha' & _ & Hby) & _).
  exists a'. exact (conj Ha' Hby).
Defined.

(** What an agent may do with a proposal: it is allowed at once exactly when
    the agent exists, is neither paused nor quarantined and the risk is neither
    high nor critical; a high or critical one waits for an operator under a
    pending approval in the agent's own fleet, which only that agent can read. *)
Theorem proposal_gate d now apr i c t s r p a :
  ad_agents d !! i = Some a ->
  let risky := r = "high" \/ r = "critical" in
  let '(d', dec, _) := proposeAction d now apr i c t s r p in
  (dec = Deny <-> stopped a = true) /\
  (dec = Allow <-> stopped a = false /\ ~ risky) /\
  (dec = PendingApproval apr <-> stopped a = false /\ risky) /\
  (dec <> PendingApproval apr -> d' = d) /\
  (dec = PendingApproval apr ->
     getApprovalStatus d' apr (ag_fleet a) i = Some ("pending", t, r, s, now, None) /\
     forall f' i', (f', i') <> (ag_fleet a, i) -> getApprovalStatus d' apr f' i' = None).
Proof.
  intros Hi. cbv zeta. unfold proposeAction. rewrite Hi. unfold stopped.
  destruct ((ag_status a ==? Quarantined) || (ag_status a ==? Paused)) eqn:Hs.
  - rewrite orb_comm in Hs. rewrite Hs. cbv iota beta. split_and!; try done; split; try done; by intros [? _].
  - rewrite orb_comm in Hs. rewrite Hs. clear Hs.
    assert (Hrisk : ((r ==? "high") || (r ==? "critical")) = true <-> r = "high" \/ r = "critical").
    { by rewrite orb_true_iff, !bool_decide_eq_true. }
    destruct ((r ==? "high") || _); cbv iota beta.
    + assert (Hr : r = "high" \/ r = "critical") by by apply Hrisk.
      split; [done|]. split; [split; [done|by intros [_ []]]|]. split; [done|]. split; [done|].
      intros _. unfold getApprovalStatus, own_approval. cbn. rewrite lookup_insert_eq. cbn. split.
      * by rewrite !bool_decide_true.
      * intros f' i' Hne. destruct (_ && _) eqn:E; [|done].
        apply andb_true_iff in E as [E1%bool_decide_eq_true E2%bool_decide_eq_true]. by subst.
    + assert (Hr : ~ (r = "high" \/ r = "critical")) by (intros Hr%Hrisk; done).
      split; [done|]. split; [done|]. split; [split; [done|by intros [_ ?]]|]. split; done.
Qed.

Lemma proposal_gate_witness :
  ad_agents demo_db !! "a1" = Some demo_row /\
  let '(d', dec, _) := proposeAction demo_db 5000 "apr1" "a1" "c" "deploy" "ship it" "high" (JObj []) in
  dec = PendingApproval "apr1" <-> stopped demo_row = false /\ ("high" = "high" \/ "high" = "critical").
Proof.
  assert (Hi : ad_agents demo_db !! "a1" = Some demo_row) by (vm_compute; reflexivity).
  split; [exact Hi|].
  pose proof (proposal_gate demo_db 5000 "apr1" "a1" "c" "deploy" "ship it" "high" (JObj []) demo_row Hi) as H.
  destruct (proposeAction demo_db 5000 "apr1" "a1" "c" "deploy" "ship it" "high" (JObj [])) as [[d' dec] es].
  destruct H as (_ & _ & H & _). exact H.
Defined.
