(* ===== verification/EnrollmentProperties.v ===== *)
(** * Properties of enrolment and request authentication

    Traces of the operations that write the enrolment tables ([auth_op]), and the
    theorems: what [requireAgentAuth] accepts, that an accepted request is never
    accepted again, and that an enrolment token is used once. *)

From S2P Require Import Prelude Json IsoTime JsValues Events Config Agents Enrollment.
Import Ascii String.
Open Scope string_scope.
Open Scope Z_scope.

(** ** Traces *)

(** Each operation that reads the agents carries the agent table it reads. *)
Inductive auth_op :=
  | AIssue (tokenId tok fleetId operatorId : string)
  | AEnroll (d : AgentDb) (agentId secret credId fleetId token displayName runtime : string)
      (hostname : option string)
  | ARequest (d : AgentDb) (r : SignedRequest)
  | AEnvelope (agentId nonce : string)
  | ASweepNonces.

Section Traces.
Context `{NodeCrypto} (cfg : Config).

(** [enrollment_tokens.token_hash] is UNIQUE: issuing a duplicate throws. *)
Definition exec_auth (e : EnrollDb) (now : Z) (op : auth_op) : EnrollDb :=
  match op with
  | AIssue i k f o =>
      if exists_row (fun t => t_hash t ==? hashSecret (i +:+ "." +:+ k)) (ed_tokens e) then e
      else fst (issueEnrollmentToken e now i k f o)
  | AEnroll d i s c f t n r h => fst (fst (createAgentFromEnrollment e d now i s c f t n r h))
  | ARequest d r => fst (requireAgentAuth cfg e d now r)
  | AEnvelope a n => fst (claimEnvelopeNonce e now a n)
  | ASweepNonces => fst (sweepStaleNonces cfg e now)
  end.

Fixpoint run_auth (e : EnrollDb) (tr : list (Z * auth_op)) : EnrollDb :=
  match tr with [] => e | (now, op) :: tr' => run_auth (exec_auth e now op) tr' end.

(** The clock does not run backwards from [t], nor past [t']. *)
Fixpoint auth_timed (t : Z) (tr : list (Z * auth_op)) (t' : Z) : Prop :=
  match tr with [] => t <= t' | (now, _) :: tr' => t <= now /\ auth_timed now tr' t' end.

(** ** Nonces *)

Lemma claimNonce_lookup e now a n b k :
  ed_nonces (fst (claimNonce e now a n)) !! (b, k) =
  match ed_nonces e !! (b, k) with
  | Some t => Some t
  | None => if (a ==? b) && (n ==? k) then Some now else None
  end.
Proof.
  unfold claimNonce. destruct (ed_nonces e !! (a, n)) as [t|] eqn:E; cbn.
  - destruct (ed_nonces e !! (b, k)) eqn:E2; [done|]. destruct (_ && _) eqn:G; [|done].
    apply andb_true_iff in G as [->%bool_decide_eq_true ->%bool_decide_eq_true]. congruence.
  - destruct (decide ((a, n) = (b, k))) as [Heq|Hne].
    + injection Heq as -> ->. by rewrite lookup_insert_eq, E, !bool_decide_true.
    + rewrite lookup_insert_ne by done. destruct (ed_nonces e !! (b, k)); [done|].
      destruct (_ && _) eqn:G; [|done].
      apply andb_true_iff in G as [->%bool_decide_eq_true ->%bool_decide_eq_true]. done.
Qed.

Lemma requireAgentAuth_nonces e d now r :
  exists a n, ed_nonces (fst (requireAgentAuth cfg e d now r)) = ed_nonces e \/
    ed_nonces (fst (requireAgentAuth cfg e d now r)) = ed_nonces (fst (claimNonce e now a n)).
Proof.
  unfold requireAgentAuth.
  destruct (rq_agent_id r) as [a|]; [|by exists "", ""; left].
  destruct (rq_timestamp r) as [ts|]; [|by exists "", ""; left].
  destruct (rq_nonce r) as [n|]; [|by exists "", ""; left]. exists a, n.
  destruct (rq_signature r), (rq_secret r) as [sec|]; try by left.
  destruct (authenticateAgent e d a) as [[ag h]|]; [|by left]. destruct (negb _); [by left|].
  destruct (date_parse ts); [|by left]. destruct (_ <? _); [by left|]. destruct (negb _); [by left|].
  right. by destruct (claimNonce e now a n) as [e' []].
Qed.

(** A nonce outlives every sweep for twice the allowed clock skew. *)
Lemma exec_auth_nonce e now op a n t :
  2 * timestampSkewSeconds cfg <= envelopeNonceRetentionSeconds cfg ->
  ed_nonces e !! (a, n) = Some t ->
  ed_nonces (exec_auth e now op) !! (a, n) = Some t \/ t + 2 * timestampSkewSeconds cfg * 1000 < now.
Proof.
  intros Hr Hn. destruct op; cbn [exec_auth].
  - left. by destruct (exists_row _ _).
  - left. unfold createAgentFromEnrollment. destruct (negb _); [done|]. by destruct (select_one _ _).
  - left. destruct (requireAgentAuth_nonces e d now r) as (b & k & [-> | ->]); [done|].
    by rewrite claimNonce_lookup, Hn.
  - left. unfold claimEnvelopeNonce. by rewrite claimNonce_lookup, Hn.
  - cbn. rewrite map_lookup_filter, Hn. simpl.
    destruct (nonce_fresh cfg now n t) eqn:Hf; [left; by rewrite option_guard_True|].
    right. unfold nonce_fresh in Hf. destruct (like_env n); apply Z.leb_gt in Hf; lia.
Qed.

Lemma run_auth_nonce tr e t0 t1 a n t :
  2 * timestampSkewSeconds cfg <= envelopeNonceRetentionSeconds cfg ->
  auth_timed t0 tr t1 -> ed_nonces e !! (a, n) = Some t ->
  ed_nonces (run_auth e tr) !! (a, n) = Some t \/ t + 2 * timestampSkewSeconds cfg * 1000 < t1.
Proof.
  intros Hr. revert e t0. induction tr as [|[now op] tr IH]; intros e t0 Ht Hn; [by left|].
  destruct Ht as [H0 Ht]. simpl.
  destruct (exec_auth_nonce e now op a n t Hr Hn) as [Hn'|Hlt]; [by eapply IH|]. right.
  assert (Hle : forall tr t0, auth_timed t0 tr t1 -> t0 <= t1).
  { clear. induction tr as [|[now op] tr IH]; simpl; [done|]. intros t0 [? ?%IH]. lia. }
  apply Hle in Ht. lia.
Qed.

(** ** What [requireAgentAuth] accepts *)

(** The conditions of the source, in one proposition. *)
Definition acceptable (e : EnrollDb) (d : AgentDb) (now : Z) (r : SignedRequest)
    (i ts n : string) (a : AgentRow) : Prop :=
  rq_agent_id r = Some i /\ rq_timestamp r = Some ts /\ rq_nonce r = Some n /\
  (exists sec t, rq_secret r = Some sec /\
     authenticateAgent e d i = Some (a, hashSecret sec) /\
     date_parse ts = Some t /\ Z.abs (now - t) <= timestampSkewSeconds cfg * 1000 /\
     rq_signature r = Some (node_hmac_sha256 sec (request_payload r ts n))) /\
  ed_nonces e !! (i, n) = None.

Lemma requireAgentAuth_Ok e d now r e' i f st :
  requireAgentAuth cfg e d now r = (e', Ok (i, f, st)) <->
  exists ts n a, acceptable e d now r i ts n a /\ f = ag_fleet a /\ st = ag_status a /\
    e' = with_nonces (<[(i, n) := now]> (ed_nonces e)) e.
Proof.
  unfold requireAgentAuth, acceptable. split.
  - destruct (rq_agent_id r) as [i0|]; [|done]. destruct (rq_timestamp r) as [ts|]; [|done].
    destruct (rq_nonce r) as [n|]; [|done]. destruct (rq_signature r) as [sig|] eqn:Hsig; [|done].
    destruct (rq_secret r) as [sec|]; [|done].
    destruct (authenticateAgent e d i0) as [[a h]|] eqn:Hau; [|done].
    destruct (negb _) eqn:G1; [done|]. destruct (date_parse ts) as [t|] eqn:Hd; [|done].
    destruct (_ <? _) eqn:G2; [done|]. destruct (negb (_ ==? sig)) eqn:G3; [done|].
    unfold claimNonce. destruct (ed_nonces e !! (i0, n)) eqn:Hn; [done|].
    intros [= <- <- <- <-]. bools. subst. exists ts, n, a. split_and!; try done. by exists sec, t.
  - intros (ts & n & a & (-> & -> & -> & (sec & t & -> & Hau & Hd & Hle & ->) & Hn) & -> & -> & ->).
    rewrite Hau, bool_decide_true by done. cbn [negb]. rewrite Hd.
    rewrite (proj2 (Z.ltb_ge _ _)) by lia. rewrite bool_decide_true by done. cbn [negb].
    unfold claimNonce. by rewrite Hn.
Qed.

Lemma requireAgentAuth_refused e d now r e' x :
  requireAgentAuth cfg e d now r = (e', Throw x) -> e' = e.
Proof.
  unfold requireAgentAuth, claimNonce. intros Hr.
  repeat (match type of Hr with context [match ?y with _ => _ end] =>
    lazymatch y with context [match _ with _ => _ end] => fail | _ => destruct y end end; try congruence).
Qed.

(** ** Enrolment tokens *)

Definition tokens_ok (e : EnrollDb) : Prop := NoDup (map t_hash (ed_tokens e)).

(** The token of a hash exists and was used. *)
Definition spent (h : string) (e : EnrollDb) : Prop :=
  exists t, t ∈ ed_tokens e /\ t_hash t = h /\ t_used_at t <> None.

Lemma enroll_tokens e d now i s c f tok n r h :
  map t_hash (ed_tokens (fst (fst (createAgentFromEnrollment e d now i s c f tok n r h)))) =
  map t_hash (ed_tokens e).
Proof.
  unfold createAgentFromEnrollment. destruct (negb _); cbn; [by apply map_update_where|].
  destruct (select_one _ _); cbn; [|by apply map_update_where].
  rewrite map_update_where by done. by apply map_update_where.
Qed.

Lemma exec_tokens_ok e now op : tokens_ok e -> tokens_ok (exec_auth e now op).
Proof.
  unfold tokens_ok. intros Hok. destruct op; cbn [exec_auth].
  - destruct (exists_row _ _) eqn:E; [done|]. cbn. rewrite map_app. apply NoDup_app. split_and!; [done| |].
    + intros h Hh Hin. apply list_elem_of_singleton in Hin as ->.
      apply list_elem_of_In, in_map_iff in Hh as (t & Ht & Hin%list_elem_of_In).
      pose proof (proj1 (exists_row_false _ _) E t Hin) as Hf. by bools.
    + apply NoDup_singleton.
  - by rewrite enroll_tokens.
  - destruct (requireAgentAuth cfg e d now r) as [e' [[[i f] st]|x]] eqn:E.
    + apply requireAgentAuth_Ok in E as (ts & n & a & _ & _ & _ & ->). done.
    + by apply requireAgentAuth_refused in E as ->.
  - unfold claimEnvelopeNonce, claimNonce. by destruct (_ !! _).
  - done.
Qed.

Lemma spent_update p f h (ts : list TokenRow) t :
  (forall x, t_hash (f x) = t_hash x) -> (forall x, t_used_at x <> None -> t_used_at (f x) <> None) ->
  t ∈ ts -> t_hash t = h -> t_used_at t <> None ->
  exists t', t' ∈ update_where p f ts /\ t_hash t' = h /\ t_used_at t' <> None.
Proof.
  intros Hh Hu Ht He Hn. exists (if p t then f t else t). split; [by apply update_where_lookup|].
  destruct (p t); [|done]. rewrite Hh. auto.
Qed.

Lemma exec_spent h e now op : spent h e -> spent h (exec_auth e now op).
Proof.
  intros (t & Ht & He & Hu). destruct op; cbn [exec_auth].
  - destruct (exists_row _ _); exists t; [done|]. split; [|done]. cbn. apply elem_of_app. by left.
  - unfold createAgentFromEnrollment.
    assert (H1 : forall p, exists t', t' ∈ update_where p (claim_token now) (ed_tokens e) /\
              t_hash t' = h /\ t_used_at t' <> None) by (intros p; by eapply spent_update).
    destruct (negb _); [apply H1|]. destruct (select_one _ _); [|apply H1].
    destruct (H1 (claimable now (hashSecret token) fleetId)) as (t1 & Ht1 & He1 & Hu1). by eapply spent_update.
  - destruct (requireAgentAuth cfg e d now r) as [e' [[[i f] st]|x]] eqn:E.
    + apply requireAgentAuth_Ok in E as (ts & n & a & _ & _ & _ & ->). by exists t.
    + apply requireAgentAuth_refused in E as ->. by exists t.
  - unfold claimEnvelopeNonce, claimNonce. destruct (_ !! _); by exists t.
  - by exists t.
Qed.

Lemma run_auth_spent h tr e :
  tokens_ok e -> spent h e -> tokens_ok (run_auth e tr) /\ spent h (run_auth e tr).
Proof.
  revert e. induction tr as [|[now op] tr IH]; intros e Hok Hs; [done|].
  apply IH; [by apply exec_tokens_ok|by apply exec_spent].
Qed.

Lemma claimable_iff now h f t :
  claimable now h f t = true <->
  t_hash t = h /\ t_fleet t = f /\ t_used_at t = None /\ now < t_expires_at t.
Proof. unfold claimable. rewrite !andb_true_iff, !bool_decide_eq_true, Z.ltb_lt. tauto. Qed.

Lemma claimable_le_one e now h f :
  tokens_ok e -> (changes (claimable now h f) (ed_tokens e) <= 1)%nat.
Proof.
  intros Hok. apply changes_unique with (k := t_hash); [done|].
  intros t u (-> & _)%claimable_iff (-> & _)%claimable_iff. done.
Qed.

(** An agent whose only credential is the one just written. *)
Lemma only_credential e i a c now s :
  (forall cr, cr ∈ ed_credentials e -> cr_agent cr <> i) ->
  forall e' d', ad_agents d' !! i = Some a -> ag_revoked_at a = None ->
  ed_credentials e' = (ed_credentials e ++ [MkCredential c i (hashSecret s) "active" now])%list ->
  authenticateAgent e' d' i = Some (a, hashSecret s).
Proof.
  intros Hcr e' d' Ha Hrev He. unfold authenticateAgent. rewrite Ha, bool_decide_true, He by done.
  unfold select. rewrite List.filter_app.
  assert (List.filter (fun x => (cr_agent x ==? i) && (cr_status x ==? "active")) (ed_credentials e) = []) as ->.
  { apply filter_nil. intros y Hy. by rewrite bool_decide_false by by apply Hcr. }
  cbn. by rewrite bool_decide_true.
Qed.

Lemma enroll_spent e d now i s c f tok n r h x :
  snd (createAgentFromEnrollment e d now i s c f tok n r h) = Some x ->
  spent (hashSecret tok) (fst (fst (createAgentFromEnrollment e d now i s c f tok n r h))).
Proof.
  unfold createAgentFromEnrollment. set (hit := claimable now (hashSecret tok) f).
  destruct (_ =? 1)%nat eqn:Hc; cbn [negb]; [|done]. apply Nat.eqb_eq in Hc.
  destruct (proj1 (changes_pos hit (ed_tokens e)) ltac:(lia)) as (t & Ht & Hh).
  destruct (select_one _ _) as [tk|]; [|done]. intros _. cbn.
  pose proof (update_where_lookup hit (claim_token now) _ t Ht) as Hin. rewrite Hh in Hin.
  apply claimable_iff in Hh as (H1 & _).
  unfold spent; cbn. by eapply (spent_update _ _ _ (update_where hit _ _) (claim_token now t)).
Qed.

Lemma claimable_spent e now f tok :
  tokens_ok e -> spent (hashSecret tok) e ->
  changes (claimable now (hashSecret tok) f) (ed_tokens e) = O.
Proof.
  intros Hok (t & Ht & He & Hu). apply changes_zero. intros x Hx. unfold claimable.
  destruct (decide (t_hash x = hashSecret tok)) as [Heq|Hne]; [|by rewrite bool_decide_false].
  assert (x = t) as -> by (eapply NoDup_map_inj; [exact Hok|done|done|congruence]).
  rewrite (bool_decide_false (t_used_at t = None)) by done. by rewrite !andb_false_r.
Qed.
End Traces.

(** ** A concrete relay: one enrolled agent and its signed request *)

Definition demo_agent_db : AgentDb :=
  MkAgentDb (<["a1" := fresh_agent "f" "Tars" "openclaw" None 0]> ∅) [] [] ∅ ∅ [] ∅.
Definition demo_enroll : EnrollDb :=
  MkEnrollDb (<["f" := MkFleet "fleet" 0]> ∅) [] [MkCredential "cred1" "a1" "s3cret" "active" 0] ∅.
Definition demo_ts : string := "2026-01-01T00:00:00.000Z".
Definition demo_now : Z := default 0 (parse_iso demo_ts).
Definition demo_request : SignedRequest :=
  let r sig := MkRequest (Some "a1") (Some demo_ts) (Some "n1") sig (Some "s3cret") "POST" "/v1/messages" "{}" in
  r (Some (@node_hmac_sha256 toy_node "s3cret" (@request_payload toy_node (r None) demo_ts "n1"))).

(** ** Authentication *)

(** [requireAgentAuth] accepts a request exactly when every header is
    present, the agent is known and not revoked, the shared secret hashes to its
    newest active credential, the timestamp parses and lies within the allowed
    skew, the signature is the HMAC of the request under that secret, and the
    nonce is new for that agent; it then answers the agent's own fleet and status
    and writes the nonce only. A refused request changes nothing, so a forged one
    cannot burn an agent's nonce. *)
Theorem requireAgentAuth_rules `{NodeCrypto} cfg e d now r :
  (forall e' i f st,
     requireAgentAuth cfg e d now r = (e', Ok (i, f, st)) <->
     exists ts n a, acceptable cfg e d now r i ts n a /\ f = ag_fleet a /\ st = ag_status a /\
       e' = with_nonces (<[(i, n) := now]> (ed_nonces e)) e) /\
  (forall e' x, requireAgentAuth cfg e d now r = (e', Throw x) -> e' = e).
Proof.
  split; [intros; apply requireAgentAuth_Ok|intros; by eapply requireAgentAuth_refused].
Qed.

(** C30. Replay defence: an accepted request is never accepted again. Whatever
    the relay does in between, the pruning of old nonces included, no later
    request with the same agent, timestamp and nonce is let through: its nonce is
    still remembered, or its timestamp is outside the allowed skew. *)
Theorem accepted_request_never_replayed `{NodeCrypto} cfg e d now r e1 v tr d2 now2 r2 :
  0 <= timestampSkewSeconds cfg ->
  2 * timestampSkewSeconds cfg <= envelopeNonceRetentionSeconds cfg ->
  requireAgentAuth cfg e d now r = (e1, Ok v) -> auth_timed now tr now2 ->
  rq_agent_id r2 = rq_agent_id r -> rq_timestamp r2 = rq_timestamp r -> rq_nonce r2 = rq_nonce r ->
  is_ok (snd (requireAgentAuth cfg (run_auth cfg e1 tr) d2 now2 r2)) = false.
Proof.
  intros Hs Hret Hok Ht Ha2 Hts2 Hn2. destruct v as [[i f] st].
  apply requireAgentAuth_Ok in Hok as (ts & n & a & (Ha & Hts & Hn & (sec & t & _ & _ & Hd & Hle & _) & _) & _ & _ & ->).
  destruct (requireAgentAuth cfg (run_auth cfg _ tr) d2 now2 r2) as [e2 [[[i2 f2] st2]|x]] eqn:E; [|done].
  exfalso. apply requireAgentAuth_Ok in E
    as (ts2 & n2 & a2 & (Hb & Hts' & Hn' & (sec2 & t2 & _ & _ & Hd2 & Hle2 & _) & Hnew) & _).
  assert (i2 = i) as -> by congruence. assert (ts2 = ts) as -> by congruence.
  assert (n2 = n) as -> by congruence. assert (t2 = t) as -> by congruence.
  destruct (run_auth_nonce cfg tr (with_nonces (<[(i, n) := now]> (ed_nonces e)) e) now now2 i n now Hret Ht) as [H1|H1];
    [apply lookup_insert_eq|congruence|lia].
Qed.

Lemma accepted_request_never_replayed_witness :
  is_ok (snd (@requireAgentAuth toy_node default_config demo_enroll demo_agent_db demo_now demo_request)) = true /\
  is_ok (snd (@requireAgentAuth toy_node default_config
    (@run_auth toy_node default_config
      (fst (@requireAgentAuth toy_node default_config demo_enroll demo_agent_db demo_now demo_request))
      [(demo_now + 700000, ASweepNonces)]) demo_agent_db (demo_now + 700001) demo_request)) = false.
Proof.
  assert (Hok : exists v, @requireAgentAuth toy_node default_config demo_enroll demo_agent_db demo_now demo_request =
    (fst (@requireAgentAuth toy_node default_config demo_enroll demo_agent_db demo_now demo_request), Ok v)).
  { eexists. vm_compute. reflexivity. }
  destruct Hok as [v Hok]. split; [vm_compute; reflexivity|].
  refine (@accepted_request_never_replayed toy_node default_config _ _ _ _ _ v _ _ _ _ _ _ Hok _ eq_refl eq_refl eq_refl);
    [cbn; lia|cbn; lia|]. cbn [auth_timed]. lia.
Defined.

(** ** Enrolment *)

(** Enrolment succeeds exactly when the fleet has an unused, unexpired token
    of that hash; then exactly one agent appears, in the token's fleet, and it
    can authenticate with the secret it was given; a refused enrolment leaves
    every table as it was, so it creates no orphan rows. *)
Theorem enrollment_rules `{NodeCrypto} e d now i s c f tok n r h :
  tokens_ok e -> (forall cr, cr ∈ ed_credentials e -> cr_agent cr <> i) ->
  let '(e', d', out) := createAgentFromEnrollment e d now i s c f tok n r h in
  (out = Some (i, s) <->
     exists t, t ∈ ed_tokens e /\ t_hash t = hashSecret tok /\ t_fleet t = f /\ t_used_at t = None /\
       now < t_expires_at t) /\
  (out = Some (i, s) ->
     ad_agents d' = <[i := fresh_agent f n r h now]> (ad_agents d) /\
     authenticateAgent e' d' i = Some (fresh_agent f n r h now, hashSecret s) /\
     spent (hashSecret tok) e') /\
  (out <> Some (i, s) -> e' = e /\ d' = d /\ out = None).
Proof.
  intros Hok Hcr. unfold createAgentFromEnrollment.
  set (hit := claimable now (hashSecret tok) f).
  pose proof (claimable_iff now (hashSecret tok) f) as Hhit. fold hit in Hhit.
  assert (Hle : (changes hit (ed_tokens e) <= 1)%nat) by by apply claimable_le_one.
  destruct (changes hit (ed_tokens e) =? 1)%nat eqn:Hc; cbn [negb].
  - apply Nat.eqb_eq in Hc. assert (Hpos : (0 < changes hit (ed_tokens e))%nat) by lia.
    apply changes_pos in Hpos as (t & Ht & Hh). pose proof (proj1 (Hhit t) Hh) as (H1 & H2 & H3 & H4).
    set (tokens := update_where hit _ _).
    assert (Hin : claim_token now t ∈ tokens).
    { pose proof (update_where_lookup hit (claim_token now) _ t Ht) as Hl. by rewrite Hh in Hl. }
    destruct (select_one _ tokens) as [tk|] eqn:Hs.
    + split; [split; [intros _; by exists t|done]|]. split; [|done]. intros _. cbn.
      split; [done|]. split.
      * eapply only_credential; [done|apply lookup_insert_eq|done|done].
      * assert (Hu : exists t', t' ∈ update_where (fun x => t_id x ==? t_id tk) (use_token i) tokens /\
                  t_hash t' = hashSecret tok /\ t_used_at t' <> None); [|exact Hu].
        by eapply (spent_update _ _ _ tokens (claim_token now t)).
    + exfalso. pose proof (select_one_None _ _ Hs _ Hin) as Hf. cbn in Hf.
      by rewrite !bool_decide_true in Hf.
  - apply Nat.eqb_neq in Hc. assert (H0 : forall t, t ∈ ed_tokens e -> hit t = false).
    { intros t Ht. destruct (hit t) eqn:E; [|done]. exfalso.
      assert (0 < changes hit (ed_tokens e))%nat by (apply changes_pos; by exists t). lia. }
    split; [split; [done|]|].
    + intros (t & Ht & Hx). apply Hhit in Hx. by rewrite H0 in Hx.
    + split; [done|]. intros _. rewrite update_where_none by done. by destruct e.
Qed.

Definition demo_token : EnrollDb := @exec_auth toy_node default_config
  (MkEnrollDb (<["f" := MkFleet "fleet" 0]> ∅) [] [] ∅) 1000 (AIssue "ent1" "tok1" "f" "op1").

Lemma enrollment_rules_witness :
  tokens_ok demo_token /\
  let '(e', d', out) := @createAgentFromEnrollment toy_node demo_token demo_agent_db 2000 "a2" "secret" "cred2"
                          "f" "ent1.tok1" "Case" "openclaw" None in
  out = Some ("a2", "secret") /\ spent (@hashSecret toy_node "ent1.tok1") e'.
Proof.
  assert (Hok : tokens_ok demo_token) by (unfold tokens_ok; vm_compute; apply NoDup_singleton).
  assert (Hcr : forall cr, cr ∈ ed_credentials demo_token -> cr_agent cr <> "a2")
    by (intros cr Hin; vm_compute in Hin; by apply elem_of_nil in Hin).
  assert (Hout : snd (@createAgentFromEnrollment toy_node demo_token demo_agent_db 2000 "a2" "secret" "cred2"
                        "f" "ent1.tok1" "Case" "openclaw" None) = Some ("a2", "secret"))
    by (vm_compute; reflexivity).
  split; [exact Hok|].
  pose proof (@enrollment_rules toy_node demo_token demo_agent_db 2000 "a2" "secret" "cred2"
                "f" "ent1.tok1" "Case" "openclaw" None Hok Hcr) as H.
  destruct (@createAgentFromEnrollment toy_node demo_token demo_agent_db 2000 "a2" "secret" "cred2"
              "f" "ent1.tok1" "Case" "openclaw" None) as [[e' d'] out].
  destruct H as (_ & H & _). split; [exact Hout|]. exact (proj2 (proj2 (H Hout))).
Defined.

(** An enrolment token is single-use: once an enrolment has succeeded with a
    token, no later enrolment with it succeeds, in any fleet, whatever the relay
    does in between, and the losing attempt changes nothing. *)
Theorem enrollment_token_single_use `{NodeCrypto} cfg e d now i s c f tok n r h tr now2 d2 i2 s2 c2 f2 n2 r2 h2 :
  tokens_ok e ->
  snd (createAgentFromEnrollment e d now i s c f tok n r h) = Some (i, s) ->
  let e1 := run_auth cfg (fst (fst (createAgentFromEnrollment e d now i s c f tok n r h))) tr in
  createAgentFromEnrollment e1 d2 now2 i2 s2 c2 f2 tok n2 r2 h2 = (e1, d2, None).
Proof.
  intros Hok Hout. cbv zeta.
  pose proof (enroll_spent e d now i s c f tok n r h (i, s) Hout) as Hsp.
  assert (Hok1 : tokens_ok (fst (fst (createAgentFromEnrollment e d now i s c f tok n r h))))
    by (unfold tokens_ok; by rewrite enroll_tokens).
  destruct (run_auth_spent cfg (hashSecret tok) tr _ Hok1 Hsp) as [Hok2 Hsp2].
  set (e1 := run_auth _ _ _) in *. unfold createAgentFromEnrollment.
  rewrite (claimable_spent e1 now2 f2 tok Hok2 Hsp2). cbn [Nat.eqb negb].
  rewrite update_where_none; [by destruct e1|].
  intros t Ht. destruct (claimable _ _ _ t) eqn:E; [|done]. exfalso.
  assert (0 < changes (claimable now2 (hashSecret tok) f2) (ed_tokens e1))%nat by (apply changes_pos; by exists t).
  rewrite (claimable_spent e1 now2 f2 tok Hok2 Hsp2) in *. lia.
Qed.

Lemma enrollment_token_single_use_witness :
  let e1 := fst (fst (@createAgentFromEnrollment toy_node demo_token demo_agent_db 2000 "a2" "secret" "cred2"
                        "f" "ent1.tok1" "Case" "openclaw" None)) in
  @createAgentFromEnrollment toy_node e1 demo_agent_db 3000 "a3" "secret3" "cred3" "f" "ent1.tok1" "Kipp"
    "openclaw" None = (e1, demo_agent_db, None).
Proof.
  assert (Hok : tokens_ok demo_token) by (unfold tokens_ok; vm_compute; apply NoDup_singleton).
  assert (Hout : snd (@createAgentFromEnrollment toy_node demo_token demo_agent_db 2000 "a2" "secret" "cred2"
                        "f" "ent1.tok1" "Case" "openclaw" None) = Some ("a2", "secret"))
    by (vm_compute; reflexivity).
  exact (@enrollment_token_single_use toy_node default_config demo_token demo_agent_db 2000 "a2" "secret" "cred2"
    "f" "ent1.tok1" "Case" "openclaw" None [] 3000 demo_agent_db "a3" "secret3" "cred3" "f" "Kipp" "openclaw" None
    Hok Hout).
Defined.
