(* ===== verification/RelaySafety.v ===== *)
(** * The relay: agents and mail together

    Agents and mail change in the same database, and several operations touch
    both.  This file runs them together ([relay_step]) and proves what every
    reachable database satisfies ([relay_ok]): members, senders and recipients
    belong to the fleet of their room or message, only members and the operator
    post into a room, and only the synthetic operator agents have the runtime
    ["operator"]. *)

From S2P Require Import Prelude Json IsoTime JsValues Events Config OperatorKeys Agents Enrollment Messages Rooms Delivery AgentSafety DeliverySafety.
Import Ascii String.
Open Scope string_scope.
Open Scope Z_scope.

(** ** What never changes about messages and deliveries *)

(** The messages with their status erased, and who each delivery is for. *)
Definition contents (m : MailDb) : list MessageRow := map (set_message_status MQueued) (md_messages m).
Definition routing (m : MailDb) : list (string * string) :=
  map (fun dl => (dl_message dl, dl_recipient dl)) (md_deliveries m).

Lemma elem_of_contents m x : x ∈ md_messages m -> set_message_status MQueued x ∈ contents m.
Proof. intros Hx. apply list_elem_of_In, in_map. by apply list_elem_of_In. Qed.

Lemma contents_elem m y : y ∈ contents m -> exists x, x ∈ md_messages m /\ y = set_message_status MQueued x.
Proof.
  intros Hy. apply list_elem_of_In, in_map_iff in Hy as (x & <- & Hx). exists x. by rewrite list_elem_of_In.
Qed.

Lemma message_by_id_unique m i x :
  NoDup (map ms_id (contents m)) -> x ∈ md_messages m -> ms_id x = i -> message_by_id m i = Some x.
Proof.
  unfold contents. rewrite map_map. intros Hnd Hx <-. unfold message_by_id.
  destruct (select_one _ (md_messages m)) as [y|] eqn:E.
  - apply select_one_Some in E as [Hy Hi]. bools. f_equal. by eapply (NoDup_map_inj ms_id).
  - pose proof (select_one_None _ _ E x Hx). by bools.
Qed.

Record same_views (m m' : MailDb) : Prop := {
  sv_contents : contents m' = contents m;
  sv_routing : routing m' = routing m;
  sv_rooms : md_rooms m' = md_rooms m;
  sv_members : md_members m' = md_members m
}.

Lemma same_views_refl m : same_views m m.
Proof. done. Qed.

Lemma same_views_trans m1 m2 m3 : same_views m1 m2 -> same_views m2 m3 -> same_views m1 m3.
Proof. intros [] []. split; congruence. Qed.

Lemma contents_update p st ms :
  map (set_message_status MQueued) (update_where p (set_message_status st) ms) =
  map (set_message_status MQueued) ms.
Proof. by apply map_update_where. Qed.

Lemma routing_update p f ds :
  (forall dl, dl_message (f dl) = dl_message dl /\ dl_recipient (f dl) = dl_recipient dl) ->
  map (fun dl => (dl_message dl, dl_recipient dl)) (update_where p f ds) =
  map (fun dl => (dl_message dl, dl_recipient dl)) ds.
Proof. intros Hf. apply map_update_where. intros dl _. by destruct (Hf dl) as [-> ->]. Qed.

(** An UPDATE of deliveries and of message statuses. *)
Lemma same_views_update m m' p f q st :
  (forall dl, dl_message (f dl) = dl_message dl /\ dl_recipient (f dl) = dl_recipient dl) ->
  md_deliveries m' = update_where p f (md_deliveries m) ->
  md_messages m' = update_where q (set_message_status st) (md_messages m) ->
  md_rooms m' = md_rooms m -> md_members m' = md_members m -> same_views m m'.
Proof.
  intros Hf Hd Hm Hr Hmb. split; [|..]; [| |done|done]; unfold contents, routing.
  - rewrite Hm. apply contents_update.
  - rewrite Hd. by apply routing_update.
Qed.

Lemma same_views_deliveries m m' p f :
  (forall dl, dl_message (f dl) = dl_message dl /\ dl_recipient (f dl) = dl_recipient dl) ->
  md_deliveries m' = update_where p f (md_deliveries m) ->
  md_messages m' = md_messages m ->
  md_rooms m' = md_rooms m -> md_members m' = md_members m -> same_views m m'.
Proof.
  intros Hf Hd Hm Hr Hmb. split; unfold contents, routing; try done.
  - by rewrite Hm.
  - rewrite Hd. by apply routing_update.
Qed.

Lemma poll_views m now a limit : same_views m (fst (fst (poll m now a limit))).
Proof.
  unfold poll. cbn [fst]. split; try done. unfold routing. cbn.
  unfold mark_delivered. generalize (md_deliveries m).
  induction (pending_deliveries m now a limit) as [|r rows IH]; intros ds; [done|]. simpl.
  rewrite IH. by apply routing_update.
Qed.

Lemma ack_views m now a acks : same_views m (fst (fst (ackMessages m now a acks))).
Proof.
  unfold ackMessages.
  enough (Hgen : forall acc, same_views (fst (fst acc)) (fst (fst (foldl (ack_step now a) acc acks))))
    by exact (Hgen (m, O, [])).
  induction acks as [|[i r] acks IH]; intros acc; [done|]. simpl.
  eapply same_views_trans; [|apply IH]. destruct acc as [[m0 n] es]. simpl.
  destruct (_ =? 0)%nat; [done|]. unfold ack_tables. cbn [fst].
  destruct (ack_pending _ _).
  - eapply same_views_deliveries; [|reflexivity..]; done.
  - eapply same_views_update; [|reflexivity..]; done.
Qed.

Lemma retry_views cfg m now fresh : same_views m (fst (fst (sweepRetryDeliveries cfg m now fresh))).
Proof.
  unfold sweepRetryDeliveries. generalize (timed_out cfg m now) as rows. intros rows.
  enough (Hgen : forall acc, same_views (fst (fst acc)) (fst (fst (foldl (retry_step cfg now fresh) acc rows))))
    by exact (Hgen (m, (O, O), [])).
  induction rows as [|[dl x] rows IH]; intros acc; [done|]. simpl.
  eapply same_views_trans; [|apply IH]. destruct acc as [[m0 [n k]] es]. simpl.
  destruct (_ <? _); [|eapply same_views_deliveries; [|reflexivity..]; done].
  unfold moveToDeadLetter. destruct (_ =? 0)%nat; [done|]. eapply same_views_update; [|reflexivity..]; done.
Qed.

Lemma expire_views m now : same_views m (fst (fst (sweepExpiredMessages m now))).
Proof.
  unfold sweepExpiredMessages. generalize (expired_rows m now) as rows. intros rows.
  assert (Hgen : forall acc, same_views (fst acc) (fst (foldl (expiry_step now) acc rows))).
  { induction rows as [|[dl x] rows IH]; intros acc; [done|]. simpl.
    eapply same_views_trans; [|apply IH]. destruct acc as [m0 es]. simpl. eapply same_views_update; [|reflexivity..]; done. }
  specialize (Hgen (m, [])). by destruct (foldl _ _ rows).
Qed.

(** ** The invariant *)

Definition same_fleet (d : AgentDb) (fleet i : string) : Prop :=
  exists a, ad_agents d !! i = Some a /\ ag_fleet a = fleet.

(** The synthetic operator agents, and nobody else, have the runtime
    ["operator"]; they are revoked. *)
Definition operators_ok (d : AgentDb) : Prop :=
  forall i a, ad_agents d !! i = Some a ->
    (ag_runtime a = "operator" \/ exists f, i = operator_agent f) ->
    i = operator_agent (ag_fleet a) /\ ag_runtime a = "operator" /\ is_Some (ag_revoked_at a).

Record relay_ok (d : AgentDb) (m : MailDb) : Prop := {
  ro_operators : operators_ok d;
  ro_ids : NoDup (map ms_id (contents m));
  ro_members : forall r a, (r, a) ∈ md_members m ->
    exists room, md_rooms m !! r = Some room /\ same_fleet d (rm_fleet room) a;
  ro_deliveries : forall i a, (i, a) ∈ routing m ->
    exists x, x ∈ contents m /\ ms_id x = i /\ same_fleet d (ms_fleet x) a;
  ro_senders : forall x, x ∈ contents m -> same_fleet d (ms_fleet x) (ms_sender x);
  ro_posts : forall x, x ∈ contents m -> isRoomConversation m (ms_fleet x) (ms_conversation x) = true ->
    ms_sender x = operator_agent (ms_fleet x) \/ is_member m (ms_conversation x) (ms_sender x) = true
}.

Lemma same_views_ok d m m' : same_views m m' -> relay_ok d m -> relay_ok d m'.
Proof.
  intros [Hc Hrt Hr Hm] [H1 H2 H3 H4 H5 H6].
  split; unfold isRoomConversation, is_member in *; rewrite ?Hc, ?Hrt, ?Hr, ?Hm; done.
Qed.

(** ** Agents come and stay *)

Definition agents_grow (d d' : AgentDb) : Prop :=
  forall i a, ad_agents d !! i = Some a ->
    exists a', ad_agents d' !! i = Some a' /\ ag_fleet a' = ag_fleet a /\
      ag_runtime a' = ag_runtime a /\ ag_revoked_at a' = ag_revoked_at a.

Lemma same_fleet_grow d d' f i : agents_grow d d' -> same_fleet d f i -> same_fleet d' f i.
Proof. intros Hg (a & Ha & <-). destruct (Hg i a Ha) as (a' & Ha' & Hf & _). by exists a'. Qed.

Lemma relay_ok_grow d d' m : agents_grow d d' -> operators_ok d' -> relay_ok d m -> relay_ok d' m.
Proof.
  intros Hg Ho [H1 H2 H3 H4 H5 H6]. split; try done.
  - intros r a Hin. destruct (H3 r a Hin) as (room & Hr & Hf). exists room.
    split; [done|]. by eapply same_fleet_grow.
  - intros i a Hin. destruct (H4 i a Hin) as (x & Hx & Hi & Hf). exists x.
    split_and!; [done|done|]. by eapply same_fleet_grow.
  - intros x Hx. by eapply same_fleet_grow, H5.
Qed.

Section Steps.
Context `{NodeCrypto} (cfg : Config).

(** An enrolled agent has one of the runtimes of [enrollSchema] and a fresh
    [agent_...] id, which is no operator's. *)
Definition enrols_an_agent (op : agent_op) : Prop :=
  match op with
  | OpEnroll _ i _ _ _ _ _ r _ => r <> "operator" /\ forall f, i <> operator_agent f
  | _ => True
  end.

Lemma exec_grow d now op : agents_grow d (exec cfg d now op).
Proof.
  intros i a Hi. destruct (exec_agents cfg d now op) as [Hm _]. destruct (Hm i a Hi) as (a' & Ha' & Ht).
  exists a'. split; [done|]. by apply agent_trans_fleet in Ht.
Qed.

Lemma exec_operators d now op : enrols_an_agent op -> operators_ok d -> operators_ok (exec cfg d now op).
Proof.
  intros Hop Hok i a' Hi Hor. destruct (ad_agents d !! i) as [a|] eqn:E.
  - destruct (exec_grow d now op i a E) as (b & Hb & Hf & Hr & Hv). simplify_eq.
    rewrite Hf, Hr, Hv. apply Hok; [done|]. by rewrite <- Hr.
  - destruct (exec_agents cfg d now op) as [_ Hborn]. destruct (Hborn i a' E Hi) as [_ [Hb|Hb]]; [done|].
    destruct Hb as (e & s & c & t & n & h & ->). destruct Hop as [Hr Hi']. exfalso.
    destruct Hor as [Ho|[f Hf]]; [done|by apply (Hi' f)].
Qed.

Lemma ensureOperatorAgent_ok d now f :
  operators_ok d ->
  let d' := fst (ensureOperatorAgent d now f) in
  agents_grow d d' /\ operators_ok d' /\ same_fleet d' f (operator_agent f).
Proof.
  intros Hok. cbv zeta. split; [|split].
  - exact (exec_grow d now (OpOperatorAgent f)).
  - exact (exec_operators d now (OpOperatorAgent f) I Hok).
  - unfold ensureOperatorAgent. destruct (ad_agents d !! operator_agent f) as [a|] eqn:E; cbn.
    + exists a. split; [done|]. destruct (Hok _ _ E) as [Heq _]; [right; by exists f|].
      unfold operator_agent in Heq. by injection Heq.
    + eexists. split; [apply lookup_insert_eq|done].
Qed.

(** ** Routing stays within the fleet *)

Lemma live_agent_ids_fleet d f i : i ∈ live_agent_ids d f -> same_fleet d f i.
Proof.
  unfold live_agent_ids. intros Hi. apply list_elem_of_In, in_map_iff in Hi as ([j a] & <- & Hin).
  apply filter_In in Hin as [Hin Hl]. apply list_elem_of_In, elem_of_map_to_list in Hin.
  unfold live_member in Hl. bools. exists a. done.
Qed.

Lemma deliverable_fleet d f i :
  operators_ok d -> known_agents d [i] = true -> isDeliverableAgent d f i = true -> same_fleet d f i.
Proof.
  intros Hok Hk. unfold known_agents in Hk. simpl in Hk. rewrite andb_true_r in Hk.
  apply bool_decide_eq_true in Hk as [a Ha]. unfold isDeliverableAgent.
  destruct (i ==? operator_agent f) eqn:E.
  - bools. subst i. intros _. exists a. split; [done|].
    destruct (Hok _ _ Ha) as [Heq _]; [right; by exists f|]. unfold operator_agent in Heq. by injection Heq.
  - rewrite Ha. intros Hl. unfold live_member in Hl. bools. by exists a.
Qed.

Lemma roomMemberIds_fleet d m f c s b l :
  relay_ok d m -> roomMemberIds d m f c s b = Some l ->
  isRoomConversation m f c = true /\ (b = true -> is_member m c s = true) /\
  forall i, i ∈ l -> same_fleet d f i.
Proof.
  intros Hok. unfold roomMemberIds. destruct (isRoomConversation m f c) eqn:Hr; [|done]. cbn [negb].
  destruct (b && negb (is_member m c s)) eqn:Hb; [done|]. intros [= <-].
  split; [done|]. split.
  - intros ->. simpl in Hb. by apply negb_false_iff in Hb.
  - intros i Hi. apply list_elem_of_In, in_map_iff in Hi as ([r j] & <- & Hin).
    apply list_elem_of_In, elem_of_select in Hin as [Hin Hp]. cbn [fst snd] in *.
    apply andb_true_iff in Hp as [Hp _]. bools. subst r.
    destruct (ro_members _ _ Hok _ _ Hin) as (room & Hroom & Hf).
    unfold isRoomConversation in Hr. rewrite Hroom in Hr. by apply bool_decide_eq_true in Hr as <-.
Qed.

Lemma elem_of_live_agent_ids d f i :
  i ∈ live_agent_ids d f <-> exists a, ad_agents d !! i = Some a /\ live_member f a = true.
Proof.
  unfold live_agent_ids. rewrite list_elem_of_In, in_map_iff. split.
  - intros ([j a] & <- & Hin). apply filter_In in Hin as [Hin Hl]. exists a.
    by apply list_elem_of_In, elem_of_map_to_list in Hin.
  - intros (a & Ha & Hl). exists (i, a). split; [done|]. apply filter_In. split; [|done].
    by apply list_elem_of_In, elem_of_map_to_list.
Qed.

Lemma elem_of_broadcast d f s a :
  a ∈ broadcastRecipientIds d f s <->
  a <> s /\ exists row, ad_agents d !! a = Some row /\ live_member f row = true.
Proof.
  unfold broadcastRecipientIds. rewrite list_elem_of_In, filter_In, <- list_elem_of_In, elem_of_live_agent_ids.
  rewrite negb_true_iff, bool_decide_eq_false. tauto.
Qed.

Lemma roomMemberIds_exact d m f c s l :
  roomMemberIds d m f c s true = Some l ->
  isRoomConversation m f c = true /\ is_member m c s = true /\
  forall a, a ∈ l <-> (c, a) ∈ md_members m /\ a <> s /\
    exists row, ad_agents d !! a = Some row /\ ag_runtime row <> "operator" /\ ag_revoked_at row = None.
Proof.
  unfold roomMemberIds. destruct (isRoomConversation m f c); [|done]. cbn [negb andb].
  destruct (is_member m c s); [|done]. cbn [negb]. intros [= <-]. split_and!; [done|done|].
  intros a. rewrite list_elem_of_In, in_map_iff. setoid_rewrite <- list_elem_of_In. split.
  - intros ([r j] & <- & [Hin Hp]%elem_of_select). cbn [fst snd] in *.
    apply andb_true_iff in Hp as [Hp Hrow]. bools. subst r. split_and!; [done|done|].
    destruct (ad_agents d !! j) as [row|]; [|done]. exists row. by bools.
  - intros (Hin & Hs & row & Hrow & Hop & Hrev). exists (c, a). split; [done|]. apply elem_of_select.
    split; [done|]. cbn. rewrite Hrow, (bool_decide_true (c = c)), (bool_decide_false (a = s)),
      (bool_decide_false (_ = "operator")), (bool_decide_true (_ = None)) by done. done.
Qed.

Lemma validateAttachmentOwnership_true m f u ids :
  validateAttachmentOwnership m f u ids = true -> forall i, i ∈ ids -> owned_by m f u i = true.
Proof.
  unfold validateAttachmentOwnership. set (s := list_to_set ids : gset string). intros Heq i Hi.
  apply Nat.eqb_eq in Heq. destruct (owned_by m f u i) eqn:Ho; [done|]. exfalso.
  assert (Hsub : filter (fun i => owned_by m f u i = true) s ⊂ s).
  { split; [set_solver|]. intros Hs. specialize (Hs i). rewrite elem_of_filter in Hs.
    destruct Hs as [Hs _]; [by apply elem_of_list_to_set|]. congruence. }
  apply subset_size in Hsub. lia.
Qed.

Lemma known_agents_elem d l i : known_agents d l = true -> i ∈ l -> known_agents d [i] = true.
Proof.
  unfold known_agents. rewrite forallb_forall. intros Hl Hi. simpl. rewrite andb_true_r.
  apply Hl. by apply list_elem_of_In.
Qed.

Lemma route_fleet d m i c l :
  relay_ok d m -> route d m i c = Ok l -> known_agents d l = true ->
  (isRoomConversation m (mi_fleet i) c = true -> is_member m c (mi_sender i) = true) /\
  forall a, a ∈ l -> same_fleet d (mi_fleet i) a.
Proof.
  intros Hok Hr Hk. unfold route in Hr. destruct (mi_recipient_kind i ==? "group") eqn:Hg.
  - destruct (roomMemberIds _ _ _ _ _ _) as [l'|] eqn:E; [|done]. injection Hr as ->.
    apply (roomMemberIds_fleet _ _ _ _ _ _ _ Hok) in E as (_ & Hm & Hf). auto.
  - destruct (isRoomConversation m (mi_fleet i) c); [done|]. split; [done|]. intros a Ha.
    destruct (mi_recipient_kind i ==? "agent").
    + destruct (truthy (mi_recipient_id i)) as [r|].
      * destruct (isDeliverableAgent _ _ _) eqn:Hd; [|done]. injection Hr as <-.
        apply list_elem_of_singleton in Ha as ->. apply deliverable_fleet; [apply Hok|done|done].
      * destruct (_ ==? "broadcast"); [|done]. injection Hr as <-. apply live_agent_ids_fleet.
        unfold broadcastRecipientIds in Ha. apply list_elem_of_In, filter_In in Ha as [Ha _]. by apply list_elem_of_In.
    + destruct (_ ==? "broadcast"); [|done]. injection Hr as <-. apply live_agent_ids_fleet.
      unfold broadcastRecipientIds in Ha. apply list_elem_of_In, filter_In in Ha as [Ha _]. by apply list_elem_of_In.
Qed.

Lemma operator_route_fleet d m f c s k r l :
  relay_ok d m -> operator_route d m f c s k r = Ok l -> known_agents d l = true ->
  forall a, a ∈ l -> same_fleet d f a.
Proof.
  intros Hok Hr Hk a Ha. unfold operator_route in Hr.
  destruct (roomMemberIds _ _ _ _ _ _) as [l'|] eqn:E.
  { injection Hr as ->. apply (roomMemberIds_fleet _ _ _ _ _ _ _ Hok) in E as (_ & _ & Hf). auto. }
  assert (Hb : a ∈ (if k ==? "broadcast" then broadcastRecipientIds d f s else []) -> same_fleet d f a).
  { destruct (k ==? "broadcast"); [|by intros ?%elem_of_nil]. intros Hin. apply live_agent_ids_fleet.
    unfold broadcastRecipientIds in Hin. apply list_elem_of_In, filter_In in Hin as [Hin _]. by apply list_elem_of_In. }
  destruct (k ==? "agent"); [destruct (truthy r) as [i|]|]; try (injection Hr as <-; by apply Hb).
  destruct (isDeliverableAgent _ _ _) eqn:Hd; [|done]. injection Hr as <-.
  apply list_elem_of_singleton in Ha as ->. apply deliverable_fleet; [apply Hok|done|done].
Qed.

Lemma routing_queued i at_ dly l :
  map (fun dl => (dl_message dl, dl_recipient dl)) (queued_deliveries i at_ dly l) = map (fun a => (i, a)) l.
Proof.
  unfold queued_deliveries. revert dly. induction l as [|a l IH]; intros dly; [done|].
  simpl. f_equal. apply (IH (fun n => dly (S n))).
Qed.

(** Queueing a message whose sender and recipients are of its fleet. *)
Lemma queue_message_relay_ok d m msg dly l att :
  relay_ok d m -> ms_id msg ∉ map ms_id (md_messages m) ->
  same_fleet d (ms_fleet msg) (ms_sender msg) ->
  (isRoomConversation m (ms_fleet msg) (ms_conversation msg) = true ->
     ms_sender msg = operator_agent (ms_fleet msg) \/ is_member m (ms_conversation msg) (ms_sender msg) = true) ->
  (forall a, a ∈ l -> same_fleet d (ms_fleet msg) a) ->
  relay_ok d (queue_message msg dly l att m).
Proof.
  intros [H1 H2 H3 H4 H5 H6] Hid Hs Hp Hl.
  assert (Hc : contents (queue_message msg dly l att m) = (contents m ++ [set_message_status MQueued msg])%list).
  { unfold contents. cbn. by rewrite map_app. }
  assert (Hr : routing (queue_message msg dly l att m) = (routing m ++ map (fun a => (ms_id msg, a)) l)%list).
  { unfold routing, queue_message. cbn. by rewrite map_app, routing_queued. }
  split; unfold isRoomConversation, is_member in *; rewrite ?Hc, ?Hr; cbn [md_rooms md_members queue_message with_attachments with_deliveries with_messages].
  - done.
  - rewrite map_app. apply NoDup_app. split_and!; [done| |apply NoDup_singleton].
    intros i Hi Hin. apply list_elem_of_singleton in Hin as ->. apply Hid.
    unfold contents in Hi. by rewrite map_map in Hi.
  - done.
  - intros i a [Hin|Hin]%elem_of_app.
    + destruct (H4 i a Hin) as (x & Hx & Hxi & Hf). exists x. split_and!; [|done|done].
      apply elem_of_app. by left.
    + apply list_elem_of_In, in_map_iff in Hin as (b & [= <- <-] & Hb). eexists. split; [|split].
      * apply elem_of_app. right. by left.
      * done.
      * apply Hl. by apply list_elem_of_In.
  - intros x [Hx|Hx]%elem_of_app; [auto|]. by apply list_elem_of_singleton in Hx as ->.
  - intros x [Hx|Hx]%elem_of_app; [auto|]. by apply list_elem_of_singleton in Hx as ->.
Qed.

(** ** Steps *)

(** [rs_send]: the sender was authenticated ([requireAgentAuth] answers the
    agent's own id and fleet, and routes pass them on); random ids are fresh. *)
Inductive relay_step (now : Z) : AgentDb * MailDb -> AgentDb * MailDb -> Prop :=
  | rs_agent d m op : enrols_an_agent op -> relay_step now (d, m) (exec cfg d now op, m)
  | rs_send d m e a h mid dly i m' es :
      authenticateAgent e d (mi_sender i) = Some (a, h) -> ag_fleet a = mi_fleet i ->
      createMessage cfg d m now mid dly i = Ok (m', es) -> mid ∉ map ms_id (md_messages m) ->
      relay_step now (d, m) (d, m')
  | rs_operator_send d m keys mid cor conv dly i d' m' c es :
      createOperatorMessage cfg keys d m now mid cor conv dly i = (d', Ok (m', c, es)) ->
      mid ∉ map ms_id (md_messages m) -> relay_step now (d, m) (d', m')
  | rs_resume d m nudge keys mid cor conv dly f o c t d' m' c' es :
      resumeConversation cfg nudge keys d m now mid cor conv dly f o c t = (d', Ok (Some (m', c', es))) ->
      mid ∉ map ms_id (md_messages m) -> relay_step now (d, m) (d', m')
  | rs_create_room d m rid f b c n l :
      md_rooms m !! rid = None -> (forall x, x ∈ md_messages m -> ms_conversation x <> rid) ->
      relay_step now (d, m) (d, fst (fst (createRoom d m now rid f b c n l)))
  | rs_project_mode d m f rid o b bu :
      relay_step now (d, m) (d, fst (fst (setRoomProjectMode m now f rid o b bu)))
  | rs_delete_room d m f rid o : relay_step now (d, m) (d, fst (fst (deleteRoom m now f rid o)))
  | rs_acquire d m f c a ttl : relay_step now (d, m) (d, fst (acquireFloor m now f c a ttl))
  | rs_release d m f c a : relay_step now (d, m) (d, fst (releaseFloor m f c a))
  | rs_poll d m a limit : relay_step now (d, m) (d, fst (fst (poll m now a limit)))
  | rs_ack d m a acks : relay_step now (d, m) (d, fst (fst (ackMessages m now a acks)))
  | rs_retry d m fresh : relay_step now (d, m) (d, fst (fst (sweepRetryDeliveries cfg m now fresh)))
  | rs_expire d m : relay_step now (d, m) (d, fst (fst (sweepExpiredMessages m now))).

(** Any number of steps, at any times. *)
Inductive relay_run (s : AgentDb * MailDb) : AgentDb * MailDb -> Prop :=
  | rrun_refl : relay_run s s
  | rrun_step now s1 s2 : relay_run s s1 -> relay_step now s1 s2 -> relay_run s s2.

Lemma createMessage_relay_ok d m now mid dly i m' es :
  relay_ok d m -> same_fleet d (mi_fleet i) (mi_sender i) ->
  createMessage cfg d m now mid dly i = Ok (m', es) -> mid ∉ map ms_id (md_messages m) -> relay_ok d m'.
Proof.
  intros Hok Hs (l & Hr & Hk & _ & ->)%createMessage_Ok Hid.
  assert (Hk' : known_agents d l = true).
  { unfold known_agents in *. simpl in Hk. by apply andb_true_iff in Hk as [_ Hk]. }
  destruct (route_fleet d m i _ l Hok Hr Hk') as [Hp Hl].
  apply queue_message_relay_ok; simpl; auto.
Qed.

Lemma createOperatorMessage_relay_ok keys d m now mid cor conv dly i d' m' c es :
  relay_ok d m -> createOperatorMessage cfg keys d m now mid cor conv dly i = (d', Ok (m', c, es)) ->
  mid ∉ map ms_id (md_messages m) -> relay_ok d' m' /\ agents_grow d d'.
Proof.
  intros Hok Hc Hid. apply createOperatorMessage_Ok in Hc
    as (_ & -> & msg & l & kind & rid & ty & -> & _ & Hr & Hk & <- & Hf & <- & Hs & _ & _).
  destruct (ensureOperatorAgent_ok d now (oi_fleet i) (ro_operators _ _ Hok)) as (Hg & Ho & Hsf).
  assert (Hok' : relay_ok (fst (ensureOperatorAgent d now (oi_fleet i))) m) by by eapply relay_ok_grow.
  split; [|done]. apply queue_message_relay_ok; rewrite ?Hf, ?Hs; [done|done|done|by left|].
  by eapply operator_route_fleet.
Qed.

Lemma resumeConversation_relay_ok nudge keys d m now mid cor conv dly f o c t d' m' c' es :
  relay_ok d m ->
  resumeConversation cfg nudge keys d m now mid cor conv dly f o c t = (d', Ok (Some (m', c', es))) ->
  mid ∉ map ms_id (md_messages m) -> relay_ok d' m' /\ agents_grow d d'.
Proof.
  intros Hok Hr Hid. unfold resumeConversation in Hr. destruct (fleet_room m f c) as [room|].
  - destruct (createOperatorMessage _ _ _ _ _ _ _ _ _ _) as [d1 [[[m1 c1] es1]|]] eqn:Hs; [|done].
    injection Hr as <- <- _ _. by eapply createOperatorMessage_relay_ok.
  - destruct (live_participants d m f c ==? []); [done|].
    destruct (ensureOperatorAgent_ok d now f (ro_operators _ _ Hok)) as (Hg & Ho & Hsf).
    assert (Hid' : snd (ensureOperatorAgent d now f) = operator_agent f).
    { unfold ensureOperatorAgent. by destruct (ad_agents d !! _). }
    destruct (ensureOperatorAgent d now f) as [d1 sender]. cbn [fst snd] in *. subst sender.
    injection Hr as <- <- _ _. split; [|done].
    apply queue_message_relay_ok; simpl; [by eapply relay_ok_grow|done|done|by left|].
    intros a Ha. unfold live_participants in Ha. apply list_elem_of_In, filter_In in Ha as [Ha _].
    eapply same_fleet_grow; [done|]. apply live_agent_ids_fleet. by apply list_elem_of_In.
Qed.

Lemma elem_of_room_inserts rid l (ps : list (string * string)) r a :
  (r, a) ∈ foldl (fun acc x => insert_ignore (rid, x) acc) ps l <-> (r, a) ∈ ps \/ (r = rid /\ a ∈ l).
Proof.
  revert ps. induction l as [|x l IH]; intros ps; simpl.
  { split; [auto|]. intros [?|[_ ?%elem_of_nil]]; done. }
  rewrite IH, elem_of_cons. unfold insert_ignore. case_bool_decide as Hin.
  - naive_solver.
  - rewrite elem_of_app, list_elem_of_singleton. naive_solver.
Qed.

Lemma createRoom_relay_ok d m now rid f b c n l :
  md_rooms m !! rid = None -> (forall x, x ∈ md_messages m -> ms_conversation x <> rid) ->
  relay_ok d m -> relay_ok d (fst (fst (createRoom d m now rid f b c n l))).
Proof.
  intros Hrid Hconv [H1 H2 H3 H4 H5 H6].
  split; [done|done| |done|done|].
  - intros r a Hin. unfold createRoom in Hin. cbn in Hin. apply elem_of_room_inserts in Hin as [Hin|[-> Hin]].
    + destruct (H3 r a Hin) as (room & Hr & Hf). exists room. cbn.
      rewrite lookup_insert_ne by congruence. done.
    + eexists. cbn. rewrite lookup_insert_eq. split; [done|]. cbn. apply live_agent_ids_fleet.
      apply list_elem_of_In, filter_In in Hin as [_ Hin]. by apply bool_decide_eq_true in Hin.
  - intros x Hx Hr.
    assert (Hne : ms_conversation x <> rid).
    { unfold contents in Hx. cbn in Hx. apply list_elem_of_In, in_map_iff in Hx as (y & <- & Hy).
      apply (Hconv y). by apply list_elem_of_In. }
    destruct (H6 x Hx) as [Ho|Hm]; [|by left|].
    + unfold isRoomConversation, createRoom in *. cbn in Hr. by rewrite lookup_insert_ne in Hr.
    + right. unfold is_member in *. apply exists_row_true in Hm as ([r a] & Hin & Hp).
      apply exists_row_true. exists (r, a). split; [|done]. cbn. apply elem_of_room_inserts. by left.
Qed.

Lemma deleteRoom_relay_ok d m now f rid o :
  relay_ok d m -> relay_ok d (fst (fst (deleteRoom m now f rid o))).
Proof.
  intros Hok. unfold deleteRoom. destruct (fleet_room m f rid) as [room0|] eqn:Hroom; [|done].
  destruct Hok as [H1 H2 H3 H4 H5 H6]. cbn [fst]. split; [done|done| |done|done|].
  - intros r a Hin. cbn in Hin. apply elem_of_delete_where in Hin as [Hin Hp]. cbn in Hp. bools.
    destruct (H3 r a Hin) as (room & Hr & Hf). exists room. cbn.
    by rewrite lookup_delete_ne.
  - intros x Hx Hr. unfold isRoomConversation in Hr. cbn in Hr.
    destruct (decide (rid = ms_conversation x)) as [Heq|Hne]; [by rewrite Heq, lookup_delete_eq in Hr|].
    rewrite lookup_delete_ne in Hr by done. destruct (H6 x Hx Hr) as [Ho|Hm]; [by left|right].
    unfold is_member in *. apply exists_row_true in Hm as ([r a] & Hin & Hp).
    apply exists_row_true. exists (r, a). split; [|done]. cbn. apply elem_of_delete_where. split; [done|].
    cbn in *. apply andb_true_iff in Hp as [Hp _]. apply bool_decide_eq_true in Hp. apply bool_decide_eq_false. congruence.
Qed.

(** Steps that leave rooms' fleets, members, contents and routing alone. *)
Lemma relay_ok_rooms d m m' :
  contents m' = contents m -> routing m' = routing m -> md_members m' = md_members m ->
  (forall r, rm_fleet <$> md_rooms m' !! r = rm_fleet <$> md_rooms m !! r) ->
  relay_ok d m -> relay_ok d m'.
Proof.
  intros Hc Hrt Hm Hr [H1 H2 H3 H4 H5 H6].
  assert (Hroom : forall f c, isRoomConversation m' f c = isRoomConversation m f c).
  { intros f c. unfold isRoomConversation. specialize (Hr c).
    destruct (md_rooms m' !! c) as [r1|], (md_rooms m !! c) as [r2|]; try discriminate Hr; [|done].
    cbn in Hr. injection Hr as Hr. by rewrite Hr. }
  split; unfold is_member in *; rewrite ?Hc, ?Hrt, ?Hm; try done.
  - intros r a Hin. destruct (H3 r a Hin) as (room & Hroom' & Hf). specialize (Hr r). rewrite Hroom' in Hr.
    destruct (md_rooms m' !! r) as [room'|]; [|discriminate Hr]. cbn in Hr. injection Hr as Hr.
    exists room'. split; [done|]. by rewrite Hr.
  - intros x Hx. rewrite Hroom. by apply H6.
Qed.

Lemma relay_step_ok now s s' :
  relay_step now s s' -> relay_ok (fst s) (snd s) -> relay_ok (fst s') (snd s') /\ agents_grow (fst s) (fst s').
Proof.
  intros Hstep Hok. assert (Hrefl : agents_grow (fst s) (fst s)) by (intros i a Hi; by exists a).
  destruct Hstep; cbn [fst snd] in *.
  - split; [|apply exec_grow]. eapply relay_ok_grow; [apply exec_grow|by apply exec_operators, Hok|done].
  - split; [|done]. eapply createMessage_relay_ok; [done| |done|done].
    unfold authenticateAgent in *. destruct (ad_agents d !! mi_sender i) as [b|] eqn:E; [|done].
    destruct (_ ==? _); [|done]. destruct (latest_by _ _); [|done]. simplify_eq. by exists a.
  - by eapply createOperatorMessage_relay_ok.
  - by eapply resumeConversation_relay_ok.
  - split; [|done]. by apply createRoom_relay_ok.
  - split; [|done]. unfold setRoomProjectMode, fleet_room. destruct (md_rooms m !! rid) as [r|] eqn:E; [|exact Hok].
    destruct (rm_fleet r ==? f); [|exact Hok]. eapply (relay_ok_rooms d m); [reflexivity|reflexivity|reflexivity| |exact Hok].
    intros c. cbn. destruct (decide (rid = c)) as [<-|Hne].
    + by rewrite lookup_insert_eq, E.
    + by rewrite lookup_insert_ne.
  - split; [|done]. by apply deleteRoom_relay_ok.
  - split; [|done]. eapply same_views_ok; [|exact Hok]. unfold acquireFloor.
    destruct (fleet_floor _ _ _); [|done]. by destruct (_ || _).
  - split; [|done]. eapply same_views_ok; [|exact Hok]. unfold releaseFloor.
    destruct (fleet_floor _ _ _); [|done]. by destruct (_ ==? _).
  - split; [|done]. eapply same_views_ok; [apply poll_views|done].
  - split; [|done]. eapply same_views_ok; [apply ack_views|done].
  - split; [|done]. eapply same_views_ok; [apply retry_views|done].
  - split; [|done]. eapply same_views_ok; [apply expire_views|done].
Qed.

Lemma agents_grow_trans d1 d2 d3 : agents_grow d1 d2 -> agents_grow d2 d3 -> agents_grow d1 d3.
Proof.
  intros H1 H2 i a Hi. destruct (H1 i a Hi) as (b & Hb & ? & ? & ?).
  destruct (H2 i b Hb) as (c & Hc & ? & ? & ?). exists c. split_and!; congruence.
Qed.

Lemma relay_run_ok s s' :
  relay_run s s' -> relay_ok (fst s) (snd s) -> relay_ok (fst s') (snd s') /\ agents_grow (fst s) (fst s').
Proof.
  intros Hrun Hok. induction Hrun as [|now s1 s2 Hrun [IH1 IH2] Hstep].
  - split; [done|]. intros i a Hi. by exists a.
  - destruct (relay_step_ok now s1 s2 Hstep IH1) as [H1 H2]. split; [done|]. by eapply agents_grow_trans.
Qed.

Lemma empty_relay_ok d : operators_ok d -> relay_ok d empty_mail.
Proof.
  intros Hd. split; [done|apply NoDup_nil_2|..]; intros *; try (by intros ?%elem_of_nil).
Qed.

(** Messages are only added: their contents never change and none disappears. *)
Lemma relay_step_contents now s s' :
  relay_step now s s' -> exists new, contents (snd s') = (contents (snd s) ++ new)%list.
Proof.
  intros Hstep. assert (Hsame : forall m m' : MailDb, contents m' = contents m ->
    exists new, contents m' = (contents m ++ new)%list) by (intros m m' ->; exists []; by rewrite app_nil_r).
  assert (Hq : forall msg dly l att m, exists new,
    contents (queue_message msg dly l att m) = (contents m ++ new)%list).
  { intros. unfold contents. cbn. rewrite map_app. by eexists. }
  destruct Hstep as [|d m e a h mid dly i m' es _ _ Hc _|d m keys mid cor conv dly i d' m' c es Hc _
                    |d m nudge keys mid cor conv dly f o c t d' m' c' es Hc _| | | | | | | | |]; cbn [snd].
  - by apply Hsame.
  - apply createMessage_Ok in Hc as (l & _ & _ & _ & ->). apply Hq.
  - apply createOperatorMessage_Ok in Hc as (_ & _ & msg & l & k & r & ty & -> & _). apply Hq.
  - unfold resumeConversation in Hc. destruct (fleet_room m f c) as [room|].
    + destruct (createOperatorMessage _ _ _ _ _ _ _ _ _ _) as [d1 [[[m1 c1] es1]|]] eqn:Hs; [|done].
      injection Hc as _ <- _ _. apply createOperatorMessage_Ok in Hs as (_ & _ & msg & l & k & r & ty & -> & _). apply Hq.
    + destruct (live_participants d m f c ==? []); [done|].
      destruct (ensureOperatorAgent d now f) as [d1 sender]. injection Hc as _ <- _ _. apply Hq.
  - by apply Hsame.
  - apply Hsame. unfold setRoomProjectMode. by destruct (fleet_room _ _ _).
  - apply Hsame. unfold deleteRoom. by destruct (fleet_room _ _ _).
  - apply Hsame. unfold acquireFloor. destruct (fleet_floor _ _ _); [|done]. by destruct (_ || _).
  - apply Hsame. unfold releaseFloor. destruct (fleet_floor _ _ _); [|done]. by destruct (_ ==? _).
  - apply Hsame, poll_views.
  - apply Hsame, ack_views.
  - apply Hsame, retry_views.
  - apply Hsame, expire_views.
Qed.

Lemma relay_run_contents s s' x :
  relay_run s s' -> x ∈ contents (snd s) -> x ∈ contents (snd s').
Proof.
  intros Hrun Hx. induction Hrun as [|now s1 s2 Hrun IH Hstep]; [done|].
  destruct (relay_step_contents now s1 s2 Hstep) as [new ->]. apply elem_of_app. by left.
Qed.

(** ** Who sent a message *)

(** An agent that can authenticate is not revoked, so it is no operator's. *)
Lemma authenticated_not_operator e d i a h :
  operators_ok d -> authenticateAgent e d i = Some (a, h) ->
  ad_agents d !! i = Some a /\ ag_runtime a <> "operator".
Proof.
  intros Hok Hau. unfold authenticateAgent in Hau. destruct (ad_agents d !! i) as [b|] eqn:E; [|done].
  destruct (ag_revoked_at b ==? None) eqn:Hrev; [|done]. apply bool_decide_eq_true in Hrev.
  destruct (latest_by _ _); [|done]. injection Hau as -> _. split; [done|]. intros Hr.
  destruct (Hok i a E) as (_ & _ & Hv); [by left|]. rewrite Hrev in Hv. by destruct Hv.
Qed.

(** The row a send inserted, found again later by its id: only its status may
    have moved. *)
Lemma sent_message_row d m now mid dly i m' es d2 m2 x :
  createMessage cfg d m now mid dly i = Ok (m', es) -> relay_run (d, m') (d2, m2) -> relay_ok d2 m2 ->
  x ∈ md_messages m2 -> ms_id x = mid ->
  ms_sender x = mi_sender i /\ ms_type x = mi_type i /\ ms_priority x = mi_priority i /\
  ms_body x = mi_body i /\ ms_metadata x = mi_metadata i.
Proof.
  intros (l & _ & _ & _ & Hm')%createMessage_Ok Hrun Hok Hx Hi.
  set (msg := MkMessage _ _ _ _ _ _ _ _ _ _ _ _ _ _ _ _) in Hm'.
  assert (Hin : set_message_status MQueued msg ∈ contents m2).
  { apply (relay_run_contents (d, m') (d2, m2)); [done|]. cbn. rewrite Hm'.
    apply elem_of_contents. cbn. apply elem_of_app. right. by left. }
  pose proof (NoDup_map_inj ms_id (contents m2) (set_message_status MQueued x) _ (ro_ids _ _ Hok)
    (elem_of_contents _ _ Hx) Hin Hi) as Heq.
  destruct x. cbn in Heq. injection Heq. intros. by subst.
Qed.
End Steps.
