(* ===== verification/RelayProperties.v ===== *)
(** * Properties of the relay as a whole

    Fleet isolation, who may post into a room, who may speak as the operator,
    what a poll discloses, and whom a send reaches, in every reachable database
    of [RelaySafety]. *)

From S2P Require Import Prelude Json IsoTime JsValues Events Config OperatorKeys Agents Enrollment Messages Rooms Delivery AgentSafety DeliverySafety RelaySafety.
Import Ascii String.
Open Scope string_scope.
Open Scope Z_scope.

(** ** A concrete relay: two agents of fleet f in a room, one agent of fleet g *)

Definition demo_fleets : AgentDb :=
  MkAgentDb (<["a1" := fresh_agent "f" "Tars" "openclaw" None 0]>
             (<["a2" := fresh_agent "f" "Case" "openclaw" None 0]>
              (<["b1" := fresh_agent "g" "Kipp" "openclaw" None 0]> ∅))) [] [] ∅ ∅ [] ∅.
Definition demo_creds : EnrollDb :=
  MkEnrollDb ∅ [] [MkCredential "cred1" "a1" "s3cret" "active" 0] ∅.
Definition demo_room : MailDb :=
  fst (fst (createRoom demo_fleets empty_mail 500 "room1" "f" true "a1" "ops" ["a2"; "b1"])).
Definition demo_post : MessageInput :=
  MkMessageInput "f" "a1" "group" (Some "room1") "direct" "normal" 3600 false
    (JObj [("text", JStr "hello room")])
    (Some (JObj [("operator_sig", JStr "forged"); ("agent_sig", JStr "sig")])) "c1" "cor1".
Definition demo_ids (n : nat) : string := "d" +:+ stringify_nat (Z.of_nat n).
Definition demo_posted : MailDb :=
  match createMessage default_config demo_fleets demo_room 1000 "m1" demo_ids demo_post with
  | Ok (m, _) => m | Throw _ => empty_mail
  end.
Abbreviation demo_relay_run := (@relay_run toy_node default_config).

Lemma demo_operators_ok : operators_ok demo_fleets.
Proof.
  intros i a Hi. unfold demo_fleets in Hi. cbn in Hi.
  repeat (apply lookup_insert_Some in Hi as [[<- <-]|[_ Hi]];
    [intros [Hr|[f Hf]]; [discriminate Hr|unfold operator_agent in Hf; discriminate Hf]|]).
  by apply lookup_empty_Some in Hi.
Qed.

Lemma demo_room_run : demo_relay_run (demo_fleets, empty_mail) (demo_fleets, demo_room).
Proof.
  eapply (rrun_step _ _ 500); [apply rrun_refl|].
  apply rs_create_room; [reflexivity|by intros x ?%elem_of_nil].
Qed.

Lemma demo_post_ok : exists a h es,
  @authenticateAgent demo_creds demo_fleets "a1" = Some (a, h) /\ ag_fleet a = "f" /\
  createMessage default_config demo_fleets demo_room 1000 "m1" demo_ids demo_post =
    Ok (demo_posted, es).
Proof. eexists _, _, _. split_and!; vm_compute; reflexivity. Qed.

Lemma demo_posted_run : demo_relay_run (demo_fleets, empty_mail) (demo_fleets, demo_posted).
Proof.
  destruct demo_post_ok as (a & h & es & Ha & Hf & Hm).
  eapply (rrun_step _ _ 1000); [exact demo_room_run|].
  apply (@rs_send toy_node default_config 1000 demo_fleets demo_room demo_creds a h "m1" demo_ids demo_post _ es Ha Hf Hm). by intros ?%elem_of_nil.
Qed.

(** ** Isolation *)

(** C3. Fleets are isolated. In every reachable database, the sender and every
    recipient of a message are agents of the message's own fleet, every delivery
    has its message, and every member of a room is an agent of the room's fleet. *)
Theorem fleet_isolation `{NodeCrypto} cfg d0 d m :
  operators_ok d0 -> relay_run cfg (d0, empty_mail) (d, m) ->
  (forall x, x ∈ md_messages m -> same_fleet d (ms_fleet x) (ms_sender x)) /\
  (forall dl, dl ∈ md_deliveries m -> exists x, message_by_id m (dl_message dl) = Some x /\
     same_fleet d (ms_fleet x) (dl_recipient dl)) /\
  (forall r a, (r, a) ∈ md_members m -> exists room, md_rooms m !! r = Some room /\
     same_fleet d (rm_fleet room) a).
Proof.
  intros H0 Hrun. destruct (relay_run_ok cfg _ _ Hrun (empty_relay_ok d0 H0)) as [Hok _]. cbn in Hok.
  split; [|split; [|by apply ro_members]].
  - intros x Hx. apply (ro_senders _ _ Hok (set_message_status MQueued x)). by apply elem_of_contents.
  - intros dl Hdl. destruct (ro_deliveries _ _ Hok (dl_message dl) (dl_recipient dl)) as (y & Hy & Hi & Hf).
    { apply list_elem_of_In, in_map_iff. exists dl. by rewrite <- list_elem_of_In. }
    apply contents_elem in Hy as (x & Hx & ->). exists x. split; [|done].
    apply message_by_id_unique; [apply Hok|done|done].
Qed.

Lemma fleet_isolation_witness :
  length (md_deliveries demo_posted) = 1%nat /\
  forall dl, dl ∈ md_deliveries demo_posted -> exists x, message_by_id demo_posted (dl_message dl) = Some x /\
     same_fleet demo_fleets (ms_fleet x) (dl_recipient dl).
Proof.
  split; [vm_compute; reflexivity|].
  exact (proj1 (proj2 (@fleet_isolation toy_node default_config demo_fleets demo_fleets demo_posted
    demo_operators_ok demo_posted_run))).
Defined.

(** Only members and the operator write into a room: in every reachable
    database, each message under a room's conversation was sent by an agent that
    is a member of that room, or by the fleet's operator identity. *)
Theorem room_posts_by_members `{NodeCrypto} cfg d0 d m x :
  operators_ok d0 -> relay_run cfg (d0, empty_mail) (d, m) ->
  x ∈ md_messages m -> isRoomConversation m (ms_fleet x) (ms_conversation x) = true ->
  is_member m (ms_conversation x) (ms_sender x) = true \/ ms_sender x = operator_agent (ms_fleet x).
Proof.
  intros H0 Hrun Hx Hr. destruct (relay_run_ok cfg _ _ Hrun (empty_relay_ok d0 H0)) as [Hok _].
  apply or_comm. apply (ro_posts _ _ Hok (set_message_status MQueued x)); [by apply elem_of_contents|done].
Qed.

Lemma room_posts_by_members_witness :
  exists x, md_messages demo_posted = [x] /\ ms_conversation x = "room1" /\
    (is_member demo_posted (ms_conversation x) (ms_sender x) = true \/
     ms_sender x = operator_agent (ms_fleet x)).
Proof.
  assert (Hx : exists x, md_messages demo_posted = [x] /\ ms_conversation x = "room1" /\
    isRoomConversation demo_posted (ms_fleet x) (ms_conversation x) = true).
  { eexists. split_and!; vm_compute; reflexivity. }
  destruct Hx as (x & Hx & Hc & Hr). exists x. split; [exact Hx|]. split; [exact Hc|].
  assert (Hin : x ∈ md_messages demo_posted) by (rewrite Hx; by left).
  exact (@room_posts_by_members toy_node default_config demo_fleets demo_fleets demo_posted x
    demo_operators_ok demo_posted_run Hin Hr).
Defined.

(** Messages are never rewritten: whatever the relay does, a stored message
    stays, with the same sender, conversation, body, metadata and times; only its
    status moves. *)
Theorem messages_never_rewritten `{NodeCrypto} cfg s s' x :
  relay_run cfg s s' -> x ∈ md_messages (snd s) ->
  exists y, y ∈ md_messages (snd s') /\ set_message_status (ms_status x) y = x.
Proof.
  intros Hrun Hx. pose proof (relay_run_contents cfg s s' (set_message_status MQueued x) Hrun) as Hc.
  destruct (contents_elem (snd s') _ (Hc (elem_of_contents _ _ Hx))) as (y & Hy & Heq).
  exists y. split; [done|]. destruct x, y. cbn in Heq. by injection Heq as <- <- <- <- <- <- <- <- <- <- <- <- <- <- <-.
Qed.

Lemma messages_never_rewritten_witness :
  exists x, md_messages demo_posted = [x] /\
    exists y, y ∈ md_messages (fst (fst (poll demo_posted 2000 "a2" 50))) /\
      set_message_status (ms_status x) y = x.
Proof.
  assert (Hx : exists x, md_messages demo_posted = [x]) by (eexists; vm_compute; reflexivity).
  destruct Hx as [x Hx]. exists x. split; [exact Hx|].
  assert (Hin : x ∈ md_messages (snd (demo_fleets, demo_posted))) by (cbn [snd]; rewrite Hx; by left).
  refine (@messages_never_rewritten toy_node default_config (demo_fleets, demo_posted)
    (demo_fleets, fst (fst (poll demo_posted 2000 "a2" 50))) x _ Hin).
  eapply (rrun_step _ _ 2000); [apply rrun_refl|]. apply rs_poll.
Defined.

(** ** The operator's voice *)

(** No agent speaks as the operator. A message sent by an authenticated
    agent is shown, in every later inbox, quote and history, as an agent's: the
    relay derives the sender kind from its own tables, so the operator signature
    that agent may have put into the metadata is never passed on as one. *)
Theorem agent_cannot_speak_as_operator `{NodeCrypto} cfg d0 d m e a h now mid dly i m' es d2 m2 x :
  operators_ok d0 -> relay_run cfg (d0, empty_mail) (d, m) ->
  authenticateAgent e d (mi_sender i) = Some (a, h) -> ag_fleet a = mi_fleet i ->
  createMessage cfg d m now mid dly i = Ok (m', es) -> mid ∉ map ms_id (md_messages m) ->
  relay_run cfg (d, m') (d2, m2) -> x ∈ md_messages m2 -> ms_id x = mid ->
  ms_sender x = mi_sender i /\
  sn_from_operator (snapshotOf d2 x) = false /\ sn_operator_sig (snapshotOf d2 x) = None /\
  (forall fl reader, im_from_operator (inbox_message d2 m2 fl reader x) = false /\
                     im_operator_sig (inbox_message d2 m2 fl reader x) = None).
Proof.
  intros H0 Hrun Hau Hfl Hmsg Hid Hrun2 Hx Hxi.
  destruct (relay_run_ok cfg _ _ Hrun (empty_relay_ok d0 H0)) as [Hok _]. cbn in Hok.
  assert (Hstep : relay_step cfg now (d, m) (d, m')) by by eapply rs_send.
  destruct (relay_step_ok cfg now _ _ Hstep Hok) as [Hok' _]. cbn in Hok'.
  destruct (relay_run_ok cfg _ _ Hrun2 Hok') as [Hok2 Hg]. cbn in Hok2, Hg.
  assert (Hs : ms_sender x = mi_sender i) by by eapply sent_message_row.
  destruct (authenticated_not_operator e d (mi_sender i) a h (ro_operators _ _ Hok) Hau) as [Ha Hr].
  destruct (Hg _ _ Ha) as (a2 & Ha2 & _ & Hr2 & _).
  assert (Hop : bool_decide (ag_runtime <$> ad_agents d2 !! ms_sender x = Some "operator") = false).
  { apply bool_decide_eq_false. rewrite Hs, Ha2. cbn. congruence. }
  split; [done|]. unfold snapshotOf, inbox_message. cbn. by rewrite Hop.
Qed.

Lemma agent_cannot_speak_as_operator_witness :
  exists x, md_messages demo_posted = [x] /\ meta_field (ms_metadata x) "operator_sig" = Some (JStr "forged") /\
    sn_operator_sig (snapshotOf demo_fleets x) = None.
Proof.
  assert (Hx : exists x, md_messages demo_posted = [x] /\
    meta_field (ms_metadata x) "operator_sig" = Some (JStr "forged") /\ ms_id x = "m1").
  { eexists. split_and!; vm_compute; reflexivity. }
  destruct Hx as (x & Hx & Hmeta & Hi). exists x. split; [exact Hx|]. split; [exact Hmeta|].
  assert (Hin : x ∈ md_messages demo_posted) by (rewrite Hx; by left).
  destruct demo_post_ok as (a & h & es & Ha & Hf & Hm).
  assert (Hid : "m1" ∉ map ms_id (md_messages demo_room)) by (by intros ?%elem_of_nil).
  destruct (@agent_cannot_speak_as_operator toy_node default_config demo_fleets demo_fleets demo_room demo_creds
    a h 1000 "m1" demo_ids demo_post demo_posted es demo_fleets demo_posted x
    demo_operators_ok demo_room_run Ha Hf Hm Hid (rrun_refl _ _) Hin Hi) as (_ & _ & Hsig & _).
  exact Hsig.
Defined.

(** ** What a poll discloses *)

Lemma delivered_to_in m i a : delivered_to m i a = true <-> (i, a) ∈ routing m.
Proof.
  unfold delivered_to, routing. rewrite exists_row_true, list_elem_of_In, in_map_iff. split.
  - intros (dl & Hdl & Hp). apply andb_true_iff in Hp as [<-%bool_decide_eq_true <-%bool_decide_eq_true].
    exists dl. by rewrite <- list_elem_of_In.
  - intros (dl & [= <- <-] & Hdl). exists dl. rewrite list_elem_of_In. by rewrite !bool_decide_true.
Qed.

(** What an agent of a fleet may read: a message of that fleet that is visible to
    it under the relay's one rule. *)
Definition readable (m : MailDb) (fleet a : string) (y : MessageRow) : Prop :=
  y ∈ md_messages m /\ ms_fleet y = fleet /\ messageVisibleTo m a y = true.

Lemma elem_of_newest n l y : y ∈ newest n l -> y ∈ l.
Proof.
  unfold newest. rewrite elem_of_reverse. intros Hy%elem_of_take.
  destruct Hy as (k & Hy & _). apply list_elem_of_lookup_2 in Hy.
  by rewrite elem_of_reverse, elem_of_order_by in Hy.
Qed.

Lemma reply_snapshot_readable d m fl a x s :
  reply_snapshot d m fl a x = Some s ->
  exists y, readable m fl a y /\ s = snapshotOf d y /\ ms_conversation y = ms_conversation x.
Proof.
  unfold reply_snapshot. destruct (meta_field _ _) as [v|]; [|done]. destruct (negb _); [done|].
  destruct (select_one _ _) as [y|] eqn:E; [|done]. apply select_one_Some in E as [Hy Hp].
  destruct (ms_conversation y ==? ms_conversation x) eqn:Hc; [|done]. intros [= <-]. exists y.
  apply andb_true_iff in Hp as [Hp Hv]. apply andb_true_iff in Hp as [_ Hf]. bools. done.
Qed.

Lemma history_readable d m fl a rows c l s :
  (c, l) ∈ conversation_history d m fl a rows -> s ∈ l ->
  exists y, readable m fl a y /\ s = snapshotOf d y /\ ms_conversation y = c /\
    is_member m c a = true.
Proof.
  intros Hin Hs. apply list_elem_of_In, in_map_iff in Hin as ([c' n] & [= <- <-] & Hin).
  apply list_elem_of_In, list_elem_of_omap in Hin as (c0 & _ & Hc0).
  destruct (fleet_room m fl c0) as [r|] eqn:Hr; [|done]. destruct (is_member m c0 a) eqn:Hm; [|done].
  injection Hc0 as -> <-. apply list_elem_of_In, in_map_iff in Hs as (y & <- & Hy).
  apply list_elem_of_In, elem_of_newest, elem_of_select in Hy as [Hy Hp]. exists y.
  apply andb_true_iff in Hp as [Hf%bool_decide_eq_true Hc%bool_decide_eq_true]. cbn [fst] in Hc.
  split_and!; [|done|done|done]. split_and!; [done|done|]. unfold messageVisibleTo, isRoomConversation.
  unfold fleet_room in Hr. rewrite Hf, Hc. destruct (md_rooms m !! c') as [r'|]; [|done].
  destruct (rm_fleet r' ==? fl); [|done]. rewrite Hm. simpl. by rewrite orb_true_r.
Qed.

(** C35. A poll discloses only what the agent may read. Every message in an inbox
    is one delivered to the polling agent; every quoted message and every line of
    room history in it is a message of the agent's own fleet that the relay's read
    rule shows that agent (it sent it, it is a member of the room, or outside
    rooms it was delivered to it), a quote from the same conversation only, and
    history only of rooms it is in. The conversation tail obeys the same rule. *)
Theorem inbox_discloses_only_readable keys d m now a limit self :
  ad_agents d !! a = Some self ->
  let '(m1, inbox, _) := getInbox keys d m now a limit in
  (forall im, im ∈ ib_messages inbox ->
     exists x, x ∈ md_messages m1 /\ delivered_to m1 (ms_id x) a = true /\
       im = inbox_message d m1 (ag_fleet self) a x /\
       forall s, im_reply_to im = Some s -> exists y, readable m1 (ag_fleet self) a y /\
         s = snapshotOf d y /\ ms_conversation y = im_conversation im) /\
  (forall c l s, (c, l) ∈ ib_history inbox -> s ∈ l ->
     exists y, readable m1 (ag_fleet self) a y /\ s = snapshotOf d y /\ ms_conversation y = c /\
       is_member m1 c a = true) /\
  (forall c n s, s ∈ getConversationTail d m1 (ag_fleet self) c a n ->
     exists y, readable m1 (ag_fleet self) a y /\ s = snapshotOf d y /\ ms_conversation y = c).
Proof.
  intros Hself. unfold getInbox.
  pose proof (poll_views m now a limit) as Hv.
  assert (Hrows : forall r, r ∈ snd (fst (poll m now a limit)) ->
    snd r ∈ md_messages (fst (fst (poll m now a limit))) /\
    delivered_to (fst (fst (poll m now a limit))) (ms_id (snd r)) a = true).
  { intros [dl x] Hr. cbn [snd]. apply pending_spec in Hr as (Hdl & Hx & <- & _).
    apply message_by_id_Some in Hx as [Hx Hi]. split; [done|].
    apply delivered_to_in. rewrite (sv_routing _ _ Hv), Hi.
    apply list_elem_of_In, in_map_iff. exists dl. by rewrite <- list_elem_of_In. }
  destruct (poll m now a limit) as [[m1 rows] es]. cbn [fst snd] in *. rewrite Hself.
  cbn [option_map default ib_messages ib_history]. split_and!.
  - intros im Him. apply list_elem_of_In, in_map_iff in Him as (r & <- & Hr).
    apply list_elem_of_In in Hr. destruct (Hrows r Hr) as [Hx Hd]. exists (snd r).
    split_and!; [done|done|done|]. intros s Hs. by apply reply_snapshot_readable.
  - intros c l s. apply history_readable.
  - intros c n s Hs. apply list_elem_of_In, in_map_iff in Hs as (y & <- & Hy).
    apply list_elem_of_In, elem_of_newest, elem_of_select in Hy as [Hy Hp]. exists y.
    apply andb_true_iff in Hp as [Hp Hvis]. apply andb_true_iff in Hp as [Hf Hc]. bools. done.
Qed.

Lemma inbox_discloses_only_readable_witness :
  exists self, ad_agents demo_fleets !! "a2" = Some self /\
  let '(m1, inbox, _) := getInbox (MkKeyDb ∅ ∅ ∅ []) demo_fleets demo_posted 2000 "a2" 50 in
  length (ib_messages inbox) = 1%nat /\
  forall c l s, (c, l) ∈ ib_history inbox -> s ∈ l ->
     exists y, readable m1 (ag_fleet self) "a2" y /\ s = snapshotOf demo_fleets y /\ ms_conversation y = c /\
       is_member m1 c "a2" = true.
Proof.
  assert (Hs : exists self, ad_agents demo_fleets !! "a2" = Some self) by (eexists; vm_compute; reflexivity).
  destruct Hs as [self Hs]. exists self. split; [exact Hs|].
  assert (Hl : length (ib_messages (snd (fst (getInbox (MkKeyDb ∅ ∅ ∅ []) demo_fleets demo_posted 2000 "a2" 50)))) = 1%nat)
    by (vm_compute; reflexivity).
  pose proof (inbox_discloses_only_readable (MkKeyDb ∅ ∅ ∅ []) demo_fleets demo_posted 2000 "a2" 50 self Hs) as H.
  destruct (getInbox (MkKeyDb ∅ ∅ ∅ []) demo_fleets demo_posted 2000 "a2" 50) as [[m1 inbox] es].
  destruct H as (_ & H & _). exact (conj Hl H).
Defined.

(** ** Whom a send reaches *)

(** C36. An agent's send reaches exactly whom its stated recipient names. It is
    accepted only if the sender is known, every attachment it names was uploaded
    by it in its fleet, and: a group message goes to a room of the fleet that the
    sender is in, and is queued for exactly its other live members; any other
    message stays out of room conversations, an agent recipient is deliverable in
    the fleet and gets the only delivery, a broadcast is queued for exactly the
    other live agents of the fleet. *)
Theorem send_reaches_exactly cfg d m now mid dly i m' es :
  createMessage cfg d m now mid dly i = Ok (m', es) ->
  let c := routed_conversation i in
  let fleet := mi_fleet i in
  let kind := mi_recipient_kind i in
  exists l,
    routing m' = (routing m ++ map (fun a => (mid, a)) l)%list /\
    (forall f, f ∈ string_list (mi_body i) "attachments" -> owned_by m fleet (mi_sender i) f = true) /\
    (kind = "group" -> isRoomConversation m fleet c = true /\ is_member m c (mi_sender i) = true /\
       forall a, a ∈ l <-> (c, a) ∈ md_members m /\ a <> mi_sender i /\
         exists row, ad_agents d !! a = Some row /\ ag_runtime row <> "operator" /\ ag_revoked_at row = None) /\
    (kind <> "group" -> isRoomConversation m fleet c = false) /\
    (kind = "agent" -> exists r, mi_recipient_id i = Some r /\ l = [r] /\ isDeliverableAgent d fleet r = true) /\
    (kind = "broadcast" -> forall a, a ∈ l <-> a <> mi_sender i /\
       exists row, ad_agents d !! a = Some row /\ live_member fleet row = true) /\
    (kind = "group" \/ kind = "agent" \/ kind = "broadcast").
Proof.
  intros (l & Hr & Hk & Hv & ->)%createMessage_Ok. cbv zeta. exists l.
  split; [by unfold routing, queue_message; cbn; rewrite map_app, routing_queued|].
  split; [by apply validateAttachmentOwnership_true|].
  set (c := routed_conversation i) in *. unfold route in Hr.
  destruct (mi_recipient_kind i ==? "group") eqn:Hg; bools.
  - destruct (roomMemberIds _ _ _ _ _ _) as [l'|] eqn:E; [|done]. injection Hr as ->.
    apply roomMemberIds_exact in E as (Hroom & Hm & Hl). rewrite Hg.
    split_and!; try done; by left.
  - destruct (isRoomConversation m (mi_fleet i) c) eqn:Hroom; [done|].
    split; [done|]. split; [done|].
    destruct (mi_recipient_kind i ==? "agent") eqn:Ha; bools; [rewrite Ha in *|].
    + destruct (truthy (mi_recipient_id i)) as [r|] eqn:Ht; [|done].
      destruct (isDeliverableAgent _ _ _) eqn:Hd; [|done]. injection Hr as <-.
      apply truthy_Some in Ht as [Ht _]. split; [by exists r|]. split; [done|]. right. by left.
    + destruct (mi_recipient_kind i ==? "broadcast") eqn:Hb; bools; [|done]. injection Hr as <-.
      rewrite Hb. split; [done|]. split; [|by right; right].
      intros _ a. apply elem_of_broadcast.
Qed.

Lemma send_reaches_exactly_witness :
  exists es, createMessage default_config demo_fleets demo_room 1000 "m1" demo_ids demo_post = Ok (demo_posted, es) /\
  exists l, routing demo_posted = (routing demo_room ++ map (fun a => ("m1", a)) l)%list /\
    forall a, a ∈ l <-> ("room1", a) ∈ md_members demo_room /\ a <> "a1" /\
      exists row, ad_agents demo_fleets !! a = Some row /\ ag_runtime row <> "operator" /\ ag_revoked_at row = None.
Proof.
  destruct demo_post_ok as (a & h & es & _ & _ & Hm). exists es. split; [exact Hm|].
  destruct (send_reaches_exactly default_config demo_fleets demo_room 1000 "m1" demo_ids demo_post demo_posted es Hm)
    as (l & Hl & _ & Hg & _). exists l. split; [exact Hl|].
  exact (proj2 (proj2 (Hg eq_refl))).
Defined.

(** ** The floor *)

(** The floor of a conversation excludes. An acquire is granted exactly when
    the fleet's floor is free, expired, or already the caller's; while an agent
    holds it unexpired, every other agent of the fleet is refused with the holder's
    name and nothing changes; only the holder's release ends it early, and after
    that anyone may acquire it. *)
Theorem floor_excludes m now f c a ttl :
  let '(m', v) := acquireFloor m now f c a ttl in
  (fv_granted v = true <->
     forall fl, fleet_floor m f c = Some fl -> fr_expires_at fl <= now \/ fr_holder fl = a) /\
  (fv_granted v = false -> m' = m) /\
  (fv_granted v = true ->
     (forall b now' ttl', b <> a -> now' < now + Z.max 0 ttl * 1000 ->
        acquireFloor m' now' f c b ttl' = (m', MkFloorVerdict false a (now + Z.max 0 ttl * 1000))) /\
     (forall b, b <> a -> releaseFloor m' f c b = (m', false)) /\
     (snd (releaseFloor m' f c a) = true /\ fleet_floor (fst (releaseFloor m' f c a)) f c = None)).
Proof.
  assert (Hgrant : forall fl, fleet_floor (with_floors (<[c := fl]> (md_floors m)) m) (fr_fleet fl) c = Some fl).
  { intros fl. unfold fleet_floor. cbn. by rewrite lookup_insert_eq, bool_decide_true. }
  assert (Hheld : forall (m' := with_floors (<[c := MkFloor f a now (addSeconds now (Z.max 0 ttl))]> (md_floors m)) m),
     (forall b now' ttl', b <> a -> now' < now + Z.max 0 ttl * 1000 ->
        acquireFloor m' now' f c b ttl' = (m', MkFloorVerdict false a (now + Z.max 0 ttl * 1000))) /\
     (forall b, b <> a -> releaseFloor m' f c b = (m', false)) /\
     (snd (releaseFloor m' f c a) = true /\ fleet_floor (fst (releaseFloor m' f c a)) f c = None)).
  { intros m'. pose proof (Hgrant (MkFloor f a now (addSeconds now (Z.max 0 ttl)))) as Hfl. cbn in Hfl. fold m' in Hfl.
    unfold acquireFloor, releaseFloor. rewrite Hfl. cbn. split_and!.
    - intros b now' ttl' Hb Hlt. rewrite (proj2 (Z.leb_gt _ _)) by (unfold addSeconds; lia).
      by rewrite bool_decide_false.
    - intros b Hb. by rewrite bool_decide_false.
    - by rewrite bool_decide_true.
    - rewrite bool_decide_true by done. unfold fleet_floor. cbn. by rewrite lookup_delete_eq. }
  unfold acquireFloor at 1. destruct (fleet_floor m f c) as [cur|] eqn:Hcur; [|by split_and!].
  destruct ((fr_expires_at cur <=? now) || (fr_holder cur ==? a)) eqn:Hfree; cbn [fv_granted].
  - split; [|by split]. split; [|done]. intros _ fl [= <-].
    apply orb_true_iff in Hfree as [Hx|Hx]; bools; auto.
  - bools. split; [|by split]. split; [done|]. intros Hall. destruct (Hall cur eq_refl); [lia|done].
Qed.

(** The exclusion is only among the agents of one fleet: the floor table's primary
    key is the conversation alone, so an agent of another fleet that uses the same
    conversation id takes a live floor away from its holder. *)
Theorem other_fleet_evicts_floor m now f g c a b ttl :
  f <> g -> 0 <= ttl ->
  fleet_floor m f c = Some (MkFloor f a now (addSeconds now ttl)) ->
  let '(m', v) := acquireFloor m now g c b ttl in
  fv_granted v = true /\ fleet_floor m' f c = None.
Proof.
  intros Hne Httl Hf. assert (Hg : fleet_floor m g c = None).
  { unfold fleet_floor in *. destruct (md_floors m !! c) as [fl|]; [|done].
    destruct (fr_fleet fl ==? f) eqn:E; [|done]. injection Hf as ->. bools. cbn in *. by rewrite bool_decide_false. }
  unfold acquireFloor. rewrite Hg. split; [done|]. unfold fleet_floor. cbn.
  rewrite lookup_insert_eq. cbn. by rewrite bool_decide_false.
Qed.

Lemma other_fleet_evicts_floor_witness :
  fleet_floor (fst (acquireFloor empty_mail 1000 "f" "c1" "a1" 60)) "f" "c1" =
    Some (MkFloor "f" "a1" 1000 (addSeconds 1000 60)) /\
  let '(m', v) := acquireFloor (fst (acquireFloor empty_mail 1000 "f" "c1" "a1" 60)) 1000 "g" "c1" "b1" 60 in
  fv_granted v = true /\ fleet_floor m' "f" "c1" = None.
Proof.
  assert (Hf : fleet_floor (fst (acquireFloor empty_mail 1000 "f" "c1" "a1" 60)) "f" "c1" =
    Some (MkFloor "f" "a1" 1000 (addSeconds 1000 60))) by (vm_compute; reflexivity).
  split; [exact Hf|].
  apply (other_fleet_evicts_floor _ 1000 "f" "g" "c1" "a1" "b1" 60); [discriminate|lia|exact Hf].
Defined.
