(* ===== verification/Policies.v ===== *)
(** * Message policies and the admission gate

    [packages/relay/src/db.ts] (policy engine) and
    [packages/relay/src/message-gate.ts]: the checks every message of an agent
    clears before it is created, whatever transport it came by. *)

From S2P Require Import Prelude Json IsoTime JsValues Events Config Agents.
Import Ascii String.
Open Scope string_scope.
Open Scope Z_scope.

(** ** Rules *)

Inductive PolicyAction := PAllow | PDeny.
#[global] Instance PolicyAction_eq_dec : EqDecision PolicyAction.
Proof. solve_decision. Defined.

(** A condition is a string or an array of strings ([policyRuleSchema]); an
    absent one does not restrict. *)
Inductive Condition := OneOf (l : list string) | Exactly (s : string).

Record PolicyConditions := MkConditions {
  pc_sender : option Condition;
  pc_recipient : option Condition;
  pc_type : option Condition;
  pc_priority : option Condition
}.

(** A row of [policies], its [rule_json] parsed; the list is in the order SQLite
    reads the rows in. *)
Record PolicyRow := MkPolicy {
  po_id : string;
  po_fleet : string;
  po_name : string;
  po_scope_kind : string;
  po_scope_id : option string;
  po_action : PolicyAction;
  po_conditions : PolicyConditions;
  po_enabled : bool;
  po_created_at : Z
}.

Definition allowed_values (c : Condition) : list string :=
  match c with OneOf l => l | Exactly s => [s] end.

(** One line of [checks]: the condition against the value, which may be null. *)
Definition check_condition (c : option Condition) (value : option string) : bool :=
  match c, value with
  | None, _ => true
  | Some _, None => false
  | Some c, Some v => bool_decide (v ∈ allowed_values c)
  end.

Definition matchesPolicyConditions (c : PolicyConditions) (sender : string) (recipient : option string)
    (messageType priority : string) : bool :=
  check_condition (pc_sender c) (Some sender) && check_condition (pc_recipient c) recipient &&
  check_condition (pc_type c) (Some messageType) && check_condition (pc_priority c) (Some priority).

(** ** Evaluation *)

(** WHERE fleet_id = ? AND enabled = 1 AND (scope_kind = 'fleet' OR
    (scope_kind = 'agent' AND scope_id IN (sender, recipient ?? ''))) *)
Definition in_scope (fleet sender : string) (recipient : option string) (p : PolicyRow) : bool :=
  (po_fleet p ==? fleet) && po_enabled p &&
  ((po_scope_kind p ==? "fleet") ||
   ((po_scope_kind p ==? "agent") &&
    ((po_scope_id p ==? Some sender) || (po_scope_id p ==? Some (default "" recipient))))).

Definition action_rank (p : PolicyRow) : Z := match po_action p with PDeny => 0 | PAllow => 1 end.

(** The loop over the policies, denies first: the first that matches decides. *)
Fixpoint first_match (sender : string) (recipient : option string) (messageType priority : string)
    (ps : list PolicyRow) : option PolicyRow :=
  match ps with
  | [] => None
  | p :: ps' =>
      if matchesPolicyConditions (po_conditions p) sender recipient messageType priority then Some p
      else first_match sender recipient messageType priority ps'
  end.

Inductive PolicyVerdict := PolicyAllowed | DeniedByPolicy (name : string).

Definition jopt_str (o : option string) : json := match o with Some s => JStr s | None => JNull end.

Definition evaluateMessagePolicies (ps : list PolicyRow) (now : Z) (fleet sender : string)
    (recipient : option string) (messageType priority : string) : PolicyVerdict * list Event :=
  match first_match sender recipient messageType priority
          (order_by action_rank (select (in_scope fleet sender recipient) ps)) with
  | Some p =>
      match po_action p with
      | PDeny =>
          (DeniedByPolicy (po_name p),
           [recordEvent now fleet "message.policy_denied" "system" None "policy" (Some (po_id p)) None
              (JObj [("policy_name", JStr (po_name p)); ("sender", JStr sender);
                     ("recipient", jopt_str recipient); ("message_type", JStr messageType)])])
      | PAllow => (PolicyAllowed, [])
      end
  | None => (PolicyAllowed, [])
  end.

(** ** Maintenance *)

Record PolicyInput := MkPolicyInput {
  pi_name : string;
  pi_scope_kind : string;
  pi_scope_id : option string;
  pi_action : PolicyAction;
  pi_conditions : PolicyConditions;
  pi_enabled : bool
}.

Definition createPolicy (ps : list PolicyRow) (now : Z) (policyId fleet : string) (i : PolicyInput)
    : list PolicyRow * list Event :=
  ((ps ++ [MkPolicy policyId fleet (pi_name i) (pi_scope_kind i) (pi_scope_id i) (pi_action i)
             (pi_conditions i) (pi_enabled i) now])%list,
   [recordEvent now fleet "policy.created" "operator" None "policy" (Some policyId) None
      (JObj [("name", JStr (pi_name i))])]).

Definition listPolicies (ps : list PolicyRow) (fleet : string) : list PolicyRow :=
  reverse (order_by po_created_at (select (fun p => po_fleet p ==? fleet) ps)).

(** [None] leaves a column; the scope id can be set to null.  [pu_keys] is
    [Object.keys(updates)]; the one route that calls [updatePolicy] builds the
    object with all five keys, undefined ones included. *)
Record PolicyUpdate := MkPolicyUpdate {
  pu_name : option string;
  pu_scope_kind : option string;
  pu_scope_id : option (option string);
  pu_rule : option (PolicyAction * PolicyConditions);
  pu_enabled : option bool;
  pu_keys : list string
}.

(** Is any column set? *)
Definition updates_nothing (u : PolicyUpdate) : bool :=
  (pu_name u ==? None) && (pu_scope_kind u ==? None) && (pu_scope_id u ==? None) &&
  (if pu_rule u is None then true else false) && (pu_enabled u ==? None).

Definition set_policy (u : PolicyUpdate) (p : PolicyRow) : PolicyRow :=
  MkPolicy (po_id p) (po_fleet p) (default (po_name p) (pu_name u))
    (default (po_scope_kind p) (pu_scope_kind u)) (default (po_scope_id p) (pu_scope_id u))
    (default (po_action p) (option_map fst (pu_rule u)))
    (default (po_conditions p) (option_map snd (pu_rule u)))
    (default (po_enabled p) (pu_enabled u)) (po_created_at p).

Definition own_policy (policyId fleet : string) (p : PolicyRow) : bool :=
  (po_id p ==? policyId) && (po_fleet p ==? fleet).

Definition updatePolicy (ps : list PolicyRow) (now : Z) (policyId fleet : string) (u : PolicyUpdate)
    : list PolicyRow * bool * list Event :=
  if negb (exists_row (own_policy policyId fleet) ps) then (ps, false, [])
  else if updates_nothing u then (ps, true, [])
  else
    (update_where (own_policy policyId fleet) (set_policy u) ps, true,
     [recordEvent now fleet "policy.updated" "operator" None "policy" (Some policyId) None
        (JObj [("updates", JArr (map JStr (pu_keys u)))])]).

Definition deletePolicy (ps : list PolicyRow) (now : Z) (policyId fleet : string)
    : list PolicyRow * bool * list Event :=
  if (0 <? changes (own_policy policyId fleet) ps)%nat then
    (delete_where (own_policy policyId fleet) ps, true,
     [recordEvent now fleet "policy.deleted" "operator" None "policy" (Some policyId) None (JObj [])])
  else (ps, false, []).

(** ** The gate *)

(** What the hook of a licensed extension reads; the hooks themselves are not
    part of the repository: [hook] is the reason it throws, if it throws. *)
Record HookMessage := MkHookMessage {
  hm_fleet : string;
  hm_sender : string;
  hm_recipient : option string;
  hm_type : string;
  hm_priority : string;
  hm_body : json;
  hm_metadata : option json
}.

Record ExtensionHook := MkExtension {
  ex_name : string;
  ex_onBeforeMessage : option (HookMessage -> option string)
}.

Inductive MessageGateDenial :=
  | SenderStatus (status : AgentStatus)
  | RateLimited (current limit retryAfterSeconds : Z)
  | PolicyDenied (policy : string)
  | ExtensionDenied (extension reason : string).

Fixpoint run_hooks (exts : list ExtensionHook) (x : HookMessage) : option MessageGateDenial :=
  match exts with
  | [] => None
  | e :: exts' =>
      match ex_onBeforeMessage e with
      | None => run_hooks exts' x
      | Some hook =>
          match hook x with
          | Some reason => Some (ExtensionDenied (ex_name e) reason)
          | None => run_hooks exts' x
          end
      end
  end.

(** The authenticated sender: id, fleet and status of its row. *)
Record AgentIdentity := MkIdentity { id_agent : string; id_fleet : string; id_status : AgentStatus }.

(** [None] admits the message. *)
Definition evaluateMessageGate (cfg : Config) (exts : list ExtensionHook) (ps : list PolicyRow)
    (d : AgentDb) (now : Z) (ctl_id : string) (agent : AgentIdentity) (recipient : option string)
    (messageType priority : string) (body : json) (metadata : option json)
    : AgentDb * option MessageGateDenial * list Event :=
  if (id_status agent ==? Quarantined) || (id_status agent ==? Paused)
  then (d, Some (SenderStatus (id_status agent)), [])
  else
    let '(d1, rate, e1) := checkAndIncrementRateLimit cfg d now ctl_id (id_agent agent) (id_fleet agent) in
    if negb (rl_allowed rate)
    then (d1, Some (RateLimited (rl_current rate) (rl_limit rate) (rateLimitWindowSeconds cfg)), e1)
    else
      let '(verdict, e2) := evaluateMessagePolicies ps now (id_fleet agent) (id_agent agent) recipient
                              messageType priority in
      match verdict with
      | DeniedByPolicy name => (d1, Some (PolicyDenied name), (e1 ++ e2)%list)
      | PolicyAllowed =>
          (d1, run_hooks exts (MkHookMessage (id_fleet agent) (id_agent agent) recipient messageType
                                 priority body metadata), (e1 ++ e2)%list)
      end.

(** The HTTP status of [sendGateDenial]. *)
Definition denial_code (x : MessageGateDenial) : Z :=
  match x with SenderStatus _ => 403 | RateLimited _ _ _ => 429 | PolicyDenied _ => 403 | ExtensionDenied _ _ => 403 end.

(** ** What the engine decides *)

Lemma first_match_Some s r t p ps x :
  first_match s r t p ps = Some x ->
  x ∈ ps /\ matchesPolicyConditions (po_conditions x) s r t p = true /\
  forall y, y ∈ ps -> matchesPolicyConditions (po_conditions y) s r t p = true -> y = x \/
    exists k l, ps = (k ++ x :: l)%list /\ y ∈ l.
Proof.
  induction ps as [|z ps IH]; [done|]. cbn [first_match]. destruct (matchesPolicyConditions (po_conditions z) s r t p) eqn:Hz.
  - intros [= ->]. split; [by left|]. split; [done|]. intros y [->|Hy]%elem_of_cons _; [by left|].
    right. by exists [], ps.
  - intros Hm. destruct (IH Hm) as (Hx & Hxm & Hall). split; [by right|]. split; [done|].
    intros y [->|Hy]%elem_of_cons Hym; [congruence|]. destruct (Hall y Hy Hym) as [->|(k & l & -> & Hl)]; [by left|].
    right. by exists (z :: k), l.
Qed.

Lemma first_match_None s r t p ps :
  first_match s r t p ps = None ->
  forall y, y ∈ ps -> matchesPolicyConditions (po_conditions y) s r t p = false.
Proof.
  induction ps as [|z ps IH]; cbn [first_match]; [by intros _ y ?%elem_of_nil|].
  destruct (matchesPolicyConditions _ _ _ _ _) eqn:Hz; [done|].
  intros Hn y [->|Hy]%elem_of_cons; auto.
Qed.

(** A deny that matches decides, in whatever order SQLite returns the rows. *)
Lemma policies_deny_iff ps now f s r t p :
  (exists name, fst (evaluateMessagePolicies ps now f s r t p) = DeniedByPolicy name) <->
  exists x, x ∈ ps /\ in_scope f s r x = true /\ po_action x = PDeny /\
    matchesPolicyConditions (po_conditions x) s r t p = true.
Proof.
  unfold evaluateMessagePolicies. set (l := order_by _ _).
  assert (Hl : forall x, x ∈ l <-> x ∈ ps /\ in_scope f s r x = true).
  { intros x. unfold l. by rewrite elem_of_order_by, elem_of_select. }
  pose proof (order_by_sorted action_rank (select (in_scope f s r) ps)) as Hsort. fold l in Hsort.
  destruct (first_match s r t p l) as [x|] eqn:E.
  - apply first_match_Some in E as (Hx & Hxm & Hall). split.
    + destruct (po_action x) eqn:Ha; [by intros [? ?]|]. intros _. exists x. apply Hl in Hx as [? ?]. done.
    + intros (y & Hy & Hsc & Ha & Hym). destruct (po_action x) eqn:Hax; [|by eexists].
      exfalso. destruct (Hall y) as [->|(k & m & Hk & Hm)]; [by apply Hl|done|congruence|].
      rewrite Hk in Hsort. clear -Hsort Hm Hax Ha. induction k as [|z k IH]; simpl in Hsort.
      * apply StronglySorted_inv in Hsort as [_ Hf]. rewrite Forall_forall in Hf.
        specialize (Hf y Hm). unfold action_rank in Hf. rewrite Hax, Ha in Hf. lia.
      * apply IH. by apply StronglySorted_inv in Hsort as [? _].
  - split; [by intros [? ?]|]. intros (y & Hy & Hsc & Ha & Hym).
    pose proof (first_match_None _ _ _ _ _ E y) as Hf. rewrite Hf in Hym; [done|]. by apply Hl.
Qed.

(** The hooks are asked in order; one refusal refuses. *)
Lemma run_hooks_None exts x :
  run_hooks exts x = None <->
  forall e hook, e ∈ exts -> ex_onBeforeMessage e = Some hook -> hook x = None.
Proof.
  induction exts as [|e exts IH]; simpl.
  - split; [|done]. by intros _ e hook ?%elem_of_nil.
  - destruct (ex_onBeforeMessage e) as [hook|] eqn:He.
    + destruct (hook x) eqn:Hx.
      * split; [done|]. intros Hall. specialize (Hall e hook ltac:(by left) He). congruence.
      * rewrite IH. split; intros Hall e' hook' ; [intros [->|Hin]%elem_of_cons; [congruence|by apply Hall]|].
        intros Hin. apply Hall. by right.
    + rewrite IH. split; intros Hall e' hook'; [intros [->|Hin]%elem_of_cons; [congruence|by apply Hall]|].
      intros Hin. apply Hall. by right.
Qed.
