(* ===== verification/TurnHealth.v ===== *)
(** * What the plugin reports about its model

    [packages/openclaw-plugin/src/connection.ts]: the rolling window of finished
    model calls, the verdict on it, and the model and provider it shows, which
    the plugin sends with every heartbeat. *)

From S2P Require Import Prelude Json IsoTime JsValues Identity.
Import Ascii String.
Open Scope string_scope.
Open Scope Z_scope.

(** ** The window of model calls *)

Record ModelCallOutcome := MkCall {
  mc_t : Z;
  mc_ok : bool;
  mc_category : option string
}.

Definition TURN_HEALTH_WINDOW_MS : Z := 60 * 60000.
Definition TURN_HEALTH_MAX : nat := 200.

(** [l.slice(-n)] *)
Definition slice_last {A} (n : nat) (l : list A) : list A := drop (length l - n) l.

(** The calls before the first one that is not older than the cut-off. *)
Fixpoint drop_old (cutoff : Z) (l : list ModelCallOutcome) : list ModelCallOutcome :=
  match l with
  | c :: l' => if mc_t c <? cutoff then drop_old cutoff l' else l
  | [] => []
  end.

(** The record of a finished call. *)
Definition call_outcome (outcome category : option string) (now : Z) : ModelCallOutcome :=
  let ok := outcome ==? Some "completed" in
  MkCall now ok (if ok then None else Some (default "error" (truthy category))).

Definition noteModelCallEnded (modelCalls : list ModelCallOutcome) (outcome category : option string)
    (now : Z) : list ModelCallOutcome :=
  let pushed := (modelCalls ++ [call_outcome outcome category now])%list in
  let capped := if (TURN_HEALTH_MAX <? length pushed)%nat then slice_last TURN_HEALTH_MAX pushed else pushed in
  drop_old (now - TURN_HEALTH_WINDOW_MS) capped.

Inductive TurnVerdict := TurnOk | TurnDegraded | TurnDown | TurnUnknown.

#[export] Instance TurnVerdict_eq_dec : EqDecision TurnVerdict.
Proof. solve_decision. Defined.

Record TurnHealth := MkTurnHealth {
  tu_health : TurnVerdict;
  tu_errors : nat;
  tu_calls : nat;
  tu_last_error : option string;
  tu_last_ok_at : option Z
}.

(** The failures at the end of a list that is given last call first. *)
Fixpoint failing_run (last_first : list ModelCallOutcome) : nat :=
  match last_first with
  | c :: l => if mc_ok c then 0%nat else S (failing_run l)
  | [] => 0%nat
  end.

Definition deriveTurnHealth (calls : list ModelCallOutcome) (now : Z) : TurnHealth :=
  let cutoff := now - TURN_HEALTH_WINDOW_MS in
  let win := List.filter (fun c => cutoff <=? mc_t c) calls in
  if (length win =? 0)%nat then MkTurnHealth TurnUnknown 0 0 None None
  else
    let errors := length (List.filter (fun c => negb (mc_ok c)) win) in
    let hasSuccess := List.existsb mc_ok win in
    let lastOk := List.find mc_ok (List.rev win) in
    let lastErr := List.find (fun c => negb (mc_ok c)) (List.rev win) in
    let tail := failing_run (List.rev win) in
    let verdict := if negb hasSuccess then TurnDown
                   else if (3 <=? tail)%nat then TurnDown
                   else if (0 <? errors)%nat then TurnDegraded
                   else TurnOk in
    MkTurnHealth verdict errors (length win)
      (if verdict ==? TurnOk then None else lastErr ≫= mc_category) (option_map mc_t lastOk).

Definition verdict_text (v : TurnVerdict) : string :=
  match v with TurnOk => "ok" | TurnDegraded => "degraded" | TurnDown => "down" | TurnUnknown => "unknown" end.

(** The metrics, in the order they are set; times are not zero. *)
Definition turnHealthMetrics (modelCalls : list ModelCallOutcome) (now : Z) : list (string * string) :=
  let h := deriveTurnHealth modelCalls now in
  if tu_health h ==? TurnUnknown then [("turn_health", "unknown"); ("model_calls_1h", "0")]
  else
    [("turn_health", verdict_text (tu_health h));
     ("model_errors_1h", stringify_num (Z.of_nat (tu_errors h)));
     ("model_calls_1h", stringify_num (Z.of_nat (tu_calls h)))] ++
    (match truthy (tu_last_error h) with Some e => [("last_error", e)] | None => [] end ++
     match tu_last_ok_at h with
     | Some t => if t =? 0 then [] else [("last_ok_at", to_iso t)]
     | None => []
     end).

(** ** The model and its provider *)

Record ModelState := MkModel { md_model : string; md_provider : string }.

Fixpoint strip_slashes (s : string) : string :=
  match s with
  | String "/" s' => strip_slashes s'
  | _ => s
  end.

Definition splitModelRef (ref : string) : ModelState :=
  let s := strip_slashes (trim ref) in
  if s ==? "" then MkModel "" ""
  else match index 0 "/" s with
  | Some (S _ as i) => MkModel (trim (substring (S i) (String.length s) s)) (trim (substring 0 i s))
  | _ => MkModel s ""
  end.

Definition nextModelState (prior : ModelState) (modelRef provider : option string) : ModelState :=
  let parts := splitModelRef (default "" modelRef) in
  if md_model parts ==? "" then prior
  else MkModel (md_model parts)
         (default (md_provider parts) (truthy (Some (trim (default "" provider))))).

(** The first value that is not blank, trimmed. *)
Fixpoint pick (vals : list (option string)) : string :=
  match vals with
  | v :: vs => let t := trim (default "" v) in if t ==? "" then pick vs else t
  | [] => ""
  end.

Definition pickModelMetrics (env_model env_provider : option string) (observed configured : ModelState)
    : list (string * string) :=
  let model := pick [env_model; Some (md_model observed); Some (md_model configured)] in
  let provider := pick [env_provider; Some (md_provider observed); Some (md_provider configured)] in
  (if model ==? "" then [] else [("model", model)]) ++
  (if provider ==? "" then [] else [("provider", provider)]).

(** The metrics of one heartbeat ([reportMetrics]). *)
Definition reportMetrics (env_model env_provider : option string) (observed configured : ModelState)
    (modelCalls : list ModelCallOutcome) (now : Z) : list (string * string) :=
  (pickModelMetrics env_model env_provider observed configured ++ turnHealthMetrics modelCalls now)%list.

(** What the host tells the plugin while it runs. *)
Record Telemetry := MkTelemetry {
  te_calls : list ModelCallOutcome;
  te_observed : ModelState;
  te_configured : ModelState
}.

Definition no_telemetry : Telemetry := MkTelemetry [] (MkModel "" "") (MkModel "" "").

Inductive host_event :=
  | ModelCallStarted (model provider : option string)
  | ModelCallEnded (outcome category : option string)
  | ConfigSeed (ref : string).

Definition host_event_step (now : Z) (e : host_event) (s : Telemetry) : Telemetry :=
  match e with
  | ModelCallStarted model provider =>
      MkTelemetry (te_calls s) (nextModelState (te_observed s) model provider) (te_configured s)
  | ModelCallEnded outcome category =>
      MkTelemetry (noteModelCallEnded (te_calls s) outcome category now) (te_observed s) (te_configured s)
  | ConfigSeed ref => MkTelemetry (te_calls s) (te_observed s) (nextModelState (te_configured s) (Some ref) None)
  end.

(** The state after events, each with its time. *)
Definition telemetry_of (events : list (Z * host_event)) : Telemetry :=
  foldl (fun s te => host_event_step (fst te) (snd te) s) no_telemetry events.
