(* ===== verification/FleetHealth.v ===== *)
(** * The health board

    [packages/relay/src/fleet-health.ts]: the verdict on an agent and the queue of
    what needs the operator; and the read-only views of [db.ts] built on them, the
    health board, the attention queue and the topology of the fleet. *)

From S2P Require Import Prelude Json IsoTime JsValues Events Config Agents Messages.
Import Ascii String.
Open Scope string_scope.
Open Scope Z_scope.

(** ** The verdict *)

Inductive HealthLevel := HOk | HDegraded | HDown.

#[export] Instance HealthLevel_eq_dec : EqDecision HealthLevel.
Proof. solve_decision. Defined.

Record AgentHealthVerdict := MkVerdict {
  hv_level : HealthLevel;
  hv_reason : string;
  hv_cognitive_unknown : bool
}.

Definition HEARTBEAT_STALE_MS : Z := 3 * 60000.

(** [None] is [null]: no text, or one that is no date. *)
Definition ageMs (iso : option string) (now : Z) : option Z :=
  truthy iso ≫= fun s => option_map (fun t => now - t) (parse_iso s).

Definition humanAge (ms : Z) : string :=
  let m := ms / 60000 in
  if m <? 60 then stringify_num m +:+ "m"
  else let h := m / 60 in
       if h <? 24 then stringify_num h +:+ "h" else stringify_num (h / 24) +:+ "d".

(** [typeof metrics.k === "string" ? metrics.k : ""] *)
Definition text_metric (metrics : json) (k : string) : string :=
  match prop metrics k with Some (JStr s) => s | _ => "" end.

(** [value ?? {}] *)
Definition or_empty (v : option json) : json :=
  match v with Some JNull | None => JObj [] | Some m => m end.

Definition deriveAgentHealth (status_ last_heartbeat_at : option string) (metrics_ : option json)
    (now : Z) : AgentHealthVerdict :=
  let status := lower_string (default "" status_) in
  let metrics := or_empty metrics_ in
  let turnHealth := text_metric metrics "turn_health" in
  let lastError := text_metric metrics "last_error" in
  let errors1h := default 0 (js_Number match prop metrics "model_errors_1h" with
                                       | Some JNull | None => JNum 0
                                       | Some v => v
                                       end) in
  let unknown := (turnHealth ==? "") || (turnHealth ==? "unknown") in
  if status ==? "revoked" then MkVerdict HDown "revoked" unknown
  else if status ==? "quarantined" then MkVerdict HDown "quarantined" unknown
  else match ageMs last_heartbeat_at now with
  | None => MkVerdict HDown "no heartbeat received" unknown
  | Some hbAge =>
      if HEARTBEAT_STALE_MS <? hbAge then
        MkVerdict HDown ("no heartbeat for " +:+ humanAge hbAge) unknown
      else if turnHealth ==? "down" then
        MkVerdict HDown (if lastError ==? "" then "model failing every turn"
                         else "model failing every turn (" +:+ lastError +:+ ")") false
      else if status ==? "paused" then MkVerdict HDegraded "paused" unknown
      else if turnHealth ==? "degraded" then
        MkVerdict HDegraded
          (if lastError ==? "" then "model errors (" +:+ stringify_num errors1h +:+ "/1h)"
           else "model errors (" +:+ stringify_num errors1h +:+ "/1h, last: " +:+ lastError +:+ ")") false
      else MkVerdict HOk (if unknown then "connected (no turn data yet)" else "healthy") unknown
  end.

(** ** The board *)

Definition status_column (s : AgentStatus) : string :=
  match s with
  | Healthy => "healthy" | Degraded => "degraded" | Quarantined => "quarantined" | Paused => "paused"
  end.

Record FleetAgent := MkFleetAgent {
  fa_id : string;
  fa_row : AgentRow;                  (* the columns it shows as they are *)
  fa_last_heartbeat_at : option Z;
  fa_metrics : json;
  fa_health : AgentHealthVerdict;
  fa_active : list json;
  fa_sent : nat;
  fa_received : nat
}.

(** The agents of a fleet except the operator's own row, by display name. *)
Definition board_agents (d : AgentDb) (fleet : string) : list (string * AgentRow) :=
  order_by_text (fun x => ag_display_name (snd x))
    (List.filter (fun x => negb (ag_runtime (snd x) ==? "operator")) (fleet_rows ag_fleet fleet (ad_agents d))).

Definition latest_heartbeat (d : AgentDb) (agent : string) : option HeartbeatRow :=
  latest_by h_received_at (select (fun h => h_agent h ==? agent) (ad_heartbeats d)).

(** The metrics and the active conversations of a heartbeat's JSON. *)
Definition heartbeat_metrics (hb : option HeartbeatRow) : json :=
  or_empty (hb ≫= fun h => prop (h_metrics h) "metrics").

Definition heartbeat_active (hb : option HeartbeatRow) : list json :=
  match hb ≫= fun h => prop (h_metrics h) "active_conversation_ids" with Some (JArr l) => l | _ => [] end.

(** The message a delivery is of: the JOIN. *)
Definition message_of (m : MailDb) (dl : DeliveryRow) : option MessageRow :=
  select_one (fun r => ms_id r ==? dl_message dl) (md_messages m).

Definition sent_since (m : MailDb) (fleet agent : string) (since : Z) : nat :=
  length (select (fun r => (ms_fleet r ==? fleet) && (ms_sender r ==? agent) && (since <=? ms_created_at r))
            (md_messages m)).

Definition received_since (m : MailDb) (fleet agent : string) (since : Z) : nat :=
  length (select (fun dl => match message_of m dl with
                            | Some r => (ms_fleet r ==? fleet) && (dl_recipient dl ==? agent) && (since <=? dl_queued_at dl)
                            | None => false
                            end) (md_deliveries m)).

Definition board_row (d : AgentDb) (m : MailDb) (now : Z) (fleet : string) (since : Z)
    (x : string * AgentRow) : FleetAgent :=
  let hb := latest_heartbeat d (fst x) in
  MkFleetAgent (fst x) (snd x) (option_map h_received_at hb) (heartbeat_metrics hb)
    (deriveAgentHealth (Some (status_column (ag_status (snd x))))
       (option_map (fun h => to_iso (h_received_at h)) hb) (Some (heartbeat_metrics hb)) now)
    (heartbeat_active hb) (sent_since m fleet (fst x) since) (received_since m fleet (fst x) since).

Definition getFleetHealth (d : AgentDb) (m : MailDb) (now : Z) (fleet : string) (windowMinutes : Z)
    : list FleetAgent :=
  map (board_row d m now fleet (now - windowMinutes * 60000)) (board_agents d fleet).

(** ** What needs the operator *)

Inductive AttentionSeverity := SevCritical | SevWarn.
Inductive AttentionKind := AgentIsDown | AgentIsDegraded | ConversationStalled | DeadLettered.

#[export] Instance AttentionSeverity_eq_dec : EqDecision AttentionSeverity.
Proof. solve_decision. Defined.

Record AttentionItem := MkAttention {
  it_id : string;
  it_kind : AttentionKind;
  it_severity : AttentionSeverity;
  it_title : string;
  it_detail : string;
  it_agent : option string;
  it_conversation : option string;
  it_at : option string
}.

Record AttentionAgent := MkAttentionAgent {
  aa_id : string; aa_display_name : option string; aa_health : option AgentHealthVerdict; aa_last_heartbeat_at : option string
}.
Record StalledSource := MkStalled {
  sl_id : string; sl_actor : option string; sl_conversation : option string; sl_created_at : option string;
  sl_payload : option json
}.
Record DeadLetterSource := MkDeadSource {
  ds_id : string; ds_recipient : option string; ds_sender : option string; ds_conversation : option string;
  ds_reason : option string; ds_at : option string
}.

Record AttentionSources := MkSources {
  so_agents : list AttentionAgent;
  so_stalled : list StalledSource;
  so_dead : list DeadLetterSource;
  so_names : list (string * string)
}.

(** [id ? agentNames[id] || id : "unknown"]; the last of equal keys counts, as in
    [Object.fromEntries]. *)
Definition attention_name (names : list (string * string)) (id : option string) : string :=
  match truthy id with
  | None => "unknown"
  | Some i => default i (truthy (snd <$> List.find (fun kv => fst kv ==? i) (List.rev names)))
  end.

Definition agent_item (a : AttentionAgent) : list AttentionItem :=
  let name := default (aa_id a) (truthy (aa_display_name a)) in
  match hv_level <$> aa_health a with
  | Some HDown =>
      [MkAttention ("agent:" +:+ aa_id a) AgentIsDown SevCritical (name +:+ " is down")
         (default "unhealthy" (truthy (hv_reason <$> aa_health a))) (Some (aa_id a)) None (aa_last_heartbeat_at a)]
  | Some HDegraded =>
      [MkAttention ("agent:" +:+ aa_id a) AgentIsDegraded SevWarn (name +:+ " is degraded")
         (default "degraded" (truthy (hv_reason <$> aa_health a))) (Some (aa_id a)) None (aa_last_heartbeat_at a)]
  | _ => []
  end.

Definition stalled_item (names : list (string * string)) (s : StalledSource) : AttentionItem :=
  MkAttention ("stall:" +:+ sl_id s) ConversationStalled SevWarn
    (attention_name names (sl_actor s) +:+ " stalled a conversation")
    (match sl_payload s ≫= (fun p => prop p "reason") with
     | Some (JStr r) => r
     | _ => "conversation paused with work pending"
     end) (sl_actor s) (sl_conversation s) (sl_created_at s).

Definition dead_item (names : list (string * string)) (d : DeadLetterSource) : AttentionItem :=
  MkAttention ("dead:" +:+ ds_id d) DeadLettered SevCritical
    ("Undelivered message to " +:+ attention_name names (ds_recipient d))
    ("from " +:+ attention_name names (ds_sender d) +:+ " — " +:+ default "delivery failed" (truthy (ds_reason d)))
    (ds_recipient d) (ds_conversation d) (ds_at d).

(** [x.at ? Date.parse(x.at) : -Infinity] *)
Inductive js_time := TBeginning | TAt (t : Z) | TNaN.

Definition at_time (o : option string) : js_time :=
  match truthy o with
  | None => TBeginning
  | Some s => match parse_iso s with Some t => TAt t | None => TNaN end
  end.

Definition severity_rank (s : AttentionSeverity) : Z := match s with SevCritical => 0 | SevWarn => 1 end.

(** Is the comparison positive: does [x] come after [y]?  A [NaN] is not. *)
Definition comes_after (x y : AttentionItem) : bool :=
  let s := severity_rank (it_severity x) - severity_rank (it_severity y) in
  if negb (s =? 0) then 0 <? s
  else match at_time (it_at x), at_time (it_at y) with
  | TAt tx, TAt ty => 0 <? ty - tx
  | TBeginning, TAt _ => true
  | _, _ => false
  end.

(** [items.sort(compare)], which is stable. *)
Fixpoint insert_item (x : AttentionItem) (l : list AttentionItem) : list AttentionItem :=
  match l with
  | [] => [x]
  | y :: l' => if comes_after x y then y :: insert_item x l' else x :: l
  end.

Definition sort_items (l : list AttentionItem) : list AttentionItem := foldr insert_item [] l.

Definition buildAttentionItems (src : AttentionSources) : list AttentionItem :=
  sort_items (flat_map agent_item (so_agents src) ++ map (stalled_item (so_names src)) (so_stalled src) ++
              map (dead_item (so_names src)) (so_dead src)).

(** ORDER BY ... DESC LIMIT limit OFFSET offset *)
Definition dead_letter_page (m : MailDb) (fleet : string) (limit offset : nat) : list DeadLetterRow * nat :=
  let rows := select (fun r => dd_fleet r ==? fleet) (md_dead m) in
  (take limit (drop offset (List.rev (order_by dd_at rows))), length rows).

Definition display_names (d : AgentDb) (fleet : string) : list (string * string) :=
  map (fun x => (fst x, ag_display_name (snd x))) (fleet_rows ag_fleet fleet (ad_agents d)).

(** [events] are the rows with their ids; the counts are by severity. *)
Definition getAttentionItems (d : AgentDb) (m : MailDb) (events : list (string * Event)) (now : Z)
    (fleet : string) (stalledSinceMs : Z) : list AttentionItem * (nat * nat) :=
  let agents := map (fun a => MkAttentionAgent (fa_id a) (Some (ag_display_name (fa_row a))) (Some (fa_health a))
                                (to_iso <$> fa_last_heartbeat_at a))
                  (getFleetHealth d m now fleet 60) in
  let since := now - stalledSinceMs in
  let stalled := map (fun x => let e := snd x in
                        MkStalled (fst x) (ev_actor e) (ev_conversation e) (Some (to_iso (ev_at e))) (Some (ev_payload e)))
    (take 50 (List.rev (order_by (fun x => ev_at (snd x))
       (select (fun x => let e := snd x in
                  (ev_fleet e ==? fleet) && (ev_type e ==? "conversation.stalled") && (since <=? ev_at e)) events)))) in
  let dead := map (fun r => MkDeadSource (dd_id r) (Some (dd_recipient r)) (Some (dd_sender r))
                              (Some (dd_conversation r)) (Some (dd_reason r)) (Some (to_iso (dd_at r))))
                (fst (dead_letter_page m fleet 50 0)) in
  let items := buildAttentionItems (MkSources agents stalled dead (display_names d fleet)) in
  (items, (length (select (fun i => it_severity i ==? SevCritical) items),
           length (select (fun i => it_severity i ==? SevWarn) items))).

(** ** Topology *)

Record Edge := MkEdge { ed_source : string; ed_target : string; ed_count : nat; ed_last_at : Z }.

(** A message of the window between two agents that are not the operator and not
    revoked, not a broadcast, a feed item or a control. *)
Definition live_agent (d : AgentDb) (id : string) : bool :=
  match ad_agents d !! id with
  | Some a => negb (ag_runtime a ==? "operator") && (ag_revoked_at a ==? None)
  | None => false
  end.

Definition hop_of (d : AgentDb) (m : MailDb) (fleet : string) (since : Z) (dl : DeliveryRow)
    : option (string * string * Z) :=
  message_of m dl ≫= fun r =>
    if (ms_fleet r ==? fleet) && (since <=? ms_created_at r) && negb (ms_sender r ==? dl_recipient dl) &&
       live_agent d (ms_sender r) && live_agent d (dl_recipient dl) &&
       negb (ms_recipient_kind r ==? "broadcast") && negb (ms_type r ==? "feed") && negb (ms_type r ==? "control")
    then Some (ms_sender r, dl_recipient dl, ms_created_at r) else None.

(** GROUP BY sender, recipient: the pairs in order of appearance, with their
    count and the latest time. *)
Definition group_step (groups : list (string * string * nat * Z)) (h : string * string * Z)
    : list (string * string * nat * Z) :=
  let '(src, dst, at_) := h in
  if exists_row (fun g => (fst (fst (fst g)) ==? src) && (snd (fst (fst g)) ==? dst)) groups then
    update_where (fun g => (fst (fst (fst g)) ==? src) && (snd (fst (fst g)) ==? dst))
      (fun g => (fst (fst g), S (snd (fst g)), Z.max (snd g) at_)) groups
  else (groups ++ [(src, dst, 1%nat, at_)])%list.

(** The key of a pair: [`${source}|${target}`]. *)
Definition edge_key (source target : string) : string := source +:+ "|" +:+ target.

(** One directed row into the undirected edges; [string_leb a b && a <> b] is
    [a < b]. *)
Definition edge_step (edges : list Edge) (g : string * string * nat * Z) : list Edge :=
  let '(src, dst, c, last_at) := g in
  let '(source, target) := if string_leb src dst && negb (src ==? dst) then (src, dst) else (dst, src) in
  let same := fun e => edge_key (ed_source e) (ed_target e) ==? edge_key source target in
  if exists_row same edges then
    update_where same (fun e => MkEdge (ed_source e) (ed_target e) (ed_count e + c)
                                  (if ed_last_at e <? last_at then last_at else ed_last_at e)) edges
  else (edges ++ [MkEdge source target c last_at])%list.

(** The edges by weight, heaviest first; ties keep their order. *)
Definition getTopology (d : AgentDb) (m : MailDb) (now : Z) (fleet : string) (windowMinutes : Z)
    : list FleetAgent * list Edge :=
  let since := now - windowMinutes * 60000 in
  let directed := fold_left group_step (omap (hop_of d m fleet since) (md_deliveries m)) [] in
  (getFleetHealth d m now fleet windowMinutes,
   order_by (fun e => - Z.of_nat (ed_count e)) (fold_left edge_step directed [])).
