(* ===== verification/TurnHealthProperties.v ===== *)
(** * The model's health, from the host's events to the operator's board

    The window [TurnHealth] keeps is the recent end of everything the host
    reported, its verdict is the stated one, and the board of [FleetHealth] shows
    it. *)

From S2P Require Import Prelude Json IsoTime JsValues Events Config Agents Messages TurnHealth FleetHealth.
Import Ascii String.
Open Scope string_scope.
Open Scope Z_scope.

(** ** The end of a list *)

Section SliceLast.
Context {A : Type}.

Lemma slice_last_all n (l : list A) : (length l <= n)%nat -> slice_last n l = l.
Proof. intros Hn. unfold slice_last. by assert ((length l - n)%nat = 0%nat) as -> by lia. Qed.

Lemma length_slice_last n (l : list A) : length (slice_last n l) = Nat.min n (length l).
Proof. unfold slice_last. rewrite length_drop. lia. Qed.

Lemma slice_last_slice n k (l : list A) : slice_last n (slice_last k l) = slice_last (Nat.min n k) l.
Proof.
  unfold slice_last. rewrite length_drop, drop_drop. f_equal. lia.
Qed.

Lemma slice_last_snoc n (l : list A) x : slice_last (S n) (l ++ [x]) = (slice_last n l ++ [x])%list.
Proof. unfold slice_last. rewrite length_app. simpl. rewrite drop_app_le by lia. do 2 f_equal. lia. Qed.
End SliceLast.

(** ** The window *)

(** The calls in the order of their times. *)
Fixpoint in_order (l : list ModelCallOutcome) : Prop :=
  match l with
  | c :: l' => Forall (fun c' => mc_t c <= mc_t c') l' /\ in_order l'
  | [] => True
  end.

Definition recent (cutoff : Z) (l : list ModelCallOutcome) : list ModelCallOutcome :=
  List.filter (fun c => cutoff <=? mc_t c) l.

Lemma recent_mono cut cut' l : cut <= cut' -> (length (recent cut' l) <= length (recent cut l))%nat.
Proof.
  intros Hc. apply (changes_le (fun c => cut' <=? mc_t c) (fun c => cut <=? mc_t c)).
  intros c Hr. apply Z.leb_le in Hr. apply Z.leb_le. lia.
Qed.

Lemma recent_all cutoff l : Forall (fun c => cutoff <= mc_t c) l -> recent cutoff l = l.
Proof.
  unfold recent. induction 1 as [|c l Hc Hl IH]; [done|]. simpl. rewrite IH.
  by assert ((cutoff <=? mc_t c) = true) as -> by lia.
Qed.

Lemma recent_Forall cutoff l : Forall (fun c => cutoff <= mc_t c) (recent cutoff l).
Proof.
  apply Forall_forall. intros c Hin%list_elem_of_In. apply filter_In in Hin as [_ Hc]. by apply Z.leb_le.
Qed.

Lemma drop_old_recent cutoff l : in_order l -> drop_old cutoff l = recent cutoff l.
Proof.
  induction l as [|c l IH]; [done|]. intros [Hc Ho]. simpl. unfold recent. simpl.
  destruct (mc_t c <? cutoff) eqn:E.
  - assert ((cutoff <=? mc_t c) = false) as -> by lia. by apply IH.
  - assert ((cutoff <=? mc_t c) = true) as -> by lia. f_equal. symmetry. apply recent_all.
    eapply Forall_impl; [exact Hc|]. simpl. lia.
Qed.

(** Of calls in order, the recent ones are the last ones. *)
Lemma recent_slice cutoff l :
  in_order l -> recent cutoff l = slice_last (length (recent cutoff l)) l.
Proof.
  induction l as [|c l IH]; [done|]. intros [Hc Ho]. unfold recent. simpl.
  destruct (cutoff <=? mc_t c) eqn:E.
  - change (List.filter (fun c0 => cutoff <=? mc_t c0) l) with (recent cutoff l).
    rewrite recent_all; [by rewrite slice_last_all|].
    eapply Forall_impl; [exact Hc|]. simpl. lia.
  - change (List.filter (fun c0 => cutoff <=? mc_t c0) l) with (recent cutoff l).
    unfold slice_last. simpl length. pose proof (List.filter_length_le (fun c0 => cutoff <=? mc_t c0) l) as Hle.
    change (List.filter (fun c0 => cutoff <=? mc_t c0) l) with (recent cutoff l) in Hle.
    assert (((S (length l)) - length (recent cutoff l))%nat = S (length l - length (recent cutoff l))) as -> by lia.
    by apply IH.
Qed.

Lemma in_order_drop n l : in_order l -> in_order (drop n l).
Proof.
  revert n. induction l as [|c l IH]; intros [|n]; simpl; [done..|]. intros [_ Ho]. by apply IH.
Qed.

Lemma recent_slice_last cutoff k l :
  in_order l -> recent cutoff (slice_last k l) = slice_last (Nat.min k (length (recent cutoff l))) l.
Proof.
  intros Ho. revert k. induction l as [|c l IH]; intros k; [by unfold slice_last; rewrite !drop_nil|].
  destruct (decide (length (c :: l) <= k)%nat) as [Hk|Hk].
  - rewrite slice_last_all by done. rewrite recent_slice at 1 by done. f_equal.
    pose proof (List.filter_length_le (fun c0 => cutoff <=? mc_t c0) (c :: l)). unfold recent in *. lia.
  - destruct Ho as [Hc Ho]. simpl in Hk.
    assert (forall n, (n <= length l)%nat -> slice_last n (c :: l) = slice_last n l) as Hs.
    { intros n Hn. unfold slice_last. simpl length.
      by assert ((S (length l) - n)%nat = S (length l - n)) as -> by lia. }
    rewrite Hs, IH by (done || lia). rewrite <- Hs.
    + f_equal. unfold recent. simpl. destruct (cutoff <=? mc_t c) eqn:E; simpl; [|done].
      change (List.filter (fun c0 => cutoff <=? mc_t c0) l) with (recent cutoff l).
      rewrite recent_all; [lia|]. eapply Forall_impl; [exact Hc|]. simpl. lia.
    + lia.
Qed.

(** Every finished call the host reported. *)
Definition finished (events : list (Z * host_event)) : list ModelCallOutcome :=
  omap (fun te => match snd te with
                  | ModelCallEnded outcome category => Some (call_outcome outcome category (fst te))
                  | _ => None
                  end) events.

Lemma in_order_app l c : in_order (l ++ [c]) <-> in_order l /\ Forall (fun c' => mc_t c' <= mc_t c) l.
Proof.
  induction l as [|a l IH]; simpl; [by repeat split|].
  rewrite Forall_app, IH, !Forall_cons, Forall_nil. naive_solver.
Qed.

Lemma finished_snoc evs te :
  finished (evs ++ [te]) = (finished evs ++ finished [te])%list.
Proof. unfold finished. by rewrite omap_app. Qed.

(** One finished call on a window that is the recent end of the history. *)
Lemma note_window history k cutoff outcome category now :
  let c := call_outcome outcome category now in
  in_order (history ++ [c]) -> cutoff <= now - TURN_HEALTH_WINDOW_MS ->
  k = Nat.min TURN_HEALTH_MAX (length (recent cutoff history)) ->
  noteModelCallEnded (slice_last k history) outcome category now =
  slice_last (Nat.min TURN_HEALTH_MAX (length (recent (now - TURN_HEALTH_WINDOW_MS) (history ++ [c])))) (history ++ [c]).
Proof.
  intros c Ho Hcut ->. unfold noteModelCallEnded. fold c. cbv zeta. generalize TURN_HEALTH_MAX as M. intros M.
  set (m := length (recent cutoff history)). set (m' := length (recent _ (history ++ [c]))).
  set (cut' := now - TURN_HEALTH_WINDOW_MS) in *.
  assert (Hone : (length (recent cut' [c]) <= 1)%nat) by (unfold recent; simpl; case_match; simpl; lia).
  assert (Hle : (length (recent cut' history) <= m)%nat) by (by apply recent_mono).
  assert (Hm : (m' <= S m)%nat) by (unfold m', recent in *; rewrite List.filter_app, length_app; lia).
  rewrite <- slice_last_snoc.
  assert (Hpush : (if (M <? length (slice_last (S (Nat.min M m)) (history ++ [c])))%nat
     then slice_last M (slice_last (S (Nat.min M m)) (history ++ [c]))
     else slice_last (S (Nat.min M m)) (history ++ [c])) =
     slice_last (Nat.min M (S m)) (history ++ [c])).
  { rewrite length_slice_last, length_app. change (length [c]) with 1%nat.
    assert (m <= length history)%nat as Hmh by apply List.filter_length_le.
    destruct (M <? _)%nat eqn:E; [apply Nat.ltb_lt in E|apply Nat.ltb_ge in E].
    - rewrite slice_last_slice. f_equal. lia.
    - f_equal.
      lia. }
  rewrite Hpush, drop_old_recent by (apply in_order_drop, Ho).
  rewrite recent_slice_last by done. fold m'. f_equal. lia.
Qed.

(** The times of the events do not go back. *)
Definition clock_ok (events : list (Z * host_event)) : Prop :=
  forall i j ti tj ei ej, (i <= j)%nat -> events !! i = Some (ti, ei) -> events !! j = Some (tj, ej) -> ti <= tj.

Lemma clock_ok_app evs te :
  clock_ok (evs ++ [te]) -> clock_ok evs /\ forall t e, (t, e) ∈ evs -> t <= fst te.
Proof.
  intros Hc. split.
  - intros i j ti tj ei ej Hij Hi Hj. apply (Hc i j ti tj ei ej Hij); by apply lookup_app_l_Some.
  - intros t e [i Hi]%list_elem_of_lookup. destruct te as [t' e'].
    apply (Hc i (length evs) t t' e e').
    + apply lookup_lt_Some in Hi. lia.
    + by apply lookup_app_l_Some.
    + by rewrite lookup_app_r, Nat.sub_diag by done.
Qed.

Lemma elem_of_finished evs c : c ∈ finished evs -> exists e, (mc_t c, e) ∈ evs.
Proof.
  unfold finished. intros ([t e] & Hin & He)%list_elem_of_omap. exists e.
  destruct e; simpl in He; simplify_eq; done.
Qed.

Lemma finished_in_order evs : clock_ok evs -> in_order (finished evs).
Proof.
  induction evs as [|te evs IH] using rev_ind; [done|]. intros [Hc Hle]%clock_ok_app.
  rewrite finished_snoc. destruct te as [t [| outcome category |]]; unfold finished at 2; simpl;
    rewrite ?app_nil_r; [by apply IH| |by apply IH].
  apply in_order_app. split; [by apply IH|]. apply Forall_forall. intros c [e Hin]%elem_of_finished.
  by apply (Hle _ e).
Qed.

(** The window is the end of the history: the calls of the hour before some
    event of the run, at most 200 of them. *)
Definition is_window (events : list (Z * host_event)) (calls : list ModelCallOutcome) : Prop :=
  (finished events = [] /\ calls = []) \/
  exists t e, (t, e) ∈ events /\
    calls = slice_last (Nat.min TURN_HEALTH_MAX (length (recent (t - TURN_HEALTH_WINDOW_MS) (finished events))))
              (finished events).

Lemma window_of_run evs : clock_ok evs -> is_window evs (te_calls (telemetry_of evs)).
Proof.
  induction evs as [|[now ev] evs IH] using rev_ind; [by left|]. intros Hc.
  pose proof (finished_in_order _ Hc) as Ho. pose proof (clock_ok_app _ _ Hc) as [Hc' Hle].
  specialize (IH Hc'). unfold telemetry_of in *. rewrite foldl_app. simpl.
  set (s := foldl _ _ evs) in *. rewrite finished_snoc in Ho.
  destruct ev as [model provider|outcome category|ref]; simpl.
  2: { right. exists now, (ModelCallEnded outcome category). split; [apply elem_of_app; right; by left|].
       rewrite finished_snoc. change (finished [(now, ModelCallEnded outcome category)]) with [call_outcome outcome category now] in *.
       destruct IH as [[Hh ->]|(t & e & Hin & ->)].
       - rewrite Hh. simpl app.
         apply (note_window [] 0 (now - TURN_HEALTH_WINDOW_MS) outcome category now); [done|lia|done].
       - eapply note_window; [done| |reflexivity]. apply Hle in Hin. simpl in Hin. lia. }
  all: unfold is_window; rewrite finished_snoc; unfold finished at 2 4 5; simpl; rewrite !app_nil_r;
    destruct IH as [IH|(t & e & Hin & Hw)]; [by left|right; exists t, e; split; [apply elem_of_app; by left|exact Hw]].
Qed.

Lemma deriveTurnHealth_recent calls now :
  deriveTurnHealth calls now = deriveTurnHealth (recent (now - TURN_HEALTH_WINDOW_MS) calls) now.
Proof.
  unfold deriveTurnHealth. cbv zeta.
  change (List.filter (fun c => now - TURN_HEALTH_WINDOW_MS <=? mc_t c)) with (recent (now - TURN_HEALTH_WINDOW_MS)).
  by rewrite (recent_all _ (recent _ calls)) by apply recent_Forall.
Qed.

(** Whatever the window keeps, its verdict is that of the last 200 calls. *)
Lemma verdict_of_history evs now :
  clock_ok evs -> (forall t e, (t, e) ∈ evs -> t <= now) ->
  deriveTurnHealth (te_calls (telemetry_of evs)) now =
  deriveTurnHealth (slice_last TURN_HEALTH_MAX (finished evs)) now.
Proof.
  intros Hc Hnow. pose proof (finished_in_order _ Hc) as Ho.
  rewrite deriveTurnHealth_recent, (deriveTurnHealth_recent (slice_last _ _)).
  destruct (window_of_run evs Hc) as [[-> ->]|(t & e & Hin & ->)]; [done|].
  rewrite !recent_slice_last by done. do 2 f_equal. apply Hnow in Hin.
  set (m := length (recent (now - _) _)). set (m' := length (recent (t - _) _)).
  assert (m <= m')%nat; [|lia].
  apply recent_mono. lia.
Qed.

(** ** The verdict *)

Lemma failing_run_spec l n :
  (n <= failing_run l)%nat <-> (n <= length l)%nat /\ Forall (fun c => mc_ok c = false) (take n l).
Proof.
  revert n. induction l as [|c l IH]; intros [|n].
  1,3: split; [intros _; split; [lia|constructor]|lia].
  { simpl. split; [lia|intros [? _]; lia]. }
  simpl.
  - destruct (mc_ok c) eqn:E.
    + split; [lia|]. intros [_ Hf]. apply Forall_cons in Hf as [? _]. congruence.
    + rewrite Forall_cons. specialize (IH n). split.
      * intros Hn. destruct (proj1 IH ltac:(lia)) as [? ?]. split_and!; [lia|done|done].
      * intros (Hn & _ & Hf). apply le_n_S, IH. split; [lia|done].
Qed.

(** What each verdict says of the calls of the last hour. *)
Lemma verdict_spec calls now :
  let win := recent (now - TURN_HEALTH_WINDOW_MS) calls in
  let v := tu_health (deriveTurnHealth calls now) in
  (v = TurnUnknown <-> win = []) /\
  (v = TurnDown <-> win <> [] /\
     ((forall c, c ∈ win -> mc_ok c = false) \/
      ((3 <= length win)%nat /\ Forall (fun c => mc_ok c = false) (slice_last 3 win)))) /\
  (v = TurnOk <-> win <> [] /\ forall c, c ∈ win -> mc_ok c = true).
Proof.
  intros win v. unfold v, deriveTurnHealth. cbv zeta.
  change (List.filter (fun c => now - TURN_HEALTH_WINDOW_MS <=? mc_t c) calls) with win. clearbody win. clear v.
  destruct win as [|c0 win0] eqn:Ew; [simpl; naive_solver|]. rewrite <- Ew.
  assert (Hlen : (length win =? 0)%nat = false) by (rewrite Ew; done). rewrite Hlen.
  assert (Hne : win <> []) by (rewrite Ew; done). cbn [tu_health].
  assert (Hall : List.existsb mc_ok win = false <-> forall c, c ∈ win -> mc_ok c = false).
  { rewrite <- not_true_iff_false, existsb_exists. setoid_rewrite <- list_elem_of_In. split.
    - intros Hn c Hin. apply not_true_iff_false. naive_solver.
    - intros Ha (c & Hin & Hc). rewrite Ha in Hc; done. }
  assert (Htail : (3 <=? failing_run (List.rev win))%nat = true <->
                  (3 <= length win)%nat /\ Forall (fun c => mc_ok c = false) (slice_last 3 win)).
  { rewrite Nat.leb_le, failing_run_spec, length_rev. apply and_iff_compat_l.
    rewrite !Forall_forall. unfold slice_last. split; intros Ha c Hin; apply Ha; revert Hin;
      rewrite List.firstn_rev, !list_elem_of_In, <- in_rev; done. }
  assert (Herr : (0 <? length (List.filter (fun c => negb (mc_ok c)) win))%nat = false <->
                 forall c, c ∈ win -> mc_ok c = true).
  { rewrite Nat.ltb_ge. split.
    - intros Hz c Hin. destruct (mc_ok c) eqn:E; [done|]. exfalso.
      assert (In c (List.filter (fun c => negb (mc_ok c)) win)) as Hc.
      { apply filter_In. rewrite <- list_elem_of_In, E. done. }
      destruct (List.filter _ win); [done|simpl in Hz; lia].
    - intros Ha. assert (length (List.filter (fun c => negb (mc_ok c)) win) = 0%nat) as ->; [|lia].
      apply (changes_zero (fun c => negb (mc_ok c))). intros c Hin. by rewrite Ha. }
  assert (HBC : ~ (((3 <= length win)%nat /\ Forall (fun c => mc_ok c = false) (slice_last 3 win)) /\
                   forall c, c ∈ win -> mc_ok c = true)).
  { intros [[Hl Hf] Hc]. rewrite Forall_forall in Hf. destruct (slice_last 3 win) as [|c l] eqn:E.
    - apply (f_equal length) in E. rewrite length_slice_last in E. simpl length in E. lia.
    - assert (c ∈ slice_last 3 win) as Hin by (rewrite E; by left).
      pose proof (Hf c ltac:(by left)). unfold slice_last in Hin. apply elem_of_drop_incl, Hc in Hin. congruence. }
  assert (HAC : ~ ((forall c, c ∈ win -> mc_ok c = false) /\ forall c, c ∈ win -> mc_ok c = true)).
  { intros [Ha Hc]. specialize (Ha c0 ltac:(rewrite Ew; by left)). rewrite Hc in Ha; [done|rewrite Ew; by left]. }
  generalize dependent (forall c, c ∈ win -> mc_ok c = false). intros PA Hall HAC.
  generalize dependent (forall c, c ∈ win -> mc_ok c = true). intros PC Herr HBC HAC.
  generalize dependent ((3 <= length win)%nat /\ Forall (fun c => mc_ok c = false) (slice_last 3 win)). intros PB Htail HBC.
  generalize dependent (3 <=? failing_run (List.rev win))%nat. intros t3 Htail.
  destruct (List.existsb mc_ok win), t3,
    (0 <? length (List.filter (fun c => negb (mc_ok c)) win))%nat; cbn [negb]; intuition congruence.
Qed.

(** ** On the board *)

(** The metrics as the heartbeat sends them. *)
Definition metrics_object (metrics : list (string * string)) : json :=
  JObj (map (fun kv => (fst kv, JStr (snd kv))) metrics).

Lemma metric_app k l l' :
  (forall kv, kv ∈ l -> fst kv <> k) -> obj_get k (l ++ l') = obj_get k l'.
Proof.
  intros Hn. unfold obj_get. induction l as [|kv l IH]; [done|]. simpl.
  rewrite bool_decide_false by (apply Hn; by left). apply IH. intros kv' Hin. apply Hn. by right.
Qed.

Lemma turn_health_metric envm envp observed configured calls now :
  text_metric (metrics_object (reportMetrics envm envp observed configured calls now)) "turn_health" =
  verdict_text (tu_health (deriveTurnHealth calls now)).
Proof.
  unfold text_metric, metrics_object, reportMetrics. simpl. rewrite map_app, metric_app.
  - unfold turnHealthMetrics. destruct (tu_health (deriveTurnHealth calls now)) eqn:E; simpl; by rewrite ?E.
  - intros kv (? & -> & Hin)%list_elem_of_fmap. unfold pickModelMetrics in Hin.
    apply elem_of_app in Hin as [Hin|Hin]; case_match; try (by apply elem_of_nil in Hin);
      by apply list_elem_of_singleton in Hin as ->.
Qed.

Definition level_of (v : TurnVerdict) : HealthLevel :=
  match v with TurnDown => HDown | TurnDegraded => HDegraded | _ => HOk end.

(** The level of a live connection. *)
Lemma level_of_fresh st envm envp observed configured calls t now :
  in_iso_range t -> t <= now <= t + HEARTBEAT_STALE_MS -> st <> Quarantined ->
  hv_level (deriveAgentHealth (Some (status_column st)) (Some (to_iso t))
    (Some (metrics_object (reportMetrics envm envp observed configured calls t))) now) =
  match tu_health (deriveTurnHealth calls t), st with
  | TurnDown, _ => HDown
  | _, Paused => HDegraded
  | v, _ => level_of v
  end.
Proof.
  intros Hiso Hage Hst. pose proof (turn_health_metric envm envp observed configured calls t) as Hm.
  set (m := metrics_object _) in *. assert (Ho : or_empty (Some m) = m) by done. clearbody m.
  unfold deriveAgentHealth. cbv zeta. rewrite Ho, Hm. clear Ho Hm.
  assert (Hag : ageMs (Some (to_iso t)) now = Some (now - t)).
  { pose proof (parse_iso_to_iso t Hiso) as Hp. generalize dependent (to_iso t). intros x Hx.
    unfold ageMs. simpl. destruct (decide (x = "")) as [->|Hne]; [discriminate Hx|].
    rewrite bool_decide_false by done. simpl. by rewrite Hx. }
  rewrite Hag. assert ((HEARTBEAT_STALE_MS <? now - t) = false) as -> by lia.
  generalize (text_metric m "last_error"). intros le. clear - Hst.
  by destruct (tu_health (deriveTurnHealth calls t)), st.
Qed.

(** The board tells the truth about the model: whatever the host reported to the
    plugin, in time order, once the relay has stored the heartbeat the plugin
    sends at [t], and for the three minutes it counts as fresh, the row of an
    agent that is not under an operator's stop is "down" exactly when, of its last
    200 model calls of the past hour, there is one and none completed or the last
    three failed; "degraded" when some failed otherwise; and "ok" when none did,
    or nothing is known.  A paused agent is "degraded" instead of "ok"; a
    quarantined one is "down". *)
Theorem board_shows_model_health events envm envp d d' evs m t hb_id agent row active fleet since now :
  clock_ok events -> (forall t' e, (t', e) ∈ events -> t' <= t) ->
  in_iso_range t -> t <= now <= t + HEARTBEAT_STALE_MS ->
  (forall h, h ∈ ad_heartbeats d -> h_received_at h <= t) ->
  ad_agents d !! agent = Some row ->
  let s := telemetry_of events in
  let metrics := metrics_object (reportMetrics envm envp (te_observed s) (te_configured s) (te_calls s) t) in
  insertHeartbeat d t hb_id agent "healthy"
    (JObj [("active_conversation_ids", JArr active); ("metrics", metrics)]) = (d', evs) ->
  exists row', ad_agents d' !! agent = Some row' /\
    let shown := board_row d' m now fleet since (agent, row') in
    let win := recent (t - TURN_HEALTH_WINDOW_MS) (slice_last TURN_HEALTH_MAX (finished events)) in
    fa_metrics shown = metrics /\ fa_active shown = active /\ fa_last_heartbeat_at shown = Some t /\
    (ag_status row' = Quarantined -> hv_level (fa_health shown) = HDown) /\
    (ag_status row' <> Quarantined ->
     (hv_level (fa_health shown) = HDown <-> win <> [] /\
        ((forall c, c ∈ win -> mc_ok c = false) \/
         ((3 <= length win)%nat /\ Forall (fun c => mc_ok c = false) (slice_last 3 win)))) /\
     (hv_level (fa_health shown) = HOk <->
        ag_status row' <> Paused /\ forall c, c ∈ win -> mc_ok c = true)).
Proof.
  intros Hc Ht Hiso Hage Hhb Hrow s metrics Hins.
  assert (Hd : exists row', ad_agents d' !! agent = Some row' /\
    ad_heartbeats d' = (ad_heartbeats d ++ [MkHeartbeat hb_id agent "healthy"
      (JObj [("active_conversation_ids", JArr active); ("metrics", metrics)]) t])%list).
  { unfold insertHeartbeat in Hins. rewrite Hrow in Hins.
    destruct (_ && _) in Hins; [|destruct (_ || _) in Hins]; injection Hins as <- _; simpl;
      rewrite ?lookup_insert_eq; eauto. }
  destruct Hd as (row' & Hrow' & Hhbs). exists row'. split; [done|]. cbv zeta.
  assert (Hlatest : latest_heartbeat d' agent = Some (MkHeartbeat hb_id agent "healthy"
      (JObj [("active_conversation_ids", JArr active); ("metrics", metrics)]) t)).
  { unfold latest_heartbeat. rewrite Hhbs. unfold select. rewrite List.filter_app. simpl.
    rewrite bool_decide_true by done. apply latest_by_snoc. intros h [Hin _]%elem_of_select. simpl. auto. }
  unfold board_row. simpl. rewrite Hlatest. cbn [fa_metrics fa_active fa_last_heartbeat_at fa_health option_map h_received_at].
  split_and!; [done..| |].
  - intros Hq. by rewrite Hq.
  - intros Hq.
    assert (Hlev : hv_level (deriveAgentHealth (Some (status_column (ag_status row'))) (Some (to_iso t)) (Some metrics) now) =
      match tu_health (deriveTurnHealth (te_calls s) t), ag_status row' with
      | TurnDown, _ => HDown | _, Paused => HDegraded | v, _ => level_of v end)
      by (by apply level_of_fresh).
    change (heartbeat_metrics (Some _)) with metrics. rewrite Hlev. clear Hlev.
    unfold s. rewrite verdict_of_history by done.
    destruct (verdict_spec (slice_last TURN_HEALTH_MAX (finished events)) t) as (Hu & Hdn & Hok).
    cbv zeta in *. rewrite <- Hdn.
    assert (Hallok : (forall c, c ∈ recent (t - TURN_HEALTH_WINDOW_MS) (slice_last TURN_HEALTH_MAX (finished events)) -> mc_ok c = true) <->
      tu_health (deriveTurnHealth (slice_last TURN_HEALTH_MAX (finished events)) t) = TurnUnknown \/
      tu_health (deriveTurnHealth (slice_last TURN_HEALTH_MAX (finished events)) t) = TurnOk).
    { rewrite Hu, Hok. destruct (recent _ _) as [|c l]; [|naive_solver].
      split; [by left|]. intros _ c Hin. by apply elem_of_nil in Hin. }
    rewrite Hallok. clear.
    destruct (tu_health _), (ag_status row'); simpl; intuition congruence.
Qed.

(** An agent whose model answers once and then fails three times beats on, and
    the board shows it down. *)
Definition demo_events : list (Z * host_event) :=
  [(10, ConfigSeed "anthropic/opus"); (20, ModelCallStarted (Some "openai/gpt") None);
   (30, ModelCallEnded (Some "completed") None); (40, ModelCallEnded (Some "error") (Some "auth"));
   (50, ModelCallEnded None None); (60, ModelCallEnded (Some "error") (Some "404"))].

Definition demo_board : AgentDb :=
  MkAgentDb {["tars" := MkAgent "f" "Tars" "openclaw" Healthy None 0 None None 0 None None false true 0]} [] [] ∅ ∅ [] ∅.

Lemma board_shows_model_health_witness :
  let s := telemetry_of demo_events in
  let metrics := metrics_object (reportMetrics None None (te_observed s) (te_configured s) (te_calls s) 100) in
  let d' := fst (insertHeartbeat demo_board 100 "hb1" "tars" "healthy"
              (JObj [("active_conversation_ids", JArr []); ("metrics", metrics)])) in
  exists row', ad_agents d' !! "tars" = Some row' /\
    hv_level (fa_health (board_row d' (MkMailDb [] [] [] ∅ [] ∅ ∅) 5000 "f" 0 ("tars", row'))) = HDown.
Proof.
  intros s metrics d'.
  destruct (board_shows_model_health demo_events None None demo_board d'
    (snd (insertHeartbeat demo_board 100 "hb1" "tars" "healthy"
       (JObj [("active_conversation_ids", JArr []); ("metrics", metrics)])))
    (MkMailDb [] [] [] ∅ [] ∅ ∅) 100 "hb1" "tars"
    (MkAgent "f" "Tars" "openclaw" Healthy None 0 None None 0 None None false true 0) [] "f" 0 5000)
    as (row' & Hrow & _ & _ & _ & _ & Hlev).
  - intros i j ti tj ei ej Hij Hi Hj.
    do 6 (destruct i as [|i]; [simpl in Hi; injection Hi as <- _;
      do 6 (destruct j as [|j]; [simpl in Hj; injection Hj as <- _; lia|]); discriminate Hj|]).
    discriminate Hi.
  - intros t' e Hin%list_elem_of_In. simpl in Hin. intuition (simplify_eq; lia).
  - split; vm_compute; congruence.
  - split; vm_compute; congruence.
  - intros h Hin. by apply elem_of_nil in Hin.
  - by vm_compute.
  - apply surjective_pairing.
  - exists row'. split; [exact Hrow|].
    assert (Hst : ag_status row' = Healthy) by (vm_compute in Hrow; injection Hrow as <-; reflexivity).
    destruct (Hlev ltac:(congruence)) as [Hdown _]. apply Hdown. split; [discriminate|].
    right. split; [vm_compute; lia|]. by repeat constructor.
Defined.

(** ** The attention queue *)

(** The order of the queue, on items whose dates are dates. *)
Definition dated (i : AttentionItem) : Prop := at_time (it_at i) <> TNaN.

Definition no_later (x y : AttentionItem) : Prop := comes_after x y = false.

Lemma comes_after_total x y : comes_after x y = true -> comes_after y x = false.
Proof.
  unfold comes_after. destruct (it_severity x), (it_severity y); simpl; try done;
    destruct (at_time (it_at x)), (at_time (it_at y)); try done; intros Hc%Z.ltb_lt; apply Z.ltb_ge; lia.
Qed.

Lemma no_later_trans x y z : dated y -> no_later x y -> no_later y z -> no_later x z.
Proof.
  unfold no_later, comes_after, dated. intros Hy.
  destruct (it_severity x), (it_severity y), (it_severity z); simpl; try done;
    destruct (at_time (it_at x)), (at_time (it_at y)), (at_time (it_at z)); try done;
    rewrite ?Z.ltb_ge; try lia; try done.
Qed.

Lemma insert_item_perm x l : insert_item x l ≡ₚ x :: l.
Proof.
  induction l as [|y l IH]; simpl; [done|]. destruct (comes_after x y); [|done].
  rewrite IH. apply perm_swap.
Qed.

Lemma sort_items_perm l : sort_items l ≡ₚ l.
Proof. induction l as [|x l IH]; simpl; [done|]. by rewrite insert_item_perm, IH. Qed.

Lemma insert_item_sorted x l :
  dated x -> Forall dated l -> StronglySorted no_later l -> StronglySorted no_later (insert_item x l).
Proof.
  intros Hx Hd Hs. induction Hs as [|y l Hs IH Hall]; simpl; [by repeat constructor|].
  apply Forall_cons in Hd as [Hy Hd]. destruct (comes_after x y) eqn:E.
  - constructor; [by apply IH|]. rewrite insert_item_perm. constructor; [|done]. by apply comes_after_total.
  - constructor; [by constructor|]. constructor; [done|]. eapply Forall_impl; [exact Hall|].
    intros z. by apply no_later_trans.
Qed.

Lemma sort_items_sorted l : Forall dated l -> StronglySorted no_later (sort_items l).
Proof.
  induction 1 as [|x l Hx Hl IH]; simpl; [constructor|]. apply insert_item_sorted; [done| |done].
  by rewrite sort_items_perm.
Qed.

(** The queue holds exactly what its sources give, critical before warnings and,
    within each, the most recent first, items without a date last. *)
Theorem attention_ranked src :
  let given := (flat_map agent_item (so_agents src) ++ map (stalled_item (so_names src)) (so_stalled src) ++
                map (dead_item (so_names src)) (so_dead src))%list in
  Forall dated given ->
  buildAttentionItems src ≡ₚ given /\ StronglySorted no_later (buildAttentionItems src).
Proof.
  intros given Hd. split; [apply sort_items_perm|by apply sort_items_sorted].
Qed.

Lemma attention_ranked_witness :
  let src := MkSources [MkAttentionAgent "a" None (Some (MkVerdict HDegraded "paused" true)) None;
                        MkAttentionAgent "b" (Some "B") (Some (MkVerdict HDown "revoked" true)) None]
               [MkStalled "s" (Some "b") None (Some (to_iso 5)) None] [] [] in
  map it_id (buildAttentionItems src) = ["agent:b"; "stall:s"; "agent:a"] /\
  StronglySorted no_later (buildAttentionItems src).
Proof.
  intros src. split; [by vm_compute|]. apply attention_ranked.
  repeat (constructor; [by vm_compute|]). constructor.
Defined.
