(* ===== verification/AgentRoutes.v ===== *)
(** * The agent routes

    [packages/relay/src/routes-agent.ts]: the handlers of messages, floors and
    enrolment, over the tables an agent's request can reach.  Bodies arrive parsed by
    the zod schemas of [types.ts]; [AgentApi] has every route with its schema. *)

From S2P Require Import Prelude Json IsoTime JsValues Identity Events OperatorKeys Config Agents Enrollment Messages Rooms Delivery DeliverySafety AgentSafety EnrollmentProperties Policies.
Import Ascii String.
Open Scope string_scope.
Open Scope Z_scope.

Record World := MkWorld {
  w_enroll : EnrollDb;
  w_keys : KeyDb;
  w_agents : AgentDb;
  w_mail : MailDb;
  w_policies : list PolicyRow
}.

Definition with_w_enroll x (w : World) := MkWorld x (w_keys w) (w_agents w) (w_mail w) (w_policies w).
Definition with_w_agents x (w : World) := MkWorld (w_enroll w) (w_keys w) x (w_mail w) (w_policies w).
Definition with_w_mail x (w : World) := MkWorld (w_enroll w) (w_keys w) (w_agents w) x (w_policies w).

(** A [?limit=] parameter: absent, not a finite number, or its truncation. *)
Inductive LimitParam := LimitAbsent | LimitNaN | LimitNumber (n : Z).

Definition clampLimit (raw : LimitParam) (fallback max : Z) : Z :=
  match raw with LimitNumber n => Z.min (Z.max n 1) max | _ => fallback end.

(** ** POST /v1/messages *)

(** [sendMessageSchema], parsed. *)
Record SendRequest := MkSend {
  sr_recipient_kind : string;
  sr_recipient_id : option string;
  sr_type : string;
  sr_priority : string;
  sr_ttl : Z;
  sr_requires_approval : bool;
  sr_body : json;
  sr_metadata : option (list (string * json));
  sr_conversation : string;
  sr_correlation : string;
  sr_agent_sig : option string;
  sr_key_id : option string;
  sr_sig_canonical : option (list (string * json))
}.

(** [{ ...a, ...b }] *)
Definition obj_set (k : string) (v : json) (kvs : list (string * json)) : list (string * json) :=
  if existsb (fun kv => fst kv ==? k) kvs
  then map (fun kv => if fst kv ==? k then (k, v) else kv) kvs
  else (kvs ++ [(k, v)])%list.
Definition spread (a b : list (string * json)) : list (string * json) :=
  foldl (fun acc kv => obj_set (fst kv) (snd kv) acc) a b.

(** The peer signature, folded in only when it is complete. *)
Definition sigMeta (r : SendRequest) : list (string * json) :=
  match truthy (sr_agent_sig r), truthy (sr_key_id r), sr_sig_canonical r with
  | Some s, Some k, Some c => [("agent_sig", JStr s); ("key_id", JStr k); ("sig_canonical", JObj c)]
  | _, _, _ => []
  end.

Definition mergedMeta (r : SendRequest) : option json :=
  match spread (default [] (sr_metadata r)) (sigMeta r) with
  | [] => None
  | kvs => Some (JObj kvs)
  end.

(** The envelope nonce of a signed message: none to claim, or its text. *)
Definition envelope_nonce (r : SendRequest) : option string :=
  match sr_sig_canonical r with
  | None => None
  | Some c =>
      match obj_get "nonce" c with
      | None | Some JNull => None
      | Some (JStr s) => Some (trim s)
      | Some (JNum n) => Some (trim (stringify_num n))
      | Some _ => Some ""
      end
  end.

Inductive SendReply :=
  | BadRequest
  | Sent (message_id : string) (queued_at : Z)
  | GateRefused (x : MessageGateDenial)
  | NonceEmpty | NonceTooLong | NonceReplayed
  | CreateRefused (e : SendErr).

(** The status codes. *)
Definition reply_code (r : SendReply) : Z :=
  match r with
  | BadRequest => 400
  | Sent _ _ => 200
  | GateRefused x => denial_code x
  | NonceEmpty | NonceTooLong => 400
  | NonceReplayed => 409
  | CreateRefused (RecipientNotFound | RoomNotFound | AttachmentNotOwned) => 404
  | CreateRefused (TooManyAttachments | UnsupportedRecipient | RoomMismatch) => 400
  | CreateRefused _ => 500
  end.

Definition message_input (agent : AgentIdentity) (r : SendRequest) : MessageInput :=
  MkMessageInput (id_fleet agent) (id_agent agent) (sr_recipient_kind r) (sr_recipient_id r) (sr_type r)
    (sr_priority r) (sr_ttl r) (sr_requires_approval r) (sr_body r) (mergedMeta r) (sr_conversation r)
    (sr_correlation r).

(** The claim of the envelope nonce: the state, and a refusal. *)
Definition claim_envelope (e : EnrollDb) (now : Z) (agent : AgentIdentity) (r : SendRequest)
    : EnrollDb * option SendReply :=
  match envelope_nonce r with
  | None => (e, None)
  | Some nonce =>
      if nonce ==? "" then (e, Some NonceEmpty)
      else if (256 <? String.length nonce)%nat then (e, Some NonceTooLong)
      else let '(e', first) := claimEnvelopeNonce e now (id_agent agent) nonce in
           (e', if first then None else Some NonceReplayed)
  end.

Section Routes.
Context `{Crypto} `{NodeCrypto} (cfg : Config).

Definition postMessage (exts : list ExtensionHook) (w : World) (now : Z) (ctl_id mid : string)
    (dly : nat -> string) (agent : AgentIdentity) (r : SendRequest) : World * SendReply * list Event :=
  let '(d1, denial, es1) := evaluateMessageGate cfg exts (w_policies w) (w_agents w) now ctl_id agent
                              (sr_recipient_id r) (sr_type r) (sr_priority r) (sr_body r)
                              (option_map JObj (sr_metadata r)) in
  let w1 := with_w_agents d1 w in
  match denial with
  | Some x => (w1, GateRefused x, es1)
  | None =>
      let '(e1, refusal) := claim_envelope (w_enroll w1) now agent r in
      let w2 := with_w_enroll e1 w1 in
      match refusal with
      | Some x => (w2, x, es1)
      | None =>
          match createMessage cfg (w_agents w2) (w_mail w2) now mid dly (message_input agent r) with
          | Ok (m, es2) => (with_w_mail m w2, Sent mid now, (es1 ++ es2)%list)
          | Throw e => (w2, CreateRefused e, es1)
          end
      end
  end.

(** A route behind [requireAgentAuth]: [None] is the 401. *)
Definition authenticated {A} (w : World) (now : Z) (r : SignedRequest)
    (handler : World -> AgentIdentity -> World * A) : World * option A :=
  let '(e1, verdict) := requireAgentAuth cfg (w_enroll w) (w_agents w) now r in
  let w1 := with_w_enroll e1 w in
  match verdict with
  | Throw _ => (w1, None)
  | Ok (i, f, st) => let '(w2, a) := handler w1 (MkIdentity i f st) in (w2, Some a)
  end.

(** [sendMessageSchema.safeParse] on the request's JSON body is zod's: [parse]. *)
Definition sendRoute (parse : string -> option SendRequest) (exts : list ExtensionHook) (w : World)
    (now : Z) (ctl_id mid : string) (dly : nat -> string) (rq : SignedRequest)
    : World * option (SendReply * list Event) :=
  authenticated w now rq (fun w1 agent =>
    match parse (rq_body rq) with
    | None => (w1, (BadRequest, []))
    | Some r => let '(w2, reply, es) := postMessage exts w1 now ctl_id mid dly agent r in (w2, (reply, es))
    end).

(** ** Reading *)

Definition getInboxRoute (w : World) (now : Z) (agent : AgentIdentity) (limit : LimitParam)
    : World * InboxResponse * list Event :=
  let '(m1, inbox, es) := getInbox (w_keys w) (w_agents w) (w_mail w) now (id_agent agent)
                            (clampLimit limit 25 100) in
  (with_w_mail m1 w, inbox, es).

Definition getConversationsRoute (w : World) (agent : AgentIdentity) (limit : LimitParam)
    : list ConversationEntry :=
  listAgentConversations (w_mail w) (id_fleet agent) (id_agent agent) (clampLimit limit 25 100).

(** ** The floor *)

Record FloorReply := MkFloorReply { fl_verdict : FloorVerdict; fl_tail : list Snapshot }.

(** [rawTtl]: the body's [ttl_seconds] when it is a finite number.  [None] is the
    404 of a non-participant. *)
Definition postFloor (w : World) (now : Z) (agent : AgentIdentity) (conversationId : string)
    (rawTtl : option Z) : World * option FloorReply :=
  if negb (isConversationParticipant (w_mail w) (id_fleet agent) conversationId (id_agent agent))
  then (w, None)
  else
    let ttl := Z.max 0 (Z.min (default (floorTtlSeconds cfg) rawTtl) (floorTtlMaxSeconds cfg)) in
    let '(m1, v) := acquireFloor (w_mail w) now (id_fleet agent) conversationId (id_agent agent) ttl in
    let tail := if fv_granted v
                then getConversationTail (w_agents w) m1 (id_fleet agent) conversationId (id_agent agent)
                       (floorTailLimit cfg)
                else [] in
    (with_w_mail m1 w, Some (MkFloorReply v tail)).

Definition deleteFloor (w : World) (agent : AgentIdentity) (conversationId : string)
    : World * option bool :=
  if negb (isConversationParticipant (w_mail w) (id_fleet agent) conversationId (id_agent agent))
  then (w, None)
  else
    let '(m1, released) := releaseFloor (w_mail w) (id_fleet agent) conversationId (id_agent agent) in
    (with_w_mail m1 w, Some released).

(** ** Enrolment *)

(** POST /v1/enroll: the claim, then the identity key of the new agent. *)
Definition postEnroll (w : World) (now : Z) (agentId secret credId fleetId token displayName runtime : string)
    (hostname identity_public_key : option string) : World * option (string * string * list AgentKeyView) :=
  let '(e1, d1, created) := createAgentFromEnrollment (w_enroll w) (w_agents w) now agentId secret credId
                              fleetId token displayName runtime hostname in
  match created with
  | None => (MkWorld e1 (w_keys w) d1 (w_mail w) (w_policies w), None)
  | Some (i, s) =>
      let keys := match truthy identity_public_key with
                  | Some pk => fst (setAgentIdentityKey (w_keys w) now i fleetId pk)
                  | None => w_keys w
                  end in
      (MkWorld e1 keys d1 (w_mail w) (w_policies w), Some (i, s, operatorKeysForAgents keys fleetId))
  end.
End Routes.

(** * Properties of the agent routes

    What it takes for an agent's message to be admitted, end to end: from the
    signed request to the row in [messages]. *)

Section Gate.
Context `{NodeCrypto} (cfg : Config).

(** A gate that admits: every check passed. *)
Lemma gate_admits exts ps d now ctl a rcp ty pr body meta d1 es :
  evaluateMessageGate cfg exts ps d now ctl a rcp ty pr body meta = (d1, None, es) ->
  id_status a <> Quarantined /\ id_status a <> Paused /\
  counter d (id_agent a) (window_start cfg now) < rateLimitMaxMessages cfg /\
  (forall p, p ∈ ps -> in_scope (id_fleet a) (id_agent a) rcp p = true -> po_action p = PDeny ->
     matchesPolicyConditions (po_conditions p) (id_agent a) rcp ty pr = false) /\
  (forall e hook, e ∈ exts -> ex_onBeforeMessage e = Some hook ->
     hook (MkHookMessage (id_fleet a) (id_agent a) rcp ty pr body meta) = None).
Proof.
  unfold evaluateMessageGate. destruct (_ || _) eqn:Hst; [done|].
  pose proof (rl_allowed_iff cfg d now ctl (id_agent a) (id_fleet a)) as Hrl.
  destruct (checkAndIncrementRateLimit _ _ _ _ _ _) as [[d2 rate] e1]. cbn [fst snd] in Hrl.
  destruct (rl_allowed rate) eqn:Hal; cbn [negb]; [|done].
  destruct (evaluateMessagePolicies _ _ _ _ _ _ _) as [verdict e2] eqn:Hp.
  destruct verdict as [|name]; [|done]. intros Hg.
  assert (Hh : run_hooks exts (MkHookMessage (id_fleet a) (id_agent a) rcp ty pr body meta) = None) by congruence.
  bools. split; [done|]. split; [done|]. split; [by apply Hrl|]. split; [|by apply run_hooks_None].
  intros p Hin Hsc Hd. destruct (matchesPolicyConditions _ _ _ _ _) eqn:Hm; [|done]. exfalso.
  assert (Hx : exists name, fst (evaluateMessagePolicies ps now (id_fleet a) (id_agent a) rcp ty pr) = DeniedByPolicy name).
  { apply policies_deny_iff. by exists p. }
  destruct Hx as [name Hx]. by rewrite Hp in Hx.
Qed.

(** An envelope nonce that was claimed. *)
Lemma claim_envelope_None e now a r e' :
  claim_envelope e now a r = (e', None) ->
  (forall k, envelope_nonce r = Some k ->
     k <> "" /\ (String.length k <= 256)%nat /\ ed_nonces e !! (id_agent a, "env:" +:+ k) = None /\
     ed_nonces e' !! (id_agent a, "env:" +:+ k) = Some now) /\
  (forall x t, ed_nonces e !! x = Some t -> ed_nonces e' !! x = Some t).
Proof.
  unfold claim_envelope. destruct (envelope_nonce r) as [k|]; [|intros [= <-]; done].
  destruct (k ==? "") eqn:Hk; [done|]. destruct (_ <? _)%nat eqn:Hlen; [done|].
  unfold claimEnvelopeNonce, claimNonce. destruct (ed_nonces e !! _) eqn:Hn; [done|]. intros [= <-]. bools. cbn.
  split.
  - intros k' [= <-]. apply Nat.ltb_ge in Hlen. split_and!; [done|done|done|apply lookup_insert_eq].
  - intros x t Hx. rewrite lookup_insert_ne by congruence. done.
Qed.
End Gate.

(** C37. Nothing is sent without passing every control. If the route answers that a
    message is queued, the request was authenticated as its sender, and what was
    sent is what its signed body says; the sender is
    neither paused nor quarantined, and under its rate limit; no enabled policy in
    scope denies it and no extension objects; the signed envelope's nonce, if there
    is one, was never used by that agent and is now remembered; and the message is
    exactly the one [createMessage] made for that sender and fleet. With any other
    answer no table of the mail changes. *)
Theorem message_admission `{NodeCrypto} cfg parse exts w now ctl mid dly rq :
  let '(w', out) := sendRoute cfg parse exts w now ctl mid dly rq in
  (forall at_ es, out = Some (Sent mid at_, es) ->
     exists i ts n row r, parse (rq_body rq) = Some r /\
       acceptable cfg (w_enroll w) (w_agents w) now rq i ts n row /\
       ag_status row <> Quarantined /\ ag_status row <> Paused /\
       counter (w_agents w) i (window_start cfg now) < rateLimitMaxMessages cfg /\
       (forall p, p ∈ w_policies w -> in_scope (ag_fleet row) i (sr_recipient_id r) p = true ->
          po_action p = PDeny ->
          matchesPolicyConditions (po_conditions p) i (sr_recipient_id r) (sr_type r) (sr_priority r) = false) /\
       (forall e hook, e ∈ exts -> ex_onBeforeMessage e = Some hook ->
          hook (MkHookMessage (ag_fleet row) i (sr_recipient_id r) (sr_type r) (sr_priority r) (sr_body r)
                  (option_map JObj (sr_metadata r))) = None) /\
       (forall k, envelope_nonce r = Some k -> k <> "" /\
          ed_nonces (w_enroll w) !! (i, "env:" +:+ k) = None /\
          ed_nonces (w_enroll w') !! (i, "env:" +:+ k) = Some now) /\
       exists es', createMessage cfg (w_agents w') (w_mail w) now mid dly
         (message_input (MkIdentity i (ag_fleet row) (ag_status row)) r) = Ok (w_mail w', es')) /\
  ((forall at_ es, out <> Some (Sent mid at_, es)) -> w_mail w' = w_mail w).
Proof.
  unfold sendRoute, authenticated.
  destruct (requireAgentAuth cfg (w_enroll w) (w_agents w) now rq) as [e1 [[[i f] st]|x]] eqn:Hau; [|by split].
  apply requireAgentAuth_Ok in Hau as (ts & n & row & Hacc & -> & -> & He1).
  set (a := MkIdentity i (ag_fleet row) (ag_status row)).
  set (w1 := with_w_enroll e1 w). destruct (parse (rq_body rq)) as [r|] eqn:Hparse; [|by split].
  unfold postMessage.
  destruct (evaluateMessageGate _ _ _ _ _ _ _ _ _ _ _ _) as [[d1 denial] es1] eqn:Hg. cbn [w_policies w_agents] in Hg.
  destruct denial as [x|]; [by split|].
  destruct (gate_admits _ _ _ _ _ _ _ _ _ _ _ _ _ _ Hg) as (H1 & H2 & H3 & H4 & H5).
  destruct (claim_envelope _ _ _ _) as [e2 refusal] eqn:Hc. cbn in Hc.
  destruct refusal as [x|].
  { cbn. split; [|done]. intros at_ es [= -> _]. exfalso. unfold claim_envelope in Hc.
    destruct (envelope_nonce r); [|done]. destruct (_ ==? ""); [done|]. destruct (_ <? _)%nat; [done|].
    by destruct (claimEnvelopeNonce _ _ _ _) as [? []]. }
  destruct (createMessage _ _ _ _ _ _ _) as [[m es2]|x] eqn:Hm; cbn; [|by split].
  cbn in Hm. split; [|by intros Hn; destruct (Hn now (es1 ++ es2)%list)].
  intros at_ es _. exists i, ts, n, row, r. split_and!; try done; [|by exists es2].
  destruct (claim_envelope_None _ _ _ _ _ Hc) as [Hk Hkeep].
  intros k Hek. destruct (Hk k Hek) as (Hne & _ & Hnew & Hin). split_and!; [done| |done].
  rewrite He1 in Hnew. cbn in Hnew. by apply lookup_insert_None in Hnew as [? _].
Qed.

Definition demo_send : SendRequest :=
  MkSend "agent" (Some "a1") "direct" "normal" 3600 false (JObj [("text", JStr "note to self")]) None "c1" "cor1"
    None None None.
Definition demo_world : World := MkWorld demo_enroll (MkKeyDb ∅ ∅ ∅ []) demo_agent_db empty_mail [].

Lemma message_admission_witness :
  exists at_ es i,
    snd (@sendRoute toy_node default_config (fun _ => Some demo_send) [] demo_world demo_now "ctl" "m1"
           (fun n => "d" +:+ stringify_nat (Z.of_nat n)) demo_request) = Some (Sent "m1" at_, es) /\
    counter demo_agent_db i (window_start default_config demo_now) < rateLimitMaxMessages default_config.
Proof.
  assert (Hs : exists at_ es, snd (@sendRoute toy_node default_config (fun _ => Some demo_send) [] demo_world
     demo_now "ctl" "m1" (fun n => "d" +:+ stringify_nat (Z.of_nat n)) demo_request) = Some (Sent "m1" at_, es)).
  { eexists _, _. vm_compute. reflexivity. }
  destruct Hs as (at_ & es & Hs).
  pose proof (@message_admission toy_node default_config (fun _ => Some demo_send) [] demo_world demo_now "ctl" "m1"
    (fun n => "d" +:+ stringify_nat (Z.of_nat n)) demo_request) as H.
  destruct (@sendRoute toy_node default_config (fun _ => Some demo_send) [] demo_world demo_now "ctl" "m1"
    (fun n => "d" +:+ stringify_nat (Z.of_nat n)) demo_request) as [w' out].
  cbn [snd] in Hs. destruct (proj1 H at_ es Hs) as (i & ts & n & row & r & _ & _ & _ & _ & Hc & _).
  exists at_, es, i. exact (conj Hs Hc).
Defined.
