(* ===== verification/OperatorAccess.v ===== *)
(** * Operator access: throttle, tailnet gate, sessions

    [packages/relay/src/login-throttle.ts], [tailnet.ts], [operator-session.ts],
    [requireOperatorAuth] of [auth.ts] and the login route of
    [routes-operator.ts].  [toLowerCase] is modelled on ASCII letters. *)

From S2P Require Import Prelude Json IsoTime JsValues Events Config Agents Enrollment.
Import Ascii String.
Open Scope string_scope.
Open Scope Z_scope.

(** ** Strings *)

(** [s.split(c)]: never empty. *)
Fixpoint split_on (c : ascii) (s : string) : list string :=
  match s with
  | EmptyString => [""]
  | String x s' =>
      if x ==? c then "" :: split_on c s'
      else match split_on c s' with
           | p :: ps => String x p :: ps
           | [] => [String x ""]
           end
  end.

Definition first_part (l : list string) : string := match l with p :: _ => p | [] => "" end.
Definition last_part (l : list string) : string := default "" (last l).

(** ** The login throttle *)

Record Bucket := MkBucket { b_failures : Z; b_reset_at : Z }.

Record ThrottleOptions := MkThrottleOptions {
  maxFailures : Z;
  windowSeconds : Z;
  maxBuckets : Z
}.

Definition default_throttle (cfg : Config) : ThrottleOptions :=
  MkThrottleOptions (loginMaxFailures cfg) (loginWindowSeconds cfg) (loginThrottleMaxBuckets cfg).

Record LoginThrottle := MkThrottle {
  lt_buckets : gmap string Bucket;
  lt_overflowed : bool
}.

Definition keysFor (fleetName email ip : string) : list string :=
  ["acct:" +:+ lower_string (trim fleetName) +:+ "|" +:+ lower_string (trim email); "ip:" +:+ trim ip].

Section Throttle.
Context (opts : ThrottleOptions).

(** One key of [check]: an expired bucket is forgotten. *)
Definition check_key (now : Z) (acc : gmap string Bucket * Z) (key : string) : gmap string Bucket * Z :=
  let '(bs, worst) := acc in
  match bs !! key with
  | None => acc
  | Some b =>
      if b_reset_at b <=? now then (delete key bs, worst)
      else if maxFailures opts <=? b_failures b
      then (bs, Z.max worst ((b_reset_at b - now + 999) / 1000))
      else acc
  end.

(** [None]: allowed; [Some n]: retry after [n] seconds. *)
Definition check (t : LoginThrottle) (now : Z) (fleetName email ip : string) : LoginThrottle * option Z :=
  let '(bs, worst) := foldl (check_key now) (lt_buckets t, 0) (keysFor fleetName email ip) in
  (MkThrottle bs (lt_overflowed t), if 0 <? worst then Some worst else None).

Definition sweep_buckets (now : Z) (bs : gmap string Bucket) : gmap string Bucket :=
  filter (fun kv => now < b_reset_at (snd kv)) bs.

Definition sweep (t : LoginThrottle) (now : Z) : LoginThrottle :=
  MkThrottle (sweep_buckets now (lt_buckets t)) (lt_overflowed t).

(** One key of [recordFailure]. *)
Definition fail_key (now : Z) (t : LoginThrottle) (key : string) : LoginThrottle :=
  let fresh := MkBucket 1 (now + windowSeconds opts * 1000) in
  match lt_buckets t !! key with
  | Some b =>
      if b_reset_at b <=? now then MkThrottle (<[key := fresh]> (lt_buckets t)) (lt_overflowed t)
      else MkThrottle (<[key := MkBucket (b_failures b + 1) (b_reset_at b)]> (lt_buckets t)) (lt_overflowed t)
  | None =>
      if maxBuckets opts <=? Z.of_nat (size (lt_buckets t)) then
        let t1 := sweep t now in
        if maxBuckets opts <=? Z.of_nat (size (lt_buckets t1)) then MkThrottle (lt_buckets t1) true
        else MkThrottle (<[key := fresh]> (lt_buckets t1)) (lt_overflowed t1)
      else MkThrottle (<[key := fresh]> (lt_buckets t)) (lt_overflowed t)
  end.

Definition recordFailure (t : LoginThrottle) (now : Z) (fleetName email ip : string) : LoginThrottle :=
  foldl (fail_key now) t (keysFor fleetName email ip).

(** The account counter only. *)
Definition recordSuccess (t : LoginThrottle) (fleetName email : string) : LoginThrottle :=
  MkThrottle (delete (first_part (keysFor fleetName email "")) (lt_buckets t)) (lt_overflowed t).

Definition takeOverflowed (t : LoginThrottle) : LoginThrottle * bool :=
  (MkThrottle (lt_buckets t) false, lt_overflowed t).
End Throttle.

(** ** Headers and addresses *)

(** A header of Node: absent, a string, or the values of a repeated one. *)
Inductive Header := HAbsent | HStr (s : string) | HArr (l : list string).

Definition resolveClientIp (trustedProxies : list string) (socketIp : string) (forwardedFor : Header) : string :=
  let sock := trim socketIp in
  if negb (bool_decide (sock ∈ trustedProxies)) then sock
  else
    match (match forwardedFor with HStr s => Some s | HArr l => last l | HAbsent => None end) with
    | None => sock
    | Some rawHeader =>
        let client := trim (last_part (split_on "," rawHeader)) in
        if client ==? "" then sock else client
    end.

Definition is_octet (s : string) : bool :=
  forallb is_digit (list_ascii_of_string s) && (1 <=? String.length s)%nat && (String.length s <=? 3)%nat.

(** The regular expression of an IPv4-mapped address. *)
Definition mapped_ipv4 (s : string) : option string :=
  if String.prefix "::ffff:" s then
    let rest := String.substring 7 (String.length s - 7) s in
    let parts := split_on "." rest in
    if (length parts =? 4)%nat && forallb is_octet parts then Some rest else None
  else None.

Definition normalizeIp (value : option string) : string :=
  let raw := lower_string (trim (default "" value)) in
  if raw ==? "" then ""
  else
    let withoutZone := first_part (split_on "%" raw) in
    let unbracketed :=
      if String.prefix "[" withoutZone &&
         (String.substring (String.length withoutZone - 1) 1 withoutZone ==? "]")
      then String.substring 1 (String.length withoutZone - 2) withoutZone else withoutZone in
    default unbracketed (mapped_ipv4 unbracketed).

Definition isTrustedTailnetPeer (trustedProxies : list string) (socketIp : option string) : bool :=
  let peer := normalizeIp socketIp in
  if peer ==? "" then false else existsb (fun entry => normalizeIp (Some entry) ==? peer) trustedProxies.

(** The two identity headers, the second when the first is absent. *)
Definition tailnetLoginFromHeaders (user_login user_name : Header) : string :=
  match (match user_login with HAbsent => user_name | h => h end) with
  | HStr s => trim s
  | HArr l => trim (default "" (head l))
  | HAbsent => ""
  end.

(** [None]: allowed; otherwise the reason. *)
Definition evaluateTailnetGate (require : bool) (allowedUser login : string) (peerTrusted : bool)
    : option string :=
  if negb require then None
  else if negb peerTrusted then Some "tailnet identity required"
  else if login ==? "" then Some "tailnet identity required"
  else if negb (allowedUser ==? "") && negb (login ==? allowedUser) then Some "tailnet user not allowed"
  else None.

(** The deployment's settings, and the request as the relay sees it. *)
Record AccessConfig := MkAccess {
  ac_require_tailnet : bool;
  ac_tailnet_user : string;
  ac_trusted_proxies : list string;
  ac_session_secret : string
}.

Record OperatorRequest := MkOperatorRequest {
  or_ip : string;
  or_user_login : Header;
  or_user_name : Header;
  or_forwarded_for : Header;
  or_authorization : option string
}.

Definition evaluateRequestTailnetGate (ac : AccessConfig) (r : OperatorRequest) : option string :=
  evaluateTailnetGate (ac_require_tailnet ac) (ac_tailnet_user ac)
    (tailnetLoginFromHeaders (or_user_login r) (or_user_name r))
    (isTrustedTailnetPeer (ac_trusted_proxies ac) (Some (or_ip r))).

(** ** Session tokens *)

Section Sessions.
Context `{NodeCrypto}.

Definition session_core (operatorId fleetId issuedAt : string) : string :=
  operatorId +:+ "." +:+ fleetId +:+ "." +:+ issuedAt.

Definition issueOperatorSession (secret operatorId fleetId : string) (nowSeconds : Z) : string :=
  let core := session_core operatorId fleetId (stringify_num nowSeconds) in
  core +:+ "." +:+ node_hmac_sha256 secret core.

Inductive SessionErr := LegacySession | MalformedSession | InvalidSession | SessionExpired | SessionNotYetValid.

Definition verifyOperatorSession (secret token : string) (nowSeconds maxAgeSeconds : Z)
    : result SessionErr (string * string) :=
  match split_on "." token with
  | [operatorId; fleetId; issuedAtRaw; signature] =>
      if (operatorId ==? "") || (fleetId ==? "") || (issuedAtRaw ==? "") || (signature ==? "")
      then Throw MalformedSession
      else if negb (node_hmac_sha256 secret (session_core operatorId fleetId issuedAtRaw) ==? signature)
      then Throw InvalidSession
      else match js_integer issuedAtRaw with
      | None => Throw MalformedSession
      | Some issuedAt =>
          let age := nowSeconds - issuedAt in
          if maxAgeSeconds <? age then Throw SessionExpired
          else if age <? -300 then Throw SessionNotYetValid
          else Ok (operatorId, fleetId)
      end
  | [_; _; _] => Throw LegacySession
  | _ => Throw MalformedSession
  end.

(** ** The two entry points *)

Inductive OperatorAuthErr :=
  | OffTailnet (reason : string) | NoSession | BadSession (e : SessionErr) | UnknownOperator.

Definition bearer (authorization : option string) : option string :=
  match authorization with
  | Some s => if String.prefix "Bearer " s then Some (String.substring 7 (String.length s - 7) s) else None
  | None => None
  end.

Definition requireOperatorAuth (cfg : Config) (ac : AccessConfig) (d : AgentDb) (now : Z) (r : OperatorRequest)
    : result OperatorAuthErr (string * string) :=
  match evaluateRequestTailnetGate ac r with
  | Some reason => Throw (OffTailnet reason)
  | None =>
      match bearer (or_authorization r) with
      | None => Throw NoSession
      | Some token =>
          match verifyOperatorSession (ac_session_secret ac) token (now / 1000) (operatorSessionTtlSeconds cfg) with
          | Throw e => Throw (BadSession e)
          | Ok (operatorId, fleetId) =>
              if operatorBelongsToFleet d operatorId fleetId then Ok (operatorId, fleetId)
              else Throw UnknownOperator
          end
      end
  end.

Inductive LoginReply :=
  | LoginOffTailnet (reason : string)
  | LoginThrottled (retryAfter : Z)
  | LoginInvalid
  | LoginOk (token fleetId : string) (display_name : option string).

(** POST /v1/operator/login; [verify] and [rehash] as in [authenticateOperator]. *)
Definition loginRoute (cfg : Config) (ac : AccessConfig) (verify : string -> string -> bool * bool)
    (rehash : string) (e : EnrollDb) (d : AgentDb) (t : LoginThrottle) (now : Z) (r : OperatorRequest)
    (fleet_name email password : string) : AgentDb * LoginThrottle * LoginReply :=
  match evaluateRequestTailnetGate ac r with
  | Some reason => (d, t, LoginOffTailnet reason)
  | None =>
      let clientIp := resolveClientIp (ac_trusted_proxies ac) (or_ip r) (or_forwarded_for r) in
      let opts := default_throttle cfg in
      let '(t1, decision) := check opts t now fleet_name email clientIp in
      match decision with
      | Some retry => (d, t1, LoginThrottled retry)
      | None =>
          let '(d1, found) := authenticateOperator verify rehash e d fleet_name email password in
          match found with
          | None => (d1, recordFailure opts t1 now fleet_name email clientIp, LoginInvalid)
          | Some (oid, row) =>
              (d1, recordSuccess t1 fleet_name email,
               LoginOk (issueOperatorSession (ac_session_secret ac) oid (op_fleet row) (now / 1000))
                 (op_fleet row) (op_display_name row))
          end
      end
  end.
End Sessions.

(** * Properties of operator access

    The login throttle over every trace of login attempts and sweeps, and what a
    session token proves. *)

(** ** Traces of the throttle *)

(** [TAttempt]: one pass of the login route, whose credentials are good or bad;
    [TSweep]: the periodic sweep. *)
Inductive throttle_op :=
  | TAttempt (fleetName email ip : string) (good : bool)
  | TSweep.

Section Throttle.
Context (opts : ThrottleOptions).

Definition throttle_step (t : LoginThrottle) (now : Z) (op : throttle_op) : LoginThrottle :=
  match op with
  | TAttempt f e ip good =>
      let '(t1, decision) := check opts t now f e ip in
      match decision with
      | Some _ => t1
      | None => if good then recordSuccess t1 f e else recordFailure opts t1 now f e ip
      end
  | TSweep => fst (takeOverflowed (sweep t now))
  end.

Fixpoint throttle_run (t : LoginThrottle) (tr : list (Z * throttle_op)) : LoginThrottle :=
  match tr with [] => t | (now, op) :: tr' => throttle_run (throttle_step t now op) tr' end.

Fixpoint throttle_timed (t0 : Z) (tr : list (Z * throttle_op)) (t1 : Z) : Prop :=
  match tr with [] => t0 <= t1 | (now, _) :: tr' => t0 <= now /\ throttle_timed now tr' t1 end.

(** A bucket that blocks its key at [now]. *)
Definition blocking (now : Z) (b : Bucket) : Prop := now < b_reset_at b /\ maxFailures opts <= b_failures b.

Lemma keysFor_eq f e ip : exists a i, keysFor f e ip = [a; i] /\ a <> i /\ forall ip', first_part (keysFor f e ip') = a.
Proof. eexists _, _. split; [reflexivity|]. split; [discriminate|done]. Qed.

(** *** [check] *)

Lemma check_key_bs now bs worst key k :
  fst (check_key opts now (bs, worst) key) !! k =
  match bs !! k with
  | Some b => if (key ==? k) && (b_reset_at b <=? now) then None else Some b
  | None => None
  end.
Proof.
  unfold check_key. destruct (bs !! key) as [b|] eqn:E.
  - destruct (b_reset_at b <=? now) eqn:Hr; cbn [fst].
    + destruct (decide (key = k)) as [->|Hne].
      * rewrite lookup_delete_eq, E, bool_decide_true by done. by rewrite Hr.
      * rewrite lookup_delete_ne by done. rewrite bool_decide_false by done. by destruct (bs !! k).
    + assert (Hk : fst (if maxFailures opts <=? b_failures b
                     then (bs, Z.max worst ((b_reset_at b - now + 999) / 1000)) else (bs, worst)) = bs)
        by by destruct (maxFailures opts <=? b_failures b).
      rewrite Hk. destruct (bs !! k) as [b'|] eqn:E2; [|done]. destruct (key ==? k) eqn:Ek; [|done].
      bools. subst. simplify_eq. by rewrite (proj2 (Z.leb_gt _ _)).
  - cbn [fst]. destruct (bs !! k) as [b'|] eqn:E2; [|done]. destruct (key ==? k) eqn:Ek; [|done].
    bools. congruence.
Qed.

Lemma check_key_worst now bs worst key :
  0 <= worst ->
  0 <= snd (check_key opts now (bs, worst) key) /\
  (0 < snd (check_key opts now (bs, worst) key) <->
   0 < worst \/ exists b, bs !! key = Some b /\ blocking now b).
Proof.
  intros Hw. unfold check_key, blocking. destruct (bs !! key) as [b|].
  - destruct (b_reset_at b <=? now) eqn:Hr; cbn [snd]; bools.
    + split; [done|]. split; [by left|]. intros [?|(b' & [= <-] & ? & _)]; [done|lia].
    + destruct (maxFailures opts <=? b_failures b) eqn:Hm; cbn [snd]; bools.
      * assert (0 < (b_reset_at b - now + 999) / 1000) by (apply Z.div_str_pos; lia).
        split; [lia|]. split; [|lia]. intros _. right. by exists b.
      * split; [done|]. split; [by left|]. intros [?|(b' & [= <-] & _ & ?)]; [done|lia].
  - cbn [snd]. split; [done|]. split; [by left|]. by intros [?|(b' & ? & _)].
Qed.

(** [check] refuses exactly when a live bucket of the account or of the address
    is full, and forgets nothing but expired buckets. *)
Lemma check_spec t now f e ip :
  (is_Some (snd (check opts t now f e ip)) <->
   exists key b, key ∈ keysFor f e ip /\ lt_buckets t !! key = Some b /\ blocking now b) /\
  (forall k, lt_buckets (fst (check opts t now f e ip)) !! k =
     match lt_buckets t !! k with
     | Some b => if bool_decide (k ∈ keysFor f e ip) && (b_reset_at b <=? now) then None else Some b
     | None => None
     end) /\
  lt_overflowed (fst (check opts t now f e ip)) = lt_overflowed t.
Proof.
  destruct (keysFor_eq f e ip) as (a & i & Hk & Hne & _). unfold check. rewrite Hk. cbn [foldl].
  pose proof (check_key_bs now (lt_buckets t) 0 a) as B1.
  destruct (check_key_worst now (lt_buckets t) 0 a) as [W1 W1']; [lia|].
  destruct (check_key opts now (lt_buckets t, 0) a) as [bs1 w1]. cbn [fst snd] in *.
  pose proof (check_key_bs now bs1 w1 i) as B2.
  destruct (check_key_worst now bs1 w1 i W1) as [W2 W2'].
  destruct (check_key opts now (bs1, w1) i) as [bs2 w2]. cbn [fst snd lt_buckets lt_overflowed] in *.
  assert (Hi : bs1 !! i = lt_buckets t !! i).
  { rewrite B1, bool_decide_false by done. by destruct (lt_buckets t !! i). }
  split; [|split; [|done]].
  - transitivity (0 < w2).
    { destruct (0 <? w2) eqn:Hw; bools; split; try done; try lia; by intros [? ?]. }
    rewrite W2', W1', Hi. split.
    + intros [[?|(b & Hb & Hbl)]|(b & Hb & Hbl)]; [lia| |].
      * exists a, b. split; [by left|done].
      * exists i, b. split; [by right; left|done].
    + intros (key & b & Hin & Hb & Hbl). apply elem_of_cons in Hin as [->|Hin]; [left; right; by exists b|].
      apply list_elem_of_singleton in Hin as ->. right. by exists b.
  - intros k. rewrite B2, B1. destruct (lt_buckets t !! k) as [b|]; [|done].
    destruct (b_reset_at b <=? now) eqn:Hr.
    + rewrite !andb_true_r. destruct (decide (a = k)) as [->|Ha].
      * rewrite (bool_decide_true (k = k)), (bool_decide_true (k ∈ [k; i])) by set_solver. done.
      * rewrite (bool_decide_false (a = k)) by done. destruct (decide (i = k)) as [->|Hik].
        -- rewrite (bool_decide_true (k = k)), (bool_decide_true (k ∈ [a; k])) by set_solver. by rewrite Hr.
        -- rewrite (bool_decide_false (i = k)), (bool_decide_false (k ∈ [a; i])) by set_solver. done.
    + rewrite !andb_false_r. by rewrite Hr, andb_false_r.
Qed.

(** *** [recordFailure] *)

Lemma fail_key_other_inv now t a i b :
  a <> i -> lt_buckets (fail_key opts now t a) !! i = Some b -> lt_buckets t !! i = Some b.
Proof.
  intros Hne. unfold fail_key, sweep, sweep_buckets.
  assert (Hf : forall m : gmap string Bucket, filter (fun kv => now < b_reset_at (snd kv)) m !! i = Some b ->
    m !! i = Some b) by (intros m Hm; by apply map_lookup_filter_Some in Hm as [? _]).
  destruct (lt_buckets t !! a) as [ba|].
  - destruct (b_reset_at ba <=? now); cbn; by rewrite lookup_insert_ne.
  - destruct (maxBuckets opts <=? _); [|cbn; by rewrite lookup_insert_ne].
    cbn [lt_buckets]. destruct (maxBuckets opts <=? _); cbn; [apply Hf|].
    rewrite lookup_insert_ne by done. apply Hf.
Qed.

Lemma fail_key_other now t a i b :
  a <> i -> lt_buckets t !! i = Some b -> now < b_reset_at b ->
  lt_buckets (fail_key opts now t a) !! i = Some b.
Proof.
  intros Hne Hi Hb. unfold fail_key, sweep, sweep_buckets.
  assert (Hf : filter (fun kv => now < b_reset_at (snd kv)) (lt_buckets t) !! i = Some b)
    by by apply map_lookup_filter_Some.
  destruct (lt_buckets t !! a) as [ba|].
  - destruct (b_reset_at ba <=? now); cbn; by rewrite lookup_insert_ne.
  - destruct (maxBuckets opts <=? _); [|cbn; by rewrite lookup_insert_ne].
    cbn [lt_buckets]. destruct (maxBuckets opts <=? _); cbn; [done|]. by rewrite lookup_insert_ne.
Qed.

(** Counts and memory stay within the configured bounds. *)
Definition throttle_ok (t : LoginThrottle) : Prop :=
  Z.of_nat (size (lt_buckets t)) <= maxBuckets opts /\
  forall k b, lt_buckets t !! k = Some b -> b_failures b <= maxFailures opts.

Lemma filter_ok now t : throttle_ok t -> throttle_ok (sweep t now).
Proof.
  intros [Hs Hf]. unfold sweep, sweep_buckets. split; cbn.
  - etransitivity; [|exact Hs]. apply inj_le, map_subseteq_size, map_filter_subseteq.
  - intros k b Hk. apply map_lookup_filter_Some in Hk as [Hk _]. eauto.
Qed.

Lemma insert_ok t key b o :
  throttle_ok t -> b_failures b <= maxFailures opts ->
  is_Some (lt_buckets t !! key) \/ Z.of_nat (size (lt_buckets t)) < maxBuckets opts ->
  throttle_ok (MkThrottle (<[key := b]> (lt_buckets t)) o).
Proof.
  intros [Hs Hf] Hb Hroom. split; cbn.
  - destruct (lt_buckets t !! key) as [b0|] eqn:E.
    + by rewrite map_size_insert_Some by (by exists b0).
    + destruct Hroom as [[? ?]|Hroom]; [done|]. rewrite map_size_insert_None by done. lia.
  - intros k b' Hk. apply lookup_insert_Some in Hk as [[_ <-]|[_ Hk]]; eauto.
Qed.

Lemma fail_key_ok now t key :
  1 <= maxFailures opts -> throttle_ok t ->
  (forall b, lt_buckets t !! key = Some b -> now < b_reset_at b -> b_failures b < maxFailures opts) ->
  throttle_ok (fail_key opts now t key).
Proof.
  intros Hmax Hok Hroom. unfold fail_key. destruct (lt_buckets t !! key) as [b|] eqn:E.
  - destruct (b_reset_at b <=? now) eqn:Hr; bools; (apply insert_ok; [done| |left; by eexists]); cbn; [done|].
    specialize (Hroom b eq_refl Hr). lia.
  - destruct (maxBuckets opts <=? _) eqn:Hfull; bools; [|by apply insert_ok; [..|by right]].
    pose proof (filter_ok now t Hok) as Hok1. destruct (maxBuckets opts <=? _) eqn:Hfull1; bools; [done|].
    by apply insert_ok; [..|by right].
Qed.

Lemma throttle_step_ok t now op :
  1 <= maxFailures opts -> throttle_ok t -> throttle_ok (throttle_step t now op).
Proof.
  intros Hmax Hok. destruct op as [f e ip good|]; [|by apply filter_ok].
  cbn [throttle_step]. destruct (check_spec t now f e ip) as (Hdec & Hbs & _).
  destruct (keysFor_eq f e ip) as (a & i & Hk & Hne & Ha).
  destruct (check opts t now f e ip) as [t1 decision]. cbn [fst snd] in *.
  assert (Hsub : lt_buckets t1 ⊆ lt_buckets t).
  { apply map_subseteq_spec. intros k b Hkb. rewrite Hbs in Hkb. destruct (lt_buckets t !! k); [|done].
    by destruct (_ && _). }
  assert (Hok1 : throttle_ok t1).
  { destruct Hok as [Hs Hf]. split.
    - etransitivity; [|exact Hs]. by apply inj_le, map_subseteq_size.
    - intros k b Hkb. apply (Hf k). by eapply lookup_weaken. }
  destruct decision as [n|]; [done|]. destruct good.
  - destruct Hok1 as [Hs1 Hf1]. unfold recordSuccess. split; cbn.
    + etransitivity; [|exact Hs1]. apply inj_le, map_subseteq_size, delete_subseteq.
    + intros k b Hkb. apply lookup_delete_Some in Hkb as [_ Hkb]. by apply (Hf1 k).
  - assert (Hroom : forall key, key ∈ keysFor f e ip -> forall b, lt_buckets t1 !! key = Some b ->
               now < b_reset_at b -> b_failures b < maxFailures opts).
    { intros key Hin b Hb Hlive. destruct (decide (maxFailures opts <= b_failures b)); [|lia]. exfalso.
      assert (Hx : is_Some (None : option Z)); [|by destruct Hx].
      apply Hdec. exists key, b. split; [done|]. split; [by eapply lookup_weaken|done]. }
    unfold recordFailure. rewrite Hk in *. cbn [foldl].
    apply fail_key_ok; [done| |].
    + apply fail_key_ok; [done|done|]. apply Hroom. by left.
    + intros b Hb. apply fail_key_other_inv in Hb; [|done]. revert b Hb. apply Hroom. right. by left.
Qed.

(** A full live bucket stays as it is until its window ends. *)
Lemma throttle_step_blocked t now op k b :
  lt_buckets t !! k = Some b -> blocking now b -> lt_buckets (throttle_step t now op) !! k = Some b.
Proof.
  intros Hk [Hlive Hfull]. destruct op as [f e ip good|].
  - cbn [throttle_step]. destruct (check_spec t now f e ip) as (Hdec & Hbs & _).
    destruct (keysFor_eq f e ip) as (a & i & Hks & _ & Ha).
    destruct (check opts t now f e ip) as [t1 decision]. cbn [fst snd] in *.
    assert (Hk1 : lt_buckets t1 !! k = Some b).
    { rewrite Hbs, Hk. by rewrite (proj2 (Z.leb_gt _ _) Hlive), andb_false_r. }
    destruct decision as [n|]; [done|].
    assert (Hnin : k ∉ keysFor f e ip).
    { intros Hin. assert (Hx : is_Some (None : option Z)); [|by destruct Hx]. apply Hdec. by exists k, b. }
    rewrite Hks in Hnin. destruct good.
    + cbn [recordSuccess lt_buckets]. rewrite Ha, lookup_delete_ne; [done|]. set_solver.
    + unfold recordFailure. rewrite Hks. cbn [foldl].
      apply fail_key_other; [set_solver| |done]. apply fail_key_other; [set_solver|done|done].
  - cbn. by apply map_lookup_filter_Some.
Qed.

Lemma throttle_run_ok tr t :
  1 <= maxFailures opts -> throttle_ok t -> throttle_ok (throttle_run t tr).
Proof.
  intros Hmax. revert t. induction tr as [|[now op] tr IH]; intros t Hok; [done|].
  by apply IH, throttle_step_ok.
Qed.

Lemma throttle_run_blocked tr t0 t1 t k b :
  lt_buckets t !! k = Some b -> maxFailures opts <= b_failures b ->
  throttle_timed t0 tr t1 -> t1 < b_reset_at b -> lt_buckets (throttle_run t tr) !! k = Some b.
Proof.
  intros Hk Hfull. revert t t0 Hk. induction tr as [|[now op] tr IH]; intros t t0 Hk Ht Hlt; [done|].
  destruct Ht as [_ Ht]. cbn [throttle_run]. apply (IH _ now); [|done|done].
  apply throttle_step_blocked; [done|]. split; [|done].
  assert (Hle : forall tr now, throttle_timed now tr t1 -> now <= t1).
  { clear. induction tr as [|[u op] tr IH]; intros now; cbn; [done|]. intros [? ?%IH]. lia. }
  apply Hle in Ht. lia.
Qed.
End Throttle.

Definition empty_throttle : LoginThrottle := MkThrottle ∅ false.

(** The login throttle, over any trace of login attempts and sweeps. It never
    counts more failures in a window than the configured maximum, and never holds
    more buckets than its cap. An attempt is refused exactly when the account or
    the address it comes from has a full bucket whose window is still open. A full
    bucket stays full until its window ends, whatever succeeds, fails or is swept
    in the meantime: neither a sweep nor a login resets it early. *)
Theorem login_throttle_exact opts tr :
  1 <= maxFailures opts -> 0 <= maxBuckets opts ->
  let t := throttle_run opts empty_throttle tr in
  (Z.of_nat (size (lt_buckets t)) <= maxBuckets opts /\
   forall k b, lt_buckets t !! k = Some b -> b_failures b <= maxFailures opts) /\
  (forall now f e ip, is_Some (snd (check opts t now f e ip)) <->
     exists key b, key ∈ keysFor f e ip /\ lt_buckets t !! key = Some b /\ blocking opts now b) /\
  (forall k b t0 tr2 t1, lt_buckets t !! k = Some b -> maxFailures opts <= b_failures b ->
     throttle_timed t0 tr2 t1 -> t1 < b_reset_at b ->
     lt_buckets (throttle_run opts t tr2) !! k = Some b).
Proof.
  intros Hmax Hb. cbv zeta. split; [|split].
  - apply throttle_run_ok; [done|]. split; cbn; [done|]. by intros k b.
  - intros now f e ip. apply check_spec.
  - intros k b t0 tr2 t1. apply throttle_run_blocked.
Qed.

Definition demo_opts : ThrottleOptions := MkThrottleOptions 2 900 50.
Definition demo_guesses : list (Z * throttle_op) :=
  [(1000, TAttempt "fleet" "a@b" "10.0.0.1" false); (2000, TAttempt "fleet" "a@b" "10.0.0.2" false)].

Lemma login_throttle_exact_witness :
  exists b, lt_buckets (throttle_run demo_opts empty_throttle demo_guesses) !! "acct:fleet|a@b" = Some b /\
    lt_buckets (throttle_run demo_opts (throttle_run demo_opts empty_throttle demo_guesses)
      [(3000, TAttempt "fleet" "a@b" "10.0.0.3" true); (4000, TSweep)]) !! "acct:fleet|a@b" = Some b.
Proof.
  assert (H1 : 1 <= maxFailures demo_opts) by (cbn; lia).
  assert (H2 : 0 <= maxBuckets demo_opts) by (cbn; lia).
  assert (Hb : exists b, lt_buckets (throttle_run demo_opts empty_throttle demo_guesses) !! "acct:fleet|a@b" = Some b /\
    maxFailures demo_opts <= b_failures b /\ 5000 < b_reset_at b).
  { eexists. split; [vm_compute; reflexivity|]. cbn. lia. }
  destruct Hb as (b & Hb & Hf & Hr). exists b. split; [exact Hb|].
  destruct (login_throttle_exact demo_opts demo_guesses H1 H2) as (_ & _ & H).
  refine (H "acct:fleet|a@b" b 2000 _ 5000 Hb Hf _ Hr). cbn. lia.
Defined.

(** What the throttle gives up when its bucket table is full of live buckets:
    a failure on an account and an address it does not track yet is not counted
    against either, so an attacker from a new address is not slowed down at all.
    The tracked accounts and addresses stay throttled. *)
Theorem full_throttle_counts_no_new_address opts t now f e ip :
  maxBuckets opts <= Z.of_nat (size (lt_buckets t)) ->
  (forall k b, lt_buckets t !! k = Some b -> now < b_reset_at b) ->
  (forall k, k ∈ keysFor f e ip -> lt_buckets t !! k = None) ->
  snd (check opts t now f e ip) = None /\
  let t' := recordFailure opts t now f e ip in
  lt_buckets t' = lt_buckets t /\ lt_overflowed t' = true /\ snd (check opts t' now f e ip) = None.
Proof.
  intros Hfull Hlive Hnew.
  assert (Hnone : forall t', lt_buckets t' = lt_buckets t -> snd (check opts t' now f e ip) = None).
  { intros t' Ht'. destruct (check_spec opts t' now f e ip) as [Hdec _].
    destruct (snd (check opts t' now f e ip)) as [n|]; [|done]. exfalso.
    destruct (proj1 Hdec ltac:(by eexists)) as (key & b & Hin & Hb & _). rewrite Ht', Hnew in Hb; done. }
  assert (Hsweep : sweep_buckets now (lt_buckets t) = lt_buckets t).
  { unfold sweep_buckets. apply map_filter_id. intros k b Hk. by apply (Hlive k). }
  assert (Hkey : forall t' key, lt_buckets t' = lt_buckets t -> lt_buckets t !! key = None ->
    fail_key opts now t' key = MkThrottle (lt_buckets t) true).
  { intros t' key Ht' Hk. unfold fail_key. rewrite Ht', Hk, (proj2 (Z.leb_le _ _) Hfull).
    unfold sweep. cbn. by rewrite Ht', Hsweep, (proj2 (Z.leb_le _ _) Hfull). }
  split; [by apply Hnone|]. destruct (keysFor_eq f e ip) as (a & i & Hk & _).
  unfold recordFailure. rewrite Hk in *. cbn [foldl].
  rewrite (Hkey t a) by (try done; apply Hnew; by left).
  rewrite (Hkey _ i) by (try done; apply Hnew; right; by left).
  split; [done|]. split; [done|]. by apply Hnone.
Qed.

Lemma full_throttle_counts_no_new_address_witness :
  let opts := MkThrottleOptions 2 900 2 in
  let t := recordFailure opts empty_throttle 1000 "fleet" "a@b" "10.0.0.1" in
  let t' := recordFailure opts t 2000 "fleet" "c@d" "10.0.0.2" in
  lt_buckets t' = lt_buckets t /\ lt_overflowed t' = true /\
  snd (check opts t' 2000 "fleet" "c@d" "10.0.0.2") = None.
Proof.
  set (opts := MkThrottleOptions 2 900 2).
  set (t := recordFailure opts empty_throttle 1000 "fleet" "a@b" "10.0.0.1").
  assert (Hsize : maxBuckets opts <= Z.of_nat (size (lt_buckets t))) by (vm_compute; discriminate).
  assert (Hlive : forall k b, lt_buckets t !! k = Some b -> 2000 < b_reset_at b).
  { assert (Hall : map_Forall (fun _ b => 2000 < b_reset_at b) (lt_buckets t))
      by (apply (bool_decide_unpack _); vm_compute; exact I).
    intros k b Hk. exact (Hall k b Hk). }
  assert (Hnew : forall k, k ∈ keysFor "fleet" "c@d" "10.0.0.2" -> lt_buckets t !! k = None).
  { intros k Hk. repeat (apply elem_of_cons in Hk as [->|Hk]; [vm_compute; reflexivity|]).
    by apply elem_of_nil in Hk. }
  exact (proj2 (full_throttle_counts_no_new_address opts t 2000 "fleet" "c@d" "10.0.0.2" Hsize Hlive Hnew)).
Defined.
