(* ===== verification/TrustSync.v ===== *)
(** * The agents' trust root

    [packages/sdk/src/identity/verification.ts], the pin sync: which operator keys
    an agent trusts, and what a relay's inbox may change about that.  Pins are
    added by an endorsement a pinned key signed (or, once, on first contact),
    removed and restored by a signed instruction only.  Also the throttle of the
    advisory warnings. *)

From S2P Require Import Prelude Json IsoTime JsValues Identity.
Import Ascii String.
Open Scope string_scope.
Open Scope Z_scope.

(** ** Data *)

(** [OperatorKeyEntryLike]: what the relay says of an operator key.  [null] and a
    missing field are [None]. *)
Record OperatorKeyEntry := MkKeyEntry {
  oe_key_id : option string;
  oe_public_key : option string;
  oe_revoked : bool;
  oe_endorsed_by_key_id : option string;
  oe_endorsement_sig : option string;
  oe_revocation_sig : option string;
  oe_revoked_at : option string;
  oe_unrevoke_sig : option string;
  oe_unrevoke_revoked_at : option string;
  oe_unrevoke_issued_at : option string;
  oe_unrevoke_nonce : option string
}.

(** Why a key is pinned here. *)
Inductive OperatorKeyAdmission :=
  | ByTofu (admitted_at : string)
  | ByChain (endorsed_by_key_id endorsement_sig admitted_at : string).

(** The identity file.  An absent ledger is an empty one. *)
Record EkhoIdentity := MkEkhoIdentity {
  id_seedHex : string;
  id_pinned : gmap string string;
  id_tofuAt : option string;
  id_revoked : gmap string string;
  id_admissions : gmap string OperatorKeyAdmission
}.

(** The object's own [m[k]], absent and empty being the same. *)
Definition own (m : gmap string string) (k : string) : option string := truthy (m !! k).

(** [m[k]] where the source tests it for truth.  The id is whatever the relay
    serves, and an inherited property is truthy unless the object has its own. *)
Definition truthy_at {V} (own_truthy : V -> bool) (m : gmap string V) (k : string) : bool :=
  match m !! k with Some v => own_truthy v | None => inherited k end.

Definition holds (m : gmap string string) (k : string) : bool := truthy_at (fun v => negb (v ==? "")) m k.
Definition admission_at (m : gmap string OperatorKeyAdmission) (k : string) : bool := truthy_at (fun _ => true) m k.

(** The maps [applyRelayKeyClaims] changes in place, with what it reports. *)
Record Claims := MkClaims {
  cl_pinned : gmap string string;
  cl_ledger : gmap string string;
  cl_admissions : gmap string OperatorKeyAdmission;
  cl_advisory : gset string;
  cl_pinRemoved : bool;
  cl_ledgerChanged : bool;
  cl_admissionsChanged : bool
}.

Section Sync.
Context `{Crypto}.

(** Some key of the frozen snapshot signed the payload. *)
Definition signedByAPinnedKey (authorities : gmap string string) (payload : json) (sig : string) : bool :=
  existsb (fun kv => verifyCanonical payload sig (fromB64url (snd kv))) (map_to_list authorities).

Section Claims.
Context (authorities : gmap string string) (fleetId : option string).

(** ** Signed un-revocations *)

(** One entry of [clearTombstonesOnSignedUnrevoke]. *)
Definition unrevoke_step (c : Claims) (k : OperatorKeyEntry) : Claims :=
  match truthy (oe_key_id k), truthy (oe_unrevoke_sig k) with
  | Some kid, Some sig =>
      match own (cl_ledger c) kid,
            truthy (oe_unrevoke_revoked_at k), truthy (oe_unrevoke_issued_at k),
            truthy (oe_unrevoke_nonce k), truthy fleetId with
      | Some standing, Some revokedAt, Some issuedAt, Some nonce, Some fleet =>
          match unrevokePayload fleet kid revokedAt issuedAt nonce with
          | Some payload =>
              if signedByAPinnedKey authorities payload sig && (revokedAt ==? standing)
              then MkClaims (cl_pinned c) (delete kid (cl_ledger c)) (cl_admissions c) (cl_advisory c)
                     (cl_pinRemoved c) true (cl_admissionsChanged c)
              else c
          | None => c
          end
      | _, _, _, _, _ => c
      end
  | _, _ => c
  end.

Definition clearTombstonesOnSignedUnrevoke (es : list OperatorKeyEntry) (c : Claims) : Claims :=
  foldl unrevoke_step c es.

(** ** Signed revocations *)

Definition noteAdvisoryClaim (c : Claims) (kid : string) : Claims :=
  MkClaims (cl_pinned c) (cl_ledger c) (cl_admissions c) ({[kid]} ∪ cl_advisory c)
    (cl_pinRemoved c) (cl_ledgerChanged c) (cl_admissionsChanged c).

Definition isLastPinnedKey (c : Claims) (kid : string) : bool :=
  holds (cl_pinned c) kid && (size (cl_pinned c) =? 1)%nat.

(** Tombstone, then unpin. *)
Definition dropRevokedKey (c : Claims) (kid at_ : string) : Claims :=
  let fresh := negb (holds (cl_ledger c) kid) in
  let was_pinned := holds (cl_pinned c) kid in
  let was_admitted := admission_at (cl_admissions c) kid in
  MkClaims
    (if was_pinned then delete kid (cl_pinned c) else cl_pinned c)
    (if fresh then <[kid := at_]> (cl_ledger c) else cl_ledger c)
    (if was_admitted then delete kid (cl_admissions c) else cl_admissions c)
    (cl_advisory c)
    (was_pinned || cl_pinRemoved c) (fresh || cl_ledgerChanged c)
    (was_admitted || cl_admissionsChanged c).

(** The time of a revocation of [kid] the entry proves. *)
Definition proven_revocation (k : OperatorKeyEntry) (kid : string) : option string :=
  match truthy (oe_revocation_sig k), truthy (oe_revoked_at k), truthy fleetId with
  | Some sig, Some at_, Some fleet =>
      if signedByAPinnedKey authorities (revocationPayload fleet kid at_) sig then Some at_ else None
  | _, _, _ => None
  end.

(** One entry of [applySignedRevocations]. *)
Definition revocation_step (c : Claims) (k : OperatorKeyEntry) : Claims :=
  match truthy (oe_key_id k) with
  | Some kid =>
      if negb (oe_revoked k) then c
      else match proven_revocation k kid with
           | None => noteAdvisoryClaim c kid
           | Some at_ => if isLastPinnedKey c kid then c else dropRevokedKey c kid at_
           end
  | None => c
  end.

Definition applySignedRevocations (es : list OperatorKeyEntry) (c : Claims) : Claims :=
  foldl revocation_step c es.

Definition applyRelayKeyClaims (es : list OperatorKeyEntry) (c : Claims) : Claims :=
  applySignedRevocations es (clearTombstonesOnSignedUnrevoke es c).

(** ** Adoption *)

(** One entry of the first-contact loop: the pins, the admissions and whether
    anything was adopted. *)
Definition tofu_step (now : string) (c : Claims)
    (acc : gmap string string * gmap string OperatorKeyAdmission * bool) (k : OperatorKeyEntry)
    : gmap string string * gmap string OperatorKeyAdmission * bool :=
  let '(pinned, admissions, adopted) := acc in
  match truthy (oe_key_id k), truthy (oe_public_key k) with
  | Some kid, Some pub =>
      if negb (bool_decide (kid ∈ cl_advisory c)) && negb (holds (cl_ledger c) kid)
      then (<[kid := pub]> pinned, <[kid := ByTofu now]> admissions, true)
      else acc
  | _, _ => acc
  end.

(** One entry of the endorsement loop: the pins, the admissions and whether they
    changed.  [None]: the endorser's name is that of an inherited property, and
    [fromB64url] throws on its value. *)
Definition chain_step (now : string) (c : Claims)
    (acc : gmap string string * gmap string OperatorKeyAdmission * bool) (k : OperatorKeyEntry)
    : option (gmap string string * gmap string OperatorKeyAdmission * bool) :=
  let '(pinned, admissions, adopted) := acc in
  match truthy (oe_key_id k) with
  | None => Some acc
  | Some kid =>
      if holds pinned kid then Some acc
      else if holds (cl_ledger c) kid then Some acc
      else if bool_decide (kid ∈ cl_advisory c) then Some acc
      else match truthy (oe_endorsed_by_key_id k), truthy (oe_endorsement_sig k),
                 truthy (oe_public_key k), truthy fleetId with
           | Some endorser, Some esig, Some pub, Some fleet =>
               match own pinned endorser with
               | Some epub =>
                   Some (if verifyCanonical (endorsementPayload fleet kid pub) esig (fromB64url epub)
                         then (<[kid := pub]> pinned, <[kid := ByChain endorser esig now]> admissions, true)
                         else acc)
               | None => if holds pinned endorser then None else Some acc
               end
           | _, _, _, _ => Some acc
           end
  end.

(** The loop, which a throw ends. *)
Fixpoint chain_loop (now : string) (c : Claims) (es : list OperatorKeyEntry)
    (acc : gmap string string * gmap string OperatorKeyAdmission * bool)
    : option (gmap string string * gmap string OperatorKeyAdmission * bool) :=
  match es with
  | [] => Some acc
  | k :: rest => chain_step now c acc k ≫= chain_loop now c rest
  end.
End Claims.

(** ** The sync *)

(** The identity after the sync and what it returns: whether the identity must be
    persisted, or [None] when it throws, which it does between its writes: the
    tombstones are in place by then and the pins are not.  [now] stands for the
    readings of the clock, which only date the admissions. *)
Definition syncPinnedOperatorKeys (now : string) (identity : EkhoIdentity)
    (operatorKeys : list OperatorKeyEntry) (fleetId : option string) : EkhoIdentity * option bool :=
  let authorities := id_pinned identity in
  let c := applyRelayKeyClaims authorities fleetId operatorKeys
             (MkClaims (id_pinned identity) (id_revoked identity) (id_admissions identity) ∅
                false false false) in
  let changed := cl_pinRemoved c || cl_ledgerChanged c in
  let ledger := if cl_ledgerChanged c then cl_ledger c else id_revoked identity in
  let '(tofu_pins, tofu_admissions, adopted) :=
    if (size (cl_pinned c) =? 0)%nat && (truthy (id_tofuAt identity) ==? None)
    then foldl (tofu_step now c) (cl_pinned c, cl_admissions c, false) operatorKeys
    else (cl_pinned c, cl_admissions c, false) in
  if adopted
  then (MkEkhoIdentity (id_seedHex identity) tofu_pins (Some now) ledger tofu_admissions, Some true)
  else
    match chain_loop fleetId now c operatorKeys (cl_pinned c, cl_admissions c, false) with
    | None =>
        (MkEkhoIdentity (id_seedHex identity) (id_pinned identity) (id_tofuAt identity) ledger
           (id_admissions identity), None)
    | Some (pinned, admissions, chained) =>
        let admissionsChanged := cl_admissionsChanged c || chained in
        let changed := changed || chained in
        (MkEkhoIdentity (id_seedHex identity)
           (if changed then pinned else id_pinned identity) (id_tofuAt identity) ledger
           (if admissionsChanged then admissions else id_admissions identity),
         Some (changed || admissionsChanged))
    end.
End Sync.

(** ** Advisory warnings

    A revocation the relay claims and cannot prove changes nothing, and is logged:
    once per set of keys, then once every [SUMMARY_EVERY] identical polls.  The
    state is one [Map] of the process, from the scope (identity and fleet) to the
    last set reported; a [Map] iterates in insertion order. *)

Definition ADVISORY_REVOCATION_WARNING_SUMMARY_EVERY : Z := 120.
Definition ADVISORY_REVOCATION_WARNING_MAX_SCOPES : nat := 64.

Record AdvisoryWarnEntry := MkWarnEntry { aw_fingerprint : string; aw_suppressed : Z }.

Definition AdvisoryWarnByScope := list (string * AdvisoryWarnEntry).

(** What is logged: the warning, or the reminder with its count. *)
Inductive AdvisoryWarning :=
  | AdvisoryFirst (kids : list string)
  | AdvisorySummary (kids : list string) (suppressed : Z).

Definition forget_scope (scopeKey : string) (st : AdvisoryWarnByScope) : AdvisoryWarnByScope :=
  delete_where (fun kv => fst kv ==? scopeKey) st.

(** The eviction loop: the oldest scope goes while there are too many. *)
Fixpoint evict_scopes (scopeKey : string) (st : AdvisoryWarnByScope) : AdvisoryWarnByScope :=
  match st with
  | [] => []
  | (oldest, _) :: rest =>
      if (length st <=? ADVISORY_REVOCATION_WARNING_MAX_SCOPES)%nat then st
      else if oldest ==? scopeKey then st
      else evict_scopes scopeKey rest
  end.

Definition touchAdvisoryScope (scopeKey : string) (entry : AdvisoryWarnEntry) (st : AdvisoryWarnByScope)
    : AdvisoryWarnByScope :=
  evict_scopes scopeKey (forget_scope scopeKey st ++ [(scopeKey, entry)])%list.

Definition scope_entry (scopeKey : string) (st : AdvisoryWarnByScope) : option AdvisoryWarnEntry :=
  snd <$> select_one (fun kv => fst kv ==? scopeKey) st.

Definition advisory_fingerprint `{NodeCrypto} (advisory : gset string) : string :=
  node_sha256 (canonicalize (jlist (sort_strings (elements advisory)))).

Definition warnAdvisoryRevocations `{NodeCrypto} (st : AdvisoryWarnByScope) (scopeKey : string)
    (advisory : gset string) : AdvisoryWarnByScope * option AdvisoryWarning :=
  if (size advisory =? 0)%nat then (forget_scope scopeKey st, None)
  else
    let kids := sort_strings (elements advisory) in
    let fingerprint := advisory_fingerprint advisory in
    let first := (touchAdvisoryScope scopeKey (MkWarnEntry fingerprint 0) st, Some (AdvisoryFirst kids)) in
    match scope_entry scopeKey st with
    | None => first
    | Some prev =>
        if negb (aw_fingerprint prev ==? fingerprint) then first
        else
          let suppressed := aw_suppressed prev + 1 in
          if ADVISORY_REVOCATION_WARNING_SUMMARY_EVERY <=? suppressed
          then (touchAdvisoryScope scopeKey (MkWarnEntry fingerprint 0) st,
                Some (AdvisorySummary kids suppressed))
          else (update_where (fun kv => fst kv ==? scopeKey)
                  (fun kv => (fst kv, MkWarnEntry (aw_fingerprint prev) suppressed)) st, None)
    end.
