(* ===== verification/TrustSafety.v ===== *)
(** * Safety of the agents' trust root

    What one sync may do to the pins and the tombstones, phase by phase, and the
    rule ([Rooted]) that says which keys a chain of endorsements leads to. *)

From S2P Require Import Prelude Json IsoTime JsValues Identity TrustSync.
Import Ascii String.
Open Scope string_scope.
Open Scope Z_scope.

Lemma own_Some m k v : own m k = Some v <-> m !! k = Some v /\ v <> "".
Proof. apply truthy_Some. Qed.

Lemma own_insert m k v k' : own (<[k := v]> m) k' = if decide (k' = k) then truthy (Some v) else own m k'.
Proof.
  unfold own. destruct (decide (k' = k)) as [->|Hn]; [by rewrite lookup_insert_eq|].
  by rewrite lookup_insert_ne by congruence.
Qed.

Lemma own_delete m k k' : own (delete k m) k' = if decide (k' = k) then None else own m k'.
Proof.
  unfold own. destruct (decide (k' = k)) as [->|Hn]; [by rewrite lookup_delete_eq|].
  by rewrite lookup_delete_ne by congruence.
Qed.

Lemma holds_own m k : own m k <> None -> holds m k = true.
Proof. unfold own, holds, truthy_at, truthy. destruct (m !! k) as [v|]; [|done]. by destruct (bool_decide (v = "")). Qed.

Lemma holds_false m k : holds m k = false -> own m k = None.
Proof. intros Hh. destruct (own m k) eqn:Ho; [|done]. by rewrite holds_own in Hh by congruence. Qed.

(** Without an own value only an inherited name holds. *)
Lemma holds_inherited m k : own m k = None -> holds m k = true -> m !! k = None /\ inherited k = true.
Proof. unfold own, holds, truthy_at, truthy. destruct (m !! k) as [v|]; [|done]. by destruct (bool_decide (v = "")). Qed.

Lemma holds_ext m1 m2 k : m1 !! k = m2 !! k -> holds m1 k = holds m2 k.
Proof. unfold holds, truthy_at. by intros ->. Qed.

Lemma holds_insert m k v : v <> "" -> holds (<[k := v]> m) k = true.
Proof. intros Hv. unfold holds, truthy_at. by rewrite lookup_insert_eq, bool_decide_false. Qed.

(** A property every entry's step keeps holds after the loop. *)
Lemma foldl_inv {A B} (P : A -> Prop) (f : A -> B -> A) l a :
  P a -> (forall x b, b ∈ l -> P x -> P (f x b)) -> P (foldl f a l).
Proof.
  revert a. induction l as [|b l IH]; simpl; intros a Ha Hf; [done|].
  apply IH; [apply Hf; [by left|done]|]. intros x c Hc. apply Hf. by right.
Qed.

(** An entry whose endorser has the name of an inherited property. *)
Definition names_inherited (es : list OperatorKeyEntry) : Prop :=
  Exists (fun e => inherited (default "" (oe_endorsed_by_key_id e)) = true) es.

#[export] Instance names_inherited_dec es : Decision (names_inherited es).
Proof. unfold names_inherited. apply _. Defined.

Section Safety.
Context `{Crypto}.

(** Some key among [pins] signed [payload]. *)
Definition signed_by_pin (pins : gmap string string) (payload : json) (sig : string) : Prop :=
  exists k pub, pins !! k = Some pub /\ verifyCanonical payload sig (fromB64url pub) = true.

Lemma signedByAPinnedKey_iff pins payload sig :
  signedByAPinnedKey pins payload sig = true <-> signed_by_pin pins payload sig.
Proof.
  unfold signedByAPinnedKey, signed_by_pin. rewrite existsb_exists. split.
  - intros ([k pub] & Hin%list_elem_of_In%elem_of_map_to_list & Hv). by exists k, pub.
  - intros (k & pub & Hk & Hv). exists (k, pub). split; [|done].
    by apply list_elem_of_In, elem_of_map_to_list.
Qed.

(** ** The claims an entry may make *)

(** The relay serves a signed un-revocation of the tombstone [t] of [k]. *)
Definition serves_unrevocation (pins : gmap string string) (fleet : option string)
    (es : list OperatorKeyEntry) (k t : string) : Prop :=
  exists e sig issuedAt nonce fl payload, e ∈ es /\ oe_key_id e = Some k /\ fleet = Some fl /\
    oe_unrevoke_sig e = Some sig /\
    unrevokePayload fl k t issuedAt nonce = Some payload /\ signed_by_pin pins payload sig.

(** It serves a signed revocation of [k] at [t]. *)
Definition serves_revocation (pins : gmap string string) (fleet : option string)
    (es : list OperatorKeyEntry) (k t : string) : Prop :=
  exists e sig fl, e ∈ es /\ oe_key_id e = Some k /\ oe_revoked e = true /\ fleet = Some fl /\
    oe_revocation_sig e = Some sig /\ t <> "" /\ signed_by_pin pins (revocationPayload fl k t) sig.

Lemma proven_revocation_Some pins fleet e k t :
  proven_revocation pins fleet e k = Some t ->
  exists sig fl, fleet = Some fl /\ oe_revocation_sig e = Some sig /\ oe_revoked_at e = Some t /\ t <> "" /\
    signed_by_pin pins (revocationPayload fl k t) sig.
Proof.
  unfold proven_revocation.
  destruct (truthy (oe_revocation_sig e)) as [sig|] eqn:Hs; [|done].
  destruct (truthy (oe_revoked_at e)) as [a|] eqn:Ha; [|done].
  destruct (truthy fleet) as [fl|] eqn:Hf; [|done].
  destruct (signedByAPinnedKey _ _ _) eqn:Hsig; [|done]. intros [= <-].
  apply truthy_Some in Hs as [Hs _], Ha as [Ha Hne], Hf as [Hf _].
  apply signedByAPinnedKey_iff in Hsig. by exists sig, fl.
Qed.

Section Phases.
Context (pins : gmap string string) (fleet : option string) (es : list OperatorKeyEntry).

(** ** Un-revocations *)

Record unrevoked (c0 c : Claims) : Prop := {
  un_pinned : cl_pinned c = cl_pinned c0;
  un_admissions : cl_admissions c = cl_admissions c0;
  un_advisory : cl_advisory c = cl_advisory c0;
  un_pinRemoved : cl_pinRemoved c = cl_pinRemoved c0;
  un_admissionsChanged : cl_admissionsChanged c = cl_admissionsChanged c0;
  un_sub : cl_ledger c ⊆ cl_ledger c0;
  un_proof k t : cl_ledger c0 !! k = Some t ->
    cl_ledger c !! k = Some t \/ serves_unrevocation pins fleet es k t;
  un_changed : cl_ledgerChanged c = false -> cl_ledger c = cl_ledger c0 /\ cl_ledgerChanged c0 = false
}.

Lemma unrevoked_refl c : unrevoked c c.
Proof. constructor; try done. by left. Qed.

Lemma unrevoke_step_spec c0 c e : e ∈ es -> unrevoked c0 c -> unrevoked c0 (unrevoke_step pins fleet c e).
Proof.
  intros He Hc. unfold unrevoke_step.
  destruct (truthy (oe_key_id e)) as [kid|] eqn:Hk; [|done].
  destruct (truthy (oe_unrevoke_sig e)) as [sig|] eqn:Hs; [|done].
  destruct (own (cl_ledger c) kid) as [t|] eqn:Ht; [|done].
  destruct (truthy (oe_unrevoke_revoked_at e)) as [r|]; [|done].
  destruct (truthy (oe_unrevoke_issued_at e)) as [i|]; [|done].
  destruct (truthy (oe_unrevoke_nonce e)) as [n|]; [|done].
  destruct (truthy fleet) as [fl|] eqn:Hf; [|done].
  destruct (unrevokePayload fl kid r i n) as [payload|] eqn:Hp; [|done].
  destruct (signedByAPinnedKey pins payload sig) eqn:Hsig; [|done].
  destruct (bool_decide_reflect (r = t)) as [->|]; [simpl|done].
  apply truthy_Some in Hk as [Hk _], Hs as [Hs _], Hf as [Hf _]. apply own_Some in Ht as [Ht _].
  apply signedByAPinnedKey_iff in Hsig. destruct Hc as [? ? ? ? ? Hsub Hpr ?].
  constructor; simpl; try done.
  - etrans; [apply delete_subseteq|done].
  - intros k t' Hk'. destruct (decide (k = kid)) as [->|Hn].
    + right. assert (t' = t) as -> by (apply (lookup_weaken _ _ _ _ Ht) in Hsub; congruence).
      by exists e, sig, i, n, fl, payload.
    + rewrite lookup_delete_ne by congruence. by apply Hpr.
Qed.

Lemma clearTombstones_spec c : unrevoked c (clearTombstonesOnSignedUnrevoke pins fleet es c).
Proof.
  unfold clearTombstonesOnSignedUnrevoke. apply foldl_inv; [apply unrevoked_refl|].
  intros c' e He. by apply unrevoke_step_spec.
Qed.

(** ** Revocations *)

Record revoked (c0 c : Claims) : Prop := {
  re_sub : cl_pinned c ⊆ cl_pinned c0;
  re_proof k pub : own (cl_pinned c0) k = Some pub ->
    cl_pinned c !! k = Some pub \/
    (holds (cl_ledger c) k = true /\ exists t, serves_revocation pins fleet es k t);
  re_keeps k t : own (cl_ledger c0) k = Some t -> cl_ledger c !! k = Some t;
  re_ledger k t : cl_ledger c !! k = Some t ->
    cl_ledger c0 !! k = Some t \/ serves_revocation pins fleet es k t;
  re_nonempty : cl_pinned c = ∅ -> cl_pinned c0 = ∅;
  re_disjoint : (forall k, own (cl_pinned c0) k = None \/ own (cl_ledger c0) k = None) ->
    forall k, own (cl_pinned c) k = None \/ own (cl_ledger c) k = None;
  re_pinRemoved : cl_pinRemoved c = false -> cl_pinned c = cl_pinned c0;
  re_ledgerChanged : cl_ledgerChanged c = false ->
    cl_ledger c = cl_ledger c0 /\ cl_ledgerChanged c0 = false;
  re_admissionsChanged : cl_admissionsChanged c = false -> cl_admissions c = cl_admissions c0
}.

Lemma revoked_refl c : revoked c c.
Proof.
  constructor; auto.
  - intros k pub [Hk _]%own_Some. by left.
  - by intros k t [Hk _]%own_Some.
Qed.

(** The drop of one key: it is tombstoned and no longer pinned, other keys are as
    they were. *)
Lemma dropRevokedKey_spec c k t k' : t <> "" ->
  holds (cl_ledger (dropRevokedKey c k t)) k = true /\
  own (cl_pinned (dropRevokedKey c k t)) k = None /\
  (k' <> k -> cl_pinned (dropRevokedKey c k t) !! k' = cl_pinned c !! k' /\
              cl_ledger (dropRevokedKey c k t) !! k' = cl_ledger c !! k') /\
  (forall s, own (cl_ledger c) k = Some s -> cl_ledger (dropRevokedKey c k t) !! k = Some s) /\
  (forall s, cl_ledger (dropRevokedKey c k t) !! k = Some s -> cl_ledger c !! k = Some s \/ s = t).
Proof.
  intros Ht. unfold dropRevokedKey; simpl. split_and!.
  - destruct (holds (cl_ledger c) k) eqn:Hh; [done|]. by apply holds_insert.
  - destruct (holds (cl_pinned c) k) eqn:Hh; [|by apply holds_false]. rewrite own_delete. by destruct (decide (k = k)).
  - intros Hn. split; destruct (holds _ _); simpl; try done;
      [by rewrite lookup_delete_ne by congruence|by rewrite lookup_insert_ne by congruence].
  - intros s Hs. rewrite holds_own by congruence. by apply own_Some in Hs as [? _].
  - intros s. destruct (holds _ _); simpl; [by left|]. rewrite lookup_insert_eq. intros [= ->]. by right.
Qed.
Lemma drop_pinned_sub c k t : cl_pinned (dropRevokedKey c k t) ⊆ cl_pinned c.
Proof. unfold dropRevokedKey; simpl. destruct (holds _ _); simpl; [apply delete_subseteq|done]. Qed.

(** A drop that is not the last pin's leaves a pin. *)
Lemma drop_nonempty c k t :
  isLastPinnedKey c k = false -> cl_pinned (dropRevokedKey c k t) = ∅ -> cl_pinned c = ∅.
Proof.
  unfold isLastPinnedKey, dropRevokedKey; simpl. destruct (holds (cl_pinned c) k) eqn:Hp; simpl; [|done].
  intros Hsz%Nat.eqb_neq Hd. destruct (cl_pinned c !! k) as [pub|] eqn:Hk; [|by rewrite delete_id in Hd].
  exfalso. assert (size (delete k (cl_pinned c)) = pred (size (cl_pinned c))) as He
    by by apply map_size_delete_Some.
  rewrite Hd, map_size_empty in He.
  assert (size (cl_pinned c) <> 0%nat) by (intros H0; apply map_size_empty_inv in H0; by rewrite H0, lookup_empty in Hk).
  lia.
Qed.

Lemma drop_spec c0 c k t :
  t <> "" -> serves_revocation pins fleet es k t -> isLastPinnedKey c k = false ->
  revoked c0 c -> revoked c0 (dropRevokedKey c k t).
Proof.
  intros Ht Hserves Hlast [Hsub Hpr Hkeep Hled Hemp Hdis Hrem Hlc Hac].
  assert (Hspec := fun k' => dropRevokedKey_spec c k t k' Ht).
  constructor.
  - etrans; [apply drop_pinned_sub|done].
  - intros k' pub Hk'. destruct (decide (k' = k)) as [->|Hn].
    + right. split; [apply (Hspec k)|by exists t].
    + destruct (Hspec k') as (_ & _ & [-> Heq]%(fun f => f Hn) & _ & _).
      rewrite (holds_ext _ _ _ Heq). by apply Hpr.
  - intros k' s Hk'. destruct (decide (k' = k)) as [->|Hn].
    + destruct (Hspec k) as (_ & _ & _ & Hs & _). apply Hs. apply own_Some.
      split; [by apply Hkeep|by apply own_Some in Hk' as [_ ?]].
    + destruct (Hspec k') as (_ & _ & [_ ->]%(fun f => f Hn) & _ & _). by apply Hkeep.
  - intros k' s Hk'. destruct (decide (k' = k)) as [->|Hn].
    + destruct (Hspec k) as (_ & _ & _ & _ & Hfrom). apply Hfrom in Hk' as [Hk'| ->]; [by apply Hled|by right].
    + destruct (Hspec k') as (_ & _ & [_ Heq]%(fun f => f Hn) & _ & _). rewrite Heq in Hk'. by apply Hled.
  - intros Hd. by apply Hemp, (drop_nonempty c k t).
  - intros H0 k'. destruct (decide (k' = k)) as [->|Hn]; [left; apply (Hspec k)|].
    destruct (Hspec k') as (_ & _ & [Hp Hl]%(fun f => f Hn) & _ & _). unfold own. rewrite Hp, Hl. by apply Hdis.
  - unfold dropRevokedKey; simpl. by destruct (holds (cl_pinned c) k).
  - unfold dropRevokedKey; simpl. by destruct (holds (cl_ledger c) k).
  - unfold dropRevokedKey; simpl. by destruct (admission_at _ k).
Qed.

Lemma revocation_step_spec c0 c e : e ∈ es -> revoked c0 c -> revoked c0 (revocation_step pins fleet c e).
Proof.
  intros He Hc. unfold revocation_step.
  destruct (truthy (oe_key_id e)) as [kid|] eqn:Hk; [|done].
  destruct (oe_revoked e) eqn:Hr; [simpl|done].
  destruct (proven_revocation pins fleet e kid) as [t|] eqn:Hp; [|by destruct Hc].
  destruct (isLastPinnedKey c kid) eqn:Hl; [done|].
  apply proven_revocation_Some in Hp as (sig & fl & Hf & Hs & _ & Hne & Hsig).
  apply truthy_Some in Hk as [Hk _].
  apply drop_spec; [done| |done|done]. by exists e, sig, fl.
Qed.

Lemma applySignedRevocations_spec c : revoked c (applySignedRevocations pins fleet es c).
Proof.
  unfold applySignedRevocations. apply foldl_inv; [apply revoked_refl|].
  intros c' e He. by apply revocation_step_spec.
Qed.
(** What a step on another entry leaves alone about [k]. *)
Lemma revocation_step_other c e k :
  (holds (cl_ledger c) k = true -> holds (cl_ledger (revocation_step pins fleet c e)) k = true) /\
  (own (cl_pinned c) k = None -> own (cl_pinned (revocation_step pins fleet c e)) k = None) /\
  (k ∈ cl_advisory c -> k ∈ cl_advisory (revocation_step pins fleet c e)) /\
  (own (cl_pinned c) k <> None -> own (cl_pinned (revocation_step pins fleet c e)) k <> None \/
     (holds (cl_ledger (revocation_step pins fleet c e)) k = true /\
      exists t, e ∈ es -> serves_revocation pins fleet es k t)).
Proof.
  unfold revocation_step.
  destruct (truthy (oe_key_id e)) as [kid|] eqn:Hk; [|by eauto].
  destruct (oe_revoked e) eqn:Hr; [simpl|by eauto].
  destruct (proven_revocation pins fleet e kid) as [t|] eqn:Hp; [|simpl; split_and!; eauto; set_solver].
  destruct (isLastPinnedKey c kid); [by eauto|].
  apply proven_revocation_Some in Hp as (sig & fl & Hf & Hs & _ & Hne & Hsig).
  apply truthy_Some in Hk as [Hk _].
  destruct (dropRevokedKey_spec c kid t k Hne) as (Hl & Hpin & Hother & _).
  destruct (decide (k = kid)) as [->|Hn].
  - split_and!; [done|done|done|]. right. split; [done|]. exists t. intros He. by exists e, sig, fl.
  - destruct (Hother Hn) as [Hpo Hlo]. unfold own. rewrite Hpo, (holds_ext _ _ _ Hlo). split_and!; eauto.
Qed.

(** A key the relay reports as revoked is in one of the three sets afterwards. *)
Definition reported (c : Claims) (k : string) : Prop :=
  k ∈ cl_advisory c \/ holds (cl_ledger c) k = true \/ (holds (cl_pinned c) k = true /\ cl_pinned c <> ∅).

Lemma reported_step c e k : reported c k -> reported (revocation_step pins fleet c e) k.
Proof.
  destruct (revocation_step_other c e k) as (Hl & _ & Ha & _). unfold reported.
  intros [?|[?|[Hp Hn]]]; [by auto..|]. clear Hl Ha. unfold revocation_step.
  destruct (truthy (oe_key_id e)) as [kid|]; [|by auto]. destruct (oe_revoked e); simpl; [|by auto].
  destruct (proven_revocation pins fleet e kid) as [t|] eqn:Hpr; [|by auto].
  destruct (isLastPinnedKey c kid) eqn:Hlast; [by auto|].
  apply proven_revocation_Some in Hpr as (_ & _ & _ & _ & _ & Hne & _).
  destruct (dropRevokedKey_spec c kid t k Hne) as (Hl & _ & Ho & _).
  destruct (decide (k = kid)) as [->|Hk]; [by auto|]. right; right. destruct (Ho Hk) as [-> %holds_ext _].
  split; [done|]. intros Hemp. by apply Hn, (drop_nonempty c kid t).
Qed.

Lemma reported_after c e k :
  truthy (oe_key_id e) = Some k -> oe_revoked e = true -> reported (revocation_step pins fleet c e) k.
Proof.
  intros Hk Hr. unfold revocation_step, reported. rewrite Hk, Hr. simpl.
  destruct (proven_revocation pins fleet e k) as [t|] eqn:Hp; [|left; simpl; set_solver].
  destruct (isLastPinnedKey c k) eqn:Hlast; right.
  - right. unfold isLastPinnedKey in Hlast. apply andb_true_iff in Hlast as [Hh Hsz]. split; [done|].
    intros Hemp. by rewrite Hemp, map_size_empty in Hsz.
  - left. apply proven_revocation_Some in Hp as (_ & _ & _ & _ & _ & Hne & _).
    apply (dropRevokedKey_spec c k t k Hne).
Qed.

Lemma reported_all c e k :
  e ∈ es -> truthy (oe_key_id e) = Some k -> oe_revoked e = true ->
  reported (applySignedRevocations pins fleet es c) k.
Proof.
  intros (l1 & l2 & Heq)%list_elem_of_split Hk Hr. unfold applySignedRevocations.
  rewrite Heq, foldl_app. simpl. apply (foldl_inv (fun c => reported c k)).
  - by apply reported_after.
  - intros x b _. apply reported_step.
Qed.

(** A revocation a pinned key signed takes effect when another pinned key [r] is
    not itself revoked. *)
Lemma honored_all c e k t r :
  e ∈ es -> truthy (oe_key_id e) = Some k -> oe_revoked e = true -> proven_revocation pins fleet e k = Some t ->
  inherited k = false -> r <> k -> own (cl_pinned c) r <> None -> (forall t', ~ serves_revocation pins fleet es r t') ->
  let c' := applySignedRevocations pins fleet es c in
  holds (cl_ledger c') k = true /\ own (cl_pinned c') k = None.
Proof.
  intros He Hk Hr Hp Hinh Hrk Hpin Hsafe. simpl. unfold applySignedRevocations.
  apply list_elem_of_split in He as He'. destruct He' as (l1 & l2 & Heq).
  assert (Hstay : forall x b, b ∈ es -> own (cl_pinned x) r <> None ->
                    own (cl_pinned (revocation_step pins fleet x b)) r <> None).
  { intros x b Hb Hx. destruct (revocation_step_other x b r) as (_ & _ & _ & Hown).
    destruct (Hown Hx) as [|[_ [t' Ht']]]; [done|]. by destruct (Hsafe t' (Ht' Hb)). }
  assert (H1 : own (cl_pinned (foldl (revocation_step pins fleet) c l1)) r <> None).
  { apply (foldl_inv (fun x => own (cl_pinned x) r <> None)); [done|]. intros x b Hb. apply Hstay.
    rewrite Heq. apply elem_of_app. by left. }
  rewrite Heq, foldl_app. simpl.
  apply (foldl_inv (fun x => holds (cl_ledger x) k = true /\ own (cl_pinned x) k = None)).
  - set (c1 := foldl _ c l1) in *. unfold revocation_step. rewrite Hk, Hr, Hp. simpl.
    assert (Hlast : isLastPinnedKey c1 k = false).
    { unfold isLastPinnedKey. apply andb_false_iff.
      destruct (holds (cl_pinned c1) k) eqn:Hh; [right|by left]. apply Nat.eqb_neq. intros Hsz.
      destruct (own (cl_pinned c1) k) eqn:Ho; [|by destruct (holds_inherited _ _ Ho Hh); congruence].
      apply own_Some in Ho as [Ho _]. destruct (own (cl_pinned c1) r) eqn:Hor; [|done].
      apply own_Some in Hor as [Hor _].
      assert (Hd : size (delete k (cl_pinned c1)) = 0%nat) by (rewrite map_size_delete_Some; [lia|done]).
      apply map_size_empty_inv in Hd.
      assert (Hlr : delete k (cl_pinned c1) !! r = None) by by rewrite Hd, lookup_empty.
      rewrite lookup_delete_ne in Hlr by congruence. congruence. }
    rewrite Hlast. apply proven_revocation_Some in Hp as (_ & _ & _ & _ & _ & Hne & _).
    split; apply (dropRevokedKey_spec c1 k t k Hne).
  - intros x b _ [Hxl Hxp]. destruct (revocation_step_other x b k) as (Ho1 & Ho2 & _). auto.
Qed.

(** ** Adoption *)

(** A key of [es] newly pinned in [pinned]: served with that public key, neither
    tombstoned nor claimed revoked. *)
Definition admissible (c : Claims) (k pub : string) : Prop :=
  (exists e, e ∈ es /\ oe_key_id e = Some k /\ oe_public_key e = Some pub) /\
  pub <> "" /\ holds (cl_ledger c) k = false /\ k ∉ cl_advisory c.

(** Endorsed by a key of [pinned]. *)
Definition endorsed_in (pinned : gmap string string) (k pub : string) : Prop :=
  exists e epub fl sig, fleet = Some fl /\ own pinned e = Some epub /\
    verifyCanonical (endorsementPayload fl k pub) sig (fromB64url epub) = true.

Definition adoption : Type := gmap string string * gmap string OperatorKeyAdmission * bool.

Record tofu_adopted (c : Claims) (a : adoption) : Prop := {
  ta_from k pub : a.1.1 !! k = Some pub -> admissible c k pub;
  ta_adopted : a.2 = true -> a.1.1 <> ∅
}.

Lemma tofu_step_spec now c a e : e ∈ es -> tofu_adopted c a -> tofu_adopted c (tofu_step now c a e).
Proof.
  intros He Ha. destruct a as [[P A] ad]. unfold tofu_step.
  destruct (truthy (oe_key_id e)) as [kid|] eqn:Hk; [|done].
  destruct (truthy (oe_public_key e)) as [pub|] eqn:Hp; [|done].
  destruct (negb (bool_decide (kid ∈ cl_advisory c)) && negb (holds (cl_ledger c) kid)) eqn:Hg; [|done].
  bools. apply truthy_Some in Hk as [Hk _], Hp as [Hp Hne]. destruct Ha as [Hfrom _].
  constructor; simpl in *.
  - intros k pub'. destruct (decide (k = kid)) as [->|Hn].
    + rewrite lookup_insert_eq. intros [= <-]. split_and!; try done. by exists e.
    + rewrite lookup_insert_ne by congruence. apply Hfrom.
  - intros _. apply insert_non_empty.
Qed.

Record chain_adopted (c : Claims) (P0 : gmap string string) (A0 : gmap string OperatorKeyAdmission)
    (a : adoption) : Prop := {
  ca_keeps k pub : own P0 k = Some pub -> a.1.1 !! k = Some pub;
  ca_from k pub : a.1.1 !! k = Some pub ->
    P0 !! k = Some pub \/ (admissible c k pub /\ holds P0 k = false /\ endorsed_in a.1.1 k pub);
  ca_unchanged : a.2 = false -> a.1 = (P0, A0);
  ca_empty : P0 = ∅ -> a.1.1 = ∅;
  ca_nonempty : a.1.1 = ∅ -> P0 = ∅
}.

(** A key the chain may still adopt is not one it started from. *)
Lemma chain_adopted_new c P0 A0 a k : chain_adopted c P0 A0 a -> holds a.1.1 k = false -> holds P0 k = false.
Proof.
  intros Ha Hh. destruct (holds P0 k) eqn:H0; [|done].
  destruct (own P0 k) as [v|] eqn:Ho.
  - pose proof (ca_keeps _ _ _ _ Ha _ _ Ho) as Hk. apply own_Some in Ho as [_ Hv].
    rewrite (holds_own a.1.1 k) in Hh; [done|]. by rewrite (proj2 (own_Some _ _ _) (conj Hk Hv)).
  - destruct (holds_inherited _ _ Ho H0) as [Hn Hi]. unfold holds, truthy_at in Hh.
    destruct (a.1.1 !! k) as [v|] eqn:Hk; [|congruence].
    destruct (ca_from _ _ _ _ Ha _ _ Hk) as [?|[(_ & Hv & _) _]]; [congruence|]. by rewrite bool_decide_false in Hh.
Qed.

Lemma chain_step_spec now c P0 A0 a e a' :
  e ∈ es -> chain_adopted c P0 A0 a -> chain_step fleet now c a e = Some a' -> chain_adopted c P0 A0 a'.
Proof.
  intros He Ha. destruct a as [[P A] ch]. unfold chain_step.
  destruct (truthy (oe_key_id e)) as [kid|] eqn:Hk; [|by intros [= <-]].
  destruct (holds P kid) eqn:Hown; [by intros [= <-]|].
  destruct (holds (cl_ledger c) kid) eqn:Hled; [by intros [= <-]|].
  destruct (bool_decide_reflect (kid ∈ cl_advisory c)) as [|Hadv]; [by intros [= <-]|].
  destruct (truthy (oe_endorsed_by_key_id e)) as [en|]; [|by intros [= <-]].
  destruct (truthy (oe_endorsement_sig e)) as [sig|]; [|by intros [= <-]].
  destruct (truthy (oe_public_key e)) as [pub|] eqn:Hp; [|by intros [= <-]].
  destruct (truthy fleet) as [fl|] eqn:Hf; [|by intros [= <-]].
  destruct (own P en) as [epub|] eqn:Hen; [|destruct (holds P en); [done|by intros [= <-]]].
  destruct (verifyCanonical _ _ _) eqn:Hv; [|by intros [= <-]]. intros [= <-].
  apply truthy_Some in Hk as [Hk _], Hp as [Hp Hne], Hf as [Hf _].
  pose proof (chain_adopted_new _ _ _ _ kid Ha Hown) as Hnew.
  pose proof (holds_false _ _ Hown) as Hnone.
  assert (Hmono : forall k v, own P k = Some v -> own (<[kid := pub]> P) k = Some v).
  { intros k v Hkv. rewrite own_insert. destruct (decide (k = kid)); [congruence|done]. }
  destruct Ha as [Hkeep Hfrom _ Hemp Hnon]. constructor; simpl in *.
  - intros k v Hkv. destruct (decide (k = kid)) as [->|Hn]; [|rewrite lookup_insert_ne by congruence; by apply Hkeep].
    by rewrite (holds_false _ _ Hnew) in Hkv.
  - intros k v. destruct (decide (k = kid)) as [->|Hn].
    + rewrite lookup_insert_eq. intros [= <-]. right. split; [split_and!; try done; by exists e|split; [done|]].
      exists en, epub, fl, sig. split_and!; [done|by apply Hmono|done].
    + rewrite lookup_insert_ne by congruence.
      intros [Hold|(Had & Hn0 & en' & epub' & fl' & sig' & Hf' & Hen' & Hv')]%Hfrom;
        [by left|]. right. split_and!; [done|done|]. exists en', epub', fl', sig'. split_and!; [done|by apply Hmono|done].
  - done.
  - intros H0. rewrite (Hemp H0) in Hen. by unfold own in Hen; rewrite lookup_empty in Hen.
  - intros H0%insert_non_empty. done.
Qed.

(** What a loop that ends keeps, step by step. *)
Lemma chain_loop_inv (P : adoption -> Prop) now c l a a' :
  (forall x e y, e ∈ l -> P x -> chain_step fleet now c x e = Some y -> P y) ->
  P a -> chain_loop fleet now c l a = Some a' -> P a'.
Proof.
  revert a. induction l as [|e l IH]; intros a Hs Ha; simpl; [by intros [= <-]|].
  intros (b & Hb & Hl)%bind_Some. apply (IH b); [|by eapply Hs; [by left|..]|done].
  intros x e' y Hin. apply Hs. by right.
Qed.

(** Nothing else stops the loop. *)
Lemma chain_loop_throws now c l a : l ⊆ es -> chain_loop fleet now c l a = None -> names_inherited es.
Proof.
  revert a. induction l as [|e l IH]; intros a Hl; simpl; [done|].
  destruct (chain_step fleet now c a e) as [b|] eqn:Hb; simpl; [apply IH; set_solver|]. intros _.
  destruct a as [[P A] ch]. unfold chain_step in Hb.
  destruct (truthy (oe_key_id e)); [|done]. destruct (holds P _); [done|]. destruct (holds (cl_ledger c) _); [done|].
  destruct (bool_decide (_ ∈ cl_advisory c)); [done|].
  destruct (truthy (oe_endorsed_by_key_id e)) as [en|] eqn:Hen; [|done].
  destruct (truthy (oe_endorsement_sig e)); [|done]. destruct (truthy (oe_public_key e)); [|done].
  destruct (truthy fleet); [|done]. destruct (own P en) eqn:Ho; [done|]. destruct (holds P en) eqn:Hh; [|done].
  apply truthy_Some in Hen as [Hen _]. apply Exists_exists. exists e. split; [set_solver|].
  rewrite Hen. by eapply holds_inherited.
Qed.

(** ** The whole sync *)

Definition claims_start (id : EkhoIdentity) : Claims :=
  MkClaims (id_pinned id) (id_revoked id) (id_admissions id) ∅ false false false.

Definition claims_of (id : EkhoIdentity) : Claims :=
  applyRelayKeyClaims (id_pinned id) fleet es (claims_start id).
End Phases.
Lemma claims_of_spec fleet es id :
  exists c1, unrevoked (id_pinned id) fleet es (claims_start id) c1 /\
             revoked (id_pinned id) fleet es c1 (claims_of fleet es id).
Proof.
  eexists. split; [apply clearTombstones_spec|apply applySignedRevocations_spec].
Qed.

Lemma claims_of_pins_empty fleet es id : cl_pinned (claims_of fleet es id) = ∅ -> id_pinned id = ∅.
Proof.
  destruct (claims_of_spec fleet es id) as (c1 & Hun & Hre). intros Hemp.
  apply (re_nonempty _ _ _ _ _ Hre) in Hemp. by rewrite (un_pinned _ _ _ _ _ Hun) in Hemp.
Qed.

(** What a sync makes of an identity: first contact, the chain, or a throw that
    leaves the tombstones ahead of the pins. *)
Inductive sync_outcome (now : string) (id : EkhoIdentity) (es : list OperatorKeyEntry)
    (fleet : option string) (id' : EkhoIdentity) : option bool -> Prop :=
  | sync_tofu A :
      id_pinned id = ∅ -> truthy (id_tofuAt id) = None -> cl_pinned (claims_of fleet es id) = ∅ ->
      tofu_adopted es (claims_of fleet es id) (id_pinned id', A, true) ->
      id_tofuAt id' = Some now -> id_revoked id' = cl_ledger (claims_of fleet es id) ->
      sync_outcome now id es fleet id' (Some true)
  | sync_chain A chained changed :
      chain_adopted fleet es (claims_of fleet es id) (cl_pinned (claims_of fleet es id))
        (cl_admissions (claims_of fleet es id)) (id_pinned id', A, chained) ->
      id_tofuAt id' = id_tofuAt id -> id_revoked id' = cl_ledger (claims_of fleet es id) ->
      (changed = false -> id' = id) ->
      sync_outcome now id es fleet id' (Some changed)
  | sync_throws :
      names_inherited es -> id_pinned id' = id_pinned id -> id_tofuAt id' = id_tofuAt id ->
      id_revoked id' = cl_ledger (claims_of fleet es id) -> id_admissions id' = id_admissions id ->
      sync_outcome now id es fleet id' None.

Lemma claims_ledger fleet es id :
  (if cl_ledgerChanged (claims_of fleet es id) then cl_ledger (claims_of fleet es id) else id_revoked id) =
  cl_ledger (claims_of fleet es id).
Proof.
  destruct (cl_ledgerChanged _) eqn:E; [done|].
  destruct (claims_of_spec fleet es id) as (c1 & Hun & Hre).
  destruct (re_ledgerChanged _ _ _ _ _ Hre E) as [-> E1].
  by destruct (un_changed _ _ _ _ _ Hun E1) as [-> _].
Qed.

Lemma sync_outcome_of now id es fleet :
  sync_outcome now id es fleet (fst (syncPinnedOperatorKeys now id es fleet))
    (snd (syncPinnedOperatorKeys now id es fleet)).
Proof.
  unfold syncPinnedOperatorKeys. fold (claims_start id). fold (claims_of fleet es id).
  pose proof (claims_ledger fleet es id) as Hled. set (c := claims_of fleet es id) in *. rewrite Hled.
  set (open := ((size (cl_pinned c) =? 0)%nat && (truthy (id_tofuAt id) ==? None))%bool).
  destruct (if open then _ else _) as [[P A] ad] eqn:Ht.
  destruct ad.
  - destruct open eqn:Ho; [|done]. unfold open in Ho. bools.
    apply Nat.eqb_eq, map_size_empty_inv in H0. apply claims_of_pins_empty in H0 as Hp.
    apply (sync_tofu _ _ _ _ _ A); simpl; try done. rewrite <- Ht. apply foldl_inv.
    + constructor; simpl; [|done]. intros k pub. by rewrite H0, lookup_empty.
    + intros a e He. by apply tofu_step_spec.
  - clear Ht. destruct (chain_loop fleet now c es _) as [[[P' A'] chained]|] eqn:Hc; simpl.
    2:{ apply sync_throws; try done. by eapply (chain_loop_throws fleet es). }
    assert (Hch : chain_adopted fleet es c (cl_pinned c) (cl_admissions c) (P', A', chained)).
    { eapply (chain_loop_inv fleet); [| |exact Hc].
      - intros a e b He. by apply chain_step_spec.
      - constructor; simpl; try done; [by intros k pub [? _]%own_Some|by left]. }
    assert (Hpins : cl_pinRemoved c || cl_ledgerChanged c || chained = false -> P' = id_pinned id).
    { intros Hf. bools. pose proof (ca_unchanged _ _ _ _ _ _ Hch H1) as [= -> _].
      destruct (claims_of_spec fleet es id) as (c1 & Hun & Hre). fold c in Hre.
      rewrite (re_pinRemoved _ _ _ _ _ Hre) by done. by rewrite (un_pinned _ _ _ _ _ Hun). }
    set (changed := cl_pinRemoved c || cl_ledgerChanged c || chained) in *.
    assert (Heq : (if changed then P' else id_pinned id) = P') by (destruct changed; [done|by rewrite Hpins]).
    rewrite Heq. apply (sync_chain _ _ _ _ _ A' chained); simpl; try done.
    intros Hf. bools. assert (Hcl : cl_ledgerChanged c = false) by (unfold changed in *; by bools).
    rewrite Hpins by done. rewrite Hcl in Hled. rewrite <- Hled.
    replace (cl_admissionsChanged c || chained) with false by (symmetry; by apply orb_false_iff).
    by destruct id.
Qed.
(** ** Chains of endorsements *)

(** [k] with public key [pub] is reached from [roots] by endorsements that
    verify. *)
Inductive Rooted (roots : gmap string string) : string -> string -> Prop :=
  | rooted_pin k pub : roots !! k = Some pub -> Rooted roots k pub
  | rooted_endorsed e epub k pub fl sig :
      Rooted roots e epub ->
      verifyCanonical (endorsementPayload fl k pub) sig (fromB64url epub) = true ->
      Rooted roots k pub.

Lemma Rooted_trans r1 r2 k pub :
  (forall k pub, r2 !! k = Some pub -> Rooted r1 k pub) -> Rooted r2 k pub -> Rooted r1 k pub.
Proof. intros Hr. induction 1; [by apply Hr|by eapply rooted_endorsed]. Qed.

(** The pins a chain adopts are rooted in those it started from. *)
Lemma chain_step_rooted fleet now c roots a e a' :
  (forall k pub, a.1.1 !! k = Some pub -> Rooted roots k pub) -> chain_step fleet now c a e = Some a' ->
  forall k pub, a'.1.1 !! k = Some pub -> Rooted roots k pub.
Proof.
  destruct a as [[P A] ch]. intros HP. simpl in HP. unfold chain_step.
  destruct (truthy (oe_key_id e)) as [kid|]; [|by intros [= <-]].
  destruct (holds P kid); [by intros [= <-]|]. destruct (holds (cl_ledger c) kid); [by intros [= <-]|].
  destruct (bool_decide (kid ∈ cl_advisory c)); [by intros [= <-]|].
  destruct (truthy (oe_endorsed_by_key_id e)) as [en|]; [|by intros [= <-]].
  destruct (truthy (oe_endorsement_sig e)) as [sig|]; [|by intros [= <-]].
  destruct (truthy (oe_public_key e)) as [pub|]; [|by intros [= <-]].
  destruct (truthy fleet) as [fl|]; [|by intros [= <-]].
  destruct (own P en) as [epub|] eqn:Hen; [|destruct (holds P en); [done|by intros [= <-]]].
  destruct (verifyCanonical _ _ _) eqn:Hv; [|by intros [= <-]]. intros [= <-]. simpl. intros k v.
  destruct (decide (k = kid)) as [->|Hn]; [|rewrite lookup_insert_ne by congruence; apply HP].
  rewrite lookup_insert_eq. intros [= <-]. apply own_Some in Hen as [Hen _]. by eapply rooted_endorsed; [apply HP|].
Qed.

(** First contact is over: some key is pinned, or it has happened. *)
Definition latched (id : EkhoIdentity) : Prop := id_pinned id <> ∅ \/ truthy (id_tofuAt id) <> None.

Lemma claims_of_pins fleet es id : cl_pinned (claims_of fleet es id) ⊆ id_pinned id.
Proof.
  destruct (claims_of_spec fleet es id) as (c1 & Hun & Hre).
  pose proof (re_sub _ _ _ _ _ Hre) as Hs. by rewrite (un_pinned _ _ _ _ _ Hun) in Hs.
Qed.

Lemma latched_rooted now id es fleet k pub :
  latched id -> id_pinned (fst (syncPinnedOperatorKeys now id es fleet)) !! k = Some pub ->
  Rooted (id_pinned id) k pub.
Proof.
  intros Hl. unfold syncPinnedOperatorKeys. fold (claims_start id). fold (claims_of fleet es id).
  pose proof (claims_of_pins fleet es id) as Hsub.
  assert (Hroot : forall k pub, cl_pinned (claims_of fleet es id) !! k = Some pub -> Rooted (id_pinned id) k pub).
  { intros k' p Hk. apply rooted_pin. by eapply lookup_weaken. }
  destruct ((size (cl_pinned (claims_of fleet es id)) =? 0)%nat && (truthy (id_tofuAt id) ==? None))%bool eqn:Ho.
  { bools. apply Nat.eqb_eq, map_size_empty_inv, claims_of_pins_empty in H0. by destruct Hl. }
  destruct (chain_loop _ _ _ _ _) as [[[P A] ch]|] eqn:Hc; simpl; [|apply rooted_pin].
  assert (HP : forall k pub, P !! k = Some pub -> Rooted (id_pinned id) k pub).
  { refine (chain_loop_inv fleet (fun a => forall k pub, a.1.1 !! k = Some pub -> Rooted (id_pinned id) k pub)
      now _ es _ (P, A, ch) _ Hroot Hc). intros x e y _ Hx Hy. by eapply chain_step_rooted. }
  destruct (_ || _); [apply HP|apply rooted_pin].
Qed.

(** ** Disjointness *)

Definition disjoint_ledger (id : EkhoIdentity) : Prop :=
  forall k, own (id_pinned id) k = None \/ own (id_revoked id) k = None.

Lemma claims_of_disjoint fleet es id :
  disjoint_ledger id ->
  forall k, own (cl_pinned (claims_of fleet es id)) k = None \/ own (cl_ledger (claims_of fleet es id)) k = None.
Proof.
  intros Hd. destruct (claims_of_spec fleet es id) as (c1 & Hun & Hre).
  apply (re_disjoint _ _ _ _ _ Hre). intros k. destruct (Hd k) as [Hp|Hl]; [left|right].
  - by rewrite (un_pinned _ _ _ _ _ Hun).
  - destruct (own (cl_ledger c1) k) as [t|] eqn:Ht; [|done]. apply own_Some in Ht as [Ht Hne].
    pose proof (lookup_weaken _ _ _ _ Ht (un_sub _ _ _ _ _ Hun)) as Ht0.
    by rewrite (proj2 (own_Some (id_revoked id) k t)) in Hl.
Qed.

Lemma sync_disjoint now id es fleet :
  ~ names_inherited es -> disjoint_ledger id -> disjoint_ledger (fst (syncPinnedOperatorKeys now id es fleet)).
Proof.
  intros Hno Hd k. pose proof (claims_of_disjoint fleet es id Hd) as Hc.
  destruct (own (id_pinned _) k) as [pub|] eqn:Hp; [right|by left].
  destruct (sync_outcome_of now id es fleet) as [A _ _ _ Ha _ Hled|A chained ch Ha _ Hled _|Hin]; [| |by destruct (Hno Hin)];
    rewrite Hled; apply own_Some in Hp as [Hp Hne].
  - apply holds_false. by destruct (ta_from _ _ _ Ha _ _ Hp) as (_ & _ & ? & _).
  - destruct (ca_from _ _ _ _ _ _ Ha _ _ Hp) as [Hold|[(_ & _ & ? & _) _]]; [|by apply holds_false].
    destruct (Hc k) as [Hn|]; [|done]. by rewrite (proj2 (own_Some _ k pub)) in Hn.
Qed.

Lemma sync_latched now id es fleet :
  let id' := fst (syncPinnedOperatorKeys now id es fleet) in
  latched id ->
  latched id' /\ id_tofuAt id' = id_tofuAt id /\ (id_pinned id <> ∅ -> id_pinned id' <> ∅).
Proof.
  intros id' Hl. unfold id'.
  destruct (sync_outcome_of now id es fleet) as [A Hp Ht|A chained ch Ha Ht _ _|_ Hp Ht _ _]; [by destruct Hl| |].
  - assert (Hne : id_pinned id <> ∅ -> id_pinned (fst (syncPinnedOperatorKeys now id es fleet)) <> ∅).
    { intros Hn Hemp. by apply (ca_nonempty _ _ _ _ _ _ Ha), claims_of_pins_empty in Hemp. }
    split_and!; [|done|done]. destruct Hl as [Hl|Hl]; [left; auto|right; by rewrite Ht].
  - unfold latched. by rewrite Hp, Ht.
Qed.

(** A tombstone no un-revocation of this poll names stays, and keeps its key out. *)
Lemma trust_step_tombstone now id es fleet k t :
  latched id -> own (id_revoked id) k = Some t -> id_pinned id !! k = None ->
  ~ serves_unrevocation (id_pinned id) fleet es k t ->
  own (id_revoked (fst (syncPinnedOperatorKeys now id es fleet))) k = Some t /\
  id_pinned (fst (syncPinnedOperatorKeys now id es fleet)) !! k = None.
Proof.
  intros Hl Ht Hp Hno. apply own_Some in Ht as [Ht Hne].
  destruct (claims_of_spec fleet es id) as (c1 & Hun & Hre).
  assert (Hc : cl_ledger (claims_of fleet es id) !! k = Some t).
  { destruct (un_proof _ _ _ _ _ Hun _ _ Ht) as [H1|]; [|done].
    apply (re_keeps _ _ _ _ _ Hre). by apply own_Some. }
  destruct (sync_outcome_of now id es fleet) as [A Hemp Hto _ _ _ _|A chained ch Ha _ Hled _|_ Hpin _ Hled _];
    [by destruct Hl| |by rewrite Hled, Hpin; split; [apply own_Some|]].
  rewrite Hled. split; [by apply own_Some|].
  destruct (id_pinned (fst (syncPinnedOperatorKeys now id es fleet)) !! k) as [p|] eqn:Ho; [|done].
  destruct (ca_from _ _ _ _ _ _ Ha _ _ Ho) as [Hold|[(_ & _ & Hnl & _) _]].
  - pose proof (lookup_weaken _ _ _ _ Hold (claims_of_pins fleet es id)). congruence.
  - rewrite holds_own in Hnl; [done|]. by rewrite (proj2 (own_Some _ k t)).
Qed.

(** ** Any number of polls *)

(** The inbox batches of a relay, in order: the clock, the fleet and the keys. *)
Definition poll_input : Type := string * option string * list OperatorKeyEntry.

Definition sync_poll (id : EkhoIdentity) (i : poll_input) : EkhoIdentity :=
  let '(now, fleet, es) := i in fst (syncPinnedOperatorKeys now id es fleet).

Definition sync_all (id : EkhoIdentity) (inputs : list poll_input) : EkhoIdentity :=
  foldl sync_poll id inputs.

Lemma sync_all_latched id inputs :
  latched id ->
  let id' := sync_all id inputs in
  latched id' /\ id_tofuAt id' = id_tofuAt id /\ (id_pinned id <> ∅ -> id_pinned id' <> ∅) /\
  (forall k pub, id_pinned id' !! k = Some pub -> Rooted (id_pinned id) k pub).
Proof.
  unfold sync_all. revert id. induction inputs as [|[[now fleet] es] inputs IH]; intros id Hl; simpl.
  - split_and!; [done..|]. intros k pub. apply rooted_pin.
  - destruct (sync_latched now id es fleet Hl) as (Hl1 & Ht1 & Hn1).
    destruct (IH _ Hl1) as (Hl2 & Ht2 & Hn2 & Hr2). split_and!; [done|by rewrite Ht2|auto|].
    intros k pub Hk%Hr2. eapply Rooted_trans; [|exact Hk]. intros k' p. by apply latched_rooted.
Qed.

Lemma sync_all_disjoint id inputs :
  (forall i, i ∈ inputs -> ~ names_inherited (snd i)) -> disjoint_ledger id -> disjoint_ledger (sync_all id inputs).
Proof.
  unfold sync_all. revert id. induction inputs as [|[[now fleet] es] inputs IH]; intros id Hno Hd; simpl; [done|].
  apply IH; [intros i Hi; apply Hno; by right|]. apply sync_disjoint; [|done]. apply (Hno (now, fleet, es)). by left.
Qed.
End Safety.
