(* ===== verification/TrustProperties.v ===== *)
(** * Properties of the agents' trust root

    What any relay, honest or not, can do to the operator keys an agent trusts,
    over any number of polls, and how loudly an unproven claim is reported. *)

From S2P Require Import Prelude Json IsoTime JsValues Identity TrustSync TrustSafety.
Import Ascii String.
Open Scope string_scope.
Open Scope Z_scope.

(** ** A concrete agent: it pins [A] and [B]; the relay serves entries on them. *)

Definition demo_identity : EkhoIdentity :=
  MkEkhoIdentity "00" {["A" := "pa"; "B" := "pb"]} None ∅ ∅.

Definition plain_entry (k pub : string) : OperatorKeyEntry :=
  MkKeyEntry (Some k) (Some pub) false None None None None None None None None.

(** [k] is revoked at [t]; the key [signer] signed it. *)
Definition revoked_entry (k signer t : string) : OperatorKeyEntry :=
  MkKeyEntry (Some k) (Some "p") true None None
    (Some (@toy_sign signer (revocationPayload "f" k t))) (Some t) None None None None.

(** [k] is endorsed by [e], whose key is [epub]. *)
Definition endorsed_entry (k pub e epub : string) : OperatorKeyEntry :=
  MkKeyEntry (Some k) (Some pub) false (Some e) (Some (@toy_sign epub (endorsementPayload "f" k pub)))
    None None None None None None.

Definition demo_poll : poll_input :=
  ("2026-01-01T00:00:00.000Z", Some "f", [revoked_entry "A" "pb" "t1"; endorsed_entry "C" "pc" "B" "pb"]).

Example demo_poll_result :
  map_to_list (id_pinned (@sync_poll toy_crypto demo_identity demo_poll)) = [("C", "pc"); ("B", "pb")].
Proof. vm_compute. reflexivity. Qed.

Lemma demo_latched : latched demo_identity.
Proof. left. apply insert_non_empty. Qed.

Section Properties.
Context `{Crypto}.

(** A key that is new is free of tombstones and endorsed, or first contact. *)
Lemma added_on_proof now id es fleet k pub :
  let id' := fst (syncPinnedOperatorKeys now id es fleet) in
  id_pinned id' !! k = Some pub ->
  id_pinned id !! k = Some pub \/
  (own (cl_ledger (claims_of fleet es id)) k = None /\
   (forall e, e ∈ es -> truthy (oe_key_id e) = Some k -> oe_revoked e = true -> own (id_pinned id) k <> None) /\
   (endorsed_in fleet (id_pinned id') k pub \/
    (id_pinned id = ∅ /\ truthy (id_tofuAt id) = None /\ id_tofuAt id' = Some now))).
Proof.
  cbv zeta. intros Hk.
  assert (Hrep : forall e, e ∈ es -> truthy (oe_key_id e) = Some k -> oe_revoked e = true ->
            reported (claims_of fleet es id) k) by (intros e He; by apply reported_all).
  unfold reported in Hrep.
  destruct (sync_outcome_of now id es fleet) as [A Hemp Ht Hc Ha Hat _|A chained ch Ha _ _ _|_ Hp _ _ _].
  - right. destruct (ta_from _ _ _ Ha _ _ Hk) as (_ & _ & Hl & Hadv). split_and!; [by apply holds_false| |by right].
    intros e He Hid Hr. by destruct (Hrep e He Hid Hr) as [?|[?|[_ ?]]]; [|congruence|].
  - destruct (ca_from _ _ _ _ _ _ Ha _ _ Hk) as [Hold|((_ & _ & Hl & Hadv) & Hn & Hend)].
    + left. eapply lookup_weaken; [done|apply claims_of_pins].
    + right. split_and!; [by apply holds_false| |by left].
      intros e He Hid Hr. by destruct (Hrep e He Hid Hr) as [?|[?|[? _]]]; [|congruence|congruence].
  - left. by rewrite Hp in Hk.
Qed.

(** C26. Trust changes on proof only. In one sync, whatever the relay serves: a
    pin goes only if a pinned key signed its revocation, and is tombstoned then (as
    the code tests it: an inherited property's name counts as tombstoned);
    a tombstone goes only if a pinned key signed its un-revocation, naming the
    very revocation that stands; a tombstone appears only with a signed
    revocation; a key is added, tombstone-free and by no entry reported revoked,
    only if a pinned key endorsed it or as the first contact of an identity with
    no pin at all; when the sync reports no change there is none, and when it
    throws, which takes an entry that names an inherited property as its endorser,
    nothing but the tombstones has changed. *)
Theorem trust_changes_on_proof_only now id es fleet :
  let id' := fst (syncPinnedOperatorKeys now id es fleet) in
  (forall k pub, own (id_pinned id) k = Some pub ->
     own (id_pinned id') k = Some pub \/
     (id_pinned id' !! k = None /\ holds (id_revoked id') k = true /\
      exists t, serves_revocation (id_pinned id) fleet es k t)) /\
  (forall k t, own (id_revoked id) k = Some t ->
     own (id_revoked id') k = Some t \/ serves_unrevocation (id_pinned id) fleet es k t) /\
  (forall k t, id_revoked id' !! k = Some t ->
     id_revoked id !! k = Some t \/ serves_revocation (id_pinned id) fleet es k t) /\
  (forall k pub, id_pinned id' !! k = Some pub ->
     id_pinned id !! k = Some pub \/
     (own (id_revoked id') k = None /\
      (forall e, e ∈ es -> truthy (oe_key_id e) = Some k -> oe_revoked e = true -> own (id_pinned id) k <> None) /\
      (endorsed_in fleet (id_pinned id') k pub \/
       (id_pinned id = ∅ /\ truthy (id_tofuAt id) = None /\ id_tofuAt id' = Some now)))) /\
  (snd (syncPinnedOperatorKeys now id es fleet) = Some false -> id' = id) /\
  (snd (syncPinnedOperatorKeys now id es fleet) = None ->
     names_inherited es /\ id_pinned id' = id_pinned id /\ id_tofuAt id' = id_tofuAt id /\
     id_admissions id' = id_admissions id).
Proof.
  cbv zeta. destruct (claims_of_spec fleet es id) as (c1 & Hun & Hre).
  pose proof (claims_of_pins fleet es id) as Hsub.
  assert (Hledger : id_revoked (fst (syncPinnedOperatorKeys now id es fleet)) = cl_ledger (claims_of fleet es id))
    by by destruct (sync_outcome_of now id es fleet).
  rewrite Hledger. split_and!.
  - intros k pub Hk. assert (Hk1 : own (cl_pinned c1) k = Some pub) by by rewrite (un_pinned _ _ _ _ _ Hun).
    pose proof Hk as [Hin0 Hne]%own_Some.
    destruct (sync_outcome_of now id es fleet) as [A Hemp|A chained ch Ha _ _ _|_ Hp _ _ _];
      [by rewrite Hemp, lookup_empty in Hin0| |left; by rewrite Hp].
    destruct (re_proof _ _ _ _ _ Hre _ _ Hk1) as [Hin|[Hl [t Ht]]].
    + left. apply own_Some. split; [|done]. apply (ca_keeps _ _ _ _ _ _ Ha). by apply own_Some.
    + destruct (id_pinned (fst (syncPinnedOperatorKeys now id es fleet)) !! k) as [p|] eqn:Hp;
        [|right; split_and!; [done|done|by exists t]].
      destruct (ca_from _ _ _ _ _ _ Ha _ _ Hp) as [Hold|[(_ & _ & Hnl & _) _]]; [|congruence].
      left. apply own_Some. split; [|done]. pose proof (lookup_weaken _ _ _ _ Hold Hsub) as Hpp. congruence.
  - intros k t Hk. pose proof Hk as [Hk0 Hne]%own_Some.
    destruct (un_proof _ _ _ _ _ Hun _ _ Hk0) as [Hin|]; [left|by right].
    apply own_Some. split; [|done]. apply (re_keeps _ _ _ _ _ Hre). by apply own_Some.
  - intros k t Hk. destruct (re_ledger _ _ _ _ _ Hre _ _ Hk) as [Hin|]; [left|by right].
    exact (lookup_weaken _ _ _ _ Hin (un_sub _ _ _ _ _ Hun)).
  - intros k pub Hk. apply (added_on_proof now id es fleet k pub Hk).
  - intros Hc. revert Hc. destruct (sync_outcome_of now id es fleet) as [| |]; naive_solver.
  - intros Hc. revert Hc. destruct (sync_outcome_of now id es fleet) as [| |]; naive_solver.
Qed.

(** C2. A hostile relay cannot take the trust root over. Once an agent has its
    pins (or its one first contact is behind it), then after any number of
    polls, with any entries for any fleets, whether their syncs complete or throw:
    it still has a pin if it had one, every pin is linked to the original pins by
    endorsements that verify, and first contact never happens again. No key is
    both pinned and tombstoned, unless some entry named an inherited property
    ([constructor]) as its endorser: that sync throws between its two writes
    ([half_a_revocation]). *)
Theorem hostile_relay_cannot_take_root id inputs :
  latched id ->
  let id' := sync_all id inputs in
  (id_pinned id <> ∅ -> id_pinned id' <> ∅) /\
  (forall k pub, id_pinned id' !! k = Some pub -> Rooted (id_pinned id) k pub) /\
  id_tofuAt id' = id_tofuAt id /\
  (disjoint_ledger id -> disjoint_ledger id' \/ exists i, i ∈ inputs /\ names_inherited (snd i)).
Proof.
  intros Hl. cbv zeta. destruct (sync_all_latched id inputs Hl) as (_ & Ht & Hn & Hr).
  split_and!; [done|done|done|]. intros Hd.
  destruct (decide (Exists (fun i => names_inherited (snd i)) inputs)) as [Hex|Hno].
  - right. by apply Exists_exists in Hex.
  - left. apply sync_all_disjoint; [|done]. intros i Hi Hin. apply Hno, Exists_exists. by exists i.
Qed.

(** A revocation sticks. A key the agent has tombstoned and unpinned stays
    so, with the same revocation time, over any number of polls in which nobody
    rooted in its pins signed the un-revocation of that revocation. *)
Theorem tombstone_sticks id inputs k t :
  latched id -> own (id_revoked id) k = Some t -> id_pinned id !! k = None ->
  (forall now fleet es e sig fl issuedAt nonce payload r pub,
     (now, fleet, es) ∈ inputs -> e ∈ es -> oe_key_id e = Some k -> oe_unrevoke_sig e = Some sig ->
     unrevokePayload fl k t issuedAt nonce = Some payload -> Rooted (id_pinned id) r pub ->
     verifyCanonical payload sig (fromB64url pub) = false) ->
  own (id_revoked (sync_all id inputs)) k = Some t /\ id_pinned (sync_all id inputs) !! k = None.
Proof.
  unfold sync_all. revert id. induction inputs as [|[[now fleet] es] inputs IH]; intros id Hl Ht Hp Hno; [done|].
  simpl. destruct (trust_step_tombstone now id es fleet k t Hl Ht Hp) as [Ht1 Hp1].
  { intros (e & sig & i & n & fl & payload & He & Hk & _ & Hs & Hpay & r & pub & Hr & Hv).
    rewrite (Hno now fleet es e sig fl i n payload r pub) in Hv; [done| |done|done|done|done|by apply rooted_pin].
    by left. }
  apply IH; [by apply sync_latched|done|done|].
  intros now' fleet' es' e sig fl i n payload r pub Hin He Hk Hs Hpay Hroot.
  eapply (Hno now' fleet' es'); [by right|done|done|done|done|].
  eapply Rooted_trans; [|exact Hroot]. intros k' p. by apply latched_rooted.
Qed.

(** A signed revocation is honoured. When the relay passes on a revocation a
    pinned key signed, and some other pinned key is not revoked in the same
    batch, the revoked key is unpinned and tombstoned by that sync, wherever in
    the batch the entry stands and whatever else the batch says of the key; no entry
    names an inherited property as its endorser. *)
Theorem signed_revocation_honored now id es fl k t e sig r rpub :
  ~ names_inherited es -> inherited k = false ->
  e ∈ es -> oe_key_id e = Some k -> k <> "" -> oe_revoked e = true ->
  oe_revoked_at e = Some t -> t <> "" -> oe_revocation_sig e = Some sig -> sig <> "" -> fl <> "" ->
  signed_by_pin (id_pinned id) (revocationPayload fl k t) sig ->
  r <> k -> own (id_pinned id) r = Some rpub ->
  (forall t', ~ serves_revocation (id_pinned id) (Some fl) es r t') ->
  let id' := fst (syncPinnedOperatorKeys now id es (Some fl)) in
  own (id_pinned id') k = None /\ own (id_revoked id') k <> None /\ own (id_pinned id') r = Some rpub.
Proof.
  intros Hno Hinh He Hk Hk0 Hrev Hat Ht0 Hsig Hs0 Hf0 Hsigned Hrk Hr Hsafe. cbv zeta.
  assert (Hkey : truthy (oe_key_id e) = Some k) by by apply truthy_Some.
  assert (Hproven : proven_revocation (id_pinned id) (Some fl) e k = Some t).
  { unfold proven_revocation. rewrite (proj2 (truthy_Some _ sig)), (proj2 (truthy_Some _ t)),
      (proj2 (truthy_Some (Some fl) fl)) by done.
    by rewrite (proj2 (signedByAPinnedKey_iff _ _ _) Hsigned). }
  destruct (clearTombstones_spec (id_pinned id) (Some fl) es (claims_start id)) as [Hpins _ _ _ _ _ _ _].
  destruct (honored_all (id_pinned id) (Some fl) es
              (clearTombstonesOnSignedUnrevoke (id_pinned id) (Some fl) es (claims_start id)) e k t r
              He Hkey Hrev Hproven Hinh Hrk) as [Hl Hp]; [by rewrite Hpins; simpl; rewrite Hr|done|].
  fold (applyRelayKeyClaims (id_pinned id) (Some fl) es (claims_start id)) in Hl, Hp.
  fold (claims_of (Some fl) es id) in Hl, Hp.
  destruct (sync_outcome_of now id es (Some fl)) as [A Hemp|A chained ch Ha _ Hled _|Hin]; [|..|by destruct Hno].
  { apply own_Some in Hr as [Hr _]. by rewrite Hemp, lookup_empty in Hr. }
  rewrite Hled. split_and!.
  - destruct (own (id_pinned (fst (syncPinnedOperatorKeys now id es (Some fl)))) k) as [p|] eqn:Ho; [|done]. apply own_Some in Ho as [Ho Hne].
    destruct (ca_from _ _ _ _ _ _ Ha _ _ Ho) as [Hold|[(_ & _ & Hnl & _) _]]; [|congruence].
    by rewrite (proj2 (own_Some _ k p)) in Hp.
  - intros Hn. destruct (holds_inherited _ _ Hn Hl). congruence.
  - apply own_Some. apply own_Some in Hr as Hr'. destruct Hr' as [_ Hrne]. split; [|done].
    apply (ca_keeps _ _ _ _ _ _ Ha), own_Some. split; [|done].
    destruct (claims_of_spec (Some fl) es id) as (c1 & Hun & Hre).
    destruct (re_proof _ _ _ _ _ Hre r rpub) as [|[_ [t' Ht']]];
      [by rewrite (un_pinned _ _ _ _ _ Hun)|done|by destruct (Hsafe t')].
Qed.
End Properties.

(** ** The theorems on the concrete agent *)

Definition demo_after : EkhoIdentity := @sync_poll toy_crypto demo_identity demo_poll.
Definition demo_comeback : poll_input :=
  ("2026-01-02T00:00:00.000Z", Some "f", [endorsed_entry "A" "pa" "B" "pb"]).

Lemma demo_disjoint : disjoint_ledger demo_identity.
Proof. intros k. right. unfold own. simpl. by rewrite lookup_empty. Qed.

Lemma demo_after_latched : latched demo_after.
Proof.
  left. intros Hemp. assert (Hb : id_pinned demo_after !! "B" = Some "pb") by by vm_compute.
  by rewrite Hemp, lookup_empty in Hb.
Qed.

Lemma hostile_relay_cannot_take_root_witness :
  id_pinned (@sync_all toy_crypto demo_identity [demo_poll]) !! "C" = Some "pc" /\
  @Rooted toy_crypto (id_pinned demo_identity) "C" "pc" /\
  disjoint_ledger (@sync_all toy_crypto demo_identity [demo_poll]).
Proof.
  assert (Hc : id_pinned (@sync_all toy_crypto demo_identity [demo_poll]) !! "C" = Some "pc")
    by (vm_compute; reflexivity).
  destruct (@hostile_relay_cannot_take_root toy_crypto demo_identity [demo_poll] demo_latched) as (_ & Hr & _ & Hd).
  split; [exact Hc|split; [exact (Hr _ _ Hc)|]].
  destruct (Hd demo_disjoint) as [Hok|(i & Hi & Hn)]; [exact Hok|exfalso].
  apply list_elem_of_singleton in Hi as ->. revert Hn.
  apply (@bool_decide_unpack (~ _) _). vm_compute. exact I.
Defined.

Lemma tombstone_sticks_witness :
  own (id_revoked (@sync_all toy_crypto demo_after [demo_comeback])) "A" = Some "t1" /\
  id_pinned (@sync_all toy_crypto demo_after [demo_comeback]) !! "A" = None.
Proof.
  apply (@tombstone_sticks toy_crypto demo_after [demo_comeback] "A" "t1").
  - exact demo_after_latched.
  - vm_compute; reflexivity.
  - vm_compute; reflexivity.
  - intros now fleet es e sig fl i n payload r pub Hin He _ Hs.
    apply list_elem_of_singleton in Hin as [= -> -> ->]. apply list_elem_of_singleton in He as ->.
    discriminate Hs.
Defined.

Lemma signed_revocation_honored_witness :
  let id' := fst (@syncPinnedOperatorKeys toy_crypto "2026-01-01T00:00:00.000Z" demo_identity
                    [revoked_entry "A" "pb" "t1"] (Some "f")) in
  own (id_pinned id') "A" = None /\ own (id_revoked id') "A" <> None /\ own (id_pinned id') "B" = Some "pb".
Proof.
  apply (@signed_revocation_honored toy_crypto "2026-01-01T00:00:00.000Z" demo_identity
    [revoked_entry "A" "pb" "t1"] "f" "A" "t1" (revoked_entry "A" "pb" "t1")
    (@toy_sign "pb" (revocationPayload "f" "A" "t1")) "B" "pb"); try done.
  - intros (e & He & Hen)%Exists_exists. apply list_elem_of_singleton in He as ->. discriminate Hen.
  - by left.
  - exists "B", "pb". by split; vm_compute.
  - intros t' (e & sig & fl & He & Hk & _). apply list_elem_of_singleton in He as ->. discriminate Hk.
Defined.

(** Half a revocation. The batch revokes [A], genuinely, and has one more entry
    that names [constructor] as its endorser: [pinned["constructor"]] is a function,
    [fromB64url] throws, and the agent goes on with [A] tombstoned and still pinned.
    The same batch without that entry unpins it. *)
Definition inherited_entry : OperatorKeyEntry :=
  MkKeyEntry (Some "X") (Some "px") false (Some "constructor") (Some "sig") None None None None None None.
Example half_a_revocation :
  let sync es := @syncPinnedOperatorKeys toy_crypto "2026-01-01T00:00:00.000Z" demo_identity es (Some "f") in
  let torn := sync [revoked_entry "A" "pb" "t1"; inherited_entry] in
  let whole := sync [revoked_entry "A" "pb" "t1"] in
  snd torn = None /\ id_pinned (fst torn) !! "A" = Some "pa" /\ id_revoked (fst torn) !! "A" = Some "t1" /\
  snd whole = Some true /\ id_pinned (fst whole) !! "A" = None /\ id_revoked (fst whole) !! "A" = Some "t1".
Proof. vm_compute. split_and!; reflexivity. Qed.

(** The order of the entries decides which of two keys survives. Two pinned
    keys that sign each other's revocation: the sync honours the entry the relay
    lists first and refuses the other as the last root's, so the same two signed
    revocations leave [B] in one order and [A] in the other. *)
Example mutual_revocation_order :
  let poll es := @syncPinnedOperatorKeys toy_crypto "2026-01-01T00:00:00.000Z" demo_identity es (Some "f") in
  let a := revoked_entry "A" "pb" "t1" in
  let b := revoked_entry "B" "pa" "t1" in
  map_to_list (id_pinned (fst (poll [a; b]))) = [("B", "pb")] /\
  map_to_list (id_pinned (fst (poll [b; a]))) = [("A", "pa")].
Proof. vm_compute. split; reflexivity. Qed.

(** * Properties of the advisory-warning throttle

    The throttle of [TrustSync] keeps its map bounded and never mutes a claim for
    good, however the scopes of one process interleave. *)

Open Scope list_scope.

Lemma keys_NoDup_cons {A} (k : string) (e : A) st :
  NoDup (map fst ((k, e) :: st)) <-> (k ∉ map fst st) /\ NoDup (map fst st).
Proof. exact (NoDup_cons k (map fst st)). Qed.

Lemma scope_entry_cons s k e st :
  scope_entry s ((k, e) :: st) = if k ==? s then Some e else scope_entry s st.
Proof. unfold scope_entry, select_one. simpl. by case_bool_decide. Qed.

Lemma scope_entry_app s st k e :
  scope_entry s (st ++ [(k, e)]) =
  match scope_entry s st with Some x => Some x | None => if k ==? s then Some e else None end.
Proof.
  induction st as [|[k' e'] st IH]; simpl; [apply scope_entry_cons|].
  rewrite !scope_entry_cons. destruct (bool_decide (k' = s)); [done|exact IH].
Qed.

Lemma scope_entry_forget s s' st :
  scope_entry s (forget_scope s' st) = if s' ==? s then None else scope_entry s st.
Proof.
  unfold forget_scope, delete_where.
  induction st as [|[k e] st IH]; simpl; [by case_bool_decide|].
  destruct (bool_decide_reflect (k = s')) as [->|Hk]; simpl; rewrite ?scope_entry_cons, ?IH;
    repeat case_bool_decide; congruence.
Qed.

Lemma scope_entry_In s st : scope_entry s st <> None <-> s ∈ map fst st.
Proof.
  induction st as [|[k e] st IH]; simpl.
  - split; [done|by intros ?%elem_of_nil].
  - rewrite scope_entry_cons, elem_of_cons, <- IH. case_bool_decide; naive_solver.
Qed.

Lemma scope_entry_elem s st e : scope_entry s st = Some e -> (s, e) ∈ st.
Proof.
  induction st as [|[k x] st IH]; [done|]. rewrite scope_entry_cons.
  case_bool_decide; [intros [= ->]; subst; by left|]. intros ?%IH. by right.
Qed.

(** Eviction only forgets, and never the scope just touched. *)
Lemma scope_entry_evict s s' st :
  NoDup (map fst st) ->
  (scope_entry s' (evict_scopes s st) = scope_entry s' st \/ scope_entry s' (evict_scopes s st) = None) /\
  scope_entry s (evict_scopes s st) = scope_entry s st.
Proof.
  induction st as [|[k e] st IH]; [by auto|]. intros Hk. apply (keys_NoDup_cons k e st) in Hk as [Hk Hnd].
  cbn [evict_scopes]. destruct (length _ <=? _)%nat; [by auto|].
  destruct (bool_decide_reflect (k = s)) as [->|Hn]; [by auto|].
  destruct (IH Hnd) as [Hor Heq]. split.
  - rewrite scope_entry_cons. destruct (bool_decide_reflect (k = s')) as [->|]; [|done].
    right. destruct Hor as [->| ->]; [|done]. destruct (scope_entry s' st) eqn:Hs; [|done].
    exfalso; apply Hk. apply scope_entry_In. intros ?. congruence.
  - rewrite scope_entry_cons, bool_decide_false by done. exact Heq.
Qed.

Lemma evict_scopes_spec s st :
  (exists pre, st = pre ++ evict_scopes s st)%list /\
  (forall l e, st = (l ++ [(s, e)])%list ->
     (length (evict_scopes s st) <= Nat.max 1 ADVISORY_REVOCATION_WARNING_MAX_SCOPES)%nat \/ s ∈ map fst l).
Proof.
  induction st as [|[k x] st [[pre Hpre] Hlen]]; [split; [by exists []|by intros [|] ?]|].
  cbn [evict_scopes]. destruct (length _ <=? _)%nat eqn:Hle.
  { split; [by exists []|]. intros l e _. left. apply Nat.leb_le in Hle. unfold ADVISORY_REVOCATION_WARNING_MAX_SCOPES in *. lia. }
  destruct (bool_decide_reflect (k = s)) as [->|Hn].
  - split; [by exists []|]. intros [|y l] e Heq; simpl in Heq.
    + left. injection Heq as _ ->. simpl. lia.
    + right. injection Heq as <- _. by left.
  - split; [exists ((k, x) :: pre); simpl; by rewrite <- Hpre|].
    intros [|y l] e Heq; simpl in Heq; injection Heq as Hy Heq; [congruence|]. destruct (Hlen l e Heq) as [|Hin]; [by left|right; by right].
Qed.

Section Throttle.
Context `{NodeCrypto}.

Record warn_ok (st : AdvisoryWarnByScope) : Prop := {
  wo_keys : NoDup (map fst st);
  wo_size : (length st <= ADVISORY_REVOCATION_WARNING_MAX_SCOPES)%nat;
  wo_count s e : scope_entry s st = Some e -> 0 <= aw_suppressed e < ADVISORY_REVOCATION_WARNING_SUMMARY_EVERY
}.

Lemma forget_keys s st : NoDup (map fst st) -> NoDup (map fst (forget_scope s st)) /\ s ∉ map fst (forget_scope s st).
Proof.
  unfold forget_scope, delete_where. induction st as [|[k e] st IH]; simpl; [intros; split; [done|by intros ?%elem_of_nil]|].
  intros Hk. apply (keys_NoDup_cons k e st) in Hk as [Hk Hnd]. destruct (IH Hnd) as [Hnd' Hs]. case_bool_decide; simpl; [done|].
  split.
  - apply NoDup_cons. split; [|done]. rewrite list_elem_of_In, in_map_iff. intros (x & Hx & Hin). apply filter_In in Hin as [Hin _].
    apply Hk, list_elem_of_In, in_map_iff. by exists x.
  - intros [?|?]%elem_of_cons; [congruence|done].
Qed.

Lemma touch_ok s e st :
  warn_ok st -> 0 <= aw_suppressed e < ADVISORY_REVOCATION_WARNING_SUMMARY_EVERY ->
  warn_ok (touchAdvisoryScope s e st) /\
  scope_entry s (touchAdvisoryScope s e st) = Some e /\
  (forall s', s' <> s -> scope_entry s' (touchAdvisoryScope s e st) = scope_entry s' st \/
                         scope_entry s' (touchAdvisoryScope s e st) = None).
Proof.
  intros [Hk Hsz Hc] He. unfold touchAdvisoryScope.
  destruct (forget_keys s st Hk) as [Hk1 Hs1]. set (l := forget_scope s st) in *.
  assert (Hnd : NoDup (map fst (l ++ [(s, e)]))).
  { rewrite map_app. apply NoDup_app. split_and!; [done| |apply NoDup_singleton].
    intros x Hx ->%list_elem_of_singleton. done. }
  assert (Hentry : forall s', scope_entry s' (l ++ [(s, e)])%list = if s ==? s' then Some e else scope_entry s' st).
  { intros s'. rewrite scope_entry_app. unfold l. rewrite scope_entry_forget. case_bool_decide; [done|].
    by destruct (scope_entry s' st). }
  assert (Hself : scope_entry s (evict_scopes s (l ++ [(s, e)])) = Some e).
  { rewrite (proj2 (scope_entry_evict s s _ Hnd)), Hentry. by rewrite bool_decide_true. }
  assert (Hother : forall s', s' <> s -> scope_entry s' (evict_scopes s (l ++ [(s, e)])) = scope_entry s' st \/
                     scope_entry s' (evict_scopes s (l ++ [(s, e)])) = None).
  { intros s' Hn. destruct (scope_entry_evict s s' _ Hnd) as [[->| ->] _]; [|by right].
    rewrite Hentry, bool_decide_false by congruence. by left. }
  destruct (evict_scopes_spec s (l ++ [(s, e)])) as [[pre Hpre] Hlen].
  split; [constructor|by split].
  - rewrite Hpre, map_app in Hnd. by apply NoDup_app in Hnd as (_ & _ & ?).
  - destruct (Hlen l e eq_refl) as [|]; [|done]. by unfold ADVISORY_REVOCATION_WARNING_MAX_SCOPES in *; simpl in *.
  - intros s' x. destruct (decide (s' = s)) as [->|Hn]; [rewrite Hself; by intros [= <-]|].
    destruct (Hother s' Hn) as [->| ->]; [apply Hc|done].
Qed.

(** ** One call *)

(** What one call of the throttle does to the entry of its own scope. *)
Inductive warned (before : option AdvisoryWarnEntry) (advisory : gset string)
    : option AdvisoryWarnEntry -> option AdvisoryWarning -> Prop :=
  | warned_clear : advisory = ∅ -> warned before advisory None None
  | warned_first : advisory <> ∅ ->
      (forall e, before = Some e -> aw_fingerprint e <> advisory_fingerprint advisory) ->
      warned before advisory (Some (MkWarnEntry (advisory_fingerprint advisory) 0))
        (Some (AdvisoryFirst (sort_strings (elements advisory))))
  | warned_summary e : advisory <> ∅ -> before = Some e -> aw_fingerprint e = advisory_fingerprint advisory ->
      aw_suppressed e + 1 = ADVISORY_REVOCATION_WARNING_SUMMARY_EVERY ->
      warned before advisory (Some (MkWarnEntry (advisory_fingerprint advisory) 0))
        (Some (AdvisorySummary (sort_strings (elements advisory)) ADVISORY_REVOCATION_WARNING_SUMMARY_EVERY))
  | warned_silent e : advisory <> ∅ -> before = Some e -> aw_fingerprint e = advisory_fingerprint advisory ->
      aw_suppressed e + 1 < ADVISORY_REVOCATION_WARNING_SUMMARY_EVERY ->
      warned before advisory (Some (MkWarnEntry (aw_fingerprint e) (aw_suppressed e + 1))) None.

Lemma bump_ok s x st :
  warn_ok st -> 0 <= aw_suppressed x < ADVISORY_REVOCATION_WARNING_SUMMARY_EVERY -> scope_entry s st <> None ->
  let st' := update_where (fun kv => fst kv ==? s) (fun kv => (fst kv, x)) st in
  warn_ok st' /\ scope_entry s st' = Some x /\ (forall s', s' <> s -> scope_entry s' st' = scope_entry s' st).
Proof.
  intros [Hk Hsz Hc] Hx Hin. cbv zeta.
  assert (Hentry : forall s', scope_entry s' (update_where (fun kv => fst kv ==? s) (fun kv => (fst kv, x)) st) =
                     if s ==? s' then match scope_entry s st with Some _ => Some x | None => None end
                     else scope_entry s' st).
  { intros s'. clear. induction st as [|[k e] st IH]; simpl; [by case_bool_decide|].
    unfold update_where in *. rewrite !scope_entry_cons.
    destruct (bool_decide_reflect (k = s)) as [->|Hks]; simpl; rewrite scope_entry_cons, ?IH;
      repeat case_bool_decide; congruence. }
  split; [constructor|].
  - by rewrite map_update_where.
  - by rewrite length_update_where.
  - intros s' e. rewrite Hentry. case_bool_decide; [|apply Hc].
    destruct (scope_entry s st); [by intros [= <-]|done].
  - split; [rewrite Hentry, bool_decide_true by done; by destruct (scope_entry s st)|].
    intros s' Hn. rewrite Hentry. by rewrite bool_decide_false by congruence.
Qed.

Lemma warn_call st s advisory :
  warn_ok st ->
  let '(st', out) := warnAdvisoryRevocations st s advisory in
  warn_ok st' /\ warned (scope_entry s st) advisory (scope_entry s st') out /\
  (forall s', s' <> s -> scope_entry s' st' = scope_entry s' st \/ scope_entry s' st' = None).
Proof.
  intros Hok. unfold warnAdvisoryRevocations.
  destruct (size advisory =? 0)%nat eqn:Hsz.
  - apply Nat.eqb_eq, size_empty_inv in Hsz. apply leibniz_equiv in Hsz as ->.
    assert (Hf : forall s', scope_entry s' (forget_scope s st) = if s ==? s' then None else scope_entry s' st)
      by (intros; apply scope_entry_forget).
    destruct Hok as [Hk Hlen Hc]. split_and!.
    + constructor; [by apply forget_keys| |].
      * etrans; [|exact Hlen]. unfold forget_scope, delete_where. apply List.filter_length_le.
      * intros s' e. rewrite Hf. case_bool_decide; [done|apply Hc].
    + rewrite Hf, bool_decide_true by done. by constructor.
    + intros s' Hn. rewrite Hf, bool_decide_false by congruence. by left.
  - assert (Hne : advisory <> ∅) by (intros ->; by rewrite size_empty in Hsz).
    destruct (touch_ok s (MkWarnEntry (advisory_fingerprint advisory) 0) st Hok) as (Ht1 & Ht2 & Ht3); [simpl; done|].
    destruct (scope_entry s st) as [prev|] eqn:Hprev;
      [|split_and!; [done|rewrite Ht2; by constructor|done]].
    destruct (bool_decide_reflect (aw_fingerprint prev = advisory_fingerprint advisory)) as [Hfp|Hfp]; simpl;
      [|split_and!; [done|rewrite Ht2; constructor; naive_solver|done]].
    pose proof (wo_count _ Hok _ _ Hprev) as Hcount.
    destruct (ADVISORY_REVOCATION_WARNING_SUMMARY_EVERY <=? aw_suppressed prev + 1) eqn:Hle; bools.
    + split_and!; [done| |done]. rewrite Ht2.
      replace (aw_suppressed prev + 1) with ADVISORY_REVOCATION_WARNING_SUMMARY_EVERY by lia.
      apply (warned_summary _ _ prev); [done|done|done|lia].
    + destruct (bump_ok s (MkWarnEntry (aw_fingerprint prev) (aw_suppressed prev + 1)) st Hok) as (Hb1 & Hb2 & Hb3);
        [simpl; lia|by rewrite Hprev|].
      split_and!; [done|rewrite Hb2; by apply (warned_silent _ _ prev)|intros; left; by apply Hb3].
Qed.

(** ** Traces *)

(** The polls of one process: the scope and the advisory set of each.  The second
    component is what was logged, with the scope it was logged for. *)
Fixpoint warn_run (st : AdvisoryWarnByScope) (calls : list (string * gset string))
    : AdvisoryWarnByScope * list (string * AdvisoryWarning) :=
  match calls with
  | [] => (st, [])
  | (s, advisory) :: calls' =>
      let '(st1, out) := warnAdvisoryRevocations st s advisory in
      let '(st2, outs) := warn_run st1 calls' in
      (st2, match out with Some w => (s, w) :: outs | None => outs end)
  end.

Definition calls_of (s : string) (calls : list (string * gset string)) : nat :=
  changes (fun c => fst c ==? s) calls.

Lemma empty_warn_ok : warn_ok [].
Proof. constructor; [apply NoDup_nil_2|simpl; lia|done]. Qed.

Lemma warn_run_ok st calls : warn_ok st -> warn_ok (fst (warn_run st calls)).
Proof.
  revert st. induction calls as [|[s adv] calls IH]; intros st Hok; [done|]. simpl.
  pose proof (warn_call st s adv Hok) as Hc. destruct (warnAdvisoryRevocations st s adv) as [st1 out].
  destruct Hc as [Hok1 _]. specialize (IH st1 Hok1). by destruct (warn_run st1 calls).
Qed.

(** While a scope logs nothing, its calls are counted. *)
Lemma silent_calls st s calls :
  warn_ok st -> (forall adv, (s, adv) ∈ calls -> adv <> ∅) ->
  (forall w, (s, w) ∉ snd (warn_run st calls)) ->
  Z.of_nat (calls_of s calls) <=
    match scope_entry s st with
    | Some e => ADVISORY_REVOCATION_WARNING_SUMMARY_EVERY - 1 - aw_suppressed e
    | None => 0
    end.
Proof.
  revert st. induction calls as [|[s' adv] calls IH]; intros st Hok Hne Hno.
  - unfold calls_of, changes. simpl. destruct (scope_entry s st) as [e|] eqn:He; [|lia].
    pose proof (wo_count _ Hok _ _ He). lia.
  - simpl in Hno. pose proof (warn_call st s' adv Hok) as Hc.
    destruct (warnAdvisoryRevocations st s' adv) as [st1 out]. destruct Hc as (Hok1 & Hw & Hother).
    specialize (IH st1 Hok1 (fun a Ha => Hne a (list_elem_of_further _ _ _ Ha))).
    destruct (warn_run st1 calls) as [st2 outs]. simpl in *.
    assert (Hno' : forall w, (s, w) ∉ outs).
    { intros w Hin. apply (Hno w). destruct out; [by right|done]. }
    specialize (IH Hno'). unfold calls_of, changes in *. simpl.
    destruct (bool_decide_reflect (s' = s)) as [->|Hn]; simpl.
    + assert (Hout : out = None) by (destruct out as [w|]; [exfalso; apply (Hno w); by left|done]).
      assert (Hadv : adv <> ∅) by (apply Hne; by left).
      destruct Hw as [| | |e _ He _ Hlt]; try done. rewrite He. simpl in IH. lia.
    + assert (Hb : 0 <= match scope_entry s st with
                        | Some e => ADVISORY_REVOCATION_WARNING_SUMMARY_EVERY - 1 - aw_suppressed e | None => 0 end).
      { destruct (scope_entry s st) as [e|] eqn:He; [|lia]. pose proof (wo_count _ Hok _ _ He). lia. }
      destruct (Hother s) as [Heq|Heq]; [congruence|by rewrite Heq in IH|rewrite Heq in IH; lia].
Qed.

(** The entry a call with a non-empty set leaves bears that set. *)
Lemma warn_call_fingerprint st s adv :
  warn_ok st -> adv <> ∅ ->
  exists e, scope_entry s (fst (warnAdvisoryRevocations st s adv)) = Some e /\
            aw_fingerprint e = advisory_fingerprint adv.
Proof.
  intros Hok Hne. pose proof (warn_call st s adv Hok) as Hc.
  destruct (warnAdvisoryRevocations st s adv) as [st1 out]. destruct Hc as (_ & Hw & _). simpl.
  destruct Hw as [|? _|e _ _ _ _|e _ _ Hfp _]; [done|by eexists..].
Qed.

Lemma others_keep_entry st s calls :
  warn_ok st -> calls_of s calls = O ->
  scope_entry s (fst (warn_run st calls)) = scope_entry s st \/ scope_entry s (fst (warn_run st calls)) = None.
Proof.
  revert st. induction calls as [|[s' adv] calls IH]; intros st Hok Hz; [by left|].
  unfold calls_of, changes in *. simpl in *. destruct (bool_decide_reflect (s' = s)) as [->|Hn]; [done|].
  pose proof (warn_call st s' adv Hok) as Hc.
  destruct (warnAdvisoryRevocations st s' adv) as [st1 out]. destruct Hc as (Hok1 & _ & Hother).
  specialize (IH st1 Hok1 Hz). destruct (warn_run st1 calls) as [st2 outs]. simpl in *.
  destruct IH as [->| ->]; [|by right]. apply Hother. congruence.
Qed.

(** An unproven revocation is never muted. However the scopes of a process
    interleave, the throttle holds at most 64 entries; a scope whose claims
    persist is logged at least once in any 120 of its polls; and when the set of
    claimed keys changes (its fingerprint does), the next poll of that scope logs
    the new set in full. *)
Theorem advisory_claims_never_muted before s calls adv between adv' :
  let st := fst (warn_run [] before) in
  (length st <= ADVISORY_REVOCATION_WARNING_MAX_SCOPES)%nat /\
  ((forall a, (s, a) ∈ calls -> a <> ∅) ->
   ADVISORY_REVOCATION_WARNING_SUMMARY_EVERY <= Z.of_nat (calls_of s calls) ->
   exists w, (s, w) ∈ snd (warn_run st calls)) /\
  (adv <> ∅ -> adv' <> ∅ -> calls_of s between = O ->
   advisory_fingerprint adv' <> advisory_fingerprint adv ->
   let st' := fst (warn_run (fst (warnAdvisoryRevocations st s adv)) between) in
   snd (warnAdvisoryRevocations st' s adv') = Some (AdvisoryFirst (sort_strings (elements adv')))).
Proof.
  intros st. assert (Hok : warn_ok st) by apply warn_run_ok, empty_warn_ok. split_and!.
  - apply Hok.
  - intros Hne Hcount. destruct (List.filter (fun o => fst o ==? s) (snd (warn_run st calls))) as [|[s' w] l] eqn:Hf.
    + pose proof (silent_calls st s calls Hok Hne) as Hle. exfalso.
      assert (Hno : forall w, (s, w) ∉ snd (warn_run st calls)).
      { intros w Hin. assert (Hs : (s, w) ∈ select (fun o => fst o ==? s) (snd (warn_run st calls))).
        { apply elem_of_select. split; [done|]. simpl. by rewrite bool_decide_true. }
        unfold select in Hs. rewrite Hf in Hs. by apply elem_of_nil in Hs. }
      specialize (Hle Hno). destruct (scope_entry s st) as [e|] eqn:He.
      * pose proof (wo_count _ Hok _ _ He). lia.
      * unfold ADVISORY_REVOCATION_WARNING_SUMMARY_EVERY in *. lia.
    + assert (Hs : (s', w) ∈ select (fun o => fst o ==? s) (snd (warn_run st calls))) by (unfold select; rewrite Hf; by left).
      apply elem_of_select in Hs as [Hs Heq]. simpl in Heq. bools. subst. by exists w.
  - intros Ha Ha' Hz Hfp. cbv zeta. destruct (warn_call_fingerprint st s adv Hok Ha) as (e & He & Hefp).
    pose proof (warn_call st s adv Hok) as Hc. destruct (warnAdvisoryRevocations st s adv) as [st1 out].
    destruct Hc as (Hok1 & _). simpl in *.
    pose proof (others_keep_entry st1 s between Hok1 Hz) as Hkeep.
    pose proof (warn_run_ok st1 between Hok1) as Hok2. set (st2 := fst (warn_run st1 between)) in *.
    pose proof (warn_call st2 s adv' Hok2) as Hw. destruct (warnAdvisoryRevocations st2 s adv') as [st3 out'].
    destruct Hw as (_ & Hw & _). simpl. rewrite He in Hkeep.
    destruct Hw as [|? _|e' _ Hb Hf _|e' _ Hb Hf _]; [done|done| |];
      rewrite Hb in Hkeep; destruct Hkeep as [[= ->]|]; congruence.
Qed.
End Throttle.
