(* ===== verification/Verify.v ===== *)
(** * Verification of messages by their recipient

    [packages/sdk/src/identity/verify.ts] and the verdicts of
    [verification.ts]: what an agent checks before it lets a message act, how a
    message it sends is signed, and how a quoted message is checked.  Times are
    milliseconds. *)

From S2P Require Import Prelude Json IsoTime JsValues Identity TrustSync.
Import Ascii String.
Open Scope string_scope.
Open Scope Z_scope.

(** ** Data *)

Record SignedMessage := MkSigned {
  sm_message_id : option string;
  sm_sender_kind : option string;
  sm_sender_agent_id : option string;
  sm_message_type : option string;
  sm_priority : option string;
  sm_body : json;
  sm_operator_sig : option string;
  sm_agent_sig : option string;
  sm_key_id : option string;
  sm_sig_canonical : option json
}.

Record RosterEntryLike := MkRosterEntryLike {
  re_agent_id : option string;
  re_identity_public_key : option string;
  re_key_id : option string;
  re_endorsed_by_key_id : option string;
  re_endorsement_sig : option string
}.

Inductive SenderKind := KOperator | KPeer.

Record VerifyResult := MkVerdict {
  vr_verified : bool;
  vr_kind : SenderKind;
  vr_reason : option string;
  vr_keyId : option string
}.

Record VerifyOpts := MkVerifyOpts {
  vo_selfAgentId : string;
  vo_fleetId : string;
  vo_operatorKeys : gmap string string;
  vo_rosterByAgent : gmap string RosterEntryLike;
  vo_seenNonces : gset string;
  vo_now : Z;
  vo_maxSkewSeconds : option Z;
  vo_maxFutureSkewSeconds : option Z
}.

Definition MAX_PAST_SKEW_SECONDS : Z := 86400 + 300.
Definition MAX_FUTURE_SKEW_SECONDS : Z := 300.

Definition isOperatorMessage (msg : SignedMessage) : bool := sm_sender_kind msg ==? Some "operator".

(** The signature the sender kind calls for. *)
Definition signature_of (msg : SignedMessage) : option string :=
  truthy (if isOperatorMessage msg then sm_operator_sig msg else sm_agent_sig msg).

(** A check that fails with its reason, or an exception. *)
Inductive Failure := Fails (reason : string) | Crash.

Section Verify.
Context `{Crypto} `{NodeCrypto}.

Definition sha256Hex (text : string) : string := node_sha256 text.

(** ** The checks *)

(** [operatorKeys[k]] as a key to verify under.  An inherited property passes the
    test for truth and [fromB64url] throws on it. *)
Definition operator_key (opts : VerifyOpts) (k reason : string) : result Failure string :=
  match own (vo_operatorKeys opts) k with
  | Some pub => Ok pub
  | None => Throw (if holds (vo_operatorKeys opts) k then Crash else Fails reason)
  end.

(** 1. The signer's public key: pinned, or endorsed by a pinned key.  (An inherited
    property of [rosterByAgent] has no [identity_public_key], like a missing entry.) *)
Definition resolve_signer (opts : VerifyOpts) (msg : SignedMessage) (key_id : string) : result Failure string :=
  if isOperatorMessage msg then operator_key opts key_id "unknown-operator-key"
  else
    let sender := default "" (sm_sender_agent_id msg) in
    fetch entry := vo_rosterByAgent opts !! sender orelse Fails "unknown-sender-key" ;;
    fetch identity := truthy (re_identity_public_key entry) orelse Fails "unknown-sender-key" ;;
    throw_if negb (re_key_id entry ==? Some key_id) with Fails "unknown-sender-key" ;;
    fetch endorser := truthy (re_endorsed_by_key_id entry) orelse Fails "sender-key-unendorsed" ;;
    fetch esig := truthy (re_endorsement_sig entry) orelse Fails "sender-key-unendorsed" ;;
    let? endorserPub := operator_key opts endorser "endorser-not-pinned" in
    throw_if negb (verifyCanonical
                     (agentKeyEndorsementPayload (vo_fleetId opts) sender (default "" (re_key_id entry)) identity)
                     esig (fromB64url endorserPub)) with Fails "bad-endorsement" ;;
    Ok identity.

(** Number(c.v ?? 1) >= 2 *)
Definition binds_v2 (canonical : json) : bool :=
  let v := match prop canonical "v" with None | Some JNull => JNum 1 | Some x => x end in
  match js_Number v with Some n => 2 <=? n | None => false end.

Definition sorted_attachments (o : json) : list string := sort_strings (string_list o "attachments").

Definition body_text (body : json) : string := default "" (string_field body "text").

(** 3-7. The signed payload is about this message. *)
Definition bindings (opts : VerifyOpts) (msg : SignedMessage) (key_id : string) (c : json)
    : result Failure unit :=
  throw_if negb (is_str (prop c "key_id") key_id) with Fails "key-id-mismatch" ;;
  throw_if negb (is_str (prop c "fleet_id") (vo_fleetId opts)) with Fails "fleet-mismatch" ;;
  throw_if negb (isOperatorMessage msg) &&
           negb (match sm_sender_agent_id msg with
                 | Some a => is_str (prop c "sender_agent_id") a
                 | None => match prop c "sender_agent_id" with None => true | Some _ => false end
                 end)
    with Fails "sender-mismatch" ;;
  let recipient := default JNull (prop c "recipient") in
  throw_if (is_str (prop recipient "kind") "agent") &&
           negb (is_str (prop recipient "id") (vo_selfAgentId opts)) with Fails "recipient-mismatch" ;;
  throw_if negb (is_str (prop c "body_sha256") (sha256Hex (body_text (sm_body msg))))
    with Fails "body-mismatch" ;;
  throw_if binds_v2 c && negb (is_str (prop c "message_type") (default "" (sm_message_type msg)))
    with Fails "type-mismatch" ;;
  throw_if binds_v2 c && negb (is_str (prop c "priority") (default "" (sm_priority msg)))
    with Fails "priority-mismatch" ;;
  throw_if binds_v2 c && negb (sorted_attachments c ==? sorted_attachments (sm_body msg))
    with Fails "attachments-mismatch" ;;
  Ok tt.

(** The window of [sent_at]. *)
Definition timely (opts : VerifyOpts) (sentAt : Z) : bool :=
  let ageMs := vo_now opts - sentAt in
  negb ((default MAX_PAST_SKEW_SECONDS (vo_maxSkewSeconds opts) * 1000 <? ageMs) ||
        (default MAX_FUTURE_SKEW_SECONDS (vo_maxFutureSkewSeconds opts) * 1000 <? - ageMs)).

(** The nonce, when it is new. *)
Definition fresh_nonce (opts : VerifyOpts) (c : json) : option string :=
  match prop c "nonce" with
  | Some n => if js_truthy n && negb (bool_decide (js_String n ∈ vo_seenNonces opts)) then Some (js_String n) else None
  | None => None
  end.

(** All the checks in the source's order: the verified key id, or the failure. *)
Definition verify_checks (opts : VerifyOpts) (msg : SignedMessage) : result Failure string :=
  fetch sig := signature_of msg orelse Fails "unsigned" ;;
  fetch canonical := sm_sig_canonical msg orelse Fails "unsigned" ;;
  throw_if negb (js_truthy canonical) with Fails "unsigned" ;;
  fetch key_id := truthy (sm_key_id msg) orelse Fails "unsigned" ;;
  let? signerPub := resolve_signer opts msg key_id in
  throw_if negb (verifyCanonical canonical sig (fromB64url signerPub)) with Fails "bad-signature" ;;
  let? _ := bindings opts msg key_id canonical in
  fetch sentAt := date_parse (match prop canonical "sent_at" with Some s => js_String s | None => "undefined" end)
    orelse Fails "bad-timestamp" ;;
  throw_if negb (timely opts sentAt) with Fails "stale" ;;
  throw_if fresh_nonce opts canonical ==? None with Fails "replay" ;;
  Ok key_id.

(** [None]: it throws. *)
Definition verifyInbound (msg : SignedMessage) (opts : VerifyOpts) : option VerifyResult :=
  let kind := if isOperatorMessage msg then KOperator else KPeer in
  match verify_checks opts msg with
  | Ok key_id => Some (MkVerdict true kind None (Some key_id))
  | Throw (Fails reason) => Some (MkVerdict false kind (Some reason) (sm_key_id msg))
  | Throw Crash => None
  end.

(** The message is verified. *)
Definition verifies (msg : SignedMessage) (opts : VerifyOpts) : bool :=
  match verifyInbound msg opts with Some v => vr_verified v | None => false end.

(** ** Verdicts of a batch *)

Definition roster_map (roster : list RosterEntryLike) : gmap string RosterEntryLike :=
  foldl (fun m r => match truthy (re_agent_id r) with Some a => <[a := r]> m | None => m end) ∅ roster.

(** String(m.message_id) *)
Definition message_key (m : SignedMessage) : string := default "undefined" (sm_message_id m).

(** [None] is the verdict that could not be reached. *)
Definition no_verdicts (messages : list SignedMessage) : gmap string (option VerifyResult) :=
  foldl (fun out m => <[message_key m := None]> out) ∅ messages.

(** The loop over the messages, which a throw ends. *)
Fixpoint verdict_loop (opts : VerifyOpts) (messages : list SignedMessage) (out : gmap string (option VerifyResult))
    : option (gmap string (option VerifyResult)) :=
  match messages with
  | [] => Some out
  | m :: rest => verifyInbound m opts ≫= fun v => verdict_loop opts rest (<[message_key m := Some v]> out)
  end.

(** [None]: it throws. *)
Definition verifyBatch (messages : list SignedMessage) (identity : EkhoIdentity) (selfAgentId : string)
    (fleetId : option string) (roster : list RosterEntryLike) (seenNonces : gset string) (now : Z)
    : option (gmap string (option VerifyResult)) :=
  match truthy fleetId with
  | Some fleet =>
      if (size (id_pinned identity) =? 0)%nat
      then Some (no_verdicts messages)
      else verdict_loop (MkVerifyOpts selfAgentId fleet (id_pinned identity) (roster_map roster) seenNonces now
                           None None) messages ∅
  | None => Some (no_verdicts messages)
  end.

(** ** The execution gate *)

Inductive RequireSignedMode := ModeOff | ModeWarn | ModeRequire.

Definition parseRequireSignedMode (raw : option string) : RequireSignedMode :=
  let v := lower_string (trim (default "" raw)) in
  if v ==? "require" then ModeRequire else if v ==? "off" then ModeOff else ModeWarn.

Definition shouldAutowake (msg : SignedMessage) (verification : option VerifyResult)
    (operatorTrusted peerEnabled : bool) (requireSigned : RequireSignedMode) : bool :=
  let signed := negb (signature_of msg ==? None) in
  if isOperatorMessage msg then
    match signed, verification with
    | true, Some v => vr_verified v
    | _, _ => operatorTrusted
    end
  else if negb peerEnabled then false
  else match requireSigned, signed, verification with
       | ModeRequire, true, Some v => vr_verified v
       | ModeRequire, _, _ => false
       | _, true, Some v => vr_verified v
       | _, _, _ => true
       end.

(** ** Signing *)

(** The signing half of Node's crypto: hex decoding, Ed25519 signatures and the
    public key of a seed. *)
Class Signing := {
  fromHex : string -> string;
  ed25519_sign : string -> string -> string;
  ed25519_public : string -> string
}.

Section Signing.
Context `{Signing}.

Definition publicKeyB64urlFromSeed (seed : string) : string := b64url (ed25519_public seed).

Definition signCanonical (payload : json) (seed : string) : string :=
  b64url (ed25519_sign (canonicalize payload) seed).

Definition identityPublicKey (identity : EkhoIdentity) : string :=
  publicKeyB64urlFromSeed (fromHex (id_seedHex identity)).

(** What an agent adds to a message it sends. *)
Record SignedSendFields := MkSendFields {
  sf_agent_sig : string;
  sf_key_id : string;
  sf_sig_canonical : list (string * json)
}.

Definition buildSignedSendFields (identity : EkhoIdentity) (fleetId selfAgentId : string)
    (recipient : list (string * json)) (conversationId bodyText nonce sentAt messageType priority : string)
    (attachments : list string) : SignedSendFields :=
  let seed := fromHex (id_seedHex identity) in
  let kid := keyId (fromB64url (publicKeyB64urlFromSeed seed)) in
  let canonical :=
    [("v", JNum 2); ("fleet_id", JStr fleetId); ("sender_agent_id", JStr selfAgentId);
     ("key_id", JStr kid); ("recipient", JObj recipient); ("conversation_id", JStr conversationId);
     ("body_sha256", JStr (sha256Hex bodyText)); ("sent_at", JStr sentAt); ("nonce", JStr nonce);
     ("message_type", JStr messageType); ("priority", JStr priority);
     ("attachments", jlist (sort_strings attachments))] in
  MkSendFields (signCanonical (JObj canonical) seed) kid canonical.
End Signing.

(** ** Quoted messages *)

Record MsgSnapshotLike := MkSnapshotLike {
  ss_message_id : option string;
  ss_sender_agent_id : option string;
  ss_sender_kind : option string;
  ss_text : option string;
  ss_message_type : option string;
  ss_priority : option string;
  ss_attachments : option (list string);
  ss_operator_sig : option string;
  ss_agent_sig : option string;
  ss_key_id : option string;
  ss_sig_canonical : option json
}.

Definition snapshot_message (s : MsgSnapshotLike) : SignedMessage :=
  MkSigned (ss_message_id s) (ss_sender_kind s) (ss_sender_agent_id s) (ss_message_type s) (ss_priority s)
    (JObj [("text", JStr (default "" (ss_text s))); ("attachments", jlist (default [] (ss_attachments s)))])
    (ss_operator_sig s) (ss_agent_sig s) (ss_key_id s) (ss_sig_canonical s).

(** [None]: it throws. *)
Definition makeSnapshotVerifier (identity : option EkhoIdentity) (selfAgentId : string)
    (fleetId : option string) (roster : list RosterEntryLike) (now : Z) (snapshot : option MsgSnapshotLike)
    : option bool :=
  let operatorKeys := match identity with Some i => id_pinned i | None => ∅ end in
  match truthy fleetId with
  | Some fleet =>
      if (size operatorKeys =? 0)%nat then Some false
      else match snapshot with
           | None => Some false
           | Some s => vr_verified <$> verifyInbound (snapshot_message s)
                         (MkVerifyOpts selfAgentId fleet operatorKeys (roster_map roster) ∅ now None None)
           end
  | None => Some false
  end.
End Verify.
