(* ===== verification/VerifyProperties.v ===== *)
(** * Properties of message verification

    What a verified message proves, what may wake an agent whose trust root a
    hostile relay has been feeding, and that an honestly signed message passes. *)

From S2P Require Import Prelude Json IsoTime JsValues Identity TrustSync TrustSafety Verify.
Import Ascii String.
Open Scope string_scope.
Open Scope Z_scope.

Section Verified.
Context `{Crypto} `{NodeCrypto}.

(** The key that may have signed [msg] under the id [k]: a pinned operator key, or
    the sender's identity key, endorsed for this fleet by a pinned key. *)
Inductive trusted_signer (opts : VerifyOpts) (msg : SignedMessage) (k : string) : string -> Prop :=
  | signer_operator pub :
      isOperatorMessage msg = true -> own (vo_operatorKeys opts) k = Some pub ->
      trusted_signer opts msg k pub
  | signer_peer pub endorser epub esig :
      isOperatorMessage msg = false -> own (vo_operatorKeys opts) endorser = Some epub ->
      verifyCanonical
        (agentKeyEndorsementPayload (vo_fleetId opts) (default "" (sm_sender_agent_id msg)) k pub)
        esig (fromB64url epub) = true ->
      trusted_signer opts msg k pub.

Lemma resolve_signer_Ok opts msg k pub :
  resolve_signer opts msg k = Ok pub -> trusted_signer opts msg k pub.
Proof.
  unfold resolve_signer. destruct (isOperatorMessage msg) eqn:Ho.
  - unfold operator_key. destruct (own (vo_operatorKeys opts) k) as [p|] eqn:Hp; [|done]. intros [= <-]. by constructor.
  - destruct (vo_rosterByAgent opts !! default "" (sm_sender_agent_id msg)) as [entry|]; [|done].
    destruct (truthy (re_identity_public_key entry)) as [p|]; [|done].
    destruct (bool_decide_reflect (re_key_id entry = Some k)) as [Hk|]; [simpl|done].
    destruct (truthy (re_endorsed_by_key_id entry)) as [en|]; [|done].
    destruct (truthy (re_endorsement_sig entry)) as [esig|]; [|done].
    unfold operator_key. destruct (own (vo_operatorKeys opts) en) as [epub|] eqn:He; [|done].
    rewrite Hk. simpl. destruct (verifyCanonical _ _ _) eqn:Hv; [|done]. intros [= <-].
    by eapply signer_peer.
Qed.

(** What the signed payload says, as checked. *)
Record bound (opts : VerifyOpts) (msg : SignedMessage) (k : string) (c : json) : Prop := {
  bd_key : prop c "key_id" = Some (JStr k);
  bd_fleet : prop c "fleet_id" = Some (JStr (vo_fleetId opts));
  bd_sender : isOperatorMessage msg = false -> prop c "sender_agent_id" = option_map JStr (sm_sender_agent_id msg);
  bd_recipient : prop (default JNull (prop c "recipient")) "kind" = Some (JStr "agent") ->
    prop (default JNull (prop c "recipient")) "id" = Some (JStr (vo_selfAgentId opts));
  bd_body : prop c "body_sha256" = Some (JStr (sha256Hex (body_text (sm_body msg))));
  bd_type : binds_v2 c = true -> prop c "message_type" = Some (JStr (default "" (sm_message_type msg)));
  bd_priority : binds_v2 c = true -> prop c "priority" = Some (JStr (default "" (sm_priority msg)));
  bd_attachments : binds_v2 c = true -> sorted_attachments c = sorted_attachments (sm_body msg)
}.

Lemma bindings_iff opts msg k c : bindings opts msg k c = Ok tt <-> bound opts msg k c.
Proof.
  unfold bindings. split.
  - intros Hb.
    destruct (is_str (prop c "key_id") k) eqn:E1; [simpl in Hb|done].
    destruct (is_str (prop c "fleet_id") (vo_fleetId opts)) eqn:E2; [simpl in Hb|done].
    destruct (negb (isOperatorMessage msg) && _) eqn:E3; [done|].
    destruct (is_str (prop (default JNull (prop c "recipient")) "kind") "agent" && _) eqn:E4; [done|].
    destruct (is_str (prop c "body_sha256") _) eqn:E5; [simpl in Hb|done].
    destruct (binds_v2 c && negb (is_str (prop c "message_type") _)) eqn:E6; [done|].
    destruct (binds_v2 c && negb (is_str (prop c "priority") _)) eqn:E7; [done|].
    destruct (binds_v2 c && negb (bool_decide _)) eqn:E8; [done|].
    apply is_str_true in E1, E2, E5. constructor; try done.
    + intros Ho. rewrite Ho in E3. simpl in E3. bools.
      destruct (sm_sender_agent_id msg) as [a|]; [by apply is_str_true in E3|].
      by destruct (prop c "sender_agent_id").
    + intros Hk%is_str_true. rewrite Hk in E4. simpl in E4. bools. by apply is_str_true.
    + intros Hv. rewrite Hv in E6. simpl in E6. bools. by apply is_str_true.
    + intros Hv. rewrite Hv in E7. simpl in E7. bools. by apply is_str_true.
    + intros Hv. rewrite Hv in E8. simpl in E8. by bools.
  - intros [E1 E2 E3 E4 E5 E6 E7 E8].
    rewrite (proj2 (is_str_true _ _) E1), (proj2 (is_str_true _ _) E2), (proj2 (is_str_true _ _) E5). simpl.
    replace (negb (isOperatorMessage msg) && _) with false.
    2:{ destruct (isOperatorMessage msg); [done|]. simpl. rewrite (E3 eq_refl).
        destruct (sm_sender_agent_id msg); simpl; [|done]. by rewrite bool_decide_true. }
    destruct (is_str (prop (default JNull (prop c "recipient")) "kind") "agent") eqn:Ek; simpl.
    { apply is_str_true in Ek. rewrite (proj2 (is_str_true _ _) (E4 Ek)). simpl.
      destruct (binds_v2 c); simpl; [|done].
      rewrite (proj2 (is_str_true _ _) (E6 eq_refl)), (proj2 (is_str_true _ _) (E7 eq_refl)). simpl.
      by rewrite bool_decide_true by auto. }
    destruct (binds_v2 c); simpl; [|done].
    rewrite (proj2 (is_str_true _ _) (E6 eq_refl)), (proj2 (is_str_true _ _) (E7 eq_refl)). simpl.
    by rewrite bool_decide_true by auto.
Qed.

(** The time the payload gives. *)
Definition sent_at_text (c : json) : string :=
  match prop c "sent_at" with Some s => js_String s | None => "undefined" end.

(** Every check of [verifyInbound], without its order. *)
Record genuine (opts : VerifyOpts) (msg : SignedMessage) (k pub sig : string) (c : json) : Prop := {
  gn_sig : signature_of msg = Some sig;
  gn_canonical : sm_sig_canonical msg = Some c;
  gn_truthy : js_truthy c = true;
  gn_key : truthy (sm_key_id msg) = Some k;
  gn_signer : resolve_signer opts msg k = Ok pub;
  gn_verifies : verifyCanonical c sig (fromB64url pub) = true;
  gn_bound : bound opts msg k c;
  gn_timely : exists t, date_parse (sent_at_text c) = Some t /\ timely opts t = true;
  gn_fresh : fresh_nonce opts c <> None
}.

Lemma verify_checks_iff opts msg k :
  verify_checks opts msg = Ok k <-> exists pub sig c, genuine opts msg k pub sig c.
Proof.
  unfold verify_checks. split.
  - intros Hv.
    destruct (signature_of msg) as [sig|] eqn:E1; [|done].
    destruct (sm_sig_canonical msg) as [c|] eqn:E2; [|done].
    destruct (js_truthy c) eqn:E3; [simpl in Hv|done].
    destruct (truthy (sm_key_id msg)) as [k'|] eqn:E4; [|done].
    destruct (resolve_signer opts msg k') as [pub|] eqn:E5; [|done].
    destruct (verifyCanonical c sig (fromB64url pub)) eqn:E6; [simpl in Hv|done].
    destruct (bindings opts msg k' c) as [[]|] eqn:E7; [|done].
    fold (sent_at_text c) in Hv.
    destruct (date_parse (sent_at_text c)) as [t|] eqn:E8; [|done].
    destruct (timely opts t) eqn:E9; [simpl in Hv|done].
    destruct (bool_decide_reflect (fresh_nonce opts c = None)) as [|E10]; [done|].
    injection Hv as ->. exists pub, sig, c. constructor; try done; [by apply bindings_iff|by exists t].
  - intros (pub & sig & c & [E1 E2 E3 E4 E5 E6 E7 (t & E8 & E9) E10]).
    rewrite E1, E2, E3, E4, E5. simpl. rewrite E6. simpl. rewrite (proj2 (bindings_iff _ _ _ _) E7).
    fold (sent_at_text c). rewrite E8, E9. simpl. by rewrite bool_decide_false.
Qed.

Lemma verified_iff msg opts :
  verifies msg opts = true <-> exists k pub sig c, genuine opts msg k pub sig c.
Proof.
  unfold verifies, verifyInbound. setoid_rewrite <- verify_checks_iff.
  destruct (verify_checks opts msg) as [k|[reason|]]; simpl; [|naive_solver..]. split; [intros _; by exists k|done].
Qed.
End Verified.

(** ** What a signature binds *)

Section Binding.
Context `{Crypto} `{NodeCrypto}.

(** A signature binds what it was given for. If two messages carry the same
    signed payload and both verify, at whatever agents and times, they have the
    same text (as far as SHA-256 tells texts apart), fleet and key, the same
    sender when they are peers', the same addressee when the payload names one,
    and, for a payload of version 2, the same type, priority and attachments up to
    order: a relay that alters one of them breaks the verification. *)
Theorem signature_binds_content msg1 msg2 opts1 opts2 c :
  verifies msg1 opts1 = true -> verifies msg2 opts2 = true ->
  sm_sig_canonical msg1 = Some c -> sm_sig_canonical msg2 = Some c ->
  (node_sha256 (body_text (sm_body msg1)) = node_sha256 (body_text (sm_body msg2)) ->
   body_text (sm_body msg1) = body_text (sm_body msg2)) ->
  body_text (sm_body msg1) = body_text (sm_body msg2) /\
  vo_fleetId opts1 = vo_fleetId opts2 /\ sm_key_id msg1 = sm_key_id msg2 /\
  (isOperatorMessage msg1 = false -> isOperatorMessage msg2 = false ->
     sm_sender_agent_id msg1 = sm_sender_agent_id msg2) /\
  (prop (default JNull (prop c "recipient")) "kind" = Some (JStr "agent") ->
     vo_selfAgentId opts1 = vo_selfAgentId opts2) /\
  (binds_v2 c = true ->
     default "" (sm_message_type msg1) = default "" (sm_message_type msg2) /\
     default "" (sm_priority msg1) = default "" (sm_priority msg2) /\
     string_list (sm_body msg1) "attachments" ≡ₚ string_list (sm_body msg2) "attachments").
Proof.
  intros (k1 & p1 & s1 & c1 & G1)%verified_iff (k2 & p2 & s2 & c2 & G2)%verified_iff Hc1 Hc2 Hsha.
  assert (c1 = c /\ c2 = c) as [-> ->] by (pose proof (gn_canonical _ _ _ _ _ _ G1);
    pose proof (gn_canonical _ _ _ _ _ _ G2); split; congruence).
  pose proof (gn_key _ _ _ _ _ _ G1) as [K1 _]%truthy_Some. pose proof (gn_key _ _ _ _ _ _ G2) as [K2 _]%truthy_Some.
  destruct (gn_bound _ _ _ _ _ _ G1) as [A1 A2 A3 A4 A5 A6 A7 A8].
  destruct (gn_bound _ _ _ _ _ _ G2) as [B1 B2 B3 B4 B5 B6 B7 B8].
  unfold sha256Hex in *. split_and!; try congruence.
  - apply Hsha. congruence.
  - intros O1 O2. specialize (A3 O1). specialize (B3 O2).
    destruct (sm_sender_agent_id msg1), (sm_sender_agent_id msg2); simpl in *; congruence.
  - intros Hk. specialize (A4 Hk). specialize (B4 Hk). congruence.
  - intros Hv. specialize (A6 Hv). specialize (A7 Hv). specialize (A8 Hv). specialize (B6 Hv).
    specialize (B7 Hv). specialize (B8 Hv). split_and!; [congruence|congruence|].
    unfold sorted_attachments in *. rewrite <- (sort_strings_perm (string_list (sm_body msg1) "attachments")),
      <- (sort_strings_perm (string_list (sm_body msg2) "attachments")).
    by rewrite <- A8, <- B8.
Qed.

(** ** What wakes an agent *)

(** A key rooted in [roots] signed [msg]'s payload: an operator key, or the
    sender's key, which a rooted key endorsed. *)
Definition rooted_signature (roots : gmap string string) (fleet : string) (msg : SignedMessage) : Prop :=
  exists k pub sig c, signature_of msg = Some sig /\ sm_sig_canonical msg = Some c /\
    verifyCanonical c sig (fromB64url pub) = true /\
    prop c "key_id" = Some (JStr k) /\ prop c "fleet_id" = Some (JStr fleet) /\
    prop c "body_sha256" = Some (JStr (sha256Hex (body_text (sm_body msg)))) /\
    if isOperatorMessage msg then Rooted roots k pub
    else prop c "sender_agent_id" = option_map JStr (sm_sender_agent_id msg) /\
         exists endorser epub esig, Rooted roots endorser epub /\
           verifyCanonical (agentKeyEndorsementPayload fleet (default "" (sm_sender_agent_id msg)) k pub)
             esig (fromB64url epub) = true.

Lemma verified_rooted msg opts roots :
  (forall k pub, vo_operatorKeys opts !! k = Some pub -> Rooted roots k pub) ->
  verifies msg opts = true -> rooted_signature roots (vo_fleetId opts) msg.
Proof.
  intros Hr (k & pub & sig & c & G)%verified_iff. destruct (gn_bound _ _ _ _ _ _ G) as [A1 A2 A3 _ A5 _ _ _].
  exists k, pub, sig, c. split_and!; [by apply G|by apply G|by apply G|done|done|done|].
  destruct (resolve_signer_Ok _ _ _ _ (gn_signer _ _ _ _ _ _ G)) as [pub Ho Hp|pub en epub esig Ho Hp Hv]; rewrite Ho.
  - apply own_Some in Hp as [Hp _]. by apply Hr.
  - split; [by apply A3|]. apply own_Some in Hp as [Hp _]. exists en, epub, esig. auto.
Qed.

Lemma no_verdict messages k : mjoin (no_verdicts messages !! k) = None.
Proof.
  unfold no_verdicts. apply (foldl_inv (fun out : gmap string (option VerifyResult) => mjoin (out !! k) = None)).
  - by rewrite lookup_empty.
  - intros out m _ Ho. destruct (decide (k = message_key m)) as [->|Hn]; [by rewrite lookup_insert_eq|].
    by rewrite lookup_insert_ne by congruence.
Qed.

(** A verdict of the batch is the one of a message with its id, the only one there
    is when the ids are distinct. *)
Lemma verdict_loop_lookup opts messages out0 out k v :
  verdict_loop opts messages out0 = Some out -> mjoin (out !! k) = Some v ->
  mjoin (out0 !! k) = Some v \/ exists m, m ∈ messages /\ message_key m = k /\ verifyInbound m opts = Some v.
Proof.
  revert out0. induction messages as [|m messages IH]; intros out0; simpl; [intros [= ->]; by left|].
  intros (u & Hu & Hrest)%bind_Some Hk. destruct (IH _ Hrest Hk) as [Ho|(m' & Hin & ? & ?)].
  - destruct (decide (k = message_key m)) as [->|Hn].
    + rewrite lookup_insert_eq in Ho. injection Ho as ->. right. exists m. by split_and!; [left| |].
    + rewrite lookup_insert_ne in Ho by congruence. by left.
  - right. exists m'. by split_and!; [right| |].
Qed.

Lemma verifyBatch_lookup messages i self fleet roster seen now verdicts k v :
  verifyBatch messages i self fleet roster seen now = Some verdicts -> mjoin (verdicts !! k) = Some v ->
  exists fl m, fleet = Some fl /\ m ∈ messages /\ message_key m = k /\
    verifyInbound m (MkVerifyOpts self fl (id_pinned i) (roster_map roster) seen now None None) = Some v.
Proof.
  unfold verifyBatch. destruct (truthy fleet) as [fl|] eqn:Hf; [|intros [= <-]; by rewrite no_verdict].
  destruct (size _ =? 0)%nat; [intros [= <-]; by rewrite no_verdict|]. intros Hloop Hk.
  apply truthy_Some in Hf as [Hf _].
  destruct (verdict_loop_lookup _ _ _ _ _ _ Hloop Hk) as [Ho|(m & Hin & Hm & Hv)]; [by rewrite lookup_empty in Ho|].
  by exists fl, m.
Qed.

Lemma same_key_same_message messages (m m' : SignedMessage) :
  NoDup (map message_key messages) -> m ∈ messages -> m' ∈ messages -> message_key m = message_key m' -> m = m'.
Proof.
  induction messages as [|x l IH]; [by intros _ ?%elem_of_nil|].
  intros [Hx Hnd]%(NoDup_cons (message_key x)) Hm Hm' Heq.
  apply elem_of_cons in Hm as [->|Hm], Hm' as [->|Hm']; [done|..].
  - destruct Hx. rewrite Heq. by apply list_elem_of_fmap_2.
  - destruct Hx. rewrite <- Heq. by apply list_elem_of_fmap_2.
  - by apply IH.
Qed.

(** C9. Only a signature rooted in the agent's own trust wakes it. Whatever a relay
    has served an agent that has its pins, in any number of polls, and whatever
    batch it serves next: if the verdicts are computed at all, a message passes the
    wake gate, when relay attestation is not accepted (an operator message with the
    operator toggle off, a peer message in "require" mode), only if the batch has a
    message with its id whose very text, for this fleet, a key linked to the agent's
    original pins by verified endorsements signed.  That is the message itself when
    the ids of the batch are distinct; a relay that serves two messages under one
    id has the verdict of the later decide for both ([AutoReplyProperties.forged_sibling_wakes]). *)
Theorem wakes_only_on_rooted_signature id inputs messages self fleet roster seen now msg verdicts
    operatorTrusted peerEnabled mode :
  latched id ->
  verifyBatch messages (sync_all id inputs) self fleet roster seen now = Some verdicts -> msg ∈ messages ->
  (if isOperatorMessage msg then operatorTrusted = false else mode = ModeRequire) ->
  shouldAutowake msg (mjoin (verdicts !! message_key msg)) operatorTrusted peerEnabled mode = true ->
  exists fl signed, fleet = Some fl /\ signed ∈ messages /\ message_key signed = message_key msg /\
    rooted_signature (id_pinned id) fl signed /\
    (NoDup (map message_key messages) -> signed = msg).
Proof.
  intros Hl Hbatch Hin Hmode Hwake.
  assert (Hver : exists v, mjoin (verdicts !! message_key msg) = Some v /\ vr_verified v = true).
  { unfold shouldAutowake in Hwake. destruct (mjoin (verdicts !! message_key msg)) as [v|].
    - exists v. split; [done|]. destruct (isOperatorMessage msg); rewrite Hmode in Hwake;
        repeat (destruct (negb _); try done).
    - exfalso. destruct (isOperatorMessage msg); rewrite Hmode in Hwake; repeat (destruct (negb _); try done). }
  destruct Hver as (v & Hv & Hok).
  destruct (verifyBatch_lookup _ _ _ _ _ _ _ _ _ _ Hbatch Hv) as (fl & m & -> & Hm & Hkey & Hinb).
  exists fl, m. split_and!; [done|done|done| |by intros Hnd; apply (same_key_same_message messages)].
  refine (verified_rooted m (MkVerifyOpts self fl (id_pinned (sync_all id inputs)) (roster_map roster) seen now None None)
    (id_pinned id) _ _); [|by unfold verifies; rewrite Hinb].
  apply (sync_all_latched id inputs Hl).
Qed.
End Binding.

(** ** An honest signature passes *)

(** What Node's crypto documents of Ed25519 and base64url: a signature verifies
    under the public key of its seed, decoding undoes encoding, and none of the
    texts involved is empty. *)
Class SigningLaws `{Crypto} `{Signing} := {
  sign_verifies m seed : ed25519_verify (ed25519_sign m seed) m (ed25519_public seed) = Some true;
  b64url_round x : fromB64url (b64url x) = x;
  b64url_nonempty x : x <> "" -> b64url x <> "";
  sign_nonempty m seed : ed25519_sign m seed <> "";
  public_nonempty seed : ed25519_public seed <> "";
  keyId_nonempty x : x <> "" -> keyId x <> ""
}.

Section Honest.
Context `{Crypto} `{NodeCrypto} `{Signing} `{!SigningLaws}.

Lemma signCanonical_verifies payload seed :
  verifyCanonical payload (signCanonical payload seed) (fromB64url (publicKeyB64urlFromSeed seed)) = true.
Proof.
  unfold verifyCanonical, signCanonical, publicKeyB64urlFromSeed. by rewrite !b64url_round, sign_verifies.
Qed.

Lemma truthy_nonempty s : s <> "" -> truthy (Some s) = Some s.
Proof. intros Hs. by apply truthy_Some. Qed.

(** The recipient's side: the roster has the sender's key under its id, endorsed
    for the fleet by a key the recipient pins. *)
Definition endorsed_peer (opts : VerifyOpts) (sender pub : string) : Prop :=
  exists entry endorser epub esig,
    vo_rosterByAgent opts !! sender = Some entry /\
    re_identity_public_key entry = Some pub /\ re_key_id entry = Some (keyId (fromB64url pub)) /\
    re_endorsed_by_key_id entry = Some endorser /\ endorser <> "" /\
    re_endorsement_sig entry = Some esig /\ esig <> "" /\
    own (vo_operatorKeys opts) endorser = Some epub /\
    verifyCanonical (agentKeyEndorsementPayload (vo_fleetId opts) sender (keyId (fromB64url pub)) pub)
      esig (fromB64url epub) = true.

Lemma endorsed_peer_resolves opts msg sender pub :
  isOperatorMessage msg = false -> sm_sender_agent_id msg = Some sender -> pub <> "" ->
  endorsed_peer opts sender pub -> resolve_signer opts msg (keyId (fromB64url pub)) = Ok pub.
Proof.
  intros Ho Hs Hp (entry & en & epub & esig & He & Hpub & Hk & Hen & Hen0 & Hsig & Hs0 & Hown & Hv).
  unfold resolve_signer. rewrite Ho, Hs. simpl. rewrite He, Hpub, Hen, Hsig, Hk.
  rewrite !truthy_nonempty by done. rewrite bool_decide_true by done. simpl. unfold operator_key. by rewrite Hown, Hv.
Qed.

(** A message whose fields are those its sender signed verifies. *)
Lemma signed_fields_verify identity fleet self recipient conv text nonce sentAt ty prio atts msg opts t :
  let f := buildSignedSendFields identity fleet self recipient conv text nonce sentAt ty prio atts in
  isOperatorMessage msg = false -> sm_sender_agent_id msg = Some self ->
  sm_agent_sig msg = Some (sf_agent_sig f) -> sm_key_id msg = Some (sf_key_id f) ->
  sm_sig_canonical msg = Some (JObj (sf_sig_canonical f)) ->
  sm_message_type msg = Some ty -> sm_priority msg = Some prio ->
  body_text (sm_body msg) = text -> sort_strings (string_list (sm_body msg) "attachments") = sort_strings atts ->
  vo_fleetId opts = fleet -> endorsed_peer opts self (identityPublicKey identity) ->
  (obj_get "kind" recipient = Some (JStr "agent") -> obj_get "id" recipient = Some (JStr (vo_selfAgentId opts))) ->
  date_parse sentAt = Some t -> timely opts t = true -> nonce <> "" -> nonce ∉ vo_seenNonces opts ->
  verifyInbound msg opts = Some (MkVerdict true KPeer None (Some (sf_key_id f))).
Proof.
  intros f Ho Hs Hsig Hk Hc Hty Hpr Htext Hatts Hfl Hpeer Hrec Hdate Htime Hn0 Hn.
  assert (Hpub0 : identityPublicKey identity <> "") by apply b64url_nonempty, public_nonempty.
  assert (Hkid : keyId (fromB64url (identityPublicKey identity)) <> "")
    by (apply keyId_nonempty; unfold identityPublicKey, publicKeyB64urlFromSeed;
        rewrite b64url_round; apply public_nonempty).
  assert (Hgen : genuine opts msg (sf_key_id f) (identityPublicKey identity) (sf_agent_sig f)
                   (JObj (sf_sig_canonical f))).
  { constructor.
    - unfold signature_of. rewrite Ho, Hsig. apply truthy_nonempty, b64url_nonempty, sign_nonempty.
    - done.
    - done.
    - rewrite Hk. by apply truthy_nonempty.
    - by apply (endorsed_peer_resolves _ _ self).
    - apply signCanonical_verifies.
    - constructor; simpl; try done.
      + by rewrite Hfl.
      + intros _. by rewrite Hs.
      + by rewrite Htext.
      + by rewrite Hty.
      + by rewrite Hpr.
      + intros _. unfold sorted_attachments. simpl. rewrite map_map, map_id, Hatts. apply sort_strings_idem.
    - by exists t.
    - unfold fresh_nonce. simpl. by rewrite !bool_decide_false. }
  unfold verifyInbound. rewrite Ho.
  by rewrite (proj2 (verify_checks_iff opts msg (sf_key_id f)) (ex_intro _ _ (ex_intro _ _ (ex_intro _ _ Hgen)))).
Qed.
End Honest.

(** ** A concrete agent and message *)

(** A signature of the toy scheme is the key and the message. *)
Definition toy_signing : Signing := {|
  fromHex := fun s => s;
  ed25519_sign := fun m seed => ("k" +:+ seed) +:+ m;
  ed25519_public := fun seed => "k" +:+ seed
|}.

Lemma toy_signing_laws : @SigningLaws toy_crypto toy_signing.
Proof.
  constructor; try done.
  - intros m seed. simpl. by rewrite bool_decide_true.
  - intros [|c x] Hx; [done|]. unfold keyId. simpl. done.
Qed.

Definition demo_sender : EkhoIdentity := MkEkhoIdentity "a1" ∅ None ∅ ∅.
Definition demo_sent_at : string := "2026-01-01T00:00:00.000Z".
Definition demo_recipient : list (string * json) := [("kind", JStr "agent"); ("id", JStr "a2")].

Definition demo_fields : SignedSendFields :=
  @buildSignedSendFields toy_crypto toy_node toy_signing demo_sender "f" "a1" demo_recipient "c1" "hi" "n1"
    demo_sent_at "direct" "normal" [].
Definition demo_entry : RosterEntryLike :=
  MkRosterEntryLike (Some "a1") (Some "ka1") (Some "ka1") (Some "A")
    (Some (@toy_sign "pa" (agentKeyEndorsementPayload "f" "a1" "ka1" "ka1"))).
Definition demo_opts : VerifyOpts :=
  MkVerifyOpts "a2" "f" {["A" := "pa"]} {["a1" := demo_entry]} ∅ 1767225600000 None None.

(** The message of those fields, as the relay serves it under [message_id]. *)
Definition demo_message (message_id : string) : SignedMessage :=
  MkSigned (Some message_id) (Some "agent") (Some "a1") (Some "direct") (Some "normal")
    (JObj [("text", JStr "hi")]) None (Some (sf_agent_sig demo_fields)) (Some (sf_key_id demo_fields))
    (Some (JObj (sf_sig_canonical demo_fields))).
Definition demo_recipient_identity : EkhoIdentity := MkEkhoIdentity "a2" {["A" := "pa"]} None ∅ ∅.
Definition demo_verdicts (ids : list string) : gmap string (option VerifyResult) :=
  default ∅ (@verifyBatch toy_crypto toy_node (map demo_message ids) demo_recipient_identity "a2" (Some "f") [demo_entry] ∅
    1767225600000).

Lemma signature_binds_content_witness :
  @verifies toy_crypto toy_node (demo_message "m1") demo_opts = true /\
  body_text (sm_body (demo_message "m1")) = body_text (sm_body (demo_message "m2")).
Proof.
  assert (H1 : @verifies toy_crypto toy_node (demo_message "m1") demo_opts = true)
    by (vm_compute; reflexivity).
  assert (H2 : @verifies toy_crypto toy_node (demo_message "m2") demo_opts = true)
    by (vm_compute; reflexivity).
  split; [exact H1|].
  exact (proj1 (@signature_binds_content toy_crypto toy_node (demo_message "m1") (demo_message "m2") demo_opts
    demo_opts _ H1 H2 eq_refl eq_refl (fun e => e))).
Defined.

Lemma wakes_only_on_rooted_signature_witness :
  shouldAutowake (demo_message "m1") (mjoin (demo_verdicts ["m1"] !! "m1")) true true ModeRequire = true /\
  @rooted_signature toy_crypto toy_node (id_pinned demo_recipient_identity) "f" (demo_message "m1").
Proof.
  assert (Hw : shouldAutowake (demo_message "m1") (mjoin (demo_verdicts ["m1"] !! "m1")) true true ModeRequire = true)
    by (vm_compute; reflexivity).
  split; [exact Hw|].
  assert (Hl : latched demo_recipient_identity) by (left; apply insert_non_empty).
  assert (Hb : @verifyBatch toy_crypto toy_node [demo_message "m1"] (@sync_all toy_crypto demo_recipient_identity [])
                 "a2" (Some "f") [demo_entry] ∅ 1767225600000 = Some (demo_verdicts ["m1"])) by reflexivity.
  assert (Hin : demo_message "m1" ∈ [demo_message "m1"]) by by left.
  destruct (@wakes_only_on_rooted_signature toy_crypto toy_node demo_recipient_identity [] [demo_message "m1"] "a2"
    (Some "f") [demo_entry] ∅ 1767225600000 (demo_message "m1") _ true true ModeRequire Hl Hb Hin eq_refl Hw)
    as (fl & s & Hfl & _ & _ & Hs & Heq).
  rewrite <- (Heq (NoDup_singleton _)). injection Hfl as <-. exact Hs.
Defined.

(** A throw in the middle. One message under the key id [constructor], from an
    operator by its kind, and the verdicts of the whole batch are lost. *)
Definition crashing_message : SignedMessage :=
  MkSigned (Some "m9") (Some "operator") None None None JNull (Some "sig") None (Some "constructor") (Some (JObj [])).
Example one_message_stops_the_batch :
  @verifyBatch toy_crypto toy_node [demo_message "m1"; crashing_message] demo_recipient_identity "a2" (Some "f")
    [demo_entry] ∅ 1767225600000 = None.
Proof. vm_compute. reflexivity. Qed.

(** The nonce does not stop a replay within one batch. [verifyBatch] checks
    every message against the nonces seen before the batch and burns none, so one
    signed message, served twice under two message ids, is verified twice, and
    both copies pass the gate in "require" mode. *)
Example batch_replay_verifies :
  demo_verdicts ["m1"; "m2"] !! "m1" = Some (Some (MkVerdict true KPeer None (Some "ka1"))) /\
  demo_verdicts ["m1"; "m2"] !! "m2" = Some (Some (MkVerdict true KPeer None (Some "ka1"))) /\
  forall i, i ∈ ["m1"; "m2"] ->
    shouldAutowake (demo_message i) (mjoin (demo_verdicts ["m1"; "m2"] !! i)) false true ModeRequire = true.
Proof.
  split_and!; [vm_compute; reflexivity|vm_compute; reflexivity|].
  intros i [->|[->|?%elem_of_nil]%elem_of_cons]%elem_of_cons; [vm_compute; reflexivity|vm_compute; reflexivity|done].
Qed.
