(* ===== verification/EndToEnd.v ===== *)
(** * From one agent to another

    The relay's code and the agents' together: an agent signs
    ([buildSignedSendFields]), the relay's send route folds the signature into the
    metadata ([mergedMeta]), stores the message and hands it out or quotes it
    later, and the recipient verifies ([verifyInbound]).  [inbox_signed] and
    [snapshot_signed] are the JSON the recipient parses. *)

From S2P Require Import Prelude Json IsoTime JsValues Identity Events Config OperatorKeys Agents Enrollment Messages Rooms Delivery Policies AgentRoutes AgentSafety DeliverySafety RelaySafety TrustSync TrustSafety Verify VerifyProperties.
Import Ascii String.
Open Scope string_scope.
Open Scope Z_scope.

(** A JSON field the agent reads as a string. *)
Definition text_of (v : option json) : option string :=
  match v with Some (JStr s) => Some s | _ => None end.

Definition kind_text (from_operator : bool) : string := if from_operator then "operator" else "agent".

Definition inbox_signed (x : InboxMessage) : SignedMessage :=
  MkSigned (Some (im_message_id x)) (Some (kind_text (im_from_operator x))) (Some (im_sender x))
    (Some (im_type x)) (Some (im_priority x)) (im_body x) (text_of (im_operator_sig x))
    (text_of (im_agent_sig x)) (text_of (im_key_id x)) (im_sig_canonical x).

Definition snapshot_signed (s : Snapshot) : MsgSnapshotLike :=
  MkSnapshotLike (Some (sn_message_id s)) (Some (sn_sender s)) (Some (kind_text (sn_from_operator s)))
    (Some (sn_text s)) (Some (sn_message_type s)) (Some (sn_priority s)) (Some (sn_attachments s))
    (text_of (sn_operator_sig s)) (text_of (sn_agent_sig s)) (text_of (sn_key_id s)) (sn_sig_canonical s).

(** ** The metadata the relay stores *)

Lemma obj_get_cons k k' v kvs :
  obj_get k ((k', v) :: kvs) = if k' ==? k then Some v else obj_get k kvs.
Proof. unfold obj_get. simpl. by destruct (bool_decide (k' = k)). Qed.

Lemma obj_get_app k kvs kvs' :
  obj_get k (kvs ++ kvs')%list = match obj_get k kvs with Some v => Some v | None => obj_get k kvs' end.
Proof.
  induction kvs as [|[k' v] kvs IH]; [done|]. simpl. rewrite !obj_get_cons.
  by destruct (bool_decide (k' = k)).
Qed.

Lemma obj_get_None k kvs : existsb (fun kv => fst kv ==? k) kvs = false -> obj_get k kvs = None.
Proof.
  induction kvs as [|[k' v] kvs IH]; [done|]. simpl. rewrite obj_get_cons.
  destruct (bool_decide (k' = k)); [done|exact IH].
Qed.

Lemma obj_get_replace k k' v kvs :
  existsb (fun kv => fst kv ==? k') kvs = true ->
  obj_get k (map (fun kv : string * json => if fst kv ==? k' then (k', v) else kv) kvs) =
  if k' ==? k then Some v else obj_get k kvs.
Proof.
  induction kvs as [|[a w] kvs IH]; [done|]. simpl. intros He.
  destruct (bool_decide_reflect (a = k')) as [->|Hn]; simpl in *; rewrite !obj_get_cons.
  - destruct (bool_decide_reflect (k' = k)) as [|Hk]; [done|].
    destruct (existsb (fun kv => fst kv ==? k') kvs) eqn:E.
    + rewrite IH by done. by rewrite ?bool_decide_false.
    + f_equal. clear -E. induction kvs as [|[a w'] kvs IH]; [done|]. simpl in *.
      destruct (bool_decide (a = k')); [done|]. by rewrite IH.
  - rewrite IH by done. destruct (bool_decide_reflect (a = k)) as [->|]; [|done].
    by rewrite bool_decide_false by congruence.
Qed.

Lemma obj_get_set k k' v kvs : obj_get k (obj_set k' v kvs) = if k' ==? k then Some v else obj_get k kvs.
Proof.
  unfold obj_set. destruct (existsb _ _) eqn:E; [by apply obj_get_replace|].
  rewrite obj_get_app, obj_get_cons. destruct (bool_decide_reflect (k' = k)) as [->|]; [by rewrite (obj_get_None k kvs)|].
  by destruct (obj_get k kvs).
Qed.

(** The three signature fields, read back from the metadata of a signed send. *)
Lemma mergedMeta_fields r s k c :
  sr_agent_sig r = Some s -> s <> "" -> sr_key_id r = Some k -> k <> "" -> sr_sig_canonical r = Some c ->
  meta_field (mergedMeta r) "agent_sig" = Some (JStr s) /\
  meta_field (mergedMeta r) "key_id" = Some (JStr k) /\
  meta_field (mergedMeta r) "sig_canonical" = Some (JObj c).
Proof.
  intros Hs Hs0 Hk Hk0 Hc.
  assert (Hget : forall f, obj_get f (spread (default [] (sr_metadata r)) (sigMeta r)) =
     if "sig_canonical" ==? f then Some (JObj c) else if "key_id" ==? f then Some (JStr k)
     else if "agent_sig" ==? f then Some (JStr s) else obj_get f (default [] (sr_metadata r))).
  { intros f. unfold sigMeta, spread. rewrite Hs, Hk, Hc.
    rewrite (proj2 (truthy_Some (Some s) s)), (proj2 (truthy_Some (Some k) k)) by done. simpl. by rewrite !obj_get_set. }
  unfold mergedMeta. destruct (spread _ _) as [|kv kvs] eqn:E.
  { specialize (Hget "agent_sig"). discriminate Hget. }
  unfold meta_field. rewrite !Hget. by split_and!.
Qed.

Lemma snapshot_attachments txt l :
  string_list (JObj [("text", JStr txt); ("attachments", jlist l)]) "attachments" = l.
Proof. simpl. by rewrite map_map, map_id. Qed.

(** ** The theorem *)

Section EndToEnd.
Context `{Crypto} `{NodeCrypto} `{Signing} `{!SigningLaws}.

(** The request [r] carries the fields [self] signed for it, over its own text,
    type, priority and attachments. *)
Record signed_request (identity : EkhoIdentity) (fleet self nonce sentAt : string)
    (recipient : list (string * json)) (r : SendRequest) : Prop := {
  sq_sig : sr_agent_sig r = Some (sf_agent_sig (buildSignedSendFields identity fleet self recipient
    (sr_conversation r) (body_text (sr_body r)) nonce sentAt (sr_type r) (sr_priority r)
    (string_list (sr_body r) "attachments")));
  sq_key : sr_key_id r = Some (keyId (fromB64url (identityPublicKey identity)));
  sq_canonical : sr_sig_canonical r = Some (sf_sig_canonical (buildSignedSendFields identity fleet self recipient
    (sr_conversation r) (body_text (sr_body r)) nonce sentAt (sr_type r) (sr_priority r)
    (string_list (sr_body r) "attachments")))
}.

(** The recipient of a message of [self] signed at [t] with [nonce]: it pins the
    endorser of the sender's key, the clocks agree, the nonce is new to it. *)
Record receives (opts : VerifyOpts) (identity : EkhoIdentity) (fleet self nonce sentAt : string)
    (recipient : list (string * json)) : Prop := {
  rc_fleet : vo_fleetId opts = fleet;
  rc_peer : endorsed_peer opts self (identityPublicKey identity);
  rc_addressed : obj_get "kind" recipient = Some (JStr "agent") ->
    obj_get "id" recipient = Some (JStr (vo_selfAgentId opts));
  rc_time : exists t, date_parse sentAt = Some t /\ timely opts t = true;
  rc_nonce : nonce <> "" /\ nonce ∉ vo_seenNonces opts
}.

(** What the relay makes of a signed request, at any later time. *)
Lemma signed_request_survives cfg d0 d m e a h now mid dly fleet self st r identity nonce sentAt
    recipient m' es d2 m2 x opts :
  operators_ok d0 -> relay_run cfg (d0, empty_mail) (d, m) ->
  authenticateAgent e d self = Some (a, h) -> ag_fleet a = fleet ->
  signed_request identity fleet self nonce sentAt recipient r ->
  createMessage cfg d m now mid dly (message_input (MkIdentity self fleet st) r) = Ok (m', es) ->
  mid ∉ map ms_id (md_messages m) ->
  relay_run cfg (d, m') (d2, m2) -> x ∈ md_messages m2 -> ms_id x = mid ->
  receives opts identity fleet self nonce sentAt recipient ->
  (forall reader, verifyInbound (inbox_signed (inbox_message d2 m2 fleet reader x)) opts =
     Some (MkVerdict true KPeer None (Some (keyId (fromB64url (identityPublicKey identity)))))) /\
  verifies (snapshot_message (snapshot_signed (snapshotOf d2 x))) opts = true.
Proof.
  intros Hops Hrun Hau Hfl [Hsig Hkey Hcan] Hmsg Hid Hrun2 Hx Hxi [Rf Rp Ra (t & Rd & Rt) [Rn0 Rn]].
  destruct (relay_run_ok cfg _ _ Hrun (empty_relay_ok d0 Hops)) as [Hok _]. cbn in Hok.
  assert (Hstep : relay_step cfg now (d, m) (d, m')) by exact (rs_send cfg now d m e a h mid dly
    (message_input (MkIdentity self fleet st) r) m' es Hau Hfl Hmsg Hid).
  destruct (relay_step_ok cfg now _ _ Hstep Hok) as [Hok' _]. cbn in Hok'.
  destruct (relay_run_ok cfg _ _ Hrun2 Hok') as [Hok2 Hg]. cbn in Hok2, Hg.
  destruct (sent_message_row cfg d m now mid dly _ m' es d2 m2 x Hmsg Hrun2 Hok2 Hx Hxi)
    as (Es & Et & Ep & Eb & Em). cbn in Es, Et, Ep, Eb, Em.
  destruct (authenticated_not_operator e d self a h (ro_operators _ _ Hok) Hau) as [Ha Hr].
  destruct (Hg _ _ Ha) as (a2 & Ha2 & _ & Hr2 & _).
  assert (Hop : bool_decide (ag_runtime <$> ad_agents d2 !! ms_sender x = Some "operator") = false).
  { apply bool_decide_eq_false. rewrite Es, Ha2. cbn. congruence. }
  assert (Hne : sf_agent_sig (buildSignedSendFields identity fleet self recipient (sr_conversation r)
     (body_text (sr_body r)) nonce sentAt (sr_type r) (sr_priority r) (string_list (sr_body r) "attachments")) <> "")
    by apply b64url_nonempty, sign_nonempty.
  assert (Hkne : keyId (fromB64url (identityPublicKey identity)) <> "")
    by (apply keyId_nonempty; unfold identityPublicKey, publicKeyB64urlFromSeed;
        rewrite b64url_round; apply public_nonempty).
  destruct (mergedMeta_fields r _ _ _ Hsig Hne Hkey Hkne Hcan) as (M1 & M2 & M3).
  rewrite <- Em in M1, M2, M3. split; [intros reader|].
  - apply (signed_fields_verify identity fleet self recipient (sr_conversation r) (body_text (sr_body r)) nonce
      sentAt (sr_type r) (sr_priority r) (string_list (sr_body r) "attachments") _ opts t);
      unfold inbox_signed, inbox_message; cbn; rewrite ?Hop, ?M1, ?M2, ?M3, ?Es, ?Et, ?Ep, ?Eb; cbn; done.
  - unfold verifies. erewrite (signed_fields_verify identity fleet self recipient (sr_conversation r) (body_text (sr_body r)) nonce
      sentAt (sr_type r) (sr_priority r) (string_list (sr_body r) "attachments") _ opts t); [done|..];
      unfold snapshotOf; cbn; rewrite ?Hop, ?M1, ?M2, ?M3, ?Es, ?Et, ?Ep, ?Eb; cbn; try done.
    exact (f_equal sort_strings (snapshot_attachments (body_text (sr_body r)) _)).
Qed.

(** C17. A signed message survives the relay. When an agent signs a message and the
    relay accepts it, then, whatever the relay does in between, the message it
    later hands out verifies at every recipient that trusts the sender's key, and
    so does every quote of it in an inbox, a history or a floor grant: the
    metadata the relay folds the signature into, and the fields it derives from
    its tables, are exactly what the signature covers. *)
Theorem signed_message_survives_relay cfg d0 d m e a h now mid dly fleet self st r identity nonce sentAt
    recipient m' es d2 m2 x opts :
  operators_ok d0 -> relay_run cfg (d0, empty_mail) (d, m) ->
  authenticateAgent e d self = Some (a, h) -> ag_fleet a = fleet ->
  signed_request identity fleet self nonce sentAt recipient r ->
  createMessage cfg d m now mid dly (message_input (MkIdentity self fleet st) r) = Ok (m', es) ->
  mid ∉ map ms_id (md_messages m) ->
  relay_run cfg (d, m') (d2, m2) -> x ∈ md_messages m2 -> ms_id x = mid ->
  receives opts identity fleet self nonce sentAt recipient ->
  (forall reader, verifyInbound (inbox_signed (inbox_message d2 m2 fleet reader x)) opts =
     Some (MkVerdict true KPeer None (Some (keyId (fromB64url (identityPublicKey identity)))))) /\
  verifies (snapshot_message (snapshot_signed (snapshotOf d2 x))) opts = true.
Proof. apply signed_request_survives. Qed.
End EndToEnd.

(** ** On a concrete relay *)

Definition demo_signed : SendRequest :=
  MkSend "agent" (Some "a2") "direct" "normal" 3600 false (JObj [("text", JStr "hi")]) None "c1" "cor1"
    (Some (sf_agent_sig demo_fields)) (Some (sf_key_id demo_fields)) (Some (sf_sig_canonical demo_fields)).

Definition demo_two : AgentDb :=
  MkAgentDb (<["a1" := fresh_agent "f" "Tars" "openclaw" None 0]>
             (<["a2" := fresh_agent "f" "Case" "openclaw" None 0]> ∅)) [] [] ∅ ∅ [] ∅.
Definition demo_credentials : EnrollDb :=
  MkEnrollDb ∅ [] [MkCredential "cred1" "a1" "s3cret" "active" 0] ∅.
Definition demo_mail : MailDb :=
  match createMessage default_config demo_two empty_mail 1000 "m1" (fun _ => "d1")
          (message_input (MkIdentity "a1" "f" Healthy) demo_signed) with
  | Ok (m, _) => m | Throw _ => empty_mail
  end.

Lemma demo_two_ok : operators_ok demo_two.
Proof.
  intros i a Hi. unfold demo_two in Hi. cbn in Hi.
  repeat (apply lookup_insert_Some in Hi as [[<- <-]|[_ Hi]];
    [intros [Hr|[f Hf]]; [discriminate Hr|unfold operator_agent in Hf; discriminate Hf]|]).
  by apply lookup_empty_Some in Hi.
Qed.

Lemma demo_receives : @receives toy_crypto toy_node toy_signing demo_opts demo_sender "f" "a1" "n1" demo_sent_at
  demo_recipient.
Proof.
  constructor; try done.
  - exists demo_entry, "A", "pa", (@toy_sign "pa" (agentKeyEndorsementPayload "f" "a1" "ka1" "ka1")).
    by split_and!; vm_compute.
  - exists 1767225600000. split; vm_compute; reflexivity.
Qed.

Lemma signed_message_survives_relay_witness : exists x,
  md_messages demo_mail = [x] /\
  @verifyInbound toy_crypto toy_node (inbox_signed (inbox_message demo_two demo_mail "f" "a2" x)) demo_opts =
    Some (MkVerdict true KPeer None (Some "ka1")).
Proof.
  assert (Hx : exists x, md_messages demo_mail = [x] /\ ms_id x = "m1").
  { eexists. split; vm_compute; reflexivity. }
  destruct Hx as (x & Hx & Hxi). exists x. split; [exact Hx|].
  assert (Hin : x ∈ md_messages demo_mail) by (rewrite Hx; by left).
  assert (Hau : exists a h, @authenticateAgent demo_credentials demo_two "a1" = Some (a, h) /\ ag_fleet a = "f").
  { eexists _, _. split; vm_compute; reflexivity. }
  destruct Hau as (a & h & Hau & Hf).
  assert (Hsend : exists es, createMessage default_config demo_two empty_mail 1000 "m1" (fun _ => "d1")
    (message_input (MkIdentity "a1" "f" Healthy) demo_signed) = Ok (demo_mail, es)).
  { eexists. vm_compute. reflexivity. }
  destruct Hsend as (es & Hsend).
  refine (proj1 (@signed_message_survives_relay toy_crypto toy_node toy_signing toy_signing_laws default_config
    demo_two demo_two empty_mail demo_credentials a h 1000 "m1" (fun _ => "d1") "f" "a1" Healthy demo_signed
    demo_sender "n1" demo_sent_at demo_recipient demo_mail es demo_two demo_mail x demo_opts demo_two_ok
    (rrun_refl _ _) Hau Hf _ Hsend _ (rrun_refl _ _) Hin Hxi demo_receives) "a2").
  - constructor; vm_compute; reflexivity.
  - by intros ?%elem_of_nil.
Defined.
