(* ===== verification/Text.v ===== *)
(** * Text

    The string functions of JavaScript and Node that several components use, on
    the characters of a string. *)

From S2P Require Import Prelude Json JsValues.
Import Ascii String.
Open Scope string_scope.

Abbreviation chars := list_ascii_of_string.
Abbreviation text := string_of_list_ascii.

Lemma chars_text l : chars (text l) = l.
Proof. apply list_ascii_of_string_of_list_ascii. Qed.

Lemma chars_app s t : chars (s +:+ t) = (chars s ++ chars t)%list.
Proof. induction s as [|c s IH]; [done|]. simpl. by rewrite IH. Qed.

Fixpoint drop_while {A} (p : A -> bool) (l : list A) : list A :=
  match l with [] => [] | x :: l' => if p x then drop_while p l' else l end.

Fixpoint take_while {A} (p : A -> bool) (l : list A) : list A :=
  match l with [] => [] | x :: l' => if p x then x :: take_while p l' else [] end.

Definition between (a b : nat) (c : ascii) : bool := (a <=? nat_of_ascii c)%nat && (nat_of_ascii c <=? b)%nat.
Definition digit_char (c : ascii) : bool := between 48 57 c.
Definition hex_char (c : ascii) : bool := digit_char c || between 97 102 c || between 65 70 c.
(** [\w] *)
Definition word_char (c : ascii) : bool := digit_char c || between 97 122 c || between 65 90 c || (c ==? "_"%char).

Definition not_slash (c : ascii) : bool := negb (c ==? "/"%char).

(** [path.basename] of a POSIX path. *)
Definition basename (s : string) : string :=
  text (List.rev (take_while not_slash (drop_while (fun c => negb (not_slash c)) (List.rev (chars s))))).

(** [s.replace(/\s+/g, " ")]; [seen] when the run is already replaced. *)
Fixpoint collapse_spaces (seen : bool) (l : list ascii) : list ascii :=
  match l with
  | [] => []
  | c :: l' => if Prelude.is_space c then (if seen then [] else [" "%char]) ++ collapse_spaces true l'
               else c :: collapse_spaces false l'
  end%list.

(** [s.startsWith(p)], and [p] matched at the head of a text: the rest. *)
Fixpoint strip_prefix (p l : list ascii) : option (list ascii) :=
  match p, l with
  | [], _ => Some l
  | c :: p', d :: l' => if c ==? d then strip_prefix p' l' else None
  | _, _ => None
  end.

Definition starts_with (p s : string) : bool := bool_decide (is_Some (strip_prefix (chars p) (chars s))).
Definition ends_with (p s : string) : bool := bool_decide (is_Some (strip_prefix (List.rev (chars p)) (List.rev (chars s)))).

(** [encodeURIComponent] on the code units 0-255. *)
Definition percent (n : nat) : list ascii :=
  let up d := ascii_of_nat (if (d <? 10)%nat then 48 + d else 55 + d) in ["%"%char; up (n / 16)%nat; up (n mod 16)%nat].
Definition uri_unreserved (c : ascii) : bool :=
  digit_char c || between 97 122 c || between 65 90 c || bool_decide (c ∈ chars "-_.!~*'()").
(** The UTF-8 bytes of a code unit, percent-encoded. *)
Definition percent_utf8 (c : ascii) : list ascii :=
  let n := nat_of_ascii c in
  if (n <? 128)%nat then percent n
  else (percent (192 + n / 64) ++ percent (128 + n mod 64))%list%nat.
Definition encode_char (c : ascii) : list ascii := if uri_unreserved c then [c] else percent_utf8 c.
Definition encodeURIComponent (s : string) : string := text (flat_map encode_char (chars s)).

Lemma elem_of_drop_while {A} (p : A -> bool) l x : x ∈ drop_while p l -> x ∈ l.
Proof.
  induction l as [|y l IH]; simpl; [done|]. destruct (p y); [|done]. intros ?. right. by apply IH.
Qed.

Lemma elem_of_take_while {A} (p : A -> bool) l x : x ∈ take_while p l -> x ∈ l /\ p x = true.
Proof.
  induction l as [|y l IH]; simpl; [by intros ?%elem_of_nil|]. destruct (p y) eqn:E; [|by intros ?%elem_of_nil].
  intros [->|Hx]%elem_of_cons; [by split; [left|]|]. apply IH in Hx as [? ?]. split; [by right|done].
Qed.

(** A test of a character, tried on all of them. *)
Lemma every_char (p : ascii -> bool) : forallb p (map ascii_of_nat (seq 0 256)) = true -> forall c, p c = true.
Proof.
  intros H c. rewrite forallb_forall in H. apply H, in_map_iff. exists (nat_of_ascii c).
  split; [apply ascii_nat_embedding|]. apply in_seq. pose proof (nat_ascii_bounded c). lia.
Qed.
