(* ===== verification/SdkClient.v ===== *)
(** * The agents' client

    [packages/sdk/src/client.ts]: the headers an agent signs, the one [request] every
    call goes through, and the calls.  The signature covers the path as the client
    writes it; [fetch] parses the address first ([new URL]) and sends the path of
    the parsed address, so the two are modelled apart. *)

From S2P Require Import Prelude Json IsoTime JsValues Config Agents Enrollment EnrollmentProperties Text.
Import Ascii String.
Open Scope string_scope.
Open Scope Z_scope.
#[local] Open Scope list_scope.

(** ** The path of a parsed address

    The URL Standard's parser for an [http(s)] address, from the first [/] of its
    path on, over the code units 0-255. *)

Definition tab_or_newline (c : ascii) : bool := bool_decide (nat_of_ascii c ∈ [9%nat; 10%nat; 13%nat]).
Definition separator (c : ascii) : bool := (c ==? "/"%char) || (c ==? ascii_of_nat 92).

(** What the path state keeps as it is: neither a separator nor in the path
    percent-encode set. *)
Definition path_char (c : ascii) : bool :=
  between 33 126 c && negb (separator c) && negb (bool_decide (c ∈ ascii_of_nat 34 :: chars "#<>?^`{}")).
Definition path_encode (c : ascii) : list ascii := if path_char c then [c] else percent_utf8 c.

(** C0 controls and spaces at the end of an address are dropped. *)
Fixpoint trim_end (l : list ascii) : list ascii :=
  match l with
  | [] => []
  | c :: l' => match trim_end l' with
               | [] => if (nat_of_ascii c <=? 32)%nat then [] else [c]
               | l'' => c :: l''
               end
  end.

(** The segments of a path, percent-encoded. *)
Fixpoint segments (l : list ascii) : list (list ascii) :=
  match l with
  | [] => [[]]
  | c :: l' => if separator c then [] :: segments l'
               else match segments l' with
                    | s :: rest => (path_encode c ++ s) :: rest
                    | [] => [path_encode c]
                    end
  end.

(** [%2e] counts as a dot. *)
Fixpoint undot (l : list ascii) : list ascii :=
  match l with
  | [] => []
  | c :: l' =>
      match l' with
      | d :: e :: l'' =>
          if (c ==? "%"%char) && (d ==? "2"%char) && ((e ==? "e"%char) || (e ==? "E"%char)) then "."%char :: undot l''
          else c :: undot l'
      | _ => c :: undot l'
      end
  end.
Definition single_dot (s : list ascii) : bool := bool_decide (undot s = ["."%char]).
Definition double_dot (s : list ascii) : bool := bool_decide (undot s = ["."%char; "."%char]).
Definition dot_segment (s : list ascii) : bool := single_dot s || double_dot s.

(** The path so far, its last segment first. *)
Fixpoint resolve_dots (path segs : list (list ascii)) : list (list ascii) :=
  match segs with
  | [] => path
  | s :: rest =>
      let close p := if bool_decide (rest = []) then [] :: p else p in
      if double_dot s then resolve_dots (close (tail path)) rest
      else if single_dot s then resolve_dots (close path) rest
      else resolve_dots (s :: path) rest
  end.

Definition slash_segments (segs : list (list ascii)) : list ascii := flat_map (cons "/"%char) segs.

(** [new URL(origin + routePath).pathname], for a [routePath] that begins with [/]. *)
Definition url_path (routePath : string) : string :=
  let l := List.filter (fun c => negb (tab_or_newline c)) (trim_end (chars routePath)) in
  let path := take_while (fun c => negb (c ==? "?"%char) && negb (c ==? "#"%char)) l in
  text (slash_segments (List.rev (resolve_dots [] (segments (tail path))))).

(** [JSON.stringify] of a parsed value. *)
Fixpoint json_stringify (v : json) : string :=
  match v with
  | JNull => "null"
  | JBool true => "true"
  | JBool false => "false"
  | JNum z => stringify_num z
  | JStr s => stringify_string s
  | JArr l => "[" +:+ join_comma (map json_stringify l) +:+ "]"
  | JObj kvs =>
      "{" +:+ join_comma (map (fun kv => stringify_string kv.1 +:+ ":" +:+ json_stringify kv.2) kvs) +:+ "}"
  end.

(** *** When an address is requested as it was written *)

Definition written_safely (segs : list (list ascii)) : bool := forallb (fun s => negb (dot_segment s)) segs.
Definition goes_as_is (path : list ascii) : bool :=
  forallb (fun c => path_char c || (c ==? "/"%char)) path && written_safely (segments (tail path)).

Lemma path_encode_chars c : forallb path_char (path_encode c) = true.
Proof. apply (every_char (fun c => forallb path_char (path_encode c))). vm_compute. reflexivity. Qed.

Lemma path_char_facts c : path_char c = true ->
  separator c = false /\ tab_or_newline c = false /\ (nat_of_ascii c <=? 32)%nat = false /\ c <> "?"%char /\ c <> "#"%char.
Proof.
  intros Hc.
  pose proof (every_char (fun c => implb (path_char c) (negb (separator c) && negb (tab_or_newline c) &&
    negb (nat_of_ascii c <=? 32)%nat && negb (c ==? "?"%char) && negb (c ==? "#"%char))) eq_refl c) as H.
  cbv beta in H. rewrite Hc in H. simpl in H. rewrite !andb_true_iff, !negb_true_iff, !bool_decide_eq_false in H.
  by destruct H as [[[[? ?] ?] ?] ?].
Qed.

Lemma segments_encoded l : Forall (fun s => forallb path_char s = true) (segments l).
Proof.
  induction l as [|c l IH]; simpl; [by repeat constructor|]. destruct (separator c); [by constructor|].
  destruct (segments l) as [|s r]; [constructor; [apply path_encode_chars|done]|].
  inversion IH as [|? ? Hs Hr]; subst. constructor; [|done]. by rewrite forallb_app, path_encode_chars, Hs.
Qed.

Lemma segments_nonempty l : segments l <> [].
Proof. destruct l as [|c l]; simpl; [done|]. destruct (separator c); [done|]. by destruct (segments l). Qed.

(** What is requested has no character the parser changes and no dot segment. *)
Definition resolved (s : list ascii) : Prop := forallb path_char s = true /\ dot_segment s = false.

Lemma resolve_dots_resolved segs : forall path,
  Forall resolved path -> Forall (fun s => forallb path_char s = true) segs -> Forall resolved (resolve_dots path segs).
Proof.
  assert (Hnil : resolved []) by done.
  assert (Hclose : forall (b : bool) p, Forall resolved p -> Forall resolved (if b then [] :: p else p)).
  { intros [] p Hp; [by constructor|done]. }
  induction segs as [|s segs IH]; intros path Hp Hs; [done|]. inversion Hs as [|? ? Hc Hr]; subst. simpl.
  destruct (double_dot s) eqn:E2; [|destruct (single_dot s) eqn:E1].
  - apply IH; [|done]. apply Hclose. by destruct Hp.
  - apply IH; [|done]. by apply Hclose.
  - apply IH; [|done]. constructor; [|done]. split; [done|]. unfold dot_segment. by rewrite E1, E2.
Qed.

Lemma resolve_dots_nonempty segs : forall path, path <> [] \/ segs <> [] -> resolve_dots path segs <> [].
Proof.
  induction segs as [|s segs IH]; intros path Hne; [by destruct Hne|]. simpl.
  assert (Hc : forall p : list (list ascii), (if bool_decide (segs = []) then [] :: p else p) <> [] \/ segs <> []).
  { intros p. by case_bool_decide; [left|right]. }
  destruct (double_dot s); [by apply IH|]. destruct (single_dot s); [by apply IH|]. apply IH. by left.
Qed.

Lemma path_encode_id c : path_char c = true -> path_encode c = [c].
Proof. unfold path_encode. by intros ->. Qed.

Lemma segments_plain s rest :
  forallb path_char s = true -> segments (s ++ slash_segments rest) = s :: tl (segments (slash_segments rest)) .
Proof.
  induction s as [|c s IH]; simpl; intros Hs.
  - destruct rest as [|r rest]; [done|]. done.
  - apply andb_true_iff in Hs as [Hc Hs]. destruct (path_char_facts c Hc) as (-> & _).
    rewrite IH by done. by rewrite path_encode_id.
Qed.

Lemma segments_join s segs :
  Forall (fun s => forallb path_char s = true) (s :: segs) -> segments (s ++ slash_segments segs) = s :: segs.
Proof.
  revert s. induction segs as [|s' segs IH]; intros s Hs; inversion Hs as [|? ? Hc Hr]; subst.
  - by rewrite (segments_plain s []).
  - rewrite segments_plain by done. f_equal. simpl. by rewrite IH.
Qed.

Lemma join_segments l :
  forallb (fun c => path_char c || (c ==? "/"%char)) l = true -> "/"%char :: l = slash_segments (segments l).
Proof.
  induction l as [|c l IH]; [done|]. intros Hl. simpl in Hl. apply andb_true_iff in Hl as [Hc Hl].
  specialize (IH Hl). simpl. apply orb_true_iff in Hc as [Hc|Hc%bool_decide_eq_true].
  - destruct (path_char_facts c Hc) as (-> & _). rewrite path_encode_id by done.
    pose proof (segments_nonempty l). destruct (segments l) as [|s r]; [done|].
    simpl in *. injection IH as ->. done.
  - subst c. simpl. by rewrite IH.
Qed.

Lemma resolve_dots_safe segs : forall path, written_safely segs = true -> resolve_dots path segs = List.rev segs ++ path.
Proof.
  induction segs as [|s segs IH]; intros path Hs; [done|]. simpl in Hs.
  apply andb_true_iff in Hs as [Hd Hs]. unfold dot_segment in Hd. rewrite negb_orb in Hd.
  apply andb_true_iff in Hd as [H1%negb_true_iff H2%negb_true_iff]. simpl. rewrite H1, H2, IH by done.
  by rewrite <- app_assoc.
Qed.

Lemma trim_end_keeps c l : (nat_of_ascii c <=? 32)%nat = false -> trim_end (c :: l) = c :: trim_end l.
Proof. intros Hc. simpl. rewrite Hc. by destruct (trim_end l). Qed.

(** The part the parser reads as the path, when nothing in it is dropped. *)
Lemma path_part q rest : forallb (fun c => path_char c || (c ==? "/"%char)) q = true -> rest = [] \/ head rest = Some "?"%char ->
  take_while (fun c => negb (c ==? "?"%char) && negb (c ==? "#"%char))
    (List.filter (fun c => negb (tab_or_newline c)) (trim_end (q ++ rest))) = q.
Proof.
  intros Hq Hr. induction q as [|c q IH].
  - destruct rest as [|c rest]; [done|]. destruct Hr as [?|Hr]; [done|]. injection Hr as ->. rewrite app_nil_l.
    by rewrite trim_end_keeps.
  - simpl in Hq. apply andb_true_iff in Hq as [Hc Hq]. apply orb_true_iff in Hc as [Hc|Hc%bool_decide_eq_true].
    + destruct (path_char_facts c Hc) as (_ & H1 & H2 & H3 & H4). rewrite <- app_comm_cons, trim_end_keeps by done.
      simpl. rewrite H1. simpl. rewrite !bool_decide_false by done. simpl. f_equal. by apply IH.
    + subst c. rewrite <- app_comm_cons, trim_end_keeps by done. simpl. f_equal. by apply IH.
Qed.

(** [routePath.split("?")[0]] *)
Definition before_query (routePath : string) : string :=
  text (take_while (fun c => negb (c ==? "?"%char)) (chars routePath)).

Lemma before_query_rest p : exists rest,
  chars p = chars (before_query p) ++ rest /\ (rest = [] \/ head rest = Some "?"%char).
Proof.
  unfold before_query. rewrite chars_text. induction (chars p) as [|c l IH]; simpl; [exists []; auto|].
  destruct (c ==? "?"%char) eqn:E.
  - apply bool_decide_eq_true in E as ->. exists ("?"%char :: l). auto.
  - destruct IH as (rest & IH & Hr). exists rest. simpl. by rewrite <- IH.
Qed.

Lemma goes_as_is_join s segs : Forall (fun s => forallb path_char s = true) (s :: segs) ->
  goes_as_is (slash_segments (s :: segs)) = written_safely (s :: segs).
Proof.
  intros Hs. unfold goes_as_is. cbn [slash_segments flat_map]. rewrite <- app_comm_cons. cbn [tail].
  fold (slash_segments segs). rewrite segments_join by done.
  rewrite (proj2 (forallb_forall _ _)); [done|]. intros c Hc. apply orb_true_iff.
  destruct Hc as [<-|Hc]; [by right|]. apply in_app_or in Hc.
  assert (Hall : forall l, Forall (fun s => forallb path_char s = true) l -> In c (slash_segments l) ->
    path_char c = true \/ (c ==? "/"%char) = true).
  { clear. induction l as [|x l IH]; [done|]. intros Hl Hc. inversion Hl as [|? ? Hx Hr]; subst.
    simpl in Hc. destruct Hc as [<-|Hc]; [by right|]. apply in_app_or in Hc as [Hc|Hc]; [|by apply IH].
    left. rewrite forallb_forall in Hx. auto. }
  inversion Hs as [|? ? Hx Hr]; subst. destruct Hc as [Hc|Hc]; [left|by apply (Hall segs)].
  rewrite forallb_forall in Hx. auto.
Qed.

(** The path [fetch] sends is the path as written, exactly when nothing in that is
    encoded, dropped or a dot segment. *)
Lemma url_path_kept p : (exists r, chars (before_query p) = "/"%char :: r) ->
  (url_path p = before_query p <-> goes_as_is (chars (before_query p)) = true).
Proof.
  intros (r & Hp). destruct (before_query_rest p) as (rest & Hr & Hq). unfold url_path. rewrite Hr. split.
  - set (segs := segments _). intros <-. rewrite chars_text.
    pose proof (resolve_dots_resolved segs [] ltac:(constructor) (segments_encoded _)) as Hs.
    pose proof (resolve_dots_nonempty segs [] (or_intror (segments_nonempty _))) as Hne. clearbody segs.
    apply Forall_rev in Hs. change (Forall resolved (List.rev (resolve_dots [] segs))) in Hs || idtac.
    destruct (List.rev (resolve_dots [] segs)) as [|s l] eqn:E.
    { exfalso. apply Hne. rewrite <- (List.rev_involutive (resolve_dots [] segs)), E. done. }
    rewrite goes_as_is_join; [|eapply Forall_impl; [exact Hs|by intros ? []]].
    apply forallb_forall. intros x Hx%list_elem_of_In. rewrite Forall_forall in Hs. apply Hs in Hx as [_ ->]. done.
  - intros Hg. apply andb_true_iff in Hg as [Hc Hs]. rewrite path_part by done. rewrite Hp in Hc, Hs |- *.
    cbn [tail] in *. simpl in Hc. rewrite resolve_dots_safe, app_nil_r, List.rev_involutive by done.
    rewrite <- join_segments by done. rewrite <- Hp. apply string_of_list_ascii_of_string.
Qed.

(** *** An encoded component *)

Lemma undot_nil l : undot l = [] <-> l = [].
Proof.
  split; [|by intros ->]. destruct l as [|c [|d [|e l]]]; [done..|]. simpl. by case_match.
Qed.

Lemma undot_cons c l : c <> "%"%char -> undot (c :: l) = c :: undot l.
Proof. intros Hc. destruct l as [|d [|e l]]; [done..|]. simpl. by rewrite (bool_decide_false (c = _)). Qed.

Lemma encode_char_chars c : forallb path_char (encode_char c) = true.
Proof. apply (every_char (fun c => forallb path_char (encode_char c))). vm_compute. reflexivity. Qed.

(** An encoded character is itself, or its first byte's three characters come first,
    and are not [%2E]. *)
Lemma encode_char_cases c :
  (encode_char c = [c] /\ c <> "%"%char) \/
  exists d e r, encode_char c = "%"%char :: d :: e :: r /\ (d = "2"%char -> e <> "e"%char /\ e <> "E"%char).
Proof.
  pose proof (every_char (fun c =>
    match encode_char c with
    | [x] => (x ==? c) && negb (c ==? "%"%char)
    | p :: d :: e :: _ => (p ==? "%"%char) && negb ((d ==? "2"%char) && ((e ==? "e"%char) || (e ==? "E"%char)))
    | _ => false
    end) eq_refl c) as H. cbv beta in H.
  destruct (encode_char c) as [|x [|d [|e r]]]; [done| |done|].
  - left. apply andb_true_iff in H as [->%bool_decide_eq_true H%negb_true_iff%bool_decide_eq_false]. done.
  - right. apply andb_true_iff in H as [->%bool_decide_eq_true H%negb_true_iff]. exists d, e, r. split; [done|].
    intros ->. rewrite bool_decide_true in H by done. simpl in H.
    apply orb_false_iff in H as [H1%bool_decide_eq_false H2%bool_decide_eq_false]. done.
Qed.

Lemma encoded_dots x : forall dots, Forall (eq "."%char) dots ->
  (undot (flat_map encode_char x) = dots <-> x = dots).
Proof.
  assert (Hempty : flat_map encode_char x = [] <-> x = []).
  { split; [|by intros ->]. destruct x as [|c x]; [done|]. simpl.
    by destruct (encode_char_cases c) as [[-> _]|(d & e & r & -> & _)]. }
  clear Hempty. induction x as [|c x IH]; intros dots Hd; [done|]. simpl.
  destruct (encode_char_cases c) as [[-> Hc]|(d & e & r & Hc & Hn)].
  - rewrite <- app_comm_cons, app_nil_l, undot_cons by done. destruct dots as [|d dots]; [done|].
    inversion Hd as [|? ? <- Hd']; subst. specialize (IH dots Hd'). split.
    + intros [= -> E]. f_equal. by apply IH.
    + intros [= -> ->]. f_equal. by apply IH.
  - rewrite Hc. rewrite <- !app_comm_cons. set (l := r ++ _).
    assert (undot ("%"%char :: d :: e :: l) = "%"%char :: undot (d :: e :: l)) as ->.
    { cbn [undot]. destruct (decide (d = "2"%char)) as [->|Hd2].
      - destruct (Hn eq_refl) as [H1 H2]. by rewrite !(bool_decide_false (e = _)) by done.
      - by rewrite (bool_decide_false (d = _)), andb_false_r by done. }
    split; [intros E|intros E]; exfalso; destruct dots as [|d' dots]; try done; inversion Hd; subst; try done.
    assert (c = "."%char) by congruence. subst c. vm_compute in Hc. done.
Qed.

(** A component put through [encodeURIComponent] is sent as written, unless it is
    one or two dots. *)
Definition sendable_id (i : string) : bool := negb (i ==? ".") && negb (i ==? "..").

Lemma encoded_component i :
  forallb path_char (chars (encodeURIComponent i)) = true /\ dot_segment (chars (encodeURIComponent i)) = negb (sendable_id i).
Proof.
  unfold encodeURIComponent. rewrite chars_text. split.
  - apply forallb_forall. intros c (x & _ & Hc)%in_flat_map. pose proof (encode_char_chars x) as H.
    rewrite forallb_forall in H. auto.
  - unfold dot_segment, single_dot, double_dot, sendable_id. rewrite negb_andb, !negb_involutive. f_equal; apply bool_decide_ext.
    + rewrite encoded_dots by (by repeat constructor). split; [|by intros ->].
      intros E. rewrite <- (string_of_list_ascii_of_string i), E. done.
    + rewrite encoded_dots by (by repeat constructor). split; [|by intros ->].
      intros E. rewrite <- (string_of_list_ascii_of_string i), E. done.
Qed.

Record AgentCredentials := MkAgentCredentials { ac_agentId : string; ac_secret : string }.

Record SignedHeaders := MkHeaders {
  hd_agent_id : string;
  hd_agent_secret : string;
  hd_timestamp : string;
  hd_nonce : string;
  hd_signature : string
}.

Section Client.
Context `{NodeCrypto}.

(** [timestamp] and [nonce] are the clock reading and the UUID it draws. *)
Definition signedHeaders (cr : AgentCredentials) (method signaturePath body timestamp nonce : string) : SignedHeaders :=
  let payload := method +:+ newline +:+ signaturePath +:+ newline +:+ timestamp +:+ newline +:+ nonce +:+
                 newline +:+ node_sha256 body in
  MkHeaders (ac_agentId cr) (ac_secret cr) timestamp nonce (node_hmac_sha256 (ac_secret cr) payload).

(** What arrives at the relay, whose [request.url] is the path of the parsed
    address and its query.  A GET sends no body. *)
Definition received (h : SignedHeaders) (method routePath body : string) : SignedRequest :=
  MkRequest (Some (hd_agent_id h)) (Some (hd_timestamp h)) (Some (hd_nonce h)) (Some (hd_signature h))
    (Some (hd_agent_secret h)) method (url_path routePath) (if method ==? "GET" then "" else body).

Definition request (cr : AgentCredentials) (method routePath : string) (payload : option json)
    (now : Z) (nonce : string) : SignedRequest :=
  let body := match payload with
              | Some v => if js_truthy v then json_stringify v else ""
              | None => ""
              end in
  received (signedHeaders cr method (before_query routePath) body (to_iso now) nonce) method routePath body.
End Client.

(** ** The calls *)

Inductive ClientCall :=
  | SendMessage (payload : list (string * json))
  | CreateRoom (name : string) (member_agent_ids : option (list string))
  | GetInbox (limit : Z)
  | RegisterIdentityKey (publicKey : string)
  | AckMessages (acks : list (string * string))           (* message, received at *)
  | AcquireFloor (conversationId : string) (ttlSeconds : option Z)
  | ReleaseFloor (conversationId : string)
  | RaiseNotice (payload : list (string * json))
  | Heartbeat (payload : list (string * json))
  | ProposeAction (payload : list (string * json))
  | GetApproval (approvalId : string)
  | ActionResult (payload : list (string * json))
  | UploadAttachment (filename mime dataBase64 : string) (size_bytes : Z)
  | DownloadAttachment (id : string).

Definition call_method (c : ClientCall) : string :=
  match c with
  | GetInbox _ | GetApproval _ | DownloadAttachment _ => "GET"
  | ReleaseFloor _ => "DELETE"
  | _ => "POST"
  end.

Definition call_path (c : ClientCall) : string :=
  match c with
  | SendMessage _ => "/v1/messages"
  | CreateRoom _ _ => "/v1/rooms"
  | GetInbox limit => "/v1/inbox?limit=" +:+ stringify_num limit
  | RegisterIdentityKey _ => "/v1/identity-key"
  | AckMessages _ => "/v1/acks"
  | AcquireFloor c _ | ReleaseFloor c => "/v1/conversations/" +:+ encodeURIComponent c +:+ "/floor"
  | RaiseNotice _ => "/v1/notices"
  | Heartbeat _ => "/v1/heartbeats"
  | ProposeAction _ => "/v1/actions/propose"
  | GetApproval a => "/v1/actions/" +:+ a
  | ActionResult _ => "/v1/actions/result"
  | UploadAttachment _ _ _ _ => "/v1/attachments"
  | DownloadAttachment i => "/v1/attachments/" +:+ encodeURIComponent i
  end.

Definition call_payload (c : ClientCall) : option json :=
  match c with
  | SendMessage p | RaiseNotice p | Heartbeat p | ProposeAction p | ActionResult p => Some (JObj p)
  | CreateRoom name members =>
      Some (JObj [("name", JStr name); ("member_agent_ids", jlist (default [] members))])
  | RegisterIdentityKey k => Some (JObj [("public_key", JStr k)])
  | AckMessages acks =>
      Some (JObj [("acks", JArr (map (fun a => JObj [("message_id", JStr a.1); ("status", JStr "received");
                                                     ("received_at", JStr a.2)]) acks))])
  | AcquireFloor _ ttl => Some (JObj match ttl with Some t => [("ttl_seconds", JNum t)] | None => [] end)
  | UploadAttachment filename mime dataBase64 size =>
      Some (JObj [("filename", JStr filename); ("mime", JStr mime); ("size_bytes", JNum size);
                  ("data_base64", JStr dataBase64)])
  | GetInbox _ | ReleaseFloor _ | GetApproval _ | DownloadAttachment _ => None
  end.

Definition client_call `{NodeCrypto} (cr : AgentCredentials) (c : ClientCall) (now : Z) (nonce : string) : SignedRequest :=
  request cr (call_method c) (call_path c) (call_payload c) now nonce.

(** * The client and the relay agree

    Every call of [SdkClient] against [requireAgentAuth] of [Enrollment]: what an
    agent with credentials signs is accepted, and accepted once, if its path is one
    [fetch] sends as it is written; what was changed on the way is not. *)

Definition newline_char : ascii := ascii_of_nat 10.

(** A text up to its first newline. *)
Lemma newline_split a b x y :
  newline_char ∉ chars a -> newline_char ∉ chars b ->
  a +:+ newline +:+ x = b +:+ newline +:+ y -> a = b /\ x = y.
Proof.
  revert b. induction a as [|ca a IH]; intros [|cb b] Ha Hb Heq; simpl in *.
  - split; [done|]. by injection Heq.
  - injection Heq as <- _. exfalso. apply Hb. by left.
  - injection Heq as -> _. exfalso. apply Ha. by left.
  - injection Heq as -> Heq. destruct (IH b) as [-> ->]; [set_solver..|done|done].
Qed.

Lemma string_app_inj a x y : a +:+ x = a +:+ y -> x = y.
Proof. induction a as [|c a IH]; [done|]. intros [= ?]. auto. Qed.

Lemma string_app_tail_inj a b x : a +:+ x = b +:+ x -> a = b.
Proof.
  intros E. assert (E' : chars a ++ chars x = chars b ++ chars x) by (rewrite <- !chars_app; congruence).
  apply app_inv_tail in E'. rewrite <- (string_of_list_ascii_of_string a), E'. apply string_of_list_ascii_of_string.
Qed.

(** The calls whose path the client signs as [fetch] sends it.  [getApproval] alone
    puts its argument in the path unencoded. *)
Definition goes_as_written (c : ClientCall) : bool :=
  match c with
  | AcquireFloor i _ | ReleaseFloor i | DownloadAttachment i => sendable_id i
  | GetApproval a =>
      let q := chars (before_query a) in
      forallb (fun c => path_char c || (c ==? "/"%char)) q && written_safely (segments q)
  | _ => true
  end.

Lemma goes_as_written_iff c : url_path (call_path c) = before_query (call_path c) <-> goes_as_written c = true.
Proof.
  assert (Hid : forall pre post i, Forall (fun s => forallb path_char s = true) (pre ++ post) ->
    written_safely (pre ++ post) = true -> pre <> [] ->
    forall p, chars (before_query p) = slash_segments (pre ++ chars (encodeURIComponent i) :: post) ->
    (url_path p = before_query p <-> sendable_id i = true)).
  { intros pre post i Hc Hw Hne p Hp. destruct (encoded_component i) as [Hi Hdot].
    destruct pre as [|s pre]; [done|]. rewrite url_path_kept by (rewrite Hp; by eexists). rewrite Hp.
    change ((s :: pre) ++ chars (encodeURIComponent i) :: post) with (s :: (pre ++ chars (encodeURIComponent i) :: post)).
    rewrite goes_as_is_join.
    - unfold written_safely in *. cbn [app forallb] in *. rewrite !forallb_app in *. cbn [forallb] in *.
      apply andb_true_iff in Hw as [[-> ->]%andb_true_iff ->]. rewrite Hdot, negb_involutive. by destruct (sendable_id i).
    - inversion Hc as [|? ? Hs Hr]; subst. apply Forall_app in Hr as [? ?]. constructor; [done|].
      apply Forall_app. split; [done|]. by constructor. }
  assert (Henc : forall i l, take_while (fun c => negb (c ==? "?"%char)) (chars (encodeURIComponent i) ++ l) =
    chars (encodeURIComponent i) ++ take_while (fun c => negb (c ==? "?"%char)) l).
  { intros i l. destruct (encoded_component i) as [Hi _]. induction (chars (encodeURIComponent i)) as [|x q IH]; [done|].
    simpl in Hi. apply andb_true_iff in Hi as [Hc Hi]. destruct (path_char_facts x Hc) as (_ & _ & _ & Hq & _).
    rewrite <- !app_comm_cons. cbn [take_while]. rewrite bool_decide_false by done. simpl. by rewrite IH. }
  destruct c; try (split; [done|]; intros _; vm_compute; reflexivity).
  - split; [done|]. intros _. apply url_path_kept; [by eexists|]. reflexivity.
  - apply (Hid [chars "v1"; chars "conversations"] [chars "floor"]); [by repeat constructor|done|done|].
    unfold before_query. rewrite chars_text. cbn [call_path]. rewrite !chars_app. cbn. by rewrite Henc.
  - apply (Hid [chars "v1"; chars "conversations"] [chars "floor"]); [by repeat constructor|done|done|].
    unfold before_query. rewrite chars_text. cbn [call_path]. rewrite !chars_app. cbn. by rewrite Henc.
  - rewrite url_path_kept by by eexists.
    assert (chars (before_query (call_path (GetApproval approvalId))) = chars "/v1/actions/" ++ chars (before_query approvalId)) as ->.
    { unfold before_query. rewrite !chars_text. reflexivity. }
    unfold goes_as_is. reflexivity.
  - apply (Hid [chars "v1"; chars "attachments"] []); [by repeat constructor|done|done|].
    pose proof (Henc id []) as Hend. rewrite !app_nil_r in Hend.
    unfold before_query. rewrite chars_text. cbn [call_path]. rewrite !chars_app. cbn. by rewrite Hend, app_nil_r.
Qed.

Section Agreement.
Context `{NodeCrypto} (cfg : Config).
(** [new Date(text)] reads what [toISOString] writes. *)
Hypothesis date_parse_iso : forall t, in_iso_range t -> date_parse (to_iso t) = Some t.

(** The signature is over the path as written. *)
Lemma client_call_signed cr c now nonce :
  let r := client_call cr c now nonce in
  rq_agent_id r = Some (ac_agentId cr) /\ rq_timestamp r = Some (to_iso now) /\ rq_nonce r = Some nonce /\
  rq_secret r = Some (ac_secret cr) /\ rq_path r = url_path (call_path c) /\
  rq_signature r = Some (node_hmac_sha256 (ac_secret cr)
    (rq_method r +:+ newline +:+ before_query (call_path c) +:+ newline +:+ to_iso now +:+ newline +:+ nonce +:+
     newline +:+ node_sha256 (rq_body r))).
Proof. by destruct c. Qed.

Lemma client_call_fields cr c now nonce : goes_as_written c = true ->
  let r := client_call cr c now nonce in
  rq_agent_id r = Some (ac_agentId cr) /\ rq_timestamp r = Some (to_iso now) /\ rq_nonce r = Some nonce /\
  rq_secret r = Some (ac_secret cr) /\
  rq_signature r = Some (node_hmac_sha256 (ac_secret cr) (request_payload r (to_iso now) nonce)).
Proof.
  intros Hg%goes_as_written_iff r. destruct (client_call_signed cr c now nonce) as (F1 & F2 & F3 & F4 & F5 & F6).
  fold r in F1, F2, F3, F4, F5, F6. split_and!; try done. unfold request_payload. by rewrite F5, Hg.
Qed.

(** C19. The client and the relay agree.  A call whose path [fetch] sends as it is
    written is accepted exactly when the agent is live with these credentials, the
    clocks are within the allowed skew, and the nonce is new to the relay: nothing
    about the call, its query or its body can make the signature fail.  Every call
    is such a call, except a floor or a download of the id [.] or [..], and an
    approval whose id, which the client does not encode, has a character the
    address parser changes or a dot segment; these are refused whatever the agent's
    standing, if the keyed hash has no collisions. *)
Theorem client_call_accepted e d t t' cr c nonce :
  in_iso_range t ->
  (goes_as_written c = true ->
   ((exists f st, snd (requireAgentAuth cfg e d t' (client_call cr c t nonce)) = Ok (ac_agentId cr, f, st)) <->
    (exists a, authenticateAgent e d (ac_agentId cr) = Some (a, hashSecret (ac_secret cr))) /\
    Z.abs (t' - t) <= timestampSkewSeconds cfg * 1000 /\
    ed_nonces e !! (ac_agentId cr, nonce) = None)) /\
  (goes_as_written c = false ->
   (forall k x y, node_hmac_sha256 k x = node_hmac_sha256 k y -> x = y) ->
   exists x, snd (requireAgentAuth cfg e d t' (client_call cr c t nonce)) = Throw x).
Proof.
  intros Ht. split; [intros Hg|intros Hg Hinj].
  - destruct (client_call_fields cr c t nonce Hg) as (F1 & F2 & F3 & F4 & F5).
    set (r := client_call cr c t nonce) in *. clearbody r. split.
    + intros (f & st & Hr). destruct (requireAgentAuth cfg e d t' r) as [e' v] eqn:E. simpl in Hr. subst v.
      apply requireAgentAuth_Ok in E as (ts & n & a & (A1 & A2 & A3 & (sec & tt & A4 & A5 & A6 & A7 & A8) & A9) & _).
      assert (ts = to_iso t) as -> by congruence. assert (n = nonce) as -> by congruence.
      assert (sec = ac_secret cr) as -> by congruence. rewrite date_parse_iso in A6 by done. injection A6 as <-.
      split_and!; [by exists a|done|done].
    + intros ((a & Ha) & Hs & Hn). exists (ag_fleet a), (ag_status a).
      assert (E : requireAgentAuth cfg e d t' r =
        (with_nonces (<[(ac_agentId cr, nonce) := t']> (ed_nonces e)) e, Ok (ac_agentId cr, ag_fleet a, ag_status a))).
      { apply requireAgentAuth_Ok. exists (to_iso t), nonce, a. split_and!; try done.
        split_and!; try done. exists (ac_secret cr), t. split_and!; auto. }
      by rewrite E.
  - destruct (client_call_signed cr c t nonce) as (F1 & F2 & F3 & F4 & F5 & F6).
    set (r := client_call cr c t nonce) in *. clearbody r.
    destruct (requireAgentAuth cfg e d t' r) as [e' [[[i f] st]|x]] eqn:E; [exfalso|by exists x].
    apply requireAgentAuth_Ok in E as (ts & n & a & (A1 & A2 & A3 & (sec & tt & A4 & A5 & A6 & A7 & A8) & A9) & _).
    assert (ts = to_iso t) as -> by congruence. assert (n = nonce) as -> by congruence.
    assert (sec = ac_secret cr) as -> by congruence. rewrite F6 in A8. injection A8 as A8%Hinj.
    unfold request_payload in A8. rewrite F5 in A8. apply string_app_inj, string_app_inj in A8.
    apply string_app_tail_inj in A8. assert (Hw : goes_as_written c = true) by by apply goes_as_written_iff. congruence.
Qed.

(** From enrolment to the first call: the credentials an enrolment hands out
    for a new agent id are those the relay then accepts every call with, for the
    fleet of the token; and presenting a call a second time is refused. *)
Theorem enrolled_client_is_heard e d t0 agentId secret credId fleet token name runtime host e' d' c t t' nonce :
  createAgentFromEnrollment e d t0 agentId secret credId fleet token name runtime host = (e', d', Some (agentId, secret)) ->
  goes_as_written c = true ->
  (forall x, x ∈ ed_credentials e -> cr_agent x <> agentId) ->
  in_iso_range t -> Z.abs (t' - t) <= timestampSkewSeconds cfg * 1000 -> ed_nonces e !! (agentId, nonce) = None ->
  exists e2 st, requireAgentAuth cfg e' d' t' (client_call (MkAgentCredentials agentId secret) c t nonce) =
    (e2, Ok (agentId, fleet, st)) /\
  forall t2, exists x, snd (requireAgentAuth cfg e2 d' t2 (client_call (MkAgentCredentials agentId secret) c t nonce)) = Throw x.
Proof.
  unfold createAgentFromEnrollment. intros He Hg Hfresh Ht Hs Hn.
  destruct (negb _); [done|]. destruct (select_one _ _) as [tk|]; [|done]. injection He as <- <-.
  set (e1 := with_credentials _ _). set (d1 := with_agents _ _).
  assert (Hold : List.filter (fun x => (cr_agent x ==? agentId) && (cr_status x ==? "active")) (ed_credentials e) = []).
  { destruct (List.filter _ _) as [|x l] eqn:E; [done|]. exfalso.
    assert (Hx : In x (x :: l)) by by left. rewrite <- E in Hx. apply filter_In in Hx as [Hx Hp].
    apply andb_true_iff in Hp as [Hp%bool_decide_eq_true _]. by apply (Hfresh x); [apply list_elem_of_In|]. }
  assert (Hau : authenticateAgent e1 d1 agentId = Some (fresh_agent fleet name runtime host t0, hashSecret secret)).
  { unfold authenticateAgent, d1, e1. simpl. rewrite lookup_insert_eq. simpl. unfold select.
    rewrite List.filter_app, Hold. simpl. by rewrite !bool_decide_true. }
  destruct (client_call_fields (MkAgentCredentials agentId secret) c t nonce Hg) as (F1 & F2 & F3 & F4 & F5).
  set (r := client_call _ c t nonce) in *. clearbody r. simpl in *.
  set (e2 := with_nonces (<[(agentId, nonce) := t']> (ed_nonces e1)) e1).
  assert (Hr : requireAgentAuth cfg e1 d1 t' r =
    (e2, Ok (agentId, fleet, ag_status (fresh_agent fleet name runtime host t0)))).
  { apply requireAgentAuth_Ok. exists (to_iso t), nonce, (fresh_agent fleet name runtime host t0). split_and!; try done.
    split_and!; try done. exists secret, t. split_and!; auto. }
  exists e2, (ag_status (fresh_agent fleet name runtime host t0)). split; [exact Hr|]. intros t2.
  destruct (requireAgentAuth cfg e2 d1 t2 r) as [e3 [[[i f] st]|x]] eqn:E2; [exfalso|by exists x].
  apply requireAgentAuth_Ok in E2 as (ts & n & a & (A1 & _ & A3 & _ & A5) & _).
  assert (i = agentId) as -> by congruence. assert (n = nonce) as -> by congruence.
  unfold e2 in A5. simpl in A5. by rewrite lookup_insert_eq in A5.
Qed.

(** What was signed is what is accepted: if the hashes have no collisions, a
    request that carries the headers of a client's call but another method, path or
    body is refused. *)
Theorem tampered_call_refused e d t t' cr c nonce r :
  (forall x y, node_sha256 x = node_sha256 y -> x = y) ->
  (forall k x y, node_hmac_sha256 k x = node_hmac_sha256 k y -> x = y) ->
  goes_as_written c = true ->
  let q := client_call cr c t nonce in
  rq_agent_id r = rq_agent_id q -> rq_timestamp r = rq_timestamp q -> rq_nonce r = rq_nonce q ->
  rq_secret r = rq_secret q -> rq_signature r = rq_signature q ->
  newline_char ∉ chars (rq_method r) -> newline_char ∉ chars (rq_path r) ->
  newline_char ∉ chars (rq_path q) ->
  (rq_method r, rq_path r, rq_body r) <> (rq_method q, rq_path q, rq_body q) ->
  exists x, snd (requireAgentAuth cfg e d t' r) = Throw x.
Proof.
  intros Hsha Hmac Hg q R1 R2 R3 R4 R5 Hm Hp Hpq Hne.
  destruct (client_call_fields cr c t nonce Hg) as (F1 & F2 & F3 & F4 & F5). fold q in F1, F2, F3, F4, F5.
  destruct (requireAgentAuth cfg e d t' r) as [e' [[[i f] st]|x]] eqn:E; [exfalso|by exists x].
  apply requireAgentAuth_Ok in E as (ts & n & a & (A1 & A2 & A3 & (sec & tt & A4 & A5 & A6 & A7 & A8) & A9) & _).
  assert (ts = to_iso t) as -> by congruence. assert (n = nonce) as -> by congruence.
  assert (sec = ac_secret cr) as -> by congruence. rewrite R5, F5 in A8. injection A8 as A8.
  apply Hmac in A8. unfold request_payload in A8. apply Hne.
  assert (Hmq : newline_char ∉ chars (rq_method q)) by (unfold q; clear; destruct c; vm_compute; set_solver).
  destruct (newline_split _ _ _ _ Hmq Hm A8) as [-> A8'].
  destruct (newline_split _ _ _ _ Hpq Hp A8') as [-> A8''].
  apply string_app_inj, string_app_inj, string_app_inj, string_app_inj, Hsha in A8''. congruence.
Qed.
End Agreement.

(** ** On a concrete relay *)

Definition demo_cr : AgentCredentials := MkAgentCredentials "a1" "s3cret".
Definition demo_agents : AgentDb := MkAgentDb (<["a1" := fresh_agent "f" "Tars" "openclaw" None 0]> ∅) [] [] ∅ ∅ [] ∅.
Definition empty_agents : AgentDb := MkAgentDb ∅ [] [] ∅ ∅ [] ∅.
Definition demo_enroll : EnrollDb := MkEnrollDb ∅ [] [MkCredential "cred1" "a1" "s3cret" "active" 0] ∅.

Lemma client_call_accepted_witness :
  (exists f st, snd (@requireAgentAuth toy_node default_config demo_enroll demo_agents 1767225601000
    (@client_call toy_node demo_cr (GetInbox 25) 1767225600000 "n1")) = Ok ("a1", f, st)) /\
  exists x, snd (@requireAgentAuth toy_node default_config demo_enroll demo_agents 1767225601000
    (@client_call toy_node demo_cr (AcquireFloor ".." None) 1767225600000 "n1")) = Throw x.
Proof.
  assert (Ht : in_iso_range 1767225600000) by (vm_compute; split; congruence). split.
  - apply (@client_call_accepted toy_node default_config parse_iso_to_iso); [exact Ht|reflexivity|].
    split_and!; [eexists; vm_compute; reflexivity|vm_compute; congruence|reflexivity].
  - apply (@client_call_accepted toy_node default_config parse_iso_to_iso); [exact Ht|reflexivity|].
    intros k x y E. exact (string_app_inj k x y E).
Defined.

(** The address parser at work. *)
Example url_paths :
  url_path "/v1/conversations/../floor" = "/v1/floor" /\ url_path "/v1/actions/a b" = "/v1/actions/a%20b" /\
  url_path "/v1/actions/a#b" = "/v1/actions/a" /\ url_path "/v1/actions/.%2E/x\y" = "/v1/x/y" /\
  url_path "/v1/inbox?limit=25" = "/v1/inbox".
Proof. vm_compute. auto. Qed.

Definition demo_token : EnrollDb :=
  fst (@issueEnrollmentToken toy_node (MkEnrollDb ∅ [] [] ∅) 0 "t1" "tok" "f" "op").

Lemma tampered_call_refused_witness : exists x,
  snd (@requireAgentAuth toy_node default_config demo_enroll demo_agents 1767225600000
    (let q := @client_call toy_node demo_cr (ReleaseFloor "c1") 1767225600000 "n1" in
     MkRequest (rq_agent_id q) (rq_timestamp q) (rq_nonce q) (rq_signature q) (rq_secret q) "DELETE"
       "/v1/conversations/c2/floor" "")) = Throw x.
Proof.
  apply (@tampered_call_refused toy_node default_config demo_enroll demo_agents 1767225600000 1767225600000
    demo_cr (ReleaseFloor "c1") "n1"); try reflexivity.
  - intros x y E. exact E.
  - intros k x y E. exact (string_app_inj k x y E).
  - vm_compute. set_solver.
  - vm_compute. set_solver.
  - vm_compute. set_solver.
  - vm_compute. congruence.
Defined.

Lemma enrolled_client_is_heard_witness : exists e' d' e2 st,
  @createAgentFromEnrollment toy_node demo_token empty_agents 1000 "a9" "s9" "cred9" "f" "t1.tok" "Nine" "openclaw" None =
    (e', d', Some ("a9", "s9")) /\
  @requireAgentAuth toy_node default_config e' d' 1767225600000
    (@client_call toy_node (MkAgentCredentials "a9" "s9") (GetInbox 25) 1767225600000 "n1") = (e2, Ok ("a9", "f", st)).
Proof.
  destruct (@createAgentFromEnrollment toy_node demo_token empty_agents 1000 "a9" "s9" "cred9" "f" "t1.tok" "Nine" "openclaw" None)
    as [[e' d'] o] eqn:E.
  assert (Ho : o = Some ("a9", "s9")) by (vm_compute in E; congruence). subst o.
  destruct (@enrolled_client_is_heard toy_node default_config parse_iso_to_iso demo_token empty_agents 1000 "a9" "s9" "cred9"
    "f" "t1.tok" "Nine" "openclaw" None e' d' (GetInbox 25) 1767225600000 1767225600000 "n1" E eq_refl) as (e2 & st & H & _).
  - intros x Hx. vm_compute in Hx. by apply elem_of_nil in Hx.
  - vm_compute. split; congruence.
  - vm_compute. congruence.
  - reflexivity.
  - exists e', d', e2, st. split; [reflexivity|exact H].
Defined.
