(* ===== verification/Attachments.v ===== *)
(** * Attachments

    [packages/relay/src/attachments.ts], the attachment methods of [db.ts] and the
    upload and download routes of [routes-agent.ts] and [routes-operator.ts]: what
    is accepted, the quota of a fleet, the bytes on disk, what is served and what
    the sweep collects.  The database refuses no insert here; writing a file
    succeeds. *)

From S2P Require Import Prelude Json IsoTime JsValues Events OperatorKeys Config Agents Enrollment Messages Rooms Delivery DeliverySafety EnrollmentProperties RelayProperties Policies Text.
Import Ascii String.
Open Scope string_scope.
Open Scope Z_scope.

(** [Buffer.from(s, "base64")], as bytes. *)
Class BufferApi := { buffer_from_base64 : string -> list Z }.

(** ** What is accepted *)

(** The extension, and whether the type is an image. *)
Definition ATTACHMENT_MIME_ALLOWLIST : list (string * (string * bool)) :=
  [("image/png", ("png", true)); ("image/jpeg", ("jpg", true)); ("image/gif", ("gif", true));
   ("image/webp", ("webp", true)); ("application/pdf", ("pdf", false)); ("text/plain", ("txt", false));
   ("text/markdown", ("md", false)); ("text/csv", ("csv", false)); ("application/json", ("json", false))].

Definition allowlist_entry (mime : string) : option (string * bool) :=
  snd <$> List.find (fun e => fst e ==? mime) ATTACHMENT_MIME_ALLOWLIST.
Definition isAllowedMime (mime : string) : bool := bool_decide (is_Some (allowlist_entry mime)).
Definition isImageMime (mime : string) : bool := match allowlist_entry mime with Some (_, image) => image | None => false end.

(** [[\u0000-\u001f\u007f]] *)
Definition is_control (c : ascii) : bool := (nat_of_ascii c <? 32)%nat || (nat_of_ascii c =? 127)%nat.
Definition is_separator (c : ascii) : bool := (c ==? "/"%char) || (c ==? "\"%char).

Definition sanitizeFilename (raw : string) : string :=
  let base := chars (basename raw) in
  let cleaned := List.filter (fun c => negb (is_separator c)) (List.filter (fun c => negb (is_control c)) base) in
  let cleaned := collapse_spaces false (drop_while (fun c => c ==? "."%char) cleaned) in
  let cleaned := text (take 200 (chars (trim (text cleaned)))) in
  if cleaned ==? "" then "file" else cleaned.

Definition starts_bytes (p b : list Z) : bool := (length p <=? length b)%nat && (take (length p) b ==? p).

(** [toString("ascii")] drops the high bit. *)
Definition ascii_bytes (b : list Z) : list Z := map (fun x => Z.land x 127) b.

Definition sniffImageMatches (mime : string) (b : list Z) : bool :=
  if negb (isImageMime mime) then true
  else if mime ==? "image/png" then starts_bytes [137; 80; 78; 71; 13; 10; 26; 10] b
  else if mime ==? "image/jpeg" then starts_bytes [255; 216; 255] b
  else if mime ==? "image/gif" then
    starts_bytes [71; 73; 70; 56; 55; 97] (ascii_bytes b) || starts_bytes [71; 73; 70; 56; 57; 97] (ascii_bytes b)
  else if mime ==? "image/webp" then
    (12 <=? length b)%nat && starts_bytes [82; 73; 70; 70] (ascii_bytes b) &&
    starts_bytes [87; 69; 66; 80] (ascii_bytes (drop 8 b))
  else false.

(** The length of the base64 text of [n] bytes. *)
Definition base64_length (n : nat) : Z := 4 * ((Z.of_nat n + 2) / 3).

(** [None] is the throw. *)
Definition decodeBase64Strict `{BufferApi} (data : string) : option (list Z) :=
  if data ==? "" then None
  else
    let buf := buffer_from_base64 data in
    let normalized := List.filter (fun c => negb (Prelude.is_space c)) (chars data) in
    if (length buf =? 0)%nat || (4 <? Z.abs (base64_length (length buf) - Z.of_nat (length normalized))) then None
    else Some buf.

(** ** The store *)

(** The tables the routes touch, and the files below [config.attachmentsDir]. *)
Record AttachWorld := MkAttachWorld {
  aw_agents : AgentDb;
  aw_mail : MailDb;
  aw_disk : gmap string (list Z)
}.

(** Below the attachments directory. *)
Definition attachmentStoragePath (fleetId attachmentId : string) : string :=
  basename fleetId +:+ "/" +:+ basename attachmentId.

Definition writeAttachmentBytes (disk : gmap string (list Z)) (fleetId attachmentId : string) (bytes : list Z)
    : gmap string (list Z) * string :=
  let full := attachmentStoragePath fleetId attachmentId in (<[full := bytes]> disk, full).

Record AttachmentView := MkAttachmentView {
  av_id : string; av_filename : string; av_mime : string; av_size_bytes : Z; av_created_at : Z
}.

Definition createAttachment (w : AttachWorld) (now : Z) (attachmentId fleet kind uploader filename mime : string)
    (bytes : list Z) : AttachWorld * AttachmentView * list Event :=
  let '(disk, storagePath) := writeAttachmentBytes (aw_disk w) fleet attachmentId bytes in
  let size := Z.of_nat (length bytes) in
  let row := MkAttachment fleet kind uploader filename mime size storagePath now None None in
  (MkAttachWorld (aw_agents w)
     (with_attachments (<[attachmentId := row]> (md_attachments (aw_mail w))) (aw_mail w)) disk,
   MkAttachmentView attachmentId filename mime size now,
   [recordEvent now fleet "attachment.uploaded" kind (Some uploader) "attachment" (Some attachmentId) None
      (JObj [("filename", JStr filename); ("mime", JStr mime); ("size_bytes", JNum size)])]).

(** SUM(size_bytes) of a fleet *)
Definition getFleetAttachmentBytes (m : gmap string AttachmentRow) (fleet : string) : Z :=
  map_fold (fun _ a acc => acc + (if at_fleet a ==? fleet then at_size_bytes a else 0)) 0 m.

Definition getAttachment (m : gmap string AttachmentRow) (fleet attachmentId : string) : option AttachmentRow :=
  match m !! attachmentId with
  | Some a => if at_fleet a ==? fleet then Some a else None
  | None => None
  end.

(** Rows in the order of the ids: SQLite chooses it. *)
Definition getAttachmentsMeta (m : gmap string AttachmentRow) (fleet : string) (ids : list string) : list AttachmentView :=
  omap (fun i => match getAttachment m fleet i with
                 | Some a => Some (MkAttachmentView i (at_filename a) (at_mime a) (at_size_bytes a) (at_created_at a))
                 | None => None
                 end) (remove_dups ids).

(** ** The routes *)

(** [attachmentUploadSchema], parsed. *)
Record UploadRequest := MkUpload { up_filename : string; up_mime : string; up_size_bytes : Z; up_data_base64 : string }.

Inductive UploadRefusal :=
  | UploaderStopped | UploadRateLimited | UnsupportedType | DeclaredTooLarge | InvalidBase64 | DecodedTooLarge
  | NotTheDeclaredImage | FleetQuotaExceeded.

Definition upload_code (r : UploadRefusal) : Z :=
  match r with
  | UploaderStopped => 403
  | UploadRateLimited => 429
  | UnsupportedType | NotTheDeclaredImage => 415
  | DeclaredTooLarge | DecodedTooLarge | FleetQuotaExceeded => 413
  | InvalidBase64 => 400
  end.

Section Routes.
Context `{BufferApi} (cfg : Config).

(** The checks on the file itself, which both routes make in this order. *)
Definition check_upload (r : UploadRequest) : result UploadRefusal (list Z) :=
  throw_if negb (isAllowedMime (up_mime r)) with UnsupportedType ;;
  throw_if attachmentMaxBytes cfg <? up_size_bytes r with DeclaredTooLarge ;;
  fetch bytes := decodeBase64Strict (up_data_base64 r) orelse InvalidBase64 ;;
  throw_if attachmentMaxBytes cfg <? Z.of_nat (length bytes) with DecodedTooLarge ;;
  throw_if negb (sniffImageMatches (up_mime r) bytes) with NotTheDeclaredImage ;;
  Ok bytes.

(** The quota, then the row and the file. *)
Definition store_upload (w : AttachWorld) (now : Z) (attachmentId fleet kind uploader : string) (r : UploadRequest)
    (bytes : list Z) : AttachWorld * result UploadRefusal AttachmentView * list Event :=
  if attachmentFleetQuotaBytes cfg <? getFleetAttachmentBytes (md_attachments (aw_mail w)) fleet + Z.of_nat (length bytes)
  then (w, Throw FleetQuotaExceeded, [])
  else let '(w', v, es) := createAttachment w now attachmentId fleet kind uploader (sanitizeFilename (up_filename r))
                             (up_mime r) bytes in (w', Ok v, es).

Definition with_aw_agents (d : AgentDb) (w : AttachWorld) : AttachWorld := MkAttachWorld d (aw_mail w) (aw_disk w).
Definition with_aw_mail (m : MailDb) (w : AttachWorld) : AttachWorld := MkAttachWorld (aw_agents w) m (aw_disk w).

(** POST /v1/attachments *)
Definition postAttachment (w : AttachWorld) (now : Z) (attachmentId : string) (agent : AgentIdentity) (r : UploadRequest)
    : AttachWorld * result UploadRefusal AttachmentView * list Event :=
  if (id_status agent ==? Quarantined) || (id_status agent ==? Paused) then (w, Throw UploaderStopped, [])
  else
    let '(d1, rate, es1) := checkAndIncrementUploadLimit cfg (aw_agents w) now (id_agent agent) (id_fleet agent) in
    let w1 := with_aw_agents d1 w in
    if negb (rl_allowed rate) then (w1, Throw UploadRateLimited, es1)
    else match check_upload r with
         | Throw e => (w1, Throw e, es1)
         | Ok bytes =>
             let '(w2, reply, es2) := store_upload w1 now attachmentId (id_fleet agent) "agent" (id_agent agent) r bytes in
             (w2, reply, (es1 ++ es2)%list)
         end.

(** POST /v1/operator/attachments: the rate is taken after the checks. *)
Definition postOperatorAttachment (w : AttachWorld) (now : Z) (attachmentId fleet operator : string) (r : UploadRequest)
    : AttachWorld * result UploadRefusal AttachmentView * list Event :=
  match check_upload r with
  | Throw e => (w, Throw e, [])
  | Ok bytes =>
      let '(d1, rate, es1) := checkAndIncrementUploadLimit cfg (aw_agents w) now operator fleet in
      let w1 := with_aw_agents d1 w in
      if negb (rl_allowed rate) then (w1, Throw UploadRateLimited, es1)
      else let '(w2, reply, es2) := store_upload w1 now attachmentId fleet "operator" operator r bytes in
           (w2, reply, (es1 ++ es2)%list)
  end.

(** ** Serving *)

Record Download := MkDownload {
  dn_content_type : string;
  dn_disposition : string;
  dn_nosniff : string;
  dn_csp : string;
  dn_cache : string;
  dn_bytes : list Z
}.

Definition sendAttachment (a : AttachmentRow) (bytes : list Z) : Download :=
  let contentType := if isAllowedMime (at_mime a) && isImageMime (at_mime a) then at_mime a else "application/octet-stream" in
  let safeName := sanitizeFilename (at_filename a) in
  let quoted := text (List.filter (fun c => negb (c ==? ascii_of_nat 34)) (chars safeName)) in
  MkDownload contentType
    ("attachment; filename=" +:+ dquote +:+ quoted +:+ dquote +:+ "; filename*=UTF-8''" +:+ encodeURIComponent safeName)
    "nosniff" "default-src 'none'; sandbox" "private, no-store" bytes.

(** GET /v1/attachments/:id, of an agent or an operator of the fleet; [None] is the
    404. *)
Definition getAttachmentRoute (w : AttachWorld) (fleet attachmentId : string) : option Download :=
  match getAttachment (md_attachments (aw_mail w)) fleet attachmentId with
  | Some a => sendAttachment a <$> aw_disk w !! at_storage_path a
  | None => None
  end.

(** ** Collection *)

Definition expired_attachment (now : Z) (a : AttachmentRow) : bool :=
  match at_bound_at a with
  | None => at_created_at a <? now - attachmentUnboundTtlSeconds cfg * 1000
  | Some b => b <? now - attachmentRetentionSeconds cfg * 1000
  end.

(** One row: the file first.  [stuck] are the paths whose unlink fails for another
    reason than that the file is gone. *)
Definition sweep_attachment (stuck : gset string) (acc : AttachWorld * nat) (r : string * AttachmentRow)
    : AttachWorld * nat :=
  let '(w, deleted) := acc in
  let '(i, a) := r in
  if bool_decide (at_storage_path a ∈ stuck) && bool_decide (is_Some (aw_disk w !! at_storage_path a)) then (w, deleted)
  else (MkAttachWorld (aw_agents w) (with_attachments (delete i (md_attachments (aw_mail w))) (aw_mail w))
          (delete (at_storage_path a) (aw_disk w)), S deleted).

Definition sweepAttachments (w : AttachWorld) (now : Z) (stuck : gset string) : AttachWorld * nat :=
  foldl (sweep_attachment stuck) (w, O)
    (List.filter (fun r => expired_attachment now (snd r)) (map_to_list (md_attachments (aw_mail w)))).
End Routes.

(** * Properties of attachments

    What is stored, how much of it, for how long, and who is served what. *)

(** ** File names *)

Lemma elem_of_collapse seen l c : c ∈ collapse_spaces seen l -> c ∈ l \/ c = " "%char.
Proof.
  revert seen. induction l as [|x l IH]; intros seen; simpl; [by intros ?%elem_of_nil|].
  destruct (Prelude.is_space x).
  - intros [Hc|Hc]%elem_of_app.
    + destruct seen; [by apply elem_of_nil in Hc|]. apply list_elem_of_singleton in Hc. by right.
    + apply IH in Hc as [?|?]; [left; by right|by right].
  - intros [->|Hc]%elem_of_cons; [left; by left|]. apply IH in Hc as [?|?]; [left; by right|by right].
Qed.

Lemma elem_of_trim_left s c : c ∈ chars (trim_left s) -> c ∈ chars s.
Proof.
  induction s as [|x s IH]; simpl; [done|].
  destruct (Prelude.is_space x); [|done]. intros Hc. right. by apply IH.
Qed.

Lemma elem_of_trim_right s c : c ∈ chars (trim_right s) -> c ∈ chars s.
Proof.
  induction s as [|x s IH]; simpl; [done|]. destruct (trim_right s) as [|y r]; simpl in *.
  - destruct (Prelude.is_space x); simpl; [by intros ?%elem_of_nil|]. intros [->|?%elem_of_nil]%elem_of_cons; [by left|done].
  - intros [->|Hc]%elem_of_cons; [by left|]. right. by apply IH.
Qed.

(** A stored name has no control character and no separator, and fits. *)
Definition safe_name (s : string) : Prop :=
  s <> "" /\ (length (chars s) <= 200)%nat /\
  forall c, c ∈ chars s -> is_control c = false /\ is_separator c = false.

Lemma sanitize_safe raw : safe_name (sanitizeFilename raw).
Proof.
  unfold sanitizeFilename. case_bool_decide as Hne.
  { split_and!; [done|simpl; lia|]. intros c Hc. apply (bool_decide_unpack _). revert c Hc.
    change (forall c, c ∈ ["f"; "i"; "l"; "e"]%char -> bool_decide (is_control c = false /\ is_separator c = false)).
    intros c Hc. repeat (apply elem_of_cons in Hc as [->|Hc]; [vm_compute; exact I|]). by apply elem_of_nil in Hc. }
  split; [done|]. rewrite chars_text. split; [rewrite length_take; lia|].
  intros c Hc. apply elem_of_take in Hc as (i & Hc & _). apply list_elem_of_lookup_2 in Hc.
  unfold trim in Hc. apply elem_of_trim_right, elem_of_trim_left in Hc. rewrite chars_text in Hc.
  apply elem_of_collapse in Hc as [Hc| ->]; [|by vm_compute].
  apply elem_of_drop_while, elem_of_where in Hc as [Hc Hs]. apply elem_of_where in Hc as [_ Hk].
  by apply negb_true_iff in Hs, Hk.
Qed.

(** ** The bytes of a fleet *)

Section Bytes.
Implicit Types m : gmap string AttachmentRow.

Definition share (fleet : string) (a : AttachmentRow) : Z := if at_fleet a ==? fleet then at_size_bytes a else 0.

Lemma fleet_bytes_insert m fleet i a :
  m !! i = None -> getFleetAttachmentBytes (<[i:=a]> m) fleet = getFleetAttachmentBytes m fleet + share fleet a.
Proof.
  intros Hi. unfold getFleetAttachmentBytes. rewrite map_fold_insert_L; [done| |done]. intros. lia.
Qed.

Lemma fleet_bytes_delete m fleet i a :
  m !! i = Some a -> getFleetAttachmentBytes m fleet = getFleetAttachmentBytes (delete i m) fleet + share fleet a.
Proof.
  intros Hi. rewrite <- (insert_delete_id m i a Hi) at 1. apply fleet_bytes_insert, lookup_delete_eq.
Qed.

Lemma fleet_bytes_alter m fleet i f :
  (forall a, share fleet (f a) = share fleet a) ->
  getFleetAttachmentBytes (alter f i m) fleet = getFleetAttachmentBytes m fleet.
Proof.
  intros Hf. destruct (m !! i) as [a|] eqn:Hi; [|by rewrite alter_id; [|intros x Hx; congruence]].
  assert (Ha : alter f i m !! i = Some (f a)) by (by rewrite lookup_alter_eq, Hi).
  rewrite (fleet_bytes_delete _ _ _ _ Ha), (fleet_bytes_delete _ _ _ _ Hi), Hf. f_equal. f_equal.
  apply map_eq. intros j. destruct (decide (i = j)) as [->|]; [by rewrite !lookup_delete_eq|].
  by rewrite !lookup_delete_ne, lookup_alter_ne.
Qed.
End Bytes.

(** ** Paths *)

(** A generated id or fleet: a path component of its own. *)
Definition plain (s : string) : Prop := "/"%char ∉ chars s.

Lemma take_while_all {A} (p : A -> bool) l : (forall x, x ∈ l -> p x = true) -> take_while p l = l.
Proof.
  induction l as [|x l IH]; intros Hl; [done|]. simpl. rewrite (Hl x) by (by left). f_equal. apply IH. intros y Hy. apply Hl. by right.
Qed.

Lemma take_while_app_stop {A} (p : A -> bool) l x r :
  (forall y, y ∈ l -> p y = true) -> p x = false -> take_while p (l ++ x :: r)%list = l.
Proof.
  intros Hl Hx. induction l as [|y l IH]; simpl; [by rewrite Hx|]. rewrite (Hl y) by (by left). f_equal. apply IH.
  intros z Hz. apply Hl. by right.
Qed.

Lemma plain_not_slash s : plain s -> forall c, c ∈ List.rev (chars s) -> not_slash c = true.
Proof.
  intros Hp c Hc. unfold not_slash. apply negb_true_iff, bool_decide_eq_false. intros ->. apply Hp.
  apply list_elem_of_In. apply list_elem_of_In in Hc. by apply in_rev in Hc.
Qed.

Lemma text_chars s : text (chars s) = s.
Proof. apply string_of_list_ascii_of_string. Qed.

Lemma basename_plain s : plain s -> basename s = s.
Proof.
  intros Hp. unfold basename. pose proof (plain_not_slash s Hp) as Hs.
  assert (drop_while (fun c => negb (not_slash c)) (List.rev (chars s)) = List.rev (chars s)) as ->.
  { revert Hs. destruct (List.rev (chars s)) as [|x l]; [done|]. intros Hs. cbn [drop_while]. by rewrite (Hs x) by (by left). }
  rewrite take_while_all by done. by rewrite rev_involutive, text_chars.
Qed.

Lemma storage_path_inj f g i j : plain i -> plain j -> attachmentStoragePath f i = attachmentStoragePath g j -> i = j.
Proof.
  intros Hi Hj He. unfold attachmentStoragePath in He. rewrite (basename_plain i), (basename_plain j) in He by done.
  assert (Hl : forall a b, List.rev (chars (basename a +:+ "/" +:+ b)) =
    (List.rev (chars b) ++ "/"%char :: List.rev (chars (basename a)))%list).
  { intros a b. rewrite !chars_app. simpl. rewrite rev_app_distr. simpl. by rewrite <- app_assoc. }
  assert (Hb : forall a b, plain b -> take_while not_slash (List.rev (chars (basename a +:+ "/" +:+ b))) = List.rev (chars b)).
  { intros a b Hb. rewrite Hl. apply take_while_app_stop; [by apply plain_not_slash|done]. }
  pose proof (Hb f i Hi) as H1. rewrite He, Hb in H1 by done.
  rewrite <- (text_chars i), <- (text_chars j). f_equal. apply (f_equal (@List.rev ascii)) in H1. by rewrite !rev_involutive in H1.
Qed.

(** ** Runs *)

Section Runs.
Context `{BufferApi} (cfg : Config).

(** Uploads, the messages that take them, and the sweep. *)
Inductive att_op :=
  | UpAgent (now : Z) (attachmentId : string) (agent : AgentIdentity) (r : UploadRequest)
  | UpOperator (now : Z) (attachmentId fleet operator : string) (r : UploadRequest)
  | UpSend (now : Z) (mid : string) (dly : nat -> string) (i : MessageInput)
  | UpOperatorSend (keys : KeyDb) (now : Z) (mid cor fallback : string) (dly : nat -> string) (i : OperatorMessageInput)
  | UpSweep (now : Z) (stuck : gset string).

Definition att_step (w : AttachWorld) (op : att_op) : AttachWorld :=
  match op with
  | UpAgent now i agent r => fst (fst (postAttachment cfg w now i agent r))
  | UpOperator now i fleet operator r => fst (fst (postOperatorAttachment cfg w now i fleet operator r))
  | UpSend now mid dly i =>
      match createMessage cfg (aw_agents w) (aw_mail w) now mid dly i with
      | Ok (m, _) => with_aw_mail m w
      | Throw _ => w
      end
  | UpOperatorSend keys now mid cor fallback dly i =>
      let '(d, r) := createOperatorMessage cfg keys (aw_agents w) (aw_mail w) now mid cor fallback dly i in
      match r with
      | Ok (m, _, _) => with_aw_mail m (with_aw_agents d w)
      | Throw _ => with_aw_agents d w
      end
  | UpSweep now stuck => fst (sweepAttachments cfg w now stuck)
  end.

Definition att_run (w : AttachWorld) (ops : list att_op) : AttachWorld := fold_left att_step ops w.

Abbreviation rows w := (md_attachments (aw_mail w)).

(** What a stored row says is true of the file. *)
Record row_ok (disk : gmap string (list Z)) (i : string) (a : AttachmentRow) (bytes : list Z) : Prop := {
  ro_plain : plain i;
  ro_path : at_storage_path a = attachmentStoragePath (at_fleet a) i;
  ro_file : disk !! at_storage_path a = Some bytes;
  ro_size : at_size_bytes a = Z.of_nat (length bytes) /\ 0 < at_size_bytes a <= attachmentMaxBytes cfg;
  ro_type : isAllowedMime (at_mime a) = true /\ sniffImageMatches (at_mime a) bytes = true;
  ro_name : safe_name (at_filename a)
}.

Record att_ok (w : AttachWorld) : Prop := {
  ao_rows : forall i a, rows w !! i = Some a -> exists bytes, row_ok (aw_disk w) i a bytes;
  ao_files : forall path bytes, aw_disk w !! path = Some bytes -> exists i a, rows w !! i = Some a /\ at_storage_path a = path;
  ao_quota : forall fleet, getFleetAttachmentBytes (rows w) fleet <= attachmentFleetQuotaBytes cfg
}.

Lemma path_owner w i a j b :
  att_ok w -> rows w !! i = Some a -> rows w !! j = Some b -> at_storage_path a = at_storage_path b -> i = j.
Proof.
  intros [Hr _ _] Hi Hj He. destruct (Hr i a Hi) as (? & []), (Hr j b Hj) as (? & []).
  rewrite ro_path0, ro_path1 in He. by eapply storage_path_inj.
Qed.

(** ** Binding *)

Definition same_upload (a b : AttachmentRow) : Prop :=
  at_fleet b = at_fleet a /\ at_uploader_id b = at_uploader_id a /\ at_filename b = at_filename a /\ at_mime b = at_mime a /\
  at_size_bytes b = at_size_bytes a /\ at_storage_path b = at_storage_path a /\ at_created_at b = at_created_at a.

Lemma bind_lookup mid now ids m i :
  bind_attachments mid now ids m !! i =
  (if bool_decide (i ∈ ids) then bind_attachment mid now <$> m !! i else m !! i).
Proof.
  unfold bind_attachments. induction ids as [|k ids IH]; [done|]. cbn [foldr].
  destruct (decide (k = i)) as [->|Hne].
  - rewrite lookup_alter_eq, IH. rewrite (bool_decide_eq_true_2 (i ∈ i :: ids)) by (by left).
    case_bool_decide; [|done]. by destruct (m !! i).
  - rewrite lookup_alter_ne, IH by done.
    by rewrite (bool_decide_ext (i ∈ k :: ids) (i ∈ ids)) by (rewrite elem_of_cons; naive_solver).
Qed.

Lemma bind_bytes mid now ids m fleet :
  getFleetAttachmentBytes (bind_attachments mid now ids m) fleet = getFleetAttachmentBytes m fleet.
Proof. unfold bind_attachments. induction ids as [|k ids IH]; [done|]. simpl. by rewrite fleet_bytes_alter. Qed.

Lemma att_ok_bind w d m' mid now ids :
  att_ok w -> md_attachments m' = bind_attachments mid now ids (rows w) ->
  att_ok (MkAttachWorld d m' (aw_disk w)).
Proof.
  intros [Hr Hf Hq] Hm. split; simpl; rewrite Hm.
  - intros i b. rewrite bind_lookup. case_bool_decide; [|by apply Hr].
    intros (a & Ha & ->)%fmap_Some_1. destruct (Hr i a Ha) as (bytes & []). by exists bytes.
  - intros path bytes Hp. destruct (Hf path bytes Hp) as (i & a & Ha & Hpa).
    exists i. rewrite bind_lookup, Ha. case_bool_decide; simpl; eauto.
  - intros fleet. by rewrite bind_bytes.
Qed.

Lemma createMessage_binds d m now mid dly i m' es :
  createMessage cfg d m now mid dly i = Ok (m', es) ->
  md_attachments m' = bind_attachments mid now (string_list (mi_body i) "attachments") (md_attachments m).
Proof. unfold createMessage. intros Hc. by inv_ok Hc. Qed.

Lemma createOperatorMessage_binds keys d m now mid cor fb dly i d' m' c es :
  createOperatorMessage cfg keys d m now mid cor fb dly i = (d', Ok (m', c, es)) ->
  md_attachments m' = bind_attachments mid now (oi_attachments i) (md_attachments m).
Proof.
  unfold createOperatorMessage. destruct (check_signer keys i); [done|].
  destruct (ensureOperatorAgent d now (oi_fleet i)) as [d1 sid]. intros [= _ Hc]. by inv_ok Hc.
Qed.

(** ** Uploading *)

Lemma decode_nonempty data b : decodeBase64Strict data = Some b -> b <> [].
Proof.
  unfold decodeBase64Strict. case_bool_decide; [done|]. destruct (_ || _) eqn:E; [done|]. intros [= <-] Hn.
  rewrite Hn in E. done.
Qed.

Lemma check_upload_Ok r bytes :
  check_upload cfg r = Ok bytes ->
  isAllowedMime (up_mime r) = true /\ sniffImageMatches (up_mime r) bytes = true /\
  0 < Z.of_nat (length bytes) <= attachmentMaxBytes cfg /\ decodeBase64Strict (up_data_base64 r) = Some bytes.
Proof.
  unfold check_upload. intros Hc. inv_ok Hc. bools. split_and!; try done.
  match goal with Hd : decodeBase64Strict _ = Some _ |- _ => apply decode_nonempty in Hd end.
  destruct bytes; [done|]. simpl. lia.
Qed.

Lemma store_upload_ok w now i fleet kind uploader r bytes :
  att_ok w -> plain i -> rows w !! i = None -> check_upload cfg r = Ok bytes ->
  att_ok (fst (fst (store_upload cfg w now i fleet kind uploader r bytes))).
Proof.
  intros Hok Hp Hi (Hm & Hs & Hl & _)%check_upload_Ok. unfold store_upload.
  destruct (_ <? _) eqn:Hq; [done|]. bools. unfold createAttachment. simpl.
  set (a := MkAttachment _ _ _ _ _ _ _ _ _ _).
  assert (Hne : forall j b, rows w !! j = Some b -> at_storage_path b <> attachmentStoragePath fleet i).
  { intros j b Hb He. destruct (ao_rows _ Hok j b Hb) as (? & []). rewrite ro_path0 in He.
    apply storage_path_inj in He; [congruence|done|done]. }
  split; simpl.
  - intros j b. rewrite lookup_insert_Some. intros [[<- <-]|[Hji Hb]].
    + exists bytes. split; simpl; try done. by rewrite lookup_insert_eq. apply sanitize_safe.
    + destruct (ao_rows _ Hok j b Hb) as (bs & []). exists bs. split; try done.
      rewrite lookup_insert_ne by (intros He; by apply (Hne j b)). done.
  - intros path bs. rewrite lookup_insert_Some. intros [[<- <-]|[Hpi Hb]].
    + exists i, a. by rewrite lookup_insert_eq.
    + destruct (ao_files _ Hok path bs Hb) as (j & b & Hj & Hpj). exists j, b. split; [|done].
      rewrite lookup_insert_ne; [done|congruence].
  - intros f. rewrite fleet_bytes_insert by done. unfold share. simpl. pose proof (ao_quota _ Hok f).
    case_bool_decide as Hf; [rewrite <- Hf|]; lia.
Qed.

Lemma att_ok_agents d w : att_ok w -> att_ok (with_aw_agents d w).
Proof. by intros []. Qed.

(** ** Collecting *)

Definition collected (now : Z) (stuck : gset string) (a : AttachmentRow) : bool :=
  expired_attachment cfg now a && negb (bool_decide (at_storage_path a ∈ stuck)).

Lemma att_ok_delete w i a :
  att_ok w -> rows w !! i = Some a ->
  att_ok (MkAttachWorld (aw_agents w) (with_attachments (delete i (rows w)) (aw_mail w)) (delete (at_storage_path a) (aw_disk w))).
Proof.
  intros Hok Hi. split; simpl.
  - intros j b [Hne Hb]%lookup_delete_Some. destruct (ao_rows _ Hok j b Hb) as (bs & []). exists bs. split; try done.
    rewrite lookup_delete_ne; [done|]. intros He. apply Hne. by eapply path_owner.
  - intros path bs [Hne Hb]%lookup_delete_Some. destruct (ao_files _ Hok path bs Hb) as (j & b & Hj & Hpj).
    exists j, b. split; [|done]. rewrite lookup_delete_ne; [done|]. intros <-. congruence.
  - intros f. pose proof (ao_quota _ Hok f) as Hq. rewrite (fleet_bytes_delete _ f i a Hi) in Hq.
    assert (0 <= share f a); [|lia]. unfold share. destruct (ao_rows _ Hok i a Hi) as (bs & []). case_bool_decide; lia.
Qed.

(** One row of the sweep. *)
Lemma sweep_one w n i a stuck :
  att_ok w -> rows w !! i = Some a ->
  let w' := fst (sweep_attachment stuck (w, n) (i, a)) in
  att_ok w' /\
  (forall j, rows w' !! j = if bool_decide (j = i) && negb (bool_decide (at_storage_path a ∈ stuck)) then None else rows w !! j) /\
  (forall j b, rows w' !! j = Some b -> aw_disk w' !! at_storage_path b = aw_disk w !! at_storage_path b).
Proof.
  intros Hok Hi. simpl. destruct (ao_rows _ Hok i a Hi) as (bs & Hrow).
  rewrite (bool_decide_eq_true_2 (is_Some (aw_disk w !! at_storage_path a))) by (rewrite (ro_file _ _ _ _ Hrow); by eexists).
  rewrite andb_true_r. case_bool_decide as Hst; simpl.
  { split_and!; [done| |done]. intros j. by rewrite andb_false_r. }
  split_and!; [by apply att_ok_delete|..].
  - intros j. rewrite andb_true_r. case_bool_decide as Hj; [subst j; apply lookup_delete_eq|by rewrite lookup_delete_ne].
  - intros j b [Hne Hb]%lookup_delete_Some. rewrite lookup_delete_ne; [done|]. intros He. apply Hne. by eapply path_owner.
Qed.

Lemma sweep_all stuck l : forall w n,
  att_ok w -> NoDup (map fst l) -> (forall i a, (i, a) ∈ l -> rows w !! i = Some a) ->
  let w' := fst (foldl (sweep_attachment stuck) (w, n) l) in
  att_ok w' /\
  (forall j b, rows w' !! j = Some b <->
     rows w !! j = Some b /\ ((j, b) ∈ l -> at_storage_path b ∈ stuck)) /\
  (forall j b, rows w' !! j = Some b -> aw_disk w' !! at_storage_path b = aw_disk w !! at_storage_path b).
Proof.
  induction l as [|[i a] l IH]; intros w n Hok Hnd Hl; cbv zeta.
  { cbn. split_and!; [done| |done]. intros j b. split; [intros ?; split; [done|by intros ?%elem_of_nil]|by intros [? _]]. }
  simpl in Hnd. apply NoDup_cons in Hnd as [Hni Hnd].
  assert (Hi : rows w !! i = Some a) by (apply Hl; by left).
  pose proof (sweep_one w n i a stuck Hok Hi) as (Hok1 & Hrow1 & Hdisk1). cbn [foldl].
  destruct (sweep_attachment stuck (w, n) (i, a)) as [w1 n1] eqn:Hs. cbn [fst] in *.
  destruct (IH w1 n1 Hok1 Hnd) as (Hok2 & Hrow2 & Hdisk2).
  { intros j b Hj. rewrite Hrow1. rewrite bool_decide_eq_false_2; [apply Hl; by right|]. intros ->. apply Hni.
    apply list_elem_of_fmap. by exists (i, b). }
  split_and!; [done| |].
  - intros j b. rewrite Hrow2, Hrow1. destruct (decide (j = i)) as [->|Hne].
    + rewrite bool_decide_eq_true_2 by done. case_bool_decide as Hst; simpl.
      * rewrite Hi. split.
        -- intros [[= <-] _]. split; [done|]. by intros _.
        -- intros [[= <-] _]. split; [done|]. intros Hin. exfalso. apply Hni. apply list_elem_of_fmap. by exists (i, a).
      * split; [by intros [? _]|]. intros [Hb Hall]. exfalso. apply Hst. rewrite Hi in Hb. injection Hb as <-. apply Hall. by left.
    + rewrite bool_decide_eq_false_2 by done. simpl. split; intros [Hb Hall]; (split; [done|]); intros Hin; apply Hall.
      * apply elem_of_cons in Hin as [[= -> _]|?]; done.
      * by right.
  - intros j b Hb. rewrite (Hdisk2 j b Hb). apply Hrow2 in Hb as [Hb _]. by apply (Hdisk1 j).
Qed.

(** The sweep keeps exactly the rows that are not due, or whose file it cannot
    remove, with their bytes. *)
Lemma sweep_spec w now stuck :
  att_ok w ->
  let w' := fst (sweepAttachments cfg w now stuck) in
  att_ok w' /\
  (forall j b, rows w' !! j = Some b <-> rows w !! j = Some b /\ collected now stuck b = false) /\
  (forall j b, rows w' !! j = Some b -> aw_disk w' !! at_storage_path b = aw_disk w !! at_storage_path b).
Proof.
  intros Hok. unfold sweepAttachments. set (l := List.filter _ _).
  destruct (sweep_all stuck l w O Hok) as (H1' & H2' & H3').
  - apply (sublist_NoDup _ (map fst (map_to_list (rows w)))); [apply NoDup_fst_map_to_list|].
    apply sublist_map, filter_sublist.
  - intros i a. unfold l. rewrite elem_of_where. intros [Hin _]. by apply elem_of_map_to_list.
  - split_and!; [done| |done]. intros j b. rewrite H2'. unfold l, collected. rewrite elem_of_where, elem_of_map_to_list. simpl.
    split; intros [Hb Hc]; (split; [done|]).
    + destruct (expired_attachment cfg now b); [|done]. simpl. rewrite bool_decide_eq_true_2 by (by apply Hc). done.
    + intros [_ He]. rewrite He in Hc. simpl in Hc. bools. done.
Qed.

(** ** The invariant over a run *)

(** The id an upload draws: a name of its own, not taken. *)
Definition fresh_upload (w : AttachWorld) (op : att_op) : Prop :=
  match op with
  | UpAgent _ i _ _ | UpOperator _ i _ _ _ => plain i /\ rows w !! i = None
  | _ => True
  end.

Fixpoint fresh_uploads (w : AttachWorld) (ops : list att_op) : Prop :=
  match ops with [] => True | op :: ops => fresh_upload w op /\ fresh_uploads (att_step w op) ops end.

Lemma att_ok_step w op : att_ok w -> fresh_upload w op -> att_ok (att_step w op).
Proof.
  intros Hok Hf. destruct op as [now i agent r|now i fleet operator r|now mid dly i|keys now mid cor fb dly i|now stuck]; cbn [att_step].
  - destruct Hf as [Hp Hi]. unfold postAttachment. destruct (_ || _); [done|].
    destruct (checkAndIncrementUploadLimit _ _ _ _ _) as [[d1 rate] es1]. destruct (negb _); [by apply att_ok_agents|].
    destruct (check_upload cfg r) as [bytes|e] eqn:Hc; [|by apply att_ok_agents].
    pose proof (store_upload_ok (with_aw_agents d1 w) now i (id_fleet agent) "agent" (id_agent agent) r bytes
      (att_ok_agents d1 w Hok) Hp Hi Hc) as Hs.
    by destruct (store_upload _ _ _ _ _ _ _ _ _) as [[? ?] ?].
  - destruct Hf as [Hp Hi]. unfold postOperatorAttachment. destruct (check_upload cfg r) as [bytes|e] eqn:Hc; [|done].
    destruct (checkAndIncrementUploadLimit _ _ _ _ _) as [[d1 rate] es1]. destruct (negb _); [by apply att_ok_agents|].
    pose proof (store_upload_ok (with_aw_agents d1 w) now i fleet "operator" operator r bytes (att_ok_agents d1 w Hok) Hp Hi Hc) as Hs.
    by destruct (store_upload _ _ _ _ _ _ _ _ _) as [[? ?] ?].
  - destruct (createMessage _ _ _ _ _ _ _) as [[m es]|] eqn:Hm; [|done].
    eapply (att_ok_bind w); [done|by eapply createMessage_binds].
  - destruct (createOperatorMessage _ _ _ _ _ _ _ _ _ _) as [d [[[m c] es]|]] eqn:Hm; [|by apply att_ok_agents].
    eapply (att_ok_bind w d); [done|by eapply createOperatorMessage_binds].
  - by apply sweep_spec.
Qed.

Lemma att_ok_run ops : forall w, att_ok w -> fresh_uploads w ops -> att_ok (att_run w ops).
Proof.
  induction ops as [|op ops IH]; intros w Hok Hf; [done|]. destruct Hf as [Hf Hfs]. apply IH; [by apply att_ok_step|done].
Qed.

(** No attachments yet. *)
Definition att_start (d : AgentDb) (m : MailDb) : AttachWorld := MkAttachWorld d (with_attachments ∅ m) ∅.

Lemma att_ok_start d m : 0 <= attachmentFleetQuotaBytes cfg -> att_ok (att_start d m).
Proof.
  intros Hq. split; simpl; [by intros ? ? ?%lookup_empty_Some|by intros ? ? ?%lookup_empty_Some|].
  intros fleet. unfold getFleetAttachmentBytes. by rewrite map_fold_empty.
Qed.

(** ** How long a row lives *)

(** The moment after which a sweep takes the row. *)
Definition due_at (a : AttachmentRow) : Z :=
  match at_bound_at a with
  | None => at_created_at a + attachmentUnboundTtlSeconds cfg * 1000
  | Some b => b + attachmentRetentionSeconds cfg * 1000
  end.

Definition stamped (a : AttachmentRow) : Z := Z.max (at_created_at a) (default (at_created_at a) (at_bound_at a)).

(** The operation comes after every stamp of the row, and if it is a sweep, not
    after it is due. *)
Definition before_due (a : AttachmentRow) (op : att_op) : Prop :=
  match op with
  | UpSweep now _ => now <= due_at a
  | UpSend now _ _ _ | UpOperatorSend _ now _ _ _ _ _ => stamped a <= now
  | _ => True
  end.

Lemma same_upload_refl a : same_upload a a.
Proof. done. Qed.

Lemma bind_due a mid now :
  attachmentUnboundTtlSeconds cfg <= attachmentRetentionSeconds cfg -> stamped a <= now ->
  due_at a <= due_at (bind_attachment mid now a).
Proof. unfold stamped, due_at. intros Hc Hn. simpl. destruct (at_bound_at a); simpl in *; lia. Qed.

(** What the row [a] of [i], whose file is [bytes], has become: the same upload, not
    due any earlier, with the same file, bound as before or at [stamp]. *)
Definition kept_as (w : AttachWorld) (i : string) (a : AttachmentRow) (bytes : list Z) (stamp : option Z) : Prop :=
  exists b, rows w !! i = Some b /\ same_upload a b /\ due_at a <= due_at b /\
    aw_disk w !! at_storage_path b = Some bytes /\
    (at_bound_at b = at_bound_at a \/ (is_Some stamp /\ at_bound_at b = stamp)).

Definition op_stamp (op : att_op) : option Z :=
  match op with UpSend now _ _ _ | UpOperatorSend _ now _ _ _ _ _ => Some now | _ => None end.

Section Kept.
Context (w : AttachWorld) (i : string) (a : AttachmentRow) (bytes : list Z) (stamp : option Z).
Hypothesis (Hok : att_ok w) (Hi : rows w !! i = Some a) (Hb : aw_disk w !! at_storage_path a = Some bytes).

Lemma kept_same w' : rows w' = rows w -> aw_disk w' = aw_disk w -> kept_as w' i a bytes stamp.
Proof. intros Hr Hd. exists a. rewrite Hr, Hd. split_and!; try done. by left. Qed.

Lemma kept_store d now j fleet kind up r bs :
  plain j -> rows w !! j = None ->
  kept_as (fst (fst (store_upload cfg (with_aw_agents d w) now j fleet kind up r bs))) i a bytes stamp.
Proof.
  intros Hp Hj. unfold store_upload, createAttachment. simpl. destruct (_ <? _); [by apply kept_same|].
  exists a. simpl. rewrite lookup_insert_ne by congruence.
  destruct (ao_rows _ Hok i a Hi) as (bs' & []). split_and!; try done; [|by left].
  rewrite lookup_insert_ne; [done|]. intros He. rewrite ro_path0 in He. apply storage_path_inj in He; [congruence|done|done].
Qed.

Lemma kept_bind d m mid now ids :
  attachmentUnboundTtlSeconds cfg <= attachmentRetentionSeconds cfg -> stamp = Some now -> stamped a <= now ->
  md_attachments m = bind_attachments mid now ids (rows w) ->
  kept_as (MkAttachWorld d m (aw_disk w)) i a bytes stamp.
Proof.
  intros Hc -> Hn Hm. unfold kept_as. simpl. rewrite Hm, bind_lookup, Hi. case_bool_decide; simpl.
  - exists (bind_attachment mid now a). split_and!; try done; [by apply bind_due|by right].
  - exists a. split_and!; try done. by left.
Qed.

Lemma kept_sweep now stuck : now <= due_at a -> kept_as (fst (sweepAttachments cfg w now stuck)) i a bytes stamp.
Proof.
  intros Hd. destruct (sweep_spec w now stuck Hok) as (_ & Hrow & Hdisk). exists a.
  assert (Ha : rows (fst (sweepAttachments cfg w now stuck)) !! i = Some a).
  { apply Hrow. split; [done|]. unfold collected, expired_attachment. unfold due_at in Hd.
    destruct (at_bound_at a); rewrite (proj2 (Z.ltb_ge _ _)) by lia; done. }
  split_and!; try done; [by rewrite (Hdisk i a Ha)|by left].
Qed.
End Kept.

Lemma row_kept w op i a bytes :
  att_ok w -> attachmentUnboundTtlSeconds cfg <= attachmentRetentionSeconds cfg -> fresh_upload w op ->
  rows w !! i = Some a -> aw_disk w !! at_storage_path a = Some bytes -> before_due a op ->
  kept_as (att_step w op) i a bytes (op_stamp op).
Proof.
  intros Hok Hc Hf Hi Hb Hd.
  destruct op as [now j agent r|now j fleet operator r|now mid dly x|keys now mid cor fb dly x|now stuck]; cbn [att_step].
  - destruct Hf as [Hp Hj]. unfold postAttachment. destruct (_ || _); [by eapply kept_same|].
    destruct (checkAndIncrementUploadLimit _ _ _ _ _) as [[d1 rate] es1]. destruct (negb _); [by eapply kept_same|].
    destruct (check_upload cfg r) as [bs|e]; [|by eapply kept_same].
    pose proof (kept_store w i a bytes None Hok Hi Hb d1 now j (id_fleet agent) "agent" (id_agent agent) r bs Hp Hj) as Hs.
    by destruct (store_upload _ _ _ _ _ _ _ _ _) as [[? ?] ?].
  - destruct Hf as [Hp Hj]. unfold postOperatorAttachment. destruct (check_upload cfg r) as [bs|e]; [|by eapply kept_same].
    destruct (checkAndIncrementUploadLimit _ _ _ _ _) as [[d1 rate] es1]. destruct (negb _); [by eapply kept_same|].
    pose proof (kept_store w i a bytes None Hok Hi Hb d1 now j fleet "operator" operator r bs Hp Hj) as Hs.
    by destruct (store_upload _ _ _ _ _ _ _ _ _) as [[? ?] ?].
  - destruct (createMessage _ _ _ _ _ _ _) as [[m es]|] eqn:Hm; [|by eapply kept_same].
    apply createMessage_binds in Hm. by eapply kept_bind.
  - destruct (createOperatorMessage _ _ _ _ _ _ _ _ _ _) as [d [[[m c] es]|]] eqn:Hm; [|by eapply kept_same].
    apply createOperatorMessage_binds in Hm. by eapply kept_bind.
  - by apply kept_sweep.
Qed.

(** ** The theorems *)

(** A run in which every sweep comes before the row is due, and every message after
    the stamps of the row: times do not go back. *)
Fixpoint not_due (t due : Z) (ops : list att_op) : Prop :=
  match ops with
  | [] => True
  | op :: ops =>
      match op with
      | UpSweep now _ => now <= due
      | _ => match op_stamp op with Some now => t <= now | None => True end
      end /\ not_due (Z.max t (default t (op_stamp op))) due ops
  end.

(** Attachments live exactly as long as they should. Once uploaded, through
    whatever uploads, messages and sweeps that follow in time, an attachment keeps
    its row and its bytes as long as no sweep comes after it is due: the time to
    live of an upload nobody sent, counted from the upload, or the retention,
    counted from the last message that took it; being taken never brings that
    moment forward. And a sweep that can remove files leaves no row that is due. *)
Theorem attachment_kept_then_collected w ops i a bytes :
  att_ok w -> fresh_uploads w ops -> attachmentUnboundTtlSeconds cfg <= attachmentRetentionSeconds cfg ->
  rows w !! i = Some a -> aw_disk w !! at_storage_path a = Some bytes -> not_due (stamped a) (due_at a) ops ->
  (exists b, rows (att_run w ops) !! i = Some b /\ same_upload a b /\ due_at a <= due_at b /\
     aw_disk (att_run w ops) !! at_storage_path b = Some bytes) /\
  (forall now j b, rows (fst (sweepAttachments cfg (att_run w ops) now ∅)) !! j = Some b -> now <= due_at b).
Proof.
  intros Hok Hf Hc Hi Hb Hnd. split.
  - assert (Hrun : forall ops w a t, att_ok w -> fresh_uploads w ops -> rows w !! i = Some a ->
      aw_disk w !! at_storage_path a = Some bytes -> stamped a <= t -> forall due, due <= due_at a -> not_due t due ops ->
      exists b, rows (att_run w ops) !! i = Some b /\ same_upload a b /\ due_at a <= due_at b /\
        aw_disk (att_run w ops) !! at_storage_path b = Some bytes).
    { clear w ops a Hok Hf Hi Hb Hnd. induction ops as [|op ops IH]; intros w a t Hok Hf Hi Hb Ht due Hdue Hnd; [by exists a|].
      destruct Hf as [Hf Hfs], Hnd as [Hop Hnd].
      assert (Hbd : before_due a op) by (destruct op; simpl in *; try done; lia).
      destruct (row_kept w op i a bytes Hok Hc Hf Hi Hb Hbd) as (b & Hib & Hab & Hdb & Hfb & Hbound).
      destruct (IH (att_step w op) b (Z.max t (default t (op_stamp op)))) with (due := due) as (c & Hic & Hbc & Hdc & Hfc);
        [by apply att_ok_step|done|done|done| |lia|done|].
      - destruct Hab as (_ & _ & _ & _ & _ & _ & Hcr). unfold stamped in *. rewrite Hcr.
        destruct Hbound as [->|[[n Hs] ->]]; [lia|]. rewrite Hs in *. simpl in *.
        assert (t <= n) by (destruct op; simplify_eq/=; lia). destruct (at_bound_at a); simpl in *; lia.
      - exists c. split_and!; try done; [|lia]. unfold same_upload in *. intuition congruence. }
    by eapply Hrun.
  - intros now j b Hj. apply sweep_spec in Hj as [_ Hcol]; [|by apply att_ok_run].
    unfold collected, expired_attachment in Hcol. rewrite (bool_decide_eq_false_2 (at_storage_path b ∈ (∅ : gset string))) in Hcol by set_solver.
    rewrite andb_true_r in Hcol. unfold due_at. destruct (at_bound_at b); bools; lia.
Qed.

(** C39. What is on disk is accounted for. Starting without attachments, after any
    uploads, messages and sweeps: no fleet holds more than its quota; every row has
    its file, of the size the row says, within the limit, of an allowed type, with
    the first bytes of the image it claims to be, under a name without control
    characters or separators; and no file is left without a row. *)
Theorem attachments_accounted_for d m ops :
  0 <= attachmentFleetQuotaBytes cfg -> fresh_uploads (att_start d m) ops ->
  let w := att_run (att_start d m) ops in
  (forall fleet, getFleetAttachmentBytes (rows w) fleet <= attachmentFleetQuotaBytes cfg) /\
  (forall i a, rows w !! i = Some a -> exists bytes, aw_disk w !! at_storage_path a = Some bytes /\
     at_size_bytes a = Z.of_nat (length bytes) /\ 0 < at_size_bytes a <= attachmentMaxBytes cfg /\
     isAllowedMime (at_mime a) = true /\ sniffImageMatches (at_mime a) bytes = true /\ safe_name (at_filename a)) /\
  (forall path bytes, aw_disk w !! path = Some bytes -> exists i a, rows w !! i = Some a /\ at_storage_path a = path).
Proof.
  intros Hq Hf. cbv zeta. destruct (att_ok_run ops _ (att_ok_start d m Hq) Hf) as [Hr Hd Hb]. split_and!; [done| |done].
  intros i a Hi. destruct (Hr i a Hi) as (bytes & []). exists bytes. naive_solver.
Qed.

(** ** Serving *)

Lemma encoded_clean s c : c ∈ chars (encodeURIComponent s) -> is_control c = false /\ c <> ascii_of_nat 34.
Proof.
  unfold encodeURIComponent. rewrite chars_text. intros Hc%list_elem_of_In. apply in_flat_map in Hc as (x & _ & Hc).
  apply list_elem_of_In in Hc. revert c Hc.
  assert (Hall : Forall (fun x => Forall (fun c => is_control c = false /\ c <> ascii_of_nat 34) (encode_char x))
                   (map ascii_of_nat (seq 0 256))) by (apply (bool_decide_unpack _); vm_compute; exact I).
  rewrite Forall_forall in Hall. specialize (Hall x).
  assert (Hx : x ∈ map ascii_of_nat (seq 0 256)).
  { apply list_elem_of_fmap. exists (nat_of_ascii x). rewrite ascii_nat_embedding. split; [done|].
    apply list_elem_of_In, in_seq. pose proof (nat_ascii_bounded x). lia. }
  specialize (Hall Hx). rewrite Forall_forall in Hall. intros c Hc. by apply Hall.
Qed.

(** What is served is what was stored, to the fleet that owns it, and inert.
    Starting without attachments, after any uploads, messages and sweeps, a
    download answers with the exact bytes of an attachment of the caller's fleet;
    for an id of another fleet the answer is that of an id that does not exist. The
    content type is that of an image only when the bytes begin as that image does,
    and is not a document's otherwise; nothing may be sniffed or run; and the
    header that carries the name has no control character, and no quote besides the
    two around the name, so the name cannot add a header or end its field. *)
Theorem attachments_served_safely d m ops fleet i :
  0 <= attachmentFleetQuotaBytes cfg -> fresh_uploads (att_start d m) ops ->
  let w := att_run (att_start d m) ops in
  (getAttachment (rows w) fleet i = None -> getAttachmentRoute w fleet i = None) /\
  (forall a, getAttachment (rows w) fleet i = Some a ->
     exists x bytes name, getAttachmentRoute w fleet i = Some x /\
       at_fleet a = fleet /\ aw_disk w !! at_storage_path a = Some bytes /\ dn_bytes x = bytes /\
       at_size_bytes a = Z.of_nat (length bytes) /\
       (dn_content_type x = "application/octet-stream" \/
        (isImageMime (dn_content_type x) = true /\ sniffImageMatches (dn_content_type x) bytes = true)) /\
       dn_nosniff x = "nosniff" /\ dn_csp x = "default-src 'none'; sandbox" /\
       dn_disposition x = "attachment; filename=" +:+ dquote +:+ name +:+ dquote +:+ "; filename*=UTF-8''" +:+
         encodeURIComponent (sanitizeFilename (at_filename a)) /\
       (forall c, c ∈ chars (dn_disposition x) -> is_control c = false) /\
       (forall c, c ∈ chars name -> c <> ascii_of_nat 34)).
Proof.
  intros Hq Hf. cbv zeta. set (w := att_run (att_start d m) ops).
  destruct (att_ok_run ops _ (att_ok_start d m Hq) Hf) as [Hr _ _]. fold w in Hr.
  unfold getAttachmentRoute. split; [by intros ->|]. intros a Ha. rewrite Ha.
  unfold getAttachment in Ha. destruct (rows w !! i) as [a'|] eqn:Hi; [|done]. case_bool_decide as Hfl; [|done]. injection Ha as ->.
  destruct (Hr i a Hi) as (bytes & []). rewrite ro_file0. eexists _, bytes, _.
  assert (Hname : forall c, c ∈ chars (sanitizeFilename (at_filename a)) -> is_control c = false).
  { intros c Hc. by apply (sanitize_safe (at_filename a)). }
  split_and!; [reflexivity|done|done|done|apply ro_size0| |done|done|reflexivity|..].
  - unfold sendAttachment. simpl. destruct (isAllowedMime (at_mime a)) eqn:Hal, (isImageMime (at_mime a)) eqn:Him; simpl; auto.
    right. split; [done|apply ro_type0].
  - unfold sendAttachment. cbn [dn_disposition]. intros c. rewrite !chars_app, !elem_of_app, chars_text, elem_of_where.
    assert (Hlit : forall s, forallb (fun c => negb (is_control c)) (chars s) = true -> c ∈ chars s -> is_control c = false).
    { intros s Hs Hc. rewrite forallb_forall in Hs. apply list_elem_of_In in Hc. specialize (Hs c Hc). by apply negb_true_iff in Hs. }
    intros [Hc|[Hc|[[Hc _]|[Hc|[Hc|Hc]]]]];
      [by revert Hc; apply Hlit|by revert Hc; apply Hlit|by apply Hname|by revert Hc; apply Hlit|by revert Hc; apply Hlit|].
    by apply encoded_clean in Hc as [? _].
  - intros c. rewrite chars_text, elem_of_where. intros [_ Hn]. by bools.
Qed.
End Runs.

(** ** Witnesses *)

(** A decoder for the witnesses: a character of the text is a byte. *)
Definition toy_buffers : BufferApi := {|
  buffer_from_base64 := fun s => map (fun c => Z.of_nat (nat_of_ascii c)) (chars s)
|}.
Local Existing Instance toy_buffers.

Definition demo_upload : UploadRequest := MkUpload "../../notes.txt" "text/plain" 3 "abc".
Definition demo_agent_id : AgentIdentity := MkIdentity "a1" "f" Healthy.
Definition demo_attach : MessageInput :=
  MkMessageInput "f" "a1" "agent" (Some "a2") "direct" "normal" 3600 false
    (JObj [("text", JStr "see file"); ("attachments", JArr [JStr "att1"])]) None "c1" "cor1".
Definition demo_att_ops : list att_op :=
  [UpAgent 1000 "att1" demo_agent_id demo_upload; UpSend 2000 "m1" demo_ids demo_attach;
   UpSweep (2000 + 7 * 24 * 3600 * 1000) ∅].

Lemma demo_att_fresh : fresh_uploads default_config (att_start demo_fleets demo_room) demo_att_ops.
Proof. split; [split; [apply (bool_decide_unpack _); vm_compute; exact I|reflexivity]|]. split; [exact I|]. split; exact I. Qed.

Lemma attachments_accounted_for_witness :
  getFleetAttachmentBytes (md_attachments (aw_mail (att_run default_config (att_start demo_fleets demo_room) demo_att_ops))) "f" = 3 /\
  forall fleet, getFleetAttachmentBytes (md_attachments (aw_mail (att_run default_config (att_start demo_fleets demo_room) demo_att_ops))) fleet
    <= attachmentFleetQuotaBytes default_config.
Proof.
  split; [vm_compute; reflexivity|]. assert (Hq : 0 <= attachmentFleetQuotaBytes default_config) by (vm_compute; discriminate).
  exact (proj1 (attachments_accounted_for default_config demo_fleets demo_room demo_att_ops Hq demo_att_fresh)).
Defined.

Lemma attachments_served_safely_witness :
  dn_disposition <$> getAttachmentRoute (att_run default_config (att_start demo_fleets demo_room) demo_att_ops) "f" "att1" =
    Some ("attachment; filename=" +:+ dquote +:+ "notes.txt" +:+ dquote +:+ "; filename*=UTF-8''notes.txt") /\
  getAttachmentRoute (att_run default_config (att_start demo_fleets demo_room) demo_att_ops) "g" "att1" = None.
Proof.
  split; [vm_compute; reflexivity|]. assert (Hq : 0 <= attachmentFleetQuotaBytes default_config) by (vm_compute; discriminate).
  apply (attachments_served_safely default_config demo_fleets demo_room demo_att_ops "g" "att1" Hq demo_att_fresh).
  vm_compute. reflexivity.
Defined.

Definition demo_att_start : AttachWorld := att_start demo_fleets demo_room.
Definition demo_uploaded : AttachWorld := att_run default_config demo_att_start (take 1 demo_att_ops).
Definition demo_att_row : AttachmentRow := MkAttachment "f" "agent" "a1" "notes.txt" "text/plain" 3 "f/att1" 1000 None None.

Lemma attachment_kept_then_collected_witness :
  exists b, md_attachments (aw_mail (att_run default_config demo_uploaded
      [UpSend 2000 "m1" demo_ids demo_attach; UpSweep (1000 + 6 * 3600 * 1000) ∅])) !! "att1" = Some b /\
    same_upload demo_att_row b.
Proof.
  assert (Hq : 0 <= attachmentFleetQuotaBytes default_config) by (vm_compute; discriminate).
  assert (Hok : att_ok default_config demo_uploaded).
  { apply att_ok_run; [by apply att_ok_start|]. exact (conj (proj1 demo_att_fresh) I). }
  assert (Hc : attachmentUnboundTtlSeconds default_config <= attachmentRetentionSeconds default_config) by (vm_compute; discriminate).
  assert (Hi : md_attachments (aw_mail demo_uploaded) !! "att1" = Some demo_att_row) by (vm_compute; reflexivity).
  assert (Hb : aw_disk demo_uploaded !! at_storage_path demo_att_row = Some [97; 98; 99]) by (vm_compute; reflexivity).
  destruct (attachment_kept_then_collected default_config demo_uploaded
    [UpSend 2000 "m1" demo_ids demo_attach; UpSweep (1000 + 6 * 3600 * 1000) ∅] "att1" demo_att_row [97; 98; 99] Hok) as [(b & H1 & H2 & _) _].
  - repeat split.
  - exact Hc.
  - exact Hi.
  - exact Hb.
  - vm_compute. repeat split; discriminate.
  - exists b. exact (conj H1 H2).
Defined.

(** The order of the steps of [sanitizeFilename] defeats one of them: leading
    dots are removed before the name is trimmed, so a name that begins with a blank
    keeps its dots, and [" .."] is stored and served as [".."]. *)
Example sanitize_keeps_leading_dots :
  sanitizeFilename " .." = ".." /\ sanitizeFilename " .bashrc" = ".bashrc" /\ sanitizeFilename "../.bashrc" = "bashrc".
Proof. vm_compute. auto. Qed.
