(* ===== verification/OperatorViews.v ===== *)
(** * What the operator reads

    The read-only methods of [packages/relay/src/db.ts] behind the operator's lists
    and timelines: text search, date bounds, sorting and paging; agents, approvals,
    events, dead letters, the activity stream, the overview and conversations.  Where
    a statement leaves the order of equal rows open they come in the order of the
    scan. *)

From S2P Require Import Prelude Json IsoTime JsValues Events Config Agents Enrollment Messages Rooms FleetHealth Text SdkClient Attachments.
Import Ascii String.
Open Scope string_scope.
Open Scope Z_scope.

(** ** LIKE *)

Fixpoint tails {A} (l : list A) : list (list A) :=
  l :: match l with [] => [] | _ :: l' => tails l' end.

(** [text LIKE pattern ESCAPE esc] of SQLite: the case of ASCII letters is ignored. *)
Fixpoint like (esc : option ascii) (p s : list ascii) : bool :=
  match p with
  | [] => match s with [] => true | _ :: _ => false end
  | c :: p' =>
      if Some c ==? esc then
        match p', s with
        | d :: p'', x :: s' => (lower d ==? lower x) && like esc p'' s'
        | _, _ => false
        end
      else if c ==? "%"%char then existsb (like esc p') (tails s)
      else match s with
           | x :: s' => ((c ==? "_"%char) || (lower c ==? lower x)) && like esc p' s'
           | [] => false
           end
  end.

(** [toLowerCase] on the code units 0-255; SQLite's [LOWER] is [lower_string]. *)
Definition js_lower (c : ascii) : ascii :=
  let n := nat_of_ascii c in
  if ((192 <=? n) && (n <=? 222) && negb (n =? 215))%nat then ascii_of_nat (n + 32) else lower c.

Definition backslash : ascii := "\"%char.
Definition wildcard (c : ascii) : bool := (c ==? "%"%char) || (c ==? "_"%char) || (c ==? backslash).

Definition escapeLike (value : list ascii) : list ascii :=
  flat_map (fun c => if wildcard c then [backslash; c] else [c]) value.

(** A parameter that is absent or blank. *)
Definition given (value : option string) : option string := truthy (trim <$> value).

Definition buildLikeSearch (value : option string) : option (list ascii) :=
  (fun v => ["%"%char] ++ escapeLike (map js_lower (chars v)) ++ ["%"%char])%list <$> given value.

(** [LOWER(column) LIKE ? ESCAPE '\'], and one of several columns. *)
Definition matches (pattern : list ascii) (column : string) : bool :=
  like (Some backslash) pattern (chars (lower_string column)).
Definition found (pattern : option (list ascii)) (columns : list string) : bool :=
  match pattern with Some p => existsb (matches p) columns | None => true end.

Definition normalizeDateStart (value : option string) : option string := (fun v => v +:+ "T00:00:00.000Z") <$> given value.
Definition normalizeDateEnd (value : option string) : option string := (fun v => v +:+ "T23:59:59.999Z") <$> given value.

(** Bounds on a time, compared as texts. *)
Definition within_dates (from to : option string) (t : Z) : bool :=
  match from with Some f => string_leb f (to_iso t) | None => true end &&
  match to with Some u => string_leb (to_iso t) u | None => true end.

(** A filter that is absent, empty or ["all"] lets everything through. *)
Definition chosen (value : option string) : option string :=
  match truthy value with Some v => if v ==? "all" then None else Some v | None => None end.

(** [`${type}.%`], without an ESCAPE clause. *)
Definition of_type (type : option string) (event_type : string) : bool :=
  match chosen type with
  | Some t => like None (chars (t +:+ ".%")) (chars event_type)
  | None => true
  end.

(** ** Sorting and paging *)

Section SortRows.
Context {R : Type} (leb : R -> R -> bool).

Fixpoint insert_row (x : R) (l : list R) : list R :=
  match l with
  | [] => [x]
  | y :: l' => if leb x y then x :: l else y :: insert_row x l'
  end.

Definition sort_rows (l : list R) : list R := foldr insert_row [] l.
End SortRows.

Definition flipped {R} (desc : bool) (leb : R -> R -> bool) : R -> R -> bool :=
  if desc then fun x y => leb y x else leb.

(** [ORDER BY a, b] *)
Definition then_by {R} (a b : R -> R -> bool) (x y : R) : bool :=
  if a x y then if a y x then b x y else true else false.

Definition by_text {R} (key : R -> string) (x y : R) : bool := string_leb (key x) (key y).
Definition by_time {R} (key : R -> Z) (x y : R) : bool := key x <=? key y.
(** NULL sorts first. *)
Definition by_null {R K} (key : R -> option K) (leb : K -> K -> bool) (x y : R) : bool :=
  match key x, key y with None, _ => true | Some _, None => false | Some a, Some b => leb a b end.

(** The statement does not compile. *)
Inductive ViewError := BadOrderBy.

(** [sortable[sortBy ?? first] ?? first]: the first column is the default. *)
Definition sort_column {R} (first : R -> R -> bool) (sortable : list (string * (R -> R -> bool))) (sortBy : option string)
    : result ViewError (R -> R -> bool) :=
  match sortBy with
  | None => Ok first
  | Some s =>
      match List.find (fun c => fst c ==? s) sortable with
      | Some c => Ok (snd c)
      | None => if inherited s then Throw BadOrderBy else Ok first
      end
  end.

(** The query of a list; [vo_kind] is its status, risk or type. *)
Record ViewOptions := MkViewOptions {
  vo_search : option string;
  vo_kind : option string;
  vo_dateFrom : option string;
  vo_dateTo : option string;
  vo_sortBy : option string;
  vo_sortOrder : option string;
  vo_beforeAt : option string;
  vo_beforeId : option string;
  vo_limit : nat;
  vo_offset : nat
}.

(** [LIMIT ? OFFSET ?] *)
Definition page_of {R} (o : ViewOptions) (l : list R) : list R := take (vo_limit o) (drop (vo_offset o) l).

(** The page and the total. *)
Definition list_view {R} (o : ViewOptions) (order : R -> R -> bool) (rows : list R) : list R * nat :=
  (page_of o (sort_rows order rows), length rows).

Definition parsePagination (limit page : option (option Z)) : nat * nat * nat :=
  let l := match limit with
           | None => 20
           | Some (Some n) => Z.max 1 (Z.min 100 n)
           | Some None => 20
           end in
  let p := match page with
           | None => 1
           | Some (Some n) => Z.max 1 n
           | Some None => 1
           end in
  (Z.to_nat l, Z.to_nat p, Z.to_nat ((p - 1) * l)).

(** ** Agents *)

Record AgentItem := MkAgentItem {
  ai_id : string; ai_display_name : string; ai_runtime : string; ai_status : string; ai_last_seen_at : option Z;
  ai_operator_trusted : bool; ai_peer_autoreply : bool; ai_peer_turn_budget : option Z
}.

Definition fleet_agent_item (x : string * AgentRow) : AgentItem :=
  let a := snd x in
  MkAgentItem (fst x) (ag_display_name a) (ag_runtime a) (status_column (ag_status a)) (ag_last_seen_at a)
    (ag_operator_trusted a) (ag_peer_autoreply a) (turnBudgetOut (ag_peer_turn_budget a)).

(** [WHERE id = ? AND fleet_id = ?] *)
Definition fleet_lookup {V} (fleet_of : V -> string) (fleet : string) (t : gmap string V) (i : string) : option V :=
  match t !! i with
  | Some a => if fleet_of a ==? fleet then Some a else None
  | None => None
  end.

Definition listed_agents (d : AgentDb) (fleet : string) (o : ViewOptions) : list (string * AgentRow) :=
  List.filter (fun x =>
    negb (ag_runtime (snd x) ==? "operator") &&
    match chosen (vo_kind o) with Some s => status_column (ag_status (snd x)) ==? s | None => true end &&
    found (buildLikeSearch (vo_search o)) [ag_display_name (snd x); fst x; ag_runtime (snd x)])
  (fleet_rows ag_fleet fleet (ad_agents d)).

Definition listAgents (d : AgentDb) (fleet : string) (o : ViewOptions) : result ViewError (list AgentItem * nat) :=
  let? col := sort_column (by_time (fun x => ag_created_at (snd x)))
                [("display_name", by_text (fun x : string * AgentRow => ag_display_name (snd x)));
                 ("status", by_text (fun x => status_column (ag_status (snd x))));
                 ("last_seen_at", by_null (fun x => ag_last_seen_at (snd x)) Z.leb);
                 ("created_at", by_time (fun x => ag_created_at (snd x)))] (vo_sortBy o) in
  let '(rows, total) := list_view o (flipped (negb (vo_sortOrder o ==? Some "asc")) col) (listed_agents d fleet o) in
  Ok (map fleet_agent_item rows, total).

(** ** Approvals *)

Record ApprovalItem := MkApprovalItem { pi_id : string; pi_row : ApprovalRow; pi_display_name : string }.

(** JOIN agents ON agents.id = approvals.agent_id *)
Definition joined_approvals (d : AgentDb) (fleet : string) : list ApprovalItem :=
  omap (fun x => (fun a => MkApprovalItem (fst x) (snd x) (ag_display_name a)) <$> ad_agents d !! ap_agent (snd x))
    (fleet_rows ap_fleet fleet (ad_approvals d)).

Definition listed_approvals (d : AgentDb) (fleet : string) (o : ViewOptions) : list ApprovalItem :=
  List.filter (fun x =>
    let a := pi_row x in
    (ap_status a ==? "pending") &&
    match chosen (vo_kind o) with Some r => ap_risk_level a ==? r | None => true end &&
    within_dates (normalizeDateStart (vo_dateFrom o)) (normalizeDateEnd (vo_dateTo o)) (ap_requested_at a) &&
    found (buildLikeSearch (vo_search o)) [ap_summary a; pi_display_name x; ap_agent a; ap_action_type a])
  (joined_approvals d fleet).

Definition listPendingApprovals (d : AgentDb) (fleet : string) (o : ViewOptions)
    : result ViewError (list ApprovalItem * nat) :=
  let? col := sort_column (by_time (fun x => ap_requested_at (pi_row x)))
                [("requested_at", by_time (fun x => ap_requested_at (pi_row x)));
                 ("risk_level", by_text (fun x => ap_risk_level (pi_row x)));
                 ("summary", by_text (fun x => ap_summary (pi_row x)))] (vo_sortBy o) in
  Ok (list_view o (flipped (negb (vo_sortOrder o ==? Some "asc")) col) (listed_approvals d fleet o)).

(** ** Events *)

(** A row of [events] with its primary key. *)
Record EventRow := MkEventRow { ex_id : string; ex_event : Event }.

Definition column (o : option string) : string := default "" o.
Definition ex_at (x : EventRow) : Z := ev_at (ex_event x).

Definition event_columns : list (string * (EventRow -> EventRow -> bool)) :=
  [("created_at", by_time ex_at); ("event_type", by_text (fun x => ev_type (ex_event x)));
   ("actor_id", by_null (fun x => ev_actor (ex_event x)) string_leb);
   ("resource_kind", by_text (fun x => ev_resource_kind (ex_event x)))].

Definition fleet_events (events : list EventRow) (fleet : string) : list EventRow :=
  select (fun x => ev_fleet (ex_event x) ==? fleet) events.

Definition listed_events (events : list EventRow) (fleet : string) (o : ViewOptions) : list EventRow :=
  List.filter (fun x =>
    let e := ex_event x in
    of_type (vo_kind o) (ev_type e) &&
    within_dates (normalizeDateStart (vo_dateFrom o)) (normalizeDateEnd (vo_dateTo o)) (ev_at e) &&
    found (buildLikeSearch (vo_search o))
      [ev_type e; column (ev_actor e); ev_resource_kind e; column (ev_resource e); column (ev_conversation e)])
  (fleet_events events fleet).

Definition listEvents (events : list EventRow) (fleet : string) (o : ViewOptions)
    : result ViewError (list EventRow * nat) :=
  let? col := sort_column (by_time ex_at) event_columns (vo_sortBy o) in
  Ok (list_view o (flipped (negb (vo_sortOrder o ==? Some "asc")) col) (listed_events events fleet o)).

(** The stream, and the names it shows for ids. *)
Record ActivityItem := MkActivityItem {
  ac_row : EventRow; ac_actor_name : option string; ac_resource_name : option string
}.

Definition fleet_names (d : AgentDb) (fleet : string) (i : string) : option string :=
  ag_display_name <$> fleet_lookup ag_fleet fleet (ad_agents d) i.

Definition getActivity (d : AgentDb) (events : list EventRow) (fleet : string) (limit : nat) (type : option string)
    : list ActivityItem :=
  let nameOf raw := (fun i => default i (fleet_names d fleet i)) <$> truthy raw in
  map (fun x => MkActivityItem x (nameOf (ev_actor (ex_event x))) (nameOf (ev_resource (ex_event x))))
    (take limit (sort_rows (flipped true (by_time ex_at))
       (List.filter (fun x =>
          negb (ev_type (ex_event x) ==? "agent.heartbeat") &&
          match truthy type with
          | Some t => like (Some backslash) (escapeLike (chars t) ++ ["%"%char])%list (chars (ev_type (ex_event x)))
          | None => true
          end) (fleet_events events fleet)))).

(** ** Dead letters, rate limits, one agent *)

Definition fleet_dead_letters (m : MailDb) (fleet : string) : list DeadLetterRow :=
  select (fun x => dd_fleet x ==? fleet) (md_dead m).

Definition listDeadLetters (m : MailDb) (fleet : string) (o : ViewOptions) : list DeadLetterRow * nat :=
  list_view o (flipped true (by_time dd_at)) (fleet_dead_letters m fleet).

Definition getDeadLetterDetail (m : MailDb) (fleet deadLetterId : string) : option DeadLetterRow :=
  select_one (fun x => dd_id x ==? deadLetterId) (fleet_dead_letters m fleet).

Definition fleet_violations (d : AgentDb) (fleet : string) : list ViolationRow :=
  select (fun v => rv_fleet v ==? fleet) (ad_violations d).

Definition getAgentRateLimitHistory (d : AgentDb) (fleet agentId : string) : list ViolationRow :=
  take 50 (sort_rows (flipped true (by_time rv_created_at))
    (List.filter (fun v => rv_agent v ==? agentId) (fleet_violations d fleet))).

Definition fleet_controls (d : AgentDb) (fleet : string) : list ControlRow :=
  select (fun c => c_fleet c ==? fleet) (ad_controls d).
Definition fleet_messages (m : MailDb) (fleet : string) : list MessageRow :=
  select (fun x => ms_fleet x ==? fleet) (md_messages m).

Record AgentDetail := MkAgentDetail {
  de_agent : AgentRow; de_events : list EventRow; de_controls : list ControlRow; de_messages : list MessageRow
}.

Definition getAgentDetail (d : AgentDb) (m : MailDb) (events : list EventRow) (fleet agentId : string) : option AgentDetail :=
  (fun a => MkAgentDetail a
     (take 20 (sort_rows (flipped true (by_time ex_at))
        (List.filter (fun x =>
           let e := ex_event x in
           ((ev_resource_kind e ==? "agent") && (ev_resource e ==? Some agentId)) || (ev_actor e ==? Some agentId))
         (fleet_events events fleet))))
     (take 10 (sort_rows (flipped true (by_time c_created_at))
        (List.filter (fun c => c_target c ==? agentId) (fleet_controls d fleet))))
     (take 20 (sort_rows (flipped true (by_time ms_created_at))
        (List.filter (fun x => (ms_sender x ==? agentId) || (ms_recipient_id x ==? Some agentId)) (fleet_messages m fleet)))))
  <$> fleet_lookup ag_fleet fleet (ad_agents d) agentId.

(** ** Conversations *)

(** A message row's columns, and the attachments its body names. *)
Record ConversationItem := MkConversationItem {
  ci_row : EventRow;
  ci_message : option MessageRow;
  ci_attachments : list AttachmentView
}.

(** The cursor: both texts, trimmed, neither empty. *)
Definition cursor_of (o : ViewOptions) : option (string * string) :=
  match given (vo_beforeAt o), given (vo_beforeId o) with Some a, Some i => Some (a, i) | _, _ => None end.

Definition text_lt (a b : string) : bool := negb (string_leb b a).

(** [(created_at < ? OR (created_at = ? AND id < ?))] *)
Definition before_cursor (c : option (string * string)) (at_ : Z) (i : string) : bool :=
  match c with
  | Some (beforeAt, beforeId) => text_lt (to_iso at_) beforeAt || ((to_iso at_ ==? beforeAt) && text_lt i beforeId)
  | None => true
  end.

(** A message between the operator and one agent. *)
Definition one_to_one (fleet agentX : string) (x : MessageRow) : bool :=
  (ms_recipient_kind x ==? "agent") &&
  (((ms_sender x ==? operator_agent fleet) && (ms_recipient_id x ==? Some agentX)) ||
   ((ms_sender x ==? agentX) && (ms_recipient_id x ==? Some (operator_agent fleet)))).

(** A canonical DM id gathers the 1:1 messages wherever they are threaded. *)
Definition in_conversation (m : MailDb) (fleet conversationId : string) (e : Event) : bool :=
  match strip_prefix (chars (canonicalDmId fleet "")) (chars conversationId) with
  | Some agentX =>
      match ev_resource e with
      | Some r => exists_row (fun x => (ms_id x ==? r) && one_to_one fleet (text agentX) x) (fleet_messages m fleet)
      | None => false
      end || (ev_conversation e ==? Some conversationId)
  | None => ev_conversation e ==? Some conversationId
  end.

Definition conversation_events (m : MailDb) (events : list EventRow) (fleet conversationId : string) (o : ViewOptions)
    : list EventRow :=
  List.filter (fun x =>
    let e := ex_event x in
    in_conversation m fleet conversationId e &&
    of_type (vo_kind o) (ev_type e) &&
    within_dates (normalizeDateStart (vo_dateFrom o)) (normalizeDateEnd (vo_dateTo o)) (ev_at e) &&
    before_cursor (cursor_of o) (ev_at e) (ex_id x) &&
    found (buildLikeSearch (vo_search o))
      [ev_type e; column (ev_actor e); ev_resource_kind e; column (ev_resource e); json_stringify (ev_payload e)])
  (fleet_events events fleet).

(** [messages WHERE id IN (...)]: by id alone. *)
Definition event_message (m : MailDb) (e : Event) : option MessageRow :=
  if ev_resource_kind e ==? "message" then
    match truthy (ev_resource e) with
    | Some r => select_one (fun x => ms_id x ==? r) (md_messages m)
    | None => None
    end
  else None.

Definition with_message (m : MailDb) (fleet : string) (x : EventRow) : ConversationItem :=
  let msg := event_message m (ex_event x) in
  MkConversationItem x msg
    match msg with
    | Some row =>
        omap (fun i => (fun a => MkAttachmentView i (at_filename a) (at_mime a) (at_size_bytes a) (at_created_at a))
                         <$> getAttachment (md_attachments m) fleet i)
          (string_list (ms_body row) "attachments")
    | None => []
    end.

Definition conversation_order (col : EventRow -> EventRow -> bool) (desc : bool) : EventRow -> EventRow -> bool :=
  then_by (flipped desc col) (flipped desc (by_text ex_id)).

(** A feed's items, drawn as messages. *)
Record FeedConversationItem := MkFeedConversationItem { fi_message : MessageRow; fi_payload : list (string * json) }.

Definition feed_item (x : MessageRow) : FeedConversationItem :=
  let get k := prop (ms_body x) k in
  let feedName := match get "feed" with Some (JStr f) => default "Feed" (truthy (Some f)) | _ => "Feed" end in
  let shown := match get "text" with Some JNull => JStr "" | Some v => v | None => JStr "" end in
  MkFeedConversationItem x
    ([("text", shown); ("feed", JStr feedName)] ++ match get "link" with Some l => [("link", l)] | None => [] end ++
     [("message_type", JStr "feed"); ("sender_label", JStr feedName)])%list.

Definition feed_messages (m : MailDb) (fleet conversationId : string) (o : ViewOptions) : list MessageRow :=
  List.filter (fun x =>
    (ms_conversation x ==? conversationId) &&
    before_cursor (cursor_of o) (ms_created_at x) (ms_id x) &&
    found (buildLikeSearch (vo_search o)) [json_stringify (ms_body x)]) (fleet_messages m fleet).

Definition getFeedConversation (m : MailDb) (fleet conversationId : string) (o : ViewOptions)
    : list FeedConversationItem * nat :=
  let rows := feed_messages m fleet conversationId o in
  (map feed_item (List.rev (page_of o
     (sort_rows (then_by (flipped true (by_time ms_created_at)) (flipped true (by_text ms_id))) rows))),
   length rows).

Inductive ConversationView :=
  | FeedView (items : list FeedConversationItem) (total : nat)
  | EventView (items : list ConversationItem) (total : nat).

Definition getConversation (m : MailDb) (events : list EventRow) (fleet conversationId : string) (o : ViewOptions)
    : result ViewError ConversationView :=
  if starts_with "feed-" conversationId then
    let '(items, total) := getFeedConversation m fleet conversationId o in Ok (FeedView items total)
  else
    let? col := sort_column (by_time ex_at) event_columns (vo_sortBy o) in
    let '(rows, total) := list_view o (conversation_order col (vo_sortOrder o ==? Some "desc"))
                            (conversation_events m events fleet conversationId o) in
    Ok (EventView (map (with_message m fleet) rows) total).

(** ** The overview *)

Definition overview_limit : nat := 25.

(** An agent of the fleet, the operator's own row aside. *)
Definition fleet_agent_named (d : AgentDb) (fleet i : string) : option AgentRow :=
  match fleet_lookup ag_fleet fleet (ad_agents d) i with
  | Some a => if ag_runtime a ==? "operator" then None else Some a
  | None => None
  end.

(** The agents that take part in a conversation, the operator aside, in the order
    the scan meets them. *)
Definition conversation_agents (d : AgentDb) (m : MailDb) (fleet conversationId : string) : list string :=
  let known i := negb (i ==? "") && negb (i ==? operator_agent fleet) && negb (bool_decide (fleet_agent_named d fleet i = None)) in
  js_set (flat_map (fun x =>
    List.filter known ([ms_sender x] ++ (if ms_recipient_kind x ==? "agent" then [default "" (ms_recipient_id x)] else [])))
    (List.filter (fun x => ms_conversation x ==? conversationId) (fleet_messages m fleet)))%list.

Inductive ConversationKind := KRoom | KDm | KGroup | KDirect.

Record ConversationRow := MkConversationRow {
  cv_last : MessageRow;
  cv_preview : string;
  cv_title : string;
  cv_kind : ConversationKind;
  cv_participants : list string;
  cv_channel_key : string
}.

(** ROW_NUMBER() OVER (PARTITION BY conversation ORDER BY created_at DESC, rowid DESC) = 1 *)
Definition latest_messages (m : MailDb) (fleet : string) : list MessageRow :=
  let rows := List.filter (fun x => negb (like None (chars "feed-%") (chars (ms_conversation x)))) (fleet_messages m fleet) in
  take overview_limit (sort_rows (flipped true (by_time ms_created_at))
    (omap (fun c => latest_by ms_created_at (List.filter (fun x => ms_conversation x ==? c) rows))
       (js_set (map ms_conversation rows)))).

Definition title_of (d : AgentDb) (fleet i : string) : option string :=
  truthy (ag_display_name <$> fleet_agent_named d fleet i).

Definition conversation_row (d : AgentDb) (m : MailDb) (fleet : string) (x : MessageRow) : ConversationRow :=
  let cid := ms_conversation x in
  let title_of := title_of d fleet in
  let participants := take 6 (conversation_agents d m fleet cid) in
  let preview := match prop (ms_body x) "text" with
                 | Some (JStr t) => text (take 100 (chars t)) | _ => "" end in
  let names := map (fun p => default p (title_of p)) participants in
  let other := if ms_sender x ==? operator_agent fleet then default "" (ms_recipient_id x) else ms_sender x in
  let '(kind, title) :=
    match fleet_room m fleet cid, participants with
    | Some r, _ => (KRoom, "# " +:+ rm_name r)
    | None, [p] => (KDm, default "Direct message" (title_of p))
    | None, _ :: _ =>
        (KGroup, String.concat " + " (take 2 names) +:+
                 (if (2 <? length names)%nat then " +" +:+ stringify_num (Z.of_nat (length names - 2)) else ""))
    | None, [] =>
        (KDirect, match title_of other with
                  | Some t => t
                  | None => default "Direct message" (title_of (default "" (ms_recipient_id x)))
                  end)
    end in
  let channel_key :=
    match kind with
    | KRoom => cid
    | KDm => canonicalDmId fleet (default "" (head participants))
    | KGroup => "grp-" +:+ fleet +:+ "-" +:+ String.concat "." (sort_strings participants)
    | KDirect => cid
    end in
  MkConversationRow x preview title kind participants channel_key.

(** message_deliveries JOIN messages *)
Definition fleet_deliveries (m : MailDb) (fleet : string) : list DeliveryRow :=
  select (fun dl => exists_row (fun x => ms_id x ==? dl_message dl) (fleet_messages m fleet)) (md_deliveries m).

Record FleetOverview := MkOverview {
  ov_agents : list AgentItem;
  ov_pendingApprovals : nat;
  ov_queuedMessages : nat;
  ov_deadLetterCount : nat;
  ov_quarantinedAgentCount : nat;
  ov_rateLimitViolationsLast24h : nat;
  ov_recentEvents : list EventRow;
  ov_recentConversations : list ConversationRow
}.

Definition getFleetOverview (d : AgentDb) (m : MailDb) (events : list EventRow) (now : Z) (fleet : string) : FleetOverview :=
  let agents := fleet_rows ag_fleet fleet (ad_agents d) in
  MkOverview
    (map fleet_agent_item (take 10 (sort_rows (flipped true (by_time (fun x => ag_created_at (snd x))))
       (List.filter (fun x => negb (ag_runtime (snd x) ==? "operator")) agents))))
    (changes (fun x => ap_status (snd x) ==? "pending") (fleet_rows ap_fleet fleet (ad_approvals d)))
    (changes (fun dl => bool_decide (dl_status dl = DQueued)) (fleet_deliveries m fleet))
    (length (fleet_dead_letters m fleet))
    (changes (fun x => bool_decide (ag_status (snd x) = Quarantined)) agents)
    (changes (fun v => now - 86400 * 1000 <? rv_created_at v) (fleet_violations d fleet))
    (take 20 (sort_rows (flipped true (by_time ex_at)) (fleet_events events fleet)))
    (map (conversation_row d m fleet) (latest_messages m fleet)).

(** ** The queries *)

Record ViewTables := MkViewTables { vt_agents : AgentDb; vt_mail : MailDb; vt_events : list EventRow }.

Inductive ViewQuery :=
  | QOverview
  | QActivity (limit : nat) (type : option string)
  | QAgents (o : ViewOptions)
  | QApprovals (o : ViewOptions)
  | QEvents (o : ViewOptions)
  | QConversation (conversationId : string) (o : ViewOptions)
  | QAgent (agentId : string)
  | QRooms
  | QDeadLetters (o : ViewOptions)
  | QDeadLetter (id : string)
  | QRateLimits (agentId : string).

Inductive ViewAnswer :=
  | AOverview (x : FleetOverview)
  | AActivity (l : list ActivityItem)
  | AAgents (x : result ViewError (list AgentItem * nat))
  | AApprovals (x : result ViewError (list ApprovalItem * nat))
  | AEvents (x : result ViewError (list EventRow * nat))
  | AConversation (x : result ViewError ConversationView)
  | AAgent (x : option AgentDetail)
  | ARooms (l : list (string * RoomRow * list (string * string * AgentStatus)))
  | ADeadLetters (x : list DeadLetterRow * nat)
  | ADeadLetter (x : option DeadLetterRow)
  | ARateLimits (l : list ViolationRow).

Definition view (w : ViewTables) (now : Z) (fleet : string) (q : ViewQuery) : ViewAnswer :=
  let '(MkViewTables d m events) := w in
  match q with
  | QOverview => AOverview (getFleetOverview d m events now fleet)
  | QActivity limit type => AActivity (getActivity d events fleet limit type)
  | QAgents o => AAgents (listAgents d fleet o)
  | QApprovals o => AApprovals (listPendingApprovals d fleet o)
  | QEvents o => AEvents (listEvents events fleet o)
  | QConversation c o => AConversation (getConversation m events fleet c o)
  | QAgent a => AAgent (getAgentDetail d m events fleet a)
  | QRooms => ARooms (listRooms d m fleet)
  | QDeadLetters o => ADeadLetters (listDeadLetters m fleet o)
  | QDeadLetter i => ADeadLetter (getDeadLetterDetail m fleet i)
  | QRateLimits a => ARateLimits (getAgentRateLimitHistory d fleet a)
  end.
