(* ===== verification/OperatorViewsProperties.v ===== *)
(** * What the operator's views show

    Search matches text literally; paging loses and repeats nothing; and over every
    database and audit log the relay can reach, the answer to each query of
    [OperatorViews] is computed from the rows of one fleet. *)

From S2P Require Import Prelude Json IsoTime JsValues Events Config OperatorKeys Agents Enrollment Messages Rooms Delivery AgentSafety DeliverySafety RelaySafety FleetHealth Text SdkClient Attachments RelayProperties OperatorViews.
Import Ascii String.
Open Scope string_scope.
Open Scope Z_scope.

(** ** Search *)

Lemma lower_js_lower c : lower (js_lower c) = js_lower c.
Proof. destruct c as [[] [] [] [] [] [] [] []]; reflexivity. Qed.

Lemma lower_idem c : lower (lower c) = lower c.
Proof. destruct c as [[] [] [] [] [] [] [] []]; reflexivity. Qed.

Lemma chars_lower_string s : chars (lower_string s) = map lower (chars s).
Proof. induction s as [|c s IH]; [done|]. simpl. by rewrite IH. Qed.

Lemma like_nil esc s : like esc [] s = true <-> s = [].
Proof. destruct s; split; done. Qed.

Lemma elem_of_tails {A} (l t : list A) : t ∈ tails l <-> exists a, l = (a ++ t)%list.
Proof.
  induction l as [|x l IH]; simpl.
  - rewrite list_elem_of_singleton. split; [intros ->; by exists []|].
    intros [a Ha]. by destruct a, t.
  - rewrite elem_of_cons, IH. split.
    + intros [->|[a ->]]; [by exists []|by exists (x :: a)].
    + intros [[|y a] Ha]; simpl in Ha; [by left|]. injection Ha as -> ->. right. by exists a.
Qed.

(** An escaped text matches itself, up to the case of ASCII letters, and what
    follows matches the rest. *)
Lemma like_escaped q p s :
  like (Some backslash) (escapeLike q ++ p) s = true <->
  exists b c, s = (b ++ c)%list /\ map lower b = map lower q /\ like (Some backslash) p c = true.
Proof.
  revert s. induction q as [|x q IH]; intros s.
  - simpl. split; [intros H; by exists [], s|]. by intros ([|] & c & -> & Hb & H).
  - assert (Hstep : like (Some backslash) (escapeLike (x :: q) ++ p)%list s =
              match s with y :: s' => (lower x ==? lower y) && like (Some backslash) (escapeLike q ++ p)%list s' | [] => false end).
    { unfold escapeLike. cbn [flat_map]. fold (escapeLike q). destruct (wildcard x) eqn:Hx; [by destruct s|].
      unfold wildcard in Hx. bools. rewrite <- app_assoc. cbn [Datatypes.app like].
      rewrite (bool_decide_false (Some x = Some backslash)) by congruence.
      rewrite (bool_decide_false (x = "%"%char)), (bool_decide_false (x = "_"%char)) by done. by destruct s. }
    rewrite Hstep. destruct s as [|y s].
    + split; [done|]. by intros ([|] & c & Heq & Hb & _).
    + rewrite andb_true_iff, bool_decide_eq_true, IH. split.
      * intros (Hxy & b & c & -> & Hb & Hp). exists (y :: b), c. simpl. by rewrite Hb, Hxy.
      * intros ([|z b] & c & Heq & Hb & Hp); [done|]. injection Heq as -> ->. injection Hb as Hz Hb.
        split; [done|]. by exists b, c.
Qed.

(** Search is literal: whatever an operator types, wildcards and backslashes
    included, a column matches exactly when its lower-case text contains the
    trimmed, lower-cased search text. *)
Theorem search_is_literal value v pattern col :
  given value = Some v -> buildLikeSearch value = Some pattern ->
  matches pattern col = true <->
  exists a b, chars (lower_string col) = (a ++ map js_lower (chars v) ++ b)%list.
Proof.
  unfold buildLikeSearch. intros Hv. rewrite Hv. intros [= <-]. unfold matches. cbn [Datatypes.app like].
  rewrite (bool_decide_false (Some "%"%char = Some backslash)), (bool_decide_true ("%"%char = "%"%char)) by done.
  rewrite existsb_exists. setoid_rewrite <- list_elem_of_In. rewrite chars_lower_string.
  setoid_rewrite elem_of_tails. setoid_rewrite like_escaped.
  assert (Hall : forall c, like (Some backslash) ["%"%char] c = true).
  { intros c. cbn [like]. apply existsb_exists. exists []. rewrite <- list_elem_of_In. split; [|done].
    apply elem_of_tails. exists c. by rewrite app_nil_r. }
  split.
  - intros (t & [a Ha] & b & c & -> & Hb & _). exists a, c. rewrite Ha. do 2 f_equal.
    assert (Hlow : map lower b = b).
    { assert (Hm : map lower (map lower (chars col)) = map lower (chars col)).
      { rewrite map_map. apply map_ext. apply lower_idem. }
      rewrite Ha, !map_app in Hm. apply app_inj_1 in Hm as [_ Hm]; [|by rewrite length_map].
      by apply app_inj_1 in Hm as [? _]; [|by rewrite length_map]. }
    rewrite <- Hlow, Hb, map_map. apply map_ext. apply lower_js_lower.
  - intros (a & b & Hab). exists (map js_lower (chars v) ++ b)%list. split; [by exists a|].
    exists (map js_lower (chars v)), b. split_and!; [done|done|apply Hall].
Qed.

Lemma search_is_literal_witness :
  matches (default [] (buildLikeSearch (Some " 50%_ "))) "up 50%_ off" = true /\
  exists a b, chars (lower_string "up 50%_ off") = (a ++ map js_lower (chars "50%_") ++ b)%list.
Proof.
  split; [reflexivity|].
  apply (search_is_literal (Some " 50%_ ") "50%_" (default [] (buildLikeSearch (Some " 50%_ ")))); reflexivity.
Defined.

(** Wildcards of the search text are no wildcards. *)
Example percent_is_literal : matches (default [] (buildLikeSearch (Some "5%"))) "50 percent" = false.
Proof. reflexivity. Qed.

(** ** Pages *)

Definition with_offset (n : nat) (o : ViewOptions) : ViewOptions :=
  MkViewOptions (vo_search o) (vo_kind o) (vo_dateFrom o) (vo_dateTo o) (vo_sortBy o) (vo_sortOrder o) (vo_beforeAt o)
    (vo_beforeId o) (vo_limit o) n.

Lemma insert_row_perm {R} (leb : R -> R -> bool) x l : insert_row leb x l ≡ₚ x :: l.
Proof. induction l as [|y l IH]; simpl; [done|]. destruct (leb x y); [done|]. rewrite IH. apply perm_swap. Qed.

Lemma sort_rows_perm {R} (leb : R -> R -> bool) l : sort_rows leb l ≡ₚ l.
Proof. induction l as [|x l IH]; simpl; [done|]. by rewrite insert_row_perm, IH. Qed.

Lemma pages_take {R} (l : list R) n k :
  concat (map (fun p => take n (drop (p * n) l)) (seq 0 k)) = take (k * n) l.
Proof.
  induction k as [|k IH]; [done|]. rewrite seq_S, map_app, concat_app, IH. simpl. rewrite app_nil_r, Nat.add_comm.
  by rewrite take_take_drop.
Qed.

(** Leafing through a list shows every row once: the pages of a list that does
    not change, one after the other, are its rows in the order asked for, the total
    is their number, and [ceil(total / limit)] pages show them all. *)
Theorem pages_show_every_row_once {R} (o : ViewOptions) (order : R -> R -> bool) (rows : list R) k :
  (length rows <= k * vo_limit o)%nat ->
  concat (map (fun p => fst (list_view (with_offset (p * vo_limit o) o) order rows)) (seq 0 k)) = sort_rows order rows /\
  sort_rows order rows ≡ₚ rows /\ snd (list_view o order rows) = length rows.
Proof.
  intros Hk. split_and!; [|apply sort_rows_perm|done]. unfold list_view, page_of. cbn [fst vo_limit vo_offset with_offset].
  rewrite pages_take. apply take_ge. by rewrite sort_rows_perm.
Qed.

Definition two_per_page : ViewOptions := MkViewOptions None None None None None None None None 2 0.

Lemma pages_show_every_row_once_witness :
  concat (map (fun p => fst (list_view (with_offset (p * 2) two_per_page) (fun x y : Z => x <=? y) [3; 1; 2])) (seq 0 2)) =
  [1; 2; 3] /\ snd (list_view two_per_page Z.leb [3; 1; 2]) = 3%nat.
Proof.
  destruct (pages_show_every_row_once two_per_page Z.leb [3; 1; 2] 2 ltac:(vm_compute; lia)) as (H1 & _ & H3).
  split; [exact H1|exact H3].
Defined.

(** ** One fleet's rows *)

Definition fleet_members (m : MailDb) (fleet : string) : list (string * string) :=
  select (fun p => negb (fleet_lookup rm_fleet fleet (md_rooms m) (fst p) ==? None)) (md_members m).

(** The heartbeats of the fleet's agents. *)
Definition fleet_heartbeats (d : AgentDb) (fleet : string) : list HeartbeatRow :=
  select (fun h => negb (fleet_lookup ag_fleet fleet (ad_agents d) (h_agent h) ==? None)) (ad_heartbeats d).

(** The tables with nothing but the rows of one fleet. *)
Definition restrict (fleet : string) (w : ViewTables) : ViewTables :=
  let '(MkViewTables d m events) := w in
  MkViewTables
    (MkAgentDb (filter (fun kv => ag_fleet (snd kv) = fleet) (ad_agents d)) (fleet_controls d fleet)
       (fleet_heartbeats d fleet) (filter (fun kv => ap_fleet (snd kv) = fleet) (ad_approvals d)) ∅ (fleet_violations d fleet)
       (filter (fun kv => op_fleet (snd kv) = fleet) (ad_operators d)))
    (MkMailDb (fleet_messages m fleet) (fleet_deliveries m fleet) (fleet_dead_letters m fleet)
       (filter (fun kv => rm_fleet (snd kv) = fleet) (md_rooms m)) (fleet_members m fleet)
       (filter (fun kv => at_fleet (snd kv) = fleet) (md_attachments m)) ∅)
    (fleet_events events fleet).

Lemma select_idem {R} (p : R -> bool) l : select p (select p l) = select p l.
Proof.
  unfold select. rewrite filter_filter. apply filter_ext'. intros x. by destruct (p x).
Qed.

Lemma omap_ext_in {A B} (f g : A -> option B) (l : list A) : (forall x, x ∈ l -> f x = g x) -> omap f l = omap g l.
Proof.
  induction l as [|x l IH]; intros Hfg; [done|]. 
  assert (Htl : omap f l = omap g l) by (apply IH; intros y Hy; apply Hfg; by right).
  change (match f x with Some y => y :: omap f l | None => omap f l end = match g x with Some y => y :: omap g l | None => omap g l end).
  by rewrite Htl, Hfg by by left.
Qed.

Lemma select_sub {R} (p q : R -> bool) l : (forall x, p x = true -> q x = true) -> select p (select q l) = select p l.
Proof.
  intros Hpq. unfold select. rewrite filter_filter. apply filter_ext'. intros x. specialize (Hpq x).
  destruct (p x), (q x); try done. by discriminate Hpq.
Qed.

Lemma fleet_lookup_filter {V} (f : V -> string) fleet t i :
  fleet_lookup f fleet t i = filter (fun kv => f (snd kv) = fleet) t !! i.
Proof.
  unfold fleet_lookup. rewrite map_lookup_filter. destruct (t !! i) as [a|]; [|done]. simpl.
  destruct (decide (f a = fleet)); simplify_option_eq; by rewrite ?bool_decide_true, ?bool_decide_false.
Qed.

Lemma fleet_lookup_restrict {V} (f : V -> string) fleet t i :
  fleet_lookup f fleet (filter (fun kv => f (snd kv) = fleet) t) i = fleet_lookup f fleet t i.
Proof. rewrite !fleet_lookup_filter, map_filter_filter. f_equal. apply map_filter_ext. naive_solver. Qed.

Lemma fleet_rows_restrict `{Countable K} {V} (f : V -> string) fleet (t : gmap K V) :
  fleet_rows f fleet (filter (fun kv => f (snd kv) = fleet) t) = fleet_rows f fleet t.
Proof. unfold fleet_rows. rewrite map_filter_filter. f_equal. apply map_filter_ext. naive_solver. Qed.

Lemma fleet_room_lookup m fleet i : fleet_room m fleet i = fleet_lookup rm_fleet fleet (md_rooms m) i.
Proof. done. Qed.

Lemma getAttachment_lookup t fleet i : getAttachment t fleet i = fleet_lookup at_fleet fleet t i.
Proof. done. Qed.

(** ** The audit log *)

(** A row about one of these messages, in its fleet. *)
Definition about (cs : list MessageRow) (e : Event) : Prop :=
  exists x, x ∈ cs /\ ev_resource e = Some (ms_id x) /\ ms_fleet x = ev_fleet e.

(** Every row about a message is about a message of its own fleet. *)
Definition log_ok (m : MailDb) (log : list Event) : Prop :=
  forall e, e ∈ log -> ev_resource_kind e = "message" -> about (contents m) e.

Definition approvals_ok (d : AgentDb) : Prop :=
  forall i a, ad_approvals d !! i = Some a -> same_fleet d (ap_fleet a) (ap_agent a).

Section Log.
Context `{NodeCrypto} (cfg : Config).

(** The steps that write rows about messages, with the rows they write; any other
    step writes rows about something else. *)
Inductive logged_step (now : Z) : AgentDb * MailDb * list Event -> AgentDb * MailDb * list Event -> Prop :=
  | lg_other d m d' m' log es :
      relay_step cfg now (d, m) (d', m') -> Forall (fun e => ev_resource_kind e <> "message") es ->
      logged_step now (d, m, log) (d', m', (log ++ es)%list)
  | lg_send d m log e a h mid dly i m' es :
      authenticateAgent e d (mi_sender i) = Some (a, h) -> ag_fleet a = mi_fleet i ->
      createMessage cfg d m now mid dly i = Ok (m', es) -> mid ∉ map ms_id (md_messages m) ->
      logged_step now (d, m, log) (d, m', (log ++ es)%list)
  | lg_operator_send d m log keys mid cor conv dly i d' m' c es :
      createOperatorMessage cfg keys d m now mid cor conv dly i = (d', Ok (m', c, es)) ->
      mid ∉ map ms_id (md_messages m) -> logged_step now (d, m, log) (d', m', (log ++ es)%list)
  | lg_resume d m log nudge keys mid cor conv dly f o c t d' m' c' es :
      resumeConversation cfg nudge keys d m now mid cor conv dly f o c t = (d', Ok (Some (m', c', es))) ->
      mid ∉ map ms_id (md_messages m) -> logged_step now (d, m, log) (d', m', (log ++ es)%list)
  | lg_poll d m log a limit m' rows es :
      poll m now a limit = (m', rows, es) -> logged_step now (d, m, log) (d, m', (log ++ es)%list)
  | lg_ack d m log a acks m' n es :
      ackMessages m now a acks = (m', n, es) -> logged_step now (d, m, log) (d, m', (log ++ es)%list)
  | lg_retry d m log fresh m' n es :
      sweepRetryDeliveries cfg m now fresh = (m', n, es) -> logged_step now (d, m, log) (d, m', (log ++ es)%list)
  | lg_expire d m log m' n es :
      sweepExpiredMessages m now = (m', n, es) -> logged_step now (d, m, log) (d, m', (log ++ es)%list).

Inductive logged_run (s : AgentDb * MailDb * list Event) : AgentDb * MailDb * list Event -> Prop :=
  | lrun_refl : logged_run s s
  | lrun_step now s1 s2 : logged_run s s1 -> logged_step now s1 s2 -> logged_run s s2.

Lemma logged_relay now s s' : logged_step now s s' -> relay_step cfg now (fst s) (fst s').
Proof.
  assert (Hq : forall B C (x : MailDb * B * C) m' b c, x = (m', b, c) -> m' = fst (fst x)) by (by intros ?????? ->).
  intros []; cbn [fst]; [done|by eapply rs_send|by eapply rs_operator_send|by eapply rs_resume|..];
    match goal with H : _ = (_, _, _) |- _ => apply Hq in H as -> end; by constructor.
Qed.

Lemma about_row m x e :
  x ∈ md_messages m -> ev_resource e = Some (ms_id x) -> ev_fleet e = ms_fleet x -> about (contents m) e.
Proof. intros Hx Hr Hf. exists (set_message_status MQueued x). split; [by apply elem_of_contents|]. by split. Qed.

Lemma about_app cs new e : about cs e -> about (cs ++ new)%list e.
Proof. intros (x & Hx & ?). exists x. split; [apply elem_of_app; by left|done]. Qed.

Lemma queued_about msg dly l att m e :
  ev_resource e = Some (ms_id msg) -> ev_fleet e = ms_fleet msg -> about (contents (queue_message msg dly l att m)) e.
Proof. intros. apply (about_row _ msg); [|done..]. cbn. apply elem_of_app. right. by left. Qed.

Lemma createMessage_about d m now mid dly i m' es e :
  createMessage cfg d m now mid dly i = Ok (m', es) -> e ∈ es -> about (contents m') e.
Proof.
  intros Hr He. pose proof Hr as (l & _ & _ & _ & ->)%createMessage_Ok. unfold createMessage in Hr.
  repeat (destruct (_ : bool) in Hr; [discriminate Hr|]). destruct (route _ _ _ _); [|done].
  destruct (negb _) in Hr; [done|]. injection Hr as _ <-. apply list_elem_of_singleton in He as ->. by apply queued_about.
Qed.

Lemma createOperatorMessage_about keys d m now mid cor conv dly i d' m' c es e :
  createOperatorMessage cfg keys d m now mid cor conv dly i = (d', Ok (m', c, es)) -> e ∈ es -> about (contents m') e.
Proof.
  intros Hr He. pose proof Hr as (_ & _ & msg & l & k & r & ty & Hm & _ & _ & _ & Hi & Hf & _)%createOperatorMessage_Ok.
  unfold createOperatorMessage in Hr. destruct (check_signer keys i); [done|].
  destruct (ensureOperatorAgent _ _ _) as [d1 sender]. destruct (operator_target _ _ _) as [[[[]]]|]; [|done].
  repeat (destruct (_ : bool) in Hr; [discriminate Hr|]). destruct (operator_route _ _ _ _ _ _ _); [|done].
  destruct (negb _) in Hr; [done|]. injection Hr as _ _ _ <-. apply list_elem_of_singleton in He as ->.
  rewrite Hm. apply queued_about; [by rewrite Hi|by rewrite Hf].
Qed.

Lemma resumeConversation_about nudge keys d m now mid cor conv dly f o c t d' m' c' es e :
  resumeConversation cfg nudge keys d m now mid cor conv dly f o c t = (d', Ok (Some (m', c', es))) ->
  e ∈ es -> ev_resource_kind e = "message" -> about (contents m') e.
Proof.
  unfold resumeConversation. intros Hr He Hk. destruct (fleet_room m f c) as [room|].
  - destruct (createOperatorMessage _ _ _ _ _ _ _ _ _ _) as [d1 [[[m1 c1] es1]|]] eqn:Hs; [|done].
    injection Hr as _ <- _ <-. apply elem_of_app in He as [He| ->%list_elem_of_singleton]; [|done].
    by eapply createOperatorMessage_about.
  - destruct (live_participants d m f c ==? []); [done|]. destruct (ensureOperatorAgent d now f) as [d1 sender].
    injection Hr as _ <- _ <-. apply elem_of_cons in He as [->| ->%list_elem_of_singleton]; [by apply queued_about|done].
Qed.

Lemma elem_of_join_messages m p dl x : (dl, x) ∈ join_messages m p -> x ∈ md_messages m.
Proof.
  unfold join_messages. rewrite list_elem_of_omap. intros (y & _ & Hy).
  destruct (message_by_id m (dl_message y)) as [z|] eqn:E; [|done]. destruct (p y z); [|done].
  injection Hy as <- <-. by apply select_one_Some in E as [? _].
Qed.

Lemma poll_about m now a limit m' rows es e :
  poll m now a limit = (m', rows, es) -> e ∈ es -> about (contents m') e.
Proof.
  intros Hp He. pose proof (poll_views m now a limit) as [Hc _ _ _]. rewrite Hp in Hc. cbn in Hc. rewrite Hc.
  injection Hp as _ _ <-. apply list_elem_of_fmap in He as ([dl x] & -> & Hx). apply (about_row m x); [|done..].
  unfold pending_deliveries in Hx. eapply elem_of_join_messages, elem_of_order_by.
  unfold limit_rows in Hx. destruct (_ <? _); [exact Hx|]. rewrite <- (take_drop (Z.to_nat limit)), elem_of_app. left. exact Hx.
Qed.

Lemma ack_about m now a acks m' n es e :
  ackMessages m now a acks = (m', n, es) -> e ∈ es -> about (contents m') e.
Proof.
  assert (Hgen : forall cs acc, contents (fst (fst acc)) = cs -> (forall x, x ∈ snd acc -> about cs x) ->
    forall x, x ∈ snd (foldl (ack_step now a) acc acks) -> about cs x).
  { intros cs. induction acks as [|[i r] acks IH]; intros [[m0 n0] es0] Hc Hes; [done|]. simpl foldl. apply IH.
    - rewrite <- Hc. exact (sv_contents _ _ (ack_views m0 now a [(i, r)])) || idtac.
      simpl. destruct (_ =? 0)%nat; [done|]. unfold ack_tables. cbn [fst].
      destruct (ack_pending _ _); [done|]. apply contents_update.
    - simpl. destruct (_ =? 0)%nat; [done|]. cbn [snd].
      destruct (message_by_id (ack_tables m0 a i r) i) as [x|] eqn:E; [|done]. intros y [Hy|Hy]%elem_of_app; [auto|].
      apply list_elem_of_singleton in Hy as ->. apply select_one_Some in E as [Hx Hi]. bools. subst i.
      assert (Hcs : contents (ack_tables m0 a (ms_id x) r) = cs).
      { rewrite <- Hc. unfold ack_tables. destruct (ack_pending _ _); [done|]. apply contents_update. }
      rewrite <- Hcs. by apply (about_row _ x). }
  intros Ha He. pose proof (ack_views m now a acks) as [Hc _ _ _]. rewrite Ha in Hc. cbn in Hc. rewrite Hc.
  apply (Hgen _ (m, O, [])); [done|by intros x ?%elem_of_nil|]. unfold ackMessages in Ha. by rewrite Ha.
Qed.

Lemma retry_about m now fresh m' n es e :
  sweepRetryDeliveries cfg m now fresh = (m', n, es) -> e ∈ es -> about (contents m') e.
Proof.
  assert (Hgen : forall rows acc, (forall dl x, (dl, x) ∈ rows -> x ∈ md_messages m) ->
    (forall x, x ∈ snd acc -> about (contents m) x) ->
    forall x, x ∈ snd (foldl (retry_step cfg now fresh) acc rows) -> about (contents m) x).
  { induction rows as [|[dl x] rows IH]; intros [[m0 n0] es0] Hr Hes; [done|]. simpl foldl.
    apply IH; [intros ???; eapply Hr; by right|]. assert (Hx : x ∈ md_messages m) by (eapply Hr; by left). simpl.
    destruct n0. destruct (_ <? _).
    - unfold moveToDeadLetter. destruct (_ =? 0)%nat; cbn [snd]; intros y [Hy|Hy]%elem_of_app; auto;
        [by apply elem_of_nil in Hy|]. apply list_elem_of_singleton in Hy as ->. by apply (about_row _ x).
    - cbn [snd]. intros y [Hy|Hy]%elem_of_app; [auto|]. apply list_elem_of_singleton in Hy as ->. by apply (about_row _ x). }
  intros Ha He. pose proof (retry_views cfg m now fresh) as [Hc _ _ _]. rewrite Ha in Hc. cbn in Hc. rewrite Hc.
  unfold sweepRetryDeliveries in Ha. apply (Hgen (timed_out cfg m now) (m, (O, O), [])).
  - intros dl x. apply elem_of_join_messages.
  - by intros x ?%elem_of_nil.
  - by rewrite Ha.
Qed.

Lemma expire_about m now m' n es e : sweepExpiredMessages m now = (m', n, es) -> e ∈ es -> about (contents m') e.
Proof.
  assert (Hgen : forall rows acc, (forall dl x, (dl, x) ∈ rows -> x ∈ md_messages m) ->
    (forall x, x ∈ snd acc -> about (contents m) x) ->
    forall x, x ∈ snd (foldl (expiry_step now) acc rows) -> about (contents m) x).
  { induction rows as [|[dl x] rows IH]; intros [m0 es0] Hr Hes; [done|]. simpl foldl.
    apply IH; [intros ???; eapply Hr; by right|]. assert (Hx : x ∈ md_messages m) by (eapply Hr; by left). cbn [snd].
    intros y [Hy|Hy]%elem_of_app; [auto|]. apply list_elem_of_singleton in Hy as ->. by apply (about_row _ x). }
  intros Ha He. pose proof (expire_views m now) as [Hc _ _ _]. rewrite Ha in Hc. cbn in Hc. rewrite Hc.
  unfold sweepExpiredMessages in Ha. pose proof (Hgen (expired_rows m now) (m, [])) as Hg.
  destruct (foldl _ _ _) as [m1 es1]. injection Ha as _ _ <-. apply Hg; [|by intros x ?%elem_of_nil|done].
  intros dl x. apply elem_of_join_messages.
Qed.

Lemma logged_step_log_ok now s s' : logged_step now s s' -> log_ok (snd (fst s)) (snd s) -> log_ok (snd (fst s')) (snd s').
Proof.
  intros Hstep Hok. destruct (relay_step_contents cfg now _ _ (logged_relay now s s' Hstep)) as [new Hnew].
  assert (Hold : forall e, e ∈ snd s -> ev_resource_kind e = "message" -> about (contents (snd (fst s'))) e).
  { intros e He Hk. rewrite Hnew. by apply about_app, Hok. }
  destruct Hstep as [d m d' m' log es _ Hf|d m log e a h mid dly i m' es _ _ Hc _|d m log keys mid cor conv dly i d' m' c es Hc _
    |d m log nudge keys mid cor conv dly f o c t d' m' c' es Hc _|d m log a limit m' rows es Hc|d m log a acks m' n es Hc
    |d m log fresh m' n es Hc|d m log m' n es Hc]; cbn [fst snd] in *; intros ev [He|He]%elem_of_app Hk; auto.
  - rewrite Forall_forall in Hf. by destruct (Hf ev He).
  - by eapply createMessage_about.
  - by eapply createOperatorMessage_about.
  - by eapply resumeConversation_about.
  - by eapply poll_about.
  - by eapply ack_about.
  - by eapply retry_about.
  - by eapply expire_about.
Qed.

(** ** Approvals *)

Lemma approvals_ok_step d d' :
  agents_grow d d' -> (forall i a, ad_approvals d' !! i = Some a ->
    (exists b, ad_approvals d !! i = Some b /\ ap_fleet b = ap_fleet a /\ ap_agent b = ap_agent a) \/
    same_fleet d' (ap_fleet a) (ap_agent a)) -> approvals_ok d -> approvals_ok d'.
Proof.
  intros Hg Hnew Hok i a Ha. destruct (Hnew i a Ha) as [(b & Hb & <- & <-)|]; [|done].
  eapply same_fleet_grow; [done|]. by eapply Hok.
Qed.

(** Where an approval comes from. *)
Definition approval_origin (d d' : AgentDb) : Prop :=
  forall i a, ad_approvals d' !! i = Some a ->
    (exists b, ad_approvals d !! i = Some b /\ ap_fleet b = ap_fleet a /\ ap_agent b = ap_agent a) \/
    same_fleet d' (ap_fleet a) (ap_agent a).

Lemma approval_origin_same d d' : ad_approvals d' = ad_approvals d -> approval_origin d d'.
Proof. intros He i a Ha. left. exists a. by rewrite <- He. Qed.

Lemma approval_origin_insert d d' i b :
  ad_approvals d' = <[i := b]> (ad_approvals d) ->
  (exists c, ad_approvals d !! i = Some c /\ ap_fleet c = ap_fleet b /\ ap_agent c = ap_agent b) \/
  same_fleet d' (ap_fleet b) (ap_agent b) -> approval_origin d d'.
Proof.
  intros He Hb j a. rewrite He. intros [[-> ->]|[Hne Ha]]%lookup_insert_Some; [done|]. left. by exists a.
Qed.

#[local] Hint Resolve approval_origin_same : core.

Lemma exec_approval_origin d now op : approval_origin d (exec cfg d now op).
Proof.
  destruct op; cbn [exec]; auto.
  - unfold insertHeartbeat. destruct (ad_agents d !! _); [|by auto]. destruct (_ && _); by auto.
  - unfold controlAgent. destruct (fleet_agent d fleet agentId); by auto.
  - unfold setAgentTrust. destruct (fleet_agent d fleet agentId); by auto.
  - unfold setPeerAutoreply. destruct (fleet_agent d fleet agentId); by auto.
  - destruct (ad_approvals d !! apr_id) eqn:E; [by auto|].
    unfold proposeAction. destruct (ad_agents d !! agentId) as [g|] eqn:Hg; [|by auto].
    destruct (_ || _); [by auto|]. destruct (_ || _); [|by auto].
    eapply approval_origin_insert; [reflexivity|]. right. by exists g.
  - unfold completeActionResult. destruct (own_approval d approvalId fleet agentId) as [b|] eqn:E; [|by auto].
    apply own_approval_Some in E as (E & _ & _). eapply approval_origin_insert; [reflexivity|]. left. by exists b.
  - unfold approveOrReject. destruct (ad_approvals d !! approvalId) as [b|] eqn:E; [|by auto].
    destruct (_ && _); [|by auto]. eapply approval_origin_insert; [reflexivity|]. left. by exists b.
  - unfold checkAndIncrementRateLimit. destruct (_ <=? _); [|by auto]. unfold checkRateLimitQuarantine.
    destruct (_ <=? _); [|by auto]. set (d1 := with_violations _ _).
    pose proof (ensureSystemOperator_rest d1 now fleet) as (Ha & _).
    destruct (ensureSystemOperator d1 now fleet) as [d2 sid]. by auto.
  - unfold checkAndIncrementUploadLimit. destruct (_ <=? _); by auto.
  - destruct (sweep_controls cfg d now ctl_id) as (_ & _ & Hs & _). by auto.
  - unfold ensureOperatorAgent. destruct (ad_agents d !! _); by auto.
  - unfold setOperatorDisplayName. destruct (ad_operators d !! _); [|by auto].
    unfold ensureOperatorAgent. cbn [ad_agents with_operators]. destruct (ad_agents d !! _); by auto.
  - destruct (ad_agents d !! agentId); [by auto|]. unfold createAgentFromEnrollment.
    destruct (negb _); [by auto|]. destruct (select_one _ _); by auto.
Qed.

Lemma createOperatorMessage_approvals keys d m now mid cor conv dly i :
  ad_approvals (fst (createOperatorMessage cfg keys d m now mid cor conv dly i)) = ad_approvals d.
Proof.
  unfold createOperatorMessage. destruct (check_signer keys i); [done|].
  unfold ensureOperatorAgent. by destruct (ad_agents d !! _).
Qed.

Lemma resumeConversation_approvals nudge keys d m now mid cor conv dly f o c t :
  ad_approvals (fst (resumeConversation cfg nudge keys d m now mid cor conv dly f o c t)) = ad_approvals d.
Proof.
  unfold resumeConversation. destruct (fleet_room m f c).
  - pose proof (createOperatorMessage_approvals keys d m now mid cor conv dly (MkOperatorMessageInput f o None (Some c)
      (default nudge (truthy (option_map trim t))) None [] [] None None)) as Ha.
    by destruct (createOperatorMessage _ _ _ _ _ _ _ _ _ _).
  - destruct (_ ==? _); [done|]. unfold ensureOperatorAgent. by destruct (ad_agents d !! _).
Qed.

Lemma relay_step_approvals now s s' : relay_step cfg now s s' -> approval_origin (fst s) (fst s').
Proof.
  intros Hstep. destruct Hstep as [d m op _| |d m keys mid cor conv dly i d' m' c es Hc _
    |d m nudge keys mid cor conv dly f o c t d' m' c' es Hc _| | | | | | | | |]; cbn [fst]; auto.
  - apply exec_approval_origin.
  - apply approval_origin_same. rewrite <- (createOperatorMessage_approvals keys d m now mid cor conv dly i). by rewrite Hc.
  - apply approval_origin_same. rewrite <- (resumeConversation_approvals nudge keys d m now mid cor conv dly f o c t). by rewrite Hc.
Qed.

Record reachable_ok (s : AgentDb * MailDb * list Event) : Prop := {
  ra_relay : relay_ok (fst (fst s)) (snd (fst s));
  ra_log : log_ok (snd (fst s)) (snd s);
  ra_approvals : approvals_ok (fst (fst s))
}.

Lemma logged_step_ok now s s' : logged_step now s s' -> reachable_ok s -> reachable_ok s'.
Proof.
  intros Hstep [H1 H2 H3]. pose proof (logged_relay now s s' Hstep) as Hr.
  destruct (relay_step_ok cfg now (fst s) (fst s') Hr) as [H4 H5]; [by destruct (fst s)|].
  split; [by destruct (fst s')|by eapply logged_step_log_ok|].
  eapply approvals_ok_step; [|by apply (relay_step_approvals now)|done]. by destruct (fst s), (fst s').
Qed.

Lemma logged_run_ok d0 s :
  operators_ok d0 -> ad_approvals d0 = ∅ -> logged_run (d0, empty_mail, []) s -> reachable_ok s.
Proof.
  intros Ho Ha. remember (d0, empty_mail, []) as s0 eqn:E. induction 1 as [|now s1 s2 _ IH Hstep]; subst.
  - split; cbn; [by apply empty_relay_ok|by intros e ?%elem_of_nil|]. intros i a. by rewrite Ha, lookup_empty.
  - eapply logged_step_ok; [done|]. by apply IH.
Qed.
End Log.

(** ** The answers *)

Section Confined.
Context (fleet : string) (d : AgentDb) (m : MailDb) (events : list EventRow).
Hypothesis Hok : reachable_ok (d, m, ex_event <$> events).

Let d' : AgentDb := vt_agents (restrict fleet (MkViewTables d m events)).
Let m' : MailDb := vt_mail (restrict fleet (MkViewTables d m events)).

Lemma restrict_messages : fleet_messages m' fleet = fleet_messages m fleet.
Proof. apply select_idem. Qed.
Lemma restrict_dead : fleet_dead_letters m' fleet = fleet_dead_letters m fleet.
Proof. apply select_idem. Qed.
Lemma restrict_violations : fleet_violations d' fleet = fleet_violations d fleet.
Proof. apply select_idem. Qed.
Lemma restrict_controls : fleet_controls d' fleet = fleet_controls d fleet.
Proof. apply select_idem. Qed.
Lemma restrict_events : fleet_events (fleet_events events fleet) fleet = fleet_events events fleet.
Proof. apply select_idem. Qed.
Lemma restrict_deliveries : fleet_deliveries m' fleet = fleet_deliveries m fleet.
Proof. unfold fleet_deliveries at 1. rewrite restrict_messages. apply select_idem. Qed.

Lemma restrict_agents : fleet_rows ag_fleet fleet (ad_agents d') = fleet_rows ag_fleet fleet (ad_agents d).
Proof. apply fleet_rows_restrict. Qed.
Lemma restrict_approvals : fleet_rows ap_fleet fleet (ad_approvals d') = fleet_rows ap_fleet fleet (ad_approvals d).
Proof. apply fleet_rows_restrict. Qed.
Lemma restrict_agent i : fleet_lookup ag_fleet fleet (ad_agents d') i = fleet_lookup ag_fleet fleet (ad_agents d) i.
Proof. apply fleet_lookup_restrict. Qed.
Lemma restrict_room i : fleet_room m' fleet i = fleet_room m fleet i.
Proof. rewrite !fleet_room_lookup. apply fleet_lookup_restrict. Qed.
Lemma restrict_attachment i : getAttachment (md_attachments m') fleet i = getAttachment (md_attachments m) fleet i.
Proof. rewrite !getAttachment_lookup. apply fleet_lookup_restrict. Qed.

(** The message an event of the fleet is about. *)
Lemma message_of_restrict x : x ∈ fleet_events events fleet -> event_message m' (ex_event x) = event_message m (ex_event x).
Proof.
  intros [Hx Hf]%elem_of_select. bools. unfold event_message. case_bool_decide as Hk; [|done].
  destruct (truthy (ev_resource (ex_event x))) as [r|] eqn:Hr; [|done]. apply truthy_Some in Hr as [Hr _].
  destruct (ra_log _ Hok (ex_event x)) as (y & Hy & Hyr & Hyf); [by apply list_elem_of_fmap_2|done|]. cbn [fst snd] in Hy.
  apply contents_elem in Hy as (z & Hz & ->). cbn in Hyr, Hyf. simplify_eq.
  pose proof (ro_ids _ _ (ra_relay _ Hok)) as Hnd. cbn [fst snd] in Hnd.
  assert (Hin : z ∈ md_messages m') by (apply elem_of_select; split; [done|by apply bool_decide_eq_true]).
  assert (Hnd' : NoDup (map ms_id (contents m'))).
  { unfold contents in *. rewrite map_map in *. eapply sublist_NoDup; [exact Hnd|].
    apply sublist_map, filter_sublist. }
  unfold message_by_id in *. etrans; [apply (message_by_id_unique m' _ z)|symmetry; apply (message_by_id_unique m _ z)]; done.
Qed.

Lemma with_message_restrict x : x ∈ fleet_events events fleet -> with_message m' fleet x = with_message m fleet x.
Proof.
  intros Hx. unfold with_message. rewrite message_of_restrict by done. destruct (event_message m (ex_event x)) as [row|]; [|done].
  f_equal. apply omap_ext_in. intros i _. by rewrite restrict_attachment.
Qed.

Lemma elem_of_page {R} (o : ViewOptions) order (rows : list R) x : x ∈ fst (list_view o order rows) -> x ∈ rows.
Proof.
  unfold list_view, page_of. cbn [fst]. intros Hx. rewrite <- (sort_rows_perm order rows).
  eapply elem_of_drop_incl. rewrite <- (take_drop (vo_limit o) (drop _ _)), elem_of_app. by left.
Qed.

Lemma conversation_events_restrict c o :
  conversation_events m' (fleet_events events fleet) fleet c o = conversation_events m events fleet c o.
Proof.
  unfold conversation_events. rewrite restrict_events. apply filter_ext'. intros x. unfold in_conversation.
  by rewrite restrict_messages.
Qed.

Lemma getConversation_restrict c o :
  getConversation m' (fleet_events events fleet) fleet c o = getConversation m events fleet c o.
Proof.
  unfold getConversation. destruct (starts_with "feed-" c).
  - unfold getFeedConversation, feed_messages. by rewrite restrict_messages.
  - destruct (sort_column _ _ _) as [col|]; [|done]. rewrite conversation_events_restrict.
    destruct (list_view _ _ _) as [rows total] eqn:E. do 2 f_equal. apply map_ext_in. intros x Hx%list_elem_of_In.
    apply with_message_restrict. assert (Hin : x ∈ conversation_events m events fleet c o).
    { eapply elem_of_page. by rewrite E. }
    unfold conversation_events in Hin. by apply elem_of_where in Hin as [? _].
Qed.

Lemma joined_approvals_restrict : joined_approvals d' fleet = joined_approvals d fleet.
Proof.
  unfold joined_approvals. rewrite restrict_approvals.
  assert (Hall : forall x, x ∈ fleet_rows ap_fleet fleet (ad_approvals d) ->
    ad_agents d' !! ap_agent (snd x) = ad_agents d !! ap_agent (snd x)).
  { intros [i a] [Hi Hf]%elem_of_fleet_rows. cbn [snd]. destruct (ra_approvals _ Hok i a Hi) as (b & Hb & Hbf).
    cbn [fst] in Hb. rewrite Hb. apply map_lookup_filter_Some. by subst. }
  apply omap_ext_in. intros x Hx. by rewrite Hall.
Qed.

Lemma overview_restrict now :
  getFleetOverview d' m' (fleet_events events fleet) now fleet = getFleetOverview d m events now fleet.
Proof.
  unfold getFleetOverview. rewrite restrict_deliveries, restrict_dead, restrict_violations, restrict_events.
  rewrite restrict_agents, restrict_approvals. f_equal. unfold latest_messages. rewrite restrict_messages. apply map_ext. intros x.
  assert (Hn : forall i, fleet_agent_named d' fleet i = fleet_agent_named d fleet i)
    by (intros i; unfold fleet_agent_named; by rewrite restrict_agent).
  unfold conversation_row. rewrite restrict_room.
  assert (Hc : conversation_agents d' m' fleet (ms_conversation x) = conversation_agents d m fleet (ms_conversation x)).
  { unfold conversation_agents. rewrite restrict_messages. f_equal. apply flat_map_ext. intros y.
    apply filter_ext'. intros i. by rewrite Hn. }
  assert (Ht : forall i, title_of d' fleet i = title_of d fleet i) by (intros i; unfold title_of; by rewrite Hn).
  rewrite Hc, (map_ext _ (fun p => default p (title_of d fleet p))) by (intros p; by rewrite Ht).
  destruct (fleet_room _ _ _); [done|].
  destruct (take 6 _) as [|p [|? ?]]; [|by rewrite Ht|done]. by rewrite !Ht.
Qed.

Lemma listRooms_restrict : listRooms d' m' fleet = listRooms d m fleet.
Proof.
  unfold listRooms. cbn [m' restrict vt_mail md_rooms]. rewrite map_filter_filter_l by done.
  apply map_ext_in. intros [r row] Hr%list_elem_of_In. cbn [fst snd]. f_equal.
  rewrite elem_of_reverse, elem_of_order_by, elem_of_map_to_list, map_lookup_filter_Some in Hr. destruct Hr as [Hr Hf].
  cbn [snd] in Hf.
  assert (Hsel : select (fun p => fst p ==? r) (fleet_members m fleet) = select (fun p => fst p ==? r) (md_members m)).
  { apply select_sub. intros p Hp. bools. rewrite Hp. unfold fleet_lookup.
    by rewrite Hr, (bool_decide_true (rm_fleet row = fleet)) by done. }
  cbn [md_members]. rewrite Hsel.
  assert (Hmem : forall p, p ∈ select (fun p => fst p ==? r) (md_members m) -> ad_agents d' !! snd p = ad_agents d !! snd p).
  { intros [r' a] [Hp Hr']%elem_of_select. bools. cbn [fst snd] in *. subst r'.
    destruct (ro_members _ _ (ra_relay _ Hok) r a Hp) as (room & Hroom & b & Hb & Hbf). cbn [fst snd] in *.
    simplify_eq. cbn. by rewrite Hb, map_lookup_filter_Some. }
  f_equal. apply omap_ext_in. intros p Hp. by rewrite (Hmem p Hp).
Qed.

(** One query, on all tables and on the fleet's own rows. *)
Lemma view_restrict now q :
  view (MkViewTables d m events) now fleet q = view (restrict fleet (MkViewTables d m events)) now fleet q.
Proof.
  change (restrict fleet _) with (MkViewTables d' m' (fleet_events events fleet)).
  destruct q; cbn [view]; f_equal; symmetry.
  - apply overview_restrict.
  - unfold getActivity. rewrite restrict_events. apply map_ext. intros x. unfold fleet_names.
    by destruct (truthy (ev_actor _)), (truthy (ev_resource _)); cbn; rewrite ?restrict_agent.
  - unfold listAgents, listed_agents. by rewrite restrict_agents.
  - unfold listPendingApprovals, listed_approvals. by rewrite joined_approvals_restrict.
  - unfold listEvents, listed_events. by rewrite restrict_events.
  - apply getConversation_restrict.
  - unfold getAgentDetail. by rewrite restrict_agent, restrict_events, restrict_controls, restrict_messages.
  - apply listRooms_restrict.
  - unfold listDeadLetters. by rewrite restrict_dead.
  - unfold getDeadLetterDetail. by rewrite restrict_dead.
  - unfold getAgentRateLimitHistory. by rewrite restrict_violations.
Qed.
End Confined.
