(* ===== verification/CanonicalJson.v ===== *)
(** * Canonical texts are unambiguous

    The signed text of a payload determines it: [canonicalize] gives the same text
    to two values exactly when they are the same up to the order of the keys of
    their objects.  Signatures, the fingerprints of keys and the identity of a held
    message all rest on this. *)

From S2P Require Import Prelude Json JsValues Text.
Import Ascii String.
Open Scope string_scope.
Open Scope Z_scope.

(** ** Values up to the order of keys *)

Section Induction.
Context (P : json -> Prop).
Context (Hnull : P JNull) (Hbool : forall b, P (JBool b)) (Hnum : forall z, P (JNum z)) (Hstr : forall s, P (JStr s)).
Context (Harr : forall l, Forall P l -> P (JArr l)) (Hobj : forall kvs, Forall (fun kv => P (snd kv)) kvs -> P (JObj kvs)).

Fixpoint json_nested_ind (v : json) : P v :=
  match v with
  | JNull => Hnull
  | JBool b => Hbool b
  | JNum z => Hnum z
  | JStr s => Hstr s
  | JArr l => Harr l ((fix go l : Forall P l := match l with [] => Forall_nil_2 _ | x :: l' => Forall_cons_2 _ _ _ (json_nested_ind x) (go l') end) l)
  | JObj kvs => Hobj kvs ((fix go l : Forall (fun kv => P (snd kv)) l :=
      match l with [] => Forall_nil_2 _ | x :: l' => Forall_cons_2 _ _ _ (json_nested_ind (snd x)) (go l') end) kvs)
  end.
End Induction.

(** The keys of every object, in order. *)
Fixpoint sorted_json (v : json) : json :=
  match v with
  | JArr l => JArr (map sorted_json l)
  | JObj kvs => JObj (sort_keys (map (fun kv => (fst kv, sorted_json (snd kv))) kvs))
  | _ => v
  end.

(** The same value, whatever the order of the keys. *)
Definition same_json (v w : json) : Prop := sorted_json v = sorted_json w.

#[global] Instance same_json_equiv : Equivalence same_json.
Proof. unfold same_json. split; [by intros v|by intros v w|intros u v w; congruence]. Qed.

Lemma sort_keys_map {A B} (f : A -> B) l :
  sort_keys (map (fun kv => (fst kv, f (snd kv))) l) = map (fun kv => (fst kv, f (snd kv))) (sort_keys l).
Proof.
  induction l as [|x l IH]; [done|]. simpl. rewrite IH. unfold sort_keys. clear IH.
  induction (foldr insert_key [] l) as [|y r IHr]; [done|]. simpl.
  destruct (string_leb _ _); [done|]. simpl. by rewrite IHr.
Qed.

(** ** Numbers *)

Definition not_digit_first (l : list ascii) : Prop := match l with c :: _ => digit_char c = false | [] => True end.

Definition digits_value (l : list ascii) : Z := fold_left (fun v c => 10 * v + (Z.of_nat (nat_of_ascii c) - 48)) l 0.

Lemma digit_facts n : 0 <= n < 10 -> digit_char (digit n) = true /\ Z.of_nat (nat_of_ascii (digit n)) - 48 = n.
Proof.
  intros Hn. assert (Hd : forallb (fun k => let d := Z.of_nat k in digit_char (digit d) && (Z.of_nat (nat_of_ascii (digit d)) - 48 =? d))
                            (seq 0 10) = true) by (vm_compute; reflexivity).
  rewrite forallb_forall in Hd. specialize (Hd (Z.to_nat n) ltac:(apply in_seq; lia)). cbv zeta in Hd. rewrite Z2Nat.id in Hd by lia.
  apply andb_true_iff in Hd as [Hc Hv]. split; [done|by apply Z.eqb_eq].
Qed.

Lemma digits_fuel_spec fuel : forall n acc, 0 <= n < 10 ^ Z.of_nat fuel -> exists l,
  chars (digits_fuel fuel n acc) = (l ++ chars acc)%list /\ Forall (fun c => digit_char c = true) l /\ digits_value l = n /\
  (fuel <> O -> l <> []).
Proof.
  induction fuel as [|fuel IH]; intros n acc Hn; cbn [digits_fuel].
  - exists []. split_and!; [done|done|change (10 ^ Z.of_nat 0) with 1 in Hn; vm_compute; lia|done].
  - destruct (digit_facts (n mod 10) ltac:(apply Z.mod_pos_bound; lia)) as [Hd Hv]. destruct (Z.ltb_spec n 10).
    + exists [digit (n mod 10)]. split_and!; [done|by constructor| |done].
      unfold digits_value. simpl. rewrite Hv. rewrite Z.mod_small; lia.
    + rewrite Nat2Z.inj_succ, Z.pow_succ_r in Hn by lia.
      destruct (IH (n / 10) (String (digit (n mod 10)) acc)) as (l & He & Hf & Hdv & _); [split; [apply Z.div_pos; lia|apply Z.div_lt_upper_bound; lia]|].
      exists (l ++ [digit (n mod 10)])%list. rewrite He. split_and!.
      * by rewrite <- app_assoc.
      * apply Forall_app. split; [done|by constructor].
      * unfold digits_value in *. rewrite fold_left_app. simpl. rewrite Hdv, Hv. pose proof (Z.div_mod n 10 ltac:(lia)). lia.
      * intros _ Hl. by destruct l.
Qed.

Lemma stringify_nat_spec n : 0 <= n -> exists l,
  chars (stringify_nat n) = l /\ Forall (fun c => digit_char c = true) l /\ digits_value l = n /\ l <> [].
Proof.
  intros Hn. unfold stringify_nat.
  destruct (digits_fuel_spec (S (Z.to_nat (Z.log2_up (n + 1)))) n "") as (l & He & Hf & Hv & Hl).
  - split; [done|]. rewrite Nat2Z.inj_succ, Z2Nat.id by apply Z.log2_up_nonneg.
    assert (H2 : n + 1 <= 2 ^ Z.log2_up (n + 1)).
    { destruct (decide (n = 0)) as [->|Hz]; [done|]. by apply Z.log2_up_spec; lia. }
    assert (H3 : 2 ^ Z.log2_up (n + 1) <= 10 ^ Z.log2_up (n + 1)) by (apply Z.pow_le_mono_l; lia).
    assert (H4 : 10 ^ Z.log2_up (n + 1) <= 10 ^ Z.succ (Z.log2_up (n + 1))) by (apply Z.pow_le_mono_r; lia). lia.
  - exists l. rewrite He. cbn. rewrite app_nil_r. split_and!; [done..|by apply Hl].
Qed.

(** A run of digits ends where the digits end. *)
Lemma digits_cut l1 : forall l2 s1 s2, Forall (fun c => digit_char c = true) l1 -> Forall (fun c => digit_char c = true) l2 ->
  not_digit_first s1 -> not_digit_first s2 -> (l1 ++ s1 = l2 ++ s2)%list -> l1 = l2 /\ s1 = s2.
Proof.
  induction l1 as [|c l1 IH]; intros [|d l2] s1 s2 Hf1 Hf2 Hs1 Hs2 He; simpl in He.
  - done.
  - subst s1. apply Forall_inv in Hf2. simpl in Hs1. congruence.
  - subst s2. apply Forall_inv in Hf1. simpl in Hs2. congruence.
  - injection He as -> He. apply Forall_cons in Hf1 as [_ Hf1]. apply Forall_cons in Hf2 as [_ Hf2].
    by destruct (IH _ _ _ Hf1 Hf2 Hs1 Hs2 He) as [-> ->].
Qed.

Lemma stringify_num_text z : exists l, Forall (fun c => digit_char c = true) l /\ l <> [] /\ digits_value l = Z.abs z /\
  chars (stringify_num z) = if z <? 0 then "-"%char :: l else l.
Proof.
  unfold stringify_num. destruct (Z.ltb_spec z 0).
  - destruct (stringify_nat_spec (- z) ltac:(lia)) as (l & <- & Hf & Hv & Hl). eexists. split_and!; [done|done|lia|]. by rewrite chars_app.
  - destruct (stringify_nat_spec z ltac:(lia)) as (l & <- & Hf & Hv & Hl). eexists. split_and!; [done|done|lia|done].
Qed.

Lemma number_cut z1 z2 s1 s2 : not_digit_first s1 -> not_digit_first s2 ->
  (chars (stringify_num z1) ++ s1 = chars (stringify_num z2) ++ s2)%list -> z1 = z2 /\ s1 = s2.
Proof.
  intros Hs1 Hs2. destruct (stringify_num_text z1) as (l1 & Hf1 & Hn1 & Hv1 & ->).
  destruct (stringify_num_text z2) as (l2 & Hf2 & Hn2 & Hv2 & ->).
  assert (Hminus : forall l, l <> [] -> Forall (fun c => digit_char c = true) l -> forall t s, (l ++ s)%list <> "-"%char :: t).
  { intros [|c l] Hn Hf t s; [done|]. apply Forall_inv in Hf. simpl. intros [= -> _]. by vm_compute in Hf. }
  destruct (Z.ltb_spec z1 0), (Z.ltb_spec z2 0); simpl; intros He.
  - injection He as He. apply digits_cut in He as [-> ->]; [|done..]. split; [lia|done].
  - symmetry in He. by apply Hminus in He.
  - by apply Hminus in He.
  - apply digits_cut in He as [-> ->]; [|done..]. split; [lia|done].
Qed.

(** ** Strings *)

Lemma prefix_either (a b x y : list ascii) : (a ++ x = b ++ y)%list -> strip_prefix a b <> None \/ strip_prefix b a <> None.
Proof.
  revert b. induction a as [|c a IH]; intros [|d b]; simpl; [by left|by left|by right|]. intros [= -> He].
  rewrite !bool_decide_true by done. by apply IH.
Qed.

Definition all_chars : list ascii := map ascii_of_nat (seq 0 256).

Lemma elem_of_all_chars c : c ∈ all_chars.
Proof.
  unfold all_chars. apply list_elem_of_fmap. exists (nat_of_ascii c). rewrite ascii_nat_embedding. split; [done|].
  apply elem_of_seq. pose proof (nat_ascii_bounded c). lia.
Qed.

Definition escapes_apart (c d : ascii) : bool :=
  (c ==? d) || match strip_prefix (chars (escape_char c)) (chars (escape_char d)) with None => true | Some _ => false end.

Lemma escapes_checked : forallb (fun c => forallb (escapes_apart c) all_chars) all_chars = true.
Proof. vm_compute. reflexivity. Qed.

Lemma escape_apart c d : c <> d -> strip_prefix (chars (escape_char c)) (chars (escape_char d)) = None.
Proof.
  intros Hn. pose proof escapes_checked as Hc. rewrite forallb_forall in Hc.
  specialize (Hc c (proj1 (list_elem_of_In _ _) (elem_of_all_chars c))). rewrite forallb_forall in Hc.
  specialize (Hc d (proj1 (list_elem_of_In _ _) (elem_of_all_chars d))). unfold escapes_apart in Hc.
  rewrite bool_decide_false in Hc by done. simpl in Hc. by destruct (strip_prefix _ _).
Qed.

Definition quote : ascii := ascii_of_nat 34.

Lemma escape_head c : exists h l, chars (escape_char c) = h :: l /\ h <> quote.
Proof.
  assert (Hc : forallb (fun c => match chars (escape_char c) with h :: _ => negb (h ==? quote) | [] => false end) all_chars = true)
    by (vm_compute; reflexivity).
  rewrite forallb_forall in Hc. specialize (Hc c (proj1 (list_elem_of_In _ _) (elem_of_all_chars c))).
  destruct (chars (escape_char c)) as [|h l]; [done|]. exists h, l. split; [done|]. intros ->. by rewrite bool_decide_true in Hc.
Qed.

Lemma escape_cut s : forall t s1 s2,
  (chars (escape_string s) ++ quote :: s1 = chars (escape_string t) ++ quote :: s2)%list -> s = t /\ s1 = s2.
Proof.
  induction s as [|c s IH]; intros [|d t] s1 s2; cbn [escape_string]; rewrite ?chars_app, <- ?app_assoc.
  - simpl. by intros [= ->].
  - destruct (escape_head d) as (h & l & -> & Hh). simpl. intros [= He _]. congruence.
  - destruct (escape_head c) as (h & l & -> & Hh). simpl. intros [= He _]. congruence.
  - intros He. destruct (decide (c = d)) as [->|Hn].
    + apply app_inv_head in He. by destruct (IH _ _ _ He) as [-> ->].
    + apply prefix_either in He as [He|He]; exfalso; apply He; by apply escape_apart.
Qed.

Lemma chars_stringify s : chars (stringify_string s) = (quote :: chars (escape_string s) ++ [quote])%list.
Proof. unfold stringify_string. rewrite !chars_app. done. Qed.

Lemma string_cut s t s1 s2 :
  (chars (stringify_string s) ++ s1 = chars (stringify_string t) ++ s2)%list -> s = t /\ s1 = s2.
Proof. rewrite !chars_stringify. simpl. rewrite <- !app_assoc. simpl. intros [= He]. by apply escape_cut in He. Qed.

(** ** Lists of texts *)

Section Cut.
Context {A B : Type} (text_of : A -> list ascii) (norm : A -> B).

(** Where a text ends is seen from what follows it. *)
Definition cuts (x : A) : Prop := forall y s1 s2, not_digit_first s1 -> not_digit_first s2 ->
  (text_of x ++ s1 = text_of y ++ s2)%list -> norm x = norm y /\ s1 = s2.

Definition starts_well (x : A) : Prop := exists h l, text_of x = h :: l /\ h <> "]"%char /\ h <> "}"%char.

Definition tails (l : list A) : list ascii := flat_map (fun x => ","%char :: text_of x) l.
Definition joined (l : list A) : list ascii := match l with [] => [] | x :: r => text_of x ++ tails r end%list.

Context (close : ascii) (Hclose : close = "]"%char \/ close = "}"%char) (Hstart : forall x, starts_well x).

Lemma tails_first l s : not_digit_first (tails l ++ close :: s).
Proof. destruct l; simpl; [by destruct Hclose as [-> | ->]|done]. Qed.

Lemma tails_cut l : Forall cuts l -> forall l2 s1 s2,
  (tails l ++ close :: s1 = tails l2 ++ close :: s2)%list -> map norm l = map norm l2 /\ s1 = s2.
Proof.
  induction 1 as [|x l Hx _ IH]; intros [|y l2] s1 s2; simpl; rewrite <- ?app_assoc.
  - by intros [= ->].
  - intros [= He _]. by destruct Hclose as [-> | ->].
  - intros [= He _]. by destruct Hclose as [-> | ->].
  - intros [= He]. apply Hx in He as [-> He]; [|apply tails_first..]. by apply IH in He as [-> ->].
Qed.

Lemma joined_cut l l2 s1 s2 : Forall cuts l ->
  (joined l ++ close :: s1 = joined l2 ++ close :: s2)%list -> map norm l = map norm l2 /\ s1 = s2.
Proof.
  assert (Hne : forall x r s, (text_of x ++ r)%list <> close :: s).
  { intros x r s. destruct (Hstart x) as (h & t & -> & H1 & H2). simpl. intros [= -> _]. destruct Hclose; congruence. }
  intros Hf. destruct l as [|x l], l2 as [|y l2]; simpl; rewrite <- ?app_assoc.
  - by intros [= ->].
  - intros He. symmetry in He. by apply Hne in He.
  - intros He. by apply Hne in He.
  - apply Forall_cons in Hf as [Hx Hf]. intros He. apply Hx in He as [-> He]; [|apply tails_first..].
    by apply tails_cut in He as [-> ->].
Qed.
End Cut.

Lemma chars_join_comma {A} (f : A -> string) l : chars (join_comma (map f l)) = joined (fun x => chars (f x)) l.
Proof.
  destruct l as [|x l]; [done|]. simpl. rewrite chars_app. f_equal.
  induction l as [|y l IH]; [done|]. cbn [map foldr]. by rewrite !chars_app, IH.
Qed.

(** ** Values *)

Lemma canonicalize_obj kvs : canonicalize (JObj kvs) =
  "{" +:+ join_comma (map (fun kv => stringify_string (fst kv) +:+ ":" +:+ canonicalize (snd kv)) (sort_keys kvs)) +:+ "}".
Proof. cbn [canonicalize]. by rewrite (sort_keys_map canonicalize), map_map. Qed.

Lemma sorted_json_obj kvs : sorted_json (JObj kvs) = JObj (map (fun kv => (fst kv, sorted_json (snd kv))) (sort_keys kvs)).
Proof. cbn [sorted_json]. by rewrite sort_keys_map. Qed.

Lemma insert_key_perm {A} (x : string * A) l : insert_key x l ≡ₚ x :: l.
Proof.
  induction l as [|y l IH]; [done|]. simpl. destruct (string_leb _ _); [done|]. rewrite IH. apply perm_swap.
Qed.

Lemma sort_keys_perm {A} (l : list (string * A)) : sort_keys l ≡ₚ l.
Proof. induction l as [|x l IH]; [done|]. unfold sort_keys in *. simpl. by rewrite insert_key_perm, IH. Qed.

(** What a text starts with tells its kind. *)
Inductive kind_of_text : json -> ascii -> Prop :=
  | KNull : kind_of_text JNull "n"
  | KTrue : kind_of_text (JBool true) "t"
  | KFalse : kind_of_text (JBool false) "f"
  | KNum z c : digit_char c = true \/ c = "-"%char -> kind_of_text (JNum z) c
  | KStr s : kind_of_text (JStr s) quote
  | KArr l : kind_of_text (JArr l) "["
  | KObj kvs : kind_of_text (JObj kvs) "{".

Lemma canonicalize_head v : exists h l, chars (canonicalize v) = h :: l /\ kind_of_text v h.
Proof.
  destruct v as [|[]|z|s|l|kvs].
  - exists "n"%char. eexists. split; [reflexivity|constructor].
  - exists "t"%char. eexists. split; [reflexivity|constructor].
  - exists "f"%char. eexists. split; [reflexivity|constructor].
  - cbn [canonicalize]. destruct (stringify_num_text z) as (l & Hf & Hn & _ & ->). destruct l as [|c l]; [done|].
    apply Forall_inv in Hf. destruct (z <? 0); (eexists _, _; split; [reflexivity|constructor; by auto]).
  - cbn [canonicalize]. rewrite chars_stringify. eexists _, _. split; [reflexivity|constructor].
  - cbn [canonicalize]. rewrite chars_app. eexists _, _. split; [reflexivity|constructor].
  - rewrite canonicalize_obj, chars_app. eexists _, _. split; [reflexivity|constructor].
Qed.

Lemma canonicalize_starts v : starts_well (fun v => chars (canonicalize v)) v.
Proof.
  destruct (canonicalize_head v) as (h & l & He & Hk). exists h, l. split; [done|].
  inversion Hk; subst; try done. destruct_or!; subst; [|done]. by split; intros ->.
Qed.

Lemma member_starts kv : starts_well (fun kv : string * json => chars (stringify_string (fst kv) +:+ ":" +:+ canonicalize (snd kv))) kv.
Proof. unfold starts_well. rewrite chars_app, chars_stringify. eexists _, _. split; [reflexivity|done]. Qed.

Lemma member_text k v t : (chars (stringify_string k +:+ ":" +:+ canonicalize v) ++ t =
  chars (stringify_string k) ++ ":"%char :: chars (canonicalize v) ++ t)%list.
Proof. rewrite (chars_app (stringify_string k)), <- app_assoc. f_equal. Qed.

Lemma canonicalize_cuts v : cuts (fun v => chars (canonicalize v)) sorted_json v.
Proof.
  induction v as [|b|z|s|l IH|kvs IH] using json_nested_ind; intros w s1 s2 Hs1 Hs2 He.
  all: destruct (canonicalize_head w) as (h & t & Hw & Hk).
  all: try (rewrite Hw in He).
  - simpl in He. injection He as Hh He. subst h. inversion Hk; subst; [|by destruct_or!..].
    injection Hw as <-. by injection He as ->.
  - destruct b; simpl in He; injection He as Hh He; subst h; (inversion Hk; subst; [|by destruct_or!]); injection Hw as <-; by injection He as ->.
  - destruct w; try (exfalso; destruct (canonicalize_head (JNum z)) as (h' & t' & Hz & Hkz); rewrite Hz in He;
      injection He as -> _; inversion Hkz; subst; inversion Hk; subst; by destruct_or!).
    rewrite <- Hw in He. cbn [canonicalize] in He. by apply number_cut in He as [-> ->].
  - cbn [canonicalize] in He. rewrite chars_stringify in He. injection He as Hh He. subst h.
    inversion Hk; subst; [by destruct_or!|]. cbn [canonicalize] in Hw. rewrite chars_stringify in Hw. injection Hw as <-.
    rewrite <- !app_assoc in He. simpl in He. by apply escape_cut in He as [-> ->].
  - cbn [canonicalize] in He. rewrite !chars_app, chars_join_comma in He. simpl in He. injection He as Hh He. subst h.
    inversion Hk; subst; [by destruct_or!|]. cbn [canonicalize] in Hw. rewrite !chars_app, chars_join_comma in Hw.
    injection Hw as <-. rewrite <- !app_assoc in He. simpl in He.
    apply (joined_cut _ sorted_json "]"%char) in He as [Hm ->]; [|by left|apply canonicalize_starts|done].
    simpl. by rewrite Hm.
  - rewrite canonicalize_obj, !chars_app, chars_join_comma in He. simpl in He. injection He as Hh He. subst h.
    inversion Hk; subst; [by destruct_or!|]. rewrite canonicalize_obj, !chars_app, chars_join_comma in Hw.
    injection Hw as <-. rewrite <- !app_assoc in He. simpl in He.
    apply (joined_cut _ (fun kv => (fst kv, sorted_json (snd kv))) "}"%char) in He as [Hm ->];
      [|by right|apply member_starts|].
    + by rewrite !sorted_json_obj, Hm.
    + rewrite sort_keys_perm. eapply Forall_impl; [exact IH|]. intros [k v] Hv [k2 w] t1 t2 Ht1 Ht2 Hc.
      pose proof (eq_trans (eq_sym (member_text k v t1)) (eq_trans Hc (member_text k2 w t2))) as Hm.
      apply string_cut in Hm as [-> Hm]. injection Hm as Hm.
      simpl in *. by apply Hv in Hm as [-> ->].
Qed.

Lemma chars_inj s t : chars s = chars t -> s = t.
Proof. intros He. by rewrite <- (string_of_list_ascii_of_string s), <- (string_of_list_ascii_of_string t), He. Qed.


(** The text of a value whose keys are sorted already. *)
Fixpoint plain_text (v : json) : string :=
  match v with
  | JArr l => "[" +:+ join_comma (map plain_text l) +:+ "]"
  | JObj kvs => "{" +:+ join_comma (map (fun kv => stringify_string (fst kv) +:+ ":" +:+ plain_text (snd kv)) kvs) +:+ "}"
  | _ => canonicalize v
  end.

Lemma canonicalize_plain v : canonicalize v = plain_text (sorted_json v).
Proof.
  induction v as [|b|z|s|l IH|kvs IH] using json_nested_ind; try done; rewrite Forall_forall in IH.
  - cbn [canonicalize sorted_json plain_text]. rewrite map_map. do 3 f_equal. apply map_ext_in.
    intros x Hx%list_elem_of_In. by apply IH.
  - rewrite sorted_json_obj, canonicalize_obj. cbn [plain_text]. rewrite map_map. do 3 f_equal. apply map_ext_in.
    intros x Hx%list_elem_of_In. cbn [fst snd]. do 2 f_equal. apply IH. by rewrite <- sort_keys_perm.
Qed.

(** Equal canonical texts are equal values, up to the order of keys. *)
Lemma canonical_text_same v w : canonicalize v = canonicalize w <-> same_json v w.
Proof.
  split.
  - intros He. assert (Hc : (chars (canonicalize v) ++ [] = chars (canonicalize w) ++ [])%list) by by rewrite He.
    by apply canonicalize_cuts in Hc as [? _].
  - intros Hs. unfold same_json in Hs. by rewrite !canonicalize_plain, Hs.
Qed.

Example canonical_order_only :
  canonicalize (JObj [("a", JNum 1); ("b", JArr [JStr "x"])]) = canonicalize (JObj [("b", JArr [JStr "x"]); ("a", JNum 1)]) /\
  canonicalize (JObj [("a", JStr "1")]) <> canonicalize (JObj [("a", JNum 1)]).
Proof. by vm_compute. Qed.

(** The same value has the same fields. *)
Lemma string_leb_refl s : string_leb s s = true.
Proof. induction s as [|c s IH]; simpl; [done|]. by rewrite Nat.ltb_irrefl. Qed.

Lemma obj_get_sort_keys k (l : list (string * json)) : obj_get k (sort_keys l) = obj_get k l.
Proof.
  unfold obj_get. f_equal. induction l as [|x l IH]; [done|]. unfold sort_keys in *. simpl. rewrite <- IH. clear IH.
  induction (foldr insert_key [] l) as [|y r IHr]; [done|]. simpl.
  destruct (string_leb (fst x) (fst y)) eqn:Hle; simpl; [done|]. rewrite IHr.
  case_bool_decide as Hy; [|done]. case_bool_decide as Hx; [|done].
  rewrite Hx, Hy, string_leb_refl in Hle. done.
Qed.

Lemma string_field_sorted v k : string_field (sorted_json v) k = string_field v k.
Proof.
  destruct v as [| | | | |kvs]; try done. cbn [sorted_json string_field]. rewrite obj_get_sort_keys.
  unfold obj_get. induction kvs as [|[k' x] kvs IH]; [done|]. simpl. case_bool_decide; [|done]. simpl. by destruct x.
Qed.

Lemma same_json_string_field v w k : same_json v w -> string_field v k = string_field w k.
Proof. intros Hs. rewrite <- (string_field_sorted v), <- (string_field_sorted w). by rewrite Hs. Qed.

(** ** What a signature is over *)

(** C16. The canonical text of a JSON value is the value. Two values have the same
    canonical text exactly when they are equal up to the order of the keys of their
    objects, at every depth, so a signature is over one value, and has the same string
    fields.  The text is JSON's own text of the value with its keys sorted, and it says
    where it ends: followed by anything but a digit, it is read back in one way. *)
Theorem canonicalize_injective v w :
  (canonicalize v = canonicalize w <-> same_json v w) /\
  (canonicalize v = canonicalize w -> forall k, string_field v k = string_field w k) /\
  canonicalize v = plain_text (sorted_json v) /\
  forall s t, not_digit_first (chars s) -> not_digit_first (chars t) -> canonicalize v +:+ s = canonicalize w +:+ t -> same_json v w /\ s = t.
Proof.
  split_and!; [apply canonical_text_same| |apply canonicalize_plain|].
  - intros Hs%canonical_text_same k. by apply same_json_string_field.
  - intros s t Hs Ht He. apply (f_equal chars) in He. rewrite !chars_app in He.
    apply canonicalize_cuts in He as [? ?%chars_inj]; done.
Qed.

Lemma canonicalize_injective_witness :
  let v := JObj [("b", JNum 12); ("a", JArr [JStr "]"])] in let w := JObj [("a", JArr [JStr "]"]); ("b", JNum 12)] in
  canonicalize v <> canonicalize (JObj [("b", JNum 12); ("a", JArr [JStr "["])]) /\ same_json v w /\ ",rest" = ",rest".
Proof.
  split; [vm_compute; discriminate|].
  refine (proj2 (proj2 (proj2 (canonicalize_injective (JObj [("b", JNum 12); ("a", JArr [JStr "]"])]) (JObj [("a", JArr [JStr "]"]); ("b", JNum 12)])))) _ _ _ _ _).
  - reflexivity.
  - reflexivity.
  - vm_compute. reflexivity.
Defined.
