(* ===== verification/JsMap.v ===== *)
(** * Maps in insertion order

    A JavaScript [Map]: setting a key that is there keeps its place, a new key goes
    to the end, and the oldest keys are the first to be evicted. *)

From S2P Require Import Prelude Json IsoTime JsValues Text.

Section JsMap.
Context {K V : Type} `{EqDecision K}.
Implicit Types (m : list (K * V)) (k : K).

Definition js_get (k : K) (m : list (K * V)) : option V := snd <$> List.find (fun kv => bool_decide (fst kv = k)) m.
Definition js_has (k : K) (m : list (K * V)) : bool := bool_decide (is_Some (js_get k m)).
Definition js_delete (k : K) (m : list (K * V)) : list (K * V) := List.filter (fun kv => negb (bool_decide (fst kv = k))) m.
Fixpoint js_put (k : K) (v : V) (m : list (K * V)) : list (K * V) :=
  match m with
  | [] => [(k, v)]
  | kv :: m' => if bool_decide (fst kv = k) then (fst kv, v) :: m' else kv :: js_put k v m'
  end.

(** [while (m.size > cap) m.delete(m.keys().next().value)] *)
Definition js_evict (cap : nat) (m : list (K * V)) : list (K * V) := drop (length m - cap) m.

Definition js_keys m : list K := map fst m.

#[local] Arguments js_get : simpl never.

Lemma js_get_nil k : js_get k [] = None.
Proof. done. Qed.

Lemma js_get_cons k k' v m : js_get k ((k', v) :: m) = if bool_decide (k' = k) then Some v else js_get k m.
Proof. unfold js_get. simpl. by case_bool_decide. Qed.

Lemma js_get_app k m n : js_get k (m ++ n) = match js_get k m with Some v => Some v | None => js_get k n end.
Proof.
  induction m as [|[k' v] m IH]; [done|]. simpl app. rewrite !js_get_cons. by case_bool_decide.
Qed.

Lemma js_get_Some_elem k v m : js_get k m = Some v -> (k, v) ∈ m.
Proof.
  induction m as [|[k' v'] m IH]; [done|]. rewrite js_get_cons. case_bool_decide as Hk.
  - intros [= ->]. subst. by left.
  - intros ?. right. by apply IH.
Qed.

Lemma js_get_elem k v m : NoDup (js_keys m) -> (k, v) ∈ m -> js_get k m = Some v.
Proof.
  induction m as [|[k' v'] m IH]; intros Hnd Hin; [by apply elem_of_nil in Hin|]. rewrite js_get_cons.
  apply NoDup_cons in Hnd as [Hn Hnd]. apply elem_of_cons in Hin as [[= <- <-]|Hin]; [by rewrite bool_decide_true|].
  rewrite bool_decide_false; [by apply IH|]. intros ->. apply Hn. apply list_elem_of_fmap. by exists (k, v).
Qed.

Lemma js_get_None k m : js_get k m = None <-> k ∉ js_keys m.
Proof.
  induction m as [|[k' v] m IH]; simpl; [split; [intros _; apply not_elem_of_nil|done]|].
  rewrite js_get_cons, not_elem_of_cons. case_bool_decide as Hk; [split; [done|intros [? _]; congruence]|].
  rewrite IH. split; [intros ?; split; [congruence|done]|by intros [_ ?]].
Qed.

Lemma js_get_put k k' v m : js_get k (js_put k' v m) = if bool_decide (k' = k) then Some v else js_get k m.
Proof.
  induction m as [|[k2 v2] m IH]; simpl; [by rewrite js_get_cons|]. destruct (decide (k2 = k')) as [->|Hk].
  - rewrite (bool_decide_true (k' = k')) by done. rewrite !js_get_cons. by case_bool_decide.
  - rewrite (bool_decide_false (k2 = k')) by done. rewrite !js_get_cons, IH. do 2 case_bool_decide; congruence.
Qed.

Lemma js_get_delete k k' m : js_get k (js_delete k' m) = if bool_decide (k' = k) then None else js_get k m.
Proof.
  induction m as [|[k2 v2] m IH]; simpl; [by case_bool_decide|]. destruct (decide (k2 = k')) as [->|Hk].
  - rewrite (bool_decide_true (k' = k')) by done. simpl. rewrite IH, js_get_cons. by case_bool_decide.
  - rewrite (bool_decide_false (k2 = k')) by done. simpl. rewrite !js_get_cons, IH. do 2 case_bool_decide; congruence.
Qed.

Lemma js_keys_put k v m : js_keys (js_put k v m) = if bool_decide (k ∈ js_keys m) then js_keys m else (js_keys m ++ [k])%list.
Proof.
  induction m as [|[k2 v2] m IH]; cbn [js_put].
  - rewrite bool_decide_false; [done|apply not_elem_of_nil].
  - change (js_keys ((k2, v2) :: m)) with (k2 :: js_keys m). cbn [fst]. destruct (decide (k2 = k)) as [->|Hk].
    + rewrite (bool_decide_true (k = k)), bool_decide_true; [done|by left|done].
    + rewrite (bool_decide_false (k2 = k)) by done. change (js_keys ((k2, v2) :: js_put k v m)) with (k2 :: js_keys (js_put k v m)).
      rewrite IH. destruct (decide (k ∈ js_keys m)) as [Hin|Hin].
      * rewrite !bool_decide_true; [done|by right|done].
      * rewrite !bool_decide_false; [done| |done]. intros [?|?]%elem_of_cons; [by subst|done].
Qed.

Lemma js_keys_delete k m : js_keys (js_delete k m) = List.filter (fun k' => negb (bool_decide (k' = k))) (js_keys m).
Proof. induction m as [|[k2 v2] m IH]; simpl; [done|]. case_bool_decide; simpl; by rewrite IH. Qed.

Lemma js_put_NoDup k v m : NoDup (js_keys m) -> NoDup (js_keys (js_put k v m)).
Proof.
  intros Hnd. rewrite js_keys_put. case_bool_decide as Hk; [done|]. apply NoDup_app. split_and!; [done| |apply NoDup_singleton].
  intros x Hx ->%list_elem_of_singleton. done.
Qed.

Lemma js_delete_NoDup k m : NoDup (js_keys m) -> NoDup (js_keys (js_delete k m)).
Proof. intros Hnd. rewrite js_keys_delete. eapply sublist_NoDup; [exact Hnd|apply filter_sublist]. Qed.

Lemma js_evict_NoDup cap m : NoDup (js_keys m) -> NoDup (js_keys (js_evict cap m)).
Proof.
  intros Hnd. unfold js_evict. eapply sublist_NoDup; [exact Hnd|]. apply sublist_map, sublist_drop.
Qed.

Lemma js_evict_length cap m : (length (js_evict cap m) <= cap)%nat.
Proof. unfold js_evict. rewrite length_drop. lia. Qed.

Lemma js_evict_elem cap kv m : kv ∈ js_evict cap m -> kv ∈ m.
Proof. apply elem_of_drop_incl. Qed.

Lemma js_delete_length_le k m : (length (js_delete k m) <= length m)%nat.
Proof. apply List.filter_length_le. Qed.

Lemma js_put_length_le k v m : (length (js_put k v m) <= S (length m))%nat.
Proof. induction m as [|[k2 v2] m IH]; simpl; [lia|]. case_bool_decide; simpl; lia. Qed.

Lemma elem_of_js_put kv k v m : kv ∈ js_put k v m -> kv = (k, v) \/ kv ∈ m.
Proof.
  induction m as [|[k2 v2] m IH]; cbn [js_put].
  - intros ->%list_elem_of_singleton. by left.
  - cbn [fst]. destruct (decide (k2 = k)) as [->|Hk].
    + rewrite bool_decide_true by done. intros [->|?]%elem_of_cons; [by left|right; by right].
    + rewrite bool_decide_false by done. intros [->|Hin]%elem_of_cons; [right; by left|].
      destruct (IH Hin); [by left|right; by right].
Qed.

Lemma elem_of_js_delete kv k m : kv ∈ js_delete k m <-> kv ∈ m /\ fst kv <> k.
Proof. unfold js_delete. rewrite elem_of_where, negb_true_iff, bool_decide_eq_false. done. Qed.

Lemma elem_of_js_put_unique kv k v m : NoDup (js_keys m) -> kv ∈ js_put k v m -> kv = (k, v) \/ kv ∈ m /\ fst kv <> k.
Proof.
  intros Hnd Hin. destruct (elem_of_js_put _ _ _ _ Hin) as [->|Hm]; [by left|].
  destruct (decide (fst kv = k)) as [Hk|Hk]; [|by right]. left. destruct kv as [k0 v0]. simpl in Hk. subst k0. f_equal.
  pose proof (js_get_elem _ _ _ (js_put_NoDup k v m Hnd) Hin) as Hg. rewrite js_get_put, bool_decide_true in Hg by done.
  by injection Hg.
Qed.

Lemma js_delete_absent k m : k ∉ js_keys m -> js_delete k m = m.
Proof.
  induction m as [|[k' v'] m IH]; intros Hk; [done|]. cbn [js_keys map fst] in Hk. apply not_elem_of_cons in Hk as [Hne Hk].
  unfold js_delete in *. cbn [List.filter fst]. rewrite bool_decide_eq_false_2 by congruence. simpl. by rewrite IH.
Qed.

Lemma js_take k v m : NoDup (js_keys m) -> js_get k m = Some v -> m ≡ₚ (k, v) :: js_delete k m.
Proof.
  induction m as [|[k' v'] m IH]; intros Hnd Hg; [done|]. apply NoDup_cons in Hnd as [Hin Hnd].
  rewrite js_get_cons in Hg. case_bool_decide as Hk.
  - subst k'. injection Hg as ->. unfold js_delete. cbn [List.filter fst]. rewrite bool_decide_eq_true_2 by done. simpl.
    fold (js_delete k m). by rewrite js_delete_absent.
  - unfold js_delete. cbn [List.filter fst]. rewrite bool_decide_eq_false_2 by done. simpl. fold (js_delete k m).
    rewrite (IH Hnd Hg) at 1. constructor.
Qed.
End JsMap.

#[global] Arguments js_get : simpl never.

(** ** Objects used as records

    Assigning [__proto__] sets the prototype and makes no entry; the keys that are
    array indices come first, in their order. *)
Section Records.
Import Ascii String.
Local Open Scope string_scope.
Local Open Scope Z_scope.
Context {V : Type}.
Implicit Types (o : list (string * V)) (k : string).

Definition index_value (l : list ascii) : option Z :=
  foldl (fun v c => v ← v; let d := Z.of_nat (nat_of_ascii c) - 48 in if (0 <=? d) && (d <=? 9) then Some (10 * v + d) else None) (Some 0) l.

Definition array_index k : option Z :=
  match chars k with
  | [] => None
  | c :: l => if (c ==? "0"%char) && negb (length l =? 0)%nat then None
              else match index_value (c :: l) with Some n => if n <? 2 ^ 32 - 1 then Some n else None | None => None end
  end.

Definition record_assign k (v : V) o : list (string * V) := if k ==? "__proto__" then o else js_put k v o.

(** [Object.entries] of an object to which the entries were assigned in this order. *)
Definition record_entries o : list (string * V) :=
  (order_by (fun kv => default 0 (array_index (fst kv))) (List.filter (fun kv => negb (array_index (fst kv) ==? None)) o)
   ++ List.filter (fun kv => array_index (fst kv) ==? None) o)%list.

Lemma filter_split {A} (p : A -> bool) (l : list A) : List.filter (fun x => negb (p x)) l ++ List.filter p l ≡ₚ l.
Proof.
  induction l as [|x l IH]; simpl; [done|]. destruct (p x); simpl; [|by rewrite IH].
  by rewrite <- Permutation_middle, IH.
Qed.

Lemma record_entries_perm o : record_entries o ≡ₚ o.
Proof. unfold record_entries. rewrite order_by_perm. apply filter_split. Qed.
End Records.
