(* ===== verification/Feeds.v ===== *)
(** * Feeds

    [packages/relay/src/feeds.ts] and the feed methods of [db.ts]: parsing RSS and
    Atom, the guard on the addresses the relay fetches, the fetch with its
    redirects, and the polls that deliver new items to the subscribers of a feed.
    Regular expressions are written out as searches over the characters. *)

From S2P Require Import Prelude Json IsoTime JsValues Events Config Agents Enrollment Messages Rooms Delivery DeliverySafety EnrollmentProperties RelayProperties Text.
Import Ascii String.
Open Scope string_scope.
Open Scope Z_scope.

(** The parts of a parsed [URL] the guard reads, and [new URL(location, base)] as
    text; [None] is the throw. *)
Class FeedUrlApi := {
  feed_url : string -> option (string * string);
  feed_resolve : string -> string -> option string
}.

Definition quote_chars : list ascii := [ascii_of_nat 34; ascii_of_nat 39].

(** ** Searching *)

(** [p], in lower case, matched at the head whatever the case: the rest. *)
Fixpoint strip_ci (p l : list ascii) : option (list ascii) :=
  match p, l with
  | [], _ => Some l
  | c :: p', d :: l' => if c ==? lower d then strip_ci p' l' else None
  | _, _ => None
  end.

(** The text before the first [p], and after it. *)
Fixpoint split_at_ci (p l : list ascii) : option (list ascii * list ascii) :=
  match strip_ci p l with
  | Some rest => Some ([], rest)
  | None => match l with
            | [] => None
            | c :: l' => match split_at_ci p l' with Some (a, b) => Some (c :: a, b) | None => None end
            end
  end.

(** [\b] after a word. *)
Definition at_boundary (l : list ascii) : bool := match l with c :: _ => negb (word_char c) | [] => true end.

Definition lower_chars (s : string) : list ascii := chars (lower_string s).

(** [<tag\b[^>]*>([\s\S]*?)</tag>], at the head. *)
Definition tag_here (tag : string) (l : list ascii) : option (list ascii) :=
  match strip_ci ("<"%char :: lower_chars tag) l with
  | Some r =>
      if at_boundary r then
        match split_at_ci [">"%char] r with
        | Some (_, body) => fst <$> split_at_ci (chars "</" ++ lower_chars tag ++ [">"%char]) body
        | None => None
        end
      else None
  | None => None
  end.

Fixpoint first_match_in {A} (here : list ascii -> option A) (l : list ascii) : option A :=
  match here l with
  | Some x => Some x
  | None => match l with [] => None | _ :: l' => first_match_in here l' end
  end.

Definition CDATA_OPEN : list ascii := chars "<![CDATA[".
Definition CDATA_CLOSE : list ascii := chars "]]>".

(** [^<!\[CDATA\[([\s\S]*?)\]\]>$] *)
Definition cdata (v : list ascii) : option (list ascii) :=
  match strip_prefix CDATA_OPEN v with
  | Some r => match strip_prefix (List.rev CDATA_CLOSE) (List.rev r) with
              | Some m => Some (List.rev m)
              | None => None
              end
  | None => None
  end.

Definition firstTag (block : list ascii) (tag : string) : string :=
  match first_match_in (tag_here tag) block with
  | None => ""
  | Some m =>
      let v := trim (text m) in
      trim (match cdata (chars v) with Some c => text c | None => v end)
  end.

(** ** Entities *)

(** [s.replace(/from/g, to)] for a plain text. *)
Fixpoint replace_fuel (fuel : nat) (here : list ascii -> option (list ascii)) (to l : list ascii) : list ascii :=
  match fuel with
  | O => l
  | S fuel => match here l with
              | Some r => (to ++ replace_fuel fuel here to r)%list
              | None => match l with [] => [] | c :: l' => c :: replace_fuel fuel here to l' end
              end
  end.
Definition replace_all (here : list ascii -> option (list ascii)) (to l : list ascii) : list ascii :=
  replace_fuel (S (length l)) here to l.

(** [&#0*39;] *)
Definition apostrophe_ref (l : list ascii) : option (list ascii) :=
  match strip_prefix (chars "&#") l with
  | Some r => strip_prefix (chars "39;") (drop_while (fun c => c ==? "0"%char) r)
  | None => None
  end.

Definition decodeXml (s : string) : string :=
  let l := replace_all (strip_prefix (chars "&lt;")) ["<"%char] (chars s) in
  let l := replace_all (strip_prefix (chars "&gt;")) [">"%char] l in
  let l := replace_all (strip_prefix (chars "&quot;")) [ascii_of_nat 34] l in
  let l := replace_all apostrophe_ref [ascii_of_nat 39] l in
  let l := replace_all (strip_prefix (chars "&apos;")) [ascii_of_nat 39] l in
  text (replace_all (strip_prefix (chars "&amp;")) ["&"%char] l).

(** ** Items *)

Record FeedItem := MkFeedItem {
  fi_guid : string;
  fi_title : string;
  fi_link : string;
  fi_published : option string
}.

(** [<(item|entry)\b[\s\S]*?</\1>], at the head: the block and what follows it. *)
Definition block_here (l : list ascii) : option (list ascii * list ascii) :=
  let with_tag tag :=
    match strip_ci (chars ("<" +:+ tag)) l with
    | Some r =>
        if at_boundary r then
          match split_at_ci (chars ("</" +:+ tag +:+ ">")) r with
          | Some (_, rest) => Some (take (length l - length rest) l, rest)
          | None => None
          end
        else None
    | None => None
    end in
  match with_tag "item" with Some x => Some x | None => with_tag "entry" end.

Fixpoint blocks_fuel (fuel : nat) (l : list ascii) : list (list ascii) :=
  match fuel with
  | O => []
  | S fuel => match block_here l with
              | Some (b, rest) => b :: blocks_fuel fuel rest
              | None => match l with [] => [] | _ :: l' => blocks_fuel fuel l' end
              end
  end.
Definition feed_blocks (xml : string) : list (list ascii) := blocks_fuel (S (String.length xml)) (chars xml).

(** The rest of a link tag: its href attribute, quoted either way. *)
Fixpoint href_in (l : list ascii) : option (list ascii) :=
  let here :=
    match strip_ci (chars "href=") l with
    | Some (q :: r) =>
        let run := take_while (fun c => bool_decide (c ∉ quote_chars)) r in
        if bool_decide (q ∈ quote_chars) && negb (length run =? 0)%nat && (length run <? length r)%nat then Some run else None
    | _ => None
    end in
  match here with
  | Some x => Some x
  | None => match l with c :: l' => if c ==? ">"%char then None else href_in l' | [] => None end
  end.

Definition link_here (l : list ascii) : option (list ascii) :=
  match strip_ci (chars "<link") l with
  | Some r => if at_boundary r then href_in r else None
  | None => None
  end.

(** [a || b] on strings *)
Definition or_else (a b : string) : string := if a ==? "" then b else a.

Definition parse_item (block : list ascii) : option FeedItem :=
  let title := or_else (decodeXml (firstTag block "title")) "(untitled)" in
  let link := decodeXml (firstTag block "link") in
  let link := if link ==? "" then match first_match_in link_here block with Some h => decodeXml (text h) | None => link end
              else link in
  let rawGuid := or_else (firstTag block "guid") (or_else (firstTag block "id") (or_else link title)) in
  let published := or_else (firstTag block "pubDate") (or_else (firstTag block "published") (firstTag block "updated")) in
  let guid := trim (decodeXml rawGuid) in
  if guid ==? "" then None
  else Some (MkFeedItem guid (trim title) (trim link) (trim <$> truthy (Some published))).

Definition parseFeed (xml : string) : list FeedItem := omap parse_item (feed_blocks xml).

Section Fetch.
Context `{FeedUrlApi}.

(** ** The guard *)

(** [\.] after a number: the first two parts of an address. *)
Definition starts_with_any (ps : list string) (host : string) : bool := existsb (fun p => starts_with p host) ps.

(** [^172\.(1[6-9]|2\d|3[01])\.] *)
Definition private_172 (host : string) : bool :=
  match strip_prefix (chars "172.") (chars host) with
  | Some (c1 :: c2 :: c3 :: _) =>
      ((c1 ==? "1"%char) && between 54 57 c2 || (c1 ==? "2"%char) && digit_char c2 || (c1 ==? "3"%char) && between 48 49 c2)
      && (c3 ==? "."%char)
  | _ => false
  end.

(** [^[23][0-9a-f]{3}:], whatever the case *)
Definition global_unicast (host : string) : bool :=
  match chars host with
  | c0 :: c1 :: c2 :: c3 :: c4 :: _ => between 50 51 c0 && hex_char c1 && hex_char c2 && hex_char c3 && (c4 ==? ":"%char)
  | _ => false
  end.

(** Brackets and trailing dots off. *)
Definition bare_host (hostname : string) : string :=
  let l := chars (lower_string hostname) in
  let l := match l with c :: l' => if c ==? "["%char then l' else l | [] => [] end in
  let r := List.rev l in
  let r := match r with c :: r' => if c ==? "]"%char then r' else r | [] => [] end in
  text (List.rev (drop_while (fun c => c ==? "."%char) r)).

Definition allowed_host (host : string) : bool :=
  if host ==? "" then false
  else if bool_decide (":"%char ∈ chars host) then global_unicast host
  else if (host ==? "localhost") || ends_with ".localhost" host || ends_with ".local" host then false
  else if host ==? "0.0.0.0" then false
  else if starts_with "127." host then false
  else if starts_with "10." host || starts_with "192.168." host then false
  else if private_172 host then false
  else negb (starts_with "169.254." host).

Definition isAllowedFeedUrl (raw : string) : bool :=
  match feed_url raw with
  | None => false
  | Some (protocol, hostname) =>
      if negb (protocol ==? "http:") && negb (protocol ==? "https:") then false
      else allowed_host (bare_host hostname)
  end.

Definition REDIRECT_CODES : list Z := [301; 302; 303; 307; 308].

Definition resolveRedirectTarget (currentUrl : string) (location : option string) : option string :=
  match truthy location with
  | None => None
  | Some loc => match feed_resolve loc currentUrl with
                | None => None
                | Some abs => if isAllowedFeedUrl abs then Some abs else None
                end
  end.

(** A response; [fr_declared] is the length it announces, when it is a number. *)
Record FeedResponse := MkFeedResponse {
  fr_status : Z;
  fr_ok : bool;
  fr_location : option string;
  fr_declared : Z;
  fr_text : string
}.

(** The loop from a hop on; [net hop url] is what the network answers, or the
    failure or timeout that ends everything.  The urls fetched, and the body. *)
Fixpoint fetch_from (net : nat -> string -> option FeedResponse) (maxBytes : Z) (left hop : nat) (current : string)
    : list string * option string :=
  match net hop current with
  | None => ([current], None)
  | Some res =>
      if bool_decide (fr_status res ∈ REDIRECT_CODES) then
        match left with
        | O => ([current], None)
        | S left' =>
            match resolveRedirectTarget current (fr_location res) with
            | None => ([current], None)
            | Some next => let '(urls, body) := fetch_from net maxBytes left' (S hop) next in (current :: urls, body)
            end
        end
      else if negb (fr_ok res) then ([current], None)
      else if maxBytes <? fr_declared res then ([current], None)
      else ([current], Some (if maxBytes <? Z.of_nat (String.length (fr_text res))
                             then substring 0 (Z.to_nat maxBytes) (fr_text res) else fr_text res))
  end.

Definition fetchFeedUrlWith (net : nat -> string -> option FeedResponse) (url : string) (maxBytes : Z) (maxRedirects : nat)
    : list string * option string :=
  if isAllowedFeedUrl url then fetch_from net maxBytes maxRedirects O url else ([], None).

Definition fetchFeedUrl (net : nat -> string -> option FeedResponse) (url : string) : list string * option string :=
  fetchFeedUrlWith net url 3000000 5.
End Fetch.

(** ** The tables *)

Record FeedRow := MkFeed {
  fd_id : string;
  fd_fleet : string;
  fd_name : string;
  fd_url : string;
  fd_poll_interval_minutes : Z;
  fd_last_polled_at : option Z;
  fd_created_at : Z;
  fd_created_by : string
}.

Record SeenRow := MkSeen {
  se_feed : string;
  se_guid : string;
  se_title : string;
  se_link : string;
  se_delivered_at : Z
}.

(** [feeds], [feed_subscribers] and [feed_seen], in rowid order. *)
Record FeedDb := MkFeedDb {
  fb_feeds : list FeedRow;
  fb_subscribers : list (string * string);
  fb_seen : list SeenRow
}.

Record FeedWorld := MkFeedWorld { fw_agents : AgentDb; fw_mail : MailDb; fw_feeds : FeedDb }.

Definition with_feeds (f : FeedDb) (w : FeedWorld) : FeedWorld := MkFeedWorld (fw_agents w) (fw_mail w) f.

(** [[...new Set(l)]]: the first occurrences. *)
Definition js_set (l : list string) : list string := List.rev (remove_dups (List.rev l)).

(** The requested agents that are live members of the fleet. *)
Definition valid_subscribers (d : AgentDb) (fleet : string) (ids : list string) : list string :=
  List.filter (fun i => match ad_agents d !! i with Some a => live_member fleet a | None => false end) (js_set ids).

Definition fleet_feed (fleet feedId : string) (f : FeedRow) : bool := (fd_id f ==? feedId) && (fd_fleet f ==? fleet).

Definition createFeed (w : FeedWorld) (now : Z) (feedId fleet operator name url : string) (minutes : Z)
    (subscriberIds : list string) : FeedWorld * list string * list Event :=
  let subs := valid_subscribers (fw_agents w) fleet subscriberIds in
  let f := fw_feeds w in
  (with_feeds (MkFeedDb (fb_feeds f ++ [MkFeed feedId fleet name url minutes None now operator])
                 (fb_subscribers f ++ map (pair feedId) subs) (fb_seen f)) w,
   subs,
   [recordEvent now fleet "feed.created" "operator" (Some operator) "feed" (Some feedId) None
      (JObj [("name", JStr name); ("url", JStr url); ("subscribers", jlist subs)])]).

Definition deleteFeed (w : FeedWorld) (now : Z) (fleet feedId operator : string) : FeedWorld * bool * list Event :=
  let f := fw_feeds w in
  if negb (exists_row (fleet_feed fleet feedId) (fb_feeds f)) then (w, false, [])
  else (with_feeds (MkFeedDb (delete_where (fleet_feed fleet feedId) (fb_feeds f))
                      (delete_where (fun s => fst s ==? feedId) (fb_subscribers f))
                      (delete_where (fun s => se_feed s ==? feedId) (fb_seen f))) w,
        true,
        [recordEvent now fleet "feed.deleted" "operator" (Some operator) "feed" (Some feedId) None (JObj [])]).

Definition setFeedSubscribers (w : FeedWorld) (now : Z) (fleet feedId operator : string) (agentIds : list string)
    : FeedWorld * bool * list Event :=
  let f := fw_feeds w in
  if negb (exists_row (fleet_feed fleet feedId) (fb_feeds f)) then (w, false, [])
  else
    let subs := valid_subscribers (fw_agents w) fleet agentIds in
    (with_feeds (MkFeedDb (fb_feeds f)
                   (delete_where (fun s => fst s ==? feedId) (fb_subscribers f) ++ map (pair feedId) subs) (fb_seen f)) w,
     true,
     [recordEvent now fleet "feed.subscribers_changed" "operator" (Some operator) "feed" (Some feedId) None
        (JObj [("subscribers", jlist subs)])]).

Definition getFeedItems (f : FeedDb) (fleet feedId : string) (limit : nat) : option (list SeenRow) :=
  if exists_row (fleet_feed fleet feedId) (fb_feeds f)
  then Some (take limit (reverse (order_by se_delivered_at (select (fun s => se_feed s ==? feedId) (fb_seen f)))))
  else None.

(** A feed as the operator sees it: its live subscribers, by display name, and its
    count of items. *)
Definition feed_subscribers (d : AgentDb) (f : FeedDb) (feedId : string) : list string :=
  List.filter (fun i => match ad_agents d !! i with Some a => ag_revoked_at a ==? None | None => false end)
    (map snd (select (fun s => fst s ==? feedId) (fb_subscribers f))).

Definition subscriber_names (d : AgentDb) (f : FeedDb) (feedId : string) : list (string * string) :=
  order_by_text snd (omap (fun i => (fun a => (i, ag_display_name a)) <$> ad_agents d !! i) (feed_subscribers d f feedId)).

Definition listFeeds (d : AgentDb) (f : FeedDb) (fleet : string) : list (FeedRow * list (string * string) * nat) :=
  map (fun r => (r, subscriber_names d f (fd_id r), changes (fun s => se_feed s ==? fd_id r) (fb_seen f)))
    (reverse (order_by fd_created_at (select (fun r => fd_fleet r ==? fleet) (fb_feeds f)))).

Definition feedsDueForPoll (f : FeedDb) (now : Z) : list string :=
  map fd_id (select (fun r => match fd_last_polled_at r with
                              | None => true
                              | Some t => fd_poll_interval_minutes r * 60000 <=? now - t
                              end) (fb_feeds f)).

(** ** Polling *)

(** The ids a poll draws, by the index of the item. *)
Record FeedFresh := MkFeedFresh { ff_message : nat -> string; ff_correlation : nat -> string; ff_delivery : nat -> nat -> string }.

(** The text begins with a newspaper sign, outside of the characters of the model:
    [icon]. *)
Definition feed_text (icon feedName : string) (item : FeedItem) : string :=
  icon +:+ " [" +:+ feedName +:+ "] " +:+ fi_title item +:+
  (if fi_link item ==? "" then "" else String (ascii_of_nat 10) (fi_link item)).

Definition feed_ttl : Z := 21600.

Definition deliverFeedItem (icon : string) (d : AgentDb) (m : MailDb) (now : Z) (mid cor : string) (dly : nat -> string)
    (fleet feedId feedName : string) (item : FeedItem) (subscriberIds : list string) : AgentDb * MailDb :=
  let '(d1, senderId) := ensureOperatorAgent d now fleet in
  let about := [("feed", JStr feedName); ("link", JStr (fi_link item))] in
  (d1, queue_message
         (MkMessage mid fleet ("feed-" +:+ feedId) cor senderId "broadcast" None "feed" "low" false
            (JObj (("text", JStr (feed_text icon feedName item)) :: about)) (Some (JObj (("source", JStr "feed") :: about)))
            feed_ttl now (addSeconds now feed_ttl) MQueued)
         dly subscriberIds [] m).

(** The first half of [pollFeed], before the fetch: the feed, stamped. *)
Definition poll_begin_feed (w : FeedWorld) (now : Z) (feedId : string) : FeedWorld * option FeedRow :=
  let f := fw_feeds w in
  match select_one (fun r => fd_id r ==? feedId) (fb_feeds f) with
  | None => (w, None)
  | Some r =>
      let stamp x := MkFeed (fd_id x) (fd_fleet x) (fd_name x) (fd_url x) (fd_poll_interval_minutes x) (Some now)
                       (fd_created_at x) (fd_created_by x) in
      (with_feeds (MkFeedDb (update_where (fun x => fd_id x ==? feedId) stamp (fb_feeds f)) (fb_subscribers f) (fb_seen f)) w,
       Some r)
  end.

Definition seen_item (feedId guid : string) (s : SeenRow) : bool := (se_feed s ==? feedId) && (se_guid s ==? guid).

(** One item of the loop; the world, the items delivered, and the index. *)
Definition poll_item (icon : string) (feed : FeedRow) (now polledAt : Z) (fx : FeedFresh) (isSeeded : bool)
    (subscribers : list string) (acc : FeedWorld * list FeedItem) (item : FeedItem) : FeedWorld * list FeedItem :=
  let '(w, delivered) := acc in
  let f := fw_feeds w in
  if exists_row (seen_item (fd_id feed) (fi_guid item)) (fb_seen f) then (w, delivered)
  else
    let w1 := with_feeds (MkFeedDb (fb_feeds f) (fb_subscribers f)
                (fb_seen f ++ [MkSeen (fd_id feed) (fi_guid item) (fi_title item) (fi_link item) polledAt])) w in
    if isSeeded && negb (length subscribers =? 0)%nat then
      let n := length delivered in
      let '(d, m) := deliverFeedItem icon (fw_agents w1) (fw_mail w1) now (ff_message fx n) (ff_correlation fx n)
                       (ff_delivery fx n) (fd_fleet feed) (fd_id feed) (fd_name feed) item subscribers in
      (MkFeedWorld d m (fw_feeds w1), (delivered ++ [item])%list)
    else (w1, delivered).

Definition FEED_ITEMS_PER_POLL : nat := 25.

(** The second half, with the body: the items delivered and their number in the
    feed.  The transaction throws ([None]) when the feed was deleted meanwhile: a
    seen row needs its feed. *)
Definition poll_finish_feed (icon : string) (w : FeedWorld) (feed : FeedRow) (now polledAt : Z) (fx : FeedFresh)
    (xml : option string) : FeedWorld * option (list FeedItem * nat) * list Event :=
  match truthy xml with
  | None => (w, Some ([], O), [])
  | Some xml =>
      let items := parseFeed xml in
      if (length items =? 0)%nat then (w, Some ([], O), [])
      else if negb (exists_row (fun r => fd_id r ==? fd_id feed) (fb_feeds (fw_feeds w))) then (w, None, [])
      else
        let isSeeded := exists_row (fun s => se_feed s ==? fd_id feed) (fb_seen (fw_feeds w)) in
        let subscribers := feed_subscribers (fw_agents w) (fw_feeds w) (fd_id feed) in
        let '(w', delivered) := foldl (poll_item icon feed now polledAt fx isSeeded subscribers) (w, [])
                                  (take FEED_ITEMS_PER_POLL items) in
        (w', Some (delivered, length items),
         if (length delivered =? 0)%nat then []
         else [recordEvent now (fd_fleet feed) "feed.delivered" "system" None "feed" (Some (fd_id feed))
                 (Some ("feed-" +:+ fd_id feed))
                 (JObj [("feed", JStr (fd_name feed)); ("count", JNum (Z.of_nat (length delivered)))])])
  end.

(** The whole poll when nothing happens during the fetch. *)
Definition pollFeed (icon : string) (w : FeedWorld) (now : Z) (fx : FeedFresh) (feedId : string) (fetchFn : string -> option string)
    : FeedWorld * option (list FeedItem * nat) * list Event :=
  match poll_begin_feed w now feedId with
  | (w1, None) => (w1, Some ([], O), [])
  | (w1, Some feed) => poll_finish_feed icon w1 feed now now fx (fetchFn (fd_url feed))
  end.

(** * Properties of feeds

    Where the relay fetches, how much, and what a poll delivers. *)

(** ** Fetching *)

Section Fetching.
Context `{FeedUrlApi}.

(** Each url after the first is where the answer of the one before it sent the
    fetch. *)
Fixpoint hops_follow (net : nat -> string -> option FeedResponse) (hop : nat) (urls : list string) : Prop :=
  match urls with
  | u :: ((v :: _) as rest) =>
      (exists res, net hop u = Some res /\ fr_status res ∈ REDIRECT_CODES /\ resolveRedirectTarget u (fr_location res) = Some v) /\
      hops_follow net (S hop) rest
  | _ => True
  end.

Lemma length_substring0 n s : (String.length (substring 0 n s) <= n)%nat.
Proof. revert s. induction n as [|n IH]; intros [|c s]; simpl; [lia..|]. specialize (IH s). lia. Qed.

Lemma resolve_allowed cur loc next : resolveRedirectTarget cur loc = Some next -> isAllowedFeedUrl next = true.
Proof.
  unfold resolveRedirectTarget. destruct (truthy loc); [|done]. destruct (feed_resolve _ _) as [u|]; [|done].
  destruct (isAllowedFeedUrl u) eqn:E; [|done]. by intros [= <-].
Qed.

Lemma fetch_from_head net maxBytes left hop cur : exists rest, fst (fetch_from net maxBytes left hop cur) = cur :: rest.
Proof.
  destruct left; simpl; destruct (net hop cur) as [res|]; simpl; eauto; repeat case_match; simpl; eauto.
Qed.

Lemma fetch_from_ok net maxBytes left : 0 <= maxBytes -> forall hop cur urls body,
  isAllowedFeedUrl cur = true -> fetch_from net maxBytes left hop cur = (urls, body) ->
  Forall (fun u => isAllowedFeedUrl u = true) urls /\ (length urls <= S left)%nat /\ hops_follow net hop urls /\
  (forall b, body = Some b -> Z.of_nat (String.length b) <= maxBytes).
Proof.
  intros Hm. induction left as [|left IH]; intros hop cur urls body Hc; simpl; destruct (net hop cur) as [res|] eqn:Hn.
  2,4: intros [= <- <-]; split_and!; simpl; [by constructor|lia|done|done].
  all: case_bool_decide as Hr.
  2,4: destruct (fr_ok res); simpl;
    [destruct (Z.ltb_spec maxBytes (fr_declared res)); [|destruct (Z.ltb_spec maxBytes (Z.of_nat (String.length (fr_text res))))]|];
    intros [= <- <-]; split_and!; simpl; try (by constructor); try lia; try done; intros b [= <-]; try done;
    pose proof (length_substring0 (Z.to_nat maxBytes) (fr_text res)); lia.
  - intros [= <- <-]; split_and!; simpl; [by constructor|lia|done|done].
  - destruct (resolveRedirectTarget cur (fr_location res)) as [next|] eqn:He.
    2:{ intros [= <- <-]; split_and!; simpl; [by constructor|lia|done|done]. }
    pose proof (fetch_from_head net maxBytes left (S hop) next) as [rest Hh].
    destruct (fetch_from net maxBytes left (S hop) next) as [us bd] eqn:Hf. simpl in Hh. subst us. intros [= <- <-].
    apply IH in Hf as (Ha & Hl & Hfo & Hb); [|by eapply resolve_allowed].
    split_and!; [by constructor|simpl in *; lia| |done]. split; [|done]. eauto.
Qed.

(** Fetching a feed: every address fetched passes the guard, each one after the
    first is where the previous answer redirected to, there are at most one more
    fetches than redirects allowed, the body kept fits the size cap, and there is
    none when the address given does not pass the guard. *)
Theorem fetches_stay_guarded net url maxBytes maxRedirects urls body :
  0 <= maxBytes ->
  fetchFeedUrlWith net url maxBytes maxRedirects = (urls, body) ->
  Forall (fun u => isAllowedFeedUrl u = true) urls /\
  (length urls <= S maxRedirects)%nat /\
  hops_follow net 0 urls /\
  (forall b, body = Some b -> Z.of_nat (String.length b) <= maxBytes /\ isAllowedFeedUrl url = true).
Proof.
  intros Hm. unfold fetchFeedUrlWith. destruct (isAllowedFeedUrl url) eqn:E.
  - intros Hf. apply fetch_from_ok in Hf as (? & ? & ? & Hb); [|done..]. split_and!; [done..|]. intros b Hbb. split; [by apply Hb|done].
  - intros [= <- <-]. split_and!; [done|simpl; lia|done|done].
Qed.
End Fetching.

(** A plain reading of absolute urls, enough for examples. *)
Definition simple_feed_urls : FeedUrlApi :=
  {| feed_url s := match strip_prefix (chars "http://") (chars s) with
                   | Some r => Some ("http:", text (take_while not_slash r))
                   | None => None
                   end;
     feed_resolve loc base := Some loc |}.

Definition bounce (to : string) : FeedResponse := MkFeedResponse 302 false (Some to) 0 "".
Definition page (body : string) : FeedResponse := MkFeedResponse 200 true None 0 body.

Definition redirecting_net (hop : nat) (url : string) : option FeedResponse :=
  if url ==? "http://news.example/rss" then Some (bounce "http://www.news.example/rss")
  else if url ==? "http://www.news.example/rss" then Some (page "<rss/>")
  else Some (bounce "http://127.0.0.1/").

Lemma fetches_stay_guarded_witness :
  length (fst (@fetchFeedUrlWith simple_feed_urls redirecting_net "http://news.example/rss" 4 5)) = 2%nat /\
  snd (@fetchFeedUrlWith simple_feed_urls redirecting_net "http://news.example/rss" 4 5) = Some "<rss" /\
  @fetchFeedUrlWith simple_feed_urls redirecting_net "http://other.example/" 4 5 = (["http://other.example/"], None) /\
  (length (fst (@fetchFeedUrlWith simple_feed_urls redirecting_net "http://news.example/rss" 4 5)) <= 6)%nat.
Proof.
  split_and!; [reflexivity..|].
  destruct (@fetches_stay_guarded simple_feed_urls redirecting_net "http://news.example/rss" 4 5
    _ _ ltac:(lia) (surjective_pairing _)) as (_ & Hl & _). exact Hl.
Defined.

(** ** The guard on IPv4 addresses *)

(** An IPv4 host as a parsed URL writes it. *)
Definition octet (n : Z) : list ascii := chars (stringify_nat n).
Definition dotted (a b c d : Z) : string :=
  text (octet a ++ "."%char :: octet b ++ "."%char :: octet c ++ "."%char :: octet d)%list.

Definition is_octet (n : Z) : Prop := 0 <= n < 256.

(** The addresses the guard means to keep out: this host, loopback, the private
    ranges and the link-local ones. *)
Definition refused_ipv4 (a b c d : Z) : bool :=
  (a =? 127) || (a =? 10) || (a =? 192) && (b =? 168) || (a =? 172) && (16 <=? b) && (b <=? 31)
  || (a =? 169) && (b =? 254) || (a =? 0) && (b =? 0) && (c =? 0) && (d =? 0).

Lemma octets_forall (P : Z -> bool) : forallb P (map Z.of_nat (seq 0 256)) = true -> forall n, is_octet n -> P n = true.
Proof.
  intros Hf n [H0 H1]. rewrite forallb_forall in Hf. apply Hf, in_map_iff. exists (Z.to_nat n).
  split; [lia|]. apply in_seq. lia.
Qed.

Lemma octet_digits n c : is_octet n -> c ∈ octet n -> digit_char c = true.
Proof.
  intros Hn Hc. pose proof (octets_forall (fun n => forallb digit_char (octet n)) ltac:(vm_compute; reflexivity) n Hn) as Hd.
  simpl in Hd. rewrite forallb_forall in Hd. by apply Hd, list_elem_of_In.
Qed.

Lemma octet_nonempty n : is_octet n -> exists c l, octet n = c :: l /\ digit_char c = true.
Proof.
  intros Hn. pose proof (octets_forall (fun n => match octet n with c :: _ => digit_char c | [] => false end)
    ltac:(vm_compute; reflexivity) n Hn) as Hd. simpl in Hd. destruct (octet n); [done|eauto].
Qed.

Definition octet_value (l : list ascii) : Z := fold_left (fun v c => 10 * v + Z.of_nat (nat_of_ascii c) - 48) l 0.

Lemma octet_value_of n : is_octet n -> octet_value (octet n) = n.
Proof.
  intros Hn. apply Z.eqb_eq. revert n Hn. apply octets_forall. vm_compute. reflexivity.
Qed.

Lemma octet_inj n k : is_octet n -> is_octet k -> octet n = octet k -> n = k.
Proof. intros Hn Hk He. rewrite <- (octet_value_of n), <- (octet_value_of k) by done. by rewrite He. Qed.

Lemma octet_is n k : is_octet n -> is_octet k -> bool_decide (octet k = octet n) = (n =? k).
Proof.
  intros Hn Hk. case_bool_decide as He; destruct (Z.eqb_spec n k); [done| |by subst|done].
  symmetry in He. by apply octet_inj in He.
Qed.

(** A prefix of whole numbers and dots is compared number by number. *)
Lemma strip_number p s p' rest : (forall c, c ∈ p -> digit_char c = true) -> (forall c, c ∈ s -> digit_char c = true) ->
  strip_prefix (p ++ "."%char :: p') (s ++ "."%char :: rest) = if bool_decide (p = s) then strip_prefix p' rest else None.
Proof.
  assert (Hdot : forall c, digit_char c = true -> (c ==? "."%char) = false /\ ("."%char ==? c) = false).
  { intros c Hc. split; apply bool_decide_false; intros He; subst c; by vm_compute in Hc. }
  revert s. induction p as [|c p IH]; intros [|d s] Hp Hs; cbn [Datatypes.app strip_prefix].
  - reflexivity.
  - destruct (Hdot d) as [_ Hd]; [apply Hs; by left|]. by rewrite Hd.
  - destruct (Hdot c) as [Hc _]; [apply Hp; by left|]. by rewrite Hc.
  - destruct (decide (c = d)) as [->|Hn].
    + rewrite (bool_decide_true (d = d)) by done. rewrite IH; [|intros ? ?; apply Hp; by right|intros ? ?; apply Hs; by right].
      case_bool_decide; case_bool_decide; congruence.
    + rewrite (bool_decide_false (c = d)) by done. rewrite bool_decide_false by congruence. done.
Qed.

Section Dotted.
Variables (a b c d : Z) (Ha : is_octet a) (Hb : is_octet b) (Hc : is_octet c) (Hd : is_octet d).
Let host := dotted a b c d.

Lemma chars_dotted : chars host = (octet a ++ "."%char :: octet b ++ "."%char :: octet c ++ "."%char :: octet d)%list.
Proof. apply chars_text. Qed.

Lemma strip_octet n k p rest : is_octet n -> is_octet k ->
  strip_prefix (octet n ++ "."%char :: p) (octet k ++ "."%char :: rest) = if k =? n then strip_prefix p rest else None.
Proof.
  intros Hn Hk. rewrite strip_number by (intros ? ?; first [by apply (octet_digits n)|by apply (octet_digits k)]). rewrite octet_is by done.
  by rewrite Z.eqb_sym.
Qed.

Lemma starts_first p n : is_octet n -> chars p = (octet n ++ ["."%char])%list -> starts_with p host = (a =? n).
Proof.
  intros Hn Hp. unfold starts_with. rewrite Hp, chars_dotted, strip_octet by done. simpl strip_prefix.
  by destruct (a =? n).
Qed.

Lemma starts_two p n k : is_octet n -> is_octet k -> chars p = (octet n ++ "."%char :: octet k ++ ["."%char])%list ->
  starts_with p host = (a =? n) && (b =? k).
Proof.
  intros Hn Hk Hp. unfold starts_with. rewrite Hp, chars_dotted, !strip_octet by done. simpl strip_prefix.
  by destruct (a =? n), (b =? k).
Qed.

Lemma dotted_chars x : x ∈ chars host -> digit_char x = true \/ x = "."%char.
Proof.
  rewrite chars_dotted. rewrite !elem_of_app, !elem_of_cons, !elem_of_app, !elem_of_cons, !elem_of_app, !elem_of_cons.
  intros Hx. destruct_or! Hx; (try by right); left; first [by apply (octet_digits a)|by apply (octet_digits b)|by apply (octet_digits c)|by apply (octet_digits d)].
Qed.

Lemma dotted_ends p x l : List.rev (chars p) = x :: l -> digit_char x = false -> ends_with p host = false.
Proof.
  intros Hp Hx. unfold ends_with. rewrite Hp, chars_dotted. apply bool_decide_false. intros [r Hr].
  replace (octet a ++ _)%list
    with ((octet a ++ "."%char :: octet b ++ "."%char :: octet c ++ ["."%char]) ++ octet d)%list in Hr.
  2:{ by repeat (rewrite <- app_assoc; cbn [Datatypes.app]). }
  rewrite List.rev_app_distr in Hr.
  destruct (List.rev (octet d)) as [|y r'] eqn:He.
  { destruct (octet_nonempty d Hd) as (z & l' & Hz & _). rewrite Hz in He. simpl in He. by destruct (List.rev l'). }
  assert (Hy : digit_char y = true).
  { apply (octet_digits d); [done|]. apply list_elem_of_In, in_rev. rewrite He. by left. }
  cbn [Datatypes.app strip_prefix] in Hr. rewrite bool_decide_false in Hr by congruence. done.
Qed.

Lemma dotted_not s x : x ∈ chars s -> digit_char x = false -> x <> "."%char -> host <> s.
Proof. intros Hx Hd' Hn <-. apply dotted_chars in Hx as [?|?]; congruence. Qed.

Lemma dotted_zero : bool_decide (host = "0.0.0.0") = (a =? 0) && (b =? 0) && (c =? 0) && (d =? 0).
Proof.
  case_bool_decide as He.
  - assert (Hs : strip_prefix (octet 0 ++ "."%char :: octet 0 ++ "."%char :: octet 0 ++ ["."%char]) (chars host) = Some (octet 0)).
    { rewrite He. vm_compute. reflexivity. }
    rewrite chars_dotted, !strip_octet in Hs by done. destruct (a =? 0), (b =? 0), (c =? 0); try done. simpl in Hs |- *.
    symmetry. apply Z.eqb_eq, octet_inj; [done|done|congruence].
  - symmetry. apply not_true_iff_false. rewrite !andb_true_iff, !Z.eqb_eq. intros [[[-> ->] ->] ->]. by apply He.
Qed.

Lemma dotted_172 : private_172 host = (a =? 172) && (16 <=? b) && (b <=? 31).
Proof.
  unfold private_172. replace (chars "172.") with (octet 172 ++ ["."%char])%list by (vm_compute; reflexivity).
  rewrite chars_dotted, strip_octet by done. destruct (a =? 172); [|done]. cbn [andb strip_prefix].
  pose (P := (fun b => match (octet b ++ ["."%char])%list with
    | c1 :: c2 :: c3 :: _ => bool_decide (
       ((c1 ==? "1"%char) && between 54 57 c2 || (c1 ==? "2"%char) && digit_char c2 || (c1 ==? "3"%char) && between 48 49 c2)
       && (c3 ==? "."%char) = (16 <=? b) && (b <=? 31))
    | [c1; c2] => (c2 ==? "."%char) && negb ((16 <=? b) && (b <=? 31))
    | _ => false end) : Z -> bool).
  pose proof (octets_forall P ltac:(vm_compute; reflexivity) b Hb) as Hf. subst P. cbv beta in Hf.
  destruct (octet_nonempty c Hc) as (z & l' & Hz & Hzd). rewrite Hz.
  destruct (octet b) as [|c1 [|c2 [|c3 l]]]; cbn [Datatypes.app] in Hf |- *; [done| |by apply bool_decide_eq_true in Hf..].
  apply andb_true_iff in Hf as [_ Hf]. apply negb_true_iff in Hf. rewrite Hf.
  replace (between 54 57 ".") with false by reflexivity. replace (digit_char ".") with false by reflexivity.
  replace (between 48 49 ".") with false by reflexivity. rewrite !andb_false_r. done.
Qed.
End Dotted.

(** For a host that is an IPv4 address, in the dotted form a parsed URL gives it,
    the textual guard of the feeds decides exactly the numeric ranges it names: it
    refuses 0.0.0.0, 127.0.0.0/8, 10.0.0.0/8, 172.16.0.0/12, 192.168.0.0/16 and
    169.254.0.0/16, and lets every other address through. *)
Theorem ipv4_guard_is_its_ranges a b c d :
  is_octet a -> is_octet b -> is_octet c -> is_octet d ->
  allowed_host (dotted a b c d) = negb (refused_ipv4 a b c d).
Proof.
  intros Ha Hb Hc Hd. unfold allowed_host, refused_ipv4.
  rewrite (bool_decide_false (dotted a b c d = "")).
  2:{ destruct (octet_nonempty a Ha) as (x & l & Hx & _). unfold dotted. by rewrite Hx. }
  rewrite (bool_decide_false (":"%char ∈ _)).
  2:{ intros Hx. apply dotted_chars in Hx as [Hx|Hx]; [by vm_compute in Hx|done..]. }
  rewrite (bool_decide_false (dotted a b c d = "localhost")).
  2:{ eapply (dotted_not a b c d Ha Hb Hc Hd _ "l"%char); [by left|reflexivity|done]. }
  rewrite (dotted_ends a b c d Hd ".localhost" "t"%char _ eq_refl eq_refl).
  rewrite (dotted_ends a b c d Hd ".local" "l"%char _ eq_refl eq_refl).
  rewrite dotted_zero, dotted_172 by done.
  rewrite (starts_first a b c d Ha "127." 127), (starts_first a b c d Ha "10." 10) by done.
  rewrite (starts_two a b c d Ha Hb "192.168." 192 168), (starts_two a b c d Ha Hb "169.254." 169 254) by done.
  simpl orb. unfold implb. destruct ((a =? 0) && (b =? 0) && (c =? 0) && (d =? 0)); [by rewrite !orb_true_r|].
  rewrite !orb_false_r. destruct (a =? 127); [done|]. destruct (a =? 10), ((a =? 192) && (b =? 168)); try done.
  cbn [orb]. by destruct ((a =? 172) && (16 <=? b) && (b <=? 31)).
Qed.

Lemma ipv4_guard_is_its_ranges_witness :
  allowed_host (dotted 172 31 255 255) = false /\ allowed_host (dotted 172 32 0 0) = true /\
  allowed_host (dotted 172 32 0 0) = negb (refused_ipv4 172 32 0 0).
Proof. split_and!; [vm_compute; reflexivity..|]. apply ipv4_guard_is_its_ranges; split; lia. Defined.

(** What "only public addresses" leaves in: the shared range 100.64.0.0/10, where a
    tailnet lives, 0.0.0.0/8 but for its first address, and the IPv6 addresses that
    embed an IPv4 one in their 6to4 form. *)
Example guard_lets_tailnet_and_6to4_through :
  allowed_host (dotted 100 64 0 1) = true /\ allowed_host (dotted 0 0 0 1) = true /\
  allowed_host "2002:7f00:1::" = true /\ allowed_host "::ffff:7f00:1" = false.
Proof. vm_compute. done. Qed.

(** ** Polling *)

(** The guids a feed has seen. *)
Definition seen_guids (w : FeedWorld) (feedId : string) : list string :=
  map se_guid (select (fun s => se_feed s ==? feedId) (fb_seen (fw_feeds w))).

(** The items of a list not seen before it, each guid once. *)
Fixpoint fresh_items (seen : list string) (items : list FeedItem) : list FeedItem :=
  match items with
  | [] => []
  | i :: rest => if bool_decide (fi_guid i ∈ seen) then fresh_items seen rest else i :: fresh_items (seen ++ [fi_guid i])%list rest
  end.

Definition feed_message (icon : string) (feed : FeedRow) (now : Z) (fx : FeedFresh) (n : nat) (item : FeedItem) : MessageRow :=
  let about := [("feed", JStr (fd_name feed)); ("link", JStr (fi_link item))] in
  MkMessage (ff_message fx n) (fd_fleet feed) ("feed-" +:+ fd_id feed) (ff_correlation fx n) (operator_agent (fd_fleet feed))
    "broadcast" None "feed" "low" false (JObj (("text", JStr (feed_text icon (fd_name feed) item)) :: about))
    (Some (JObj (("source", JStr "feed") :: about))) feed_ttl now (addSeconds now feed_ttl) MQueued.

Definition feed_deliveries (now : Z) (fx : FeedFresh) (subscribers : list string) (n : nat) : list DeliveryRow :=
  queued_deliveries (ff_message fx n) now (ff_delivery fx n) subscribers.

(** What [k] deliveries add to a mailbox, from the [n]th on. *)
Fixpoint feed_mail (icon : string) (feed : FeedRow) (now : Z) (fx : FeedFresh) (subscribers : list string) (n : nat)
    (items : list FeedItem) (m : MailDb) : MailDb :=
  match items with
  | [] => m
  | i :: rest => feed_mail icon feed now fx subscribers (S n) rest
                   (with_deliveries (md_deliveries m ++ feed_deliveries now fx subscribers n)%list
                      (with_messages (md_messages m ++ [feed_message icon feed now fx n i])%list m))
  end.

Lemma exists_seen_item f feedId guid :
  exists_row (seen_item feedId guid) (fb_seen f) =
  bool_decide (guid ∈ map se_guid (select (fun s => se_feed s ==? feedId) (fb_seen f))).
Proof.
  apply eq_true_iff_eq. rewrite bool_decide_eq_true, exists_row_true, list_elem_of_fmap. unfold seen_item.
  setoid_rewrite andb_true_iff. setoid_rewrite bool_decide_eq_true. setoid_rewrite elem_of_select.
  setoid_rewrite bool_decide_eq_true. naive_solver.
Qed.

Definition seen_row (feed : FeedRow) (polledAt : Z) (i : FeedItem) : SeenRow :=
  MkSeen (fd_id feed) (fi_guid i) (fi_title i) (fi_link i) polledAt.

Lemma ensureOperatorAgent_again d now fleet :
  fst (ensureOperatorAgent (fst (ensureOperatorAgent d now fleet)) now fleet) = fst (ensureOperatorAgent d now fleet).
Proof.
  unfold ensureOperatorAgent at 2 3. destruct (ad_agents d !! operator_agent fleet) eqn:E; simpl.
  - unfold ensureOperatorAgent. by rewrite E.
  - unfold ensureOperatorAgent. simpl. by rewrite lookup_insert_eq.
Qed.

Section Fold.
Variables (icon : string) (feed : FeedRow) (now polledAt : Z) (fx : FeedFresh) (isSeeded : bool) (subscribers : list string).
Let sends : bool := isSeeded && negb (length subscribers =? 0)%nat.

Lemma poll_item_eq w delivered i :
  poll_item icon feed now polledAt fx isSeeded subscribers (w, delivered) i =
  if bool_decide (fi_guid i ∈ seen_guids w (fd_id feed)) then (w, delivered)
  else
    let f := fw_feeds w in
    let f' := MkFeedDb (fb_feeds f) (fb_subscribers f) (fb_seen f ++ [seen_row feed polledAt i])%list in
    if sends then
      (MkFeedWorld (fst (ensureOperatorAgent (fw_agents w) now (fd_fleet feed)))
         (feed_mail icon feed now fx subscribers (length delivered) [i] (fw_mail w)) f', (delivered ++ [i])%list)
    else (MkFeedWorld (fw_agents w) (fw_mail w) f', delivered).
Proof.
  unfold poll_item. rewrite exists_seen_item. fold (seen_guids w (fd_id feed)).
  case_bool_decide; [done|]. fold sends. destruct sends; [|done].
  unfold deliverFeedItem, ensureOperatorAgent. simpl. by destruct (ad_agents (fw_agents w) !! _).
Qed.

Lemma seen_guids_snoc w i x y :
  seen_guids (MkFeedWorld x y (MkFeedDb (fb_feeds (fw_feeds w)) (fb_subscribers (fw_feeds w))
    (fb_seen (fw_feeds w) ++ [seen_row feed polledAt i])%list)) (fd_id feed) = (seen_guids w (fd_id feed) ++ [fi_guid i])%list.
Proof.
  unfold seen_guids, select. simpl. rewrite List.filter_app, map_app. simpl. by rewrite bool_decide_true.
Qed.

(** What the loop of a poll does to each table. *)
Lemma poll_fold items : forall w delivered w' delivered',
  foldl (poll_item icon feed now polledAt fx isSeeded subscribers) (w, delivered) items = (w', delivered') ->
  let fresh := fresh_items (seen_guids w (fd_id feed)) items in
  let sent := if sends then fresh else [] in
  delivered' = (delivered ++ sent)%list /\
  fw_mail w' = feed_mail icon feed now fx subscribers (length delivered) sent (fw_mail w) /\
  fw_feeds w' = MkFeedDb (fb_feeds (fw_feeds w)) (fb_subscribers (fw_feeds w))
    (fb_seen (fw_feeds w) ++ map (seen_row feed polledAt) fresh)%list /\
  fw_agents w' = match sent with [] => fw_agents w | _ => fst (ensureOperatorAgent (fw_agents w) now (fd_fleet feed)) end.
Proof.
  induction items as [|i items IH]; intros w delivered w' delivered'; cbn [foldl].
  - intros [= <- <-]. destruct w as [? ? []]. cbn. destruct sends; cbn; rewrite !app_nil_r; by split_and!.
  - rewrite poll_item_eq. cbn [fresh_items]. case_bool_decide as Hs; [apply IH|].
    simpl. destruct sends eqn:Hsd.
    + intros Hf. apply IH in Hf as (-> & -> & -> & ->). rewrite seen_guids_snoc. simpl.
      rewrite <- !app_assoc, length_app, Nat.add_1_r. simpl. split_and!; try done.
      destruct (fresh_items _ items); [done|]. apply ensureOperatorAgent_again.
    + intros Hf. apply IH in Hf as (-> & -> & -> & ->). rewrite seen_guids_snoc. simpl.
      rewrite <- !app_assoc. by split_and!.
Qed.
End Fold.

Lemma fresh_items_spec items : forall seen,
  NoDup (map fi_guid (fresh_items seen items)) /\ Forall (fun i => i ∈ items /\ (fi_guid i ∉ seen)) (fresh_items seen items).
Proof.
  induction items as [|i items IH]; intros seen; simpl; [split; constructor|]. case_bool_decide as Hs.
  - destruct (IH seen) as [Hd Hf]. split; [done|]. eapply Forall_impl; [done|]. intros x [? ?]. split; [by right|done].
  - destruct (IH (seen ++ [fi_guid i])%list) as [Hd Hf]. rewrite Forall_forall in Hf. simpl. split.
    + constructor; [|done]. intros (x & Hx & Hin)%list_elem_of_fmap. apply Hf in Hin as [_ Hn]. rewrite <- Hx in Hn.
      apply Hn, elem_of_app. right. by left.
    + constructor; [by split; [left|]|]. apply Forall_forall. intros x Hx. apply Hf in Hx as [? Hn].
      split; [by right|]. intros ?. apply Hn, elem_of_app. by left.
Qed.

Lemma is_seeded w feedId :
  exists_row (fun s => se_feed s ==? feedId) (fb_seen (fw_feeds w)) = negb (bool_decide (seen_guids w feedId = [])).
Proof.
  unfold seen_guids, select, exists_row. induction (fb_seen (fw_feeds w)) as [|s l IH]; [done|]. simpl.
  destruct (se_feed s ==? feedId); [done|apply IH].
Qed.

(** What a poll sends: the first 25 items it has not seen, when the feed was polled
    before and has a live subscriber. *)
Definition poll_sends (w : FeedWorld) (feed : FeedRow) (xml : string) : list FeedItem :=
  if bool_decide (seen_guids w (fd_id feed) = []) || bool_decide (feed_subscribers (fw_agents w) (fw_feeds w) (fd_id feed) = [])
  then []
  else fresh_items (seen_guids w (fd_id feed)) (take 25 (parseFeed xml)).

Lemma poll_finish_eq icon w feed now polledAt fx xml w' delivered n evs :
  xml <> "" ->
  poll_finish_feed icon w feed now polledAt fx (Some xml) = (w', Some (delivered, n), evs) ->
  let fresh := fresh_items (seen_guids w (fd_id feed)) (take 25 (parseFeed xml)) in
  let subscribers := feed_subscribers (fw_agents w) (fw_feeds w) (fd_id feed) in
  delivered = poll_sends w feed xml /\ n = length (parseFeed xml) /\
  fw_mail w' = feed_mail icon feed now fx subscribers 0 delivered (fw_mail w) /\
  fb_seen (fw_feeds w') = (fb_seen (fw_feeds w) ++ map (seen_row feed polledAt) fresh)%list /\
  (forall i, i ∈ subscribers -> exists a, ad_agents (fw_agents w) !! i = Some a /\ ag_revoked_at a = None) /\
  (evs = [] <-> delivered = []).
Proof.
  intros Hx. unfold poll_finish_feed. simpl. rewrite (bool_decide_false (xml = "")) by done. unfold poll_sends.
  assert (Hsub : forall i, i ∈ feed_subscribers (fw_agents w) (fw_feeds w) (fd_id feed) ->
    exists a, ad_agents (fw_agents w) !! i = Some a /\ ag_revoked_at a = None).
  { intros i Hi. apply elem_of_where in Hi as [_ Hi]. destruct (ad_agents (fw_agents w) !! i) as [a|]; [|done].
    exists a. split; [done|by apply bool_decide_eq_true in Hi]. }
  destruct (Nat.eqb_spec (length (parseFeed xml)) 0) as [He|He].
  { intros [= <- <- <- <-]. apply length_zero_iff_nil in He. rewrite He. simpl. rewrite app_nil_r.
    split_and!; try done. by destruct (_ || _). }
  destruct (exists_row _ (fb_feeds _)); [|done]. rewrite is_seeded.
  destruct (foldl _ _ _) as [w2 d2] eqn:Hf. intros [= -> -> <- <-].
  apply poll_fold in Hf as (Hd & -> & Hs & _). simpl in Hd. rewrite Hs. simpl in *.
  assert (Hl : forall l : list string, (length l =? 0)%nat = bool_decide (l = [])).
  { intros []; [done|]. symmetry. by apply bool_decide_false. }
  rewrite Hl, <- negb_orb in *. split_and!; try done.
  - rewrite Hd. by destruct (_ || _).
  - by rewrite <- Hd.
  - destruct delivered; simpl; split; intros; done.
Qed.

(** A poll that got a body delivers exactly the items, among the first 25 of the
    feed, whose guid the feed has not seen, each once: as a low-priority broadcast of
    the operator agent with one queued delivery for each subscriber that is not
    revoked, and to nobody else.  The first poll of a feed, and one without
    subscribers, delivers nothing; every new item is marked seen all the same. *)
Theorem poll_delivers_new_items icon w feed now polledAt fx xml w' delivered n evs :
  xml <> "" ->
  poll_finish_feed icon w feed now polledAt fx (Some xml) = (w', Some (delivered, n), evs) ->
  let fresh := fresh_items (seen_guids w (fd_id feed)) (take 25 (parseFeed xml)) in
  let subscribers := feed_subscribers (fw_agents w) (fw_feeds w) (fd_id feed) in
  delivered = poll_sends w feed xml /\ n = length (parseFeed xml) /\
  fw_mail w' = feed_mail icon feed now fx subscribers 0 delivered (fw_mail w) /\
  fb_seen (fw_feeds w') = (fb_seen (fw_feeds w) ++ map (seen_row feed polledAt) fresh)%list /\
  (forall i, i ∈ subscribers -> exists a, ad_agents (fw_agents w) !! i = Some a /\ ag_revoked_at a = None) /\
  (evs = [] <-> delivered = []).
Proof. apply poll_finish_eq. Qed.

(** ** Runs of the feeds *)

(** What happens to the feeds: the operator's calls, the two halves of a poll, which
    may belong to any feed row and come in any order, and everything else the relay
    does to its agents and its mailbox. *)
Inductive feed_op :=
  | FeedCreate (now : Z) (feedId fleet operator name url : string) (minutes : Z) (subscriberIds : list string)
  | FeedDelete (now : Z) (fleet feedId operator : string)
  | FeedSubscribe (now : Z) (fleet feedId operator : string) (agentIds : list string)
  | FeedPollBegin (now : Z) (feedId : string)
  | FeedPollFinish (icon : string) (feed : FeedRow) (now polledAt : Z) (fx : FeedFresh) (xml : option string)
  | FeedElse (d : AgentDb) (m : MailDb).

(** A step, and the items it delivers, with the feed of each. *)
Definition feed_step (w : FeedWorld) (op : feed_op) : FeedWorld * list (string * string) :=
  match op with
  | FeedCreate now feedId fleet operator name url minutes ids =>
      (fst (fst (createFeed w now feedId fleet operator name url minutes ids)), [])
  | FeedDelete now fleet feedId operator => (fst (fst (deleteFeed w now fleet feedId operator)), [])
  | FeedSubscribe now fleet feedId operator ids => (fst (fst (setFeedSubscribers w now fleet feedId operator ids)), [])
  | FeedPollBegin now feedId => (fst (poll_begin_feed w now feedId), [])
  | FeedPollFinish icon feed now polledAt fx xml =>
      match poll_finish_feed icon w feed now polledAt fx xml with
      | (w', Some (delivered, _), _) => (w', map (fun i => (fd_id feed, fi_guid i)) delivered)
      | (w', None, _) => (w', [])
      end
  | FeedElse d m => (MkFeedWorld d m (fw_feeds w), [])
  end.

Fixpoint feed_run (w : FeedWorld) (ops : list feed_op) : FeedWorld * list (string * string) :=
  match ops with
  | [] => (w, [])
  | op :: ops' =>
      let '(w1, sent) := feed_step w op in
      let '(w2, more) := feed_run w1 ops' in
      (w2, (sent ++ more)%list)
  end.

Definition deletes_feed (feedId : string) (op : feed_op) : bool :=
  match op with FeedDelete _ _ f _ => f ==? feedId | _ => false end.

(** The guids of one feed among the items delivered. *)
Definition delivered_of (feedId : string) (sent : list (string * string)) : list string :=
  map snd (List.filter (fun p => fst p ==? feedId) sent).

Lemma delivered_of_app feedId s t : delivered_of feedId (s ++ t) = (delivered_of feedId s ++ delivered_of feedId t)%list.
Proof. unfold delivered_of. by rewrite List.filter_app, map_app. Qed.

Lemma delivered_of_map feedId id (items : list FeedItem) :
  delivered_of feedId (map (fun i => (id, fi_guid i)) items) = if id ==? feedId then map fi_guid items else [].
Proof.
  unfold delivered_of. induction items as [|i l IH]; simpl; [by case_bool_decide|].
  case_bool_decide; simpl; [by f_equal|done].
Qed.

Lemma seen_of_rows feedId feed polledAt fresh (l : list SeenRow) :
  map se_guid (select (fun s => se_feed s ==? feedId) (l ++ map (seen_row feed polledAt) fresh)) =
  (map se_guid (select (fun s => se_feed s ==? feedId) l) ++ if fd_id feed ==? feedId then map fi_guid fresh else [])%list.
Proof.
  unfold select. rewrite List.filter_app, map_app. f_equal. induction fresh as [|i r IH]; simpl; [by case_bool_decide|].
  case_bool_decide; simpl; [by f_equal|done].
Qed.

(** A step sends items not seen before it, each once, and they are seen after it. *)
Lemma feed_step_fresh w op w' sent feedId :
  deletes_feed feedId op = false -> feed_step w op = (w', sent) ->
  NoDup (delivered_of feedId sent) /\
  (forall g, g ∈ delivered_of feedId sent -> (g ∉ seen_guids w feedId) /\ g ∈ seen_guids w' feedId) /\
  (forall g, g ∈ seen_guids w feedId -> g ∈ seen_guids w' feedId).
Proof.
  intros Hd. assert (Hquiet : forall w', seen_guids w' feedId = seen_guids w feedId ->
    NoDup (delivered_of feedId []) /\ (forall g, g ∈ delivered_of feedId [] -> (g ∉ seen_guids w feedId) /\ g ∈ seen_guids w' feedId) /\
    (forall g, g ∈ seen_guids w feedId -> g ∈ seen_guids w' feedId)).
  { intros w2 He. rewrite He. split_and!; [constructor|by intros g ?%elem_of_nil|done]. }
  destruct op; simpl in Hd |- *.
  - intros [= <- <-]. by apply Hquiet.
  - intros [= <- <-]. apply Hquiet. unfold deleteFeed. destruct (negb _); [done|]. unfold seen_guids, select, delete_where. simpl.
    f_equal. rewrite filter_filter. apply filter_ext'. intros s. apply bool_decide_eq_false in Hd.
    do 2 case_bool_decide; simpl; congruence.
  - intros [= <- <-]. apply Hquiet. unfold setFeedSubscribers. by destruct (negb _).
  - intros [= <- <-]. apply Hquiet. unfold poll_begin_feed. by destruct (select_one _ _).
  - destruct (poll_finish_feed icon w feed now polledAt fx xml) as [[w2 [[dl n]|]] evs] eqn:Hf; intros [= <- <-].
    + destruct xml as [xml|]; [|simpl in Hf; injection Hf as -> <- _; by apply Hquiet].
      destruct (decide (xml = "")) as [->|Hx]; [simpl in Hf; injection Hf as -> <- _; by apply Hquiet|].
      apply poll_finish_eq in Hf as (Hdl & _ & _ & Hs & _); [|done]. rewrite delivered_of_map.
      destruct (fresh_items_spec (take 25 (parseFeed xml)) (seen_guids w (fd_id feed))) as [Hnd Hfr].
      rewrite Forall_forall in Hfr.
      pose proof (seen_of_rows feedId feed polledAt (fresh_items (seen_guids w (fd_id feed)) (take 25 (parseFeed xml)))
        (fb_seen (fw_feeds w))) as Hw. rewrite <- Hs in Hw. fold (seen_guids w2 feedId) (seen_guids w feedId) in Hw. rewrite Hw.
      case_bool_decide as Hid; [|split_and!; [constructor|by intros g ?%elem_of_nil|intros g Hg; by rewrite app_nil_r]].
      subst feedId. unfold poll_sends in Hdl. split_and!.
      * rewrite Hdl. destruct (_ || _); [constructor|done].
      * intros g Hg. rewrite Hdl in Hg. destruct (_ || _); [by apply elem_of_nil in Hg|].
        split; [|by apply elem_of_app; right]. apply list_elem_of_fmap in Hg as (i & -> & Hi). by apply Hfr in Hi as [_ ?].
      * intros g Hg. apply elem_of_app. by left.
    + apply Hquiet. unfold poll_finish_feed in Hf. repeat case_match; try done; by injection Hf as ->.
  - intros [= <- <-]. by apply Hquiet.
Qed.

(** However the polls of a feed interleave, with each other, with changes of its
    subscribers and with everything else the relay does, each item of the feed is
    delivered at most once until the feed is deleted, an item seen before the run is
    not delivered in it, and what was delivered stays seen. *)
Theorem feed_items_delivered_once w ops w' sent feedId :
  forallb (fun op => negb (deletes_feed feedId op)) ops = true ->
  feed_run w ops = (w', sent) ->
  NoDup (delivered_of feedId sent) /\
  (forall g, g ∈ delivered_of feedId sent -> (g ∉ seen_guids w feedId) /\ g ∈ seen_guids w' feedId).
Proof.
  intros Hd Hr. assert (Hall : NoDup (delivered_of feedId sent) /\
    (forall g, g ∈ delivered_of feedId sent -> (g ∉ seen_guids w feedId) /\ g ∈ seen_guids w' feedId) /\
    (forall g, g ∈ seen_guids w feedId -> g ∈ seen_guids w' feedId)); [|by destruct Hall as (? & ? & _)].
  revert w sent Hr Hd. induction ops as [|op ops IH]; intros w sent; simpl.
  - intros [= <- <-] _. split_and!; [constructor|by intros g ?%elem_of_nil|done].
  - destruct (feed_step w op) as [w1 s1] eqn:Hs. destruct (feed_run w1 ops) as [w2 s2] eqn:Hr.
    intros [= <- <-] [Hd1%negb_true_iff Hd2]%andb_true_iff.
    destruct (feed_step_fresh _ _ _ _ _ Hd1 Hs) as (Hn1 & Hf1 & Hm1). destruct (IH _ _ Hr Hd2) as (Hn2 & Hf2 & Hm2).
    rewrite delivered_of_app. split_and!.
    + apply NoDup_app. split_and!; [done| |done]. intros g Hg1 Hg2. apply Hf2 in Hg2 as [Hg2 _]. by apply Hg2, Hf1.
    + intros g [Hg|Hg]%elem_of_app; [split; [by apply Hf1|by apply Hm2, Hf1]|].
      apply Hf2 in Hg as [Hg ?]. split; [|done]. intros ?. by apply Hg, Hm1.
    + intros g Hg. by apply Hm2, Hm1.
Qed.

(** A feed with two subscribers, polled once already. *)
Definition demo_feed : FeedRow := MkFeed "feed1" "f" "News" "http://news.example/rss" 30 None 0 "op".
Definition demo_feeds : FeedWorld :=
  fst (fst (createFeed (MkFeedWorld demo_fleets empty_mail (MkFeedDb [] [] [])) 0 "feed1" "f" "op" "News"
              "http://news.example/rss" 30 ["a1"; "b1"; "a2"; "a1"])).
Definition demo_item (guid title : string) : string :=
  "<item><title>" +:+ title +:+ "</title><link>http://news.example/" +:+ guid +:+ "</link><guid isPermaLink='false'>" +:+ guid +:+
  "</guid></item>".
Definition demo_rss1 : string := "<rss>" +:+ demo_item "g1" "First &amp; only" +:+ "</rss>".
Definition demo_rss2 : string := "<rss>" +:+ demo_item "g2" "<![CDATA[Second]]>" +:+ demo_item "g1" "First" +:+ demo_item "g2" "Again" +:+ "</rss>".
Definition demo_draws : FeedFresh := MkFeedFresh (fun n => "m" +:+ demo_ids n) (fun n => "c" +:+ demo_ids n) (fun n k => demo_ids n +:+ demo_ids k).
Definition demo_polls : list feed_op :=
  [FeedPollBegin 10 "feed1"; FeedPollFinish "N" demo_feed 11 10 demo_draws (Some demo_rss1);
   FeedPollBegin 20 "feed1"; FeedPollBegin 21 "feed1";
   FeedPollFinish "N" demo_feed 23 21 demo_draws (Some demo_rss2);
   FeedPollFinish "N" demo_feed 24 20 demo_draws (Some demo_rss2)].
Definition demo_baseline : FeedWorld := fst (feed_run demo_feeds (take 2 demo_polls)).

Lemma poll_delivers_new_items_witness :
  let '(w', r, _) := poll_finish_feed "N" demo_baseline demo_feed 23 21 demo_draws (Some demo_rss2) in
  r = Some ([MkFeedItem "g2" "Second" "http://news.example/g2" None], 3%nat) /\
  map dl_recipient (md_deliveries (fw_mail w')) = ["a1"; "a2"] /\
  fw_mail w' = feed_mail "N" demo_feed 23 demo_draws ["a1"; "a2"] 0 [MkFeedItem "g2" "Second" "http://news.example/g2" None]
                 (fw_mail demo_baseline).
Proof.
  destruct (poll_finish_feed "N" demo_baseline demo_feed 23 21 demo_draws (Some demo_rss2)) as [[w' r] evs] eqn:He.
  assert (Hr : r = Some ([MkFeedItem "g2" "Second" "http://news.example/g2" None], 3%nat)).
  { change r with (snd (fst (w', r, evs))). rewrite <- He. vm_compute. reflexivity. }
  subst r. split; [reflexivity|].
  destruct (poll_delivers_new_items "N" demo_baseline demo_feed 23 21 demo_draws demo_rss2 w' _ _ evs ltac:(discriminate) He)
    as (_ & _ & Hm & _). change (feed_subscribers _ _ _) with ["a1"; "a2"] in Hm.
  split; [rewrite Hm; vm_compute; reflexivity|exact Hm].
Defined.

Lemma feed_items_delivered_once_witness :
  snd (feed_run demo_feeds demo_polls) = [("feed1", "g2")] /\ NoDup (delivered_of "feed1" (snd (feed_run demo_feeds demo_polls))).
Proof.
  split; [vm_compute; reflexivity|].
  exact (proj1 (feed_items_delivered_once demo_feeds demo_polls _ _ "feed1" eq_refl (surjective_pairing _))).
Defined.
