(* ===== verification/Schemas.v ===== *)
(** * The shapes of request bodies

    [packages/relay/src/types.ts]: the zod schemas every route puts a body through,
    as functions from the parsed JSON to the record the handler gets; [None] is a
    failure, which every route answers with 400.  Keys a schema does not name are
    dropped.  The formats zod knows by name are parameters. *)

From S2P Require Import Prelude Json JsValues Identity Events OperatorKeys Policies SdkClient AgentRoutes Attachments.
Import Ascii String.
Open Scope string_scope.
Open Scope Z_scope.

(** [z.string().datetime()], [.email()] and [.url()]. *)
Class ZodFormats := { z_datetime : string -> bool; z_email : string -> bool; z_url : string -> bool }.

(** ** The combinators the schemas use *)

Notation "'let!' x ':=' m 'in' k" := (match m with Some x => k | None => None end)
  (at level 10, x pattern, k at level 200) : ekho_scope.

Definition parser (A : Type) : Type := json -> option A.

(** [z.string().min(lo).max(hi)] *)
Definition z_within (lo : Z) (hi : option Z) (n : Z) : bool :=
  (lo <=? n) && match hi with Some h => n <=? h | None => true end.
Definition z_string (lo : Z) (hi : option Z) : parser string := fun j =>
  match j with JStr s => if z_within lo hi (Z.of_nat (String.length s)) then Some s else None | _ => None end.
Definition z_boolean : parser bool := fun j => match j with JBool b => Some b | _ => None end.
(** [z.number().int()] within bounds. *)
Definition z_int (lo : Z) (hi : option Z) : parser Z := fun j =>
  match j with
  | JNum n => if z_within lo hi n then Some n else None
  | _ => None
  end.
Definition z_enum (l : list string) : parser string := fun j =>
  match j with JStr s => if bool_decide (s ∈ l) then Some s else None | _ => None end.
Definition z_array {A} (p : parser A) (lo : Z) (hi : option Z) : parser (list A) := fun j =>
  match j with JArr l => if z_within lo hi (Z.of_nat (length l)) then mapM p l else None | _ => None end.
(** [z.object], and [z.record(z.string(), z.unknown())] *)
Definition z_object : parser (list (string * json)) := fun j => match j with JObj kvs => Some kvs | _ => None end.
Definition z_nullable {A} (p : parser A) : parser (option A) := fun j =>
  match j with JNull => Some None | _ => Some <$> p j end.
(** [.refine] *)
Definition z_refine {A} (ok : A -> bool) (p : parser A) : parser A := fun j =>
  match p j with Some x => if ok x then Some x else None | None => None end.

Definition required {A} (k : string) (p : parser A) (o : list (string * json)) : option A :=
  match obj_get k o with Some v => p v | None => None end.
(** [.optional()] *)
Definition optional {A} (k : string) (p : parser A) (o : list (string * json)) : option (option A) :=
  match obj_get k o with Some v => Some <$> p v | None => Some None end.
(** [.default(x)] *)
Definition defaulted {A} (k : string) (p : parser A) (x : A) (o : list (string * json)) : option A :=
  default x <$> optional k p o.

(** A text that is not empty, and a list of them. *)
Definition z_text (hi : option Z) : parser string := z_string 1 hi.
Definition z_ids (hi : option Z) : parser (list string) := z_array (z_text None) 0 hi.

Section Schemas.
Context `{ZodFormats}.

(** ** Agents' bodies *)

Definition recipientSchema : parser (string * option string) := fun j =>
  let! o := z_object j in
  let! kind := required "kind" (z_enum ["agent"; "group"; "broadcast"]) o in
  let! id := optional "id" (z_text None) o in
  if (kind ==? "broadcast") || negb (truthy id ==? None) then Some (kind, id) else None.

Definition sendMessageSchema : parser SendRequest := fun j =>
  let! o := z_object j in
  let! recipient := required "recipient" recipientSchema o in
  let! type := required "message_type" (z_enum ["direct"; "broadcast"; "alert"; "handoff"; "claim"; "complete"; "heartbeat"; "control"]) o in
  let! priority := defaulted "priority" (z_enum ["low"; "normal"; "high"; "urgent"]) "normal" o in
  let! ttl := defaulted "ttl_seconds" (z_int 1 (Some 86400)) 86400 o in
  let! approval := defaulted "requires_approval" z_boolean false o in
  let! body := required "body" (z_refine (fun b => Z.of_nat (String.length (json_stringify (JObj b))) <=? 16384) z_object) o in
  let! metadata := optional "metadata" z_object o in
  let! conversation := required "conversation_id" (z_text None) o in
  let! correlation := required "correlation_id" (z_text None) o in
  let! agent_sig := optional "agent_sig" (z_text (Some 128)) o in
  let! key_id := optional "key_id" (z_text (Some 32)) o in
  let! sig_canonical := optional "sig_canonical" z_object o in
  Some (MkSend (fst recipient) (snd recipient) type priority ttl approval (JObj body) metadata conversation correlation
          agent_sig key_id sig_canonical).

(** The message ids, and when they were received. *)
Definition ackSchema : parser (list (string * string)) := fun j =>
  let! o := z_object j in
  required "acks" (z_array (fun a =>
    let! o := z_object a in
    let! i := required "message_id" (z_text None) o in
    let! _ := required "status" (z_enum ["received"]) o in
    let! at_ := required "received_at" (z_refine z_datetime (z_string 0 None)) o in
    Some (i, at_)) 1 None) o.

Record NoticeBody := MkNotice { no_conversation : string; no_reason : string; no_pending : Z; no_budget : option Z }.

Definition noticeSchema : parser NoticeBody := fun j =>
  let! o := z_object j in
  let! c := required "conversation_id" (z_text None) o in
  let! reason := defaulted "reason" (z_text (Some 64)) "peer_turn_budget_exhausted" o in
  let! pending := defaulted "pending_count" (z_int 0 (Some 10000)) 0 o in
  let! budget := optional "budget" (z_int 1 (Some 10000)) o in
  Some (MkNotice c reason pending budget).

Record Beat := MkBeat { be_status : string; be_active : list string; be_metrics : json }.

Definition heartbeatSchema : parser Beat := fun j =>
  let! o := z_object j in
  let! status := required "status" (z_enum ["healthy"; "degraded"; "busy"; "idle"]) o in
  let! active := defaulted "active_conversation_ids" (z_array (z_string 0 None) 0 None) [] o in
  let! metrics := defaulted "metrics" z_object [] o in
  Some (MkBeat status active (JObj metrics)).

Definition identityKeySchema : parser string := fun j =>
  let! o := z_object j in required "public_key" (z_text (Some 128)) o.

Record EnrollBody := MkEnrollBody {
  en_fleet_id : string; en_token : string; en_display_name : string; en_runtime : string; en_hostname : option string;
  en_capabilities : list string; en_identity_public_key : option string
}.

Definition enrollSchema : parser EnrollBody := fun j =>
  let! o := z_object j in
  let! fleet := required "fleet_id" (z_text None) o in
  let! token := required "token" (z_text None) o in
  let! name := required "display_name" (z_text None) o in
  let! runtime := required "runtime" (z_enum ["custom"; "openclaw"; "langgraph"; "autogen"]) o in
  let! hostname := optional "hostname" (z_string 0 None) o in
  let! capabilities := defaulted "capabilities" (z_array (z_string 0 None) 0 None) [] o in
  let! pk := optional "identity_public_key" (z_text (Some 128)) o in
  Some (MkEnrollBody fleet token name runtime hostname capabilities pk).

Record Proposal := MkProposal {
  pr_conversation : string; pr_action_type : string; pr_summary : string; pr_risk : string; pr_payload : json
}.

Definition proposeActionSchema : parser Proposal := fun j =>
  let! o := z_object j in
  let! c := required "conversation_id" (z_text None) o in
  let! a := required "action_type" (z_text None) o in
  let! s := required "summary" (z_text None) o in
  let! r := required "risk_level" (z_enum ["low"; "medium"; "high"; "critical"]) o in
  let! p := required "payload" z_object o in
  Some (MkProposal c a s r (JObj p)).

Record ActionResultBody := MkActionResult { ar_approval : string; ar_result : string; ar_completed_at : string; ar_output : json }.

Definition actionResultSchema : parser ActionResultBody := fun j =>
  let! o := z_object j in
  let! i := required "approval_id" (z_text None) o in
  let! r := required "result" (z_enum ["executed"; "cancelled"; "failed"]) o in
  let! at_ := required "completed_at" (z_refine z_datetime (z_string 0 None)) o in
  let! out := defaulted "output" z_object [] o in
  Some (MkActionResult i r at_ (JObj out)).

(** ** Operators' bodies *)

Record LoginBody := MkLogin { lo_fleet_name : string; lo_email : string; lo_password : string }.

Definition operatorLoginSchema : parser LoginBody := fun j =>
  let! o := z_object j in
  let! f := required "fleet_name" (z_text (Some 200)) o in
  let! e := required "email" (z_refine z_email (z_string 0 (Some 320))) o in
  let! p := required "password" (z_string 8 (Some 1024)) o in
  Some (MkLogin f e p).

Record OperatorMessage := MkOperatorMessage {
  om_recipient : option string;
  om_room : option string;
  om_text : string;
  om_conversation : option string;
  om_attachments : option (list string);
  om_mentions : option (list string);
  om_reply_to : option string;
  om_sig : option string;
  om_key_id : option string;
  om_canonical : option (list (string * json))
}.

Definition operatorMessageSchema : parser OperatorMessage := fun j =>
  let! o := z_object j in
  let! recipient := optional "recipient_agent_id" (z_text None) o in
  let! room := optional "room_id" (z_text None) o in
  let! text := required "text" (z_text (Some 8000)) o in
  let! conversation := optional "conversation_id" (z_text None) o in
  let! attachments := optional "attachment_ids" (z_ids (Some 50)) o in
  let! mentions := optional "mentions" (z_ids (Some 20)) o in
  let! reply_to := optional "reply_to" (z_text (Some 40)) o in
  let! sig := optional "operator_sig" (z_text (Some 128)) o in
  let! key_id := optional "key_id" (z_text (Some 32)) o in
  let! canonical := optional "sig_canonical" z_object o in
  if negb (truthy recipient ==? None) || negb (truthy room ==? None)
  then Some (MkOperatorMessage recipient room text conversation attachments mentions reply_to sig key_id canonical)
  else None.

(** The name and the members. *)
Definition createRoomSchema : parser (string * list string) := fun j =>
  let! o := z_object j in
  let! name := required "name" (z_text (Some 120)) o in
  let! members := defaulted "member_agent_ids" (z_ids (Some 50)) [] o in
  Some (name, members).
Definition agentCreateRoomSchema : parser (string * list string) := createRoomSchema.

Record FeedBody := MkFeedBody { fe_name : string; fe_url : string; fe_minutes : Z; fe_subscribers : list string }.

Definition createFeedSchema : parser FeedBody := fun j =>
  let! o := z_object j in
  let! name := required "name" (z_text (Some 120)) o in
  let! url := required "url" (z_refine z_url (z_string 0 (Some 2000))) o in
  let! minutes := defaulted "poll_interval_minutes" (z_int 5 (Some 1440)) 30 o in
  let! subs := defaulted "subscriber_agent_ids" (z_ids (Some 50)) [] o in
  Some (MkFeedBody name url minutes subs).

Definition feedSubscribersSchema : parser (list string) := fun j =>
  let! o := z_object j in defaulted "agent_ids" (z_ids (Some 50)) [] o.

Record ControlBody := MkControlBody { cb_reason : string; cb_expires_at : option string; cb_redirect : option string }.

Definition operatorControlSchema : parser ControlBody := fun j =>
  let! o := z_object j in
  let! reason := required "reason" (z_text None) o in
  let! e := optional "expires_at" (z_refine z_datetime (z_string 0 None)) o in
  let! r := optional "redirect_agent_id" (z_string 0 None) o in
  Some (MkControlBody reason e r).

Definition operatorTrustSchema : parser bool := fun j => let! o := z_object j in required "trusted" z_boolean o.

Definition endorsement_fields (o : list (string * json)) : option Endorsement :=
  let! by_ := required "endorsed_by_key_id" (z_text (Some 32)) o in
  let! s := required "signature" (z_text (Some 128)) o in
  Some (MkEndorsement by_ s).

Definition endorseOperatorKeySchema : parser Endorsement := fun j => let! o := z_object j in endorsement_fields o.

Definition revokeOperatorKeySchema : parser SignedOperatorKeyRevocation := fun j =>
  let! o := z_object j in
  let! by_ := required "revoked_by_key_id" (z_text (Some 32)) o in
  let! at_ := required "revoked_at" (z_text (Some 64)) o in
  let! s := required "signature" (z_text (Some 128)) o in
  Some (MkRevocation at_ by_ s).

Record KeyBody := MkKeyBody { kb_public_key : string; kb_label : string; kb_endorsement : option Endorsement }.

Definition operatorKeySchema : parser KeyBody := fun j =>
  let! o := z_object j in
  let! pk := required "public_key" (z_text (Some 128)) o in
  let! label := required "label" (z_text (Some 80)) o in
  let! e := optional "endorsement" endorseOperatorKeySchema o in
  Some (MkKeyBody pk label e).

Definition endorseAgentKeySchema : parser (string * Endorsement) := fun j =>
  let! o := z_object j in
  let! k := required "key_id" (z_text (Some 32)) o in
  let! e := endorsement_fields o in
  Some (k, e).

(** The switch, and a turn budget: absent, null or a number. *)
Definition switch_schema (k : string) (hi : Z) : parser (bool * option (option Z)) := fun j =>
  let! o := z_object j in
  let! b := required k z_boolean o in
  let! budget := optional "budget" (z_nullable (z_int 0 (Some hi))) o in
  Some (b, budget).
Definition peerAutoreplySchema : parser (bool * option (option Z)) := switch_schema "autoreply" 200.
Definition projectModeSchema : parser (bool * option (option Z)) := switch_schema "enabled" 500.

(** Trimmed first. *)
Definition operatorProfileSchema : parser string := fun j =>
  let! o := z_object j in
  required "display_name" (fun v => match v with JStr s => z_text (Some 40) (JStr (trim s)) | _ => None end) o.

Definition resumeConversationSchema : parser (option string) := fun j =>
  let! o := z_object j in optional "text" (z_text (Some 2000)) o.

(** ** Policies *)

(** [z.union([z.string(), z.array(z.string())])] *)
Definition z_condition : parser Condition := fun j =>
  match z_string 0 None j with
  | Some s => Some (Exactly s)
  | None => OneOf <$> z_array (z_string 0 None) 0 None j
  end.

Definition policyRuleSchema : parser (PolicyAction * PolicyConditions) := fun j =>
  let! o := z_object j in
  let! action := required "action" (z_enum ["allow"; "deny"]) o in
  let! c := required "conditions" z_object o in
  let! s := optional "sender_agent_id" z_condition c in
  let! r := optional "recipient_agent_id" z_condition c in
  let! t := optional "message_type" z_condition c in
  let! p := optional "priority" z_condition c in
  Some (if action ==? "allow" then PAllow else PDeny, MkConditions s r t p).

Definition scope_kinds : list string := ["fleet"; "agent"].

Definition createPolicySchema : parser PolicyInput := fun j =>
  let! o := z_object j in
  let! name := required "name" (z_text None) o in
  let! kind := required "scope_kind" (z_enum scope_kinds) o in
  let! id := optional "scope_id" (z_string 0 None) o in
  let! rule := required "rule" policyRuleSchema o in
  let! enabled := defaulted "enabled" z_boolean true o in
  Some (MkPolicyInput name kind id (fst rule) (snd rule) enabled).

(** The route builds the update with all five keys. *)
Definition updatePolicySchema : parser PolicyUpdate := fun j =>
  let! o := z_object j in
  let! name := optional "name" (z_text None) o in
  let! kind := optional "scope_kind" (z_enum scope_kinds) o in
  let! id := optional "scope_id" (z_nullable (z_string 0 None)) o in
  let! rule := optional "rule" policyRuleSchema o in
  let! enabled := optional "enabled" z_boolean o in
  Some (MkPolicyUpdate name kind id rule enabled ["name"; "scopeKind"; "scopeId"; "rule"; "enabled"]).

(** ** Attachments *)

Definition attachmentUploadSchema : parser UploadRequest := fun j =>
  let! o := z_object j in
  let! filename := required "filename" (z_text (Some 255)) o in
  let! mime := required "mime" (z_text (Some 127)) o in
  let! size := required "size_bytes" (z_int 0 None) o in
  let! data := required "data_base64" (z_text None) o in
  Some (MkUpload filename mime size data).
End Schemas.
