(* ===== verification/OperatorRoutes.v ===== *)
(** * The operator routes

    [packages/relay/src/routes-operator.ts]: every handler behind
    [requireOperatorAuth], over one state with all the tables.  A request comes with
    its route, query and JSON body; bodies go through the schemas of [Schemas]. *)

From S2P Require Import Prelude Json IsoTime JsValues Identity Events OperatorKeys Config Agents Enrollment Messages Rooms Policies FleetHealth OperatorAccess Text SdkClient Attachments OperatorViews Feeds AgentRoutes Schemas.
Import Ascii String.
Open Scope string_scope.
Open Scope Z_scope.

(** ** The state *)

Record OpWorld := MkOpWorld {
  ow_store : AttachWorld;
  ow_keys : KeyDb;
  ow_enroll : EnrollDb;
  ow_policies : list PolicyRow;
  ow_feeds : FeedDb;
  ow_log : list EventRow
}.

Definition ow_agents (w : OpWorld) : AgentDb := aw_agents (ow_store w).
Definition ow_mail (w : OpWorld) : MailDb := aw_mail (ow_store w).

Definition with_ow_store x (w : OpWorld) := MkOpWorld x (ow_keys w) (ow_enroll w) (ow_policies w) (ow_feeds w) (ow_log w).
Definition with_ow_agents d (w : OpWorld) := with_ow_store (with_aw_agents d (ow_store w)) w.
Definition with_ow_mail m (w : OpWorld) := with_ow_store (with_aw_mail m (ow_store w)) w.
Definition with_ow_keys x (w : OpWorld) := MkOpWorld (ow_store w) x (ow_enroll w) (ow_policies w) (ow_feeds w) (ow_log w).
Definition with_ow_enroll x (w : OpWorld) := MkOpWorld (ow_store w) (ow_keys w) x (ow_policies w) (ow_feeds w) (ow_log w).
Definition with_ow_policies x (w : OpWorld) := MkOpWorld (ow_store w) (ow_keys w) (ow_enroll w) x (ow_feeds w) (ow_log w).
Definition with_ow_feeds x (w : OpWorld) := MkOpWorld (ow_store w) (ow_keys w) (ow_enroll w) (ow_policies w) x (ow_log w).

(** The random ids a request draws. *)
Record Fresh := MkFresh {
  fr_id : string;
  fr_token : string;
  fr_correlation : string;
  fr_conversation : string;
  fr_delivery : nat -> string;
  fr_feed : FeedFresh;
  fr_event : nat -> string
}.

(** The event rows a handler inserts. *)
Definition event_rows (fx : Fresh) (es : list Event) : list EventRow := imap (fun n e => MkEventRow (fr_event fx n) e) es.
Definition logged (fx : Fresh) (es : list Event) (w : OpWorld) : OpWorld :=
  MkOpWorld (ow_store w) (ow_keys w) (ow_enroll w) (ow_policies w) (ow_feeds w) (ow_log w ++ event_rows fx es)%list.

Definition feed_world (w : OpWorld) : FeedWorld := MkFeedWorld (ow_agents w) (ow_mail w) (ow_feeds w).
Definition with_feed_world (f : FeedWorld) (w : OpWorld) : OpWorld :=
  with_ow_feeds (fw_feeds f) (with_ow_mail (fw_mail f) (with_ow_agents (fw_agents f) w)).

(** ** Requests and answers *)

(** A query parameter as a text ([typeof v === "string"]), and as a number: absent,
    not finite, or truncated. *)
Record Query := MkQuery { qu_text : string -> option string; qu_number : string -> option (option Z) }.

Inductive Answer :=
  | AnError (reason : string)
  | AView (a : ViewAnswer) (page : option (nat * nat))
  | AProfile (p : string * string * option string)
  | AHealth (agents : list FleetAgent)
  | AAttention (x : list AttentionItem * (nat * nat))
  | ATopology (x : list FleetAgent * list Edge)
  | AToken (token : string)
  | AKeys (keys : list (string * OperatorKeyRow * bool)) (grant : option OperatorRecoveryGrantRow)
  | AAgentKeys (keys : list ((string * string) * AgentIdentityKeyRow))
  | AKeyId (key_id : string)
  | AEndorsed (key_id endorsed_by : string)
  | ARevoked (key_id revoked_at revoked_by : string)
  | AQueued (message_id conversation_id : string) (queued_at : Z)
  | AUploaded (v : AttachmentView)
  | ADownload (d : Download)
  | AOk (ok : bool)
  | ATrust (agent_id : string) (trusted : bool)
  | ADelegation (id : string) (enabled : bool) (budget : option Z)
  | ARoom (id : string) (members : list string)
  | AFeeds (l : list (FeedRow * list (string * string) * nat))
  | AFeed (id : string) (subscribers : list string)
  | APolled (delivered : list FeedItem) (total : nat)
  | AItems (l : list SeenRow)
  | APolicies (l : list PolicyRow)
  | APolicy (id : string).

Record Reply := MkReply { re_code : Z; re_answer : Answer }.

Definition refuse (code : Z) (reason : string) : Reply := MkReply code (AnError reason).
Definition bad_request : Reply := refuse 400 "invalid body".
Definition ok (a : Answer) : Reply := MkReply 200 a.
Definition found_or {A} (reason : string) (f : A -> Answer) (o : option A) : Reply :=
  match o with Some x => ok (f x) | None => refuse 404 reason end.

(** [msg.includes(needle)] *)
Definition includes (needle s : string) : bool := negb (String.index 0 needle s ==? None).

(** [err.message.includes("not found")]: the message of an unknown signer quotes the
    request's own key id. *)
Definition key_error (named : string) (e : KeyErr) : Reply :=
  match e with
  | KeyNotFound | AgentKeyNotFound => refuse 404 "not found"
  | KeyAlreadyRegistered => refuse 409 "operator key already registered"
  | SignerUnknown => refuse (if includes "not found" named then 404 else 400) "revocation signer is unknown to this fleet"
  | _ => refuse 400 "refused"
  end.

Definition send_error (e : SendErr) : Reply :=
  match e with
  | AttachmentNotOwned | RoomNotFound | RecipientNotFound => refuse 404 "not found"
  | TooManyAttachments => refuse 400 "too many attachments"
  | UnknownSigner k => refuse (if includes "not found" k then 404 else if includes "too many" k then 400 else 500) "unknown signer"
  | RevokedSigner k => refuse (if includes "not found" k then 404 else if includes "too many" k then 400 else 500) "revoked signer"
  | _ => refuse 500 "internal error"
  end.

(** The options a list route builds from its query; [kind] names its filter. *)
Definition list_options (q : Query) (kind : string) : ViewOptions * (nat * nat) :=
  let '(limit, page, offset) := parsePagination (qu_number q "limit") (qu_number q "page") in
  (MkViewOptions (qu_text q "search") (qu_text q kind) (qu_text q "dateFrom") (qu_text q "dateTo") (qu_text q "sortBy")
     (qu_text q "sortOrder") (qu_text q "before_at") (qu_text q "before_id") limit offset, (page, limit)).

(** [Number.isFinite(n) ? Math.max(lo, Math.min(hi, Math.trunc(n))) : fallback] *)
Definition clamped (lo hi fallback : Z) (n : option (option Z)) : Z :=
  match n with Some (Some n) => Z.max lo (Z.min hi n) | _ => fallback end.

Section Routes.
Context `{Crypto} `{NodeCrypto} `{BufferApi} `{FeedUrlApi} `{ZodFormats} (cfg : Config) (ac : AccessConfig).
(** The texts of the relay with characters outside of the model, and the fetch of a
    feed. *)
Context (icon nudge : string) (fetchFeedUrl : string -> option string).

(** A handler: the operator and its fleet, from the session. *)
Definition handler : Type := OpWorld -> Z -> Fresh -> string -> string -> OpWorld * Reply.

(** [safeParse], then the rest of the handler. *)
Definition with_body {A} (schema : parser A) (body : option json) (k : A -> handler) : handler :=
  fun w now fx operator fleet =>
  match body with
  | Some j => match schema j with Some b => k b w now fx operator fleet | None => (w, bad_request) end
  | None => (w, bad_request)
  end.

(** ** Reading *)

Definition answer_view (q : ViewQuery) (page : option (nat * nat)) : handler := fun w now _ _ fleet =>
  (w, match view (MkViewTables (ow_agents w) (ow_mail w) (ow_log w)) now fleet q with
      | AAgents (Throw _) | AApprovals (Throw _) | AEvents (Throw _) | AConversation (Throw _) => refuse 500 "internal error"
      | AAgent None => refuse 404 "agent not found"
      | ADeadLetter None => refuse 404 "dead letter not found"
      | a => ok (AView a page)
      end).

Definition getProfile : handler := fun w _ _ operator _ =>
  (w, found_or "operator not found" AProfile (getOperatorProfile (ow_agents w) operator)).
Definition getActivityRoute (q : Query) : handler :=
  answer_view (QActivity (Z.to_nat (clamped 1 200 50 (qu_number q "limit"))) (truthy (qu_text q "type"))) None.
Definition getTopologyRoute (q : Query) : handler := fun w now _ _ fleet =>
  (w, ok (ATopology (getTopology (ow_agents w) (ow_mail w) now fleet (clamped 5 1440 60 (qu_number q "window_minutes"))))).
Definition list_route (q : Query) (kind : string) (query : ViewOptions -> ViewQuery) : handler :=
  let '(o, page) := list_options q kind in answer_view (query o) (Some page).
Definition getFleetHealthRoute : handler := fun w now _ _ fleet =>
  (w, ok (AHealth (getFleetHealth (ow_agents w) (ow_mail w) now fleet 60))).
Definition getAttentionRoute : handler := fun w now _ _ fleet =>
  (w, ok (AAttention (getAttentionItems (ow_agents w) (ow_mail w) (map (fun x => (ex_id x, ex_event x)) (ow_log w)) now fleet
                        (7 * 86400000)))).

(** ** Keys *)

Definition postEnrollmentToken : handler := fun w now fx operator fleet =>
  let '(e, token) := issueEnrollmentToken (ow_enroll w) now (fr_id fx) (fr_token fx) fleet operator in
  (with_ow_enroll e w, ok (AToken token)).

Definition getKeys : handler := fun w now _ _ fleet =>
  (w, ok (AKeys (map (fun k => (k, operatorKeyMayEndorse (ow_keys w) fleet (fst k))) (listOperatorKeys (ow_keys w) fleet))
            (getActiveOperatorRecoveryGrant (ow_keys w) now fleet))).
Definition getAgentKeys : handler := fun w _ _ _ fleet => (w, ok (AAgentKeys (getAgentIdentityKeys (ow_keys w) fleet))).

Definition postKey (body : option json) : handler :=
  with_body operatorKeySchema body (fun b w now fx operator fleet =>
    match registerOperatorKey (ow_keys w) now fleet (kb_public_key b) (kb_label b) (kb_endorsement b) (Some operator) with
    | Ok (keys, kid, es) => (logged fx es (with_ow_keys keys w), MkReply 201 (AKeyId kid))
    | Throw e => (w, key_error "" e)
    end).

Definition postKeyEndorse (keyId : string) (body : option json) : handler :=
  with_body endorseOperatorKeySchema body (fun b w now fx _ fleet =>
    match endorseOperatorKey (ow_keys w) now fleet keyId b (Some (e_by b)) with
    | Ok (keys, es) => (logged fx es (with_ow_keys keys w), ok (AEndorsed keyId (e_by b)))
    | Throw e => (w, key_error "" e)
    end).

Definition postKeyRevoke (keyId : string) (q : Query) (body : option json) : handler :=
  with_body revokeOperatorKeySchema body (fun b w now fx operator fleet =>
    let claimedActorKeyId := truthy (qu_text q "actor_key_id") in
    match revokeOperatorKey (ow_keys w) now fleet keyId b (Some operator) claimedActorKeyId with
    | Ok (keys, (at_, by_), es) => (logged fx es (with_ow_keys keys w), ok (ARevoked keyId at_ by_))
    | Throw e => (w, key_error (r_by b) e)
    end).

(** The unsigned path: nothing is revoked. *)
Definition deleteKey (keyId : string) : handler := fun w _ _ _ _ =>
  (w, refuse 400 "revoking an operator key requires a signed revocation").

Definition postAgentEndorse (agentId : string) (body : option json) : handler :=
  with_body endorseAgentKeySchema body (fun b w now fx _ fleet =>
    match endorseAgentKey (ow_keys w) now fleet agentId (fst b) (snd b) (Some (e_by (snd b))) with
    | Ok (keys, es) => (logged fx es (with_ow_keys keys w), ok (AOk true))
    | Throw e => (w, key_error "" e)
    end).

(** ** Messages and attachments *)

(** A canonical id only for the agent it names, and no display id. *)
Definition channel_refused (fleet : string) (b : OperatorMessage) : option string :=
  match truthy (om_conversation b) with
  | None => None
  | Some c =>
      if starts_with "dm-" c && negb (c ==? canonicalDmId fleet (default "undefined" (om_recipient b)))
      then Some "conversation_id does not match the addressed agent's DM"
      else if starts_with "grp-" c then Some "grp- is a display channel, not a send target"
      else None
  end.

Definition message_signature (b : OperatorMessage) : option OperatorSignature :=
  match truthy (om_sig b), truthy (om_key_id b), om_canonical b with
  | Some s, Some k, Some c => Some (MkOperatorSignature s k (JObj c))
  | _, _, _ => None
  end.

Definition postOperatorMessage (body : option json) : handler :=
  with_body operatorMessageSchema body (fun b w now fx operator fleet =>
    match channel_refused fleet b with
    | Some reason => (w, refuse 400 reason)
    | None =>
        let '(d, r) := createOperatorMessage cfg (ow_keys w) (ow_agents w) (ow_mail w) now (fr_id fx) (fr_correlation fx)
                         (fr_conversation fx) (fr_delivery fx)
                         (MkOperatorMessageInput fleet operator (om_recipient b) (om_room b) (om_text b) (om_conversation b)
                            (default [] (om_attachments b)) (default [] (om_mentions b)) (om_reply_to b)
                            (message_signature b)) in
        let w1 := with_ow_agents d w in
        match r with
        | Ok (m, c, es) => (logged fx es (with_ow_mail m w1), MkReply 201 (AQueued (fr_id fx) c now))
        | Throw e => (w1, send_error e)
        end
    end).

Definition postUpload (body : option json) : handler :=
  with_body attachmentUploadSchema body (fun b w now fx operator fleet =>
    let '(s, r, es) := postOperatorAttachment cfg (ow_store w) now (fr_id fx) fleet operator b in
    (logged fx es (with_ow_store s w),
     match r with Ok v => MkReply 201 (AUploaded v) | Throw e => refuse (upload_code e) "refused" end)).

Definition getAttachmentFile (attachmentId : string) : handler := fun w _ _ _ fleet =>
  (w, found_or "attachment not found" ADownload (getAttachmentRoute (ow_store w) fleet attachmentId)).

Definition postResume (conversationId : string) (body : option json) : handler :=
  with_body resumeConversationSchema (Some (default (JObj []) body)) (fun text w now fx operator fleet =>
    let '(d, r) := resumeConversation cfg nudge (ow_keys w) (ow_agents w) (ow_mail w) now (fr_id fx) (fr_correlation fx)
                     (fr_conversation fx) (fr_delivery fx) fleet operator conversationId text in
    let w1 := with_ow_agents d w in
    match r with
    | Ok (Some (m, c, es)) => (logged fx es (with_ow_mail m w1), MkReply 201 (AQueued (fr_id fx) c now))
    | Ok None => (w1, refuse 404 "conversation not found")
    | Throw _ => (w1, refuse 500 "internal error")
    end).

(** ** Agents *)

Definition patchProfile (body : option json) : handler :=
  with_body operatorProfileSchema body (fun name w now _ operator _ =>
    let '(d, p) := setOperatorDisplayName (ow_agents w) now operator name in
    (with_ow_agents d w, found_or "operator not found" AProfile p)).

Definition postDecision (approvalId decision : string) : handler := fun w now fx operator fleet =>
  if negb (decision ==? "approve") && negb (decision ==? "reject") then (w, refuse 400 "unsupported decision")
  else let '(d, done, es) := approveOrReject (ow_agents w) now approvalId fleet operator (decision ==? "approve") in
       (logged fx es (with_ow_agents d w), ok (AOk done)).

Definition postTrust (agentId : string) (body : option json) : handler :=
  with_body operatorTrustSchema body (fun trusted w now fx operator fleet =>
    let '(d, r, es) := setAgentTrust (ow_agents w) now fleet agentId operator trusted in
    (logged fx es (with_ow_agents d w), found_or "agent not found" (ATrust agentId) r)).

Definition postDelegation (agentId : string) (body : option json) : handler :=
  with_body peerAutoreplySchema body (fun b w now fx operator fleet =>
    let '(d, r, es) := setPeerAutoreply (ow_agents w) now fleet agentId operator (fst b) (snd b) in
    (logged fx es (with_ow_agents d w), found_or "agent not found" (fun x => ADelegation agentId (fst x) (snd x)) r)).

Definition control_of (action : string) : option ControlAction :=
  if action ==? "pause" then Some CPause else if action ==? "resume" then Some CResume
  else if action ==? "quarantine" then Some CQuarantine else None.

Definition postControl (agentId action : string) (body : option json) : handler :=
  with_body operatorControlSchema body (fun b w now fx operator fleet =>
    match control_of action with
    | None => (w, refuse 400 "unsupported action")
    | Some c =>
        let '(d, done, es) := controlAgent (ow_agents w) now (fr_id fx) fleet agentId operator c
                                (JObj [("reason", JStr (cb_reason b)); ("expires_at", jopt (cb_expires_at b));
                                       ("redirect_agent_id", jopt (cb_redirect b))]) in
        (logged fx es (with_ow_agents d w), if done then ok (AOk true) else refuse 404 "agent not found")
    end).

(** ** Rooms *)

Definition postOperatorRoom (body : option json) : handler :=
  with_body createRoomSchema body (fun b w now fx operator fleet =>
    let '(m, members, es) := createRoom (ow_agents w) (ow_mail w) now (fr_id fx) fleet false operator (fst b) (snd b) in
    (logged fx es (with_ow_mail m w), MkReply 201 (ARoom (fr_id fx) members))).

Definition deleteRoomRoute (roomId : string) : handler := fun w now fx operator fleet =>
  let '(m, done, es) := deleteRoom (ow_mail w) now fleet roomId operator in
  (logged fx es (with_ow_mail m w), if done then ok (AOk true) else refuse 404 "room not found").

Definition postProjectMode (roomId : string) (body : option json) : handler :=
  with_body projectModeSchema body (fun b w now fx operator fleet =>
    let '(m, r, es) := setRoomProjectMode (ow_mail w) now fleet roomId operator (fst b) (snd b) in
    (logged fx es (with_ow_mail m w), found_or "room not found" (fun x => ADelegation roomId (fst x) (snd x)) r)).

(** ** Feeds *)

Definition getFeeds : handler := fun w _ _ _ fleet => (w, ok (AFeeds (listFeeds (ow_agents w) (ow_feeds w) fleet))).

Definition postFeed (body : option json) : handler :=
  with_body createFeedSchema body (fun b w now fx operator fleet =>
    if negb (isAllowedFeedUrl (fe_url b)) then (w, refuse 400 "feed url must be a public http(s) address")
    else
      let '(f, subs, es) := createFeed (feed_world w) now (fr_id fx) fleet operator (fe_name b) (fe_url b) (fe_minutes b)
                              (fe_subscribers b) in
      (logged fx es (with_feed_world f w), MkReply 201 (AFeed (fr_id fx) subs))).

Definition deleteFeedRoute (feedId : string) : handler := fun w now fx operator fleet =>
  let '(f, done, es) := deleteFeed (feed_world w) now fleet feedId operator in
  (logged fx es (with_feed_world f w), if done then ok (AOk true) else refuse 404 "feed not found").

Definition postFeedSubscribers (feedId : string) (body : option json) : handler :=
  with_body feedSubscribersSchema body (fun ids w now fx operator fleet =>
    let '(f, done, es) := setFeedSubscribers (feed_world w) now fleet feedId operator ids in
    (logged fx es (with_feed_world f w), if done then ok (AOk true) else refuse 404 "feed not found")).

(** The feed is the fleet's, or nothing is fetched.  The poll is the one of [Feeds]
    where nothing else happens during the fetch. *)
Definition postFeedPoll (feedId : string) : handler := fun w now fx _ fleet =>
  match getFeedItems (ow_feeds w) fleet feedId 1 with
  | None => (w, refuse 404 "feed not found")
  | Some _ =>
      let '(f, r, es) := pollFeed icon (feed_world w) now (fr_feed fx) feedId fetchFeedUrl in
      (logged fx es (with_feed_world f w),
       match r with Some (delivered, total) => ok (APolled delivered total) | None => refuse 500 "internal error" end)
  end.

Definition getFeedItemsRoute (feedId : string) : handler := fun w _ _ _ fleet =>
  (w, found_or "feed not found" AItems (getFeedItems (ow_feeds w) fleet feedId 50)).

(** ** Policies *)

Definition getPolicies : handler := fun w _ _ _ fleet => (w, ok (APolicies (listPolicies (ow_policies w) fleet))).

Definition postPolicy (body : option json) : handler :=
  with_body createPolicySchema body (fun b w now fx _ fleet =>
    let '(ps, es) := createPolicy (ow_policies w) now (fr_id fx) fleet b in
    (logged fx es (with_ow_policies ps w), MkReply 201 (APolicy (fr_id fx)))).

Definition putPolicy (policyId : string) (body : option json) : handler :=
  with_body updatePolicySchema body (fun b w now fx _ fleet =>
    let '(ps, done, es) := updatePolicy (ow_policies w) now policyId fleet b in
    (logged fx es (with_ow_policies ps w), if done then ok (AOk true) else refuse 404 "policy not found")).

Definition deletePolicyRoute (policyId : string) : handler := fun w now fx _ fleet =>
  let '(ps, done, es) := deletePolicy (ow_policies w) now policyId fleet in
  (logged fx es (with_ow_policies ps w), if done then ok (AOk true) else refuse 404 "policy not found").

(** ** Dispatch *)

Inductive OperatorCall :=
  | GET_profile | PATCH_profile | GET_overview | GET_fleet_health | GET_attention | GET_topology | GET_activity
  | GET_agents | GET_approvals | GET_events | POST_enrollment_tokens | GET_keys | GET_agent_keys | POST_keys
  | POST_key_endorse (keyId : string) | POST_key_revoke (keyId : string) | DELETE_key (keyId : string)
  | POST_agent_endorse (agentId : string) | POST_messages | POST_attachments | GET_attachment (id : string)
  | GET_conversation (conversationId : string) | GET_agent (agentId : string) | POST_approval (approvalId decision : string)
  | POST_trust (agentId : string) | POST_peer_autoreply (agentId : string) | GET_rooms | POST_rooms
  | DELETE_room (roomId : string) | POST_project_mode (roomId : string) | POST_resume (conversationId : string)
  | GET_feeds | POST_feeds | DELETE_feed (feedId : string) | POST_feed_subscribers (feedId : string)
  | POST_feed_poll (feedId : string) | GET_feed_items (feedId : string) | POST_control (agentId action : string)
  | GET_policies | POST_policies | PUT_policy (policyId : string) | DELETE_policy (policyId : string)
  | GET_dead_letters | GET_dead_letter (id : string) | GET_rate_limits (agentId : string).

Definition operator_handler (c : OperatorCall) (q : Query) (body : option json) : handler :=
  match c with
  | GET_profile => getProfile
  | PATCH_profile => patchProfile body
  | GET_overview => answer_view QOverview None
  | GET_fleet_health => getFleetHealthRoute
  | GET_attention => getAttentionRoute
  | GET_topology => getTopologyRoute q
  | GET_activity => getActivityRoute q
  | GET_agents => list_route q "status" QAgents
  | GET_approvals => list_route q "risk" QApprovals
  | GET_events => list_route q "type" QEvents
  | POST_enrollment_tokens => postEnrollmentToken
  | GET_keys => getKeys
  | GET_agent_keys => getAgentKeys
  | POST_keys => postKey body
  | POST_key_endorse k => postKeyEndorse k body
  | POST_key_revoke k => postKeyRevoke k q body
  | DELETE_key k => deleteKey k
  | POST_agent_endorse a => postAgentEndorse a body
  | POST_messages => postOperatorMessage body
  | POST_attachments => postUpload body
  | GET_attachment i => getAttachmentFile i
  | GET_conversation c => list_route q "type" (QConversation c)
  | GET_agent a => answer_view (QAgent a) None
  | POST_approval i decision => postDecision i decision
  | POST_trust a => postTrust a body
  | POST_peer_autoreply a => postDelegation a body
  | GET_rooms => answer_view QRooms None
  | POST_rooms => postOperatorRoom body
  | DELETE_room r => deleteRoomRoute r
  | POST_project_mode r => postProjectMode r body
  | POST_resume c => postResume c body
  | GET_feeds => getFeeds
  | POST_feeds => postFeed body
  | DELETE_feed f => deleteFeedRoute f
  | POST_feed_subscribers f => postFeedSubscribers f body
  | POST_feed_poll f => postFeedPoll f
  | GET_feed_items f => getFeedItemsRoute f
  | POST_control a action => postControl a action body
  | GET_policies => getPolicies
  | POST_policies => postPolicy body
  | PUT_policy p => putPolicy p body
  | DELETE_policy p => deletePolicyRoute p
  | GET_dead_letters => list_route q "status" QDeadLetters
  | GET_dead_letter i => answer_view (QDeadLetter i) None
  | GET_rate_limits a => answer_view (QRateLimits a) None
  end.

Definition auth_refusal (e : OperatorAuthErr) : Reply :=
  match e with OffTailnet reason => refuse 403 reason | _ => refuse 401 "unauthorized" end.

(** A request: the session first, then the handler with the session's operator and
    fleet. *)
Definition operatorRoute (w : OpWorld) (now : Z) (fx : Fresh) (r : OperatorRequest) (c : OperatorCall) (q : Query)
    (body : option json) : OpWorld * Reply :=
  match requireOperatorAuth cfg ac (ow_agents w) now r with
  | Throw e => (w, auth_refusal e)
  | Ok (operator, fleet) => operator_handler c q body w now fx operator fleet
  end.
End Routes.
