(* ===== verification/OperatorRoutesProperties.v ===== *)
(** * What an operator's requests can change

    What each handler leaves of another fleet ([untouched]) and of everything when it
    refuses ([quiet]); the invariants the views rest on survive every request.
    [AgentApiProperties] puts these together with the requests of agents. *)

From S2P Require Import Prelude Json IsoTime JsValues Identity Events OperatorKeys OperatorSafety Config Agents Enrollment Messages Rooms Policies AgentSafety DeliverySafety DeliveryProperties RelaySafety RelayProperties FleetHealth OperatorAccess Text SdkClient Attachments OperatorViews OperatorViewsProperties Feeds AgentRoutes Schemas OperatorRoutes.
Import Ascii String.
Open Scope string_scope.
Open Scope Z_scope.

(** ** Rows of another fleet *)

Section OtherRows.
Context {R : Type} (p : R -> bool).

Lemma select_app l l' : select p (l ++ l')%list = (select p l ++ select p l')%list.
Proof. apply List.filter_app. Qed.

Lemma select_none l : Forall (fun x => p x = false) l -> select p l = [].
Proof. induction 1 as [|x l Hx _ IH]; [done|]. simpl. by rewrite Hx. Qed.

Lemma select_app_others l l' : Forall (fun x => p x = false) l' -> select p (l ++ l')%list = select p l.
Proof. intros H. by rewrite select_app, (select_none l'), app_nil_r. Qed.

Lemma select_update_others hit f l :
  (forall x, x ∈ l -> hit x = true -> p x = false /\ p (f x) = false) -> select p (update_where hit f l) = select p l.
Proof.
  induction l as [|x l IH]; intros H; [done|]. simpl.
  assert (Hl : select p (update_where hit f l) = select p l) by (apply IH; intros; apply H; [by right|done]).
  unfold select, update_where in *. destruct (hit x) eqn:E; [|by rewrite Hl].
  destruct (H x) as [H1 H2]; [by left|done|]. by rewrite H1, H2, Hl.
Qed.

Lemma select_delete_others hit l :
  (forall x, x ∈ l -> hit x = true -> p x = false) -> select p (delete_where hit l) = select p l.
Proof.
  induction l as [|x l IH]; intros H; [done|]. simpl.
  assert (Hl : select p (delete_where hit l) = select p l) by (apply IH; intros; apply H; [by right|done]).
  unfold select, delete_where in *. destruct (hit x) eqn:E; simpl; [|by rewrite Hl].
  by rewrite (H x), Hl by (done || by left).
Qed.

Lemma select_ext_in (q : R -> bool) l : (forall x, x ∈ l -> p x = q x) -> select p l = select q l.
Proof.
  intros H. unfold select. induction l as [|x l IH]; [done|]. simpl. rewrite (H x), IH by (by left || (intros; apply H; by right)).
  done.
Qed.
End OtherRows.

Section OtherMap.
Context {K V : Type} `{Countable K} (f : V -> string) (g : string).

Lemma filter_insert_others (t : gmap K V) i v :
  f v <> g -> (forall u, t !! i = Some u -> f u <> g) ->
  filter (fun kv => f (snd kv) = g) (<[i := v]> t) = filter (fun kv => f (snd kv) = g) t.
Proof. intros. by apply map_filter_insert_not'. Qed.

Lemma filter_delete_others (t : gmap K V) i :
  (forall u, t !! i = Some u -> f u <> g) ->
  filter (fun kv => f (snd kv) = g) (delete i t) = filter (fun kv => f (snd kv) = g) t.
Proof. intros. by apply map_filter_delete_not. Qed.

Lemma filter_alter_others (t : gmap K V) h i :
  (forall u, t !! i = Some u -> f u <> g /\ f (h u) <> g) ->
  filter (fun kv => f (snd kv) = g) (alter h i t) = filter (fun kv => f (snd kv) = g) t.
Proof.
  intros Hf. apply map_eq. intros j. rewrite !map_lookup_filter. destruct (decide (i = j)) as [->|Hne].
  - rewrite lookup_alter_eq. destruct (t !! j) as [u|] eqn:E; [|done]. simpl. destruct (Hf u eq_refl).
    by rewrite !option_guard_False.
  - by rewrite lookup_alter_ne.
Qed.
End OtherMap.

(** ** Tables that agree on a fleet *)

Record same_agents (g : string) (d d' : AgentDb) : Prop := {
  sa_agents : filter (fun kv => ag_fleet (snd kv) = g) (ad_agents d') = filter (fun kv => ag_fleet (snd kv) = g) (ad_agents d);
  sa_controls : fleet_controls d' g = fleet_controls d g;
  sa_approvals : filter (fun kv => ap_fleet (snd kv) = g) (ad_approvals d') = filter (fun kv => ap_fleet (snd kv) = g) (ad_approvals d);
  sa_violations : fleet_violations d' g = fleet_violations d g;
  sa_operators : filter (fun kv => op_fleet (snd kv) = g) (ad_operators d') = filter (fun kv => op_fleet (snd kv) = g) (ad_operators d)
}.

Record same_mail (g : string) (m m' : MailDb) : Prop := {
  sm_messages : fleet_messages m' g = fleet_messages m g;
  sm_deliveries : fleet_deliveries m' g = fleet_deliveries m g;
  sm_dead : fleet_dead_letters m' g = fleet_dead_letters m g;
  sm_rooms : filter (fun kv => rm_fleet (snd kv) = g) (md_rooms m') = filter (fun kv => rm_fleet (snd kv) = g) (md_rooms m);
  sm_members : fleet_members m' g = fleet_members m g;
  sm_attachments : filter (fun kv => at_fleet (snd kv) = g) (md_attachments m') = filter (fun kv => at_fleet (snd kv) = g) (md_attachments m)
}.

Lemma same_agents_refl g d : same_agents g d d.
Proof. done. Qed.
Lemma same_mail_refl g m : same_mail g m m.
Proof. done. Qed.
#[export] Hint Resolve same_agents_refl same_mail_refl : core.

Lemma same_agents_trans g d1 d2 d3 : same_agents g d1 d2 -> same_agents g d2 d3 -> same_agents g d1 d3.
Proof. intros [] []. split; by etrans. Qed.
Lemma same_mail_trans g m1 m2 m3 : same_mail g m1 m2 -> same_mail g m2 m3 -> same_mail g m1 m3.
Proof. intros [] []. split; by etrans. Qed.

(** ** The operations, seen from another fleet *)

(** A control stands for an agent of its own fleet. *)
Definition controls_ok (d : AgentDb) : Prop := forall c, c ∈ ad_controls d -> same_fleet d (c_fleet c) (c_target c).

Section Agents.
Context (g fleet : string) (Hg : g <> fleet) (d : AgentDb).

Lemma others_agent i a h :
  ad_agents d !! i = Some a -> ag_fleet a = fleet -> ag_fleet (h a) = fleet ->
  same_agents g d (with_agents (<[i := h a]> (ad_agents d)) d).
Proof.
  intros Hi Ha Hh. split; try done. apply filter_insert_others; [congruence|]. intros u Hu. congruence.
Qed.

Lemma others_control i a (x : bool) st q c :
  controls_ok d -> ad_agents d !! i = Some a -> ag_fleet a = fleet -> ag_fleet (set_status st None q a) = fleet ->
  c_fleet c = fleet -> same_agents g d
    (with_controls ((if x then expire_controls (c_created_at c) i [CPause; CQuarantine] (ad_controls d) else ad_controls d) ++ [c])%list
       (with_agents (<[i := set_status st None q a]> (ad_agents d)) d)).
Proof.
  intros Hc Hi Ha Hh Hcf. pose proof (others_agent i a (set_status st None q) Hi Ha Hh) as [H1 _ H3 H4 H5].
  split; try done. unfold fleet_controls. cbn [ad_controls with_controls].
  rewrite select_app_others by (constructor; [by apply bool_decide_eq_false; congruence|done]).
  destruct x; [|done]. apply select_update_others. intros y Hy Hhit. bools. destruct (Hc y Hy) as (b & Hb & Hbf).
  simplify_eq. split; apply bool_decide_eq_false; simpl; congruence.
Qed.

Lemma controlAgent_others ctl now i o x p :
  controls_ok d -> same_agents g d (fst (fst (controlAgent d now ctl fleet i o x p))).
Proof.
  intros Hc. unfold controlAgent. destruct (fleet_agent d fleet i) as [a|] eqn:E; [|done].
  apply fleet_agent_Some in E as (Hi & Ha & _).
  exact (others_control i a (x ==? CResume) (next_status x) (if x ==? CQuarantine then Some ByOperator else None)
    (MkControl ctl fleet i x p o now (if x ==? CResume then Some (addSeconds now 3600) else None)) Hc Hi Ha Ha eq_refl).
Qed.

Lemma setAgentTrust_others now i o t : same_agents g d (fst (fst (setAgentTrust d now fleet i o t))).
Proof.
  unfold setAgentTrust. destruct (fleet_agent d fleet i) as [a|] eqn:E; [|done].
  apply fleet_agent_Some in E as (Hi & Ha & _). by apply others_agent.
Qed.

Lemma setPeerAutoreply_others now i o r b : same_agents g d (fst (fst (setPeerAutoreply d now fleet i o r b))).
Proof.
  unfold setPeerAutoreply. destruct (fleet_agent d fleet i) as [a|] eqn:E; [|done].
  apply fleet_agent_Some in E as (Hi & Ha & _). apply (others_agent i a (set_delegation r _)); done.
Qed.

Lemma approveOrReject_others now i o b : same_agents g d (fst (fst (approveOrReject d now i fleet o b))).
Proof.
  unfold approveOrReject. destruct (ad_approvals d !! i) as [a|] eqn:E; [|done].
  destruct (_ && _) eqn:Hf; [|done]. bools. split; try done. apply filter_insert_others; [simpl; congruence|]. intros u Hu. congruence.
Qed.

Lemma uploadLimit_others cfg now u : same_agents g d (fst (fst (checkAndIncrementUploadLimit cfg d now u fleet))).
Proof. unfold checkAndIncrementUploadLimit. by destruct (_ <=? _). Qed.

Lemma ensureOperatorAgent_others now : same_agents g d (fst (ensureOperatorAgent d now fleet)).
Proof.
  unfold ensureOperatorAgent. destruct (ad_agents d !! _) as [a|] eqn:E; [done|].
  split; try done. apply filter_insert_others; [simpl; congruence|]. intros u Hu. congruence.
Qed.

Lemma setOperatorDisplayName_others now o row name :
  operators_ok d -> ad_operators d !! o = Some row -> op_fleet row = fleet ->
  same_agents g d (fst (setOperatorDisplayName d now o name)).
Proof.
  intros Hok Ho Hf. unfold setOperatorDisplayName. rewrite Ho, Hf.
  set (d1 := with_operators _ d).
  assert (H1 : same_agents g d d1).
  { split; try done. apply filter_insert_others; [simpl; congruence|]. intros u Hu. congruence. }
  eapply same_agents_trans; [exact H1|]. unfold ensureOperatorAgent.
  destruct (ad_agents d1 !! operator_agent fleet) as [a|] eqn:E; cbn.
  - split; try done. apply filter_alter_others. intros u Hu. change (ad_agents d1) with (ad_agents d) in *.
    assert (Huf : ag_fleet u = fleet).
    { destruct (Hok _ _ Hu) as [Heq _]; [right; by exists fleet|]. unfold operator_agent in Heq. by injection Heq. }
    simpl. split; congruence.
  - split; try done. cbn [ad_agents with_agents]. rewrite filter_alter_others.
    + apply filter_insert_others; [simpl; congruence|]. intros u Hu. congruence.
    + intros u. rewrite lookup_insert_eq. intros [= <-]. simpl. split; congruence.
Qed.
End Agents.

Lemma fleet_members_lookup m g :
  fleet_members m g = select (fun p => negb (filter (fun kv => rm_fleet (snd kv) = g) (md_rooms m) !! fst p ==? None)) (md_members m).
Proof. apply select_ext_in. intros p _. by rewrite fleet_lookup_filter. Qed.

Section Mail.
Context (g fleet : string) (Hg : g <> fleet) (m : MailDb).

Lemma bind_others mid at_ ids t :
  (forall i, i ∈ ids -> forall a, t !! i = Some a -> at_fleet a = fleet) ->
  filter (fun kv => at_fleet (snd kv) = g) (bind_attachments mid at_ ids t) = filter (fun kv => at_fleet (snd kv) = g) t /\
  (forall i a, bind_attachments mid at_ ids t !! i = Some a -> exists b, t !! i = Some b /\ at_fleet b = at_fleet a).
Proof.
  induction ids as [|i ids IH]; intros H; [split; [done|]; intros j a Ha; by exists a|].
  destruct IH as [IH1 IH2]; [intros j Hj; apply H; by right|]. cbn [bind_attachments foldr].
  fold (bind_attachments mid at_ ids t). split.
  - rewrite filter_alter_others; [done|]. intros u Hu. destruct (IH2 i u Hu) as (b & Hb & Hf).
    pose proof (H i ltac:(by left) b Hb). simpl. split; congruence.
  - intros j a. destruct (decide (i = j)) as [->|Hne].
    + rewrite lookup_alter_eq. intros (u & Hu & ->)%fmap_Some. destruct (IH2 j u Hu) as (b & Hb & Hbf). by exists b.
    + rewrite lookup_alter_ne by done. apply IH2.
Qed.

Lemma queue_message_others msg dly l ids :
  ms_fleet msg = fleet -> ms_id msg ∉ map ms_id (fleet_messages m g) ->
  (forall i, i ∈ ids -> forall a, md_attachments m !! i = Some a -> at_fleet a = fleet) ->
  same_mail g m (queue_message msg dly l ids m).
Proof.
  intros Hf Hid Hids.
  assert (Hm : fleet_messages (queue_message msg dly l ids m) g = fleet_messages m g).
  { apply select_app_others. constructor; [by apply bool_decide_eq_false; congruence|done]. }
  split; try done; [|by apply (bind_others (ms_id msg) (ms_created_at msg) ids (md_attachments m))].
  unfold fleet_deliveries. rewrite Hm. cbn [md_deliveries queue_message with_attachments with_deliveries].
  apply select_app_others. apply Forall_forall. intros dl Hdl. apply exists_row_false. intros x Hx.
  apply bool_decide_eq_false. intros Heq. apply Hid.
  unfold queued_deliveries in Hdl. apply elem_of_lookup_imap in Hdl as (n & a & -> & _). simpl in Heq. rewrite <- Heq.
  by apply list_elem_of_In, in_map, list_elem_of_In.
Qed.
End Mail.

(** A send of the operator attaches only its own files. *)
Lemma createOperatorMessage_owned cfg keys d m now mid cor conv dly i d' m' c es :
  createOperatorMessage cfg keys d m now mid cor conv dly i = (d', Ok (m', c, es)) ->
  forall a, a ∈ oi_attachments i -> owned_by m (oi_fleet i) (oi_operator i) a = true.
Proof.
  unfold createOperatorMessage. destruct (check_signer keys i); [done|].
  destruct (ensureOperatorAgent d now (oi_fleet i)) as [d1 s]. intros [= _ Hr].
  destruct (operator_target m conv i) as [[[[? ?] ?] ?]|]; [|done].
  destruct (_ <? _); [done|]. destruct (validateAttachmentOwnership _ _ _ _) eqn:Hv; [|done].
  by apply validateAttachmentOwnership_true.
Qed.

Lemma fresh_everywhere m g mid : mid ∉ map ms_id (md_messages m) -> mid ∉ map ms_id (fleet_messages m g).
Proof.
  rewrite !list_elem_of_In, !in_map_iff. intros H (x & Hx & Hin). apply H. exists x. split; [done|].
  by apply list_elem_of_In, elem_of_select in Hin as [Hin%list_elem_of_In _].
Qed.
#[local] Hint Resolve fresh_everywhere : core.

Section Rooms.
Context (g fleet : string) (Hg : g <> fleet) (m : MailDb).

(** Rooms of other fleets come and go, with their members. *)
Lemma rooms_others rooms members :
  filter (fun kv => rm_fleet (snd kv) = g) rooms = filter (fun kv => rm_fleet (snd kv) = g) (md_rooms m) ->
  select (fun p => negb (filter (fun kv => rm_fleet (snd kv) = g) (md_rooms m) !! fst p ==? None)) members = fleet_members m g ->
  same_mail g m (with_members members (with_rooms rooms m)).
Proof. intros Hr Hm. split; try done. rewrite fleet_members_lookup. cbn [md_rooms md_members with_members with_rooms]. by rewrite Hr. Qed.

Lemma not_own_room i : (forall r, md_rooms m !! i = Some r -> rm_fleet r <> g) ->
  negb (filter (fun kv => rm_fleet (snd kv) = g) (md_rooms m) !! i ==? None) = false.
Proof.
  intros H. rewrite map_lookup_filter. destruct (md_rooms m !! i) as [r|] eqn:E; [|done]. simpl.
  rewrite option_guard_False by (by apply H). done.
Qed.

Lemma createRoom_others d now rid b o n l :
  md_rooms m !! rid = None -> same_mail g m (fst (fst (createRoom d m now rid fleet b o n l))).
Proof.
  intros Hn. unfold createRoom. cbn [fst]. apply rooms_others.
  - apply filter_insert_others; [simpl; congruence|]. intros u Hu. congruence.
  - rewrite fleet_members_lookup. match goal with |- context [foldl _ _ ?xs] => generalize xs end.
    intros ids. generalize (md_members m) as acc. induction ids as [|i ids IH]; intros acc; [done|]. cbn [foldl].
    rewrite IH. unfold insert_ignore. destruct (bool_decide _); [done|]. apply select_app_others.
    constructor; [|done]. apply not_own_room. cbn [fst]. intros r Hr. congruence.
Qed.

Lemma setRoomProjectMode_others now rid o e b : same_mail g m (fst (fst (setRoomProjectMode m now fleet rid o e b))).
Proof.
  unfold setRoomProjectMode, fleet_room. destruct (md_rooms m !! rid) as [r|] eqn:E; [|done].
  destruct (rm_fleet r ==? fleet) eqn:Hf; [|done]. bools.
  apply (rooms_others _ (md_members m)); [|by rewrite fleet_members_lookup].
  apply filter_insert_others; [simpl; congruence|]. intros u Hu. congruence.
Qed.

Lemma deleteRoom_others now rid o : same_mail g m (fst (fst (deleteRoom m now fleet rid o))).
Proof.
  unfold deleteRoom, fleet_room. destruct (md_rooms m !! rid) as [r|] eqn:E; [|done].
  destruct (rm_fleet r ==? fleet) eqn:Hf; [|done]. bools. apply rooms_others.
  - apply filter_delete_others. intros u Hu. congruence.
  - rewrite fleet_members_lookup. apply select_delete_others. intros p _ Hp. bools. rewrite Hp. apply not_own_room.
    intros u Hu. congruence.
Qed.

Lemma createOperatorMessage_others cfg keys d now mid cor conv dly i d' m' c es :
  oi_fleet i = fleet -> createOperatorMessage cfg keys d m now mid cor conv dly i = (d', Ok (m', c, es)) ->
  mid ∉ map ms_id (md_messages m) -> same_mail g m m'.
Proof.
  intros Hf Hc Hid. pose proof (createOperatorMessage_owned cfg keys d m now mid cor conv dly i d' m' c es Hc) as Ho.
  apply createOperatorMessage_Ok in Hc as (_ & _ & msg & l & kind & rid & ty & -> & _ & _ & _ & <- & Hm & _).
  apply queue_message_others with (fleet := fleet); [done|congruence|by auto|].
  intros a Ha row Hrow. specialize (Ho a Ha). unfold owned_by in Ho. rewrite Hrow in Ho. bools. congruence.
Qed.

Lemma resumeConversation_others cfg nudge keys d now mid cor conv dly o c t d' m' c' es :
  resumeConversation cfg nudge keys d m now mid cor conv dly fleet o c t = (d', Ok (Some (m', c', es))) ->
  mid ∉ map ms_id (md_messages m) -> same_mail g m m'.
Proof.
  unfold resumeConversation. destruct (fleet_room m fleet c) as [room|].
  - destruct (createOperatorMessage _ _ _ _ _ _ _ _ _ _) as [d1 [[[m1 c1] es1]|]] eqn:Hs; [|done].
    intros [= <- <- _ _] Hid. by eapply createOperatorMessage_others; [|exact Hs|exact Hid].
  - destruct (_ ==? _); [done|]. destruct (ensureOperatorAgent d now fleet) as [d1 s].
    intros [= <- <- _ _] Hid. apply queue_message_others with (fleet := fleet); [done|done|by auto|]. by intros ? ?%elem_of_nil.
Qed.
End Rooms.

(** *** Feeds *)

Definition fleet_feeds (f : FeedDb) (g : string) : list FeedRow := select (fun r => fd_fleet r ==? g) (fb_feeds f).
Definition feed_of (f : FeedDb) (g i : string) : bool := exists_row (fleet_feed g i) (fb_feeds f).

Record same_feeds (g : string) (f f' : FeedDb) : Prop := {
  sf_feeds : fleet_feeds f' g = fleet_feeds f g;
  sf_subscribers : select (fun s => feed_of f' g (fst s)) (fb_subscribers f') = select (fun s => feed_of f g (fst s)) (fb_subscribers f);
  sf_seen : select (fun s => feed_of f' g (se_feed s)) (fb_seen f') = select (fun s => feed_of f g (se_feed s)) (fb_seen f)
}.

Lemma same_feeds_refl g f : same_feeds g f f.
Proof. done. Qed.
#[export] Hint Resolve same_feeds_refl : core.
Lemma same_feeds_trans g f1 f2 f3 : same_feeds g f1 f2 -> same_feeds g f2 f3 -> same_feeds g f1 f3.
Proof. intros [] []. split; by etrans. Qed.

Lemma feed_of_feeds f g i : feed_of f g i = exists_row (fun r => fd_id r ==? i) (fleet_feeds f g).
Proof.
  apply eq_iff_eq_true. unfold feed_of, fleet_feeds. rewrite !exists_row_true. unfold fleet_feed.
  setoid_rewrite elem_of_select. setoid_rewrite andb_true_iff. naive_solver.
Qed.

Section FeedTables.
Context (g fleet : string) (Hg : g <> fleet) (f : FeedDb).

(** Rows under feeds that are not the fleet's. *)
Lemma feeds_others feeds subs seen :
  select (fun r => fd_fleet r ==? g) feeds = fleet_feeds f g ->
  select (fun s => feed_of f g (fst s)) subs = select (fun s => feed_of f g (fst s)) (fb_subscribers f) ->
  select (fun s => feed_of f g (se_feed s)) seen = select (fun s => feed_of f g (se_feed s)) (fb_seen f) ->
  same_feeds g f (MkFeedDb feeds subs seen).
Proof.
  intros Hf Hs Hn. assert (Heq : forall i, feed_of (MkFeedDb feeds subs seen) g i = feed_of f g i).
  { intros i. rewrite !feed_of_feeds. unfold fleet_feeds at 1. cbn [fb_feeds]. by rewrite Hf. }
  split; [done|..]; cbn [fb_subscribers fb_seen]; (etrans; [|eassumption]); apply select_ext_in; intros; apply Heq.
Qed.

(** The primary key: an id of one fleet's feed is no other fleet's. *)
Lemma feed_of_others i : NoDup (map fd_id (fb_feeds f)) -> feed_of f fleet i = true -> feed_of f g i = false.
Proof.
  intros Hnd (r & Hr & Hrf)%exists_row_true. apply exists_row_false. intros x Hx. unfold fleet_feed in *. bools.
  destruct (_ ==? i) eqn:Hi; [|done]. simpl. bools. apply bool_decide_eq_false. intros Hxf.
  enough (x = r) by congruence. eapply (NoDup_map_inj fd_id); try done. congruence.
Qed.

Lemma feed_of_unknown i : i ∉ map fd_id (fb_feeds f) -> feed_of f g i = false.
Proof.
  intros Hi. apply exists_row_false. intros x Hx. unfold fleet_feed. destruct (_ ==? i) eqn:E; [|done]. bools. exfalso.
  apply Hi. subst. by apply list_elem_of_In, in_map, list_elem_of_In.
Qed.
End FeedTables.

Definition same_feed_world (g : string) (w w' : FeedWorld) : Prop :=
  same_agents g (fw_agents w) (fw_agents w') /\ same_mail g (fw_mail w) (fw_mail w') /\ same_feeds g (fw_feeds w) (fw_feeds w').

Lemma same_feed_world_trans g w1 w2 w3 : same_feed_world g w1 w2 -> same_feed_world g w2 w3 -> same_feed_world g w1 w3.
Proof.
  intros (?&?&?) (?&?&?). split_and!; [by eapply same_agents_trans|by eapply same_mail_trans|by eapply same_feeds_trans].
Qed.

Lemma only_feeds g w f : same_feeds g (fw_feeds w) f -> same_feed_world g w (with_feeds f w).
Proof. intros H. by split_and!. Qed.

Section FeedOps.
Context (g fleet : string) (Hg : g <> fleet) (w : FeedWorld) (Hnd : NoDup (map fd_id (fb_feeds (fw_feeds w)))).

Lemma createFeed_others now i o n u k l :
  i ∉ map fd_id (fb_feeds (fw_feeds w)) -> same_feed_world g w (fst (fst (createFeed w now i fleet o n u k l))).
Proof.
  intros Hi. apply only_feeds, feeds_others; [|..|done].
  - apply select_app_others. constructor; [by apply bool_decide_eq_false; simpl; congruence|done].
  - apply select_app_others. apply Forall_forall. intros s Hs. apply list_elem_of_In, in_map_iff in Hs as (a & <- & _).
    by apply feed_of_unknown.
Qed.

Lemma deleteFeed_others now i o : same_feed_world g w (fst (fst (deleteFeed w now fleet i o))).
Proof.
  unfold deleteFeed. destruct (exists_row _ _) eqn:E; [|by split_and!]. apply only_feeds, feeds_others.
  - apply select_delete_others. intros x _ Hx. unfold fleet_feed in Hx. bools. apply bool_decide_eq_false. congruence.
  - apply select_delete_others. intros s _ Hs. bools. rewrite Hs. by eapply feed_of_others.
  - apply select_delete_others. intros s _ Hs. bools. rewrite Hs. by eapply feed_of_others.
Qed.

Lemma setFeedSubscribers_others now i o l : same_feed_world g w (fst (fst (setFeedSubscribers w now fleet i o l))).
Proof.
  unfold setFeedSubscribers. destruct (exists_row _ _) eqn:E; [|by split_and!]. apply only_feeds, feeds_others; [done|..|done].
  rewrite select_app_others, select_delete_others; [done| |].
  - intros s _ Hs. bools. rewrite Hs. by eapply feed_of_others.
  - apply Forall_forall. intros s Hs. apply list_elem_of_In, in_map_iff in Hs as (a & <- & _). by eapply feed_of_others.
Qed.
End FeedOps.

Section FeedPoll.
Context (g fleet : string) (Hg : g <> fleet) (icon : string) (now : Z) (fx : FeedFresh) (feed : FeedRow).
Hypothesis Hfeed : fd_fleet feed = fleet.

Definition fresh_for (g : string) (m : MailDb) : Prop := forall n, ff_message fx n ∉ map ms_id (fleet_messages m g).

Lemma poll_item_others seeded subs acc item :
  fresh_for g (fw_mail (fst acc)) -> feed_of (fw_feeds (fst acc)) g (fd_id feed) = false ->
  same_feed_world g (fst acc) (fst (poll_item icon feed now now fx seeded subs acc item)).
Proof.
  destruct acc as [w delivered]. cbn [fst]. intros Hfr Hid. unfold poll_item.
  destruct (exists_row _ _); [by split_and!|].
  assert (Hseen : same_feed_world g w (with_feeds (MkFeedDb (fb_feeds (fw_feeds w)) (fb_subscribers (fw_feeds w))
    (fb_seen (fw_feeds w) ++ [MkSeen (fd_id feed) (fi_guid item) (fi_title item) (fi_link item) now])%list) w)).
  { apply only_feeds, feeds_others; [done|done|]. apply select_app_others. by constructor. }
  destruct (_ && _); [|done]. unfold deliverFeedItem. cbn [fw_agents fw_mail with_feeds].
  pose proof (ensureOperatorAgent_others g fleet Hg (fw_agents w) now) as Ha. rewrite <- Hfeed in Ha.
  destruct (ensureOperatorAgent _ _ _) as [d1 s]. cbn [fst] in *.
  eapply same_feed_world_trans; [exact Hseen|]. split_and!; [done| |done]. cbn [fw_mail with_feeds].
  apply queue_message_others with (fleet := fleet); [done|done|by apply Hfr|]. by intros ? ?%elem_of_nil.
Qed.

Lemma same_world_premises w w' :
  same_feed_world g w w' -> fresh_for g (fw_mail w) -> feed_of (fw_feeds w) g (fd_id feed) = false ->
  fresh_for g (fw_mail w') /\ feed_of (fw_feeds w') g (fd_id feed) = false.
Proof.
  intros (_ & Hm & Hf) H1 H2. split; [intros n; rewrite (sm_messages _ _ _ Hm); apply H1|].
  by rewrite feed_of_feeds, (sf_feeds _ _ _ Hf), <- feed_of_feeds.
Qed.

Lemma poll_items_others seeded subs items acc :
  fresh_for g (fw_mail (fst acc)) -> feed_of (fw_feeds (fst acc)) g (fd_id feed) = false ->
  same_feed_world g (fst acc) (fst (foldl (poll_item icon feed now now fx seeded subs) acc items)).
Proof.
  revert acc. induction items as [|item items IH]; intros acc H1 H2; [by split_and!|]. cbn [foldl].
  pose proof (poll_item_others seeded subs acc item H1 H2) as Hs. eapply same_feed_world_trans; [exact Hs|].
  destruct (same_world_premises _ _ Hs H1 H2). by apply IH.
Qed.
End FeedPoll.

Lemma pollFeed_others icon g fleet w now fx i net :
  g <> fleet -> NoDup (map fd_id (fb_feeds (fw_feeds w))) -> feed_of (fw_feeds w) fleet i = true ->
  (forall n, ff_message fx n ∉ map ms_id (md_messages (fw_mail w))) ->
  same_feed_world g w (fst (fst (pollFeed icon w now fx i net))) /\
  Forall (fun e => ev_fleet e = fleet) (snd (pollFeed icon w now fx i net)).
Proof.
  intros Hg Hnd Hi Hfr. pose proof (feed_of_others g fleet Hg _ i Hnd Hi) as Hid.
  unfold pollFeed, poll_begin_feed. destruct (select_one _ _) as [r|] eqn:Hr; [|by split_and!].
  apply select_one_Some in Hr as [Hr Hri]. bools. subst i.
  assert (Hrf : fd_fleet r = fleet).
  { apply exists_row_true in Hi as (x & Hx & Hxf). unfold fleet_feed in Hxf. bools.
    by rewrite <- (NoDup_map_inj fd_id _ x r Hnd Hx Hr) by done. }
  set (w1 := with_feeds _ w).
  assert (H1 : same_feed_world g w w1).
  { apply only_feeds, feeds_others; [|done|done]. apply select_update_others. intros x Hx Hxi. bools.
    rewrite (NoDup_map_inj fd_id _ x r Hnd Hx Hr) by done. split; apply bool_decide_eq_false; simpl; congruence. }
  unfold poll_finish_feed. destruct (truthy _) as [xml|]; [|by split].
  destruct (_ =? 0)%nat; [by split|]. destruct (negb _); [by split|].
  set (acc := foldl _ _ _).
  assert (Hacc : same_feed_world g w1 (fst acc)).
  { destruct (same_world_premises g fx r _ _ H1) as [H2 H3]; [intros n; by apply fresh_everywhere|done|].
    by apply (poll_items_others g fleet Hg icon now fx r Hrf _ _ _ (w1, [])). }
  destruct acc as [w2 delivered]. cbn [fst snd] in *. split; [by eapply same_feed_world_trans|].
  destruct (_ =? 0)%nat; [done|]. by constructor.
Qed.

(** *** Keys *)

(** Rows of the fleet, about something else than a message. *)
Definition side_events (fleet : string) (es : list Event) : Prop :=
  Forall (fun e => ev_fleet e = fleet /\ ev_resource_kind e <> "message") es.

Record same_keys (g : string) (k k' : KeyDb) : Prop := {
  sk_keys : forall i, kd_keys k' !! (g, i) = kd_keys k !! (g, i);
  sk_agent_keys : filter (fun kv => ak_fleet (snd kv) = g) (kd_agent_keys k') = filter (fun kv => ak_fleet (snd kv) = g) (kd_agent_keys k);
  sk_grants : select (fun x => g_fleet x ==? g) (kd_grants k') = select (fun x => g_fleet x ==? g) (kd_grants k)
}.

Lemma same_keys_refl g k : same_keys g k k.
Proof. done. Qed.
#[export] Hint Resolve same_keys_refl : core.

Section Keys.
Context `{Crypto} (g fleet : string) (Hg : g <> fleet) (db : KeyDb) (now : Z).

Lemma own_key_others k row : same_keys g db (with_keys (<[(fleet, k) := row]> (kd_keys db)) db).
Proof. split; try done. intros i. apply lookup_insert_ne. congruence. Qed.

Lemma registerOperatorKey_others pub label e actor db' kid es :
  registerOperatorKey db now fleet pub label e actor = Ok (db', kid, es) -> same_keys g db db' /\ side_events fleet es.
Proof.
  intros Hr. pose proof (registerOperatorKey_Ok _ _ _ _ _ _ _ _ _ _ Hr) as (_ & _ & -> & _).
  split; [apply own_key_others|]. unfold registerOperatorKey in Hr. destruct e; simpl in Hr; inv_ok Hr; by repeat constructor.
Qed.

(** A grant is spent by its id, and exactly one row changes. *)
Lemma consumeGrant_others x grants' :
  consumeGrant now (g_id x) (kd_grants db) = Ok grants' -> x ∈ kd_grants db -> armed now x = true -> g_fleet x = fleet ->
  select (fun y => g_fleet y ==? g) grants' = select (fun y => g_fleet y ==? g) (kd_grants db).
Proof.
  intros [-> Hn]%consumeGrant_Ok Hx Ha Hf. apply select_update_others. intros y Hy Hhit. unfold changes in Hn.
  assert (Hin : forall z, z ∈ kd_grants db -> (g_id z ==? g_id x) && armed now z = true ->
    z ∈ List.filter (fun g => (g_id g ==? g_id x) && armed now g) (kd_grants db)).
  { intros z Hz Hp. by apply list_elem_of_In, filter_In; rewrite <- list_elem_of_In. }
  pose proof (Hin y Hy Hhit) as H1. pose proof (Hin x Hx) as H2. rewrite bool_decide_true, Ha in H2 by done. specialize (H2 eq_refl).
  destruct (List.filter _ _) as [|z [|? ?]]; try done. apply list_elem_of_singleton in H1, H2. subst.
  split; apply bool_decide_eq_false; simpl; congruence.
Qed.

Lemma endorseOperatorKey_others k e actor db' es :
  endorseOperatorKey db now fleet k e actor = Ok (db', es) -> same_keys g db db' /\ side_events fleet es.
Proof.
  intros Hr. split.
  - apply endorseOperatorKey_Ok in Hr as (target & grants & _ & _ & _ & _ & Ha & _ & ->).
    destruct (own_key_others k (endorsed target e)) as [H1 H2 _]. split; [exact H1|exact H2|]. cbn [kd_grants with_grants].
    destruct Ha as [[_ ->]|(_ & x & Hx & Hc)]; [done|].
    apply requireRecoveryGrant_Ok in Hx as (Hin & Hf & _ & _ & Har & _). by eapply consumeGrant_others.
  - unfold endorseOperatorKey in Hr. destruct (endorserIsTrusted db fleet (e_by e) None); inv_ok Hr; by repeat constructor.
Qed.

Lemma revokeOperatorKey_others k s actor claimed db' out es :
  revokeOperatorKey db now fleet k s actor claimed = Ok (db', out, es) -> same_keys g db db' /\ side_events fleet es.
Proof.
  intros Hr. pose proof (revokeOperatorKey_Ok _ _ _ _ _ _ _ _ _ _ Hr) as (target & _ & Ht & _ & _ & _ & _ & _ & _ & _ & _ & _ & ->).
  split; [apply own_key_others|]. unfold revokeOperatorKey in Hr. rewrite Ht in Hr. inv_ok Hr; by repeat constructor.
Qed.

Lemma endorseAgentKey_others a k e actor db' es :
  endorseAgentKey db now fleet a k e actor = Ok (db', es) -> same_keys g db db' /\ side_events fleet es.
Proof.
  intros Hr. pose proof (endorseAgentKey_Ok _ _ _ _ _ _ _ _ _ Hr) as (row & _ & Hrow & Hf & _ & _ & _ & ->). split.
  - split; try done. apply filter_insert_others; [simpl; congruence|]. intros u Hu. congruence.
  - unfold endorseAgentKey in Hr. inv_ok Hr; by repeat constructor.
Qed.
End Keys.

(** *** The rows an operation logs *)

Ltac side := by repeat constructor.

Section Events.
Context (fleet : string) (now : Z).

Lemma controlAgent_events d ctl i o x p : side_events fleet (snd (controlAgent d now ctl fleet i o x p)).
Proof. unfold controlAgent. destruct (fleet_agent _ _ _); side. Qed.
Lemma setAgentTrust_events d i o t : side_events fleet (snd (setAgentTrust d now fleet i o t)).
Proof. unfold setAgentTrust. destruct (fleet_agent _ _ _); side. Qed.
Lemma setPeerAutoreply_events d i o r b : side_events fleet (snd (setPeerAutoreply d now fleet i o r b)).
Proof. unfold setPeerAutoreply. destruct (fleet_agent _ _ _); side. Qed.
Lemma approveOrReject_events d i o b : side_events fleet (snd (approveOrReject d now i fleet o b)).
Proof.
  unfold approveOrReject. destruct (ad_approvals d !! i) as [a|]; [|side]. destruct (_ && _) eqn:E; [|side]. bools.
  constructor; [by split|side].
Qed.
Lemma createRoom_events d m rid b o n l : side_events fleet (snd (createRoom d m now rid fleet b o n l)).
Proof. side. Qed.
Lemma setRoomProjectMode_events m rid o e b : side_events fleet (snd (setRoomProjectMode m now fleet rid o e b)).
Proof. unfold setRoomProjectMode. destruct (fleet_room _ _ _); side. Qed.
Lemma deleteRoom_events m rid o : side_events fleet (snd (deleteRoom m now fleet rid o)).
Proof. unfold deleteRoom. destruct (fleet_room _ _ _); side. Qed.
Lemma deleteFeed_events w i o : side_events fleet (snd (deleteFeed w now fleet i o)).
Proof. unfold deleteFeed. destruct (exists_row _ _); side. Qed.
Lemma setFeedSubscribers_events w i o l : side_events fleet (snd (setFeedSubscribers w now fleet i o l)).
Proof. unfold setFeedSubscribers. destruct (exists_row _ _); side. Qed.
Lemma updatePolicy_events ps i u : side_events fleet (snd (updatePolicy ps now i fleet u)).
Proof. unfold updatePolicy. destruct (negb _); [side|]. destruct (updates_nothing u); side. Qed.
Lemma deletePolicy_events ps i : side_events fleet (snd (deletePolicy ps now i fleet)).
Proof. unfold deletePolicy. destruct (_ <? _)%nat; side. Qed.

Lemma createOperatorMessage_events cfg keys d m mid cor conv dly i d' m' c es :
  createOperatorMessage cfg keys d m now mid cor conv dly i = (d', Ok (m', c, es)) ->
  Forall (fun e => ev_fleet e = oi_fleet i) es.
Proof.
  unfold createOperatorMessage. destruct (check_signer keys i); [done|].
  destruct (ensureOperatorAgent d now (oi_fleet i)) as [d1 s]. intros [= _ Hr]. inv_ok Hr; side.
Qed.

Lemma resumeConversation_events cfg nudge keys d m mid cor conv dly o c t d' m' c' es :
  resumeConversation cfg nudge keys d m now mid cor conv dly fleet o c t = (d', Ok (Some (m', c', es))) ->
  Forall (fun e => ev_fleet e = fleet) es.
Proof.
  unfold resumeConversation. destruct (fleet_room m fleet c) as [room|].
  - destruct (createOperatorMessage _ _ _ _ _ _ _ _ _ _) as [d1 [[[m1 c1] es1]|]] eqn:Hs; [|done].
    intros [= _ _ _ <-]. apply createOperatorMessage_events in Hs. apply Forall_app. split; [exact Hs|side].
  - destruct (_ ==? _); [done|]. destruct (ensureOperatorAgent d now fleet) as [d1 s]. intros [= _ _ _ <-]. side.
Qed.
End Events.

(** *** Uploads *)

Lemma postOperatorAttachment_others `{BufferApi} cfg g fleet w now i o r :
  g <> fleet -> md_attachments (aw_mail w) !! i = None ->
  let out := postOperatorAttachment cfg w now i fleet o r in
  same_agents g (aw_agents w) (aw_agents (fst (fst out))) /\ same_mail g (aw_mail w) (aw_mail (fst (fst out))) /\
  side_events fleet (snd out).
Proof.
  intros Hg Hi. cbv zeta. unfold postOperatorAttachment. destruct (check_upload cfg r) as [bytes|e]; [|by split_and!; [..|side]].
  pose proof (uploadLimit_others g fleet (aw_agents w) cfg now o) as Ha.
  assert (He : side_events fleet (snd (checkAndIncrementUploadLimit cfg (aw_agents w) now o fleet))).
  { unfold checkAndIncrementUploadLimit. destruct (_ <=? _); side. }
  destruct (checkAndIncrementUploadLimit _ _ _ _ _) as [[d1 rate] es1]. cbn [fst snd] in *.
  destruct (negb _); [done|]. unfold store_upload. destruct (_ <? _); cbn [fst snd].
  { split_and!; [done..|]. by rewrite app_nil_r. }
  split_and!; [done| |apply Forall_app; split; [done|side]].
  split; try done. cbn. apply filter_insert_others; [simpl; congruence|]. intros u Hu. congruence.
Qed.

(** ** A request, seen from another fleet *)

(** Nothing of the fleet differs. *)
Record untouched (g : string) (w w' : OpWorld) : Prop := {
  un_agents : same_agents g (ow_agents w) (ow_agents w');
  un_mail : same_mail g (ow_mail w) (ow_mail w');
  un_keys : same_keys g (ow_keys w) (ow_keys w');
  un_tokens : select (fun t => t_fleet t ==? g) (ed_tokens (ow_enroll w')) = select (fun t => t_fleet t ==? g) (ed_tokens (ow_enroll w));
  un_policies : select (fun p => po_fleet p ==? g) (ow_policies w') = select (fun p => po_fleet p ==? g) (ow_policies w);
  un_feeds : same_feeds g (ow_feeds w) (ow_feeds w');
  un_log : fleet_events (ow_log w') g = fleet_events (ow_log w) g
}.

(** The ids a request draws are new. *)
Record fresh (fx : Fresh) (w : OpWorld) : Prop := {
  fs_message : fr_id fx ∉ map ms_id (md_messages (ow_mail w));
  fs_room : md_rooms (ow_mail w) !! fr_id fx = None;
  fs_thread : forall x, x ∈ md_messages (ow_mail w) -> ms_conversation x <> fr_id fx;
  fs_attachment : md_attachments (ow_mail w) !! fr_id fx = None;
  fs_feed : fr_id fx ∉ map fd_id (fb_feeds (ow_feeds w));
  fs_items : forall n, ff_message (fr_feed fx) n ∉ map ms_id (md_messages (ow_mail w));
  fs_distinct : forall n k, ff_message (fr_feed fx) n = ff_message (fr_feed fx) k -> n = k
}.

Lemma untouched_refl g w : untouched g w w.
Proof. done. Qed.
#[export] Hint Resolve untouched_refl : core.

Lemma event_rows_others fx g fleet es :
  g <> fleet -> Forall (fun e => ev_fleet e = fleet) es -> Forall (fun x => (ev_fleet (ex_event x) ==? g) = false) (event_rows fx es).
Proof.
  intros Hg Hes. apply Forall_forall. intros x Hx. unfold event_rows in Hx. apply elem_of_lookup_imap in Hx as (n & e & -> & He).
  rewrite Forall_forall in Hes. specialize (Hes e (list_elem_of_lookup_2 _ _ _ He)). apply bool_decide_eq_false. simpl. congruence.
Qed.

Lemma untouched_logged fx g fleet es w w' :
  g <> fleet -> untouched g w w' -> Forall (fun e => ev_fleet e = fleet) es -> untouched g w (logged fx es w').
Proof.
  intros Hg [H1 H2 H3 H4 H5 H6 H7] Hes. split; try done. etrans; [|exact H7]. unfold fleet_events.
  apply select_app_others. by eapply event_rows_others.
Qed.

Lemma side_fleet fleet es : side_events fleet es -> Forall (fun e => ev_fleet e = fleet) es.
Proof. intros H. eapply Forall_impl; [exact H|]. by intros e []. Qed.

Lemma untouched_side fx g fleet es w w' :
  g <> fleet -> untouched g w w' -> side_events fleet es -> untouched g w (logged fx es w').
Proof. intros Hg Hu Hes%side_fleet. by eapply untouched_logged. Qed.

Lemma agents_untouched g w d : same_agents g (ow_agents w) d -> untouched g w (with_ow_agents d w).
Proof. intros H. by split. Qed.
Lemma mail_untouched g w m : same_mail g (ow_mail w) m -> untouched g w (with_ow_mail m w).
Proof. intros H. by split. Qed.
Lemma keys_untouched g w k : same_keys g (ow_keys w) k -> untouched g w (with_ow_keys k w).
Proof. intros H. by split. Qed.
Lemma both_untouched g w d m :
  same_agents g (ow_agents w) d -> same_mail g (ow_mail w) m -> untouched g w (with_ow_mail m (with_ow_agents d w)).
Proof. intros H1 H2. by split. Qed.
Lemma feeds_untouched g w f : same_feed_world g (feed_world w) f -> untouched g w (with_feed_world f w).
Proof. intros (H1 & H2 & H3). by split. Qed.
Lemma policies_untouched g w ps :
  select (fun p => po_fleet p ==? g) ps = select (fun p => po_fleet p ==? g) (ow_policies w) -> untouched g w (with_ow_policies ps w).
Proof. intros H. by split. Qed.

Section Requests.
Context `{Crypto} `{NodeCrypto} `{BufferApi} `{FeedUrlApi} `{ZodFormats} (cfg : Config) (ac : AccessConfig).
Context (icon nudge : string) (net : string -> option string).
Context (g fleet operator : string) (Hg : g <> fleet).
Context (w : OpWorld) (now : Z) (fx : Fresh) (Hfresh : fresh fx w).
Hypothesis Hops : operators_ok (ow_agents w).
Hypothesis Hcontrols : controls_ok (ow_agents w).
Hypothesis Hfeeds : NoDup (map fd_id (fb_feeds (ow_feeds w))).
Hypothesis Hsession : operatorBelongsToFleet (ow_agents w) operator fleet = true.

Lemma with_body_untouched {A} (schema : parser A) body (k : A -> handler) :
  (forall b, untouched g w (fst (k b w now fx operator fleet))) ->
  untouched g w (fst (with_body schema body k w now fx operator fleet)).
Proof. intros Hk. unfold with_body. destruct body as [j|]; [|done]. by destruct (schema j). Qed.

Lemma operator_message_untouched body : untouched g w (fst (postOperatorMessage cfg body w now fx operator fleet)).
Proof.
  apply with_body_untouched. intros b. destruct (channel_refused fleet b); [done|].
  set (i := MkOperatorMessageInput _ _ _ _ _ _ _ _ _ _).
  assert (Hd : same_agents g (ow_agents w) (fst (createOperatorMessage cfg (ow_keys w) (ow_agents w) (ow_mail w) now (fr_id fx)
    (fr_correlation fx) (fr_conversation fx) (fr_delivery fx) i))).
  { unfold createOperatorMessage. destruct (check_signer _ _); [done|].
    pose proof (ensureOperatorAgent_others g fleet Hg (ow_agents w) now). by destruct (ensureOperatorAgent _ _ _). }
  destruct (createOperatorMessage _ _ _ _ _ _ _ _ _ _) as [d [[[m c] es]|e]] eqn:Hc; cbn [fst] in Hd;
    [|by apply agents_untouched].
  pose proof (createOperatorMessage_events _ _ _ _ _ _ _ _ _ _ _ _ _ _ Hc) as He.
  eapply untouched_logged; [exact Hg| |exact He].
  apply both_untouched; [done|]. eapply createOperatorMessage_others; [exact Hg| |exact Hc|apply Hfresh]. done.
Qed.

Lemma resume_untouched c body : untouched g w (fst (postResume cfg nudge c body w now fx operator fleet)).
Proof.
  apply with_body_untouched. intros t.
  assert (Hd : same_agents g (ow_agents w) (fst (resumeConversation cfg nudge (ow_keys w) (ow_agents w) (ow_mail w) now (fr_id fx)
    (fr_correlation fx) (fr_conversation fx) (fr_delivery fx) fleet operator c t))).
  { unfold resumeConversation. pose proof (ensureOperatorAgent_others g fleet Hg (ow_agents w) now) as He.
    destruct (fleet_room _ _ _).
    - unfold createOperatorMessage. destruct (check_signer _ _); [done|]. by destruct (ensureOperatorAgent _ _ _).
    - destruct (_ ==? _); [done|]. by destruct (ensureOperatorAgent _ _ _). }
  destruct (resumeConversation _ _ _ _ _ _ _ _ _ _ _ _ _ _) as [d [[[[m c'] es]|]|e]] eqn:Hc; cbn [fst] in Hd;
    [|by apply agents_untouched..].
  eapply untouched_logged; [exact Hg| |by eapply resumeConversation_events].
  apply both_untouched; [done|]. eapply resumeConversation_others; [exact Hg|exact Hc|apply Hfresh].
Qed.

Lemma upload_untouched body : untouched g w (fst (postUpload cfg body w now fx operator fleet)).
Proof.
  apply with_body_untouched. intros b.
  destruct (postOperatorAttachment_others cfg g fleet (ow_store w) now (fr_id fx) operator b Hg) as (Ha & Hm & He); [apply Hfresh|].
  destruct (postOperatorAttachment _ _ _ _ _ _ _) as [[s r] es]. cbn [fst snd] in *.
  eapply untouched_side; [exact Hg| |exact He]. by split.
Qed.

Lemma profile_untouched body : untouched g w (fst (patchProfile body w now fx operator fleet)).
Proof.
  apply with_body_untouched. intros name. unfold operatorBelongsToFleet in Hsession.
  destruct (ad_operators (ow_agents w) !! operator) as [o|] eqn:E; [|done]. bools.
  pose proof (setOperatorDisplayName_others g fleet Hg (ow_agents w) now operator o name Hops E Hsession) as Hd.
  destruct (setOperatorDisplayName _ _ _ _) as [d p]. by apply agents_untouched.
Qed.

Lemma feed_poll_untouched i : untouched g w (fst (postFeedPoll icon net i w now fx operator fleet)).
Proof.
  unfold postFeedPoll, getFeedItems. destruct (exists_row _ _) eqn:Hi; [|done].
  destruct (pollFeed_others icon g fleet (feed_world w) now (fr_feed fx) i net Hg Hfeeds Hi) as [Hs He]; [apply Hfresh|].
  destruct (pollFeed _ _ _ _ _ _) as [[f r] es]. cbn [fst snd] in *.
  eapply untouched_logged; [exact Hg| |exact He]. by apply feeds_untouched.
Qed.
Lemma view_untouched q page : untouched g w (fst (answer_view q page w now fx operator fleet)).
Proof. done. Qed.

(** A handler that is a guard and one operation with the rows it logs. *)
Ltac one_op Hs He :=
  let T := type of Hs in
  match T with context [fst (fst ?o)] =>
    let a := fresh "a" in let r := fresh "r" in let es := fresh "es" in
    pose proof Hs; pose proof He; destruct o as [[a r] es]; cbn [fst snd] in *; eapply untouched_side; [exact Hg| |eassumption]
  end.

Lemma agent_call_untouched c q body :
  match c with
  | POST_approval _ _ | POST_trust _ | POST_peer_autoreply _ | POST_control _ _ =>
      untouched g w (fst (operator_handler cfg icon nudge net c q body w now fx operator fleet))
  | _ => True
  end.
Proof.
  destruct c as [| | | | | | | | | | | | | | | | | | | | | | |i decision|i|i| | | | | | | | | | | |i x| | | | | | |]; try exact I;
    cbn [operator_handler].
  - unfold postDecision. destruct (_ && _); [done|].
    one_op (approveOrReject_others g fleet Hg (ow_agents w) now i operator (decision ==? "approve"))
      (approveOrReject_events fleet now (ow_agents w) i operator (decision ==? "approve")). by apply agents_untouched.
  - apply with_body_untouched. intros b. one_op (setAgentTrust_others g fleet Hg (ow_agents w) now i operator b)
      (setAgentTrust_events fleet now (ow_agents w) i operator b). by apply agents_untouched.
  - apply with_body_untouched. intros b. one_op (setPeerAutoreply_others g fleet Hg (ow_agents w) now i operator (fst b) (snd b))
      (setPeerAutoreply_events fleet now (ow_agents w) i operator (fst b) (snd b)). by apply agents_untouched.
  - apply with_body_untouched. intros b. destruct (control_of x) as [y|]; [|done].
    pose proof (controlAgent_others g fleet Hg (ow_agents w) (fr_id fx) now i operator y) as Hs.
    match goal with |- context [controlAgent _ _ _ _ _ _ _ ?p] => specialize (Hs p Hcontrols);
      pose proof (controlAgent_events fleet now (ow_agents w) (fr_id fx) i operator y p) as He end.
    one_op Hs He. by apply agents_untouched.
Qed.

Lemma room_call_untouched c q body :
  match c with
  | POST_rooms | DELETE_room _ | POST_project_mode _ =>
      untouched g w (fst (operator_handler cfg icon nudge net c q body w now fx operator fleet))
  | _ => True
  end.
Proof.
  destruct c; try exact I; cbn [operator_handler].
  - apply with_body_untouched. intros b. one_op (createRoom_others g fleet Hg (ow_mail w) (ow_agents w) now (fr_id fx) false operator
      (fst b) (snd b) (fs_room _ _ Hfresh)) (createRoom_events fleet now (ow_agents w) (ow_mail w) (fr_id fx) false operator (fst b) (snd b)).
    by apply mail_untouched.
  - unfold deleteRoomRoute. one_op (deleteRoom_others g fleet Hg (ow_mail w) now roomId operator)
      (deleteRoom_events fleet now (ow_mail w) roomId operator). by apply mail_untouched.
  - apply with_body_untouched. intros b. one_op (setRoomProjectMode_others g fleet Hg (ow_mail w) now roomId operator (fst b) (snd b))
      (setRoomProjectMode_events fleet now (ow_mail w) roomId operator (fst b) (snd b)). by apply mail_untouched.
Qed.

Lemma feed_call_untouched c q body :
  match c with
  | POST_feeds | DELETE_feed _ | POST_feed_subscribers _ | POST_feed_poll _ =>
      untouched g w (fst (operator_handler cfg icon nudge net c q body w now fx operator fleet))
  | _ => True
  end.
Proof.
  destruct c; try exact I; cbn [operator_handler]; [..|apply feed_poll_untouched].
  - apply with_body_untouched. intros b. destruct (negb _); [done|].
    pose proof (createFeed_others g fleet Hg (feed_world w) now (fr_id fx) operator (fe_name b) (fe_url b) (fe_minutes b)
      (fe_subscribers b) (fs_feed _ _ Hfresh)) as Hs.
    unfold createFeed in *. cbn [fst snd] in *. eapply untouched_side; [exact Hg|by apply feeds_untouched|side].
  - unfold deleteFeedRoute. one_op (deleteFeed_others g fleet Hg (feed_world w) Hfeeds now feedId operator)
      (deleteFeed_events fleet now (feed_world w) feedId operator). by apply feeds_untouched.
  - apply with_body_untouched. intros b. one_op (setFeedSubscribers_others g fleet Hg (feed_world w) Hfeeds now feedId operator b)
      (setFeedSubscribers_events fleet now (feed_world w) feedId operator b). by apply feeds_untouched.
Qed.

Lemma key_call_untouched c q body :
  match c with
  | POST_keys | POST_key_endorse _ | POST_key_revoke _ | POST_agent_endorse _ =>
      untouched g w (fst (operator_handler cfg icon nudge net c q body w now fx operator fleet))
  | _ => True
  end.
Proof.
  destruct c; try exact I; cbn [operator_handler]; apply with_body_untouched; intros b; cbv zeta.
  - destruct (registerOperatorKey _ _ _ _ _ _ _) as [[[k i] es]|] eqn:E; [|done].
    apply (registerOperatorKey_others g fleet Hg) in E as [? ?]. eapply untouched_side; [exact Hg|by apply keys_untouched|done].
  - destruct (endorseOperatorKey _ _ _ _ _ _) as [[k es]|] eqn:E; [|done].
    apply (endorseOperatorKey_others g fleet Hg) in E as [? ?]. eapply untouched_side; [exact Hg|by apply keys_untouched|done].
  - destruct (revokeOperatorKey _ _ _ _ _ _ _) as [[[k [? ?]] es]|] eqn:E; [|done].
    apply (revokeOperatorKey_others g fleet Hg) in E as [? ?]. eapply untouched_side; [exact Hg|by apply keys_untouched|done].
  - destruct (endorseAgentKey _ _ _ _ _ _ _) as [[k es]|] eqn:E; [|done].
    apply (endorseAgentKey_others g fleet Hg) in E as [? ?]. eapply untouched_side; [exact Hg|by apply keys_untouched|done].
Qed.

Lemma policy_call_untouched c q body :
  match c with
  | POST_policies | PUT_policy _ | DELETE_policy _ =>
      untouched g w (fst (operator_handler cfg icon nudge net c q body w now fx operator fleet))
  | _ => True
  end.
Proof.
  destruct c; try exact I; cbn [operator_handler].
  - apply with_body_untouched. intros b. unfold createPolicy. cbn [fst]. eapply untouched_side; [exact Hg| |side].
    apply policies_untouched, select_app_others. constructor; [by apply bool_decide_eq_false; simpl; congruence|done].
  - apply with_body_untouched. intros b. pose proof (updatePolicy_events fleet now (ow_policies w) policyId b) as He.
    assert (Hp : select (fun p => po_fleet p ==? g) (fst (fst (updatePolicy (ow_policies w) now policyId fleet b))) =
                 select (fun p => po_fleet p ==? g) (ow_policies w)).
    { unfold updatePolicy. destruct (negb _); [done|]. destruct (updates_nothing b); [done|]. cbn [fst].
      apply select_update_others. intros x _ Hx. unfold own_policy in Hx. bools. split; apply bool_decide_eq_false; simpl; congruence. }
    one_op Hp He. by apply policies_untouched.
  - unfold deletePolicyRoute. pose proof (deletePolicy_events fleet now (ow_policies w) policyId) as He.
    assert (Hp : select (fun p => po_fleet p ==? g) (fst (fst (deletePolicy (ow_policies w) now policyId fleet))) =
                 select (fun p => po_fleet p ==? g) (ow_policies w)).
    { unfold deletePolicy. destruct (_ <? _)%nat; [|done]. cbn [fst].
      apply select_delete_others. intros x _ Hx. unfold own_policy in Hx. bools. apply bool_decide_eq_false. congruence. }
    one_op Hp He. by apply policies_untouched.
Qed.

Lemma handler_untouched c q body :
  untouched g w (fst (operator_handler cfg icon nudge net c q body w now fx operator fleet)).
Proof.
  pose proof (agent_call_untouched c q body). pose proof (room_call_untouched c q body).
  pose proof (feed_call_untouched c q body). pose proof (key_call_untouched c q body).
  pose proof (policy_call_untouched c q body).
  destruct c; try assumption; cbn [operator_handler];
    first [done | apply profile_untouched | apply operator_message_untouched | apply upload_untouched | apply resume_untouched | idtac].
  split; try done. cbn. apply select_app_others. constructor; [by apply bool_decide_eq_false; simpl; congruence|done].
Qed.
End Requests.

(** ** The invariants survive *)

(** Every subscriber of a feed is an agent of the feed's fleet. *)
Definition subscribers_ok (d : AgentDb) (f : FeedDb) : Prop :=
  forall i a, (i, a) ∈ fb_subscribers f -> exists r, r ∈ fb_feeds f /\ fd_id r = i /\ same_fleet d (fd_fleet r) a.

(** What the views and the routes rest on, for a log. *)
Record tables_ok (log : list Event) (w : FeedWorld) : Prop := {
  tk_reach : reachable_ok (fw_agents w, fw_mail w, log);
  tk_controls : controls_ok (fw_agents w);
  tk_feed_ids : NoDup (map fd_id (fb_feeds (fw_feeds w)));
  tk_subscribers : subscribers_ok (fw_agents w) (fw_feeds w)
}.

Definition world_ok (w : OpWorld) : Prop := tables_ok (ex_event <$> ow_log w) (feed_world w).

Lemma log_rows w fx es : ex_event <$> ow_log (logged fx es w) = ((ex_event <$> ow_log w) ++ es)%list.
Proof.
  cbn. rewrite fmap_app. f_equal. unfold event_rows. generalize (fr_event fx) as k. induction es as [|e es IH]; intros k; [done|].
  cbn. f_equal. apply IH.
Qed.

Lemma reachable_side d m log es :
  reachable_ok (d, m, log) -> Forall (fun e => ev_resource_kind e <> "message") es -> reachable_ok (d, m, (log ++ es)%list).
Proof.
  intros [H1 H2 H3] Hes. split; [done| |done]. intros e [He|He]%elem_of_app Hk; [by apply H2|].
  rewrite Forall_forall in Hes. by destruct (Hes e He).
Qed.

Lemma side_kinds fleet es : side_events fleet es -> Forall (fun e => ev_resource_kind e <> "message") es.
Proof. intros H. eapply Forall_impl; [exact H|]. by intros e []. Qed.

Lemma subscribers_grow d d' f : agents_grow d d' -> subscribers_ok d f -> subscribers_ok d' f.
Proof. intros Hg H i a Hi. destruct (H i a Hi) as (r & Hr & Hri & Hf). exists r. split_and!; [done..|]. by eapply same_fleet_grow. Qed.

(** Controls come from a control of the agent. *)
Definition control_origin (d d' : AgentDb) : Prop :=
  forall c, c ∈ ad_controls d' ->
    (exists b, b ∈ ad_controls d /\ c_fleet b = c_fleet c /\ c_target b = c_target c) \/ same_fleet d (c_fleet c) (c_target c).

Lemma control_origin_same d d' : ad_controls d' = ad_controls d -> control_origin d d'.
Proof. intros He c Hc. left. exists c. by rewrite <- He. Qed.

Lemma controls_grow d d' : agents_grow d d' -> control_origin d d' -> controls_ok d -> controls_ok d'.
Proof.
  intros Hg Ho Hok c Hc. eapply same_fleet_grow; [exact Hg|]. destruct (Ho c Hc) as [(b & Hb & <- & <-)|]; [by apply Hok|done].
Qed.

Lemma controlAgent_origin d now ctl f i o x p : control_origin d (fst (fst (controlAgent d now ctl f i o x p))).
Proof.
  unfold controlAgent. destruct (fleet_agent d f i) as [a|] eqn:E; [|by apply control_origin_same].
  apply fleet_agent_Some in E as (Hi & Hf & _). intros c. cbn [fst ad_controls with_controls].
  rewrite elem_of_app, list_elem_of_singleton. intros [Hc| ->]; [left|right; by exists a].
  destruct (_ ==? _); [|by exists c]. unfold expire_controls in Hc.
  apply elem_of_update_where in Hc as (b & Hb & ->). exists b. by destruct (_ && _).
Qed.

Section Keeps.
Context `{NodeCrypto} (cfg : Config) (now : Z).

(** An operation on agents. *)
Lemma agents_keep log w op es fleet :
  tables_ok log w -> enrols_an_agent op -> side_events fleet es ->
  control_origin (fw_agents w) (exec cfg (fw_agents w) now op) ->
  tables_ok (log ++ es)%list (MkFeedWorld (exec cfg (fw_agents w) now op) (fw_mail w) (fw_feeds w)).
Proof.
  intros [H1 H2 H3 H4] Hop Hes Hc. pose proof (exec_grow cfg (fw_agents w) now op) as Hgr.
  split; [|by eapply controls_grow|done|by eapply subscribers_grow].
  apply reachable_side; [|by eapply side_kinds]. rewrite <- (app_nil_r log).
  eapply (logged_step_ok cfg now (fw_agents w, fw_mail w, log)); [|done]. by apply lg_other; [constructor|].
Qed.

(** A step of the mail tables that leaves the agents as they are. *)
Lemma mail_keep log w m es fleet :
  tables_ok log w -> relay_step cfg now (fw_agents w, fw_mail w) (fw_agents w, m) -> side_events fleet es ->
  tables_ok (log ++ es)%list (MkFeedWorld (fw_agents w) m (fw_feeds w)).
Proof.
  intros [H1 H2 H3 H4] Hs Hes. split; try done. eapply (logged_step_ok cfg now); [|exact H1].
  apply lg_other; [done|]. by eapply side_kinds.
Qed.

Lemma side_keep log w es fleet : tables_ok log w -> side_events fleet es -> tables_ok (log ++ es)%list w.
Proof. intros [H1 H2 H3 H4] Hes. split; try done. apply reachable_side; [done|]. by eapply side_kinds. Qed.

(** A step that may create the operator's agent and a message. *)
Lemma send_keep log w d m es :
  tables_ok log w -> logged_step cfg now (fw_agents w, fw_mail w, log) (d, m, (log ++ es)%list) ->
  ad_controls d = ad_controls (fw_agents w) -> agents_grow (fw_agents w) d ->
  tables_ok (log ++ es)%list (MkFeedWorld d m (fw_feeds w)).
Proof.
  intros [H1 H2 H3 H4] Hs Hc Hgr. split; [by eapply logged_step_ok| |done|by eapply subscribers_grow].
  eapply controls_grow; [done|by apply control_origin_same|done].
Qed.
End Keeps.

(** *** Feeds keep the invariants *)

Lemma feeds_only_keep log w f es fleet :
  tables_ok log w -> NoDup (map fd_id (fb_feeds f)) -> subscribers_ok (fw_agents w) f -> side_events fleet es ->
  tables_ok (log ++ es)%list (with_feeds f w).
Proof. intros [H1 H2 H3 H4] Hn Hs Hes. split; try done. apply reachable_side; [done|]. by eapply side_kinds. Qed.

Lemma valid_subscribers_fleet d fleet l a : a ∈ valid_subscribers d fleet l -> same_fleet d fleet a.
Proof.
  unfold valid_subscribers. intros Ha. apply list_elem_of_In, filter_In in Ha as [_ Ha].
  destruct (ad_agents d !! a) as [x|] eqn:E; [|done]. exists x. split; [done|]. unfold live_member in Ha. by bools.
Qed.

Section FeedKeeps.
Context (fleet : string) (now : Z) (log : list Event) (w : FeedWorld) (Hok : tables_ok log w).

Lemma createFeed_keep i o n u k l :
  i ∉ map fd_id (fb_feeds (fw_feeds w)) ->
  tables_ok (log ++ snd (createFeed w now i fleet o n u k l))%list (fst (fst (createFeed w now i fleet o n u k l))).
Proof.
  intros Hi. unfold createFeed. cbn [fst snd]. apply (feeds_only_keep _ _ _ _ fleet); [done|..|side].
  - cbn [fb_feeds]. rewrite map_app. apply NoDup_app. split_and!; [apply Hok| |by repeat constructor; intros ?%elem_of_nil].
    intros j Hj ->%list_elem_of_singleton. done.
  - intros j a [Hj|Hj]%elem_of_app; cbn [fb_feeds].
    + destruct (tk_subscribers _ _ Hok j a Hj) as (r & Hr & Hri). exists r. split; [apply elem_of_app; by left|done].
    + apply list_elem_of_In, in_map_iff in Hj as (b & [= <- <-] & Hb). eexists. split; [apply elem_of_app; right; by left|].
      split; [done|]. apply (valid_subscribers_fleet _ _ l). by apply list_elem_of_In.
Qed.

Lemma deleteFeed_keep i o :
  tables_ok (log ++ snd (deleteFeed w now fleet i o))%list (fst (fst (deleteFeed w now fleet i o))).
Proof.
  pose proof (deleteFeed_events fleet now w i o) as He. unfold deleteFeed in *. destruct (exists_row _ _).
  - apply (feeds_only_keep _ _ _ _ fleet); [done| | |done].
    + eapply sublist_NoDup; [apply (tk_feed_ids _ _ Hok)|]. apply sublist_map, filter_sublist.
    + intros j a. cbn [fb_subscribers fb_feeds]. rewrite elem_of_delete_where. intros [Hj Hne]. bools.
      destruct (tk_subscribers _ _ Hok j a Hj) as (r & Hr & Hri & Hf). exists r. split; [|done].
      apply elem_of_delete_where. split; [done|]. unfold fleet_feed. simpl in Hne. by rewrite bool_decide_false by congruence.
  - cbn. by rewrite app_nil_r.
Qed.

Lemma setFeedSubscribers_keep i o l :
  tables_ok (log ++ snd (setFeedSubscribers w now fleet i o l))%list (fst (fst (setFeedSubscribers w now fleet i o l))).
Proof.
  pose proof (setFeedSubscribers_events fleet now w i o l) as He. unfold setFeedSubscribers in *. destruct (exists_row _ _) eqn:E.
  - apply (feeds_only_keep _ _ _ _ fleet); [done|apply Hok| |done].
    intros j a. cbn [fb_subscribers fb_feeds]. rewrite elem_of_app, elem_of_delete_where. intros [[Hj _]|Hj].
    + by apply (tk_subscribers _ _ Hok).
    + apply list_elem_of_In, in_map_iff in Hj as (b & [= <- <-] & Hb). apply exists_row_true in E as (r & Hr & Hrf).
      unfold fleet_feed in Hrf. bools. exists r. split_and!; [done..|]. replace (fd_fleet r) with fleet by congruence.
      apply (valid_subscribers_fleet _ _ l). by apply list_elem_of_In.
  - cbn. by rewrite app_nil_r.
Qed.
End FeedKeeps.

Lemma ensureOperatorAgent_rest d now f :
  snd (ensureOperatorAgent d now f) = operator_agent f /\ ad_controls (fst (ensureOperatorAgent d now f)) = ad_controls d /\
  ad_approvals (fst (ensureOperatorAgent d now f)) = ad_approvals d.
Proof. unfold ensureOperatorAgent. by destruct (ad_agents d !! _). Qed.

Section PollKeeps.
Context (icon : string) (now : Z) (fx : FeedFresh) (feed : FeedRow) (log : list Event).
Hypothesis Hdistinct : forall n k, ff_message fx n = ff_message fx k -> n = k.

(** A message of the feed to agents of its fleet. *)
Lemma deliver_keep w mid cor dly item subs :
  tables_ok log w -> mid ∉ map ms_id (md_messages (fw_mail w)) ->
  (forall a, a ∈ subs -> same_fleet (fw_agents w) (fd_fleet feed) a) ->
  let '(d, m) := deliverFeedItem icon (fw_agents w) (fw_mail w) now mid cor dly (fd_fleet feed) (fd_id feed) (fd_name feed) item subs in
  tables_ok log (MkFeedWorld d m (fw_feeds w)) /\ agents_grow (fw_agents w) d.
Proof.
  intros [[H1 H2 H3] H4 H5 H6] Hid Hsubs. unfold deliverFeedItem. cbn [fst snd] in *.
  destruct (ensureOperatorAgent_ok (H := toy_node) default_config (fw_agents w) now (fd_fleet feed) (ro_operators _ _ H1)) as (Hgr & Ho & Hsf).
  pose proof (ensureOperatorAgent_rest (fw_agents w) now (fd_fleet feed)) as (Hs & Hc & Ha).
  destruct (ensureOperatorAgent _ _ _) as [d s]. cbn [fst snd] in *. subst s. split; [|done].
  split; cbn [fw_agents fw_mail fw_feeds]; [split; cbn [fst snd]|..].
  - apply queue_message_relay_ok; simpl; [by eapply relay_ok_grow|done|done|by left|].
    intros a Hin. eapply same_fleet_grow; [done|]. by apply Hsubs.
  - intros e He Hk. unfold contents. cbn. rewrite map_app. by apply about_app, H2.
  - eapply approvals_ok_step; [exact Hgr|by apply approval_origin_same|exact H3].
  - eapply controls_grow; [done|by apply control_origin_same|done].
  - done.
  - by eapply subscribers_grow.
Qed.

(** One item: what has been delivered counts the ids that are used. *)
Lemma poll_item_keep seeded subs w delivered item :
  tables_ok log w -> (forall n, (length delivered <= n)%nat -> ff_message fx n ∉ map ms_id (md_messages (fw_mail w))) ->
  (forall a, a ∈ subs -> same_fleet (fw_agents w) (fd_fleet feed) a) ->
  let '(w', delivered') := poll_item icon feed now now fx seeded subs (w, delivered) item in
  tables_ok log w' /\ (forall n, (length delivered' <= n)%nat -> ff_message fx n ∉ map ms_id (md_messages (fw_mail w'))) /\
  (forall a, a ∈ subs -> same_fleet (fw_agents w') (fd_fleet feed) a).
Proof.
  intros Hok Hfr Hsubs. unfold poll_item. destruct (exists_row _ _); [done|].
  set (w1 := with_feeds _ w).
  assert (Hw1 : tables_ok log w1).
  { rewrite <- (app_nil_r log). apply (feeds_only_keep _ _ _ _ ""); [done|apply Hok|apply Hok|side]. }
  destruct (_ && _); [|done].
  pose proof (deliver_keep w1 (ff_message fx (length delivered)) (ff_correlation fx (length delivered))
    (ff_delivery fx (length delivered)) item subs Hw1 (Hfr _ (le_n _)) Hsubs) as Hd.
  assert (Hm : forall n, (length (delivered ++ [item]) <= n)%nat -> ff_message fx n ∉ map ms_id (md_messages (snd
    (deliverFeedItem icon (fw_agents w1) (fw_mail w1) now (ff_message fx (length delivered)) (ff_correlation fx (length delivered))
      (ff_delivery fx (length delivered)) (fd_fleet feed) (fd_id feed) (fd_name feed) item subs)))).
  { intros n Hn. rewrite length_app in Hn. cbn in Hn. unfold deliverFeedItem. destruct (ensureOperatorAgent _ _ _). cbn.
    rewrite map_app, elem_of_app. intros [Hin|Hin%list_elem_of_singleton].
    - by apply (Hfr n); [lia|].
    - apply Hdistinct in Hin. lia. }
  destruct (deliverFeedItem _ _ _ _ _ _ _ _ _ _ _ _) as [d m]. destruct Hd as [Hok' Hgr]. split_and!; [done..|].
  intros a Ha. eapply same_fleet_grow; [exact Hgr|]. by apply Hsubs.
Qed.

Lemma poll_items_keep seeded subs items w delivered :
  tables_ok log w -> (forall n, (length delivered <= n)%nat -> ff_message fx n ∉ map ms_id (md_messages (fw_mail w))) ->
  (forall a, a ∈ subs -> same_fleet (fw_agents w) (fd_fleet feed) a) ->
  tables_ok log (fst (foldl (poll_item icon feed now now fx seeded subs) (w, delivered) items)).
Proof.
  revert w delivered. induction items as [|item items IH]; intros w delivered H1 H2 H3; [done|].
  cbn [foldl]. pose proof (poll_item_keep seeded subs w delivered item H1 H2 H3) as Hi.
  destruct (poll_item _ _ _ _ _ _ _ _ _) as [w' delivered']. destruct Hi as (?&?&?). by apply IH.
Qed.
End PollKeeps.

Lemma poll_begin_keep w now i log :
  tables_ok log w ->
  tables_ok log (fst (poll_begin_feed w now i)) /\
  (forall r, snd (poll_begin_feed w now i) = Some r ->
     forall x, x ∈ fb_feeds (fw_feeds (fst (poll_begin_feed w now i))) -> fd_id x = fd_id r -> fd_fleet x = fd_fleet r).
Proof.
  intros Hok. unfold poll_begin_feed. destruct (select_one _ _) as [r|] eqn:Hr; [|done].
  apply select_one_Some in Hr as [Hr Hri]. bools. subst i.
  set (stamp := fun x => MkFeed _ _ _ _ _ _ _ _). cbn [fst snd fw_feeds with_feeds fb_feeds].
  assert (Hids : map fd_id (update_where (fun x => fd_id x ==? fd_id r) stamp (fb_feeds (fw_feeds w))) = map fd_id (fb_feeds (fw_feeds w)))
    by by apply map_update_where.
  split.
  - rewrite <- (app_nil_r log). apply (feeds_only_keep _ _ _ _ ""); [done| | |side]; cbn [fb_feeds fb_subscribers].
    + rewrite Hids. apply Hok.
    + intros j a Hj. destruct (tk_subscribers _ _ Hok j a Hj) as (x & Hx & Hxi & Hf).
      exists (if fd_id x ==? fd_id r then stamp x else x).
      split; [apply elem_of_update_where; by exists x|]. by destruct (_ ==? _).
  - intros r' [= <-] x Hx Hid. apply elem_of_update_where in Hx as (y & Hy & ->).
    assert (Hyr : fd_id y = fd_id r) by by destruct (_ ==? _).
    rewrite bool_decide_true by done. cbn. by rewrite (NoDup_map_inj fd_id _ y r (tk_feed_ids _ _ Hok) Hy Hr Hyr).
Qed.

(** The end of a poll, whatever happened during the fetch. *)
Lemma poll_finish_keep icon w r now fx xml log :
  tables_ok log w -> (forall n k, ff_message fx n = ff_message fx k -> n = k) ->
  (forall n, ff_message fx n ∉ map ms_id (md_messages (fw_mail w))) ->
  (forall x, x ∈ fb_feeds (fw_feeds w) -> fd_id x = fd_id r -> fd_fleet x = fd_fleet r) ->
  tables_ok (log ++ snd (poll_finish_feed icon w r now now fx xml))%list (fst (fst (poll_finish_feed icon w r now now fx xml))).
Proof.
  intros Hok Hd Hfr Hsame. unfold poll_finish_feed. destruct (truthy _) as [body|]; [|cbn; by rewrite app_nil_r].
  destruct (_ =? 0)%nat; [cbn; by rewrite app_nil_r|]. destruct (negb _); [cbn; by rewrite app_nil_r|].
  assert (Hsubs : forall a, a ∈ feed_subscribers (fw_agents w) (fw_feeds w) (fd_id r) -> same_fleet (fw_agents w) (fd_fleet r) a).
  { intros a Ha. unfold feed_subscribers in Ha. apply list_elem_of_In, filter_In in Ha as [Ha _].
    apply in_map_iff in Ha as ([j b] & <- & Hj). apply list_elem_of_In, elem_of_select in Hj as [Hj Hji]. bools. cbn [fst snd] in *.
    destruct (tk_subscribers _ _ Hok j b Hj) as (x & Hx & Hxi & Hf). by rewrite <- (Hsame x Hx) by congruence. }
  pose proof (poll_items_keep icon now fx r log Hd (exists_row (fun s => se_feed s ==? fd_id r) (fb_seen (fw_feeds w)))
    _ (take FEED_ITEMS_PER_POLL (parseFeed body)) w [] Hok (fun n _ => Hfr n) Hsubs) as Hk.
  destruct (foldl _ _ _) as [w2 delivered]. cbn [fst snd] in *.
  apply (side_keep _ _ _ (fd_fleet r)); [done|]. destruct (_ =? 0)%nat; side.
Qed.

Lemma pollFeed_keep icon w now fx i net log :
  tables_ok log w -> (forall n k, ff_message fx n = ff_message fx k -> n = k) ->
  (forall n, ff_message fx n ∉ map ms_id (md_messages (fw_mail w))) ->
  tables_ok (log ++ snd (pollFeed icon w now fx i net))%list (fst (fst (pollFeed icon w now fx i net))).
Proof.
  intros Hok Hd Hfr. unfold pollFeed. destruct (poll_begin_keep w now i log Hok) as [H1 H2].
  assert (Hm : fw_mail (fst (poll_begin_feed w now i)) = fw_mail w) by (unfold poll_begin_feed; by destruct (select_one _ _)).
  destruct (poll_begin_feed w now i) as [w1 [r|]]; cbn [fst snd] in *; [|by rewrite app_nil_r].
  apply poll_finish_keep; [done|done|by rewrite Hm|by apply H2].
Qed.

(** *** Requests keep the invariants *)

Lemma attachments_keep log d m f atts : tables_ok log (MkFeedWorld d m f) -> tables_ok log (MkFeedWorld d (with_attachments atts m) f).
Proof.
  intros [[H1 H2 H3] H4 H5 H6]. split; [split| | |]; try done. by apply (same_views_ok d m).
Qed.

Lemma world_ok_logged fx es w : tables_ok ((ex_event <$> ow_log w) ++ es)%list (feed_world w) -> world_ok (logged fx es w).
Proof. intros H. unfold world_ok. by rewrite log_rows. Qed.

Lemma longer_is_other s : s +:+ "x" <> s.
Proof. induction s as [|c s IH]; [done|]. intros E. by injection E. Qed.

Section KeepRequests.
Context `{Crypto} `{NodeCrypto} `{BufferApi} `{FeedUrlApi} `{ZodFormats} (cfg : Config) (ac : AccessConfig).
Context (icon nudge : string) (net : string -> option string) (fleet operator : string).
Context (w : OpWorld) (now : Z) (fx : Fresh) (Hfresh : fresh fx w) (Hok : world_ok w).

Lemma with_body_keep {A} (schema : parser A) body (k : A -> handler) :
  (forall b, world_ok (fst (k b w now fx operator fleet))) ->
  world_ok (fst (with_body schema body k w now fx operator fleet)).
Proof. intros Hk. unfold with_body. destruct body as [j|]; [|done]. by destruct (schema j). Qed.

Lemma agents_only_keep op es :
  enrols_an_agent op -> side_events fleet es -> control_origin (ow_agents w) (exec cfg (ow_agents w) now op) ->
  world_ok (logged fx es (with_ow_agents (exec cfg (ow_agents w) now op) w)).
Proof. intros Hop Hes Hc. apply world_ok_logged. by apply (agents_keep cfg now _ (feed_world w) op es fleet). Qed.

Lemma agents_quiet_keep op :
  enrols_an_agent op -> control_origin (ow_agents w) (exec cfg (ow_agents w) now op) ->
  world_ok (with_ow_agents (exec cfg (ow_agents w) now op) w).
Proof.
  intros Hop Hc. pose proof (agents_only_keep op [] Hop ltac:(side) Hc) as Hk. unfold world_ok in *.
  by rewrite log_rows, app_nil_r in Hk.
Qed.

Lemma mail_only_keep m es :
  relay_step cfg now (ow_agents w, ow_mail w) (ow_agents w, m) -> side_events fleet es -> world_ok (logged fx es (with_ow_mail m w)).
Proof. intros Hs Hes. apply world_ok_logged. by apply (mail_keep cfg now _ (feed_world w) m es fleet). Qed.

Lemma rest_keep w' es : feed_world w' = feed_world w -> ow_log w' = ow_log w -> side_events fleet es -> world_ok (logged fx es w').
Proof. intros Hf Hl Hes. apply world_ok_logged. rewrite Hf, Hl. by eapply side_keep. Qed.

Lemma send_refused_keep i : oi_fleet i = fleet ->
  world_ok (with_ow_agents (fst (createOperatorMessage cfg (ow_keys w) (ow_agents w) (ow_mail w) now (fr_id fx) (fr_correlation fx)
    (fr_conversation fx) (fr_delivery fx) i)) w).
Proof.
  intros Hf. unfold createOperatorMessage. destruct (check_signer _ _); [exact Hok|].
  pose proof (agents_quiet_keep (OpOperatorAgent fleet) I) as Hk. cbn [exec] in Hk. rewrite Hf.
  pose proof (ensureOperatorAgent_rest (ow_agents w) now fleet) as (_ & Hc & _).
  destruct (ensureOperatorAgent _ _ _) as [d s]. apply Hk. by apply control_origin_same.
Qed.

Lemma operator_message_keep body : world_ok (fst (postOperatorMessage cfg body w now fx operator fleet)).
Proof.
  apply with_body_keep. intros b. destruct (channel_refused fleet b); [done|].
  set (i := MkOperatorMessageInput _ _ _ _ _ _ _ _ _ _). pose proof (send_refused_keep i eq_refl) as Hr.
  destruct (createOperatorMessage _ _ _ _ _ _ _ _ _ _) as [d [[[m c] es]|e]] eqn:Hc; cbn [fst] in Hr; [|done].
  apply world_ok_logged. cbn [ow_log with_ow_mail with_ow_agents with_ow_store].
  pose proof (createOperatorMessage_Ok _ _ _ _ _ _ _ _ _ _ _ _ _ _ Hc) as (_ & Hd & _).
  pose proof (ensureOperatorAgent_rest (ow_agents w) now (oi_fleet i)) as (_ & Hctl & _). rewrite <- Hd in Hctl.
  eapply (send_keep cfg now _ (feed_world w)); [exact Hok| |done|].
  - eapply lg_operator_send; [exact Hc|apply Hfresh].
  - rewrite Hd. exact (exec_grow cfg (ow_agents w) now (OpOperatorAgent _)).
Qed.

Lemma resume_keep c body : world_ok (fst (postResume cfg nudge c body w now fx operator fleet)).
Proof.
  apply with_body_keep. intros t.
  assert (Hr : world_ok (with_ow_agents (fst (resumeConversation cfg nudge (ow_keys w) (ow_agents w) (ow_mail w) now (fr_id fx)
    (fr_correlation fx) (fr_conversation fx) (fr_delivery fx) fleet operator c t)) w) /\
    (let d := fst (resumeConversation cfg nudge (ow_keys w) (ow_agents w) (ow_mail w) now (fr_id fx)
      (fr_correlation fx) (fr_conversation fx) (fr_delivery fx) fleet operator c t) in
     ad_controls d = ad_controls (ow_agents w) /\ agents_grow (ow_agents w) d)).
  { pose proof (agents_quiet_keep (OpOperatorAgent fleet) I) as Hk. cbn [exec] in Hk.
    pose proof (ensureOperatorAgent_rest (ow_agents w) now fleet) as (_ & Hctl & _).
    pose proof (exec_grow cfg (ow_agents w) now (OpOperatorAgent fleet)) as Hgr. cbn [exec] in Hgr.
    specialize (Hk (control_origin_same _ _ Hctl)).
    assert (Hid : agents_grow (ow_agents w) (ow_agents w)) by (intros i a Hi; by exists a).
    unfold resumeConversation. destruct (fleet_room _ _ _).
    - unfold createOperatorMessage. destruct (check_signer _ _); [by split_and!|]. cbn [oi_fleet].
      by destruct (ensureOperatorAgent _ _ _).
    - destruct (_ ==? _); [by split_and!|]. by destruct (ensureOperatorAgent _ _ _). }
  destruct (resumeConversation _ _ _ _ _ _ _ _ _ _ _ _ _ _) as [d [[[[m c'] es]|]|e]] eqn:Hc; cbn [fst] in Hr; [|by apply Hr..].
  destruct Hr as (_ & Hctl & Hgr). apply world_ok_logged. cbn [ow_log with_ow_mail with_ow_agents with_ow_store].
  eapply (send_keep cfg now _ (feed_world w)); [exact Hok| |done|done].
  eapply lg_resume; [exact Hc|apply Hfresh].
Qed.

Lemma upload_keep body : world_ok (fst (postUpload cfg body w now fx operator fleet)).
Proof.
  apply with_body_keep. intros b. unfold postOperatorAttachment. destruct (check_upload cfg b) as [bytes|e].
  2: { by apply rest_keep; [..|side]. }
  pose proof (agents_keep cfg now (ex_event <$> ow_log w) (feed_world w) (OpUpload operator fleet)
    (snd (checkAndIncrementUploadLimit cfg (ow_agents w) now operator fleet)) fleet Hok I) as Hk. cbn [exec] in Hk.
  unfold checkAndIncrementUploadLimit in *. cbn [fw_agents feed_world] in Hk. unfold ow_agents in Hk.
  destruct (_ <=? _) in Hk |- *; cbn [fst snd negb rl_allowed] in *.
  - apply world_ok_logged. apply Hk; [side|by apply control_origin_same].
  - specialize (Hk ltac:(side) (control_origin_same _ _ eq_refl)). unfold store_upload.
    destruct (_ <? _).
    + apply world_ok_logged. exact Hk.
    + unfold createAttachment. destruct (writeAttachmentBytes _ _ _ _) as [disk path]. apply world_ok_logged.
      eapply (side_keep _ _ _ fleet); [|side]. rewrite app_nil_r in Hk. by apply attachments_keep.
Qed.

Lemma profile_keep body : world_ok (fst (patchProfile body w now fx operator fleet)).
Proof.
  apply with_body_keep. intros name. pose proof (agents_quiet_keep (OpOperatorName operator name) I) as Hk. cbn [exec] in Hk.
  assert (Hc : control_origin (ow_agents w) (fst (setOperatorDisplayName (ow_agents w) now operator name))).
  { apply control_origin_same. unfold setOperatorDisplayName. destruct (ad_operators _ !! _) as [o|]; [|done].
    unfold ensureOperatorAgent. by destruct (ad_agents _ !! _). }
  specialize (Hk Hc). by destruct (setOperatorDisplayName _ _ _ _).
Qed.
Lemma agent_call_keep c q body :
  match c with
  | POST_approval _ _ | POST_trust _ | POST_peer_autoreply _ | POST_control _ _ =>
      world_ok (fst (operator_handler cfg icon nudge net c q body w now fx operator fleet))
  | _ => True
  end.
Proof.
  destruct c as [| | | | | | | | | | | | | | | | | | | | | | |i decision|i|i| | | | | | | | | | | |i x| | | | | | |]; try exact I;
    cbn [operator_handler].
  - unfold postDecision. destruct (_ && _); [done|].
    pose proof (agents_only_keep (OpResolve i fleet operator (decision ==? "approve")) _ I
      (approveOrReject_events fleet now (ow_agents w) i operator (decision ==? "approve"))) as Hk. cbn [exec] in Hk.
    assert (Hc : control_origin (ow_agents w) (fst (fst (approveOrReject (ow_agents w) now i fleet operator (decision ==? "approve"))))).
    { apply control_origin_same. unfold approveOrReject. destruct (_ !! i); [|done]. by destruct (_ && _). }
    specialize (Hk Hc). by destruct (approveOrReject _ _ _ _ _ _) as [[d r] es].
  - apply with_body_keep. intros b.
    pose proof (agents_only_keep (OpTrust fleet i operator b) _ I (setAgentTrust_events fleet now (ow_agents w) i operator b)) as Hk.
    cbn [exec] in Hk. assert (Hc : control_origin (ow_agents w) (fst (fst (setAgentTrust (ow_agents w) now fleet i operator b)))).
    { apply control_origin_same. unfold setAgentTrust. by destruct (fleet_agent _ _ _). }
    specialize (Hk Hc). by destruct (setAgentTrust _ _ _ _ _ _) as [[d r] es].
  - apply with_body_keep. intros b.
    pose proof (agents_only_keep (OpDelegate fleet i operator (fst b) (snd b)) _ I
      (setPeerAutoreply_events fleet now (ow_agents w) i operator (fst b) (snd b))) as Hk. cbn [exec] in Hk.
    assert (Hc : control_origin (ow_agents w) (fst (fst (setPeerAutoreply (ow_agents w) now fleet i operator (fst b) (snd b))))).
    { apply control_origin_same. unfold setPeerAutoreply. by destruct (fleet_agent _ _ _). }
    specialize (Hk Hc). by destruct (setPeerAutoreply _ _ _ _ _ _ _) as [[d r] es].
  - apply with_body_keep. intros b. destruct (control_of x) as [y|]; [|done].
    match goal with |- context [controlAgent _ _ _ _ _ _ _ ?p] =>
      pose proof (agents_only_keep (OpControl (fr_id fx) fleet i operator y p) _ I
        (controlAgent_events fleet now (ow_agents w) (fr_id fx) i operator y p) (controlAgent_origin _ _ _ _ _ _ _ _)) as Hk end.
    cbn [exec] in Hk. by destruct (controlAgent _ _ _ _ _ _ _ _) as [[d r] es].
Qed.

Lemma room_call_keep c q body :
  match c with
  | POST_rooms | DELETE_room _ | POST_project_mode _ =>
      world_ok (fst (operator_handler cfg icon nudge net c q body w now fx operator fleet))
  | _ => True
  end.
Proof.
  destruct c; try exact I; cbn [operator_handler].
  - apply with_body_keep. intros b.
    pose proof (mail_only_keep _ _ (rs_create_room cfg now (ow_agents w) (ow_mail w) (fr_id fx) fleet false operator (fst b) (snd b)
      (fs_room _ _ Hfresh) (fs_thread _ _ Hfresh))
      (createRoom_events fleet now (ow_agents w) (ow_mail w) (fr_id fx) false operator (fst b) (snd b))) as Hk.
    by destruct (createRoom _ _ _ _ _ _ _ _ _) as [[m r] es].
  - unfold deleteRoomRoute. pose proof (mail_only_keep _ _ (rs_delete_room cfg now (ow_agents w) (ow_mail w) fleet roomId operator)
      (deleteRoom_events fleet now (ow_mail w) roomId operator)) as Hk. by destruct (deleteRoom _ _ _ _ _) as [[m r] es].
  - apply with_body_keep. intros b.
    pose proof (mail_only_keep _ _ (rs_project_mode cfg now (ow_agents w) (ow_mail w) fleet roomId operator (fst b) (snd b))
      (setRoomProjectMode_events fleet now (ow_mail w) roomId operator (fst b) (snd b))) as Hk.
    by destruct (setRoomProjectMode _ _ _ _ _ _ _) as [[m r] es].
Qed.

Lemma feed_call_keep c q body :
  match c with
  | POST_feeds | DELETE_feed _ | POST_feed_subscribers _ | POST_feed_poll _ =>
      world_ok (fst (operator_handler cfg icon nudge net c q body w now fx operator fleet))
  | _ => True
  end.
Proof.
  destruct c; try exact I; cbn [operator_handler].
  - apply with_body_keep. intros b. destruct (negb _); [done|].
    pose proof (createFeed_keep fleet now _ (feed_world w) Hok (fr_id fx) operator (fe_name b) (fe_url b) (fe_minutes b)
      (fe_subscribers b) (fs_feed _ _ Hfresh)) as Hk. unfold createFeed in *. by apply world_ok_logged.
  - unfold deleteFeedRoute. pose proof (deleteFeed_keep fleet now _ (feed_world w) Hok feedId operator) as Hk.
    destruct (deleteFeed _ _ _ _ _) as [[f r] es]. by apply world_ok_logged; destruct f.
  - apply with_body_keep. intros b. pose proof (setFeedSubscribers_keep fleet now _ (feed_world w) Hok feedId operator b) as Hk.
    destruct (setFeedSubscribers _ _ _ _ _ _) as [[f r] es]. by apply world_ok_logged; destruct f.
  - unfold postFeedPoll. destruct (getFeedItems _ _ _ _); [|done].
    pose proof (pollFeed_keep icon (feed_world w) now (fr_feed fx) feedId net _ Hok (fs_distinct _ _ Hfresh) (fs_items _ _ Hfresh)) as Hk.
    destruct (pollFeed _ _ _ _ _ _) as [[f r] es]. by apply world_ok_logged; destruct f.
Qed.

Lemma rest_call_keep c q body :
  match c with
  | POST_keys | POST_key_endorse _ | POST_key_revoke _ | POST_agent_endorse _ | POST_policies | PUT_policy _ | DELETE_policy _ =>
      world_ok (fst (operator_handler cfg icon nudge net c q body w now fx operator fleet))
  | _ => True
  end.
Proof.
  destruct c; try exact I; cbn [operator_handler]; [apply with_body_keep; intros b; cbv zeta..|].
  - destruct (registerOperatorKey _ _ _ _ _ _ _) as [[[k i] es]|] eqn:E; [|done].
    apply (registerOperatorKey_others (fleet +:+ "x") fleet) in E as [_ He]; [by apply rest_keep|apply longer_is_other].
  - destruct (endorseOperatorKey _ _ _ _ _ _) as [[k es]|] eqn:E; [|done].
    apply (endorseOperatorKey_others (fleet +:+ "x") fleet) in E as [_ He]; [by apply rest_keep|apply longer_is_other].
  - destruct (revokeOperatorKey _ _ _ _ _ _ _) as [[[k [? ?]] es]|] eqn:E; [|done].
    apply (revokeOperatorKey_others (fleet +:+ "x") fleet) in E as [_ He]; [by apply rest_keep|apply longer_is_other].
  - destruct (endorseAgentKey _ _ _ _ _ _ _) as [[k es]|] eqn:E; [|done].
    apply (endorseAgentKey_others (fleet +:+ "x") fleet) in E as [_ He]; [by apply rest_keep|apply longer_is_other].
  - unfold createPolicy. by apply rest_keep; [..|side].
  - pose proof (updatePolicy_events fleet now (ow_policies w) policyId b) as He.
    destruct (updatePolicy _ _ _ _ _) as [[ps r] es]. by apply rest_keep.
  - unfold deletePolicyRoute. pose proof (deletePolicy_events fleet now (ow_policies w) policyId) as He.
    destruct (deletePolicy _ _ _ _) as [[ps r] es]. by apply rest_keep.
Qed.

Lemma handler_keep c q body :
  world_ok (fst (operator_handler cfg icon nudge net c q body w now fx operator fleet)).
Proof.
  pose proof (agent_call_keep c q body). pose proof (room_call_keep c q body).
  pose proof (feed_call_keep c q body). pose proof (rest_call_keep c q body).
  destruct c; try assumption; cbn [operator_handler];
    first [exact Hok | apply profile_keep | apply operator_message_keep | apply upload_keep | apply resume_keep].
Qed.
End KeepRequests.

(** ** Refusals *)

(** Nothing is written but the operator's own row of [agents], the upload counter
    and the log row of an upload over the limit. *)
Record quiet (w w' : OpWorld) : Prop := {
  qt_mail : ow_mail w' = ow_mail w;
  qt_disk : aw_disk (ow_store w') = aw_disk (ow_store w);
  qt_rest : (ow_keys w', ow_enroll w', ow_policies w', ow_feeds w') = (ow_keys w, ow_enroll w, ow_policies w, ow_feeds w);
  qt_agents : forall i, ad_agents (ow_agents w') !! i = ad_agents (ow_agents w) !! i \/
    (ad_agents (ow_agents w) !! i = None /\ exists f, i = operator_agent f);
  qt_tables : (ad_controls (ow_agents w'), ad_approvals (ow_agents w'), ad_violations (ow_agents w'), ad_operators (ow_agents w')) =
    (ad_controls (ow_agents w), ad_approvals (ow_agents w), ad_violations (ow_agents w), ad_operators (ow_agents w));
  qt_log : exists es, ex_event <$> ow_log w' = ((ex_event <$> ow_log w) ++ es)%list /\
    Forall (fun e => ev_type e = "attachment.rate_limit_exceeded") es
}.

Lemma quiet_refl w : quiet w w.
Proof. split; try done; [by left|]. exists []. by rewrite app_nil_r. Qed.
#[export] Hint Resolve quiet_refl : core.

Lemma quiet_logged fx w : quiet w (logged fx [] w).
Proof. split; try done; [by left|]. exists []. by rewrite log_rows. Qed.

Lemma quiet_store fx w : quiet w (logged fx [] (with_ow_store (ow_store w) w)).
Proof. destruct w as [[]]. apply quiet_logged. Qed.
Lemma quiet_agents fx w : quiet w (logged fx [] (with_ow_agents (ow_agents w) w)).
Proof. destruct w as [[]]. apply quiet_logged. Qed.
Lemma quiet_mail fx w : quiet w (logged fx [] (with_ow_mail (ow_mail w) w)).
Proof. destruct w as [[]]. apply quiet_logged. Qed.
Lemma quiet_policies fx w : quiet w (logged fx [] (with_ow_policies (ow_policies w) w)).
Proof. destruct w as [[]]. apply quiet_logged. Qed.
Lemma quiet_feeds fx w : quiet w (logged fx [] (with_feed_world (feed_world w) w)).
Proof. destruct w as [[]]. apply quiet_logged. Qed.

Lemma quiet_operator_agent w now fleet : quiet w (with_ow_agents (fst (ensureOperatorAgent (ow_agents w) now fleet)) w).
Proof.
  unfold ensureOperatorAgent. destruct (ad_agents (ow_agents w) !! operator_agent fleet) as [a|] eqn:E; cbn [fst].
  - destruct w as [[]]. split; try done; [by left|]. exists []. by rewrite app_nil_r.
  - split; try done; [|exists []; by rewrite app_nil_r]. intros i. cbn. destruct (decide (i = operator_agent fleet)) as [->|Hne].
    + right. split; [done|]. by exists fleet.
    + left. by apply lookup_insert_ne.
Qed.

Section Refused.
Context `{Crypto} `{NodeCrypto} `{BufferApi} `{FeedUrlApi} `{ZodFormats} (cfg : Config) (ac : AccessConfig).
Context (icon nudge : string) (net : string -> option string) (fleet operator : string) (w : OpWorld) (now : Z) (fx : Fresh).

Definition refusal_quiet (out : OpWorld * Reply) : Prop := 400 <= re_code (snd out) -> quiet w (fst out).

Lemma with_body_quiet {A} (schema : parser A) body (k : A -> handler) :
  (forall b, refusal_quiet (k b w now fx operator fleet)) -> refusal_quiet (with_body schema body k w now fx operator fleet).
Proof. intros Hk Hc. unfold with_body in *. destruct body as [j|]; [|done]. by destruct (schema j); [apply Hk|]. Qed.

(** A reply that is no refusal. *)
Ltac accepted := let Hc := fresh in intros Hc; cbn in Hc; lia.

(** Nothing changed. *)
Ltac quietly :=
  intros _; first [apply quiet_agents | apply quiet_mail | apply quiet_store | apply quiet_policies | apply quiet_feeds | apply quiet_logged].

Lemma send_quiet i :
  quiet w (with_ow_agents (fst (createOperatorMessage cfg (ow_keys w) (ow_agents w) (ow_mail w) now (fr_id fx) (fr_correlation fx)
    (fr_conversation fx) (fr_delivery fx) i)) w).
Proof.
  unfold createOperatorMessage. destruct (check_signer _ _).
  - destruct w as [[]]. split; try done; [by left|]. exists []. by rewrite app_nil_r.
  - pose proof (quiet_operator_agent w now (oi_fleet i)) as Hq. by destruct (ensureOperatorAgent _ _ _).
Qed.

Lemma operator_message_quiet body : refusal_quiet (postOperatorMessage cfg body w now fx operator fleet).
Proof.
  apply with_body_quiet. intros b. destruct (channel_refused fleet b); [by intros _|].
  set (i := MkOperatorMessageInput _ _ _ _ _ _ _ _ _ _). pose proof (send_quiet i) as Hq.
  destruct (createOperatorMessage _ _ _ _ _ _ _ _ _ _) as [d [[[m c] es]|e]]; [accepted|by intros _].
Qed.

Lemma resume_quiet c body : refusal_quiet (postResume cfg nudge c body w now fx operator fleet).
Proof.
  apply with_body_quiet. intros t. unfold resumeConversation. destruct (fleet_room _ _ _).
  - set (i := MkOperatorMessageInput _ _ _ _ _ _ _ _ _ _). pose proof (send_quiet i) as Hq.
    destruct (createOperatorMessage _ _ _ _ _ _ _ _ _ _) as [d [[[m c'] es]|e]]; [accepted|by intros _].
  - destruct (_ ==? _).
    + intros _. destruct w as [[]]. split; try done; [by left|]. exists []. by rewrite app_nil_r.
    + destruct (ensureOperatorAgent _ _ _). accepted.
Qed.

Lemma upload_quiet body : refusal_quiet (postUpload cfg body w now fx operator fleet).
Proof.
  apply with_body_quiet. intros b. unfold postOperatorAttachment. destruct (check_upload cfg b) as [bytes|e]; [|quietly].
  unfold checkAndIncrementUploadLimit. destruct (_ <=? _); cbn [negb rl_allowed].
  - intros _. split; try done; [by left|]. eexists. split; [etrans; [apply log_rows|reflexivity]|by repeat constructor].
  - unfold store_upload. destruct (_ <? _).
    + intros _. split; try done; [by left|]. eexists. split; [etrans; [apply log_rows|reflexivity]|done].
    + unfold createAttachment. destruct (writeAttachmentBytes _ _ _ _). accepted.
Qed.

Lemma feed_poll_quiet i : refusal_quiet (postFeedPoll icon net i w now fx operator fleet).
Proof.
  unfold postFeedPoll. destruct (getFeedItems _ _ _ _) eqn:Hi; [|by intros _]. unfold pollFeed, poll_begin_feed.
  destruct (select_one _ _) as [r|] eqn:Hr; [|accepted]. unfold poll_finish_feed.
  destruct (truthy _) as [xml|]; [|accepted]. destruct (_ =? 0)%nat; [accepted|].
  assert (He : exists_row (fun x => fd_id x ==? fd_id r) (update_where (fun x => fd_id x ==? i)
    (fun x => MkFeed (fd_id x) (fd_fleet x) (fd_name x) (fd_url x) (fd_poll_interval_minutes x) (Some now) (fd_created_at x) (fd_created_by x))
    (fb_feeds (fw_feeds (feed_world w)))) = true).
  { apply select_one_Some in Hr as [Hr _]. apply exists_row_true.
    eexists. split; [apply elem_of_update_where; exists r; split; [done|reflexivity]|].
    destruct (fd_id r ==? i); by apply bool_decide_eq_true. }
  cbn [fw_feeds with_feeds fb_feeds]. rewrite He. cbn [negb]. destruct (foldl _ _ _). accepted.
Qed.

Lemma handler_quiet c q body : refusal_quiet (operator_handler cfg icon nudge net c q body w now fx operator fleet).
Proof.
  destruct c; cbn [operator_handler]; try (by intros _);
    first [apply operator_message_quiet | apply upload_quiet | apply resume_quiet | apply feed_poll_quiet | idtac].
  - apply with_body_quiet. intros b. unfold setOperatorDisplayName. destruct (ad_operators _ !! _) as [o|].
    + destruct (ensureOperatorAgent _ _ _) as [d2 i] eqn:E. unfold getOperatorProfile. cbn [ad_operators with_agents].
      assert (Ho : ad_operators d2 = ad_operators (with_operators (<[operator := MkOperator (op_fleet o) (op_email o)
        (op_password_hash o) (op_role o) (op_created_at o) (Some (trim b))]> (ad_operators (ow_agents w))) (ow_agents w))).
      { unfold ensureOperatorAgent in E. destruct (ad_agents _ !! _); by injection E as <- _. }
      rewrite Ho. cbn [ad_operators with_operators]. rewrite lookup_insert_eq. accepted.
    + intros _. destruct w as [[]]. split; try done; [by left|]. exists []. by rewrite app_nil_r.
  - accepted.
  - apply with_body_quiet. intros b. destruct (registerOperatorKey _ _ _ _ _ _ _) as [[[? ?] ?]|]; [accepted|by intros _].
  - apply with_body_quiet. intros b. destruct (endorseOperatorKey _ _ _ _ _ _) as [[? ?]|]; [accepted|by intros _].
  - apply with_body_quiet. intros b. cbv zeta. destruct (revokeOperatorKey _ _ _ _ _ _ _) as [[[? [? ?]] ?]|]; [accepted|by intros _].
  - apply with_body_quiet. intros b. destruct (endorseAgentKey _ _ _ _ _ _ _) as [[? ?]|]; [accepted|by intros _].
  - unfold postDecision. destruct (_ && _); [by intros _|]. destruct (approveOrReject _ _ _ _ _ _) as [[? ?] ?]. accepted.
  - apply with_body_quiet. intros b. unfold setAgentTrust. destruct (fleet_agent _ _ _); [accepted|quietly].
  - apply with_body_quiet. intros b. unfold setPeerAutoreply. destruct (fleet_agent _ _ _); [accepted|quietly].
  - apply with_body_quiet. intros b. accepted.
  - unfold deleteRoomRoute, deleteRoom. destruct (fleet_room _ _ _); [accepted|quietly].
  - apply with_body_quiet. intros b. unfold setRoomProjectMode. destruct (fleet_room _ _ _); [accepted|quietly].
  - apply with_body_quiet. intros b. destruct (negb _); [by intros _|]. accepted.
  - unfold deleteFeedRoute, deleteFeed. destruct (exists_row _ _); [accepted|quietly].
  - apply with_body_quiet. intros b. unfold setFeedSubscribers. destruct (exists_row _ _); [accepted|quietly].
  - apply with_body_quiet. intros b. destruct (control_of action); [|by intros _].
    unfold controlAgent. destruct (fleet_agent _ _ _); [accepted|quietly].
  - apply with_body_quiet. intros b. accepted.
  - apply with_body_quiet. intros b. unfold updatePolicy. destruct (negb _); [quietly|].
    destruct (updates_nothing b); accepted.
  - unfold deletePolicyRoute, deletePolicy. destruct (_ <? _)%nat; [accepted|quietly].
Qed.
End Refused.

(** ** The theorems *)

Definition tables (w : OpWorld) : ViewTables := MkViewTables (ow_agents w) (ow_mail w) (ow_log w).

Lemma session_operator `{NodeCrypto} cfg ac d now r operator fleet :
  requireOperatorAuth cfg ac d now r = Ok (operator, fleet) -> operatorBelongsToFleet d operator fleet = true.
Proof.
  unfold requireOperatorAuth. destruct (evaluateRequestTailnetGate ac r); [done|]. destruct (bearer _); [|done].
  destruct (verifyOperatorSession _ _ _ _) as [[o f]|]; [|done]. destruct (operatorBelongsToFleet d o f) eqn:E; [|done].
  by intros [= <- <-].
Qed.

Section Theorems.
Context `{Crypto} `{NodeCrypto} `{BufferApi} `{FeedUrlApi} `{ZodFormats} (cfg : Config) (ac : AccessConfig).
Context (icon nudge : string) (net : string -> option string).

Lemma route_world_ok w now fx r c q body :
  world_ok w -> fresh fx w -> world_ok (fst (operatorRoute cfg ac icon nudge net w now fx r c q body)).
Proof.
  intros Hok Hf. unfold operatorRoute. destruct (requireOperatorAuth _ _ _ _ _) as [[o f]|]; [|done]. by apply handler_keep.
Qed.

End Theorems.

(** *** A relay with an operator in each fleet *)

Definition plain_node : NodeCrypto := {| node_sha256 := fun s => s; node_hmac_sha256 := fun k _ => k; date_parse := parse_iso |}.
Definition no_formats : ZodFormats := {| z_datetime := fun _ => true; z_email := fun _ => true; z_url := fun _ => true |}.
Definition demo_operators : AgentDb :=
  with_operators (<["op1" := MkOperator "f" "a@f" "h" "owner" 0 None]> (<["op2" := MkOperator "g" "a@g" "h" "owner" 0 None]> ∅))
    demo_fleets.
Definition demo_op_world : OpWorld :=
  MkOpWorld (MkAttachWorld demo_operators empty_mail ∅) (MkKeyDb ∅ ∅ ∅ []) demo_creds [] (MkFeedDb [] [] []) [].
Definition demo_access : AccessConfig := MkAccess false "" [] "secret".
Definition demo_session : OperatorRequest :=
  MkOperatorRequest "10.0.0.1" HAbsent HAbsent HAbsent
    (Some ("Bearer " +:+ @issueOperatorSession plain_node "secret" "op1" "f" 1000)).
Definition demo_fresh : Fresh :=
  MkFresh "id1" "tok1" "cor1" "conv1" tick (MkFeedFresh tick tick (fun _ => tick)) tick.
Definition demo_query : Query := MkQuery (fun _ => None) (fun _ => None).
Definition demo_room_body : option json := Some (JObj [("name", JStr "ops"); ("member_agent_ids", JArr [JStr "a1"; JStr "b1"])]).
Definition demo_route := @operatorRoute toy_crypto plain_node toy_buffers simple_feed_urls no_formats default_config demo_access
  "" "" (fun _ => None).
Definition demo_roomed : OpWorld * Reply := demo_route demo_op_world 1000000 demo_fresh demo_session POST_rooms demo_query demo_room_body.

Lemma demo_world_ok : world_ok demo_op_world.
Proof.
  split; try done.
  - apply (@logged_run_ok plain_node default_config demo_operators (demo_operators, empty_mail, [])); [exact demo_operators_ok|done|constructor].
  - by intros c ?%elem_of_nil.
  - apply NoDup_nil_2.
  - by intros i a ?%elem_of_nil.
Qed.

Lemma demo_is_fresh : fresh demo_fresh demo_op_world.
Proof.
  split; try done; try (by intros ?%elem_of_nil); try (by intros ? ?%elem_of_nil). exact tick_inj.
Qed.

(** C7. A refused request writes nothing: whatever an operator's request is answered
    with an error for, at the session, the body, a missing row or a limit, no row and
    no file is written or changed but the operator's own agent row, which the relay
    creates on its first send, the upload counter and the log row of an upload over
    the limit. *)
Theorem refused_requests_write_nothing `{Crypto} `{NodeCrypto} `{BufferApi} `{FeedUrlApi} `{ZodFormats} cfg ac icon nudge net
    w now fx r c q body :
  let out := operatorRoute cfg ac icon nudge net w now fx r c q body in
  400 <= re_code (snd out) -> quiet w (fst out).
Proof.
  cbv zeta. unfold operatorRoute. destruct (requireOperatorAuth _ _ _ _ _) as [[o f]|]; [apply handler_quiet|by intros _].
Qed.

Lemma refused_requests_write_nothing_witness :
  re_code (snd (demo_route demo_op_world 1000000 demo_fresh demo_session (DELETE_room "r") demo_query None)) = 404 /\
  quiet demo_op_world (fst (demo_route demo_op_world 1000000 demo_fresh demo_session (DELETE_room "r") demo_query None)).
Proof.
  split; [vm_compute; reflexivity|].
  apply (@refused_requests_write_nothing toy_crypto plain_node toy_buffers simple_feed_urls no_formats default_config demo_access
    "" "" (fun _ => None) demo_op_world 1000000 demo_fresh demo_session (DELETE_room "r") demo_query None).
  vm_compute. discriminate.
Defined.
