(* ===== verification/Retention.v ===== *)
(** * Retention, notices and the sweep job

    The history that is pruned, the notice of a stalled conversation ([db.ts] and
    [POST /v1/notices]), and one tick of [packages/relay/src/sweep.ts], which runs
    every sweep of the relay. *)

From S2P Require Import Prelude Json IsoTime JsValues Events Config Agents Enrollment Messages Rooms Delivery Policies OperatorAccess Text Attachments Feeds.
Import Ascii String.
Open Scope string_scope.
Open Scope Z_scope.

(** ** Pruning in batches *)

Definition PRUNABLE_EVENT_TYPES : list string :=
  ["agent.heartbeat"; "message.queued"; "message.acked"; "message.policy_denied"; "agent.rate_limit_exceeded";
   "attachment.rate_limit_exceeded"; "feed.delivered"; "conversation.resumed"; "conversation.stalled";
   "room.project_mode_changed"].

Definition RETENTION_BATCH_SIZE : Z := 5000.
Definition RETENTION_MAX_BATCHES_PER_TICK : nat := 10.

(** The rows of a table with their rowids. *)
Definition with_rowids {R} (t : list R) : list (nat * R) := zip (seq 0 (length t)) t.

Section Prune.
(** [scan] is the order in which the plan of a statement visits the rows it selects:
    there is no ORDER BY. *)
Context {R : Type} (scan : list nat -> list nat) (candidate : list (nat * R) -> nat * R -> bool).

(** [DELETE ... WHERE rowid IN (SELECT rowid ... LIMIT ?)], and its changes. *)
Definition prune_batch (t : list (nat * R)) : list (nat * R) * nat :=
  let ids := take (Z.to_nat RETENTION_BATCH_SIZE) (scan (map fst (select (candidate t) t))) in
  (delete_where (fun x => bool_decide (fst x ∈ ids)) t, changes (fun x => bool_decide (fst x ∈ ids)) t).

Fixpoint prune (batches : nat) (t : list (nat * R)) : list (nat * R) * nat :=
  match batches with
  | O => (t, O)
  | S batches' =>
      let '(t1, n) := prune_batch t in
      if Z.of_nat n <? RETENTION_BATCH_SIZE then (t1, n)
      else let '(t2, more) := prune batches' t1 in (t2, (n + more)%nat)
  end.

Definition prune_table (t : list R) : list R * nat :=
  let '(t', n) := prune RETENTION_MAX_BATCHES_PER_TICK (with_rowids t) in (map snd t', n).
End Prune.

Section Retention.
Context (cfg : Config) (scan : list nat -> list nat).

Definition prunable_event (now : Z) (e : Event) : bool :=
  bool_decide (ev_type e ∈ PRUNABLE_EVENT_TYPES) && (ev_at e <? now - eventRetentionSeconds cfg * 1000).

Definition sweepEventRetention (events : list Event) (now : Z) : list Event * nat :=
  prune_table scan (fun _ x => prunable_event now (snd x)) events.

(** The newest heartbeat of an agent. *)
Definition newest_heartbeat (t : list (nat * HeartbeatRow)) (agent : string) : option (nat * HeartbeatRow) :=
  latest_by (fun x => h_received_at (snd x)) (select (fun x => h_agent (snd x) ==? agent) t).

Definition stale_heartbeat (now : Z) (t : list (nat * HeartbeatRow)) (x : nat * HeartbeatRow) : bool :=
  (h_received_at (snd x) <? now - heartbeatRetentionSeconds cfg * 1000)
  && match newest_heartbeat t (h_agent (snd x)) with Some y => negb (h_id (snd x) ==? h_id (snd y)) | None => false end.

Definition sweepHeartbeatRetention (d : AgentDb) (now : Z) : AgentDb * nat :=
  let '(hs, n) := prune_table scan (stale_heartbeat now) (ad_heartbeats d) in
  (MkAgentDb (ad_agents d) (ad_controls d) hs (ad_approvals d) (ad_counters d) (ad_violations d) (ad_operators d), n).
End Retention.

(** ** Stalled conversations *)

Record Notice := MkNotice { nt_conversation : string; nt_reason : string; nt_pending : Z; nt_budget : option Z }.

Definition max_at (es : list Event) : option Z :=
  foldr (fun e o => Some (match o with Some t => Z.max (ev_at e) t | None => ev_at e end)) None es.

Definition operator_event (fleet conversation : string) (e : Event) : bool :=
  (ev_fleet e ==? fleet) && (ev_conversation e ==? Some conversation) && (ev_actor_kind e ==? "operator").
Definition stall_event (fleet agent conversation : string) (e : Event) : bool :=
  (ev_fleet e ==? fleet) && (ev_conversation e ==? Some conversation) && (ev_type e ==? "conversation.stalled")
  && (ev_actor e ==? Some agent).

Definition recordConversationStall (events : list Event) (now : Z) (fleet agent : string) (n : Notice) : list Event * bool :=
  let conversation := nt_conversation n in
  let boundary := max_at (select (operator_event fleet conversation) events) in
  let existing := exists_row (fun e => stall_event fleet agent conversation e
                                       && match boundary with Some b => b <? ev_at e | None => true end) events in
  if existing then (events, false)
  else ((events ++ [recordEvent now fleet "conversation.stalled" "agent" (Some agent) "conversation" (Some conversation)
                      (Some conversation)
                      (JObj [("conversation_id", JStr conversation); ("reason", JStr (nt_reason n));
                             ("pending_count", JNum (nt_pending n));
                             ("budget", match nt_budget n with Some b => JNum b | None => JNull end)])])%list, true).

(** [noticeSchema], on the fields it checks beyond their types. *)
Definition valid_notice (n : Notice) : bool :=
  negb (nt_conversation n ==? "") && negb (nt_reason n ==? "") && (Z.of_nat (String.length (nt_reason n)) <=? 64)
  && (0 <=? nt_pending n) && (nt_pending n <=? 10000)
  && match nt_budget n with Some b => (0 <? b) && (b <=? 10000) | None => true end.

Definition postNotice (events : list Event) (now : Z) (caller : string * AgentRow) (n : Notice) : list Event * option bool :=
  if negb (valid_notice n) then (events, None)
  else let '(events', recorded) := recordConversationStall events now (ag_fleet (snd caller)) (fst caller) n in
       (events', Some recorded).

(** ** One tick of the sweep job *)

Record RelayTables := MkRelayTables {
  rt_agents : AgentDb;
  rt_mail : MailDb;
  rt_disk : gmap string (list Z);
  rt_enroll : EnrollDb;
  rt_feeds : FeedDb;
  rt_throttle : LoginThrottle;
  rt_events : list Event
}.

(** The ids a tick draws, and what the outside does: the files that cannot be
    unlinked. *)
Record SweepDraws := MkSweepDraws { sd_dead : string -> string; sd_control : string -> string; sd_stuck : gset string }.

(** The polls started, each up to its fetch. *)
Definition poll_begins (now : Z) (w : FeedWorld) (ids : list string) : FeedWorld * list FeedRow :=
  foldl (fun acc i => let '(f1, feed) := poll_begin_feed (fst acc) now i in
                      (f1, (snd acc ++ match feed with Some r => [r] | None => [] end)%list)) (w, []) ids.

(** The statements of a tick in their order, and the feeds it starts to poll.  Each
    sweep reads the tables the one before left. *)
Definition sweep_tick (cfg : Config) (scan : list nat -> list nat) (now : Z) (x : SweepDraws) (w : RelayTables)
    : RelayTables * list FeedRow :=
  let '(mail, _, es1) := sweepRetryDeliveries cfg (rt_mail w) now (sd_dead x) in
  let '(mail, _, es2) := sweepExpiredMessages mail now in
  let '(agents, _, es3) := sweepHeartbeatLiveness cfg (rt_agents w) now (sd_control x) in
  let agents := sweepStaleRateLimitCounters cfg agents now in
  let throttle := fst (takeOverflowed (sweep (rt_throttle w) now)) in
  let '(enroll, _) := sweepStaleNonces cfg (rt_enroll w) now in
  let '(a, _) := sweepAttachments cfg (MkAttachWorld agents mail (rt_disk w)) now (sd_stuck x) in
  let '(events, _) := sweepEventRetention cfg scan (rt_events w ++ es1 ++ es2 ++ es3)%list now in
  let '(agents, _) := sweepHeartbeatRetention cfg scan (aw_agents a) now in
  let '(f, polled) := poll_begins now (MkFeedWorld agents (aw_mail a) (rt_feeds w)) (feedsDueForPoll (rt_feeds w) now) in
  (MkRelayTables (fw_agents f) (fw_mail f) (aw_disk a) enroll (fw_feeds f) throttle events, polled).

(** * Properties of retention and notices

    Which rows the sweeps of history delete, how many, and when a stalled
    conversation is reported again. *)

(** ** Batches *)

Section Prune.
Context {R : Type} (scan : list nat -> list nat) (candidate : list (nat * R) -> nat * R -> bool).
Context (scan_perm : forall l, scan l ≡ₚ l).

(** Deleting candidates does not change which of the other rows are candidates. *)
Context (stable : forall q t, (forall x, x ∈ t -> q x = false -> candidate t x = true) ->
  forall x, x ∈ t -> candidate (List.filter q t) x = candidate t x).

Lemma changes_filter {A} (p : A -> bool) t : (length t = length (List.filter (fun x => negb (p x)) t) + changes p t)%nat.
Proof. unfold changes. induction t as [|x t IH]; [done|]. simpl. destruct (p x); simpl; lia. Qed.

Lemma prune_batch_spec t t' n : NoDup (map fst t) -> prune_batch scan candidate t = (t', n) ->
  exists q, t' = List.filter q t /\ (forall x, x ∈ t -> q x = false -> candidate t x = true) /\
    (length t = length t' + n)%nat /\ Z.of_nat n <= RETENTION_BATCH_SIZE /\
    (Z.of_nat n < RETENTION_BATCH_SIZE -> forall x, x ∈ t' -> candidate t x = false).
Proof.
  intros Hnd. unfold prune_batch. set (cands := map fst (select (candidate t) t)).
  set (ids := take (Z.to_nat RETENTION_BATCH_SIZE) (scan cands)). intros [= <- <-].
  assert (Hids : forall x, x ∈ t -> fst x ∈ cands -> candidate t x = true).
  { intros x Hx (y & He & Hy)%list_elem_of_fmap. apply elem_of_select in Hy as [Hy Hc].
    by rewrite (NoDup_map_inj _ _ x y Hnd Hx Hy He). }
  assert (Hsub : forall i, i ∈ ids -> i ∈ cands).
  { intros i Hi. unfold ids in Hi. apply elem_of_take in Hi as (k & Hk & _). apply list_elem_of_lookup_2 in Hk. by rewrite scan_perm in Hk. }
  assert (Hndi : NoDup ids).
  { unfold ids. eapply sublist_NoDup; [|apply sublist_take]. rewrite scan_perm. unfold cands, select.
    eapply sublist_NoDup; [exact Hnd|]. apply sublist_map, filter_sublist. }
  assert (Hch : changes (fun x => bool_decide (fst x ∈ ids)) t = length ids).
  { unfold changes. rewrite <- (length_map fst). apply Permutation_length, NoDup_Permutation; [|done|].
    - eapply sublist_NoDup; [exact Hnd|]. apply sublist_map, filter_sublist.
    - intros i. rewrite list_elem_of_fmap. setoid_rewrite elem_of_where. setoid_rewrite bool_decide_eq_true. split.
      + by intros (x & -> & _ & ?).
      + intros Hi. pose proof (Hsub i Hi) as (x & -> & [Hx _]%elem_of_select)%list_elem_of_fmap. exists x. by split_and!. }
  eexists. unfold delete_where. split; [reflexivity|]. split_and!.
  - intros x Hx Hq. apply negb_false_iff, bool_decide_eq_true in Hq. by apply Hids, Hsub.
  - apply changes_filter.
  - rewrite Hch. unfold ids. rewrite length_take. assert (0 <= RETENTION_BATCH_SIZE) by done. lia.
  - rewrite Hch. intros Hlt x Hx. apply elem_of_where in Hx as [Hx Hn]. apply negb_true_iff, bool_decide_eq_false in Hn.
    apply not_true_iff_false. intros Hc. apply Hn. unfold ids in *. rewrite length_take in Hlt.
    rewrite take_ge by lia. rewrite scan_perm. apply list_elem_of_fmap. exists x. split; [done|by apply elem_of_select].
Qed.

Lemma prune_spec batches : forall t t' n, NoDup (map fst t) -> prune scan candidate batches t = (t', n) ->
  exists q, t' = List.filter q t /\ (forall x, x ∈ t -> q x = false -> candidate t x = true) /\
    (length t = length t' + n)%nat /\ Z.of_nat n <= Z.of_nat batches * RETENTION_BATCH_SIZE /\
    (Z.of_nat n < Z.of_nat batches * RETENTION_BATCH_SIZE -> forall x, x ∈ t' -> candidate t x = false).
Proof.
  induction batches as [|b IH]; intros t t' n Hnd; cbn [prune].
  - intros [= <- <-]. exists (fun _ => true). split_and!; [|done|lia|done|unfold RETENTION_BATCH_SIZE; lia].
    by rewrite List.filter_true.
  - destruct (prune_batch scan candidate t) as [t1 n1] eqn:Hb.
    destruct (prune_batch_spec _ _ _ Hnd Hb) as (q & -> & Hq & Hl & Hm & Hd).
    destruct (Z.ltb_spec (Z.of_nat n1) RETENTION_BATCH_SIZE) as [Hs|Hs].
    + intros [= <- <-]. exists q. split_and!; [done..|unfold RETENTION_BATCH_SIZE in *; lia|]. intros _. by apply Hd.
    + destruct (prune scan candidate b (List.filter q t)) as [t2 n2] eqn:Hp. intros [= <- <-].
      apply IH in Hp as (q2 & -> & Hq2 & Hl2 & Hm2 & Hd2).
      2:{ eapply sublist_NoDup; [exact Hnd|]. apply sublist_map, filter_sublist. }
      exists (fun x => q x && q2 x). split_and!.
      * apply filter_filter.
      * intros x Hx [Hf|Hf]%andb_false_iff; [by apply Hq|]. destruct (q x) eqn:Hqx; [|by apply Hq].
        rewrite <- (stable q t Hq x Hx). apply Hq2; [|done]. by apply elem_of_where.
      * lia.
      * unfold RETENTION_BATCH_SIZE in *. lia.
      * intros Hlt x Hx. assert (Hxt : x ∈ t) by (do 2 apply elem_of_where in Hx as [Hx _]; done).
        rewrite <- (stable q t Hq x Hxt). apply Hd2; [unfold RETENTION_BATCH_SIZE in *; lia|done].
Qed.
End Prune.

Lemma with_rowids_fst {R} (t : list R) : map fst (with_rowids t) = seq 0 (length t).
Proof. unfold with_rowids. apply fst_zip. rewrite length_seq. lia. Qed.

Lemma with_rowids_snd {R} (t : list R) : map snd (with_rowids t) = t.
Proof. unfold with_rowids. apply snd_zip. rewrite length_seq. lia. Qed.

Lemma with_rowids_NoDup {R} (t : list R) : NoDup (map fst (with_rowids t)).
Proof. rewrite with_rowids_fst. apply NoDup_seq. Qed.

(** Rows that are never deleted are all left, in order. *)
Lemma kept_rows {R} (k : R -> bool) (q : nat * R -> bool) rows :
  (forall x, x ∈ rows -> q x = false -> k (snd x) = false) ->
  List.filter k (map snd (List.filter q rows)) = List.filter k (map snd rows).
Proof.
  induction rows as [|x rows IH]; intros Hq; [done|]. simpl. specialize (Hq x) as Hx.
  assert (Hr : forall y, y ∈ rows -> q y = false -> k (snd y) = false) by (intros y Hy; apply Hq; by right).
  destruct (q x) eqn:E; simpl; rewrite (IH Hr); [done|]. rewrite Hx; [done|by left|done].
Qed.

Lemma filter_all {R} (p : R -> bool) l : (forall x, x ∈ l -> p x = true) -> List.filter p l = l.
Proof.
  induction l as [|x l IH]; intros Hp; [done|]. simpl. rewrite Hp by (by left). f_equal. apply IH. intros y Hy. apply Hp. by right.
Qed.

Lemma order_by_map {A B} (key : B -> Z) (f : A -> B) l : order_by key (map f l) = map f (order_by (fun x => key (f x)) l).
Proof.
  unfold order_by. induction l as [|x l IH]; [done|]. simpl. rewrite IH. clear IH.
  induction (foldr (insert_by (fun x => key (f x))) [] l) as [|y r IHr]; [done|]. simpl.
  destruct (key (f x) <=? key (f y))%Z; [done|]. simpl. by rewrite IHr.
Qed.

(** The last known heartbeat of an agent. *)
Definition last_heartbeat (hs : list HeartbeatRow) (agent : string) : option HeartbeatRow :=
  latest_by h_received_at (select (fun h => h_agent h ==? agent) hs).

Lemma last_heartbeat_rows t agent : last_heartbeat (map snd t) agent = snd <$> newest_heartbeat t agent.
Proof.
  unfold last_heartbeat, newest_heartbeat, latest_by.
  assert (Hs : select (fun h => h_agent h ==? agent) (map snd t) = map snd (select (fun x => h_agent (snd x) ==? agent) t)).
  { unfold select. induction t as [|x t IH]; [done|]. simpl. destruct (h_agent (snd x) ==? agent); simpl; by rewrite IH. }
  rewrite Hs, order_by_map. apply (fmap_last snd).
Qed.

Section Sweeps.
Context (cfg : Config) (scan : list nat -> list nat).

(** One tick of event retention deletes only events of the prunable types that are
    older than the retention: every other event, the whole audit trail among them,
    is left in its place.  It deletes at most 50,000, and when it deletes fewer than
    that nothing prunable is left. *)
Theorem event_retention_exact events now events' n :
  (forall l, scan l ≡ₚ l) ->
  sweepEventRetention cfg scan events now = (events', n) ->
  let kept := List.filter (fun e => negb (prunable_event cfg now e)) in
  sublist events' events /\ kept events' = kept events /\
  (length events = length events' + n)%nat /\ Z.of_nat n <= 50000 /\
  (Z.of_nat n < 50000 -> events' = kept events).
Proof.
  intros Hscan. unfold sweepEventRetention, prune_table.
  destruct (prune scan _ _ (with_rowids events)) as [t' k] eqn:Hp. intros [= <- <-].
  apply prune_spec in Hp as (q & -> & Hq & Hl & Hm & Hd); [|done|done|apply with_rowids_NoDup].
  pose proof (with_rowids_snd events) as Hrows. set (rows := with_rowids events) in *. cbv zeta.
  assert (Hk : List.filter (fun e => negb (prunable_event cfg now e)) (map snd (List.filter q rows)) =
               List.filter (fun e => negb (prunable_event cfg now e)) events).
  { rewrite <- Hrows. apply kept_rows. intros x Hx Hf. by rewrite (Hq x Hx Hf). }
  split_and!; [|done| | |].
  - rewrite <- Hrows. apply sublist_map, filter_sublist.
  - rewrite <- Hrows. by rewrite !length_map.
  - unfold RETENTION_BATCH_SIZE, RETENTION_MAX_BATCHES_PER_TICK in Hm. lia.
  - intros Hlt. rewrite <- Hk. symmetry. apply filter_all. intros e (x & -> & Hx)%list_elem_of_fmap.
    apply negb_true_iff, Hd; [|done]. unfold RETENTION_BATCH_SIZE, RETENTION_MAX_BATCHES_PER_TICK. lia.
Qed.

Lemma newest_heartbeat_stable now q t agent :
  (forall x, x ∈ t -> q x = false -> stale_heartbeat cfg now t x = true) ->
  newest_heartbeat (List.filter q t) agent = newest_heartbeat t agent.
Proof.
  intros Hq. unfold newest_heartbeat, select.
  rewrite filter_filter, (filter_ext' _ (fun x => (h_agent (snd x) ==? agent) && q x)) by (intros x; apply andb_comm).
  rewrite <- filter_filter. destruct (latest_by _ (List.filter _ t)) as [z|] eqn:Hz.
  - apply latest_by_filter; [done|]. apply not_false_iff_true. intros Hf.
    pose proof (latest_by_Some _ _ _ Hz) as [Hzt Hza%bool_decide_eq_true]%elem_of_where.
    apply Hq in Hf; [|done]. unfold stale_heartbeat, newest_heartbeat, select in Hf.
    rewrite Hza, Hz, bool_decide_true, andb_false_r in Hf by done. done.
  - apply latest_by_None in Hz. by rewrite Hz.
Qed.

(** One tick of heartbeat retention changes no agent's last known heartbeat, however
    old it is, deletes no heartbeat younger than the retention and at most 50,000 rows;
    when it deletes fewer than that, the only old heartbeats left are last known ones. *)
Theorem heartbeat_retention_keeps_newest d now d' n :
  (forall l, scan l ≡ₚ l) ->
  sweepHeartbeatRetention cfg scan d now = (d', n) ->
  let cutoff := now - heartbeatRetentionSeconds cfg * 1000 in
  let young := List.filter (fun h => cutoff <=? h_received_at h) in
  sublist (ad_heartbeats d') (ad_heartbeats d) /\
  young (ad_heartbeats d') = young (ad_heartbeats d) /\
  (forall agent, last_heartbeat (ad_heartbeats d') agent = last_heartbeat (ad_heartbeats d) agent) /\
  (length (ad_heartbeats d) = length (ad_heartbeats d') + n)%nat /\ Z.of_nat n <= 50000 /\
  (Z.of_nat n < 50000 -> forall h, h ∈ ad_heartbeats d' -> h_received_at h < cutoff ->
     exists y, last_heartbeat (ad_heartbeats d') (h_agent h) = Some y /\ h_id y = h_id h).
Proof.
  intros Hscan. unfold sweepHeartbeatRetention, prune_table.
  destruct (prune scan _ _ (with_rowids (ad_heartbeats d))) as [t' k] eqn:Hp. intros [= <- <-]. simpl.
  apply prune_spec in Hp as (q & -> & Hq & Hl & Hm & Hd); [|done| |apply with_rowids_NoDup].
  2:{ intros q t Hq x Hx. unfold stale_heartbeat at 1. by rewrite newest_heartbeat_stable with (now := now). }
  pose proof (with_rowids_snd (ad_heartbeats d)) as Hrows. set (rows := with_rowids (ad_heartbeats d)) in *.
  assert (Hlast : forall agent, last_heartbeat (map snd (List.filter q rows)) agent = last_heartbeat (map snd rows) agent).
  { intros agent. rewrite !last_heartbeat_rows. by rewrite newest_heartbeat_stable with (now := now). }
  rewrite <- Hrows. split_and!.
  - apply sublist_map, filter_sublist.
  - apply kept_rows. intros x Hx Hf. apply Hq in Hf; [|done]. apply andb_true_iff in Hf as [Hf _]. lia.
  - done.
  - by rewrite !length_map.
  - unfold RETENTION_BATCH_SIZE, RETENTION_MAX_BATCHES_PER_TICK in Hm. lia.
  - intros Hlt h (x & -> & Hx)%list_elem_of_fmap Hold. rewrite Hlast, last_heartbeat_rows.
    assert (Hc : stale_heartbeat cfg now rows x = false).
    { apply Hd; [unfold RETENTION_BATCH_SIZE, RETENTION_MAX_BATCHES_PER_TICK; lia|done]. }
    unfold stale_heartbeat in Hc. rewrite (proj2 (Z.ltb_lt _ _) Hold) in Hc. simpl in Hc.
    destruct (newest_heartbeat rows (h_agent (snd x))) as [y|] eqn:Hy.
    + exists (snd y). split; [done|]. by apply negb_false_iff, bool_decide_eq_true in Hc.
    + exfalso. apply latest_by_None in Hy. apply elem_of_where in Hx as [Hx _].
      assert (Hin : x ∈ select (fun z => h_agent (snd z) ==? h_agent (snd x)) rows).
      { apply elem_of_select. split; [done|by apply bool_decide_eq_true]. }
      rewrite Hy in Hin. by apply elem_of_nil in Hin.
Qed.
End Sweeps.

(** ** Notices *)

Lemma max_at_spec es : match max_at es with
  | None => es = []
  | Some t => (exists e, e ∈ es /\ ev_at e = t) /\ forall e, e ∈ es -> ev_at e <= t
  end.
Proof.
  induction es as [|e es IH]; [done|]. simpl. destruct (max_at es) as [t|].
  - destruct IH as [(e0 & He0 & Ht) Hmax]. split.
    + destruct (Z.max_spec (ev_at e) t) as [[_ ->]|[_ ->]]; [exists e0; split; [by right|done]|exists e; split; [by left|done]].
    + intros x [->|Hx]%elem_of_cons; [lia|]. apply Hmax in Hx. lia.
  - subst es. split; [exists e; by split; [left|]|]. by intros x [->|?%elem_of_nil]%elem_of_cons.
Qed.

(** A notice is recorded exactly when every stall this agent reported before in the
    conversation is answered: an operator event of the conversation is not older than
    it.  A recorded notice adds one event of the agent's own fleet, under its name; a
    notice that is not recorded, or whose request is malformed, changes nothing. *)
Theorem stall_reported_once_until_operator events now caller n events' r :
  postNotice events now caller n = (events', r) ->
  let stall := stall_event (ag_fleet (snd caller)) (fst caller) (nt_conversation n) in
  let answered s := exists e, e ∈ events /\ operator_event (ag_fleet (snd caller)) (nt_conversation n) e = true /\ ev_at s <= ev_at e in
  (r = None <-> valid_notice n = false) /\
  (r = Some true <-> valid_notice n = true /\ forall s, s ∈ events -> stall s = true -> answered s) /\
  (r = Some true -> exists e, events' = (events ++ [e])%list /\ stall e = true /\ ev_at e = now /\ ev_actor_kind e = "agent") /\
  (r <> Some true -> events' = events).
Proof.
  unfold postNotice, recordConversationStall. destruct (valid_notice n); simpl.
  2:{ intros [= <- <-]. split; [done|]. split; [split; [done|by intros [? _]]|by split]. }
  set (fleet := ag_fleet (snd caller)). set (conv := nt_conversation n). set (agent := fst caller).
  pose proof (max_at_spec (select (operator_event fleet conv) events)) as Hm.
  destruct (exists_row _ events) eqn:Hex; intros [= <- <-].
  - apply exists_row_true in Hex as (s & Hs & [Hst Hb]%andb_true_iff).
    split; [done|]. split; [|by split]. split; [done|]. intros [_ Ha].
    exfalso. destruct (Ha s Hs Hst) as (e & He & Hop & Hle).
    assert (Hin : e ∈ select (operator_event fleet conv) events) by by apply elem_of_select.
    destruct (max_at _) as [t|].
    + destruct Hm as [_ Hm]. apply Hm in Hin. lia.
    + rewrite Hm in Hin. by apply elem_of_nil in Hin.
  - rewrite exists_row_false in Hex. split; [done|]. split; [|split; [|done]].
    + split; [intros _; split; [done|]|done]. intros s Hs Hst. specialize (Hex s Hs). rewrite Hst in Hex. simpl in Hex.
      destruct (max_at _) as [t|]; [|done]. destruct Hm as [(e & [He Hop]%elem_of_select & Ht) _]. exists e. split_and!; [done..|lia].
    + intros _. eexists. split; [reflexivity|]. split_and!; [|done..]. unfold stall_event. simpl.
      by rewrite !bool_decide_true by done.
Qed.

(** ** Feeds the sweep starts *)

Definition stamp_polled (now : Z) (x : FeedRow) : FeedRow :=
  MkFeed (fd_id x) (fd_fleet x) (fd_name x) (fd_url x) (fd_poll_interval_minutes x) (Some now) (fd_created_at x) (fd_created_by x).

Lemma select_one_id (t : list FeedRow) r : NoDup (map fd_id t) -> r ∈ t -> select_one (fun x => fd_id x ==? fd_id r) t = Some r.
Proof.
  intros Hnd Hr. destruct (select_one _ t) as [y|] eqn:Hs.
  - apply select_one_Some in Hs as [Hy He%bool_decide_eq_true]. f_equal. by apply (NoDup_map_inj fd_id t).
  - pose proof (select_one_None _ _ Hs r Hr) as Hn. cbv beta in Hn. by rewrite bool_decide_true in Hn.
Qed.

Lemma poll_begins_spec now rows : forall w acc, NoDup (map fd_id (fb_feeds (fw_feeds w))) ->
  NoDup (map fd_id rows) -> (forall r, r ∈ rows -> r ∈ fb_feeds (fw_feeds w)) ->
  foldl (fun acc i => let '(f1, feed) := poll_begin_feed (fst acc) now i in
                      (f1, (snd acc ++ match feed with Some r => [r] | None => [] end)%list)) (w, acc) (map fd_id rows) =
  (with_feeds (MkFeedDb (update_where (fun x => bool_decide (fd_id x ∈ map fd_id rows)) (stamp_polled now) (fb_feeds (fw_feeds w)))
      (fb_subscribers (fw_feeds w)) (fb_seen (fw_feeds w))) w, (acc ++ rows)%list).
Proof.
  induction rows as [|r rows IH]; intros w acc Hnd Hndr Hin; cbn [map foldl].
  - rewrite app_nil_r, update_where_none; [by destruct w as [? ? []]|]. intros x _. apply bool_decide_false. by intros ?%elem_of_nil.
  - unfold poll_begin_feed at 2. simpl fst. rewrite select_one_id by first [done|apply Hin; by left].
    apply NoDup_cons in Hndr as [Hnr Hndr]. rewrite IH; simpl.
    + rewrite <- app_assoc. f_equal. unfold with_feeds. simpl. do 2 f_equal.
      rewrite (update_where_compose (fun x => fd_id x ==? fd_id r) _ (stamp_polled now)).
      * apply update_where_ext. intros x _. apply eq_true_iff_eq. rewrite orb_true_iff, !bool_decide_eq_true, elem_of_cons. done.
      * intros x He%bool_decide_eq_true. simpl. apply bool_decide_false. by rewrite He.
      * intros x He%bool_decide_eq_true. apply bool_decide_false. by rewrite He.
    + rewrite map_update_where; [done|done].
    + done.
    + intros x Hx. apply elem_of_update_where. exists x. split; [apply Hin; by right|].
      rewrite bool_decide_false; [done|]. intros He. apply Hnr. rewrite <- He. by apply list_elem_of_fmap_2.
Qed.

Definition due (now : Z) (r : FeedRow) : bool :=
  match fd_last_polled_at r with None => true | Some t => fd_poll_interval_minutes r * 60000 <=? now - t end.

(** A tick of the sweep job starts exactly one poll of each feed that is due, and
    stamps it before the fetch: until its interval has passed, the feed is not due
    again, so no later tick polls it a second time meanwhile. *)
Theorem sweep_polls_each_due_feed_once cfg scan now x w w' polled :
  NoDup (map fd_id (fb_feeds (rt_feeds w))) ->
  sweep_tick cfg scan now x w = (w', polled) ->
  polled = select (due now) (fb_feeds (rt_feeds w)) /\ NoDup (map fd_id polled) /\
  map fd_id (fb_feeds (rt_feeds w')) = map fd_id (fb_feeds (rt_feeds w)) /\
  forall r t, r ∈ polled -> t < now + fd_poll_interval_minutes r * 60000 -> fd_id r ∉ feedsDueForPoll (rt_feeds w') t.
Proof.
  intros Hnd. unfold sweep_tick.
  destruct (sweepRetryDeliveries _ _ _ _) as [[m1 ?] ?]. destruct (sweepExpiredMessages _ _) as [[m2 ?] ?].
  destruct (sweepHeartbeatLiveness _ _ _ _) as [[a1 ?] ?]. destruct (sweepStaleNonces _ _ _) as [e1 ?].
  destruct (sweepAttachments _ _ _ _) as [a2 ?]. destruct (sweepEventRetention _ _ _ _) as [ev ?].
  destruct (sweepHeartbeatRetention _ _ _ _) as [a3 ?].
  unfold poll_begins, feedsDueForPoll at 1. change (select _ (fb_feeds (rt_feeds w))) with (select (due now) (fb_feeds (rt_feeds w))).
  assert (Hds : NoDup (map fd_id (select (due now) (fb_feeds (rt_feeds w))))).
  { eapply sublist_NoDup; [exact Hnd|]. apply sublist_map, filter_sublist. }
  rewrite poll_begins_spec; [|exact Hnd|exact Hds|by intros r [? _]%elem_of_select]. intros [= <- <-]. simpl.
  split_and!; [done|done|by rewrite map_update_where|].
  intros r t Hr Ht (y & He & [Hy Hdy]%elem_of_select)%list_elem_of_fmap.
  apply elem_of_update_where in Hy as (y0 & Hy0 & ->). pose proof Hr as [Hr0 _]%elem_of_select.
  assert (Hid : fd_id y0 = fd_id r) by (destruct (bool_decide _) in He; by rewrite He).
  apply (NoDup_map_inj fd_id _ _ _ Hnd Hy0 Hr0) in Hid as ->.
  rewrite bool_decide_true in Hdy by by apply list_elem_of_fmap_2. simpl in Hdy. lia.
Qed.

(** ** Witnesses *)

Lemma backwards l : @List.rev nat l ≡ₚ l.
Proof. symmetry. apply Permutation_rev. Qed.

Definition old_heartbeat : Event := recordEvent 0 "f" "agent.heartbeat" "agent" (Some "a1") "agent" (Some "a1") None JNull.
Definition old_endorsement : Event := recordEvent 0 "f" "operator_key.endorsed" "operator" (Some "op") "operator_key" (Some "k") None JNull.
Definition demo_history : list Event := [old_heartbeat; old_endorsement; recordEvent 2592000000 "f" "message.acked" "agent" (Some "a1") "message" None None JNull].

Lemma event_retention_exact_witness :
  sweepEventRetention default_config (@List.rev nat) demo_history 2592001000 = (drop 1 demo_history, 1%nat) /\
  (Z.of_nat 1 < 50000 -> drop 1 demo_history =
     List.filter (fun e => negb (prunable_event default_config 2592001000 e)) demo_history).
Proof.
  assert (He : sweepEventRetention default_config (@List.rev nat) demo_history 2592001000 = (drop 1 demo_history, 1%nat))
    by (vm_compute; reflexivity).
  split; [exact He|].
  exact (proj2 (proj2 (proj2 (proj2 (event_retention_exact default_config (@List.rev nat) demo_history 2592001000 _ _ backwards He))))).
Defined.

Definition demo_hb_db : AgentDb :=
  MkAgentDb ∅ [] [MkHeartbeat "h1" "a1" "healthy" JNull 0; MkHeartbeat "h2" "a1" "busy" JNull 10; MkHeartbeat "h3" "a2" "idle" JNull 5] ∅ ∅ [] ∅.

Lemma heartbeat_retention_keeps_newest_witness :
  let r := sweepHeartbeatRetention default_config (@List.rev nat) demo_hb_db 900000000 in
  map h_id (ad_heartbeats (fst r)) = ["h2"; "h3"] /\ snd r = 1%nat /\
  last_heartbeat (ad_heartbeats (fst r)) "a1" = last_heartbeat (ad_heartbeats demo_hb_db) "a1".
Proof.
  split; [vm_compute; reflexivity|]. split; [vm_compute; reflexivity|].
  destruct (heartbeat_retention_keeps_newest default_config (@List.rev nat) demo_hb_db 900000000 _ _ backwards
    (surjective_pairing _)) as (_ & _ & Hl & _). apply Hl.
Defined.

Definition demo_stall : Notice := MkNotice "c1" "peer_turn_budget_exhausted" 2 None.
Definition demo_caller : string * AgentRow := ("a1", MkAgent "f" "Tars" "openclaw" Healthy None 0 None None 0 None None false true NO_TURN_LIMIT).
Definition operator_says (at_ : Z) : Event :=
  recordEvent at_ "f" "message.queued" "operator" (Some "op_f") "message" (Some "m") (Some "c1") JNull.

Lemma stall_reported_once_until_operator_witness :
  let '(es1, r1) := postNotice [operator_says 10] 11 demo_caller demo_stall in
  let '(es2, r2) := postNotice es1 12 demo_caller demo_stall in
  let '(_, r3) := postNotice (es2 ++ [operator_says 13])%list 14 demo_caller demo_stall in
  r1 = Some true /\ r2 = Some false /\ r3 = Some true /\ es2 = es1.
Proof.
  destruct (postNotice [operator_says 10] 11 demo_caller demo_stall) as [es1 r1] eqn:H1.
  destruct (postNotice es1 12 demo_caller demo_stall) as [es2 r2] eqn:H2.
  assert (He1 : es1 = fst (es1, r1)) by reflexivity. rewrite <- H1 in He1. vm_compute in He1.
  assert (Hr2 : r2 = snd (es2, r2)) by reflexivity. rewrite <- H2, He1 in Hr2. vm_compute in Hr2.
  destruct (stall_reported_once_until_operator es1 12 demo_caller demo_stall es2 r2 H2) as (_ & _ & _ & Hq).
  rewrite Hq by (rewrite Hr2; discriminate).
  destruct (postNotice (es1 ++ [operator_says 13])%list 14 demo_caller demo_stall) as [es3 r3] eqn:H3.
  split; [|split; [exact Hr2|split; [|reflexivity]]].
  - change r1 with (snd (es1, r1)). rewrite <- H1. vm_compute. reflexivity.
  - change r3 with (snd (es3, r3)). rewrite <- H3, He1. vm_compute. reflexivity.
Defined.

(** Reported in the millisecond of the operator's event, a stall is not newer than it,
    and the next notice is recorded again. *)
Example stall_repeats_in_operator_millisecond :
  let '(es1, r1) := postNotice [operator_says 10] 10 demo_caller demo_stall in
  let '(es2, r2) := postNotice es1 11 demo_caller demo_stall in
  r1 = Some true /\ r2 = Some true /\ snd (postNotice es2 12 demo_caller demo_stall) = Some false.
Proof. vm_compute. done. Qed.

Definition demo_tables : RelayTables :=
  MkRelayTables demo_hb_db (MkMailDb [] [] [] ∅ [] ∅ ∅) ∅ (MkEnrollDb ∅ [] [] ∅)
    (MkFeedDb [MkFeed "feed1" "f" "News" "http://news.example/rss" 30 None 0 "op";
               MkFeed "feed2" "f" "Blog" "http://blog.example/rss" 30 (Some 1700000) 0 "op"] [] [])
    (MkThrottle ∅ false) demo_history.
Definition demo_sweep_draws : SweepDraws := MkSweepDraws id id ∅.

Lemma sweep_polls_each_due_feed_once_witness :
  let r := sweep_tick default_config (@List.rev nat) 1800000 demo_sweep_draws demo_tables in
  map fd_id (snd r) = ["feed1"] /\ ("feed1" ∉ feedsDueForPoll (rt_feeds (fst r)) 3599999) /\
  feedsDueForPoll (rt_feeds (fst r)) 3600000 = ["feed1"; "feed2"].
Proof.
  split; [vm_compute; reflexivity|]. split; [|vm_compute; reflexivity].
  destruct (sweep_polls_each_due_feed_once default_config (@List.rev nat) 1800000 demo_sweep_draws demo_tables _ _
    ltac:(apply (bool_decide_unpack _); vm_compute; exact I) (surjective_pairing _)) as (Hp & _ & _ & Hn).
  apply (Hn (MkFeed "feed1" "f" "News" "http://news.example/rss" 30 None 0 "op")); [|simpl; lia].
  rewrite Hp. apply elem_of_select. split; [left|reflexivity].
Defined.
