(* ===== verification/AgentApi.v ===== *)
(** * The agent routes over the whole state

    [packages/relay/src/routes-agent.ts]: the enrolment route and every handler
    behind [requireAgentAuth], on the state of [OperatorRoutes].  A request comes
    with its headers, its route, its query and its JSON body; bodies go through the
    schemas of [Schemas]. *)

From S2P Require Import Prelude Json IsoTime JsValues Identity Events OperatorKeys Config Agents Enrollment Messages Rooms Delivery Policies OperatorAccess Text SdkClient Attachments OperatorViews Feeds AgentRoutes Schemas OperatorRoutes Retention.
Import Ascii String.
Open Scope string_scope.
Open Scope Z_scope.

(** ** The state of [AgentRoutes] within the whole *)

Definition agent_world (w : OpWorld) : World :=
  MkWorld (ow_enroll w) (ow_keys w) (ow_agents w) (ow_mail w) (ow_policies w).
Definition with_agent_world (x : World) (w : OpWorld) : OpWorld :=
  with_ow_policies (w_policies x) (with_ow_mail (w_mail x) (with_ow_agents (w_agents x)
    (with_ow_keys (w_keys x) (with_ow_enroll (w_enroll x) w)))).

(** ** Answers *)

(** What an enrolled agent starts with. *)
Record Enrolled := MkEnrolled {
  er_agent_id : string;
  er_secret : string;
  er_relay_base_url : string;
  er_heartbeat_interval_seconds : Z;
  er_poll_interval_seconds : Z;
  er_policy_profile : string;
  er_operator_keys : list AgentKeyView
}.

Inductive AgentAnswer :=
  | GError (reason : string)
  | GEnrolled (e : Enrolled)
  | GKeyId (key_id : string)
  | GRoom (id : string) (members : list string)
  | GSend (r : SendReply)
  | GStatus (s : SentStatus)
  | GConversations (l : list ConversationEntry)
  | GSent (l : list (MessageRow * DeliveryCounts)) (since : option Z)
  | GUpload (r : result UploadRefusal AttachmentView)
  | GDownload (d : Download)
  | GInbox (i : InboxResponse)
  | GAcked (updated : nat)
  | GFloor (f : FloorReply)
  | GReleased (released : bool)
  | GNotice (recorded : bool)
  | GBeat (next_heartbeat_due_seconds : Z)
  | GDecision (d : Decision)
  | GDone (done : bool)
  | GApproval (a : string * string * string * string * Z * option Z).

Record AgentReply := MkAgentReply { gr_code : Z; gr_answer : AgentAnswer }.

Definition agent_refuse (code : Z) (reason : string) : AgentReply := MkAgentReply code (GError reason).
Definition agent_ok (a : AgentAnswer) : AgentReply := MkAgentReply 200 a.
Definition agent_found {A} (reason : string) (f : A -> AgentAnswer) (o : option A) : AgentReply :=
  match o with Some x => agent_ok (f x) | None => agent_refuse 404 reason end.

(** [request.query.limit], as [clampLimit] reads it. *)
Definition limit_of (q : Query) : LimitParam :=
  match qu_number q "limit" with
  | None => LimitAbsent
  | Some None => LimitNaN
  | Some (Some n) => LimitNumber n
  end.

(** [request.body ? JSON.stringify(request.body) : ""] *)
Definition body_text (body : option json) : string :=
  match body with Some j => if js_truthy j then json_stringify j else "" | None => "" end.
Definition with_request_body (body : option json) (r : SignedRequest) : SignedRequest :=
  MkRequest (rq_agent_id r) (rq_timestamp r) (rq_nonce r) (rq_signature r) (rq_secret r) (rq_method r) (rq_path r)
    (body_text body).

Section Routes.
Context `{Crypto} `{NodeCrypto} `{BufferApi} `{ZodFormats} (cfg : Config).
(** The extensions, and the settings that are only handed to agents. *)
Context (exts : list ExtensionHook) (baseUrl : string) (heartbeatIntervalSeconds pollIntervalSeconds : Z).

(** A handler behind [requireAgentAuth]. *)
Definition agent_handler : Type := OpWorld -> Z -> Fresh -> AgentIdentity -> OpWorld * AgentReply.

Definition agent_body {A} (schema : parser A) (body : option json) (k : A -> agent_handler) : agent_handler :=
  fun w now fx agent =>
  match body with
  | Some j => match schema j with
              | Some b => k b w now fx agent
              | None => (w, agent_refuse 400 "invalid body")
              end
  | None => (w, agent_refuse 400 "invalid body")
  end.

(** A stopped agent is refused before its body is read. *)
Definition unless_stopped (k : agent_handler) : agent_handler := fun w now fx agent =>
  if (id_status agent ==? Quarantined) || (id_status agent ==? Paused)
  then (w, agent_refuse 403 "agent is stopped") else k w now fx agent.

(** ** Identity keys and rooms *)

Definition postIdentityKey (body : option json) : agent_handler :=
  agent_body identityKeySchema body (fun publicKey w now _ agent =>
    let '(keys, kid) := setAgentIdentityKey (ow_keys w) now (id_agent agent) (id_fleet agent) publicKey in
    (with_ow_keys keys w, agent_ok (GKeyId kid))).

Definition postAgentRoom (body : option json) : agent_handler :=
  unless_stopped (agent_body agentCreateRoomSchema body (fun b w now fx agent =>
    let '(m, members, es) := createRoom (ow_agents w) (ow_mail w) now (fr_id fx) (id_fleet agent) true (id_agent agent)
                               (fst b) (snd b) in
    (logged fx es (with_ow_mail m w), MkAgentReply 201 (GRoom (fr_id fx) members)))).

(** ** Messages *)

(** The control of an automatic quarantine has an id of its own. *)
Definition postAgentMessage (body : option json) : agent_handler :=
  agent_body sendMessageSchema body (fun r w now fx agent =>
    let '(x, reply, es) := postMessage cfg exts (agent_world w) now (fr_token fx) (fr_id fx) (fr_delivery fx) agent r in
    (logged fx es (with_agent_world x w), MkAgentReply (reply_code reply) (GSend reply))).

Definition getMessageStatus (messageId : string) : agent_handler := fun w now _ agent =>
  (w, if messageId ==? "" then agent_refuse 400 "message id required"
      else agent_found "message not found" GStatus
             (getSentMessageStatus (ow_mail w) now (id_fleet agent) (id_agent agent) messageId)).

Definition getAgentConversations (q : Query) : agent_handler := fun w _ _ agent =>
  (w, agent_ok (GConversations (getConversationsRoute (agent_world w) agent (limit_of q)))).

(** A [since] that is no instant is refused, and not ignored. *)
Definition getSent (q : Query) : agent_handler := fun w _ _ agent =>
  let answer since := agent_ok (GSent (listSentMessages (ow_mail w) (id_fleet agent) (id_agent agent) since
                                         (clampLimit (limit_of q) 25 100)) since) in
  (w, match qu_text q "since" with
      | None => answer None
      | Some s => match date_parse s with
                  | None => agent_refuse 400 "since must be an ISO-8601 timestamp"
                  | Some t => answer (Some t)
                  end
      end).

(** ** Attachments *)

Definition postAgentAttachment (body : option json) : agent_handler :=
  unless_stopped (agent_body attachmentUploadSchema body (fun r w now fx agent =>
    let '(s, out, es) := postAttachment cfg (ow_store w) now (fr_id fx) agent r in
    (logged fx es (with_ow_store s w),
     MkAgentReply (match out with Ok _ => 201 | Throw e => upload_code e end) (GUpload out)))).

Definition getAgentAttachment (attachmentId : string) : agent_handler := fun w _ _ agent =>
  (w, agent_found "attachment not found" GDownload (getAttachmentRoute (ow_store w) (id_fleet agent) attachmentId)).

(** ** The inbox, acks and the floor *)

Definition getAgentInbox (q : Query) : agent_handler := fun w now fx agent =>
  let '(x, inbox, es) := getInboxRoute (agent_world w) now agent (limit_of q) in
  (logged fx es (with_agent_world x w), agent_ok (GInbox inbox)).

Definition postAgentAcks (body : option json) : agent_handler :=
  agent_body ackSchema body (fun acks w now fx agent =>
    let '(m, n, es) := ackMessages (ow_mail w) now (id_agent agent) acks in
    (logged fx es (with_ow_mail m w), agent_ok (GAcked n))).

(** [Number(body?.ttl_seconds)], where it is a number. *)
Definition raw_ttl (body : option json) : option Z :=
  match body with
  | Some j => match prop j "ttl_seconds" with Some v => js_Number v | None => None end
  | None => None
  end.

Definition postAgentFloor (conversationId : string) (body : option json) : agent_handler := fun w now _ agent =>
  if conversationId ==? "" then (w, agent_refuse 400 "conversation id required")
  else let '(x, r) := postFloor cfg (agent_world w) now agent conversationId (raw_ttl body) in
       (with_agent_world x w, agent_found "not found" GFloor r).

Definition deleteAgentFloor (conversationId : string) : agent_handler := fun w _ _ agent =>
  let '(x, r) := deleteFloor (agent_world w) agent conversationId in
  (with_agent_world x w, agent_found "not found" GReleased r).

(** ** Notices, heartbeats and actions *)

(** The stall is looked up in the log and appended to it. *)
Definition postAgentNotice (body : option json) : agent_handler :=
  agent_body noticeSchema body (fun b w now fx agent =>
    let log := map ex_event (ow_log w) in
    let '(events, recorded) := recordConversationStall log now (id_fleet agent) (id_agent agent)
                                 (Retention.MkNotice (no_conversation b) (no_reason b) (no_pending b) (no_budget b)) in
    (logged fx (drop (length log) events) w, agent_ok (GNotice recorded))).

Definition postAgentHeartbeat (body : option json) : agent_handler :=
  agent_body heartbeatSchema body (fun b w now fx agent =>
    let '(d, es) := insertHeartbeat (ow_agents w) now (fr_id fx) (id_agent agent) (be_status b)
                      (JObj [("active_conversation_ids", jlist (be_active b)); ("metrics", be_metrics b)]) in
    (logged fx es (with_ow_agents d w), agent_ok (GBeat heartbeatIntervalSeconds))).

Definition postProposal (body : option json) : agent_handler :=
  agent_body proposeActionSchema body (fun b w now fx agent =>
    let '(d, decision, es) := proposeAction (ow_agents w) now (fr_id fx) (id_agent agent) (pr_conversation b)
                                (pr_action_type b) (pr_summary b) (pr_risk b) (pr_payload b) in
    (logged fx es (with_ow_agents d w), agent_ok (GDecision decision))).

Definition postActionResult (body : option json) : agent_handler :=
  agent_body actionResultSchema body (fun b w now fx agent =>
    let '(d, done, es) := completeActionResult (ow_agents w) now (ar_approval b) (id_fleet agent) (id_agent agent)
                            (ar_result b) (ar_output b) in
    (logged fx es (with_ow_agents d w), agent_ok (GDone done))).

Definition getAction (approvalId : string) : agent_handler := fun w _ _ agent =>
  (w, agent_found "approval not found" GApproval
        (getApprovalStatus (ow_agents w) approvalId (id_fleet agent) (id_agent agent))).

(** ** Dispatch *)

Inductive AgentCall :=
  | POST_identity_key | POST_agent_rooms | POST_agent_messages | GET_message_status (message_id : string)
  | GET_conversations | GET_sent | POST_agent_attachments | GET_agent_attachment (id : string) | GET_inbox | POST_acks
  | POST_floor (id : string) | DELETE_floor (id : string) | POST_notices | POST_heartbeats | POST_propose
  | POST_result | GET_action (approvalId : string).

Definition agent_call (c : AgentCall) (q : Query) (body : option json) : agent_handler :=
  match c with
  | POST_identity_key => postIdentityKey body
  | POST_agent_rooms => postAgentRoom body
  | POST_agent_messages => postAgentMessage body
  | GET_message_status i => getMessageStatus i
  | GET_conversations => getAgentConversations q
  | GET_sent => getSent q
  | POST_agent_attachments => postAgentAttachment body
  | GET_agent_attachment i => getAgentAttachment i
  | GET_inbox => getAgentInbox q
  | POST_acks => postAgentAcks body
  | POST_floor c => postAgentFloor c body
  | DELETE_floor c => deleteAgentFloor c
  | POST_notices => postAgentNotice body
  | POST_heartbeats => postAgentHeartbeat body
  | POST_propose => postProposal body
  | POST_result => postActionResult body
  | GET_action i => getAction i
  end.

(** A request: its signature first, then the handler with the agent it proves. *)
Definition agentRoute (w : OpWorld) (now : Z) (fx : Fresh) (r : SignedRequest) (c : AgentCall) (q : Query)
    (body : option json) : OpWorld * AgentReply :=
  let '(e, verdict) := requireAgentAuth cfg (ow_enroll w) (ow_agents w) now (with_request_body body r) in
  let w1 := with_ow_enroll e w in
  match verdict with
  | Throw _ => (w1, agent_refuse 401 "unauthorized")
  | Ok (i, fleet, st) => agent_call c q body w1 now fx (MkIdentity i fleet st)
  end.

(** ** POST /v1/enroll

    No signature: the token is the proof. *)
Definition enrollRoute (w : OpWorld) (now : Z) (fx : Fresh) (body : option json) : OpWorld * AgentReply :=
  match body with
  | None => (w, agent_refuse 400 "invalid body")
  | Some j =>
      match enrollSchema j with
      | None => (w, agent_refuse 400 "invalid body")
      | Some b =>
          let '(x, created) := postEnroll (agent_world w) now (fr_id fx) (fr_token fx) (fr_correlation fx)
                                 (en_fleet_id b) (en_token b) (en_display_name b) (en_runtime b) (en_hostname b)
                                 (en_identity_public_key b) in
          (with_agent_world x w,
           match created with
           | None => agent_refuse 400 "invalid or expired token"
           | Some (i, secret, keys) =>
               agent_ok (GEnrolled (MkEnrolled i secret baseUrl heartbeatIntervalSeconds pollIntervalSeconds "default" keys))
           end)
      end
  end.
End Routes.

(** ** The server

    A request of an operator, of an agent, or to enrol. *)

Inductive RelayRequest :=
  | OperatorAsks (r : OperatorRequest) (c : OperatorCall) (q : Query) (body : option json)
  | AgentAsks (r : SignedRequest) (c : AgentCall) (q : Query) (body : option json)
  | Enrols (body : option json).

Inductive RelayReply := ToOperator (r : Reply) | ToAgent (r : AgentReply).

Section Server.
Context `{Crypto} `{NodeCrypto} `{BufferApi} `{FeedUrlApi} `{ZodFormats} (cfg : Config) (ac : AccessConfig).
Context (icon nudge : string) (fetchFeedUrl : string -> option string).
Context (exts : list ExtensionHook) (baseUrl : string) (heartbeatIntervalSeconds pollIntervalSeconds : Z).

Definition serve (w : OpWorld) (now : Z) (fx : Fresh) (rq : RelayRequest) : OpWorld * RelayReply :=
  match rq with
  | OperatorAsks r c q body =>
      let '(w', x) := operatorRoute cfg ac icon nudge fetchFeedUrl w now fx r c q body in (w', ToOperator x)
  | AgentAsks r c q body =>
      let '(w', x) := agentRoute cfg exts heartbeatIntervalSeconds w now fx r c q body in (w', ToAgent x)
  | Enrols body =>
      let '(w', x) := enrollRoute baseUrl heartbeatIntervalSeconds pollIntervalSeconds w now fx body in (w', ToAgent x)
  end.
End Server.

(** *** The sweep job on this state

    The tick of [Retention] reads these tables and leaves those. *)
Definition relay_tables (w : OpWorld) (t : LoginThrottle) : RelayTables :=
  MkRelayTables (ow_agents w) (ow_mail w) (aw_disk (ow_store w)) (ow_enroll w) (ow_feeds w) t (ex_event <$> ow_log w).

Definition after_tick (w : OpWorld) (x : RelayTables) (w' : OpWorld) : Prop :=
  ow_store w' = MkAttachWorld (rt_agents x) (rt_mail x) (rt_disk x) /\ ow_keys w' = ow_keys w /\
  ow_policies w' = ow_policies w /\ ow_enroll w' = rt_enroll x /\ ow_feeds w' = rt_feeds x /\
  ex_event <$> ow_log w' = rt_events x.

(** The end of a feed poll the job started. *)
Definition finish_poll (icon : string) (w : OpWorld) (now : Z) (fx : Fresh) (feed : FeedRow) (xml : option string) : OpWorld :=
  let '(f, _, es) := poll_finish_feed icon (feed_world w) feed now now (fr_feed fx) xml in logged fx es (with_feed_world f w).
