(* ===== verification/AgentApiProperties.v ===== *)
(** * What the requests of agents and operators can change

    [untouched] of [OperatorRoutesProperties] for the agent routes and enrolment, and
    with it for runs in which agents and operators take turns; and what an agent's
    request leaves of the other agents of its own fleet. *)

From S2P Require Import Prelude Json IsoTime JsValues Identity Events OperatorKeys Config Agents Enrollment Messages Rooms Delivery Policies AgentSafety DeliverySafety DeliveryProperties EnrollmentProperties RelaySafety RelayProperties OperatorAccess Text SdkClient Attachments OperatorViews OperatorViewsProperties Feeds AgentRoutes Schemas OperatorRoutes OperatorRoutesProperties Retention AgentApi.
Import Ascii String.
Open Scope string_scope.
Open Scope Z_scope.

Ltac side := cbn [snd]; by repeat constructor.

(** ** The operations of an agent, seen from another fleet *)

Section AgentTables.
Context (g fleet : string) (Hg : g <> fleet) (d : AgentDb) (i : string) (a : AgentRow).
Hypothesis Hi : ad_agents d !! i = Some a.
Hypothesis Ha : ag_fleet a = fleet.

Lemma own_row_others b :
  ag_fleet b = fleet ->
  filter (fun kv => ag_fleet (snd kv) = g) (<[i := b]> (ad_agents d)) = filter (fun kv => ag_fleet (snd kv) = g) (ad_agents d).
Proof. intros Hb. apply filter_insert_others; [congruence|]. intros u Hu. congruence. Qed.

Lemma insertHeartbeat_others now hb st x :
  controls_ok d -> same_agents g d (fst (insertHeartbeat d now hb i st x)).
Proof.
  intros Hc. unfold insertHeartbeat. rewrite Hi. destruct (_ && _).
  - split; try done; [by apply own_row_others|]. apply select_update_others. intros y Hy Hhit. bools.
    destruct (Hc y Hy) as (b & Hb & Hbf). simplify_eq. split; apply bool_decide_eq_false; simpl; congruence.
  - split; try done. destruct (_ || _); [done|]. by apply own_row_others.
Qed.

Lemma proposeAction_others now apr c t s r p :
  ad_approvals d !! apr = None -> same_agents g d (fst (fst (proposeAction d now apr i c t s r p))).
Proof.
  intros Hn. unfold proposeAction. rewrite Hi. destruct (_ || _); [done|]. destruct (_ || _); [|done].
  split; try done. apply filter_insert_others; [simpl; congruence|]. intros u Hu. congruence.
Qed.

Lemma rateLimit_others cfg now ctl : same_agents g d (fst (fst (checkAndIncrementRateLimit cfg d now ctl i fleet))).
Proof.
  unfold checkAndIncrementRateLimit. destruct (_ <=? _); [|done].
  set (d1 := with_violations _ _).
  assert (Hv : fleet_violations d1 g = fleet_violations d g).
  { apply select_app_others. constructor; [by apply bool_decide_eq_false; simpl; congruence|done]. }
  unfold checkRateLimitQuarantine. destruct (_ <=? _); [|by split].
  assert (Ho : same_agents g d (fst (ensureSystemOperator d1 now fleet))).
  { unfold ensureSystemOperator. destruct (ad_operators d1 !! _) eqn:E; [by split|]. split; try done.
    apply filter_insert_others; [simpl; congruence|]. intros u Hu. simpl in E. congruence. }
  assert (Hrest : ad_agents (fst (ensureSystemOperator d1 now fleet)) = ad_agents d /\
                  ad_controls (fst (ensureSystemOperator d1 now fleet)) = ad_controls d).
  { unfold ensureSystemOperator. by destruct (ad_operators d1 !! _). }
  destruct (ensureSystemOperator d1 now fleet) as [d2 sid]. cbn [fst] in *. destruct Hrest as [Hr1 Hr2].
  destruct Ho as [_ _ H3 H4 H5]. split; try done.
  - cbn. rewrite Hr1. apply filter_alter_others. intros u Hu. simplify_eq. destruct (_ || _); simpl; split; congruence.
  - unfold fleet_controls. cbn. rewrite Hr2. apply select_app_others.
    constructor; [by apply bool_decide_eq_false; simpl; congruence|done].
Qed.

Lemma gate_others cfg exts ps now ctl st rcp ty pr body meta :
  same_agents g d (fst (fst (evaluateMessageGate cfg exts ps d now ctl (MkIdentity i fleet st) rcp ty pr body meta))).
Proof.
  unfold evaluateMessageGate. destruct (_ || _); [done|]. pose proof (rateLimit_others cfg now ctl) as Hr. cbn [id_agent id_fleet].
  destruct (checkAndIncrementRateLimit _ _ _ _ _ _) as [[d1 rate] e1]. cbn [fst] in Hr. destruct (negb _); [done|].
  by destruct (evaluateMessagePolicies _ _ _ _ _ _ _) as [[] e2].
Qed.
End AgentTables.

Lemma completeActionResult_others g fleet d now i apr r out :
  g <> fleet -> same_agents g d (fst (fst (completeActionResult d now apr fleet i r out))).
Proof.
  intros Hg. unfold completeActionResult, own_approval. destruct (ad_approvals d !! apr) as [x|] eqn:E; [|done].
  destruct (_ && _) eqn:Hx; [|done]. bools. split; try done. cbn.
  apply filter_insert_others; [simpl; congruence|]. intros u Hu. congruence.
Qed.

(** *** The rows an agent's operation logs *)

Section AgentEvents.
Context (fleet : string) (now : Z) (d : AgentDb) (i : string) (a : AgentRow).
Hypothesis Hi : ad_agents d !! i = Some a.
Hypothesis Ha : ag_fleet a = fleet.

Lemma insertHeartbeat_events hb st x : side_events fleet (snd (insertHeartbeat d now hb i st x)).
Proof. unfold insertHeartbeat. rewrite Hi. destruct (_ && _); by repeat constructor. Qed.

Lemma proposeAction_events apr c t s r p : side_events fleet (snd (proposeAction d now apr i c t s r p)).
Proof. unfold proposeAction. rewrite Hi. destruct (_ || _); [side|]. destruct (_ || _); by repeat constructor. Qed.

Lemma rateLimit_events cfg ctl : side_events fleet (snd (checkAndIncrementRateLimit cfg d now ctl i fleet)).
Proof.
  unfold checkAndIncrementRateLimit. destruct (_ <=? _); [|side]. unfold checkRateLimitQuarantine.
  destruct (_ <=? _); [|side]. destruct (ensureSystemOperator _ _ _). side.
Qed.

Lemma gate_events cfg exts ps ctl st rcp ty pr body meta :
  side_events fleet (snd (evaluateMessageGate cfg exts ps d now ctl (MkIdentity i fleet st) rcp ty pr body meta)).
Proof.
  unfold evaluateMessageGate. destruct (_ || _); [side|]. pose proof (rateLimit_events cfg ctl) as Hr. cbn [id_agent id_fleet].
  destruct (checkAndIncrementRateLimit _ _ _ _ _ _) as [[d1 rate] e1]. cbn [snd] in Hr. destruct (negb _); [done|].
  assert (He : side_events fleet (snd (evaluateMessagePolicies ps now fleet i rcp ty pr))).
  { unfold evaluateMessagePolicies. destruct (first_match _ _ _ _ _) as [p|]; [destruct (po_action p)|]; side. }
  destruct (evaluateMessagePolicies _ _ _ _ _ _ _) as [[] e2]; apply Forall_app; by split.
Qed.

Lemma completeActionResult_events apr r out : side_events fleet (snd (completeActionResult d now apr fleet i r out)).
Proof.
  unfold completeActionResult, own_approval. destruct (ad_approvals d !! apr) as [x|]; [|side].
  destruct (_ && _) eqn:Hx; [|side]. bools. by repeat constructor.
Qed.
End AgentEvents.

(** *** The mail *)

Section AgentMail.
Context (g fleet : string) (Hg : g <> fleet) (d : AgentDb) (m : MailDb) (i : string) (a : AgentRow).
Hypothesis Hi : ad_agents d !! i = Some a.
Hypothesis Ha : ag_fleet a = fleet.
Hypothesis Hok : relay_ok d m.

(** The message of an agent's delivery is of its fleet. *)
Lemma delivery_fleet dl x :
  dl ∈ md_deliveries m -> dl_recipient dl = i -> x ∈ md_messages m -> ms_id x = dl_message dl -> ms_fleet x = fleet.
Proof.
  intros Hdl Hr Hx Hid.
  destruct (ro_deliveries _ _ Hok (dl_message dl) i) as (y & Hy & Hyi & b & Hb & Hbf).
  { unfold routing. rewrite <- Hr. apply list_elem_of_In, (in_map (fun dl => (dl_message dl, dl_recipient dl))).
    by apply list_elem_of_In. }
  enough (set_message_status MQueued x = y) as <- by (simpl in *; congruence).
  eapply (NoDup_map_inj ms_id); [exact (ro_ids _ _ Hok)|by apply elem_of_contents|done|simpl; congruence].
Qed.

Lemma delivery_others dl :
  dl ∈ md_deliveries m -> dl_recipient dl = i -> exists_row (fun x => ms_id x ==? dl_message dl) (fleet_messages m g) = false.
Proof.
  intros Hdl Hr. apply exists_row_false. intros x [Hx Hf]%elem_of_select. bools. apply bool_decide_eq_false. intros Hid.
  apply Hg. rewrite <- Hf. by eapply delivery_fleet.
Qed.

Lemma poll_others now limit :
  NoDup (map dl_id (md_deliveries m)) -> same_mail g m (fst (fst (poll m now i limit))).
Proof.
  intros Hnd. unfold poll. cbn [fst]. split; try done. unfold fleet_deliveries, fleet_messages. cbn [md_messages md_deliveries with_deliveries].
  rewrite mark_delivered_eq by by apply pending_ids_NoDup. apply select_update_others. intros dl Hdl Hid. bools.
  apply (row_of_id m) in Hid as [x Hx]; [|done| |done].
  - apply pending_spec in Hx as (_ & _ & Hr & _). pose proof (delivery_others dl Hdl Hr) as Hn. split; exact Hn.
  - intros [dl' x'] Hin. by apply pending_spec in Hin as (? & _).
Qed.

Lemma poll_events now limit : Forall (fun e => ev_fleet e = fleet) (snd (poll m now i limit)).
Proof.
  unfold poll. cbn [snd]. apply Forall_forall. intros e He. apply list_elem_of_fmap in He as ([dl x] & -> & Hx).
  apply pending_spec in Hx as (Hdl & Hx & Hr & _). apply message_by_id_Some in Hx as [Hx Hid]. simpl. by eapply delivery_fleet.
Qed.

Lemma ack_tables_others i' r :
  changes (ack_hit i' i) (md_deliveries m) <> O -> same_mail g m (ack_tables m i i' r).
Proof.
  intros Hc. destruct (proj1 (changes_pos (ack_hit i' i) (md_deliveries m)) ltac:(lia)) as (dl0 & Hdl0 & Hh0).
  unfold ack_hit in Hh0. bools. subst i'.
  assert (Hm : fleet_messages (ack_tables m i (dl_message dl0) r) g = fleet_messages m g).
  { unfold ack_tables. destruct (ack_pending _ _); [done|]. unfold fleet_messages. cbn [md_messages with_messages with_deliveries].
    apply select_update_others. intros x Hx Hid. bools.
    assert (Hf : ms_fleet x = fleet) by by eapply delivery_fleet. split; apply bool_decide_eq_false; simpl; congruence. }
  split; try (unfold ack_tables; by destruct (ack_pending _ _)); [done|].
  unfold fleet_deliveries. rewrite Hm, ack_tables_deliveries. apply select_update_others. intros dl Hdl Hh.
  unfold ack_hit in Hh. bools. assert (Hn := delivery_others dl Hdl ltac:(done)). split; exact Hn.
Qed.

Lemma ack_event_fleet i' r x :
  changes (ack_hit i' i) (md_deliveries m) <> O -> message_by_id (ack_tables m i i' r) i' = Some x -> ms_fleet x = fleet.
Proof.
  intros Hc Hx. destruct (proj1 (changes_pos (ack_hit i' i) (md_deliveries m)) ltac:(lia)) as (dl & Hdl & Hh).
  unfold ack_hit in Hh. bools. apply message_by_id_Some in Hx as [Hx Hid].
  assert (Hin : exists y, y ∈ md_messages m /\ ms_id y = ms_id x /\ ms_fleet y = ms_fleet x).
  { unfold ack_tables in Hx. destruct (ack_pending _ _); [by exists x|].
    apply elem_of_update_where in Hx as (y & Hy & ->). exists y. by destruct (_ ==? _). }
  destruct Hin as (y & Hy & Hyi & <-). eapply delivery_fleet; [exact Hdl|done|done|congruence].
Qed.
End AgentMail.

Section Acks.
Context (g fleet : string) (Hg : g <> fleet) (d : AgentDb) (now : Z) (i : string) (a : AgentRow).
Hypothesis Hi : ad_agents d !! i = Some a.
Hypothesis Ha : ag_fleet a = fleet.

Lemma ack_step_others acc k :
  let acc' := ack_step now i acc k in
  relay_ok d (fst (fst acc)) -> Forall (fun e => ev_fleet e = fleet) (snd acc) ->
  relay_ok d (fst (fst acc')) /\ same_mail g (fst (fst acc)) (fst (fst acc')) /\ Forall (fun e => ev_fleet e = fleet) (snd acc').
Proof.
  destruct acc as [[m n] es], k as [i' r]. cbn [fst snd]. intros Hok Hes.
  pose proof (ack_views m now i [(i', r)]) as Hv. unfold ackMessages in Hv. cbn [foldl] in Hv.
  pose proof (ack_tables_others g fleet Hg d m i a Hi Ha Hok i' r) as Hm.
  pose proof (ack_event_fleet fleet d m i a Hi Ha Hok i' r) as He.
  unfold ack_step in *. destruct (changes _ _ =? 0)%nat eqn:E; [done|]. apply Nat.eqb_neq in E. cbn [fst snd] in *.
  split_and!; [by eapply same_views_ok|by apply Hm|]. destruct (message_by_id _ _) as [x|]; [|done].
  apply Forall_app. split; [done|]. constructor; [|done]. by apply He.
Qed.

Lemma ack_others m acks :
  relay_ok d m ->
  same_mail g m (fst (fst (ackMessages m now i acks))) /\
  Forall (fun e => ev_fleet e = fleet) (snd (ackMessages m now i acks)).
Proof.
  unfold ackMessages.
  enough (Hgen : forall acc, relay_ok d (fst (fst acc)) -> Forall (fun e => ev_fleet e = fleet) (snd acc) ->
    same_mail g (fst (fst acc)) (fst (fst (foldl (ack_step now i) acc acks))) /\
    Forall (fun e => ev_fleet e = fleet) (snd (foldl (ack_step now i) acc acks))) by (intros Hok; by apply (Hgen (m, O, []))).
  induction acks as [|k acks IH]; intros acc Hok Hes; [done|]. cbn [foldl].
  destruct (ack_step_others acc k Hok Hes) as (Hok' & Hm & Hes'). destruct (IH _ Hok' Hes') as [Hm' Hes2].
  split; [by eapply same_mail_trans|done].
Qed.
End Acks.

(** A send of an agent attaches only its own files. *)
Lemma createMessage_others g fleet cfg d m now mid dly i m' es :
  g <> fleet -> mi_fleet i = fleet -> createMessage cfg d m now mid dly i = Ok (m', es) ->
  mid ∉ map ms_id (md_messages m) -> same_mail g m m' /\ Forall (fun e => ev_fleet e = fleet) es.
Proof.
  intros Hg Hf Hc Hid. split.
  - apply createMessage_Ok in Hc as (l & _ & _ & Hv & ->).
    apply queue_message_others with (fleet := fleet); [done|done|by apply fresh_everywhere|].
    intros x Hx row Hrow. pose proof (validateAttachmentOwnership_true _ _ _ _ Hv x Hx) as Ho.
    unfold owned_by in Ho. rewrite Hrow in Ho. bools. congruence.
  - unfold createMessage in Hc. inv_ok Hc; side.
Qed.

(** *** Keys, tokens and uploads *)

Lemma setAgentIdentityKey_others `{Crypto} g fleet db now i pk :
  g <> fleet -> same_keys g db (fst (setAgentIdentityKey db now i fleet pk)).
Proof.
  intros Hg. unfold setAgentIdentityKey. destruct (kd_agent_keys db !! _) eqn:E; [done|].
  split; try done. cbn. apply filter_insert_others; [simpl; congruence|]. intros u Hu. congruence.
Qed.

Section Enrol.
Context `{NodeCrypto} (e : EnrollDb) (d : AgentDb) (now : Z) (i secret cred fleet token name runtime : string) (host : option string).

Definition token_rows (g : string) (e : EnrollDb) : list TokenRow := select (fun t => t_fleet t ==? g) (ed_tokens e).

Lemma enroll_others g :
  g <> fleet -> NoDup (map t_id (ed_tokens e)) -> ad_agents d !! i = None ->
  let out := createAgentFromEnrollment e d now i secret cred fleet token name runtime host in
  token_rows g (fst (fst out)) = token_rows g e /\ same_agents g d (snd (fst out)).
Proof.
  intros Hg Hnd Hn. cbv zeta. unfold createAgentFromEnrollment.
  set (hit := claimable now (hashSecret token) fleet). set (tokens := update_where hit _ (ed_tokens e)).
  assert (Hnd' : NoDup (map t_id tokens)) by by unfold tokens; rewrite map_update_where.
  assert (Ht : select (fun t => t_fleet t ==? g) tokens = token_rows g e).
  { apply select_update_others. intros t _ (_ & Hf & _)%claimable_iff. split; apply bool_decide_eq_false; simpl; congruence. }
  destruct (negb _); [done|]. destruct (select_one _ tokens) as [tk|] eqn:Hs; [|done].
  apply select_one_Some in Hs as [Hs Hsf]. bools. split.
  - unfold token_rows at 1. cbn. rewrite select_update_others; [done|]. intros t Hin Hid. bools.
    assert (t = tk) as -> by by eapply (NoDup_map_inj t_id). split; apply bool_decide_eq_false; simpl; congruence.
  - split; try done. cbn. apply filter_insert_others; [simpl; congruence|]. intros u Hu. congruence.
Qed.

(** Without a token of the fleet nothing is written. *)
Lemma enroll_without_token :
  (forall t, t ∈ ed_tokens e -> claimable now (hashSecret token) fleet t = false) ->
  createAgentFromEnrollment e d now i secret cred fleet token name runtime host = (e, d, None).
Proof.
  intros Hno. unfold createAgentFromEnrollment. rewrite update_where_none by done.
  assert (changes (claimable now (hashSecret token) fleet) (ed_tokens e) = O) as -> by by apply changes_zero.
  cbn. by destruct e.
Qed.
End Enrol.

Lemma postAttachment_others `{BufferApi} cfg g fleet w now aid i st r :
  g <> fleet -> md_attachments (aw_mail w) !! aid = None ->
  let out := postAttachment cfg w now aid (MkIdentity i fleet st) r in
  same_agents g (aw_agents w) (aw_agents (fst (fst out))) /\ same_mail g (aw_mail w) (aw_mail (fst (fst out))) /\
  side_events fleet (snd out).
Proof.
  intros Hg Hi. cbv zeta. unfold postAttachment. destruct (_ || _); [by split_and!; [..|side]|]. cbn [id_agent id_fleet].
  pose proof (uploadLimit_others g fleet (aw_agents w) cfg now i) as Ha.
  assert (He : side_events fleet (snd (checkAndIncrementUploadLimit cfg (aw_agents w) now i fleet))).
  { unfold checkAndIncrementUploadLimit. destruct (_ <=? _); side. }
  destruct (checkAndIncrementUploadLimit _ _ _ _ _) as [[d1 rate] es1]. cbn [fst snd] in *.
  destruct (negb _); [done|]. destruct (check_upload cfg r) as [bytes|e]; [|done].
  unfold store_upload. destruct (_ <? _); cbn [fst snd].
  { split_and!; [done..|]. by rewrite app_nil_r. }
  split_and!; [done| |apply Forall_app; split; [done|side]].
  split; try done. cbn. apply filter_insert_others; [simpl; congruence|]. intros u Hu. congruence.
Qed.

(** *** The parts of a send *)

Lemma claim_envelope_rest `{NodeCrypto} e now agent r :
  ed_tokens (fst (claim_envelope e now agent r)) = ed_tokens e /\
  ed_credentials (fst (claim_envelope e now agent r)) = ed_credentials e.
Proof.
  unfold claim_envelope. destruct (envelope_nonce r); [|done]. destruct (_ ==? ""); [done|]. destruct (_ <? _)%nat; [done|].
  unfold claimEnvelopeNonce, claimNonce. by destruct (_ !! _).
Qed.

Section Sends.
Context `{NodeCrypto} (cfg : Config) (exts : list ExtensionHook) (w : World) (now : Z) (ctl mid : string) (dly : nat -> string).
Context (agent : AgentIdentity) (r : SendRequest).

Definition gate_of : AgentDb * option MessageGateDenial * list Event :=
  evaluateMessageGate cfg exts (w_policies w) (w_agents w) now ctl agent (sr_recipient_id r) (sr_type r) (sr_priority r)
    (sr_body r) (option_map JObj (sr_metadata r)).

Lemma postMessage_parts x reply es :
  postMessage cfg exts w now ctl mid dly agent r = (x, reply, es) ->
  w_agents x = fst (fst gate_of) /\ w_keys x = w_keys w /\ w_policies x = w_policies w /\
  ed_tokens (w_enroll x) = ed_tokens (w_enroll w) /\ ed_credentials (w_enroll x) = ed_credentials (w_enroll w) /\
  ((w_mail x = w_mail w /\ es = snd gate_of) \/
   exists es2, createMessage cfg (w_agents x) (w_mail w) now mid dly (message_input agent r) = Ok (w_mail x, es2) /\
     es = (snd gate_of ++ es2)%list).
Proof.
  unfold postMessage. fold gate_of. destruct gate_of as [[d1 denial] es1]. cbn [fst snd].
  destruct denial as [x'|]; [intros [= <- _ <-]; split_and!; try done; by left|].
  pose proof (claim_envelope_rest (w_enroll (with_w_agents d1 w)) now agent r) as [H1 H2].
  destruct (claim_envelope _ _ _ _) as [e1 refusal]. cbn [fst] in *.
  destruct refusal as [x'|]; [intros [= <- _ <-]; split_and!; try done; by left|].
  destruct (createMessage _ _ _ _ _ _ _) as [[m es2]|e] eqn:Hc; intros [= <- _ <-]; split_and!; try done; [|by left].
  right. by exists es2.
Qed.
End Sends.

(** ** A request of an agent, seen from another fleet *)

Lemma same_keys_trans g k1 k2 k3 : same_keys g k1 k2 -> same_keys g k2 k3 -> same_keys g k1 k3.
Proof. intros [H1 H2 H3] [H4 H5 H6]. split; [intros i; by rewrite H4|by etrans..]. Qed.

Lemma untouched_trans g w1 w2 w3 : untouched g w1 w2 -> untouched g w2 w3 -> untouched g w1 w3.
Proof.
  intros [] []. split; [by eapply same_agents_trans|by eapply same_mail_trans|by eapply same_keys_trans|by etrans|by etrans|
    by eapply same_feeds_trans|by etrans].
Qed.

Lemma agent_world_id w : with_agent_world (agent_world w) w = w.
Proof. by destruct w as [[]]. Qed.

Lemma agent_world_untouched g w x :
  same_agents g (ow_agents w) (w_agents x) -> same_mail g (ow_mail w) (w_mail x) -> same_keys g (ow_keys w) (w_keys x) ->
  token_rows g (w_enroll x) = token_rows g (ow_enroll w) -> w_policies x = ow_policies w ->
  untouched g w (with_agent_world x w).
Proof. intros H1 H2 H3 H4 H5. split; try done. cbn. by rewrite H5. Qed.

(** What the ids of an agent's request are fresh for, beyond [fresh]. *)
Record agent_fresh (fx : Fresh) (w : OpWorld) : Prop := {
  af_fresh : fresh fx w;
  af_agent : ad_agents (ow_agents w) !! fr_id fx = None;
  af_not_operator : forall f, fr_id fx <> operator_agent f;
  af_approval : ad_approvals (ow_agents w) !! fr_id fx = None
}.

Lemma agent_fresh_enroll fx w e : agent_fresh fx w -> agent_fresh fx (with_ow_enroll e w).
Proof. intros [[] ]. by repeat split. Qed.

(** The primary keys of [deliveries] and [enrollment_tokens]. *)
Record primary_keys (w : OpWorld) : Prop := {
  pk_deliveries : NoDup (map dl_id (md_deliveries (ow_mail w)));
  pk_tokens : NoDup (map t_id (ed_tokens (ow_enroll w)))
}.

Section AgentCalls.
Context `{Crypto} `{NodeCrypto} `{BufferApi} `{ZodFormats} (cfg : Config) (exts : list ExtensionHook) (beat : Z).
Context (g fleet : string) (Hg : g <> fleet) (i : string) (st : AgentStatus) (a : AgentRow).
Context (w : OpWorld) (now : Z) (fx : Fresh) (Hfresh : agent_fresh fx w) (Hok : world_ok w) (Hpk : primary_keys w).
Hypothesis Hi : ad_agents (ow_agents w) !! i = Some a.
Hypothesis Ha : ag_fleet a = fleet.

Let agent := MkIdentity i fleet st.
Let Hrelay : relay_ok (ow_agents w) (ow_mail w) := ra_relay _ (tk_reach _ _ Hok).

Lemma agent_body_untouched {A} (schema : parser A) body (k : A -> agent_handler) :
  (forall b, untouched g w (fst (k b w now fx agent))) -> untouched g w (fst (agent_body schema body k w now fx agent)).
Proof. intros Hk. unfold agent_body. destruct body as [j|]; [|done]. by destruct (schema j). Qed.

Lemma unless_stopped_untouched k :
  untouched g w (fst (k w now fx agent)) -> untouched g w (fst (unless_stopped k w now fx agent)).
Proof. intros Hk. unfold unless_stopped. by destruct (_ || _). Qed.

Lemma message_untouched body : untouched g w (fst (postAgentMessage cfg exts body w now fx agent)).
Proof.
  apply agent_body_untouched. intros r. destruct (postMessage _ _ _ _ _ _ _ _ _) as [[x reply] es] eqn:E.
  apply postMessage_parts in E as (Ea & Ek & Ep & Et & _ & Hm). unfold gate_of in *.
  pose proof (gate_others g fleet Hg (ow_agents w) i a Hi Ha cfg exts (ow_policies w) now (fr_token fx) st (sr_recipient_id r)
    (sr_type r) (sr_priority r) (sr_body r) (option_map JObj (sr_metadata r))) as Hga.
  pose proof (gate_events fleet now (ow_agents w) i cfg exts (ow_policies w) (fr_token fx) st (sr_recipient_id r)
    (sr_type r) (sr_priority r) (sr_body r) (option_map JObj (sr_metadata r))) as Hge%side_fleet.
  cbn [agent_world w_policies w_agents w_mail w_keys w_enroll] in *. cbn [fst].
  eapply untouched_logged; [exact Hg| |].
  - apply agent_world_untouched; [by rewrite Ea| |by rewrite Ek|by unfold token_rows; rewrite Et|done].
    destruct Hm as [[-> _]|(es2 & Hc & _)]; [done|].
    by apply (createMessage_others g fleet) in Hc as [? _]; [..|apply Hfresh].
  - destruct Hm as [[_ ->]|(es2 & Hc & ->)]; [done|]. apply Forall_app. split; [done|].
    by apply (createMessage_others g fleet) in Hc as [_ ?]; [..|apply Hfresh].
Qed.

Lemma inbox_untouched q : untouched g w (fst (getAgentInbox q w now fx agent)).
Proof.
  unfold getAgentInbox, getInboxRoute, getInbox. cbn [agent_world w_mail w_agents w_keys].
  set (limit := clampLimit _ _ _).
  pose proof (poll_others g fleet Hg (ow_agents w) (ow_mail w) i a Hi Ha Hrelay now limit (pk_deliveries _ Hpk)) as Hm.
  pose proof (poll_events fleet (ow_agents w) (ow_mail w) i a Hi Ha Hrelay now limit) as He.
  unfold agent in *. cbn [id_agent]. destruct (poll _ _ _ _) as [[m rows] es]. cbn [fst snd] in *.
  eapply untouched_logged; [exact Hg| |exact He]. by apply agent_world_untouched.
Qed.

Lemma acks_untouched body : untouched g w (fst (postAgentAcks body w now fx agent)).
Proof.
  apply agent_body_untouched. intros acks.
  destruct (ack_others g fleet Hg (ow_agents w) now i a Hi Ha (ow_mail w) acks Hrelay) as [Hm He].
  unfold agent. cbn [id_agent]. destruct (ackMessages _ _ _ _) as [[m n] es]. cbn [fst snd] in *.
  eapply untouched_logged; [exact Hg| |exact He]. by apply mail_untouched.
Qed.

Lemma floor_untouched c body : untouched g w (fst (postAgentFloor cfg c body w now fx agent)).
Proof.
  unfold postAgentFloor. destruct (c ==? ""); [done|]. unfold postFloor. destruct (negb _); [cbn; by rewrite agent_world_id|].
  unfold acquireFloor. destruct (fleet_floor _ _ _) as [cur|]; [destruct (_ || _)|]; cbn [fst]; by apply agent_world_untouched.
Qed.

Lemma release_untouched c : untouched g w (fst (deleteAgentFloor c w now fx agent)).
Proof.
  unfold deleteAgentFloor, deleteFloor. destruct (negb _); [cbn; by rewrite agent_world_id|].
  unfold releaseFloor. destruct (fleet_floor _ _ _) as [cur|]; [destruct (_ ==? _)|]; cbn [fst]; by apply agent_world_untouched.
Qed.

Lemma stall_events log n : Forall (fun e => ev_fleet e = fleet /\ ev_resource_kind e <> "message")
  (drop (length log) (fst (recordConversationStall log now fleet i n))).
Proof.
  unfold recordConversationStall. destruct (exists_row _ _); cbn [fst]; [by rewrite drop_all|].
  rewrite drop_app_length. by repeat constructor.
Qed.

Lemma notice_untouched body : untouched g w (fst (postAgentNotice body w now fx agent)).
Proof.
  apply agent_body_untouched. intros b. unfold agent. cbn [id_fleet id_agent].
  match goal with |- context [recordConversationStall ?l _ _ _ ?n] => pose proof (stall_events l n) as He end.
  destruct (recordConversationStall _ _ _ _ _) as [events rec]. cbn [fst] in *.
  eapply untouched_side; [exact Hg|done|exact He].
Qed.

(** A handler that is one operation with the rows it logs. *)
Ltac one_agent_op Hs He :=
  pose proof Hs; pose proof He; unfold agent; cbn [id_agent id_fleet];
  let T := type of Hs in
  lazymatch T with
  | context [fst (fst ?o)] => destruct o as [[? ?] ?]
  | context [fst ?o] => destruct o as [? ?]
  end;
  cbn [fst snd] in *; eapply untouched_side; [exact Hg| |eassumption].

Lemma agent_route_untouched c q body :
  untouched g w (fst (agent_call cfg exts beat c q body w now fx agent)).
Proof.
  destruct c; cbn [agent_call];
    first [done | apply message_untouched | apply inbox_untouched | apply acks_untouched | apply floor_untouched
          | apply release_untouched | apply notice_untouched | idtac].
  - apply agent_body_untouched. intros pk. pose proof (setAgentIdentityKey_others g fleet (ow_keys w) now i pk Hg) as Hk.
    unfold agent. cbn [id_agent id_fleet]. destruct (setAgentIdentityKey _ _ _ _ _). by apply keys_untouched.
  - apply unless_stopped_untouched, agent_body_untouched. intros b.
    one_agent_op (createRoom_others g fleet Hg (ow_mail w) (ow_agents w) now (fr_id fx) true i (fst b) (snd b) (fs_room _ _ (af_fresh _ _ Hfresh)))
      (createRoom_events fleet now (ow_agents w) (ow_mail w) (fr_id fx) true i (fst b) (snd b)). by apply mail_untouched.
  - apply unless_stopped_untouched, agent_body_untouched. intros b.
    destruct (postAttachment_others cfg g fleet (ow_store w) now (fr_id fx) i st b Hg) as (Hat & Hmt & He); [apply Hfresh|].
    unfold agent. destruct (postAttachment _ _ _ _ _ _) as [[s r] es]. cbn [fst snd] in *.
    eapply untouched_side; [exact Hg| |exact He]. by split.
  - apply agent_body_untouched. intros b.
    one_agent_op (insertHeartbeat_others g fleet Hg (ow_agents w) i a Hi Ha now (fr_id fx) (be_status b)
        (JObj [("active_conversation_ids", jlist (be_active b)); ("metrics", be_metrics b)]) (tk_controls _ _ Hok))
      (insertHeartbeat_events fleet now (ow_agents w) i a Hi Ha (fr_id fx) (be_status b)
        (JObj [("active_conversation_ids", jlist (be_active b)); ("metrics", be_metrics b)])). by apply agents_untouched.
  - apply agent_body_untouched. intros b.
    one_agent_op (proposeAction_others g fleet Hg (ow_agents w) i a Hi Ha now (fr_id fx) (pr_conversation b) (pr_action_type b)
        (pr_summary b) (pr_risk b) (pr_payload b) (af_approval _ _ Hfresh))
      (proposeAction_events fleet now (ow_agents w) i a Hi Ha (fr_id fx) (pr_conversation b) (pr_action_type b)
        (pr_summary b) (pr_risk b) (pr_payload b)). by apply agents_untouched.
  - apply agent_body_untouched. intros b.
    one_agent_op (completeActionResult_others g fleet (ow_agents w) now i (ar_approval b) (ar_result b) (ar_output b) Hg)
      (completeActionResult_events fleet now (ow_agents w) i (ar_approval b) (ar_result b) (ar_output b)). by apply agents_untouched.
Qed.
End AgentCalls.

(** ** The invariants survive *)

Lemma authenticate_grow `{NodeCrypto} e d d' i a h :
  agents_grow d d' -> authenticateAgent e d i = Some (a, h) ->
  exists a', authenticateAgent e d' i = Some (a', h) /\ ag_fleet a' = ag_fleet a.
Proof.
  intros Hgr. unfold authenticateAgent. destruct (ad_agents d !! i) as [b|] eqn:E; [|done].
  destruct (Hgr i b E) as (b' & -> & Hf & _ & ->). destruct (_ ==? None); [|done].
  destruct (latest_by _ _) as [c|]; [|done]. intros [= <- <-]. by exists b'.
Qed.

Lemma insertHeartbeat_origin d now hb i st x : control_origin d (fst (insertHeartbeat d now hb i st x)).
Proof.
  unfold insertHeartbeat. destruct (ad_agents d !! i) as [a|]; [|by apply control_origin_same].
  destruct (_ && _); [|by apply control_origin_same]. intros c. cbn [fst ad_controls with_controls]. intros Hc.
  apply elem_of_update_where in Hc as (b & Hb & ->). left. exists b. by destruct (_ && _).
Qed.

Lemma rateLimit_origin cfg d now ctl i a fleet :
  ad_agents d !! i = Some a -> ag_fleet a = fleet ->
  control_origin d (fst (fst (checkAndIncrementRateLimit cfg d now ctl i fleet))).
Proof.
  intros Hi Ha. unfold checkAndIncrementRateLimit. destruct (_ <=? _); [|by apply control_origin_same].
  unfold checkRateLimitQuarantine. destruct (_ <=? _); [|by apply control_origin_same].
  set (d1 := with_violations _ _).
  assert (Hc : ad_controls (fst (ensureSystemOperator d1 now fleet)) = ad_controls d).
  { unfold ensureSystemOperator. by destruct (ad_operators d1 !! _). }
  destruct (ensureSystemOperator d1 now fleet) as [d2 sid]. cbn [fst] in *. intros c. cbn. rewrite Hc, elem_of_app, list_elem_of_singleton.
  intros [Hin| ->]; [left; by exists c|right; by exists a].
Qed.

(** The gate is a send's operation on agents, or nothing. *)
Lemma gate_exec `{NodeCrypto} cfg exts ps d now ctl agent rcp ty pr body meta :
  fst (fst (evaluateMessageGate cfg exts ps d now ctl agent rcp ty pr body meta)) = d \/
  fst (fst (evaluateMessageGate cfg exts ps d now ctl agent rcp ty pr body meta)) =
    exec cfg d now (OpSend ctl (id_agent agent) (id_fleet agent)).
Proof.
  unfold evaluateMessageGate. destruct (_ || _); [by left|]. right. cbn [exec].
  destruct (checkAndIncrementRateLimit _ _ _ _ _ _) as [[d1 rate] e1]. destruct (negb _); [done|].
  by destruct (evaluateMessagePolicies _ _ _ _ _ _ _) as [[] e2].
Qed.

Lemma logged_keep `{NodeCrypto} cfg now log w m es :
  tables_ok log w -> logged_step cfg now (fw_agents w, fw_mail w, log) (fw_agents w, m, (log ++ es)%list) ->
  tables_ok (log ++ es)%list (MkFeedWorld (fw_agents w) m (fw_feeds w)).
Proof. intros Hok Hs. apply (send_keep cfg now _ w); [done|done|done|]. intros j b Hb. by exists b. Qed.

(** What the schemas allow. *)
Lemma z_enum_Some l j s : z_enum l j = Some s -> s ∈ l.
Proof. destruct j; simpl; try done. destruct (bool_decide _) eqn:E; [|done]. intros [= <-]. by bools. Qed.

Lemma required_Some {A} k (p : parser A) o x : required k p o = Some x -> exists j, p j = Some x.
Proof. unfold required. destruct (obj_get k o) as [j|]; [|done]. by exists j. Qed.

Lemma actionResultSchema_result `{ZodFormats} j b : actionResultSchema j = Some b -> exists r, AgentSafety.result_name r = ar_result b.
Proof.
  unfold actionResultSchema. destruct (z_object j); [|done]. destruct (required "approval_id" _ _); [|done].
  destruct (required "result" _ _) as [r|] eqn:E; [|done]. destruct (required "completed_at" _ _); [|done].
  destruct (defaulted _ _ _ _); [|done]. intros [= <-]. apply required_Some in E as [x Hx]. apply z_enum_Some in Hx. cbn.
  repeat (apply elem_of_cons in Hx as [->|Hx]; [first [by exists Executed | by exists Cancelled | by exists Failed]|]).
  by apply elem_of_nil in Hx.
Qed.

Lemma enrollSchema_runtime j b : enrollSchema j = Some b -> en_runtime b <> "operator".
Proof.
  unfold enrollSchema. destruct (z_object j); [|done]. destruct (required "fleet_id" _ _); [|done].
  destruct (required "token" _ _); [|done]. destruct (required "display_name" _ _); [|done].
  destruct (required "runtime" _ _) as [r|] eqn:E; [|done]. destruct (optional "hostname" _ _); [|done].
  destruct (defaulted _ _ _ _); [|done]. destruct (optional _ _ _); [|done]. intros [= <-] Hr. cbn in Hr.
  apply required_Some in E as [x Hx]. apply z_enum_Some in Hx. rewrite Hr in Hx.
  repeat (apply elem_of_cons in Hx as [Hx|Hx]; [done|]). by apply elem_of_nil in Hx.
Qed.

Section AgentKeeps.
Context `{Crypto} `{NodeCrypto} `{BufferApi} `{ZodFormats} (cfg : Config) (exts : list ExtensionHook) (beat : Z).
Context (i : string) (st : AgentStatus) (a : AgentRow) (hash : string).
Context (w : OpWorld) (now : Z) (fx : Fresh) (Hfresh : agent_fresh fx w) (Hok : world_ok w).
Hypothesis Hauth : authenticateAgent (ow_enroll w) (ow_agents w) i = Some (a, hash).

Let fleet := ag_fleet a.
Let agent := MkIdentity i fleet st.

Lemma auth_row : ad_agents (ow_agents w) !! i = Some a.
Proof.
  unfold authenticateAgent in Hauth. destruct (ad_agents (ow_agents w) !! i); [|done]. destruct (_ ==? None); [|done].
  destruct (latest_by _ _); [|done]. congruence.
Qed.
#[local] Hint Resolve auth_row : core.

Lemma agent_body_keep {A} (schema : parser A) body (k : A -> agent_handler) :
  (forall j b, schema j = Some b -> world_ok (fst (k b w now fx agent))) -> world_ok (fst (agent_body schema body k w now fx agent)).
Proof. intros Hk. unfold agent_body. destruct body as [j|]; [|done]. destruct (schema j) eqn:E; [by eapply Hk|done]. Qed.

Lemma unless_stopped_keep k :
  world_ok (fst (k w now fx agent)) -> world_ok (fst (unless_stopped k w now fx agent)).
Proof. intros Hk. unfold unless_stopped. by destruct (_ || _). Qed.

Lemma op_keep op es :
  enrols_an_agent op -> side_events fleet es -> control_origin (ow_agents w) (exec cfg (ow_agents w) now op) ->
  world_ok (logged fx es (with_ow_agents (exec cfg (ow_agents w) now op) w)).
Proof. intros Hop Hes Hc. apply world_ok_logged. by apply (agents_keep cfg now _ (feed_world w) op es fleet). Qed.

Lemma step_keep m es :
  logged_step cfg now (ow_agents w, ow_mail w, ex_event <$> ow_log w) (ow_agents w, m, ((ex_event <$> ow_log w) ++ es)%list) ->
  world_ok (logged fx es (with_ow_mail m w)).
Proof. intros Hs. apply world_ok_logged. by apply (logged_keep cfg now _ (feed_world w)). Qed.

(** The gate, whatever it answers. *)
Lemma gate_keep rcp ty pr body meta :
  let gate := evaluateMessageGate cfg exts (ow_policies w) (ow_agents w) now (fr_token fx) agent rcp ty pr body meta in
  tables_ok ((ex_event <$> ow_log w) ++ snd gate)%list (MkFeedWorld (fst (fst gate)) (ow_mail w) (ow_feeds w)) /\
  agents_grow (ow_agents w) (fst (fst gate)).
Proof.
  cbv zeta. pose proof (gate_events fleet now (ow_agents w) i cfg exts (ow_policies w) (fr_token fx) st rcp ty pr body meta) as He.
  fold agent in He.
  destruct (gate_exec cfg exts (ow_policies w) (ow_agents w) now (fr_token fx) agent rcp ty pr body meta) as [Hd|Hd]; rewrite Hd.
  - split; [by apply (side_keep _ (feed_world w) _ fleet)|]. intros j b Hb. by exists b.
  - split; [|apply exec_grow]. apply (agents_keep cfg now _ (feed_world w) _ _ fleet); [done|done|done|].
    cbn [exec]. by apply (rateLimit_origin cfg _ now (fr_token fx) i a).
Qed.

Lemma message_keep body : world_ok (fst (postAgentMessage cfg exts body w now fx agent)).
Proof.
  apply agent_body_keep. intros j r _. destruct (postMessage _ _ _ _ _ _ _ _ _) as [[x reply] es] eqn:E.
  apply postMessage_parts in E as (Ea & Ek & Ep & Et & Ec & Hm). unfold gate_of in *.
  cbn [agent_world w_policies w_agents w_mail w_keys w_enroll] in *.
  destruct (gate_keep (sr_recipient_id r) (sr_type r) (sr_priority r) (sr_body r) (option_map JObj (sr_metadata r))) as [Hk Hgr].
  cbn [fst]. apply world_ok_logged. change (feed_world (with_agent_world x w)) with (MkFeedWorld (w_agents x) (w_mail x) (ow_feeds w)).
  change (ow_log (with_agent_world x w)) with (ow_log w). rewrite <- Ea in Hk, Hgr.
  destruct Hm as [[Hm ->]|(es2 & Hc & ->)]; [by rewrite Hm|].
  destruct (authenticate_grow _ _ _ _ _ _ Hgr Hauth) as (a' & Hauth' & Hf). rewrite app_assoc.
  apply (logged_keep cfg now _ (MkFeedWorld (w_agents x) (ow_mail w) (ow_feeds w))); [exact Hk|].
  eapply (lg_send _ _ _ _ _ (ow_enroll w) a' hash _ _ (message_input agent r)); [exact Hauth'|exact Hf|exact Hc|apply Hfresh].
Qed.

Lemma inbox_keep q : world_ok (fst (getAgentInbox q w now fx agent)).
Proof.
  unfold getAgentInbox, getInboxRoute, getInbox. cbn [agent_world w_mail w_agents w_keys].
  destruct (poll _ _ _ _) as [[m rows] es] eqn:E. cbn [fst]. apply world_ok_logged.
  apply (logged_keep cfg now _ (feed_world w)); [exact Hok|]. by eapply lg_poll.
Qed.

Lemma floor_step_keep m : relay_step cfg now (ow_agents w, ow_mail w) (ow_agents w, m) ->
  world_ok (with_agent_world (with_w_mail m (agent_world w)) w).
Proof.
  intros Hs. pose proof (mail_keep cfg now _ (feed_world w) m [] fleet Hok Hs ltac:(side)) as Hk.
  rewrite app_nil_r in Hk. exact Hk.
Qed.

Lemma floor_keep c body : world_ok (fst (postAgentFloor cfg c body w now fx agent)).
Proof.
  unfold postAgentFloor. destruct (c ==? ""); [done|]. unfold postFloor. destruct (negb _); [cbn; by rewrite agent_world_id|].
  set (ttl := Z.max _ _). pose proof (floor_step_keep _ (rs_acquire cfg now (ow_agents w) (ow_mail w) (id_fleet agent) c i ttl)) as Hk.
  cbn [agent_world w_mail]. unfold agent in *. cbn [id_agent id_fleet] in *. by destruct (acquireFloor _ _ _ _ _ _).
Qed.

Lemma release_keep c : world_ok (fst (deleteAgentFloor c w now fx agent)).
Proof.
  unfold deleteAgentFloor, deleteFloor. destruct (negb _); [cbn; by rewrite agent_world_id|].
  pose proof (floor_step_keep _ (rs_release cfg now (ow_agents w) (ow_mail w) (id_fleet agent) c i)) as Hk.
  cbn [agent_world w_mail]. unfold agent in *. cbn [id_agent id_fleet] in *. by destruct (releaseFloor _ _ _ _).
Qed.
Lemma acks_keep body : world_ok (fst (postAgentAcks body w now fx agent)).
Proof.
  apply agent_body_keep. intros j acks _. destruct (ackMessages _ _ _ _) as [[m n] es] eqn:E. cbn [fst].
  apply step_keep. by eapply lg_ack.
Qed.

Lemma notice_keep body : world_ok (fst (postAgentNotice body w now fx agent)).
Proof.
  apply agent_body_keep. intros j b _. unfold agent. cbn [id_fleet id_agent].
  match goal with |- context [recordConversationStall ?l _ _ _ ?n] => pose proof (stall_events fleet i now l n) as He end.
  destruct (recordConversationStall _ _ _ _ _) as [events rec]. cbn [fst] in *.
  apply world_ok_logged. by apply (side_keep _ _ _ fleet).
Qed.

Lemma upload_agent_keep r :
  world_ok (let '(s, out, es) := postAttachment cfg (ow_store w) now (fr_id fx) agent r in logged fx es (with_ow_store s w)).
Proof.
  unfold postAttachment. destruct (_ || _).
  { apply world_ok_logged. by apply (side_keep _ (feed_world w) [] fleet); [|side]. }
  pose proof (agents_keep cfg now (ex_event <$> ow_log w) (feed_world w) (OpUpload i fleet)
    (snd (checkAndIncrementUploadLimit cfg (ow_agents w) now i fleet)) fleet Hok I) as Hk. cbn [exec] in Hk.
  unfold agent. cbn [id_agent id_fleet]. unfold checkAndIncrementUploadLimit in *. cbn [fw_agents feed_world] in Hk. unfold ow_agents in Hk.
  destruct (_ <=? _) in Hk |- *; cbn [fst snd negb rl_allowed] in *.
  - apply world_ok_logged. apply Hk; [side|by apply control_origin_same].
  - specialize (Hk ltac:(side) (control_origin_same _ _ eq_refl)). destruct (check_upload cfg r) as [bytes|e].
    2: { apply world_ok_logged. exact Hk. }
    unfold store_upload. destruct (_ <? _).
    + apply world_ok_logged. exact Hk.
    + unfold createAttachment. destruct (writeAttachmentBytes _ _ _ _) as [disk path]. apply world_ok_logged.
      eapply (side_keep _ _ _ fleet); [|side]. rewrite app_nil_r in Hk. by apply attachments_keep.
Qed.

Lemma agent_op_keep c q body :
  match c with
  | POST_heartbeats | POST_propose | POST_result => world_ok (fst (agent_call cfg exts beat c q body w now fx agent))
  | _ => True
  end.
Proof.
  destruct c; try exact I; cbn [agent_call]; apply agent_body_keep; intros j b Hb; unfold agent; cbn [id_agent id_fleet].
  - set (metrics := JObj _).
    pose proof (op_keep (OpHeartbeat (fr_id fx) i (be_status b) metrics) _ I
      (insertHeartbeat_events fleet now (ow_agents w) i a auth_row eq_refl (fr_id fx) (be_status b) metrics)
      (insertHeartbeat_origin _ _ _ _ _ _)) as Hk.
    cbn [exec] in Hk. by destruct (insertHeartbeat _ _ _ _ _ _) as [d es].
  - pose proof (op_keep (OpPropose (fr_id fx) i (pr_conversation b) (pr_action_type b) (pr_summary b) (pr_risk b) (pr_payload b)) _ I
      (proposeAction_events fleet now (ow_agents w) i a auth_row eq_refl (fr_id fx) (pr_conversation b) (pr_action_type b)
        (pr_summary b) (pr_risk b) (pr_payload b))) as Hk. cbn [exec] in Hk. rewrite (af_approval _ _ Hfresh) in Hk.
    assert (Hc : control_origin (ow_agents w) (fst (fst (proposeAction (ow_agents w) now (fr_id fx) i (pr_conversation b)
      (pr_action_type b) (pr_summary b) (pr_risk b) (pr_payload b))))).
    { apply control_origin_same. unfold proposeAction. rewrite auth_row. destruct (_ || _); [done|]. by destruct (_ || _). }
    specialize (Hk Hc). by destruct (proposeAction _ _ _ _ _ _ _ _ _) as [[d x] es].
  - destruct (actionResultSchema_result j b Hb) as [r Hr].
    pose proof (op_keep (OpComplete (ar_approval b) fleet i r (ar_output b)) _ I
      (completeActionResult_events fleet now (ow_agents w) i (ar_approval b) (AgentSafety.result_name r) (ar_output b))) as Hk.
    cbn [exec] in Hk. rewrite Hr in Hk.
    assert (Hc : control_origin (ow_agents w) (fst (fst (completeActionResult (ow_agents w) now (ar_approval b) fleet i
      (ar_result b) (ar_output b))))).
    { apply control_origin_same. unfold completeActionResult. by destruct (own_approval _ _ _ _). }
    specialize (Hk Hc). by destruct (completeActionResult _ _ _ _ _ _ _) as [[d x] es].
Qed.

Lemma agent_route_keep c q body : world_ok (fst (agent_call cfg exts beat c q body w now fx agent)).
Proof.
  pose proof (agent_op_keep c q body).
  destruct c; try assumption; cbn [agent_call];
    first [exact Hok | apply message_keep | apply inbox_keep | apply acks_keep | apply floor_keep | apply release_keep
          | apply notice_keep | idtac].
  - apply agent_body_keep. intros j pk _. by destruct (setAgentIdentityKey _ _ _ _ _).
  - apply unless_stopped_keep, agent_body_keep. intros j b _. unfold agent. cbn [id_agent id_fleet].
    pose proof (rs_create_room cfg now (ow_agents w) (ow_mail w) (fr_id fx) fleet true i (fst b) (snd b)
      (fs_room _ _ (af_fresh _ _ Hfresh)) (fs_thread _ _ (af_fresh _ _ Hfresh))) as Hs.
    pose proof (mail_keep cfg now _ (feed_world w) _ _ fleet Hok Hs
      (createRoom_events fleet now (ow_agents w) (ow_mail w) (fr_id fx) true i (fst b) (snd b))) as Hk.
    destruct (createRoom _ _ _ _ _ _ _ _ _) as [[m l] es]. by apply world_ok_logged.
  - apply unless_stopped_keep, agent_body_keep. intros j b _. pose proof (upload_agent_keep b) as Hk.
    by destruct (postAttachment _ _ _ _ _ _) as [[s r] es].
Qed.
End AgentKeeps.

(** *** Enrolment *)

Section EnrolRequests.
Context `{Crypto} `{NodeCrypto} (baseUrl : string) (beat poll_every : Z).
Context (w : OpWorld) (now : Z) (fx : Fresh) (Hfresh : agent_fresh fx w).

Lemma postEnroll_untouched g f token name runtime host pk :
  primary_keys w ->
  (g = f -> forall t, t ∈ ed_tokens (ow_enroll w) -> claimable now (hashSecret token) f t = false) ->
  untouched g w (with_agent_world (fst (postEnroll (agent_world w) now (fr_id fx) (fr_token fx) (fr_correlation fx) f token name
    runtime host pk)) w).
Proof.
  intros Hpk Hno. unfold postEnroll. cbn [agent_world w_enroll w_agents w_keys w_mail w_policies].
  destruct (decide (g = f)) as [->|Hg].
  - rewrite enroll_without_token by by apply Hno. by apply agent_world_untouched.
  - destruct (enroll_others (ow_enroll w) (ow_agents w) now (fr_id fx) (fr_token fx) (fr_correlation fx) f token name runtime host
      g Hg (pk_tokens _ Hpk) (af_agent _ _ Hfresh)) as [Ht Ha].
    destruct (createAgentFromEnrollment _ _ _ _ _ _ _ _ _ _ _) as [[e1 d1] [[i s]|]]; cbn [fst snd] in *;
      [|by apply agent_world_untouched].
    apply agent_world_untouched; try done. cbn [w_keys]. destruct (truthy pk) as [k|]; [|done].
    by apply setAgentIdentityKey_others.
Qed.

Lemma postEnroll_keep f token name runtime host pk :
  world_ok w -> runtime <> "operator" ->
  world_ok (with_agent_world (fst (postEnroll (agent_world w) now (fr_id fx) (fr_token fx) (fr_correlation fx) f token name
    runtime host pk)) w).
Proof.
  intros Hok Hr. unfold postEnroll. cbn [agent_world w_enroll w_agents w_keys w_mail w_policies].
  pose proof (agents_keep default_config now (ex_event <$> ow_log w) (feed_world w)
    (OpEnroll (ow_enroll w) (fr_id fx) (fr_token fx) (fr_correlation fx) f token name runtime host) [] f Hok
    (conj Hr (af_not_operator _ _ Hfresh)) ltac:(side)) as Hk.
  cbn [exec fw_agents feed_world] in Hk. rewrite (af_agent _ _ Hfresh), app_nil_r in Hk.
  assert (Hc : ad_controls (snd (fst (createAgentFromEnrollment (ow_enroll w) (ow_agents w) now (fr_id fx) (fr_token fx)
    (fr_correlation fx) f token name runtime host))) = ad_controls (ow_agents w)).
  { unfold createAgentFromEnrollment. destruct (negb _); [done|]. by destruct (select_one _ _). }
  specialize (Hk (control_origin_same _ _ Hc)).
  by destruct (createAgentFromEnrollment _ _ _ _ _ _ _ _ _ _ _) as [[e1 d1] [[i s]|]].
Qed.
End EnrolRequests.

(** *** Ticks of the sweep job *)

Section Ticks.
Context `{NodeCrypto} (cfg : Config) (now : Z).

Lemma prune_subset {R} scan (cand : list (nat * R) -> nat * R -> bool) n t x : x ∈ fst (prune scan cand n t) -> x ∈ t.
Proof.
  revert t. induction n as [|n IH]; intros t; cbn [prune]; [done|]. unfold prune_batch. cbn [fst snd].
  set (ids := take _ _). set (t1 := delete_where _ t). assert (Ht1 : x ∈ t1 -> x ∈ t) by by intros [? _]%elem_of_delete_where.
  destruct (_ <? _); [done|]. specialize (IH t1). destruct (prune scan cand n t1). cbn [fst] in *. auto.
Qed.

Lemma prune_table_subset {R} scan (cand : list (nat * R) -> nat * R -> bool) t x : x ∈ fst (prune_table scan cand t) -> x ∈ t.
Proof.
  unfold prune_table. pose proof (prune_subset scan cand RETENTION_MAX_BATCHES_PER_TICK (with_rowids t)) as Hs.
  destruct (prune _ _ _ _) as [t' n]. cbn [fst] in *. intros (y & -> & Hy)%list_elem_of_fmap. apply Hs in Hy.
  rewrite <- (with_rowids_snd t). apply list_elem_of_fmap. by exists y.
Qed.

Lemma log_keep log log' w : tables_ok log w -> (forall e, e ∈ log' -> e ∈ log) -> tables_ok log' w.
Proof. intros [[H1 H2 H3] H4 H5 H6] Hs. split; try done. split; try done. intros e He. by apply H2, Hs. Qed.

Lemma kinds_keep log w es :
  tables_ok log w -> Forall (fun e => ev_resource_kind e <> "message") es -> tables_ok (log ++ es)%list w.
Proof. intros [H1 H2 H3 H4] Hes. split; try done. by apply reachable_side. Qed.

Lemma liveness_kinds d ctl : Forall (fun e => ev_resource_kind e <> "message") (snd (sweepHeartbeatLiveness cfg d now ctl)).
Proof.
  unfold sweepHeartbeatLiveness. generalize (List.filter (fun row => watched (snd row)) (map_to_list (ad_agents d))) as rows.
  intros rows. enough (Hgen : forall acc, Forall (fun e => ev_resource_kind e <> "message") (snd acc) ->
    Forall (fun e => ev_resource_kind e <> "message") (snd (fold_left (liveness_step cfg d now ctl) rows acc))) by by apply Hgen.
  induction rows as [|[i a] rows IH]; intros [[d1 n] es] Hes; [done|]. cbn [fold_left]. apply IH. cbn [liveness_step].
  destruct (_ <=? _); [|done]. destruct (ensureSystemOperator _ _ _). cbn [snd]. apply Forall_app. split; [done|side].
Qed.

Lemma liveness_origin d ctl : control_origin d (fst (fst (sweepHeartbeatLiveness cfg d now ctl))).
Proof.
  destruct (sweep_controls cfg d now ctl) as (Hc & _). intros c. rewrite Hc, elem_of_app.
  intros [Hin|Hin]; [left; by exists c|right]. apply list_elem_of_In, in_map_iff in Hin as ([i a] & <- & Hin).
  apply filter_In in Hin as [Hin _]. apply filter_In in Hin as [Hin _].
  apply list_elem_of_In, elem_of_map_to_list in Hin. by exists a.
Qed.

Lemma agents_rest_keep log w d :
  tables_ok log w -> ad_agents d = ad_agents (fw_agents w) -> ad_controls d = ad_controls (fw_agents w) ->
  ad_approvals d = ad_approvals (fw_agents w) -> tables_ok log (MkFeedWorld d (fw_mail w) (fw_feeds w)).
Proof.
  intros [[H1 H2 H3] H4 H5 H6] Ha Hc Hp.
  assert (Hgr : agents_grow (fw_agents w) d) by (intros i b Hb; rewrite Ha; by exists b).
  assert (Hops : operators_ok d) by (intros i b; rewrite Ha; apply H1).
  split; [split|..]; cbn [fw_agents fw_mail fw_feeds fst snd] in *.
  - by eapply relay_ok_grow.
  - done.
  - eapply approvals_ok_step; [exact Hgr|by apply approval_origin_same|done].
  - eapply controls_grow; [exact Hgr|by apply control_origin_same|done].
  - done.
  - by eapply subscribers_grow.
Qed.

Lemma sweepAttachments_rest w stuck :
  aw_agents (fst (sweepAttachments cfg w now stuck)) = aw_agents w /\
  exists atts, aw_mail (fst (sweepAttachments cfg w now stuck)) = with_attachments atts (aw_mail w).
Proof.
  unfold sweepAttachments. generalize (List.filter (fun r => expired_attachment cfg now (snd r)) (map_to_list (md_attachments (aw_mail w)))) as rows.
  intros rows. enough (Hgen : forall acc, aw_agents (fst (foldl (sweep_attachment stuck) acc rows)) = aw_agents (fst acc) /\
    exists atts, aw_mail (fst (foldl (sweep_attachment stuck) acc rows)) = with_attachments atts (aw_mail (fst acc))) by apply Hgen.
  induction rows as [|[i b] rows IH]; intros [w0 n]; [split; [done|]; exists (md_attachments (aw_mail w0)); by destruct w0 as [? []]|].
  cbn [foldl]. destruct (IH (sweep_attachment stuck (w0, n) (i, b))) as [H1 [atts H2]]. rewrite H1, H2. cbn [sweep_attachment].
  destruct (_ && _); cbn [fst]; [by eauto|]. split; [done|]. by exists atts.
Qed.

Lemma poll_begins_keep log ids w :
  tables_ok log w -> tables_ok log (fst (poll_begins now w ids)).
Proof.
  unfold poll_begins. enough (Hgen : forall acc, tables_ok log (fst acc) -> tables_ok log (fst (foldl (fun acc i =>
    let '(f1, feed) := poll_begin_feed (fst acc) now i in (f1, (snd acc ++ match feed with Some r => [r] | None => [] end)%list)) acc ids)))
    by (intros Hok; by apply (Hgen (w, []))).
  induction ids as [|i ids IH]; intros acc Hok; [done|]. cbn [foldl]. apply IH.
  destruct (poll_begin_keep (fst acc) now i log Hok) as [Hk _]. by destruct (poll_begin_feed _ _ _).
Qed.
End Ticks.

Lemma tick_keep `{NodeCrypto} cfg scan now x t w tabs polled w' :
  world_ok w -> sweep_tick cfg scan now x (relay_tables w t) = (tabs, polled) -> after_tick w tabs w' -> world_ok w'.
Proof.
  intros Hok Ht (Hs & _ & _ & _ & Hf & Hl). unfold world_ok, feed_world, ow_agents, ow_mail. rewrite Hs, Hf, Hl. cbn [aw_agents aw_mail].
  unfold sweep_tick, relay_tables in Ht. cbn [rt_agents rt_mail rt_disk rt_enroll rt_feeds rt_throttle rt_events] in Ht.
  destruct (sweepRetryDeliveries _ _ _ _) as [[m1 n1] es1] eqn:E1. destruct (sweepExpiredMessages m1 now) as [[m2 n2] es2] eqn:E2.
  set (log := ex_event <$> ow_log w) in *.
  assert (K1 : tables_ok (log ++ es1)%list (MkFeedWorld (ow_agents w) m1 (ow_feeds w))).
  { apply (logged_keep cfg now _ (feed_world w)); [exact Hok|]. by eapply lg_retry. }
  assert (K2 : tables_ok ((log ++ es1) ++ es2)%list (MkFeedWorld (ow_agents w) m2 (ow_feeds w))).
  { apply (logged_keep cfg now _ (MkFeedWorld (ow_agents w) m1 (ow_feeds w))); [exact K1|]. by eapply lg_expire. }
  pose proof (liveness_kinds cfg now (ow_agents w) (sd_control x)) as Hkinds.
  pose proof (agents_keep cfg now _ _ (OpSweepLiveness (sd_control x)) [] "" K2 I ltac:(side) (liveness_origin cfg now (ow_agents w) (sd_control x))) as K3.
  cbn [exec fw_agents fw_mail fw_feeds] in K3. rewrite app_nil_r in K3.
  destruct (sweepHeartbeatLiveness cfg (ow_agents w) now (sd_control x)) as [[d3 n3] es3]. cbn [fst snd] in *.
  apply (fun K => kinds_keep _ _ es3 K Hkinds) in K3.
  destruct (sweepStaleNonces cfg (ow_enroll w) now) as [e4 n4].
  set (d4 := sweepStaleRateLimitCounters cfg d3 now) in Ht.
  destruct (sweepAttachments_rest cfg now (MkAttachWorld d4 m2 (aw_disk (ow_store w))) (sd_stuck x)) as [Ha [atts Hm]].
  destruct (sweepAttachments _ _ _ _) as [a5 n5]. cbn [fst aw_agents aw_mail] in *.
  pose proof (prune_table_subset scan (fun _ y => prunable_event cfg now (snd y)) (log ++ es1 ++ es2 ++ es3)%list) as Hprune.
  unfold sweepEventRetention in Ht. destruct (prune_table _ _ _) as [log6 n6]. cbn [fst] in Hprune.
  unfold sweepHeartbeatRetention in Ht. destruct (prune_table _ _ (ad_heartbeats _)) as [hs n7].
  set (d7 := MkAgentDb _ _ hs _ _ _ _) in Ht.
  assert (K7 : tables_ok log6 (MkFeedWorld d7 (aw_mail a5) (ow_feeds w))).
  { rewrite Hm. apply attachments_keep. apply (log_keep (((log ++ es1) ++ es2) ++ es3)%list); [|intros e He; rewrite <- !app_assoc; by apply Hprune].
    eapply (agents_rest_keep _ (MkFeedWorld d3 m2 (ow_feeds w))); [exact K3|unfold d7; by rewrite Ha..]. }
  match type of Ht with context [poll_begins now ?w0 ?ids] =>
    pose proof (poll_begins_keep now _ ids w0 K7) as K8; destruct (poll_begins now w0 ids) as [f8 polled8] end.
  cbn [fst] in K8. injection Ht as <- _. by destruct f8.
Qed.

(** ** The life of a relay *)

Section Life.
Context `{Crypto} `{NodeCrypto} `{BufferApi} `{FeedUrlApi} `{ZodFormats} (cfg : Config) (ac : AccessConfig).
Context (icon nudge : string) (net : string -> option string) (exts : list ExtensionHook) (baseUrl : string) (beat poll_every : Z).

Let server := serve cfg ac icon nudge net exts baseUrl beat poll_every.

(** Requests of anybody, ticks of the sweep job, and ends of the polls it started;
    the id of a deleted feed is not used again. *)
Inductive relay_life (w : OpWorld) : OpWorld -> Prop :=
  | life_start : relay_life w w
  | life_request w1 now fx rq :
      relay_life w w1 -> agent_fresh fx w1 -> relay_life w (fst (server w1 now fx rq))
  | life_tick w1 now scan x t tabs polled w2 :
      relay_life w w1 -> sweep_tick cfg scan now x (relay_tables w1 t) = (tabs, polled) -> after_tick w1 tabs w2 -> relay_life w w2
  | life_poll w1 now fx feed xml :
      relay_life w w1 -> agent_fresh fx w1 ->
      (forall x, x ∈ fb_feeds (ow_feeds w1) -> fd_id x = fd_id feed -> fd_fleet x = fd_fleet feed) ->
      relay_life w (finish_poll icon w1 now fx feed xml).

Lemma enrolRoute_fst w now fx body P :
  P w -> (forall j b, enrollSchema j = Some b -> P (with_agent_world (fst (postEnroll (agent_world w) now (fr_id fx) (fr_token fx)
    (fr_correlation fx) (en_fleet_id b) (en_token b) (en_display_name b) (en_runtime b) (en_hostname b)
    (en_identity_public_key b))) w)) ->
  P (fst (enrollRoute baseUrl beat poll_every w now fx body)).
Proof.
  intros Hw Hb. unfold enrollRoute. destruct body as [j|]; [|done]. destruct (enrollSchema j) as [b|] eqn:E; [|done].
  specialize (Hb j b E). by destruct (postEnroll _ _ _ _ _ _ _ _ _ _ _) as [x created].
Qed.

Lemma serve_world_ok w now fx rq : world_ok w -> agent_fresh fx w -> world_ok (fst (server w now fx rq)).
Proof.
  intros Hok Hf. destruct rq as [r c q body|r c q body|body]; unfold server, serve.
  - pose proof (route_world_ok cfg ac icon nudge net w now fx r c q body Hok (af_fresh _ _ Hf)) as Hk. by destruct (operatorRoute _ _ _ _ _ _ _ _ _ _ _ _).
  - enough (Hk : world_ok (fst (agentRoute cfg exts beat w now fx r c q body))) by by destruct (agentRoute _ _ _ _ _ _ _ _ _ _).
    unfold agentRoute. destruct (requireAgentAuth _ _ _ _ _) as [e [[[i f] st]|x]] eqn:E; [|done].
    apply requireAgentAuth_Ok in E as (ts & n & a & (_ & _ & _ & (sec & t & _ & Hau & _) & _) & -> & -> & ->).
    eapply (agent_route_keep cfg exts beat i _ a (hashSecret sec) (with_ow_enroll _ w)); [by apply agent_fresh_enroll|exact Hok|exact Hau].
  - enough (Hk : world_ok (fst (enrollRoute baseUrl beat poll_every w now fx body))) by by destruct (enrollRoute _ _ _ _ _ _ _).
    apply (enrolRoute_fst w now fx body world_ok); [done|]. intros j b Hb. apply postEnroll_keep; [done|done|by eapply enrollSchema_runtime].
Qed.

Lemma relay_life_ok w w' : world_ok w -> relay_life w w' -> world_ok w'.
Proof.
  intros Hok. induction 1 as [|w1 now fx rq _ IH Hf|w1 now scan x t tabs polled w2 _ IH Ht Ha|w1 now fx feed xml _ IH Hf Hid]; [done|..].
  - by apply serve_world_ok.
  - by eapply tick_keep.
  - unfold finish_poll.
    pose proof (poll_finish_keep icon (feed_world w1) feed now (fr_feed fx) xml _ IH (fs_distinct _ _ (af_fresh _ _ Hf))
      (fs_items _ _ (af_fresh _ _ Hf)) Hid) as Hk.
    destruct (poll_finish_feed _ _ _ _ _ _ _) as [[f r] es]. by apply world_ok_logged; destruct f.
Qed.

(** The fleet a request is entitled to: by a session, by a signature, or by a token
    that can still be claimed. *)
Definition proves (w : OpWorld) (now : Z) (rq : RelayRequest) (g : string) : Prop :=
  match rq with
  | OperatorAsks r _ _ _ => exists operator, requireOperatorAuth cfg ac (ow_agents w) now r = Ok (operator, g)
  | AgentAsks r _ _ body => exists i st,
      snd (requireAgentAuth cfg (ow_enroll w) (ow_agents w) now (with_request_body body r)) = Ok (i, g, st)
  | Enrols body => exists j b t, body = Some j /\ enrollSchema j = Some b /\ en_fleet_id b = g /\
      t ∈ ed_tokens (ow_enroll w) /\ claimable now (hashSecret (en_token b)) g t = true
  end.

Lemma serve_untouched w now fx rq g :
  world_ok w -> agent_fresh fx w -> primary_keys w -> ~ proves w now rq g -> untouched g w (fst (server w now fx rq)).
Proof.
  intros Hok Hf Hpk Hno. destruct rq as [r c q body|r c q body|body]; unfold server, serve.
  - enough (Hu : untouched g w (fst (operatorRoute cfg ac icon nudge net w now fx r c q body)))
      by by destruct (operatorRoute _ _ _ _ _ _ _ _ _ _ _ _).
    unfold operatorRoute. destruct (requireOperatorAuth cfg ac (ow_agents w) now r) as [[o f]|] eqn:E; [|done].
    apply handler_untouched; [|apply Hf|apply Hok|apply Hok|apply Hok|by eapply session_operator].
    intros <-. apply Hno. by exists o.
  - enough (Hu : untouched g w (fst (agentRoute cfg exts beat w now fx r c q body))) by by destruct (agentRoute _ _ _ _ _ _ _ _ _ _).
    unfold agentRoute. cbn [proves] in Hno. destruct (requireAgentAuth _ _ _ _ _) as [e [[[i f] st]|x]] eqn:E.
    + apply requireAgentAuth_Ok in E as (ts & n & a & (_ & _ & _ & (sec & t & _ & Hau & _) & _) & -> & -> & ->).
      apply (untouched_trans _ _ (with_ow_enroll (with_nonces (<[(i, n) := now]> (ed_nonces (ow_enroll w))) (ow_enroll w)) w)); [done|].
      apply (agent_route_untouched cfg exts beat g (ag_fleet a)) with (a := a).
      * intros ->. apply Hno. by exists i, (ag_status a).
      * by apply agent_fresh_enroll.
      * exact Hok.
      * split; apply Hpk.
      * by eapply auth_row.
      * done.
    + by apply requireAgentAuth_refused in E as ->.
  - enough (Hu : untouched g w (fst (enrollRoute baseUrl beat poll_every w now fx body))) by by destruct (enrollRoute _ _ _ _ _ _ _).
    unfold enrollRoute. destruct body as [j|]; [|done]. destruct (enrollSchema j) as [b|] eqn:E; [|done].
    pose proof (postEnroll_untouched w now fx Hf g (en_fleet_id b) (en_token b) (en_display_name b) (en_runtime b) (en_hostname b)
      (en_identity_public_key b) Hpk) as Hu.
    destruct (postEnroll _ _ _ _ _ _ _ _ _ _ _) as [x created]. apply Hu. intros -> t Ht.
    apply not_true_iff_false. intros Hc. apply Hno. by exists j, b, t.
Qed.
End Life.

(** *** An agent of a relay with two fleets *)

Definition demo_serve := @serve toy_crypto plain_node toy_buffers simple_feed_urls no_formats default_config demo_access
  "" "" (fun _ => None) [] "https://relay" 30 5.
Definition demo_agent_request : SignedRequest :=
  MkRequest (Some "a1") (Some demo_ts) (Some "n1") (Some "s3cret") (Some "s3cret") "POST" "/v1/messages" "".
Definition demo_message_body : option json :=
  Some (JObj [("recipient", JObj [("kind", JStr "agent"); ("id", JStr "a2")]); ("message_type", JStr "direct");
              ("body", JObj [("text", JStr "hello")]); ("conversation_id", JStr "c1"); ("correlation_id", JStr "cor1")]).
Definition demo_send_request : RelayRequest := AgentAsks demo_agent_request POST_agent_messages demo_query demo_message_body.
Definition demo_room_request : RelayRequest := OperatorAsks demo_session POST_rooms demo_query demo_room_body.
Definition demo_fresh2 : Fresh := MkFresh "id2" "tok2" "cor2" "conv2" tick (MkFeedFresh tick tick (fun _ => tick)) tick.
(** After an operator's room. *)
Definition demo_life : OpWorld := fst (demo_serve demo_op_world 1000000 demo_fresh demo_room_request).
Definition demo_sent : OpWorld * RelayReply := demo_serve demo_life demo_now demo_fresh2 demo_send_request.

Lemma demo_agent_fresh : agent_fresh demo_fresh demo_op_world.
Proof. split; [exact demo_is_fresh|done|by intros f|done]. Qed.

Lemma demo_agent_fresh2 : agent_fresh demo_fresh2 demo_life.
Proof.
  split; [|done|by intros f|done].
  split; try done; try (intros ?; apply not_elem_of_nil); try (by intros ? ?%elem_of_nil); [apply not_elem_of_nil|apply not_elem_of_nil|].
  exact tick_inj.
Qed.

(** ** An agent acts only as itself

    What the request of an agent leaves of everybody else, the agents of its own fleet
    included. *)

Definition others {R} (key : R -> string) (i : string) (x : R) : bool := negb (key x ==? i).

Lemma others_false {R} (key : R -> string) i x : key x = i -> others key i x = false.
Proof. unfold others. intros ->. by rewrite bool_decide_true. Qed.

Record agents_besides (i : string) (d d' : AgentDb) : Prop := {
  ab_rows : forall b, b <> i -> ad_agents d' !! b = ad_agents d !! b;
  ab_approvals : forall k x, ad_approvals d !! k = Some x -> ap_agent x <> i -> ad_approvals d' !! k = Some x;
  ab_controls : select (others c_target i) (ad_controls d') = select (others c_target i) (ad_controls d);
  ab_heartbeats : select (others h_agent i) (ad_heartbeats d') = select (others h_agent i) (ad_heartbeats d);
  ab_violations : select (others rv_agent i) (ad_violations d') = select (others rv_agent i) (ad_violations d);
  ab_counters : forall k t, k <> i -> k <> "upload:" +:+ i -> ad_counters d' !! (k, t) = ad_counters d !! (k, t);
  ab_operators : forall o x, ad_operators d !! o = Some x -> ad_operators d' !! o = Some x
}.

(** The floors of its own fleet that others hold, and the statuses of messages it
    was not sent, stay as they are. *)
Record mail_besides (now : Z) (i fleet : string) (m m' : MailDb) : Prop := {
  mb_new : exists new ds, contents m' = (contents m ++ new)%list /\ Forall (fun x => ms_sender x = i) new /\
    select (others dl_recipient i) (md_deliveries m') = (select (others dl_recipient i) (md_deliveries m) ++ ds)%list /\
    Forall (fun dl => dl_message dl ∈ map ms_id new) ds;
  mb_status : forall x, x ∈ md_messages m ->
    x ∈ md_messages m' \/ (ms_id x, i) ∈ routing m;
  mb_dead : md_dead m' = md_dead m;
  mb_rooms : forall r x, md_rooms m !! r = Some x -> md_rooms m' !! r = Some x;
  mb_members : (forall p, p ∈ md_members m -> p ∈ md_members m') /\
    forall r a, (r, a) ∈ md_members m' -> (r, a) ∈ md_members m \/ md_rooms m !! r = None;
  mb_attachments : forall k x, md_attachments m !! k = Some x -> at_uploader_id x <> i -> md_attachments m' !! k = Some x;
  mb_floors : forall c f, md_floors m !! c = Some f -> fr_fleet f = fleet -> fr_holder f <> i -> now < fr_expires_at f ->
    md_floors m' !! c = Some f
}.

Lemma agents_besides_refl i d : agents_besides i d d.
Proof. done. Qed.
Lemma mail_besides_refl now i f m : mail_besides now i f m m.
Proof. split; try done; [|by left|split; [done|by left]]. exists [], []. by rewrite !app_nil_r. Qed.
#[export] Hint Resolve agents_besides_refl mail_besides_refl : core.

(** *** Its operations *)

Section AgentBesides.
Context (d : AgentDb) (now : Z) (i fleet : string).

Lemma insertHeartbeat_besides hb st x : agents_besides i d (fst (insertHeartbeat d now hb i st x)).
Proof.
  unfold insertHeartbeat. destruct (ad_agents d !! i) as [a|]; [|done].
  assert (Hh : select (others h_agent i) (ad_heartbeats d ++ [MkHeartbeat hb i st x now])%list = select (others h_agent i) (ad_heartbeats d)).
  { apply select_app_others. constructor; [by apply others_false|done]. }
  destruct (_ && _); split; try done.
  - intros b Hb. by apply lookup_insert_ne.
  - apply select_update_others. intros c _ Hhit. bools. split; by apply others_false.
  - intros b Hb. cbn. destruct (_ || _); [done|]. by apply lookup_insert_ne.
Qed.

Lemma proposeAction_besides apr c t s r p :
  ad_approvals d !! apr = None -> agents_besides i d (fst (fst (proposeAction d now apr i c t s r p))).
Proof.
  intros Hn. unfold proposeAction. destruct (ad_agents d !! i); [|done]. destruct (_ || _); [done|]. destruct (_ || _); [|done].
  split; try done. intros k x Hk _. cbn. rewrite lookup_insert_ne; congruence.
Qed.

Lemma completeActionResult_besides apr r out : agents_besides i d (fst (fst (completeActionResult d now apr fleet i r out))).
Proof.
  unfold completeActionResult, own_approval. destruct (ad_approvals d !! apr) as [y|] eqn:E; [|done].
  destruct (_ && _) eqn:Hy; [|done]. bools. split; try done. intros k x Hk Hx. cbn. rewrite lookup_insert_ne; congruence.
Qed.

Lemma uploadLimit_besides cfg : agents_besides i d (fst (fst (checkAndIncrementUploadLimit cfg d now i fleet))).
Proof.
  unfold checkAndIncrementUploadLimit. destruct (_ <=? _); split; try done; intros k t _ Hk; cbn; apply lookup_insert_ne; congruence.
Qed.

Lemma rateLimit_besides cfg ctl : agents_besides i d (fst (fst (checkAndIncrementRateLimit cfg d now ctl i fleet))).
Proof.
  unfold checkAndIncrementRateLimit. destruct (_ <=? _).
  2: { split; try done. intros k t Hk _. cbn. apply lookup_insert_ne. congruence. }
  set (d1 := with_violations _ _).
  assert (H1 : agents_besides i d d1).
  { split; try done.
    - apply select_app_others. constructor; [by apply others_false|done].
    - intros k t Hk _. cbn. apply lookup_insert_ne. congruence. }
  unfold checkRateLimitQuarantine. destruct (_ <=? _); [|done]. destruct H1 as [R1 R2 R3 R4 R5 R6 R7].
  unfold ensureSystemOperator. destruct (ad_operators d1 !! system_operator fleet) eqn:E; split; try done; cbn [fst].
  - intros b Hb. cbn. unfold quarantine_unless_stopped. rewrite lookup_alter_ne by done. by apply R1.
  - cbn. apply select_app_others. constructor; [by apply others_false|done].
  - intros b Hb. cbn. unfold quarantine_unless_stopped. rewrite lookup_alter_ne by done. by apply R1.
  - cbn. apply select_app_others. constructor; [by apply others_false|done].
  - intros o x Ho. cbn. rewrite lookup_insert_ne; [by apply R7|]. intros <-. apply R7 in Ho. congruence.
Qed.

Lemma gate_besides cfg exts ps ctl st rcp ty pr body meta :
  agents_besides i d (fst (fst (evaluateMessageGate cfg exts ps d now ctl (MkIdentity i fleet st) rcp ty pr body meta))).
Proof.
  unfold evaluateMessageGate. destruct (_ || _); [done|]. pose proof (rateLimit_besides cfg ctl) as Hr. cbn [id_agent id_fleet].
  destruct (checkAndIncrementRateLimit _ _ _ _ _ _) as [[d1 rate] e1]. destruct (negb _); [done|].
  by destruct (evaluateMessagePolicies _ _ _ _ _ _ _) as [[] e2].
Qed.
End AgentBesides.

Section MailBesides.
Context (m : MailDb) (now : Z) (i fleet : string).

Lemma bind_elsewhere mid at_ ids (t : gmap string AttachmentRow) k : k ∉ ids -> bind_attachments mid at_ ids t !! k = t !! k.
Proof.
  induction ids as [|j ids IH]; intros Hk; [done|]. apply not_elem_of_cons in Hk as [Hne Hk]. cbn [bind_attachments foldr].
  rewrite lookup_alter_ne by congruence. by apply IH.
Qed.

Lemma createMessage_besides cfg d mid dly x m' es :
  mi_sender x = i -> createMessage cfg d m now mid dly x = Ok (m', es) -> mail_besides now i fleet m m'.
Proof.
  intros Hs (l & _ & _ & Hv & ->)%createMessage_Ok. split; try done; [|by left; apply elem_of_app; left|by split; [|left]|].
  - eexists _, _. split_and!; [unfold contents; cbn; rewrite map_app; reflexivity|by constructor|cbn; rewrite select_app; reflexivity|].
    apply Forall_forall. intros dl [Hdl _]%elem_of_select. apply elem_of_lookup_imap in Hdl as (n & y & -> & _). by left.
  - intros k y Hk Hy. cbn. rewrite bind_elsewhere; [done|]. intros Hin.
    pose proof (validateAttachmentOwnership_true _ _ _ _ Hv k Hin) as Ho. unfold owned_by in Ho. rewrite Hk in Ho. bools. congruence.
Qed.

Lemma same_rows_besides m' ds :
  contents m' = contents m -> md_deliveries m' = ds -> select (others dl_recipient i) ds = select (others dl_recipient i) (md_deliveries m) ->
  (forall x, x ∈ md_messages m -> x ∈ md_messages m' \/ (ms_id x, i) ∈ routing m) -> md_dead m' = md_dead m ->
  md_rooms m' = md_rooms m -> md_members m' = md_members m -> md_attachments m' = md_attachments m -> md_floors m' = md_floors m ->
  mail_besides now i fleet m m'.
Proof.
  intros Hc <- Hds Hst Hd Hr Hm Ha Hf. split; try done; [|by rewrite Hr|by rewrite Hm; split; [|left]|by rewrite Ha|by rewrite Hf].
  exists [], []. by rewrite !app_nil_r.
Qed.

Lemma poll_besides limit : NoDup (map dl_id (md_deliveries m)) -> mail_besides now i fleet m (fst (fst (poll m now i limit))).
Proof.
  intros Hnd. unfold poll. cbn [fst]. eapply same_rows_besides; try reflexivity; [|by left].
  rewrite mark_delivered_eq by by apply pending_ids_NoDup. apply select_update_others. intros dl Hdl Hid. bools.
  apply (row_of_id m) in Hid as [x Hx]; [|done| |done].
  - apply pending_spec in Hx as (_ & _ & Hr & _). split; by apply others_false.
  - intros [dl' x'] Hin. by apply pending_spec in Hin as (? & _).
Qed.

Lemma createRoom_besides d rid b n l :
  md_rooms m !! rid = None -> mail_besides now i fleet m (fst (fst (createRoom d m now rid fleet b i n l))).
Proof.
  intros Hn. unfold createRoom. cbn [fst]. split; try done; cbn.
  - exists [], []. by rewrite !app_nil_r.
  - by left.
  - intros r x Hr. rewrite lookup_insert_ne; congruence.
  - match goal with |- context [foldl _ _ ?xs] => generalize xs end. intros ids. generalize (md_members m) as acc.
    induction ids as [|j ids IH]; intros acc; [by split; [|left]|]. cbn [foldl]. destruct (IH (insert_ignore (rid, j) acc)) as [I1 I2].
    unfold insert_ignore in *. case_bool_decide as Hin; [done|]. split.
    + intros p Hp. apply I1, elem_of_app. by left.
    + intros r y Hy. destruct (I2 r y Hy) as [[Hy'|[= -> _]%list_elem_of_singleton]%elem_of_app|]; [by left|by right|by right].
Qed.

Lemma acquireFloor_besides c ttl : mail_besides now i fleet m (fst (acquireFloor m now fleet c i ttl)).
Proof.
  unfold acquireFloor.
  assert (Hg : (forall f, md_floors m !! c = Some f -> fr_fleet f = fleet -> fr_holder f <> i -> now < fr_expires_at f -> False) ->
    forall row, mail_besides now i fleet m (with_floors (<[c := row]> (md_floors m)) m)).
  { intros Hno row. split; try done; [exists [], []; by rewrite !app_nil_r|by left|by split; [|left]|].
    intros c' f Hf H1 H2 H3. cbn. rewrite lookup_insert_ne; [done|]. intros <-. by eapply Hno. }
  unfold fleet_floor. destruct (md_floors m !! c) as [f|] eqn:E; [|by apply Hg].
  destruct (fr_fleet f ==? fleet) eqn:Hf; bools.
  - destruct (_ || _) eqn:Ho; cbn [fst]; [|done]. apply Hg. intros f' [= <-] _ H2 H3. apply orb_true_iff in Ho as [Ho|Ho]; bools; [lia|done].
  - apply Hg. intros f' [= <-] H1. congruence.
Qed.

Lemma releaseFloor_besides c : mail_besides now i fleet m (fst (releaseFloor m fleet c i)).
Proof.
  unfold releaseFloor, fleet_floor. destruct (md_floors m !! c) as [f|] eqn:E; [|done]. destruct (_ ==? fleet); [|done].
  destruct (fr_holder f ==? i) eqn:Hh; [|done]. bools. cbn [fst].
  split; try done; [exists [], []; by rewrite !app_nil_r|by left|by split; [|left]|].
  intros c' f' Hf' _ H2 _. cbn. rewrite lookup_delete_ne; [done|]. intros <-. congruence.
Qed.
End MailBesides.

Lemma ack_besides m now i fleet acks : mail_besides now i fleet m (fst (fst (ackMessages m now i acks))).
Proof.
  pose proof (ack_views m now i acks) as [Vc Vr Vrm Vm].
  assert (Hgen : forall acc,
    let m1 := fst (fst acc) in let m2 := fst (fst (foldl (ack_step now i) acc acks)) in
    select (others dl_recipient i) (md_deliveries m2) = select (others dl_recipient i) (md_deliveries m1) /\
    (forall x, x ∈ md_messages m1 -> x ∈ md_messages m2 \/ (ms_id x, i) ∈ routing m1) /\
    (md_dead m2, md_attachments m2, md_floors m2) = (md_dead m1, md_attachments m1, md_floors m1)).
  { clear. induction acks as [|[j r] acks IH]; intros acc; [split_and!; [done|by left|done]|]. cbn [foldl].
    destruct (IH (ack_step now i acc (j, r))) as (I1 & I2 & I3). destruct acc as [[m n] es]. cbn zeta in *. rewrite I1, I3.
    pose proof (ack_views m now i [(j, r)]) as [_ Vr _ _]. unfold ackMessages in Vr. cbn [foldl] in Vr.
    revert I2 Vr. unfold ack_step. destruct (changes (ack_hit j i) (md_deliveries m) =? 0)%nat eqn:E; [done|]. apply Nat.eqb_neq in E.
    cbn [fst]. intros I2 Vr. split_and!.
    - rewrite ack_tables_deliveries. apply select_update_others. intros dl _ Hh. unfold ack_hit in Hh. bools. split; by apply others_false.
    - intros x Hx. destruct (decide (ms_id x = j)) as [<-|Hne].
      + right. destruct (proj1 (changes_pos (ack_hit (ms_id x) i) (md_deliveries m)) ltac:(lia)) as (dl & Hdl & Hh).
        unfold ack_hit in Hh. bools. apply list_elem_of_In, in_map_iff. exists dl. split; [congruence|by apply list_elem_of_In].
      + rewrite <- Vr. apply I2. by apply ack_tables_other_message.
    - unfold ack_tables. by destruct (ack_pending _ _). }
  destruct (Hgen (m, O, [])) as (G1 & G2 & G3). cbn [fst] in *. injection G3 as G3 G4 G5.
  by eapply same_rows_besides.
Qed.

(** *** The whole state *)

(** The log rows name the agent, or the system. *)
Definition own_events (i : string) (es : list Event) : Prop :=
  Forall (fun e => ev_actor e = Some i \/ ev_actor_kind e = "system") es.

Lemma own_nil i : own_events i [].
Proof. constructor. Qed.
#[export] Hint Resolve own_nil : core.

Record as_itself (now : Z) (new_id i fleet : string) (w w' : OpWorld) : Prop := {
  ai_agents : agents_besides i (ow_agents w) (ow_agents w');
  ai_mail : mail_besides now i fleet (ow_mail w) (ow_mail w');
  ai_disk : forall p, p <> attachmentStoragePath fleet new_id -> aw_disk (ow_store w') !! p = aw_disk (ow_store w) !! p;
  ai_keys : (kd_keys (ow_keys w'), kd_grants (ow_keys w')) = (kd_keys (ow_keys w), kd_grants (ow_keys w)) /\
    forall b k x, kd_agent_keys (ow_keys w) !! (b, k) = Some x -> kd_agent_keys (ow_keys w') !! (b, k) = Some x;
  ai_own_keys : forall b k, b <> i -> kd_agent_keys (ow_keys w') !! (b, k) = kd_agent_keys (ow_keys w) !! (b, k);
  ai_credentials : (ed_tokens (ow_enroll w'), ed_credentials (ow_enroll w')) = (ed_tokens (ow_enroll w), ed_credentials (ow_enroll w));
  ai_nonces : forall b n, b <> i -> ed_nonces (ow_enroll w') !! (b, n) = ed_nonces (ow_enroll w) !! (b, n);
  ai_rest : (ow_policies w', ow_feeds w') = (ow_policies w, ow_feeds w);
  ai_log : exists es, ex_event <$> ow_log w' = ((ex_event <$> ow_log w) ++ es)%list /\ own_events i es
}.

Section AsItself.
Context (now : Z) (new_id i fleet : string) (w : OpWorld).

Lemma as_itself_refl : as_itself now new_id i fleet w w.
Proof. split; try done. exists []. by rewrite app_nil_r. Qed.

Lemma as_itself_agents fx d es :
  agents_besides i (ow_agents w) d -> own_events i es -> as_itself now new_id i fleet w (logged fx es (with_ow_agents d w)).
Proof. intros Hd He. split; try done. exists es. by rewrite log_rows. Qed.

Lemma as_itself_mail fx m es :
  mail_besides now i fleet (ow_mail w) m -> own_events i es -> as_itself now new_id i fleet w (logged fx es (with_ow_mail m w)).
Proof. intros Hd He. split; try done. exists es. by rewrite log_rows. Qed.

Lemma as_itself_floor m :
  mail_besides now i fleet (ow_mail w) m -> as_itself now new_id i fleet w (with_agent_world (with_w_mail m (agent_world w)) w).
Proof. intros Hd. split; try done. exists []. by rewrite app_nil_r. Qed.
End AsItself.
#[export] Hint Resolve as_itself_refl : core.

Lemma insertHeartbeat_own d now hb i st x : own_events i (snd (insertHeartbeat d now hb i st x)).
Proof.
  unfold insertHeartbeat. destruct (ad_agents d !! i); [|by constructor].
  destruct (_ && _); cbn [snd]; [constructor; [by right|]|]; (constructor; [by left|done]).
Qed.

Lemma rateLimit_own cfg d now ctl i f : own_events i (snd (checkAndIncrementRateLimit cfg d now ctl i f)).
Proof.
  unfold checkAndIncrementRateLimit. destruct (_ <=? _); [|by constructor]. unfold checkRateLimitQuarantine.
  destruct (_ <=? _); [destruct (ensureSystemOperator _ _ _)|]; cbn [snd]; (constructor; [by left|]); [|done].
  constructor; [by right|done].
Qed.

Lemma gate_own cfg exts ps d now ctl i f st rcp ty pr body meta :
  own_events i (snd (evaluateMessageGate cfg exts ps d now ctl (MkIdentity i f st) rcp ty pr body meta)).
Proof.
  unfold evaluateMessageGate. destruct (_ || _); [by constructor|]. pose proof (rateLimit_own cfg d now ctl i f) as Hr.
  cbn [id_agent id_fleet]. destruct (checkAndIncrementRateLimit _ _ _ _ _ _) as [[d1 rate] e1]. cbn [snd] in Hr.
  destruct (negb _); [done|].
  assert (He : own_events i (snd (evaluateMessagePolicies ps now f i rcp ty pr))).
  { unfold evaluateMessagePolicies. destruct (first_match _ _ _ _ _) as [p|]; [destruct (po_action p)|]; try by constructor.
    cbn [snd]. constructor; [by right|done]. }
  destruct (evaluateMessagePolicies _ _ _ _ _ _ _) as [[] e2]; apply Forall_app; by split.
Qed.

Lemma ack_own m now i acks : own_events i (snd (ackMessages m now i acks)).
Proof.
  unfold ackMessages. enough (Hgen : forall acc, own_events i (snd acc) -> own_events i (snd (foldl (ack_step now i) acc acks)))
    by by apply Hgen; constructor.
  induction acks as [|[j r] acks IH]; intros [[m0 n] es] Hes; [done|]. cbn [foldl]. apply IH. unfold ack_step.
  destruct (_ =? 0)%nat; [done|]. cbn [snd]. destruct (message_by_id _ _); [|done].
  apply Forall_app. split; [done|]. constructor; [by left|done].
Qed.

Section CallsAsItself.
Context `{Crypto} `{NodeCrypto} `{BufferApi} `{ZodFormats} (cfg : Config) (exts : list ExtensionHook) (beat : Z).
Context (i fleet : string) (st : AgentStatus).
Context (w : OpWorld) (now : Z) (fx : Fresh) (Hfresh : agent_fresh fx w) (Hpk : primary_keys w).

Let agent := MkIdentity i fleet st.
Let itself := as_itself now (fr_id fx) i fleet w.

Lemma agent_body_itself {A} (schema : parser A) body (k : A -> agent_handler) :
  (forall b, itself (fst (k b w now fx agent))) -> itself (fst (agent_body schema body k w now fx agent)).
Proof. intros Hk. unfold agent_body. destruct body as [j|]; [|by apply as_itself_refl]. destruct (schema j); [done|by apply as_itself_refl]. Qed.

Lemma unless_stopped_itself k : itself (fst (k w now fx agent)) -> itself (fst (unless_stopped k w now fx agent)).
Proof. intros Hk. unfold unless_stopped. destruct (_ || _); [by apply as_itself_refl|done]. Qed.

Lemma claim_envelope_itself e r b n : b <> i ->
  ed_nonces (fst (claim_envelope e now agent r)) !! (b, n) = ed_nonces e !! (b, n).
Proof.
  intros Hb. unfold claim_envelope. destruct (envelope_nonce r); [|done]. destruct (_ ==? ""); [done|]. destruct (_ <? _)%nat; [done|].
  unfold claimEnvelopeNonce, claimNonce. destruct (ed_nonces e !! (id_agent agent, _)); [done|]. cbn. apply lookup_insert_ne. unfold agent. cbn. congruence.
Qed.

Lemma postMessage_nonces x reply es r b n :
  postMessage cfg exts (agent_world w) now (fr_token fx) (fr_id fx) (fr_delivery fx) agent r = (x, reply, es) -> b <> i ->
  ed_nonces (w_enroll x) !! (b, n) = ed_nonces (ow_enroll w) !! (b, n).
Proof.
  intros E Hb. unfold postMessage in E. destruct (evaluateMessageGate _ _ _ _ _ _ _ _ _ _ _ _) as [[d1 [x'|]] es1]; [by injection E as <- _ _|].
  pose proof (claim_envelope_itself (ow_enroll w) r b n Hb) as Hc. cbn [agent_world with_w_agents w_enroll] in E.
  destruct (claim_envelope _ _ _ _) as [e1 [x'|]]; [by injection E as <- _ _|]. cbn [fst] in Hc.
  destruct (createMessage _ _ _ _ _ _ _) as [[m es2]|e]; by injection E as <- _ _.
Qed.

Lemma message_itself body : itself (fst (postAgentMessage cfg exts body w now fx agent)).
Proof.
  apply agent_body_itself. intros r. destruct (postMessage _ _ _ _ _ _ _ _ _) as [[x reply] es] eqn:E.
  pose proof (fun b n => postMessage_nonces x reply es r b n E) as Hn.
  apply postMessage_parts in E as (Ea & Ek & Ep & Et & Ec & Hm). unfold gate_of in *.
  pose proof (gate_besides (ow_agents w) now i fleet cfg exts (ow_policies w) (fr_token fx) st (sr_recipient_id r) (sr_type r)
    (sr_priority r) (sr_body r) (option_map JObj (sr_metadata r))) as Hga.
  pose proof (gate_own cfg exts (ow_policies w) (ow_agents w) now (fr_token fx) i fleet st (sr_recipient_id r) (sr_type r)
    (sr_priority r) (sr_body r) (option_map JObj (sr_metadata r))) as Hge.
  cbn [agent_world w_policies w_agents w_mail w_keys w_enroll] in *. cbn [fst].
  split; cbn; try done.
  - by rewrite Ea.
  - destruct Hm as [[-> _]|(es2 & Hc & _)]; [done|]. by eapply createMessage_besides; [|exact Hc].
  - by rewrite Ek.
  - by rewrite Ek.
  - by rewrite Et, Ec.
  - by rewrite Ep.
  - exists es. split; [apply log_rows|]. destruct Hm as [[_ ->]|(es2 & Hc & ->)]; [done|]. apply Forall_app. split; [done|].
    unfold createMessage in Hc. inv_ok Hc; (constructor; [by left|done]).
Qed.

Lemma inbox_itself q : itself (fst (getAgentInbox q w now fx agent)).
Proof.
  unfold getAgentInbox, getInboxRoute, getInbox. cbn [agent_world w_mail w_agents w_keys]. set (limit := clampLimit _ _ _).
  pose proof (poll_besides (ow_mail w) now i fleet limit (pk_deliveries _ Hpk)) as Hm.
  unfold agent. cbn [id_agent]. unfold poll in *. cbn [fst] in *. split; try done.
  eexists. split; [etrans; [apply log_rows|reflexivity]|]. apply Forall_forall. intros e (r & -> & _)%list_elem_of_fmap. by left.
Qed.

Lemma floor_itself c body : itself (fst (postAgentFloor cfg c body w now fx agent)).
Proof.
  unfold postAgentFloor. destruct (c ==? ""); [by apply as_itself_refl|]. unfold postFloor.
  destruct (negb _); [cbn; rewrite agent_world_id; by apply as_itself_refl|]. set (ttl := Z.max _ _).
  pose proof (acquireFloor_besides (ow_mail w) now i fleet c ttl) as Hm. cbn [agent_world w_mail]. unfold agent. cbn [id_agent id_fleet].
  destruct (acquireFloor _ _ _ _ _ _) as [m v]. by apply as_itself_floor.
Qed.

Lemma release_itself c : itself (fst (deleteAgentFloor c w now fx agent)).
Proof.
  unfold deleteAgentFloor, deleteFloor. destruct (negb _); [cbn; rewrite agent_world_id; by apply as_itself_refl|].
  pose proof (releaseFloor_besides (ow_mail w) now i fleet c) as Hm. cbn [agent_world w_mail]. unfold agent. cbn [id_agent id_fleet].
  destruct (releaseFloor _ _ _ _) as [m v]. by apply as_itself_floor.
Qed.

Lemma notice_itself body : itself (fst (postAgentNotice body w now fx agent)).
Proof.
  apply agent_body_itself. intros b. unfold agent. cbn [id_fleet id_agent].
  match goal with |- context [recordConversationStall ?l _ _ _ ?n] =>
    assert (He : own_events i (drop (length l) (fst (recordConversationStall l now fleet i n)))) end.
  { unfold recordConversationStall. destruct (exists_row _ _); cbn [fst]; [by rewrite drop_all; constructor|].
    rewrite drop_app_length. constructor; [by left|done]. }
  destruct (recordConversationStall _ _ _ _ _) as [events rec]. cbn [fst] in *. split; try done.
  eexists. split; [etrans; [apply log_rows|reflexivity]|done].
Qed.

Lemma upload_itself r :
  itself (let '(s, out, es) := postAttachment cfg (ow_store w) now (fr_id fx) agent r in logged fx es (with_ow_store s w)).
Proof.
  unfold postAttachment. destruct (_ || _); [split; try done; eexists; split; [etrans; [apply log_rows|reflexivity]|by constructor]|].
  pose proof (uploadLimit_besides (ow_agents w) now i fleet cfg) as Ha. unfold agent. cbn [id_agent id_fleet].
  assert (He : own_events i (snd (checkAndIncrementUploadLimit cfg (ow_agents w) now i fleet))).
  { unfold checkAndIncrementUploadLimit. destruct (_ <=? _); cbn [snd]; [|by constructor]. constructor; [by left|done]. }
  unfold ow_agents in *. destruct (checkAndIncrementUploadLimit _ _ _ _ _) as [[d1 rate] es1]. cbn [fst snd] in *.
  destruct (negb _); [split; try done; eexists; split; [etrans; [apply log_rows|reflexivity]|done]|].
  destruct (check_upload cfg r) as [bytes|e]; [|split; try done; eexists; split; [etrans; [apply log_rows|reflexivity]|done]].
  unfold store_upload. destruct (_ <? _); cbn.
  { split; try done. eexists. split; [etrans; [apply log_rows|reflexivity]|]. by rewrite app_nil_r. }
  split; try done.
  - cbn. split; try done; [exists [], []; by rewrite !app_nil_r|by left|by split; [|left]|].
    intros k x Hk _. cbn. rewrite lookup_insert_ne; [done|]. intros <-. pose proof (fs_attachment _ _ (af_fresh _ _ Hfresh)). unfold ow_mail in *. congruence.
  - intros p Hp. cbn. by apply lookup_insert_ne.
  - eexists. split; [etrans; [apply log_rows|reflexivity]|]. apply Forall_app. split; [done|]. constructor; [by left|done].
Qed.

Lemma agent_call_itself c q body : itself (fst (agent_call cfg exts beat c q body w now fx agent)).
Proof.
  destruct c; cbn [agent_call];
    first [apply as_itself_refl | apply message_itself | apply inbox_itself | apply floor_itself | apply release_itself | apply notice_itself | idtac].
  - apply agent_body_itself. intros pk. unfold agent, setAgentIdentityKey. cbn [id_agent id_fleet].
    destruct (kd_agent_keys (ow_keys w) !! _) eqn:E; cbn [fst]; [destruct w as [[]]; by apply as_itself_refl|].
    split; try done; [split; [done|]| |exists []; by rewrite app_nil_r].
    + intros b k x Hk. cbn. rewrite lookup_insert_ne; congruence.
    + intros b k Hb. cbn. apply lookup_insert_ne. congruence.
  - apply unless_stopped_itself, agent_body_itself. intros b. unfold agent. cbn [id_agent id_fleet].
    pose proof (createRoom_besides (ow_mail w) now i fleet (ow_agents w) (fr_id fx) true (fst b) (snd b)
      (fs_room _ _ (af_fresh _ _ Hfresh))) as Hm.
    unfold createRoom in *. cbn [fst] in *. apply as_itself_mail; [done|]. constructor; [by left|done].
  - apply unless_stopped_itself, agent_body_itself. intros b. pose proof (upload_itself b) as Hk.
    by destruct (postAttachment _ _ _ _ _ _) as [[s r] es].
  - apply agent_body_itself. intros acks. unfold agent. cbn [id_agent].
    pose proof (ack_besides (ow_mail w) now i fleet acks) as Hm. pose proof (ack_own (ow_mail w) now i acks) as He.
    destruct (ackMessages _ _ _ _) as [[m n] es]. by apply as_itself_mail.
  - apply agent_body_itself. intros b. unfold agent. cbn [id_agent]. set (metrics := JObj _).
    pose proof (insertHeartbeat_besides (ow_agents w) now i (fr_id fx) (be_status b) metrics) as Hm.
    pose proof (insertHeartbeat_own (ow_agents w) now (fr_id fx) i (be_status b) metrics) as He.
    destruct (insertHeartbeat _ _ _ _ _ _) as [d es]. by apply as_itself_agents.
  - apply agent_body_itself. intros b. unfold agent. cbn [id_agent].
    pose proof (proposeAction_besides (ow_agents w) now i (fr_id fx) (pr_conversation b) (pr_action_type b) (pr_summary b) (pr_risk b)
      (pr_payload b) (af_approval _ _ Hfresh)) as Hm.
    assert (He : own_events i (snd (proposeAction (ow_agents w) now (fr_id fx) i (pr_conversation b) (pr_action_type b) (pr_summary b)
      (pr_risk b) (pr_payload b)))).
    { unfold proposeAction. destruct (ad_agents _ !! i); [|by constructor]. destruct (_ || _); [by constructor|].
      destruct (_ || _); [|by constructor]. constructor; [by left|done]. }
    destruct (proposeAction _ _ _ _ _ _ _ _ _) as [[d x] es]. by apply as_itself_agents.
  - apply agent_body_itself. intros b. unfold agent. cbn [id_agent id_fleet].
    pose proof (completeActionResult_besides (ow_agents w) now i fleet (ar_approval b) (ar_result b) (ar_output b)) as Hm.
    assert (He : own_events i (snd (completeActionResult (ow_agents w) now (ar_approval b) fleet i (ar_result b) (ar_output b)))).
    { unfold completeActionResult, own_approval. destruct (ad_approvals _ !! _) as [y|]; [|by constructor].
      destruct (_ && _) eqn:Hy; [|by constructor]. bools. constructor; [left; cbn; congruence|done]. }
    destruct (completeActionResult _ _ _ _ _ _ _) as [[d x] es]. by apply as_itself_agents.
Qed.
End CallsAsItself.

Lemma as_itself_auth now new_id i fleet n t w w' :
  as_itself now new_id i fleet (with_ow_enroll (with_nonces (<[(i, n) := t]> (ed_nonces (ow_enroll w))) (ow_enroll w)) w) w' ->
  as_itself now new_id i fleet w w'.
Proof.
  intros [A1 A2 A3 A4 A5 A6 A7 A8 A9]. split; try done. intros b k Hb. rewrite (A7 b k Hb). cbn. apply lookup_insert_ne. congruence.
Qed.

(** C5. An agent acts only as itself. A request whose signature proves no agent changes
    nothing. Whatever else an agent asks for, the rows of the other agents stay as
    they are, those of its own fleet included: their status and heartbeats, the
    controls and rate limits on them, their proposals and what became of them, their
    identity keys, credentials and replay nonces, the files they uploaded, and the
    floors they hold. Every new message has the agent as its sender and every new
    delivery to somebody else is of such a message; the status of an old message
    moves only if it was delivered to the agent; rooms and memberships are only
    added, and members only to a new room; operators' keys, tokens, policies and feeds
    do not change; and the log rows name the agent or the system. *)
Theorem agent_acts_only_as_itself `{Crypto} `{NodeCrypto} `{BufferApi} `{ZodFormats} cfg exts beat w now fx r c q body :
  agent_fresh fx w -> primary_keys w ->
  let w' := fst (agentRoute cfg exts beat w now fx r c q body) in
  match snd (requireAgentAuth cfg (ow_enroll w) (ow_agents w) now (with_request_body body r)) with
  | Ok (i, fleet, _) => as_itself now (fr_id fx) i fleet w w'
  | Throw _ => w' = w
  end.
Proof.
  intros Hf Hpk. cbv zeta. unfold agentRoute. destruct (requireAgentAuth _ _ _ _ _) as [e [[[i f] st]|x]] eqn:E; cbn [fst snd].
  - apply requireAgentAuth_Ok in E as (ts & n & a & _ & -> & -> & ->). eapply as_itself_auth.
    apply agent_call_itself; [by apply agent_fresh_enroll|]. split; apply Hpk.
  - apply requireAgentAuth_refused in E as ->. by destruct w as [[]].
Qed.

Lemma agent_acts_only_as_itself_witness :
  ad_agents (ow_agents demo_life) !! "a2" <> None /\
  as_itself demo_now "id2" "a1" "f" demo_life
    (fst (@agentRoute toy_crypto plain_node toy_buffers no_formats default_config [] 30 demo_life demo_now demo_fresh2
            demo_agent_request POST_agent_messages demo_query demo_message_body)).
Proof.
  split; [done|].
  apply (@agent_acts_only_as_itself toy_crypto plain_node toy_buffers no_formats default_config [] 30 demo_life demo_now demo_fresh2
    demo_agent_request POST_agent_messages demo_query demo_message_body demo_agent_fresh2).
  split; apply (bool_decide_unpack _); vm_compute; exact I.
Defined.
