(* ===== verification/FleetConfinement.v ===== *)
(** * Fleets are closed

    What the relay tells an operator is computed from its own fleet's rows, over
    every read of [routes-operator.ts]; and a request changes nothing of a fleet it
    does not prove.  [own_world] keeps one fleet's rows of the whole state. *)

From S2P Require Import Prelude Json IsoTime JsValues Identity Events OperatorKeys OperatorTrust Config Agents Enrollment EnrollmentProperties Messages Rooms Delivery Policies AgentSafety DeliverySafety DeliveryProperties RelaySafety RelayProperties FleetHealth OperatorAccess Text SdkClient Attachments OperatorViews OperatorViewsProperties Feeds AgentRoutes Schemas OperatorRoutes OperatorRoutesProperties Retention AgentApi AgentApiProperties.
Import Ascii String.
Open Scope string_scope.
Open Scope Z_scope.

(** ** One fleet's rows of everything *)

Definition own_keys (fleet : string) (k : KeyDb) : KeyDb :=
  MkKeyDb ∅ (filter (fun kv => fst (fst kv) = fleet) (kd_keys k))
    (filter (fun kv => ak_fleet (snd kv) = fleet) (kd_agent_keys k)) (select (fun g => g_fleet g ==? fleet) (kd_grants k)).

Definition own_feeds (fleet : string) (f : FeedDb) : FeedDb :=
  MkFeedDb (fleet_feeds f fleet) (select (fun s => feed_of f fleet (fst s)) (fb_subscribers f))
    (select (fun s => feed_of f fleet (se_feed s)) (fb_seen f)).

(** The files of the fleet's attachments. *)
Definition own_paths (fleet : string) (m : MailDb) : list string :=
  map (fun kv => at_storage_path (snd kv)) (fleet_rows at_fleet fleet (md_attachments m)).
Definition own_disk (fleet : string) (w : AttachWorld) : gmap string (list Z) :=
  filter (fun kv => fst kv ∈ own_paths fleet (aw_mail w)) (aw_disk w).

(** What no read looks at is dropped: the counters, the floors, the set of fleets, and
    the tokens, credentials and nonces of the enrolment tables. *)
Definition own_world (fleet : string) (w : OpWorld) : OpWorld :=
  let t := restrict fleet (MkViewTables (ow_agents w) (ow_mail w) (ow_log w)) in
  MkOpWorld (MkAttachWorld (vt_agents t) (vt_mail t) (own_disk fleet (ow_store w))) (own_keys fleet (ow_keys w))
    (MkEnrollDb ∅ [] [] ∅) (select (fun p => po_fleet p ==? fleet) (ow_policies w)) (own_feeds fleet (ow_feeds w)) (vt_events t).

(** ** The reads *)

Definition is_read (c : OperatorCall) : bool :=
  match c with
  | GET_profile | GET_overview | GET_fleet_health | GET_attention | GET_topology | GET_activity | GET_agents
  | GET_approvals | GET_events | GET_keys | GET_agent_keys | GET_attachment _ | GET_conversation _ | GET_agent _ | GET_rooms
  | GET_feeds | GET_feed_items _ | GET_policies | GET_dead_letters | GET_dead_letter _ | GET_rate_limits _ => true
  | _ => false
  end.

(** *** Keys *)

Lemma Trusted_agree `{Crypto} db db' fleet roots exclude :
  (forall k, kd_keys db' !! (fleet, k) = kd_keys db !! (fleet, k)) ->
  (forall k p, recoveredVia db' fleet k p = recoveredVia db fleet k p) ->
  forall k, Trusted db fleet roots exclude k -> Trusted db' fleet roots exclude k.
Proof.
  intros Hk Hr k. induction 1 as [k row (?&?&?&?) Hin|k row p (?&?&?&?) Hp Hv|k row p (?&?&?&?) Hp _ IH];
    [eapply trusted_root|eapply trusted_recovered|eapply trusted_hop]; try done;
    (split_and!; [done|by rewrite Hk|done|done]) || by rewrite Hr.
Qed.

Section Keys.
Context `{Crypto} (db : KeyDb) (fleet : string).

Lemma own_key k : kd_keys (own_keys fleet db) !! (fleet, k) = kd_keys db !! (fleet, k).
Proof.
  cbn. destruct (kd_keys db !! (fleet, k)) as [row|] eqn:E; [by apply map_lookup_filter_Some|].
  apply map_lookup_filter_None. by left.
Qed.

Lemma own_recovered k p : recoveredVia (own_keys fleet db) fleet k p = recoveredVia db fleet k p.
Proof.
  apply eq_iff_eq_true. unfold recoveredVia. rewrite !exists_row_true. cbn [own_keys kd_grants].
  setoid_rewrite elem_of_select. setoid_rewrite andb_true_iff. setoid_rewrite andb_true_iff. setoid_rewrite andb_true_iff.
  naive_solver.
Qed.

Lemma own_may_endorse k : operatorKeyMayEndorse (own_keys fleet db) fleet k = operatorKeyMayEndorse db fleet k.
Proof.
  unfold operatorKeyMayEndorse. rewrite own_key. destruct (kd_keys db !! (fleet, k)) as [row|]; [|done].
  destruct (negb _); [done|]. apply eq_iff_eq_true. rewrite !endorserIsTrusted_iff. unfold TrustedIn.
  assert (agentPinnedRoots (own_keys fleet db) fleet = agentPinnedRoots db fleet) as ->.
  { unfold agentPinnedRoots, live_agent_endorsers. cbn [own_keys kd_agent_keys]. by rewrite fleet_rows_restrict. }
  destruct (agentPinnedRoots db fleet) as [P|]; [|done].
  split; apply Trusted_agree; intros; by rewrite ?own_key, ?own_recovered.
Qed.

Lemma own_listed : listOperatorKeys (own_keys fleet db) fleet = listOperatorKeys db fleet.
Proof. unfold listOperatorKeys. cbn [own_keys kd_keys]. rewrite map_filter_filter. do 3 f_equal. apply map_filter_ext. naive_solver. Qed.

Lemma own_agent_keys : getAgentIdentityKeys (own_keys fleet db) fleet = getAgentIdentityKeys db fleet.
Proof. unfold getAgentIdentityKeys. cbn [own_keys kd_agent_keys]. by rewrite fleet_rows_restrict. Qed.

Lemma own_grant now : getActiveOperatorRecoveryGrant (own_keys fleet db) now fleet = getActiveOperatorRecoveryGrant db now fleet.
Proof.
  unfold getActiveOperatorRecoveryGrant. cbn [own_keys kd_grants]. rewrite select_sub; [done|]. by intros g [Hg _]%andb_true_iff.
Qed.
End Keys.

(** *** Feeds, policies and files *)

Section FeedReads.
Context (d : AgentDb) (f : FeedDb) (fleet : string) (Hsubs : subscribers_ok d f) (Hids : NoDup (map fd_id (fb_feeds f))).

Lemma own_feed_of i : feed_of (own_feeds fleet f) fleet i = feed_of f fleet i.
Proof. rewrite !feed_of_feeds. f_equal. apply select_idem. Qed.

Lemma own_items i limit : getFeedItems (own_feeds fleet f) fleet i limit = getFeedItems f fleet i limit.
Proof.
  unfold getFeedItems. change (exists_row (fleet_feed fleet i) (fb_feeds f)) with (feed_of f fleet i).
  change (exists_row _ (fb_feeds (own_feeds fleet f))) with (feed_of (own_feeds fleet f) fleet i). rewrite own_feed_of.
  destruct (feed_of f fleet i) eqn:E; [|done]. cbn [own_feeds fb_seen]. rewrite select_sub; [done|].
  intros s Hs. bools. by rewrite Hs.
Qed.

Lemma own_listed_feeds (d' : AgentDb) :
  (forall i, fleet_lookup ag_fleet fleet (ad_agents d') i = fleet_lookup ag_fleet fleet (ad_agents d) i) ->
  listFeeds d' (own_feeds fleet f) fleet = listFeeds d f fleet.
Proof.
  intros Hd. unfold listFeeds. cbn [own_feeds fb_feeds]. unfold fleet_feeds. rewrite select_idem.
  apply map_ext_in. intros r Hr%list_elem_of_In. rewrite elem_of_reverse, elem_of_order_by in Hr.
  apply elem_of_select in Hr as [Hr Hf]. assert (Hof : feed_of f fleet (fd_id r) = true).
  { apply exists_row_true. exists r. split; [done|]. unfold fleet_feed. by rewrite bool_decide_true. }
  assert (Hsel : select (fun s => fst s ==? fd_id r) (fb_subscribers (own_feeds fleet f)) =
    select (fun s => fst s ==? fd_id r) (fb_subscribers f)).
  { cbn [own_feeds fb_subscribers]. apply select_sub. intros s Hs. bools. by rewrite Hs. }
  assert (Hag : forall i, i ∈ map snd (select (fun s => fst s ==? fd_id r) (fb_subscribers f)) -> ad_agents d' !! i = ad_agents d !! i).
  { intros i Hi. apply list_elem_of_In, in_map_iff in Hi as ([j a] & <- & Hs%list_elem_of_In). apply elem_of_select in Hs as [Hs Hj].
    bools. cbn [fst snd] in *. subst j. destruct (Hsubs _ _ Hs) as (r' & Hr' & Hid & b & Hb & Hbf). bools.
    assert (r' = r) as -> by by eapply (NoDup_map_inj fd_id). specialize (Hd a). unfold fleet_lookup in Hd.
    rewrite Hb in Hd |- *. rewrite (bool_decide_true (ag_fleet b = fleet)) in Hd by congruence.
    destruct (ad_agents d' !! a) as [c|] eqn:Hc; [|done]. by destruct (_ ==? fleet) in Hd. }
  f_equal; [f_equal|].
  - unfold subscriber_names, feed_subscribers. rewrite Hsel. f_equal.
    rewrite (filter_ext_in _ (fun i => match ad_agents d !! i with Some a => ag_revoked_at a ==? None | None => false end))
      by (intros i Hi%list_elem_of_In; by rewrite Hag).
    apply omap_ext_in. intros i Hi. rewrite Hag; [done|]. by apply list_elem_of_In, filter_In in Hi as [Hi%list_elem_of_In _].
  - cbn [own_feeds fb_seen]. unfold changes. f_equal. apply (select_sub (fun s => se_feed s ==? fd_id r)).
    intros s Hs. bools. by rewrite Hs.
Qed.
End FeedReads.

Lemma own_policies fleet ps : listPolicies (select (fun p => po_fleet p ==? fleet) ps) fleet = listPolicies ps fleet.
Proof. unfold listPolicies. by rewrite select_idem. Qed.

(** *** The board, what needs the operator, and the topology *)

Lemma own_event_rows {B} (q : EventRow -> B) (p : B -> bool) fleet events :
  (forall x, p (q x) = true -> ev_fleet (ex_event x) = fleet) ->
  select p (map q (fleet_events events fleet)) = select p (map q events).
Proof.
  intros Hp. unfold fleet_events, select. induction events as [|x l IH]; [done|]. cbn [List.filter map].
  case_bool_decide as Hf; cbn [List.filter map]; [by rewrite IH|].
  destruct (p (q x)) eqn:E; [by apply Hp in E|exact IH].
Qed.

Section Board.
Context (fleet : string) (d : AgentDb) (m : MailDb) (events : list EventRow).
Hypothesis Hok : reachable_ok (d, m, ex_event <$> events).

Let d' : AgentDb := vt_agents (restrict fleet (MkViewTables d m events)).
Let m' : MailDb := vt_mail (restrict fleet (MkViewTables d m events)).

(** The message of a delivery, when it is the fleet's. *)
Lemma own_message_of dl :
  message_of m' dl = match message_of m dl with
                     | Some r => if ms_fleet r ==? fleet then Some r else None
                     | None => None
                     end.
Proof.
  pose proof (ro_ids _ _ (ra_relay _ Hok)) as Hnd. cbn [fst snd] in Hnd.
  assert (Hnd' : NoDup (map ms_id (contents m'))).
  { unfold contents in *. rewrite map_map in *. eapply sublist_NoDup; [exact Hnd|]. apply sublist_map, filter_sublist. }
  assert (Hin : forall x, x ∈ md_messages m' <-> x ∈ md_messages m /\ ms_fleet x = fleet).
  { intros x. etrans; [apply elem_of_select|]. by rewrite bool_decide_eq_true. }
  change (message_by_id m' (dl_message dl) = match message_by_id m (dl_message dl) with
    | Some r => if ms_fleet r ==? fleet then Some r else None | None => None end).
  destruct (message_by_id m (dl_message dl)) as [r|] eqn:E.
  - apply select_one_Some in E as [Hr Hi]. bools. destruct (ms_fleet r ==? fleet) eqn:Hf; bools.
    + apply message_by_id_unique; [done|by apply Hin|done].
    + destruct (message_by_id m' (dl_message dl)) as [x|] eqn:E'; [|done]. exfalso.
      apply select_one_Some in E' as [[Hx Hxf]%Hin Hxi]. bools. apply Hf. rewrite <- Hxf. f_equal.
      assert (Hu : message_by_id m (dl_message dl) = Some x) by by apply message_by_id_unique.
      assert (Hu' : message_by_id m (dl_message dl) = Some r) by by apply message_by_id_unique. congruence.
  - destruct (message_by_id m' (dl_message dl)) as [x|] eqn:E'; [|done]. exfalso.
    apply select_one_Some in E' as [[Hx Hxf]%Hin Hxi]. by rewrite (select_one_None _ _ E x Hx) in Hxi.
Qed.

Lemma own_delivery dl : (exists r, message_of m dl = Some r /\ ms_fleet r = fleet) ->
  exists_row (fun x => ms_id x ==? dl_message dl) (fleet_messages m fleet) = true.
Proof.
  intros (r & [Hr Hi]%select_one_Some & Hf). apply exists_row_true. exists r. split; [|done].
  apply elem_of_select. split; [done|]. by apply bool_decide_eq_true.
Qed.

(** A selection of deliveries by their fleet's messages. *)
Lemma own_deliveries {B} (f f' : DeliveryRow -> option B) :
  (forall dl, (forall r, message_of m dl = Some r -> ms_fleet r <> fleet) -> f dl = None) ->
  (forall dl, dl ∈ md_deliveries m -> (exists r, message_of m dl = Some r /\ ms_fleet r = fleet) -> f' dl = f dl) ->
  omap f' (md_deliveries m') = omap f (md_deliveries m).
Proof.
  intros Hnone Hsome. change (md_deliveries m') with (fleet_deliveries m fleet). unfold fleet_deliveries, select.
  assert (Hall : forall dl, dl ∈ md_deliveries m -> dl ∈ md_deliveries m) by done. revert Hall.
  generalize (md_deliveries m) at 1 3 4. intros l. induction l as [|dl l IH]; intros Hall; [done|]. cbn [List.filter].
  specialize (IH (fun x Hx => Hall x (list_elem_of_further _ _ _ Hx))). cbn [omap list_omap].
  destruct (exists_row _ _) eqn:E.
  - cbn [omap list_omap]. assert (Hm : exists r, message_of m dl = Some r /\ ms_fleet r = fleet).
    { apply exists_row_true in E as (r & [Hr Hf]%elem_of_select & Hi). bools. exists r. split; [|done].
      apply (message_by_id_unique m _ r); [apply (ra_relay _ Hok)|done|done]. }
    rewrite Hsome by (first [done | apply Hall; by left]). destruct (f dl); by rewrite ?IH.
  - rewrite (Hnone dl); [done|]. intros r Hr Hf. rewrite own_delivery in E; [done|]. by exists r.
Qed.

Lemma select_omap {R} (p : R -> bool) l : select p l = omap (fun x => if p x then Some x else None) l.
Proof. induction l as [|x l IH]; [done|]. cbn. destruct (p x); [by f_equal|done]. Qed.

Lemma own_received a since : received_since m' fleet a since = received_since m fleet a since.
Proof.
  unfold received_since. rewrite !select_omap. f_equal. apply own_deliveries.
  - intros dl Hn. destruct (message_of m dl) as [r|]; [|done]. rewrite bool_decide_false; [done|]. by apply Hn.
  - intros dl _ (r & Hr & Hf). rewrite own_message_of, Hr, (bool_decide_true (ms_fleet r = fleet)) by done.
    by rewrite (bool_decide_true (ms_fleet r = fleet)) by done.
Qed.

Lemma own_sent a since : sent_since m' fleet a since = sent_since m fleet a since.
Proof.
  unfold sent_since. f_equal. change (md_messages m') with (fleet_messages m fleet). apply select_sub.
  intros r Hr. by apply andb_true_iff in Hr as [[Hr _]%andb_true_iff _].
Qed.

Lemma own_lookup i : fleet_lookup ag_fleet fleet (ad_agents d') i = fleet_lookup ag_fleet fleet (ad_agents d) i.
Proof. apply fleet_lookup_restrict. Qed.

Lemma own_agent i : same_fleet d fleet i -> ad_agents d' !! i = ad_agents d !! i.
Proof. intros (a & Ha & Hf). rewrite Ha. by apply map_lookup_filter_Some. Qed.

Lemma own_heartbeat i : same_fleet d fleet i -> latest_heartbeat d' i = latest_heartbeat d i.
Proof.
  intros (a & Ha & Hf). unfold latest_heartbeat. f_equal. change (ad_heartbeats d') with (fleet_heartbeats d fleet).
  apply select_sub. intros h Hh. bools. subst i. unfold fleet_lookup. by rewrite Ha, (bool_decide_true (ag_fleet a = fleet)).
Qed.

Lemma own_fleet_health now window : getFleetHealth d' m' now fleet window = getFleetHealth d m now fleet window.
Proof.
  unfold getFleetHealth, board_agents.
  change (fleet_rows ag_fleet fleet (ad_agents d')) with
    (fleet_rows ag_fleet fleet (filter (fun kv => ag_fleet (snd kv) = fleet) (ad_agents d))).
  rewrite fleet_rows_restrict. apply map_ext_in. intros [i a] Hx%list_elem_of_In. rewrite order_by_text_perm in Hx.
  apply list_elem_of_In, filter_In in Hx as [Hx%list_elem_of_In _]. apply elem_of_fleet_rows in Hx.
  unfold board_row. cbn [fst snd]. rewrite own_received, own_sent, own_heartbeat; [done|]. by exists a.
Qed.

Lemma own_attention now since :
  getAttentionItems d' m' (map (fun x => (ex_id x, ex_event x)) (fleet_events events fleet)) now fleet since =
  getAttentionItems d m (map (fun x => (ex_id x, ex_event x)) events) now fleet since.
Proof.
  unfold getAttentionItems. rewrite own_fleet_health. unfold dead_letter_page.
  change (select (fun r => dd_fleet r ==? fleet) (md_dead m')) with (fleet_dead_letters m' fleet).
  change (select (fun r => dd_fleet r ==? fleet) (md_dead m)) with (fleet_dead_letters m fleet).
  assert (fleet_dead_letters m' fleet = fleet_dead_letters m fleet) as -> by apply select_idem.
  unfold display_names. change (fleet_rows ag_fleet fleet (ad_agents d')) with
    (fleet_rows ag_fleet fleet (filter (fun kv => ag_fleet (snd kv) = fleet) (ad_agents d))). rewrite fleet_rows_restrict.
  rewrite own_event_rows; [done|]. intros x Hx. by apply andb_true_iff in Hx as [[Hx%bool_decide_eq_true _]%andb_true_iff _].
Qed.

Lemma own_topology now window : getTopology d' m' now fleet window = getTopology d m now fleet window.
Proof.
  unfold getTopology. rewrite own_fleet_health.
  assert (Hop : omap (hop_of d' m' fleet (now - window * 60000)) (md_deliveries m') =
                omap (hop_of d m fleet (now - window * 60000)) (md_deliveries m)); [|by rewrite Hop].
  pose proof (ra_relay _ Hok) as [_ Hids _ Hdl Hsend _]. cbn [fst snd] in *.
  apply own_deliveries.
  - intros dl Hn. unfold hop_of. destruct (message_of m dl) as [r|]; [|done]. cbn.
    rewrite (bool_decide_false (ms_fleet r = fleet)); [done|]. by apply Hn.
  - intros dl Hin (r & Hr & Hf). unfold hop_of. rewrite own_message_of, Hr, (bool_decide_true (ms_fleet r = fleet)) by done.
    cbn [mbind option_bind]. pose proof Hr as [Hrm Hri]%select_one_Some. bools.
    assert (Hs : same_fleet d fleet (ms_sender r)).
    { subst fleet. apply (Hsend (set_message_status MQueued r)). by apply elem_of_contents. }
    assert (Ht : same_fleet d fleet (dl_recipient dl)).
    { destruct (Hdl (dl_message dl) (dl_recipient dl)) as (x & Hx & Hxi & Hxf).
      { apply list_elem_of_In, in_map_iff. exists dl. by rewrite <- list_elem_of_In. }
      apply contents_elem in Hx as (y & Hy & ->). cbn in Hxi, Hxf. assert (y = r) as ->; [|by subst fleet].
      assert (Hu : message_by_id m (dl_message dl) = Some y) by by apply message_by_id_unique.
      assert (Hu' : message_by_id m (dl_message dl) = Some r) by by apply message_by_id_unique. congruence. }
    unfold live_agent. by rewrite (own_agent _ Hs), (own_agent _ Ht).
Qed.

Lemma own_operator i : operatorBelongsToFleet d i fleet = true -> ad_operators d' !! i = ad_operators d !! i.
Proof.
  unfold operatorBelongsToFleet. destruct (ad_operators d !! i) as [o|] eqn:E; [|done]. intros Hf. bools.
  by apply map_lookup_filter_Some.
Qed.
End Board.

(** *** Every read *)

Lemma own_attachment fleet (w : OpWorld) i :
  getAttachmentRoute (ow_store (own_world fleet w)) fleet i = getAttachmentRoute (ow_store w) fleet i.
Proof.
  unfold getAttachmentRoute. cbn [own_world ow_store aw_mail aw_disk restrict vt_mail md_attachments].
  rewrite !getAttachment_lookup, fleet_lookup_restrict.
  destruct (fleet_lookup at_fleet fleet _ i) as [a|] eqn:E; [|done]. f_equal. unfold own_disk.
  assert (Hin : at_storage_path a ∈ own_paths fleet (aw_mail (ow_store w))).
  { apply list_elem_of_In, in_map_iff. exists (i, a). split; [done|]. apply list_elem_of_In, elem_of_fleet_rows.
    unfold fleet_lookup in E. destruct (md_attachments _ !! i) as [b|]; [|done]. case_bool_decide; [|done]. by injection E as ->. }
  destruct (aw_disk (ow_store w) !! at_storage_path a) as [bytes|] eqn:Hd; [by apply map_lookup_filter_Some|].
  apply map_lookup_filter_None. by left.
Qed.

Section Reads.
Context `{Crypto} `{NodeCrypto} `{BufferApi} `{FeedUrlApi} `{ZodFormats} (cfg : Config) (icon nudge : string).
Context (net : string -> option string) (w : OpWorld) (now : Z) (fx : Fresh) (operator fleet : string).
Context (Hok : world_ok w) (Hop : operatorBelongsToFleet (ow_agents w) operator fleet = true).

Let ow : OpWorld := own_world fleet w.

Lemma own_view q page : answer_view q page w now fx operator fleet =
  (w, snd (answer_view q page ow now fx operator fleet)).
Proof.
  unfold answer_view. cbn [snd]. rewrite (view_restrict fleet _ _ _ (tk_reach _ _ Hok)). reflexivity.
Qed.

Lemma read_own c q body : is_read c = true ->
  operator_handler cfg icon nudge net c q body w now fx operator fleet =
  (w, snd (operator_handler cfg icon nudge net c q body ow now fx operator fleet)).
Proof.
  pose proof (tk_reach _ _ Hok) as Hr. cbn [feed_world fw_agents fw_mail] in Hr.
  assert (Hlist : forall kind f, list_route q kind f w now fx operator fleet =
    (w, snd (list_route q kind f ow now fx operator fleet))).
  { intros kind f. unfold list_route. destruct (list_options q kind) as [o page]. apply own_view. }
  intros Hc. destruct c; try discriminate Hc; cbn [operator_handler]; try apply own_view; try apply Hlist.
  - unfold getProfile, getOperatorProfile. cbn [snd].
    assert (ad_operators (ow_agents ow) !! operator = ad_operators (ow_agents w) !! operator) as ->
      by exact (own_operator fleet _ (ow_mail w) (ow_log w) operator Hop). done.
  - unfold getFleetHealthRoute. cbn [snd].
    assert (getFleetHealth (ow_agents ow) (ow_mail ow) now fleet 60 = getFleetHealth (ow_agents w) (ow_mail w) now fleet 60) as ->
      by exact (own_fleet_health fleet _ _ _ Hr now 60). done.
  - unfold getAttentionRoute. cbn [snd]. do 3 f_equal. symmetry. exact (own_attention fleet _ _ _ Hr now (7 * 86400000)).
  - unfold getTopologyRoute. cbn [snd]. do 3 f_equal. symmetry. exact (own_topology fleet _ _ _ Hr now _).
  - unfold getKeys. cbn [snd ow own_world ow_keys]. rewrite own_listed, own_grant.
    rewrite (map_ext (fun k => (k, operatorKeyMayEndorse (own_keys fleet (ow_keys w)) fleet (fst k)))
      (fun k => (k, operatorKeyMayEndorse (ow_keys w) fleet (fst k)))); [done|]. intros k. by rewrite own_may_endorse.
  - unfold getAgentKeys. cbn [snd ow own_world ow_keys]. by rewrite own_agent_keys.
  - unfold getAttachmentFile, ow. cbn [snd]. by rewrite own_attachment.
  - unfold getFeeds. cbn [snd ow own_world ow_feeds].
    rewrite (own_listed_feeds (ow_agents w) _ fleet (tk_subscribers _ _ Hok) (tk_feed_ids _ _ Hok)); [done|].
    apply (own_lookup fleet _ (ow_mail w) (ow_log w)).
  - unfold getFeedItemsRoute. cbn [snd ow own_world ow_feeds]. by rewrite own_items.
  - unfold getPolicies. cbn [snd ow own_world ow_policies]. by rewrite own_policies.
Qed.
End Reads.

(** A session's read, through the route. *)
Lemma route_own `{Crypto} `{NodeCrypto} `{BufferApi} `{FeedUrlApi} `{ZodFormats} cfg ac icon nudge net w now fx r c q body operator fleet :
  world_ok w -> is_read c = true -> requireOperatorAuth cfg ac (ow_agents w) now r = Ok (operator, fleet) ->
  operatorRoute cfg ac icon nudge net w now fx r c q body =
  (w, snd (operatorRoute cfg ac icon nudge net (own_world fleet w) now fx r c q body)).
Proof.
  intros Hok Hc Hauth. pose proof (session_operator _ _ _ _ _ _ _ Hauth) as Hop.
  assert (Hauth' : requireOperatorAuth cfg ac (ow_agents (own_world fleet w)) now r = Ok (operator, fleet)).
  { revert Hauth. unfold requireOperatorAuth. destruct (evaluateRequestTailnetGate _ _); [done|].
    destruct (bearer _); [|done]. destruct (verifyOperatorSession _ _ _ _) as [[o f]|]; [|done].
    destruct (operatorBelongsToFleet (ow_agents w) o f) eqn:E; [|done]. intros [= -> ->].
    pose proof (own_operator fleet _ (ow_mail w) (ow_log w) operator E) as Eo. unfold operatorBelongsToFleet in *.
    assert (ad_operators (ow_agents (own_world fleet w)) !! operator = ad_operators (ow_agents w) !! operator) as -> by exact Eo.
    by rewrite E. }
  unfold operatorRoute. rewrite Hauth, Hauth'. by apply read_own.
Qed.

(** ** What a request leaves

    Beside the rows of [untouched]: the heartbeats, the floors and the files. *)

(** The heartbeats and the floors are as they were, and so is every file but the one
    of an upload, whose id is new. *)
Record still (new_id : string) (w w' : OpWorld) : Prop := {
  st_heartbeats : ad_heartbeats (ow_agents w') = ad_heartbeats (ow_agents w);
  st_floors : md_floors (ow_mail w') = md_floors (ow_mail w);
  st_disk : forall p, (forall f, p <> attachmentStoragePath f new_id) -> aw_disk (ow_store w') !! p = aw_disk (ow_store w) !! p
}.

Lemma still_refl i w : still i w w.
Proof. done. Qed.
#[local] Hint Resolve still_refl : core.







Section OperatorStill.
Context `{Crypto} `{NodeCrypto} `{BufferApi} `{FeedUrlApi} `{ZodFormats} (cfg : Config) (icon nudge : string).
Context (net : string -> option string) (w : OpWorld) (now : Z) (fx : Fresh) (operator fleet : string).



(** One operation on agents, or on the mail, or on the feeds. *)
Lemma agents_still d es : ad_heartbeats d = ad_heartbeats (ow_agents w) -> still (fr_id fx) w (logged fx es (with_ow_agents d w)).
Proof. by split. Qed.
Lemma mail_still m es : md_floors m = md_floors (ow_mail w) -> still (fr_id fx) w (logged fx es (with_ow_mail m w)).
Proof. by split. Qed.

End OperatorStill.

(** *** Agents and newcomers *)


Section AgentFloors.
Context `{Crypto} `{NodeCrypto} `{BufferApi} `{ZodFormats} (cfg : Config) (exts : list ExtensionHook) (beat : Z).
Context (w : OpWorld) (now : Z) (fx : Fresh) (agent : AgentIdentity).




End AgentFloors.








Section Serve.
Context `{Crypto} `{NodeCrypto} `{BufferApi} `{FeedUrlApi} `{ZodFormats} (cfg : Config) (ac : AccessConfig).
Context (icon nudge : string) (net : string -> option string) (exts : list ExtensionHook) (baseUrl : string) (beat poll_every : Z).
Context (w : OpWorld) (now : Z) (fx : Fresh) (g : string) (Hok : world_ok w) (Hf : agent_fresh fx w) (Hpk : primary_keys w).





End Serve.

Section Requests.
Context `{Crypto} `{NodeCrypto} `{BufferApi} `{FeedUrlApi} `{ZodFormats} (cfg : Config) (ac : AccessConfig).
Context (icon nudge : string) (net : string -> option string) (exts : list ExtensionHook) (baseUrl : string) (beat poll_every : Z).


End Requests.






(** ** The theorems *)


(** C6. What an operator is told is confined to its fleet.  Over the whole life of a
    relay, feeds, polls and the sweep job included, and for every read of the
    operator's routes (its profile, the overview, fleet health, attention, topology,
    activity, agents, approvals, events, operator and agent keys, attachments,
    conversations, rooms, feeds and their items, policies, dead letters, rate limits),
    with whatever search, filter, order, cursor or id: the read writes nothing, and its
    answer is the one computed from a state that holds nothing but the rows and files
    of the session's fleet. *)
Theorem operator_views_confined `{Crypto} `{NodeCrypto} `{BufferApi} `{FeedUrlApi} `{ZodFormats} cfg ac icon nudge net exts
    baseUrl beat poll_every w0 w now fx r c q body operator fleet :
  world_ok w0 -> relay_life cfg ac icon nudge net exts baseUrl beat poll_every w0 w -> is_read c = true ->
  requireOperatorAuth cfg ac (ow_agents w) now r = Ok (operator, fleet) ->
  operatorRoute cfg ac icon nudge net w now fx r c q body =
  (w, snd (operatorRoute cfg ac icon nudge net (own_world fleet w) now fx r c q body)).
Proof.
  intros Hok0 Hrun. apply route_own. by eapply relay_life_ok.
Qed.

(** ** On a relay with two fleets *)

Lemma demo_relay_life : @relay_life toy_crypto plain_node toy_buffers simple_feed_urls no_formats default_config demo_access
  "" "" (fun _ => None) [] "https://relay" 30 5 demo_op_world demo_life.
Proof.
  exact (life_request _ _ _ _ _ _ _ _ _ _ _ 1000000 demo_fresh demo_room_request (life_start _ _ _ _ _ _ _ _ _ _) demo_agent_fresh).
Qed.



Lemma operator_views_confined_witness :
  (exists room, snd (demo_route demo_life 1000000 demo_fresh demo_session GET_rooms demo_query None) = ok (AView (ARooms [room]) None)) /\
  demo_route demo_life 1000000 demo_fresh demo_session GET_topology demo_query None =
  (demo_life, snd (demo_route (own_world "f" demo_life) 1000000 demo_fresh demo_session GET_topology demo_query None)).
Proof.
  split; [eexists; vm_compute; reflexivity|].
  apply (@operator_views_confined toy_crypto plain_node toy_buffers simple_feed_urls no_formats default_config demo_access
    "" "" (fun _ => None) [] "https://relay" 30 5 demo_op_world demo_life 1000000 demo_fresh demo_session GET_topology demo_query None
    "op1" "f" demo_world_ok demo_relay_life).
  - reflexivity.
  - vm_compute. reflexivity.
Defined.
