(* ===== verification/A2A.v ===== *)
(** * The A2A transport

    [packages/relay/src/a2a]: the task store ([task-store.ts], class
    [A2ATaskStore]), the JSON-RPC methods ([methods.ts]), the envelope
    ([jsonrpc.ts]) and the two routes ([routes.ts]).  A task belongs to the agent
    that created it and the agent it was addressed to.  The Server-Sent Events of
    [streaming.ts] are the initial event of a stream: nothing in the relay
    publishes another. *)

From S2P Require Import Prelude Json IsoTime JsValues Identity Events Config OperatorKeys Agents Enrollment Messages Rooms Delivery Policies AgentRoutes.
Import Ascii String.
Open Scope string_scope.
Open Scope Z_scope.

(** ** Data *)

Inductive TaskState :=
  | Submitted | Working | InputRequired | AuthRequired | Completed | Failed | Canceled | Rejected.

#[export] Instance TaskState_eq_dec : EqDecision TaskState.
Proof. solve_decision. Defined.

Definition state_name (s : TaskState) : string :=
  match s with
  | Submitted => "submitted" | Working => "working" | InputRequired => "input_required"
  | AuthRequired => "auth_required" | Completed => "completed" | Failed => "failed"
  | Canceled => "canceled" | Rejected => "rejected"
  end.

Definition TERMINAL_STATES : list TaskState := [Completed; Failed; Canceled; Rejected].
Definition terminal (s : TaskState) : bool := bool_decide (s ∈ TERMINAL_STATES).

(** [kind] is always ["message"]. *)
Record A2AMessage := MkA2AMessage {
  am_messageId : string;
  am_role : string;
  am_parts : list json;
  am_taskId : option string;
  am_contextId : option string;
  am_metadata : option json
}.

(** A row of [a2a_tasks]. *)
Record TaskRow := MkTask {
  tr_id : string;
  tr_fleet : string;
  tr_agent : string;
  tr_sender : option string;
  tr_context : string;
  tr_state : TaskState;
  tr_history : list A2AMessage;
  tr_artifacts : list json;
  tr_metadata : option json;
  tr_created_at : Z;
  tr_updated_at : Z
}.

(** [a2a_tasks] in rowid order and [a2a_task_messages]. *)
Record A2ADb := MkA2ADb { a2_tasks : list TaskRow; a2_links : list (string * string) }.

Definition with_tasks (ts : list TaskRow) (a : A2ADb) : A2ADb := MkA2ADb ts (a2_links a).

(** What a caller is shown of a task. *)
Record A2ATask := MkA2ATask {
  at_id : string;
  at_contextId : string;
  at_state : TaskState;
  at_timestamp : Z;
  at_history : list A2AMessage;
  at_artifacts : list json;
  at_metadata : option json
}.

Definition rowToTask (r : TaskRow) : A2ATask :=
  MkA2ATask (tr_id r) (tr_context r) (tr_state r) (tr_updated_at r) (tr_history r) (tr_artifacts r) (tr_metadata r).

(** ** The store *)

Definition is_task (taskId : string) (r : TaskRow) : bool := tr_id r ==? taskId.

(** [agent_id = ? OR sender_agent_id = ?]; a NULL sender equals nobody. *)
Definition is_participant (agent : string) (r : TaskRow) : bool :=
  (tr_agent r ==? agent) || (tr_sender r ==? Some agent).

Definition createTask (a : A2ADb) (now : Z) (taskId ctxId fleet agent sender : string)
    (contextId : option string) (initialMessage : A2AMessage) : A2ADb * A2ATask :=
  let row := MkTask taskId fleet agent (Some sender) (default ctxId contextId) Submitted [initialMessage] [] None
               now now in
  (with_tasks (a2_tasks a ++ [row]) a, rowToTask row).

Definition getTask (a : A2ADb) (taskId : string) : option A2ATask :=
  rowToTask <$> select_one (is_task taskId) (a2_tasks a).

Definition getTaskForParticipant (a : A2ADb) (taskId fleet agent : string) : option A2ATask :=
  rowToTask <$> select_one (fun r => is_task taskId r && (tr_fleet r ==? fleet) && is_participant agent r) (a2_tasks a).

(** The fleet, the recipient and the sender. *)
Definition taskParticipants (a : A2ADb) (taskId : string) : option (string * string * option string) :=
  (fun r => (tr_fleet r, tr_agent r, tr_sender r)) <$> select_one (is_task taskId) (a2_tasks a).

Record TaskFilters := MkFilters {
  tf_fleet : string;
  tf_participant : string;
  tf_counterparty : option string;
  tf_state : option string;
  tf_limit : Z;
  tf_offset : Z
}.

Definition matches_filters (f : TaskFilters) (r : TaskRow) : bool :=
  (tr_fleet r ==? tf_fleet f) && is_participant (tf_participant f) r &&
  match truthy (tf_counterparty f) with Some c => is_participant c r | None => true end &&
  match truthy (tf_state f) with Some s => state_name (tr_state r) ==? s | None => true end.

Definition listTasks (a : A2ADb) (f : TaskFilters) : list A2ATask * nat :=
  let rows := select (matches_filters f) (a2_tasks a) in
  (map rowToTask (take (Z.to_nat (tf_limit f)) (drop (Z.to_nat (tf_offset f)) (reverse (order_by tr_updated_at rows)))),
   length rows).

(** UPDATE a2a_tasks SET ... WHERE id = ? *)
Definition set_task (f : TaskRow -> TaskRow) (taskId : string) (a : A2ADb) : A2ADb :=
  with_tasks (update_where (is_task taskId) f (a2_tasks a)) a.

Definition set_state (s : TaskState) (history : list A2AMessage) (now : Z) (r : TaskRow) : TaskRow :=
  MkTask (tr_id r) (tr_fleet r) (tr_agent r) (tr_sender r) (tr_context r) s history (tr_artifacts r) (tr_metadata r)
    (tr_created_at r) now.
Definition set_artifacts (l : list json) (now : Z) (r : TaskRow) : TaskRow :=
  MkTask (tr_id r) (tr_fleet r) (tr_agent r) (tr_sender r) (tr_context r) (tr_state r) (tr_history r) l (tr_metadata r)
    (tr_created_at r) now.
Definition set_history (l : list A2AMessage) (now : Z) (r : TaskRow) : TaskRow :=
  MkTask (tr_id r) (tr_fleet r) (tr_agent r) (tr_sender r) (tr_context r) (tr_state r) l (tr_artifacts r) (tr_metadata r)
    (tr_created_at r) now.

(** The throw is for a terminal state, which it names. *)
Definition updateStatus (a : A2ADb) (now : Z) (taskId : string) (s : TaskState) (message : option A2AMessage)
    : result TaskState (A2ADb * option (TaskState * Z)) :=
  match getTask a taskId with
  | None => Ok (a, None)
  | Some task =>
      throw_if terminal (at_state task) with at_state task ;;
      let newHistory := (at_history task ++ match message with Some m => [m] | None => [] end)%list in
      Ok (set_task (set_state s newHistory now) taskId a, Some (s, now))
  end.

Definition appendArtifact (a : A2ADb) (now : Z) (taskId : string) (artifact : json) : A2ADb * bool :=
  match getTask a taskId with
  | None => (a, false)
  | Some task => (set_task (set_artifacts (at_artifacts task ++ [artifact]) now) taskId a, true)
  end.

Definition appendMessage (a : A2ADb) (now : Z) (taskId : string) (message : A2AMessage) : A2ADb * bool :=
  match getTask a taskId with
  | None => (a, false)
  | Some task => (set_task (set_history (at_history task ++ [message]) now) taskId a, true)
  end.

(** INSERT OR IGNORE *)
Definition linkMessage (a : A2ADb) (taskId messageId : string) : A2ADb :=
  if bool_decide ((taskId, messageId) ∈ a2_links a) then a
  else MkA2ADb (a2_tasks a) (a2_links a ++ [(taskId, messageId)]).

Definition cancelTask (a : A2ADb) (now : Z) (taskId : string) : result TaskState (A2ADb * option A2ATask) :=
  match getTask a taskId with
  | None => Ok (a, None)
  | Some task =>
      if terminal (at_state task) then Ok (a, Some task)
      else let? (a', _) := updateStatus a now taskId Canceled None in Ok (a', getTask a' taskId)
  end.

(** ** JSON-RPC *)

Inductive RpcFault :=
  | InvalidRequest
  | MethodNotFound (method : string)
  | InvalidParams
  | TaskNotFound (taskId : string)
  | TaskNotCancelable (taskId : string)
  | Denied (x : MessageGateDenial)
  | InternalError (e : option SendErr).

(** [gateDenialToRpcError] and the constants of [jsonrpc.ts]. *)
Definition fault_rpc_code (e : RpcFault) : Z :=
  match e with
  | InvalidRequest => -32600
  | MethodNotFound _ => -32601
  | InvalidParams => -32602
  | TaskNotFound _ => -32001
  | TaskNotCancelable _ => -32002
  | Denied (SenderStatus _) => -32050
  | Denied (RateLimited _ _ _) => -32051
  | Denied (PolicyDenied _) => -32052
  | Denied (ExtensionDenied _ _) => -32053
  | InternalError _ => -32603
  end.

Record JsonRpcRequest := MkRpc { rpc_id : json; rpc_method : string; rpc_params : option json }.

Definition is_object (v : option json) : bool := match v with Some (JObj _) => true | _ => false end.

Definition parseRequest (raw : json) : result RpcFault JsonRpcRequest :=
  throw_if negb (is_object (Some raw)) with InvalidRequest ;;
  throw_if negb (is_str (prop raw "jsonrpc") "2.0") with InvalidRequest ;;
  fetch method := string_field raw "method" orelse InvalidRequest ;;
  Ok (MkRpc (default JNull (prop raw "id")) method (prop raw "params")).

(** ** The methods *)

Definition assertObject (params : option json) : result RpcFault json :=
  match params with Some (JObj kvs) => Ok (JObj kvs) | _ => Throw InvalidParams end.

Definition requireString (obj : json) (key : string) : result RpcFault string :=
  fetch s := truthy (string_field obj key) orelse InvalidParams ;; Ok s.

(** [fresh] is the id of a message that has none. *)
Definition normalizeInboundMessage (fresh : string) (raw : option json) : result RpcFault A2AMessage :=
  let? obj := assertObject raw in
  match prop obj "parts" with
  | Some (JArr (p :: ps)) =>
      Ok (MkA2AMessage (default fresh (string_field obj "messageId"))
            (if is_str (prop obj "role") "agent" then "agent" else "user") (p :: ps)
            (string_field obj "taskId") (string_field obj "contextId")
            (match prop obj "metadata" with
             | Some (JObj kvs) => Some (JObj kvs)
             | Some (JArr l) => Some (JArr l)
             | _ => None
             end))
  | _ => Throw InvalidParams
  end.

(** [message.parts.find(...)] reads [kind] of the parts up to the first text: a
    null part throws. *)
Fixpoint parts_readable (ps : list json) : bool :=
  match ps with
  | [] => true
  | JNull :: _ => false
  | p :: ps => if is_str (prop p "kind") "text" && (match prop p "text" with Some (JStr _) => true | _ => false end)
               then true else parts_readable ps
  end.

(** The body; a key whose value is [undefined] is not part of its JSON. *)
Definition messageToEkhoBody (m : A2AMessage) : result RpcFault json :=
  throw_if negb (parts_readable (am_parts m)) with InternalError None ;;
  let opt k (v : option string) := match v with Some s => [(k, JStr s)] | None => [] end in
  Ok (JObj ([("a2a", JBool true); ("messageId", JStr (am_messageId m)); ("role", JStr (am_role m));
             ("parts", JArr (am_parts m))] ++ opt "taskId" (am_taskId m) ++ opt "contextId" (am_contextId m) ++
            [("metadata", default JNull (am_metadata m))])).

(** [A2AMethodContext]: the authenticated caller, and the agent of a per-agent
    route. *)
Record A2AMethodContext := MkA2ACtx { mc_agent : AgentIdentity; mc_target : option string }.

(** The relay's tables and the transport's. *)
Record A2AWorld := MkA2AWorld { xw_world : World; xw_a2a : A2ADb }.

(** What a request draws: ids of the control of a rate violation, of the message
    and its deliveries, of a task, a context and a nameless message. *)
Record A2AFresh := MkA2AFresh {
  fx_ctl : string;
  fx_message : string;
  fx_delivery : nat -> string;
  fx_task : string;
  fx_context : string;
  fx_a2a_message : string
}.

Definition requireOwnTask (a : A2ADb) (ctx : A2AMethodContext) (taskId : string) : result RpcFault A2ATask :=
  fetch task := getTaskForParticipant a taskId (id_fleet (mc_agent ctx)) (id_agent (mc_agent ctx))
    orelse TaskNotFound taskId ;; Ok task.

(** [ctx.targetAgentId ?? p.recipientAgentId ?? message.metadata?.recipientAgentId] *)
Definition a2a_recipient (ctx : A2AMethodContext) (p : json) (m : A2AMessage) : option string :=
  match mc_target ctx with
  | Some t => Some t
  | None => match string_field p "recipientAgentId" with
            | Some r => Some r
            | None => match am_metadata m with Some md => string_field md "recipientAgentId" | None => None end
            end
  end.

(** The task a message continues, or a new one: the store after, and the task. *)
Definition task_for (a : A2ADb) (now : Z) (fx : A2AFresh) (agent : AgentIdentity) (recipientId : string)
    (m : A2AMessage) : result RpcFault (A2ADb * A2ATask) :=
  match truthy (am_taskId m) with
  | Some taskId =>
      match taskParticipants a taskId with
      | Some (fleet, recipient, sender) =>
          throw_if negb ((fleet ==? id_fleet agent) && ((recipient ==? id_agent agent) || (sender ==? Some (id_agent agent))))
            with TaskNotFound taskId ;;
          throw_if negb (recipientId ==? recipient) && negb (sender ==? Some recipientId) with InvalidParams ;;
          fetch existing := getTask a taskId orelse InternalError None ;;
          throw_if terminal (at_state existing) with TaskNotCancelable taskId ;;
          let a' := fst (appendMessage a now taskId m) in
          fetch task := getTask a' taskId orelse InternalError None ;;
          Ok (a', task)
      | None => Throw (TaskNotFound taskId)
      end
  | None => Ok (createTask a now (fx_task fx) (fx_context fx) (id_fleet agent) recipientId (id_agent agent)
                  (am_contextId m) m)
  end.

(** The message a task's turn becomes. *)
Definition a2a_input (agent : AgentIdentity) (recipientId : string) (body : json) (task : A2ATask) : MessageInput :=
  MkMessageInput (id_fleet agent) (id_agent agent) "agent" (Some recipientId) "a2a.message" "normal" 3600 false body
    (Some (JObj [("a2a_task_id", JStr (at_id task)); ("a2a_context_id", JStr (at_contextId task))]))
    (at_contextId task) (at_id task).

(** What [messageSend] does before the gate: the message, its recipient and the body
    it becomes. *)
Definition inbound (d : AgentDb) (fx : A2AFresh) (ctx : A2AMethodContext) (params : option json)
    : result RpcFault (A2AMessage * string * json) :=
  let? p := assertObject params in
  fetch raw := (match prop p "message" with Some v => if js_truthy v then Some v else None | None => None end)
    orelse InvalidParams ;;
  let? m := normalizeInboundMessage (fx_a2a_message fx) (Some raw) in
  fetch recipientId := truthy (a2a_recipient ctx p m) orelse InvalidParams ;;
  fetch _ := findFleetAgent d (id_fleet (mc_agent ctx)) recipientId orelse InvalidParams ;;
  let? body := messageToEkhoBody m in
  Ok (m, recipientId, body).

Section Methods.
Context `{NodeCrypto} (cfg : Config) (exts : list ExtensionHook).

Definition messageSend (w : A2AWorld) (now : Z) (fx : A2AFresh) (ctx : A2AMethodContext) (params : option json)
    : A2AWorld * result RpcFault A2ATask * list Event :=
  let agent := mc_agent ctx in
  match inbound (w_agents (xw_world w)) fx ctx params with
  | Throw e => (w, Throw e, [])
  | Ok (m, recipientId, body) =>
      let '(d1, denial, es1) := evaluateMessageGate cfg exts (w_policies (xw_world w)) (w_agents (xw_world w)) now
                                  (fx_ctl fx) agent (Some recipientId) "a2a.message" "normal" body (am_metadata m) in
      let w1 := with_w_agents d1 (xw_world w) in
      match denial with
      | Some x => (MkA2AWorld w1 (xw_a2a w), Throw (Denied x), es1)
      | None =>
          match task_for (xw_a2a w) now fx agent recipientId m with
          | Throw e => (MkA2AWorld w1 (xw_a2a w), Throw e, es1)
          | Ok (a1, task) =>
              match createMessage cfg (w_agents w1) (w_mail w1) now (fx_message fx) (fx_delivery fx)
                      (a2a_input agent recipientId body task) with
              | Throw e => (MkA2AWorld w1 a1, Throw (InternalError (Some e)), es1)
              | Ok (mail, es2) =>
                  (MkA2AWorld (with_w_mail mail w1) (linkMessage a1 (at_id task) (fx_message fx)), Ok task, (es1 ++ es2)%list)
              end
          end
      end
  end.

Definition strip_history (t : A2ATask) : A2ATask :=
  MkA2ATask (at_id t) (at_contextId t) (at_state t) (at_timestamp t) [] (at_artifacts t) (at_metadata t).

Definition tasksGet (a : A2ADb) (ctx : A2AMethodContext) (params : option json) : result RpcFault A2ATask :=
  let? p := assertObject params in
  let? taskId := requireString p "id" in
  let? task := requireOwnTask a ctx taskId in
  Ok (match prop p "historyLength" with Some (JNum 0) => strip_history task | _ => task end).

Definition list_filters (ctx : A2AMethodContext) (params : option json) : TaskFilters :=
  let p := match params with Some (JObj kvs) => JObj kvs | _ => JObj [] end in
  MkFilters (id_fleet (mc_agent ctx)) (id_agent (mc_agent ctx)) (mc_target ctx) (string_field p "state")
    (match prop p "limit" with Some (JNum n) => Z.min (Z.max 1 n) 200 | _ => 50 end)
    (match prop p "offset" with Some (JNum n) => Z.max 0 n | _ => 0 end).

Definition tasksList (a : A2ADb) (ctx : A2AMethodContext) (params : option json) : list A2ATask * nat :=
  listTasks a (list_filters ctx params).

Definition tasksCancel (a : A2ADb) (now : Z) (ctx : A2AMethodContext) (params : option json)
    : A2ADb * result RpcFault A2ATask :=
  match (let? p := assertObject params in
         let? taskId := requireString p "id" in
         let? existing := requireOwnTask a ctx taskId in
         throw_if terminal (at_state existing) with TaskNotCancelable taskId ;;
         Ok taskId) with
  | Throw e => (a, Throw e)
  | Ok taskId =>
      match cancelTask a now taskId with
      | Ok (a', Some canceled) => (a', Ok canceled)
      | Ok (a', None) => (a', Throw (TaskNotFound taskId))
      | Throw _ => (a, Throw (InternalError None))
      end
  end.

(** ** The endpoints *)

(** A result, a list, or the first event of a stream. *)
Inductive RpcResult :=
  | RTask (t : A2ATask)
  | RList (tasks : list A2ATask) (total : nat)
  | RStream (t : A2ATask).

Definition map_ok {E A B} (f : A -> B) (r : result E A) : result E B :=
  match r with Ok a => Ok (f a) | Throw e => Throw e end.

Definition handleJsonRpc (w : A2AWorld) (now : Z) (fx : A2AFresh) (ctx : A2AMethodContext) (raw : json)
    : A2AWorld * (json * result RpcFault RpcResult) * list Event :=
  match parseRequest raw with
  | Throw e => (w, (JNull, Throw e), [])
  | Ok rpc =>
      let id := rpc_id rpc in
      let send wrap := let '(w', r, es) := messageSend w now fx ctx (rpc_params rpc) in (w', (id, map_ok wrap r), es) in
      let get wrap := (w, (id, map_ok wrap (tasksGet (xw_a2a w) ctx (rpc_params rpc))), []) in
      if rpc_method rpc ==? "message/send" then send RTask
      else if rpc_method rpc ==? "tasks/get" then get RTask
      else if rpc_method rpc ==? "tasks/list" then
        let '(ts, n) := tasksList (xw_a2a w) ctx (rpc_params rpc) in (w, (id, Ok (RList ts n)), [])
      else if rpc_method rpc ==? "tasks/cancel" then
        let '(a', r) := tasksCancel (xw_a2a w) now ctx (rpc_params rpc) in
        (MkA2AWorld (xw_world w) a', (id, map_ok RTask r), [])
      else if rpc_method rpc ==? "message/stream" then send RStream
      else if rpc_method rpc ==? "tasks/resubscribe" then get RStream
      else (w, (id, Throw (MethodNotFound (rpc_method rpc))), [])
  end.

(** POST /a2a, and POST /agents/:agentId/a2a, whose unknown agent is a 404
    ([None]); the request is authenticated, its body parsed. *)
Definition postA2A (w : A2AWorld) (now : Z) (fx : A2AFresh) (agent : AgentIdentity) (route : option string) (raw : json)
    : A2AWorld * option (json * result RpcFault RpcResult) * list Event :=
  match route with
  | None => let '(w', r, es) := handleJsonRpc w now fx (MkA2ACtx agent None) raw in (w', Some r, es)
  | Some agentId =>
      match findFleetAgent (w_agents (xw_world w)) (id_fleet agent) agentId with
      | None => (w, None, [])
      | Some _ => let '(w', r, es) := handleJsonRpc w now fx (MkA2ACtx agent (Some agentId)) raw in (w', Some r, es)
      end
  end.
End Methods.
