(* ===== verification/A2AProperties.v ===== *)
(** * Properties of the A2A transport

    A task belongs to its two participants: nobody else learns of it, nobody else
    changes it; and a message sent this way clears the gate of the native route. *)

From S2P Require Import Prelude Json IsoTime JsValues Identity Events OperatorKeys Config Agents Enrollment Messages Rooms Delivery DeliverySafety EnrollmentProperties RelayProperties Policies AgentRoutes A2A.
Import Ascii String.
Open Scope string_scope.
Open Scope Z_scope.

(** ** What an agent sees of the store *)

Definition sees (agent : AgentIdentity) (r : TaskRow) : bool :=
  (tr_fleet r ==? id_fleet agent) && is_participant (id_agent agent) r.

Definition visible (agent : AgentIdentity) (a : A2ADb) : list TaskRow := select (sees agent) (a2_tasks a).

Definition task_ids (a : A2ADb) : list string := map tr_id (a2_tasks a).

(** Changes that leave a task its identity and its participants. *)
Definition keeps_owner (f : TaskRow -> TaskRow) : Prop :=
  forall r, tr_id (f r) = tr_id r /\ tr_fleet (f r) = tr_fleet r /\ tr_agent (f r) = tr_agent r /\ tr_sender (f r) = tr_sender r.

Lemma keeps_owner_state s h now : keeps_owner (set_state s h now).
Proof. by intros r. Qed.
Lemma keeps_owner_history h now : keeps_owner (set_history h now).
Proof. by intros r. Qed.

Lemma sees_keeps agent f r : keeps_owner f -> sees agent (f r) = sees agent r.
Proof. intros Hf. destruct (Hf r) as (_ & H1 & H2 & H3). unfold sees, is_participant. by rewrite H1, H2, H3. Qed.

Lemma own_task_visible a agent taskId :
  getTaskForParticipant a taskId (id_fleet agent) (id_agent agent) =
  rowToTask <$> select_one (is_task taskId) (visible agent a).
Proof.
  unfold getTaskForParticipant, select_one, visible, select. rewrite <- find_filter. f_equal. apply find_ext.
  intros r. unfold sees. by rewrite andb_assoc.
Qed.

(** Ids are unique: the first row of an id is its row. *)
Lemma select_task a taskId r :
  NoDup (task_ids a) -> select_one (is_task taskId) (a2_tasks a) = Some r <-> r ∈ a2_tasks a /\ tr_id r = taskId.
Proof.
  intros Hnd. split.
  - intros [Hin Hid]%select_one_Some. unfold is_task in Hid. by bools.
  - intros [Hin Hid]. destruct (select_one (is_task taskId) (a2_tasks a)) as [r'|] eqn:E.
    + apply select_one_Some in E as [Hin' Hid']. unfold is_task in Hid'. bools. f_equal.
      apply (NoDup_map_inj tr_id (a2_tasks a)); [done|done|done|congruence].
    + pose proof (select_one_None _ _ E r Hin) as Hno. unfold is_task in Hno. by bools.
Qed.

Lemma select_visible a agent taskId r :
  NoDup (task_ids a) ->
  select_one (is_task taskId) (visible agent a) = Some r <->
  select_one (is_task taskId) (a2_tasks a) = Some r /\ sees agent r = true.
Proof.
  intros Hnd. unfold visible, select, select_one. rewrite <- find_filter. split.
  - intros Hf. apply find_some in Hf as [Hin Hp]. apply andb_true_iff in Hp as [Hid Hs]. split; [|done].
    apply select_task; [done|]. unfold is_task in Hid. bools. by rewrite list_elem_of_In.
  - intros [Hf Hs]. apply (select_task a taskId r Hnd) in Hf as [Hin Hid].
    destruct (List.find _ _) as [r'|] eqn:E.
    + apply find_some in E as [Hin' Hp]. apply andb_true_iff in Hp as [Hid' _]. unfold is_task in Hid'. bools. f_equal.
      apply list_elem_of_In in Hin'. apply (NoDup_map_inj tr_id (a2_tasks a)); [done|done|done|congruence].
    + exfalso. pose proof (find_none _ _ E r) as Hno. cbv beta in Hno. rewrite <- list_elem_of_In in Hno. specialize (Hno Hin).
      unfold is_task in Hno. rewrite bool_decide_eq_true_2, Hs in Hno by done. done.
Qed.

Lemma visible_set_task agent a f taskId :
  keeps_owner f -> visible agent (set_task f taskId a) = update_where (is_task taskId) f (visible agent a).
Proof.
  intros Hf. unfold visible, set_task, select, update_where. simpl. induction (a2_tasks a) as [|r l IH]; [done|]. simpl.
  assert (Hs : sees agent (if is_task taskId r then f r else r) = sees agent r)
    by (destruct (is_task taskId r); [by apply sees_keeps|done]).
  rewrite Hs, IH. by destruct (sees agent r).
Qed.

Lemma task_ids_set_task f taskId a : keeps_owner f -> task_ids (set_task f taskId a) = task_ids a.
Proof. intros Hf. unfold task_ids, set_task. simpl. apply map_update_where. intros r _. apply Hf. Qed.

Lemma select_set_task f taskId a r :
  NoDup (task_ids a) -> keeps_owner f -> select_one (is_task taskId) (a2_tasks a) = Some r ->
  select_one (is_task taskId) (update_where (is_task taskId) f (a2_tasks a)) = Some (f r).
Proof.
  intros Hnd Hf Hr. apply (select_task a) in Hr as [Hin Hid]; [|done].
  apply (select_task (set_task f taskId a)); [by rewrite task_ids_set_task|]. split; [|by rewrite (proj1 (Hf r))].
  unfold set_task. simpl. apply elem_of_update_where. exists r. split; [done|]. unfold is_task. by rewrite bool_decide_eq_true_2.
Qed.

(** ** The methods, by what the caller sees *)

Lemma task_for_spec a now fx agent rcp m :
  NoDup (task_ids a) ->
  task_for a now fx agent rcp m =
  match truthy (am_taskId m) with
  | Some taskId =>
      match select_one (is_task taskId) (visible agent a) with
      | None => Throw (TaskNotFound taskId)
      | Some r =>
          throw_if negb (is_participant rcp r) with InvalidParams ;;
          throw_if terminal (tr_state r) with TaskNotCancelable taskId ;;
          let f := set_history (tr_history r ++ [m]) now in Ok (set_task f taskId a, rowToTask (f r))
      end
  | None => Ok (createTask a now (fx_task fx) (fx_context fx) (id_fleet agent) rcp (id_agent agent) (am_contextId m) m)
  end.
Proof.
  intros Hnd. unfold task_for. destruct (truthy (am_taskId m)) as [taskId|]; [|done]. unfold taskParticipants.
  destruct (select_one (is_task taskId) (visible agent a)) as [r|] eqn:Hv.
  - apply select_visible in Hv as [Hr Hs]; [|done]. rewrite Hr. simpl.
    unfold sees in Hs. apply andb_true_iff in Hs as [-> Hs]. unfold is_participant in Hs. rewrite Hs. simpl.
    assert (negb (is_participant rcp r) = (negb (rcp ==? tr_agent r) && negb (tr_sender r ==? Some rcp))) as ->.
    { unfold is_participant. rewrite negb_orb. f_equal. f_equal. by apply bool_decide_ext; split; intros ->. }
    destruct (_ && _); [done|]. unfold appendMessage, getTask. rewrite Hr. simpl.
    destruct (terminal (tr_state r)); [done|]. simpl. by rewrite (select_set_task _ _ _ r).
  - destruct (select_one (is_task taskId) (a2_tasks a)) as [r|] eqn:Hr; [|done]. simpl.
    destruct (sees agent r) eqn:Hs.
    { assert (Hv' : select_one (is_task taskId) (visible agent a) = Some r) by (by apply select_visible). congruence. }
    unfold sees, is_participant in Hs. by rewrite Hs.
Qed.

Lemma tasksCancel_spec a now ctx params :
  NoDup (task_ids a) ->
  tasksCancel a now ctx params =
  match (let? p := assertObject params in requireString p "id") with
  | Throw e => (a, Throw e)
  | Ok taskId =>
      match select_one (is_task taskId) (visible (mc_agent ctx) a) with
      | None => (a, Throw (TaskNotFound taskId))
      | Some r =>
          if terminal (tr_state r) then (a, Throw (TaskNotCancelable taskId))
          else let f := set_state Canceled (tr_history r) now in (set_task f taskId a, Ok (rowToTask (f r)))
      end
  end.
Proof.
  intros Hnd. unfold tasksCancel. destruct (assertObject params) as [p|]; [|done].
  destruct (requireString p "id") as [taskId|]; [|done]. unfold requireOwnTask. rewrite own_task_visible.
  destruct (select_one _ (visible _ _)) as [r|] eqn:Hv; [|done]. simpl.
  destruct (terminal (tr_state r)) eqn:Ht; [done|]. apply select_visible in Hv as [Hr _]; [|done].
  unfold cancelTask, getTask. rewrite Hr. simpl. rewrite Ht. unfold updateStatus, getTask. rewrite Hr. simpl. rewrite Ht.
  simpl. rewrite app_nil_r.
  by rewrite (select_set_task _ _ _ r).
Qed.

Lemma tasksGet_spec a ctx params :
  tasksGet a ctx params =
  let? p := assertObject params in
  let? taskId := requireString p "id" in
  fetch r := select_one (is_task taskId) (visible (mc_agent ctx) a) orelse TaskNotFound taskId ;;
  Ok (match prop p "historyLength" with Some (JNum 0) => strip_history (rowToTask r) | _ => rowToTask r end).
Proof.
  unfold tasksGet. destruct (assertObject params) as [p|]; [|done]. destruct (requireString p "id") as [taskId|]; [|done].
  unfold requireOwnTask. rewrite own_task_visible. by destruct (select_one _ _).
Qed.

Lemma tasksList_spec a ctx params :
  select (matches_filters (list_filters ctx params)) (a2_tasks a) =
  select (matches_filters (list_filters ctx params)) (visible (mc_agent ctx) a).
Proof.
  unfold select, visible. rewrite filter_filter. apply filter_ext'. intros r. unfold matches_filters, sees. simpl.
  destruct (_ ==? _); simpl; [|done]. by destruct (is_participant _ r).
Qed.

Lemma visible_create agent a now fx rcp m :
  visible agent (fst (createTask a now (fx_task fx) (fx_context fx) (id_fleet agent) rcp (id_agent agent) (am_contextId m) m)) =
  (visible agent a ++ [MkTask (fx_task fx) (id_fleet agent) rcp (Some (id_agent agent)) (default (fx_context fx) (am_contextId m))
                        Submitted [m] [] None now now])%list.
Proof.
  unfold visible, select. simpl. rewrite List.filter_app. simpl. unfold sees, is_participant. simpl.
  rewrite (bool_decide_eq_true_2 (id_fleet agent = id_fleet agent)), (bool_decide_eq_true_2 (Some (id_agent agent) = _)) by done.
  by rewrite orb_true_r.
Qed.

(** ** The theorems *)

Section Theorems.
Context `{NodeCrypto} (cfg : Config) (exts : list ExtensionHook).

(** Two stores that an agent cannot tell apart. *)
Definition same_view (agent : AgentIdentity) (a1 a2 : A2ADb) : Prop :=
  visible agent a1 = visible agent a2 /\ NoDup (task_ids a1) /\ NoDup (task_ids a2).

Lemma same_view_set_task agent a1 a2 f taskId :
  keeps_owner f -> same_view agent a1 a2 -> same_view agent (set_task f taskId a1) (set_task f taskId a2).
Proof.
  intros Hf (Hv & Hn1 & Hn2). split_and!; rewrite ?task_ids_set_task by done; try done.
  by rewrite !visible_set_task, Hv by done.
Qed.

(** Fresh task ids are not in the store. *)
Definition draws_fresh (fx : A2AFresh) (a : A2ADb) : Prop := fx_task fx ∉ task_ids a.

Lemma same_view_create agent a1 a2 now fx rcp m :
  same_view agent a1 a2 -> draws_fresh fx a1 -> draws_fresh fx a2 ->
  let create a := createTask a now (fx_task fx) (fx_context fx) (id_fleet agent) rcp (id_agent agent) (am_contextId m) m in
  same_view agent (fst (create a1)) (fst (create a2)) /\ snd (create a1) = snd (create a2).
Proof.
  intros (Hv & Hn1 & Hn2) H1 H2. split; [|done]. split_and!.
  - by rewrite !visible_create, Hv.
  - unfold task_ids. simpl. rewrite map_app. apply NoDup_app. split_and!; [done| |apply NoDup_singleton].
    intros x Hx Hs%list_elem_of_singleton. simpl in Hs. by subst x.
  - unfold task_ids. simpl. rewrite map_app. apply NoDup_app. split_and!; [done| |apply NoDup_singleton].
    intros x Hx Hs%list_elem_of_singleton. simpl in Hs. by subst x.
Qed.

Lemma same_view_link agent a1 a2 t1 t2 mid : same_view agent a1 a2 -> same_view agent (linkMessage a1 t1 mid) (linkMessage a2 t2 mid).
Proof. unfold linkMessage. intros (Hv & Hn1 & Hn2). by do 2 case_bool_decide. Qed.

Lemma task_for_same now fx agent rcp m a1 a2 :
  same_view agent a1 a2 -> draws_fresh fx a1 -> draws_fresh fx a2 ->
  match task_for a1 now fx agent rcp m, task_for a2 now fx agent rcp m with
  | Ok (a1', t1), Ok (a2', t2) => t1 = t2 /\ same_view agent a1' a2'
  | Throw e1, Throw e2 => e1 = e2
  | _, _ => False
  end.
Proof.
  intros Hsv H1 H2. pose proof Hsv as (Hv & Hn1 & Hn2). rewrite !task_for_spec, Hv by done.
  destruct (truthy (am_taskId m)) as [taskId|].
  - destruct (select_one _ (visible agent a2)) as [r|]; [|done]. destruct (negb _); [done|].
    destruct (terminal _); [done|]. split; [done|]. apply same_view_set_task; [apply keeps_owner_history|done].
  - destruct (same_view_create agent a1 a2 now fx rcp m Hsv H1 H2) as [Hs Ht].
    destruct (createTask a1 _ _ _ _ _ _ _ _), (createTask a2 _ _ _ _ _ _ _ _). simpl in *. by subst.
Qed.

Lemma messageSend_same w now fx ctx params a1 a2 :
  same_view (mc_agent ctx) a1 a2 -> draws_fresh fx a1 -> draws_fresh fx a2 ->
  let '(w1, r1, es1) := messageSend cfg exts (MkA2AWorld w a1) now fx ctx params in
  let '(w2, r2, es2) := messageSend cfg exts (MkA2AWorld w a2) now fx ctx params in
  r1 = r2 /\ es1 = es2 /\ xw_world w1 = xw_world w2 /\ same_view (mc_agent ctx) (xw_a2a w1) (xw_a2a w2).
Proof.
  intros Hsv H1 H2. unfold messageSend. cbn [xw_world xw_a2a].
  destruct (inbound _ _ _ _) as [[[m rcp] body]|e]; [|done].
  destruct (evaluateMessageGate _ _ _ _ _ _ _ _ _ _ _ _) as [[d1 [x|]] es]; [done|].
  pose proof (task_for_same now fx (mc_agent ctx) rcp m a1 a2 Hsv H1 H2) as Ht.
  destruct (task_for a1 _ _ _ _ _) as [[a1' t1]|e1], (task_for a2 _ _ _ _ _) as [[a2' t2]|e2]; [|done|done|by subst].
  destruct Ht as [<- Hs]. destruct (createMessage _ _ _ _ _ _ _) as [[mail es2]|e]; [|done].
  split_and!; try done. by apply same_view_link.
Qed.

(** C38. Tasks are visible to their two participants only. Take any two states of
    the relay that differ only in tasks a caller is not on, of its fleet or of
    others. Whatever JSON-RPC request the caller makes, at either endpoint, the
    answer is the same, down to the error: it cannot tell a task it is not on from
    one that does not exist. The messages sent, the audit rows and the tasks the
    caller is on are the same afterwards, so no sequence of its requests can. *)
Theorem a2a_tells_nothing_of_others w now fx agent route raw a1 a2 :
  same_view agent a1 a2 -> draws_fresh fx a1 -> draws_fresh fx a2 ->
  let '(w1, r1, es1) := postA2A cfg exts (MkA2AWorld w a1) now fx agent route raw in
  let '(w2, r2, es2) := postA2A cfg exts (MkA2AWorld w a2) now fx agent route raw in
  r1 = r2 /\ es1 = es2 /\ xw_world w1 = xw_world w2 /\ same_view agent (xw_a2a w1) (xw_a2a w2).
Proof.
  intros Hsv H1 H2.
  assert (Hrpc : forall ctx, mc_agent ctx = agent ->
    let '(w1, r1, es1) := handleJsonRpc cfg exts (MkA2AWorld w a1) now fx ctx raw in
    let '(w2, r2, es2) := handleJsonRpc cfg exts (MkA2AWorld w a2) now fx ctx raw in
    r1 = r2 /\ es1 = es2 /\ xw_world w1 = xw_world w2 /\ same_view agent (xw_a2a w1) (xw_a2a w2)).
  { intros ctx <-. unfold handleJsonRpc. destruct (parseRequest raw) as [rpc|e]; [|done].
    assert (Hsend := messageSend_same w now fx ctx (rpc_params rpc) a1 a2 Hsv H1 H2).
    pose proof Hsv as (Hv & Hn1 & Hn2).
    destruct (messageSend cfg exts (MkA2AWorld w a1) now fx ctx (rpc_params rpc)) as [[w1 r1] es1].
    destruct (messageSend cfg exts (MkA2AWorld w a2) now fx ctx (rpc_params rpc)) as [[w2 r2] es2].
    destruct Hsend as (-> & -> & Hw & Hs). cbn [xw_world xw_a2a].
    case_bool_decide; [done|]. case_bool_decide; [by rewrite !tasksGet_spec, Hv|].
    case_bool_decide.
    { unfold tasksList, listTasks. rewrite !tasksList_spec, Hv. done. }
    case_bool_decide.
    { rewrite !tasksCancel_spec, Hv by done. destruct (match assertObject _ with Ok _ => _ | _ => _ end) as [taskId|]; [|done].
      destruct (select_one _ (visible _ a2)) as [r|]; [|done]. destruct (terminal _); [done|]. split_and!; try done.
      apply same_view_set_task; [apply keeps_owner_state|done]. }
    case_bool_decide; [done|]. case_bool_decide; [by rewrite !tasksGet_spec, Hv|]. done. }
  unfold postA2A. destruct route as [agentId|]; cbn [xw_world xw_a2a].
  - destruct (findFleetAgent _ _ _); [|done]. specialize (Hrpc (MkA2ACtx agent (Some agentId)) eq_refl).
    destruct (handleJsonRpc _ _ (MkA2AWorld w a1) _ _ _ _) as [[w1 r1] es1].
    destruct (handleJsonRpc _ _ (MkA2AWorld w a2) _ _ _ _) as [[w2 r2] es2].
    by destruct Hrpc as (-> & ? & ? & ?).
  - specialize (Hrpc (MkA2ACtx agent None) eq_refl).
    destruct (handleJsonRpc _ _ (MkA2AWorld w a1) _ _ _ _) as [[w1 r1] es1].
    destruct (handleJsonRpc _ _ (MkA2AWorld w a2) _ _ _ _) as [[w2 r2] es2].
    by destruct Hrpc as (-> & ? & ? & ?).
Qed.

(** ** Changes to the store *)

Definition advance (now : Z) (r : TaskRow) (f : TaskRow -> TaskRow) : Prop :=
  f = set_state Canceled (tr_history r) now \/ exists m, f = set_history (tr_history r ++ [m]) now.

(** What one request of [agent] does to the tasks: nothing, a turn or a cancel of a
    task it is on that has not ended, or a new task to a live agent of its fleet. *)
Inductive tasks_change (now : Z) (agent : AgentIdentity) (d : AgentDb) (new : string) (l : list TaskRow) : list TaskRow -> Prop :=
  | ch_none : tasks_change now agent d new l l
  | ch_advance taskId r f :
      r ∈ l -> tr_id r = taskId -> sees agent r = true -> terminal (tr_state r) = false -> advance now r f ->
      tasks_change now agent d new l (update_where (is_task taskId) f l)
  | ch_create rcp ctx m :
      is_Some (findFleetAgent d (id_fleet agent) rcp) ->
      tasks_change now agent d new l
        (l ++ [MkTask new (id_fleet agent) rcp (Some (id_agent agent)) ctx Submitted [m] [] None now now]).

Lemma advance_keeps now r f : advance now r f -> keeps_owner f.
Proof. intros [->|(m & ->)]; [apply keeps_owner_state|apply keeps_owner_history]. Qed.

Lemma task_for_change a now fx agent rcp m d a' t :
  NoDup (task_ids a) -> is_Some (findFleetAgent d (id_fleet agent) rcp) ->
  task_for a now fx agent rcp m = Ok (a', t) -> tasks_change now agent d (fx_task fx) (a2_tasks a) (a2_tasks a').
Proof.
  intros Hnd Hf. rewrite task_for_spec by done. destruct (truthy (am_taskId m)) as [taskId|].
  - destruct (select_one _ (visible agent a)) as [r|] eqn:Hv; [|done]. destruct (negb _); [done|].
    destruct (terminal _) eqn:Ht; [done|]. intros [= <- _]. apply select_visible in Hv as [Hr Hs]; [|done].
    apply select_task in Hr as [Hin Hid]; [|done]. eapply ch_advance; try done. right. by exists m.
  - unfold createTask. intros [= <- _]. by apply ch_create.
Qed.

Lemma link_tasks a t mid : a2_tasks (linkMessage a t mid) = a2_tasks a.
Proof. unfold linkMessage. by case_bool_decide. Qed.

Lemma inbound_recipient d fx ctx params m rcp body :
  inbound d fx ctx params = Ok (m, rcp, body) -> is_Some (findFleetAgent d (id_fleet (mc_agent ctx)) rcp).
Proof. unfold inbound. intros Hp. inv_ok Hp; by eexists. Qed.

Lemma messageSend_change w now fx ctx params :
  NoDup (task_ids (xw_a2a w)) ->
  tasks_change now (mc_agent ctx) (w_agents (xw_world w)) (fx_task fx) (a2_tasks (xw_a2a w))
    (a2_tasks (xw_a2a (fst (fst (messageSend cfg exts w now fx ctx params))))).
Proof.
  intros Hnd. unfold messageSend.
  destruct (inbound _ _ _ _) as [[[m rcp] body]|e] eqn:Hp; [|constructor].
  assert (Hf : is_Some (findFleetAgent (w_agents (xw_world w)) (id_fleet (mc_agent ctx)) rcp)).
  { by eapply inbound_recipient. }
  destruct (evaluateMessageGate _ _ _ _ _ _ _ _ _ _ _ _) as [[d1 [x|]] es]; [constructor|].
  destruct (task_for _ _ _ _ _ _) as [[a1 t]|e] eqn:Ht; [|constructor].
  apply (task_for_change _ _ _ _ _ _ (w_agents (xw_world w))) in Ht; [|done|done].
  destruct (createMessage _ _ _ _ _ _ _) as [[mail es2]|e]; cbn [fst xw_a2a]; [|done]. by rewrite link_tasks.
Qed.

Lemma handleJsonRpc_change w now fx ctx raw :
  NoDup (task_ids (xw_a2a w)) ->
  tasks_change now (mc_agent ctx) (w_agents (xw_world w)) (fx_task fx) (a2_tasks (xw_a2a w))
    (a2_tasks (xw_a2a (fst (fst (handleJsonRpc cfg exts w now fx ctx raw))))).
Proof.
  intros Hnd. unfold handleJsonRpc. destruct (parseRequest raw) as [rpc|e]; [|constructor].
  assert (Hsend := messageSend_change w now fx ctx (rpc_params rpc) Hnd).
  destruct (messageSend cfg exts w now fx ctx (rpc_params rpc)) as [[w1 r1] es1]. cbn [fst] in Hsend.
  case_bool_decide; [done|]. case_bool_decide; [constructor|]. case_bool_decide.
  { destruct (tasksList _ _ _). constructor. }
  case_bool_decide.
  { rewrite tasksCancel_spec by done. destruct (match assertObject _ with Ok _ => _ | _ => _ end) as [taskId|]; [|constructor].
    destruct (select_one _ (visible _ _)) as [r|] eqn:Hv; [|constructor]. destruct (terminal _) eqn:Ht; [constructor|].
    apply select_visible in Hv as [Hr Hs]; [|done]. apply select_task in Hr as [Hin Hid]; [|done].
    eapply ch_advance; try done. by left. }
  case_bool_decide; [done|]. case_bool_decide; constructor.
Qed.

Lemma postA2A_change w now fx agent route raw :
  NoDup (task_ids (xw_a2a w)) ->
  tasks_change now agent (w_agents (xw_world w)) (fx_task fx) (a2_tasks (xw_a2a w))
    (a2_tasks (xw_a2a (fst (fst (postA2A cfg exts w now fx agent route raw))))).
Proof.
  intros Hnd. unfold postA2A. destruct route as [agentId|].
  - destruct (findFleetAgent _ _ _); [|constructor].
    pose proof (handleJsonRpc_change w now fx (MkA2ACtx agent (Some agentId)) raw Hnd) as Hc.
    by destruct (handleJsonRpc _ _ _ _ _ _ _) as [[? ?] ?].
  - pose proof (handleJsonRpc_change w now fx (MkA2ACtx agent None) raw Hnd) as Hc.
    by destruct (handleJsonRpc _ _ _ _ _ _ _) as [[? ?] ?].
Qed.

(** ** Runs *)

(** An authenticated request at one of the two endpoints. *)
Record A2ARequest := MkA2ARequest {
  rq_now : Z; rq_fx : A2AFresh; rq_agent : AgentIdentity; rq_route : option string; rq_raw : json
}.

Definition a2a_request (w : A2AWorld) (q : A2ARequest) : A2AWorld :=
  fst (fst (postA2A cfg exts w (rq_now q) (rq_fx q) (rq_agent q) (rq_route q) (rq_raw q))).

Definition a2a_run (w : A2AWorld) (qs : list A2ARequest) : A2AWorld := fold_left a2a_request qs w.

(** Every task id drawn is new when it is drawn. *)
Fixpoint run_fresh (w : A2AWorld) (qs : list A2ARequest) : Prop :=
  match qs with
  | [] => True
  | q :: qs => draws_fresh (rq_fx q) (xw_a2a w) /\ run_fresh (a2a_request w q) qs
  end.

(** What becomes of a task. *)
Definition descends (r r' : TaskRow) : Prop :=
  tr_id r' = tr_id r /\ tr_fleet r' = tr_fleet r /\ tr_agent r' = tr_agent r /\ tr_sender r' = tr_sender r /\
  tr_context r' = tr_context r /\ tr_artifacts r' = tr_artifacts r /\
  (exists turns, tr_history r' = (tr_history r ++ turns)%list) /\
  (tr_state r' = tr_state r \/ tr_state r' = Canceled) /\ (terminal (tr_state r) = true -> r' = r).

Lemma descends_refl r : descends r r.
Proof. split_and!; try done; [by exists []; rewrite app_nil_r|by left]. Qed.

Lemma descends_trans r1 r2 r3 : descends r1 r2 -> descends r2 r3 -> descends r1 r3.
Proof.
  intros (? & ? & ? & ? & ? & ? & (t1 & Hh1) & Hs1 & Ht1) (? & ? & ? & ? & ? & ? & (t2 & Hh2) & Hs2 & Ht2).
  split_and!; try congruence.
  - exists (t1 ++ t2)%list. by rewrite Hh2, Hh1, app_assoc.
  - destruct Hs2 as [->| ->]; [done|by right].
  - intros Ht. specialize (Ht1 Ht). subst r2. by apply Ht2.
Qed.

Lemma descends_advance now r f : terminal (tr_state r) = false -> advance now r f -> descends r (f r).
Proof.
  intros Ht [->|(m & ->)]; split_and!; simpl; try done.
  - exists []. by rewrite app_nil_r.
  - by right.
  - by rewrite Ht.
  - by exists [m].
  - by left.
  - by rewrite Ht.
Qed.

Lemma change_ids now agent d new l l' :
  NoDup (map tr_id l) -> new ∉ map tr_id l -> tasks_change now agent d new l l' -> NoDup (map tr_id l').
Proof.
  intros Hnd Hnew [|taskId r f Hin Hid Hs Ht Ha|rcp ctx m Hf]; [done| |].
  - rewrite map_update_where; [done|]. intros r' _. by apply (advance_keeps now r).
  - rewrite map_app. apply NoDup_app. split_and!; [done| |apply NoDup_singleton].
    intros x Hx Hs%list_elem_of_singleton. simpl in Hs. by subst x.
Qed.

Lemma change_row now agent d new l l' r :
  NoDup (map tr_id l) -> tasks_change now agent d new l l' -> r ∈ l ->
  exists r', r' ∈ l' /\ descends r r' /\ (sees agent r = false -> r' = r).
Proof.
  intros Hnd [|taskId r0 f Hin Hid Hs Ht Ha|rcp ctx m Hf] Hr.
  - exists r. split_and!; [done|apply descends_refl|done].
  - exists (if is_task taskId r then f r else r). split; [apply elem_of_update_where; by exists r|].
    destruct (is_task taskId r) eqn:Hi; [|by split; [apply descends_refl|]]. unfold is_task in Hi. bools.
    assert (r = r0) as -> by (apply (NoDup_map_inj tr_id l); congruence).
    split; [by apply (descends_advance now)|]. congruence.
  - exists r. split_and!; [apply elem_of_app; by left|apply descends_refl|done].
Qed.

Lemma change_origin now agent d new l l' r' :
  tasks_change now agent d new l l' -> r' ∈ l' ->
  (exists r, r ∈ l /\ tr_id r = tr_id r' /\ tr_fleet r = tr_fleet r' /\ tr_sender r = tr_sender r' /\
     (tr_state r' = tr_state r \/ tr_state r' = Canceled)) \/
  (tr_sender r' = Some (id_agent agent) /\ tr_fleet r' = id_fleet agent /\ tr_state r' = Submitted).
Proof.
  intros [|taskId r0 f Hin Hid Hs Ht Ha|rcp ctx m Hf] Hr.
  - left. exists r'. split_and!; try done. by left.
  - apply elem_of_update_where in Hr as (r & Hr & ->). left. exists r. split; [done|].
    destruct (is_task taskId r); [|split_and!; try done; by left].
    destruct (advance_keeps _ _ _ Ha r) as (-> & -> & _ & ->). split_and!; try done. destruct Ha as [->|(m & ->)]; simpl; auto.
  - apply elem_of_app in Hr as [Hr|Hr%list_elem_of_singleton]; [left; exists r'; split_and!; try done; by left|].
    right. by subst r'.
Qed.

Lemma run_ids qs : forall w, NoDup (task_ids (xw_a2a w)) -> run_fresh w qs -> NoDup (task_ids (xw_a2a (a2a_run w qs))).
Proof.
  induction qs as [|q qs IH]; intros w Hnd Hf; [done|]. destruct Hf as [Hq Hf].
  apply (IH (a2a_request w q)); [|done]. eapply change_ids; [done|done|]. by apply postA2A_change.
Qed.

(** Tasks change by their participants only. Along any sequence of requests by
    any agents, a task keeps its id, its fleet, its two participants, its context
    and its artifacts; its history only grows; its state stays what it is or
    becomes canceled, and a task in a terminal state never changes again; a task on
    which none of the callers is, in its fleet, does not change at all. And every
    task that appears was created by one of the callers, in its own fleet, and is
    submitted or canceled: the methods bring a task to no other state. *)
Theorem tasks_change_by_participants_only w qs :
  NoDup (task_ids (xw_a2a w)) -> run_fresh w qs ->
  let w' := a2a_run w qs in
  (forall r, r ∈ a2_tasks (xw_a2a w) -> exists r', r' ∈ a2_tasks (xw_a2a w') /\ descends r r' /\
     ((forall q, q ∈ qs -> sees (rq_agent q) r = false) -> r' = r)) /\
  (forall r', r' ∈ a2_tasks (xw_a2a w') ->
     (exists r, r ∈ a2_tasks (xw_a2a w) /\ tr_id r = tr_id r') \/
     (exists q, q ∈ qs /\ tr_sender r' = Some (id_agent (rq_agent q)) /\ tr_fleet r' = id_fleet (rq_agent q) /\
        (tr_state r' = Submitted \/ tr_state r' = Canceled))).
Proof.
  cbv zeta. revert w. induction qs as [|q qs IH]; intros w Hnd Hf.
  { split; [|intros r' Hr; left; by exists r'].
    intros r Hr. exists r. split_and!; [done|apply descends_refl|done]. }
  destruct Hf as [Hq Hf]. pose proof (postA2A_change w (rq_now q) (rq_fx q) (rq_agent q) (rq_route q) (rq_raw q) Hnd) as Hc.
  fold (a2a_request w q) in Hc. destruct (IH (a2a_request w q)) as [IH1 IH2]; [by eapply change_ids|done|].
  change (a2a_run w (q :: qs)) with (a2a_run (a2a_request w q) qs). split.
  - intros r Hr. destruct (change_row _ _ _ _ _ _ _ Hnd Hc Hr) as (r1 & Hr1 & Hd1 & Hno1).
    destruct (IH1 r1 Hr1) as (r2 & Hr2 & Hd2 & Hno2). exists r2. split_and!; [done|by eapply descends_trans|].
    intros Hall. rewrite Hno2; [by apply Hno1, Hall; left|].
    intros q' Hq'. rewrite Hno1 by (apply Hall; by left). apply Hall. by right.
  - intros r' Hr'. destruct (IH2 r' Hr') as [(r1 & Hr1 & Hid)|(q' & Hq' & Hrest)]; [|right; exists q'; split; [by right|done]].
    destruct (change_origin _ _ _ _ _ _ _ Hc Hr1) as [(r & Hr & Hrid & _)|(Hs1 & Hf1 & Hst1)].
    { left. exists r. split; [done|congruence]. }
    right. exists q. split; [by left|]. destruct (IH1 r1 Hr1) as (r2 & Hr2 & (Hi2 & Hf2 & _ & Hs2 & _ & _ & _ & Hst2 & _) & _).
    assert (r' = r2) as ->.
    { apply (NoDup_map_inj tr_id (a2_tasks (xw_a2a (a2a_run (a2a_request w q) qs)))); [|done|done|congruence].
      apply run_ids; [by eapply change_ids|done]. }
    rewrite Hs2, Hf2. split_and!; try done. destruct Hst2 as [->| ->]; [by left; rewrite Hst1|by right].
Qed.

(** ** Sending *)

(** The native request that says the same. *)
Definition says_the_same (r : SendRequest) (m : A2AMessage) (rcp : string) (body : json) : Prop :=
  sr_recipient_id r = Some rcp /\ sr_type r = "a2a.message" /\ sr_priority r = "normal" /\ sr_body r = body /\
  option_map JObj (sr_metadata r) = am_metadata m.

Lemma task_for_participants a now fx agent rcp m a' t :
  NoDup (task_ids a) -> task_for a now fx agent rcp m = Ok (a', t) ->
  exists r, r ∈ a2_tasks a' /\ rowToTask r = t /\ sees agent r = true /\ is_participant rcp r = true /\
    last (tr_history r) = Some m.
Proof.
  intros Hnd. rewrite task_for_spec by done. destruct (truthy (am_taskId m)) as [taskId|].
  - destruct (select_one _ (visible agent a)) as [r|] eqn:Hv; [|done].
    destruct (negb (is_participant rcp r)) eqn:Hp; [done|]. destruct (terminal _); [done|]. intros [= <- <-].
    apply select_visible in Hv as [Hr Hs]; [|done]. apply negb_false_iff in Hp.
    exists (set_history (tr_history r ++ [m]) now r). split_and!; [|done|done|done|apply last_snoc].
    apply (select_set_task (set_history (tr_history r ++ [m]) now)) in Hr; [|done|apply keeps_owner_history].
    by apply select_one_Some in Hr as [Hr _].
  - unfold createTask. intros [= <- <-]. eexists. split_and!; [apply elem_of_app; right; by left|done| | |done].
    + unfold sees, is_participant. simpl. rewrite (bool_decide_eq_true_2 (id_fleet agent = id_fleet agent)) by done.
      rewrite (bool_decide_eq_true_2 (Some (id_agent agent) = _)) by done. by rewrite orb_true_r.
    + unfold is_participant. simpl. by rewrite bool_decide_eq_true_2.
Qed.

Lemma task_for_denies a now fx agent rcp m x : task_for a now fx agent rcp m <> Throw (Denied x).
Proof. unfold task_for. by repeat case_match. Qed.

Lemma native_gate ww now ctl mid dly agent rq m rcp body d1 denial es1 :
  says_the_same rq m rcp body ->
  evaluateMessageGate cfg exts (w_policies ww) (w_agents ww) now ctl agent (Some rcp) "a2a.message" "normal" body
    (am_metadata m) = (d1, denial, es1) ->
  let '(wn, reply, _) := postMessage cfg exts ww now ctl mid dly agent rq in
  (forall x, reply = GateRefused x <-> denial = Some x) /\ w_agents wn = d1.
Proof.
  intros (Hr & Ht & Hp & Hb & Hm) Hg. unfold postMessage. rewrite Hr, Ht, Hp, Hb, Hm, Hg.
  destruct denial as [y|]; [split; [|done]; intros x; split; congruence|].
  destruct (claim_envelope _ _ _ _) as [e1 [y|]] eqn:Hc.
  - split; [|done]. intros x. split; [|done]. intros ->. exfalso. revert Hc. unfold claim_envelope.
    destruct (envelope_nonce rq); [|done]. case_bool_decide; [done|]. destruct (_ <? _)%nat; [done|].
    by destruct (claimEnvelopeNonce _ _ _ _) as [? []].
  - destruct (createMessage _ _ _ _ _ _ _) as [[? ?]|]; split; done.
Qed.

(** Switching transport bypasses no control. When message/send answers with a
    task, the recipient is a live agent of the sender's own fleet and, like the
    sender, on that task, whose history ends with the message; the sender is
    neither paused nor quarantined and under its rate limit, no policy denies the
    message and no extension objects; and the mail changed by exactly the message
    [createMessage] makes for that sender and recipient under the task, to which it
    is linked. With any other answer the mail does not change. And the gate is the
    one of POST /v1/messages: a request there that says the same is refused by the
    gate exactly when this one is, for the same reason, and leaves the same tables
    of agents behind. *)
Theorem a2a_send_clears_the_gate w now fx ctx params :
  NoDup (task_ids (xw_a2a w)) ->
  let agent := mc_agent ctx in
  let ww := xw_world w in
  let '(w', r, es) := messageSend cfg exts w now fx ctx params in
  (forall t, r = Ok t -> exists m rcp body es',
     inbound (w_agents ww) fx ctx params = Ok (m, rcp, body) /\
     is_Some (findFleetAgent (w_agents ww) (id_fleet agent) rcp) /\
     id_status agent <> Quarantined /\ id_status agent <> Paused /\
     counter (w_agents ww) (id_agent agent) (window_start cfg now) < rateLimitMaxMessages cfg /\
     (forall p, p ∈ w_policies ww -> in_scope (id_fleet agent) (id_agent agent) (Some rcp) p = true ->
        po_action p = PDeny ->
        matchesPolicyConditions (po_conditions p) (id_agent agent) (Some rcp) "a2a.message" "normal" = false) /\
     (forall e hook, e ∈ exts -> ex_onBeforeMessage e = Some hook ->
        hook (MkHookMessage (id_fleet agent) (id_agent agent) (Some rcp) "a2a.message" "normal" body (am_metadata m)) = None) /\
     createMessage cfg (w_agents (xw_world w')) (w_mail ww) now (fx_message fx) (fx_delivery fx)
       (a2a_input agent rcp body t) = Ok (w_mail (xw_world w'), es') /\
     (at_id t, fx_message fx) ∈ a2_links (xw_a2a w') /\
     exists row, row ∈ a2_tasks (xw_a2a w') /\ rowToTask row = t /\ sees agent row = true /\
       is_participant rcp row = true /\ last (tr_history row) = Some m) /\
  ((forall t, r <> Ok t) -> w_mail (xw_world w') = w_mail ww) /\
  (forall m rcp body rq mid dly x, inbound (w_agents ww) fx ctx params = Ok (m, rcp, body) -> says_the_same rq m rcp body ->
     let '(wn, reply, _) := postMessage cfg exts ww now (fx_ctl fx) mid dly agent rq in
     (reply = GateRefused x <-> r = Throw (Denied x)) /\
     w_agents wn = w_agents (xw_world w')).
Proof.
  intros Hnd. cbv zeta. unfold messageSend.
  destruct (inbound _ _ _ _) as [[[m rcp] body]|e] eqn:Hin; [|split_and!; done].
  pose proof (inbound_recipient _ _ _ _ _ _ _ Hin) as Hf.
  destruct (evaluateMessageGate _ _ _ _ _ _ _ _ _ _ _ _) as [[d1 denial] es1] eqn:Hg.
  assert (Hnative : forall (r : result RpcFault A2ATask), (forall x, r = Throw (Denied x) <-> denial = Some x) ->
    forall m' rcp' body' rq mid dly y w', (Ok (m, rcp, body) : result RpcFault _) = Ok (m', rcp', body') ->
    says_the_same rq m' rcp' body' -> w_agents (xw_world w') = d1 ->
    let '(wn, reply, _) := postMessage cfg exts (xw_world w) now (fx_ctl fx) mid dly (mc_agent ctx) rq in
    (reply = GateRefused y <-> r = Throw (Denied y)) /\ w_agents wn = w_agents (xw_world w')).
  { intros r Hr m' rcp' body' rq mid dly y w' [= <- <- <-] Hs ->.
    pose proof (native_gate (xw_world w) now (fx_ctl fx) mid dly (mc_agent ctx) rq _ _ _ _ _ _ Hs Hg) as Hn.
    destruct (postMessage _ _ _ _ _ _ _ _ _) as [[wn reply] ?]. destruct Hn as [Hiff ->]. split; [|done].
    by rewrite Hiff, Hr. }
  destruct denial as [x|].
  { split_and!; [done|done|]. intros. eapply Hnative; try done. intros y. split; congruence. }
  destruct (gate_admits _ _ _ _ _ _ _ _ _ _ _ _ _ _ Hg) as (H1' & H2' & H3' & H4' & H5').
  destruct (task_for _ _ _ _ _ _) as [[a1 t]|e] eqn:Ht.
  2:{ split_and!; [done|done|]. intros. eapply Hnative; try done. intros y. split; [|done]. intros [= ->].
      by apply task_for_denies in Ht. }
  destruct (createMessage _ _ _ _ _ _ _) as [[mail es2]|e] eqn:Hm.
  2:{ split_and!; [done|done|]. intros. by eapply Hnative. }
  split_and!; [|by intros Hn; destruct (Hn t)|intros; by eapply Hnative].
  intros t' [= <-]. exists m, rcp, body, es2. split_and!; try done.
  - cbn. unfold linkMessage. case_bool_decide; [done|]. simpl. apply elem_of_app. right. by left.
  - cbn [xw_a2a]. rewrite link_tasks. by eapply task_for_participants.
Qed.
End Theorems.

(** ** Witnesses *)

(** The two agents of fleet f in their room, a third of the fleet, and one of
    fleet g. *)
Definition demo_trio : AgentDb := with_agents (<["a3" := fresh_agent "f" "Brand" "openclaw" None 0]> (ad_agents demo_fleets)) demo_fleets.
Definition demo_a2a_world : A2AWorld :=
  MkA2AWorld (MkWorld demo_enroll (MkKeyDb ∅ ∅ ∅ []) demo_trio demo_room []) (MkA2ADb [] []).
Definition demo_fx (n : string) : A2AFresh := MkA2AFresh ("ctl" +:+ n) ("m" +:+ n) demo_ids ("task" +:+ n) ("ctx" +:+ n) ("am" +:+ n).
Definition demo_a (i : string) : AgentIdentity := MkIdentity i "f" Healthy.
Definition demo_turn (rcp : string) (more : list (string * json)) : json :=
  JObj [("jsonrpc", JStr "2.0"); ("id", JNum 1); ("method", JStr "message/send");
        ("params", JObj [("recipientAgentId", JStr rcp);
                         ("message", JObj ([("parts", JArr [JObj [("kind", JStr "text"); ("text", JStr "hi")]])] ++ more))])].
Definition demo_call (method id : string) : json :=
  JObj [("jsonrpc", JStr "2.0"); ("id", JNum 2); ("method", JStr method); ("params", JObj [("id", JStr id)])].

Local Existing Instance toy_node.

Abbreviation demo_a2a := (postA2A default_config []).
Definition demo_sent : A2AWorld := fst (fst (demo_a2a demo_a2a_world 1000 (demo_fx "1") (demo_a "a1") None (demo_turn "a2" []))).

Lemma a2a_tells_nothing_of_others_witness :
  length (a2_tasks (xw_a2a demo_sent)) = 1%nat /\
  snd (fst (demo_a2a demo_sent 2000 (demo_fx "2") (demo_a "a3") None (demo_call "tasks/get" "task1"))) =
    Some (JNum 2, Throw (TaskNotFound "task1")) /\
  snd (fst (demo_a2a demo_sent 2000 (demo_fx "2") (demo_a "a3") None (demo_call "tasks/get" "task1"))) =
  snd (fst (demo_a2a (MkA2AWorld (xw_world demo_sent) (MkA2ADb [] [])) 2000 (demo_fx "2") (demo_a "a3") None
              (demo_call "tasks/get" "task1"))).
Proof.
  split; [vm_compute; reflexivity|]. split; [vm_compute; reflexivity|].
  pose proof (a2a_tells_nothing_of_others default_config [] (xw_world demo_sent) 2000 (demo_fx "2") (demo_a "a3") None
    (demo_call "tasks/get" "task1") (xw_a2a demo_sent) (MkA2ADb [] [])) as Ht.
  assert (Hs : same_view (demo_a "a3") (xw_a2a demo_sent) (MkA2ADb [] [])).
  { split; [vm_compute; reflexivity|]. split; apply (bool_decide_unpack _); vm_compute; exact I. }
  assert (H1 : draws_fresh (demo_fx "2") (xw_a2a demo_sent)) by (apply (bool_decide_unpack _); vm_compute; exact I).
  assert (H2 : draws_fresh (demo_fx "2") (MkA2ADb [] [])) by (apply (bool_decide_unpack _); vm_compute; exact I).
  specialize (Ht Hs H1 H2). change (MkA2AWorld (xw_world demo_sent) (xw_a2a demo_sent)) with demo_sent in Ht.
  destruct (demo_a2a demo_sent _ _ _ _ _) as [[w1 r1] es1].
  destruct (demo_a2a (MkA2AWorld _ _) _ _ _ _ _) as [[w2 r2] es2]. exact (proj1 Ht).
Defined.

(** The third agent tries to cancel, then the recipient does, then the sender to
    go on. *)
Definition demo_requests : list A2ARequest :=
  [MkA2ARequest 2000 (demo_fx "2") (demo_a "a3") None (demo_call "tasks/cancel" "task1");
   MkA2ARequest 3000 (demo_fx "3") (demo_a "a2") (Some "a1") (demo_call "tasks/cancel" "task1");
   MkA2ARequest 4000 (demo_fx "4") (demo_a "a1") None (demo_turn "a2" [("taskId", JStr "task1")])].

Lemma tasks_change_by_participants_only_witness :
  map tr_state (a2_tasks (xw_a2a (a2a_run default_config [] demo_sent demo_requests))) = [Canceled] /\
  forall r, r ∈ a2_tasks (xw_a2a demo_sent) ->
    exists r', r' ∈ a2_tasks (xw_a2a (a2a_run default_config [] demo_sent demo_requests)) /\ descends r r'.
Proof.
  split; [vm_compute; reflexivity|].
  assert (Hn : NoDup (task_ids (xw_a2a demo_sent))) by (apply (bool_decide_unpack _); vm_compute; exact I).
  assert (Hf : run_fresh default_config [] demo_sent demo_requests).
  { repeat split; apply (bool_decide_unpack _); vm_compute; exact I. }
  pose proof (tasks_change_by_participants_only default_config [] demo_sent demo_requests Hn Hf) as Ht. cbv zeta in Ht.
  intros r Hr. destruct (proj1 Ht r Hr) as (r' & Hr' & Hd & _). exists r'. exact (conj Hr' Hd).
Defined.

Definition demo_params : option json := prop (demo_turn "a2" []) "params".

Lemma a2a_send_clears_the_gate_witness :
  exists t, snd (fst (messageSend default_config [] demo_a2a_world 1000 (demo_fx "1") (MkA2ACtx (demo_a "a1") None) demo_params)) = Ok t /\
    counter (w_agents (xw_world demo_a2a_world)) "a1" (window_start default_config 1000) < rateLimitMaxMessages default_config.
Proof.
  assert (Hn : NoDup (task_ids (xw_a2a demo_a2a_world))) by (apply (bool_decide_unpack _); vm_compute; exact I).
  pose proof (a2a_send_clears_the_gate default_config [] demo_a2a_world 1000 (demo_fx "1") (MkA2ACtx (demo_a "a1") None)
    demo_params Hn) as Ht. cbv zeta in Ht.
  assert (Hs : exists t, snd (fst (messageSend default_config [] demo_a2a_world 1000 (demo_fx "1") (MkA2ACtx (demo_a "a1") None) demo_params)) = Ok t).
  { eexists. vm_compute. reflexivity. }
  destruct Hs as [t Hs]. exists t. destruct (messageSend _ _ _ _ _ _ _) as [[w' r] es]. simpl in Hs. split; [exact Hs|].
  destruct (proj1 Ht t Hs) as (m & rcp & body & es' & _ & _ & _ & _ & Hc & _). exact Hc.
Defined.

(** What a refused message leaves behind, shown on a run: message/send stores the
    task before [createMessage] decides, and nothing undoes it. An agent that names
    a room as the context of a new task is refused, because a room takes no direct
    message; no message exists, but the task does, the recipient lists it with the
    text in its history, and no message is linked to it. *)
Example refused_message_leaves_its_task :
  let '(w', r, _) := demo_a2a demo_a2a_world 1000 (demo_fx "1") (demo_a "a1") None (demo_turn "a2" [("contextId", JStr "room1")]) in
  r = Some (JNum 1, Throw (InternalError (Some RoomMismatch))) /\
  md_messages (w_mail (xw_world w')) = md_messages (w_mail (xw_world demo_a2a_world)) /\
  a2_links (xw_a2a w') = [] /\
  exists t, tasksList (xw_a2a w') (MkA2ACtx (demo_a "a2") None) None = ([t], 1%nat) /\ at_contextId t = "room1" /\
    map am_parts (at_history t) = [[JObj [("kind", JStr "text"); ("text", JStr "hi")]]].
Proof. vm_compute. split_and!; try reflexivity. eexists. split_and!; reflexivity. Qed.
