(* ===== verification/InboxRing.v ===== *)
(** * The plugin's inbox

    [packages/openclaw-plugin/src/autoreply.ts], the cache of delivered messages that
    the inbox tool reads, and [inbox-trust.ts], the label a message is shown with.  A
    message is the JSON object the relay sent; fields whose type the source declares
    are read at that type.  [canonicalize] never throws on parsed JSON, so every
    message is comparable. *)

From S2P Require Import Prelude Json IsoTime JsValues Identity TrustSync Verify Text CanonicalJson JsMap.
Import Ascii String.
Open Scope string_scope.
Open Scope Z_scope.

(** ** Messages *)

Abbreviation InboxMessage := json.

Definition im_id (m : InboxMessage) : option string := string_field m "message_id".
Definition im_conversation (m : InboxMessage) : string := default "" (string_field m "conversation_id").
Definition im_sender (m : InboxMessage) : option string := string_field m "sender_agent_id".
Definition im_type (m : InboxMessage) : string := default "" (string_field m "message_type").
Definition from_operator (m : InboxMessage) : bool := string_field m "sender_kind" ==? Some "operator".

(** What the verification reads of it. *)
Definition signed_of (m : InboxMessage) : SignedMessage :=
  MkSigned (im_id m) (string_field m "sender_kind") (im_sender m) (string_field m "message_type")
    (string_field m "priority") (default JNull (prop m "body")) (string_field m "operator_sig")
    (string_field m "agent_sig") (string_field m "key_id") (prop m "sig_canonical").

Record PluginBatch := MkPluginBatch {
  pb_messages : list InboxMessage;
  pb_controls : list json;
  pb_operator_trusted : bool;
  pb_roster : list RosterEntryLike;
  pb_peer_autoreply : option bool;
  pb_peer_turn_budget : option Z;
  pb_fleet_id : option string;
  pb_operator_keys : list OperatorKeyEntry;
  pb_conversation_history : list (string * list json);
  pb_conversation_budgets : option (list (string * Z))
}.

Definition with_budgets (b : option (list (string * Z))) (x : PluginBatch) : PluginBatch :=
  MkPluginBatch (pb_messages x) (pb_controls x) (pb_operator_trusted x) (pb_roster x) (pb_peer_autoreply x)
    (pb_peer_turn_budget x) (pb_fleet_id x) (pb_operator_keys x) (pb_conversation_history x) b.

(** ** Turn budgets *)

(** 0 is no limit. *)
Definition NO_PEER_TURN_LIMIT : Z := 0.
Definition normalizeTurnBudget (value : option Z) : Z :=
  match value with Some v => if 1 <=? v then v else NO_PEER_TURN_LIMIT | None => NO_PEER_TURN_LIMIT end.
Definition isCapped (budget : Z) : bool := 0 <? budget.

Definition effectivePeerSettings (b : PluginBatch) (peerEnabled : bool) (peerTurnBudget : option Z) : bool * Z :=
  let relayBudget := normalizeTurnBudget (pb_peer_turn_budget b) in
  (default peerEnabled (pb_peer_autoreply b),
   if isCapped relayBudget then relayBudget else normalizeTurnBudget peerTurnBudget).

Definition effectiveConversationBudget (budgets : option (list (string * Z))) (conversationId : string) (fallback : Z) : Z :=
  match budgets with
  | Some l => match js_get conversationId l with
              | Some v => if 0 <=? v then normalizeTurnBudget (Some v) else normalizeTurnBudget (Some fallback)
              | None => normalizeTurnBudget (Some fallback)
              end
  | None => normalizeTurnBudget (Some fallback)
  end.

Definition withLocalRoomCap (b : PluginBatch) (localPeerTurnBudget : option Z) : PluginBatch :=
  let localCap := normalizeTurnBudget localPeerTurnBudget in
  match pb_conversation_budgets b with
  | Some l => if isCapped localCap && existsb (fun kv => snd kv =? 0) l
              then with_budgets (Some (map (fun kv => (fst kv, if snd kv =? 0 then localCap else snd kv)) l)) b
              else b
  | None => b
  end.

(** Verdicts by the id of their message, or by its held key; [None] is [null]. *)
Abbreviation Verdicts := (gmap string (option VerifyResult)).

(** ** The cache *)

Definition LAST_BATCH_CAP : nat := 25.

Record CachedInboxEntry := MkCached { ce_message : InboxMessage; ce_verification : option VerifyResult }.

Record BatchMeta := MkMeta {
  bm_recorded_at : option Z;
  bm_operator_trusted : bool;
  bm_roster : list RosterEntryLike;
  bm_controls : list json;
  bm_conversation_history : list (string * list json);
  bm_peer_autoreply : bool;
  bm_peer_turn_budget : Z;
  bm_conversation_budgets : list (string * Z);
  bm_peer_turns_used : list (string * Z)
}.

Record AgentInboxCache := MkInboxCache {
  ic_context : string;
  ic_entries : list (string * CachedInboxEntry);
  ic_meta : BatchMeta;
  ic_rejects : gmap string VerifyResult
}.

(** One cache per agent in the process. *)
Abbreviation InboxRegistry := (gmap string AgentInboxCache).

(** ** The identity of a message *)

Section Digest.
Context `{NodeCrypto}.

Definition materialDigest (m : InboxMessage) : string := node_sha256 (canonicalize m).

Definition NUL : ascii := ascii_of_nat 0.

Definition heldKey (m : InboxMessage) : string := materialDigest m +:+ String NUL (default "" (im_id m)).

Definition heldKeyId (key : string) : string :=
  let rest := drop_while (fun c => negb (c ==? NUL)) (chars key) in
  match rest with [] => key | _ :: id => text id end.

Definition sameSignedMaterial (a b : InboxMessage) : bool := materialDigest a ==? materialDigest b.

Definition verdict_at (vs : Verdicts) (k : string) : option VerifyResult := mjoin (vs !! k).
Definition id_key (m : InboxMessage) : string := default "undefined" (im_id m).

Definition verdictFor (vs : Verdicts) (m : InboxMessage) : option VerifyResult :=
  match vs !! heldKey m with Some v => v | None => verdict_at vs (id_key m) end.

(** The different messages of a batch that claim an id. *)
Definition claims_of (messages : list InboxMessage) (id : string) : list string :=
  remove_dups (List.filter (fun k => heldKeyId k ==? id) (map heldKey messages)).

Definition bind_verdict (messages : list InboxMessage) (vs out : Verdicts) (m : InboxMessage) : Verdicts :=
  <[heldKey m := if (1 <? length (claims_of messages (heldKeyId (heldKey m))))%nat then None else verdict_at vs (id_key m)]> out.

Definition batchVerdictsByHeldKey (messages : list InboxMessage) (vs : Verdicts) : Verdicts :=
  foldl (bind_verdict messages vs) ∅ messages.

(** ** Batches in the cache *)

(** The connection and the verification generation of a context. *)
Definition contextParts (context : string) : string * string :=
  let l := chars context in
  match drop_while (fun c => negb (c ==? "."%char)) l with
  | [] => (context, context)
  | _ :: generation => (text (take_while (fun c => negb (c ==? "."%char)) l), text generation)
  end.

Definition empty_meta : BatchMeta := MkMeta None false [] [] [] false NO_PEER_TURN_LIMIT [] [].

Definition freshCache (context : string) (rejects : gmap string VerifyResult) : AgentInboxCache :=
  MkInboxCache context [] empty_meta rejects.

Definition failed_verdict (v : option VerifyResult) : bool := match v with Some r => negb (vr_verified r) | None => false end.

(** Failures outlive a change of context. *)
Definition keep_failures (c : AgentInboxCache) : gmap string VerifyResult :=
  foldl (fun rejects ie => match ce_verification (snd ie) with
                           | Some v => if vr_verified v then rejects else <[materialDigest (ce_message (snd ie)) := v]> rejects
                           | None => rejects
                           end) (ic_rejects c) (ic_entries c).

Definition inboxCache (reg : InboxRegistry) (agentId context : string) (reader : bool) : InboxRegistry * AgentInboxCache :=
  let renewed rejects := let c := freshCache context rejects in (<[agentId := c]> reg, c) in
  match reg !! agentId with
  | None => renewed ∅
  | Some c =>
      if reader then
        if fst (contextParts (ic_context c)) ==? fst (contextParts context) then (reg, c) else (reg, freshCache context ∅)
      else if ic_context c ==? context then (reg, c)
      else renewed (keep_failures c)
  end.

(** One message of a batch, into the ring. *)
Definition record_message (rejects : gmap string VerifyResult) (entries : list (string * CachedInboxEntry)) (m : InboxMessage)
    : list (string * CachedInboxEntry) :=
  match truthy (im_id m) with
  | None => entries
  | Some i =>
      let fallback := rejects !! materialDigest m in
      let previous := match js_get i entries with
                      | Some held => if sameSignedMaterial (ce_message held) m then ce_verification held else fallback
                      | None => fallback
                      end in
      js_put i (MkCached m previous) (js_delete i entries)
  end.

Definition recordBatch (reg : InboxRegistry) (now : Z) (b : PluginBatch) (localBudget : option Z) (agentId context : string)
    : InboxRegistry :=
  let '(_, c) := inboxCache reg agentId context false in
  let meta := MkMeta (Some now) (pb_operator_trusted b) (pb_roster b) (pb_controls b) (pb_conversation_history b)
                (default false (pb_peer_autoreply b)) (snd (effectivePeerSettings b false localBudget))
                (default [] (pb_conversation_budgets (withLocalRoomCap b localBudget))) (bm_peer_turns_used (ic_meta c)) in
  let entries := js_evict LAST_BATCH_CAP (foldl (record_message (ic_rejects c)) (ic_entries c) (pb_messages b)) in
  <[agentId := MkInboxCache (ic_context c) entries meta (ic_rejects c)]> reg.

(** The verdicts of the batch, bound to the entries that hold the messages they are
    about; [None] is a call without its batch. *)
Definition label_entry (vs : Verdicts) (bound : option Verdicts) (rejects : gmap string VerifyResult)
    (ie : string * CachedInboxEntry) : string * CachedInboxEntry :=
  let '(i, e) := ie in
  match verdict_at vs i with
  | None => ie
  | Some v =>
      let bindable := match bound with Some bs => verdict_at bs (heldKey (ce_message e)) | None => Some v end in
      match bindable with
      | Some r => (i, MkCached (ce_message e) (Some (default r (rejects !! materialDigest (ce_message e)))))
      | None => ie
      end
  end.

(** One reject: its verdict on the entry that holds it, and for good. *)
Definition record_reject (acc : list (string * CachedInboxEntry) * gmap string VerifyResult) (r : InboxMessage * VerifyResult)
    : list (string * CachedInboxEntry) * gmap string VerifyResult :=
  let '(entries, rejects) := acc in
  let '(m, v) := r in
  match im_id m with
  | None => acc
  | Some i =>
      match js_get i entries with
      | Some e =>
          if sameSignedMaterial (ce_message e) m
          then (js_put i (MkCached (ce_message e) (Some v)) entries,
                if vr_verified v then rejects else <[materialDigest m := v]> rejects)
          else acc
      | None => acc
      end
  end.

Definition recordVerifications (reg : InboxRegistry) (vs : Verdicts) (rejects : list (InboxMessage * VerifyResult))
    (messages : option (list InboxMessage)) (agentId context : string) : InboxRegistry :=
  let '(_, c) := inboxCache reg agentId context false in
  let bound := (fun ms => batchVerdictsByHeldKey ms vs) <$> messages in
  let labelled := map (label_entry vs bound (ic_rejects c)) (ic_entries c) in
  let '(entries, rejects') := foldl record_reject (labelled, ic_rejects c) rejects in
  <[agentId := MkInboxCache (ic_context c) entries (ic_meta c) rejects']> reg.

Definition recordPeerUsage (reg : InboxRegistry) (used : list (string * Z)) (agentId context : string) : InboxRegistry :=
  let '(_, c) := inboxCache reg agentId context false in
  let m := ic_meta c in
  <[agentId := MkInboxCache (ic_context c) (ic_entries c)
      (MkMeta (bm_recorded_at m) (bm_operator_trusted m) (bm_roster m) (bm_controls m) (bm_conversation_history m)
         (bm_peer_autoreply m) (bm_peer_turn_budget m) (bm_conversation_budgets m) used) (ic_rejects c)]> reg.

(** ** Reading *)

Inductive Generation := GenCurrent | GenStale | GenUnavailable.

Record CachedInbox := MkCachedInbox {
  ci_generation : Generation;
  ci_entries : list CachedInboxEntry;
  ci_operator_trusted : bool;
  ci_meta : BatchMeta
}.

Definition getCachedInbox (reg : InboxRegistry) (agentId context : string) : InboxRegistry * CachedInbox :=
  let '(reg', c) := inboxCache reg agentId context true in
  let generation := match bm_recorded_at (ic_meta c) with
                    | None => GenUnavailable
                    | Some _ => if snd (contextParts (ic_context c)) ==? snd (contextParts context) then GenCurrent else GenStale
                    end in
  let stale := match generation with GenStale => true | _ => false end in
  (reg',
   MkCachedInbox generation
     (map (fun ie => let e := snd ie in
                     match ce_verification e with
                     | Some v => if stale && vr_verified v then MkCached (ce_message e) None else e
                     | None => e
                     end) (ic_entries c))
     (if stale then false else bm_operator_trusted (ic_meta c)) (ic_meta c)).
End Digest.

(** ** The label of a message *)

Inductive SignatureStatus := SigVerified | SigFailed | SigUnchecked.

Definition signatureStatusOf (verdict : option VerifyResult) (senderKind : option string) : SignatureStatus :=
  match verdict with
  | None => SigUnchecked
  | Some v =>
      let mismatch := match senderKind with
                      | Some k => match vr_kind v with KOperator => negb (k ==? "operator") | KPeer => k ==? "operator" end
                      | None => false
                      end in
      if mismatch then SigFailed else if vr_verified v then SigVerified else SigFailed
  end.

Inductive FromKind := FromFeed | FromOperator | FromAgent.
Inductive Trust :=
  | UntrustedExternalForged | UntrustedExternal | RejectedSignature | VerifiedOperator | AttestedOperator | UnverifiedOperator.

(** The texts shown as the sender. *)
Inductive FromLabel :=
  | ClaimedFeed | ExternalFeed | FailedSender (who : string) | OperatorVerified | OperatorAttested | OperatorUnverified
  | Teammate (agentId : string).

(** The notes are fixed texts, one for each trust; an ordinary teammate has none. *)
Record InboxTrustEnvelope := MkEnvelope { te_from_kind : FromKind; te_from : FromLabel; te_trust : option Trust }.

Definition inboxTrustEnvelope (messageType : string) (senderKind senderAgentId : option string) (operatorTrusted : bool)
    (signature : SignatureStatus) : InboxTrustEnvelope :=
  let operator := senderKind ==? Some "operator" in
  if messageType ==? "feed" then
    match signature with
    | SigFailed => MkEnvelope FromFeed ClaimedFeed (Some UntrustedExternalForged)
    | _ => MkEnvelope FromFeed ExternalFeed (Some UntrustedExternal)
    end
  else match signature with
       | SigFailed =>
           let who := if operator then "Operator" else default "" senderAgentId in
           MkEnvelope (if operator then FromOperator else FromAgent)
             (FailedSender (if who ==? "" then "unknown sender" else who)) (Some RejectedSignature)
       | SigVerified =>
           if operator then MkEnvelope FromOperator OperatorVerified (Some VerifiedOperator)
           else MkEnvelope FromAgent (Teammate (default "" senderAgentId)) None
       | SigUnchecked =>
           if operator then
             if operatorTrusted
             then MkEnvelope FromOperator OperatorAttested (Some AttestedOperator)
             else MkEnvelope FromOperator OperatorUnverified (Some UnverifiedOperator)
           else MkEnvelope FromAgent (Teammate (default "" senderAgentId)) None
       end.

(** What the tool shows of an entry, but for the fields it copies from the message. *)
Record InboxView := MkInboxView {
  iv_from_kind : FromKind;
  iv_from : FromLabel;
  iv_trust : option Trust;
  iv_signature : SignatureStatus;
  iv_reason : option string;
  iv_key_id : option string;
  iv_budget : option (Z * option Z * option Z)
}.

Definition inboxMessageView (m : InboxMessage) (verdict : option VerifyResult) (operatorTrusted : bool)
    (peerTurnBudget : Z) (peerTurnsUsed : list (string * Z)) : InboxView :=
  let signature := signatureStatusOf verdict (string_field m "sender_kind") in
  let envelope := inboxTrustEnvelope (im_type m) (string_field m "sender_kind") (im_sender m) operatorTrusted signature in
  let reason := match verdict with Some v => truthy (vr_reason v) | None => None end in
  let key := match verdict with Some v => truthy (vr_keyId v) | None => None end in
  match te_from_kind envelope, signature with
  | FromAgent, (SigVerified | SigUnchecked) =>
      let used := default 0 (js_get (im_conversation m) peerTurnsUsed) in
      MkInboxView FromAgent (Teammate (default "" (im_sender m))) None signature reason key
        (Some (if 0 <? peerTurnBudget then (used, Some peerTurnBudget, Some (Z.max 0 (peerTurnBudget - used))) else (used, None, None)))
  | k, _ => MkInboxView k (te_from envelope) (te_trust envelope) signature reason key None
  end.

(** The messages of the tool [ekho_inbox]. *)
Definition ekho_inbox_messages (c : CachedInbox) : list InboxView :=
  map (fun e => inboxMessageView (ce_message e) (ce_verification e) (ci_operator_trusted c)
                  (effectiveConversationBudget (Some (bm_conversation_budgets (ci_meta c))) (im_conversation (ce_message e))
                     (normalizeTurnBudget (Some (bm_peer_turn_budget (ci_meta c)))))
                  (bm_peer_turns_used (ci_meta c)))
    (ci_entries c).

(** * Properties of the plugin's inbox

    A verdict belongs to the message it was computed for: a failure is never
    forgotten, and a passing label always rests on a passing verdict. *)

(** What is assumed of SHA-256 in hexadecimal: it tells texts apart, and its digests
    hold no NUL. *)
Class HexDigest `{NodeCrypto} := {
  sha_apart : forall x y, node_sha256 x = node_sha256 y -> x = y;
  sha_hex : forall x, NUL ∉ chars (node_sha256 x)
}.

Section Ring.
Context `{HexDigest}.

Lemma digest_same_id m m' : materialDigest m = materialDigest m' -> im_id m = im_id m'.
Proof. intros Hd%sha_apart%canonical_text_same. by apply same_json_string_field. Qed.

Lemma digest_same_held m m' : materialDigest m = materialDigest m' -> heldKey m = heldKey m'.
Proof. intros Hd. unfold heldKey. by rewrite Hd, (digest_same_id m m' Hd). Qed.

Lemma drop_while_prefix {A} (p : A -> bool) l r : Forall (fun x => p x = true) l -> drop_while p (l ++ r) = drop_while p r.
Proof. induction 1 as [|x l Hx _ IH]; [done|]. simpl. by rewrite Hx. Qed.

Lemma heldKeyId_held m : heldKeyId (heldKey m) = default "" (im_id m).
Proof.
  unfold heldKeyId, heldKey. rewrite chars_app, drop_while_prefix.
  - simpl. apply string_of_list_ascii_of_string.
  - apply Forall_forall. intros c Hc. apply negb_true_iff, bool_decide_false. intros ->.
    unfold materialDigest in Hc. by apply sha_hex in Hc.
Qed.

(** The messages of a batch that share a message's id are that message. *)
Lemma claims_alone messages m m' : m ∈ messages -> m' ∈ messages -> default "" (im_id m) = default "" (im_id m') ->
  (length (claims_of messages (heldKeyId (heldKey m))) <= 1)%nat -> heldKey m' = heldKey m.
Proof.
  intros Hm Hm' Hid Hl. unfold claims_of in Hl. set (l := remove_dups _) in *.
  assert (Hin : forall x, x ∈ messages -> default "" (im_id x) = default "" (im_id m) -> heldKey x ∈ l).
  { intros x Hx He. unfold l. apply elem_of_remove_dups, elem_of_where. split; [by apply list_elem_of_fmap_2|].
    apply bool_decide_eq_true. by rewrite !heldKeyId_held. }
  pose proof (Hin m Hm eq_refl) as H1. pose proof (Hin m' Hm' (eq_sym Hid)) as H2.
  destruct l as [|a [|b l']]; [by apply elem_of_nil in H1| |simpl in Hl; lia].
  apply list_elem_of_singleton in H1, H2. congruence.
Qed.

(** What the map of a batch says of a key: the verdict of a message that owns it. *)
Lemma bound_verdict messages vs k r : verdict_at (batchVerdictsByHeldKey messages vs) k = Some r ->
  exists m, m ∈ messages /\ heldKey m = k /\ verdict_at vs (id_key m) = Some r /\
    forall m', m' ∈ messages -> default "" (im_id m') = default "" (im_id m) -> heldKey m' = k.
Proof.
  unfold batchVerdictsByHeldKey.
  assert (Hgen : forall l out, (forall m, m ∈ l -> m ∈ messages) -> (forall k r, verdict_at out k = Some r ->
      exists m, m ∈ messages /\ heldKey m = k /\ verdict_at vs (id_key m) = Some r /\
        forall m', m' ∈ messages -> default "" (im_id m') = default "" (im_id m) -> heldKey m' = k) ->
    forall k r, verdict_at (foldl (bind_verdict messages vs) out l) k = Some r ->
      exists m, m ∈ messages /\ heldKey m = k /\ verdict_at vs (id_key m) = Some r /\
        forall m', m' ∈ messages -> default "" (im_id m') = default "" (im_id m) -> heldKey m' = k).
  { induction l as [|m l IH]; intros out Hl Hout; [done|]. simpl. apply IH; [intros x Hx; apply Hl; by right|].
    clear k r. intros k r. unfold bind_verdict. unfold verdict_at at 1. destruct (decide (heldKey m = k)) as [Hk|Hk].
    - subst k. rewrite lookup_insert_eq. simpl. destruct (Nat.ltb_spec 1 (length (claims_of messages (heldKeyId (heldKey m))))); [done|].
      intros Hr. exists m. split_and!; [apply Hl; by left|done|done|]. intros m' Hm' Hid.
      eapply claims_alone; [|exact Hm'|by symmetry|done]. apply Hl. by left.
    - rewrite lookup_insert_ne by done. apply Hout. }
  apply Hgen; [done|]. intros k0 r0. unfold verdict_at. by rewrite lookup_empty.
Qed.

(** ** Runs *)

Inductive ring_op :=
  | RingBatch (now : Z) (b : PluginBatch) (localBudget : option Z) (agentId context : string)
  | RingVerdicts (vs : Verdicts) (rejects : list (InboxMessage * VerifyResult)) (messages : list InboxMessage)
      (agentId context : string)
  | RingUsage (used : list (string * Z)) (agentId context : string)
  | RingRead (agentId context : string).

Definition ring_step (reg : InboxRegistry) (op : ring_op) : InboxRegistry :=
  match op with
  | RingBatch now b localBudget agentId context => recordBatch reg now b localBudget agentId context
  | RingVerdicts vs rejects messages agentId context => recordVerifications reg vs rejects (Some messages) agentId context
  | RingUsage used agentId context => recordPeerUsage reg used agentId context
  | RingRead agentId context => fst (getCachedInbox reg agentId context)
  end.

Definition ring_run (reg : InboxRegistry) (ops : list ring_op) : InboxRegistry := foldl ring_step reg ops.

(** The loop records as rejects only messages that failed. *)
Definition ring_op_ok (op : ring_op) : Prop :=
  match op with RingVerdicts _ rejects _ _ _ => Forall (fun r => vr_verified (snd r) = false) rejects | _ => True end.

(** Where a passing verdict on an entry comes from. *)
Definition proved_by (agentId context : string) (k : string) (r : VerifyResult) (op : ring_op) : Prop :=
  match op with
  | RingVerdicts vs _ messages a c =>
      a = agentId /\ c = context /\ exists m, m ∈ messages /\ heldKey m = k /\ verdict_at vs (id_key m) = Some r /\
        forall m', m' ∈ messages -> default "" (im_id m') = default "" (im_id m) -> heldKey m' = k
  | _ => False
  end.

Record entry_ok (ops : list ring_op) (agentId context : string) (rejects : gmap string VerifyResult)
    (ie : string * CachedInboxEntry) : Prop := {
  eo_id : im_id (ce_message (snd ie)) = Some (fst ie);
  eo_rejected : is_Some (rejects !! materialDigest (ce_message (snd ie))) -> failed_verdict (ce_verification (snd ie)) = true;
  eo_proved : forall r, ce_verification (snd ie) = Some r -> vr_verified r = true ->
    Exists (proved_by agentId context (heldKey (ce_message (snd ie))) r) ops
}.

Record cache_ok (ops : list ring_op) (agentId : string) (c : AgentInboxCache) : Prop := {
  co_keys : NoDup (js_keys (ic_entries c));
  co_rejects : map_Forall (fun _ v => vr_verified v = false) (ic_rejects c);
  co_entries : Forall (entry_ok ops agentId (ic_context c) (ic_rejects c)) (ic_entries c);
  co_unrecorded : bm_recorded_at (ic_meta c) = None -> ic_entries c = []
}.

Lemma freshCache_ok ops agentId context rejects :
  map_Forall (fun _ v => vr_verified v = false) rejects -> cache_ok ops agentId (freshCache context rejects).
Proof. intros Hr. split; simpl; [constructor|done|constructor|done]. Qed.

Lemma keep_failures_spec c : map_Forall (fun _ v => vr_verified v = false) (ic_rejects c) ->
  map_Forall (fun _ v => vr_verified v = false) (keep_failures c) /\ dom (ic_rejects c) ⊆ dom (keep_failures c).
Proof.
  unfold keep_failures. generalize (ic_rejects c) as rj. induction (ic_entries c) as [|ie l IH]; intros rj Hr; simpl; [done|].
  destruct (ce_verification (snd ie)) as [v|]; [|by apply IH]. destruct (vr_verified v) eqn:Hv; [by apply IH|].
  destruct (IH (<[materialDigest (ce_message (snd ie)) := v]> rj)) as [Hf Hd].
  - by apply map_Forall_insert_2.
  - split; [done|]. set_solver.
Qed.

Lemma inboxCache_writer_ok ops reg agentId context :
  (forall c, reg !! agentId = Some c -> cache_ok ops agentId c) ->
  let c := snd (inboxCache reg agentId context false) in cache_ok ops agentId c /\ ic_context c = context /\
  (forall c0, reg !! agentId = Some c0 -> dom (ic_rejects c0) ⊆ dom (ic_rejects c)) /\
  (forall a, a <> agentId -> fst (inboxCache reg agentId context false) !! a = reg !! a).
Proof.
  intros Hok. unfold inboxCache. destruct (reg !! agentId) as [c|] eqn:Hc; simpl.
  - specialize (Hok c eq_refl). case_bool_decide as Hx; simpl.
    + split_and!; [done|done|by intros c0 [= <-]|done].
    + destruct (keep_failures_spec c (co_rejects _ _ _ Hok)) as [Hf Hd].
      split_and!; [by apply freshCache_ok|done|by intros c0 [= <-]|intros a Ha; by rewrite lookup_insert_ne].
  - split_and!; [by apply freshCache_ok|done|done|intros a Ha; by rewrite lookup_insert_ne].
Qed.

Lemma failed_verdict_not v r : failed_verdict v = true -> v = Some r -> vr_verified r = false.
Proof. intros Hf ->. by apply negb_true_iff in Hf. Qed.

(** The verdict a message enters the ring with. *)
Lemma record_message_ok ops agentId context rejects entries m :
  map_Forall (fun _ v => vr_verified v = false) rejects ->
  NoDup (js_keys entries) -> Forall (entry_ok ops agentId context rejects) entries ->
  let entries' := record_message rejects entries m in
  NoDup (js_keys entries') /\ Forall (entry_ok ops agentId context rejects) entries'.
Proof.
  intros Hr Hnd Hall. unfold record_message. destruct (truthy (im_id m)) as [i|] eqn:Hi; [|done].
  apply truthy_Some in Hi as [Hi _]. rewrite Forall_forall in Hall. split.
  { by apply js_put_NoDup, js_delete_NoDup. }
  apply Forall_forall. intros ie [->|[Hie _]%elem_of_js_delete]%elem_of_js_put; [|by apply Hall].
  set (fallback := rejects !! materialDigest m).
  assert (Hfb : forall r, fallback = Some r -> vr_verified r = false) by (intros r Hl; by apply (Hr _ _ Hl)).
  destruct (js_get i entries) as [held|] eqn:Hg.
  - apply js_get_Some_elem in Hg. destruct (Hall _ Hg) as [Hid Hrj Hp]. simpl in *.
    unfold sameSignedMaterial. case_bool_decide as Hd; split; simpl; try done.
    + by rewrite <- Hd.
    + rewrite <- (digest_same_held _ _ Hd). exact Hp.
    + intros [v Hv]. fold fallback in Hv. rewrite Hv. simpl. by rewrite (Hfb v Hv).
    + intros r Hv Ht. apply Hfb in Hv. congruence.
  - split; simpl; [done| |].
    + intros [v Hv]. fold fallback in Hv. rewrite Hv. simpl. by rewrite (Hfb v Hv).
    + intros r Hv Ht. apply Hfb in Hv. congruence.
Qed.

Lemma record_messages_ok ops agentId context rejects ms : map_Forall (fun _ v => vr_verified v = false) rejects -> forall entries,
  NoDup (js_keys entries) -> Forall (entry_ok ops agentId context rejects) entries ->
  let entries' := foldl (record_message rejects) entries ms in
  NoDup (js_keys entries') /\ Forall (entry_ok ops agentId context rejects) entries'.
Proof.
  intros Hr. induction ms as [|m ms IH]; intros entries Hnd Hall; simpl; [done|].
  destruct (record_message_ok ops agentId context rejects entries m Hr Hnd Hall). by apply IH.
Qed.

(** One reject: its digest joins the failures, and the entry that holds it fails. *)
Lemma record_reject_ok ops agentId context entries rejects r :
  vr_verified (snd r) = false -> map_Forall (fun _ v => vr_verified v = false) rejects ->
  NoDup (js_keys entries) -> Forall (entry_ok ops agentId context rejects) entries ->
  let '(entries', rejects') := record_reject (entries, rejects) r in
  map_Forall (fun _ v => vr_verified v = false) rejects' /\ dom rejects ⊆ dom rejects' /\
  NoDup (js_keys entries') /\ Forall (entry_ok ops agentId context rejects') entries'.
Proof.
  intros Hv Hr Hnd Hall. destruct r as [m v]. simpl in *. destruct (im_id m) as [i|] eqn:Hi; [|done].
  destruct (js_get i entries) as [e|] eqn:Hg; [|done]. unfold sameSignedMaterial. case_bool_decide as Hd; [|done].
  rewrite Hv. split_and!; [by apply map_Forall_insert_2|set_solver|by apply js_put_NoDup|].
  rewrite Forall_forall in Hall. pose proof (js_get_Some_elem _ _ _ Hg) as Hin.
  apply Forall_forall. intros ie [->|[Hie Hne]]%elem_of_js_put_unique; [| |done].
  - destruct (Hall _ Hin) as [Hid _ _]. split; simpl in *; [done|by rewrite Hv|intros r [= <-]; congruence].
  - destruct (Hall _ Hie) as [Hid Hrj Hp]. split; [done| |done]. rewrite lookup_insert_ne; [done|].
    intros He. apply Hne. apply digest_same_id in He. rewrite Hi, Hid in He. by injection He.
Qed.

Lemma record_rejects_ok ops agentId context rs : Forall (fun r => vr_verified (snd r) = false) rs -> forall entries rejects,
  map_Forall (fun _ v => vr_verified v = false) rejects ->
  NoDup (js_keys entries) -> Forall (entry_ok ops agentId context rejects) entries ->
  let '(entries', rejects') := foldl record_reject (entries, rejects) rs in
  map_Forall (fun _ v => vr_verified v = false) rejects' /\ dom rejects ⊆ dom rejects' /\
  NoDup (js_keys entries') /\ Forall (entry_ok ops agentId context rejects') entries'.
Proof.
  induction 1 as [|r rs Hv _ IH]; intros entries rejects Hr Hnd Hall; cbn [foldl]; [done|].
  pose proof (record_reject_ok ops agentId context entries rejects r Hv Hr Hnd Hall) as Hs.
  destruct (record_reject (entries, rejects) r) as [e1 r1]. destruct Hs as (Hr1 & Hd1 & Hn1 & Ha1).
  specialize (IH e1 r1 Hr1 Hn1 Ha1). destruct (foldl record_reject (e1, r1) rs) as [e2 r2].
  destruct IH as (? & ? & ? & ?). split_and!; [done|set_solver|done|done].
Qed.

Lemma js_keys_label vs bound rejects entries : js_keys (map (label_entry vs bound rejects) entries) = js_keys entries.
Proof.
  unfold js_keys. rewrite map_map. apply map_ext. intros [i e]. unfold label_entry. simpl.
  destruct (verdict_at vs i); [|done]. by destruct (match bound with Some bs => _ | None => _ end).
Qed.

Lemma label_entry_message vs bound rejects ie :
  fst (label_entry vs bound rejects ie) = fst ie /\ ce_message (snd (label_entry vs bound rejects ie)) = ce_message (snd ie).
Proof.
  destruct ie as [i e]. unfold label_entry. destruct (verdict_at vs i); [|done].
  by destruct (match bound with Some bs => _ | None => _ end).
Qed.

Lemma entry_ok_mono ops ops' agentId context rejects ie :
  entry_ok ops agentId context rejects ie -> (forall op, op ∈ ops -> op ∈ ops') -> entry_ok ops' agentId context rejects ie.
Proof.
  intros [Hid Hrj Hp] Hsub. split; [done|done|]. intros r Hr Ht. specialize (Hp r Hr Ht).
  apply Exists_exists in Hp as (op & Hop & Hpr). apply Exists_exists. exists op. split; [by apply Hsub|done].
Qed.

Lemma cache_ok_mono ops ops' agentId c : cache_ok ops agentId c -> (forall op, op ∈ ops -> op ∈ ops') -> cache_ok ops' agentId c.
Proof.
  intros [Hk Hr He Hu] Hsub. split; [done|done| |done]. eapply Forall_impl; [exact He|]. intros ie Hie. by eapply entry_ok_mono.
Qed.

(** The labels of a batch. *)
Lemma label_entry_ok ops agentId context vs rs messages rejects ie :
  map_Forall (fun _ v => vr_verified v = false) rejects -> entry_ok ops agentId context rejects ie ->
  entry_ok (ops ++ [RingVerdicts vs rs messages agentId context]) agentId context rejects
    (label_entry vs (Some (batchVerdictsByHeldKey messages vs)) rejects ie).
Proof.
  intros Hr Hie. assert (Hold : entry_ok (ops ++ [RingVerdicts vs rs messages agentId context]) agentId context rejects ie).
  { eapply entry_ok_mono; [exact Hie|]. intros op Hop. apply elem_of_app. by left. }
  destruct ie as [i e]. unfold label_entry. destruct (verdict_at vs i) as [v|]; [|done].
  destruct (verdict_at (batchVerdictsByHeldKey messages vs) (heldKey (ce_message e))) as [r|] eqn:Hb; [|done].
  destruct Hold as [Hid _ _]. split; simpl in *; [done| |].
  - intros [v0 Hv0]. rewrite Hv0. simpl. by rewrite (Hr _ _ Hv0).
  - intros r0 [= <-] Ht. destruct (rejects !! materialDigest (ce_message e)) as [v0|] eqn:Hv0.
    { simpl in Ht. pose proof (Hr _ _ Hv0) as Hf. simpl in Hf. congruence. }
    simpl in Ht |- *. apply Exists_exists. eexists. split; [apply elem_of_app; right; by left|].
    apply bound_verdict in Hb as (m & Hm & Hk & Hv & Hu). simpl. split_and!; [done|done|]. by exists m.
Qed.

Definition ring_ok (ops : list ring_op) (reg : InboxRegistry) : Prop := forall a c, reg !! a = Some c -> cache_ok ops a c.

Definition failures (reg : InboxRegistry) (a : string) : gset string :=
  match reg !! a with Some c => dom (ic_rejects c) | None => ∅ end.

(** An operation that rewrites one agent's cache. *)
Lemma ring_write_ok ops ops' reg agentId c :
  ring_ok ops reg -> (forall op, op ∈ ops -> op ∈ ops') -> cache_ok ops' agentId c ->
  failures reg agentId ⊆ dom (ic_rejects c) ->
  ring_ok ops' (<[agentId := c]> reg) /\ forall a, failures reg a ⊆ failures (<[agentId := c]> reg) a.
Proof.
  intros Hok Hsub Hc Hd. split.
  - intros a c'. destruct (decide (a = agentId)) as [->|Hn].
    + rewrite lookup_insert_eq. by intros [= <-].
    + rewrite lookup_insert_ne by done. intros Hl. eapply cache_ok_mono; [by apply Hok|done].
  - intros a. unfold failures at 2. destruct (decide (a = agentId)) as [->|Hn].
    + by rewrite lookup_insert_eq.
    + rewrite lookup_insert_ne by done. done.
Qed.

Lemma ring_step_ok ops reg op : ring_ok ops reg -> ring_op_ok op ->
  ring_ok (ops ++ [op]) (ring_step reg op) /\ forall a, failures reg a ⊆ failures (ring_step reg op) a.
Proof.
  intros Hok Hop. assert (Hsub : forall o, o ∈ ops -> o ∈ (ops ++ [op])%list) by (intros o Ho; apply elem_of_app; by left).
  assert (Hw : forall agentId context, let c := snd (inboxCache reg agentId context false) in
    cache_ok ops agentId c /\ ic_context c = context /\ failures reg agentId ⊆ dom (ic_rejects c)).
  { intros agentId context. destruct (inboxCache_writer_ok ops reg agentId context (Hok agentId)) as (H1 & H2 & H3 & _).
    split_and!; [done|done|]. unfold failures. destruct (reg !! agentId) as [c0|] eqn:Hc; [by apply H3|set_solver]. }
  destruct op as [now b lb agentId context|vs rs ms agentId context|used agentId context|agentId context]; simpl.
  - unfold recordBatch. destruct (Hw agentId context) as ([Hk Hr He Hu] & Hx & Hd).
    destruct (inboxCache reg agentId context false) as [reg' c]. simpl in *.
    apply (ring_write_ok ops); [done|done| |done].
    destruct (record_messages_ok ops agentId (ic_context c) (ic_rejects c) (pb_messages b) Hr _ Hk He) as [Hk' He'].
    split; simpl; [by apply js_evict_NoDup|done| |done]. apply Forall_forall. intros ie Hie%js_evict_elem.
    rewrite Forall_forall in He'. eapply entry_ok_mono; [by apply He'|done].
  - unfold recordVerifications. destruct (Hw agentId context) as ([Hk Hr He Hu] & Hx & Hd).
    destruct (inboxCache reg agentId context false) as [reg' c]. simpl in *.
    set (labelled := map (label_entry vs (Some (batchVerdictsByHeldKey ms vs)) (ic_rejects c)) (ic_entries c)).
    assert (Hl : Forall (entry_ok (ops ++ [RingVerdicts vs rs ms agentId context]) agentId (ic_context c) (ic_rejects c)) labelled).
    { apply Forall_forall. intros ie (ie0 & -> & Hin)%list_elem_of_fmap. rewrite Forall_forall in He. rewrite Hx.
      apply label_entry_ok; [done|]. rewrite <- Hx. by apply He. }
    pose proof (record_rejects_ok _ agentId (ic_context c) rs Hop labelled (ic_rejects c) Hr
      ltac:(unfold labelled; by rewrite js_keys_label) Hl) as Hrs.
    destruct (foldl record_reject (labelled, ic_rejects c) rs) as [e2 r2] eqn:Hf. destruct Hrs as (Hr2 & Hd2 & Hn2 & Ha2).
    apply (ring_write_ok ops); [done|done| |simpl; set_solver]. split; simpl; [done..|]. intros Hn.
    assert (Hnil : forall l r, fst (foldl record_reject ([], r) l) = []).
    { induction l as [|[m v] l IHl]; intros r; [done|]. simpl. destruct (im_id m); apply IHl. }
    specialize (Hnil rs (ic_rejects c)). unfold labelled in Hf. rewrite (Hu Hn) in Hf. simpl in Hf. by rewrite Hf in Hnil.
  - unfold recordPeerUsage. destruct (Hw agentId context) as ([Hk Hr He Hu] & Hx & Hd).
    destruct (inboxCache reg agentId context false) as [reg' c]. simpl in *.
    apply (ring_write_ok ops); [done|done| |done]. split; simpl; [done|done| |done].
    eapply Forall_impl; [exact He|]. intros ie Hie. by eapply entry_ok_mono.
  - unfold getCachedInbox, inboxCache. destruct (reg !! agentId) as [c|] eqn:Hc.
    + assert (Hsame : ring_ok (ops ++ [RingRead agentId context]) reg /\ forall a, failures reg a ⊆ failures reg a).
      { split; [|done]. intros a c' Hl. eapply cache_ok_mono; [by apply Hok|done]. }
      by case_bool_decide.
    + apply (ring_write_ok ops); [done|done|by apply freshCache_ok|]. unfold failures. by rewrite Hc.
Qed.

Lemma ring_run_ok ops2 : Forall ring_op_ok ops2 -> forall ops reg, ring_ok ops reg ->
  ring_ok (ops ++ ops2) (ring_run reg ops2) /\ forall a, failures reg a ⊆ failures (ring_run reg ops2) a.
Proof.
  induction 1 as [|op ops2 Hop _ IH]; intros ops reg Hok; cbn [ring_run foldl].
  - by rewrite app_nil_r.
  - destruct (ring_step_ok ops reg op Hok Hop) as [Hok' Hf]. destruct (IH _ _ Hok') as [Hok2 Hf2].
    rewrite <- app_assoc in Hok2. split; [exact Hok2|]. intros a. etransitivity; [apply Hf|apply Hf2].
Qed.

Lemma ring_ok_empty : ring_ok [] ∅.
Proof. intros a c. by rewrite lookup_empty. Qed.

(** What a reader sees of an agent's entries. *)
Lemma read_entry reg ops agentId context e : ring_ok ops reg -> e ∈ ci_entries (snd (getCachedInbox reg agentId context)) ->
  exists c ie, reg !! agentId = Some c /\ ie ∈ ic_entries c /\ ce_message e = ce_message (snd ie) /\
    (failed_verdict (ce_verification (snd ie)) = true -> ce_verification e = ce_verification (snd ie)) /\
    (forall r, ce_verification e = Some r -> vr_verified r = true ->
       ce_verification (snd ie) = Some r /\ contextParts (ic_context c) = contextParts context).
Proof.
  intros Hok. unfold getCachedInbox, inboxCache. destruct (reg !! agentId) as [c|] eqn:Hc.
  2:{ simpl. by intros ?%elem_of_nil. }
  case_bool_decide as Hconn; [|simpl; by intros ?%elem_of_nil]. cbn [snd fst ci_entries].
  intros (ie & -> & Hie)%list_elem_of_fmap. exists c, ie. split; [done|]. split; [done|].
  destruct (bm_recorded_at (ic_meta c)) as [t|] eqn:Ht.
  2:{ rewrite (co_unrecorded _ _ _ (Hok _ _ Hc) Ht) in Hie. by apply elem_of_nil in Hie. }
  case_bool_decide as Hgen; destruct (ce_verification (snd ie)) as [v|] eqn:Hv; cbn [andb];
    try destruct (vr_verified v) eqn:Hvv; cbn [ce_message ce_verification]; rewrite ?Hv; split_and!; try done.
  - intros r [= <-] Hr. split; [done|]. destruct (contextParts (ic_context c)), (contextParts context); simpl in *; congruence.
  - intros r [= <-] Hr. congruence.
  - intros Hf. simpl in Hf. by rewrite Hvv in Hf.
  - intros r [= <-] Hr. congruence.
Qed.

(** Every reject the ring holds joins the failures. *)
Lemma record_reject_mono acc r : dom (snd acc) ⊆ dom (snd (record_reject acc r)) /\
  forall i e, js_get i (fst acc) = Some e ->
    exists e', js_get i (fst (record_reject acc r)) = Some e' /\ ce_message e' = ce_message e.
Proof.
  destruct acc as [entries rejects], r as [m v]. simpl. destruct (im_id m) as [i0|]; [|by split; eauto].
  destruct (js_get i0 entries) as [e0|] eqn:Hg; [|by split; eauto]. destruct (sameSignedMaterial _ _); [|by split; eauto].
  simpl. split; [destruct (vr_verified v); set_solver|]. intros i e He. rewrite js_get_put. case_bool_decide as Hi; [|by eauto].
  subst i0. rewrite Hg in He. injection He as ->. by eexists.
Qed.

Lemma rejected_joins rs : Forall (fun r => vr_verified (snd r) = false) rs -> forall m v i e entries rejects,
  (m, v) ∈ rs -> im_id m = Some i -> js_get i entries = Some e -> materialDigest (ce_message e) = materialDigest m ->
  materialDigest m ∈ dom (snd (foldl record_reject (entries, rejects) rs)).
Proof.
  assert (Hmono : forall l acc, dom (snd acc) ⊆ dom (snd (foldl record_reject acc l))).
  { induction l as [|r l IH]; intros acc; [done|]. cbn [foldl]. etransitivity; [apply (record_reject_mono acc r)|apply IH]. }
  induction 1 as [|r rs Hv _ IH]; intros m v i e entries rejects Hin Hi Hg Hd; [by apply elem_of_nil in Hin|].
  cbn [foldl]. apply elem_of_cons in Hin as [<-|Hin].
  - apply Hmono. simpl in *. rewrite Hi, Hg. unfold sameSignedMaterial. rewrite bool_decide_true, Hv by done. simpl. set_solver.
  - destruct (record_reject_mono (entries, rejects) r) as [_ Hk]. destruct (Hk i e Hg) as (e' & Hg' & Hm).
    destruct (record_reject (entries, rejects) r) as [e2 r2]. rewrite <- Hm in Hd. by eapply IH.
Qed.

(** A failure is never forgotten. Once a message that the ring holds is rejected,
    whatever batches, redeliveries, verdicts, trust changes and evictions follow, every
    reading of the agent's inbox that shows this material shows it as failed, never as
    an ordinary teammate and never with the operator's authority. *)
Theorem failed_material_stays_failed ops1 ops2 agentId context vs rejects messages m v i e context' operatorTrusted budget used e' :
  Forall ring_op_ok (ops1 ++ RingVerdicts vs rejects messages agentId context :: ops2) ->
  let reg := ring_run ∅ ops1 in
  (m, v) ∈ rejects -> im_id m = Some i ->
  js_get i (ic_entries (snd (inboxCache reg agentId context false))) = Some e -> materialDigest (ce_message e) = materialDigest m ->
  let reg' := ring_run (ring_step reg (RingVerdicts vs rejects messages agentId context)) ops2 in
  e' ∈ ci_entries (snd (getCachedInbox reg' agentId context')) -> materialDigest (ce_message e') = materialDigest m ->
  let view := inboxMessageView (ce_message e') (ce_verification e') operatorTrusted budget used in
  iv_signature view = SigFailed /\ (iv_trust view = Some RejectedSignature \/ iv_trust view = Some UntrustedExternalForged).
Proof.
  intros [Hok1 [Hop Hok2]%Forall_cons]%Forall_app reg Hrs Hi Hg Hd reg' He' Hd' view. simpl in Hop.
  destruct (ring_run_ok ops1 Hok1 [] ∅ ring_ok_empty) as [Hreg _]. fold reg in Hreg. simpl in Hreg.
  destruct (ring_step_ok _ _ (RingVerdicts vs rejects messages agentId context) Hreg Hop) as [Hreg1 _].
  assert (Hin : materialDigest m ∈ failures (ring_step reg (RingVerdicts vs rejects messages agentId context)) agentId).
  { unfold failures. cbn [ring_step]. unfold recordVerifications. destruct (inboxCache reg agentId context false) as [r0 c].
    simpl in Hg.
    assert (Hg' : exists e2, js_get i (map (label_entry vs (Some (batchVerdictsByHeldKey messages vs)) (ic_rejects c)) (ic_entries c)) = Some e2 /\
      ce_message e2 = ce_message e).
    { clear -Hg. revert Hg. induction (ic_entries c) as [|[k x] l IH]; intros Hg; [done|]. cbn [map]. rewrite js_get_cons in Hg.
      destruct (label_entry_message vs (Some (batchVerdictsByHeldKey messages vs)) (ic_rejects c) (k, x)) as [Hk Hm].
      destruct (label_entry _ _ _ (k, x)) as [k' x']. simpl in Hk, Hm. subst k'. rewrite js_get_cons.
      case_bool_decide; [|by apply IH]. injection Hg as ->. by exists x'. }
    destruct Hg' as (e2 & Hg' & Hm2). rewrite <- Hm2 in Hd. simpl in Hg' |- *.
    pose proof (rejected_joins rejects Hop m v i e2 _ (ic_rejects c) Hrs Hi Hg' Hd) as Hj.
    destruct (foldl record_reject _ rejects) as [e3 r3]. by rewrite lookup_insert_eq. }
  destruct (ring_run_ok ops2 Hok2 _ _ Hreg1) as [Hreg2 Hf]. specialize (Hf agentId _ Hin). fold reg' in Hreg2, Hf.
  destruct (read_entry _ _ _ _ _ Hreg2 He') as (c & ie & Hc & Hie & Hm & Hsame & _).
  unfold failures in Hf. rewrite Hc in Hf. apply elem_of_dom in Hf.
  pose proof (co_entries _ _ _ (Hreg2 _ _ Hc)) as Hall. rewrite Forall_forall in Hall. destruct (Hall _ Hie) as [_ Hrej _].
  rewrite <- Hm, Hd' in Hrej. specialize (Hrej Hf).
  unfold view, inboxMessageView. rewrite (Hsame Hrej). destruct (ce_verification (snd ie)) as [w|]; [|done]. simpl in Hrej. apply negb_true_iff in Hrej.
  assert (Hsig : signatureStatusOf (Some w) (string_field (ce_message e') "sender_kind") = SigFailed).
  { unfold signatureStatusOf. rewrite Hrej. by destruct (match string_field _ _ with Some k => _ | None => false end). }
  rewrite Hsig. unfold inboxTrustEnvelope. case_bool_decide; simpl; [by split; [|right]|].
  case_bool_decide; simpl; by split; [|left].
Qed.

(** C29. A passing label rests on a passing verdict. When a reading of an agent's inbox
    shows a message as verified, the verification was of this very message (by its held
    key) in a batch in which no other message claimed its id, it passed, it was of the
    sender's kind, and it was made under the connection and the trust pins the reader
    has: a verdict never passes to a reused id, to altered content, or across a change
    of the pinned keys. *)
Theorem verified_label_is_earned ops agentId context operatorTrusted budget used e :
  Forall ring_op_ok ops ->
  e ∈ ci_entries (snd (getCachedInbox (ring_run ∅ ops) agentId context)) ->
  iv_signature (inboxMessageView (ce_message e) (ce_verification e) operatorTrusted budget used) = SigVerified ->
  exists vs rejects messages context' m r,
    RingVerdicts vs rejects messages agentId context' ∈ ops /\ contextParts context' = contextParts context /\
    m ∈ messages /\ heldKey m = heldKey (ce_message e) /\ verdict_at vs (id_key m) = Some r /\ vr_verified r = true /\
    (forall m', m' ∈ messages -> default "" (im_id m') = default "" (im_id m) -> heldKey m' = heldKey (ce_message e)) /\
    (forall k, string_field (ce_message e) "sender_kind" = Some k -> (vr_kind r = KOperator <-> k = "operator")).
Proof.
  intros Hok He Hv. destruct (ring_run_ok ops Hok [] ∅ ring_ok_empty) as [Hreg _]. simpl in Hreg.
  destruct (read_entry _ _ _ _ _ Hreg He) as (c & ie & Hc & Hie & Hm & _ & Hp).
  assert (Hr : exists r, ce_verification e = Some r /\ vr_verified r = true /\
    forall k, string_field (ce_message e) "sender_kind" = Some k -> (vr_kind r = KOperator <-> k = "operator")).
  { unfold inboxMessageView in Hv.
    assert (Hs : signatureStatusOf (ce_verification e) (string_field (ce_message e) "sender_kind") = SigVerified).
    { destruct (signatureStatusOf _ _); [done| |]; by destruct (te_from_kind _). }
    clear Hv. destruct (ce_verification e) as [r|]; [|done]. exists r. split; [done|]. unfold signatureStatusOf in Hs.
    destruct (string_field (ce_message e) "sender_kind") as [k|].
    - destruct (vr_kind r); case_bool_decide as Hk; simpl in Hs; destruct (vr_verified r); try done;
        (split; [done|]); intros k' [= <-]; by split.
    - destruct (vr_verified r); [|done]. by split. }
  destruct Hr as (r & Hr & Ht & Hkind). destruct (Hp r Hr Ht) as [Hvi Hctx].
  pose proof (co_entries _ _ _ (Hreg _ _ Hc)) as Hall. rewrite Forall_forall in Hall. destruct (Hall _ Hie) as [_ _ Hproved].
  specialize (Hproved r Hvi Ht). apply Exists_exists in Hproved as (op & Hop & Hpr). destruct op; simpl in Hpr; try done.
  destruct Hpr as (-> & -> & m & Hmm & Hk & Hvm & Hu). rewrite <- Hm in Hk, Hu.
  exists vs, rejects, messages, (ic_context c), m, r. split_and!; try done.
Qed.
End Ring.

(** ** Witnesses *)

(** A digest that escapes its text: it tells texts apart and holds no control
    character. *)
Definition escaping_node : NodeCrypto :=
  {| node_sha256 := escape_string; node_hmac_sha256 := fun k t => k +:+ t; date_parse := fun _ => Some 0 |}.

Lemma escape_no_nul s : NUL ∉ chars (escape_string s).
Proof.
  assert (Hc : forallb (fun c => negb (bool_decide (NUL ∈ chars (escape_char c)))) all_chars = true) by (vm_compute; reflexivity).
  rewrite forallb_forall in Hc. induction s as [|c s IH]; [apply not_elem_of_nil|]. cbn [escape_string].
  rewrite chars_app, not_elem_of_app. split; [|done].
  specialize (Hc c (proj1 (list_elem_of_In _ _) (elem_of_all_chars c))). by apply negb_true_iff, bool_decide_eq_false in Hc.
Qed.

Lemma escaping_apart x y : escape_string x = escape_string y -> x = y.
Proof. intros He. destruct (escape_cut x y [] []) as [? _]; [by rewrite He|done]. Qed.

Definition escaping_hex : @HexDigest escaping_node := @Build_HexDigest escaping_node escaping_apart escape_no_nul.

Local Existing Instance escaping_node.
Local Existing Instance escaping_hex.

Definition demo_wire (id sender text : string) : InboxMessage :=
  JObj [("message_id", JStr id); ("conversation_id", JStr "c1"); ("sender_agent_id", JStr sender); ("sender_kind", JStr "agent");
        ("message_type", JStr "direct"); ("body", JObj [("text", JStr text)])].
Definition demo_wire_batch (ms : list InboxMessage) : PluginBatch := MkPluginBatch ms [] false [] None None (Some "f") [] [] None.
Definition demo_failed : VerifyResult := MkVerdict false KPeer (Some "bad-signature") (Some "k").
Definition demo_passed : VerifyResult := MkVerdict true KPeer None (Some "k").
Definition demo_later : list ring_op :=
  [RingBatch 20 (demo_wire_batch [demo_wire "m2" "a2" "other"]) None "me" "conn.gen2";
   RingVerdicts {["m1" := Some demo_passed]} [] [demo_wire "m1" "a2" "pay me"] "me" "conn.gen2";
   RingBatch 30 (demo_wire_batch [demo_wire "m1" "a2" "pay me"]) None "me" "conn.gen2"].

Lemma failed_material_stays_failed_witness :
  let reg := ring_run ∅ [RingBatch 10 (demo_wire_batch [demo_wire "m1" "a2" "pay me"]) None "me" "conn.gen"] in
  let reg' := ring_run (ring_step reg
    (RingVerdicts ∅ [(demo_wire "m1" "a2" "pay me", demo_failed)] [demo_wire "m1" "a2" "pay me"] "me" "conn.gen")) demo_later in
  let e := MkCached (demo_wire "m1" "a2" "pay me") (Some demo_failed) in
  ci_entries (snd (getCachedInbox reg' "me" "conn.gen2")) = [MkCached (demo_wire "m2" "a2" "other") None; e] /\
  iv_signature (inboxMessageView (ce_message e) (ce_verification e) true 0 []) = SigFailed.
Proof.
  assert (He : ci_entries (snd (getCachedInbox (ring_run (@ring_step escaping_node
    (ring_run ∅ [RingBatch 10 (demo_wire_batch [demo_wire "m1" "a2" "pay me"]) None "me" "conn.gen"])
    (RingVerdicts ∅ [(demo_wire "m1" "a2" "pay me", demo_failed)] [demo_wire "m1" "a2" "pay me"] "me" "conn.gen")) demo_later) "me" "conn.gen2"))
    = [MkCached (demo_wire "m2" "a2" "other") None; MkCached (demo_wire "m1" "a2" "pay me") (Some demo_failed)])
    by (vm_compute; reflexivity).
  split; [exact He|].
  refine (proj1 (failed_material_stays_failed
    [RingBatch 10 (demo_wire_batch [demo_wire "m1" "a2" "pay me"]) None "me" "conn.gen"] demo_later "me" "conn.gen" ∅
    [(demo_wire "m1" "a2" "pay me", demo_failed)] [demo_wire "m1" "a2" "pay me"] (demo_wire "m1" "a2" "pay me") demo_failed "m1"
    (MkCached (demo_wire "m1" "a2" "pay me") None) "conn.gen2" true 0 []
    (MkCached (demo_wire "m1" "a2" "pay me") (Some demo_failed)) _ _ _ _ _ _ _)).
  - repeat constructor.
  - left.
  - reflexivity.
  - vm_compute. reflexivity.
  - reflexivity.
  - rewrite He. right. left.
  - reflexivity.
Defined.

Definition demo_verified_ops : list ring_op :=
  [RingBatch 10 (demo_wire_batch [demo_wire "m1" "a2" "hello"]) None "me" "conn.gen";
   RingVerdicts {["m1" := Some demo_passed]} [] [demo_wire "m1" "a2" "hello"] "me" "conn.gen"].

Lemma verified_label_is_earned_witness :
  exists vs rejects messages, RingVerdicts vs rejects messages "me" "conn.gen" ∈ demo_verified_ops /\ vs !! "m1" = Some (Some demo_passed).
Proof.
  destruct (verified_label_is_earned demo_verified_ops "me" "conn.gen" true 0 []
    (MkCached (demo_wire "m1" "a2" "hello") (Some demo_passed))) as (vs & rj & ms & ctx & m & r & Hin & _).
  - repeat constructor.
  - vm_compute. left.
  - vm_compute. reflexivity.
  - apply elem_of_cons in Hin as [Hin|Hin]; [discriminate|]. apply list_elem_of_singleton in Hin. injection Hin as -> -> -> ->.
    exists {["m1" := Some demo_passed]}, [], [demo_wire "m1" "a2" "hello"]. split; [right; left|reflexivity].
Defined.
