(* ===== verification/AutoReply.v ===== *)
(** * Waking an agent

    [packages/openclaw-plugin/src/autoreply.ts]: which inbound messages may wake the
    agent, the rate and the budget of its teammates, and the messages held back
    while another agent has the floor. *)

From S2P Require Import Prelude Json IsoTime JsValues Identity TrustSync Verify Text CanonicalJson JsMap InboxRing.
Import Ascii String.
Open Scope string_scope.
Open Scope Z_scope.

(** ** Constants *)

Definition TRIGGER_TYPES : list string := ["direct"; "broadcast"; "handoff"; "claim"; "alert"].
Definition PROGRESS_SIGNAL_TYPES : list string := ["handoff"; "claim"; "complete"].
Definition PEER_RATE_MAX : Z := 5.
Definition PEER_RATE_WINDOW_MS : Z := 60000.
Definition PEER_LATCH_CONVERSATION_CAP : nat := 500.
Definition PROGRESS_REFRESH_MAX_PER_WINDOW : nat := 5.
Definition PROGRESS_REFRESH_WINDOW_MS : Z := 3600000.
Definition DEFERRED_GRACE_SECONDS : Z := 120.
Definition DEFERRED_CONVERSATION_CAP : nat := 50.
Definition DEFERRED_MESSAGES_PER_CONV : nat := 10.
Definition plugin_SEEN_CAP : nat := 500.

(** The environment's turn timeout, when it is a number of at least 60 seconds. *)
Definition TURN_TIMEOUT_SECONDS (configured : option Z) : Z :=
  match configured with Some t => if 60 <=? t then t else 900 | None => 900 end.
Definition FLOOR_TTL_SECONDS (configured : option Z) : Z := TURN_TIMEOUT_SECONDS configured + 60.
Definition DEFERRED_RETRY_TTL_MS (configured : option Z) : Z :=
  (FLOOR_TTL_SECONDS configured + DEFERRED_GRACE_SECONDS) * 1000.

Inductive DropReason :=
  | DeferredEvicted | DeferredOverflow | DeferredSpawnFailed | DeferredRetrySpawnFailed | DeferredLoopStopped | InflightLoopStopped.

(** ** The state of the loop *)

Record DeferredStashEntry := MkStashEntry {
  de_message : InboxMessage;
  de_verification : option VerifyResult;
  de_generation : option string
}.

(** [messages] is derived: [stash_messages]. *)
Record DeferredStash := MkStash { ds_entries : list DeferredStashEntry; ds_firstDeferredAtMs : Z }.
Definition stash_messages (s : DeferredStash) : list InboxMessage := map de_message (ds_entries s).

(** The sets with their eviction order are their order; [recentInboundByPeer] has a
    count and the start of its window. *)
Record AutoReplyState := MkAutoReply {
  ar_seen : list string;
  ar_seenNonces : list string;
  ar_recent : gmap string (Z * Z);
  ar_inFlight : bool;
  ar_turns : list (string * Z);
  ar_escalated : list string;
  ar_deferred : list (string * DeferredStash);
  ar_refreshes : list (string * list Z)
}.

Definition createAutoReplyState : AutoReplyState := MkAutoReply [] [] ∅ false [] [] [] [].

Definition with_seen x s := MkAutoReply x (ar_seenNonces s) (ar_recent s) (ar_inFlight s) (ar_turns s) (ar_escalated s) (ar_deferred s) (ar_refreshes s).
Definition with_nonces x s := MkAutoReply (ar_seen s) x (ar_recent s) (ar_inFlight s) (ar_turns s) (ar_escalated s) (ar_deferred s) (ar_refreshes s).
Definition with_recent x s := MkAutoReply (ar_seen s) (ar_seenNonces s) x (ar_inFlight s) (ar_turns s) (ar_escalated s) (ar_deferred s) (ar_refreshes s).
Definition with_inFlight x s := MkAutoReply (ar_seen s) (ar_seenNonces s) (ar_recent s) x (ar_turns s) (ar_escalated s) (ar_deferred s) (ar_refreshes s).
Definition with_turns x s := MkAutoReply (ar_seen s) (ar_seenNonces s) (ar_recent s) (ar_inFlight s) x (ar_escalated s) (ar_deferred s) (ar_refreshes s).
Definition with_escalated x s := MkAutoReply (ar_seen s) (ar_seenNonces s) (ar_recent s) (ar_inFlight s) (ar_turns s) x (ar_deferred s) (ar_refreshes s).
Definition with_deferred x s := MkAutoReply (ar_seen s) (ar_seenNonces s) (ar_recent s) (ar_inFlight s) (ar_turns s) (ar_escalated s) x (ar_refreshes s).
Definition with_refreshes x s := MkAutoReply (ar_seen s) (ar_seenNonces s) (ar_recent s) (ar_inFlight s) (ar_turns s) (ar_escalated s) (ar_deferred s) x.

(** A bounded set: the oldest goes when there are too many. *)
Definition add_bounded (cap : nat) (x : string) (l : list string) : list string :=
  if bool_decide (x ∈ l) then l else let l' := (l ++ [x])%list in drop (length l' - cap) l'.

Section Loop.
Context `{NodeCrypto}.

Definition markSeen (s : AutoReplyState) (m : InboxMessage) : AutoReplyState :=
  with_seen (add_bounded plugin_SEEN_CAP (heldKey m) (ar_seen s)) s.
Definition plugin_markNonceSeen (s : AutoReplyState) (nonce : string) : AutoReplyState :=
  with_nonces (add_bounded plugin_SEEN_CAP nonce (ar_seenNonces s)) s.

(** ** The latch of a conversation *)

Definition turns_used (s : AutoReplyState) (conversationId : string) : Z := default 0 (js_get conversationId (ar_turns s)).

Definition peerLatchOpen (s : AutoReplyState) (conversationId : string) (budget : Z) : bool :=
  if negb (isCapped (normalizeTurnBudget (Some budget))) then true else turns_used s conversationId <? budget.

Definition consumePeerLatch (s : AutoReplyState) (conversationId : string) : AutoReplyState :=
  with_turns (js_evict PEER_LATCH_CONVERSATION_CAP (js_put conversationId (turns_used s conversationId + 1) (ar_turns s))) s.

Definition resetPeerLatch (s : AutoReplyState) (conversationId : string) : AutoReplyState :=
  with_escalated (List.filter (fun c => negb (c ==? conversationId)) (ar_escalated s))
    (with_turns (js_delete conversationId (ar_turns s)) s).

(** One message of [applyPeerLatch]: whether it is kept. *)
Definition latch_message (budgets : option (list (string * Z))) (peerTurnBudget : Z) (s : AutoReplyState) (m : InboxMessage)
    : AutoReplyState * bool :=
  if from_operator m then (s, true)
  else
    let conv := im_conversation m in
    let budget := effectiveConversationBudget budgets conv peerTurnBudget in
    if peerLatchOpen s conv budget
    then ((if isCapped budget then consumePeerLatch s conv else resetPeerLatch s conv), true)
    else (s, false).

Definition count_latched (conv : string) (l : list (string * Z)) : list (string * Z) := js_put conv (default 0 (js_get conv l) + 1) l.

(** The messages kept, and how many each closed conversation withheld. *)
Fixpoint applyPeerLatch (budgets : option (list (string * Z))) (peerTurnBudget : Z) (s : AutoReplyState) (rateKept : list InboxMessage)
    (latchedConvs : list (string * Z)) : AutoReplyState * list InboxMessage * list (string * Z) :=
  match rateKept with
  | [] => (s, [], latchedConvs)
  | m :: rest =>
      let '(s1, keep) := latch_message budgets peerTurnBudget s m in
      let latchedConvs := if keep then latchedConvs else count_latched (im_conversation m) latchedConvs in
      let '(s2, kept, latched) := applyPeerLatch budgets peerTurnBudget s1 rest latchedConvs in
      (s2, if keep then m :: kept else kept, latched)
  end.

Definition reconcilePeerLatches (budgets : option (list (string * Z))) (peerTurnBudget : Z) (s : AutoReplyState) : AutoReplyState :=
  foldl (fun s conv => if isCapped (effectiveConversationBudget budgets conv peerTurnBudget) then s else resetPeerLatch s conv)
    s (remove_dups (js_keys (ar_turns s) ++ ar_escalated s)).

Definition markConversationEscalated (s : AutoReplyState) (conversationId : string) : AutoReplyState * bool :=
  if bool_decide (conversationId ∈ ar_escalated s) then (s, false)
  else (with_escalated (add_bounded PEER_LATCH_CONVERSATION_CAP conversationId (ar_escalated s)) s, true).

(** ** Progress signals *)

Definition noteProgressRefresh (s : AutoReplyState) (conversationId : string) (nowMs : Z) : AutoReplyState * bool :=
  let stamps := List.filter (fun t => nowMs - t <? PROGRESS_REFRESH_WINDOW_MS) (default [] (js_get conversationId (ar_refreshes s))) in
  if (PROGRESS_REFRESH_MAX_PER_WINDOW <=? length stamps)%nat
  then (with_refreshes (js_put conversationId stamps (ar_refreshes s)) s, false)
  else (with_refreshes (js_evict PEER_LATCH_CONVERSATION_CAP
                          (js_put conversationId (stamps ++ [nowMs])%list (ar_refreshes s))) s, true).

Definition is_progress_signal (selfAgentId : string) (m : InboxMessage) : bool :=
  negb (from_operator m) && negb (im_sender m ==? Some selfAgentId)
  && bool_decide (im_type m ∈ PROGRESS_SIGNAL_TYPES) && negb (im_conversation m ==? "").

(** One message: whether it refreshed its conversation. *)
Definition progress_message (selfAgentId : string) (vs : Verdicts) (nowMs : Z) (s : AutoReplyState) (m : InboxMessage)
    : AutoReplyState * bool :=
  if negb (is_progress_signal selfAgentId m) then (s, false)
  else
    let verdict := match truthy (im_id m) with Some _ => verdictFor vs m | None => None end in
    if failed_verdict verdict then (s, false)
    else match noteProgressRefresh s (im_conversation m) nowMs with
         | (s1, false) => (s1, false)
         | (s1, true) => (resetPeerLatch s1 (im_conversation m), true)
         end.

Definition refreshBudgetForProgressSignals (s : AutoReplyState) (messages : list InboxMessage) (selfAgentId : string)
    (vs : Verdicts) (nowMs : Z) : AutoReplyState :=
  foldl (fun s m => fst (progress_message selfAgentId vs nowMs s m)) s messages.

(** ** Which messages may wake the agent *)

Inductive WhyNot := NoId | Self | NotATrigger | Empty | Seen | Authority.

Definition message_text (m : InboxMessage) : string :=
  match prop m "body" with Some b => trim (default "" (string_field b "text")) | None => "" end.

Definition whyNotRealInbound (m : InboxMessage) (selfAgentId : string) (s : AutoReplyState) (operatorTrusted peerEnabled : bool)
    (verification : option VerifyResult) (requireSigned : RequireSignedMode) : option WhyNot :=
  if im_id m ==? None then Some NoId
  else if im_sender m ==? Some selfAgentId then Some Self
  else if negb (bool_decide (im_type m ∈ TRIGGER_TYPES)) then Some NotATrigger
  else if message_text m ==? "" then Some Empty
  else if bool_decide (heldKey m ∈ ar_seen s) then Some Seen
  else if negb (shouldAutowake (signed_of m) verification operatorTrusted peerEnabled requireSigned) then Some Authority
  else None.

Definition isRealInbound (m : InboxMessage) (selfAgentId : string) (s : AutoReplyState) (operatorTrusted peerEnabled : bool)
    (verification : option VerifyResult) (requireSigned : RequireSignedMode) : bool :=
  match whyNotRealInbound m selfAgentId s operatorTrusted peerEnabled verification requireSigned with None => true | Some _ => false end.

(** ** Dead letters of a batch *)

Definition withheld_verdict (m : InboxMessage) (signed : bool) : VerifyResult :=
  MkVerdict false KPeer (Some (if signed then "unverifiable-require-signed" else "unsigned-require-signed")) (string_field m "key_id").

Definition collectRequireSignedWithheld (messages : list InboxMessage) (vs : Verdicts) (selfAgentId : string)
    : list (InboxMessage * VerifyResult) :=
  omap (fun m =>
    if (im_id m ==? None) || (im_sender m ==? Some selfAgentId) || from_operator m || negb (bool_decide (im_type m ∈ TRIGGER_TYPES))
    then None
    else
      let signed := negb (truthy (string_field m "agent_sig") ==? None) in
      if signed && negb (verdict_at vs (id_key m) ==? None) then None
      else Some (m, withheld_verdict m signed)) messages.

Definition collectVerificationRejects (messages : list InboxMessage) (vs : Verdicts) (selfAgentId : string)
    : list (InboxMessage * VerifyResult) :=
  omap (fun m =>
    if (im_id m ==? None) || (im_sender m ==? Some selfAgentId) then None
    else match verdict_at vs (id_key m) with
         | Some v => if vr_verified v || (signature_of (signed_of m) ==? None) then None else Some (m, v)
         | None => None
         end) messages.

(** ** The rate of a teammate *)

Definition rate_message (now : Z) (s : AutoReplyState) (m : InboxMessage) : AutoReplyState * bool :=
  if from_operator m then (s, true)
  else
    let peer := default "" (im_sender m) in
    let '(count, windowStart) := match ar_recent s !! peer with
                                 | Some (c, w) => if PEER_RATE_WINDOW_MS <? now - w then (0, now) else (c, w)
                                 | None => (0, now)
                                 end in
    if PEER_RATE_MAX <=? count then (with_recent (<[peer := (count, windowStart)]> (ar_recent s)) s, false)
    else (with_recent (<[peer := (count + 1, windowStart)]> (ar_recent s)) s, true).

Fixpoint applyPeerRateGate (now : Z) (s : AutoReplyState) (real : list InboxMessage) : AutoReplyState * list InboxMessage :=
  match real with
  | [] => (s, [])
  | m :: rest =>
      let '(s1, keep) := rate_message now s m in
      let '(s2, kept) := applyPeerRateGate now s1 rest in
      (s2, if keep then m :: kept else kept)
  end.

(** ** Messages held back *)

Definition entryVerdict (e : DeferredStashEntry) (generation : option string) : option VerifyResult :=
  match de_verification e with
  | Some v => if vr_verified v && ((de_generation e ==? None) || negb (de_generation e ==? generation)) then None else Some v
  | None => None
  end.

Definition stashVerdicts (stash : DeferredStash) (generation : option string) : Verdicts :=
  foldl (fun out e => <[heldKey (de_message e) := entryVerdict e generation]> out) ∅ (ds_entries stash).

Definition DeferredDrop : Type := string * list InboxMessage * DropReason.

(** An incoming message, with its verdict: its own, or the one it is held with. *)
Definition stash_incoming (vs : Verdicts) (generation : option string) (byKey : list (string * DeferredStashEntry)) (m : InboxMessage)
    : list (string * DeferredStashEntry) :=
  let key := heldKey m in
  let entry := match verdictFor vs m, js_get key byKey with
               | Some v, _ => MkStashEntry m (Some v) generation
               | None, Some prior => MkStashEntry m (de_verification prior) (de_generation prior)
               | None, None => MkStashEntry m None generation
               end in
  js_put key entry byKey.

Definition stashDeferred (s : AutoReplyState) (conversationId : string) (messages : list InboxMessage) (vs : Verdicts) (nowMs : Z)
    (generation : option string) : AutoReplyState * list DeferredDrop :=
  let existing := js_get conversationId (ar_deferred s) in
  let held := match existing with Some x => ds_entries x | None => [] end in
  let byKey := foldl (fun m e => js_put (heldKey (de_message e)) e m) [] held in
  let ordered := map snd (foldl (stash_incoming vs generation) byKey messages) in
  let surplus := (length ordered - DEFERRED_MESSAGES_PER_CONV)%nat in
  let merged := drop surplus ordered in
  let overflowed := map de_message (take surplus ordered) in
  let stash := MkStash merged (match existing with Some x => ds_firstDeferredAtMs x | None => nowMs end) in
  let map1 := js_put conversationId stash (js_delete conversationId (ar_deferred s)) in
  let evicted := take (length map1 - DEFERRED_CONVERSATION_CAP) map1 in
  (with_deferred (js_evict DEFERRED_CONVERSATION_CAP map1) s,
   ((if (length overflowed =? 0)%nat then [] else [(conversationId, overflowed, DeferredOverflow)])
    ++ map (fun kv => (fst kv, stash_messages (snd kv), DeferredEvicted)) evicted)%list).

Definition expired_stash (ttl nowMs : Z) (kv : string * DeferredStash) : bool := ttl <? nowMs - ds_firstDeferredAtMs (snd kv).

Definition listRetryableDeferred (ttl : Z) (s : AutoReplyState) (nowMs : Z) : list string :=
  map fst (order_by (fun kv => ds_firstDeferredAtMs (snd kv)) (List.filter (fun kv => negb (expired_stash ttl nowMs kv)) (ar_deferred s))).

Definition clearDeferred (s : AutoReplyState) (conversationId : string) : AutoReplyState :=
  with_deferred (js_delete conversationId (ar_deferred s)) s.

(** With the limit of one the loop uses. *)
Definition takeExpiredDeferred (ttl : Z) (s : AutoReplyState) (nowMs : Z) : AutoReplyState * option (string * DeferredStash) :=
  match order_by (fun kv => ds_firstDeferredAtMs (snd kv)) (List.filter (expired_stash ttl nowMs) (ar_deferred s)) with
  | [] => (s, None)
  | kv :: _ => (clearDeferred s (fst kv), Some kv)
  end.

(** ** A turn takes what is held for its conversations *)

Record CoveredStashes := MkCovered {
  cv_messages : list InboxMessage;
  cv_verifications : Verdicts;
  cv_conversations : list string;
  cv_heldKeys : list string
}.

(** The distinct conversations, in their order. *)
Definition conversations_of (ms : list InboxMessage) : list string := List.rev (remove_dups (List.rev (map im_conversation ms))).

(** One held entry: the fresh object when it is in the batch, else itself. *)
Definition cover_entry (floored : list InboxMessage) (vs : Verdicts) (generation : option string)
    (acc : list InboxMessage * Verdicts * list string) (e : DeferredStashEntry) : list InboxMessage * Verdicts * list string :=
  let '(ordered, merged, heldSeen) := acc in
  let key := heldKey (de_message e) in
  if bool_decide (key ∈ heldSeen) then acc
  else match last (List.filter (fun m => heldKey m ==? key) floored) with
       | Some fresh => ((ordered ++ [fresh])%list, <[key := verdictFor vs fresh]> merged, (heldSeen ++ [key])%list)
       | None => ((ordered ++ [de_message e])%list, <[key := entryVerdict e generation]> merged, (heldSeen ++ [key])%list)
       end.

Definition cover_fresh (vs : Verdicts) (heldSeen : list string) (acc : list InboxMessage * Verdicts * list string) (m : InboxMessage)
    : list InboxMessage * Verdicts * list string :=
  let '(ordered, merged, freshSeen) := acc in
  let key := heldKey m in
  if bool_decide (key ∈ freshSeen) || bool_decide (key ∈ heldSeen) then acc
  else ((ordered ++ [m])%list, <[key := verdictFor vs m]> merged, (freshSeen ++ [key])%list).

Definition mergeCoveredStashes (s : AutoReplyState) (floored : list InboxMessage) (vs : Verdicts) (generation : option string)
    : CoveredStashes :=
  let found := omap (fun conv => match js_get conv (ar_deferred s) with
                                 | Some stash => if (length (ds_entries stash) =? 0)%nat then None else Some (conv, stash)
                                 | None => None
                                 end) (conversations_of floored) in
  let covered := order_by (fun kv => ds_firstDeferredAtMs (snd kv)) found in
  if (length covered =? 0)%nat then MkCovered floored vs [] []
  else
    let '(ordered, merged, heldSeen) := foldl (cover_entry floored vs generation) ([], ∅, []) (flat_map (fun kv => ds_entries (snd kv)) covered) in
    let '(ordered, merged, _) := foldl (cover_fresh vs heldSeen) (ordered, merged, []) floored in
    MkCovered ordered merged (map fst covered) heldSeen.

(** ** Taking the floor *)

(** What the relay answers to an acquire: [None] when it fails. *)
Definition FloorAnswer : Type := option bool.

Record FloorPlan := MkPlan { fp_floored : list InboxMessage; fp_toRelease : list string; fp_deferred : list (string * list InboxMessage) }.

(** [fp_deferred] is a record of the program: [record_assign], [record_entries]. *)

Definition plan_conversation (kept : list InboxMessage) (acquire : string -> FloorAnswer) (p : FloorPlan) (conv : string) : FloorPlan :=
  let msgs := List.filter (fun m => im_conversation m ==? conv) kept in
  if negb (existsb (fun m => negb (from_operator m)) msgs)
  then MkPlan (fp_floored p ++ msgs)%list (fp_toRelease p) (fp_deferred p)
  else match acquire conv with
       | Some true => MkPlan (fp_floored p ++ msgs)%list (fp_toRelease p ++ [conv])%list (fp_deferred p)
       | Some false => MkPlan (fp_floored p) (fp_toRelease p) (record_assign conv msgs (fp_deferred p))
       | None => MkPlan (fp_floored p ++ msgs)%list (fp_toRelease p) (fp_deferred p)
       end.

Definition planFloorTurn (kept : list InboxMessage) (acquire : string -> FloorAnswer) : FloorPlan :=
  foldl (plan_conversation kept acquire) (MkPlan [] [] []) (conversations_of kept).
End Loop.
