(* ===== verification/AutoReplyLoop.v ===== *)
(** * The loop that wakes an agent

    One tick of [startAutoReply] ([packages/openclaw-plugin/src/autoreply.ts]): poll,
    verify, label, gate, acknowledge, take the floor, spawn the turn, serve what is
    held back; and [stop()], which may be called at any [await] of a tick.  A tick
    runs alone ([tickRunning]), so an execution is a list of ticks, each with what
    its awaits return and where it is stopped. *)

From S2P Require Import Prelude Json IsoTime JsValues Identity TrustSync Verify Text CanonicalJson JsMap InboxRing AutoReply.
Import Ascii String.
Open Scope string_scope.
Open Scope Z_scope.

(** [localeCompare], as the order of the entries of a record. *)
Class Locale := { locale_sort : list (string * string) -> list (string * string) }.

Record LoopOptions := MkLoopOptions {
  lo_selfAgentId : string;
  lo_relayBaseUrl : string;
  lo_fleetId : option string;
  lo_peerEnabled : bool;
  lo_peerTurnBudget : option Z;
  lo_requireSigned : RequireSignedMode;
  lo_turnTimeout : option Z
}.

(** The variables of the closure, with what leaves the process: the dead letters of
    acked work and of rejects, the turns that started and those that did not, and the
    messages acknowledged. *)
Record Loop := MkLoop {
  lp_state : AutoReplyState;
  lp_reg : InboxRegistry;
  lp_identity : option EkhoIdentity;
  lp_stopped : bool;
  lp_unhanded : list InboxMessage;
  lp_covering : list string;
  lp_dead : list (InboxMessage * DropReason);
  lp_rejects : list (InboxMessage * VerifyResult);
  lp_turns : list (list InboxMessage);
  lp_failed : list (list InboxMessage);
  lp_acked : list string;
  lp_notices : list (string * Z)
}.

Definition set_loop_state x l := MkLoop x (lp_reg l) (lp_identity l) (lp_stopped l) (lp_unhanded l) (lp_covering l) (lp_dead l) (lp_rejects l) (lp_turns l) (lp_failed l) (lp_acked l) (lp_notices l).
Definition set_reg x l := MkLoop (lp_state l) x (lp_identity l) (lp_stopped l) (lp_unhanded l) (lp_covering l) (lp_dead l) (lp_rejects l) (lp_turns l) (lp_failed l) (lp_acked l) (lp_notices l).
Definition set_identity x l := MkLoop (lp_state l) (lp_reg l) x (lp_stopped l) (lp_unhanded l) (lp_covering l) (lp_dead l) (lp_rejects l) (lp_turns l) (lp_failed l) (lp_acked l) (lp_notices l).
Definition set_stopped x l := MkLoop (lp_state l) (lp_reg l) (lp_identity l) x (lp_unhanded l) (lp_covering l) (lp_dead l) (lp_rejects l) (lp_turns l) (lp_failed l) (lp_acked l) (lp_notices l).
Definition set_unhanded x l := MkLoop (lp_state l) (lp_reg l) (lp_identity l) (lp_stopped l) x (lp_covering l) (lp_dead l) (lp_rejects l) (lp_turns l) (lp_failed l) (lp_acked l) (lp_notices l).
Definition set_covering x l := MkLoop (lp_state l) (lp_reg l) (lp_identity l) (lp_stopped l) (lp_unhanded l) x (lp_dead l) (lp_rejects l) (lp_turns l) (lp_failed l) (lp_acked l) (lp_notices l).
Definition set_dead x l := MkLoop (lp_state l) (lp_reg l) (lp_identity l) (lp_stopped l) (lp_unhanded l) (lp_covering l) x (lp_rejects l) (lp_turns l) (lp_failed l) (lp_acked l) (lp_notices l).
Definition set_rejects x l := MkLoop (lp_state l) (lp_reg l) (lp_identity l) (lp_stopped l) (lp_unhanded l) (lp_covering l) (lp_dead l) x (lp_turns l) (lp_failed l) (lp_acked l) (lp_notices l).
Definition set_turns x l := MkLoop (lp_state l) (lp_reg l) (lp_identity l) (lp_stopped l) (lp_unhanded l) (lp_covering l) (lp_dead l) (lp_rejects l) x (lp_failed l) (lp_acked l) (lp_notices l).
Definition set_failed x l := MkLoop (lp_state l) (lp_reg l) (lp_identity l) (lp_stopped l) (lp_unhanded l) (lp_covering l) (lp_dead l) (lp_rejects l) (lp_turns l) x (lp_acked l) (lp_notices l).
Definition set_acked x l := MkLoop (lp_state l) (lp_reg l) (lp_identity l) (lp_stopped l) (lp_unhanded l) (lp_covering l) (lp_dead l) (lp_rejects l) (lp_turns l) (lp_failed l) x (lp_notices l).
Definition set_notices x l := MkLoop (lp_state l) (lp_reg l) (lp_identity l) (lp_stopped l) (lp_unhanded l) (lp_covering l) (lp_dead l) (lp_rejects l) (lp_turns l) (lp_failed l) (lp_acked l) x.

Definition map_state (f : AutoReplyState -> AutoReplyState) (l : Loop) : Loop := set_loop_state (f (lp_state l)) l.

(** What the awaits of a tick return, and whether [stop()] is called during them. *)
Record TickEnv := MkTickEnv {
  te_now : Z;
  te_inbox : option PluginBatch;
  te_stop_poll : bool;
  te_stop_notice : string -> bool;
  te_ack_ok : bool;
  te_stop_ack : bool;
  te_acquire : string -> FloorAnswer;
  te_stop_plan : bool;
  te_now_plan : Z;
  te_spawn : bool;
  te_stop_turn : bool;
  te_stop_release : bool;
  te_now_service : Z;
  te_overrun_spawn : bool;
  te_stop_overrun : bool;
  te_retry_acquire : string -> FloorAnswer;
  te_stop_retry : string -> bool;
  te_retry_spawn : bool;
  te_stop_retry_turn : bool;
  te_stop_retry_release : bool
}.

Section Loop.
Context `{Crypto} `{NodeCrypto} `{Signing} `{Locale}.
Context (opts : LoopOptions).

(** ** Contexts *)

(** [JSON.stringify] of the pins in order, the tombstones and the moment of trust on
    first use.  The record of tombstones is printed in the order of the map. *)
Definition verificationGeneration (identity : option EkhoIdentity) : string :=
  let pins := match identity with Some i => id_pinned i | None => ∅ end in
  let revoked := match identity with Some i => id_revoked i | None => ∅ end in
  let tofu := match identity with Some i => match id_tofuAt i with Some t => JStr t | None => JNull end | None => JNull end in
  node_sha256 (plain_text (JArr
    [JArr (map (fun kv => JArr [JStr (fst kv); JStr (snd kv)]) (locale_sort (map_to_list pins)));
     JObj (map (fun kv => (fst kv, JStr (snd kv))) (map_to_list revoked)); tofu])).

Definition inboxCacheContext (identity : option EkhoIdentity) : string :=
  node_sha256 (plain_text (JArr
    [JStr (lo_relayBaseUrl opts); JStr (lo_selfAgentId opts); JStr (default "" (lo_fleetId opts));
     match identity with Some i => JStr (identityPublicKey i) | None => JNull end]))
  +:+ "." +:+ verificationGeneration identity.

(** ** Stopping *)

Definition deadLetterDeferred (ms : list InboxMessage) (reason : DropReason) (l : Loop) : Loop :=
  set_dead (lp_dead l ++ map (fun m => (m, reason)) ms)%list l.

Definition flushOnStop (l : Loop) : Loop :=
  let l1 := set_unhanded [] (deadLetterDeferred (lp_unhanded l) InflightLoopStopped l) in
  let ours := List.filter (fun kv => negb (bool_decide (fst kv ∈ lp_covering l))) (ar_deferred (lp_state l)) in
  map_state (fun s => with_deferred (List.filter (fun kv => bool_decide (fst kv ∈ lp_covering l)) (ar_deferred s)) s)
    (foldl (fun x kv => deadLetterDeferred (stash_messages (snd kv)) DeferredLoopStopped x) l1 ours).

(** [stop()] during an await. *)
Definition stop_if (b : bool) (l : Loop) : Loop :=
  if b && negb (lp_stopped l) then flushOnStop (set_stopped true l) else l.

(** ** Serving what is held back *)

Definition ttl : Z := DEFERRED_RETRY_TTL_MS (lo_turnTimeout opts).

(** A turn of the held-back messages, until its spawn is decided. *)
Definition held_turn (stopped started : bool) (ms : list InboxMessage) (failure : DropReason) (l : Loop) : Loop :=
  let l := map_state (with_inFlight true) l in
  let l := map_state (with_inFlight false) (stop_if stopped l) in
  if started then set_turns (lp_turns l ++ [ms])%list l else deadLetterDeferred ms failure l.

Definition runExpiredDeferredTurn (env : TickEnv) (l : Loop) : Loop * bool :=
  match takeExpiredDeferred ttl (lp_state l) (te_now_service env) with
  | (_, None) => (l, false)
  | (s, Some (_, stash)) =>
      (held_turn (te_stop_overrun env) (te_overrun_spawn env) (stash_messages stash) DeferredSpawnFailed (set_loop_state s l),
       te_overrun_spawn env)
  end.

Fixpoint runRetryDeferredTurn (env : TickEnv) (convs : list string) (l : Loop) : Loop :=
  match convs with
  | [] => l
  | conv :: rest =>
      let l := stop_if (te_stop_retry env conv) l in
      match te_retry_acquire env conv with
      | None => runRetryDeferredTurn env rest l
      | Some granted =>
          if lp_stopped l then l
          else if negb granted then runRetryDeferredTurn env rest l
          else if ar_inFlight (lp_state l) then stop_if (te_stop_retry_release env) l
          else
            let stash := js_get conv (ar_deferred (lp_state l)) in
            let l := map_state (fun s => clearDeferred s conv) l in
            match stash with
            | None => runRetryDeferredTurn env rest (stop_if (te_stop_retry_release env) l)
            | Some x => stop_if (te_stop_retry_release env)
                          (held_turn (te_stop_retry_turn env) (te_retry_spawn env) (stash_messages x) DeferredRetrySpawnFailed l)
            end
      end
  end.

Definition serviceDeferredTurn (env : TickEnv) (l : Loop) : Loop :=
  if ar_inFlight (lp_state l) then l
  else match runExpiredDeferredTurn env l with
       | (l', true) => l'
       | (l', false) => runRetryDeferredTurn env (listRetryableDeferred ttl (lp_state l') (te_now_service env)) l'
       end.

(** ** A tick, up to the acknowledgement *)

(** The pins after the sync, whether it completed or threw, and the verdicts of the
    batch; [None] when [verifyBatch] throws. *)
Definition tick_verify (env : TickEnv) (batch : PluginBatch) (l : Loop) : Loop * option Verdicts :=
  match lp_identity l with
  | None => (l, Some ∅)
  | Some i =>
      let i' := fst (syncPinnedOperatorKeys (to_iso (te_now env)) i (pb_operator_keys batch) (pb_fleet_id batch)) in
      (set_identity (Some i') l,
       verifyBatch (map signed_of (pb_messages batch)) i' (lo_selfAgentId opts) (pb_fleet_id batch) (pb_roster batch)
         (list_to_set (ar_seenNonces (lp_state l))) (te_now env))
  end.

(** A message that was rejected for good stays rejected. *)
Definition durable_verdicts (rejects : gmap string VerifyResult) (messages : list InboxMessage) (vs : Verdicts) : Verdicts :=
  foldl (fun vs m => match rejects !! materialDigest m with Some r => <[id_key m := Some r]> vs | None => vs end) vs messages.

Definition batch_rejects (messages : list InboxMessage) (vs : Verdicts) : list (InboxMessage * VerifyResult) :=
  collectVerificationRejects messages vs (lo_selfAgentId opts) ++
  (match lo_requireSigned opts with
   | ModeRequire => collectRequireSignedWithheld messages vs (lo_selfAgentId opts)
   | _ => []
   end).

(** Label the batch with its verdicts; the verdicts that admit. *)
Definition tick_judge (env : TickEnv) (batch : PluginBatch) (l : Loop) (vs : Verdicts) : Loop * Verdicts :=
  let self := lo_selfAgentId opts in
  let context := inboxCacheContext (lp_identity l) in
  let l := set_reg (recordBatch (lp_reg l) (te_now env) batch (lo_peerTurnBudget opts) self context) l in
  let vs := durable_verdicts (ic_rejects (snd (inboxCache (lp_reg l) self context false))) (pb_messages batch) vs in
  let rejects := batch_rejects (pb_messages batch) vs in
  (set_rejects (lp_rejects l ++ rejects)%list
     (set_reg (recordVerifications (lp_reg l) vs rejects (Some (pb_messages batch)) self context) l), vs).

(** The messages that wake, and the settings in force. *)
Definition tick_settings (batch : PluginBatch) : bool * Z :=
  effectivePeerSettings batch (lo_peerEnabled opts) (Some (normalizeTurnBudget (lo_peerTurnBudget opts))).

Definition real_messages (batch : PluginBatch) (vs : Verdicts) (s : AutoReplyState) : list InboxMessage :=
  List.filter (fun m => isRealInbound m (lo_selfAgentId opts) s (pb_operator_trusted batch) (fst (tick_settings batch))
                          (verdict_at vs (id_key m)) (lo_requireSigned opts)) (pb_messages batch).

(** The nonce an accepted signature burns. *)
Definition loop_burned_nonce (vs : Verdicts) (m : InboxMessage) : option string :=
  match verdict_at vs (id_key m), prop m "sig_canonical" with
  | Some v, Some c => if vr_verified v then truthy (string_field c "nonce") else None
  | _, _ => None
  end.

Definition burn_nonces (vs : Verdicts) (real : list InboxMessage) (s : AutoReplyState) : AutoReplyState :=
  foldl (fun s m => match loop_burned_nonce vs m with Some n => plugin_markNonceSeen s n | None => s end) s real.

Definition usage (context : string) (l : Loop) : Loop :=
  set_reg (recordPeerUsage (lp_reg l) (ar_turns (lp_state l)) (lo_selfAgentId opts) context) l.

(** The notices of the conversations the latch closed; each is awaited. *)
Fixpoint raise_notices (env : TickEnv) (latched : list (string * Z)) (l : Loop) : Loop :=
  match latched with
  | [] => l
  | (conv, pending) :: rest =>
      let '(s, fresh) := markConversationEscalated (lp_state l) conv in
      if negb fresh then raise_notices env rest l
      else
        let l := stop_if (te_stop_notice env conv) (set_notices (lp_notices l ++ [(conv, pending)])%list (set_loop_state s l)) in
        if lp_stopped l then l else raise_notices env rest l
  end.

Definition ack_all (env : TickEnv) (batch : PluginBatch) (l : Loop) : Loop :=
  let ids := omap im_id (pb_messages batch) in
  if (length ids =? 0)%nat then l
  else stop_if (te_stop_ack env) (if te_ack_ok env then set_acked (lp_acked l ++ ids)%list l else l).

(** ** The turn *)

Definition stash_group (vs : Verdicts) (now : Z) (generation : string) (l : Loop) (cm : string * list InboxMessage) : Loop :=
  let '(s, drops) := stashDeferred (lp_state l) (fst cm) (snd cm) vs now (Some generation) in
  foldl (fun l d => deadLetterDeferred (snd (fst d)) (snd d) l) (set_loop_state s l) drops.

Definition stash_plan (vs : Verdicts) (now : Z) (generation : string) (deferred : list (string * list InboxMessage)) (l : Loop) : Loop :=
  foldl (stash_group vs now generation) l (record_entries deferred).

(** The spawn of a turn, which may deliver what is held for its conversations. *)
Definition cover_turn (env : TickEnv) (cover : CoveredStashes) (l : Loop) : Loop :=
  let l := set_covering (cv_conversations cover) (map_state (with_inFlight true) l) in
  let l := set_covering [] (map_state (with_inFlight false) (stop_if (te_stop_turn env) l)) in
  if te_spawn env
  then foldl (fun l c => map_state (fun s => clearDeferred s c) l) (set_turns (lp_turns l ++ [cv_messages cover])%list l) (cv_conversations cover)
  else
    let l := set_failed (lp_failed l ++ [cv_messages cover])%list l in
    if negb (length (cv_conversations cover) =? 0)%nat && lp_stopped l then flushOnStop l else l.

(** From the plan on: every kept message goes to the stash or to the turn. *)
Definition tick_turn (env : TickEnv) (batch : PluginBatch) (vs : Verdicts) (kept : list InboxMessage) (l : Loop) : Loop :=
  let generation := verificationGeneration (lp_identity l) in
  let plan := planFloorTurn kept (te_acquire env) in
  let l := stop_if (te_stop_plan env) l in
  if lp_stopped l then l
  else
    let verdicts := batchVerdictsByHeldKey (pb_messages batch) vs in
    let l := stash_plan verdicts (te_now_plan env) generation (fp_deferred plan) l in
    let cover := mergeCoveredStashes (lp_state l) (fp_floored plan) verdicts (Some generation) in
    let l := set_unhanded [] l in
    let l :=
      if (length (fp_floored plan) =? 0)%nat then l
      else
        let l := cover_turn env cover l in
        if (length (fp_toRelease plan) =? 0)%nat then l else stop_if (te_stop_release env) l in
    if lp_stopped l then l else serviceDeferredTurn env l.

(** ** The whole tick *)

(** The operator's messages open the latch; then the rate and the budget. *)
Definition tick_gate (env : TickEnv) (batch : PluginBatch) (real : list InboxMessage) (s : AutoReplyState)
    : AutoReplyState * list InboxMessage * list (string * Z) :=
  let s := foldl (fun s m => if from_operator m then resetPeerLatch s (im_conversation m) else s) s real in
  let '(s, rateKept) := applyPeerRateGate (te_now env) s real in
  applyPeerLatch (pb_conversation_budgets batch) (snd (tick_settings batch)) s rateKept [].

(** Label, reconcile, admit, burn and refresh: the messages that are real. *)
Definition tick_open (env : TickEnv) (batch : PluginBatch) (l : Loop) (vs : Verdicts)
    : Loop * Verdicts * list InboxMessage :=
  let '(l, vs) := tick_judge env batch l vs in
  let context := inboxCacheContext (lp_identity l) in
  let l := usage context (map_state (reconcilePeerLatches (pb_conversation_budgets batch) (snd (tick_settings batch))) l) in
  let real := real_messages batch vs (lp_state l) in
  let l := map_state (burn_nonces vs real) l in
  (map_state (fun s => refreshBudgetForProgressSignals s (pb_messages batch) (lo_selfAgentId opts) vs (te_now env)) l, vs, real).

(** Mark what is real, acknowledge the batch, and run the turn. *)
Definition tick_accept (env : TickEnv) (batch : PluginBatch) (vs : Verdicts) (real kept : list InboxMessage) (l : Loop) : Loop :=
  let l := map_state (fun s => foldl markSeen s real) (usage (inboxCacheContext (lp_identity l)) l) in
  let l := ack_all env batch (set_unhanded kept l) in
  if lp_stopped l then l
  else match kept with
       | [] => serviceDeferredTurn env l
       | _ => tick_turn env batch vs kept l
       end.

(** A throw of [verifyBatch] ends the tick, with nothing acknowledged. *)
Definition tick_batch (env : TickEnv) (batch0 : PluginBatch) (l : Loop) : Loop :=
  let batch := withLocalRoomCap batch0 (lo_peerTurnBudget opts) in
  match tick_verify env batch l with
  | (l, None) => l
  | (l, Some vs) =>
      let '(l, vs, real) := tick_open env batch l vs in
      match real with
      | [] =>
          let l := ack_all env batch l in
          if lp_stopped l then l else serviceDeferredTurn env l
      | _ =>
          let '(s, kept, latched) := tick_gate env batch real (lp_state l) in
          let l := raise_notices env latched (set_loop_state s l) in
          if lp_stopped l then l else tick_accept env batch vs real kept l
      end
  end.

Definition runTick (env : TickEnv) (l : Loop) : Loop :=
  if ar_inFlight (lp_state l) then l
  else
    let l := stop_if (te_stop_poll env) l in
    match te_inbox env with
    | None => l
    | Some batch => if lp_stopped l then l else tick_batch env batch l
    end.

Definition tick (env : TickEnv) (l : Loop) : Loop :=
  if lp_stopped l then l
  else
    let l := set_covering [] (set_unhanded [] (runTick env l)) in
    if lp_stopped l then flushOnStop l else l.

(** What happens to a loop: ticks, and stops between them. *)
Inductive loop_event := TickWith (env : TickEnv) | StopNow.
Definition loop_step (l : Loop) (e : loop_event) : Loop :=
  match e with TickWith env => tick env l | StopNow => stop_if true l end.
Definition loop_run (l : Loop) (es : list loop_event) : Loop := foldl loop_step l es.

Definition startAutoReply (identity : option EkhoIdentity) (reg : InboxRegistry) : Loop :=
  MkLoop createAutoReplyState reg identity false [] [] [] [] [] [] [] [].
End Loop.
