(* ===== verification/AutoReplyWork.v ===== *)
(** * The work a loop holds

    Where the messages of [AutoReplyLoop.v] are: in a turn, on record, held back, or in
    the hands of the tick; how the operations move them; and what of the state they
    leave alone. *)

From S2P Require Import Prelude Json IsoTime JsValues Identity TrustSync Verify Text CanonicalJson JsMap InboxRing AutoReply AutoReplyLoop.
Import Ascii String.
Open Scope string_scope.
Open Scope Z_scope.

Section Work.
Context `{NodeCrypto}.

(** ** The messages of a loop *)

Definition held_messages (d : list (string * DeferredStash)) : list InboxMessage := flat_map (fun kv => stash_messages (snd kv)) d.

Definition handled (l : Loop) : list InboxMessage :=
  (concat (lp_turns l) ++ concat (lp_failed l) ++ map fst (lp_dead l) ++ lp_unhanded l ++ held_messages (ar_deferred (lp_state l)))%list.

(** The turns and the stashes a message is in. *)
Definition has_key (k : string) (ms : list InboxMessage) : bool := bool_decide (k ∈ map heldKey ms).
Definition held_in (k : string) (kv : string * DeferredStash) : bool := has_key k (stash_messages (snd kv)).
Definition turns_with (k : string) (l : Loop) : nat := length (List.filter (has_key k) (lp_turns l)).
Definition claims (k : string) (l : Loop) : nat :=
  (turns_with k l + length (List.filter (held_in k) (ar_deferred (lp_state l))))%nat.

(** Between its steps: the stashes are distinct, and a stopped loop has handed over
    everything but what a turn may still deliver. *)
Record loop_ok (l : Loop) : Prop := {
  lk_keys : NoDup (js_keys (ar_deferred (lp_state l)));
  lk_unhanded : lp_stopped l = true -> lp_unhanded l = [];
  lk_covering : lp_stopped l = true -> forall kv, kv ∈ ar_deferred (lp_state l) -> fst kv ∈ lp_covering l
}.

(** The rest of the state stays. *)
Definition held_only (l l' : Loop) : Prop :=
  exists d b, lp_state l' = with_deferred d (with_inFlight b (lp_state l)).

Lemma held_only_refl l : held_only l l.
Proof. exists (ar_deferred (lp_state l)), (ar_inFlight (lp_state l)). by destruct l as [[]]. Qed.

Lemma held_only_trans l1 l2 l3 : held_only l1 l2 -> held_only l2 l3 -> held_only l1 l3.
Proof. intros (d & b & H1) (d' & b' & H2). exists d', b'. by rewrite H2, H1. Qed.

(** A step that only moves work: it stays well formed, and nothing is lost or made. *)
Record moves (l l' : Loop) : Prop := {
  mv_work : handled l' ≡ₚ handled l;
  mv_claims : forall k, (claims k l' <= claims k l)%nat;
  mv_ok : loop_ok l -> loop_ok l';
  mv_frame : held_only l l';
  mv_identity : lp_identity l' = lp_identity l;
  mv_unhanded : lp_unhanded l = [] -> lp_unhanded l' = []
}.

Lemma moves_refl l : moves l l.
Proof. split; [done|done|done|apply held_only_refl|done|done]. Qed.

Lemma moves_trans l1 l2 l3 : moves l1 l2 -> moves l2 l3 -> moves l1 l3.
Proof.
  intros [Hw Hc Hk Hf Hi Hu] [Hw' Hc' Hk' Hf' Hi' Hu'].
  split; [by rewrite Hw'|intros k; by rewrite Hc'|auto|by eapply held_only_trans|congruence|auto].
Qed.

(** ** Lists *)

Lemma held_messages_app d d' : held_messages (d ++ d') = (held_messages d ++ held_messages d')%list.
Proof. apply flat_map_app. Qed.

Lemma held_messages_perm d d' : d ≡ₚ d' -> held_messages d ≡ₚ held_messages d'.
Proof. intros Hp. apply Permutation_flat_map. exact Hp. Qed.

(** ** Stopping *)

Lemma dead_letters reason (d : list (string * DeferredStash)) : forall l,
  foldl (fun x kv => deadLetterDeferred (stash_messages (snd kv)) reason x) l d =
  set_dead (lp_dead l ++ map (fun m => (m, reason)) (held_messages d))%list l.
Proof.
  induction d as [|kv d IH]; intros l; simpl.
  - rewrite app_nil_r. by destruct l.
  - rewrite IH. unfold deadLetterDeferred. destruct l; simpl. by rewrite map_app, <- app_assoc.
Qed.

Lemma map_fst_dead (reason : DropReason) ms : map fst (map (fun m : InboxMessage => (m, reason)) ms) = ms.
Proof. rewrite map_map. simpl. apply map_id. Qed.

Lemma flush_state l : lp_state (flushOnStop l) =
  with_deferred (List.filter (fun kv => bool_decide (fst kv ∈ lp_covering l)) (ar_deferred (lp_state l))) (lp_state l).
Proof. unfold flushOnStop, map_state. rewrite dead_letters. by destruct l. Qed.

Lemma flush_fields l : lp_unhanded (flushOnStop l) = [] /\ lp_covering (flushOnStop l) = lp_covering l /\
  lp_identity (flushOnStop l) = lp_identity l /\ lp_stopped (flushOnStop l) = lp_stopped l /\
  lp_turns (flushOnStop l) = lp_turns l /\ lp_acked (flushOnStop l) = lp_acked l.
Proof. unfold flushOnStop, map_state. by rewrite dead_letters. Qed.

Lemma flush_work l : handled (flushOnStop l) ≡ₚ handled l.
Proof.
  unfold handled. rewrite flush_state. unfold flushOnStop, map_state. rewrite dead_letters. destruct l; simpl in *.
  pose proof (held_messages_perm _ _ (filter_split (fun kv => bool_decide (fst kv ∈ lp_covering)) (ar_deferred lp_state))) as Hd.
  rewrite held_messages_app in Hd. rewrite !map_app, !map_fst_dead, <- Hd. perm.
Qed.

Lemma flush_ok l : NoDup (js_keys (ar_deferred (lp_state l))) -> loop_ok (flushOnStop l).
Proof.
  intros Hk. destruct (flush_fields l) as (Hu & Hc & _). split; rewrite ?flush_state; cbn [ar_deferred with_deferred].
  - unfold js_keys. eapply sublist_NoDup; [exact Hk|]. unfold js_keys. apply sublist_map, filter_sublist.
  - done.
  - intros _ kv (Hin & Hb)%elem_of_where. apply bool_decide_eq_true in Hb. by rewrite Hc.
Qed.

Lemma flush_frame l : held_only l (flushOnStop l).
Proof.
  exists (List.filter (fun kv => bool_decide (fst kv ∈ lp_covering l)) (ar_deferred (lp_state l))), (ar_inFlight (lp_state l)).
  rewrite flush_state. by destruct (lp_state l).
Qed.

Lemma flush_claims k l : (claims k (flushOnStop l) <= claims k l)%nat.
Proof.
  destruct (flush_fields l) as (_ & _ & _ & _ & Ht & _). unfold claims, turns_with. rewrite Ht, flush_state. apply Nat.add_le_mono_l.
  apply sublist_length, sublist_filter, filter_sublist.
Qed.

Lemma flush_moves l : moves l (flushOnStop l).
Proof. split; [apply flush_work|intros k; apply flush_claims|intros []; by apply flush_ok|apply flush_frame|apply flush_fields|intros _; apply flush_fields]. Qed.

(** What leaves the state and the messages alone. *)
Lemma moves_same l l' : lp_state l' = lp_state l -> handled l' = handled l -> lp_identity l' = lp_identity l ->
  lp_turns l' = lp_turns l -> (lp_unhanded l = [] -> lp_unhanded l' = []) -> (loop_ok l -> loop_ok l') -> moves l l'.
Proof.
  intros Hs Hw Hi Ht Hu Hk. split; [by rewrite Hw|by intros k; unfold claims, turns_with; rewrite Ht, Hs|done| |done|done]. unfold held_only. rewrite Hs.
  destruct (held_only_refl l) as (d & b & E). by exists d, b.
Qed.

Lemma stop_if_moves b l : moves l (stop_if b l).
Proof.
  unfold stop_if. destruct (b && negb (lp_stopped l)); [|apply moves_refl]. split.
  - apply (flush_work (set_stopped true l)).
  - intros k. apply (flush_claims k (set_stopped true l)).
  - intros [Hk _ _]. by apply (flush_ok (set_stopped true l)).
  - apply (flush_frame (set_stopped true l)).
  - apply (flush_fields (set_stopped true l)).
  - intros _. apply (flush_fields (set_stopped true l)).
Qed.

Lemma stop_if_stopped b l : lp_stopped (stop_if b l) = lp_stopped l || b.
Proof.
  unfold stop_if. destruct b, (lp_stopped l) eqn:E; cbn [andb orb negb]; try done.
  pose proof (flush_fields (set_stopped true l)) as (_ & _ & _ & Hs & _). by rewrite Hs.
Qed.

Lemma stop_if_fields b l : lp_covering (stop_if b l) = lp_covering l /\ lp_turns (stop_if b l) = lp_turns l /\
  lp_failed (stop_if b l) = lp_failed l /\ lp_acked (stop_if b l) = lp_acked l /\
  (lp_unhanded (stop_if b l) = [] \/ stop_if b l = l).
Proof.
  unfold stop_if. destruct (b && negb (lp_stopped l)); [|tauto].
  unfold flushOnStop, map_state. rewrite dead_letters. simpl. tauto.
Qed.

(** ** Serving what is held back *)

(** The spawn of a turn of messages that were taken out. *)
Lemma held_turn_spec stopped started ms failure l :
  handled (held_turn stopped started ms failure l) ≡ₚ (ms ++ handled l)%list /\
  (forall k, (claims k (held_turn stopped started ms failure l) <= (if has_key k ms then 1 else 0) + claims k l)%nat) /\
  (loop_ok l -> loop_ok (held_turn stopped started ms failure l)) /\ held_only l (held_turn stopped started ms failure l) /\
  lp_identity (held_turn stopped started ms failure l) = lp_identity l /\
  (lp_unhanded l = [] -> lp_unhanded (held_turn stopped started ms failure l) = []).
Proof.
  unfold held_turn. set (l1 := map_state (with_inFlight true) l).
  pose proof (stop_if_moves stopped l1) as [Hw Hc Hk Hf Hi Hu]. set (l2 := stop_if stopped l1) in *.
  assert (Hw1 : handled l1 = handled l) by done.
  assert (Hk1 : loop_ok l -> loop_ok (map_state (with_inFlight false) l2)).
  { intros [K1 K2 K3]. destruct Hk as [J1 J2 J3]; [by split|]. by split. }
  assert (Hf1 : held_only l (map_state (with_inFlight false) l2)).
  { destruct Hf as (d & b & E). exists d, false. unfold map_state. cbn [lp_state set_loop_state]. by rewrite E. }
  assert (Hw2 : handled (map_state (with_inFlight false) l2) ≡ₚ handled l) by (rewrite <- Hw1, <- Hw; done).
  assert (Hc2 : forall k, (claims k (map_state (with_inFlight false) l2) <= claims k l)%nat) by (intros k; apply (Hc k)).
  set (l3 := map_state (with_inFlight false) l2) in *. destruct started; split_and!.
  - rewrite <- Hw2. unfold handled. simpl. rewrite concat_app. simpl. perm.
  - intros k. specialize (Hc2 k). unfold claims, turns_with in *. simpl. rewrite List.filter_app. simpl. destruct (has_key k ms); simpl; rewrite length_app; simpl in *; lia.
  - intros K. by destruct (Hk1 K).
  - done.
  - done.
  - done.
  - rewrite <- Hw2. unfold handled. simpl. rewrite map_app, map_fst_dead. perm.
  - intros k. specialize (Hc2 k). destruct (has_key k ms); unfold claims, turns_with in *; simpl in *; lia.
  - intros K. by destruct (Hk1 K).
  - done.
  - done.
  - done.
Qed.

(** Taking a stash out of the map, for a turn. *)
Lemma taken_turn stopped started conv stash failure l :
  NoDup (js_keys (ar_deferred (lp_state l))) -> js_get conv (ar_deferred (lp_state l)) = Some stash ->
  moves l (held_turn stopped started (stash_messages stash) failure (map_state (fun s => clearDeferred s conv) l)).
Proof.
  intros Hnd Hg. set (l1 := map_state (fun s => clearDeferred s conv) l).
  destruct (held_turn_spec stopped started (stash_messages stash) failure l1) as (Hw & Hc & Hk & (d & b & Hf) & Hi & Hu). split.
  - rewrite Hw. pose proof (held_messages_perm _ _ (js_take conv stash _ Hnd Hg)) as Hd.
    unfold handled, l1 in *. simpl in *. rewrite Hd. perm.
  - intros k. specialize (Hc k). pose proof (Permutation_length (filter_perm (held_in k) _ _ (js_take conv stash _ Hnd Hg))) as Hd.
    unfold claims, turns_with in *. simpl in Hd, Hc. unfold held_in at 2 in Hd. simpl in Hd. destruct (has_key k _); simpl in *; lia.
  - intros [K1 K2 K3]. apply Hk. split; simpl; [by apply js_delete_NoDup|done|].
    intros Hs kv (Hin & _)%elem_of_js_delete. by apply K3.
  - exists d, b. by rewrite Hf.
  - done.
  - done.
Qed.

Section Service.
Context (opts : LoopOptions).

Lemma runExpired_moves env l : loop_ok l -> moves l (fst (runExpiredDeferredTurn opts env l)).
Proof.
  intros K. unfold runExpiredDeferredTurn, takeExpiredDeferred.
  destruct (order_by _ _) as [|[conv stash] rest] eqn:E; simpl; [apply moves_refl|].
  apply (taken_turn _ _ conv); [apply K|]. apply js_get_elem; [apply K|].
  assert (Hin : (conv, stash) ∈ (conv, stash) :: rest) by left. rewrite <- E in Hin.
  by apply elem_of_order_by, elem_of_where in Hin as [Hin _].
Qed.

Lemma runRetry_moves env convs : forall l, loop_ok l -> moves l (runRetryDeferredTurn env convs l).
Proof.
  induction convs as [|conv convs IH]; intros l K; simpl; [apply moves_refl|].
  pose proof (stop_if_moves (te_stop_retry env conv) l) as M. set (l1 := stop_if _ l) in *.
  assert (K1 : loop_ok l1) by by apply M.
  destruct (te_retry_acquire env conv) as [granted|]; [|by eapply moves_trans, IH].
  destruct (lp_stopped l1); [done|]. destruct granted; simpl; [|by eapply moves_trans, IH].
  destruct (ar_inFlight (lp_state l1)); [eapply moves_trans, stop_if_moves; done|].
  eapply moves_trans; [exact M|]. destruct (js_get conv _) as [stash|] eqn:Hg.
  - eapply moves_trans, stop_if_moves. apply taken_turn; [apply K1|done].
  - assert (Hs : map_state (fun s => clearDeferred s conv) l1 = l1).
    { unfold map_state, clearDeferred. rewrite js_delete_absent by by apply js_get_None. by destruct l1 as [[]]. }
    rewrite Hs. eapply moves_trans; [apply stop_if_moves|]. apply IH. by apply stop_if_moves.
Qed.

Lemma service_moves env l : loop_ok l -> moves l (serviceDeferredTurn opts env l).
Proof.
  intros K. unfold serviceDeferredTurn. destruct (ar_inFlight (lp_state l)); [apply moves_refl|].
  pose proof (runExpired_moves env l K) as M. destruct (runExpiredDeferredTurn opts env l) as [l1 []]; [done|]. simpl in M.
  eapply moves_trans; [exact M|]. apply runRetry_moves. by apply M.
Qed.
End Service.

Lemma ack_all_moves env batch l : moves l (ack_all env batch l).
Proof.
  unfold ack_all. destruct (length _ =? 0)%nat; [apply moves_refl|]. eapply moves_trans, stop_if_moves.
  destruct (te_ack_ok env); [|apply moves_refl]. apply moves_same; try done. by intros [].
Qed.
End Work.
