(* ===== verification/AutoReplyFloor.v ===== *)
(** * Holding back, covering and planning

    What [stashDeferred], [planFloorTurn] and [mergeCoveredStashes] of [AutoReply.v] do
    with the messages they are given: nothing is lost, and nothing is made up. *)

From S2P Require Import Prelude Json IsoTime JsValues Identity TrustSync Verify Text CanonicalJson JsMap InboxRing AutoReply AutoReplyLoop AutoReplyWork.
Import Ascii String.
Open Scope string_scope.
Open Scope Z_scope.

Section Floor.
Context `{NodeCrypto}.

(** The same messages up to their held key, and none but these. *)
Definition covers (ms ms' : list InboxMessage) : Prop := forall m, m ∈ ms -> exists m', m' ∈ ms' /\ heldKey m' = heldKey m.

Lemma covers_incl ms ms' : (forall m, m ∈ ms -> m ∈ ms') -> covers ms ms'.
Proof. intros Hi m Hm. exists m. auto. Qed.

Lemma covers_trans a b c : covers a b -> covers b c -> covers a c.
Proof. intros H1 H2 m Hm. destruct (H1 m Hm) as (m1 & Hm1 & E1). destruct (H2 m1 Hm1) as (m2 & Hm2 & E2). exists m2. split; congruence. Qed.

Lemma covers_app a b c : covers a c -> covers b c -> covers (a ++ b) c.
Proof. intros H1 H2 m [Hm|Hm]%elem_of_app; auto. Qed.

Lemma covers_app_mono a b a' b' : covers a a' -> covers b b' -> covers (a ++ b) (a' ++ b').
Proof.
  intros H1 H2. apply covers_app.
  - eapply covers_trans; [exact H1|]. apply covers_incl. intros m Hm. apply elem_of_app. by left.
  - eapply covers_trans; [exact H2|]. apply covers_incl. intros m Hm. apply elem_of_app. by right.
Qed.

Lemma has_key_covers k ms ms' : covers ms ms' -> has_key k ms = true -> has_key k ms' = true.
Proof.
  unfold has_key. intros Hc (m & -> & Hm)%bool_decide_eq_true%list_elem_of_fmap. apply bool_decide_eq_true.
  destruct (Hc m Hm) as (m' & Hm' & E). apply list_elem_of_fmap. by exists m'.
Qed.

Lemma has_key_elem k ms : has_key k ms = true <-> exists m, m ∈ ms /\ heldKey m = k.
Proof.
  unfold has_key. rewrite bool_decide_eq_true. split.
  - intros (m & -> & Hm)%list_elem_of_fmap. eauto.
  - intros (m & Hm & <-). apply list_elem_of_fmap. eauto.
Qed.

(** ** The stash *)

Definition entry_messages (m : list (string * DeferredStashEntry)) : list InboxMessage := map (fun kv => de_message (snd kv)) m.
Definition keyed (m : list (string * DeferredStashEntry)) : Prop := forall kv, kv ∈ m -> heldKey (de_message (snd kv)) = fst kv.

Lemma put_entry k e m : keyed m -> heldKey (de_message e) = k ->
  keyed (js_put k e m) /\ (forall x, x ∈ entry_messages (js_put k e m) -> x = de_message e \/ x ∈ entry_messages m) /\
  (forall k', k' ∈ js_keys m \/ k' = k -> k' ∈ js_keys (js_put k e m)).
Proof.
  intros Hm He. split_and!.
  - intros kv [->|Hkv]%elem_of_js_put; [done|by apply Hm].
  - intros x (kv & -> & [->|Hkv]%elem_of_js_put)%list_elem_of_fmap; [by left|right]. apply list_elem_of_fmap. eauto.
  - intros k' Hk'. rewrite js_keys_put. case_bool_decide; [destruct Hk' as [?| ->]; done|]. apply elem_of_app.
    destruct Hk' as [?| ->]; [by left|right; by left].
Qed.

Lemma keyed_message m k : keyed m -> k ∈ js_keys m -> exists x, x ∈ entry_messages m /\ heldKey x = k.
Proof.
  intros Hm ([k' e] & -> & Hkv)%list_elem_of_fmap. exists (de_message e). split; [|by apply (Hm _ Hkv)].
  apply list_elem_of_fmap. by exists (k', e).
Qed.

Section Puts.
Context {X : Type} (step : list (string * DeferredStashEntry) -> X -> list (string * DeferredStashEntry)) (msg : X -> InboxMessage).
Context (step_put : forall m x, exists e, step m x = js_put (heldKey (msg x)) e m /\ de_message e = msg x).

Lemma fold_puts l : forall m, keyed m ->
  keyed (foldl step m l) /\ (forall x, x ∈ entry_messages (foldl step m l) -> x ∈ entry_messages m \/ x ∈ map msg l) /\
  (forall k, k ∈ js_keys m \/ k ∈ map heldKey (map msg l) -> k ∈ js_keys (foldl step m l)).
Proof.
  induction l as [|x l IH]; intros m Hm; simpl.
  - split_and!; [done|by left|]. intros k [?|Hk]; [done|]. by apply elem_of_nil in Hk.
  - destruct (step_put m x) as (e & -> & He). destruct (put_entry (heldKey (msg x)) e m Hm ltac:(by rewrite He)) as (K1 & K2 & K3).
    destruct (IH _ K1) as (J1 & J2 & J3). split_and!; [done| |].
    + intros y [Hy|Hy]%J2; [apply K2 in Hy as [->|Hy]; [right; rewrite He; left|by left]|right; by right].
    + intros k [Hk|[->|Hk]%elem_of_cons]; apply J3; [left; apply K3; by left|left; apply K3; by right|by right].
Qed.
End Puts.

Lemma js_put_fresh {V} (k : string) (v : V) m : k ∉ js_keys m -> js_put k v m = (m ++ [(k, v)])%list.
Proof.
  induction m as [|[k' v'] m IH]; intros Hk; simpl; [done|]. simpl in Hk. apply not_elem_of_cons in Hk as [Hne Hk].
  rewrite bool_decide_eq_false_2 by congruence. by rewrite IH.
Qed.

Definition dropped_messages (drops : list DeferredDrop) : list InboxMessage := flat_map (fun d => snd (fst d)) drops.

Definition held_entries (d : list (string * DeferredStash)) (conv : string) : list DeferredStashEntry :=
  match js_get conv d with Some x => ds_entries x | None => [] end.

Definition merged_entries (vs : Verdicts) (g : option string) (held : list DeferredStashEntry) (ms : list InboxMessage) : list DeferredStashEntry :=
  map snd (foldl (stash_incoming vs g) (foldl (fun m e => js_put (heldKey (de_message e)) e m) [] held) ms).

Lemma merged_entries_spec vs g held ms : let out := map de_message (merged_entries vs g held ms) in
  (forall m, m ∈ out -> m ∈ map de_message held \/ m ∈ ms) /\ covers (map de_message held ++ ms) out.
Proof.
  unfold merged_entries.
  destruct (fold_puts (fun m e => js_put (heldKey (de_message e)) e m) de_message ltac:(intros m x; by exists x) held []) as (K1 & K2 & K3).
  { intros kv Hkv. by apply elem_of_nil in Hkv. }
  set (byKey := foldl _ [] held) in *.
  destruct (fold_puts (stash_incoming vs g) id) with (l := ms) (m := byKey) as (J1 & J2 & J3); [|done|].
  { intros m x. unfold stash_incoming. destruct (verdictFor vs x); [|destruct (js_get (heldKey x) m)]; eexists; split; done. }
  rewrite map_id in J2, J3. rewrite map_map. split.
  - intros m [Hm|Hm]%J2; [left|by right]. apply K2 in Hm as [Hm|Hm]; [by apply elem_of_nil in Hm|done].
  - intros m Hm. apply (keyed_message _ (heldKey m) J1), J3. apply elem_of_app in Hm as [Hm|Hm].
    + left. apply K3. right. apply list_elem_of_fmap. eauto.
    + right. apply list_elem_of_fmap. eauto.
Qed.

Lemma held_split d conv : NoDup (js_keys d) -> held_messages d ≡ₚ (map de_message (held_entries d conv) ++ held_messages (js_delete conv d))%list.
Proof.
  intros Hnd. unfold held_entries. destruct (js_get conv d) as [stash|] eqn:Hg.
  - apply (held_messages_perm _ _ (js_take conv stash d Hnd Hg)).
  - rewrite js_delete_absent by by apply js_get_None. done.
Qed.

Lemma map_take_drop {A B} (f : A -> B) n l : map f l ≡ₚ (map f (drop n l) ++ map f (take n l))%list.
Proof. rewrite <- (take_drop n l) at 1. rewrite map_app. apply Permutation_app_comm. Qed.

Lemma dropped_evicted (l : list (string * DeferredStash)) :
  dropped_messages (map (fun kv => (fst kv, stash_messages (snd kv), DeferredEvicted)) l) = held_messages l.
Proof. unfold dropped_messages, held_messages. induction l as [|kv l IH]; simpl; [done|by rewrite IH]. Qed.

(** Everything held and given is in the new stashes or in the drops. *)
Lemma stashDeferred_work s conv ms vs now g : NoDup (js_keys (ar_deferred s)) ->
  let '(s', drops) := stashDeferred s conv ms vs now g in
  (held_messages (ar_deferred s') ++ dropped_messages drops)%list ≡ₚ
  (map de_message (merged_entries vs g (held_entries (ar_deferred s) conv) ms) ++ held_messages (js_delete conv (ar_deferred s)))%list.
Proof.
  intros Hnd. unfold stashDeferred. fold (held_entries (ar_deferred s) conv).
  fold (merged_entries vs g (held_entries (ar_deferred s) conv) ms). set (ordered := merged_entries _ _ _ _).
  set (surplus := (length ordered - _)%nat). set (stash := MkStash (drop surplus ordered) _). cbv zeta.
  rewrite js_put_fresh.
  2:{ rewrite js_keys_delete. intros [_ Hb]%elem_of_where. apply negb_true_iff, bool_decide_eq_false in Hb. done. }
  set (map1 := (js_delete conv (ar_deferred s) ++ [(conv, stash)])%list). unfold js_evict. cbn [ar_deferred with_deferred].
  set (n := (length map1 - _)%nat).
  rewrite (map_take_drop de_message surplus ordered).
  assert (Hov : dropped_messages ((if (length (map de_message (take surplus ordered)) =? 0)%nat then []
      else [(conv, map de_message (take surplus ordered), DeferredOverflow)])
      ++ map (fun kv => (fst kv, stash_messages (snd kv), DeferredEvicted)) (take n map1)) =
    (map de_message (take surplus ordered) ++ held_messages (take n map1))%list).
  { unfold dropped_messages. rewrite flat_map_app. f_equal; [|apply dropped_evicted].
    destruct (map de_message (take surplus ordered)); simpl; [done|by rewrite app_nil_r]. }
  rewrite Hov. assert (Hm1 : (held_messages (drop n map1) ++ held_messages (take n map1))%list ≡ₚ
    (held_messages (js_delete conv (ar_deferred s)) ++ map de_message (drop surplus ordered))%list).
  { rewrite <- held_messages_app. rewrite (held_messages_perm _ map1) by (rewrite <- (take_drop n map1) at 3; apply Permutation_app_comm).
    unfold map1. rewrite held_messages_app. simpl. by rewrite app_nil_r. }
  transitivity ((held_messages (drop n map1) ++ held_messages (take n map1)) ++ map de_message (take surplus ordered))%list; [perm|].
  rewrite Hm1. perm.
Qed.

Definition held_count (k : string) (d : list (string * DeferredStash)) : nat := length (List.filter (held_in k) d).

Lemma held_count_take k conv stash d : NoDup (js_keys d) -> js_get conv d = Some stash ->
  held_count k d = ((if has_key k (stash_messages stash) then 1 else 0) + held_count k (js_delete conv d))%nat.
Proof.
  intros Hnd Hg. unfold held_count. rewrite (Permutation_length (filter_perm (held_in k) _ _ (js_take conv stash d Hnd Hg))).
  simpl. unfold held_in at 1. simpl. by destruct (has_key _ _).
Qed.

Lemma sublist_drop' {A} n (l : list A) : sublist (drop n l) l.
Proof. apply sublist_drop. Qed.

Lemma stashDeferred_claims s conv ms vs now g k : NoDup (js_keys (ar_deferred s)) ->
  let '(s', _) := stashDeferred s conv ms vs now g in
  s' = with_deferred (ar_deferred s') s /\ NoDup (js_keys (ar_deferred s')) /\
  (held_count k (ar_deferred s') <= held_count k (ar_deferred s) + (if has_key k ms then 1 else 0))%nat.
Proof.
  intros Hnd. unfold stashDeferred. fold (held_entries (ar_deferred s) conv).
  fold (merged_entries vs g (held_entries (ar_deferred s) conv) ms). set (ordered := merged_entries _ _ _ _).
  set (surplus := (length ordered - _)%nat). set (stash := MkStash (drop surplus ordered) _). cbv zeta.
  assert (Hfresh : conv ∉ js_keys (js_delete conv (ar_deferred s))).
  { rewrite js_keys_delete. intros [_ Hb]%elem_of_where. apply negb_true_iff, bool_decide_eq_false in Hb. done. }
  cbn [ar_deferred with_deferred]. split_and!; [done| |].
  - apply js_evict_NoDup, js_put_NoDup. by apply js_delete_NoDup.
  - rewrite js_put_fresh by done. set (map1 := (_ ++ _)%list). transitivity (held_count k map1).
    { apply sublist_length, sublist_filter, sublist_drop'. }
    unfold map1, held_count at 1. rewrite List.filter_app, length_app. fold (held_count k (js_delete conv (ar_deferred s))). simpl.
    unfold held_in. simpl.
    assert (Hs : has_key k (stash_messages stash) = true -> has_key k (map de_message (held_entries (ar_deferred s) conv)) = true \/ has_key k ms = true).
    { intros (m & Hm & <-)%has_key_elem. apply list_elem_of_fmap in Hm as (e & -> & He). simpl in He. apply elem_of_drop_incl in He.
      destruct (merged_entries_spec vs g (held_entries (ar_deferred s) conv) ms) as [Hf _].
      destruct (Hf (de_message e)) as [Hm|Hm]; [apply list_elem_of_fmap; eauto|left|right]; apply has_key_elem; eauto. }
    unfold held_entries in Hs. destruct (js_get conv (ar_deferred s)) as [old|] eqn:Hg.
    + rewrite (held_count_take k _ _ _ Hnd Hg). change (map de_message (ds_entries old)) with (stash_messages old) in Hs.
      destruct (has_key k (stash_messages stash)); simpl; [|lia]. destruct (Hs eq_refl) as [-> | ->]; lia.
    + rewrite js_delete_absent by by apply js_get_None. destruct (has_key k (stash_messages stash)); simpl; [|lia].
      destruct (Hs eq_refl) as [Hn| ->]; [|lia]. apply has_key_elem in Hn as (m & Hm & _). by apply elem_of_nil in Hm.
Qed.

(** ** The groups of a plan *)

Definition group_messages (gs : list (string * list InboxMessage)) : list InboxMessage := flat_map snd gs.
Definition group_count (k : string) (gs : list (string * list InboxMessage)) : nat := length (List.filter (fun cm => has_key k (snd cm)) gs).

(** A step that gives the loop some messages. *)
Record gains (gs : list (string * list InboxMessage)) (l l' : Loop) : Prop := {
  ga_covers : covers (handled l ++ group_messages gs) (handled l');
  ga_from : forall m, m ∈ handled l' -> m ∈ handled l \/ m ∈ group_messages gs;
  ga_claims : forall k, (claims k l' <= claims k l + group_count k gs)%nat;
  ga_keys : NoDup (js_keys (ar_deferred (lp_state l')));
  ga_frame : held_only l l';
  ga_rest : lp_identity l' = lp_identity l /\ lp_stopped l' = lp_stopped l /\ lp_turns l' = lp_turns l /\ lp_failed l' = lp_failed l /\
            lp_unhanded l' = lp_unhanded l /\ lp_covering l' = lp_covering l
}.

Definition drop_records (drops : list DeferredDrop) : list (InboxMessage * DropReason) :=
  flat_map (fun d => map (fun m => (m, snd d)) (snd (fst d))) drops.

Lemma dead_drops (drops : list DeferredDrop) : forall l,
  foldl (fun l d => deadLetterDeferred (snd (fst d)) (snd d) l) l drops = set_dead (lp_dead l ++ drop_records drops)%list l.
Proof.
  induction drops as [|d drops IH]; intros l; simpl; [rewrite app_nil_r; by destruct l|].
  rewrite IH. unfold deadLetterDeferred. simpl. by rewrite <- app_assoc.
Qed.

Lemma drop_records_messages drops : map fst (drop_records drops) = dropped_messages drops.
Proof. induction drops as [|d drops IH]; simpl; [done|]. by rewrite map_app, map_fst_dead, IH. Qed.

Lemma gains_nil l : NoDup (js_keys (ar_deferred (lp_state l))) -> gains [] l l.
Proof.
  intros Hk. split; try done.
  - unfold group_messages. simpl. rewrite app_nil_r. by apply covers_incl.
  - by left.
  - intros k. lia.
  - apply held_only_refl.
Qed.

Lemma gains_app gs gs' l1 l2 l3 : gains gs l1 l2 -> gains gs' l2 l3 -> gains (gs ++ gs') l1 l3.
Proof.
  intros [C1 F1 N1 K1 H1 R1] [C2 F2 N2 K2 H2 R2]. split.
  - unfold group_messages in *. rewrite flat_map_app, app_assoc. eapply covers_trans; [|exact C2].
    apply covers_app_mono; [exact C1|by apply covers_incl].
  - intros m [Hm|Hm]%F2; unfold group_messages in *; rewrite flat_map_app, elem_of_app; [apply F1 in Hm as [?|?]; tauto|tauto].
  - intros k. specialize (N1 k). specialize (N2 k). unfold group_count in *. rewrite List.filter_app, length_app. lia.
  - done.
  - by eapply held_only_trans.
  - destruct R1 as (? & ? & ? & ? & ? & ?), R2 as (? & ? & ? & ? & ? & ?). split_and!; congruence.
Qed.

Lemma stash_group_gains vs now g l cm : NoDup (js_keys (ar_deferred (lp_state l))) -> gains [cm] l (stash_group vs now g l cm).
Proof.
  intros Hnd. destruct cm as [conv ms]. unfold stash_group. cbn [fst snd].
  pose proof (stashDeferred_work (lp_state l) conv ms vs now (Some g) Hnd) as Hw.
  pose proof (fun k => stashDeferred_claims (lp_state l) conv ms vs now (Some g) k Hnd) as Hc.
  destruct (stashDeferred _ _ _ _ _ _) as [s drops]. rewrite dead_drops. cbn [lp_dead set_loop_state].
  set (l' := set_dead _ _). destruct (merged_entries_spec vs (Some g) (held_entries (ar_deferred (lp_state l)) conv) ms) as [Mf Mc].
  set (out := map de_message _) in *. destruct (Hc "") as (Hs & Hk & _).
  pose proof (held_split _ conv Hnd) as Hsplit.
  assert (Hh : handled l' ≡ₚ (concat (lp_turns l) ++ concat (lp_failed l) ++ map fst (lp_dead l) ++ lp_unhanded l ++
                out ++ held_messages (js_delete conv (ar_deferred (lp_state l))))%list).
  { rewrite <- Hw, <- drop_records_messages. unfold handled, l'. simpl. rewrite map_app. perm. }
  assert (Ho : handled l ≡ₚ (concat (lp_turns l) ++ concat (lp_failed l) ++ map fst (lp_dead l) ++ lp_unhanded l ++
                map de_message (held_entries (ar_deferred (lp_state l)) conv) ++ held_messages (js_delete conv (ar_deferred (lp_state l))))%list).
  { unfold handled. by rewrite Hsplit. }
  split.
  - unfold group_messages. simpl. rewrite app_nil_r.
    intros m Hm. setoid_rewrite Hh. setoid_rewrite Ho in Hm. rewrite !elem_of_app in Hm.
    assert (Hcase : m ∈ (map de_message (held_entries (ar_deferred (lp_state l)) conv) ++ ms)%list \/
                    m ∈ (concat (lp_turns l) ++ concat (lp_failed l) ++ map fst (lp_dead l) ++ lp_unhanded l ++ held_messages (js_delete conv (ar_deferred (lp_state l))))%list)
      by (rewrite !elem_of_app; tauto).
    destruct Hcase as [Hin|Hin].
    + destruct (Mc m Hin) as (m' & Hm' & E). exists m'. split; [rewrite !elem_of_app; tauto|done].
    + exists m. split; [rewrite !elem_of_app in *; tauto|done].
  - intros m Hm. setoid_rewrite Ho. setoid_rewrite Hh in Hm. unfold group_messages. simpl. rewrite app_nil_r.
    rewrite !elem_of_app in *. destruct_or! Hm; try tauto. apply Mf in Hm as [?|?]; tauto.
  - intros k. destruct (Hc k) as (_ & _ & Hck). unfold claims, turns_with, group_count, l'. simpl.
    unfold held_count in Hck. destruct (has_key k ms); simpl; lia.
  - done.
  - exists (ar_deferred s), (ar_inFlight (lp_state l)). unfold l'. simpl. rewrite Hs. done.
  - done.
Qed.

Lemma stash_plan_gains vs now g deferred l : NoDup (js_keys (ar_deferred (lp_state l))) ->
  gains (record_entries deferred) l (stash_plan vs now g deferred l).
Proof.
  unfold stash_plan. generalize (record_entries deferred) as gs. intros gs. revert l. induction gs as [|cm gs IH]; intros l Hk; simpl.
  - by apply gains_nil.
  - pose proof (stash_group_gains vs now g l cm Hk) as G. apply (gains_app [cm] gs _ _ _ G), IH, G.
Qed.

Lemma group_count_perm k gs gs' : gs ≡ₚ gs' -> group_count k gs = group_count k gs'.
Proof. intros Hp. apply Permutation_length, filter_perm, Hp. Qed.

(** ** The conversations of a batch *)

Lemma conversations_spec ms : NoDup (conversations_of ms) /\ forall c, c ∈ conversations_of ms <-> exists m, m ∈ ms /\ im_conversation m = c.
Proof.
  unfold conversations_of. split.
  - apply NoDup_ListNoDup, List.NoDup_rev, NoDup_ListNoDup, NoDup_remove_dups.
  - intros c. rewrite list_elem_of_In, <- in_rev, <- list_elem_of_In, elem_of_remove_dups, list_elem_of_In, <- in_rev, <- list_elem_of_In, list_elem_of_fmap. split; intros (m & ? & ?); eauto.
Qed.

(** ** Taking the floor *)

Definition no_record (conv : string) : bool := conv ==? "__proto__".

Record planned (kept : list InboxMessage) (seen : list string) (p : FloorPlan) : Prop := {
  pl_floored : forall m, m ∈ fp_floored p -> m ∈ kept /\ im_conversation m ∈ seen /\ im_conversation m ∉ js_keys (fp_deferred p);
  pl_groups : forall c ms, (c, ms) ∈ fp_deferred p -> c ∈ seen /\ forall m, m ∈ ms -> m ∈ kept /\ im_conversation m = c;
  pl_keys : NoDup (js_keys (fp_deferred p));
  pl_all : forall m, m ∈ kept -> im_conversation m ∈ seen -> no_record (im_conversation m) = false ->
             m ∈ fp_floored p \/ m ∈ group_messages (fp_deferred p)
}.

Lemma plan_step kept acquire seen p c : planned kept seen p -> c ∉ seen -> planned kept (seen ++ [c]) (plan_conversation kept acquire p c).
Proof.
  intros [Hf Hg Hk Ha] Hc. set (ms := List.filter (fun m => im_conversation m ==? c) kept).
  assert (Hms : forall m, m ∈ ms <-> m ∈ kept /\ im_conversation m = c).
  { intros m. unfold ms. by rewrite elem_of_where, bool_decide_eq_true. }
  assert (Hfresh : c ∉ js_keys (fp_deferred p)).
  { intros ([c' ms'] & Hcc & Hin)%list_elem_of_fmap. simpl in Hcc. subst c'. by apply Hg in Hin as [? _]. }
  assert (Hfl : forall r, planned kept (seen ++ [c]) (MkPlan (fp_floored p ++ ms) r (fp_deferred p))).
  { intros r. split; cbn [fp_floored fp_deferred]; [| |done|].
    - intros m [Hm|[Hin Hm]%Hms]%elem_of_app.
      + destruct (Hf m Hm) as (? & ? & ?). split_and!; [done|apply elem_of_app; by left|done].
      + rewrite Hm. split_and!; [done|apply elem_of_app; right; by left|done].
    - intros c' ms' Hin. destruct (Hg _ _ Hin) as [? ?]. split; [apply elem_of_app; by left|done].
    - intros m Hm Hs Hp. apply elem_of_app in Hs as [Hs|Hs%list_elem_of_singleton].
      + destruct (Ha m Hm Hs Hp); [left; apply elem_of_app; by left|by right].
      + left. apply elem_of_app. right. by apply Hms. }
  unfold plan_conversation. fold ms. destruct (negb _); [apply Hfl|]. destruct (acquire c) as [[]|]; [apply Hfl| |apply Hfl].
  unfold record_assign. destruct (c ==? "__proto__") eqn:Ep.
  - split; cbn [fp_floored fp_deferred]; [| |done|].
    + intros m Hm. destruct (Hf m Hm) as (? & ? & ?). split_and!; [done|apply elem_of_app; by left|done].
    + intros c' ms' Hin. destruct (Hg _ _ Hin) as [? ?]. split; [apply elem_of_app; by left|done].
    + intros m Hm Hs Hp. apply elem_of_app in Hs as [Hs|Hs%list_elem_of_singleton]; [by apply Ha|].
      unfold no_record in Hp. by rewrite Hs, Ep in Hp.
  - rewrite js_put_fresh by done. split; cbn [fp_floored fp_deferred].
    + intros m Hm. destruct (Hf m Hm) as (? & Hs & Hn). split_and!; [done|apply elem_of_app; by left|].
      unfold js_keys. rewrite map_app. intros [?|Hcc%list_elem_of_singleton]%elem_of_app; [by apply Hn|]. simpl in Hcc. congruence.
    + intros c' ms' [Hin|Hin%list_elem_of_singleton]%elem_of_app.
      * destruct (Hg _ _ Hin) as [? ?]. split; [apply elem_of_app; by left|done].
      * apply pair_equal_spec in Hin as [Hc1 Hc2]. rewrite Hc1, Hc2. split; [apply elem_of_app; right; by left|]. intros m Hm. by apply Hms.
    + unfold js_keys. rewrite map_app. apply NoDup_app. split_and!; [done| |apply NoDup_singleton].
      intros c' Hc' ->%list_elem_of_singleton. done.
    + intros m Hm Hs Hp. unfold group_messages. rewrite flat_map_app, elem_of_app. simpl. rewrite app_nil_r.
      apply elem_of_app in Hs as [Hs|Hs%list_elem_of_singleton]; [destruct (Ha m Hm Hs Hp); tauto|].
      right. right. by apply Hms.
Qed.

Lemma plan_spec kept acquire : planned kept (conversations_of kept) (planFloorTurn kept acquire).
Proof.
  unfold planFloorTurn. assert (H0 : planned kept [] (MkPlan [] [] [])).
  { split; cbn [fp_floored fp_deferred]; [intros m Hm; by apply elem_of_nil in Hm|intros c ms Hm; by apply elem_of_nil in Hm|constructor|].
    intros m _ Hm. by apply elem_of_nil in Hm. }
  assert (Hgen : forall cs seen p, planned kept seen p -> NoDup (seen ++ cs) ->
    planned kept (seen ++ cs) (foldl (plan_conversation kept acquire) p cs)).
  { induction cs as [|c cs IH]; intros seen p Hp Hnd; simpl; [by rewrite app_nil_r|].
    assert (Hc : c ∉ seen) by (intros Hin; apply NoDup_app in Hnd as (_ & Hd & _); apply (Hd c Hin); by left).
    specialize (IH _ _ (plan_step kept acquire seen p c Hp Hc)). rewrite <- app_assoc in IH. by apply IH. }
  apply (Hgen _ [] _ H0). by destruct (conversations_spec kept).
Qed.

(** A message is planned in one place, when its key tells its conversation. *)
Lemma plan_once kept acquire k c : (forall m, m ∈ kept -> heldKey m = k -> im_conversation m = c) ->
  (group_count k (fp_deferred (planFloorTurn kept acquire)) + (if has_key k (fp_floored (planFloorTurn kept acquire)) then 1 else 0) <= 1)%nat.
Proof.
  intros Hc. destruct (plan_spec kept acquire) as [Hf Hg Hk _]. set (p := planFloorTurn kept acquire) in *.
  assert (Hwith : forall cm, cm ∈ fp_deferred p -> has_key k (snd cm) = true -> fst cm = c).
  { intros [c' ms] Hin (m & Hm & Hkm)%has_key_elem. destruct (Hg _ _ Hin) as [_ Hms]. destruct (Hms m Hm) as [Hkept <-]. simpl. by apply Hc. }
  assert (Hle : (group_count k (fp_deferred p) <= 1)%nat).
  { unfold group_count. clear Hf Hg. revert Hk Hwith. generalize (fp_deferred p) as gs. intros gs. induction gs as [|[c' ms] gs IH]; intros Hk Hw; simpl; [lia|].
    apply NoDup_cons in Hk as [Hin Hk]. destruct (has_key k ms) eqn:E; simpl.
    - assert (c' = c) as -> by (apply (Hw (c', ms)); [by left|done]).
      assert (Hz : List.filter (fun cm => has_key k (snd cm)) gs = []); [|rewrite Hz; simpl; lia].
      apply filter_nil. intros cm Hcm. apply not_true_iff_false. intros Ht. apply Hin. apply list_elem_of_fmap.
      exists cm. split; [symmetry; apply Hw; [by right|done]|done].
    - apply IH; [done|]. intros cm Hcm. apply Hw. by right. }
  destruct (has_key k (fp_floored p)) eqn:E; [|lia]. apply has_key_elem in E as (m & Hm & Hkm). destruct (Hf m Hm) as (Hkept & _ & Hn).
  rewrite (Hc m Hkept Hkm) in Hn. assert (Hz : group_count k (fp_deferred p) = 0%nat); [|lia].
  unfold group_count. rewrite filter_nil; [done|]. intros cm Hcm. apply not_true_iff_false. intros Ht. apply Hn, list_elem_of_fmap.
  exists cm. split; [symmetry; by apply Hwith|done].
Qed.

(** ** A turn with what is held for its conversations *)

(** The messages gathered so far have the keys noted, and come from what was given. *)
Definition gathered (given : list InboxMessage) (ordered : list InboxMessage) (keys : list string) : Prop :=
  (forall m, m ∈ ordered -> m ∈ given) /\ forall k, k ∈ keys -> has_key k ordered = true.

Lemma gathered_add given ordered keys k m : gathered given ordered keys -> m ∈ given -> heldKey m = k ->
  gathered given (ordered ++ [m]) (keys ++ [k]).
Proof.
  intros [Hin Hk] Hm Hkm. split.
  - intros x [Hx|Hx%list_elem_of_singleton]%elem_of_app; [by apply Hin|by subst x].
  - intros k' [Hk'|Hk'%list_elem_of_singleton]%elem_of_app; apply has_key_elem.
    + apply Hk, has_key_elem in Hk' as (x & Hx & E). exists x. split; [apply elem_of_app; by left|done].
    + exists m. split; [apply elem_of_app; right; by left|congruence].
Qed.

Lemma fresh_of_key floored k fresh : last (List.filter (fun m => heldKey m ==? k) floored) = Some fresh -> fresh ∈ floored /\ heldKey fresh = k.
Proof. intros Hl%last_Some_elem_of. apply elem_of_where in Hl as [Hin Hb]. by apply bool_decide_eq_true in Hb. Qed.

Lemma cover_entries_spec floored vs g given es : (forall m, m ∈ floored -> m ∈ given) -> (forall e, e ∈ es -> de_message e ∈ given) ->
  forall ordered merged keys, gathered given ordered keys ->
  let '(ordered', _, keys') := foldl (cover_entry floored vs g) (ordered, merged, keys) es in
  gathered given ordered' keys' /\ (forall k, k ∈ keys -> k ∈ keys') /\ forall e, e ∈ es -> heldKey (de_message e) ∈ keys'.
Proof.
  intros Hfl. induction es as [|e es IH]; intros Hes ordered merged keys G; cbn [foldl].
  - split_and!; [done|done|]. intros e He. by apply elem_of_nil in He.
  - assert (Hrest : forall o mg ks, gathered given o ks -> (forall k, k ∈ keys -> k ∈ ks) -> heldKey (de_message e) ∈ ks ->
      let '(ordered', _, keys') := foldl (cover_entry floored vs g) (o, mg, ks) es in
      gathered given ordered' keys' /\ (forall k, k ∈ keys -> k ∈ keys') /\ forall x, x ∈ e :: es -> heldKey (de_message x) ∈ keys').
    { intros o mg ks Ho Hks Hin. specialize (IH ltac:(intros x Hx; apply Hes; by right) o mg ks Ho).
      destruct (foldl _ _ es) as [[o' mg'] ks']. destruct IH as (I1 & I2 & I3). split_and!; [done|auto|].
      intros x [->|Hx]%elem_of_cons; auto. }
    unfold cover_entry at 2. case_bool_decide as Hk; [by apply Hrest|].
    destruct (last _) as [fresh|] eqn:El; apply Hrest.
    + apply fresh_of_key in El as [Hin E]. apply gathered_add; auto.
    + intros k Hk'. apply elem_of_app. by left.
    + apply elem_of_app. right. by left.
    + apply gathered_add; [done| |done]. apply Hes. by left.
    + intros k Hk'. apply elem_of_app. by left.
    + apply elem_of_app. right. by left.
Qed.

Lemma cover_fresh_spec vs heldSeen given ms : (forall m, m ∈ ms -> m ∈ given) -> forall ordered merged keys,
  gathered given ordered (heldSeen ++ keys) ->
  let '(ordered', _, keys') := foldl (cover_fresh vs heldSeen) (ordered, merged, keys) ms in
  gathered given ordered' (heldSeen ++ keys') /\ (forall k, k ∈ keys -> k ∈ keys') /\ forall m, m ∈ ms -> heldKey m ∈ (heldSeen ++ keys')%list.
Proof.
  induction ms as [|m ms IH]; intros Hms ordered merged keys G; cbn [foldl].
  - split_and!; [done|done|]. intros m Hm. by apply elem_of_nil in Hm.
  - assert (Hrest : forall o mg ks, gathered given o (heldSeen ++ ks) -> (forall k, k ∈ keys -> k ∈ ks) -> heldKey m ∈ (heldSeen ++ ks)%list ->
      let '(ordered', _, keys') := foldl (cover_fresh vs heldSeen) (o, mg, ks) ms in
      gathered given ordered' (heldSeen ++ keys') /\ (forall k, k ∈ keys -> k ∈ keys') /\ forall x, x ∈ m :: ms -> heldKey x ∈ (heldSeen ++ keys')%list).
    { intros o mg ks Ho Hks Hin. specialize (IH ltac:(intros x Hx; apply Hms; by right) o mg ks Ho).
      destruct (foldl _ _ ms) as [[o' mg'] ks']. destruct IH as (I1 & I2 & I3). split_and!; [done|auto|].
      intros x [->|Hx]%elem_of_cons; [|auto]. rewrite elem_of_app in *. destruct Hin; auto. }
    unfold cover_fresh at 2. destruct (_ || _) eqn:Eb.
    + apply Hrest; [done|done|]. apply elem_of_app. apply orb_true_iff in Eb as [Eb|Eb]; apply bool_decide_eq_true in Eb; tauto.
    + apply Hrest.
      * rewrite app_assoc. apply gathered_add; [done|apply Hms; by left|done].
      * intros k Hk. apply elem_of_app. by left.
      * rewrite !elem_of_app. right. right. by left.
Qed.

Lemma merge_spec s floored vs g : let cv := mergeCoveredStashes s floored vs g in
  covers floored (cv_messages cv) /\
  (forall conv stash, conv ∈ cv_conversations cv -> js_get conv (ar_deferred s) = Some stash -> covers (stash_messages stash) (cv_messages cv)) /\
  (forall m, m ∈ cv_messages cv -> m ∈ floored \/ exists conv stash, conv ∈ cv_conversations cv /\
     js_get conv (ar_deferred s) = Some stash /\ m ∈ stash_messages stash).
Proof.
  unfold mergeCoveredStashes. set (found := omap _ _). set (covered := order_by _ found).
  assert (Hcov : forall kv, kv ∈ covered -> js_get (fst kv) (ar_deferred s) = Some (snd kv)).
  { intros kv Hkv. apply elem_of_order_by, list_elem_of_omap in Hkv as (conv & _ & Hc).
    destruct (js_get conv (ar_deferred s)) as [stash|] eqn:Hg; [|done]. destruct (_ =? 0)%nat; [done|]. by injection Hc as <-. }
  destruct (length covered =? 0)%nat eqn:E0; cbn [cv_messages cv_conversations].
  { split_and!; [by apply covers_incl|intros conv stash Hc; by apply elem_of_nil in Hc|by left]. }
  set (es := flat_map (fun kv => ds_entries (snd kv)) covered).
  set (given := (floored ++ map de_message es)%list).
  pose proof (cover_entries_spec floored vs g given es) as HA.
  specialize (HA ltac:(intros m Hm; apply elem_of_app; by left) ltac:(intros e He; apply elem_of_app; right; apply list_elem_of_fmap; eauto) [] ∅ []).
  destruct (foldl (cover_entry floored vs g) ([], ∅, []) es) as [[ordered merged] keys].
  destruct HA as (G & _ & Hes); [split; intros ? Hx; by apply elem_of_nil in Hx|].
  pose proof (cover_fresh_spec vs keys given floored ltac:(intros m Hm; apply elem_of_app; by left) ordered merged []) as HB.
  rewrite app_nil_r in HB. specialize (HB G). destruct (foldl (cover_fresh vs keys) (ordered, merged, []) floored) as [[ordered' merged'] keys'].
  destruct HB as ((Hin & Hkeys) & _ & Hfl). cbn [cv_messages cv_conversations].
  assert (Hc : forall m, heldKey m ∈ (keys ++ keys')%list -> exists m', m' ∈ ordered' /\ heldKey m' = heldKey m).
  { intros m Hk. by apply Hkeys, has_key_elem in Hk. }
  split_and!.
  - intros m Hm. by apply Hc, Hfl.
  - intros conv stash Hconv Hg m Hm. apply Hc, elem_of_app. left. apply list_elem_of_fmap in Hm as (e & -> & He). apply Hes.
    apply list_elem_of_fmap in Hconv as (kv & -> & Hkv). rewrite (Hcov _ Hkv) in Hg. injection Hg as Hg. unfold es.
    apply list_elem_of_In, in_flat_map. exists kv. rewrite <- !list_elem_of_In, Hg. done.
  - intros m [Hm|Hm]%Hin%elem_of_app; [by left|right]. apply list_elem_of_fmap in Hm as (e & -> & He).
    apply list_elem_of_In, in_flat_map in He as (kv & Hkv%list_elem_of_In & He%list_elem_of_In). exists (fst kv), (snd kv). split_and!.
    + apply list_elem_of_fmap. eauto.
    + by apply Hcov.
    + apply list_elem_of_fmap. eauto.
Qed.

(** ** The turn *)

Lemma stash_group_unhanded x vs now g l cm : stash_group vs now g (set_unhanded x l) cm = set_unhanded x (stash_group vs now g l cm).
Proof.
  unfold stash_group. simpl. destruct (stashDeferred (lp_state l) (fst cm) (snd cm) vs now (Some g)) as [s drops]. by rewrite !dead_drops.
Qed.

Lemma stash_plan_unhanded x vs now g deferred l :
  stash_plan vs now g deferred (set_unhanded x l) = set_unhanded x (stash_plan vs now g deferred l).
Proof.
  unfold stash_plan. generalize (record_entries deferred) as gs. intros gs. revert l. induction gs as [|cm gs IH]; intros l; simpl; [done|].
  by rewrite stash_group_unhanded, IH.
Qed.

Lemma clear_all convs : forall l, foldl (fun l c => map_state (fun s => clearDeferred s c) l) l convs =
  set_loop_state (with_deferred (List.filter (fun kv => negb (bool_decide (fst kv ∈ convs))) (ar_deferred (lp_state l))) (lp_state l)) l.
Proof.
  induction convs as [|c convs IH]; intros l; cbn [foldl].
  - rewrite forallb_filter_id; [by destruct l as [[]]|]. apply forallb_forall. intros kv _. done.
  - rewrite IH. unfold map_state, clearDeferred, js_delete. simpl. rewrite filter_filter.
    rewrite (filter_ext' _ (fun kv => negb (bool_decide (fst kv ∈ c :: convs)))); [done|].
    intros kv. rewrite <- negb_orb. f_equal. apply eq_true_iff_eq. rewrite orb_true_iff, !bool_decide_eq_true, elem_of_cons. done.
Qed.

(** The work a tick does with what it was given. *)
Record works (given : list InboxMessage) (l l' : Loop) : Prop := {
  wk_covers : covers (handled l ++ given) (handled l');
  wk_from : forall m, m ∈ handled l' -> m ∈ handled l \/ m ∈ given;
  wk_claims : forall k, (claims k l' <= claims k l + (if has_key k given then 1 else 0))%nat;
  wk_ok : loop_ok l';
  wk_frame : held_only l l';
  wk_rest : lp_identity l' = lp_identity l /\ lp_unhanded l' = []
}.

(** While the turn runs: a stop leaves it the stashes it may deliver. *)
Definition during_turn (env : TickEnv) (convs : list string) (l : Loop) : Loop :=
  set_covering [] (map_state (with_inFlight false) (stop_if (te_stop_turn env) (set_covering convs (map_state (with_inFlight true) l)))).

Record paused (convs : list string) (l l' : Loop) : Prop := {
  pa_work : handled l' ≡ₚ handled l;
  pa_claims : forall k, (claims k l' <= claims k l)%nat;
  pa_keys : NoDup (js_keys (ar_deferred (lp_state l')));
  pa_held : sublist (ar_deferred (lp_state l')) (ar_deferred (lp_state l));
  pa_unhanded : lp_unhanded l' = [];
  pa_covering : lp_stopped l' = true -> forall kv, kv ∈ ar_deferred (lp_state l') -> fst kv ∈ convs;
  pa_frame : held_only l l';
  pa_rest : lp_identity l' = lp_identity l /\ lp_turns l' = lp_turns l
}.

Lemma stop_if_held b l : sublist (ar_deferred (lp_state (stop_if b l))) (ar_deferred (lp_state l)).
Proof. unfold stop_if. destruct (_ && _); [|done]. rewrite flush_state. apply filter_sublist. Qed.

Lemma during_turn_paused env convs l : loop_ok l -> lp_stopped l = false -> lp_unhanded l = [] -> paused convs l (during_turn env convs l).
Proof.
  intros [K1 K2 K3] Hns Hu. unfold during_turn. set (l0 := set_covering convs (map_state (with_inFlight true) l)).
  assert (K0 : loop_ok l0) by (split; simpl; [done|by rewrite Hns|by rewrite Hns]).
  destruct (stop_if_moves (te_stop_turn env) l0) as [Hw Hc Hk (d & b & Hf) Hi _]. destruct (Hk K0) as [J1 J2 J3].
  destruct (stop_if_fields (te_stop_turn env) l0) as (Hcov & Ht & _ & _ & Hun). pose proof (stop_if_held (te_stop_turn env) l0) as Hh.
  set (l1 := stop_if _ l0) in *. split; simpl; try done.
  - destruct Hun as [? | ->]; done.
  - intros Hs kv Hkv. rewrite Hcov in J3. by apply J3.
  - exists d, false. unfold map_state. cbn [lp_state set_loop_state]. by rewrite Hf.
Qed.

Lemma held_in_handled kv m l : kv ∈ ar_deferred (lp_state l) -> m ∈ stash_messages (snd kv) -> m ∈ handled l.
Proof.
  intros Hkv Hm. unfold handled, held_messages. rewrite !elem_of_app. do 4 right. apply list_elem_of_In, in_flat_map.
  exists kv. by rewrite <- !list_elem_of_In.
Qed.

Lemma elem_of_held m d : m ∈ held_messages d <-> exists kv, kv ∈ d /\ m ∈ stash_messages (snd kv).
Proof. unfold held_messages. rewrite list_elem_of_In, in_flat_map. by setoid_rewrite <- list_elem_of_In. Qed.

Lemma turn_from (floored : list InboxMessage) cv l : (forall m, m ∈ cv_messages cv -> m ∈ floored \/ exists conv stash, conv ∈ cv_conversations cv /\
     js_get conv (ar_deferred (lp_state l)) = Some stash /\ m ∈ stash_messages stash) ->
  forall m, m ∈ cv_messages cv -> m ∈ handled l \/ m ∈ floored.
Proof.
  intros Mi m [?|(conv & stash & _ & Hg & Hm)]%Mi; [by right|left]. apply js_get_Some_elem in Hg. by apply (held_in_handled (conv, stash)).
Qed.

Lemma held_count_sublist k d d' : sublist d d' -> (held_count k d <= held_count k d')%nat.
Proof. intros Hs. apply sublist_length, sublist_filter, Hs. Qed.

(** The claims of a turn that clears what it delivers. *)
Lemma cleared_claims k floored cv l d : NoDup (js_keys (ar_deferred (lp_state l))) -> sublist d (ar_deferred (lp_state l)) ->
  (forall m, m ∈ cv_messages cv -> m ∈ floored \/ exists conv stash, conv ∈ cv_conversations cv /\
     js_get conv (ar_deferred (lp_state l)) = Some stash /\ m ∈ stash_messages stash) ->
  ((if has_key k (cv_messages cv) then 1 else 0) +
   held_count k (List.filter (fun kv => negb (bool_decide (fst kv ∈ cv_conversations cv))) d) <=
   held_count k (ar_deferred (lp_state l)) + (if has_key k floored then 1 else 0))%nat.
Proof.
  intros Hnd Hsub Mi. set (keep := fun kv : string * DeferredStash => _).
  pose proof (held_count_sublist k _ _ (sublist_filter keep _ _ Hsub)) as Hle.
  pose proof (held_count_sublist k _ _ (filter_sublist keep (ar_deferred (lp_state l)))) as Hle2.
  destruct (has_key k (cv_messages cv)) eqn:E; [|lia]. destruct (has_key k floored) eqn:Ef; [lia|].
  apply has_key_elem in E as (m & Hm & Hk). destruct (Mi m Hm) as [Hin|(conv & stash & Hconv & Hg & Hms)].
  { assert (has_key k floored = true) by (apply has_key_elem; eauto). congruence. }
  assert (Hle3 : (held_count k (List.filter keep (ar_deferred (lp_state l))) <= held_count k (js_delete conv (ar_deferred (lp_state l))))%nat).
  { apply held_count_sublist. unfold js_delete. generalize (ar_deferred (lp_state l)). intros dl.
    assert (E : List.filter keep dl = List.filter keep (List.filter (fun kv => negb (bool_decide (fst kv = conv))) dl)).
    { rewrite filter_filter. apply filter_ext'. intros kv. unfold keep.
      destruct (bool_decide_reflect (fst kv = conv)) as [->|]; [|done]. by rewrite bool_decide_eq_true_2. }
    rewrite E. apply filter_sublist. }
  rewrite (held_count_take k conv stash _ Hnd Hg). assert (Hs : has_key k (stash_messages stash) = true) by (apply has_key_elem; eauto).
  rewrite Hs. lia.
Qed.

Lemma spawned_works floored cv l l2 : paused (cv_conversations cv) l l2 -> NoDup (js_keys (ar_deferred (lp_state l))) ->
  covers floored (cv_messages cv) ->
  (forall conv stash, conv ∈ cv_conversations cv -> js_get conv (ar_deferred (lp_state l)) = Some stash -> covers (stash_messages stash) (cv_messages cv)) ->
  (forall m, m ∈ cv_messages cv -> m ∈ floored \/ exists conv stash, conv ∈ cv_conversations cv /\
     js_get conv (ar_deferred (lp_state l)) = Some stash /\ m ∈ stash_messages stash) ->
  works floored l (foldl (fun l c => map_state (fun s => clearDeferred s c) l) (set_turns (lp_turns l2 ++ [cv_messages cv])%list l2) (cv_conversations cv)).
Proof.
  intros [Hw Hc Hk Hh Hu Hcov (d & b & Hf) [Hi Ht]] Hnd Mf Ms Mi. rewrite clear_all. cbn [lp_state set_turns].
  set (keep := fun kv : string * DeferredStash => negb _). set (l' := set_loop_state _ _).
  assert (Hcv : forall m, m ∈ cv_messages cv -> m ∈ handled l').
  { intros m Hm. unfold handled, l'. simpl. rewrite concat_app, !elem_of_app. simpl. rewrite app_nil_r. tauto. }
  split.
  - intros m Hm. apply elem_of_app in Hm as [Hm|Hm].
    2:{ destruct (Mf m Hm) as (m' & Hm' & E). exists m'. auto. }
    setoid_rewrite <- Hw in Hm. unfold handled in Hm. rewrite !elem_of_app in Hm.
    assert (Hcase : m ∈ handled l' \/ m ∈ held_messages (ar_deferred (lp_state l2))).
    { unfold handled, l'. simpl. rewrite concat_app, !elem_of_app. tauto. }
    destruct Hcase as [?|([conv stash] & Hkv & Hms)%elem_of_held]; [by exists m|].
    destruct (bool_decide_reflect (conv ∈ cv_conversations cv)) as [Hconv|Hconv].
    + assert (Hg : js_get conv (ar_deferred (lp_state l)) = Some stash) by (apply js_get_elem; [done|by eapply elem_of_sublist]).
      destruct (Ms conv stash Hconv Hg m Hms) as (m' & Hm' & E). exists m'. auto.
    + exists m. split; [|done]. apply (held_in_handled (conv, stash)); [|done]. unfold l'. simpl. apply elem_of_where. split; [done|].
      unfold keep. simpl. by rewrite bool_decide_eq_false_2.
  - intros m Hm. assert (Hcase : m ∈ cv_messages cv \/ m ∈ handled l2).
    { unfold handled, l' in Hm. simpl in Hm. rewrite concat_app, !elem_of_app in Hm. simpl in Hm. rewrite app_nil_r in Hm.
      unfold handled. rewrite !elem_of_app. destruct_or! Hm; try tauto.
      apply elem_of_held in Hm as (kv & [Hkv _]%elem_of_where & Hms). right. do 4 right. apply elem_of_held. eauto. }
    destruct Hcase as [Hm'|Hm']; [by apply (turn_from floored cv)|left]. by setoid_rewrite Hw in Hm'.
  - intros k. pose proof (cleared_claims k floored cv l (ar_deferred (lp_state l2)) Hnd Hh Mi) as Hcl.
    unfold claims, turns_with, l'. simpl. rewrite List.filter_app, length_app, Ht. simpl. unfold held_count in Hcl. fold keep in Hcl.
    destruct (has_key k (cv_messages cv)); simpl in *; lia.
  - split; simpl.
    + unfold js_keys. eapply sublist_NoDup; [exact Hk|]. apply sublist_map, filter_sublist.
    + done.
    + intros Hs kv (Hin & Hb)%elem_of_where. apply negb_true_iff, bool_decide_eq_false in Hb. by destruct (Hb (Hcov Hs kv Hin)).
  - exists (List.filter keep (ar_deferred (lp_state l2))), b. unfold l'. simpl. by rewrite Hf.
  - done.
Qed.

Lemma failed_works floored cv l l2 : paused (cv_conversations cv) l l2 ->
  covers floored (cv_messages cv) -> (forall m, m ∈ cv_messages cv -> m ∈ handled l \/ m ∈ floored) ->
  works floored l (let l := set_failed (lp_failed l2 ++ [cv_messages cv])%list l2 in
                   if negb (length (cv_conversations cv) =? 0)%nat && lp_stopped l then flushOnStop l else l).
Proof.
  intros [Hw Hc Hk Hh Hu Hcov (d & b & Hf) [Hi Ht]] Mf Mi. set (l3 := set_failed _ l2). cbv zeta.
  assert (Hh3 : handled l3 ≡ₚ (handled l2 ++ cv_messages cv)%list).
  { unfold handled, l3. simpl. rewrite concat_app. simpl. perm. }
  assert (Hall : forall l', handled l' ≡ₚ handled l3 -> (forall k, (claims k l' <= claims k l2)%nat) -> loop_ok l' -> held_only l2 l' ->
    lp_identity l' = lp_identity l2 /\ lp_unhanded l' = [] -> works floored l l').
  { intros l' Hp Hcl Hok Hfr [Hid Hun]. split.
    - intros m Hm. setoid_rewrite Hp. setoid_rewrite Hh3. setoid_rewrite elem_of_app. apply elem_of_app in Hm as [Hm|Hm].
      + exists m. setoid_rewrite Hw. auto.
      + destruct (Mf m Hm) as (m' & Hm' & E). exists m'. auto.
    - intros m Hm. setoid_rewrite Hp in Hm. setoid_rewrite Hh3 in Hm. apply elem_of_app in Hm as [Hm|Hm]; [|by apply Mi].
      left. by setoid_rewrite Hw in Hm.
    - intros k. specialize (Hcl k). specialize (Hc k). lia.
    - done.
    - eapply held_only_trans; [|exact Hfr]. by exists d, b.
    - split; congruence. }
  destruct (negb _ && _) eqn:E.
  - apply Hall; [apply flush_work|intros k; apply (flush_claims k l3)|by apply flush_ok|apply (flush_frame l3)|].
    destruct (flush_fields l3) as (? & _ & ? & _). done.
  - apply Hall; [done|done| |exact (held_only_refl l2)|done]. split; simpl; [done|done|]. intros Hs kv Hkv.
    specialize (Hcov Hs kv Hkv). apply andb_false_iff in E as [E|E]; [|unfold l3 in E; simpl in E; congruence].
    apply negb_false_iff, Nat.eqb_eq in E. destruct (cv_conversations cv); [by apply elem_of_nil in Hcov|done].
Qed.

Lemma cover_turn_works env floored vs g l : loop_ok l -> lp_stopped l = false -> lp_unhanded l = [] ->
  works floored l (cover_turn env (mergeCoveredStashes (lp_state l) floored vs g) l).
Proof.
  intros K Hns Hu. destruct (merge_spec (lp_state l) floored vs g) as (Mf & Ms & Mi).
  set (cv := mergeCoveredStashes _ _ _ _) in *. pose proof (during_turn_paused env (cv_conversations cv) l K Hns Hu) as P.
  unfold cover_turn. fold (during_turn env (cv_conversations cv) l). destruct (te_spawn env).
  - apply spawned_works; try done. apply K.
  - apply failed_works; [done|done|]. by apply (turn_from floored cv).
Qed.
End Floor.
