(* ===== verification/AutoReplyTicks.v ===== *)
(** * Ticks and runs of the auto-reply loop

    What a tick accepts, where it puts it, and what of the state a tick touches
    before: the lemmas behind [AutoReplyProperties.v]. *)

From S2P Require Import Prelude Json IsoTime JsValues Identity TrustSync Verify Text CanonicalJson JsMap InboxRing AutoReply AutoReplyLoop AutoReplyWork AutoReplyFloor.
Import Ascii String.
Open Scope string_scope.
Open Scope Z_scope.

Section Ticks.
Context `{Crypto} `{NodeCrypto} `{Signing} `{Locale}.
Context (opts : LoopOptions).

(** ** Where a tick puts what it was given *)

(** The messages whose conversation a record can hold. *)
Definition on_record (ms : list InboxMessage) : list InboxMessage := List.filter (fun m => negb (no_record (im_conversation m))) ms.

Lemma elem_of_on_record m ms : m ∈ on_record ms <-> m ∈ ms /\ no_record (im_conversation m) = false.
Proof. unfold on_record. by rewrite elem_of_where, negb_true_iff. Qed.

(** As [works], for these. *)
Record takes (given : list InboxMessage) (l l' : Loop) : Prop := {
  tk_covers : covers (handled l ++ on_record given) (handled l');
  tk_from : forall m, m ∈ handled l' -> m ∈ handled l \/ m ∈ given;
  tk_claims : forall k, (claims k l' <= claims k l + (if has_key k given then 1 else 0))%nat;
  tk_ok : loop_ok l';
  tk_frame : held_only l l';
  tk_rest : lp_identity l' = lp_identity l /\ lp_unhanded l' = []
}.

(** And whatever happens to the gates. *)
Record carries (given : list InboxMessage) (l l' : Loop) : Prop := {
  ca_covers : covers (handled l ++ on_record given) (handled l');
  ca_from : forall m, m ∈ handled l' -> m ∈ handled l \/ m ∈ given;
  ca_claims : forall k, (claims k l' <= claims k l + (if has_key k given then 1 else 0))%nat;
  ca_ok : loop_ok l';
  ca_unhanded : lp_unhanded l' = []
}.

Lemma moves_works given l l1 l2 : works given l l1 -> moves l1 l2 -> works given l l2.
Proof.
  intros [C F N K W [I U]] [Mw Mc Mk Mf Mi Mu]. split.
  - intros m Hm. destruct (C m Hm) as (m' & Hm' & E). exists m'. setoid_rewrite Mw. done.
  - intros m Hm. setoid_rewrite Mw in Hm. by apply F.
  - intros k. by rewrite Mc.
  - by apply Mk.
  - by eapply held_only_trans.
  - split; [congruence|by apply Mu].
Qed.

Lemma moves_takes given l l1 l2 : takes given l l1 -> moves l1 l2 -> takes given l l2.
Proof.
  intros [C F N K W [I U]] [Mw Mc Mk Mf Mi Mu]. split.
  - intros m Hm. destruct (C m Hm) as (m' & Hm' & E). exists m'. setoid_rewrite Mw. done.
  - intros m Hm. setoid_rewrite Mw in Hm. by apply F.
  - intros k. by rewrite Mc.
  - by apply Mk.
  - by eapply held_only_trans.
  - split; [congruence|by apply Mu].
Qed.

Lemma stop_if_not b l : lp_stopped (stop_if b l) = false -> stop_if b l = l.
Proof.
  rewrite stop_if_stopped. intros [Hs Hb]%orb_false_iff. unfold stop_if. by rewrite Hb.
Qed.

(** The messages in hand count as given. *)
Lemma handled_in_hand kept l : handled (set_unhanded kept l) ≡ₚ (handled (set_unhanded [] l) ++ kept)%list.
Proof. unfold handled. simpl. perm. Qed.

Lemma moves_in_hand kept l l' : loop_ok l' -> lp_unhanded l' = [] -> moves (set_unhanded kept l) l' -> takes kept (set_unhanded [] l) l'.
Proof.
  intros K U [Mw Mc Mk Mf Mi _]. rewrite handled_in_hand in Mw. split.
  - apply covers_incl. intros m Hm. setoid_rewrite Mw. apply elem_of_app in Hm as [Hm|[Hm _]%elem_of_on_record]; apply elem_of_app; tauto.
  - intros m Hm. setoid_rewrite Mw in Hm. by apply elem_of_app in Hm.
  - intros k. specialize (Mc k). unfold claims, turns_with in *. simpl in *. lia.
  - done.
  - done.
  - done.
Qed.

Definition homed (kept : list InboxMessage) : Prop :=
  forall m m', m ∈ kept -> m' ∈ kept -> heldKey m = heldKey m' -> im_conversation m = im_conversation m'.

(** What a plan gives to the stashes and to the turn is what was kept. *)
Lemma planned_takes kept acquire gs l0 l1 l2 : homed kept ->
  gs ≡ₚ fp_deferred (planFloorTurn kept acquire) -> gains gs l0 l1 -> works (fp_floored (planFloorTurn kept acquire)) l1 l2 -> takes kept l0 l2.
Proof.
  intros Hh Hp [Gc Gf Gn Gk Gh (Gi & _ & _ & _ & _)] [C F N K W [I U]]. destruct (plan_spec kept acquire) as [Pf Pg Pk Pa].
  set (p := planFloorTurn kept acquire) in *.
  assert (Hgs : group_messages gs ≡ₚ group_messages (fp_deferred p)) by (apply Permutation_flat_map; exact Hp).
  assert (Hgk : forall m, m ∈ group_messages gs -> m ∈ kept).
  { intros m Hm. setoid_rewrite Hgs in Hm. unfold group_messages in Hm. apply list_elem_of_In, in_flat_map in Hm as ([c ms] & Hin%list_elem_of_In & Hm%list_elem_of_In).
    by apply (Pg _ _ Hin). }
  split.
  - intros m Hm. assert (Hcase : m ∈ (handled l0 ++ group_messages gs)%list \/ m ∈ fp_floored p).
    { apply elem_of_app in Hm as [Hm|[Hm Hr]%elem_of_on_record]; [left; apply elem_of_app; by left|].
      destruct (Pa m Hm) as [?|?]; [|done|by right|left; apply elem_of_app; right; by setoid_rewrite Hgs].
      apply conversations_spec. eauto. }
    destruct Hcase as [Hc|Hc].
    + destruct (Gc m Hc) as (m1 & Hm1 & E1). destruct (C m1) as (m2 & Hm2 & E2); [apply elem_of_app; by left|]. exists m2. split; congruence.
    + apply C, elem_of_app. by right.
  - intros m [Hm|Hm]%F; [apply Gf in Hm as [?|?]; auto|right; by apply Pf].
  - intros k. specialize (N k). specialize (Gn k). rewrite (group_count_perm k _ _ Hp) in Gn.
    destruct (has_key k kept) eqn:Ek.
    + apply has_key_elem in Ek as (m & Hm & Hk).
      pose proof (plan_once kept acquire k (im_conversation m)) as Ho. fold p in Ho.
      assert (Hc : forall x, x ∈ kept -> heldKey x = k -> im_conversation x = im_conversation m) by (intros x Hx Hkx; apply Hh; congruence || done).
      specialize (Ho Hc). lia.
    + assert (Hz : has_key k (fp_floored p) = false).
      { apply not_true_iff_false. intros (m & Hm & Hk)%has_key_elem. assert (has_key k kept = true); [|congruence].
        apply has_key_elem. exists m. split; [by apply Pf|done]. }
      assert (Hg : group_count k (fp_deferred p) = 0%nat); [|rewrite Hz in N; lia].
      unfold group_count. rewrite filter_nil; [done|]. intros [c ms] Hin. apply not_true_iff_false. intros (m & Hm & Hk)%has_key_elem.
      assert (has_key k kept = true); [|congruence]. apply has_key_elem. exists m. split; [by apply (Pg _ _ Hin)|done].
  - done.
  - by eapply held_only_trans.
  - split; congruence.
Qed.

Lemma works_refl l : loop_ok l -> lp_unhanded l = [] -> works [] l l.
Proof.
  intros K U. split; [|by left| |done|apply held_only_refl|done].
  - apply covers_incl. intros m. by rewrite app_nil_r.
  - intros k. lia.
Qed.

Lemma takes_moved l l' : loop_ok l -> lp_unhanded l = [] -> moves l l' -> takes [] l l'.
Proof.
  intros K U M. eapply moves_takes; [|exact M]. destruct (works_refl l K U) as [C F N K' W R]. by split.
Qed.

(** From the plan to the end of the tick. *)
Lemma tick_turn_takes env batch vs kept l : homed kept -> loop_ok (set_unhanded [] l) -> lp_stopped l = false ->
  takes kept (set_unhanded [] l) (tick_turn opts env batch vs kept (set_unhanded kept l)).
Proof.
  intros Hh K Hs. unfold tick_turn. set (l1 := stop_if (te_stop_plan env) (set_unhanded kept l)).
  pose proof (stop_if_moves (te_stop_plan env) (set_unhanded kept l)) as M. fold l1 in M.
  assert (Kk : loop_ok (set_unhanded kept l)) by (destruct K as [K1 _ K3]; split; simpl in *; [done|congruence|done]).
  cbv zeta. destruct (lp_stopped l1) eqn:Hs1.
  { apply moves_in_hand; [by apply M| |exact M]. apply M in Kk. by apply Kk. }
  assert (Hl1 : l1 = set_unhanded kept l) by by apply stop_if_not. clearbody l1. subst l1.
  rewrite <- stash_plan_unhanded. change (set_unhanded [] (set_unhanded kept l)) with (set_unhanded [] l).
  set (plan := planFloorTurn kept (te_acquire env)). set (g := verificationGeneration _). set (verdicts := batchVerdictsByHeldKey _ _).
  assert (Hst : lp_state (stash_plan verdicts (te_now_plan env) g (fp_deferred plan) (set_unhanded kept l)) =
                lp_state (stash_plan verdicts (te_now_plan env) g (fp_deferred plan) (set_unhanded [] l))).
  { by rewrite !stash_plan_unhanded. }
  rewrite Hst. pose proof (stash_plan_gains verdicts (te_now_plan env) g (fp_deferred plan) (set_unhanded [] l) (lk_keys _ K)) as G.
  set (l2 := stash_plan _ _ _ _ (set_unhanded [] l)) in *. destruct (ga_rest _ _ _ G) as (Hi2 & Hs2 & _ & _ & Hu2 & _).
  assert (K2 : loop_ok l2) by (split; [apply G|done|rewrite Hs2; simpl; congruence]).
  set (cover := mergeCoveredStashes (lp_state l2) _ _ _). set (l3 := if (length (fp_floored plan) =? 0)%nat then l2 else _).
  assert (W : works (fp_floored plan) l2 l3).
  { unfold l3. destruct (length (fp_floored plan) =? 0)%nat eqn:E.
    - apply Nat.eqb_eq, nil_length_inv in E. rewrite E. by apply works_refl.
    - assert (W : works (fp_floored plan) l2 (cover_turn env cover l2)).
      { apply cover_turn_works; [done|rewrite Hs2; done|done]. }
      destruct (length (fp_toRelease plan) =? 0)%nat; [done|]. eapply moves_works; [exact W|apply stop_if_moves]. }
  pose proof (planned_takes kept (te_acquire env) _ _ _ _ Hh (record_entries_perm _) G W) as W'.
  destruct (lp_stopped l3); [done|]. eapply moves_takes; [exact W'|]. apply service_moves. apply W.
Qed.

(** ** What the gates leave alone *)

Definition gate_frame (s s' : AutoReplyState) : Prop :=
  ar_seen s' = ar_seen s /\ ar_deferred s' = ar_deferred s /\ ar_inFlight s' = ar_inFlight s.

#[local] Instance gate_frame_preorder : PreOrder gate_frame.
Proof. split; [done|]. intros s1 s2 s3 (? & ? & ?) (? & ? & ?). split_and!; congruence. Qed.

Lemma foldl_frame {X} (f : AutoReplyState -> X -> AutoReplyState) l : (forall s x, gate_frame s (f s x)) -> forall s, gate_frame s (foldl f s l).
Proof. intros Hf. induction l as [|x l IH]; intros s; simpl; [done|]. etrans; [apply Hf|apply IH]. Qed.

Lemma reconcile_frame budgets b s : gate_frame s (reconcilePeerLatches budgets b s).
Proof. apply foldl_frame. intros s' c. by destruct (isCapped _). Qed.

Lemma burn_frame vs real s : gate_frame s (burn_nonces vs real s).
Proof. apply foldl_frame. intros s' m. by destruct (loop_burned_nonce vs m). Qed.

Lemma note_frame s conv now : gate_frame s (fst (noteProgressRefresh s conv now)).
Proof. unfold noteProgressRefresh. by destruct (_ <=? _)%nat. Qed.

Lemma progress_frame self vs now s m : gate_frame s (fst (progress_message self vs now s m)).
Proof.
  unfold progress_message. destruct (negb _); [done|]. destruct (failed_verdict _); [done|].
  pose proof (note_frame s (im_conversation m) now) as Hn. destruct (noteProgressRefresh _ _ _) as [s1 []]; simpl in *; [|done].
  etrans; [exact Hn|done].
Qed.

Lemma refresh_frame s ms self vs now : gate_frame s (refreshBudgetForProgressSignals s ms self vs now).
Proof. apply foldl_frame. intros s' m. apply progress_frame. Qed.

Lemma rate_gate_spec now ms : forall s, gate_frame s (fst (applyPeerRateGate now s ms)) /\ sublist (snd (applyPeerRateGate now s ms)) ms.
Proof.
  induction ms as [|m ms IH]; intros s; simpl; [done|].
  destruct (rate_message now s m) as [s1 keep] eqn:E. destruct (IH s1) as [Hf Hs]. destruct (applyPeerRateGate now s1 ms) as [s2 kept].
  simpl in *. split; [|destruct keep; by constructor]. etrans; [|exact Hf]. unfold rate_message in E.
  destruct (from_operator m); [by injection E as <- _|]. destruct (ar_recent s !! _) as [[c w]|].
  - destruct (PEER_RATE_WINDOW_MS <? now - w); [destruct (PEER_RATE_MAX <=? 0)|destruct (PEER_RATE_MAX <=? c)]; by injection E as <- _.
  - destruct (PEER_RATE_MAX <=? 0); by injection E as <- _.
Qed.

Lemma latch_gate_spec budgets b ms : forall s latched, let '(s', kept, _) := applyPeerLatch budgets b s ms latched in gate_frame s s' /\ sublist kept ms.
Proof.
  induction ms as [|m ms IH]; intros s latched; simpl; [done|].
  destruct (latch_message budgets b s m) as [s1 keep] eqn:E.
  specialize (IH s1 (if keep then latched else count_latched (im_conversation m) latched)).
  destruct (applyPeerLatch _ _ _ _ _) as [[s2 kept] latched2]. destruct IH as [Hf Hs].
  split; [|destruct keep; by constructor]. etrans; [|exact Hf]. unfold latch_message in E.
  destruct (from_operator m); [by injection E as <- _|]. destruct (peerLatchOpen _ _ _); [|by injection E as <- _].
  destruct (isCapped _); by injection E as <- _.
Qed.

Lemma tick_gate_spec env batch real s :
  let '(s', kept, _) := tick_gate opts env batch real s in gate_frame s s' /\ sublist kept real.
Proof.
  unfold tick_gate. set (s1 := foldl _ s real).
  assert (H1' : gate_frame s s1) by (apply foldl_frame; intros s' m; by destruct (from_operator m)).
  destruct (rate_gate_spec (te_now env) real s1) as [Hf Hs]. destruct (applyPeerRateGate _ _ _) as [s2 rateKept]. simpl in *.
  pose proof (latch_gate_spec (pb_conversation_budgets batch) (snd (tick_settings opts batch)) rateKept s2 []) as Hl.
  destruct (applyPeerLatch _ _ _ _ _) as [[s3 kept] latched]. destruct Hl as [Hf' Hs']. split; [|by etrans].
  etrans; [exact H1'|]. by etrans.
Qed.

(** A step that only moves work and the gates: what is held and what is seen stay. *)
Record gated (l l' : Loop) : Prop := {
  gt_work : handled l' ≡ₚ handled l;
  gt_claims : forall k, (claims k l' <= claims k l)%nat;
  gt_ok : loop_ok l -> loop_ok l';
  gt_unhanded : lp_unhanded l = [] -> lp_unhanded l' = [];
  gt_seen : ar_seen (lp_state l') = ar_seen (lp_state l)
}.

#[local] Instance gated_preorder : PreOrder gated.
Proof.
  split; [by split|]. intros l1 l2 l3 [A B C D E] [A' B' C' D' E'].
  split; [by rewrite A'|intros k; by rewrite B'|auto|auto|congruence].
Qed.

Lemma moves_gated l l' : moves l l' -> gated l l'.
Proof. intros [Mw Mc Mk (d & b & Mf) Mi Mu]. split; try done. by rewrite Mf. Qed.

(** The state changes by its gates, and nothing of the work. *)
Lemma frame_gated l l' : gate_frame (lp_state l) (lp_state l') -> lp_turns l' = lp_turns l -> lp_failed l' = lp_failed l -> lp_dead l' = lp_dead l ->
  lp_unhanded l' = lp_unhanded l -> lp_stopped l' = lp_stopped l -> lp_covering l' = lp_covering l -> gated l l'.
Proof.
  intros (Hs & Hd & _) Ht Hf Hde Hu Hst Hc. split.
  - unfold handled. by rewrite Ht, Hf, Hde, Hu, Hd.
  - intros k. unfold claims, turns_with. by rewrite Ht, Hd.
  - intros [K1 K2 K3]. split; rewrite ?Hd, ?Hu, ?Hst, ?Hc; done.
  - by rewrite Hu.
  - done.
Qed.

Lemma notices_gated env latched : forall l, gated l (raise_notices env latched l).
Proof.
  induction latched as [|[conv pending] rest IH]; intros l; simpl; [done|].
  unfold markConversationEscalated. destruct (bool_decide _); simpl; [apply IH|].
  set (l1 := set_notices _ _). assert (G : gated l l1) by by apply frame_gated.
  pose proof (moves_gated _ _ (stop_if_moves (te_stop_notice env conv) l1)) as G2. etrans; [exact G|].
  destruct (lp_stopped (stop_if _ l1)); [done|]. etrans; [exact G2|apply IH].
Qed.

(** The verdicts of a tick, as they are when the messages are admitted. *)
Definition tick_verdicts (env : TickEnv) (batch : PluginBatch) (l : Loop) : Verdicts :=
  match tick_verify opts env batch l with
  | (l', Some vs) => snd (tick_judge opts env batch l' vs)
  | (_, None) => ∅
  end.

(** Verifying touches the identity only. *)
Lemma tick_verify_frame env batch l : let l' := fst (tick_verify opts env batch l) in
  l' = set_identity (lp_identity l') l.
Proof. unfold tick_verify. destruct (lp_identity l) eqn:E; simpl; [done|]. rewrite E. destruct l; simpl in *; by subst. Qed.

Lemma tick_verify_same env batch l : let l' := fst (tick_verify opts env batch l) in
  lp_state l' = lp_state l /\ gated l l' /\ lp_stopped l' = lp_stopped l.
Proof. cbv zeta. rewrite (tick_verify_frame env batch l). split_and!; [done|by apply frame_gated|done]. Qed.

Lemma tick_judge_frame env batch l vs : let l' := fst (tick_judge opts env batch l vs) in
  lp_state l' = lp_state l /\ lp_turns l' = lp_turns l /\ lp_failed l' = lp_failed l /\ lp_dead l' = lp_dead l /\
  lp_unhanded l' = lp_unhanded l /\ lp_stopped l' = lp_stopped l /\ lp_covering l' = lp_covering l.
Proof. done. Qed.

Lemma tick_open_spec env batch l vs0 : let '(l', vs, real) := tick_open opts env batch l vs0 in
  gated l l' /\ vs = snd (tick_judge opts env batch l vs0) /\ lp_stopped l' = lp_stopped l /\
  exists s, ar_seen s = ar_seen (lp_state l) /\ real = real_messages opts batch vs s.
Proof.
  unfold tick_open. pose proof (tick_judge_frame env batch l vs0) as Hj. destruct (tick_judge opts env batch l vs0) as [l1 vs].
  simpl in Hj. destruct Hj as (Hs & Ht & Hf & Hd & Hu & Hst & Hc). simpl. split_and!; [|done|done|].
  - apply frame_gated; simpl; try done. rewrite <- Hs. etrans; [apply reconcile_frame|].
    etrans; [apply burn_frame|apply refresh_frame].
  - eexists. split; [|reflexivity]. rewrite <- Hs. apply reconcile_frame.
Qed.

(** ** What a tick accepts *)

Record Accepted := MkAccepted {
  ac_batch : PluginBatch;
  ac_verdicts : Verdicts;
  ac_real : list InboxMessage;
  ac_kept : list InboxMessage;
  ac_loop : Loop
}.

(** The messages a tick marks and acknowledges, and of these what it keeps for a turn;
    [None] when it stops, or has nothing to mark, before. *)
Definition tick_accepts (env : TickEnv) (l : Loop) : option Accepted :=
  if lp_stopped l || ar_inFlight (lp_state l) then None
  else
    let l1 := stop_if (te_stop_poll env) l in
    match te_inbox env with
    | None => None
    | Some batch0 =>
        if lp_stopped l1 then None
        else
          let batch := withLocalRoomCap batch0 (lo_peerTurnBudget opts) in
          match tick_verify opts env batch l1 with
          | (_, None) => None
          | (lv, Some vs0) =>
              let '(l2, vs, real) := tick_open opts env batch lv vs0 in
              let '(s, kept, latched) := tick_gate opts env batch real (lp_state l2) in
              let l3 := raise_notices env latched (set_loop_state s l2) in
              if (length real =? 0)%nat || lp_stopped l3 then None else Some (MkAccepted batch vs real kept l3)
          end
    end.

Definition tick_end (l : Loop) : Loop :=
  let l := set_covering [] (set_unhanded [] l) in if lp_stopped l then flushOnStop l else l.

Lemma tick_end_gated l : lp_unhanded l = [] -> (lp_stopped l = false -> loop_ok l) -> NoDup (js_keys (ar_deferred (lp_state l))) ->
  gated l (tick_end l) /\ loop_ok (tick_end l) /\ lp_unhanded (tick_end l) = [].
Proof.
  intros Hu K Hnd. unfold tick_end. set (l1 := set_covering [] (set_unhanded [] l)).
  assert (Hh : handled l1 = handled l) by (unfold handled, l1; simpl; by rewrite Hu).
  destruct (lp_stopped l1) eqn:Hs; change (lp_stopped l1) with (lp_stopped l) in Hs.
  - pose proof (flush_ok l1 Hnd) as Kf. destruct (flush_fields l1) as (Hf & _). split_and!; [|done|done].
    split; [rewrite flush_work; by rewrite Hh|intros k; apply (flush_claims k l1)|done|done|]. by rewrite flush_state.
  - assert (K1 : loop_ok l1) by (destruct (K Hs) as [J1 _ _]; split; simpl; [done|done|congruence]).
    split_and!; [|done|done]. split; [by rewrite Hh|intros k; done|done|done|done].
Qed.

Lemma held_only_seen l l' : held_only l l' -> ar_seen (lp_state l') = ar_seen (lp_state l).
Proof. intros (d & b & ->). done. Qed.

Definition marked (real : list InboxMessage) (l : Loop) : Loop :=
  map_state (fun s => foldl markSeen s real) (usage opts (inboxCacheContext opts (lp_identity l)) l).

Lemma marked_state real l : lp_state (marked real l) = foldl markSeen (lp_state l) real.
Proof. done. Qed.

Lemma mark_all real : forall s, foldl markSeen s real = with_seen (foldl (fun l m => add_bounded plugin_SEEN_CAP (heldKey m) l) (ar_seen s) real) s.
Proof. induction real as [|m real IH]; intros s; simpl; [by destruct s|]. by rewrite IH. Qed.

Lemma marked_same real l : handled (marked real l) = handled l /\ (forall k, claims k (marked real l) = claims k l) /\
  ar_deferred (lp_state (marked real l)) = ar_deferred (lp_state l) /\ (loop_ok l -> loop_ok (marked real l)).
Proof.
  assert (Hd : ar_deferred (lp_state (marked real l)) = ar_deferred (lp_state l)) by (rewrite marked_state, mark_all; done).
  split_and!; [|..|done|].
  - unfold handled. by rewrite Hd.
  - intros k. unfold claims. by rewrite Hd.
  - intros [K1 K2 K3]. split; rewrite ?Hd; done.
Qed.

Lemma ack_all_not env batch kept l : lp_stopped (ack_all env batch (set_unhanded kept l)) = false ->
  ack_all env batch (set_unhanded kept l) = set_unhanded kept (ack_all env batch l) /\ lp_stopped (ack_all env batch l) = false.
Proof.
  unfold ack_all. destruct (length _ =? 0)%nat; [done|]. intros Hs. pose proof Hs as Hs'. apply stop_if_not in Hs'. rewrite Hs'.
  rewrite stop_if_stopped in Hs. apply orb_false_iff in Hs as [Hs Hb]. rewrite Hb. unfold stop_if. simpl.
  destruct (te_ack_ok env); done.
Qed.

Lemma tick_accept_takes env batch vs real kept l : homed kept -> loop_ok l -> lp_unhanded l = [] -> lp_stopped l = false ->
  takes kept (marked real l) (tick_accept opts env batch vs real kept l).
Proof.
  intros Hh K U Hs. unfold tick_accept. fold (marked real l). cbv zeta. destruct (marked_same real l) as (_ & _ & _ & Km).
  assert (Hm : marked real l = set_unhanded [] (marked real l)) by (rewrite <- U; by destruct l).
  assert (Kk : loop_ok (set_unhanded kept (marked real l))) by (destruct (Km K) as [K1 K2 K3]; split; simpl in *; [done|congruence|done]).
  pose proof (ack_all_moves env batch (set_unhanded kept (marked real l))) as Ma.
  destruct (lp_stopped (ack_all env batch (set_unhanded kept (marked real l)))) eqn:Hsa.
  { rewrite Hm at 1. apply moves_in_hand; [by apply Ma| |done]. apply Ma in Kk. by apply Kk. }
  destruct (ack_all_not env batch kept (marked real l) Hsa) as [-> Hs2].
  pose proof (ack_all_moves env batch (marked real l)) as Mm. set (l2 := ack_all env batch (marked real l)) in *.
  assert (K2 : loop_ok l2) by by apply Mm, Km. assert (U2 : lp_unhanded l2 = []) by (apply (mv_unhanded _ _ Mm); exact U).
  assert (Hu2 : set_unhanded [] l2 = l2) by (rewrite <- U2; by destruct l2).
  destruct kept as [|m kept]; [rewrite Hu2; eapply moves_takes; [|by apply service_moves]; apply takes_moved; [by apply Km|exact U|done]|].
  pose proof (tick_turn_takes env batch vs (m :: kept) l2 Hh ltac:(by rewrite Hu2) Hs2) as W. rewrite Hu2 in W.
  destruct W as [C F N K3 W [I U3]], Mm as [Mw Mc _ Mf Mi _]. split; [| |intros k; rewrite N; by apply Nat.add_le_mono_r|done| |].
  - intros x Hx. apply C. rewrite elem_of_app in *. by setoid_rewrite Mw.
  - intros x [Hx|Hx]%F; [left; by setoid_rewrite Mw in Hx|by right].
  - by eapply held_only_trans.
  - split; [congruence|done].
Qed.

(** What a tick accepts comes from its batch, by the guards. *)
Definition admits (env : TickEnv) (l : Loop) (a : Accepted) : Prop :=
  exists batch0 s, te_inbox env = Some batch0 /\ ac_batch a = withLocalRoomCap batch0 (lo_peerTurnBudget opts) /\
    ac_verdicts a = tick_verdicts env (ac_batch a) (stop_if (te_stop_poll env) l) /\
    ar_seen s = ar_seen (lp_state l) /\ ac_real a = real_messages opts (ac_batch a) (ac_verdicts a) s /\ sublist (ac_kept a) (ac_real a).

Lemma tick_accepts_spec env l a : tick_accepts env l = Some a ->
  admits env l a /\ gated l (ac_loop a) /\ lp_stopped (ac_loop a) = false /\
  tick opts env l = tick_end (tick_accept opts env (ac_batch a) (ac_verdicts a) (ac_real a) (ac_kept a) (ac_loop a)).
Proof.
  unfold tick_accepts, tick, runTick, tick_batch. intros Ha.
  destruct (lp_stopped l) eqn:Hs; [done|]. destruct (ar_inFlight (lp_state l)) eqn:Hfl; [done|]. cbn [orb] in Ha. cbv zeta in *.
  destruct (te_inbox env) as [batch0|] eqn:Hb; [|done]. set (l1 := stop_if (te_stop_poll env) l) in *.
  pose proof (moves_gated _ _ (stop_if_moves (te_stop_poll env) l)) as G1. fold l1 in G1.
  destruct (lp_stopped l1) eqn:Hs1; [done|]. set (batch := withLocalRoomCap batch0 _) in *.
  destruct (tick_verify_same env batch l1) as (Hvst & Gv & Hvs1).
  assert (Htv : forall lv vs0, tick_verify opts env batch l1 = (lv, Some vs0) ->
            tick_verdicts env batch l1 = snd (tick_judge opts env batch lv vs0)) by (intros lv vs0 E; unfold tick_verdicts; by rewrite E).
  destruct (tick_verify opts env batch l1) as [lv [vs0|]]; [|done]. cbn [fst] in *. specialize (Htv lv vs0 eq_refl).
  pose proof (tick_open_spec env batch lv vs0) as Ho. destruct (tick_open opts env batch lv vs0) as [[l2 vs] real].
  destruct Ho as (G2 & Hvs & Hs2 & s0 & Hseen & Hreal). rewrite Hvst in Hseen.
  pose proof (tick_gate_spec env batch real (lp_state l2)) as Hg. destruct (tick_gate opts env batch real (lp_state l2)) as [[s kept] latched].
  destruct Hg as [Hf Hsub]. pose proof (notices_gated env latched (set_loop_state s l2)) as G4. set (l3 := raise_notices _ _ _) in *.
  destruct ((length real =? 0)%nat || lp_stopped l3) eqn:E; [done|]. apply orb_false_iff in E as [E Hs3]. injection Ha as <-. cbn [ac_batch ac_verdicts ac_real ac_kept ac_loop].
  assert (G3 : gated l2 (set_loop_state s l2)) by by apply frame_gated. split_and!; [| |done|].
  - exists batch0, s0. cbn. fold l1. rewrite Htv. split_and!; try done. etrans; [exact Hseen|]. apply G1.
  - etrans; [exact G1|]. etrans; [exact Gv|]. etrans; [exact G2|]. by etrans.
  - destruct real; [done|]. rewrite Hs3. done.
Qed.

(** Otherwise it only moves what is held. *)
Lemma tick_rejects_spec env l : loop_ok l -> lp_unhanded l = [] -> tick_accepts env l = None ->
  tick opts env l = l \/ exists l', gated l l' /\ tick opts env l = tick_end l'.
Proof.
  unfold tick_accepts, tick, runTick, tick_batch. intros K U Ha.
  destruct (lp_stopped l) eqn:Hs; [by left|right]. cbn [orb] in Ha. cbv zeta in *.
  destruct (ar_inFlight (lp_state l)) eqn:Hfl; [by exists l|].
  pose proof (moves_gated _ _ (stop_if_moves (te_stop_poll env) l)) as G1. set (l1 := stop_if (te_stop_poll env) l) in *.
  destruct (te_inbox env) as [batch0|] eqn:Hb; [|by exists l1].
  destruct (lp_stopped l1) eqn:Hs1; [by exists l1|]. set (batch := withLocalRoomCap batch0 _) in *.
  destruct (tick_verify_same env batch l1) as (_ & Gv & _).
  destruct (tick_verify opts env batch l1) as [lv [vs0|]]; cbn [fst] in Gv; [|exists lv; split; [by etrans|done]].
  pose proof (tick_open_spec env batch lv vs0) as Ho. destruct (tick_open opts env batch lv vs0) as [[l2 vs] real].
  destruct Ho as (G2 & _ & Hs2 & _). assert (G12 : gated l l2) by (etrans; [exact G1|]; by etrans).
  destruct real as [|m real].
  - pose proof (ack_all_moves env batch l2) as Ma. set (l3 := ack_all env batch l2) in *.
    assert (G3 : gated l l3) by (etrans; [exact G12|by apply moves_gated]).
    destruct (lp_stopped l3); [by exists l3|]. eexists. split; [|reflexivity]. etrans; [exact G3|].
    apply moves_gated, service_moves. by apply G3.
  - pose proof (tick_gate_spec env batch (m :: real) (lp_state l2)) as Hg. destruct (tick_gate opts env batch (m :: real) (lp_state l2)) as [[s kept] latched].
    destruct Hg as [Hf _]. pose proof (notices_gated env latched (set_loop_state s l2)) as G4. set (l3 := raise_notices _ _ _) in *.
    simpl in Ha. destruct (lp_stopped l3); [|done]. exists l3. split; [|done]. etrans; [exact G12|]. etrans; [|exact G4]. by apply frame_gated.
Qed.

(** A tick, whole. *)
Lemma tick_accepted env l a : loop_ok l -> lp_unhanded l = [] -> tick_accepts env l = Some a -> homed (ac_kept a) ->
  carries (ac_kept a) l (tick opts env l) /\
  ar_seen (lp_state (tick opts env l)) = foldl (fun l m => add_bounded plugin_SEEN_CAP (heldKey m) l) (ar_seen (lp_state l)) (ac_real a).
Proof.
  intros K U Ha Hh. destruct (tick_accepts_spec env l a Ha) as (_ & G & Hs & ->).
  pose proof (tick_accept_takes env (ac_batch a) (ac_verdicts a) (ac_real a) (ac_kept a) (ac_loop a) Hh (gt_ok _ _ G K) (gt_unhanded _ _ G U) Hs) as W.
  set (l2 := tick_accept _ _ _ _ _ _ _) in *. destruct W as [C F N K2 Hf [_ U2]].
  destruct (tick_end_gated l2 U2 (fun _ => K2) (lk_keys _ K2)) as (Ge & Ke & Ue).
  destruct (marked_same (ac_real a) (ac_loop a)) as (Hm1 & Hm2 & _ & _). split; [split|].
  - intros m Hm. destruct (C m) as (m' & Hm' & E).
    { rewrite Hm1, elem_of_app. apply elem_of_app in Hm as [Hm|Hm]; [left|by right]. setoid_rewrite (gt_work _ _ G). done. }
    exists m'. setoid_rewrite (gt_work _ _ Ge). done.
  - intros m Hm. setoid_rewrite (gt_work _ _ Ge) in Hm. apply F in Hm as [Hm|Hm]; [left|by right]. rewrite Hm1 in Hm. by setoid_rewrite (gt_work _ _ G) in Hm.
  - intros k. rewrite (gt_claims _ _ Ge), N, Hm2. by apply Nat.add_le_mono_r, (gt_claims _ _ G).
  - done.
  - done.
  - rewrite (gt_seen _ _ Ge), (held_only_seen _ _ Hf), marked_state, mark_all. simpl. by rewrite (gt_seen _ _ G).
Qed.

Lemma tick_rejected env l : loop_ok l -> lp_unhanded l = [] -> tick_accepts env l = None ->
  carries [] l (tick opts env l) /\ ar_seen (lp_state (tick opts env l)) = ar_seen (lp_state l).
Proof.
  intros K U Ha.
  assert (Hg : gated l (tick opts env l) /\ loop_ok (tick opts env l) /\ lp_unhanded (tick opts env l) = []).
  { destruct (tick_rejects_spec env l K U Ha) as [->|(l' & G & ->)]; [done|].
    assert (K' : loop_ok l') by by apply G.
    destruct (tick_end_gated l' (gt_unhanded _ _ G U) (fun _ => K') (lk_keys _ K')) as (Ge & Ke & Ue). split_and!; [by etrans|done|done]. }
  destruct Hg as (G & K' & U'). split; [split|by apply G]; try done.
  - apply covers_incl. intros m. rewrite app_nil_r. by setoid_rewrite (gt_work _ _ G).
  - intros m Hm. left. by setoid_rewrite (gt_work _ _ G) in Hm.
  - intros k. rewrite (gt_claims _ _ G). lia.
Qed.

Lemma stop_carries l : loop_ok l -> lp_unhanded l = [] -> carries [] l (stop_if true l) /\ ar_seen (lp_state (stop_if true l)) = ar_seen (lp_state l).
Proof.
  intros K U. pose proof (moves_gated _ _ (stop_if_moves true l)) as G. split; [split|by apply G].
  - apply covers_incl. intros m. rewrite app_nil_r. by setoid_rewrite (gt_work _ _ G).
  - intros m Hm. left. by setoid_rewrite (gt_work _ _ G) in Hm.
  - intros k. rewrite (gt_claims _ _ G). lia.
  - by apply (gt_ok _ _ G).
  - by apply (gt_unhanded _ _ G).
Qed.

(** ** Runs *)

Definition run_ok (l : Loop) : Prop := loop_ok l /\ lp_unhanded l = [] /\ lp_covering l = [].

Lemma start_ok identity reg : run_ok (startAutoReply identity reg).
Proof. split_and!; [split; simpl; [constructor|done|done]|done|done]. Qed.

Lemma tick_covering env l : lp_covering l = [] -> lp_covering (tick opts env l) = [].
Proof.
  intros Hc. unfold tick. destruct (lp_stopped l); [done|]. cbv zeta. destruct (lp_stopped _); [|done].
  set (l1 := set_covering [] _). destruct (flush_fields l1) as (_ & -> & _). done.
Qed.

(** A stopped loop holds nothing back. *)
Lemma stopped_holds_nothing l : run_ok l -> lp_stopped l = true -> ar_deferred (lp_state l) = [].
Proof.
  intros ([_ _ K3] & _ & Hc) Hs. specialize (K3 Hs). rewrite Hc in K3. destruct (ar_deferred (lp_state l)) as [|kv d]; [done|].
  specialize (K3 kv (list_elem_of_here _ _)). by apply elem_of_nil in K3.
Qed.

(** What the events of a run accept, in order. *)
Fixpoint accepted_in (l : Loop) (es : list loop_event) : list Accepted :=
  match es with
  | [] => []
  | e :: es =>
      (match e with TickWith env => match tick_accepts env l with Some a => [a] | None => [] end | StopNow => [] end
       ++ accepted_in (loop_step opts l e) es)%list
  end.

Lemma batch_messages_kept b x : pb_messages (withLocalRoomCap b x) = pb_messages b /\ pb_operator_trusted (withLocalRoomCap b x) = pb_operator_trusted b.
Proof. unfold withLocalRoomCap. destruct (pb_conversation_budgets b); [|done]. by destruct (_ && _). Qed.

Lemma admits_real env l a m : admits env l a -> m ∈ ac_kept a -> m ∈ ac_real a.
Proof. intros (b & s & _ & _ & _ & _ & _ & Hsub) Hm. by eapply elem_of_sublist. Qed.

Lemma admits_batch env l a m : admits env l a -> m ∈ ac_real a -> exists batch, te_inbox env = Some batch /\ m ∈ pb_messages batch.
Proof.
  intros (b & s & Hb & Hba & _ & _ & Hr & _) Hm. rewrite Hr in Hm. apply elem_of_where in Hm as [Hm _]. exists b. split; [done|].
  rewrite Hba in Hm. by rewrite (proj1 (batch_messages_kept _ _)) in Hm.
Qed.

End Ticks.

(** Under a digest that tells texts apart, a key tells the message's fields. *)
Section Digest.
Context `{Crypto} `{HexDigest} `{Signing} `{Locale}.
Context (opts : LoopOptions).

Lemma chars_cut (c : ascii) l1 : forall l2 r1 r2, c ∉ l1 -> c ∉ l2 -> (l1 ++ c :: r1 = l2 ++ c :: r2)%list -> l1 = l2.
Proof.
  induction l1 as [|x l1 IH]; intros [|y l2] r1 r2 H1' H2' He; simpl in *; [done| | |].
  - injection He as -> _. destruct H2'. left.
  - injection He as <- _. destruct H1'. left.
  - injection He as -> He. f_equal. apply (IH l2 r1 r2); [|..|done]; intros Hin; [apply H1'|apply H2']; by right.
Qed.

Lemma key_digest m m' : heldKey m = heldKey m' -> materialDigest m = materialDigest m'.
Proof.
  intros He. apply (f_equal chars) in He. unfold heldKey in He. rewrite !chars_app in He. simpl in He.
  apply chars_cut in He; [|apply sha_hex..]. by apply chars_inj.
Qed.

Lemma key_field m m' k : heldKey m = heldKey m' -> string_field m k = string_field m' k.
Proof. intros Hd%key_digest%sha_apart%canonical_text_same. by apply same_json_string_field. Qed.

Lemma all_homed kept : homed kept.
Proof. intros m m' _ _ Hk. unfold im_conversation. by rewrite (key_field m m' _ Hk). Qed.

(** One event, whatever it is. *)
Lemma step_carries l e : run_ok l ->
  let given := flat_map ac_kept (accepted_in opts l [e]) in
  carries given l (loop_step opts l e) /\ run_ok (loop_step opts l e) /\
  ar_seen (lp_state (loop_step opts l e)) =
    foldl (fun l m => add_bounded plugin_SEEN_CAP (heldKey m) l) (ar_seen (lp_state l)) (flat_map ac_real (accepted_in opts l [e])).
Proof.
  intros (K & U & Hc). cbv zeta. cbn [accepted_in]. destruct e as [env|]; cbn [loop_step].
  - destruct (tick_accepts opts env l) as [a|] eqn:Ha; simpl; rewrite ?app_nil_r.
    + destruct (tick_accepted opts env l a K U Ha (all_homed _)) as [C Hs].
      split; [done|]. split; [|done]. by split; [exact (ca_ok _ _ _ C)|split; [exact (ca_unhanded _ _ _ C)|apply tick_covering]].
    + destruct (tick_rejected opts env l K U Ha) as [C Hs].
      split; [done|]. split; [|done]. by split; [exact (ca_ok _ _ _ C)|split; [exact (ca_unhanded _ _ _ C)|apply tick_covering]].
  - destruct (stop_carries l K U) as [C Hs]. split; [done|]. split; [|done]. split; [exact (ca_ok _ _ _ C)|]. split; [exact (ca_unhanded _ _ _ C)|].
    destruct (stop_if_fields true l) as (-> & _). done.
Qed.

Lemma accepted_app l es es' : accepted_in opts l (es ++ es') = (accepted_in opts l es ++ accepted_in opts (loop_run opts l es) es')%list.
Proof. revert l. induction es as [|e es IH]; intros l; simpl; [done|]. by rewrite IH, app_assoc. Qed.

Lemma run_carries es : forall l, run_ok l -> let given := flat_map ac_kept (accepted_in opts l es) in
  run_ok (loop_run opts l es) /\ covers (handled l ++ on_record given) (handled (loop_run opts l es)) /\
  (forall m, m ∈ handled (loop_run opts l es) -> m ∈ handled l \/ m ∈ given).
Proof.
  induction es as [|e es IH]; intros l K; cbv zeta.
  - simpl. rewrite app_nil_r. split_and!; [done|by apply covers_incl|by left].
  - destruct (step_carries l e K) as ([C F _ _ _] & K' & _).
    destruct (IH _ K') as (K2 & C2 & F2). change (e :: es) with ([e] ++ es)%list. rewrite accepted_app, flat_map_app. simpl loop_run.
    split_and!; [done| |].
    + unfold on_record. rewrite List.filter_app, app_assoc. eapply covers_trans; [|exact C2]. apply covers_app_mono; [exact C|by apply covers_incl].
    + intros m [Hm|Hm]%F2; rewrite elem_of_app; [apply F in Hm as [?|?]; tauto|tauto].
Qed.
End Digest.
