(* ===== verification/AutoReplyProperties.v ===== *)
(** * Properties of the auto-reply loop

    Over any run of ticks and stops: what was kept for a turn is accounted for, starts
    at most one turn, and was admitted; teammates get a bounded number of turns. *)

From S2P Require Import Prelude Json IsoTime JsValues Identity TrustSync Verify Text CanonicalJson JsMap InboxRing AutoReply AutoReplyLoop AutoReplyWork AutoReplyFloor AutoReplyTicks.
Import Ascii String.
Open Scope string_scope.
Open Scope Z_scope.

Section Runs.
Context `{Crypto} `{HexDigest} `{Signing} `{Locale}.
Context (opts : LoopOptions).

(** ** An accepted message comes from a tick *)

Lemma accepted_split es : forall l a, a ∈ accepted_in opts l es -> exists pre env post,
  es = (pre ++ TickWith env :: post)%list /\ tick_accepts opts env (loop_run opts l pre) = Some a.
Proof.
  induction es as [|e es IH]; intros l a Ha; [by apply elem_of_nil in Ha|]. simpl in Ha. apply elem_of_app in Ha as [Ha|Ha].
  - destruct e as [env|]; [|by apply elem_of_nil in Ha]. destruct (tick_accepts opts env l) as [a'|] eqn:E; [|by apply elem_of_nil in Ha].
    apply list_elem_of_singleton in Ha as ->. by exists [], env, es.
  - destruct (IH _ _ Ha) as (pre & env & post & -> & Hacc). exists (e :: pre), env, post. done.
Qed.

Lemma accepted_messages (f : Accepted -> list InboxMessage) es l m : m ∈ flat_map f (accepted_in opts l es) -> exists a, a ∈ accepted_in opts l es /\ m ∈ f a.
Proof. intros (a & Ha%list_elem_of_In & Hm%list_elem_of_In)%list_elem_of_In%in_flat_map. by exists a. Qed.

Lemma accepted_message (f : Accepted -> list InboxMessage) es l a m : a ∈ accepted_in opts l es -> m ∈ f a -> m ∈ flat_map f (accepted_in opts l es).
Proof. intros Ha Hm. apply list_elem_of_In, in_flat_map. exists a. by rewrite <- !list_elem_of_In. Qed.

(** ** What is seen *)

Lemma add_bounded_room K k l : (length K <= plugin_SEEN_CAP)%nat -> NoDup l -> (forall x, x ∈ l -> x ∈ K) -> k ∈ K ->
  NoDup (add_bounded plugin_SEEN_CAP k l) /\ forall x, x ∈ add_bounded plugin_SEEN_CAP k l <-> x ∈ l \/ x = k.
Proof.
  intros HK Hnd Hin Hk. unfold add_bounded. case_bool_decide as Hkl.
  - split; [done|]. intros x. split; [by left|]. by intros [?| ->].
  - assert (Hnd' : NoDup (l ++ [k])).
    { apply NoDup_app. split_and!; [done| |apply NoDup_singleton]. intros x Hx ->%list_elem_of_singleton. done. }
    assert (Hlen : (length (l ++ [k]) <= length K)%nat).
    { apply submseteq_length, NoDup_submseteq; [done|]. intros x [Hx|Hx%list_elem_of_singleton]%elem_of_app; [by apply Hin|by subst x]. }
    cbv zeta. replace (length (l ++ [k]) - plugin_SEEN_CAP)%nat with 0%nat by lia. rewrite drop_0. split; [done|].
    intros x. by rewrite elem_of_app, list_elem_of_singleton.
Qed.

Lemma add_all_room K ms : (length K <= plugin_SEEN_CAP)%nat -> (forall m, m ∈ ms -> heldKey m ∈ K) -> forall l, NoDup l -> (forall x, x ∈ l -> x ∈ K) ->
  let l' := foldl (fun l m => add_bounded plugin_SEEN_CAP (heldKey m) l) l ms in
  NoDup l' /\ (forall x, x ∈ l' -> x ∈ K) /\ forall x, x ∈ l \/ x ∈ map heldKey ms -> x ∈ l'.
Proof.
  intros HK. induction ms as [|m ms IH]; intros Hms l Hnd Hl; cbv zeta; simpl.
  - split_and!; [done|done|]. intros x [?|Hx]; [done|by apply elem_of_nil in Hx].
  - destruct (add_bounded_room K (heldKey m) l HK Hnd Hl) as [Hnd' Hin]; [apply Hms; by left|].
    destruct (IH (fun x Hx => Hms x (list_elem_of_further _ _ _ Hx)) (add_bounded plugin_SEEN_CAP (heldKey m) l) Hnd') as (I1 & I2 & I3).
    { intros x [Hx| ->]%Hin; [by apply Hl|apply Hms; by left]. }
    split_and!; [done|done|]. intros x [Hx|[->|Hx]%elem_of_cons]; apply I3; [left; apply Hin; by left|left; apply Hin; by right|by right].
Qed.

(** Every message of a run has its key in [K]. *)
Definition keys_within (K : list string) (es : list loop_event) : Prop :=
  forall env batch m, TickWith env ∈ es -> te_inbox env = Some batch -> m ∈ pb_messages batch -> heldKey m ∈ K.

Lemma real_unseen m self s trusted enabled v mode : isRealInbound m self s trusted enabled v mode = true -> heldKey m ∉ ar_seen s.
Proof.
  unfold isRealInbound, whyNotRealInbound. intros Hi Hin. rewrite (bool_decide_eq_true_2 _ Hin) in Hi.
  destruct (im_id m ==? None); [done|]. destruct (im_sender m ==? Some self); [done|]. destruct (negb _); [done|].
  by destruct (message_text m ==? "").
Qed.

Record once (K : list string) (l : Loop) : Prop := {
  on_ok : run_ok l;
  on_nodup : NoDup (ar_seen (lp_state l));
  on_within : forall x, x ∈ ar_seen (lp_state l) -> x ∈ K;
  on_claims : forall k, (claims k l <= 1)%nat;
  on_seen : forall k, (0 < claims k l)%nat -> k ∈ ar_seen (lp_state l)
}.

Lemma step_once K l e : (length K <= plugin_SEEN_CAP)%nat -> keys_within K [e] -> once K l -> once K (loop_step opts l e).
Proof.
  intros HK Hkeys [Hok Hnd Hin Hcl Hse]. destruct (step_carries opts l e Hok) as ([_ _ Hc _ _] & Hok' & Hseen).
  set (kept := flat_map ac_kept _) in *. set (real := flat_map ac_real _) in *.
  assert (Hacc : forall a, a ∈ accepted_in opts l [e] -> exists env, e = TickWith env /\ admits opts env l a).
  { intros a Ha. simpl in Ha. rewrite app_nil_r in Ha. destruct e as [env|]; [|by apply elem_of_nil in Ha].
    destruct (tick_accepts opts env l) as [a'|] eqn:E; [|by apply elem_of_nil in Ha]. apply list_elem_of_singleton in Ha as ->.
    exists env. split; [done|]. by apply tick_accepts_spec in E as [? _]. }
  assert (Hreal : forall m, m ∈ real -> heldKey m ∈ K).
  { intros m (a & Ha & Hm)%accepted_messages. destruct (Hacc a Ha) as (env & -> & Had).
    destruct (admits_batch _ _ _ _ _ Had Hm) as (batch & Hb & Hmb). apply (Hkeys env batch m); [by left|done|done]. }
  assert (Hfresh : forall m, m ∈ kept -> m ∈ real /\ heldKey m ∉ ar_seen (lp_state l)).
  { intros m (a & Ha & Hm)%accepted_messages. destruct (Hacc a Ha) as (env & -> & Had).
    pose proof (admits_real _ _ _ _ _ Had Hm) as Hmr. split; [by apply (accepted_message ac_real [TickWith env] l a)|].
    destruct Had as (b & s & _ & _ & _ & Hs & Hr & _). rewrite Hr in Hmr. apply elem_of_where in Hmr as [_ Hi]. rewrite <- Hs.
    intros Hin'. by apply (real_unseen _ _ _ _ _ _ _ Hi). }
  destruct (add_all_room K real HK Hreal (ar_seen (lp_state l)) Hnd Hin) as (S1 & S2 & S3). rewrite <- Hseen in S1, S2, S3.
  assert (Hkk : forall k, has_key k kept = true -> claims k l = 0%nat /\ k ∈ ar_seen (lp_state (loop_step opts l e))).
  { intros k (m & Hm & <-)%has_key_elem. destruct (Hfresh m Hm) as [Hmr Hns]. split.
    - destruct (claims (heldKey m) l) eqn:E; [done|]. destruct Hns. apply Hse. lia.
    - apply S3. right. apply list_elem_of_fmap. eauto. }
  split; [done|done|done| |].
  - intros k. specialize (Hc k). specialize (Hcl k). destruct (has_key k kept) eqn:Ek; [destruct (Hkk k Ek); lia|lia].
  - intros k Hpos. specialize (Hc k). destruct (has_key k kept) eqn:Ek; [by apply Hkk|]. apply S3. left. apply Hse. lia.
Qed.

Lemma run_once K es : (length K <= plugin_SEEN_CAP)%nat -> forall l, keys_within K es -> once K l -> once K (loop_run opts l es).
Proof.
  intros HK. induction es as [|e es IH]; intros l Hk Ho; [done|]. simpl. apply IH.
  - intros env batch m Hin. apply Hk. by right.
  - apply step_once; [done| |done]. intros env batch m <-%list_elem_of_singleton. apply Hk. by left.
Qed.

(** ** The theorems *)

(** C10. Nothing acknowledged is dropped in silence. Whatever the ticks of a run return
    and wherever [stop()] falls, a message that a tick marked, acknowledged and kept
    for a turn is afterwards, under its held key, in a turn that started, in a turn
    that failed to spawn, among the dead letters, or held back; and once the loop is
    stopped nothing is held back.  This excepts the conversation named [__proto__], which a
    record cannot hold: its messages are lost ([proto_conversation_lost]). *)
Theorem kept_messages_accounted_for identity reg es a m :
  let start := startAutoReply identity reg in let l := loop_run opts start es in
  a ∈ accepted_in opts start es -> m ∈ ac_kept a -> im_conversation m <> "__proto__" ->
  (exists m', heldKey m' = heldKey m /\
     (m' ∈ concat (lp_turns l) \/ m' ∈ concat (lp_failed l) \/ m' ∈ map fst (lp_dead l) \/ m' ∈ held_messages (ar_deferred (lp_state l)))) /\
  (lp_stopped l = true -> ar_deferred (lp_state l) = []).
Proof.
  intros start l Ha Hm Hp. destruct (run_carries opts es start (start_ok identity reg)) as (Hok & Hc & _). fold l in Hok, Hc.
  split; [|by apply stopped_holds_nothing].
  destruct (Hc m) as (m' & Hm' & E).
  { apply elem_of_app. right. apply elem_of_on_record. split; [by apply (accepted_message _ _ _ a)|]. by apply bool_decide_eq_false. }
  exists m'. split; [done|]. destruct Hok as (_ & Hu & _). unfold handled in Hm'. rewrite Hu in Hm'. rewrite !elem_of_app in Hm'.
  destruct_or! Hm'; try tauto. by apply elem_of_nil in Hm'.
Qed.

(** C11. A message starts at most one turn: over any run whose batches hold at most 500
    different messages, which is what the loop remembers, no message (by its held key)
    is in two turns, however often it is redelivered, held back, covered or retried. *)
Theorem message_starts_one_turn identity reg es K : (length K <= plugin_SEEN_CAP)%nat -> keys_within K es ->
  forall k, (turns_with k (loop_run opts (startAutoReply identity reg) es) <= 1)%nat.
Proof.
  intros HK Hk k. assert (Ho : once K (startAutoReply identity reg)).
  { split; [apply start_ok|constructor|..]; intros x; simpl; [intros Hx; by apply elem_of_nil in Hx|unfold claims, turns_with; simpl; lia..]. }
  destruct (run_once K es HK _ Hk Ho) as [_ _ _ Hc _]. specialize (Hc k). unfold claims in Hc. lia.
Qed.

(** C14. Only what was admitted takes a turn: each message of a started turn came in the
    batch of a tick that judged it real, with that tick's verdict: it has an id, is of
    a trigger type, has text, is not the agent's own, was not seen before, and may wake
    the agent under the operator trust, the peer settings and the signature mode in
    force. *)
Theorem turns_hold_admitted_only identity reg es t m :
  let start := startAutoReply identity reg in
  t ∈ lp_turns (loop_run opts start es) -> m ∈ t ->
  exists pre env post batch s, es = (pre ++ TickWith env :: post)%list /\ te_inbox env = Some batch /\ m ∈ pb_messages batch /\
    let l := loop_run opts start pre in let b := withLocalRoomCap batch (lo_peerTurnBudget opts) in
    ar_seen s = ar_seen (lp_state l) /\
    whyNotRealInbound m (lo_selfAgentId opts) s (pb_operator_trusted batch) (fst (tick_settings opts b))
      (verdict_at (tick_verdicts opts env b (stop_if (te_stop_poll env) l)) (id_key m)) (lo_requireSigned opts) = None.
Proof.
  intros start Ht Hm. destruct (run_carries opts es start (start_ok identity reg)) as (_ & _ & Hf).
  destruct (Hf m) as [Hin|Hin].
  { unfold handled. apply elem_of_app. left. apply list_elem_of_In, in_concat. exists t. by rewrite <- !list_elem_of_In. }
  { by apply elem_of_nil in Hin. }
  apply accepted_messages in Hin as (a & Ha & Hma). apply accepted_split in Ha as (pre & env & post & -> & Hacc).
  apply tick_accepts_spec in Hacc as [Had _]. pose proof (admits_real _ _ _ _ _ Had Hma) as Hr.
  destruct Had as (batch & s & Hb & Hba & Hv & Hs & Hreal & _). rewrite Hreal in Hr. apply elem_of_where in Hr as [Hmb Hi].
  rewrite Hba in Hmb, Hi, Hv. exists pre, env, post, batch, s. destruct (batch_messages_kept batch (lo_peerTurnBudget opts)) as [Hpm Hpt].
  rewrite Hpm in Hmb. split_and!; [done|done|done|]. cbv zeta. split; [done|]. rewrite <- Hv. unfold isRealInbound in Hi. rewrite Hpt in Hi.
  by destruct (whyNotRealInbound _ _ _ _ _ _ _).
Qed.
End Runs.

(** ** Witnesses *)

Local Existing Instance escaping_node.
Local Existing Instance escaping_hex.
Local Existing Instance toy_crypto.
Definition plain_signing : Signing := {| fromHex := fun x => x; ed25519_sign := fun m seed => seed +:+ m; ed25519_public := fun x => x |}.
Definition plain_locale : Locale := {| locale_sort := fun l => l |}.
Local Existing Instance plain_signing.
Local Existing Instance plain_locale.

Definition demo_loop_options : LoopOptions := MkLoopOptions "me" "https://relay" (Some "f") true (Some 3) ModeOff None.

(** A tick at [now] with a batch, where the floor is free or taken. *)
Definition demo_tick (now : Z) (ms : list InboxMessage) (floor spawn : bool) : TickEnv := {|
  te_now := now; te_inbox := Some (demo_wire_batch ms); te_stop_poll := false; te_stop_notice := fun _ => false; te_ack_ok := true;
  te_stop_ack := false; te_acquire := fun _ => Some floor; te_stop_plan := false; te_now_plan := now; te_spawn := spawn; te_stop_turn := false;
  te_stop_release := false; te_now_service := now; te_overrun_spawn := true; te_stop_overrun := false; te_retry_acquire := fun _ => Some floor;
  te_stop_retry := fun _ => false; te_retry_spawn := spawn; te_stop_retry_turn := false; te_stop_retry_release := false |}.

(** A message held back while another agent has the floor, and a stop. *)
Definition demo_held_run : list loop_event := [TickWith (demo_tick 10 [demo_wire "m1" "a2" "hi"] false true); StopNow].

Definition demo_start : Loop := startAutoReply None ∅.

Lemma kept_messages_accounted_for_witness :
  let l := loop_run demo_loop_options demo_start demo_held_run in
  (exists m', heldKey m' = heldKey (demo_wire "m1" "a2" "hi") /\
     (m' ∈ concat (lp_turns l) \/ m' ∈ concat (lp_failed l) \/ m' ∈ map fst (lp_dead l) \/ m' ∈ held_messages (ar_deferred (lp_state l)))) /\
  lp_dead l = [(demo_wire "m1" "a2" "hi", DeferredLoopStopped)].
Proof.
  destruct (tick_accepts demo_loop_options (demo_tick 10 [demo_wire "m1" "a2" "hi"] false true) demo_start) as [a|] eqn:E;
    [|vm_compute in E; discriminate].
  split; [|vm_compute; reflexivity].
  refine (proj1 (kept_messages_accounted_for demo_loop_options None ∅ demo_held_run a (demo_wire "m1" "a2" "hi") _ _ _)).
  - unfold demo_held_run. cbn [accepted_in]. change (startAutoReply None ∅) with demo_start. rewrite E. left.
  - assert (Hk : ac_kept <$> tick_accepts demo_loop_options (demo_tick 10 [demo_wire "m1" "a2" "hi"] false true) demo_start =
                 Some [demo_wire "m1" "a2" "hi"]) by (vm_compute; reflexivity).
    rewrite E in Hk. injection Hk as ->. left.
  - discriminate.
Defined.

(** Held back, redelivered, and then delivered once. *)
Definition demo_once_run : list loop_event :=
  [TickWith (demo_tick 10 [demo_wire "m1" "a2" "hi"] false true); TickWith (demo_tick 20 [demo_wire "m1" "a2" "hi"] true true);
   TickWith (demo_tick 30 [demo_wire "m1" "a2" "hi"] true true)].

Lemma message_starts_one_turn_witness :
  (turns_with (heldKey (demo_wire "m1" "a2" "hi")) (loop_run demo_loop_options demo_start demo_once_run) <= 1)%nat /\
  lp_turns (loop_run demo_loop_options demo_start demo_once_run) = [[demo_wire "m1" "a2" "hi"]].
Proof.
  split; [|vm_compute; reflexivity].
  apply (message_starts_one_turn demo_loop_options None ∅ demo_once_run [heldKey (demo_wire "m1" "a2" "hi")]).
  - simpl. unfold plugin_SEEN_CAP. lia.
  - intros env batch m Hin Hb Hm. unfold demo_once_run in Hin.
    assert (Hbatch : batch = demo_wire_batch [demo_wire "m1" "a2" "hi"]).
    { rewrite !elem_of_cons in Hin. destruct_or! Hin; try (injection Hin as ->; by injection Hb as <-). by apply elem_of_nil in Hin. }
    subst batch. apply list_elem_of_singleton in Hm as ->. left.
Defined.

Lemma turns_hold_admitted_only_witness : exists pre env post batch,
  demo_once_run = (pre ++ TickWith env :: post)%list /\ te_inbox env = Some batch /\ demo_wire "m1" "a2" "hi" ∈ pb_messages batch.
Proof.
  destruct (turns_hold_admitted_only demo_loop_options None ∅ demo_once_run [demo_wire "m1" "a2" "hi"] (demo_wire "m1" "a2" "hi"))
    as (pre & env & post & batch & s & He & Hb & Hm & _).
  - assert (Ht : lp_turns (loop_run demo_loop_options (startAutoReply None ∅) demo_once_run) = [[demo_wire "m1" "a2" "hi"]])
      by (vm_compute; reflexivity).
    rewrite Ht. left.
  - left.
  - exists pre, env, post, batch. done.
Defined.

(** A turn that fails to spawn loses its fresh messages: they are acknowledged and
    marked, and are in no turn, on no record and not held back. *)
Example failed_spawn_loses_messages :
  let l := loop_run demo_loop_options demo_start [TickWith (demo_tick 10 [demo_wire "m1" "a2" "hi"] true false)] in
  lp_acked l = ["m1"] /\ ar_seen (lp_state l) = [heldKey (demo_wire "m1" "a2" "hi")] /\
  lp_turns l = [] /\ lp_dead l = [] /\ ar_deferred (lp_state l) = [] /\ lp_failed l = [[demo_wire "m1" "a2" "hi"]].
Proof. vm_compute. split_and!; reflexivity. Qed.

(** A conversation named [__proto__] has no entry in the record of a plan: deferred to
    the holder of its floor, its acknowledged messages are nowhere. *)
Definition demo_proto : InboxMessage :=
  JObj [("message_id", JStr "m1"); ("conversation_id", JStr "__proto__"); ("sender_agent_id", JStr "a2"); ("sender_kind", JStr "agent");
        ("message_type", JStr "direct"); ("body", JObj [("text", JStr "hi")])].
Example proto_conversation_lost :
  let l := loop_run demo_loop_options demo_start [TickWith (demo_tick 10 [demo_proto] false true)] in
  lp_acked l = ["m1"] /\ handled l = [].
Proof. vm_compute. split; reflexivity. Qed.

(** A verdict is looked up by message id when messages are admitted, so that of two
    messages of a batch with one id the last verdict counts for both: where signatures
    are required, a forged message beside a verified one is real, and is not rejected. *)
Definition demo_signed (text sig : string) : InboxMessage :=
  JObj [("message_id", JStr "m1"); ("conversation_id", JStr "c1"); ("sender_agent_id", JStr "a2"); ("sender_kind", JStr "agent");
        ("message_type", JStr "direct"); ("agent_sig", JStr sig); ("body", JObj [("text", JStr text)])].
Example forged_sibling_wakes :
  let opts := MkLoopOptions "me" "https://relay" (Some "f") true None ModeRequire None in
  let batch := demo_wire_batch [demo_signed "forged" "junk"; demo_signed "genuine" "sig"] in
  let last_verdict : Verdicts := {["m1" := Some demo_passed]} in
  real_messages opts batch last_verdict createAutoReplyState = pb_messages batch /\
  batch_rejects opts (pb_messages batch) last_verdict = [] /\
  batchVerdictsByHeldKey (pb_messages batch) last_verdict !! heldKey (demo_signed "forged" "junk") = Some None.
Proof. vm_compute. split_and!; reflexivity. Qed.
