(* ===== verification/AutoReplyLatch.v ===== *)
(** * The latch of the auto-reply loop

    What a tick does to the turn counters and the progress stamps of a conversation,
    and the budget of an hour that follows. *)

From S2P Require Import Prelude Json IsoTime JsValues Identity TrustSync Verify Text CanonicalJson JsMap InboxRing AutoReply AutoReplyLoop AutoReplyWork AutoReplyFloor AutoReplyTicks AutoReplyProperties.
Import Ascii String.
Open Scope string_scope.
Open Scope Z_scope.

Section Latch.
Context `{Crypto} `{HexDigest} `{Signing} `{Locale}.
Context (opts : LoopOptions).

(** ** Counters that are never evicted *)

(** The conversations tracked are among [K], which has room for all. *)
Context (K : list string) (K_room : (length K <= PEER_LATCH_CONVERSATION_CAP)%nat).

Definition tracked {V} (m : list (string * V)) : Prop := NoDup (js_keys m) /\ forall c, c ∈ js_keys m -> c ∈ K.

Lemma tracked_put {V} k (v : V) m : tracked m -> k ∈ K -> tracked (js_put k v m).
Proof.
  intros [Hnd Hin] Hk. split; [by apply js_put_NoDup|]. intros c. rewrite js_keys_put. case_bool_decide; [apply Hin|].
  intros [?|Hc%list_elem_of_singleton]%elem_of_app; [by apply Hin|by subst c].
Qed.

Lemma tracked_delete {V} k (m : list (string * V)) : tracked m -> tracked (js_delete k m).
Proof.
  intros [Hnd Hin]. split; [by apply js_delete_NoDup|]. intros c. rewrite js_keys_delete. intros [Hc _]%elem_of_where. by apply Hin.
Qed.

Lemma tracked_kept {V} (m : list (string * V)) : tracked m -> js_evict PEER_LATCH_CONVERSATION_CAP m = m.
Proof.
  intros [Hnd Hin]. unfold js_evict. assert (Hl : (length (js_keys m) <= length K)%nat) by (apply submseteq_length, NoDup_submseteq; done).
  unfold js_keys in Hl. rewrite length_map in Hl. replace (length m - _)%nat with 0%nat by lia. done.
Qed.

(** The counters and the stamps of a well-formed state. *)
Record latch_ok (s : AutoReplyState) : Prop := {
  lt_turns : tracked (ar_turns s);
  lt_refreshes : tracked (ar_refreshes s);
  lt_pos : forall c, 0 <= turns_used s c
}.

Definition stamps (s : AutoReplyState) (c : string) : list Z := default [] (js_get c (ar_refreshes s)).

Lemma used_reset s k c : turns_used (resetPeerLatch s k) c = if bool_decide (k = c) then 0 else turns_used s c.
Proof. unfold turns_used, resetPeerLatch. simpl. rewrite js_get_delete. by case_bool_decide. Qed.

Lemma reset_ok s k : latch_ok s -> latch_ok (resetPeerLatch s k).
Proof.
  intros [T R P]. split; [by apply tracked_delete|done|]. intros c. rewrite used_reset. case_bool_decide; [lia|apply P].
Qed.

Lemma used_consume s k c : latch_ok s -> k ∈ K -> turns_used (consumePeerLatch s k) c = turns_used s c + (if bool_decide (k = c) then 1 else 0).
Proof.
  intros [T _ _] Hk. unfold turns_used at 1, consumePeerLatch. simpl. rewrite tracked_kept by by apply tracked_put.
  rewrite js_get_put. case_bool_decide; [subst; simpl; lia|]. unfold turns_used. lia.
Qed.

Lemma consume_ok s k : latch_ok s -> k ∈ K -> latch_ok (consumePeerLatch s k).
Proof.
  intros Hok Hk. pose proof Hok as [T R P]. split; [|done|].
  - unfold consumePeerLatch. simpl. rewrite tracked_kept; by apply tracked_put.
  - intros c. rewrite used_consume by done. specialize (P c). case_bool_decide; lia.
Qed.

Lemma note_ok s k now : latch_ok s -> k ∈ K -> let '(s', fresh) := noteProgressRefresh s k now in
  latch_ok s' /\ ar_turns s' = ar_turns s /\
  forall c, stamps s' c = if bool_decide (k = c)
    then (List.filter (fun t => now - t <? PROGRESS_REFRESH_WINDOW_MS) (stamps s c) ++ (if fresh then [now] else []))%list else stamps s c.
Proof.
  intros [T R P] Hk. unfold noteProgressRefresh. fold (stamps s k). set (live := List.filter _ (stamps s k)).
  destruct (_ <=? length live)%nat.
  - split_and!; [split; simpl; [done|by apply tracked_put|done]|done|]. intros c. unfold stamps at 1. simpl. rewrite js_get_put.
    case_bool_decide; [subst c; simpl; by rewrite app_nil_r|done].
  - split_and!; [split; simpl; [done|rewrite tracked_kept; by apply tracked_put|done]|done|]. intros c. unfold stamps at 1. simpl.
    rewrite tracked_kept by by apply tracked_put. rewrite js_get_put. case_bool_decide; [by subst c|done].
Qed.

(** ** The count of an hour *)

Context (conv : string) (b t0 : Z) (b_pos : 0 <= b).

(** Of the turns used, those within the budget. *)
Definition within_budget (used : Z) : Z := if used <=? b then used else 0.

(** [n] wakes and [r] refreshes so far. *)
Record counted (n : Z) (r : nat) (s : AutoReplyState) : Prop := {
  ct_ok : latch_ok s;
  ct_wakes : n <= b * Z.of_nat r + within_budget (turns_used s conv);
  ct_stamps : (r <= length (List.filter (fun t => (t0 <=? t)%Z) (stamps s conv)))%nat;
  ct_refreshes : (r <= PROGRESS_REFRESH_MAX_PER_WINDOW)%nat
}.

Lemma within_bounds u : 0 <= u -> 0 <= within_budget u <= b.
Proof. unfold within_budget. destruct (Z.leb_spec u b); lia. Qed.

Lemma counted_bound n r s : counted n r s -> n <= 6 * b.
Proof.
  intros [[_ _ P] W _ R]. pose proof (within_bounds _ (P conv)). unfold PROGRESS_REFRESH_MAX_PER_WINDOW in R. nia.
Qed.

Lemma counted_same n r s s' : counted n r s -> ar_turns s' = ar_turns s -> ar_refreshes s' = ar_refreshes s -> counted n r s'.
Proof.
  intros [[T R P] W Hs F] Ht Hr. split; [split; unfold turns_used; rewrite ?Ht, ?Hr; done| | |done].
  - unfold turns_used. by rewrite Ht.
  - unfold stamps. by rewrite Hr.
Qed.

Lemma counted_reset_other n r s k : k <> conv -> counted n r s -> counted n r (resetPeerLatch s k).
Proof.
  intros Hk [O W Hs F]. split; [by apply reset_ok|by rewrite used_reset, bool_decide_eq_false_2|done|done].
Qed.

Lemma counted_consume n r s k budget : counted n r s -> k ∈ K -> (k = conv -> turns_used s conv < budget /\ budget <= b) ->
  counted (n + (if bool_decide (k = conv) then 1 else 0)) r (consumePeerLatch s k).
Proof.
  intros [O W Hs F] Hk Hb. split; [by apply consume_ok| |done|done]. rewrite used_consume by done.
  pose proof (lt_pos _ O conv) as P. case_bool_decide as Hc; [|rewrite !Z.add_0_r; lia]. destruct (Hb Hc) as [Hu Hle].
  unfold within_budget in *. destruct (Z.leb_spec (turns_used s conv) b), (Z.leb_spec (turns_used s conv + 1) b); lia.
Qed.

(** A refresh of the conversation starts a new budget and spends a stamp. *)
Lemma counted_refresh n r s k now : counted n r s -> k ∈ K -> t0 <= now < t0 + PROGRESS_REFRESH_WINDOW_MS ->
  let '(s', fresh) := noteProgressRefresh s k now in exists r', counted n r' (if fresh then resetPeerLatch s' k else s').
Proof.
  intros [O W Hs F] Hk Hnow. pose proof (note_ok s k now O Hk) as Hn.
  assert (Hfresh : snd (noteProgressRefresh s k now) = true ->
    (length (List.filter (fun t => (now - t <? PROGRESS_REFRESH_WINDOW_MS)%Z) (stamps s k)) < PROGRESS_REFRESH_MAX_PER_WINDOW)%nat).
  { unfold noteProgressRefresh. fold (stamps s k). by destruct (Nat.leb_spec PROGRESS_REFRESH_MAX_PER_WINDOW
      (length (List.filter (fun t => (now - t <? PROGRESS_REFRESH_WINDOW_MS)%Z) (stamps s k)))). }
  destruct (noteProgressRefresh s k now) as [s' fresh]. destruct Hn as (O' & Ht & Hst). simpl in Hfresh.
  assert (Hu : turns_used s' conv = turns_used s conv) by (unfold turns_used; by rewrite Ht).
  set (live := List.filter (fun t => (now - t <? PROGRESS_REFRESH_WINDOW_MS)%Z) (stamps s conv)) in *.
  assert (Hlive : List.filter (fun t => t0 <=? t) live = List.filter (fun t => t0 <=? t) (stamps s conv)).
  { unfold live. rewrite filter_filter. apply filter_ext'. intros t. destruct (Z.leb_spec t0 t); [|by rewrite andb_false_r].
    rewrite andb_true_r. apply Z.ltb_lt. lia. }
  pose proof (Hst conv) as Hsc. pose proof (lt_pos _ O conv) as P. pose proof (within_bounds _ P) as B. case_bool_decide as Hc.
  - subst k. fold live in Hsc, Hfresh. destruct fresh.
    + assert (Hle : (length (List.filter (fun t => (t0 <=? t)%Z) (stamps s conv)) <= length live)%nat) by (rewrite <- Hlive; apply List.filter_length_le).
      exists (S r). split; [by apply reset_ok| | |unfold PROGRESS_REFRESH_MAX_PER_WINDOW in *; specialize (Hfresh eq_refl); lia].
      * rewrite used_reset, bool_decide_eq_true_2 by done. unfold within_budget at 1. destruct (Z.leb_spec 0 b); lia.
      * change (stamps (resetPeerLatch s' conv) conv) with (stamps s' conv). rewrite Hsc, List.filter_app, length_app, Hlive. simpl.
        destruct (Z.leb_spec t0 now); simpl; lia.
    + exists r. split; [done|by rewrite Hu| |done]. rewrite Hsc, app_nil_r, Hlive. done.
  - exists r. assert (C : counted n r s') by (split; [done|by rewrite Hu|by rewrite Hsc|done]).
    destruct fresh; [|done]. by apply counted_reset_other.
Qed.

(** ** What touches the latch *)

Definition latch_same (s s' : AutoReplyState) : Prop := ar_turns s' = ar_turns s /\ ar_refreshes s' = ar_refreshes s.

#[local] Instance latch_same_preorder : PreOrder latch_same.
Proof. split; [done|]. intros s1 s2 s3 [? ?] [? ?]. split; congruence. Qed.

Lemma held_only_latch l l' : held_only l l' -> latch_same (lp_state l) (lp_state l').
Proof. by intros (d & x & ->). Qed.

Lemma burn_latch vs real : forall s, latch_same s (burn_nonces vs real s).
Proof.
  unfold burn_nonces. induction real as [|m real IH]; intros s; simpl; [done|]. etrans; [|apply IH]. by destruct (loop_burned_nonce vs m).
Qed.

Lemma rate_latch now ms : forall s, latch_same s (fst (applyPeerRateGate now s ms)).
Proof.
  induction ms as [|m ms IH]; intros s; simpl; [done|]. destruct (rate_message now s m) as [s1 keep] eqn:E.
  specialize (IH s1). destruct (applyPeerRateGate now s1 ms) as [s2 kept]. simpl in *. etrans; [|exact IH]. unfold rate_message in E.
  destruct (from_operator m); [by injection E as <- _|]. destruct (ar_recent s !! _) as [[c w]|].
  - destruct (PEER_RATE_WINDOW_MS <? now - w); [destruct (PEER_RATE_MAX <=? 0)|destruct (PEER_RATE_MAX <=? c)]; by injection E as <- _.
  - destruct (PEER_RATE_MAX <=? 0); by injection E as <- _.
Qed.

Lemma notices_latch env latched : forall l, latch_same (lp_state l) (lp_state (raise_notices env latched l)).
Proof.
  induction latched as [|[c pending] rest IH]; intros l; simpl; [done|]. unfold markConversationEscalated.
  destruct (bool_decide _); simpl; [apply IH|]. set (l1 := set_notices _ _). assert (Hl1 : latch_same (lp_state l) (lp_state l1)) by done.
  pose proof (held_only_latch _ _ (mv_frame _ _ (stop_if_moves (te_stop_notice env c) l1))) as Hs.
  destruct (lp_stopped (stop_if _ l1)); [by etrans|]. etrans; [exact Hl1|]. etrans; [exact Hs|apply IH].
Qed.

Lemma tick_end_latch l : latch_same (lp_state l) (lp_state (tick_end l)).
Proof.
  unfold tick_end. destruct (lp_stopped _); [|done]. apply (held_only_latch (set_covering [] (set_unhanded [] l))), flush_frame.
Qed.

Definition peer_in (m : InboxMessage) : bool := negb (from_operator m) && (im_conversation m ==? conv).
Definition peers (ms : list InboxMessage) : Z := Z.of_nat (length (List.filter peer_in ms)).

Section Steps.
(** A count [P] that the steps of a latch keep. *)
Context (P : Z -> AutoReplyState -> Prop) (resettable : string -> Prop) (affordable : string -> Z -> Prop) (timely : Z -> Prop).
Context (P_less : forall n n' s, P n s -> n' <= n -> P n' s).
Context (P_same : forall n s s', P n s -> latch_same s s' -> P n s').
Context (P_free : forall n s k, P n s -> resettable k -> P (n + (if bool_decide (k = conv) then 1 else 0)) (resetPeerLatch s k)).
Context (P_consume : forall n s k budget, P n s -> k ∈ K -> affordable k budget -> turns_used s k < budget ->
  P (n + (if bool_decide (k = conv) then 1 else 0)) (consumePeerLatch s k)).
Context (P_refresh : forall n s k now, P n s -> k ∈ K -> timely now ->
  let '(s', fresh) := noteProgressRefresh s k now in P n (if fresh then resetPeerLatch s' k else s')).

Lemma P_reset n s k : P n s -> resettable k -> P n (resetPeerLatch s k).
Proof. intros Hp Hr. eapply P_less; [by apply P_free|]. case_bool_decide; lia. Qed.

Lemma reconcile_keeps budgets fallback s n : (forall k, isCapped (effectiveConversationBudget budgets k fallback) = false -> resettable k) ->
  P n s -> P n (reconcilePeerLatches budgets fallback s).
Proof.
  intros Hr. unfold reconcilePeerLatches. generalize (remove_dups (js_keys (ar_turns s) ++ ar_escalated s)) as ks. intros ks. revert s.
  induction ks as [|k ks IH]; intros s Hp; simpl; [done|]. apply IH. destruct (isCapped _) eqn:E; [done|]. apply P_reset; [done|by apply Hr].
Qed.

Lemma progress_keeps ms self vs now : (forall m, m ∈ ms -> im_conversation m ∈ K) -> timely now -> forall s n,
  P n s -> P n (refreshBudgetForProgressSignals s ms self vs now).
Proof.
  intros Hk Ht. unfold refreshBudgetForProgressSignals. induction ms as [|m ms IH]; intros s n Hp; simpl; [done|].
  apply IH; [intros x Hx; apply Hk; by right|]. unfold progress_message. destruct (negb _); [done|]. destruct (failed_verdict _); [done|].
  pose proof (P_refresh n s (im_conversation m) now Hp (Hk m (list_elem_of_here _ _)) Ht) as Hn.
  destruct (noteProgressRefresh _ _ _) as [s1 []]; exact Hn.
Qed.

(** A batch whose budgets and conversations fit. *)
Record fits (budgets : option (list (string * Z))) (fallback : Z) (ms : list InboxMessage) : Prop := {
  ft_conversations : forall m, m ∈ ms -> im_conversation m ∈ K;
  ft_operator : forall m, m ∈ ms -> from_operator m = true -> resettable (im_conversation m);
  ft_free : forall k, isCapped (effectiveConversationBudget budgets k fallback) = false -> resettable k;
  ft_capped : forall k, isCapped (effectiveConversationBudget budgets k fallback) = true -> affordable k (effectiveConversationBudget budgets k fallback)
}.

Lemma fits_sublist budgets fallback ms ms' : sublist ms' ms -> fits budgets fallback ms -> fits budgets fallback ms'.
Proof. intros Hs [C O F A]. split; try done; intros m Hm; [apply C|apply O]; by eapply elem_of_sublist. Qed.

Lemma peers_cons m ms : peers (m :: ms) = (if peer_in m then 1 else 0) + peers ms.
Proof. unfold peers. simpl. destruct (peer_in m); simpl; lia. Qed.

Lemma open_below s k budget : isCapped budget = true -> peerLatchOpen s k budget = true -> turns_used s k < budget.
Proof.
  unfold peerLatchOpen, isCapped, normalizeTurnBudget. intros Hb%Z.ltb_lt. destruct (Z.leb_spec 1 budget); [|lia].
  destruct (Z.ltb_spec 0 budget); [|lia]. simpl. by intros ?%Z.ltb_lt.
Qed.

Lemma latch_message_keeps budgets fallback m : fits budgets fallback [m] -> forall s n, P n s ->
  let '(s', keep) := latch_message budgets fallback s m in P (n + if keep && peer_in m then 1 else 0) s'.
Proof.
  intros [C O F A] s n Hp. unfold latch_message, peer_in. specialize (C m (list_elem_of_here _ _)).
  destruct (from_operator m); simpl; [by rewrite Z.add_0_r|].
  destruct (peerLatchOpen _ _ _) eqn:Eo; simpl; [|by rewrite Z.add_0_r]. destruct (isCapped _) eqn:Ec.
  - eapply P_consume; [done|done|by apply A|by apply open_below].
  - by apply P_free, F.
Qed.

Lemma latch_keeps budgets fallback ms : fits budgets fallback ms -> forall s latched n, P n s ->
  let '(s', kept, _) := applyPeerLatch budgets fallback s ms latched in P (n + peers kept) s'.
Proof.
  induction ms as [|m ms IH]; intros Hf s latched n Hp; simpl; [by rewrite Z.add_0_r|].
  pose proof (latch_message_keeps budgets fallback m ltac:(eapply fits_sublist; [|exact Hf]; apply sublist_skip, sublist_nil_l) s n Hp) as Hm.
  destruct (latch_message budgets fallback s m) as [s1 keep].
  specialize (IH ltac:(eapply fits_sublist; [|exact Hf]; by apply sublist_cons) s1 (if keep then latched else count_latched (im_conversation m) latched) _ Hm).
  destruct (applyPeerLatch _ _ _ _ _) as [[s2 kept] latched2].
  destruct keep; [|by rewrite Z.add_0_r in IH]. rewrite peers_cons. cbn [andb] in IH. eapply P_less; [exact IH|lia].
Qed.

Lemma gate_keeps env batch real : fits (pb_conversation_budgets batch) (snd (tick_settings opts batch)) real -> forall s n, P n s ->
  let '(s', kept, _) := tick_gate opts env batch real s in P (n + peers kept) s'.
Proof.
  intros Hf s n Hp. unfold tick_gate. set (s1 := foldl _ s real).
  assert (H1' : P n s1).
  { unfold s1. clear s1. pose proof (ft_operator _ _ _ Hf) as Ho. revert Ho s Hp. clear Hf. induction real as [|m ms IH]; intros Ho s Hp; simpl; [done|].
    apply IH; [intros x Hx; apply Ho; by right|]. destruct (from_operator m) eqn:E; [|done]. apply P_reset; [done|]. apply Ho; [by left|done]. }
  pose proof (rate_latch (te_now env) real s1) as Hr. destruct (rate_gate_spec (te_now env) real s1) as [_ Hsub].
  destruct (applyPeerRateGate _ _ _) as [s2 rateKept]. simpl in Hr, Hsub.
  apply latch_keeps; [by eapply fits_sublist|]. by apply (P_same _ s1).
Qed.

(** ** A tick *)

Definition batch_fits (env : TickEnv) : Prop :=
  forall batch0, te_inbox env = Some batch0 -> let batch := withLocalRoomCap batch0 (lo_peerTurnBudget opts) in
    fits (pb_conversation_budgets batch) (snd (tick_settings opts batch)) (pb_messages batch) /\ timely (te_now env).

Definition peers_accepted (o : option Accepted) : Z := match o with Some a => peers (ac_kept a) | None => 0 end.

(** The opening of a tick: reconcile, burn, refresh. *)
Lemma open_keeps env batch l vs0 n : fits (pb_conversation_budgets batch) (snd (tick_settings opts batch)) (pb_messages batch) -> timely (te_now env) ->
  P n (lp_state l) -> let '(l', _, real) := tick_open opts env batch l vs0 in P n (lp_state l') /\ sublist real (pb_messages batch).
Proof.
  intros Hf Ht Hp. unfold tick_open. destruct (tick_judge_frame opts env batch l vs0) as (Hs & _).
  destruct (tick_judge opts env batch l vs0) as [l1 vs]. simpl in *. split; [|apply filter_sublist].
  apply progress_keeps; [apply Hf|done|]. eapply P_same; [|apply burn_latch]. apply reconcile_keeps; [apply Hf|]. by rewrite Hs.
Qed.

Lemma stop_keeps flag l n : P n (lp_state l) -> P n (lp_state (stop_if flag l)).
Proof. intros Hp. eapply P_same; [exact Hp|]. apply held_only_latch, stop_if_moves. Qed.

Lemma accepts_keeps env l a n : batch_fits env -> P n (lp_state l) -> tick_accepts opts env l = Some a ->
  P (n + peers (ac_kept a)) (lp_state (ac_loop a)).
Proof.
  unfold tick_accepts. intros Hb Hp Ha. destruct (_ || _); [done|]. cbv zeta in Ha. destruct (te_inbox env) as [batch0|] eqn:Ei; [|done].
  destruct (Hb batch0 Ei) as [Hf Ht]. destruct (lp_stopped _); [done|]. set (batch := withLocalRoomCap batch0 _) in *.
  pose proof (stop_keeps (te_stop_poll env) l n Hp) as Hp1. set (l1 := stop_if (te_stop_poll env) l) in *.
  destruct (tick_verify_same opts env batch l1) as (Hv & _). destruct (tick_verify _ _ _ _) as [lv [vs0|]]; [|done].
  cbn [fst] in Hv. rewrite <- Hv in Hp1. pose proof (open_keeps env batch lv vs0 n Hf Ht Hp1) as Ho.
  destruct (tick_open _ _ _ _ _) as [[l2 vs] real]. destruct Ho as [Hp2 Hsub].
  pose proof (gate_keeps env batch real (fits_sublist _ _ _ _ Hsub Hf) _ _ Hp2) as Hg.
  destruct (tick_gate _ _ _ _ _) as [[s kept] latched]. pose proof (notices_latch env latched (set_loop_state s l2)) as Hl.
  destruct (_ || _); [done|]. injection Ha as <-. simpl. by apply (P_same _ s).
Qed.

Lemma rejects_keeps env l n : loop_ok l ->
  batch_fits env -> P n (lp_state l) -> tick_accepts opts env l = None -> P n (lp_state (tick opts env l)).
Proof.
  intros Hk Hb Hp Ha.
  assert (Hend : forall x, P n (lp_state x) -> P n (lp_state (tick_end x))) by (intros x Hx; by apply (P_same _ _ _ Hx), tick_end_latch).
  unfold tick_accepts, tick, runTick, tick_batch in *. destruct (lp_stopped l) eqn:Hs; [done|]. cbn [orb] in Ha. cbv zeta in *.
  destruct (ar_inFlight (lp_state l)); [by apply (Hend l)|].
  pose proof (stop_if_moves (te_stop_poll env) l) as M1. pose proof (stop_keeps (te_stop_poll env) l n Hp) as Hp1. set (l1 := stop_if (te_stop_poll env) l) in *.
  destruct (te_inbox env) as [batch0|] eqn:Ei; [|by apply (Hend l1)]. destruct (Hb batch0 Ei) as [Hf Ht].
  destruct (lp_stopped l1); [by apply (Hend l1)|]. set (batch := withLocalRoomCap batch0 _) in *.
  destruct (tick_verify_same opts env batch l1) as (Hv & Gv & _).
  destruct (tick_verify _ _ _ _) as [lv [vs0|]]; cbn [fst] in *; rewrite <- Hv in Hp1; [|by apply (Hend lv)].
  pose proof (open_keeps env batch lv vs0 n Hf Ht Hp1) as Ho. pose proof (tick_open_spec opts env batch lv vs0) as Hs2.
  destruct (tick_open _ _ _ _ _) as [[l2 vs] real]. destruct Ho as [Hp2 Hsub], Hs2 as (G2 & _). destruct real as [|m real].
  - pose proof (ack_all_moves env batch l2) as Ma. set (l3 := ack_all env batch l2) in *.
    assert (Hp3 : P n (lp_state l3)) by (eapply P_same; [exact Hp2|]; apply held_only_latch, Ma).
    destruct (lp_stopped l3); [by apply (Hend l3)|]. apply (Hend (serviceDeferredTurn opts env l3)). eapply P_same; [exact Hp3|].
    apply held_only_latch, service_moves. apply Ma, (gt_ok _ _ G2), (gt_ok _ _ Gv), M1, Hk.
  - pose proof (gate_keeps env batch (m :: real) (fits_sublist _ _ _ _ Hsub Hf) _ _ Hp2) as Hg.
    destruct (tick_gate _ _ _ _ _) as [[s kept] latched]. pose proof (notices_latch env latched (set_loop_state s l2)) as Hl.
    set (l3 := raise_notices _ _ _) in *. simpl in Ha. destruct (lp_stopped l3); [|done]. apply (Hend l3).
    eapply P_less; [eapply P_same; [exact Hg|exact Hl]|]. unfold peers. lia.
Qed.

Lemma tick_keeps env l n : run_ok l -> batch_fits env -> P n (lp_state l) ->
  P (n + peers_accepted (tick_accepts opts env l)) (lp_state (tick opts env l)).
Proof.
  intros (K' & U & _) Hb Hp. destruct (tick_accepts opts env l) as [a|] eqn:Ha; simpl.
  - pose proof (accepts_keeps env l a n Hb Hp Ha) as Hp3. destruct (tick_accepts_spec opts env l a Ha) as (_ & G & Hs & ->).
    pose proof (tick_accept_takes opts env (ac_batch a) (ac_verdicts a) (ac_real a) (ac_kept a) (ac_loop a) (all_homed _)
                  (gt_ok _ _ G K') (gt_unhanded _ _ G U) Hs) as W.
    eapply P_same; [exact Hp3|]. etrans; [|apply tick_end_latch]. etrans; [|apply held_only_latch, (tk_frame _ _ _ W)].
    rewrite marked_state, mark_all. done.
  - rewrite Z.add_0_r. by apply rejects_keeps.
Qed.

Lemma run_keeps es : forall l n, run_ok l -> (forall env, TickWith env ∈ es -> batch_fits env) -> P n (lp_state l) ->
  P (n + peers (flat_map ac_kept (accepted_in opts l es))) (lp_state (loop_run opts l es)).
Proof.
  induction es as [|e es IH]; intros l n K' Hb Hp; simpl; [by rewrite Z.add_0_r|].
  destruct (step_carries opts l e K') as (_ & K2 & _).
  assert (Hp2 : P (n + peers (flat_map ac_kept (accepted_in opts l [e]))) (lp_state (loop_step opts l e))).
  { simpl. rewrite app_nil_r. destruct e as [env|]; simpl.
    - pose proof (tick_keeps env l n K' (Hb env (list_elem_of_here _ _)) Hp) as Ht. destruct (tick_accepts opts env l); simpl in *; rewrite ?app_nil_r; done.
    - rewrite Z.add_0_r. by apply stop_keeps. }
  specialize (IH _ _ K2 (fun env Hin => Hb env (list_elem_of_further _ _ _ Hin)) Hp2). eapply P_less; [exact IH|].
  rewrite flat_map_app. simpl. rewrite app_nil_r. unfold peers. rewrite List.filter_app, length_app. lia.
Qed.
End Steps.

(** ** The count over a run *)

Definition free_of_conv (k : string) : Prop := k <> conv.
Definition capped_by_b (k : string) (budget : Z) : Prop := k = conv -> budget <= b.
Definition in_window (now : Z) : Prop := t0 <= now < t0 + PROGRESS_REFRESH_WINDOW_MS.

(** The hour: counted. *)
Lemma span_counted es l n r : run_ok l -> (forall env, TickWith env ∈ es -> batch_fits free_of_conv capped_by_b in_window env) ->
  counted n r (lp_state l) -> exists r', counted (n + peers (flat_map ac_kept (accepted_in opts l es))) r' (lp_state (loop_run opts l es)).
Proof.
  intros K' Hb Hc.
  apply (run_keeps (fun n s => exists r, counted n r s) free_of_conv capped_by_b in_window); [..|exact K'|exact Hb|by exists r]; clear -K_room b_pos.
  - intros n n' s (r & [O W Hs F]) Hn. exists r. split; try done. lia.
  - intros n s s' (r & C) [Ht Hr]. exists r. by eapply counted_same.
  - intros n s k (r & C) Hk. exists r. rewrite bool_decide_eq_false_2 by done. rewrite Z.add_0_r. by apply counted_reset_other.
  - intros n s k budget (r & C) Hk Hb Hu. exists r. eapply counted_consume; [done|done|]. intros ->. split; [exact Hu|by apply Hb].
  - intros n s k now (r & C) Hk Ht. pose proof (counted_refresh n r s k now C Hk Ht) as Hr.
    by destruct (noteProgressRefresh s k now).
Qed.

(** Before it: well formed. *)
Lemma prefix_ok es l : run_ok l -> (forall env, TickWith env ∈ es -> batch_fits (fun _ => True) (fun _ _ => True) (fun _ => True) env) ->
  latch_ok (lp_state l) -> latch_ok (lp_state (loop_run opts l es)).
Proof.
  intros K' Hb Hc.
  apply (run_keeps (fun _ s => latch_ok s) (fun _ => True) (fun _ _ => True) (fun _ => True)) with (n := 0); [..|exact K'|exact Hb|done]; clear -K_room.
  - done.
  - intros _ s s' [T R Hpos] [Ht Hr]. split; unfold turns_used; rewrite ?Ht, ?Hr; done.
  - intros _ s k Ho _. by apply reset_ok.
  - intros _ s k budget Ho Hk _ _. by apply consume_ok.
  - intros _ s k now Ho Hk _. pose proof (note_ok s k now Ho Hk) as Hn. destruct (noteProgressRefresh s k now) as [s' []]; [apply reset_ok|]; apply Hn.
Qed.
End Latch.

(** C15. Teammates cannot keep an agent busy. However the ticks of an hour fall, in a
    conversation that is capped at no more than [b] turns throughout it and in which
    the operator does not write, at most [6 * b] messages of teammates are kept for a
    turn: the budget, and once more for each of the five progress refreshes an hour
    has.  The bound is for runs of at most 500 conversations
    ([PEER_LATCH_CONVERSATION_CAP]), which is what the loop counts: past it the oldest
    count is dropped and its conversation starts anew, and it is the sender who names
    the conversation ([latch_forgotten]). *)
Theorem peer_turns_bounded `{Crypto} `{HexDigest} `{Signing} `{Locale} opts identity reg K conv b t0 before hour :
  (length K <= PEER_LATCH_CONVERSATION_CAP)%nat ->
  (forall env batch m, TickWith env ∈ (before ++ hour)%list -> te_inbox env = Some batch -> m ∈ pb_messages batch -> im_conversation m ∈ K) ->
  (forall env batch, TickWith env ∈ hour -> te_inbox env = Some batch ->
     t0 <= te_now env < t0 + PROGRESS_REFRESH_WINDOW_MS /\
     (let capped := withLocalRoomCap batch (lo_peerTurnBudget opts) in
      1 <= effectiveConversationBudget (pb_conversation_budgets capped) conv (snd (tick_settings opts capped)) <= b) /\
     forall m, m ∈ pb_messages batch -> from_operator m = true -> im_conversation m <> conv) ->
  0 <= b ->
  Z.of_nat (length (List.filter (fun m => negb (from_operator m) && (im_conversation m ==? conv))
    (flat_map ac_kept (accepted_in opts (loop_run opts (startAutoReply identity reg) before) hour)))) <= 6 * b.
Proof.
  intros HK Hconv Hhour Hb. set (start := startAutoReply identity reg).
  assert (Hok : run_ok (loop_run opts start before)).
  { apply (run_carries opts before start). apply start_ok. }
  assert (Hl : latch_ok K (lp_state (loop_run opts start before))).
  { apply (prefix_ok opts K HK conv); [apply start_ok| |split; [split; [constructor|intros c Hc; by apply elem_of_nil in Hc]..|intros c; done]].
    intros env Hin batch0 Hi. destruct (batch_messages_kept batch0 (lo_peerTurnBudget opts)) as [Hm _]. split; [|done]. split; try done.
    rewrite Hm. intros m Hmm. apply (Hconv env batch0); [apply elem_of_app; by left|done..]. }
  destruct (span_counted opts K HK conv b t0 Hb hour (loop_run opts start before) 0 0 Hok) as (r & C).
  - intros env Hin batch0 Hi. destruct (Hhour env batch0 Hin Hi) as (Ht & Hcap & Hop).
    destruct (batch_messages_kept batch0 (lo_peerTurnBudget opts)) as [Hm _]. split; [|done]. split; rewrite ?Hm.
    + intros m Hmm. apply (Hconv env batch0); [apply elem_of_app; by right|done..].
    + done.
    + intros k Hk ->. unfold isCapped in Hk. apply Z.ltb_ge in Hk. cbv zeta in Hcap. lia.
    + intros k _ ->. apply Hcap.
  - split; [done| |lia|unfold PROGRESS_REFRESH_MAX_PER_WINDOW; lia].
    pose proof (within_bounds K HK b Hb _ (lt_pos _ _ Hl conv)). lia.
  - apply counted_bound in C; [|done..]. unfold peers in C. simpl in C. exact C.
Qed.

Local Existing Instance escaping_node.
Local Existing Instance escaping_hex.
Local Existing Instance toy_crypto.
Local Existing Instance plain_signing.
Local Existing Instance plain_locale.

Definition demo_hour : list loop_event :=
  [TickWith (demo_tick 10 [demo_wire "m1" "a2" "one"] true true); TickWith (demo_tick 20 [demo_wire "m2" "a2" "two"] true true);
   TickWith (demo_tick 30 [demo_wire "m3" "a2" "three"] true true); TickWith (demo_tick 40 [demo_wire "m4" "a2" "four"] true true)].

(** A conversation at its cap of 3, and 500 others that wake the agent once each. *)
Example latch_forgotten :
  let names := map (fun n => String (ascii_of_nat (n / 256)) (String (ascii_of_nat (n mod 256)) "")) (seq 0 500) in
  let full := foldl consumePeerLatch createAutoReplyState ["c1"; "c1"; "c1"] in
  peerLatchOpen full "c1" 3 = false /\ peerLatchOpen (foldl consumePeerLatch full names) "c1" 3 = true.
Proof. by vm_compute. Qed.

Lemma peer_turns_bounded_witness :
  Z.of_nat (length (List.filter (fun m => negb (from_operator m) && (im_conversation m ==? "c1"))
    (flat_map ac_kept (accepted_in demo_loop_options demo_start demo_hour)))) <= 6 * 3 /\
  length (flat_map ac_kept (accepted_in demo_loop_options demo_start demo_hour)) = 3%nat.
Proof.
  split; [|vm_compute; reflexivity].
  assert (Hin : forall env batch, TickWith env ∈ demo_hour -> te_inbox env = Some batch ->
    0 <= te_now env < 3600000 /\ pb_conversation_budgets batch = None /\ pb_peer_turn_budget batch = None /\ pb_peer_autoreply batch = None /\
    forall m, m ∈ pb_messages batch -> im_conversation m = "c1" /\ from_operator m = false).
  { intros env batch Hin Hi. unfold demo_hour in Hin. rewrite !elem_of_cons, elem_of_nil in Hin.
    destruct_or! Hin; try done; injection Hin as ->; injection Hi as <-;
      (split; [simpl; lia|]; split_and!; [done..|]; by intros m ->%list_elem_of_singleton). }
  refine (peer_turns_bounded demo_loop_options None ∅ ["c1"] "c1" 3 0 [] demo_hour _ _ _ _).
  - unfold PEER_LATCH_CONVERSATION_CAP. simpl. lia.
  - intros env batch m He Hi Hm. destruct (Hin env batch He Hi) as (_ & _ & _ & _ & Hc). destruct (Hc m Hm) as [-> _]. left.
  - intros env batch He Hi. destruct (Hin env batch He Hi) as (Ht & Hb & Hp & Ha & Hc). split; [exact Ht|]. split.
    + unfold withLocalRoomCap. rewrite Hb. unfold effectiveConversationBudget. rewrite Hb. unfold tick_settings, effectivePeerSettings. rewrite Hp. simpl. lia.
    + intros m Hm Ho. destruct (Hc m Hm) as [_ Hf]. congruence.
  - lia.
Defined.
