(* ===== verification/IdentityFile.v ===== *)
(** * The state files of an agent

    [packages/sdk/src/identity/store.ts] and the connector's [credentials.ts]: what
    is read from the identity file and the credentials file, when a new identity
    may be minted, and the JSON that is written.  A file is absent, unreadable, or
    holds bytes that parse as JSON or do not; [preserved] collects the copies
    [preserveUnusableFile] makes. *)

From S2P Require Import Prelude Json IsoTime JsValues Identity TrustSync.
Import Ascii String.
Open Scope string_scope.
Open Scope Z_scope.

(** [FileBytes None] does not parse. *)
Inductive FileState :=
  | FileAbsent
  | FileUnreadable
  | FileBytes (content : option json).

(** The copy of an unusable file: only bytes that were read are kept. *)
Definition preserveUnusableFile (f : FileState) (preserved : list FileState) : list FileState :=
  match f with FileBytes _ => (preserved ++ [f])%list | _ => preserved end.

(** ** The identity as JSON *)

Definition json_string_map (j : option json) : gmap string string :=
  match j with
  | Some (JObj kvs) =>
      foldl (fun m kv => match snd kv with JStr v => <[fst kv := v]> m | _ => m end) ∅ kvs
  | _ => ∅
  end.

Definition json_admission (j : json) : option OperatorKeyAdmission :=
  match prop j "admitted_by", prop j "endorsed_by_key_id", prop j "endorsement_sig", prop j "admitted_at" with
  | Some (JStr "tofu"), _, _, Some (JStr t) => Some (ByTofu t)
  | Some (JStr "chain"), Some (JStr e), Some (JStr sig), Some (JStr t) => Some (ByChain e sig t)
  | _, _, _, _ => None
  end.

Definition json_admissions (j : option json) : gmap string OperatorKeyAdmission :=
  match j with
  | Some (JObj kvs) =>
      foldl (fun m kv => match json_admission (snd kv) with Some a => <[fst kv := a]> m | None => m end) ∅ kvs
  | _ => ∅
  end.

(** [data.f ? { f: ... } : {}] *)
Definition truthy_prop (data : json) (k : string) : option json :=
  match prop data k with Some v => if js_truthy v then Some v else None | None => None end.

(** The identity a parsed file holds: [None] without a seed. *)
Definition identity_of_json (data : json) : option EkhoIdentity :=
  match truthy_prop data "seedHex" with
  | None => None
  | Some seed =>
      Some (MkEkhoIdentity (js_String seed) (json_string_map (prop data "pinnedOperatorKeys"))
              (js_String <$> truthy_prop data "tofuAt")
              (json_string_map (truthy_prop data "revokedOperatorKeys"))
              (json_admissions (truthy_prop data "operatorKeyAdmissions")))
  end.

Definition string_map_json (m : gmap string string) : json :=
  JObj (map (fun kv => (fst kv, JStr (snd kv))) (map_to_list m)).

Definition admission_json (a : OperatorKeyAdmission) : json :=
  match a with
  | ByTofu t => JObj [("admitted_by", JStr "tofu"); ("admitted_at", JStr t)]
  | ByChain e sig t =>
      JObj [("admitted_by", JStr "chain"); ("endorsed_by_key_id", JStr e); ("endorsement_sig", JStr sig);
            ("admitted_at", JStr t)]
  end.

(** What [JSON.stringify(identity)] writes.  The model does not tell an absent
    ledger from an empty one, and writes the empty one. *)
Definition identity_json (i : EkhoIdentity) : json :=
  JObj ([("seedHex", JStr (id_seedHex i)); ("pinnedOperatorKeys", string_map_json (id_pinned i))] ++
        match id_tofuAt i with Some t => [("tofuAt", JStr t)] | None => [] end ++
        [("revokedOperatorKeys", string_map_json (id_revoked i));
         ("operatorKeyAdmissions",
          JObj (map (fun kv => (fst kv, admission_json (snd kv))) (map_to_list (id_admissions i))))])%list.

Definition saveIdentity (i : EkhoIdentity) : FileState := FileBytes (Some (identity_json i)).

(** ** Loading it *)

Inductive IdentityUnavailableReason := IdentityUnreadable | IdentityMissing.

Record IdentityDir := MkIdentityDir { dir_identity : FileState; dir_preserved : list FileState }.

(** The identity, or why there is none; [freshSeed] is the seed it would mint. *)
Definition loadOrCreateIdentity (dir : IdentityDir) (allowCreate : bool) (freshSeed : string)
    : IdentityDir * result IdentityUnavailableReason EkhoIdentity :=
  let refuse := (MkIdentityDir (dir_identity dir) (preserveUnusableFile (dir_identity dir) (dir_preserved dir)),
                 Throw IdentityUnreadable) in
  match dir_identity dir with
  | FileAbsent =>
      if negb allowCreate then (dir, Throw IdentityMissing)
      else
        let minted := MkEkhoIdentity freshSeed ∅ None ∅ ∅ in
        (MkIdentityDir (saveIdentity minted) (dir_preserved dir), Ok minted)
  | FileBytes (Some data) =>
      match identity_of_json data with
      | Some i => (dir, Ok i)
      | None => refuse
      end
  | _ => refuse
  end.

(** ** The connector's credentials *)

Record StoredCredentials := MkStoredCredentials {
  sc_agentId : string; sc_secret : string; sc_relayBaseUrl : string; sc_fleetId : string
}.

Inductive CredentialsState :=
  | CredentialsAbsent
  | CredentialsOk (c : StoredCredentials)
  | CredentialsUnusable.

Definition credentialsState (f : FileState) : CredentialsState :=
  match f with
  | FileAbsent => CredentialsAbsent
  | FileBytes (Some parsed) =>
      match string_field parsed "agentId", string_field parsed "secret", string_field parsed "fleetId",
            string_field parsed "relayBaseUrl" with
      | Some a, Some s, Some f, Some r => CredentialsOk (MkStoredCredentials a s r f)
      | _, _, _, _ => CredentialsUnusable
      end
  | _ => CredentialsUnusable
  end.

Definition saveCredentials (c : StoredCredentials) : FileState :=
  FileBytes (Some (JObj [("agentId", JStr (sc_agentId c)); ("secret", JStr (sc_secret c));
                         ("relayBaseUrl", JStr (sc_relayBaseUrl c)); ("fleetId", JStr (sc_fleetId c))])).

(** ** Reading back what was written *)

Lemma foldl_insert_lookup {V} (l : list (string * V)) (m0 : gmap string V) k :
  NoDup l.*1 ->
  foldl (fun m kv => <[fst kv := snd kv]> m) m0 l !! k =
  match (list_to_map l : gmap string V) !! k with Some v => Some v | None => m0 !! k end.
Proof.
  revert m0. induction l as [|[k' v] l IH]; intros m0; [intros _; cbn; by rewrite lookup_empty|].
  intros [Hk Hnd]%NoDup_cons. cbn. rewrite IH by done.
  destruct (decide (k' = k)) as [->|Hne].
  - rewrite lookup_insert_eq, (not_elem_of_list_to_map_1 _ _ Hk). by rewrite lookup_insert_eq.
  - by rewrite !lookup_insert_ne by done.
Qed.

Lemma foldl_insert_map_to_list {V} (m : gmap string V) :
  foldl (fun acc kv => <[fst kv := snd kv]> acc) ∅ (map_to_list m) = m.
Proof.
  apply map_eq. intros k. rewrite foldl_insert_lookup by apply NoDup_fst_map_to_list.
  rewrite list_to_map_to_list. by destruct (m !! k).
Qed.

Lemma foldl_map {A B C} (f : C -> B -> C) (g : A -> B) (l : list A) (c : C) :
  foldl f c (map g l) = foldl (fun c x => f c (g x)) c l.
Proof. revert c. induction l as [|x l IH]; intros c; [done|]. apply IH. Qed.

Lemma string_map_round m : json_string_map (Some (string_map_json m)) = m.
Proof. cbn. rewrite foldl_map. apply foldl_insert_map_to_list. Qed.

Lemma admission_round a : json_admission (admission_json a) = Some a.
Proof. by destruct a. Qed.

Lemma foldl_ext {A B} (f g : B -> A -> B) (l : list A) (b : B) :
  (forall b x, f b x = g b x) -> foldl f b l = foldl g b l.
Proof. intros He. revert b. induction l as [|x l IH]; intros b; [done|]. cbn. by rewrite He, IH. Qed.

Lemma admissions_round m :
  json_admissions (Some (JObj (map (fun kv => (fst kv, admission_json (snd kv))) (map_to_list m)))) = m.
Proof.
  cbn. rewrite foldl_map. rewrite <- (foldl_insert_map_to_list m) at 2. apply foldl_ext.
  intros acc [k a]. cbn [fst snd]. by rewrite admission_round.
Qed.

(** The identity file round-trips. An identity with a seed, and whose date of
    first contact is not the empty text, is read back as it was saved: seed, pins,
    tombstones and the evidence of every admission. *)
Lemma identity_round i :
  id_seedHex i <> "" -> id_tofuAt i <> Some "" -> identity_of_json (identity_json i) = Some i.
Proof.
  destruct i as [seed pinned tofu revoked admissions]. cbn [id_seedHex id_tofuAt]. intros Hs Ht.
  set (j := identity_json _).
  assert (Hj : prop j "seedHex" = Some (JStr seed) /\ prop j "pinnedOperatorKeys" = Some (string_map_json pinned) /\
               prop j "tofuAt" = option_map JStr tofu /\ prop j "revokedOperatorKeys" = Some (string_map_json revoked) /\
               prop j "operatorKeyAdmissions" =
                 Some (JObj (map (fun kv => (fst kv, admission_json (snd kv))) (map_to_list admissions))))
    by (destruct tofu; split_and!; reflexivity).
  destruct Hj as (J1 & J2 & J3 & J4 & J5). unfold identity_of_json, truthy_prop.
  rewrite J1, J2, J3, J4, J5. change (js_truthy (string_map_json revoked)) with true. cbn -[json_string_map string_map_json json_admissions].
  rewrite (bool_decide_false _ Hs). cbn -[json_string_map string_map_json json_admissions].
  rewrite !string_map_round, admissions_round. destruct tofu as [t|]; [|done].
  cbn. by rewrite bool_decide_false by congruence.
Qed.

(** A fresh key is minted, and a file written, only where there is no file and
    creation is allowed; an unusable file is refused, kept and never overwritten. *)
Lemma load_never_overwrites dir allowCreate seed :
  dir_identity dir <> FileAbsent ->
  dir_identity (fst (loadOrCreateIdentity dir allowCreate seed)) = dir_identity dir.
Proof. unfold loadOrCreateIdentity. intros Hf. destruct (dir_identity dir) as [| |[data|]] eqn:E; simpl; [done|done| |done].
  by destruct (identity_of_json data). Qed.
