(* ===== verification/PluginRuntime.v ===== *)
(** * The plugin's copies in one host process

    [packages/openclaw-plugin/src/connection.ts], [runtime-registry.ts], the
    enrolment of [credentials.ts] and the registration of [index.ts]: each reload
    of the host evaluates a fresh copy of the plugin beside the old ones, and the
    registry they share decides which copy produces heartbeats and polls the inbox
    for an agent, and which may spend the enrolment token. *)

From S2P Require Import Prelude Json IsoTime JsValues Identity TrustSync IdentityFile.
Import Ascii String.
Open Scope string_scope.
Open Scope Z_scope.

(** ** Credentials *)

Record PluginConfig := MkPluginConfig {
  pc_relay : string;
  pc_fleet : option string;
  pc_token : option string;
  pc_agentId : option string;
  pc_agentSecret : option string;
  pc_operatorPubkey : option string;
  pc_allowNew : bool
}.

(** The plugin keeps what the file says of relay and fleet, present or not. *)
Record EkhoCredentials := MkEkhoCredentials {
  cr_agentId : string;
  cr_secret : string;
  cr_relay : option string;
  cr_fleet : option string
}.

Inductive StoredCredentialsState :=
  | StoredAbsent
  | StoredOk (c : EkhoCredentials)
  | StoredUnusable.

Definition storedCredentialsState (f : FileState) : StoredCredentialsState :=
  match f with
  | FileAbsent => StoredAbsent
  | FileBytes (Some parsed) =>
      match string_field parsed "agentId", string_field parsed "secret" with
      | Some a, Some s =>
          StoredOk (MkEkhoCredentials a s (string_field parsed "relayBaseUrl") (string_field parsed "fleetId"))
      | _, _ => StoredUnusable
      end
  | _ => StoredUnusable
  end.

Definition saveCredentialsFile (c : EkhoCredentials) : FileState :=
  FileBytes (Some (JObj ([("agentId", JStr (cr_agentId c)); ("secret", JStr (cr_secret c))] ++
    match cr_relay c with Some r => [("relayBaseUrl", JStr r)] | None => [] end ++
    match cr_fleet c with Some f => [("fleetId", JStr f)] | None => [] end))).

Inductive ConnectError :=
  | CredentialsUnavailable
  | NoCredentialsNoToken
  | EnrollmentFailed (status : Z)
  | EnrollmentUnanswered             (* aborted after the deadline, or a network error *)
  | CredentialsNotSaved.

(** Config that names credentials: [config.agentId && config.agentSecret]. *)
Definition explicit_credentials (cfg : PluginConfig) : option (string * string) :=
  match truthy (pc_agentId cfg), truthy (pc_agentSecret cfg) with
  | Some a, Some s => Some (a, s)
  | _, _ => None
  end.

(** [enrollOrLoad] up to its request. *)
Inductive EnrolStart :=
  | HaveCredentials (c : EkhoCredentials) (file : FileState)
  | CannotEnrol (e : ConnectError)
  | PostEnrolment.

Definition enrollOrLoad_start (cfg : PluginConfig) (file : FileState) : EnrolStart :=
  match explicit_credentials cfg with
  | Some (a, s) =>
      let c := MkEkhoCredentials a s (Some (pc_relay cfg)) (Some (default "" (pc_fleet cfg))) in
      HaveCredentials c (saveCredentialsFile c)
  | None =>
      match storedCredentialsState file with
      | StoredOk c => HaveCredentials c file
      | StoredUnusable => CannotEnrol CredentialsUnavailable
      | StoredAbsent =>
          match truthy (pc_token cfg), truthy (pc_fleet cfg) with
          | Some _, Some _ => PostEnrolment
          | _, _ => CannotEnrol NoCredentialsNoToken
          end
      end
  end.

(** What comes back of the request.  [operator_keys] is an array or missing. *)
Inductive EnrolAnswer :=
  | EnrolAccepted (agent secret : string) (operator_keys : option (list OperatorKeyEntry)) (saved : bool)
  | EnrolRefused (status : Z)
  | EnrolUnanswered.

(** [enrollOrLoad] after it: the result, the file, and [lastEnrollOperatorKeys]. *)
Definition enrollOrLoad_finish (cfg : PluginConfig) (ans : EnrolAnswer) (file : FileState)
    (last : option (list OperatorKeyEntry))
    : result ConnectError EkhoCredentials * FileState * option (list OperatorKeyEntry) :=
  match ans with
  | EnrolAccepted agent secret keys saved =>
      let c := MkEkhoCredentials agent secret (Some (pc_relay cfg)) (pc_fleet cfg) in
      if saved then (Ok c, saveCredentialsFile c, keys) else (Throw CredentialsNotSaved, file, keys)
  | EnrolRefused status => (Throw (EnrollmentFailed status), file, last)
  | EnrolUnanswered => (Throw EnrollmentUnanswered, file, last)
  end.

(** May a new identity be minted?  [env] is [EKHO_ALLOW_NEW_IDENTITY]. *)
Definition shouldAllowNewIdentity (cfg : PluginConfig) (env : option string) (hasStoredCredentials : bool) : bool :=
  let enrolled := hasStoredCredentials || negb (explicit_credentials cfg ==? None) in
  negb enrolled || (env ==? Some "1") || pc_allowNew cfg.

(** ** The identity *)

(** [s.split(",")] *)
Fixpoint split_comma (s : string) : list string :=
  match s with
  | "" => [""]
  | String c s' =>
      if (c ==? ","%char) then "" :: split_comma s'
      else match split_comma s' with
           | x :: l => String c x :: l
           | [] => [String c ""]
           end
  end.

(** An entry of [operatorPubkey]: the key after the first colon, or the whole. *)
Definition entry_key (raw : string) : option string :=
  let entry := trim raw in
  let pub := match index 0 ":" entry with
             | Some i => trim (substring (S i) (String.length entry) entry)
             | None => entry
             end in
  truthy (Some pub).

(** One configured key: pinned unless the ledger says it is revoked. *)
Definition pin_configured `{Crypto} (acc : EkhoIdentity * bool) (raw : string) : EkhoIdentity * bool :=
  let '(i, changed) := acc in
  match entry_key raw with
  | None => acc
  | Some pub =>
      let kid := keyId (fromB64url pub) in
      let pin m := MkEkhoIdentity (id_seedHex i) m (id_tofuAt i) (id_revoked i) (id_admissions i) in
      match own (id_revoked i) kid with
      | Some _ => if own (id_pinned i) kid ==? None then acc else (pin (delete kid (id_pinned i)), true)
      | None => if id_pinned i !! kid ==? Some pub then acc else (pin (<[kid := pub]> (id_pinned i)), true)
      end
  end.

(** The pins of [registerAndBootstrapIdentity], and whether they changed. *)
Definition bootstrap_pins `{Crypto} (i : EkhoIdentity) (operatorPubkey : option string) : EkhoIdentity * bool :=
  fold_left pin_configured (split_comma (default "" operatorPubkey)) (i, false).

(** ** State *)

(** Where a copy's connect stands: behind the enrolment lock, awaiting the
    relay's answer, in the delay before it looks at the file again, settled, or
    loading its identity. *)
Inductive Phase :=
  | Queued
  | Posting
  | Rechecking (e : ConnectError)
  | Settled (r : result ConnectError EkhoCredentials)
  | Bootstrapping (c : EkhoCredentials) (loaded : option EkhoIdentity).

Record Connecting := MkConnecting {
  cn_config : PluginConfig;
  cn_api : option nat;
  cn_key : option string;
  cn_retiredAtStart : bool;
  cn_hadCredentials : bool;
  cn_phase : Phase;
  cn_waiters : list (nat * nat)      (* registrations that await it: epoch, api *)
}.

(** The module state of one copy.  [cp_loop] is the host handle a running loop is
    bound to; [cp_rebinds] the rebind in flight and those waiting for it. *)
Record Copy := MkCopy {
  cp_connection : option EkhoCredentials;
  cp_connecting : option Connecting;
  cp_heartbeat : bool;
  cp_loop : option nat;
  cp_rebinds : list nat;
  cp_claimed : option string;
  cp_retired : bool;
  cp_identity : option EkhoIdentity;
  cp_lastKeys : option (list OperatorKeyEntry);
  cp_epoch : nat;
  cp_registration : option (nat * nat);
  cp_staleUnloads : gset nat
}.

Definition freshCopy : Copy := MkCopy None None false None [] None false None None 0 None ∅.

(** [pr_locks]: per enrolment key the copies in line, the first holding the lock. *)
Record Process := MkProcess {
  pr_generations : nat;
  pr_byAgent : gmap string nat;
  pr_copies : gmap nat Copy;
  pr_locks : gmap string (list nat);
  pr_enrolKeys : gmap string (list OperatorKeyEntry);
  pr_credentials : FileState;
  pr_identity : IdentityDir;
  pr_checks : list string;           (* the delayed missing-heartbeat checks *)
  pr_alarms : list string
}.

Definition startProcess (credentials : FileState) (identity : IdentityDir) : Process :=
  MkProcess 0 ∅ ∅ ∅ ∅ credentials identity [] [].

(** *** Updates *)

Definition set_connection x (c : Copy) := MkCopy x (cp_connecting c) (cp_heartbeat c) (cp_loop c) (cp_rebinds c) (cp_claimed c) (cp_retired c) (cp_identity c) (cp_lastKeys c) (cp_epoch c) (cp_registration c) (cp_staleUnloads c).
Definition set_connecting x (c : Copy) := MkCopy (cp_connection c) x (cp_heartbeat c) (cp_loop c) (cp_rebinds c) (cp_claimed c) (cp_retired c) (cp_identity c) (cp_lastKeys c) (cp_epoch c) (cp_registration c) (cp_staleUnloads c).
Definition set_heartbeat x (c : Copy) := MkCopy (cp_connection c) (cp_connecting c) x (cp_loop c) (cp_rebinds c) (cp_claimed c) (cp_retired c) (cp_identity c) (cp_lastKeys c) (cp_epoch c) (cp_registration c) (cp_staleUnloads c).
Definition set_loop x (c : Copy) := MkCopy (cp_connection c) (cp_connecting c) (cp_heartbeat c) x (cp_rebinds c) (cp_claimed c) (cp_retired c) (cp_identity c) (cp_lastKeys c) (cp_epoch c) (cp_registration c) (cp_staleUnloads c).
Definition set_rebinds x (c : Copy) := MkCopy (cp_connection c) (cp_connecting c) (cp_heartbeat c) (cp_loop c) x (cp_claimed c) (cp_retired c) (cp_identity c) (cp_lastKeys c) (cp_epoch c) (cp_registration c) (cp_staleUnloads c).
Definition set_claimed x (c : Copy) := MkCopy (cp_connection c) (cp_connecting c) (cp_heartbeat c) (cp_loop c) (cp_rebinds c) x (cp_retired c) (cp_identity c) (cp_lastKeys c) (cp_epoch c) (cp_registration c) (cp_staleUnloads c).
Definition set_retired x (c : Copy) := MkCopy (cp_connection c) (cp_connecting c) (cp_heartbeat c) (cp_loop c) (cp_rebinds c) (cp_claimed c) x (cp_identity c) (cp_lastKeys c) (cp_epoch c) (cp_registration c) (cp_staleUnloads c).
Definition set_identity x (c : Copy) := MkCopy (cp_connection c) (cp_connecting c) (cp_heartbeat c) (cp_loop c) (cp_rebinds c) (cp_claimed c) (cp_retired c) x (cp_lastKeys c) (cp_epoch c) (cp_registration c) (cp_staleUnloads c).
Definition set_lastKeys x (c : Copy) := MkCopy (cp_connection c) (cp_connecting c) (cp_heartbeat c) (cp_loop c) (cp_rebinds c) (cp_claimed c) (cp_retired c) (cp_identity c) x (cp_epoch c) (cp_registration c) (cp_staleUnloads c).
Definition set_registration e x (c : Copy) := MkCopy (cp_connection c) (cp_connecting c) (cp_heartbeat c) (cp_loop c) (cp_rebinds c) (cp_claimed c) (cp_retired c) (cp_identity c) (cp_lastKeys c) e x (cp_staleUnloads c).
Definition set_staleUnloads x (c : Copy) := MkCopy (cp_connection c) (cp_connecting c) (cp_heartbeat c) (cp_loop c) (cp_rebinds c) (cp_claimed c) (cp_retired c) (cp_identity c) (cp_lastKeys c) (cp_epoch c) (cp_registration c) x.

Definition set_phase ph (n : Connecting) := MkConnecting (cn_config n) (cn_api n) (cn_key n) (cn_retiredAtStart n) (cn_hadCredentials n) ph (cn_waiters n).
Definition add_waiter w (n : Connecting) := MkConnecting (cn_config n) (cn_api n) (cn_key n) (cn_retiredAtStart n) (cn_hadCredentials n) (cn_phase n) (cn_waiters n ++ [w])%list.

Definition with_byAgent x (p : Process) := MkProcess (pr_generations p) x (pr_copies p) (pr_locks p) (pr_enrolKeys p) (pr_credentials p) (pr_identity p) (pr_checks p) (pr_alarms p).
Definition with_copies x (p : Process) := MkProcess (pr_generations p) (pr_byAgent p) x (pr_locks p) (pr_enrolKeys p) (pr_credentials p) (pr_identity p) (pr_checks p) (pr_alarms p).
Definition with_locks x (p : Process) := MkProcess (pr_generations p) (pr_byAgent p) (pr_copies p) x (pr_enrolKeys p) (pr_credentials p) (pr_identity p) (pr_checks p) (pr_alarms p).
Definition with_enrolKeys x (p : Process) := MkProcess (pr_generations p) (pr_byAgent p) (pr_copies p) (pr_locks p) x (pr_credentials p) (pr_identity p) (pr_checks p) (pr_alarms p).
Definition with_file x (p : Process) := MkProcess (pr_generations p) (pr_byAgent p) (pr_copies p) (pr_locks p) (pr_enrolKeys p) x (pr_identity p) (pr_checks p) (pr_alarms p).
Definition with_identity x (p : Process) := MkProcess (pr_generations p) (pr_byAgent p) (pr_copies p) (pr_locks p) (pr_enrolKeys p) (pr_credentials p) x (pr_checks p) (pr_alarms p).
Definition with_checks x y (p : Process) := MkProcess (pr_generations p) (pr_byAgent p) (pr_copies p) (pr_locks p) (pr_enrolKeys p) (pr_credentials p) (pr_identity p) x y.

(** Change the module state of copy [g]. *)
Definition upd (g : nat) (f : Copy -> Copy) (p : Process) : Process := with_copies (alter f g (pr_copies p)) p.

(** ** The registry *)

Definition nextRuntimeGeneration (p : Process) : Process * nat :=
  let g := S (pr_generations p) in
  (MkProcess g (pr_byAgent p) (pr_copies p) (pr_locks p) (pr_enrolKeys p) (pr_credentials p) (pr_identity p) (pr_checks p) (pr_alarms p), g).

Definition releaseAgentRuntime (agent : string) (g : nat) (p : Process) : Process :=
  if pr_byAgent p !! agent ==? Some g then with_byAgent (delete agent (pr_byAgent p)) p else p.

(** [shutdown] of copy [g]; [superseded] when a newer copy takes over. *)
Definition shutdown (superseded : bool) (g : nat) (p : Process) : Process :=
  match pr_copies p !! g with
  | None => p
  | Some c =>
      let claimed := truthy (cp_claimed c) in
      let p1 := upd g (fun c => set_claimed (match claimed with Some _ => None | None => cp_claimed c end)
                              (set_loop None (set_heartbeat false (set_retired true c)))) p in
      match claimed with
      | None => p1
      | Some a =>
          let p2 := releaseAgentRuntime a g p1 in
          if cp_heartbeat c && negb superseded then with_checks (pr_checks p2 ++ [a]) (pr_alarms p2) p2 else p2
      end
  end.

Definition claimAgentRuntime (agent : string) (g : nat) (p : Process) : Process * bool :=
  match pr_byAgent p !! agent with
  | Some holder =>
      if (g <? holder)%nat then (p, false)
      else
        let p1 := if (holder =? g)%nat then p else shutdown true holder p in
        (with_byAgent (<[agent := g]> (pr_byAgent p1)) p1, true)
  | None => (with_byAgent (<[agent := g]> (pr_byAgent p)) p, true)
  end.

Definition listenerUp (p : Process) (agent : string) : bool := negb (pr_byAgent p !! agent ==? None).

(** ** Producing *)

Definition claimRuntime (agent : string) (g : nat) (p : Process) : Process * bool :=
  match pr_copies p !! g with
  | None => (p, false)
  | Some c =>
      if cp_retired c then (p, false)
      else if cp_claimed c ==? Some agent then (p, true)
      else
        let '(p1, granted) := claimAgentRuntime agent g p in
        if granted then (upd g (set_claimed (Some agent)) p1, true)
        else (upd g (set_retired true) p1, false)
  end.

Definition maybeStartHeartbeat (g : nat) (p : Process) : Process :=
  match pr_copies p !! g with
  | Some c =>
      match cp_connection c with
      | Some cr =>
          if cp_heartbeat c then p
          else let '(p1, granted) := claimRuntime (cr_agentId cr) g p in
               if granted then upd g (set_heartbeat true) p1 else p1
      | None => p
      end
  | None => p
  end.

Section Process.
(** [EKHO_AUTOREPLY_DISABLE], set in the one-shot child of a turn;
    [EKHO_ALLOW_NEW_IDENTITY]; and the SHA-256 of the enrolment token. *)
Context (disabled : bool) (allow_env : option string) (digest : string -> string).
Context `{Crypto}.

Definition maybeStartAutoReply (api : option nat) (g : nat) (p : Process) : Process :=
  match pr_copies p !! g, api with
  | Some c, Some h =>
      match cp_connection c, cp_loop c with
      | Some cr, None =>
          let '(p1, granted) := claimRuntime (cr_agentId cr) g p in
          if granted && negb disabled then upd g (set_loop (Some h)) p1 else p1
      | _, _ => p
      end
  | _, _ => p
  end.

(** [rebindAutoReply] up to the drain it awaits. *)
Definition rebind_begin (api : nat) (c : Copy) : Copy :=
  match cp_rebinds c with
  | [] => if cp_loop c ==? Some api then c else set_rebinds [api] (set_loop None c)
  | _ => set_rebinds (cp_rebinds c ++ [api])%list c
  end.

(** The calls that waited for a rebind to end. *)
Fixpoint rebind_waiting (waiting : list nat) (c : Copy) : Copy :=
  match waiting with
  | [] => c
  | api :: rest =>
      if cp_loop c ==? Some api then rebind_waiting rest c
      else set_rebinds (api :: rest) (set_loop None c)
  end.

(** The drain is over. *)
Definition rebind_end (g : nat) (p : Process) : Process :=
  match pr_copies p !! g with
  | Some c =>
      match cp_rebinds c with
      | [] => p
      | api :: rest =>
          upd g (rebind_waiting rest) (maybeStartAutoReply (Some api) g (upd g (set_rebinds []) p))
      end
  | None => p
  end.

(** ** Connecting *)

Definition enrolmentKey (cfg : PluginConfig) : option string :=
  match explicit_credentials cfg, truthy (pc_token cfg) with
  | None, Some token =>
      let nl := String (ascii_of_nat 10) "" in
      Some (pc_relay cfg +:+ nl +:+ default "" (pc_fleet cfg) +:+ nl +:+ digest token)
  | _, _ => None
  end.

(** The result of [enrollOrLoad] that was reached without a request. *)
Definition settle_start (start : EnrolStart) (file : FileState)
    : option (result ConnectError EkhoCredentials * FileState) :=
  match start with
  | HaveCredentials c f => Some (Ok c, f)
  | CannotEnrol e => Some (Throw e, file)
  | PostEnrolment => None
  end.

Definition set_copy_phase (ph : Phase) (c : Copy) : Copy := set_connecting (set_phase ph <$> cp_connecting c) c.

(** [connecting = (async () => ...)()], up to its first await. *)
Definition connect_begin (cfg : PluginConfig) (api : option nat) (waiters : list (nat * nat)) (g : nat)
    (p : Process) : Process :=
  match pr_copies p !! g with
  | None => p
  | Some c =>
      let stored := match storedCredentialsState (pr_credentials p) with StoredAbsent => false | _ => true end in
      let start ph := Some (MkConnecting cfg api (enrolmentKey cfg) (cp_retired c) stored ph waiters) in
      match enrolmentKey cfg with
      | Some key =>
          with_locks (<[key := (default [] (pr_locks p !! key) ++ [g])%list]> (pr_locks p))
            (upd g (set_connecting (start Queued)) p)
      | None =>
          match settle_start (enrollOrLoad_start cfg (pr_credentials p)) (pr_credentials p) with
          | Some (r, file) => with_file file (upd g (set_connecting (start (Settled r))) p)
          | None => upd g (set_connecting (start Posting)) p
          end
      end
  end.

(** [ensureConnected]; a registration also awaits it. *)
Definition ensureConnected (cfg : PluginConfig) (api : option nat) (waiter : option (nat * nat)) (g : nat)
    (p : Process) : Process :=
  match pr_copies p !! g with
  | None => p
  | Some c =>
      match cp_connection c, cp_connecting c with
      | Some _, _ => maybeStartAutoReply api g (maybeStartHeartbeat g p)
      | None, Some n =>
          match waiter with
          | Some w => upd g (set_connecting (Some (add_waiter w n))) p
          | None => p
          end
      | None, None => connect_begin cfg api (match waiter with Some w => [w] | None => [] end) g p
      end
  end.

(** The [finally] of [runEnrolmentExclusive]: the lock passes on. *)
Definition release_lock (key : option string) (p : Process) : Process :=
  match key with
  | None => p
  | Some k =>
      match tail (default [] (pr_locks p !! k)) with
      | [] => with_locks (delete k (pr_locks p)) p
      | rest => with_locks (<[k := rest]> (pr_locks p)) p
      end
  end.

(** [takeEnrollOperatorKeys], then [putEnrolOperatorKeys]; a throw skips both. *)
Definition hand_over_keys (key : option string) (r : result ConnectError EkhoCredentials) (g : nat)
    (p : Process) : Process :=
  match r, pr_copies p !! g with
  | Ok _, Some c =>
      let p1 := upd g (set_lastKeys None) p in
      match cp_lastKeys c, key with
      | Some keys, Some k => with_enrolKeys (<[k := keys]> (pr_enrolKeys p1)) p1
      | _, _ => p1
      end
  | _, _ => p
  end.

(** A refusal with status 400 is looked into once more after a delay. *)
Definition phase_after (r : result ConnectError EkhoCredentials) : Phase :=
  match r with
  | Throw (EnrollmentFailed 400 as e) => Rechecking e
  | _ => Settled r
  end.

(** What a step shows to the outside: requests sent, and the answer to each. *)
Inductive Effect := RequestSent (key : string) (g : nat) | RequestAnswered (key : string) (g : nat) (answer : EnrolAnswer).

Definition current_phase (c : Copy) : option Phase := cn_phase <$> cp_connecting c.

(** The lock is granted: the run of the copy at the head of the line begins. *)
Definition enrol_granted (g : nat) (p : Process) : Process * list Effect :=
  match pr_copies p !! g ≫= cp_connecting with
  | Some n =>
      match cn_phase n, cn_key n with
      | Queued, Some key =>
          if head (default [] (pr_locks p !! key)) ==? Some g then
            match settle_start (enrollOrLoad_start (cn_config n) (pr_credentials p)) (pr_credentials p) with
            | Some (r, file) =>
                (release_lock (Some key)
                   (upd g (set_copy_phase (phase_after r)) (hand_over_keys (Some key) r g (with_file file p))), [])
            | None => (upd g (set_copy_phase Posting) p, [RequestSent key g])
            end
          else (p, [])
      | _, _ => (p, [])
      end
  | None => (p, [])
  end.

(** The request is answered, or given up. *)
Definition enrol_answered (ans : EnrolAnswer) (g : nat) (p : Process) : Process * list Effect :=
  match pr_copies p !! g with
  | Some c =>
      match cp_connecting c with
      | Some n =>
          match cn_phase n with
          | Posting =>
              let '(r, file, last) := enrollOrLoad_finish (cn_config n) ans (pr_credentials p) (cp_lastKeys c) in
              let p1 := upd g (set_lastKeys last) (with_file file p) in
              (release_lock (cn_key n) (upd g (set_copy_phase (phase_after r)) (hand_over_keys (cn_key n) r g p1)),
               match cn_key n with Some key => [RequestAnswered key g ans] | None => [] end)
          | _ => (p, [])
          end
      | None => (p, [])
      end
  | None => (p, [])
  end.

(** The delay after a 400 is over. *)
Definition recheck_done (g : nat) (p : Process) : Process :=
  match pr_copies p !! g ≫= cp_connecting with
  | Some n =>
      match cn_phase n with
      | Rechecking e =>
          upd g (set_copy_phase (Settled match storedCredentialsState (pr_credentials p) with
                                         | StoredOk c => Ok c
                                         | _ => Throw e
                                         end)) p
      | _ => p
      end
  | None => p
  end.

(** The credentials are there, and the identity is loaded; or the connect fails.
    [migrated] is whether the state of an older install was carried over;
    [freshSeed] the seed a new identity would get. *)
Definition connect_settled (migrated : bool) (freshSeed : string) (g : nat) (p : Process) : Process :=
  match pr_copies p !! g with
  | Some c =>
      match cp_connecting c with
      | Some n =>
          match cn_phase n with
          | Settled (Ok cr) =>
              if cp_retired c && negb (cn_retiredAtStart n) then upd g (set_connecting None) p
              else if negb migrated then upd g (set_copy_phase (Bootstrapping cr None)) p
              else
                let allowCreate := shouldAllowNewIdentity (cn_config n) allow_env (cn_hadCredentials n) in
                let '(dir, r) := loadOrCreateIdentity (pr_identity p) allowCreate freshSeed in
                upd g (set_copy_phase (Bootstrapping cr match r with Ok i => Some i | Throw _ => None end)) (with_identity dir p)
          | Settled (Throw _) => upd g (set_connecting None) p
          | _ => p
          end
      | None => p
      end
  | None => p
  end.

(** A registration whose connect has ended. *)
Definition registration_connected (w : nat * nat) (c : Copy) : Copy :=
  if (fst <$> cp_registration c) ==? Some (fst w) then rebind_begin (snd w) c else c.

(** [saveIdentity] *)
Definition save_identity (i : EkhoIdentity) (p : Process) : Process :=
  with_identity (MkIdentityDir (saveIdentity i) (dir_preserved (pr_identity p))) p.

(** The identity after its key was registered: the configured keys are pinned,
    then, once, those of the enrolment; each change is saved.  (When the sync of the
    enrolment keys throws, the connect goes on with the identity as it is.) *)
Definition adopt_identity (at_ : string) (loaded : option EkhoIdentity) (n : Connecting) (cr : EkhoCredentials)
    (g : nat) (p : Process) : Process :=
  match loaded with
  | None => p
  | Some i =>
      let '(i1, changed) := bootstrap_pins i (pc_operatorPubkey (cn_config n)) in
      let p1 := if changed then save_identity i1 p else p in
      let keys := cn_key n ≫= fun k => pr_enrolKeys p !! k in
      let p2 := match cn_key n with Some k => with_enrolKeys (delete k (pr_enrolKeys p1)) p1 | None => p1 end in
      match keys with
      | None => upd g (set_identity (Some i1)) p2
      | Some ks =>
          let fleet := match truthy (cr_fleet cr) with Some f => Some f | None => pc_fleet (cn_config n) end in
          let '(i2, changed2) := syncPinnedOperatorKeys at_ i1 ks fleet in
          upd g (set_identity (Some i2)) (if default false changed2 then save_identity i2 p2 else p2)
      end
  end.

Definition connect_finish (at_ : string) (g : nat) (p : Process) : Process :=
  match pr_copies p !! g ≫= cp_connecting with
  | Some n =>
      match cn_phase n with
      | Bootstrapping cr loaded =>
          let p1 := upd g (fun c => set_connecting None (set_connection (Some cr) c)) (adopt_identity at_ loaded n cr g p) in
          let p2 := maybeStartAutoReply (cn_api n) g (maybeStartHeartbeat g p1) in
          upd g (fun c => foldl (fun c w => registration_connected w c) c (cn_waiters n)) p2
      | _ => p
      end
  | None => p
  end.

(** ** The host *)

Definition activateRuntime (c : Copy) : Copy := set_retired false c.

(** [register()] with a handle to the host. *)
Definition register (cfg : PluginConfig) (api g : nat) (p : Process) : Process :=
  match pr_copies p !! g with
  | None => p
  | Some c =>
      let epoch := S (cp_epoch c) in
      let p1 := upd g (fun c => activateRuntime (set_registration epoch (Some (epoch, api)) c)) p in
      if pc_relay cfg ==? "" then p1
      else
        let p2 := ensureConnected cfg (Some api) (Some (epoch, api)) g p1 in
        match cp_connection c with
        | Some _ => upd g (registration_connected (epoch, api)) p2
        | None => p2
        end
  end.

(** The host disposes of registration [epoch], or stops. *)
Definition unload (epoch g : nat) (p : Process) : Process :=
  match pr_copies p !! g with
  | None => p
  | Some c =>
      match cp_registration c with
      | Some (e, api) =>
          if (e =? epoch)%nat then shutdown false g p
          else if bool_decide (epoch ∈ cp_staleUnloads c) then p
          else upd g (fun c => set_staleUnloads ({[epoch]} ∪ cp_staleUnloads c) (rebind_begin api c)) p
      | None => shutdown false g p
      end
  end.

(** The first delayed check runs. *)
Definition orphan_check (p : Process) : Process :=
  match pr_checks p with
  | [] => p
  | a :: rest => with_checks rest (if listenerUp p a then pr_alarms p else (pr_alarms p ++ [a])%list) p
  end.

(** The host evaluates a fresh copy of the plugin. *)
Definition load (p : Process) : Process :=
  let '(p1, g) := nextRuntimeGeneration p in with_copies (<[g := freshCopy]> (pr_copies p1)) p1.

Inductive ProcEvent :=
  | EvLoad
  | EvRegister (cfg : PluginConfig) (api g : nat)
  | EvTool (cfg : PluginConfig) (g : nat)
  | EvGranted (g : nat)
  | EvAnswered (ans : EnrolAnswer) (g : nat)
  | EvRechecked (g : nat)
  | EvSettled (migrated : bool) (freshSeed : string) (g : nat)
  | EvIdentity (at_ : string) (g : nat)
  | EvDrained (g : nat)
  | EvUnload (epoch g : nat)
  | EvOrphanCheck.

Definition proc_step (e : ProcEvent) (p : Process) : Process * list Effect :=
  match e with
  | EvLoad => (load p, [])
  | EvRegister cfg api g => (register cfg api g p, [])
  | EvTool cfg g => (ensureConnected cfg None None g p, [])
  | EvGranted g => enrol_granted g p
  | EvAnswered ans g => enrol_answered ans g p
  | EvRechecked g => (recheck_done g p, [])
  | EvSettled migrated freshSeed g => (connect_settled migrated freshSeed g p, [])
  | EvIdentity at_ g => (connect_finish at_ g p, [])
  | EvDrained g => (rebind_end g p, [])
  | EvUnload epoch g => (unload epoch g p, [])
  | EvOrphanCheck => (orphan_check p, [])
  end.

Fixpoint proc_run (es : list ProcEvent) (p : Process) : Process * list Effect :=
  match es with
  | [] => (p, [])
  | e :: es' =>
      let '(p1, out) := proc_step e p in
      let '(p2, out') := proc_run es' p1 in (p2, (out ++ out')%list)
  end.
End Process.
