(* ===== verification/PluginRuntimeSafety.v ===== *)
(** * Invariants of the plugin's copies

    What every interleaving of reloads, registrations, connects, rebinds and
    unloads keeps: who produces has claimed its agent, and the registry names
    exactly the copies that have a claim. *)

From S2P Require Import Prelude Json IsoTime JsValues Identity TrustSync IdentityFile PluginRuntime.
Import Ascii String.
Open Scope string_scope.
Open Scope Z_scope.

(** A copy that beats or polls. *)
Definition works (c : Copy) : bool := cp_heartbeat c || negb (cp_loop c ==? None).

Record copy_ok (c : Copy) : Prop := {
  co_works : works c = true ->
    cp_retired c = false /\ exists cr, cp_connection c = Some cr /\ cp_claimed c = Some (cr_agentId cr);
  co_claim a : cp_claimed c = Some a -> exists cr, cp_connection c = Some cr /\ cr_agentId cr = a;
  co_connecting : cp_connecting c <> None -> cp_connection c = None
}.

Record runtime_ok (p : Process) : Prop := {
  ro_generations g c : pr_copies p !! g = Some c -> (0 < g <= pr_generations p)%nat;
  ro_copy g c : pr_copies p !! g = Some c -> copy_ok c;
  ro_holder a g : a <> "" ->
    pr_byAgent p !! a = Some g <-> exists c, pr_copies p !! g = Some c /\ cp_claimed c = Some a
}.

(** Only the registry and the copies matter. *)
Lemma runtime_ok_same p p' :
  pr_generations p' = pr_generations p -> pr_byAgent p' = pr_byAgent p -> pr_copies p' = pr_copies p ->
  runtime_ok p -> runtime_ok p'.
Proof. intros Hg Hb Hc [H1 H2 H3]. split; rewrite ?Hg, ?Hb, ?Hc; auto. Qed.

Lemma with_locks_ok x p : runtime_ok p -> runtime_ok (with_locks x p).
Proof. by apply runtime_ok_same. Qed.
Lemma with_enrolKeys_ok x p : runtime_ok p -> runtime_ok (with_enrolKeys x p).
Proof. by apply runtime_ok_same. Qed.
Lemma with_file_ok x p : runtime_ok p -> runtime_ok (with_file x p).
Proof. by apply runtime_ok_same. Qed.
Lemma with_identity_ok x p : runtime_ok p -> runtime_ok (with_identity x p).
Proof. by apply runtime_ok_same. Qed.
Lemma with_checks_ok x y p : runtime_ok p -> runtime_ok (with_checks x y p).
Proof. by apply runtime_ok_same. Qed.

Lemma copies_upd g f p g' : pr_copies (upd g f p) !! g' = if decide (g' = g) then f <$> pr_copies p !! g else pr_copies p !! g'.
Proof.
  unfold upd. simpl. destruct (decide (g' = g)) as [->|Hne]; [by rewrite lookup_alter_eq|by rewrite lookup_alter_ne].
Qed.

(** A change of one copy that keeps its claim and starts nothing. *)
Lemma upd_ok g f p :
  (forall c, pr_copies p !! g = Some c -> copy_ok c -> copy_ok (f c) /\ cp_claimed (f c) = cp_claimed c) ->
  runtime_ok p -> runtime_ok (upd g f p).
Proof.
  intros Hf [Hg Hc Hh]. split.
  - intros g' c. rewrite copies_upd. case_decide as E; [|apply Hg]. subst g'. simpl.
    destruct (pr_copies p !! g) as [c0|] eqn:E; [|done]. intros _. by eapply Hg.
  - intros g' c. rewrite copies_upd. case_decide as E; [|apply Hc]. subst g'.
    destruct (pr_copies p !! g) as [c0|] eqn:E; [|done]. intros [= <-]. apply Hf; [done|by eapply Hc].
  - intros a g' Ha. change (pr_byAgent (upd g f p)) with (pr_byAgent p). rewrite (Hh a g' Ha), copies_upd.
    case_decide as E; [subst g'|done]. destruct (pr_copies p !! g) as [c0|] eqn:E; [|naive_solver]. simpl.
    destruct (Hf c0 eq_refl (Hc _ _ E)) as [_ Hcl]. split.
    + intros (c & [= <-] & Hca). exists (f c0). by rewrite Hcl.
    + intros (c & [= <-] & Hca). exists c0. by rewrite <- Hcl.
Qed.

(** A copy may forget its loop, its waiting rebinds, its registration. *)
Record quieter (c c' : Copy) : Prop := {
  qu_connection : cp_connection c' = cp_connection c;
  qu_connecting : cp_connecting c' <> None -> cp_connecting c <> None;
  qu_claimed : cp_claimed c' = cp_claimed c;
  qu_works : works c' = true -> works c = true;
  qu_retired : cp_retired c' = true -> cp_retired c = true
}.

Lemma quieter_ok c c' : quieter c c' -> copy_ok c -> copy_ok c'.
Proof.
  intros [Hn Hg Hc Hw Hr] [H1 H2 H3]. split; rewrite ?Hn, ?Hc; auto.
  intros Hwk. destruct (H1 (Hw Hwk)) as [Hr0 ?]. split; [|done].
  destruct (cp_retired c'); [|done]. by rewrite Hr in Hr0.
Qed.

Lemma upd_quieter g f p : (forall c, quieter c (f c)) -> runtime_ok p -> runtime_ok (upd g f p).
Proof.
  intros Hq. apply upd_ok. intros c _ Hc. split; [by eapply quieter_ok|]. apply Hq.
Qed.

Lemma quieter_refl c : quieter c c.
Proof. by split. Qed.

Lemma quieter_trans c c' c'' : quieter c c' -> quieter c' c'' -> quieter c c''.
Proof. intros [] []. split; try congruence; auto. Qed.

Lemma quieter_phase ph c : quieter c (set_copy_phase ph c).
Proof. split; simpl; try done. by destruct (cp_connecting c). Qed.

Lemma quieter_rebind_begin api c : quieter c (rebind_begin api c).
Proof.
  unfold rebind_begin. destruct (cp_rebinds c); [destruct (_ ==? _)|]; [apply quieter_refl| |by split].
  split; simpl; try done. unfold works. simpl. by rewrite orb_false_r; intros ->.
Qed.

Lemma quieter_rebind_waiting l c : quieter c (rebind_waiting l c).
Proof.
  induction l as [|api l IH]; simpl; [apply quieter_refl|]. destruct (_ ==? _); [done|].
  split; simpl; try done. unfold works. simpl. by rewrite orb_false_r; intros ->.
Qed.

Lemma quieter_registrations ws c : quieter c (foldl (fun c w => registration_connected w c) c ws).
Proof.
  revert c. induction ws as [|w ws IH]; intros c; simpl; [apply quieter_refl|].
  eapply quieter_trans; [|apply IH]. unfold registration_connected.
  destruct (_ ==? _); [apply quieter_rebind_begin|apply quieter_refl].
Qed.

(** ** Stopping *)

Lemma release_copies a g p : pr_copies (releaseAgentRuntime a g p) = pr_copies p.
Proof. unfold releaseAgentRuntime. by destruct (_ ==? _). Qed.

(** What [shutdown] leaves of a copy. *)
Definition stopped (c : Copy) : Copy :=
  set_claimed (match truthy (cp_claimed c) with Some _ => None | None => cp_claimed c end)
    (set_loop None (set_heartbeat false (set_retired true c))).

Lemma shutdown_copies b g p g' :
  pr_copies (shutdown b g p) !! g' = if decide (g' = g) then stopped <$> pr_copies p !! g else pr_copies p !! g'.
Proof.
  unfold shutdown. destruct (pr_copies p !! g) as [c|] eqn:E.
  - transitivity (pr_copies (upd g (fun _ => stopped c) p) !! g').
    + destruct (truthy (cp_claimed c)) eqn:Et; [destruct (_ && _)|]; simpl; rewrite ?release_copies;
        unfold upd; simpl; (destruct (decide (g' = g)) as [->|]; [rewrite !lookup_alter_eq, E; simpl; unfold stopped; by rewrite Et|by rewrite !lookup_alter_ne]).
    + rewrite copies_upd. case_decide; [|done]. by rewrite E.
  - case_decide; [by subst|done].
Qed.

Lemma shutdown_generations b g p : pr_generations (shutdown b g p) = pr_generations p.
Proof.
  unfold shutdown, releaseAgentRuntime. destruct (pr_copies p !! g); [|done].
  destruct (truthy _); [|done]. destruct (_ && _), (_ ==? _); done.
Qed.

Lemma shutdown_byAgent b g p :
  pr_byAgent (shutdown b g p) =
  match pr_copies p !! g ≫= (fun c => truthy (cp_claimed c)) with
  | Some a => if pr_byAgent p !! a ==? Some g then delete a (pr_byAgent p) else pr_byAgent p
  | None => pr_byAgent p
  end.
Proof.
  unfold shutdown. destruct (pr_copies p !! g) as [c|] eqn:E; simpl; [|done].
  destruct (truthy (cp_claimed c)) as [a|]; [|done]. unfold releaseAgentRuntime. simpl.
  destruct (_ && _), (_ ==? _); done.
Qed.

Lemma stopped_ok c : copy_ok c -> copy_ok (stopped c).
Proof.
  intros [H1 H2 H3]. split; simpl; [done| |done]. intros a Ha. apply H2. by destruct (truthy (cp_claimed c)).
Qed.

Lemma shutdown_ok b g p : runtime_ok p -> runtime_ok (shutdown b g p).
Proof.
  intros [Hg Hc Hh]. split.
  - intros g' c. rewrite shutdown_copies, shutdown_generations. case_decide as E; [|apply Hg]. subst g'.
    destruct (pr_copies p !! g) as [c0|] eqn:E; [|done]. intros _. by eapply Hg.
  - intros g' c. rewrite shutdown_copies. case_decide as E; [|apply Hc]. subst g'.
    destruct (pr_copies p !! g) as [c0|] eqn:E; [|done]. intros [= <-]. by eapply stopped_ok, Hc.
  - intros a g' Ha. rewrite shutdown_byAgent, shutdown_copies.
    destruct (pr_copies p !! g) as [c|] eqn:E; simpl.
    2: { rewrite (Hh a g' Ha). case_decide; [subst; rewrite E; naive_solver|done]. }
    destruct (truthy (cp_claimed c)) as [a0|] eqn:Et.
    + apply truthy_Some in Et as [Hcl Ha0]. assert (Hb : pr_byAgent p !! a0 = Some g) by (apply Hh; eauto).
      rewrite bool_decide_true by done. destruct (decide (a0 = a)) as [->|Hne].
      * rewrite lookup_delete_eq. split; [done|]. case_decide as Eg.
        -- intros (c' & [= <-] & Hc'). simpl in Hc'. unfold stopped in Hc'. simpl in Hc'.
           rewrite (proj2 (truthy_Some _ _) (conj Hcl Ha)) in Hc'. done.
        -- intros Hex. apply (Hh a g' Ha) in Hex. congruence.
      * rewrite lookup_delete_ne by done. rewrite (Hh a g' Ha). case_decide as Eg; [subst g'|done].
        rewrite E. split; [naive_solver|]. intros (c' & [= <-] & Hc'). simpl in Hc'. unfold stopped in Hc'.
        simpl in Hc'. rewrite (proj2 (truthy_Some _ _) (conj Hcl Ha0)) in Hc'. done.
    + rewrite (Hh a g' Ha). case_decide as Eg; [subst g'|done]. rewrite E.
      assert (Hst : cp_claimed (stopped c) = cp_claimed c) by (unfold stopped; simpl; by rewrite Et).
      split; intros (c' & [= <-] & Hc').
      * exists (stopped c). by rewrite Hst.
      * exists c. by rewrite <- Hst.
Qed.

(** ** Claiming *)

(** The registry once copy [g] may have agent [a]. *)
Definition take_over (a : string) (g : nat) (p : Process) : Process :=
  let p1 := match pr_byAgent p !! a with
            | Some holder => if (holder =? g)%nat then p else shutdown true holder p
            | None => p
            end in
  upd g (set_claimed (Some a)) (with_byAgent (<[a := g]> (pr_byAgent p1)) p1).

Lemma claimRuntime_cases a g p c :
  pr_copies p !! g = Some c ->
  claimRuntime a g p =
  if cp_retired c then (p, false)
  else if cp_claimed c ==? Some a then (p, true)
  else match pr_byAgent p !! a with
  | Some holder => if (g <? holder)%nat then (upd g (set_retired true) p, false) else (take_over a g p, true)
  | None => (take_over a g p, true)
  end.
Proof.
  intros E. unfold claimRuntime, claimAgentRuntime, take_over. rewrite E.
  destruct (cp_retired c); [done|]. destruct (_ ==? _); [done|].
  destruct (pr_byAgent p !! a) as [h|]; [|done]. by destruct (g <? h)%nat.
Qed.

(** A copy of another agent's claim has none yet. *)
Lemma unclaimed c cr :
  copy_ok c -> cp_connection c = Some cr -> cp_claimed c <> Some (cr_agentId cr) -> cp_claimed c = None.
Proof.
  intros Hc Hn Hcl. destruct (cp_claimed c) as [a|] eqn:E; [|done]. exfalso.
  destruct (co_claim _ Hc _ E) as (cr' & Hn' & <-). congruence.
Qed.

Lemma take_over_ok g p c cr :
  runtime_ok p -> pr_copies p !! g = Some c -> cp_connection c = Some cr -> cp_claimed c = None ->
  cp_retired c = false -> runtime_ok (take_over (cr_agentId cr) g p).
Proof.
  intros Hok Hcp Hn Hcl Hr. set (a := cr_agentId cr). unfold take_over.
  set (p1 := match pr_byAgent p !! a with Some _ => _ | None => _ end).
  assert (Hp1 : runtime_ok p1 /\ pr_copies p1 !! g = Some c /\
                (a <> "" -> forall g' c', pr_copies p1 !! g' = Some c' -> cp_claimed c' <> Some a)).
  { unfold p1. destruct (pr_byAgent p !! a) as [h|] eqn:Hb.
    - destruct (h =? g)%nat eqn:E; [apply Nat.eqb_eq in E as ->|apply Nat.eqb_neq in E].
      + split_and!; [done..|]. intros Ha. apply (ro_holder _ Hok a g Ha) in Hb as (c' & ? & ?). congruence.
      + split; [by apply shutdown_ok|]. rewrite shutdown_copies, decide_False by done. split; [done|].
        intros Ha g' c' Hg' Hc'.
        assert (pr_byAgent (shutdown true h p) !! a = Some g') as Hx
          by (apply (ro_holder _ (shutdown_ok true h p Hok) a g' Ha); eauto).
        rewrite shutdown_byAgent in Hx. apply (ro_holder _ Hok a h Ha) in Hb as Hb'.
        destruct Hb' as (ch & Hch & Hcla). rewrite Hch in Hx. simpl in Hx.
        rewrite (proj2 (truthy_Some _ _) (conj Hcla Ha)), bool_decide_true in Hx by done.
        by rewrite lookup_delete_eq in Hx.
    - split_and!; [done..|]. intros Ha g' c' Hg' Hc'.
      assert (pr_byAgent p !! a = Some g') by (apply (ro_holder _ Hok a g' Ha); eauto). congruence. }
  clearbody p1. destruct Hp1 as (Hok1 & Hcp1 & Hno). destruct Hok1 as [Hg1 Hc1 Hh1].
  split.
  - intros g' c'. rewrite copies_upd. simpl. case_decide as E; [|apply Hg1]. subst g'. rewrite Hcp1. intros _. by eapply Hg1.
  - intros g' c'. rewrite copies_upd. simpl. case_decide as E; [|apply Hc1]. rewrite Hcp1. intros [= <-].
    destruct (Hc1 _ _ Hcp1) as [W1 W2 W3]. split; simpl; [|intros a' [= <-]; eauto|done].
    intros _. split; [done|]. by exists cr.
  - intros a' g' Ha'. rewrite copies_upd. simpl. rewrite lookup_insert_Some.
    destruct (decide (a' = a)) as [->|Hne].
    + split.
      * intros [[_ <-]|[? _]]; [|done]. rewrite decide_True, Hcp1 by done. by eexists.
      * case_decide as E; [subst; by left|]. intros (c' & Hc' & Hcla). by destruct (Hno Ha' _ _ Hc').
    + assert (Hx : (a = a' /\ g = g' \/ a <> a' /\ pr_byAgent p1 !! a' = Some g') <-> pr_byAgent p1 !! a' = Some g') by naive_solver.
      rewrite Hx, (Hh1 a' g' Ha'). case_decide as E; [subst g'|done]. rewrite Hcp1. split.
      * intros (c' & [= <-] & Hc'). congruence.
      * intros (c' & [= <-] & Hc'). simpl in Hc'. congruence.
Qed.

Lemma take_over_self a g p c :
  pr_copies p !! g = Some c -> pr_copies (take_over a g p) !! g = Some (set_claimed (Some a) c).
Proof.
  intros Hc. unfold take_over. rewrite copies_upd, decide_True by done. simpl.
  destruct (pr_byAgent p !! a) as [h|]; [|by rewrite Hc].
  destruct (h =? g)%nat eqn:E; [by rewrite Hc|]. apply Nat.eqb_neq in E.
  rewrite shutdown_copies, decide_False by done. by rewrite Hc.
Qed.

(** [claimRuntime] on a connected copy. *)
Lemma claim_ok g p p1 granted c cr :
  runtime_ok p -> pr_copies p !! g = Some c -> cp_connection c = Some cr ->
  claimRuntime (cr_agentId cr) g p = (p1, granted) ->
  runtime_ok p1 /\
  (granted = true -> pr_copies p1 !! g = Some (set_claimed (Some (cr_agentId cr)) c) /\ cp_retired c = false).
Proof.
  intros Hok Hc Hn. rewrite (claimRuntime_cases _ _ _ _ Hc).
  destruct (cp_retired c) eqn:Hr; [by intros [= <- <-]|].
  destruct (cp_claimed c ==? _) eqn:Hcl; bools.
  { intros [= <- <-]. split; [done|]. intros _. split; [|done]. rewrite Hc, <- Hcl. by destruct c. }
  pose proof (unclaimed _ _ (ro_copy _ Hok _ _ Hc) Hn Hcl) as Hno.
  assert (Htake : (take_over (cr_agentId cr) g p, true) = (p1, granted) -> runtime_ok p1 /\
    (granted = true -> pr_copies p1 !! g = Some (set_claimed (Some (cr_agentId cr)) c) /\ false = false)).
  { intros [= <- <-]. split; [by eapply take_over_ok|]. intros _. split; [by apply take_over_self|done]. }
  destruct (pr_byAgent p !! cr_agentId cr) as [h|]; [|exact Htake].
  destruct (g <? h)%nat; [|exact Htake]. intros [= <- <-]. split; [|done].
  apply upd_ok; [|done]. intros c' Hc' [W1 W2 W3]. assert (c' = c) as -> by congruence. split; [|done].
  split; simpl; [|done..]. intros Hw. exfalso. destruct (W1 Hw) as (_ & cr' & _ & Hcla). congruence.
Qed.

(** Starting what the claim allows. *)
Lemma producing_ok g p p1 c cr f :
  runtime_ok p -> pr_copies p !! g = Some c -> cp_connection c = Some cr ->
  claimRuntime (cr_agentId cr) g p = (p1, true) ->
  (forall c, cp_connection (f c) = cp_connection c /\ cp_connecting (f c) = cp_connecting c /\
             cp_claimed (f c) = cp_claimed c /\ cp_retired (f c) = cp_retired c) ->
  runtime_ok (upd g f p1).
Proof.
  intros Hok Hc Hn Hcl Hf. destruct (claim_ok _ _ _ _ _ _ Hok Hc Hn Hcl) as [Hok1 Hg].
  destruct (Hg eq_refl) as [Hc1 Hr]. apply upd_ok; [|done]. intros c' Hc' [W1 W2 W3].
  assert (c' = set_claimed (Some (cr_agentId cr)) c) as -> by congruence.
  destruct (Hf (set_claimed (Some (cr_agentId cr)) c)) as (F1 & F2 & F3 & F4). split; [|done].
  split; rewrite ?F1, ?F2, ?F3, ?F4; simpl in *; [|done..]. intros _. split; [done|]. by exists cr.
Qed.

Lemma maybeStartHeartbeat_ok g p : runtime_ok p -> runtime_ok (maybeStartHeartbeat g p).
Proof.
  intros Hok. unfold maybeStartHeartbeat. destruct (pr_copies p !! g) as [c|] eqn:Hc; [|done].
  destruct (cp_connection c) as [cr|] eqn:Hn; [|done]. destruct (cp_heartbeat c); [done|].
  destruct (claimRuntime (cr_agentId cr) g p) as [p1 granted] eqn:Hcl.
  destruct granted; [by eapply producing_ok|]. by eapply claim_ok.
Qed.

Lemma maybeStartAutoReply_ok disabled api g p : runtime_ok p -> runtime_ok (maybeStartAutoReply disabled api g p).
Proof.
  intros Hok. unfold maybeStartAutoReply. destruct (pr_copies p !! g) as [c|] eqn:Hc; [|done].
  destruct api as [h|]; [|done]. destruct (cp_connection c) as [cr|] eqn:Hn; [|done].
  destruct (cp_loop c) as [|] eqn:Hl; [done|].
  destruct (claimRuntime (cr_agentId cr) g p) as [p1 granted] eqn:Hcl.
  destruct (granted && negb disabled) eqn:E; [|by eapply claim_ok].
  apply andb_true_iff in E as [-> _]. by eapply producing_ok.
Qed.

(** ** Every step *)

Section Steps.
Context (disabled : bool) (allow_env : option string) (digest : string -> string).
Context `{Crypto}.

Ltac same := first [apply with_locks_ok | apply with_enrolKeys_ok | apply with_file_ok | apply with_identity_ok | apply with_checks_ok].

Lemma release_lock_ok key p : runtime_ok p -> runtime_ok (release_lock key p).
Proof. intros Hok. unfold release_lock. destruct key; [|done]. destruct (tail _); by same. Qed.

Lemma hand_over_ok key r g p : runtime_ok p -> runtime_ok (hand_over_keys key r g p).
Proof.
  intros Hok. unfold hand_over_keys. destruct r; [|done]. destruct (pr_copies p !! g) as [c|]; [|done].
  assert (runtime_ok (upd g (set_lastKeys None) p)) by (apply upd_quieter; [by split|done]).
  destruct (cp_lastKeys c), key; try done. by same.
Qed.

Lemma begin_ok g p n :
  (forall c, pr_copies p !! g = Some c -> cp_connection c = None) ->
  runtime_ok p -> runtime_ok (upd g (set_connecting (Some n)) p).
Proof.
  intros Hn Hok. apply upd_ok; [|done]. intros c Hc [W1 W2 W3]. split; [|done].
  split; simpl; [done..|]. intros _. by apply Hn.
Qed.

Lemma connect_begin_ok cfg api ws g p :
  (forall c, pr_copies p !! g = Some c -> cp_connection c = None) ->
  runtime_ok p -> runtime_ok (connect_begin digest cfg api ws g p).
Proof.
  intros Hn Hok. unfold connect_begin. destruct (pr_copies p !! g) as [c|] eqn:Hc; [|done].
  rewrite <- Hc in Hn. destruct (enrolmentKey digest cfg); [same; by apply begin_ok|].
  destruct (settle_start _ _) as [[r file]|]; [same|]; by apply begin_ok.
Qed.

Lemma ensureConnected_ok cfg api w g p : runtime_ok p -> runtime_ok (ensureConnected disabled digest cfg api w g p).
Proof.
  intros Hok. unfold ensureConnected. destruct (pr_copies p !! g) as [c|] eqn:Hc; [|done].
  destruct (cp_connection c) as [cr|] eqn:Hn; [by apply maybeStartAutoReply_ok, maybeStartHeartbeat_ok|].
  assert (Hnone : forall c', pr_copies p !! g = Some c' -> cp_connection c' = None) by congruence.
  destruct (cp_connecting c) as [n|] eqn:Hcn; [|by apply connect_begin_ok].
  destruct w as [w|]; [|done]. by apply begin_ok.
Qed.

Lemma connecting_none g p : runtime_ok p -> runtime_ok (upd g (set_connecting None) p).
Proof. apply upd_quieter. by split. Qed.

Lemma adopt_ok at_ loaded n cr g p : runtime_ok p -> runtime_ok (adopt_identity at_ loaded n cr g p).
Proof.
  intros Hok. unfold adopt_identity. destruct loaded as [i|]; [|done].
  destruct (bootstrap_pins _ _) as [i1 changed].
  assert (Hid : forall x q, runtime_ok q -> runtime_ok (upd g (set_identity x) q))
    by (intros x q; apply upd_quieter; by split).
  assert (Hsv : forall j q, runtime_ok q -> runtime_ok (save_identity j q)) by (intros; by same).
  set (p1 := if changed then save_identity i1 p else p).
  assert (Hp1 : runtime_ok p1) by (unfold p1; destruct changed; auto). clearbody p1.
  set (p2 := match cn_key n with Some _ => _ | None => p1 end).
  assert (Hp2 : runtime_ok p2) by (unfold p2; destruct (cn_key n); [by same|done]). clearbody p2.
  destruct (cn_key n ≫= _) as [ks|]; [|by apply Hid].
  destruct (syncPinnedOperatorKeys _ _ _ _) as [i2 changed2]. destruct (default false changed2); auto.
Qed.

(** The copy whose connect goes on has no connection yet. *)
Lemma adopt_connecting at_ loaded n cr g p c :
  pr_copies p !! g = Some c ->
  exists c', pr_copies (adopt_identity at_ loaded n cr g p) !! g = Some c' /\
    cp_connecting c' = cp_connecting c /\ cp_connection c' = cp_connection c.
Proof.
  intros Hc. unfold adopt_identity. destruct loaded as [i|]; [|by exists c].
  destruct (bootstrap_pins _ _) as [i1 changed].
  set (p1 := if changed then save_identity i1 p else p).
  assert (Hp1 : pr_copies p1 !! g = Some c) by (unfold p1; by destruct changed). clearbody p1.
  set (p2 := match cn_key n with Some _ => _ | None => p1 end).
  assert (Hp2 : pr_copies p2 !! g = Some c) by (unfold p2; by destruct (cn_key n)). clearbody p2.
  destruct (cn_key n ≫= _) as [ks|]; [destruct (syncPinnedOperatorKeys _ _ _ _) as [i2 changed2]|].
  - exists (set_identity (Some i2) c). rewrite copies_upd, decide_True by done.
    assert (pr_copies (if default false changed2 then save_identity i2 p2 else p2) !! g = Some c) as -> by by destruct (default false changed2).
    done.
  - exists (set_identity (Some i1) c). by rewrite copies_upd, decide_True, Hp2.
Qed.

Lemma connect_finish_ok at_ g p : runtime_ok p -> runtime_ok (connect_finish disabled at_ g p).
Proof.
  intros Hok. unfold connect_finish. destruct (pr_copies p !! g) as [c|] eqn:Hc; simpl; [|done].
  destruct (cp_connecting c) as [n|] eqn:Hcn; [|done]. destruct (cn_phase n) as [| | | |cr loaded]; try done.
  apply upd_quieter; [intros c'; apply quieter_registrations|].
  apply maybeStartAutoReply_ok, maybeStartHeartbeat_ok.
  pose proof (adopt_ok at_ loaded n cr g p Hok) as Ha.
  destruct (adopt_connecting at_ loaded n cr g p c Hc) as (c1 & Hc1 & Hcn1 & Hno1).
  apply upd_ok; [|done]. intros c' Hc' [W1 W2 W3]. assert (c' = c1) as -> by congruence.
  assert (Hno : cp_connection c1 = None) by (apply W3; congruence). split; [|done].
  split; simpl; [|intros a Hcla|done].
  - intros Hw. destruct (W1 Hw) as (_ & cr' & ? & _). congruence.
  - destruct (W2 _ Hcla) as (cr' & ? & _). congruence.
Qed.

Lemma registration_ok cfg api g p : runtime_ok p -> runtime_ok (register disabled digest cfg api g p).
Proof.
  intros Hok. unfold register. destruct (pr_copies p !! g) as [c|] eqn:Hc; [|done].
  set (p1 := upd g _ p). assert (Hp1 : runtime_ok p1) by (apply upd_quieter; [by split|done]). clearbody p1.
  destruct (pc_relay cfg ==? ""); [done|].
  assert (runtime_ok (ensureConnected disabled digest cfg (Some api) (Some (S (cp_epoch c), api)) g p1))
    by by apply ensureConnected_ok.
  destruct (cp_connection c); [|done].
  apply upd_quieter; [intros c'; apply (quieter_registrations [(S (cp_epoch c), api)])|done].
Qed.

Lemma rebind_end_ok g p : runtime_ok p -> runtime_ok (rebind_end disabled g p).
Proof.
  intros Hok. unfold rebind_end. destruct (pr_copies p !! g) as [c|]; [|done].
  destruct (cp_rebinds c) as [|api rest]; [done|].
  apply upd_quieter; [intros c'; apply quieter_rebind_waiting|]. apply maybeStartAutoReply_ok.
  apply upd_quieter; [by split|done].
Qed.

Lemma unload_ok epoch g p : runtime_ok p -> runtime_ok (unload epoch g p).
Proof.
  intros Hok. unfold unload. destruct (pr_copies p !! g) as [c|]; [|done].
  destruct (cp_registration c) as [[e api]|]; [|by apply shutdown_ok].
  destruct (e =? epoch)%nat; [by apply shutdown_ok|]. destruct (bool_decide _); [done|].
  apply upd_quieter; [|done]. intros c'. eapply quieter_trans; [apply (quieter_rebind_begin api)|by split].
Qed.

Lemma load_ok p : runtime_ok p -> runtime_ok (load p).
Proof.
  intros [Hg Hc Hh]. unfold load. simpl. split; simpl.
  - intros g c. rewrite lookup_insert_Some. intros [[<- <-]|[_ Hx]]; [lia|]. apply Hg in Hx. lia.
  - intros g c. rewrite lookup_insert_Some. intros [[<- <-]|[_ Hx]]; [by split|by eapply Hc].
  - intros a g Ha. rewrite (Hh a g Ha). split.
    + intros (c & Hcp & Hcl). exists c. split; [|done]. rewrite lookup_insert_ne; [done|].
      apply Hg in Hcp. lia.
    + intros (c & Hcp & Hcl). rewrite lookup_insert_Some in Hcp.
      destruct Hcp as [[<- <-]|[_ Hcp]]; [done|by exists c].
Qed.

Lemma proc_step_ok e p : runtime_ok p -> runtime_ok (fst (proc_step disabled allow_env digest e p)).
Proof.
  intros Hok. destruct e as [|cfg api g|cfg g|g|ans g|g|migrated seed g|at_ g|g|epoch g|]; cbn [proc_step fst].
  - by apply load_ok.
  - by apply registration_ok.
  - by apply ensureConnected_ok.
  - unfold enrol_granted. destruct (pr_copies p !! g ≫= _) as [n|]; [|done].
    destruct (cn_phase n), (cn_key n); try done. destruct (_ ==? _); [|done].
    destruct (settle_start _ _) as [[r file]|]; cbn [fst]; [apply release_lock_ok|];
      (apply upd_quieter; [apply quieter_phase|]); [apply hand_over_ok; by same|done].
  - unfold enrol_answered. destruct (pr_copies p !! g) as [c|]; [|done]. destruct (cp_connecting c) as [n|]; [|done].
    destruct (cn_phase n); try done. destruct (enrollOrLoad_finish _ _ _ _) as [[r file] last]. cbn [fst].
    apply release_lock_ok, upd_quieter; [apply quieter_phase|]. apply hand_over_ok, upd_quieter; [by split|]. by same.
  - unfold recheck_done. destruct (pr_copies p !! g ≫= _) as [n|]; [|done]. destruct (cn_phase n); try done.
    apply upd_quieter; [apply quieter_phase|done].
  - unfold connect_settled. destruct (pr_copies p !! g) as [c|]; [|done]. destruct (cp_connecting c) as [n|]; [|done].
    destruct (cn_phase n) as [| | |[cr|e]|]; try done; [|by apply connecting_none].
    destruct (_ && _); [by apply connecting_none|]. destruct (negb migrated); [apply upd_quieter; [apply quieter_phase|done]|].
    destruct (loadOrCreateIdentity _ _ _) as [dir r]. apply upd_quieter; [apply quieter_phase|]. by same.
  - by apply connect_finish_ok.
  - by apply rebind_end_ok.
  - by apply unload_ok.
  - unfold orphan_check. destruct (pr_checks p); [done|]. by same.
Qed.

Lemma start_process_ok file dir : runtime_ok (startProcess file dir).
Proof.
  split; simpl; [intros * Hx; by rewrite lookup_empty in Hx..|].
  intros a g _. rewrite lookup_empty. split; [done|]. intros (c & Hc & _). by rewrite lookup_empty in Hc.
Qed.

Lemma proc_run_ok es p : runtime_ok p -> runtime_ok (fst (proc_run disabled allow_env digest es p)).
Proof.
  revert p. induction es as [|e es IH]; intros p Hok; simpl; [done|].
  pose proof (proc_step_ok e p Hok). destruct (proc_step _ _ _ e p) as [p1 out]. simpl in *.
  specialize (IH p1 H0). by destruct (proc_run _ _ _ es p1).
Qed.
End Steps.
