(* ===== verification/PluginRuntimeProperties.v ===== *)
(** * Properties of the plugin's copies

    Over every interleaving of the modelled steps: one producer per agent, the
    newest copy wins, and a stopped copy stays silent. *)

From S2P Require Import Prelude Json IsoTime JsValues Identity TrustSync IdentityFile PluginRuntime PluginRuntimeSafety.
Import Ascii String.
Open Scope string_scope.
Open Scope Z_scope.

(** ** Relations between a state and the next *)

Section Relations.
(** A property of the copies that changes of the right kind keep: what [Q] relates
    copy by copy, new copies being fresh. *)
Context (Q : Copy -> Copy -> Prop).
Context (Q_refl : forall c, Q c c) (Q_trans : forall c c' c'', Q c c' -> Q c' c'' -> Q c c'').
Context (Q_stopped : forall c, Q c (stopped c)) (Q_claim : forall x c, Q c (set_claimed x c))
  (Q_retire : forall c, Q c (set_retired true c)).

Definition related (p p' : Process) : Prop :=
  pr_locks p' = pr_locks p /\ pr_credentials p' = pr_credentials p /\
  pr_generations p' = pr_generations p /\
  forall g, option_relation Q (fun _ => False) (fun _ => False) (pr_copies p !! g) (pr_copies p' !! g).

Lemma related_refl p : related p p.
Proof. split_and!; [done..|]. intros g. by destruct (pr_copies p !! g); simpl. Qed.

Lemma related_trans p p' p'' : related p p' -> related p' p'' -> related p p''.
Proof.
  intros (L1 & F1 & N1 & R1) (L2 & F2 & N2 & R2). split_and!; [congruence..|]. intros g.
  specialize (R1 g). specialize (R2 g).
  destruct (pr_copies p !! g), (pr_copies p' !! g), (pr_copies p'' !! g); simpl in *; try done. by eapply Q_trans.
Qed.

Lemma related_same p p' :
  pr_locks p' = pr_locks p -> pr_credentials p' = pr_credentials p -> pr_generations p' = pr_generations p ->
  pr_copies p' = pr_copies p -> related p p'.
Proof. intros ? ? ? Hc. split_and!; [done..|]. intros g. rewrite Hc. by destruct (pr_copies p !! g); simpl. Qed.

Lemma related_upd g f p : (forall c, pr_copies p !! g = Some c -> Q c (f c)) -> related p (upd g f p).
Proof.
  intros Hf. split_and!; [done..|]. intros g'. rewrite copies_upd.
  case_decide as E; [subst g'|by destruct (pr_copies p !! g'); simpl].
  destruct (pr_copies p !! g); simpl; auto.
Qed.

Lemma related_shutdown b g p : related p (shutdown b g p).
Proof.
  split_and!.
  - unfold shutdown, releaseAgentRuntime. destruct (pr_copies p !! g); [|done].
    destruct (truthy _); [|done]. by destruct (_ && _), (_ ==? _).
  - unfold shutdown, releaseAgentRuntime. destruct (pr_copies p !! g); [|done].
    destruct (truthy _); [|done]. by destruct (_ && _), (_ ==? _).
  - apply shutdown_generations.
  - intros g'. rewrite shutdown_copies. case_decide as E; [subst g'; destruct (pr_copies p !! g); simpl; auto|].
    by destruct (pr_copies p !! g'); simpl.
Qed.

Lemma related_claim a g p p1 granted : claimRuntime a g p = (p1, granted) -> related p p1.
Proof.
  destruct (pr_copies p !! g) as [c|] eqn:Hc.
  2: { unfold claimRuntime. rewrite Hc. intros [= <- _]. apply related_refl. }
  rewrite (claimRuntime_cases _ _ _ _ Hc). destruct (cp_retired c); [intros [= <- _]; apply related_refl|].
  destruct (_ ==? _); [intros [= <- _]; apply related_refl|].
  assert (Ht : related p (take_over a g p)).
  { unfold take_over. set (p1' := match pr_byAgent p !! a with Some _ => _ | None => p end).
    assert (related p p1') by (unfold p1'; destruct (pr_byAgent p !! a) as [h|]; [destruct (h =? g)%nat|];
      [apply related_refl|apply related_shutdown|apply related_refl]).
    eapply related_trans; [exact H|].
    apply (related_trans _ (with_byAgent (<[a:=g]> (pr_byAgent p1')) p1')); [by apply related_same|].
    by apply related_upd. }
  destruct (pr_byAgent p !! a) as [h|]; [destruct (g <? h)%nat|]; intros [= <- _]; [|done..].
  by apply related_upd.
Qed.

Context (Q_beat : forall c, Q c (set_heartbeat true c)) (Q_loop : forall x c, Q c (set_loop x c))
  (Q_rebinds : forall x c, Q c (set_rebinds x c)).

Lemma related_heartbeat g p : related p (maybeStartHeartbeat g p).
Proof.
  unfold maybeStartHeartbeat. destruct (pr_copies p !! g) as [c|]; [|apply related_refl].
  destruct (cp_connection c); [|apply related_refl]. destruct (cp_heartbeat c); [apply related_refl|].
  destruct (claimRuntime _ g p) as [p1 granted] eqn:E. apply related_claim in E.
  destruct granted; [|done]. eapply related_trans; [exact E|]. by apply related_upd.
Qed.

Lemma related_autoReply disabled api g p : related p (maybeStartAutoReply disabled api g p).
Proof.
  unfold maybeStartAutoReply. destruct (pr_copies p !! g) as [c|]; [|apply related_refl].
  destruct api; [|apply related_refl]. destruct (cp_connection c); [|apply related_refl].
  destruct (cp_loop c); [apply related_refl|].
  destruct (claimRuntime _ g p) as [p1 granted] eqn:E. apply related_claim in E.
  destruct (_ && _); [|done]. eapply related_trans; [exact E|]. by apply related_upd.
Qed.

Lemma Q_rebind_begin api c : Q c (rebind_begin api c).
Proof. unfold rebind_begin. destruct (cp_rebinds c); [destruct (_ ==? _)|]; eauto. Qed.

Lemma Q_rebind_waiting l c : Q c (rebind_waiting l c).
Proof. induction l; simpl; [done|]. destruct (_ ==? _); eauto. Qed.

Lemma Q_registrations ws c : Q c (foldl (fun c w => registration_connected w c) c ws).
Proof.
  revert c. induction ws as [|w ws IH]; intros c; simpl; [done|]. eapply Q_trans; [|apply IH].
  unfold registration_connected. destruct (_ ==? _); [apply Q_rebind_begin|done].
Qed.

Lemma related_rebind_end disabled g p : related p (rebind_end disabled g p).
Proof.
  unfold rebind_end. destruct (pr_copies p !! g) as [c|]; [|apply related_refl].
  destruct (cp_rebinds c) as [|api rest]; [apply related_refl|].
  eapply related_trans; [|apply related_upd; intros; apply Q_rebind_waiting].
  eapply related_trans; [|apply related_autoReply]. by apply related_upd.
Qed.
End Relations.

(** ** Retired copies *)

Definition stays_retired (c c' : Copy) : Prop := cp_retired c = true -> cp_retired c' = true.

Definition keeps_retired (g : nat) (p p' : Process) : Prop :=
  forall c, pr_copies p !! g = Some c -> cp_retired c = true ->
    exists c', pr_copies p' !! g = Some c' /\ cp_retired c' = true.

Lemma keeps_refl g p : keeps_retired g p p.
Proof. intros c Hc Hr. by exists c. Qed.

Lemma keeps_trans g p p' p'' : keeps_retired g p p' -> keeps_retired g p' p'' -> keeps_retired g p p''.
Proof. intros H1 H2 c Hc Hr. destruct (H1 c Hc Hr) as (c' & Hc' & Hr'). by eapply H2. Qed.

Lemma keeps_same g p p' : pr_copies p' = pr_copies p -> keeps_retired g p p'.
Proof. intros Heq c Hc Hr. exists c. by rewrite Heq. Qed.

Lemma keeps_with g p p' p'' : pr_copies p'' = pr_copies p' -> keeps_retired g p p' -> keeps_retired g p p''.
Proof. intros Heq Hk. eapply keeps_trans; [exact Hk|by apply keeps_same]. Qed.

Lemma keeps_upd g g' f p : (forall c, g' = g -> stays_retired c (f c)) -> keeps_retired g p (upd g' f p).
Proof.
  intros Hf c Hc Hr. rewrite copies_upd. case_decide as E; [subst g'|by exists c].
  rewrite Hc. exists (f c). split; [done|]. by apply Hf.
Qed.

Lemma keeps_related g p p' : related stays_retired p p' -> keeps_retired g p p'.
Proof.
  intros (_ & _ & _ & R) c Hc Hr. specialize (R g). rewrite Hc in R.
  destruct (pr_copies p' !! g) as [c'|]; simpl in R; [|done]. exists c'. auto.
Qed.

(** The parts of a process beside its copies. *)
Ltac beside q := apply (keeps_with _ _ q); [reflexivity|].

(** A change of a copy that leaves [cp_retired] alone. *)
Ltac keep := apply keeps_upd; intros ? _; unfold stays_retired; simpl; auto.

#[local] Hint Resolve keeps_refl : core.

Section Retired.
Context (disabled : bool) (allow_env : option string) (digest : string -> string).
Context `{Crypto}.

Lemma keeps_heartbeat g g' p : keeps_retired g p (maybeStartHeartbeat g' p).
Proof. apply keeps_related, related_heartbeat; unfold stays_retired; simpl; auto. Qed.

Lemma keeps_autoReply api g g' p : keeps_retired g p (maybeStartAutoReply disabled api g' p).
Proof. apply keeps_related, related_autoReply; unfold stays_retired; simpl; auto. Qed.

Lemma keeps_begin cfg api ws g g' p : keeps_retired g p (connect_begin digest cfg api ws g' p).
Proof.
  unfold connect_begin. destruct (pr_copies p !! g') as [c|]; [|done].
  destruct (enrolmentKey digest cfg).
  - match goal with |- keeps_retired _ _ (with_locks _ ?q) => beside q end. keep.
  - destruct (settle_start _ _) as [[r file]|];
      [match goal with |- keeps_retired _ _ (with_file _ ?q) => beside q end|]; keep.
Qed.

Lemma keeps_ensure cfg api w g g' p : keeps_retired g p (ensureConnected disabled digest cfg api w g' p).
Proof.
  unfold ensureConnected. destruct (pr_copies p !! g') as [c|]; [|done]. destruct (cp_connection c).
  - eapply keeps_trans; [apply keeps_heartbeat|apply keeps_autoReply].
  - destruct (cp_connecting c); [|apply keeps_begin]. destruct w; [|done]. keep.
Qed.

Lemma keeps_release key g p : keeps_retired g p (release_lock key p).
Proof. unfold release_lock. destruct key; [|done]. destruct (tail _); by apply keeps_same. Qed.

Lemma keeps_hand_over key r g g' p : keeps_retired g p (hand_over_keys key r g' p).
Proof.
  unfold hand_over_keys. destruct r; [|done]. destruct (pr_copies p !! g') as [c|]; [|done].
  destruct (cp_lastKeys c), key; keep.
Qed.

Lemma stays_rebind_begin api c : stays_retired c (rebind_begin api c).
Proof. apply Q_rebind_begin; unfold stays_retired; simpl; auto. Qed.

Lemma stays_registrations ws c : stays_retired c (foldl (fun c w => registration_connected w c) c ws).
Proof. apply Q_registrations; unfold stays_retired; simpl; auto. Qed.

Lemma keeps_adopt at_ loaded n cr g g' p : keeps_retired g p (adopt_identity at_ loaded n cr g' p).
Proof.
  unfold adopt_identity. destruct loaded as [i|]; [|done]. destruct (bootstrap_pins _ _) as [i1 changed].
  set (p1 := if changed then _ else p). assert (pr_copies p1 = pr_copies p) as E1 by (unfold p1; by destruct changed).
  set (p2 := match cn_key n with Some _ => _ | None => p1 end).
  assert (pr_copies p2 = pr_copies p) as E2 by (unfold p2; by destruct (cn_key n)). clearbody p1 p2.
  destruct (cn_key n ≫= _); [destruct (syncPinnedOperatorKeys _ _ _ _) as [i2 changed2]|].
  - eapply keeps_trans; [apply (keeps_same _ _ (if default false changed2 then save_identity i2 p2 else p2)); by destruct (default false changed2)|keep].
  - eapply keeps_trans; [by apply (keeps_same _ _ p2)|keep].
Qed.

(** Only its own registration wakes a retired copy. *)
Lemma step_keeps_retired e g p :
  runtime_ok p -> (forall cfg api, e <> EvRegister cfg api g) ->
  keeps_retired g p (fst (proc_step disabled allow_env digest e p)).
Proof.
  intros Hok Hne. destruct e as [|cfg api g'|cfg g'|g'|ans g'|g'|migrated seed g'|at_ g'|g'|epoch g'|]; cbn [proc_step fst].
  - intros c Hc Hr. exists c. unfold load. simpl. rewrite lookup_insert_ne; [done|].
    apply (ro_generations _ Hok) in Hc. lia.
  - assert (Hg : g' <> g) by (intros ->; by apply (Hne cfg api)). unfold register. destruct (pr_copies p !! g') as [c|]; [|done].
    set (p1 := upd g' _ p). assert (keeps_retired g p p1) by (apply keeps_upd; intros ? E; congruence). clearbody p1.
    destruct (pc_relay cfg ==? ""); [done|]. eapply keeps_trans; [done|].
    destruct (cp_connection c); [|apply keeps_ensure].
    eapply keeps_trans; [apply keeps_ensure|]. apply keeps_upd. intros ? E. congruence.
  - apply keeps_ensure.
  - unfold enrol_granted. destruct (pr_copies p !! g' ≫= _) as [n|]; [|done].
    destruct (cn_phase n), (cn_key n); try done. destruct (_ ==? _); [|done].
    destruct (settle_start _ _) as [[r file]|]; cbn [fst]; [|keep].
    eapply keeps_trans; [|apply keeps_release]. eapply keeps_trans; [|keep].
    eapply keeps_trans; [|apply keeps_hand_over]. by apply (keeps_same _ _ (with_file file p)).
  - unfold enrol_answered. destruct (pr_copies p !! g') as [c|]; [|done]. destruct (cp_connecting c) as [n|]; [|done].
    destruct (cn_phase n); try done. destruct (enrollOrLoad_finish _ _ _ _) as [[r file] last]. cbn [fst].
    eapply keeps_trans; [|apply keeps_release]. eapply keeps_trans; [|keep].
    eapply keeps_trans; [|apply keeps_hand_over]. eapply keeps_trans; [by apply (keeps_same _ _ (with_file file p))|keep].
  - unfold recheck_done. destruct (pr_copies p !! g' ≫= _) as [n|]; [|done]. destruct (cn_phase n); try done. keep.
  - unfold connect_settled. destruct (pr_copies p !! g') as [c|]; [|done]. destruct (cp_connecting c) as [n|]; [|done].
    destruct (cn_phase n) as [| | |[cr|e]|]; try done; [|keep].
    destruct (_ && _); [keep|]. destruct (negb migrated); [keep|].
    destruct (loadOrCreateIdentity _ _ _) as [dir r]. eapply keeps_trans; [by apply (keeps_same _ _ (with_identity dir p))|keep].
  - unfold connect_finish. destruct (pr_copies p !! g' ≫= _) as [n|]; [|done].
    destruct (cn_phase n) as [| | | |cr loaded]; try done.
    eapply keeps_trans; [|apply keeps_upd; intros; apply stays_registrations].
    eapply keeps_trans; [|apply keeps_autoReply]. eapply keeps_trans; [|apply keeps_heartbeat].
    eapply keeps_trans; [apply keeps_adopt|keep].
  - apply keeps_related, related_rebind_end; unfold stays_retired; simpl; auto.
  - unfold unload. destruct (pr_copies p !! g') as [c|]; [|done].
    assert (Hs : keeps_retired g p (shutdown false g' p)) by (apply keeps_related, related_shutdown; unfold stays_retired; simpl; auto).
    destruct (cp_registration c) as [[e api]|]; [|done]. destruct (e =? epoch)%nat; [done|].
    destruct (bool_decide _); [done|]. apply keeps_upd. intros c' _ Hr. by apply (stays_rebind_begin api).
  - unfold orphan_check. destruct (pr_checks p); [done|]. by apply keeps_same.
Qed.
End Retired.

(** ** Taking over *)

Lemma take_over_byAgent a g p : pr_byAgent (take_over a g p) !! a = Some g.
Proof. unfold take_over. simpl. by rewrite lookup_insert_eq. Qed.

Lemma take_over_old a g p h c :
  h <> g -> pr_byAgent p !! a = Some h -> pr_copies p !! h = Some c ->
  pr_copies (take_over a g p) !! h = Some (stopped c).
Proof.
  intros Hne Hb Hc. unfold take_over. rewrite copies_upd, decide_False by done. simpl. rewrite Hb.
  destruct (h =? g)%nat eqn:E; [apply Nat.eqb_eq in E; congruence|].
  by rewrite shutdown_copies, decide_True, Hc.
Qed.

(** A newer copy holds the agent. *)
Definition outranked (p : Process) (a : string) (g : nat) : bool :=
  match pr_byAgent p !! a with Some h => (g <? h)%nat | None => false end.

Lemma claim_free a g p c :
  pr_copies p !! g = Some c -> cp_retired c = false -> cp_claimed c = None ->
  claimRuntime a g p = if outranked p a g then (upd g (set_retired true) p, false) else (take_over a g p, true).
Proof.
  intros Hc Hr Hcl. rewrite (claimRuntime_cases _ _ _ _ Hc), Hr, Hcl. unfold outranked.
  rewrite bool_decide_false by done. by destruct (pr_byAgent p !! a).
Qed.

(** Both producers of a fresh connection: the heartbeat, and the loop if the host
    gave a handle. *)
Lemma start_both disabled api g p c cr :
  pr_copies p !! g = Some c -> cp_connection c = Some cr -> cp_retired c = false -> cp_claimed c = None ->
  cp_heartbeat c = false -> cp_loop c = None ->
  let p' := maybeStartAutoReply disabled api g (maybeStartHeartbeat g p) in
  let a := cr_agentId cr in
  if outranked p a g then p' = upd g (set_retired true) p
  else pr_byAgent p' !! a = Some g /\
    pr_copies p' !! g = Some (set_loop (if disabled then None else api)
                                (set_heartbeat true (set_claimed (Some a) c))) /\
    forall h ch, h <> g -> pr_byAgent p !! a = Some h -> pr_copies p !! h = Some ch ->
      pr_copies p' !! h = Some (stopped ch).
Proof.
  intros Hc Hn Hr Hcl Hh Hl p' a. unfold p', maybeStartHeartbeat. rewrite Hc, Hn, Hh.
  rewrite (claim_free _ _ _ _ Hc Hr Hcl). fold a. destruct (outranked p a g) eqn:Ho.
  - unfold maybeStartAutoReply. rewrite copies_upd, decide_True, Hc by done. simpl. rewrite Hn, Hl.
    destruct api; [|done]. unfold claimRuntime. rewrite copies_upd, decide_True, Hc by done. done.
  - set (p1 := upd g (set_heartbeat true) (take_over a g p)).
    assert (Hc1 : pr_copies p1 !! g = Some (set_heartbeat true (set_claimed (Some a) c))).
    { unfold p1. by rewrite copies_upd, decide_True, (take_over_self a g p c Hc). }
    assert (Hb1 : pr_byAgent p1 !! a = Some g) by apply take_over_byAgent.
    assert (Ho1 : forall h ch, h <> g -> pr_byAgent p !! a = Some h -> pr_copies p !! h = Some ch ->
                    pr_copies p1 !! h = Some (stopped ch)).
    { intros h ch Hne Hb Hch. unfold p1. rewrite copies_upd, decide_False by done. by apply take_over_old. }
    clearbody p1. clear p'. unfold maybeStartAutoReply. rewrite Hc1. simpl. rewrite Hn, Hl.
    destruct api as [h|].
    2: { split_and!; [done| |done]. rewrite Hc1. destruct disabled; simpl; f_equal; rewrite <- Hl; by destruct c. }
    unfold claimRuntime. rewrite Hc1. simpl. rewrite Hr, bool_decide_true by done.
    destruct disabled; simpl.
    + split_and!; [done| |done]. rewrite Hc1. f_equal. rewrite <- Hl. by destruct c.
    + split_and!; [done|by rewrite lookup_alter_eq, Hc1|].
      intros h' ch Hne Hb Hch. rewrite lookup_alter_ne by done. by eapply Ho1.
Qed.

Lemma adopt_same `{Crypto} at_ loaded n cr g p :
  pr_byAgent (adopt_identity at_ loaded n cr g p) = pr_byAgent p /\
  pr_generations (adopt_identity at_ loaded n cr g p) = pr_generations p /\
  forall g' c, pr_copies p !! g' = Some c -> exists i,
    pr_copies (adopt_identity at_ loaded n cr g p) !! g' =
    Some (if decide (g' = g) then set_identity i c else c).
Proof.
  assert (Hid : forall c, c = set_identity (cp_identity c) c) by by intros [].
  unfold adopt_identity. destruct loaded as [i|].
  2: { split_and!; [done..|]. intros g' c Hc. exists (cp_identity c). rewrite Hc. case_decide; [by rewrite <- Hid|done]. }
  destruct (bootstrap_pins _ _) as [i1 changed].
  set (p1 := if changed then save_identity i1 p else p).
  assert (H1 : pr_byAgent p1 = pr_byAgent p /\ pr_generations p1 = pr_generations p /\ pr_copies p1 = pr_copies p)
    by (unfold p1; by destruct changed). clearbody p1.
  set (p2 := match cn_key n with Some _ => _ | None => p1 end).
  assert (H2 : pr_byAgent p2 = pr_byAgent p /\ pr_generations p2 = pr_generations p /\ pr_copies p2 = pr_copies p)
    by (unfold p2; by destruct (cn_key n)). clearbody p2. clear H1 p1.
  assert (Hgoal : forall x q, pr_byAgent q = pr_byAgent p /\ pr_generations q = pr_generations p /\ pr_copies q = pr_copies p ->
    pr_byAgent (upd g (set_identity x) q) = pr_byAgent p /\ pr_generations (upd g (set_identity x) q) = pr_generations p /\
    forall g' c, pr_copies p !! g' = Some c -> exists i, pr_copies (upd g (set_identity x) q) !! g' =
      Some (if decide (g' = g) then set_identity i c else c)).
  { intros x q (Q1 & Q2 & Q3). split_and!; [done..|]. intros g' c Hc. exists x. rewrite copies_upd, Q3.
    case_decide; [subst; by rewrite Hc|done]. }
  destruct (cn_key n ≫= _); [destruct (syncPinnedOperatorKeys _ _ _ _) as [i2 changed2]|]; apply Hgoal; [|done].
  by destruct (default false changed2).
Qed.

Lemma registration_keeps w c :
  let c' := registration_connected w c in
  cp_connection c' = cp_connection c /\ cp_connecting c' = cp_connecting c /\ cp_retired c' = cp_retired c /\
  cp_heartbeat c' = cp_heartbeat c.
Proof.
  unfold registration_connected, rebind_begin. destruct (_ ==? _); [|done].
  destruct (cp_rebinds c); [destruct (_ ==? _)|]; done.
Qed.

Lemma registrations_keep ws c :
  let c' := foldl (fun c w => registration_connected w c) c ws in
  cp_connection c' = cp_connection c /\ cp_connecting c' = cp_connecting c /\ cp_retired c' = cp_retired c /\
  cp_heartbeat c' = cp_heartbeat c /\ (works c = false -> works c' = false).
Proof.
  cbv zeta. cut (let c' := foldl (fun c w => registration_connected w c) c ws in
    cp_connection c' = cp_connection c /\ cp_connecting c' = cp_connecting c /\ cp_retired c' = cp_retired c /\
    cp_heartbeat c' = cp_heartbeat c).
  - intros (? & ? & ? & ?). split_and!; [done..|]. intros Hw.
    apply not_true_is_false. intros E. by rewrite (qu_works _ _ (quieter_registrations ws c) E) in Hw.
  - revert c. induction ws as [|w ws IH]; intros c; [done|]. cbn [foldl].
    destruct (IH (registration_connected w c)) as (-> & -> & -> & ->). apply registration_keeps.
Qed.

(** ** The theorems on producers *)

Section Producers.
Context (disabled : bool) (allow_env : option string) (digest : string -> string).
Context `{Crypto}.

(** The states a host process reaches, from any files. *)
Definition reached (p : Process) : Prop :=
  exists file dir es, p = fst (proc_run disabled allow_env digest es (startProcess file dir)).

Lemma reached_ok p : reached p -> runtime_ok p.
Proof. intros (file & dir & es & ->). apply proc_run_ok, start_process_ok. Qed.

(** Copy [g] beats or polls for agent [a]. *)
Definition produces (p : Process) (g : nat) (a : string) : Prop :=
  exists c cr, pr_copies p !! g = Some c /\ works c = true /\ cp_connection c = Some cr /\ cr_agentId cr = a.

(** C12. One producer per agent: however reloads, registrations, tool calls,
    connects, rebinds and unloads interleave, at most one copy of the plugin beats
    or polls for an agent; the shared registry names it; and it is not one that was
    stopped. *)
Theorem one_producer_per_agent p a g1 g2 :
  reached p -> a <> "" -> produces p g1 a -> produces p g2 a ->
  g1 = g2 /\ pr_byAgent p !! a = Some g1 /\ exists c, pr_copies p !! g1 = Some c /\ cp_retired c = false.
Proof.
  intros Hok%reached_ok Ha (c1 & cr1 & Hc1 & Hw1 & Hn1 & Ha1) (c2 & cr2 & Hc2 & Hw2 & Hn2 & Ha2).
  destruct (co_works _ (ro_copy _ Hok _ _ Hc1) Hw1) as (Hr1 & cr1' & Hn1' & Hcl1).
  destruct (co_works _ (ro_copy _ Hok _ _ Hc2) Hw2) as (_ & cr2' & Hn2' & Hcl2).
  assert (cr1' = cr1) as -> by congruence. assert (cr2' = cr2) as -> by congruence. rewrite Ha1 in Hcl1. rewrite Ha2 in Hcl2.
  assert (pr_byAgent p !! a = Some g1) as H1 by (apply (ro_holder _ Hok _ _ Ha); eauto).
  assert (pr_byAgent p !! a = Some g2) as H2 by (apply (ro_holder _ Hok _ _ Ha); eauto).
  split; [congruence|]. split; [done|]. by exists c1.
Qed.

(** A copy that was stopped stays silent: whatever happens next, except the
    host registering that copy anew, it neither beats nor polls. *)
Theorem retired_copy_stays_silent p e g c :
  reached p -> pr_copies p !! g = Some c -> cp_retired c = true ->
  (forall cfg api, e <> EvRegister cfg api g) ->
  exists c', pr_copies (fst (proc_step disabled allow_env digest e p)) !! g = Some c' /\
    cp_retired c' = true /\ works c' = false.
Proof.
  intros Hok%reached_ok Hc Hr Hne.
  destruct (step_keeps_retired disabled allow_env digest e g p Hok Hne c Hc Hr) as (c' & Hc' & Hr').
  exists c'. split_and!; [done..|]. destruct (works c') eqn:Hw; [|done].
  pose proof (proc_step_ok disabled allow_env digest e p Hok) as Hok'.
  destruct (co_works _ (ro_copy _ Hok' _ _ Hc') Hw). congruence.
Qed.

(** The newest copy takes over: when a copy that was not stopped finishes
    connecting, either a newer copy already has the agent, and it stands down for
    good without touching anything; or it beats, polls if the host gave it a
    handle and no other registration wants the loop, and the copy that had the agent is stopped.
    The newest copy of the process always takes over. *)
Theorem newest_copy_takes_over p at_ g c n cr loaded :
  reached p -> pr_copies p !! g = Some c -> cp_connecting c = Some n -> cn_phase n = Bootstrapping cr loaded ->
  cp_retired c = false -> cr_agentId cr <> "" ->
  let p' := connect_finish disabled at_ g p in
  exists c', pr_copies p' !! g = Some c' /\ cp_connection c' = Some cr /\ cp_connecting c' = None /\
  if outranked p (cr_agentId cr) g
  then (g < pr_generations p)%nat /\ cp_retired c' = true /\ works c' = false /\ pr_byAgent p' = pr_byAgent p
  else cp_heartbeat c' = true /\ cp_retired c' = false /\ pr_byAgent p' !! cr_agentId cr = Some g /\
    (cn_waiters n = [] -> cp_loop c' = if disabled then None else cn_api n) /\
    forall h ch, h <> g -> pr_byAgent p !! cr_agentId cr = Some h -> pr_copies p !! h = Some ch ->
      exists ch', pr_copies p' !! h = Some ch' /\ cp_retired ch' = true /\ works ch' = false.
Proof.
  intros Hok%reached_ok Hc Hcn Hph Hr Ha. cbv zeta. unfold connect_finish. rewrite Hc. simpl. rewrite Hcn, Hph.
  destruct (ro_copy _ Hok _ _ Hc) as [W1 W2 W3].
  assert (Hno : cp_connection c = None) by (apply W3; congruence).
  assert (Hcl : cp_claimed c = None).
  { destruct (cp_claimed c) as [a|] eqn:E; [|done]. destruct (W2 _ eq_refl) as (? & ? & _). congruence. }
  assert (Hw : works c = false).
  { destruct (works c) eqn:E; [|done]. destruct (W1 eq_refl) as (_ & ? & ? & _). congruence. }
  unfold works in Hw. apply orb_false_iff in Hw as [Hh Hl]. apply negb_false_iff, bool_decide_eq_true in Hl.
  destruct (adopt_same at_ loaded n cr g p) as (A1 & A2 & A3). destruct (A3 g c Hc) as (i & Hci).
  rewrite decide_True in Hci by done.
  set (q := adopt_identity at_ loaded n cr g p) in *. set (p1 := upd g _ q).
  set (c1 := set_connecting None (set_connection (Some cr) (set_identity i c))).
  assert (Hc1 : pr_copies p1 !! g = Some c1) by (unfold p1; by rewrite copies_upd, decide_True, Hci).
  assert (Ho : outranked p1 (cr_agentId cr) g = outranked p (cr_agentId cr) g) by (unfold outranked; change (pr_byAgent p1) with (pr_byAgent q); by rewrite A1).
  pose proof (start_both disabled (cn_api n) g p1 c1 cr Hc1 eq_refl Hr Hcl Hh Hl) as Hstart. cbv zeta in Hstart.
  rewrite Ho in Hstart. set (p2 := maybeStartAutoReply _ _ _ _) in *.
  set (fin := fun c0 => foldl (fun c w => registration_connected w c) c0 (cn_waiters n)).
  assert (Hfin : forall c0, cp_connection (fin c0) = cp_connection c0 /\ cp_connecting (fin c0) = cp_connecting c0 /\
    cp_retired (fin c0) = cp_retired c0 /\ cp_heartbeat (fin c0) = cp_heartbeat c0 /\
    (works c0 = false -> works (fin c0) = false)) by exact (registrations_keep (cn_waiters n)).
  destruct (outranked p (cr_agentId cr) g) eqn:Hout.
  - exists (fin (set_retired true c1)). destruct (Hfin (set_retired true c1)) as (F1 & F2 & F3 & F4 & F5).
    rewrite F1, F2, F3, copies_upd, decide_True, Hstart, copies_upd, decide_True, Hc1 by done.
    split_and!; [done..| |done| |].
    + unfold outranked in Hout. destruct (pr_byAgent p !! cr_agentId cr) as [h|] eqn:Hb; [|done].
      apply Nat.ltb_lt in Hout. apply (ro_holder _ Hok _ _ Ha) in Hb as (ch & Hch & _).
      apply (ro_generations _ Hok) in Hch. lia.
    + apply F5. unfold works. simpl. by rewrite Hh, Hl.
    + exact A1.
  - destruct Hstart as (S1 & S2 & S3).
    set (c2 := set_loop (if disabled then None else cn_api n) (set_heartbeat true (set_claimed (Some (cr_agentId cr)) c1))) in *.
    exists (fin c2). destruct (Hfin c2) as (F1 & F2 & F3 & F4 & F5).
    rewrite F1, F2, F3, F4, copies_upd, decide_True, S2 by done.
    split_and!; [done..|exact S1| |].
    + intros Hws. unfold fin. by rewrite Hws.
    + intros h ch Hne Hb Hch. exists (stopped ch). rewrite copies_upd, decide_False by done.
      split_and!; [|done..]. apply (S3 h ch Hne); [by rewrite <- A1 in Hb|].
      destruct (A3 h ch Hch) as (i' & Hi'). rewrite decide_False in Hi' by done.
      unfold p1. by rewrite copies_upd, decide_False.
Qed.
End Producers.

(** ** Examples *)

(** A relay, a token, and no stored credentials: the first copy enrols, a reload
    brings a second copy, which finds the credentials in the file. *)
Definition demo_config : PluginConfig := MkPluginConfig "https://relay" (Some "fleet") (Some "token") None None None false.

Definition enrols (g : nat) : list ProcEvent :=
  [EvLoad; EvRegister demo_config 7 g; EvGranted g; EvAnswered (EnrolAccepted "bee" "secret" None true) g;
   EvSettled true "seed" g].

Definition demo_run (es : list ProcEvent) : Process :=
  fst (proc_run (H := toy_crypto) false None id es (startProcess FileAbsent (MkIdentityDir FileAbsent []))).

Definition first_works : Process := demo_run (enrols 1 ++ [EvIdentity "now" 1])%list.
Definition second_ready : Process :=
  demo_run (enrols 1 ++ [EvIdentity "now" 1; EvLoad; EvRegister demo_config 8 2; EvGranted 2; EvSettled true "seed" 2])%list.

Lemma demo_reached es : reached (H := toy_crypto) false None id (demo_run es).
Proof. by exists FileAbsent, (MkIdentityDir FileAbsent []), es. Qed.

Lemma one_producer_per_agent_witness :
  produces first_works 1 "bee" /\ pr_byAgent first_works !! "bee" = Some 1%nat.
Proof.
  assert (Hp : produces first_works 1 "bee") by (eexists _, _; split_and!; vm_compute; reflexivity).
  split; [exact Hp|].
  exact (proj1 (proj2 (one_producer_per_agent (H := toy_crypto) false None id first_works "bee" 1 1
    (demo_reached _) ltac:(discriminate) Hp Hp))).
Defined.

Lemma newest_copy_takes_over_witness :
  let p' := connect_finish (H := toy_crypto) false "now" 2 second_ready in
  pr_byAgent p' !! "bee" = Some 2%nat /\ exists c, pr_copies p' !! 1%nat = Some c /\ works c = false.
Proof.
  cbv zeta.
  destruct (newest_copy_takes_over (H := toy_crypto) false None id second_ready "now" 2
    (default freshCopy (pr_copies second_ready !! 2%nat))
    (default (MkConnecting demo_config None None false false Queued []) (pr_copies second_ready !! 2%nat ≫= cp_connecting))
    (MkEkhoCredentials "bee" "secret" (Some "https://relay") (Some "fleet"))
    (Some (MkEkhoIdentity "seed" ∅ None ∅ ∅))) as (c' & Hc' & _ & _ & H2);
    [apply demo_reached|vm_compute; reflexivity..|vm_compute; discriminate|].
  assert (Ho : outranked second_ready "bee" 2 = false) by (vm_compute; reflexivity). cbn [cr_agentId] in H2. rewrite Ho in H2.
  destruct H2 as (_ & _ & Hb & _ & Hold). split; [exact Hb|].
  destruct (Hold 1%nat (default freshCopy (pr_copies second_ready !! 1%nat))) as (ch & Hch & _ & Hw);
    [discriminate|vm_compute; reflexivity..|]. exists ch. by split.
Defined.

Lemma retired_copy_stays_silent_witness :
  let p := connect_finish (H := toy_crypto) false "now" 2 second_ready in
  exists c', pr_copies (fst (proc_step (H := toy_crypto) false None id (EvTool demo_config 1) p)) !! 1%nat = Some c' /\
    cp_retired c' = true /\ works c' = false.
Proof.
  cbv zeta.
  apply (retired_copy_stays_silent (H := toy_crypto) false None id _ (EvTool demo_config 1) 1
    (default freshCopy (pr_copies (connect_finish (H := toy_crypto) false "now" 2 second_ready) !! 1%nat)));
    [|vm_compute; reflexivity..|discriminate].
  replace (connect_finish _ _ _ _) with
    (demo_run (enrols 1 ++ [EvIdentity "now" 1; EvLoad; EvRegister demo_config 8 2; EvGranted 2;
       EvSettled true "seed" 2; EvIdentity "now" 2])%list) by (vm_compute; reflexivity).
  apply demo_reached.
Defined.
