(* ===== verification/PluginEnrolment.v ===== *)
(** * The enrolment lock of the plugin

    [runEnrolmentExclusive] of [runtime-registry.ts]: the copies of a process line
    up to enrol.  The invariants of the line, then: the one-use token is never sent
    while an earlier use awaits its answer, nor once an enrolment is on disk; and the
    line always drains. *)

From S2P Require Import Prelude Json IsoTime JsValues Identity TrustSync IdentityFile PluginRuntime PluginRuntimeSafety PluginRuntimeProperties.
Import Ascii String.
Open Scope string_scope.
Open Scope Z_scope.

(** Where copy [g] stands, if it is connecting: its key and phase. *)
Definition stage (p : Process) (g : nat) : option (option string * Phase) :=
  (fun n => (cn_key n, cn_phase n)) <$> (pr_copies p !! g ≫= cp_connecting).

(** The line for key [k]. *)
Definition line (p : Process) (k : string) : list nat := default [] (pr_locks p !! k).

Definition in_line (ph : Phase) : bool := match ph with Queued | Posting => true | _ => false end.

(** Neither waiting for the lock nor holding it. *)
Definition aside (s : option (option string * Phase)) : Prop := forall k ph, s = Some (k, ph) -> in_line ph = false.

Definition have_file (p : Process) : Prop := storedCredentialsState (pr_credentials p) <> StoredAbsent.

Record line_ok (p : Process) : Prop := {
  lo_line k g : g ∈ line p k -> exists ph, stage p g = Some (Some k, ph) /\ in_line ph = true;
  lo_nodup k : NoDup (line p k);
  lo_queued k g : stage p g = Some (Some k, Queued) -> g ∈ line p k;
  lo_posting k g : stage p g = Some (Some k, Posting) -> head (line p k) = Some g;
  lo_key ph g : stage p g = Some (None, ph) -> in_line ph = false
}.

(** ** The requests with one key, as seen from outside *)

(** The credentials of an accepted enrolment are on disk.  They are not when
    [saveCredentials] throws. *)
Definition recorded (ans : EnrolAnswer) : bool :=
  match ans with EnrolAccepted _ _ _ saved => saved | _ => false end.

Inductive TokenState := TokenFree | TokenAsked (g : nat) | TokenSpent.

(** A request with the key is sent only when none awaits its answer and no accepted
    one is recorded; an answer goes to who asked. *)
Definition token_next (k : string) (st : TokenState) (e : Effect) : option TokenState :=
  match e with
  | RequestSent k' g =>
      if k' ==? k then match st with TokenFree => Some (TokenAsked g) | _ => None end else Some st
  | RequestAnswered k' g ans =>
      if k' ==? k then
        match st with
        | TokenAsked g' => if g' ==? g then Some (if recorded ans then TokenSpent else TokenFree) else None
        | _ => None
        end
      else Some st
  end.

Fixpoint token_run (k : string) (st : TokenState) (out : list Effect) : option TokenState :=
  match out with
  | [] => Some st
  | e :: out' => token_next k st e ≫= fun st' => token_run k st' out'
  end.

Lemma token_run_app k st out1 out2 :
  token_run k st (out1 ++ out2)%list = token_run k st out1 ≫= fun st' => token_run k st' out2.
Proof. revert st. induction out1 as [|e out1 IH]; intros st; simpl; [done|]. destruct (token_next k st e); simpl; auto. Qed.

(** Once an acceptance is recorded no request follows. *)
Lemma token_spent k g out1 out2 : token_run k TokenSpent (out1 ++ RequestSent k g :: out2)%list = None.
Proof.
  induction out1 as [|e out1 IH]; simpl; [by rewrite bool_decide_true|].
  destruct e as [k' g'|k' g' ans]; simpl; by case_bool_decide.
Qed.

Lemma sent_after_unrecorded k st st' out1 g ans out2 g' out3 :
  token_run k st (out1 ++ RequestAnswered k g ans :: out2 ++ RequestSent k g' :: out3)%list = Some st' ->
  recorded ans = false.
Proof.
  rewrite token_run_app. intros (st1 & _ & Hrest)%bind_Some. simpl in Hrest. rewrite bool_decide_true in Hrest by done.
  destruct st1 as [|g1|]; [done| |done]. destruct (g1 ==? g); [simpl in Hrest|done].
  destruct (recorded ans); [|done]. by rewrite token_spent in Hrest.
Qed.

Definition token_ok (p : Process) (k : string) (st : TokenState) : Prop :=
  match st with
  | TokenFree => forall g, stage p g <> Some (Some k, Posting)
  | TokenAsked g => stage p g = Some (Some k, Posting)
  | TokenSpent => have_file p /\ forall g, stage p g <> Some (Some k, Posting)
  end.

(** ** Steps that leave the line alone *)

Definition keeps_line (p p' : Process) : Prop :=
  pr_locks p' = pr_locks p /\ (have_file p -> have_file p') /\
  forall g, stage p' g = stage p g \/ (aside (stage p g) /\ aside (stage p' g)).

Lemma aside_refl p : keeps_line p p.
Proof. split_and!; auto. Qed.

Lemma aside_trans p p' p'' : keeps_line p p' -> keeps_line p' p'' -> keeps_line p p''.
Proof.
  intros (L1 & F1 & S1) (L2 & F2 & S2). split_and!; [congruence|auto|].
  intros g. destruct (S1 g) as [E1|[? ?]], (S2 g) as [E2|[? ?]]; rewrite ?E1, ?E2 in *; auto.
Qed.

(** The same connects, lines and file. *)
Lemma aside_same p p' :
  pr_locks p' = pr_locks p -> pr_credentials p' = pr_credentials p -> pr_copies p' = pr_copies p -> keeps_line p p'.
Proof. intros HL HF HC. split_and!; [done|by unfold have_file; rewrite HF|]. intros g. left. unfold stage. by rewrite HC. Qed.

Lemma moves_related p p' : related (fun c c' => cp_connecting c' = cp_connecting c) p p' -> keeps_line p p'.
Proof.
  intros (HL & HF & _ & R). split_and!; [done|by unfold have_file; rewrite HF|].
  intros g. left. specialize (R g). unfold stage.
  destruct (pr_copies p !! g), (pr_copies p' !! g); simpl in *; try done. by rewrite R.
Qed.

Lemma aside_at s k ph : s = Some (k, ph) -> in_line ph = true -> aside s -> False.
Proof. intros -> Hin Ha. specialize (Ha k ph eq_refl). congruence. Qed.

Lemma moves_at p p' g k ph : keeps_line p p' -> in_line ph = true -> stage p' g = Some (k, ph) <-> stage p g = Some (k, ph).
Proof.
  intros (_ & _ & S) Hin. destruct (S g) as [->|[A1 A2]]; [done|].
  split; intros E; exfalso; [exact (aside_at _ _ _ E Hin A2)|exact (aside_at _ _ _ E Hin A1)].
Qed.

Lemma moves_line_ok p p' : keeps_line p p' -> line_ok p -> line_ok p'.
Proof.
  intros Hm [H1 H2 H3 H4 H5]. pose proof (fun g k ph => moves_at p p' g k ph Hm) as Hat.
  assert (HL : forall k, line p' k = line p k) by (intros k; unfold line; destruct Hm as (-> & _); done).
  split.
  - intros k g Hg. rewrite HL in Hg. destruct (H1 k g Hg) as (ph & Hs & Hin). exists ph. split; [by apply Hat|done].
  - intros k. by rewrite HL.
  - intros k g Hs. rewrite HL. apply H3. by apply (Hat _ _ Queued).
  - intros k g Hs. rewrite HL. apply H4. by apply (Hat _ _ Posting).
  - intros ph g Hs. destruct (in_line ph) eqn:E; [|done]. rewrite <- E. apply (H5 ph g). by apply (Hat _ _ ph).
Qed.

Lemma moves_token_ok p p' k st : keeps_line p p' -> token_ok p k st -> token_ok p' k st.
Proof.
  intros Hm. pose proof (fun g => moves_at p p' g (Some k) Posting Hm eq_refl) as Hat. destruct Hm as (_ & HF & _).
  destruct st; simpl.
  - intros Hno g' E. by apply Hat, Hno in E.
  - intros E. by apply Hat.
  - intros [Hf Hno]. split; [auto|]. intros g E. by apply Hat, Hno in E.
Qed.

(** Change of one copy outside the line. *)
Lemma stage_upd f p g g' :
  stage (upd g f p) g' =
  if decide (g' = g) then (fun n => (cn_key n, cn_phase n)) <$> ((f <$> pr_copies p !! g) ≫= cp_connecting) else stage p g'.
Proof. unfold stage. rewrite copies_upd. by case_decide. Qed.

Lemma moves_upd f p g : aside (stage p g) -> aside (stage (upd g f p) g) -> keeps_line p (upd g f p).
Proof.
  intros H1 H2. split_and!; [done..|]. intros g'. destruct (decide (g' = g)) as [->|Hne]; [by right|left].
  by rewrite stage_upd, decide_False.
Qed.

Lemma moves_keep f p g : (forall c, cp_connecting (f c) = cp_connecting c) -> keeps_line p (upd g f p).
Proof. intros Hf. apply moves_related, related_upd; auto. Qed.

Lemma stage_phase ph p g :
  stage (upd g (set_copy_phase ph) p) g = (fun s => (fst s, ph)) <$> stage p g.
Proof. rewrite stage_upd, decide_True by done. unfold stage. destruct (pr_copies p !! g) as [c|]; [|done]. simpl. by destruct (cp_connecting c). Qed.

Lemma aside_none : aside None.
Proof. by intros k ph. Qed.

Lemma aside_some k ph : in_line ph = false -> aside (Some (k, ph)).
Proof. intros ? k' ph' [= <- <-]. done. Qed.

Create HintDb enrolment.
#[export] Hint Resolve aside_refl aside_none aside_some : enrolment.

(** ** The steps *)

Section Steps.
Context (disabled : bool) (allow_env : option string) (digest : string -> string).
Context `{Crypto}.

Lemma moves_ready api g p : keeps_line p (maybeStartAutoReply disabled api g (maybeStartHeartbeat g p)).
Proof.
  eapply aside_trans; apply moves_related; [apply related_heartbeat|apply related_autoReply]; auto; congruence.
Qed.

Lemma saved_not_absent c : storedCredentialsState (saveCredentialsFile c) <> StoredAbsent.
Proof. unfold saveCredentialsFile, storedCredentialsState. by repeat case_match. Qed.

(** Without a request the file stays, or gets what the config says. *)
Lemma settle_start_file cfg file r file' :
  settle_start (enrollOrLoad_start cfg file) file = Some (r, file') ->
  storedCredentialsState file <> StoredAbsent -> storedCredentialsState file' <> StoredAbsent.
Proof.
  unfold enrollOrLoad_start. destruct (explicit_credentials cfg) as [[a s]|].
  - intros [= _ <-] _. apply saved_not_absent.
  - destruct (storedCredentialsState file) eqn:E; [|intros [= _ <-]; congruence..]. done.
Qed.

(** A request is made only with no file, and only by a config that has a token. *)
Lemma settle_start_request cfg file :
  settle_start (enrollOrLoad_start cfg file) file = None ->
  storedCredentialsState file = StoredAbsent /\ enrolmentKey digest cfg <> None.
Proof.
  unfold enrollOrLoad_start, enrolmentKey. destruct (explicit_credentials cfg) as [[a s]|]; [done|].
  destruct (storedCredentialsState file); [|done..].
  destruct (truthy (pc_token cfg)), (truthy (pc_fleet cfg)); done.
Qed.

Lemma stage_locks x p : stage (with_locks x p) = stage p.
Proof. done. Qed.

(** The copy at the head leaves the line for [k]. *)
Lemma leave_ok k g p p' :
  line_ok p -> (exists ph, stage p g = Some (Some k, ph)) -> head (line p k) = Some g ->
  line p' k = tail (line p k) -> (forall k', k' <> k -> line p' k' = line p k') ->
  aside (stage p' g) -> (forall g', g' <> g -> stage p' g' = stage p g') -> line_ok p'.
Proof.
  intros [H1 H2 H3 H4 H5] (ph0 & Hs0) Hh Ht Hother Ha Hsame.
  destruct (line p k) as [|g0 rest] eqn:El; simpl in *; [done|]. injection Hh as ->.
  pose proof (H2 k) as Hnd. rewrite El, NoDup_cons in Hnd. destruct Hnd as [Hni Hnd].
  assert (Hk : forall k', g ∈ line p k' -> k' = k).
  { intros k' (ph & Hs & _)%H1. congruence. }
  assert (Hne : forall k' g', g' ∈ line p' k' -> g' <> g /\ g' ∈ line p k').
  { intros k' g' Hin. destruct (decide (k' = k)) as [->|Hk'].
    - rewrite Ht in Hin. split; [congruence|]. rewrite El. set_solver.
    - rewrite Hother in Hin by done. split; [|done]. intros ->. by apply Hk in Hin. }
  assert (Hback : forall s g', s = stage p' g' -> (exists k' ph, s = Some (k', ph) /\ in_line ph = true) -> g' <> g).
  { intros s g' -> (k' & ph & E & Hin) ->. exact (aside_at _ _ _ E Hin Ha). }
  split.
  - intros k' g' Hin. destruct (Hne _ _ Hin) as [Hg' Hin']. rewrite Hsame by done. by apply H1.
  - intros k'. destruct (decide (k' = k)) as [->|Hk']; [by rewrite Ht|by rewrite Hother].
  - intros k' g' Hq. assert (Hg' : g' <> g) by (apply (Hback _ _ eq_refl); eauto).
    rewrite Hsame in Hq by done. apply H3 in Hq.
    destruct (decide (k' = k)) as [->|Hk']; [rewrite Ht; rewrite El in Hq; set_solver|by rewrite Hother].
  - intros k' g' Hq. assert (Hg' : g' <> g) by (apply (Hback _ _ eq_refl); eauto).
    rewrite Hsame in Hq by done. apply H4 in Hq.
    destruct (decide (k' = k)) as [->|Hk']; [rewrite El in Hq; simpl in Hq; congruence|by rewrite Hother].
  - intros ph g' Hs. destruct (in_line ph) eqn:Hin; [|done].
    assert (Hg' : g' <> g) by (apply (Hback _ _ eq_refl); eauto). rewrite Hsame in Hs by done. by rewrite (H5 _ _ Hs) in Hin.
Qed.

Lemma line_release k p k' :
  line (release_lock (Some k) p) k' = if decide (k' = k) then tail (line p k) else line p k'.
Proof.
  unfold release_lock, line. destruct (tail (default [] (pr_locks p !! k))) as [|g rest] eqn:E; simpl.
  - case_decide as Hk; [subst; by rewrite lookup_delete_eq|by rewrite lookup_delete_ne].
  - case_decide as Hk; [subst; by rewrite lookup_insert_eq|by rewrite lookup_insert_ne].
Qed.

Lemma stage_release k p : stage (release_lock k p) = stage p.
Proof. unfold release_lock. destruct k as [k|]; [|done]. by destruct (tail _). Qed.

Lemma file_release k p : pr_credentials (release_lock k p) = pr_credentials p.
Proof. unfold release_lock. destruct k as [k|]; [|done]. by destruct (tail _). Qed.

Lemma hand_over_same key r g p :
  let q := hand_over_keys key r g p in
  pr_locks q = pr_locks p /\ pr_credentials q = pr_credentials p /\ forall g', stage q g' = stage p g'.
Proof.
  cbv zeta. unfold hand_over_keys. destruct r; [|done]. destruct (pr_copies p !! g) as [c|] eqn:Hc; [|done].
  destruct (cp_lastKeys c), key; (split_and!; [done..|]); intros g';
    transitivity (stage (upd g (set_lastKeys None) p) g'); [done| |done| |done| |done| ];
    rewrite stage_upd; (case_decide as E; [subst; unfold stage; by rewrite Hc|done]).
Qed.

Lemma moves_phase_after r : in_line (phase_after r) = false.
Proof. unfold phase_after. by repeat case_match. Qed.

(** The copy that held the lock settles and leaves. *)
Lemma leaves_ok key r g p p0 n :
  line_ok p -> pr_copies p !! g ≫= cp_connecting = Some n -> cn_key n = Some key ->
  head (line p key) = Some g ->
  pr_locks p0 = pr_locks p -> (forall g', stage p0 g' = stage p g') ->
  let p' := release_lock (Some key) (upd g (set_copy_phase (phase_after r)) (hand_over_keys (Some key) r g p0)) in
  line_ok p' /\ line p' key = tail (line p key) /\ (forall k, k <> key -> line p' k = line p k) /\
  pr_credentials p' = pr_credentials p0 /\ stage p' g = Some (Some key, phase_after r) /\
  forall g', g' <> g -> stage p' g' = stage p g'.
Proof.
  intros Hok Hn Hk Hh Hl0 Hs0. cbv zeta. set (q := hand_over_keys _ _ _ _).
  destruct (hand_over_same (Some key) r g p0) as (Q1 & Q2 & Q3). fold q in Q1, Q2, Q3.
  rewrite Hl0 in Q1. setoid_rewrite Hs0 in Q3. clearbody q.
  assert (Hs : stage p g = Some (Some key, cn_phase n)) by (unfold stage; rewrite Hn; simpl; by rewrite Hk).
  set (p' := release_lock _ _).
  assert (Hl : forall k, line p' k = if decide (k = key) then tail (line p key) else line p k).
  { intros k. unfold p'. rewrite line_release. unfold line. simpl. by rewrite Q1. }
  assert (Hsg : stage p' g = Some (Some key, phase_after r)) by (unfold p'; rewrite stage_release, stage_phase, Q3, Hs; done).
  assert (Hso : forall g', g' <> g -> stage p' g' = stage p g')
    by (intros; unfold p'; rewrite stage_release, stage_upd, decide_False; done).
  split_and!.
  - apply (leave_ok key g p); [done|eauto|done|by rewrite Hl, decide_True|intros; by rewrite Hl, decide_False| |done].
    rewrite Hsg. apply aside_some, moves_phase_after.
  - by rewrite Hl, decide_True.
  - intros. by rewrite Hl, decide_False.
  - unfold p'. rewrite file_release. by simpl.
  - done.
  - done.
Qed.

(** ** Every step *)

Definition well (p p' : Process) (out : list Effect) : Prop :=
  line_ok p' /\ forall k st, token_ok p k st -> exists st', token_run k st out = Some st' /\ token_ok p' k st'.

Lemma well_moves p p' : line_ok p -> keeps_line p p' -> well p p' [].
Proof.
  intros Hok Hm. split; [by eapply moves_line_ok|]. intros k st Ht. exists st. split; [done|by eapply moves_token_ok].
Qed.

(** A copy that was not connecting joins the line. *)
Lemma enqueue_ok key g p n :
  line_ok p -> stage p g = None -> is_Some (pr_copies p !! g) -> cn_key n = Some key -> cn_phase n = Queued ->
  well p (with_locks (<[key := (line p key ++ [g])%list]> (pr_locks p)) (upd g (set_connecting (Some n)) p)) [].
Proof.
  intros [H1 H2 H3 H4 H5] Hs [c Hc] Hk Hph. set (p' := with_locks _ _).
  assert (Hl : forall k, line p' k = if decide (k = key) then (line p key ++ [g])%list else line p k).
  { intros k. unfold p', line. simpl. case_decide; [subst; by rewrite lookup_insert_eq|by rewrite lookup_insert_ne]. }
  assert (Hg : forall g', stage p' g' = if decide (g' = g) then Some (Some key, Queued) else stage p g').
  { intros g'. change (stage p' g') with (stage (upd g (set_connecting (Some n)) p) g').
    rewrite stage_upd, Hc. simpl. by rewrite Hk, Hph. }
  assert (Hni : forall k, g ∉ line p k) by (intros k (ph & E & _)%H1; congruence).
  assert (Hfile : have_file p -> have_file p') by done. clearbody p'.
  assert (Hpost : forall k g', stage p' g' = Some (k, Posting) <-> stage p g' = Some (k, Posting)).
  { intros k g'. rewrite Hg. case_decide; [subst|done]. split; congruence. }
  split.
  - split.
    + intros k g'. rewrite Hl, Hg. case_decide as Ek; [subst k; rewrite elem_of_app, list_elem_of_singleton|].
      * intros [Hin| ->]; [|rewrite decide_True by done; by exists Queued].
        rewrite decide_False; [by apply H1|]. intros ->. by apply (Hni key).
      * intros Hin. rewrite decide_False; [by apply H1|]. intros ->. by apply (Hni k).
    + intros k. rewrite Hl. case_decide as Ek; [|done]. apply NoDup_app. split_and!; [done| |apply NoDup_singleton].
      intros g' Hin ->%list_elem_of_singleton. by apply (Hni key).
    + intros k g'. rewrite Hl, Hg. case_decide as Eg.
      * subst g'. intros [= <-]. rewrite decide_True by done. set_solver.
      * intros Hq%H3. case_decide; [subst; set_solver|done].
    + intros k g' Hq%Hpost%H4. rewrite Hl. case_decide; [subst k|done]. by destruct (line p key).
    + intros ph g'. rewrite Hg. case_decide; [done|apply H5].
  - intros k st Ht. exists st. split; [done|]. destruct st; simpl in *.
    + intros g' E. by apply Hpost, Ht in E.
    + by apply Hpost.
    + destruct Ht as [Hf Ht]. split; [auto|]. intros g' E. by apply Hpost, Ht in E.
Qed.

Lemma well_ensure cfg api w g p : line_ok p -> well p (ensureConnected disabled digest cfg api w g p) [].
Proof.
  intros Hok. unfold ensureConnected. destruct (pr_copies p !! g) as [c|] eqn:Hc; [|by apply well_moves; auto with enrolment].
  destruct (cp_connection c); [apply well_moves; [done|apply moves_ready]|].
  destruct (cp_connecting c) as [n|] eqn:Hn.
  - apply well_moves; [done|]. destruct w; [|auto with enrolment]. split_and!; [done..|]. intros g'. left.
    rewrite stage_upd. case_decide; [subst|done]. unfold stage. rewrite Hc. simpl. by rewrite Hn.
  - assert (Hs : stage p g = None) by (unfold stage; rewrite Hc; simpl; by rewrite Hn).
    unfold connect_begin. rewrite Hc. destruct (enrolmentKey digest cfg) as [key|] eqn:Hkey.
    + by apply enqueue_ok.
    + destruct (settle_start _ _) as [[r file]|] eqn:Hst.
      2: { by apply settle_start_request in Hst as [_ ?]. }
      apply well_moves; [done|]. split_and!; [done| |].
      * intros Hf. exact (settle_start_file _ _ _ _ Hst Hf).
      * intros g'. change (stage (with_file file ?q) g') with (stage q g'). rewrite stage_upd.
        case_decide; [subst; right|by left]. rewrite Hs, Hc. simpl. auto with enrolment.
Qed.

Lemma posting_unique p k g g' :
  line_ok p -> stage p g = Some (Some k, Posting) -> stage p g' = Some (Some k, Posting) -> g' = g.
Proof. intros Hok H1%(lo_posting _ Hok) H2%(lo_posting _ Hok). congruence. Qed.

Lemma stage_connecting p g n : pr_copies p !! g ≫= cp_connecting = Some n -> stage p g = Some (cn_key n, cn_phase n).
Proof. intros Hn. unfold stage. by rewrite Hn. Qed.

(** Its turn comes: it asks, having found no file. *)
Lemma request_ok key g p n :
  line_ok p -> pr_copies p !! g ≫= cp_connecting = Some n -> cn_key n = Some key -> cn_phase n = Queued ->
  head (line p key) = Some g -> ~ have_file p ->
  well p (upd g (set_copy_phase Posting) p) [RequestSent key g].
Proof.
  intros Hok Hn Hk Hph Hh Hf. pose proof (stage_connecting _ _ _ Hn) as Hs. rewrite Hk, Hph in Hs.
  set (p' := upd g _ p).
  assert (Hg : forall g', stage p' g' = if decide (g' = g) then Some (Some key, Posting) else stage p g').
  { intros g'. case_decide; [subst; unfold p'; by rewrite stage_phase, Hs|unfold p'; by rewrite stage_upd, decide_False]. }
  assert (Hl : forall k, line p' k = line p k) by done. assert (Hff : have_file p' <-> have_file p) by done. clearbody p'.
  split; [destruct Hok as [H1 H2 H3 H4 H5]; split|].
  - intros k g'. rewrite Hl, Hg. intros Hin. case_decide; [subst g'|by apply H1].
    destruct (H1 k g Hin) as (ph & E & _). assert (k = key) as -> by congruence. by exists Posting.
  - intros k. by rewrite Hl.
  - intros k g'. rewrite Hg, Hl. case_decide; [done|apply H3].
  - intros k g'. rewrite Hg, Hl. case_decide; [intros [= <-]; by subst|apply H4].
  - intros ph g'. rewrite Hg. case_decide; [done|apply H5].
  - intros k st Ht. simpl. case_bool_decide as Ek.
    + subst k. destruct st as [|g0|]; simpl in *.
      * exists (TokenAsked g). split; [done|]. simpl. by rewrite Hg, decide_True.
      * exfalso. pose proof (lo_posting _ Hok _ _ Ht). congruence.
      * destruct Ht. done.
    + exists st. split; [done|]. assert (Hp : forall g', stage p' g' = Some (Some k, Posting) <-> stage p g' = Some (Some k, Posting)).
      { intros g'. rewrite Hg. case_decide; [subst|done]. rewrite Hs. split; congruence. }
      destruct st; simpl in *; [|by apply Hp|destruct Ht; split; [by apply Hff|]]; intros g' E; by apply Hp, Ht in E || by apply Hp, H1 in E.
Qed.

(** The holder of the lock leaves, with the credentials or without. *)
Lemma leave_well key r g p p0 n out ans :
  line_ok p -> pr_copies p !! g ≫= cp_connecting = Some n -> cn_key n = Some key ->
  head (line p key) = Some g ->
  pr_locks p0 = pr_locks p -> (forall g', stage p0 g' = stage p g') ->
  (have_file p -> have_file p0) -> (recorded ans = true -> have_file p0) ->
  (out = [] /\ cn_phase n = Queued \/ out = [RequestAnswered key g ans] /\ cn_phase n = Posting) ->
  well p (release_lock (Some key) (upd g (set_copy_phase (phase_after r)) (hand_over_keys (Some key) r g p0))) out.
Proof.
  intros Hok Hn Hk Hh Hl0 Hs0 Hf Hokf Hout. pose proof (leaves_ok key r g p p0 n Hok Hn Hk Hh Hl0 Hs0) as Hlv. cbv zeta in Hlv.
  set (p' := release_lock _ _) in *. destruct Hlv as (Hok' & _ & _ & Hcr & Hsg & Hso).
  assert (Hf' : have_file p' <-> have_file p0) by (unfold have_file; by rewrite Hcr). clearbody p'.
  split; [done|]. intros k st Ht. pose proof (stage_connecting _ _ _ Hn) as Hs. rewrite Hk in Hs.
  assert (Hback : forall g', stage p' g' = Some (Some k, Posting) -> g' <> g /\ stage p g' = Some (Some k, Posting)).
  { intros g' E. destruct (decide (g' = g)) as [->|Hne]; [|split; [done|by rewrite <- Hso]].
    rewrite Hsg in E. injection E as _ E. pose proof (moves_phase_after r) as Hin. by rewrite E in Hin. }
  assert (Hnone : (forall g', stage p g' = Some (Some k, Posting) -> g' = g) -> forall g', stage p' g' <> Some (Some k, Posting)).
  { intros Hu g' E. destruct (Hback g' E) as [Hne E']. by apply Hu in E'. }
  destruct Hout as [[-> Hph]|[-> Hph]]; rewrite Hph in Hs; simpl.
  - exists st. split; [done|]. destruct st as [|g0|]; simpl in *.
    + apply Hnone. intros g' E. by apply Ht in E.
    + rewrite Hso; [done|]. intros ->. congruence.
    + destruct Ht as [Hp Ht]. split; [tauto|]. apply Hnone. intros g' E. by apply Ht in E.
  - case_bool_decide as Ek.
    + subst k. destruct st as [|g0|]; simpl in *; [by apply Ht in Hs| |by destruct Ht as [_ Ht]; apply Ht in Hs].
      rewrite bool_decide_true by exact (posting_unique p key g g0 Hok Hs Ht).
      pose proof (fun g' => posting_unique p key g g' Hok Hs) as Hu.
      destruct (recorded ans); (eexists; split; [done|]); simpl; [split; [tauto|]|]; by apply Hnone.
    + exists st. split; [done|]. destruct st as [|g0|]; simpl in *.
      * apply Hnone. intros g' E. by apply Ht in E.
      * rewrite Hso; [done|]. intros ->. congruence.
      * destruct Ht as [Hp Ht]. split; [tauto|]. apply Hnone. intros g' E. by apply Ht in E.
Qed.

Lemma well_granted g p :
  line_ok p -> let '(p', out) := enrol_granted g p in well p p' out.
Proof.
  intros Hok. assert (Hid : well p p []) by (apply well_moves; auto with enrolment).
  unfold enrol_granted. destruct (pr_copies p !! g ≫= cp_connecting) as [n|] eqn:Hn; [|done].
  destruct (cn_phase n) eqn:Hph; try done. destruct (cn_key n) as [key|] eqn:Hk; [|done].
  case_bool_decide as Hh; [|done]. change (head (line p key) = Some g) in Hh.
  destruct (settle_start _ _) as [[r file]|] eqn:Hst.
  - apply (leave_well key r g p (with_file file p) n [] EnrolUnanswered); try done; [|by left].
    exact (settle_start_file _ _ _ _ Hst).
  - apply settle_start_request in Hst as [Hst _]. apply (request_ok key g p n); try done. intros Hf. by apply Hf.
Qed.

Lemma finish_file cfg ans file last r file' last' :
  enrollOrLoad_finish cfg ans file last = (r, file', last') ->
  (storedCredentialsState file <> StoredAbsent -> storedCredentialsState file' <> StoredAbsent) /\
  (recorded ans = true -> storedCredentialsState file' <> StoredAbsent).
Proof.
  unfold enrollOrLoad_finish. destruct ans as [agent secret keys [|]| |]; intros [= _ <- _]; simpl; split; try done;
    intros _; apply saved_not_absent.
Qed.

Lemma well_answered ans g p :
  line_ok p -> let '(p', out) := enrol_answered ans g p in well p p' out.
Proof.
  intros Hok. assert (Hid : well p p []) by (apply well_moves; auto with enrolment).
  unfold enrol_answered. destruct (pr_copies p !! g) as [c|] eqn:Hc; [|done].
  destruct (cp_connecting c) as [n|] eqn:Hcn; [|done]. destruct (cn_phase n) eqn:Hph; try done.
  destruct (enrollOrLoad_finish _ _ _ _) as [[r file] last] eqn:Hfin. apply finish_file in Hfin as [Hf1 Hf2].
  assert (Hn : pr_copies p !! g ≫= cp_connecting = Some n) by (by rewrite Hc).
  pose proof (stage_connecting _ _ _ Hn) as Hs. rewrite Hph in Hs.
  destruct (cn_key n) as [key|] eqn:Hk; [|by pose proof (lo_key _ Hok _ _ Hs)].
  apply (leave_well key r g p (upd g (set_lastKeys last) (with_file file p)) n _ ans); try done; [| |by right].
  - by apply (lo_posting _ Hok).
  - intros g'. rewrite stage_upd. case_decide; [subst|done]. unfold stage. simpl. by rewrite Hc.
Qed.

(** A phase outside the line gives way to another, or the connect ends. *)
Lemma moves_settle f g p :
  aside (stage p g) ->
  (forall c, cp_connecting (f c) = None \/ exists ph, in_line ph = false /\ cp_connecting (f c) = set_phase ph <$> cp_connecting c) ->
  keeps_line p (upd g f p).
Proof.
  intros Ha Hf. apply moves_upd; [done|]. rewrite stage_upd, decide_True by done.
  destruct (pr_copies p !! g) as [c|]; simpl; [|auto with enrolment].
  destruct (Hf c) as [->|(ph & Hin & ->)]; [auto with enrolment|]. by destruct (cp_connecting c); simpl; auto with enrolment.
Qed.

Lemma aside_stage p g n ph :
  pr_copies p !! g ≫= cp_connecting = Some n -> cn_phase n = ph -> in_line ph = false -> aside (stage p g).
Proof. intros Hn <- Hin. rewrite (stage_connecting _ _ _ Hn). auto with enrolment. Qed.

Lemma moves_adopt at_ loaded n cr g p : keeps_line p (adopt_identity at_ loaded n cr g p).
Proof.
  assert (Hgoal : forall x q, pr_locks q = pr_locks p -> pr_credentials q = pr_credentials p -> pr_copies q = pr_copies p ->
            keeps_line p (upd g (set_identity x) q)).
  { intros x q H1 H2 H3. eapply aside_trans; [by apply aside_same|by apply moves_keep]. }
  unfold adopt_identity. destruct loaded as [i|]; [|auto with enrolment].
  destruct (bootstrap_pins _ _) as [i1 changed].
  destruct (cn_key n); simpl; [destruct (_ !! _); [destruct (syncPinnedOperatorKeys _ _ _ _) as [i2 changed2]|]|];
    apply Hgoal; by repeat case_match.
Qed.

Lemma moves_finish at_ g p : keeps_line p (connect_finish disabled at_ g p).
Proof.
  unfold connect_finish. destruct (pr_copies p !! g ≫= cp_connecting) as [n|] eqn:Hn; [|auto with enrolment].
  destruct (cn_phase n) as [| | | |cr loaded] eqn:Hph; auto with enrolment.
  pose proof (aside_stage _ _ _ _ Hn Hph eq_refl) as Ha.
  eapply aside_trans; [|apply moves_keep; intros c; exact (proj1 (proj2 (registrations_keep (cn_waiters n) c)))].
  eapply aside_trans; [|apply moves_ready]. eapply aside_trans; [apply moves_adopt|].
  apply moves_settle; [|by left].
  destruct (moves_adopt at_ loaded n cr g p) as (_ & _ & Hs). by destruct (Hs g) as [->|[_ ?]].
Qed.

Lemma well_step e p :
  runtime_ok p -> line_ok p ->
  let '(p', out) := proc_step disabled allow_env digest e p in well p p' out.
Proof.
  intros Hrt Hok. destruct e as [|cfg api g|cfg g|g|ans g|g|migrated seed g|at_ g|g|epoch g|]; cbn [proc_step];
    [apply well_moves; [done|]| | | | |apply well_moves; [done|]..].
  - split_and!; [done..|]. intros g. left. unfold stage, load. simpl.
    destruct (decide (g = S (pr_generations p))) as [->|Hne]; [|by rewrite lookup_insert_ne].
    rewrite lookup_insert_eq. destruct (pr_copies p !! S (pr_generations p)) as [c|] eqn:E; [|done].
    apply (ro_generations _ Hrt) in E. lia.
  - unfold register. destruct (pr_copies p !! g) as [c|] eqn:Hc; [|by apply well_moves; auto with enrolment].
    set (p1 := upd g _ p). assert (Hm : keeps_line p p1) by by apply moves_keep.
    destruct (_ ==? _); [by apply well_moves|].
    pose proof (well_ensure cfg (Some api) (Some (S (cp_epoch c), api)) g p1 (moves_line_ok _ _ Hm Hok)) as [Hok2 Ht2].
    set (p2 := ensureConnected _ _ _ _ _ _ _) in *.
    assert (Hm2 : keeps_line p2 (match cp_connection c with Some _ => upd g (registration_connected (S (cp_epoch c), api)) p2 | None => p2 end)).
    { destruct (cp_connection c); [|auto with enrolment]. apply moves_keep. intros c'.
      exact (proj1 (proj2 (registration_keeps _ c'))). }
    split; [by eapply moves_line_ok|]. intros k st Ht.
    destruct (Ht2 k st (moves_token_ok _ _ _ _ Hm Ht)) as (st' & Hst' & Ht'). exists st'.
    split; [done|by eapply moves_token_ok].
  - by apply well_ensure.
  - by apply well_granted.
  - by apply well_answered.
  - unfold recheck_done. destruct (pr_copies p !! g ≫= cp_connecting) as [n|] eqn:Hn; [|auto with enrolment].
    destruct (cn_phase n) as [| |e| |] eqn:Hph; auto with enrolment.
    apply moves_settle; [by eapply aside_stage|]. intros c. right. eexists. split; [|reflexivity]. done.
  - unfold connect_settled. destruct (pr_copies p !! g) as [c|] eqn:Hc; [|auto with enrolment].
    destruct (cp_connecting c) as [n|] eqn:Hcn; [|auto with enrolment].
    assert (Hn : pr_copies p !! g ≫= cp_connecting = Some n) by (by rewrite Hc).
    destruct (cn_phase n) as [| | |[cr|e]|] eqn:Hph; auto with enrolment.
    all: pose proof (aside_stage _ _ _ _ Hn Hph eq_refl) as Ha.
    2: { apply moves_settle; [done|by left]. }
    destruct (_ && _); [apply moves_settle; [done|by left]|].
    destruct (negb migrated); [apply moves_settle; [done|]; intros c'; right; eexists; split; [|reflexivity]; done|].
    destruct (loadOrCreateIdentity _ _ _) as [dir r]. eapply aside_trans; [by apply (aside_same _ (with_identity dir p))|].
    apply moves_settle; [done|]. intros c'. right. eexists. split; [|reflexivity]. done.
  - apply moves_finish.
  - apply moves_related, related_rebind_end; auto; congruence.
  - unfold unload. destruct (pr_copies p !! g) as [c|]; [|auto with enrolment].
    assert (Hs : keeps_line p (shutdown false g p)) by (apply moves_related, related_shutdown; auto).
    destruct (cp_registration c) as [[e api]|]; [|done]. destruct (e =? epoch)%nat; [done|].
    destruct (bool_decide _); [auto with enrolment|]. apply moves_keep. intros c'. simpl. unfold rebind_begin. by repeat case_match.
  - unfold orphan_check. destruct (pr_checks p); [auto with enrolment|]. by apply aside_same.
Qed.

Lemma well_run es p :
  runtime_ok p -> line_ok p ->
  let '(p', out) := proc_run disabled allow_env digest es p in well p p' out.
Proof.
  revert p. induction es as [|e es IH]; intros p Hrt Hok; simpl; [by apply well_moves; auto with enrolment|].
  pose proof (proc_step_ok disabled allow_env digest e p Hrt) as Hrt1. pose proof (well_step e p Hrt Hok) as Hw.
  destruct (proc_step _ _ _ e p) as [p1 out1]. destruct Hw as [Hok1 Ht1]. specialize (IH p1 Hrt1 Hok1).
  destruct (proc_run _ _ _ es p1) as [p2 out2]. destruct IH as [Hok2 Ht2]. split; [done|]. intros k st Ht.
  destruct (Ht1 k st Ht) as (st1 & E1 & Ht'). destruct (Ht2 k st1 Ht') as (st2 & E2 & Ht''). exists st2.
  rewrite token_run_app, E1. done.
Qed.

Lemma proc_run_app es1 es2 p :
  fst (proc_run disabled allow_env digest (es1 ++ es2) p) =
  fst (proc_run disabled allow_env digest es2 (fst (proc_run disabled allow_env digest es1 p))).
Proof.
  revert p. induction es1 as [|e es1 IH]; intros p; simpl; [done|].
  destruct (proc_step _ _ _ e p) as [p1 out1]. specialize (IH p1).
  destruct (proc_run _ _ _ (es1 ++ es2) p1) as [p2 out2], (proc_run _ _ _ es1 p1) as [p3 out3]. done.
Qed.

Lemma start_line_ok file dir : line_ok (startProcess file dir).
Proof.
  split; unfold line, stage; simpl; intros *; rewrite ?lookup_empty; simpl; try done; [set_solver|constructor].
Qed.

(** ** A turn of the line *)

Record took_turn (k : string) (g : nat) (p p' : Process) : Prop := {
  tt_ok : line_ok p';
  tt_line : line p' k = tail (line p k);
  tt_other k' : k' <> k -> line p' k' = line p k';
  tt_done : exists r, stage p' g = Some (Some k, phase_after r);
  tt_same g' : g' <> g -> stage p' g' = stage p g'
}.

(** The two things that can happen at the head of the line: its copy is given the
    lock, its request is answered. *)
Definition turn (ans : nat -> EnrolAnswer) (g : nat) : list ProcEvent := [EvGranted g; EvAnswered (ans g) g].

Lemma answered_turn ans g p k :
  line_ok p -> stage p g = Some (Some k, Posting) -> took_turn k g p (fst (enrol_answered ans g p)).
Proof.
  intros Hok Hs. pose proof (lo_posting _ Hok _ _ Hs) as Hh. unfold stage in Hs. unfold enrol_answered.
  destruct (pr_copies p !! g) as [c|] eqn:Hc; [|done]. simpl in Hs.
  destruct (cp_connecting c) as [n|] eqn:Hcn; [|done]. injection Hs as Hk Hph. rewrite Hph, Hk.
  destruct (enrollOrLoad_finish _ _ _ _) as [[r file] last]. cbn [fst].
  assert (Hn : pr_copies p !! g ≫= cp_connecting = Some n) by (by rewrite Hc).
  destruct (leaves_ok k r g p (upd g (set_lastKeys last) (with_file file p)) n Hok Hn Hk Hh eq_refl) as (L1 & L2 & L3 & _ & L5 & L6).
  - intros g'. rewrite stage_upd. case_decide; [subst|done]. unfold stage. simpl. by rewrite Hc.
  - split; eauto.
Qed.

Lemma answered_idle ans g p s : stage p g = s -> (forall k, s <> Some (k, Posting)) -> fst (enrol_answered ans g p) = p.
Proof.
  unfold stage, enrol_answered. destruct (pr_copies p !! g) as [c|]; [|done]. simpl.
  destruct (cp_connecting c) as [n|]; [|done]. simpl. intros <- Hne. destruct (cn_phase n); try done. by destruct (Hne (cn_key n)).
Qed.

Lemma granted_turn g p k rest :
  line_ok p -> line p k = g :: rest ->
  let p' := fst (enrol_granted g p) in
  took_turn k g p p' \/
  (line_ok p' /\ pr_locks p' = pr_locks p /\ stage p' g = Some (Some k, Posting) /\ forall g', g' <> g -> stage p' g' = stage p g').
Proof.
  intros Hok Hl. cbv zeta. destruct (lo_line _ Hok k g ltac:(rewrite Hl; set_solver)) as (ph & Hs & Hin).
  pose proof (well_granted g p Hok) as Hw. unfold enrol_granted in *.
  destruct (pr_copies p !! g ≫= cp_connecting) as [n|] eqn:Hn; [|unfold stage in Hs; by rewrite Hn in Hs].
  pose proof (stage_connecting _ _ _ Hn) as Hs'. rewrite Hs in Hs'. injection Hs' as Hk Hph. rewrite <- Hph, <- Hk in *.
  destruct ph; try done; [|right; by split_and!].
  change (default [] (pr_locks p !! k)) with (line p k) in *. rewrite Hl, bool_decide_true in * by done.
  destruct (settle_start _ _) as [[r file]|]; cbn [fst].
  - left. destruct (leaves_ok k r g p (with_file file p) n Hok Hn (eq_sym Hk) ltac:(by rewrite Hl) eq_refl (fun _ => eq_refl))
      as (L1 & L2 & L3 & _ & L5 & L6). split; eauto.
  - right. destruct Hw as [Hw _]. split_and!; [done|done|by rewrite stage_phase, Hs|].
    intros g' Hne. by rewrite stage_upd, decide_False.
Qed.

Lemma turn_ok ans g p k rest :
  line_ok p -> line p k = g :: rest ->
  took_turn k g p (fst (proc_run disabled allow_env digest (turn ans g) p)).
Proof.
  intros Hok Hl. simpl. pose proof (granted_turn g p k rest Hok Hl) as Hg. cbv zeta in Hg.
  destruct (enrol_granted g p) as [p1 out1]. cbn [fst] in Hg.
  pose proof (fun Hs => answered_turn (ans g) g p1 k (proj1 Hs) (proj2 Hs)) as Ha.
  pose proof (fun s => answered_idle (ans g) g p1 s) as Hi.
  destruct (enrol_answered (ans g) g p1) as [p2 out2]. cbn [fst] in *.
  destruct Hg as [[T1 T2 T3 [r T4] T5]|(G1 & G2 & G3 & G4)].
  - rewrite (Hi _ T4); [by split; eauto|]. intros k' [= _ E]. pose proof (moves_phase_after r) as Hin. by rewrite E in Hin.
  - destruct (Ha (conj G1 G3)) as [T1 T2 T3 T4 T5]. unfold line in *. rewrite G2 in *. split; eauto.
    intros g' Hne. rewrite T5, G4; done.
Qed.

Lemma line_drains l ans p k :
  line_ok p -> line p k = l ->
  let p' := fst (proc_run disabled allow_env digest (l ≫= turn ans) p) in
  line p' k = [] /\ (forall k', k' <> k -> line p' k' = line p k') /\
  (forall g, g ∈ l -> exists r, stage p' g = Some (Some k, phase_after r)) /\
  forall g, g ∉ l -> stage p' g = stage p g.
Proof.
  revert p. induction l as [|g l IH]; intros p Hok Hl; cbv zeta.
  { simpl. split_and!; [done..|set_solver|done]. }
  pose proof (lo_nodup _ Hok k) as Hnd. rewrite Hl, NoDup_cons in Hnd. destruct Hnd as [Hni Hnd].
  pose proof (turn_ok ans g p k l Hok Hl) as [T1 T2 T3 [r T4] T5]. rewrite Hl in T2. simpl in T2.
  specialize (IH (fst (proc_run disabled allow_env digest (turn ans g) p)) T1 T2).
  change ((g :: l) ≫= turn ans) with (turn ans g ++ (l ≫= turn ans))%list. cbv zeta in IH.
  rewrite proc_run_app. set (p1 := fst (proc_run _ _ _ (turn ans g) p)) in *. destruct IH as (I1 & I2 & I3 & I4).
  split_and!; [done| | |].
  - intros k' Hk'. by rewrite I2, T3.
  - intros g' [->|Hin]%elem_of_cons; [|by apply I3]. exists r. by rewrite I4.
  - intros g' Hin. rewrite I4, T5; set_solver.
Qed.
End Steps.

(** ** The theorems *)

Section Theorems.
Context (disabled : bool) (allow_env : option string) (digest : string -> string).
Context `{Crypto}.

Lemma reached_line_ok p : reached disabled allow_env digest p -> line_ok p.
Proof.
  intros (file & dir & es & ->).
  pose proof (well_run disabled allow_env digest es _ (start_process_ok file dir) (start_line_ok file dir)) as Hw.
  destruct (proc_run _ _ _ es _). apply Hw.
Qed.

(** C13. Once enrolled and recorded, never again. However the copies of a host
    process interleave, and whatever the relay answers, a request with a given
    relay, fleet and token is sent only when no earlier one is still in flight and
    no earlier answer was an acceptance whose credentials reached the disk; each
    answer goes to the copy that asked.  An acceptance whose credentials could not
    be written is no obstacle: the spent token is then sent again
    ([spent_token_sent_again]). *)
Theorem enrolment_token_used_once file dir es k :
  let out := snd (proc_run disabled allow_env digest es (startProcess file dir)) in
  (exists st, token_run k TokenFree out = Some st) /\
  (forall out1 g ans out2 g' out3,
     out = (out1 ++ RequestAnswered k g ans :: out2 ++ RequestSent k g' :: out3)%list -> recorded ans = false).
Proof.
  assert (Hrun : exists st, token_run k TokenFree (snd (proc_run disabled allow_env digest es (startProcess file dir))) = Some st).
  2:{ split; [exact Hrun|]. destruct Hrun as [st Hst]. intros out1 g ans out2 g' out3 E. rewrite E in Hst.
      by apply sent_after_unrecorded in Hst. }
  pose proof (well_run disabled allow_env digest es _ (start_process_ok file dir) (start_line_ok file dir)) as Hw.
  destruct (proc_run _ _ _ es _) as [p out]. destruct Hw as [_ Ht].
  destruct (Ht k TokenFree) as (st & Hst & _); [|by exists st].
  intros g. unfold stage. simpl. by rewrite lookup_empty.
Qed.

(** The enrolment line always drains: from any state, giving each copy in line
    its turn (the lock, then an answer, a refusal or the deadline) empties it; every
    copy in it has its outcome, no copy waits for the lock afterwards, and the
    lines for other keys are as they were. *)
Theorem enrolment_line_drains p k ans :
  reached disabled allow_env digest p ->
  let p' := fst (proc_run disabled allow_env digest (line p k ≫= turn ans) p) in
  line p' k = [] /\ (forall k', k' <> k -> line p' k' = line p k') /\
  (forall g, g ∈ line p k -> exists r, stage p' g = Some (Some k, phase_after r)) /\
  forall g, stage p' g <> Some (Some k, Queued) /\ stage p' g <> Some (Some k, Posting).
Proof.
  intros Hr. pose proof (reached_line_ok p Hr) as Hok. cbv zeta.
  pose proof (line_drains disabled allow_env digest (line p k) ans p k Hok eq_refl) as (D1 & D2 & D3 & D4). cbv zeta in *.
  split_and!; [done..|]. intros g. assert (Hin : forall ph, in_line ph = true -> stage (fst (proc_run disabled allow_env digest (line p k ≫= turn ans) p)) g <> Some (Some k, ph)).
  { intros ph Hph. destruct (decide (g ∈ line p k)) as [Hg|Hg].
    - destruct (D3 g Hg) as [r ->]. intros [= E]. pose proof (moves_phase_after r) as Ha. congruence.
    - rewrite (D4 g Hg). intros E. apply Hg. destruct ph; try done; [by apply (lo_queued _ Hok)|].
      apply (lo_posting _ Hok) in E. destruct (line p k); [done|]. simpl in E. set_solver. }
  split; by apply Hin.
Qed.

(** The keys named by [operatorPubkey]. *)
Definition configured (operatorPubkey : option string) : list string := omap entry_key (split_comma (default "" operatorPubkey)).

Lemma entry_key_truthy raw pub : entry_key raw = Some pub -> truthy (Some pub) = Some pub.
Proof.
  unfold entry_key. cbv zeta. generalize (match index 0 ":" (trim raw) with Some i => trim (substring (S i) (String.length (trim raw)) (trim raw)) | None => trim raw end).
  intros x. simpl. destruct (x ==? "") eqn:E; [done|]. intros [= ->]. by rewrite E.
Qed.

Lemma pin_configured_spec i changed raw :
  let '(i', changed') := pin_configured (i, changed) raw in
  id_revoked i' = id_revoked i /\ id_seedHex i' = id_seedHex i /\ (changed' = false -> changed = false /\ i' = i) /\
  forall kid, own (id_pinned i') kid =
    match entry_key raw with
    | Some pub => if keyId (fromB64url pub) ==? kid
                  then match own (id_revoked i) kid with Some _ => None | None => Some pub end
                  else own (id_pinned i) kid
    | None => own (id_pinned i) kid
    end.
Proof.
  unfold pin_configured. destruct (entry_key raw) as [pub|] eqn:He; [|by split_and!].
  apply entry_key_truthy in He. set (kid := keyId _). clearbody kid.
  destruct (own (id_revoked i) kid) as [r|] eqn:Hr.
  - case_bool_decide as Ho; (split_and!; [done..|]); intros kid'; case_bool_decide as E; try done; subst; simpl.
    + by rewrite Hr.
    + rewrite Hr. unfold own. by rewrite lookup_delete_eq.
    + unfold own. by rewrite lookup_delete_ne.
  - case_bool_decide as Ho; (split_and!; [done..|]); intros kid'; case_bool_decide as E; try done; subst; simpl.
    + rewrite Hr. unfold own. by rewrite Ho.
    + rewrite Hr. unfold own. by rewrite lookup_insert_eq.
    + unfold own. by rewrite lookup_insert_ne.
Qed.

(** What the ledger and the configured keys, the last first, say of a key id. *)
Fixpoint pin_wanted (i : EkhoIdentity) (pubs : list string) (kid : string) : option string :=
  match pubs with
  | [] => own (id_pinned i) kid
  | pub :: pubs' =>
      if keyId (fromB64url pub) ==? kid
      then match own (id_revoked i) kid with Some _ => None | None => Some pub end
      else pin_wanted i pubs' kid
  end.

Lemma bootstrap_spec raws i changed :
  let '(i', changed') := fold_left pin_configured raws (i, changed) in
  id_revoked i' = id_revoked i /\ id_seedHex i' = id_seedHex i /\ (changed' = false -> changed = false /\ i' = i) /\
  forall kid, own (id_pinned i') kid = pin_wanted i (reverse (omap entry_key raws)) kid.
Proof.
  induction raws as [|raw raws IH] using rev_ind; [by split_and!|].
  rewrite fold_left_app. simpl. destruct (fold_left pin_configured raws (i, changed)) as [i1 changed1].
  destruct IH as (I1 & I2 & I3 & I4). pose proof (pin_configured_spec i1 changed1 raw) as Hs.
  destruct (pin_configured (i1, changed1) raw) as [i2 changed2]. destruct Hs as (S1 & S2 & S3 & S4).
  split_and!; [congruence|congruence| |].
  - intros Hc. destruct (S3 Hc) as [Hc1 ->]. by apply I3.
  - intros kid. rewrite S4, I1, I4, omap_app. simpl.
    destruct (entry_key raw); simpl; [by rewrite reverse_app|by rewrite app_nil_r].
Qed.

(** The configured operator keys: a key id ends up pinned to the last
    configured key that has it, unless the ledger says it is revoked, which no
    configuration overrides (a revoked one is unpinned); every other pin, the
    ledger and the seed stay; and when nothing was changed nothing is. *)
Theorem configured_keys_pinned i operatorPubkey :
  let '(i', changed) := bootstrap_pins i operatorPubkey in
  id_revoked i' = id_revoked i /\ id_seedHex i' = id_seedHex i /\ (changed = false -> i' = i) /\
  forall kid,
    own (id_pinned i') kid = pin_wanted i (reverse (configured operatorPubkey)) kid /\
    (is_Some (own (id_revoked i) kid) -> is_Some (own (id_pinned i') kid) -> own (id_pinned i') kid = own (id_pinned i) kid /\
       forall pub, pub ∈ configured operatorPubkey -> keyId (fromB64url pub) <> kid).
Proof.
  unfold bootstrap_pins, configured. pose proof (bootstrap_spec (split_comma (default "" operatorPubkey)) i false) as Hb.
  destruct (fold_left _ _ _) as [i' changed]. destruct Hb as (B1 & B2 & B3 & B4).
  split_and!; [done..|by intros [_ ?]%B3|]. intros kid. split; [apply B4|]. intros [r Hr]. rewrite B4.
  set (pubs := omap entry_key _). clearbody pubs.
  setoid_rewrite <- elem_of_reverse. induction (reverse pubs) as [|pub l IH]; simpl; [intros _; split; [done|set_solver]|].
  case_bool_decide as E; [rewrite Hr; by intros [? ?]|]. intros Hp. destruct (IH Hp) as [-> IH2].
  split; [done|]. intros pub' [->|Hin]%elem_of_cons; auto.
Qed.
End Theorems.

(** Two copies in line; the first is refused, the second enrols. *)
Definition two_queued : Process :=
  demo_run [EvLoad; EvRegister demo_config 7 1; EvLoad; EvRegister demo_config 8 2; EvGranted 1].

Definition demo_key : string := default "" (enrolmentKey id demo_config).

Lemma enrolment_line_drains_witness :
  line two_queued demo_key = [1; 2]%nat /\
  exists p', line p' demo_key = [] /\ exists r, stage p' 2 = Some (Some demo_key, phase_after r).
Proof.
  set (ans := fun g : nat => if (g =? 1)%nat then EnrolRefused 500 else EnrolAccepted "bee" "s" None true).
  assert (Hl : line two_queued demo_key = [1; 2]%nat) by (vm_compute; reflexivity). split; [exact Hl|].
  destruct (enrolment_line_drains (H := toy_crypto) false None id two_queued demo_key ans (demo_reached _)) as (H1 & _ & H3 & _).
  eexists. split; [exact H1|]. apply (H3 2%nat). rewrite Hl. apply list_elem_of_In. simpl. tauto.
Defined.

(** The second copy finds the first one's credentials: one request in all. *)
Example second_copy_reuses_the_file :
  snd (proc_run (H := toy_crypto) false None id
    [EvLoad; EvRegister demo_config 7 1; EvLoad; EvRegister demo_config 8 2; EvGranted 1; EvGranted 2;
     EvAnswered (EnrolAccepted "bee" "s" None true) 1; EvGranted 2]
    (startProcess FileAbsent (MkIdentityDir FileAbsent []))) =
  [RequestSent demo_key 1; RequestAnswered demo_key 1 (EnrolAccepted "bee" "s" None true)].
Proof. vm_compute. reflexivity. Qed.

(** The relay accepts the first request and the credentials cannot be written: the
    second copy sends the token the relay has already spent. *)
Example spent_token_sent_again :
  snd (proc_run (H := toy_crypto) false None id
    [EvLoad; EvRegister demo_config 7 1; EvLoad; EvRegister demo_config 8 2; EvGranted 1;
     EvAnswered (EnrolAccepted "bee" "s" None false) 1; EvGranted 2]
    (startProcess FileAbsent (MkIdentityDir FileAbsent []))) =
  [RequestSent demo_key 1; RequestAnswered demo_key 1 (EnrolAccepted "bee" "s" None false); RequestSent demo_key 2].
Proof. vm_compute. reflexivity. Qed.

(** A connect that a tool call retries has no handle of the host: the heartbeat
    starts, the loop does not. *)
Example tool_call_starts_no_loop :
  let p := demo_run [EvLoad; EvRegister demo_config 7 1; EvGranted 1; EvAnswered EnrolUnanswered 1; EvSettled true "s" 1;
                     EvTool demo_config 1; EvGranted 1; EvAnswered (EnrolAccepted "bee" "s" None true) 1;
                     EvSettled true "s" 1; EvIdentity "now" 1] in
  (fun c => (cp_heartbeat c, cp_loop c)) <$> pr_copies p !! 1%nat = Some (true, None).
Proof. vm_compute. reflexivity. Qed.
