(* ===== verification/PluginTools.v ===== *)
(** * The plugin's sending tools

    [packages/openclaw-plugin/src/attachments.ts], [origin.ts], [dead-letter.ts] and
    the bodies of [ekho_send] and [ekho_open_room] in [index.ts]: what a tool call
    checks, uploads, signs and sends, and where downloads go. *)

From S2P Require Import Prelude Json IsoTime JsValues Identity Events OperatorKeys Config Agents Enrollment Messages Rooms Delivery DeliverySafety AgentSafety RelaySafety Policies AgentRoutes TrustSync TrustSafety Verify VerifyProperties EndToEnd Text SdkClient Attachments IdentityFile PluginRuntime.
Import Ascii String.
Open Scope string_scope.
Open Scope Z_scope.

(** ** Files *)

Definition ATTACHMENT_MAX_BYTES : Z := 25 * 1024 * 1024.
Definition ATTACHMENT_MAX_PER_MESSAGE : nat := 10.

Definition EXT_TO_MIME : list (string * string) :=
  [("png", "image/png"); ("jpg", "image/jpeg"); ("jpeg", "image/jpeg"); ("gif", "image/gif");
   ("webp", "image/webp"); ("pdf", "application/pdf"); ("txt", "text/plain"); ("md", "text/markdown");
   ("csv", "text/csv"); ("json", "application/json")].

Definition not_dot (c : ascii) : bool := negb (c ==? "."%char).

(** [path.extname] of a POSIX path, without its dot. *)
Definition extension (filePath : string) : string :=
  let base := basename filePath in
  let rev := List.rev (chars base) in
  match drop_while not_dot rev with
  | [] | [_] => ""
  | _ => if base ==? ".." then "" else text (List.rev (take_while not_dot rev))
  end.

Definition mimeForPath (filePath : string) : option string :=
  snd <$> List.find (fun e => fst e ==? lower_string (extension filePath)) EXT_TO_MIME.

(** The plugin's copy of the relay's rule. *)
Definition plugin_sanitizeFilename (raw : string) : string :=
  let base := chars (basename raw) in
  let cleaned := List.filter (fun c => negb (is_separator c)) (List.filter (fun c => negb (is_control c)) base) in
  let cleaned := collapse_spaces false (drop_while (fun c => c ==? "."%char) cleaned) in
  let cleaned := text (take 200 (chars (trim (text cleaned)))) in
  if cleaned ==? "" then "file" else cleaned.

(** Below the directory of downloads. *)
Definition attachmentLocalName (id filename : string) : string :=
  default "att" (truthy (Some (basename id))) +:+ "__" +:+ plugin_sanitizeFilename filename.

Definition attachmentLocalPath (dir id filename : string) : string := dir +:+ "/" +:+ attachmentLocalName id filename.

Inductive FileRefusal := UnsupportedType | CouldNotRead | OverTheCap (size : Z).

Record UploadFile := MkUploadFile { uf_bytes : list Z; uf_mime : string; uf_filename : string }.

Definition readUploadFile (readFileSync : string -> option (list Z)) (filePath : string) : result FileRefusal UploadFile :=
  fetch mime := mimeForPath filePath orelse UnsupportedType ;;
  fetch bytes := readFileSync filePath orelse CouldNotRead ;;
  throw_if ATTACHMENT_MAX_BYTES <? Z.of_nat (length bytes) with OverTheCap (Z.of_nat (length bytes)) ;;
  Ok (MkUploadFile bytes mime (basename filePath)).

(** ** The origin stamp *)

Definition plugin_EKHO_ORIGIN_STAMP : string := "openclaw-agent".

Definition nonEmptyString (value : option json) : option string :=
  match value with Some (JStr s) => truthy (Some (trim s)) | _ => None end.

(** The context the host gives a tool; no object is [None]. *)
Definition resolveOriginSessionId (toolContext : option json) : option string :=
  match toolContext with
  | Some (JObj kvs) =>
      match nonEmptyString (obj_get "sessionKey" kvs) with
      | Some s => Some s
      | None => nonEmptyString (obj_get "sessionId" kvs)
      end
  | _ => None
  end.

Definition buildSendMetadata (originSessionId : option string) : list (string * json) :=
  ("ekho_origin", JStr plugin_EKHO_ORIGIN_STAMP) ::
  match nonEmptyString (JStr <$> originSessionId) with
  | Some s => [("origin_session_id", JStr s)]
  | None => []
  end.

(** ** ekho_send *)

Record EkhoSendParams := MkSendParams {
  sp_recipient_agent_id : option string;
  sp_room_id : option string;
  sp_message : string;
  sp_conversation_id : option string;
  sp_attachment_paths : list string
}.

Inductive SendFailure :=
  | NoDestination
  | NotConnected
  | TooManyAttachments (n : nat)
  | BadFile (e : FileRefusal)
  | UploadFailed
  | SendFailed.

Record EkhoSendResult := MkSendResult {
  es_message_id : string;
  es_conversation_id : string;
  es_room_id : option string;
  es_attachments : list string
}.

Definition room_of (p : EkhoSendParams) : string := match sp_room_id p with Some r => trim r | None => "" end.

Definition plugin_send_recipient (p : EkhoSendParams) : list (string * json) :=
  match truthy (Some (room_of p)) with
  | Some room => [("kind", JStr "group"); ("id", JStr room)]
  | None =>
      if sp_recipient_agent_id p ==? Some "broadcast" then [("kind", JStr "broadcast")]
      else [("kind", JStr "agent"); ("id", JStr (default "" (sp_recipient_agent_id p)))]
  end.

(** ["oc-" + now] *)
Definition oc_stamp (now : Z) : string := "oc-" +:+ stringify_num now.

Definition send_conversation (p : EkhoSendParams) (now : Z) : string :=
  match truthy (Some (room_of p)), truthy (sp_conversation_id p) with
  | Some room, _ => room
  | None, Some c => c
  | None, None => oc_stamp now
  end.

Section Tools.
Context `{Crypto} `{NodeCrypto} `{Signing} `{BufferApi}.
(** [bytes.toString("base64")] *)
Context (to_base64 : list Z -> string).

(** What a call draws: the clock three times and a nonce. *)
Record Drawn := MkDrawn { dr_conversation : Z; dr_stamp : Z; dr_sentAt : Z; dr_nonce : string }.

(** The signature fields, when there is an identity and a fleet. *)
Definition send_signature (p : EkhoSendParams) (cr : EkhoCredentials) (identity : option EkhoIdentity) (dr : Drawn)
    (attachmentIds : list string) : list (string * json) :=
  match identity, truthy (cr_fleet cr) with
  | Some i, Some fleet =>
      let f := buildSignedSendFields i fleet (PluginRuntime.cr_agentId cr) (plugin_send_recipient p)
                 (send_conversation p (dr_conversation dr)) (sp_message p) (dr_nonce dr) (to_iso (dr_sentAt dr))
                 "direct" "normal" attachmentIds in
      [("agent_sig", JStr (sf_agent_sig f)); ("key_id", JStr (sf_key_id f)); ("sig_canonical", JObj (sf_sig_canonical f))]
  | _, _ => []
  end.

Definition send_payload (p : EkhoSendParams) (originSessionId : option string) (cr : EkhoCredentials)
    (identity : option EkhoIdentity) (dr : Drawn) (attachmentIds : list string) : list (string * json) :=
  ([("recipient", JObj (plugin_send_recipient p));
    ("message_type", JStr "direct");
    ("body", JObj (("text", JStr (sp_message p)) ::
                   match attachmentIds with [] => [] | _ => [("attachments", jlist attachmentIds)] end));
    ("metadata", JObj (buildSendMetadata originSessionId));
    ("conversation_id", JStr (send_conversation p (dr_conversation dr)));
    ("correlation_id", JStr (oc_stamp (dr_stamp dr)))] ++ send_signature p cr identity dr attachmentIds)%list.

(** The relay, as the client's calls reach it: the id of what was made, or a
    failure. *)
Context {St : Type} (call : St -> ClientCall -> St * option string) (readFileSync : string -> option (list Z)).

(** The uploads, one after the other. *)
Fixpoint upload_all (paths : list string) (ids : list string) (st : St) : St * result SendFailure (list string) :=
  match paths with
  | [] => (st, Ok ids)
  | p :: paths' =>
      match readUploadFile readFileSync p with
      | Throw e => (st, Throw (BadFile e))
      | Ok f =>
          let data := to_base64 (uf_bytes f) in
          let '(st1, answer) := call st (UploadAttachment (uf_filename f) (uf_mime f) data
                                           (Z.of_nat (length (buffer_from_base64 data)))) in
          match answer with
          | Some i => upload_all paths' (ids ++ [i])%list st1
          | None => (st1, Throw UploadFailed)
          end
      end
  end.

(** [connection] is what [ensureConnected] came to. *)
Definition executeEkhoSend (p : EkhoSendParams) (originSessionId : option string) (connection : option EkhoCredentials)
    (identity : option EkhoIdentity) (dr : Drawn) (st : St) : St * result SendFailure EkhoSendResult :=
  if (room_of p ==? "") && (truthy (sp_recipient_agent_id p) ==? None) then (st, Throw NoDestination)
  else match connection with
  | None => (st, Throw NotConnected)
  | Some cr =>
      if (ATTACHMENT_MAX_PER_MESSAGE <? length (sp_attachment_paths p))%nat
      then (st, Throw (TooManyAttachments (length (sp_attachment_paths p))))
      else
        let '(st1, uploaded) := upload_all (sp_attachment_paths p) [] st in
        match uploaded with
        | Throw e => (st1, Throw e)
        | Ok ids =>
            let '(st2, answer) := call st1 (SendMessage (send_payload p originSessionId cr identity dr ids)) in
            match answer with
            | None => (st2, Throw SendFailed)
            | Some mid => (st2, Ok (MkSendResult mid (send_conversation p (dr_conversation dr))
                                      (truthy (Some (room_of p))) ids))
            end
        end
  end.

(** ekho_open_room: the members that are not empty. *)
Definition executeOpenRoom (topic : string) (members : list string) (connection : option EkhoCredentials) (st : St)
    : St * result SendFailure string :=
  if trim topic ==? "" then (st, Throw NoDestination)
  else match connection with
  | None => (st, Throw NotConnected)
  | Some _ =>
      let '(st1, answer) := call st (CreateRoom (trim topic) (Some (List.filter (fun m => negb (m ==? "")) members))) in
      match answer with Some i => (st1, Ok i) | None => (st1, Throw SendFailed) end
  end.
End Tools.

(** ** Downloads of the inbox tool *)

(** An attachment as the relay describes it. *)
Record InboxAttachmentMeta := MkMeta {
  mt_id : option string; mt_filename : option string; mt_mime : option string; mt_size : option Z
}.

Record LocalAttachment := MkLocalAttachment {
  la_id : string; la_filename : string; la_mime : string; la_size_bytes : Z; la_local_path : string
}.

(** What is decided before the download: where the file goes. *)
Definition attachment_plan (dir : string) (meta : InboxAttachmentMeta) : option LocalAttachment :=
  match mt_id meta with
  | None => None
  | Some i =>
      if match mt_size meta with Some n => ATTACHMENT_MAX_BYTES <? n | None => false end then None
      else
        let filename := plugin_sanitizeFilename (default i (mt_filename meta)) in
        Some (MkLocalAttachment i filename (default "application/octet-stream" (mt_mime meta))
                (default 0 (mt_size meta)) (attachmentLocalPath dir i filename))
  end.

(** [present] is what the look at the disk said, before the download; [downloaded]
    what the relay answered if it was asked; [files] the disk when it did. *)
Definition resolve_attachment (dir : string) (present : bool) (downloaded : option (list Z))
    (meta : InboxAttachmentMeta) (files : gmap string (list Z)) : gmap string (list Z) * option LocalAttachment :=
  match attachment_plan dir meta with
  | None => (files, None)
  | Some la =>
      if present then (files, Some la)
      else match downloaded with
      | Some bytes =>
          if ATTACHMENT_MAX_BYTES <? Z.of_nat (length bytes) then (files, None)
          else (<[la_local_path la := bytes]> files, Some la)
      | None => (files, None)
      end
  end.

(** ** The dead-letter file *)

Definition MAX_BYTES : nat := 5 * 1024 * 1024.

(** The file and the one it was rotated to. *)
Record DeadLetterFiles := MkDeadLetters { dl_current : option string; dl_previous : option string }.

Definition newline_text : string := String (ascii_of_nat 10) "".

Definition appendDeadLetters (f : DeadLetterFiles) (records : list json) : DeadLetterFiles :=
  match records with
  | [] => f
  | _ =>
      let rotated := match dl_current f with
                     | Some t => if (MAX_BYTES <? String.length t)%nat then MkDeadLetters None (Some t) else f
                     | None => f
                     end in
      let lines := String.concat newline_text (map json_stringify records) +:+ newline_text in
      MkDeadLetters (Some (default "" (dl_current rotated) +:+ lines)) (dl_previous rotated)
  end.

(** * Properties of the sending tools

    What [ekho_send] asks of the relay and in which order; that what it signs
    verifies at the recipient, through the relay; what of its files the relay
    accepts; where downloads can go; that the dead-letter file is bounded. *)

(** ** What a call asks of the relay *)

(** The relay, with a record of what it was asked. *)
Definition logged {St} (call : St -> ClientCall -> St * option string) (s : St * list ClientCall) (c : ClientCall)
    : (St * list ClientCall) * option string :=
  let '(st, a) := call (fst s) c in ((st, (snd s ++ [c])%list), a).

Section Tools.
Context `{Crypto} `{NodeCrypto} `{Signing} `{BufferApi} (to_base64 : list Z -> string).
Context {St : Type} (call : St -> ClientCall -> St * option string) (readFileSync : string -> option (list Z)).

(** The upload of the file at a path that the local checks admit. *)
Definition upload_of (path : string) (c : ClientCall) : Prop :=
  exists f, readUploadFile readFileSync path = Ok f /\
    c = UploadAttachment (uf_filename f) (uf_mime f) (to_base64 (uf_bytes f))
          (Z.of_nat (length (buffer_from_base64 (to_base64 (uf_bytes f))))).

Lemma upload_all_calls paths ids st log st' log' res :
  upload_all to_base64 (logged call) readFileSync paths ids (st, log) = ((st', log'), res) ->
  exists ups, log' = (log ++ ups)%list /\ Forall2 upload_of (take (length ups) paths) ups /\
    match res with
    | Ok ids' => length ups = length paths /\ length ids' = (length ids + length paths)%nat
    | Throw _ => (length ups <= length paths)%nat
    end.
Proof.
  revert ids st log. induction paths as [|p paths IH]; intros ids st log; simpl.
  { intros [= <- <- <-]. exists []. rewrite app_nil_r. simpl. split_and!; [done|constructor|lia|lia]. }
  destruct (readUploadFile readFileSync p) as [f|e] eqn:Hf.
  2: { intros [= <- <- <-]. exists []. rewrite app_nil_r. simpl. split_and!; [done|constructor|lia]. }
  unfold logged at 1. simpl. destruct (call st _) as [st1 [i|]] eqn:Hc.
  - intros Hr. apply IH in Hr as (ups & -> & Hups & Hres).
    set (c := UploadAttachment _ _ _ _) in *. exists (c :: ups). rewrite <- app_assoc. simpl.
    split_and!; [done|constructor; [by exists f|done]|]. destruct res; [|lia].
    rewrite length_app in Hres. simpl in Hres. lia.
  - intros [= <- <- <-]. set (c := UploadAttachment _ _ _ _). exists [c]. simpl.
    split_and!; [done|constructor; [by exists f|constructor]|lia].
Qed.

(** What a run of [ekho_send] asked: some uploads, then at most one send. *)
Lemma send_calls p origin conn identity dr st st' log res :
  executeEkhoSend to_base64 (logged call) readFileSync p origin conn identity dr (st, []) = ((st', log), res) ->
  exists ups, Forall2 upload_of (take (length ups) (sp_attachment_paths p)) ups /\
    (length ups <= ATTACHMENT_MAX_PER_MESSAGE)%nat /\
    ((exists e, res = Throw e) /\ log = ups \/
     exists cr ids, conn = Some cr /\ length ids = length (sp_attachment_paths p) /\ length ups = length ids /\
       log = (ups ++ [SendMessage (send_payload p origin cr identity dr ids)])%list /\
       (res = Throw SendFailed \/
        exists mid, res = Ok (MkSendResult mid (send_conversation p (dr_conversation dr)) (truthy (Some (room_of p))) ids))).
Proof.
  unfold executeEkhoSend. destruct (_ && _).
  { intros [= <- <- <-]. exists []. split_and!; [constructor|simpl; lia|left; eauto]. }
  destruct conn as [cr|].
  2: { intros [= <- <- <-]. exists []. split_and!; [constructor|simpl; lia|left; eauto]. }
  destruct (_ <? _)%nat eqn:Hmax.
  { intros [= <- <- <-]. exists []. split_and!; [constructor|simpl; lia|left; eauto]. }
  apply Nat.ltb_ge in Hmax. destruct (upload_all _ _ _ _ _ _) as [[st1 log1] up] eqn:Hup.
  apply upload_all_calls in Hup as (ups & -> & Hups & Hlen). simpl in *. destruct up as [ids|e].
  2: { intros [= <- <- <-]. exists ups. split_and!; [done|lia|left; eauto]. }
  destruct Hlen as [Hl1 Hl2]. unfold logged. cbn [fst snd].
  destruct (call st1 _) as [st2 [mid|]]; intros [= <- <- <-]; exists ups; (split_and!; [done|lia|]);
    right; exists cr, ids; (split_and!; [done|lia|lia|done|]); [right; by exists mid|by left].
Qed.

(** What [ekho_send] asks of the relay: uploads of at most ten files, in the
    order given, each one that the local checks admitted (an allowed type, at most
    25 MiB); and then at most one message, sent only when every upload succeeded,
    under the room's id for a room, carrying the ids it got. *)
Theorem ekho_send_asks p origin conn identity dr st st' log res :
  executeEkhoSend to_base64 (logged call) readFileSync p origin conn identity dr (st, []) = ((st', log), res) ->
  exists ups, (length ups <= 10)%nat /\
    Forall2 (fun path c => exists f, readUploadFile readFileSync path = Ok f /\
        mimeForPath path = Some (uf_mime f) /\ Z.of_nat (length (uf_bytes f)) <= 25 * 1024 * 1024 /\
        c = UploadAttachment (uf_filename f) (uf_mime f) (to_base64 (uf_bytes f))
              (Z.of_nat (length (buffer_from_base64 (to_base64 (uf_bytes f))))))
      (take (length ups) (sp_attachment_paths p)) ups /\
    match res with
    | Ok r =>
        exists cr, conn = Some cr /\ length ups = length (sp_attachment_paths p) /\
          length (es_attachments r) = length ups /\
          log = (ups ++ [SendMessage (send_payload p origin cr identity dr (es_attachments r))])%list /\
          (forall room, es_room_id r = Some room -> es_conversation_id r = room)
    | Throw _ => log = ups \/ exists payload, log = (ups ++ [SendMessage payload])%list /\ length ups = length (sp_attachment_paths p)
    end.
Proof.
  intros Hr. apply send_calls in Hr as (ups & Hups & Hlen & Hcase). exists ups.
  split_and!; [exact Hlen| |].
  - eapply Forall2_impl; [exact Hups|]. intros path c (f & Hf & ->). exists f. split; [done|].
    unfold readUploadFile in Hf. destruct (mimeForPath path) as [mime|]; [|done].
    destruct (readFileSync path) as [b|]; [|done]. destruct (_ <? _) eqn:E; [done|]. injection Hf as <-.
    apply Z.ltb_ge in E. split_and!; [done|exact E|done].
  - destruct Hcase as [[[e ->] ->]|(cr & ids & -> & L1 & L2 & -> & [->|(mid & ->)])]; [by left|right; eexists; split; [done|lia]|].
    exists cr. cbn [es_attachments es_room_id es_conversation_id]. split_and!; [done|lia|lia|done|].
    intros room Hroom. unfold send_conversation. by rewrite Hroom.
Qed.
End Tools.

(** ** From the tool to the recipient *)

(** How [sendMessageSchema] reads the object of a request: fields by name, the
    default priority, unknown fields dropped. *)
Record reads (payload : list (string * json)) (r : SendRequest) : Prop := {
  rd_type : obj_get "message_type" payload = Some (JStr (sr_type r));
  rd_priority : sr_priority r = match obj_get "priority" payload with Some (JStr s) => s | _ => "normal" end;
  rd_body : obj_get "body" payload = Some (sr_body r);
  rd_conversation : obj_get "conversation_id" payload = Some (JStr (sr_conversation r));
  rd_sig : sr_agent_sig r = text_of (obj_get "agent_sig" payload);
  rd_key : sr_key_id r = text_of (obj_get "key_id" payload);
  rd_canonical : sr_sig_canonical r = match obj_get "sig_canonical" payload with Some (JObj c) => Some c | _ => None end
}.

Section Signed.
Context `{Crypto} `{NodeCrypto} `{Signing} `{!SigningLaws} `{BufferApi} (to_base64 : list Z -> string).
Context {St : Type} (call : St -> ClientCall -> St * option string) (readFileSync : string -> option (list Z)).

(** The tool signs what it sends. *)
Lemma send_payload_signed p origin cr i fleet dr ids r :
  truthy (cr_fleet cr) = Some fleet -> reads (send_payload p origin cr (Some i) dr ids) r ->
  signed_request i fleet (PluginRuntime.cr_agentId cr) (dr_nonce dr) (to_iso (dr_sentAt dr)) (plugin_send_recipient p) r.
Proof.
  intros Hf [R1 R2 R3 R4 R5 R6 R7]. unfold send_payload, send_signature in *. rewrite Hf in *.
  generalize dependent (to_iso (dr_sentAt dr)). intros sentAt R1 R2 R3 R4 R5 R6 R7.
  cbn in R1, R2, R3, R4, R5, R6, R7.
  injection R1 as R1. injection R3 as R3. injection R4 as R4.
  assert (Hb : body_text (sr_body r) = sp_message p) by (rewrite <- R3; by destruct ids).
  assert (Ha : string_list (sr_body r) "attachments" = ids).
  { rewrite <- R3. destruct ids as [|x ids]; [done|]. apply (snapshot_attachments (sp_message p) (x :: ids)). }
  constructor; rewrite ?Hb, ?Ha, <- ?R1, <- ?R4, ?R2; assumption.
Qed.

(** C18. What the agent says with its tool verifies at its recipient: the message
    [ekho_send] posts, when the relay accepts it, is delivered and quoted so that
    every recipient that trusts the agent's key verifies it, whatever the relay does
    in between: the recipient, text, attachments, type, priority and conversation
    the tool signs are those the relay stores. *)
Theorem ekho_send_verifies cfg d0 d m e a h now mid dly fleet st p origin cr i dr S0 S1 log res payload r m' es d2 m2 x opts :
  executeEkhoSend to_base64 (logged call) readFileSync p origin (Some cr) (Some i) dr (S0, []) = ((S1, log), res) ->
  SendMessage payload ∈ log -> reads payload r ->
  truthy (cr_fleet cr) = Some fleet ->
  operators_ok d0 -> relay_run cfg (d0, empty_mail) (d, m) ->
  authenticateAgent e d (PluginRuntime.cr_agentId cr) = Some (a, h) -> ag_fleet a = fleet ->
  createMessage cfg d m now mid dly (message_input (MkIdentity (PluginRuntime.cr_agentId cr) fleet st) r) = Ok (m', es) ->
  mid ∉ map ms_id (md_messages m) ->
  relay_run cfg (d, m') (d2, m2) -> x ∈ md_messages m2 -> ms_id x = mid ->
  receives opts i fleet (PluginRuntime.cr_agentId cr) (dr_nonce dr) (to_iso (dr_sentAt dr)) (plugin_send_recipient p) ->
  (forall reader, verifyInbound (inbox_signed (inbox_message d2 m2 fleet reader x)) opts =
     Some (MkVerdict true KPeer None (Some (keyId (fromB64url (identityPublicKey i)))))) /\
  verifies (snapshot_message (snapshot_signed (snapshotOf d2 x))) opts = true.
Proof.
  intros Hr Hin Hreads Hf Hops Hrun Hau Hfl Hmsg Hid Hrun2 Hx Hxi Hrc.
  apply send_calls in Hr as (ups & Hups & _ & [[_ ->]|(cr' & ids & [= <-] & _ & _ & -> & _)]).
  { exfalso. apply list_elem_of_lookup in Hin as [k Hk].
    destruct (Forall2_lookup_r _ _ _ _ _ Hups Hk) as (path & _ & f & _ & E). discriminate E. }
  assert (payload = send_payload p origin cr (Some i) dr ids) as ->.
  { apply elem_of_app in Hin as [Hin|Hin].
    - exfalso. apply list_elem_of_lookup in Hin as [k Hk].
      destruct (Forall2_lookup_r _ _ _ _ _ Hups Hk) as (path & _ & f & _ & E). discriminate E.
    - apply list_elem_of_singleton in Hin. congruence. }
  eapply signed_request_survives; eauto. by eapply send_payload_signed.
Qed.
End Signed.

(** ** Files *)

(** [data] is the base64 text of [bytes]. *)
Record base64_of `{BufferApi} (bytes : list Z) (data : string) : Prop := {
  b64_reads : buffer_from_base64 data = bytes;
  b64_length : Z.of_nat (length (List.filter (fun c => negb (Prelude.is_space c)) (chars data))) = base64_length (length bytes)
}.

Lemma mime_allowed path mime : mimeForPath path = Some mime -> isAllowedMime mime = true.
Proof.
  unfold mimeForPath. intros Hm. apply fmap_Some in Hm as ([ext m] & Hf & ->). apply find_some in Hf as [Hin _].
  simpl in Hin. repeat (destruct Hin as [[= <- <-]|Hin]; [reflexivity|]). done.
Qed.

(** The local checks and the relay's: a file the tool admits, the relay refuses
    only if it is empty, or not the image its name says (the tool looks at neither);
    never for its type, its size or its encoding. *)
Theorem local_checks_match_relay `{BufferApi} cfg readFileSync path f data :
  ATTACHMENT_MAX_BYTES <= attachmentMaxBytes cfg ->
  readUploadFile readFileSync path = Ok f -> base64_of (uf_bytes f) data ->
  check_upload cfg (MkUpload (uf_filename f) (uf_mime f) (Z.of_nat (length (buffer_from_base64 data))) data) =
  match uf_bytes f with
  | [] => Throw InvalidBase64
  | _ => if sniffImageMatches (uf_mime f) (uf_bytes f) then Ok (uf_bytes f) else Throw NotTheDeclaredImage
  end.
Proof.
  intros Hcfg Hf [Hr Hl]. unfold readUploadFile in Hf. destruct (mimeForPath path) as [mime|] eqn:Hm; [|done].
  destruct (readFileSync path) as [b|]; [|done]. destruct (_ <? _) eqn:E; [done|]. injection Hf as <-. simpl in *.
  apply Z.ltb_ge in E. unfold check_upload. cbn [up_mime up_size_bytes up_data_base64].
  rewrite (mime_allowed _ _ Hm), Hr. cbn [negb]. rewrite (proj2 (Z.ltb_ge _ _)) by lia.
  unfold decodeBase64Strict. rewrite Hr, Hl.
  destruct b as [|x b]; [by destruct (data ==? "")|]. set (l := x :: b) in *.
  destruct (data ==? "") eqn:Ed.
  { apply bool_decide_eq_true in Ed as ->. exfalso. assert (Hb : base64_length (length l) = 0) by (rewrite <- Hl; done).
    unfold base64_length, l in Hb. simpl length in Hb.
    pose proof (Z.div_le_mono 3 (Z.of_nat (S (length b)) + 2) 3 ltac:(lia) ltac:(lia)). change (3 / 3) with 1 in *. lia. }
  change (length l =? 0)%nat with false. cbn [orb].
  rewrite (proj2 (Z.ltb_ge _ _)) by (rewrite Z.sub_diag; simpl; lia). rewrite (proj2 (Z.ltb_ge _ _)) by lia.
  unfold l. by destruct (sniffImageMatches mime _).
Qed.

Lemma local_sanitize raw : plugin_sanitizeFilename raw = Attachments.sanitizeFilename raw.
Proof. reflexivity. Qed.

Lemma elem_of_basename s c : c ∈ chars (basename s) -> not_slash c = true.
Proof.
  unfold basename. rewrite chars_text. intros Hc. apply list_elem_of_In in Hc. apply in_rev in Hc.
  apply list_elem_of_In in Hc. by apply elem_of_take_while in Hc as [_ ?].
Qed.

Lemma local_name_plain i filename : plain (attachmentLocalName i filename).
Proof.
  unfold attachmentLocalName, plain. rewrite !chars_app, !elem_of_app. intros [Hc|[Hc|Hc]].
  - unfold truthy in Hc. destruct (basename i ==? "") eqn:E; simpl in Hc; [vm_compute in Hc; set_solver|].
    by apply elem_of_basename in Hc.
  - vm_compute in Hc. set_solver.
  - rewrite local_sanitize in Hc. apply (sanitize_safe filename) in Hc as [_ Hc]. by vm_compute in Hc.
Qed.

Lemma underscore_split a b x y :
  "_"%char ∉ chars a -> "_"%char ∉ chars b -> a +:+ "__" +:+ x = b +:+ "__" +:+ y -> a = b.
Proof.
  revert b. induction a as [|ca a IH]; intros [|cb b] Ha Hb Heq; simpl in *; [done|..].
  - injection Heq as <- _. exfalso. apply Hb. by left.
  - injection Heq as -> _. exfalso. apply Ha. by left.
  - injection Heq as -> Heq. f_equal. apply IH; [set_solver..|done].
Qed.

(** An id of the relay: a UUID. *)
Definition relay_id (i : string) : Prop := i <> "" /\ plain i /\ "_"%char ∉ chars i.

(** Downloads stay in their directory: whatever id and name the relay (or a
    sender) gives an attachment, the one file the inbox tool may write is directly
    inside the download directory, holds at most 25 MiB, and, for ids like the
    relay's, is another file than any other attachment's. *)
Theorem downloads_stay_inside dir present downloaded meta files files' shown :
  resolve_attachment dir present downloaded meta files = (files', shown) ->
  (files' = files \/ exists name bytes, files' = <[dir +:+ "/" +:+ name := bytes]> files /\
     plain name /\ name <> "." /\ name <> ".." /\ Z.of_nat (length bytes) <= 25 * 1024 * 1024) /\
  forall la i, shown = Some la -> mt_id meta = Some i ->
    (exists name, la_local_path la = dir +:+ "/" +:+ name /\ plain name) /\
    forall i' name', relay_id i -> relay_id i' -> i' <> i -> attachmentLocalPath dir i' name' <> la_local_path la.
Proof.
  unfold resolve_attachment, attachment_plan. destruct (mt_id meta) as [i|] eqn:Hi.
  2: { intros [= <- <-]. split; [by left|done]. }
  set (big := match mt_size meta with Some _ => _ | None => _ end).
  destruct big; [intros [= <- <-]; split; [by left|done]|].
  set (fn := plugin_sanitizeFilename _).
  assert (Hshown : forall la i0, Some la = Some (MkLocalAttachment i fn (default "application/octet-stream" (mt_mime meta))
       (default 0 (mt_size meta)) (attachmentLocalPath dir i fn)) -> Some i = Some i0 ->
     (exists name, la_local_path la = dir +:+ "/" +:+ name /\ plain name) /\
     forall i' name', relay_id i0 -> relay_id i' -> i' <> i0 -> attachmentLocalPath dir i' name' <> la_local_path la).
  { intros la i0 [= ->] [= <-]. cbn [la_local_path]. split; [eexists; split; [reflexivity|apply local_name_plain]|].
    intros i' name' (Hi0 & Hip & Hiu) (Hi0' & Hip' & Hiu') Hne Heq. unfold attachmentLocalPath, attachmentLocalName in Heq.
    do 2 apply string_app_inj in Heq. rewrite !basename_plain in Heq by done.
    rewrite (proj2 (truthy_Some (Some i) i)), (proj2 (truthy_Some (Some i') i')) in Heq by done. simpl in Heq.
    by apply underscore_split in Heq. }
  destruct present; [intros [= <- <-]; split; [by left|intros la i0 Hla; apply Hshown; congruence]|].
  destruct downloaded as [bytes|]; [|intros [= <- <-]; split; [by left|done]].
  destruct (_ <? _) eqn:E; intros [= <- <-]; [split; [by left|done]|]. apply Z.ltb_ge in E.
  split; [right|intros la i0 Hla; apply Hshown; congruence].
  exists (attachmentLocalName i fn), bytes. split_and!; [done|apply local_name_plain| | |exact E].
  - unfold attachmentLocalName. intros Heq. apply (f_equal chars) in Heq. rewrite !chars_app in Heq.
    destruct (chars (default "att" (truthy (Some (basename i))))) as [|? [|]]; discriminate Heq.
  - unfold attachmentLocalName. intros Heq. apply (f_equal chars) in Heq. rewrite !chars_app in Heq.
    destruct (chars (default "att" (truthy (Some (basename i))))) as [|? [|? [|]]]; discriminate Heq.
Qed.

(** ** Dead letters *)

Definition dead_lines (records : list json) : string :=
  match records with [] => "" | _ => String.concat newline_text (map json_stringify records) +:+ newline_text end.

Lemma length_append a b : String.length (a +:+ b) = (String.length a + String.length b)%nat.
Proof. induction a; simpl; auto. Qed.

(** The dead-letter file: the last batch is whole at its end; what was there stands
    before it, or was over the limit and is the rotated file, whole. *)
Lemma append_cases f records :
  records <> [] ->
  (dl_current (appendDeadLetters f records) = Some (default "" (dl_current f) +:+ dead_lines records) /\
   dl_previous (appendDeadLetters f records) = dl_previous f /\
   (String.length (default "" (dl_current f)) <= MAX_BYTES)%nat) \/
  (dl_current (appendDeadLetters f records) = Some (dead_lines records) /\
   dl_previous (appendDeadLetters f records) = dl_current f /\
   (MAX_BYTES < String.length (default "" (dl_current f)))%nat).
Proof.
  unfold appendDeadLetters, dead_lines. destruct records as [|x records]; [done|]. intros _.
  generalize MAX_BYTES. intros m. destruct (dl_current f) as [t|] eqn:Ht; [|left; simpl; rewrite Ht; split_and!; [done..|lia]].
  destruct (m <? String.length t)%nat eqn:E; [right|left]; simpl; rewrite ?Ht.
  - split_and!; [done..|by apply Nat.ltb_lt].
  - split_and!; [done..|by apply Nat.ltb_ge].
Qed.

(** The dead-letter file stays bounded and loses nothing recent: over any
    batches of at most [batch] bytes it never exceeds its limit by more than a batch,
    and after every append the last batch is whole at its end, behind all the file
    held before unless that was over the limit, when it is the rotated file. *)
Theorem dead_letters_bounded batch batches f :
  (String.length (default "" (dl_current f)) <= MAX_BYTES + batch)%nat ->
  Forall (fun records => (String.length (dead_lines records) <= batch)%nat) batches ->
  let f' := foldl appendDeadLetters f batches in
  (String.length (default "" (dl_current f')) <= MAX_BYTES + batch)%nat /\
  forall records, records <> [] -> exists before,
    dl_current (appendDeadLetters f' records) = Some (before +:+ dead_lines records) /\
    (before = default "" (dl_current f') \/ dl_previous (appendDeadLetters f' records) = dl_current f').
Proof.
  intros Hf Hb. cbv zeta. split.
  - revert f Hf. induction Hb as [|records batches Hr _ IH]; intros f Hf; [done|]. cbn [foldl]. apply IH.
    destruct (decide (records = [])) as [->|Hne]; [done|].
    destruct (append_cases f records Hne) as [(-> & _ & Hl)|(-> & _ & _)]; cbn [from_option id];
      revert Hf Hr; try revert Hl; generalize MAX_BYTES; intros; rewrite ?length_append; lia.
  - intros records Hne. destruct (append_cases (foldl appendDeadLetters f batches) records Hne) as [(-> & _ & _)|(-> & -> & _)].
    + eexists. split; [done|by left].
    + exists "". split; [done|by right].
Qed.

(** ** On a concrete relay *)

Definition demo_params : EkhoSendParams := MkSendParams (Some "a2") None "hi" (Some "c1") [].
Definition demo_conn : EkhoCredentials := MkEkhoCredentials "a1" "s3cret" None (Some "f").
Definition demo_drawn : Drawn := MkDrawn 1767225600000 1767225600000 1767225600000 "n1".
Definition demo_buffer : BufferApi := {| buffer_from_base64 := fun s => [] |}.
Definition demo_call (st : unit) (c : ClientCall) : unit * option string := (st, Some "m1").

Definition demo_asked : list ClientCall :=
  snd (fst (@executeEkhoSend toy_crypto toy_node toy_signing demo_buffer (fun _ => "") _ (logged demo_call)
              (fun _ => None) demo_params None (Some demo_conn) (Some demo_sender) demo_drawn (tt, []))).

Lemma ekho_send_asks_witness :
  demo_asked = [SendMessage (@send_payload toy_crypto toy_node toy_signing demo_params None demo_conn (Some demo_sender) demo_drawn [])].
Proof.
  destruct (@executeEkhoSend toy_crypto toy_node toy_signing demo_buffer (fun _ => "") _ (logged demo_call)
              (fun _ => None) demo_params None (Some demo_conn) (Some demo_sender) demo_drawn (tt, [])) as [[st log] res] eqn:E.
  assert (Hd : demo_asked = log) by (unfold demo_asked; by rewrite E).
  assert (Hr : res = Ok (MkSendResult "m1" "c1" None [])) by (vm_compute in E; congruence).
  destruct (@ekho_send_asks toy_crypto toy_node toy_signing demo_buffer (fun _ => "") _ demo_call (fun _ => None)
    demo_params None (Some demo_conn) (Some demo_sender) demo_drawn tt st log res E) as (ups & _ & _ & H).
  rewrite Hr in H. destruct H as (cr & [= <-] & Hl & _ & Hlog & _). destruct ups; [|discriminate Hl].
  rewrite Hd, Hlog. reflexivity.
Defined.

Lemma ekho_send_verifies_witness : exists x,
  md_messages demo_mail = [x] /\
  @verifyInbound toy_crypto toy_node (inbox_signed (inbox_message demo_two demo_mail "f" "a2" x)) demo_opts =
    Some (MkVerdict true KPeer None (Some "ka1")).
Proof.
  assert (Hx : exists x, md_messages demo_mail = [x] /\ ms_id x = "m1").
  { eexists. split; vm_compute; reflexivity. }
  destruct Hx as (x & Hx & Hxi). exists x. split; [exact Hx|].
  assert (Hin : x ∈ md_messages demo_mail) by (rewrite Hx; by left).
  assert (Hau : exists a h, @authenticateAgent demo_credentials demo_two "a1" = Some (a, h) /\ ag_fleet a = "f").
  { eexists _, _. split; vm_compute; reflexivity. }
  destruct Hau as (a & h & Hau & Hf).
  assert (Hsend : exists es, createMessage default_config demo_two empty_mail 1000 "m1" (fun _ => "d1")
    (message_input (MkIdentity "a1" "f" Healthy) demo_signed) = Ok (demo_mail, es)).
  { eexists. vm_compute. reflexivity. }
  destruct Hsend as (es & Hsend).
  destruct (@executeEkhoSend toy_crypto toy_node toy_signing demo_buffer (fun _ => "") _ (logged demo_call)
              (fun _ => None) demo_params None (Some demo_conn) (Some demo_sender) demo_drawn (tt, [])) as [[st log] res] eqn:E.
  assert (Hlog : log = [SendMessage (@send_payload toy_crypto toy_node toy_signing demo_params None demo_conn (Some demo_sender) demo_drawn [])])
    by (vm_compute in E; injection E as _ <- _; vm_compute; reflexivity).
  refine (proj1 (@ekho_send_verifies toy_crypto toy_node toy_signing toy_signing_laws demo_buffer (fun _ => "") _ demo_call
    (fun _ => None) default_config demo_two demo_two empty_mail demo_credentials a h 1000 "m1" (fun _ => "d1") "f" Healthy
    demo_params None demo_conn demo_sender demo_drawn tt st log res _ demo_signed demo_mail es demo_two demo_mail x demo_opts
    E _ _ _ demo_two_ok (rrun_refl _ _) Hau Hf Hsend _ (rrun_refl _ _) Hin Hxi _) "a2").
  - rewrite Hlog. left.
  - constructor; vm_compute; reflexivity.
  - vm_compute. reflexivity.
  - by intros ?%elem_of_nil.
  - replace (to_iso (dr_sentAt demo_drawn)) with demo_sent_at by (vm_compute; reflexivity). exact demo_receives.
Defined.

(** A toy encoding: the bytes as characters, padded. *)
Definition padded_buffer : BufferApi := {|
  buffer_from_base64 := fun s => map (fun c => Z.of_nat (nat_of_ascii c)) (List.filter (fun c => negb (c ==? "="%char)) (chars s))
|}.

Lemma local_checks_match_relay_witness :
  @check_upload padded_buffer default_config (MkUpload "notes.txt" "text/plain" 3 "hi!=") = Ok [104; 105; 33].
Proof.
  exact (@local_checks_match_relay padded_buffer default_config (fun _ => Some [104; 105; 33]) "/tmp/notes.txt"
    (MkUploadFile [104; 105; 33] "text/plain" "notes.txt") "hi!=" ltac:(vm_compute; discriminate)
    ltac:(vm_compute; reflexivity) ltac:(split; vm_compute; reflexivity)).
Defined.

Definition hostile_meta : InboxAttachmentMeta := MkMeta (Some "../../etc/id") (Some "../../.ssh/authorized_keys") None None.

Lemma downloads_stay_inside_witness : exists name bytes,
  fst (resolve_attachment "/state/attachments" false (Some [1]) hostile_meta ∅) =
    <["/state/attachments" +:+ "/" +:+ name := bytes]> ∅ /\ plain name.
Proof.
  destruct (resolve_attachment "/state/attachments" false (Some [1]) hostile_meta ∅) as [files' shown] eqn:E.
  destruct (downloads_stay_inside _ _ _ _ _ _ _ E) as [[H|(name & bytes & H & Hp & _)] _].
  - exfalso. apply (f_equal (fun r => size (fst r))) in E. rewrite H in E. vm_compute in E. discriminate E.
  - exists name, bytes. split; [exact H|exact Hp].
Defined.

Lemma dead_letters_bounded_witness :
  (String.length (default "" (dl_current (foldl appendDeadLetters (MkDeadLetters None None) [[JNum 1]; [JNull]]))) <= MAX_BYTES + 5)%nat.
Proof.
  apply (dead_letters_bounded 5 [[JNum 1]; [JNull]] (MkDeadLetters None None)).
  - apply Nat.le_0_l.
  - repeat (apply Forall_cons; split); [apply leb_complete; vm_compute; reflexivity..|constructor].
Defined.
