(* ===== verification/StateDir.v ===== *)
(** * The plugin's state directory

    [packages/openclaw-plugin/src/state-dir.ts]: where the credentials and the
    identity live, and how files of an older install are carried over; then what
    that means for the connect that follows ([PluginRuntime]): an agent that had
    credentials or an identity is never taken for a new one. *)

From S2P Require Import Prelude Json IsoTime JsValues Identity TrustSync Text IdentityFile PluginRuntime.
Import Ascii String.
Open Scope string_scope.
Open Scope Z_scope.

(** [path.join] of a directory and a plain name. *)
Definition join_path (dir name : string) : string := dir +:+ "/" +:+ name.

(** [host] is what the host's own resolver answers; [override] the environment's
    [OPENCLAW_STATE_DIR], resolved; [home] the home directory. *)
Definition resolveOpenClawStateDir (host : option string) (override : option string) (home : string) : string :=
  match host with
  | Some dir => if trim dir ==? "" then match truthy (trim <$> override) with Some o => o | None => join_path home ".openclaw" end
                else dir
  | None => match truthy (trim <$> override) with Some o => o | None => join_path home ".openclaw" end
  end.

Definition resolveEkhoStateDir (stateDir : option string) (env : option string) (openclaw : string) : string :=
  match truthy (trim <$> stateDir) with
  | Some d => d
  | None => match truthy (trim <$> env) with
            | Some d => d
            | None => join_path openclaw "ekho-adapter"
            end
  end.

(** ** Migration *)

Inductive StateFile := CredentialsFile | IdentityFile.
#[export] Instance StateFile_eq_dec : EqDecision StateFile.
Proof. solve_decision. Defined.

Inductive MigrationError := MigrationUnavailable (f : StateFile) | MigrationIo (f : StateFile).

(** The acceptance rule of each loader, on parsed contents. *)
Definition spec_usable (spec : StateFile) (d : json) : bool :=
  js_truthy d &&
  match spec with
  | CredentialsFile => negb (string_field d "agentId" ==? None) && negb (string_field d "secret" ==? None)
  | IdentityFile => match prop d "seedHex" with Some v => js_truthy v | None => false end
  end.

Definition readUsable (f : FileState) (spec : StateFile) : bool :=
  match f with FileBytes (Some d) => spec_usable spec d | _ => false end.

Definition is_absent (f : FileState) : bool := match f with FileAbsent => true | _ => false end.

(** [copied] is the temporary copy as it reads back, or [None] when copying failed;
    [target] what the place holds when the copy is linked there. *)
Definition copyNoClobber (copied : option FileState) (target : FileState) (spec : StateFile)
    : FileState * result MigrationError unit :=
  match copied with
  | None => (target, Throw (MigrationIo spec))
  | Some f =>
      if negb (readUsable f spec) then (target, Throw (MigrationUnavailable spec))
      else (if is_absent target then f else target, Ok tt)
  end.

(** What happens around one file: the new place when it is looked at, the copy,
    and the new place when the copy is linked (another process may have written it). *)
Record Around := MkAround { ar_looked : FileState; ar_copied : option FileState; ar_linked : FileState }.

Inductive MigrationNote := LegacyUnused (f : StateFile) | MigratedFile (f : StateFile).

(** One turn of the loop: the new file, the failures, the notes, and the files
    already spoken of ([warnedLegacy]). *)
Definition migrate_file (legacy : FileState) (spec : StateFile) (ar : Around) (warned : list StateFile)
    : FileState * list MigrationError * list MigrationNote * list StateFile :=
  if is_absent legacy then (ar_looked ar, [], [], warned)
  else if negb (is_absent (ar_looked ar)) then
    if bool_decide (spec ∈ warned) then (ar_looked ar, [], [], warned)
    else (ar_looked ar, [], [LegacyUnused spec], spec :: warned)
  else if negb (readUsable legacy spec) then (ar_looked ar, [MigrationUnavailable spec], [], warned)
  else
    match copyNoClobber (ar_copied ar) (ar_linked ar) spec with
    | (f, Ok _) => (f, [], [MigratedFile spec], spec :: warned)
    | (f, Throw e) => (f, [e], [], warned)
    end.

(** The two files of a directory. *)
Record StateDir := MkStateDir { st_credentials : FileState; st_identity : FileState }.

(** [failures.find(e => e instanceof CredentialsUnavailableError) ?? failures[0]] *)
Definition first_failure (failures : list MigrationError) : option MigrationError :=
  match List.find (fun e => match e with MigrationUnavailable CredentialsFile => true | _ => false end) failures with
  | Some e => Some e
  | None => head failures
  end.

Definition migrateLegacyEkhoState (sameDir : bool) (legacy : StateDir) (arc ari : Around) (warned : list StateFile)
    : StateDir * result MigrationError unit * list MigrationNote * list StateFile :=
  if sameDir then (MkStateDir (ar_looked arc) (ar_looked ari), Ok tt, [], warned)
  else
    let '(c, e1, n1, w1) := migrate_file (st_credentials legacy) CredentialsFile arc warned in
    let '(i, e2, n2, w2) := migrate_file (st_identity legacy) IdentityFile ari w1 in
    (MkStateDir c i, match first_failure (e1 ++ e2) with Some e => Throw e | None => Ok tt end, (n1 ++ n2)%list, w2).

(** ** What it keeps *)

Lemma migrate_file_spec legacy spec ar warned :
  let '(f, errs, notes, warned') := migrate_file legacy spec ar warned in
  (is_absent (ar_looked ar) = false -> f = ar_looked ar /\ errs = []) /\
  (f = ar_looked ar \/ f = ar_linked ar \/
   (is_absent (ar_linked ar) = true /\ ar_copied ar = Some f /\ readUsable f spec = true)) /\
  (errs = [] -> is_absent legacy = false -> is_absent f = false) /\
  (errs <> [] -> is_absent legacy = false /\ is_absent (ar_looked ar) = true).
Proof.
  unfold migrate_file, copyNoClobber. destruct (is_absent legacy); [by split_and!; auto|].
  destruct (is_absent (ar_looked ar)) eqn:Hl; cbn [negb].
  2: { destruct (bool_decide _); split_and!; auto; done. }
  destruct (readUsable legacy spec); cbn [negb]; [|split_and!; auto; done].
  destruct (ar_copied ar) as [f|]; [|split_and!; auto; done].
  destruct (readUsable f spec) eqn:Hu; cbn [negb]; [|split_and!; auto; done].
  destruct (is_absent (ar_linked ar)) eqn:Hk; split_and!; auto; try done.
  intros _ _. unfold readUsable in Hu. by destruct f.
Qed.

Lemma migration_facts sameDir legacy arc ari warned :
  let '(new, r, _, _) := migrateLegacyEkhoState sameDir legacy arc ari warned in
  (is_absent (ar_looked arc) = false -> st_credentials new = ar_looked arc) /\
  (is_absent (ar_looked ari) = false -> st_identity new = ar_looked ari) /\
  (st_credentials new = ar_looked arc \/ st_credentials new = ar_linked arc \/
   is_absent (ar_linked arc) = true /\ readUsable (st_credentials new) CredentialsFile = true) /\
  (st_identity new = ar_looked ari \/ st_identity new = ar_linked ari \/
   is_absent (ar_linked ari) = true /\ readUsable (st_identity new) IdentityFile = true) /\
  (r = Ok tt -> sameDir = false ->
   (is_absent (st_credentials legacy) = false -> is_absent (st_credentials new) = false) /\
   (is_absent (st_identity legacy) = false -> is_absent (st_identity new) = false)) /\
  (forall e, r = Throw e -> is_absent (st_credentials legacy) = false -> is_absent (ar_looked arc) = true ->
     readUsable (st_credentials legacy) CredentialsFile = false -> e = MigrationUnavailable CredentialsFile).
Proof.
  unfold migrateLegacyEkhoState. destruct sameDir; [by split_and!; auto|].
  pose proof (migrate_file_spec (st_credentials legacy) CredentialsFile arc warned) as Hc.
  assert (Hcu : is_absent (st_credentials legacy) = false -> is_absent (ar_looked arc) = true ->
     readUsable (st_credentials legacy) CredentialsFile = false ->
     snd (fst (fst (migrate_file (st_credentials legacy) CredentialsFile arc warned))) = [MigrationUnavailable CredentialsFile])
    by (intros H1 H2 H3; unfold migrate_file; by rewrite H1, H2, H3).
  destruct (migrate_file (st_credentials legacy) _ _ _) as [[[c e1] n1] w1]. destruct Hc as (C1 & C2 & C3 & C4).
  pose proof (migrate_file_spec (st_identity legacy) IdentityFile ari w1) as Hi.
  destruct (migrate_file (st_identity legacy) _ _ _) as [[[i e2] n2] w2]. destruct Hi as (I1 & I2 & I3 & I4).
  cbn [st_credentials st_identity fst snd] in *. split_and!.
  - intros H. by apply C1.
  - intros H. by apply I1.
  - destruct C2 as [?|[?|(? & _ & ?)]]; auto.
  - destruct I2 as [?|[?|(? & _ & ?)]]; auto.
  - intros Hr _. assert (He : (e1 ++ e2)%list = []).
    { destruct (e1 ++ e2)%list as [|x l]; [done|]. unfold first_failure in Hr. by destruct (List.find _ _). }
    apply app_eq_nil in He as [-> ->]. auto.
  - intros e Hr H1 H2 H3. rewrite (Hcu H1 H2 H3) in Hr. by injection Hr.
Qed.

(** Migration keeps what there is: a file in the new place, be it there from the
    start or put there meanwhile by another process, is never overwritten; what is
    put into an empty place is a copy that the loader accepts; when the migration
    succeeds every file the old place had is in the new one; and a failure about
    the credentials is reported before one about the identity. *)
Theorem migration_never_clobbers sameDir legacy arc ari warned :
  let '(new, r, _, _) := migrateLegacyEkhoState sameDir legacy arc ari warned in
  (is_absent (ar_looked arc) = false -> st_credentials new = ar_looked arc) /\
  (is_absent (ar_looked ari) = false -> st_identity new = ar_looked ari) /\
  (st_credentials new = ar_looked arc \/ st_credentials new = ar_linked arc \/
   is_absent (ar_linked arc) = true /\ readUsable (st_credentials new) CredentialsFile = true) /\
  (st_identity new = ar_looked ari \/ st_identity new = ar_linked ari \/
   is_absent (ar_linked ari) = true /\ readUsable (st_identity new) IdentityFile = true) /\
  (r = Ok tt -> sameDir = false ->
   (is_absent (st_credentials legacy) = false -> is_absent (st_credentials new) = false) /\
   (is_absent (st_identity legacy) = false -> is_absent (st_identity new) = false)) /\
  (forall e, r = Throw e -> is_absent (st_credentials legacy) = false -> is_absent (ar_looked arc) = true ->
     readUsable (st_credentials legacy) CredentialsFile = false -> e = MigrationUnavailable CredentialsFile).
Proof. apply migration_facts. Qed.

(** C20. An agent is never taken for a new one: when the migration before a connect
    succeeds and the old or the new place held a credentials file, the connect never
    asks to enrol anew; and when either held an identity file, the identity the
    agent loads is the one in that file, and none is minted whatever the config
    allows. *)
Theorem migrated_agent_stays_itself legacy arc ari warned new notes warned' cfg allow seed dir' i :
  migrateLegacyEkhoState false legacy arc ari warned = (new, Ok tt, notes, warned') ->
  (is_absent (st_credentials legacy) = false \/ is_absent (ar_looked arc) = false ->
   enrollOrLoad_start cfg (st_credentials new) <> PostEnrolment) /\
  (is_absent (st_identity legacy) = false \/ is_absent (ar_looked ari) = false ->
   loadOrCreateIdentity (MkIdentityDir (st_identity new) []) allow seed = (dir', Ok i) ->
   exists data, st_identity new = FileBytes (Some data) /\ identity_of_json data = Some i).
Proof.
  intros Hm. pose proof (migration_facts false legacy arc ari warned) as Hf. rewrite Hm in Hf.
  destruct Hf as (F1 & F2 & _ & _ & F5 & _). destruct (F5 eq_refl eq_refl) as [F6 F7]. split.
  - intros Hor. assert (Ha : is_absent (st_credentials new) = false) by (destruct Hor as [?|?]; [auto|by rewrite F1]).
    unfold enrollOrLoad_start. destruct (explicit_credentials cfg) as [[??]|]; [done|].
    assert (Hs : storedCredentialsState (st_credentials new) <> StoredAbsent).
    { unfold storedCredentialsState. destruct (st_credentials new) as [| |[parsed|]]; try done.
      by destruct (string_field parsed "agentId"), (string_field parsed "secret"). }
    by destruct (storedCredentialsState (st_credentials new)).
  - intros Hor Hl. assert (Ha : is_absent (st_identity new) = false) by (destruct Hor as [?|?]; [auto|by rewrite F2]).
    unfold loadOrCreateIdentity in Hl. cbn [dir_identity] in Hl.
    destruct (st_identity new) as [| |[data|]]; try done. exists data. split; [done|].
    destruct (identity_of_json data) as [i'|]; [congruence|done].
Qed.

(** ** An example *)

Definition old_install : StateDir :=
  MkStateDir (FileBytes (Some (JObj [("agentId", JStr "a1"); ("secret", JStr "s")])))
             (FileBytes (Some (JObj [("seedHex", JStr "00ff")]))).

Definition copied_whole (f : FileState) : Around := MkAround FileAbsent (Some f) FileAbsent.

Lemma migrated_agent_stays_itself_witness :
  fst (fst (fst (migrateLegacyEkhoState false old_install (copied_whole (st_credentials old_install))
    (copied_whole (st_identity old_install)) []))) = old_install /\
  enrollOrLoad_start (MkPluginConfig "https://relay" (Some "fleet") (Some "token") None None None false)
    (st_credentials old_install) <> PostEnrolment.
Proof.
  split; [reflexivity|].
  apply (proj1 (migrated_agent_stays_itself old_install (copied_whole (st_credentials old_install))
    (copied_whole (st_identity old_install)) [] old_install [MigratedFile CredentialsFile; MigratedFile IdentityFile]
    [IdentityFile; CredentialsFile]
    (MkPluginConfig "https://relay" (Some "fleet") (Some "token") None None None false) false "seed" (MkIdentityDir FileAbsent [])
    (MkEkhoIdentity "00ff" ∅ None ∅ ∅) ltac:(vm_compute; reflexivity))).
  left. reflexivity.
Defined.
