(* ===== verification/ConnectorEdge.v ===== *)
(** * The connector's edge

    [packages/mcp-connector/src/auth.ts] and the router of [http.ts]: the bearer,
    the token bucket, the body cap, the client key, and the order of the checks in
    front of the MCP endpoint.  The fractions of a token are kept exactly, in
    60000ths. *)

From S2P Require Import Prelude Json IsoTime JsValues Identity TrustSync Text JsMap IdentityFile PluginRuntime.
Import Ascii String.
Open Scope string_scope.
Open Scope Z_scope.

(** ** The bearer *)

(** [/^\s*Bearer\s+(\S+)\s*$/i] *)
Definition bearerFromHeader (header : option string) : option string :=
  match header with
  | None => None
  | Some h =>
      let body := drop_while Prelude.is_space (chars h) in
      match strip_prefix (chars "bearer") (map lower (take 6 body)) with
      | Some [] =>
          let rest := drop 6 body in
          let token := take_while (fun c => negb (Prelude.is_space c)) (drop_while Prelude.is_space rest) in
          let after := drop_while (fun c => negb (Prelude.is_space c)) (drop_while Prelude.is_space rest) in
          match rest with
          | c :: _ => if Prelude.is_space c && (0 <? length token)%nat && List.forallb Prelude.is_space after
                      then Some (text token) else None
          | [] => None
          end
      | _ => None
      end
  end.

Inductive AuthDecision := AuthOk (subject : string) | AuthRefused (error : string).

(** Both sides are hashed; [sha] is SHA-256. *)
Definition constantTimeEqual (sha : string -> string) (a b : string) : bool := sha a ==? sha b.

Definition static_authenticate (sha : string -> string) (token : string) (header : option string) : AuthDecision :=
  match bearerFromHeader header with
  | Some presented => if constantTimeEqual sha presented token then AuthOk "bearer" else AuthRefused "invalid_token"
  | None => AuthRefused "unauthorized"
  end.

(** ** The token bucket *)

(** The default of [maxKeys]. *)
Definition MAX_KEYS : nat := Z.to_nat 10000.

(** One token. *)
Definition TOKEN : Z := 60000.

Record EdgeBucket := MkBucket { bk_tokens : Z; bk_updatedAt : Z }.

Definition ceil_div (a b : Z) : Z := - ((- a) / b).

(** The seconds to wait, or [None] when a token was taken. *)
Definition take_token (perMinute : Z) (maxKeys : nat) (now : Z) (key : string) (buckets : list (string * EdgeBucket))
    : list (string * EdgeBucket) * option Z :=
  let b := match js_get key buckets with
           | None => MkBucket (perMinute * TOKEN) now
           | Some b => MkBucket (Z.min (perMinute * TOKEN) (bk_tokens b + (now - bk_updatedAt b) * perMinute)) now
           end in
  let enough := TOKEN <=? bk_tokens b in
  let b' := if enough then MkBucket (bk_tokens b - TOKEN) now else b in
  (js_evict maxKeys (js_delete key buckets ++ [(key, b')])%list,
   if enough then None else Some (Z.max 1 (ceil_div (TOKEN - bk_tokens b) (perMinute * 1000)))).

(** ** Bodies and clients *)

(** [declared] is a Content-Length that is a number; the chunks in order. *)
Fixpoint read_chunks (cap : nat) (total : list Z) (chunks : list (list Z)) : option (list Z) :=
  match chunks with
  | [] => Some total
  | c :: chunks' =>
      if (cap <? length total + length c)%nat then None else read_chunks cap (total ++ c)%list chunks'
  end.

Definition readBodyCapped (cap : nat) (declared : option Z) (chunks : list (list Z)) : option (list Z) :=
  if match declared with Some n => Z.of_nat cap <? n | None => false end then None
  else read_chunks cap [] chunks.

(** [xff] is the header, joined when it came more than once. *)
Definition clientKey (xff : option string) (remoteAddress : option string) (trustProxy : bool) (hops : Z) : string :=
  let socket := default "unknown" remoteAddress in
  if trustProxy then
    let parts := List.filter (fun s => negb (s ==? "")) (map trim (split_comma (default "" xff))) in
    let depth := Z.to_nat (if 1 <=? hops then hops else 1) in
    if (depth <=? length parts)%nat then default socket (parts !! (length parts - depth)%nat) else socket
  else socket.

(** ** The router *)

Record EdgeConfig := MkEdge {
  eg_mcpPath : string; eg_oauth : bool; eg_bodyCap : nat; eg_perMinute : Z; eg_trustProxy : bool; eg_hops : Z
}.

Record EdgeRequest := MkEdgeRequest {
  er_method : string;
  er_path : string;                    (* the path of the URL *)
  er_authorization : option string;
  er_xff : option string;
  er_remote : option string;
  er_length : option Z;
  er_chunks : list (list Z)
}.

(** Where a request ends up. *)
Inductive Routed :=
  | RateLimited (retryAfter : Z)
  | Healthz
  | ResourceMetadata
  | ServerMetadata
  | OAuthEndpoint (path : string)
  | Unauthenticated (error : string)
  | PayloadTooLarge
  | ParseError
  | McpCall (subject : string) (body : list Z) (call : json)
  | MethodNotAllowed
  | NotFound.

(** [pathname.replace(/\/+$/, "")] of a path longer than one character *)
Definition strip_slashes_end (p : string) : string :=
  if (1 <? String.length p)%nat then text (List.rev (drop_while (fun c => c ==? "/"%char) (List.rev (chars p)))) else p.

(** [authenticate] is the scheme in force; [parse] is [JSON.parse] of the bytes. *)
Definition handle (cfg : EdgeConfig) (authenticate : option string -> AuthDecision) (parse : list Z -> option json)
    (buckets : list (string * EdgeBucket)) (now : Z) (req : EdgeRequest) : list (string * EdgeBucket) * Routed :=
  let key := clientKey (er_xff req) (er_remote req) (eg_trustProxy cfg) (eg_hops cfg) in
  let '(buckets', limit) := take_token (eg_perMinute cfg) MAX_KEYS now key buckets in
  (buckets',
   match limit with
   | Some retry => RateLimited retry
   | None =>
       let pathname := strip_slashes_end (er_path req) in
       let get := er_method req ==? "GET" in
       if (pathname ==? "/healthz") && get then Healthz
       else if eg_oauth cfg && get && ((pathname ==? "/.well-known/oauth-protected-resource")
                 || (pathname ==? "/.well-known/oauth-protected-resource" +:+ eg_mcpPath cfg)) then ResourceMetadata
       else if eg_oauth cfg && get && ((pathname ==? "/.well-known/oauth-authorization-server")
                 || (pathname ==? "/.well-known/openid-configuration")) then ServerMetadata
       else if eg_oauth cfg && starts_with "/oauth/" pathname then OAuthEndpoint pathname
       else if pathname ==? eg_mcpPath cfg then
         match authenticate (er_authorization req) with
         | AuthRefused error => Unauthenticated error
         | AuthOk subject =>
             if er_method req ==? "POST" then
               match readBodyCapped (eg_bodyCap cfg) (er_length req) (er_chunks req) with
               | None => PayloadTooLarge
               | Some body => match parse body with
                              | None => ParseError
                              | Some call => McpCall subject body call
                              end
               end
             else MethodNotAllowed
         end
       else NotFound
   end).

(** * Properties of the connector's edge

    The token bucket bounds every client and tells it when to come back; the key a
    client is bucketed under is the proxy's word; what reaches the MCP endpoint. *)

(** ** The bucket *)

Section Bucket.
Context (perMinute : Z) (maxKeys : nat).
Hypothesis perMinute_pos : 1 <= perMinute.

Implicit Types buckets : list (string * EdgeBucket).

(** What client [k] has at time [t]. *)
Definition credit (t : Z) (k : string) buckets : Z :=
  match js_get k buckets with
  | None => perMinute * TOKEN
  | Some b => Z.min (perMinute * TOKEN) (bk_tokens b + (t - bk_updatedAt b) * perMinute)
  end.

Lemma js_get_snoc_delete k k' (v : EdgeBucket) buckets :
  js_get k (js_delete k' buckets ++ [(k', v)])%list = if bool_decide (k' = k) then Some v else js_get k buckets.
Proof.
  rewrite js_get_app, js_get_delete, js_get_cons, js_get_nil. case_bool_decide; [done|]. by destruct (js_get k buckets).
Qed.

Lemma credit_later t t' k buckets : t <= t' -> credit t' k buckets <= credit t k buckets + (t' - t) * perMinute.
Proof. intros Ht. unfold credit. destruct (js_get k buckets); nia. Qed.

(** The bucket of [k] holds something, from the past. *)
Definition sane (t : Z) (k : string) buckets : Prop :=
  forall b, js_get k buckets = Some b -> bk_updatedAt b <= t /\ 0 <= bk_tokens b.

Lemma credit_sane t k buckets : sane t k buckets -> 0 <= credit t k buckets <= perMinute * TOKEN.
Proof. unfold sane, credit, TOKEN. destruct (js_get k buckets) as [b|]; [|lia]. intros Hs. destruct (Hs b eq_refl). nia. Qed.

(** The keys stay among [ks], so nothing is evicted. *)
Definition within (ks : list string) buckets : Prop := NoDup (js_keys buckets) /\ js_keys buckets ⊆ ks.

Lemma snoc_delete_within ks k v buckets :
  k ∈ ks -> within ks buckets -> within ks (js_delete k buckets ++ [(k, v)])%list.
Proof.
  intros Hk [Hnd Hsub]. unfold within, js_keys. rewrite map_app. simpl.
  assert (Hd : forall k', k' ∈ map fst (js_delete k buckets) -> k' ∈ js_keys buckets /\ k' <> k).
  { intros k' Hin. change (map fst (js_delete k buckets)) with (js_keys (js_delete k buckets)) in Hin.
    rewrite js_keys_delete in Hin. apply elem_of_where in Hin as [? Hb]. split; [done|].
    by apply negb_true_iff, bool_decide_eq_false in Hb. }
  split.
  - apply NoDup_app. split_and!; [by apply js_delete_NoDup| |apply NoDup_singleton].
    intros k' Hin ->%list_elem_of_singleton. by apply Hd in Hin as [_ ?].
  - intros k' [Hin|Hin]%elem_of_app; [by apply Hsub, Hd|]. by apply list_elem_of_singleton in Hin as ->.
Qed.

Lemma evict_within ks buckets : (length ks <= maxKeys)%nat -> within ks buckets -> js_evict maxKeys buckets = buckets.
Proof.
  intros Hl [Hnd Hsub]. unfold js_evict.
  assert (length buckets <= length ks)%nat.
  { rewrite <- (length_map fst buckets). apply NoDup_incl_length; [by apply NoDup_ListNoDup|].
    intros x Hx. apply list_elem_of_In, Hsub. by apply list_elem_of_In. }
  by replace (length buckets - maxKeys)%nat with 0%nat by lia.
Qed.

(** A take that sweeps the bucket of [k] out of the table. *)
Definition sweeps_out (k key : string) buckets buckets' : bool :=
  ((key ==? k) || bool_decide (k ∈ js_keys buckets)) && negb (bool_decide (k ∈ js_keys buckets')).

Lemma snoc_delete_NoDup k v buckets :
  NoDup (js_keys buckets) -> NoDup (js_keys (js_delete k buckets ++ [(k, v)])%list).
Proof. intros Hnd. apply (snoc_delete_within (k :: js_keys buckets)); [by left|]. split; [done|]. intros x Hx. by right. Qed.

(** The table after a take: the bucket of [k] as it was put, or gone. *)
Lemma evict_get k buckets :
  NoDup (js_keys buckets) ->
  js_get k (js_evict maxKeys buckets) = js_get k buckets \/
  (js_get k (js_evict maxKeys buckets) = None /\ k ∈ js_keys buckets /\ k ∉ js_keys (js_evict maxKeys buckets)).
Proof.
  intros Hnd. destruct (js_get k (js_evict maxKeys buckets)) as [b|] eqn:E.
  - left. symmetry. apply js_get_elem; [done|]. by eapply js_evict_elem, js_get_Some_elem.
  - destruct (js_get k buckets) as [b|] eqn:E2; [|by left]. right. apply js_get_None in E. split_and!; [done| |done].
    apply js_get_Some_elem in E2. apply list_elem_of_fmap. by exists (k, b).
Qed.

(** One take, on the credit of any client: being swept out fills its bucket. *)
Lemma take_credit now key buckets buckets' wait t k :
  NoDup (js_keys buckets) -> t <= now ->
  take_token perMinute maxKeys now key buckets = (buckets', wait) ->
  NoDup (js_keys buckets') /\ (sane t k buckets -> sane now k buckets') /\
  (sane t k buckets ->
   credit now k buckets' + (if (key ==? k) && (wait ==? None) then TOKEN else 0) <=
   credit t k buckets + (now - t) * perMinute + (if sweeps_out k key buckets buckets' then perMinute * TOKEN else 0)).
Proof.
  intros Hnd Ht. unfold take_token.
  set (b := match js_get key buckets with None => _ | Some _ => _ end).
  assert (Hb : bk_tokens b = credit now key buckets /\ bk_updatedAt b = now)
    by (unfold b, credit; by destruct (js_get key buckets)).
  destruct Hb as [Hb1 Hb2]. set (enough := TOKEN <=? bk_tokens b).
  set (b' := if enough then _ else b). set (put := (js_delete key buckets ++ [(key, b')])%list). intros [= <- <-].
  pose proof (snoc_delete_NoDup key b' buckets Hnd) as Hput. fold put in Hput.
  assert (Hsane : sane t k buckets -> sane now k put).
  { intros Hs b0. unfold put. rewrite js_get_snoc_delete. case_bool_decide as E; [subst k|intros Hg; destruct (Hs b0 Hg); lia].
    intros [= <-]. assert (Hn : 0 <= bk_tokens b).
    { rewrite Hb1. unfold credit. destruct (js_get key buckets) as [b1|] eqn:Hg; [|unfold TOKEN; lia].
      destruct (Hs b1 Hg). unfold TOKEN. nia. }
    unfold b', enough. destruct (Z.leb_spec TOKEN (bk_tokens b)); cbn [bk_tokens bk_updatedAt]; lia. }
  assert (Hone : credit now k put + (if (key ==? k) && ((if enough then None else Some (Z.max 1 (ceil_div (TOKEN - bk_tokens b) (perMinute * 1000)))) ==? None) then TOKEN else 0)
                 <= credit t k buckets + (now - t) * perMinute).
  { pose proof (credit_later t now k buckets Ht) as Hup.
    unfold credit at 1, put. rewrite js_get_snoc_delete. case_bool_decide as E; [subst k|].
    - assert (Hcap : bk_tokens b <= perMinute * TOKEN) by (rewrite Hb1; unfold credit; destruct (js_get key buckets); lia).
      unfold b', enough. destruct (Z.leb_spec TOKEN (bk_tokens b)); cbn [bk_tokens bk_updatedAt andb].
      + rewrite bool_decide_true by done. rewrite Z.sub_diag. unfold TOKEN in *. lia.
      + rewrite bool_decide_false by done. rewrite Hb2, Z.sub_diag. lia.
    - cbn [andb]. fold (credit now k buckets). lia. }
  assert (0 <= perMinute * TOKEN) by (unfold TOKEN; lia).
  split; [by apply js_evict_NoDup|].
  destruct (evict_get k put Hput) as [Hg|(Hg & Hin & Hout)].
  - split; [intros Hs b0; rewrite Hg; by apply Hsane|]. intros _. unfold credit at 1. rewrite Hg. fold (credit now k put).
    destruct (sweeps_out _ _ _ _); lia.
  - split; [intros _ b0; by rewrite Hg|]. intros Hs. assert (sweeps_out k key buckets (js_evict maxKeys put) = true) as ->.
    { unfold sweeps_out. rewrite (bool_decide_false (k ∈ js_keys (js_evict maxKeys put))) by done. rewrite andb_true_r.
      destruct (decide (key = k)) as [->|Hne]; [by rewrite bool_decide_true|]. apply orb_true_iff. right.
      apply bool_decide_eq_true. destruct (js_get k buckets) as [b0|] eqn:E0.
      - apply js_get_Some_elem in E0. apply list_elem_of_fmap. by exists (k, b0).
      - exfalso. revert Hin. apply js_get_None. unfold put. by rewrite js_get_snoc_delete, bool_decide_false. }
    pose proof (credit_sane now k put (Hsane Hs)). unfold credit at 1. rewrite Hg. lia.
Qed.

Fixpoint take_run (reqs : list (Z * string)) buckets : list (string * EdgeBucket) * list (string * option Z) :=
  match reqs with
  | [] => (buckets, [])
  | (now, key) :: reqs' =>
      let '(b1, wait) := take_token perMinute maxKeys now key buckets in
      let '(b2, out) := take_run reqs' b1 in (b2, (key, wait) :: out)
  end.

(** The requests of client [k] that were let through. *)
Definition admitted (k : string) (out : list (string * option Z)) : Z :=
  Z.of_nat (length (List.filter (fun o => (fst o ==? k) && (snd o ==? None)) out)).

(** Times do not go back, from [t] to [t']. *)
Fixpoint ordered (t : Z) (reqs : list (Z * string)) (t' : Z) : Prop :=
  match reqs with [] => t <= t' | (now, _) :: reqs' => t <= now /\ ordered now reqs' t' end.

(** How often the bucket of [k] is swept out in a run. *)
Fixpoint swept_out (k : string) (reqs : list (Z * string)) buckets : nat :=
  match reqs with
  | [] => 0
  | (now, key) :: reqs' =>
      let b1 := fst (take_token perMinute maxKeys now key buckets) in
      (if sweeps_out k key buckets b1 then 1 else 0) + swept_out k reqs' b1
  end.

Lemma run_credit reqs buckets t t' k :
  NoDup (js_keys buckets) -> ordered t reqs t' -> sane t k buckets ->
  let '(buckets', out) := take_run reqs buckets in
  sane t' k buckets' /\
  credit t' k buckets' + admitted k out * TOKEN <=
  credit t k buckets + (t' - t) * perMinute + Z.of_nat (swept_out k reqs buckets) * (perMinute * TOKEN).
Proof.
  revert buckets t. induction reqs as [|[now key] reqs IH]; intros buckets t Hnd Ho Hs; cbn [take_run swept_out].
  - split; [intros b Hb; destruct (Hs b Hb); cbn in Ho; lia|]. change (admitted k []) with 0. pose proof (credit_later t t' k buckets Ho). lia.
  - cbn in Ho. destruct Ho as [Ht Ho].
    destruct (take_token perMinute maxKeys now key buckets) as [b1 wait] eqn:E.
    destruct (take_credit now key buckets b1 wait t k Hnd Ht E) as (Hnd1 & Hs1 & Hc). cbn [fst].
    specialize (IH b1 now Hnd1 Ho (Hs1 Hs)). specialize (Hc Hs).
    destruct (take_run reqs b1) as [b2 out]. destruct IH as [Hs2 IH]. split; [auto|]. unfold admitted in *. cbn [List.filter fst snd].
    destruct ((key ==? k) && (wait ==? None)), (sweeps_out k key buckets b1); cbn [length]; lia.
Qed.

(** Clients that fit the table are not swept out. *)
Lemma swept_none ks k reqs : forall buckets,
  (length ks <= maxKeys)%nat -> within ks buckets -> map snd reqs ⊆ ks -> swept_out k reqs buckets = 0%nat.
Proof.
  induction reqs as [|[now key] reqs IH]; intros buckets Hl Hw Hks; [done|]. cbn [swept_out]. unfold take_token. cbn [fst].
  set (b' := if _ <=? _ then _ else _). set (put := (js_delete key buckets ++ [(key, b')])%list).
  assert (Hp : within ks put) by (apply snoc_delete_within; [apply Hks; by left|done]).
  rewrite (evict_within ks) by done. rewrite (IH put); [|done|done|intros x Hx; apply Hks; by right].
  assert (sweeps_out k key buckets put = false) as ->; [|done]. unfold sweeps_out.
  destruct (decide (k ∈ js_keys put)) as [Hin|Hout]; [by rewrite (bool_decide_true _ Hin), andb_false_r|].
  apply js_get_None in Hout. unfold put in Hout. rewrite js_get_snoc_delete in Hout.
  destruct (decide (key = k)) as [->|Hne]; [by rewrite bool_decide_true in Hout|]. rewrite bool_decide_false in Hout by done.
  apply js_get_None in Hout. by rewrite (bool_decide_false _ Hne), (bool_decide_false _ Hout).
Qed.

(** C21. The token bucket bounds every client: over any stretch of time a client gets
    through at most its minute's worth and what that time refills, however it and
    the others ask, and once more its minute's worth for each time the table, which
    is bounded, swept its bucket out while others asked.  When the clients seen fit
    the table no bucket is swept out; when they do not, a client that returns finds a
    full one ([swept_client_starts_full]). *)
Theorem bucket_bounds_clients reqs buckets t t' k :
  NoDup (js_keys buckets) -> ordered t reqs t' -> sane t k buckets ->
  admitted k (snd (take_run reqs buckets)) <=
    perMinute * (1 + Z.of_nat (swept_out k reqs buckets)) + (t' - t) * perMinute / TOKEN /\
  (forall ks, (length ks <= maxKeys)%nat -> within ks buckets -> map snd reqs ⊆ ks ->
   admitted k (snd (take_run reqs buckets)) <= perMinute + (t' - t) * perMinute / TOKEN).
Proof.
  intros Hnd Ho Hs. pose proof (run_credit reqs buckets t t' k Hnd Ho Hs) as Hr.
  enough (admitted k (snd (take_run reqs buckets)) <=
    perMinute * (1 + Z.of_nat (swept_out k reqs buckets)) + (t' - t) * perMinute / TOKEN) as Hb.
  { split; [done|]. intros ks Hl Hw Hks. rewrite (swept_none ks) in Hb by done. lia. }
  destruct (take_run reqs buckets) as [b' out]. destruct Hr as [Hs' Hr]. cbn [snd].
  pose proof (credit_sane t k buckets Hs). pose proof (credit_sane t' k b' Hs').
  rewrite <- Z.div_add_l by (unfold TOKEN; lia). apply Z.div_le_lower_bound; unfold TOKEN in *; lia.
Qed.

(** The table never grows past its size. *)
Lemma take_length now key buckets :
  (length (fst (take_token perMinute maxKeys now key buckets)) <= maxKeys)%nat.
Proof. unfold take_token. cbn [fst]. apply js_evict_length. Qed.

(** The wait it names is honest: a client that was refused and then asks again
    no sooner than it was told, without asking in between, gets through, whatever the
    other clients did. *)
Theorem bucket_wait_is_honest ks now key buckets buckets' s reqs t' :
  (length ks <= maxKeys)%nat -> within ks buckets -> key ∈ ks -> map snd reqs ⊆ ks -> key ∉ map snd reqs ->
  take_token perMinute maxKeys now key buckets = (buckets', Some s) ->
  now + 1000 * s <= t' ->
  snd (take_token perMinute maxKeys t' key (fst (take_run reqs buckets'))) = None.
Proof.
  intros Hl Hw Hk Hks Hni Ht Hs.
  assert (Hb' : within ks buckets' /\ exists b, js_get key buckets' = Some b /\ bk_updatedAt b = now /\
            bk_tokens b < TOKEN /\ TOKEN <= bk_tokens b + 1000 * s * perMinute).
  { revert Ht. unfold take_token. set (b := match js_get key buckets with None => _ | Some _ => _ end).
    assert (Hu : bk_updatedAt b = now) by (unfold b; by destruct (js_get key buckets)).
    destruct (Z.leb_spec TOKEN (bk_tokens b)) as [|Hlt]; [done|].
    rewrite (evict_within ks); [|done|by apply snoc_delete_within]. intros [= <- <-].
    split; [by apply snoc_delete_within|]. exists b. rewrite js_get_snoc_delete, bool_decide_true by done.
    split_and!; [done|done|done|].
    set (q := ceil_div (TOKEN - bk_tokens b) (perMinute * 1000)).
    assert (Hq : TOKEN - bk_tokens b <= q * (perMinute * 1000)).
    { unfold q, ceil_div. pose proof (Z.mul_div_le (- (TOKEN - bk_tokens b)) (perMinute * 1000) ltac:(lia)). lia. }
    nia. }
  destruct Hb' as (Hw' & b & Hb & Hu & _ & Henough). clear Ht Hw buckets.
  assert (Hrun : js_get key (fst (take_run reqs buckets')) = Some b).
  { revert buckets' Hw' Hb. induction reqs as [|[t k] reqs IH]; intros bs Hw Hb; cbn [take_run]; [done|].
    cbn in Hks, Hni. assert (Hne : k <> key) by (intros ->; apply Hni; by left).
    destruct (take_token perMinute maxKeys t k bs) as [b1 wait] eqn:E.
    assert (Hb1 : within ks b1 /\ js_get key b1 = Some b).
    { unfold take_token in E. injection E as <- _.
      rewrite (evict_within ks); [|done|apply snoc_delete_within; [apply Hks; by left|done]].
      split; [apply snoc_delete_within; [apply Hks; by left|done]|].
      by rewrite js_get_snoc_delete, bool_decide_false. }
    destruct Hb1 as [Hw1 Hb1]. specialize (IH ltac:(intros x Hx; apply Hks; by right) ltac:(intros Hx; apply Hni; by right) b1 Hw1 Hb1).
    by destruct (take_run reqs b1). }
  unfold take_token. rewrite Hrun. cbn [snd bk_tokens]. rewrite Hu.
  rewrite (proj2 (Z.leb_le _ _)); [done|]. unfold TOKEN in *. nia.
Qed.
End Bucket.

(** ** The client key *)

Lemma split_comma_app x y : split_comma (x +:+ String ","%char y) = (split_comma x ++ split_comma y)%list.
Proof.
  induction x as [|c x IH]; [done|]. simpl. destruct (c ==? ","%char); [by rewrite IH|].
  rewrite IH. destruct (split_comma x) eqn:E; [|done]. exfalso. clear IH. destruct x as [|d x]; simpl in E; [done|].
  destruct (d ==? ","%char); [done|]. by destruct (split_comma x).
Qed.

Lemma split_comma_plain a : ","%char ∉ chars a -> split_comma a = [a].
Proof.
  induction a as [|c a IH]; [done|]. simpl. rewrite not_elem_of_cons. intros [Hc Ha].
  rewrite bool_decide_false by congruence. by rewrite IH.
Qed.

(** The entries of a header. *)
Definition entries (h : string) : list string := List.filter (fun s => negb (s ==? "")) (map trim (split_comma h)).

(** An address as a proxy writes it. *)
Definition address (a : string) : Prop := a <> "" /\ trim a = a /\ ","%char ∉ chars a.

(** A proxy appends the address of its peer. *)
Definition append_hop (h : option string) (a : string) : option string :=
  Some match h with Some h => h +:+ ", " +:+ a | None => a end.

Lemma entries_address a : address a -> entries a = [a].
Proof. intros (Hne & Ht & Hc). unfold entries. rewrite split_comma_plain by done. simpl. rewrite Ht. by rewrite bool_decide_false. Qed.

Lemma trim_space a : trim (String " "%char a) = trim a.
Proof. done. Qed.

Lemma entries_hop h a : address a -> entries (h +:+ ", " +:+ a) = (entries h ++ [a])%list.
Proof.
  intros (Hne & Ht & Hc). unfold entries. change (h +:+ ", " +:+ a) with (h +:+ String ","%char (String " "%char a)).
  rewrite split_comma_app, map_app, List.filter_app.
  rewrite (split_comma_plain (String " "%char a)) by (simpl; rewrite not_elem_of_cons; split; [done|done]).
  simpl. rewrite trim_space, Ht. by rewrite bool_decide_false.
Qed.

Lemma entries_hops client hops :
  Forall address hops ->
  entries (default "" (foldl append_hop client hops)) = (entries (default "" client) ++ hops)%list.
Proof.
  intros Hf. revert client. induction Hf as [|a hops Ha Hf IH]; intros client; [by rewrite app_nil_r|].
  cbn [foldl]. rewrite IH. destruct client as [h|].
  - change (default "" (append_hop (Some h) a)) with (h +:+ ", " +:+ a). change (default "" (Some h)) with h.
    rewrite entries_hop by done. by rewrite <- app_assoc.
  - change (default "" (append_hop None a)) with a. by rewrite entries_address.
Qed.

(** Nobody chooses its own bucket: behind [n] proxies that each append the
    address of their peer, the key of a request is the address the outermost of them
    saw, whatever the client itself wrote into the header; and without a trusted
    proxy it is the address of the socket, whatever the header says. *)
Theorem client_key_is_the_proxys client remote hops first rest :
  hops = first :: rest -> Forall address hops ->
  clientKey (foldl append_hop client hops) remote true (Z.of_nat (length hops)) = first /\
  forall xff n, clientKey xff remote false n = default "unknown" remote.
Proof.
  intros -> Hf. split; [|done]. unfold clientKey. fold (entries (default "" (foldl append_hop client (first :: rest)))).
  rewrite entries_hops by done. set (es := entries (default "" client)).
  rewrite (proj2 (Z.leb_le _ _)) by (simpl; lia). rewrite Nat2Z.id, length_app.
  rewrite (proj2 (Nat.leb_le _ _)) by lia.
  replace (length es + length (first :: rest) - length (first :: rest))%nat with (length es) by lia.
  by rewrite lookup_app_r, Nat.sub_diag by lia.
Qed.

(** ** What reaches the endpoint *)

Lemma read_chunks_spec cap total chunks body :
  read_chunks cap total chunks = Some body <->
  body = (total ++ concat chunks)%list /\ ((length body <= cap)%nat \/ chunks = []).
Proof.
  revert total. induction chunks as [|c chunks IH]; intros total; simpl.
  - rewrite app_nil_r. split; [intros [= <-]; auto|intros [-> _]; done].
  - destruct (Nat.ltb_spec cap (length total + length c)).
    + split; [done|]. intros [-> [Hl|Hl]]; [|done]. rewrite !length_app in Hl. lia.
    + rewrite IH, <- app_assoc. split; [intros [-> [Hl|Hl]]; (split; [done|left])|intros [-> [Hl|Hl]]; split; [done|by left|done|done]].
      * done.
      * subst chunks. simpl. rewrite app_nil_r, length_app. lia.
Qed.

(** What reaches the MCP endpoint is exactly what may: a POST to its path whose
    authorization the scheme in force accepts, whose body is all the bytes sent, at
    most the cap and declared no longer, and parses; taken only when the bucket of the
    client's key had a token. *)
Theorem mcp_call_exact cfg authenticate parse buckets now req subject body call :
  strip_slashes_end (er_path req) = eg_mcpPath cfg -> eg_mcpPath cfg <> "/healthz" ->
  starts_with "/oauth/" (eg_mcpPath cfg) = false ->
  snd (handle cfg authenticate parse buckets now req) = McpCall subject body call <->
  er_method req = "POST" /\ authenticate (er_authorization req) = AuthOk subject /\
  body = concat (er_chunks req) /\ (length body <= eg_bodyCap cfg)%nat /\
  (forall n, er_length req = Some n -> n <= Z.of_nat (eg_bodyCap cfg)) /\ parse body = Some call /\
  snd (take_token (eg_perMinute cfg) MAX_KEYS now (clientKey (er_xff req) (er_remote req) (eg_trustProxy cfg) (eg_hops cfg)) buckets) = None.
Proof.
  intros Hpath Hh Ho. unfold handle.
  destruct (take_token _ _ _ _ _) as [b' [s|]]; cbn [snd]; [split; [done|naive_solver]|].
  rewrite Hpath, (bool_decide_false (eg_mcpPath cfg = "/healthz")) by done. cbn [andb].
  rewrite Ho, andb_false_r, (bool_decide_true (eg_mcpPath cfg = eg_mcpPath cfg)) by done.
  destruct (decide (er_method req = "GET")) as [Hg|Hg].
  { rewrite (bool_decide_true (er_method req = "GET")) by done. split; [|intros (Hp & _); congruence].
    rewrite (bool_decide_false (er_method req = "POST")) by congruence.
    repeat (destruct (_ && _ && _); [done|]). by destruct (authenticate _). }
  rewrite (bool_decide_false (er_method req = "GET")) by done. rewrite andb_false_r. cbn [andb].
  destruct (authenticate (er_authorization req)) as [sub|e]; [|split; [done|naive_solver]].
  destruct (decide (er_method req = "POST")) as [Hp|Hp]; [|rewrite bool_decide_false by done; split; [done|naive_solver]].
  rewrite bool_decide_true by done. unfold readBodyCapped.
  assert (Hd : (if match er_length req with Some n => Z.of_nat (eg_bodyCap cfg) <? n | None => false end then True else False)
               <-> ~ (forall n, er_length req = Some n -> n <= Z.of_nat (eg_bodyCap cfg))).
  { destruct (er_length req) as [n|]; [|naive_solver]. destruct (Z.ltb_spec (Z.of_nat (eg_bodyCap cfg)) n).
    - split; [|done]. intros _ Hn. specialize (Hn n eq_refl). lia.
    - split; [done|]. intros Hn. apply Hn. intros ? [= <-]. done. }
  destruct (match er_length req with Some n => _ | None => _ end).
  { split; [done|]. intros (_ & _ & _ & _ & Hl & _). by apply Hd in Hl. }
  assert (Hdl : forall n, er_length req = Some n -> n <= Z.of_nat (eg_bodyCap cfg)).
  { destruct (er_length req) as [n|]; [|done]. intros ? [= <-].
    destruct (Z_le_gt_dec n (Z.of_nat (eg_bodyCap cfg))); [done|]. exfalso. apply Hd. intros Hn. specialize (Hn n eq_refl). lia. }
  assert (Hrc : forall bd, read_chunks (eg_bodyCap cfg) [] (er_chunks req) = Some bd <->
            bd = concat (er_chunks req) /\ (length bd <= eg_bodyCap cfg)%nat).
  { intros bd. rewrite read_chunks_spec. cbn [Datatypes.app]. split; [|tauto].
    intros [-> [?|E]]; [done|rewrite E; simpl; split; [done|lia]]. }
  destruct (read_chunks _ _ _) as [bd|].
  - destruct (proj1 (Hrc bd) eq_refl) as [-> Hcap]. destruct (parse _) as [cl|] eqn:Hparse.
    + split; [intros [= <- <- <-]; by split_and!|]. intros (_ & [= ->] & -> & _ & _ & Hpc & _). rewrite Hparse in Hpc. by injection Hpc as ->.
    + split; [done|]. intros (_ & _ & -> & _ & _ & Hpc & _). by rewrite Hparse in Hpc.
  - split; [done|]. intros (_ & _ & -> & Hcap & _). by discriminate (proj2 (Hrc _) (conj eq_refl Hcap)).
Qed.

(** ** Examples *)

(** Two requests a minute: the third of a burst waits. *)
Definition demo_requests : list (Z * string) := [(0, "a"); (0, "a"); (0, "a"); (30000, "a")].

(** A table of one: the other client's request sweeps the bucket of [a] out. *)
Definition demo_swept : list (Z * string) := [(0, "a"); (0, "a"); (0, "a"); (0, "b"); (0, "a"); (0, "a"); (0, "a")].

Example swept_client_starts_full :
  snd (take_run 2 1 demo_swept []) =
    [("a", None); ("a", None); ("a", Some 30); ("b", None); ("a", None); ("a", None); ("a", Some 30)] /\
  swept_out 2 1 "a" demo_swept [] = 1%nat.
Proof. by vm_compute. Qed.

Lemma bucket_bounds_clients_witness :
  admitted "a" (snd (take_run 2 10 demo_requests [])) <= 3 /\ admitted "a" (snd (take_run 2 10 demo_requests [])) = 3 /\
  admitted "a" (snd (take_run 2 1 demo_swept [])) <= 2 * (1 + Z.of_nat (swept_out 2 1 "a" demo_swept [])) + 0 /\
  admitted "a" (snd (take_run 2 1 demo_swept [])) = 4.
Proof.
  split_and!; [|by vm_compute| |by vm_compute].
  - apply (proj2 (bucket_bounds_clients 2 10 ltac:(lia) demo_requests [] 0 30000 "a"
                    ltac:(constructor) ltac:(simpl; lia) ltac:(intros b Hb; discriminate Hb)) ["a"]).
    + simpl. lia.
    + split; [constructor|intros x Hx; by apply elem_of_nil in Hx].
    + intros x Hx. repeat (apply elem_of_cons in Hx as [->|Hx]; [by left|]). by apply elem_of_nil in Hx.
  - apply (proj1 (bucket_bounds_clients 2 1 ltac:(lia) demo_swept [] 0 0 "a"
                    ltac:(constructor) ltac:(simpl; lia) ltac:(intros b Hb; discriminate Hb))).
Defined.

Lemma bucket_wait_is_honest_witness :
  let '(buckets, wait) := take_token 2 10 0 "a" [("a", MkBucket 0 0)] in
  wait = Some 30 /\ snd (take_token 2 10 30000 "a" buckets) = None.
Proof.
  destruct (take_token 2 10 0 "a" [("a", MkBucket 0 0)]) as [buckets wait] eqn:E.
  assert (wait = Some 30) as -> by (vm_compute in E; congruence). split; [reflexivity|].
  apply (bucket_wait_is_honest 2 10 ltac:(lia) ["a"] 0 "a" [("a", MkBucket 0 0)] buckets 30 [] 30000).
  - simpl. lia.
  - split; [apply NoDup_singleton|intros x Hx; exact Hx].
  - by left.
  - intros x Hx. by apply elem_of_nil in Hx.
  - apply not_elem_of_nil.
  - exact E.
  - lia.
Defined.

Lemma client_key_is_the_proxys_witness :
  clientKey (foldl append_hop (Some "1.1.1.1, 9.9.9.9") ["203.0.113.7"; "10.0.0.2"]) (Some "127.0.0.1") true 2 = "203.0.113.7".
Proof.
  apply (client_key_is_the_proxys (Some "1.1.1.1, 9.9.9.9") (Some "127.0.0.1") ["203.0.113.7"; "10.0.0.2"] "203.0.113.7" ["10.0.0.2"]);
    [reflexivity|].
  repeat (apply Forall_cons; split); [..|constructor]; (split_and!; [discriminate|reflexivity|apply (bool_decide_unpack _); vm_compute; exact I]).
Defined.

Definition demo_edge : EdgeConfig := MkEdge "/ekho-mcp" true 1024 60 false 1.

Lemma mcp_call_exact_witness :
  snd (handle demo_edge (static_authenticate id "t0ken") (fun _ => Some (JObj [])) [] 0
    (MkEdgeRequest "POST" "/ekho-mcp/" (Some "Bearer t0ken") None (Some "127.0.0.1") (Some 2) [[123]; [125]])) =
  McpCall "bearer" [123; 125] (JObj []).
Proof.
  apply (mcp_call_exact demo_edge (static_authenticate id "t0ken") (fun _ => Some (JObj [])) [] 0); [reflexivity|discriminate|reflexivity|].
  split_and!; try reflexivity.
  - apply leb_complete. vm_compute. reflexivity.
  - intros n [= <-]. vm_compute. discriminate.
Defined.
