(* ===== verification/McpStore.v ===== *)
(** * The message store of the MCP connector

    [packages/mcp-connector/src/store.ts]: the durable ring the MCP client reads
    its messages from, the cursors under which batches were handed out, the
    replay guards and the last view of the fleet.  [st_disk] is the queue file;
    every operation that persists replaces it by the state in memory, and
    [load_store] is the constructor.  Copies and references are both values
    here: the only objects of the ring the code mutates after storing them are
    the messages [confirm] marks, and they are reached through the ring. *)

From S2P Require Import Prelude Json IsoTime JsValues.
Import Ascii String.
Open Scope string_scope.
Open Scope Z_scope.

Definition SEEN_CAP : nat := 500.
Definition CURSOR_CAP : nat := 16.

(** ** Data *)

Inductive VerificationStatus :=
  | StatusVerified | StatusRelayAttested | StatusUnsigned | StatusFailed | StatusUnverifiable
  | StatusSelfSigned.

#[export] Instance VerificationStatus_eq_dec : EqDecision VerificationStatus.
Proof. solve_decision. Defined.

Inductive Direction := DirIn | DirOut.

#[export] Instance Direction_eq_dec : EqDecision Direction.
Proof. solve_decision. Defined.

Record StoredAttachment := MkStoredAttachment {
  sa_id : string; sa_filename : string; sa_mime : string; sa_size_bytes : Z
}.

Record Verification := MkVerification {
  vf_status : VerificationStatus; vf_reason : option string; vf_key_id : option string
}.

Record ReplyTo := MkReplyTo { rp_message_id : string; rp_sender_label : string; rp_text : string }.

Record StoredMessage := MkStored {
  sd_message_id : string;
  sd_conversation_id : string;
  sd_direction : Direction;
  sd_sender_agent_id : string;
  sd_sender_label : string;
  sd_sender_operator : bool;
  sd_message_type : string;
  sd_priority : string;
  sd_text : string;
  sd_attachments : list StoredAttachment;
  sd_mentions : list string;
  sd_reply_to : option ReplyTo;
  sd_room : option (string * string);
  sd_verification : Verification;
  sd_sent_at : string;
  sd_stored_at : string;
  sd_delivered_cursor : option string
}.

Record RosterSnapshot := MkRosterSnapshot {
  rs_agent_id : string; rs_display_name : string; rs_runtime : string; rs_status : string; rs_endorsed : bool
}.

Record CursorRecord := MkCursor {
  cr_cursor : string; cr_messages : list StoredMessage; cr_created_at : string; cr_confirmed : bool
}.

(** What the object of the queue file may hold: a field that is not an array is
    [None], and so is a cursor record without an array of messages. *)
Record QueueFile := MkQueueFile {
  qf_v : Z;
  qf_messages : option (list StoredMessage);
  qf_cursors : option (list (option CursorRecord));
  qf_seenNonces : option (list string);
  qf_seenMessageIds : option (list string);
  qf_roster : option (list RosterSnapshot);
  qf_rooms : option (list (string * string));
  qf_operatorTrusted : bool
}.

Record MessageStore := MkStore {
  st_messages : list StoredMessage;
  st_cursors : list CursorRecord;
  st_seenNonces : list string;
  st_seenMessageIds : list string;
  st_roster : list RosterSnapshot;
  st_rooms : list (string * string);
  st_operatorTrusted : bool;
  st_disk : option QueueFile
}.

(** ** Loading and saving *)

Definition queue_file (s : MessageStore) : QueueFile :=
  MkQueueFile 1 (Some (st_messages s)) (Some (map Some (st_cursors s))) (Some (st_seenNonces s))
    (Some (st_seenMessageIds s)) (Some (st_roster s)) (Some (st_rooms s)) (st_operatorTrusted s).

Definition persist (s : MessageStore) : MessageStore :=
  MkStore (st_messages s) (st_cursors s) (st_seenNonces s) (st_seenMessageIds s) (st_roster s)
    (st_rooms s) (st_operatorTrusted s) (Some (queue_file s)).

(** The constructor, on what [readJsonIfPresent] returned. *)
Definition load_store (disk : option QueueFile) : MessageStore :=
  match disk with
  | Some data =>
      if qf_v data =? 1
      then MkStore (default [] (qf_messages data)) (omap id (default [] (qf_cursors data)))
             (default [] (qf_seenNonces data)) (default [] (qf_seenMessageIds data))
             (default [] (qf_roster data)) (default [] (qf_rooms data)) (qf_operatorTrusted data) disk
      else MkStore [] [] [] [] [] [] false disk
  | None => MkStore [] [] [] [] [] [] false disk
  end.

(** ** The ring *)

Definition isUnread (m : StoredMessage) : bool :=
  bool_decide (sd_direction m = DirIn) && bool_decide (sd_delivered_cursor m = None).

Definition unread (l : list StoredMessage) : list StoredMessage := List.filter isUnread l.

Definition unreadCount (s : MessageStore) : nat := length (unread (st_messages s)).

(** [while (l.length > cap) l.shift()] *)
Definition shift_to {A} (cap : nat) (l : list A) : list A := drop (length l - cap) l.

(** [if (!l.includes(x)) { l.push(x); while (l.length > cap) l.shift(); }] *)
Definition push_seen (cap : nat) (l : list string) (x : string) : list string :=
  if bool_decide (x ∈ l) then l else shift_to cap (l ++ [x])%list.

Definition messageSeen (s : MessageStore) (messageId : string) : bool :=
  bool_decide (messageId ∈ st_seenMessageIds s).
Definition nonceSeen (s : MessageStore) (nonce : string) : bool := bool_decide (nonce ∈ st_seenNonces s).
Definition seenNonceSet (s : MessageStore) : gset string := list_to_set (st_seenNonces s).

Definition markNonceSeen (s : MessageStore) (nonce : string) : MessageStore :=
  MkStore (st_messages s) (st_cursors s) (push_seen SEEN_CAP (st_seenNonces s) nonce) (st_seenMessageIds s)
    (st_roster s) (st_rooms s) (st_operatorTrusted s) (st_disk s).

(** The inbound messages of an add join the ids already stored. *)
Definition markMessagesSeen (ids : list string) (messages : list StoredMessage) : list string :=
  foldl (fun ids m => if bool_decide (sd_direction m = DirIn) then push_seen SEEN_CAP ids (sd_message_id m) else ids)
    ids messages.

(** The eviction filter on the messages that were there before the add: it drops
    what is not unread, oldest first, until the excess is gone. *)
Fixpoint evict (excess : Z) (l : list StoredMessage) : list StoredMessage :=
  match l with
  | [] => []
  | m :: l' =>
      if (excess <=? 0) || isUnread m then m :: evict excess l' else evict (excess - 1) l'
  end.

(** What was just added is never evicted by its own add. *)
Definition add (max : Z) (s : MessageStore) (messages : list StoredMessage) : MessageStore :=
  match messages with
  | [] => s
  | _ =>
      let all := (st_messages s ++ messages)%list in
      let excess := Z.of_nat (length all) - max in
      let kept := if 0 <? excess then (evict excess (st_messages s) ++ messages)%list else all in
      persist (MkStore kept (st_cursors s) (st_seenNonces s)
                 (markMessagesSeen (st_seenMessageIds s) messages) (st_roster s) (st_rooms s)
                 (st_operatorTrusted s) (st_disk s))
  end.

Definition hasRoom (max : Z) (s : MessageStore) : bool := Z.of_nat (unreadCount s) <? max.

(** ** Cursors *)

Definition find_cursor (cursor : string) (cs : list CursorRecord) : option CursorRecord :=
  select_one (fun c => cr_cursor c ==? cursor) cs.

Definition message_ids (l : list StoredMessage) : list string := map sd_message_id l.

Definition mark_read (cursor : string) (m : StoredMessage) : StoredMessage :=
  MkStored (sd_message_id m) (sd_conversation_id m) (sd_direction m) (sd_sender_agent_id m) (sd_sender_label m) (sd_sender_operator m)
    (sd_message_type m) (sd_priority m) (sd_text m) (sd_attachments m) (sd_mentions m) (sd_reply_to m) (sd_room m)
    (sd_verification m) (sd_sent_at m) (sd_stored_at m) (Some cursor).

(** [entry.confirmed = true] on the first record with the cursor. *)
Fixpoint confirm_cursor (cursor : string) (cs : list CursorRecord) : list CursorRecord :=
  match cs with
  | [] => []
  | c :: cs' =>
      if cr_cursor c ==? cursor
      then MkCursor (cr_cursor c) (cr_messages c) (cr_created_at c) true :: cs'
      else c :: confirm_cursor cursor cs'
  end.

Definition confirm (s : MessageStore) (cursor : string) : MessageStore :=
  match find_cursor cursor (st_cursors s) with
  | None => s
  | Some entry =>
      MkStore
        (update_where (fun m => bool_decide (sd_message_id m ∈ message_ids (cr_messages entry)) &&
                                (sd_delivered_cursor m ==? None)) (mark_read cursor) (st_messages s))
        (confirm_cursor cursor (st_cursors s)) (st_seenNonces s) (st_seenMessageIds s) (st_roster s)
        (st_rooms s) (st_operatorTrusted s) (st_disk s)
  end.

(** [cursor] is the fresh id the constructor's [cursorId] draws. *)
Definition takeUnread (s : MessageStore) (limit : nat) (after : option string) (cursor createdAt : string)
    : MessageStore * list StoredMessage :=
  let s := match truthy after with Some a => confirm s a | None => s end in
  let batch := take limit (unread (st_messages s)) in
  (persist (MkStore (st_messages s)
              (shift_to CURSOR_CAP (st_cursors s ++ [MkCursor cursor batch createdAt false])%list)
              (st_seenNonces s) (st_seenMessageIds s) (st_roster s) (st_rooms s) (st_operatorTrusted s)
              (st_disk s)),
   batch).

Definition replay (s : MessageStore) (cursor : string) : option (list StoredMessage) :=
  cr_messages <$> find_cursor cursor (st_cursors s).

(** [l.slice(-n)]: all of [l] when [n] is 0. *)
Definition slice_last {A} (n : nat) (l : list A) : list A :=
  if (n =? 0)%nat then l else drop (length l - n) l.

Definition conversation (s : MessageStore) (conversationId : string) (limit : nat) : list StoredMessage :=
  slice_last limit (List.filter (fun m => sd_conversation_id m ==? conversationId) (st_messages s)).

(** ** The view of the fleet *)

(** [byId.set(r.id, r)]: a JavaScript [Map] keeps the position of a key it has. *)
Fixpoint set_room (r : string * string) (rooms : list (string * string)) : list (string * string) :=
  match rooms with
  | [] => [r]
  | x :: rooms' => if fst x ==? fst r then r :: rooms' else x :: set_room r rooms'
  end.

(** [new Map(rooms.map(...))], then the rooms of the view. *)
Definition merge_rooms (rooms view : list (string * string)) : list (string * string) :=
  foldl (fun acc r => set_room r acc) [] (rooms ++ view)%list.

Definition setFleetView (s : MessageStore) (roster : option (list RosterSnapshot))
    (rooms : option (list (string * string))) (operatorTrusted : option bool) : MessageStore :=
  persist (MkStore (st_messages s) (st_cursors s) (st_seenNonces s) (st_seenMessageIds s)
             (default (st_roster s) roster)
             (match rooms with Some view => merge_rooms (st_rooms s) view | None => st_rooms s end)
             (default (st_operatorTrusted s) operatorTrusted) (st_disk s)).

Definition flush (s : MessageStore) : MessageStore := persist s.
