(* ===== verification/WakeWebhook.v ===== *)
(** * The wake webhook

    [packages/mcp-connector/src/webhook.ts]: messages queue for a debounced wake;
    a wake is posted with up to three attempts; a breaker stops wakes after repeated
    failure.  A delivery is cut at its awaits: each answer of the endpoint, each end of
    a back-off, is a step, and deliveries may overlap.  Timers fire no sooner than
    they were set for. *)

From S2P Require Import Prelude Json IsoTime JsValues Text SdkClient IdentityFile McpStore.
Import Ascii String.
Open Scope string_scope.
Open Scope Z_scope.

Definition WEBHOOK_SECRET_PREFIX : string := "whsec_".
Definition PREVIEW_MAX : nat := 5.
Definition SNIPPET_MAX : nat := 140.

(** ** Signing *)

Section Signing.
(** Base64 as bytes, the bytes of a text, HMAC-SHA256 in base64. *)
Context (from_base64 utf8 : string -> list Z) (hmac_base64 : list Z -> string -> string).

Definition decodeWebhookSecret (secret : string) : list Z :=
  match strip_prefix (chars WEBHOOK_SECRET_PREFIX) (chars secret) with
  | Some rest => from_base64 (text rest)
  | None => utf8 secret
  end.

Definition standardWebhookSignature (secret msgId : string) (timestampSeconds : Z) (payload : string) : string :=
  "v1," +:+ hmac_base64 (decodeWebhookSecret secret) (msgId +:+ "." +:+ stringify_num timestampSeconds +:+ "." +:+ payload).

Definition signWebhookHeaders (secret payload id : string) (ts : Z) : list (string * string) :=
  [("content-type", "application/json"); ("webhook-id", id); ("webhook-timestamp", stringify_num ts);
   ("webhook-signature", standardWebhookSignature secret id ts payload)].
End Signing.

(** ** The payload *)

(** The ellipsis is one code unit above 255: [ellipsis] stands for it. *)
Definition snippet (ellipsis : string) (t : string) : string :=
  if (SNIPPET_MAX <? String.length t)%nat then text (take (SNIPPET_MAX - 1) (chars t)) +:+ ellipsis else t.

Definition buildPayload (ellipsis agentName : string) (messages : list StoredMessage) : json :=
  JObj [("type", JStr "ekho.message"); ("agent", JStr agentName); ("count", JNum (Z.of_nat (length messages)));
        ("preview", JArr (map (fun m => JObj [("from", JStr (sd_sender_label m));
                                              ("conversation_id", JStr (sd_conversation_id m));
                                              ("snippet", JStr (snippet ellipsis (sd_text m)))])
                              (take PREVIEW_MAX messages)))].

(** ** The notifier *)

Record WakeOptions := MkWakeOptions {
  wo_debounceMs : Z;
  wo_maxAttempts : nat;
  wo_backoffMs : list Z;
  wo_breakerThreshold : nat;
  wo_breakerOpenMs : Z
}.

Definition wake_defaults (debounceMs : Z) : WakeOptions := MkWakeOptions debounceMs 3 [1000; 4000; 16000] 5 (5 * 60000).

(** A delivery under way: the attempt it is at, and until when it backs off before
    it; [None] when its request is out. *)
Record Flight := MkFlight { fl_batch : list StoredMessage; fl_attempt : nat; fl_until : option Z }.

(** [wn_timer] is when the armed timer is due; [wn_sending] the delivery [settle]
    would wait for; [wn_lastSentAt] is [None] for minus infinity. *)
Record WakeNotifier := MkNotifier {
  wn_pending : list StoredMessage;
  wn_timer : option Z;
  wn_lastSentAt : option Z;
  wn_consecutiveFailures : nat;
  wn_breakerOpenUntil : Z;
  wn_flights : gmap nat Flight;
  wn_next : nat;
  wn_sending : option nat;
  wn_sent : nat;
  wn_failed : nat;
  wn_dropped : nat
}.

Definition new_notifier : WakeNotifier := MkNotifier [] None None 0 0 ∅ 0 None 0 0 0.

(** What leaves the notifier, and what becomes of each batch. *)
Inductive WakeEffect :=
  | WakePosted (at_ : Z) (attempt : nat) (batch : list StoredMessage)
  | WakeDelivered (batch : list StoredMessage)
  | WakeFailed (batch : list StoredMessage)
  | WakeDropped (batch : list StoredMessage).

Section Notifier.
Context (opts : WakeOptions).

Definition breakerOpen (w : WakeNotifier) (now : Z) : bool := now <? wn_breakerOpenUntil w.

Definition notify (w : WakeNotifier) (now : Z) (messages : list StoredMessage) : WakeNotifier :=
  match messages with
  | [] => w
  | _ =>
      let timer := match wn_timer w with
                   | Some due => due
                   | None => now + match wn_lastSentAt w with
                                   | Some t => Z.max 0 (t + wo_debounceMs opts - now)
                                   | None => 0
                                   end
                   end in
      MkNotifier (wn_pending w ++ messages)%list (Some timer) (wn_lastSentAt w) (wn_consecutiveFailures w)
        (wn_breakerOpenUntil w) (wn_flights w) (wn_next w) (wn_sending w) (wn_sent w) (wn_failed w) (wn_dropped w)
  end.

(** The last attempt failed. *)
Definition deliveryFailed (w : WakeNotifier) (now : Z) (batch : list StoredMessage) (flights : gmap nat Flight)
    : WakeNotifier * list WakeEffect :=
  let failures := S (wn_consecutiveFailures w) in
  let opens := (wo_breakerThreshold opts <=? failures)%nat in
  (MkNotifier (wn_pending w) (wn_timer w) (wn_lastSentAt w) (if opens then 0 else failures)%nat
     (if opens then now + wo_breakerOpenMs opts else wn_breakerOpenUntil w) flights (wn_next w) None
     (wn_sent w) (S (wn_failed w)) (wn_dropped w), [WakeFailed batch]).

(** The timer fires: [flushNow] up to its first await. *)
Definition fire (w : WakeNotifier) (now : Z) : WakeNotifier * list WakeEffect :=
  let batch := wn_pending w in
  let w0 := MkNotifier [] None (wn_lastSentAt w) (wn_consecutiveFailures w) (wn_breakerOpenUntil w) (wn_flights w)
              (wn_next w) None (wn_sent w) (wn_failed w) (wn_dropped w) in
  match batch with
  | [] => (w0, [])
  | _ =>
      if breakerOpen w now then
        (MkNotifier [] None (wn_lastSentAt w) (wn_consecutiveFailures w) (wn_breakerOpenUntil w) (wn_flights w)
           (wn_next w) None (wn_sent w) (wn_failed w) (wn_dropped w + length batch), [WakeDropped batch])
      else
        let w1 := MkNotifier [] None (Some now) (wn_consecutiveFailures w) (wn_breakerOpenUntil w) (wn_flights w)
                    (wn_next w) None (wn_sent w) (wn_failed w) (wn_dropped w) in
        if (wo_maxAttempts opts =? 0)%nat then deliveryFailed w1 now batch (wn_flights w1)
        else (MkNotifier [] None (Some now) (wn_consecutiveFailures w) (wn_breakerOpenUntil w)
                (<[wn_next w := MkFlight batch 0 None]> (wn_flights w)) (S (wn_next w)) (Some (wn_next w))
                (wn_sent w) (wn_failed w) (wn_dropped w), [WakePosted now 0 batch])
  end.

Definition with_flights (f : gmap nat Flight) (w : WakeNotifier) : WakeNotifier :=
  MkNotifier (wn_pending w) (wn_timer w) (wn_lastSentAt w) (wn_consecutiveFailures w) (wn_breakerOpenUntil w) f
    (wn_next w) (wn_sending w) (wn_sent w) (wn_failed w) (wn_dropped w).

Definition wake_backoff (attempt : nat) : Z :=
  default 0 (wo_backoffMs opts !! Nat.min attempt (length (wo_backoffMs opts) - 1)).

(** The endpoint answers the request of delivery [i], or the request fails. *)
Definition answered (w : WakeNotifier) (now : Z) (i : nat) (ok : bool) : WakeNotifier * list WakeEffect :=
  match wn_flights w !! i with
  | Some (MkFlight batch attempt None) =>
      if ok then
        (MkNotifier (wn_pending w) (wn_timer w) (wn_lastSentAt w) 0 (wn_breakerOpenUntil w) (delete i (wn_flights w))
           (wn_next w) None (S (wn_sent w)) (wn_failed w) (wn_dropped w), [WakeDelivered batch])
      else if (S attempt <? wo_maxAttempts opts)%nat then
        (with_flights (<[i := MkFlight batch (S attempt) (Some (now + wake_backoff attempt))]> (wn_flights w)) w, [])
      else deliveryFailed w now batch (delete i (wn_flights w))
  | _ => (w, [])
  end.

(** Its back-off is over. *)
Definition resumed (w : WakeNotifier) (now : Z) (i : nat) : WakeNotifier * list WakeEffect :=
  match wn_flights w !! i with
  | Some (MkFlight batch attempt (Some until)) =>
      if until <=? now then
        (with_flights (<[i := MkFlight batch attempt None]> (wn_flights w)) w, [WakePosted now attempt batch])
      else (w, [])
  | _ => (w, [])
  end.

Inductive WakeEvent :=
  | WNotify (messages : list StoredMessage)
  | WTimer
  | WAnswer (i : nat) (ok : bool)
  | WResume (i : nat).

Definition wake_step (w : WakeNotifier) (now : Z) (e : WakeEvent) : WakeNotifier * list WakeEffect :=
  match e with
  | WNotify messages => (notify w now messages, [])
  | WTimer => match wn_timer w with
              | Some due => if due <=? now then fire w now else (w, [])
              | None => (w, [])
              end
  | WAnswer i ok => answered w now i ok
  | WResume i => resumed w now i
  end.

Fixpoint wake_run (w : WakeNotifier) (es : list (Z * WakeEvent)) : WakeNotifier * list WakeEffect :=
  match es with
  | [] => (w, [])
  | (now, e) :: es' =>
      let '(w1, out) := wake_step w now e in
      let '(w2, out') := wake_run w1 es' in (w2, (out ++ out')%list)
  end.
End Notifier.

(** * Properties of the wake webhook

    Every message is accounted for; wakes are spaced by the debounce and a waiting
    message always has a timer; attempts are bounded.  Two examples show where the
    header of [webhook.ts] promises more than the code does. *)

Section Wakes.
Context (opts : WakeOptions).

(** ** Where the messages are *)

Definition notified (e : WakeEvent) : list StoredMessage := match e with WNotify l => l | _ => [] end.
Definition settled (f : WakeEffect) : list StoredMessage :=
  match f with WakePosted _ _ _ => [] | WakeDelivered b | WakeFailed b | WakeDropped b => b end.

Definition in_flight (m : gmap nat Flight) : list StoredMessage := concat (map (fun x => fl_batch (snd x)) (map_to_list m)).

Definition held (w : WakeNotifier) : list StoredMessage := (wn_pending w ++ in_flight (wn_flights w))%list.

Definition fresh_next (w : WakeNotifier) : Prop := forall i, is_Some (wn_flights w !! i) -> (i < wn_next w)%nat.

Lemma in_flight_insert m i f : m !! i = None -> in_flight (<[i := f]> m) ≡ₚ (fl_batch f ++ in_flight m)%list.
Proof. intros Hi. unfold in_flight. by rewrite map_to_list_insert. Qed.

Lemma in_flight_delete m i f : m !! i = Some f -> in_flight m ≡ₚ (fl_batch f ++ in_flight (delete i m))%list.
Proof.
  intros Hi. rewrite <- (insert_delete_id m i f Hi) at 1. apply in_flight_insert. apply lookup_delete_eq.
Qed.

Lemma in_flight_replace m i f g : m !! i = Some f -> fl_batch g = fl_batch f -> in_flight (<[i := g]> m) ≡ₚ in_flight m.
Proof.
  intros Hi Hb. rewrite (in_flight_delete m i f Hi), <- Hb, <- insert_delete_eq.
  apply in_flight_insert, lookup_delete_eq.
Qed.

Lemma give_up_held w now batch flights :
  let '(w', out) := deliveryFailed opts w now batch flights in
  held w' = (wn_pending w ++ in_flight flights)%list /\ flat_map settled out = batch /\
  wn_flights w' = flights /\ wn_next w' = wn_next w.
Proof. unfold deliveryFailed. cbn [flat_map settled]. by rewrite app_nil_r. Qed.

Lemma step_held w now e :
  fresh_next w ->
  let '(w', out) := wake_step opts w now e in
  fresh_next w' /\ (held w' ++ flat_map settled out)%list ≡ₚ (held w ++ notified e)%list.
Proof.
  intros Hf. destruct e as [msgs| |i ok|i]; cbn [wake_step notified].
  - split; [by destruct msgs|]. unfold notify. destruct msgs as [|x msgs]; [done|].
    unfold held. cbn [flat_map wn_pending wn_flights]. rewrite app_nil_r, <- !app_assoc. by rewrite (Permutation_app_comm (x :: msgs)).
  - rewrite app_nil_r. destruct (wn_timer w) as [due|]; [|by rewrite app_nil_r].
    destruct (due <=? now); [|by rewrite app_nil_r]. unfold fire. destruct (wn_pending w) as [|x l] eqn:Hp.
    { split; [done|]. unfold held. cbn. by rewrite Hp, app_nil_r. }
    destruct (breakerOpen w now).
    { split; [done|]. unfold held. cbn [wn_pending wn_flights flat_map settled]. rewrite Hp, app_nil_r. by rewrite Permutation_app_comm. }
    destruct (wo_maxAttempts opts =? 0)%nat.
    { set (w1 := MkNotifier _ _ _ _ _ _ _ _ _ _ _). pose proof (give_up_held w1 now (x :: l) (wn_flights w1)) as Hg.
      destruct (deliveryFailed _ _ _ _ _) as [w' out]. destruct Hg as (Hh & Hs & Hfl & Hn). rewrite Hh, Hs. split.
      - unfold fresh_next. rewrite Hfl, Hn. exact Hf.
      - unfold held, w1. cbn [wn_pending wn_flights]. rewrite Hp. by rewrite Permutation_app_comm. }
    split.
    + intros i. cbn [wn_flights wn_next]. rewrite lookup_insert_is_Some'. intros [->|Hi%Hf]; lia.
    + unfold held. cbn [wn_pending wn_flights flat_map settled]. rewrite Hp, app_nil_r. cbn [Datatypes.app].
      rewrite in_flight_insert; [done|]. destruct (wn_flights w !! wn_next w) eqn:E; [|done].
      assert (wn_next w < wn_next w)%nat by (apply Hf; by eexists). lia.
  - rewrite app_nil_r. unfold answered. destruct (wn_flights w !! i) as [[batch attempt [u|]]|] eqn:Hi; try by rewrite app_nil_r.
    pose proof (in_flight_delete _ _ _ Hi) as Hd. cbn [fl_batch] in Hd. destruct ok; [|destruct (_ <? _)%nat].
    + split; [intros j; cbn; rewrite lookup_delete_is_Some; intros [_ ?%Hf]; done|].
      unfold held. cbn [wn_pending wn_flights flat_map settled]. rewrite app_nil_r, Hd, <- app_assoc.
      by rewrite (Permutation_app_comm batch).
    + split; [intros j; cbn; rewrite lookup_insert_is_Some'; intros [->|?%Hf]; [by apply Hf|done]|].
      unfold held. cbn [flat_map]. rewrite app_nil_r. cbn [with_flights wn_pending wn_flights].
      by rewrite (in_flight_replace _ _ _ _ Hi).
    + pose proof (give_up_held w now batch (delete i (wn_flights w))) as Hg.
      destruct (deliveryFailed _ _ _ _ _) as [w' out]. destruct Hg as (Hh & Hs & Hfl & Hn). rewrite Hh, Hs. split.
      * intros j. rewrite Hfl, Hn, lookup_delete_is_Some. intros [_ ?%Hf]. done.
      * unfold held. rewrite Hd, <- app_assoc. by rewrite (Permutation_app_comm batch).
  - rewrite app_nil_r. unfold resumed. destruct (wn_flights w !! i) as [[batch attempt [u|]]|] eqn:Hi; try by rewrite app_nil_r.
    destruct (u <=? now); [|by rewrite app_nil_r].
    split; [intros j; cbn; rewrite lookup_insert_is_Some'; intros [->|?%Hf]; [by apply Hf|done]|].
    unfold held. cbn [with_flights wn_pending wn_flights flat_map settled]. rewrite app_nil_r.
    by rewrite (in_flight_replace _ _ _ _ Hi).
Qed.

Lemma wake_run_held es w :
  fresh_next w ->
  let '(w', out) := wake_run opts w es in
  fresh_next w' /\ (held w' ++ flat_map settled out)%list ≡ₚ (held w ++ flat_map (fun x => notified (snd x)) es)%list.
Proof.
  revert w. induction es as [|[now e] es IH]; intros w Hf; cbn [wake_run]; [done|].
  pose proof (step_held w now e Hf) as Hs. destruct (wake_step opts w now e) as [w1 out1]. destruct Hs as [Hf1 Hs].
  specialize (IH w1 Hf1). destruct (wake_run opts w1 es) as [w2 out2]. destruct IH as [Hf2 Hs2]. split; [done|].
  rewrite flat_map_app. cbn [flat_map snd].
  rewrite (Permutation_app_comm (flat_map settled out1)), app_assoc, Hs2, <- app_assoc.
  rewrite (Permutation_app_comm (flat_map _ es)), app_assoc, Hs, <- app_assoc. done.
Qed.

(** C40. Every message a wake was asked for is accounted for: at any moment it waits
    for the next wake, is in a delivery under way, was announced to the endpoint, or
    belongs to a wake that was given up or dropped by the breaker; each exactly once,
    however notifications, timers, answers and back-offs interleave. *)
Theorem wakes_accounted_for es :
  let '(w, out) := wake_run opts new_notifier es in
  flat_map (fun x => notified (snd x)) es ≡ₚ (wn_pending w ++ in_flight (wn_flights w) ++ flat_map settled out)%list.
Proof.
  pose proof (wake_run_held es new_notifier ltac:(intros i; cbn; rewrite lookup_empty; by intros [? ?])) as Hr.
  destruct (wake_run opts new_notifier es) as [w out]. destruct Hr as [_ Hr]. rewrite app_assoc. by rewrite Hr.
Qed.

(** ** When *)

(** The moments wakes start. *)
Definition starts (out : list WakeEffect) : list Z :=
  omap (fun f => match f with WakePosted t 0 _ => Some t | _ => None end) out.

(** Each at least [gap] after the one before. *)
Fixpoint spaced (gap : Z) (last : option Z) (l : list Z) : Prop :=
  match l with
  | [] => True
  | t :: l' => match last with Some s => s + gap <= t | None => True end /\ spaced gap (Some t) l'
  end.

(** The clock does not go back. *)
Fixpoint clocked (t : Z) (es : list (Z * WakeEvent)) : Prop :=
  match es with [] => True | (now, _) :: es' => t <= now /\ clocked now es' end.

(** A delivery is at one of its attempts, and backs off only before a later one. *)
Definition good_flight (f : Flight) : Prop :=
  (fl_attempt f < wo_maxAttempts opts)%nat /\ (fl_until f <> None -> (0 < fl_attempt f)%nat).

Record timed (t : Z) (last : option Z) (w : WakeNotifier) : Prop := {
  tm_last s : last = Some s -> exists s', wn_lastSentAt w = Some s' /\ s <= s';
  tm_past s : wn_lastSentAt w = Some s -> s <= t;
  tm_due d : wn_timer w = Some d ->
    (forall s, wn_lastSentAt w = Some s -> s + wo_debounceMs opts <= d) /\ d <= t + Z.max 0 (wo_debounceMs opts);
  tm_pending : wn_pending w <> [] -> is_Some (wn_timer w);
  tm_attempts i f : wn_flights w !! i = Some f -> good_flight f
}.

Lemma timed_later t t' last w : t <= t' -> timed t last w -> timed t' last w.
Proof.
  intros Ht [H1 H2 H3 H4 H5]. split; auto.
  - intros s Hs. specialize (H2 s Hs). lia.
  - intros d Hd. destruct (H3 d Hd) as [? ?]. split; [done|lia].
Qed.

(** What a step posts first, and that it comes late enough. *)
Lemma step_timed now last w e :
  timed now last w ->
  let '(w', out) := wake_step opts w now e in
  (starts out = [] /\ timed now last w' \/
   starts out = [now] /\ (match last with Some s => s + wo_debounceMs opts <= now | None => True end) /\ timed now (Some now) w') /\
  Forall (fun f => match f with WakePosted _ a _ => (a < wo_maxAttempts opts)%nat | _ => True end) out.
Proof.
  intros [H1 H2 H3 H4 H5].
  assert (Hsame : forall w', wn_lastSentAt w' = wn_lastSentAt w -> wn_timer w' = wn_timer w -> wn_pending w' = wn_pending w ->
    (forall i f, wn_flights w' !! i = Some f -> good_flight f) -> timed now last w').
  { intros w' E1 E2 E3 E4. split; rewrite ?E1, ?E2, ?E3; auto. }
  destruct e as [msgs| |i ok|i]; cbn [wake_step].
  - split; [left; split; [done|]|constructor]. unfold notify. destruct msgs as [|x msgs]; [by split|].
    split; cbn [wn_lastSentAt wn_timer wn_pending wn_flights]; auto.
    intros d [= <-]. destruct (wn_timer w) as [due|] eqn:Ht; [by apply H3|].
    destruct (wn_lastSentAt w) as [s0|]; [|split; [done|lia]]. split; [intros s [= <-]; lia|].
    specialize (H2 s0 eq_refl). lia.
  - destruct (wn_timer w) as [due|] eqn:Ht; [|split; [left; split; [done|by apply Hsame]|constructor]].
    destruct (due <=? now) eqn:Hd; [apply Z.leb_le in Hd|split; [left; split; [done|by apply Hsame]|constructor]].
    destruct (H3 due eq_refl) as [Hdue _]. unfold fire. destruct (wn_pending w) as [|x l] eqn:Hp.
    { split; [left; split; [done|]|constructor]. by split; cbn; auto. }
    destruct (breakerOpen w now).
    { split; [left; split; [done|]|by repeat constructor]. by split; cbn; auto. }
    assert (Hlast : match last with Some s => s + wo_debounceMs opts <= now | None => True end).
    { destruct last as [s|]; [|done]. destruct (H1 s eq_refl) as (s' & E & ?). specialize (Hdue s' E). lia. }
    destruct (wo_maxAttempts opts =? 0)%nat eqn:Hm.
    { unfold deliveryFailed. split; [left; split; [done|]|by repeat constructor]. split; cbn; auto; try done.
      - intros s ->. destruct (H1 s eq_refl) as (s' & E & ?). exists now. split; [done|]. specialize (H2 s' E). lia.
      - intros s [= <-]. lia. }
    apply Nat.eqb_neq in Hm. split; [right; split_and!; [done|done|]|repeat constructor; lia].
    split; cbn [wn_lastSentAt wn_timer wn_pending wn_flights]; try done.
    + intros s [= <-]. by exists now.
    + intros s [= <-]. lia.
    + intros i f. rewrite lookup_insert_Some. intros [[_ <-]|[_ ?]]; [split; simpl; [lia|done]|by eapply H5].
  - assert (Hid : timed now last w) by by split.
    unfold answered. destruct (wn_flights w !! i) as [[batch attempt [u|]]|] eqn:Hi; try (split; [by left|constructor]).
    assert (Hdel : forall j f, delete i (wn_flights w) !! j = Some f -> good_flight f)
      by (intros j f [_ Hj]%lookup_delete_Some; by eapply H5).
    destruct ok; [|destruct (Nat.ltb_spec (S attempt) (wo_maxAttempts opts))].
    + split; [left; split; [done|by apply Hsame]|by repeat constructor].
    + split; [left; split; [done|]|constructor]. apply Hsame; try done. intros j f. cbn [with_flights wn_flights].
      rewrite lookup_insert_Some. intros [[_ <-]|[_ ?]]; [split; simpl; [done|lia]|by eapply H5].
    + unfold deliveryFailed. split; [left; split; [done|by apply Hsame]|by repeat constructor].
  - assert (Hid : timed now last w) by by split.
    unfold resumed. destruct (wn_flights w !! i) as [[batch attempt [u|]]|] eqn:Hi; try (split; [by left|constructor]).
    destruct (u <=? now); [|split; [by left|constructor]]. destruct (H5 _ _ Hi) as [Ha Hb]. cbn in Ha, Hb.
    specialize (Hb ltac:(done)). split; [left|repeat constructor; done]. split; [by destruct attempt; [lia|]|].
    apply Hsame; try done. intros j f. cbn [with_flights wn_flights]. rewrite lookup_insert_Some.
    intros [[_ <-]|[_ ?]]; [by split|by eapply H5].
Qed.

Lemma run_timed es t last w :
  timed t last w -> clocked t es ->
  let '(w', out) := wake_run opts w es in
  spaced (wo_debounceMs opts) last (starts out) /\
  Forall (fun f => match f with WakePosted _ a _ => (a < wo_maxAttempts opts)%nat | _ => True end) out /\
  exists last', timed (foldl (fun _ x => fst x) t es) last' w'.
Proof.
  revert t last w. induction es as [|[now e] es IH]; intros t last w Hw Hc; cbn [wake_run]; [split_and!; [done|constructor|by exists last]|].
  destruct Hc as [Ht Hc]. pose proof (step_timed now last w e (timed_later _ _ _ _ Ht Hw)) as Hs.
  destruct (wake_step opts w now e) as [w1 out1]. destruct Hs as [[[E1 Hw1]|(E1 & Hl & Hw1)] Ha1];
    specialize (IH _ _ w1 Hw1 Hc); destruct (wake_run opts w1 es) as [w2 out2]; destruct IH as (I1 & I2 & I3);
    unfold starts in *; rewrite omap_app, E1; (split_and!; [|by apply Forall_app|exact I3]); done.
Qed.

Lemma new_notifier_timed t : timed t None new_notifier.
Proof. by split. Qed.

(** Wakes are spaced, bounded and never forgotten: two wakes start at least the
    debounce apart; no wake takes more than its attempts; and at any moment a message
    that waits has a timer, due within the debounce of the last event. *)
Theorem wakes_spaced es t :
  clocked t es ->
  let '(w, out) := wake_run opts new_notifier es in
  spaced (wo_debounceMs opts) None (starts out) /\
  Forall (fun f => match f with WakePosted _ a _ => (a < wo_maxAttempts opts)%nat | _ => True end) out /\
  (wn_pending w <> [] -> exists due, wn_timer w = Some due /\
     due <= foldl (fun _ x => fst x) t es + Z.max 0 (wo_debounceMs opts)).
Proof.
  intros Hc. pose proof (run_timed es t None new_notifier (new_notifier_timed t) Hc) as Hr.
  destruct (wake_run opts new_notifier es) as [w out]. destruct Hr as (H1 & H2 & last' & Hw). split_and!; [done..|].
  intros Hp. destruct (tm_pending _ _ _ Hw Hp) as [due Hd]. exists due. split; [done|]. by apply (tm_due _ _ _ Hw).
Qed.
End Wakes.

(** ** Examples *)

Definition some_message : StoredMessage :=
  MkStored "m1" "c1" DirIn "a1" "Case" false "direct" "normal" "hi" [] [] None None
    (MkVerification StatusVerified None None) "t" "t" None.

(** The header of [webhook.ts] says there is never more than one POST per debounce:
    a retry is another POST, one second later. *)
Example retries_ignore_the_debounce :
  snd (wake_run (wake_defaults 30000) new_notifier
    [(0, WNotify [some_message]); (0, WTimer); (10, WAnswer 0 false); (1010, WResume 0)]) =
  [WakePosted 0 0 [some_message]; WakePosted 1010 1 [some_message]].
Proof. vm_compute. reflexivity. Qed.

(** [settle] waits for the latest delivery only: here the first is under way, the
    second is over, and nothing is waited for. *)
Example settle_forgets_a_delivery :
  let w := fst (wake_run (wake_defaults 30000) new_notifier
    [(0, WNotify [some_message]); (0, WTimer); (1000, WNotify [some_message]); (30000, WTimer); (30010, WAnswer 1 true)]) in
  wn_sending w = None /\ wn_flights w !! 0%nat = Some (MkFlight [some_message] 0 None).
Proof. vm_compute. split; reflexivity. Qed.

Lemma wakes_spaced_witness :
  let '(w, out) := wake_run (wake_defaults 30000) new_notifier
    [(0, WNotify [some_message]); (0, WTimer); (10, WAnswer 0 true); (1000, WNotify [some_message]); (30000, WTimer); (40000, WNotify [some_message])] in
  spaced 30000 None (starts out) /\ starts out = [0; 30000] /\ wn_timer w = Some 60000.
Proof.
  set (es := [(0, WNotify [some_message]); (0, WTimer); (10, WAnswer 0 true); (1000, WNotify [some_message]); (30000, WTimer);
              (40000, WNotify [some_message])]).
  pose proof (wakes_spaced (wake_defaults 30000) es 0 ltac:(cbn; lia)) as H.
  destruct (wake_run (wake_defaults 30000) new_notifier es) as [w out] eqn:E. destruct H as [H _]. split; [exact H|].
  vm_compute in E. injection E as <- <-. vm_compute. split; reflexivity.
Defined.
