(* ===== verification/McpStoreProperties.v ===== *)
(** * Properties of the connector's message store

    The ring, its eviction, its cursors, the queue file and restarts implement a
    mailbox: messages wait until the client confirms a batch that carried them.
    [store_step] is one operation of the store, [mailbox_step] the same operation
    of the mailbox, which knows no bound, no eviction and no file. *)

From S2P Require Import Prelude Json IsoTime JsValues McpStore.
Import Ascii String.
Open Scope string_scope.
Open Scope Z_scope.

(** ** The operations *)

Inductive store_op :=
  | OpAdd (messages : list StoredMessage)
  | OpTake (limit : nat) (after : option string) (cursor createdAt : string)
  | OpReplay (cursor : string)
  | OpNonce (nonce : string)
  | OpView (roster : option (list RosterSnapshot)) (rooms : option (list (string * string)))
      (operatorTrusted : option bool)
  | OpFlush
  | OpRestart.

Inductive response :=
  | RNone
  | RBatch (cursor : string) (messages : list StoredMessage)
  | RReplay (messages : option (list StoredMessage)).

Definition store_step (max : Z) (s : MessageStore) (op : store_op) : MessageStore * response :=
  match op with
  | OpAdd messages => (add max s messages, RNone)
  | OpTake limit after cursor createdAt =>
      let '(s', batch) := takeUnread s limit after cursor createdAt in (s', RBatch cursor batch)
  | OpReplay cursor => (s, RReplay (replay s cursor))
  | OpNonce nonce => (markNonceSeen s nonce, RNone)
  | OpView roster rooms trusted => (setFleetView s roster rooms trusted, RNone)
  | OpFlush => (flush s, RNone)
  | OpRestart => (load_store (st_disk s), RNone)
  end.

(** ** The mailbox *)

Record mailbox := MkMailbox {
  mb_waiting : list StoredMessage;
  mb_handed : list (string * list StoredMessage)
}.

Definition batch_of (handed : list (string * list StoredMessage)) (cursor : string)
    : option (list StoredMessage) :=
  snd <$> select_one (fun cb => fst cb ==? cursor) handed.

Definition not_in (batch : list StoredMessage) (m : StoredMessage) : bool :=
  negb (bool_decide (sd_message_id m ∈ message_ids batch)).

Definition mailbox_confirm (mb : mailbox) (cursor : string) : mailbox :=
  match batch_of (mb_handed mb) cursor with
  | Some batch => MkMailbox (List.filter (not_in batch) (mb_waiting mb)) (mb_handed mb)
  | None => mb
  end.

Definition mailbox_step (mb : mailbox) (op : store_op) : mailbox * response :=
  match op with
  | OpAdd messages => (MkMailbox (mb_waiting mb ++ unread messages) (mb_handed mb), RNone)
  | OpTake limit after cursor _ =>
      let mb := match truthy after with Some a => mailbox_confirm mb a | None => mb end in
      let batch := take limit (mb_waiting mb) in
      (MkMailbox (mb_waiting mb) (shift_to CURSOR_CAP (mb_handed mb ++ [(cursor, batch)])),
       RBatch cursor batch)
  | OpReplay cursor => (mb, RReplay (batch_of (mb_handed mb) cursor))
  | _ => (mb, RNone)
  end.

(** A run: the last state and the responses, oldest first. *)
Fixpoint run_with {S} (step : S -> store_op -> S * response) (s : S) (ops : list store_op)
    : S * list response :=
  match ops with
  | [] => (s, [])
  | op :: ops' =>
      let '(s1, r) := step s op in
      let '(s2, rs) := run_with step s1 ops' in (s2, r :: rs)
  end.

Definition store_run (max : Z) := run_with (store_step max).
Definition mailbox_run := run_with mailbox_step.

(** The mailbox a store implements. *)
Definition mailbox_of (s : MessageStore) : mailbox :=
  MkMailbox (unread (st_messages s)) (map (fun c => (cr_cursor c, cr_messages c)) (st_cursors s)).

(** What is on disk is the mailbox in memory. *)
Definition synced (s : MessageStore) : Prop := mailbox_of (load_store (st_disk s)) = mailbox_of s.

(** ** Lemmas *)

Lemma unread_app l l' : unread (l ++ l') = (unread l ++ unread l')%list.
Proof. apply List.filter_app. Qed.

Lemma unread_evict e l : unread (evict e l) = unread l.
Proof.
  revert e. induction l as [|m l IH]; intros e; [done|]. unfold unread in *. simpl.
  destruct (isUnread m) eqn:Hu; [rewrite orb_true_r; simpl; by rewrite Hu, IH|].
  rewrite orb_false_r. destruct (e <=? 0); simpl; [by rewrite Hu, IH|by rewrite IH].
Qed.

Lemma unread_add max s ms : unread (st_messages (add max s ms)) = (unread (st_messages s) ++ unread ms)%list.
Proof.
  unfold add. destruct ms as [|m ms]; [by rewrite app_nil_r|]. cbn [persist st_messages].
  destruct (0 <? _); by rewrite unread_app, ?unread_evict.
Qed.

Lemma find_filter_map {A B} (f : A -> B) (p : B -> bool) (l : list A) :
  select_one p (map f l) = f <$> select_one (fun x => p (f x)) l.
Proof. unfold select_one. induction l as [|x l IH]; simpl; [done|]. by destruct (p (f x)). Qed.

Lemma batch_of_cursors s cursor : batch_of (mb_handed (mailbox_of s)) cursor = replay s cursor.
Proof.
  unfold batch_of, replay, find_cursor, mailbox_of. simpl. rewrite find_filter_map. simpl.
  by destruct (select_one _ _).
Qed.

Lemma confirm_cursor_handed cursor cs :
  map (fun c => (cr_cursor c, cr_messages c)) (confirm_cursor cursor cs) =
  map (fun c => (cr_cursor c, cr_messages c)) cs.
Proof.
  induction cs as [|c cs IH]; simpl; [done|]. destruct (cr_cursor c ==? cursor); simpl; by rewrite ?IH.
Qed.

Lemma unread_mark_read batch cursor l :
  unread (update_where (fun m => bool_decide (sd_message_id m ∈ message_ids batch) &&
                                 (sd_delivered_cursor m ==? None)) (mark_read cursor) l) =
  List.filter (not_in batch) (unread l).
Proof.
  unfold unread, update_where. induction l as [|m l IH]; simpl; [done|]. unfold isUnread in *.
  destruct (bool_decide (sd_message_id m ∈ message_ids batch)) eqn:Hid,
    (bool_decide (sd_delivered_cursor m = None)) eqn:Hc, (bool_decide (sd_direction m = DirIn)) eqn:Hd;
    simpl; rewrite ?Hd, ?Hc; simpl; unfold not_in at 1; rewrite ?Hid; simpl; by rewrite IH.
Qed.

Lemma mailbox_of_confirm s cursor :
  mailbox_of (confirm s cursor) = mailbox_confirm (mailbox_of s) cursor.
Proof.
  unfold mailbox_confirm. rewrite batch_of_cursors. unfold confirm, replay.
  destruct (find_cursor cursor (st_cursors s)) as [entry|]; simpl; [|done].
  unfold mailbox_of. simpl. by rewrite unread_mark_read, confirm_cursor_handed.
Qed.

Lemma map_shift_to {A B} (f : A -> B) cap l : map f (shift_to cap l) = shift_to cap (map f l).
Proof. unfold shift_to. by rewrite skipn_map, length_map. Qed.

Lemma omap_id_Some {A} (l : list A) : omap id (map Some l) = l.
Proof. induction l as [|x l IH]; simpl; [done|]. f_equal. exact IH. Qed.

Lemma load_persist s : mailbox_of (load_store (Some (queue_file s))) = mailbox_of s.
Proof. unfold mailbox_of. f_equal. f_equal. exact (omap_id_Some (st_cursors s)). Qed.

Lemma synced_persist s : synced (persist s).
Proof. unfold synced. cbn [persist st_disk]. by rewrite load_persist. Qed.

Lemma synced_load d : synced (load_store d).
Proof.
  unfold synced. replace (st_disk (load_store d)) with d; [done|].
  destruct d as [q|]; simpl; [|done]. by destruct (qf_v q =? 1).
Qed.
#[export] Hint Resolve synced_persist synced_load : ekho.

(** ** One step *)

Lemma store_step_synced max s op : synced s -> synced (fst (store_step max s op)).
Proof.
  intros Hs. destruct op; cbn -[persist load_store]; auto with ekho.
  - unfold add. destruct messages; auto with ekho.
  - unfold setFleetView. auto with ekho.
Qed.

Lemma step_refines max s op :
  synced s ->
  mailbox_step (mailbox_of s) op = (mailbox_of (fst (store_step max s op)), snd (store_step max s op)).
Proof.
  intros Hs. destruct op as [ms|limit after cursor at_|cursor|n|r rm t| |]; cbn -[persist load_store batch_of mailbox_of].
  - f_equal. unfold mailbox_of. rewrite unread_add. f_equal. unfold add. by destruct ms.
  - set (mb := match truthy after with Some a => mailbox_confirm (mailbox_of s) a | None => mailbox_of s end).
    set (s1 := match truthy after with Some a => confirm s a | None => s end).
    assert (Hmb : mb = mailbox_of s1) by (unfold mb, s1; destruct (truthy after); [by rewrite mailbox_of_confirm|done]).
    rewrite Hmb. unfold mailbox_of. cbn [persist st_messages st_cursors mb_waiting mb_handed fst snd].
    by rewrite map_shift_to, map_app.
  - by rewrite batch_of_cursors.
  - done.
  - done.
  - done.
  - f_equal. symmetry. exact Hs.
Qed.

(** ** Runs *)

Lemma run_with_app {S} (step : S -> store_op -> S * response) s ops ops' :
  run_with step s (ops ++ ops') =
  (fst (run_with step (fst (run_with step s ops)) ops'),
   (snd (run_with step s ops) ++ snd (run_with step (fst (run_with step s ops)) ops'))%list).
Proof.
  revert s. induction ops as [|op ops IH]; intros s; simpl; [by destruct (run_with step s ops')|].
  destruct (step s op) as [s1 r]. rewrite IH.
  by destruct (run_with step s1 ops) as [s2 rs]; simpl; destruct (run_with step s2 ops').
Qed.

Lemma store_run_synced max s ops : synced s -> synced (fst (store_run max s ops)).
Proof.
  revert s. induction ops as [|op ops IH]; intros s Hs; [done|].
  pose proof (store_step_synced max s op Hs) as H1. unfold store_run in *. simpl.
  destruct (store_step max s op) as [s1 r]. specialize (IH s1 H1).
  by destruct (run_with (store_step max) s1 ops).
Qed.

Lemma run_refines max s ops :
  synced s ->
  mailbox_run (mailbox_of s) ops = (mailbox_of (fst (store_run max s ops)), snd (store_run max s ops)).
Proof.
  revert s. induction ops as [|op ops IH]; intros s Hs; [done|].
  unfold mailbox_run, store_run in *. simpl. rewrite (step_refines max s op Hs).
  pose proof (store_step_synced max s op Hs) as H1.
  destruct (store_step max s op) as [s1 r]. simpl in *. rewrite (IH s1 H1).
  by destruct (run_with (store_step max) s1 ops).
Qed.

(** A message waits until a read confirms a batch that carried it. *)
Lemma waiting_step mb op m :
  m ∈ mb_waiting mb ->
  m ∈ mb_waiting (fst (mailbox_step mb op)) \/
  exists limit c cursor at_ batch, op = OpTake limit (Some c) cursor at_ /\
    batch_of (mb_handed mb) c = Some batch /\ sd_message_id m ∈ message_ids batch.
Proof.
  intros Hm. destruct op as [ms|limit after cursor at_|cursor|n|r rm t| |]; simpl; try by left.
  - left. apply elem_of_app. by left.
  - destruct (truthy after) as [a|] eqn:Ha; [|by left]. apply truthy_Some in Ha as [-> _].
    unfold mailbox_confirm. destruct (batch_of (mb_handed mb) a) as [batch|] eqn:Hb; [|by left]. simpl.
    destruct (not_in batch m) eqn:Hn.
    + left. apply (elem_of_select (not_in batch)). done.
    + right. unfold not_in in Hn. bools. by exists limit, a, cursor, at_, batch.
Qed.

Lemma elem_of_taken {A} n (l : list A) x : x ∈ take n l -> x ∈ l.
Proof. intros H. rewrite <- (take_drop n l). apply elem_of_app. by left. Qed.

Lemma elem_of_dropped {A} n (l : list A) x : x ∈ drop n l -> x ∈ l.
Proof. intros H. rewrite <- (take_drop n l). apply elem_of_app. by right. Qed.

Lemma elem_of_shift_to {A} cap (l : list A) x : x ∈ shift_to cap l -> x ∈ l.
Proof. apply elem_of_dropped. Qed.

Lemma batch_of_elem handed c batch : batch_of handed c = Some batch -> (c, batch) ∈ handed.
Proof.
  unfold batch_of. destruct (select_one _ handed) as [[c' b]|] eqn:H; [|done]. simpl. intros [= <-].
  apply select_one_Some in H as [H Hc]. simpl in Hc. bools. by subst.
Qed.

Lemma handed_step mb op c batch :
  (c, batch) ∈ mb_handed (fst (mailbox_step mb op)) ->
  (c, batch) ∈ mb_handed mb \/ snd (mailbox_step mb op) = RBatch c batch.
Proof.
  destruct op as [ms|limit after cursor at_|cursor|n|r rm t| |]; simpl; try by left.
  intros H%elem_of_shift_to. apply elem_of_app in H as [H|H].
  - left. unfold mailbox_confirm in H. by repeat (case_match; simpl in H).
  - apply list_elem_of_singleton in H. right. by injection H as -> ->.
Qed.

Lemma handed_were_returned ops mb c batch :
  (c, batch) ∈ mb_handed (fst (mailbox_run mb ops)) ->
  (c, batch) ∈ mb_handed mb \/ RBatch c batch ∈ snd (mailbox_run mb ops).
Proof.
  revert mb. induction ops as [|op ops IH]; intros mb; unfold mailbox_run in *; simpl; [by left|].
  pose proof (handed_step mb op c batch) as Hs. destruct (mailbox_step mb op) as [mb1 r]. simpl in Hs.
  specialize (IH mb1). destruct (run_with mailbox_step mb1 ops) as [mb2 rs]. simpl in *.
  intros [H|H]%IH; [apply Hs in H as [H| ->]; [by left|right; by left]|right; by right].
Qed.

Lemma waiting_until_confirmed ops mb m :
  m ∈ mb_waiting mb ->
  m ∈ mb_waiting (fst (mailbox_run mb ops)) \/
  exists ops1 limit c cursor at_ ops2 batch,
    ops = (ops1 ++ OpTake limit (Some c) cursor at_ :: ops2)%list /\
    batch_of (mb_handed (fst (mailbox_run mb ops1))) c = Some batch /\
    sd_message_id m ∈ message_ids batch.
Proof.
  revert mb. induction ops as [|op ops IH]; intros mb Hm; [by left|].
  destruct (waiting_step mb op m Hm) as [H|(limit & c & cursor & at_ & batch & -> & Hb & Hin)].
  2:{ right. by exists [], limit, c, cursor, at_, ops, batch. }
  unfold mailbox_run in *. simpl. destruct (mailbox_step mb op) as [mb1 r] eqn:Hop. simpl in H.
  destruct (IH mb1 H) as [Hw|(o1 & limit & c & cursor & at_ & o2 & batch & -> & Hb & Hin)].
  - left. by destruct (run_with mailbox_step mb1 ops).
  - right. exists (op :: o1), limit, c, cursor, at_, o2, batch. split_and!; [done| |done].
    simpl. rewrite Hop. by destruct (run_with mailbox_step mb1 o1).
Qed.

(** ** Reading until nothing is left *)

(** A client that reads [length cursors] times and confirms each batch with the
    next read; [cursors] are the ids the store draws. *)
Fixpoint reads (limit : nat) (after : option string) (cursors : list string) : list store_op :=
  match cursors with
  | [] => []
  | c :: cs => OpTake limit after c "" :: reads limit (Some c) cs
  end.

Definition batches (rs : list response) : list StoredMessage :=
  concat (map (fun r => match r with RBatch _ l => l | _ => [] end) rs).

Lemma batch_of_last handed c batch :
  c ∉ map fst handed -> batch_of (handed ++ [(c, batch)]) c = Some batch.
Proof.
  unfold batch_of, select_one. induction handed as [|[c' b] l IH]; simpl; [by rewrite bool_decide_true|].
  intros [Hne Hc]%not_elem_of_cons. rewrite bool_decide_false by congruence. by apply IH.
Qed.

Lemma elem_of_map_fst_shift {A} cap (l : list (string * A)) x :
  x ∈ map fst (shift_to cap l) -> x ∈ map fst l.
Proof. rewrite map_shift_to. apply elem_of_shift_to. Qed.

(** The batch just handed out is on record, under a fresh cursor. *)
Lemma batch_of_shift_last handed c batch :
  c ∉ map fst handed -> batch_of (shift_to CURSOR_CAP (handed ++ [(c, batch)])) c = Some batch.
Proof.
  intros Hc. unfold shift_to.
  rewrite drop_app_le by (rewrite length_app; simpl; unfold CURSOR_CAP; lia).
  apply batch_of_last. intros Hin. apply Hc.
  rewrite <- (take_drop (length (handed ++ [(c, batch)]) - CURSOR_CAP) handed), map_app.
  apply elem_of_app. by right.
Qed.

Lemma fst_shift_last handed (c x : string) (batch : list StoredMessage) :
  x ∈ map fst (shift_to CURSOR_CAP (handed ++ [(c, batch)])) -> x ∈ map fst handed \/ x = c.
Proof.
  intros Hx%elem_of_map_fst_shift. rewrite map_app, elem_of_app in Hx.
  destruct Hx as [Hx|Hx%list_elem_of_singleton]; [by left|by right].
Qed.

Lemma filter_not_in_app batch w :
  NoDup (message_ids (batch ++ w)) -> List.filter (not_in batch) (batch ++ w) = w.
Proof.
  unfold message_ids. rewrite map_app. intros (_ & Hd & _)%NoDup_app. rewrite List.filter_app.
  rewrite (filter_nil (not_in batch) batch).
  - simpl. apply forallb_filter_id, forallb_forall. intros m Hm%list_elem_of_In. unfold not_in.
    apply negb_true_iff, bool_decide_eq_false. intros Hin. apply (Hd (sd_message_id m) Hin).
    apply list_elem_of_In, in_map. by apply list_elem_of_In.
  - intros m Hm. unfold not_in. apply negb_false_iff, bool_decide_eq_true. unfold message_ids.
    apply list_elem_of_In, in_map. by apply list_elem_of_In.
Qed.

(** What reading by [limit] and confirming leaves the client with, in [n] reads: a
    confirmed batch takes every message with one of its ids away. *)
Fixpoint drained (n limit : nat) (w : list StoredMessage) : list StoredMessage :=
  match n with
  | O => []
  | S n' => take limit w ++ drained n' limit (List.filter (not_in (take limit w)) w)
  end.

Lemma filter_batch limit w :
  List.filter (not_in (take limit w)) w = List.filter (not_in (take limit w)) (drop limit w).
Proof.
  rewrite <- (take_drop limit w) at 2. rewrite List.filter_app, (filter_nil _ (take limit w)); [done|].
  intros m Hm. unfold not_in. apply negb_false_iff, bool_decide_eq_true.
  apply list_elem_of_In, in_map. by apply list_elem_of_In.
Qed.

Lemma drained_sublist limit n : forall w, sublist (drained n limit w) w.
Proof.
  induction n as [|n IH]; intros w; simpl; [apply sublist_nil_l|]. rewrite filter_batch.
  transitivity (take limit w ++ drop limit w)%list; [|by rewrite take_drop].
  apply sublist_app; [done|]. etrans; [apply IH|apply filter_sublist].
Qed.

Lemma drained_covers limit n : forall w m,
  (length w <= limit * n)%nat -> m ∈ w -> sd_message_id m ∈ message_ids (drained n limit w).
Proof.
  induction n as [|n IH]; intros w m Hlen Hm; simpl.
  { destruct w; [by apply elem_of_nil in Hm|simpl in *; lia]. }
  unfold message_ids. rewrite map_app, elem_of_app.
  destruct (not_in (take limit w) m) eqn:E.
  - right. apply IH.
    + rewrite filter_batch. pose proof (List.filter_length_le (not_in (take limit w)) (drop limit w)).
      rewrite length_drop in *. lia.
    + apply list_elem_of_In, filter_In. by rewrite <- list_elem_of_In.
  - left. unfold not_in in E. by apply negb_false_iff, bool_decide_eq_true in E.
Qed.

Lemma drained_all limit n : forall w,
  NoDup (message_ids w) -> (length w <= limit * n)%nat -> drained n limit w = w.
Proof.
  induction n as [|n IH]; intros w Hids Hlen; simpl.
  { destruct w; [done|simpl in *; lia]. }
  assert (List.filter (not_in (take limit w)) w = drop limit w) as ->.
  { rewrite <- (take_drop limit w) at 2. apply filter_not_in_app. by rewrite take_drop. }
  rewrite IH; [apply take_drop| |rewrite length_drop; lia].
  rewrite <- (take_drop limit w) in Hids. unfold message_ids in *. rewrite map_app in Hids.
  by apply NoDup_app in Hids as (_ & _ & ?).
Qed.

(** After a read that is the last one on record, every further read confirms it
    and hands out what follows. *)
Lemma reads_rest limit cursors : forall c w handed,
  NoDup (c :: cursors) -> (forall x, x ∈ c :: cursors -> x <> "") ->
  (forall x, x ∈ cursors -> x ∉ map fst handed) ->
  batch_of handed c = Some (take limit w) ->
  (take limit w ++ batches (snd (mailbox_run (MkMailbox w handed) (reads limit (Some c) cursors))))%list =
  drained (S (length cursors)) limit w.
Proof.
  induction cursors as [|c' cs IH]; intros c w handed Hnd Hne Hfresh Hb; [done|].
  unfold mailbox_run in *. simpl.
  destruct (c ==? "") eqn:Ec; [bools; by destruct (Hne c); [left|]|].
  unfold mailbox_confirm. simpl. rewrite Hb. simpl.
  set (w' := List.filter (not_in (take limit w)) w).
  set (handed' := shift_to CURSOR_CAP (handed ++ [(c', take limit w')])).
  destruct (proj1 (NoDup_cons _ _) Hnd) as [Hnc Hnd'].
  specialize (IH c' w' handed' Hnd').
  destruct (run_with mailbox_step _ _) as [mb rs] eqn:Hrun. simpl.
  unfold batches in *. simpl in *. f_equal.
  apply IH; [| |apply batch_of_shift_last, Hfresh; by left].
  - intros x Hx. apply Hne. by right.
  - intros x Hx [Hin| ->]%fst_shift_last; [by apply (Hfresh x); [right|]|by apply NoDup_cons in Hnd' as [? _]].
Qed.

Lemma mailbox_drains limit cursors mb :
  NoDup cursors -> (forall c, c ∈ cursors -> c <> "") ->
  (forall c, c ∈ cursors -> c ∉ map fst (mb_handed mb)) ->
  batches (snd (mailbox_run mb (reads limit None cursors))) = drained (length cursors) limit (mb_waiting mb).
Proof.
  intros Hnd Hne Hfresh. destruct mb as [w handed]. simpl in *.
  destruct cursors as [|c cs]; [done|]. unfold mailbox_run. simpl.
  set (handed' := shift_to CURSOR_CAP (handed ++ [(c, take limit w)])).
  pose proof (reads_rest limit cs c w handed' Hnd Hne) as Hrest.
  unfold mailbox_run in Hrest. destruct (run_with mailbox_step _ _) as [mb rs] eqn:Hrun.
  unfold batches in *. simpl in *. apply Hrest.
  - intros x Hx [Hin| ->]%fst_shift_last; [by apply (Hfresh x); [right|]|by apply NoDup_cons in Hnd as [? _]].
  - apply batch_of_shift_last, Hfresh. by left.
Qed.

(** ** Read means read *)

(** Only an add can bring a message id back. *)
Definition adds_id (i : string) (op : store_op) : Prop :=
  match op with OpAdd ms => i ∈ message_ids (unread ms) | _ => False end.

Lemma message_ids_filter p l i : i ∈ message_ids (List.filter p l) -> i ∈ message_ids l.
Proof.
  unfold message_ids. rewrite !list_elem_of_In, !in_map_iff. intros (m & <- & Hm).
  apply filter_In in Hm as [Hm _]. by exists m.
Qed.

Lemma message_ids_take n l i : i ∈ message_ids (take n l) -> i ∈ message_ids l.
Proof.
  unfold message_ids. intros H. rewrite <- (take_drop n l), map_app. apply elem_of_app. by left.
Qed.

Lemma waiting_ids_step mb op i :
  ~ adds_id i op -> i ∉ message_ids (mb_waiting mb) ->
  (i ∉ message_ids (mb_waiting (fst (mailbox_step mb op)))) /\
  (forall c batch, snd (mailbox_step mb op) = RBatch c batch -> i ∉ message_ids batch).
Proof.
  intros Ha Hi. destruct op as [ms|limit after cursor at_|cursor|n|r rm t| |]; simpl in *; try done.
  - split; [|done]. unfold message_ids in *. rewrite map_app, elem_of_app. tauto.
  - assert (Hw : i ∉ message_ids (mb_waiting (match truthy after with Some a => mailbox_confirm mb a | None => mb end))).
    { destruct (truthy after); [|done]. unfold mailbox_confirm. case_match; [|done]. simpl.
      by intros ?%message_ids_filter. }
    split; [exact Hw|]. intros c batch [= _ <-]. by intros ?%message_ids_take.
Qed.

Lemma waiting_ids_run i : forall ops mb,
  (forall op, op ∈ ops -> ~ adds_id i op) -> i ∉ message_ids (mb_waiting mb) ->
  forall c batch, RBatch c batch ∈ snd (mailbox_run mb ops) -> i ∉ message_ids batch.
Proof.
  induction ops as [|op ops IH]; intros mb Ha Hi c batch; unfold mailbox_run in *; simpl.
  - by intros ?%elem_of_nil.
  - destruct (waiting_ids_step mb op i (Ha op ltac:(by left)) Hi) as [Hi1 Hr].
    destruct (mailbox_step mb op) as [mb1 r]. simpl in *.
    specialize (IH mb1 (fun o Ho => Ha o ltac:(by right)) Hi1 c batch).
    destruct (run_with mailbox_step mb1 ops). simpl in *.
    intros [Heq|H]%elem_of_cons; [by apply (Hr c)|by apply IH].
Qed.

Lemma confirmed_ids_gone mb c batch i :
  batch_of (mb_handed mb) c = Some batch -> i ∈ message_ids batch ->
  i ∉ message_ids (mb_waiting (mailbox_confirm mb c)).
Proof.
  intros Hb Hi. unfold mailbox_confirm. rewrite Hb. simpl. unfold message_ids at 1.
  rewrite list_elem_of_In, in_map_iff. intros (m & <- & Hm). apply filter_In in Hm as [_ Hm].
  unfold not_in in Hm. bools. done.
Qed.

(** ** Bounds *)

(** The agent adds inbound messages only when there is room, at most [b] at a
    time, and its own messages one by one. *)
Definition fits (max : Z) (b : nat) (s : MessageStore) (op : store_op) : Prop :=
  match op with
  | OpAdd ms => (hasRoom max s = true /\ (length ms <= b)%nat) \/ (unread ms = [] /\ length ms = 1%nat)
  | _ => True
  end.

Fixpoint fitting (max : Z) (b : nat) (s : MessageStore) (ops : list store_op) : Prop :=
  match ops with
  | [] => True
  | op :: ops' => fits max b s op /\ fitting max b (fst (store_step max s op)) ops'
  end.

Record within (max : Z) (b : nat) (s : MessageStore) : Prop := {
  wi_unread : Z.of_nat (unreadCount s) < max + Z.of_nat b;
  wi_messages : Z.of_nat (length (st_messages s)) <= max + Z.of_nat b;
  wi_cursors : (length (st_cursors s) <= CURSOR_CAP)%nat;
  wi_nonces : (length (st_seenNonces s) <= SEEN_CAP)%nat;
  wi_ids : (length (st_seenMessageIds s) <= SEEN_CAP)%nat
}.

Lemma length_shift_to {A} cap (l : list A) : (length (shift_to cap l) <= cap)%nat.
Proof. unfold shift_to. rewrite length_drop. lia. Qed.

Lemma length_push_seen cap l x : (length l <= cap)%nat -> (length (push_seen cap l x) <= cap)%nat.
Proof. intros Hl. unfold push_seen. case_bool_decide; [done|]. apply length_shift_to. Qed.

Lemma length_markMessagesSeen ms ids :
  (length ids <= SEEN_CAP)%nat -> (length (markMessagesSeen ids ms) <= SEEN_CAP)%nat.
Proof.
  revert ids. unfold markMessagesSeen. induction ms as [|m ms IH]; intros ids Hl; [done|]. cbn [foldl]. apply IH.
  case_bool_decide; [by apply length_push_seen|done].
Qed.

Lemma length_unread l : (length (unread l) <= length l)%nat.
Proof. apply List.filter_length_le. Qed.

(** The filter stops as soon as the excess is gone, or has dropped all it may. *)
Lemma length_evict e l :
  0 <= e ->
  Z.of_nat (length (evict e l)) <= Z.max (Z.of_nat (length l) - e) (Z.of_nat (length (unread l))).
Proof.
  revert e. induction l as [|m l IH]; intros e He; [simpl; lia|]. simpl. unfold unread in *. simpl.
  destruct (isUnread m) eqn:Hu.
  - rewrite orb_true_r. simpl. specialize (IH e He). lia.
  - rewrite orb_false_r. destruct (Z.leb_spec e 0); simpl.
    + assert (e = 0) as -> by lia. specialize (IH 0). pose proof (length_unread l) as Hl.
      unfold unread in Hl. lia.
    + specialize (IH (e - 1)). lia.
Qed.

Lemma within_add max b s ms :
  0 <= max -> (1 <= b)%nat -> within max b s -> fits max b s (OpAdd ms) -> within max b (add max s ms).
Proof.
  intros Hmax Hb [H1 H2 H3 H4 H5] Hfit. destruct ms as [|m ms]; [by constructor|].
  assert (Hu : Z.of_nat (length (unread (st_messages s)) + length (m :: ms)) <= max + Z.of_nat b /\
               Z.of_nat (length (unread (st_messages s)) + length (unread (m :: ms))) < max + Z.of_nat b).
  { pose proof (length_unread (m :: ms)). unfold unreadCount in H1. cbn [fits] in Hfit. unfold hasRoom, unreadCount in Hfit.
    destruct Hfit as [[Hr Hl]|[Hr Hl]]; [bools; simpl in *; lia|].
    rewrite Hr. simpl in *. lia. }
  pose proof (unread_add max s (m :: ms)) as Hua. constructor.
  - unfold unreadCount. rewrite Hua, length_app. lia.
  - unfold add. cbn [persist st_messages]. destruct (Z.ltb_spec 0 (Z.of_nat (length (st_messages s ++ m :: ms)) - max)) as [He|He].
    + pose proof (length_evict (Z.of_nat (length (st_messages s ++ m :: ms)) - max) (st_messages s) ltac:(lia)) as Hev.
      rewrite !length_app in *. lia.
    + lia.
  - done.
  - done.
  - by apply length_markMessagesSeen.
Qed.

Lemma within_confirm max b s c : within max b s -> within max b (confirm s c).
Proof.
  intros [H1 H2 H3 H4 H5]. unfold confirm.
  destruct (find_cursor c (st_cursors s)) as [entry|]; [|by constructor]. constructor; try done.
  - unfold unreadCount. simpl. rewrite unread_mark_read. pose proof (List.filter_length_le (not_in (cr_messages entry)) (unread (st_messages s))).
    unfold unreadCount in H1. lia.
  - simpl. by rewrite length_update_where.
  - simpl. assert (Hl : length (confirm_cursor c (st_cursors s)) = length (st_cursors s)); [|lia].
    pose proof (f_equal length (confirm_cursor_handed c (st_cursors s))) as Hl. by rewrite !length_map in Hl.
Qed.

(** What a restart finds on disk is within the same bounds. *)
Definition bounded (max : Z) (b : nat) (s : MessageStore) : Prop :=
  within max b s /\ within max b (load_store (st_disk s)).

Lemma bounded_persist max b s : within max b s -> bounded max b (persist s).
Proof.
  intros [H1 H2 H3 H4 H5]. split; [by constructor|]. constructor; simpl; try done.
  change (length (omap id (map Some (st_cursors s))) <= CURSOR_CAP)%nat. by rewrite omap_id_Some.
Qed.

Lemma bounded_step max b s op :
  0 <= max -> (1 <= b)%nat -> bounded max b s -> fits max b s op -> bounded max b (fst (store_step max s op)).
Proof.
  intros Hmax Hb [Hm Hd] Hfit. destruct op as [ms|limit after cursor at_|cursor|n|r rm t| |]; cbn -[persist load_store].
  - pose proof (within_add max b s ms Hmax Hb Hm Hfit) as Ha. unfold add in *.
    destruct ms as [|m ms]; [by split|]. apply bounded_persist. by destruct Ha.
  - apply bounded_persist. set (s1 := match truthy after with Some a => confirm s a | None => s end).
    assert (H1 : within max b s1) by (unfold s1; destruct (truthy after); [by apply within_confirm|done]).
    destruct H1. constructor; try done. apply length_shift_to.
  - by split.
  - split; [|exact Hd]. destruct Hm. constructor; try done. by apply length_push_seen.
  - apply bounded_persist. by destruct Hm.
  - by apply bounded_persist.
  - split; [done|]. replace (st_disk (load_store (st_disk s))) with (st_disk s); [done|].
    unfold load_store. destruct (st_disk s); [|done]. by case_match.
Qed.

Lemma bounded_run max b ops : forall s,
  0 <= max -> (1 <= b)%nat -> bounded max b s -> fitting max b s ops -> bounded max b (fst (store_run max s ops)).
Proof.
  induction ops as [|op ops IH]; intros s Hmax Hb Hs; [done|]. intros [Hfit Hops].
  pose proof (bounded_step max b s op Hmax Hb Hs Hfit) as H1. unfold store_run in *. simpl in *.
  destruct (store_step max s op) as [s1 r]. specialize (IH s1 Hmax Hb H1 Hops).
  by destruct (run_with (store_step max) s1 ops).
Qed.

Lemma bounded_empty max b : 0 <= max -> (1 <= b)%nat -> bounded max b (load_store None).
Proof.
  intros. assert (within max b (load_store None)); [|by split].
  constructor; cbn; unfold SEEN_CAP, CURSOR_CAP; lia.
Qed.

(** ** A concrete store *)

Definition demo_stored (i : string) (d : Direction) : StoredMessage :=
  MkStored i "c" d "a" "A" false "direct" "normal" "hi" [] [] None None
    (MkVerification StatusUnsigned None None) "t" "t" (if decide (d = DirIn) then None else Some "self").

Definition demo_in := map (fun i => demo_stored i DirIn) ["m1"; "m2"; "m3"].

(** A full ring: three inbound messages, a restart, a read of two, an outbound
    message over the bound, and the read that confirms. *)
Definition demo_ops : list store_op :=
  [OpAdd demo_in; OpRestart; OpTake 2 None "k1" "t"; OpAdd [demo_stored "o1" DirOut];
   OpTake 5 (Some "k1") "k2" "t"; OpRestart; OpAdd [demo_stored "m4" DirIn]; OpReplay "k1"].

Example demo_run :
  map (fun r => match r with RBatch c l => (c, message_ids l) | RReplay (Some l) => ("again", message_ids l) | _ => ("", []) end)
    (snd (store_run 3 (load_store None) demo_ops)) =
  [("", []); ("", []); ("k1", ["m1"; "m2"]); ("", []); ("k2", ["m3"]); ("", []); ("", []); ("again", ["m1"; "m2"])] /\
  message_ids (st_messages (fst (store_run 3 (load_store None) demo_ops))) = ["m3"; "o1"; "m4"].
Proof. vm_compute. done. Qed.

(** ** Theorems *)

(** C22. The durable ring is a mailbox. Whatever the bound, and whatever was on
    disk at the start, the store with its evictions, its cursors, its queue file
    and restarts at any point answers every operation as the mailbox does, and
    ends in a state that implements the mailbox's: no eviction and no restart
    touches a message the client has not read, nor the batches on record. *)
Theorem store_refines_mailbox max disk ops :
  let s := load_store disk in
  snd (store_run max s ops) = snd (mailbox_run (mailbox_of s) ops) /\
  mailbox_of (fst (store_run max s ops)) = fst (mailbox_run (mailbox_of s) ops) /\
  synced (fst (store_run max s ops)).
Proof.
  intros s. assert (Hs : synced s) by apply synced_load.
  rewrite (run_refines max s ops Hs). split_and!; [done..|]. by apply store_run_synced.
Qed.

(** At least once. A message that arrived is unread for good, restarts and
    evictions included, until the client passes back, as [after], a cursor under
    which an earlier read returned a batch carrying that message id. *)
Theorem unread_until_confirmed max before messages m ops :
  let start := load_store None in
  let all := (before ++ OpAdd messages :: ops)%list in
  m ∈ messages -> isUnread m = true ->
  m ∈ unread (st_messages (fst (store_run max start all))) \/
  exists ops1 limit c cursor at_ ops2 batch,
    ops = (ops1 ++ OpTake limit (Some c) cursor at_ :: ops2)%list /\
    RBatch c batch ∈ snd (store_run max start (before ++ OpAdd messages :: ops1)) /\
    sd_message_id m ∈ message_ids batch.
Proof.
  intros start all Hm Hu.
  assert (Hrun : forall l, mailbox_run (mailbox_of start) l =
                   (mailbox_of (fst (store_run max start l)), snd (store_run max start l)))
    by (intros l; exact (run_refines max start l (synced_load None))).
  change (all) with (before ++ ([OpAdd messages] ++ ops))%list.
  set (mb := fst (mailbox_run (mailbox_of start) (before ++ [OpAdd messages]))).
  assert (Hw : m ∈ mb_waiting mb).
  { unfold mb, mailbox_run. rewrite run_with_app. simpl. rewrite elem_of_app. right. by apply elem_of_select. }
  assert (Happ : forall l, fst (mailbox_run (mailbox_of start) (before ++ OpAdd messages :: l)) = fst (mailbox_run mb l)).
  { intros l. change (before ++ OpAdd messages :: l)%list with (before ++ ([OpAdd messages] ++ l))%list.
    unfold mb, mailbox_run. rewrite app_assoc, (run_with_app mailbox_step _ (before ++ [OpAdd messages])). done. }
  destruct (waiting_until_confirmed ops mb m Hw) as [H|(o1 & limit & c & cursor & at_ & o2 & batch & -> & Hb & Hin)].
  - left. rewrite <- Happ, Hrun in H. exact H.
  - right. exists o1, limit, c, cursor, at_, o2, batch. split_and!; [done| |done].
    rewrite <- Happ in Hb. apply batch_of_elem, handed_were_returned in Hb as [Hb|Hb]; [by apply elem_of_nil in Hb|].
    by rewrite Hrun in Hb.
Qed.

Lemma unread_until_confirmed_witness :
  demo_stored "m3" DirIn ∈ unread (st_messages (fst (store_run 3 (load_store None) demo_ops))) \/
  exists ops1 limit c cursor at_ ops2 batch,
    tail demo_ops = (ops1 ++ OpTake limit (Some c) cursor at_ :: ops2)%list /\
    RBatch c batch ∈ snd (store_run 3 (load_store None) ([] ++ OpAdd demo_in :: ops1)) /\
    sd_message_id (demo_stored "m3" DirIn) ∈ message_ids batch.
Proof.
  refine (unread_until_confirmed 3 [] demo_in (demo_stored "m3" DirIn) (tail demo_ops) _ _).
  - right. right. left.
  - reflexivity.
Defined.

(** C34. Reading terminates and misses nothing but copies. A client that reads with a
    limit, under fresh and distinct cursors, confirming each batch by the next read,
    has after [ceil(n / limit)] reads of [n] unread messages received some of them,
    oldest first and none twice, and every unread id.  When the ids of the unread
    messages are distinct these are exactly the unread messages; a second message
    under an id is lost when the first is confirmed before it is read
    ([second_copy_is_lost]). *)
Theorem reading_drains max s limit cursors :
  synced s -> NoDup cursors -> (forall c, c ∈ cursors -> c <> "") -> (forall c, c ∈ cursors -> replay s c = None) ->
  (unreadCount s <= limit * length cursors)%nat ->
  let got := batches (snd (store_run max s (reads limit None cursors))) in
  sublist got (unread (st_messages s)) /\
  (forall m, m ∈ unread (st_messages s) -> sd_message_id m ∈ message_ids got) /\
  (NoDup (message_ids (unread (st_messages s))) -> got = unread (st_messages s)).
Proof.
  intros Hs Hnd Hne Hfresh Hlen got.
  assert (got = drained (length cursors) limit (unread (st_messages s))) as ->.
  { pose proof (mailbox_drains limit cursors (mailbox_of s) Hnd Hne) as Hd.
    rewrite (run_refines max) in Hd by done. apply Hd.
    intros c Hc Hin. specialize (Hfresh c Hc). rewrite <- batch_of_cursors in Hfresh. unfold batch_of in Hfresh.
    destruct (select_one _ _) eqn:He; [done|]. apply list_elem_of_In, in_map_iff in Hin as (cb & <- & Hcb%list_elem_of_In).
    pose proof (select_one_None _ _ He cb Hcb) as Hf. simpl in Hf. by bools. }
  split_and!; [apply drained_sublist|intros m; by apply drained_covers|intros; by apply drained_all].
Qed.

Lemma reading_drains_witness :
  let s := fst (store_run 3 (load_store None) [OpAdd demo_in; OpTake 1 None "k0" "t"]) in
  batches (snd (store_run 3 s (reads 2 None ["k1"; "k2"; "k3"]))) = demo_in.
Proof.
  intros s. refine (proj2 (proj2 (reading_drains 3 s 2 ["k1"; "k2"; "k3"] _ _ _ _ _)) _).
  - apply (store_run_synced 3 (load_store None)), synced_load.
  - apply (bool_decide_unpack _). vm_compute. exact I.
  - intros c Hc ->. revert Hc. apply (bool_decide_unpack _). vm_compute. exact I.
  - intros c Hc. repeat (apply elem_of_cons in Hc as [->|Hc]; [vm_compute; reflexivity|]). by apply elem_of_nil in Hc.
  - vm_compute. lia.
  - apply (bool_decide_unpack _). vm_compute. exact I.
Defined.

(** Two messages under one id: the read that confirms the first also marks the second,
    which no read has returned. *)
Example second_copy_is_lost :
  let again := MkStored "m1" "c" DirIn "a" "A" false "direct" "normal" "bye" [] [] None None
                 (MkVerification StatusUnsigned None None) "t" "t" None in
  let s := fst (store_run 9 (load_store None) [OpAdd (demo_in ++ [again])]) in
  unreadCount s = 4%nat /\ unread (st_messages s) = (demo_in ++ [again])%list /\
  batches (snd (store_run 9 s (reads 2 None ["k1"; "k2"]))) = demo_in /\
  unreadCount (fst (store_run 9 s (reads 2 None ["k1"; "k2"; "k3"]))) = 0%nat.
Proof. by vm_compute. Qed.

(** Read means read. Once the client confirms a batch, no later read returns
    a message with an id of that batch, whatever other unconfirmed batch carried
    it, unless a message with that id is added again. *)
Theorem confirmed_never_returned max s limit c cursor at_ ops batch i :
  synced s -> c <> "" -> replay s c = Some batch -> i ∈ message_ids batch ->
  (forall op, op ∈ ops -> ~ adds_id i op) ->
  forall c' batch', RBatch c' batch' ∈ snd (store_run max s (OpTake limit (Some c) cursor at_ :: ops)) ->
    i ∉ message_ids batch'.
Proof.
  intros Hs Hc Hb Hi Ha c' batch' Hr.
  pose proof (run_refines max s (OpTake limit (Some c) cursor at_ :: ops) Hs) as Hrun.
  rewrite <- batch_of_cursors in Hb. pose proof (confirmed_ids_gone (mailbox_of s) c batch i Hb Hi) as Hgone.
  revert Hr. replace (snd (store_run _ _ _)) with (snd (mailbox_run (mailbox_of s) (OpTake limit (Some c) cursor at_ :: ops)))
    by by rewrite Hrun.
  unfold mailbox_run. simpl. rewrite (bool_decide_false _ Hc).
  set (mb := MkMailbox _ _). pose proof (waiting_ids_run i ops mb Ha Hgone c' batch') as Hrest.
  unfold mailbox_run in Hrest. destruct (run_with mailbox_step mb ops) as [mb2 rs]. simpl in *.
  intros [[= -> ->]|H]%elem_of_cons; [|by apply Hrest]. by intros ?%message_ids_take.
Qed.

Lemma confirmed_never_returned_witness :
  let s := fst (store_run 3 (load_store None) [OpAdd demo_in; OpTake 2 None "k1" "t"; OpTake 3 None "k2" "t"]) in
  ("m2" ∉ message_ids (batches (snd (store_run 3 s [OpTake 5 (Some "k1") "k3" "t"])))) /\
  forall c' batch', RBatch c' batch' ∈ snd (store_run 3 s [OpTake 5 (Some "k1") "k3" "t"]) ->
    "m2" ∉ message_ids batch'.
Proof.
  intros s. split; [apply (bool_decide_unpack _); vm_compute; exact I|].
  refine (confirmed_never_returned 3 s 5 "k1" "k3" "t" [] (map (fun i => demo_stored i DirIn) ["m1"; "m2"]) "m2" _ _ _ _ _).
  - apply (store_run_synced 3 (load_store None)), synced_load.
  - done.
  - vm_compute. reflexivity.
  - right. left.
  - intros op Hop. by apply elem_of_nil in Hop.
Defined.

(** The store is bounded, restarts included. Fed as the agent feeds it (inbound
    batches of at most [b] and only while [hasRoom], its own messages one by one)
    it never holds more than [max + b] messages, 16 cursors, 500 nonces and 500
    message ids, in memory or on disk. *)
Theorem store_bounded max b ops :
  0 <= max -> (1 <= b)%nat -> fitting max b (load_store None) ops ->
  let s := fst (store_run max (load_store None) ops) in
  within max b s /\ within max b (load_store (st_disk s)).
Proof. intros Hmax Hb Hf. exact (bounded_run max b ops _ Hmax Hb (bounded_empty max b Hmax Hb) Hf). Qed.

Lemma store_bounded_witness :
  let s := fst (store_run 3 (load_store None) demo_ops) in
  within 3 3 s /\ within 3 3 (load_store (st_disk s)).
Proof.
  apply (store_bounded 3 3 demo_ops); [lia|lia|]. cbn [fitting demo_ops].
  split_and!; try exact I; try (left; split; [vm_compute; reflexivity|cbn; lia]); right; split; reflexivity.
Defined.
