(* ===== verification/McpAgent.v ===== *)
(** * The agent behind the MCP connector

    [packages/mcp-connector/src/agent.ts], class [EkhoConnectorAgent]: the poll
    that syncs the trust root, judges every message, stores or dead-letters it and
    acknowledges the batch; sending; rooms; start-up.  A method that awaits the
    network is split at the await: what it does before, and what it does with the
    reply, because other calls run in between.  Log lines are not modelled. *)

From S2P Require Import Prelude Json IsoTime JsValues Identity TrustSync Verify IdentityFile McpStore.
Import Ascii String.
Open Scope string_scope.
Open Scope Z_scope.

Definition EKHO_ORIGIN_STAMP : string := "ekho-mcp".
Definition MAX_SEND_TEXT : Z := 8000.

(** ** Data *)

(** A message of an inbox batch; [cm_signed] are the fields the verifier reads.  A
    [message_id] that is not a string is [None] there. *)
Record ConnectorMessage := MkConnectorMessage {
  cm_signed : SignedMessage;
  cm_conversation_id : string;
  cm_metadata : json;
  cm_created_at : string;
  cm_attachments : option (list StoredAttachment);
  cm_mentions : option (list json);
  cm_reply_to : option ReplyTo
}.

Record InboxRosterEntry := MkInboxRosterEntry {
  ir_agent_id : string;
  ir_display_name : string;
  ir_runtime : string;
  ir_status : string;
  ir_identity_public_key : option string;
  ir_key_id : option string;
  ir_endorsed_by_key_id : option string;
  ir_endorsement_sig : option string
}.

Definition roster_like (r : InboxRosterEntry) : RosterEntryLike :=
  MkRosterEntryLike (Some (ir_agent_id r)) (ir_identity_public_key r) (ir_key_id r)
    (ir_endorsed_by_key_id r) (ir_endorsement_sig r).

Inductive ControlAction := CtlPause | CtlQuarantine | CtlResume | CtlOther.

(** An absent list is empty; an absent [rooms] stays absent. *)
Record InboxBatch := MkInboxBatch {
  ib_messages : list ConnectorMessage;
  ib_controls : list ControlAction;
  ib_operator_trusted : bool;
  ib_roster : list InboxRosterEntry;
  ib_rooms : option (list (string * string));
  ib_fleet_id : option string;
  ib_operator_keys : list OperatorKeyEntry
}.

Record DeadLetterRecord := MkDeadLetter {
  dr_reason : string;
  dr_kind : SenderKind;
  dr_key_id : option string;
  dr_message : ConnectorMessage
}.

Inductive AgentStatus :=
  | AsStarting | AsConnected | AsPaused | AsIdentityUnavailable | AsError | AsStopped.

Record AgentOptions := MkAgentOptions {
  ao_fleetId : option string;
  ao_enrollmentToken : option string;
  ao_displayName : string;
  ao_requireSigned : RequireSignedMode;
  ao_queueMax : Z
}.

(** The private fields.  [ca_client] says whether the HTTP client exists;
    [ca_deadLetters] is the dead-letter file, [ca_identityFile] and
    [ca_credentialsFile] are the files of the state directory. *)
Record ConnectorAgent := MkConnectorAgent {
  ca_store : MessageStore;
  ca_client : bool;
  ca_credentials : option StoredCredentials;
  ca_identity : option EkhoIdentity;
  ca_status : AgentStatus;
  ca_paused : bool;
  ca_polling : bool;
  ca_deadLetters : list DeadLetterRecord;
  ca_identityFile : IdentityDir;
  ca_credentialsFile : FileState
}.

Definition set_polling (b : bool) (a : ConnectorAgent) : ConnectorAgent :=
  MkConnectorAgent (ca_store a) (ca_client a) (ca_credentials a) (ca_identity a) (ca_status a)
    (ca_paused a) b (ca_deadLetters a) (ca_identityFile a) (ca_credentialsFile a).

Definition set_store (s : MessageStore) (a : ConnectorAgent) : ConnectorAgent :=
  MkConnectorAgent s (ca_client a) (ca_credentials a) (ca_identity a) (ca_status a)
    (ca_paused a) (ca_polling a) (ca_deadLetters a) (ca_identityFile a) (ca_credentialsFile a).

Definition self_id (a : ConnectorAgent) : string :=
  match ca_credentials a with Some c => sc_agentId c | None => "" end.

(** ** The verdict shown to the client *)

Definition classify (msg : SignedMessage) (verdict : option VerifyResult) (operatorTrusted : bool) : Verification :=
  match signature_of msg with
  | None =>
      if isOperatorMessage msg && operatorTrusted then MkVerification StatusRelayAttested None None
      else MkVerification StatusUnsigned None None
  | Some _ =>
      match verdict with
      | None => MkVerification StatusUnverifiable (Some "no-pinned-operator-keys") (sm_key_id msg)
      | Some v =>
          if vr_verified v then MkVerification StatusVerified None (vr_keyId v)
          else MkVerification StatusFailed (vr_reason v) (sm_key_id msg)
      end
  end.

Definition admits (mode : RequireSignedMode) (status : VerificationStatus) : bool :=
  match mode with
  | ModeRequire => bool_decide (status = StatusVerified) || bool_decide (status = StatusRelayAttested)
  | _ => negb (bool_decide (status = StatusFailed))
  end.

Definition status_text (s : VerificationStatus) : string :=
  match s with
  | StatusVerified => "verified" | StatusRelayAttested => "relay_attested" | StatusUnsigned => "unsigned"
  | StatusFailed => "failed" | StatusUnverifiable => "unverifiable" | StatusSelfSigned => "self_signed"
  end.

(** ** Ingest *)

(** [new Map(l)] read at a key: the last entry wins. *)
Definition map_get {V} (l : list (string * V)) (k : string) : option V :=
  snd <$> last (List.filter (fun kv => fst kv ==? k) l).

(** The nonce an accepted signature burns: only a non-empty string. *)
Definition burned_nonce (m : SignedMessage) : option string :=
  match sm_sig_canonical m with
  | Some c => truthy (match prop c "nonce" with Some (JStr n) => Some n | _ => None end)
  | None => None
  end.

Definition sent_at_of (m : ConnectorMessage) : string :=
  match sm_sig_canonical (cm_signed m) with
  | Some c => match prop c "sent_at" with Some (JStr s) => s | _ => cm_created_at m end
  | None => cm_created_at m
  end.

(** [String(metadata?.sender_label ?? "Operator")] *)
Definition operator_label (metadata : json) : string :=
  match prop metadata "sender_label" with
  | None | Some JNull => "Operator"
  | Some v => js_String v
  end.

Definition stored_of (roster : list InboxRosterEntry) (rooms : list (string * string)) (at_ : string)
    (message_id : string) (m : ConnectorMessage) (v : Verification) : StoredMessage :=
  let sender := default "" (sm_sender_agent_id (cm_signed m)) in
  MkStored message_id (cm_conversation_id m) DirIn sender
    (if isOperatorMessage (cm_signed m) then operator_label (cm_metadata m)
     else default sender (map_get (map (fun r => (ir_agent_id r, ir_display_name r)) roster) sender))
    (isOperatorMessage (cm_signed m)) (default "" (sm_message_type (cm_signed m)))
    (default "" (sm_priority (cm_signed m))) (body_text (sm_body (cm_signed m)))
    (default [] (cm_attachments m)) (map js_String (default [] (cm_mentions m))) (cm_reply_to m)
    ((fun name => (cm_conversation_id m, name)) <$> map_get rooms (cm_conversation_id m))
    v (sent_at_of m) at_ None.

(** Why a message of a batch is passed over without a verdict. *)
Definition skipped (s : MessageStore) (selfId : string) (m : SignedMessage) : bool :=
  match sm_message_id m with
  | None => true
  | Some i => (sm_sender_agent_id m ==? Some selfId) || (sm_message_type m ==? Some "heartbeat") || messageSeen s i
  end.

(** What an accumulating pass over the batch holds: the store (whose nonces it
    burns), the messages to keep and the ones to dead-letter. *)
Record Ingesting := MkIngesting {
  ig_store : MessageStore; ig_accepted : list StoredMessage; ig_rejects : list DeadLetterRecord
}.

(** What becomes of one message of a batch. *)
Inductive outcome :=
  | Passed
  | Rejected (d : DeadLetterRecord)
  | Kept (m : StoredMessage).

Definition reject_reason (v : Verification) : string :=
  match vf_reason v with
  | Some r => r
  | None => if bool_decide (vf_status v = StatusUnsigned) then "unsigned" else status_text (vf_status v)
  end.

Definition sender_kind (m : SignedMessage) : SenderKind := if isOperatorMessage m then KOperator else KPeer.

Definition judge_message (mode : RequireSignedMode) (batch : InboxBatch) (s : MessageStore) (selfId at_ : string)
    (verdict : option VerifyResult) (raw : ConnectorMessage) : outcome :=
  if skipped s selfId (cm_signed raw) then Passed
  else
    let v := classify (cm_signed raw) verdict (ib_operator_trusted batch) in
    if admits mode (vf_status v)
    then Kept (stored_of (ib_roster batch) (default [] (ib_rooms batch)) at_
                 (default "" (sm_message_id (cm_signed raw))) raw v)
    else Rejected (MkDeadLetter (reject_reason v) (sender_kind (cm_signed raw)) (vf_key_id v) raw).

(** An accepted signature burns its nonce. *)
Definition burn (s : MessageStore) (verdict : option VerifyResult) (m : SignedMessage) : MessageStore :=
  match verdict, burned_nonce m with
  | Some r, Some n => if vr_verified r then markNonceSeen s n else s
  | _, _ => s
  end.

Section Agent.
Context `{Crypto} `{NodeCrypto}.
Context (opts : AgentOptions).

(** [verdicts[raw.message_id] ?? null] *)
Definition verdict_of (verdicts : gmap string (option VerifyResult)) (raw : ConnectorMessage) : option VerifyResult :=
  mjoin (verdicts !! default "" (sm_message_id (cm_signed raw))).

Definition ingest_step (batch : InboxBatch) (selfId : string) (verdicts : gmap string (option VerifyResult))
    (at_ : string) (g : Ingesting) (raw : ConnectorMessage) : Ingesting :=
  let verdict := verdict_of verdicts raw in
  match judge_message (ao_requireSigned opts) batch (ig_store g) selfId at_ verdict raw with
  | Passed => g
  | Rejected d => MkIngesting (ig_store g) (ig_accepted g) (ig_rejects g ++ [d])
  | Kept m => MkIngesting (burn (ig_store g) verdict (cm_signed raw)) (ig_accepted g ++ [m]) (ig_rejects g)
  end.

Definition roster_snapshot (r : InboxRosterEntry) : RosterSnapshot :=
  MkRosterSnapshot (ir_agent_id r) (ir_display_name r) (ir_runtime r) (ir_status r)
    (negb (truthy (ir_endorsed_by_key_id r) ==? None) && negb (truthy (ir_endorsement_sig r) ==? None)).

(** The identity after the sync, saved when that returned a change ([ingest] goes on
    when it throws), and the verdicts, or [None] when [verifyBatch] throws. *)
Definition judge (now : Z) (at_ : string) (a : ConnectorAgent) (batch : InboxBatch) (fleetId : option string)
    : ConnectorAgent * option (gmap string (option VerifyResult)) :=
  match ca_identity a with
  | None => (a, Some ∅)
  | Some identity =>
      let '(identity', changed) := syncPinnedOperatorKeys at_ identity (ib_operator_keys batch) fleetId in
      (MkConnectorAgent (ca_store a) (ca_client a) (ca_credentials a) (Some identity') (ca_status a) (ca_paused a)
         (ca_polling a) (ca_deadLetters a)
         (if default false changed then MkIdentityDir (saveIdentity identity') (dir_preserved (ca_identityFile a))
          else ca_identityFile a)
         (ca_credentialsFile a),
       verifyBatch (map cm_signed (ib_messages batch)) identity'
         (self_id a) fleetId
         (map roster_like (ib_roster batch)) (seenNonceSet (ca_store a)) now)
  end.

(** The pass over the messages of a batch. *)
Definition ingest_pass (verdicts : gmap string (option VerifyResult)) (at_ : string) (a : ConnectorAgent)
    (batch : InboxBatch) : Ingesting :=
  foldl (ingest_step batch (self_id a) verdicts at_) (MkIngesting (ca_store a) [] []) (ib_messages batch).

(** The messages accepted, or [None] when it throws. *)
Definition ingest (now : Z) (at_ : string) (a : ConnectorAgent) (batch : InboxBatch) (fleetId : option string)
    : ConnectorAgent * option (list StoredMessage) :=
  match judge now at_ a batch fleetId with
  | (a1, None) => (a1, None)
  | (a1, Some verdicts) =>
      let g := ingest_pass verdicts at_ a batch in
      let s := setFleetView (add (ao_queueMax opts) (ig_store g) (ig_accepted g))
                 (Some (map roster_snapshot (ib_roster batch))) (ib_rooms batch) (Some (ib_operator_trusted batch)) in
      (MkConnectorAgent s (ca_client a1) (ca_credentials a1) (ca_identity a1) (ca_status a1) (ca_paused a1)
         (ca_polling a1) (ca_deadLetters a1 ++ ig_rejects g) (ca_identityFile a1) (ca_credentialsFile a1),
       Some (ig_accepted g))
  end.

(** ** One poll *)

(** The guards: [None] is the early return of [[]]. *)
Definition poll_begin (a : ConnectorAgent) : option ConnectorAgent :=
  if negb (ca_client a) || bool_decide (ca_credentials a = None) || ca_polling a then None
  else if negb (hasRoom (ao_queueMax opts) (ca_store a)) then None
  else Some (set_polling true a).

Definition apply_control (paused : bool) (c : ControlAction) : bool :=
  match c with CtlPause | CtlQuarantine => true | CtlResume => false | CtlOther => paused end.

(** The reply of the relay ([None]: the request failed): the messages stored and
    the ids acknowledged, none of either when [ingest] throws. *)
Definition poll_receive (now : Z) (at_ : string) (a : ConnectorAgent) (reply : option InboxBatch)
    : ConnectorAgent * list StoredMessage * list (option string) :=
  match reply with
  | None => (a, [], [])
  | Some batch =>
      let paused := foldl apply_control (ca_paused a) (ib_controls batch) in
      let a := MkConnectorAgent (ca_store a) (ca_client a) (ca_credentials a) (ca_identity a)
                 (if paused then AsPaused else AsConnected) paused (ca_polling a) (ca_deadLetters a)
                 (ca_identityFile a) (ca_credentialsFile a) in
      let fleetId := match ib_fleet_id batch with
                     | Some f => Some f
                     | None => sc_fleetId <$> ca_credentials a
                     end in
      match ingest now at_ a batch fleetId with
      | (a, Some stored) => (a, stored, map (fun m => sm_message_id (cm_signed m)) (ib_messages batch))
      | (a, None) => (a, [], [])
      end
  end.

(** The [finally]. *)
Definition poll_end (a : ConnectorAgent) : ConnectorAgent := set_polling false a.

Definition pollOnce (now : Z) (at_ : string) (a : ConnectorAgent) (reply : option InboxBatch)
    : ConnectorAgent * list StoredMessage * list (option string) :=
  match poll_begin a with
  | None => (a, [], [])
  | Some a1 =>
      let '(a2, stored, acks) := poll_receive now at_ a1 reply in (poll_end a2, stored, acks)
  end.

(** ** Sending *)

Record ConnectorSend := MkConnectorSend {
  cs_recipientAgentId : option string;
  cs_roomId : option string;
  cs_broadcast : bool;
  cs_text : string;
  cs_replyTo : option string;
  cs_mentions : list string
}.

Inductive ConnectorSendError :=
  | NotConnected | AgentPaused | EmptyText | TextTooLong | NotExactlyOneTarget.

(** The payload POSTed to the relay. *)
Record ConnectorPayload := MkConnectorPayload {
  cp_recipient : list (string * json);
  cp_message_type : string;
  cp_priority : string;
  cp_body : json;
  cp_metadata : list (string * json);
  cp_conversation_id : string;
  cp_correlation_id : string;
  cp_signed : SignedSendFields
}.

Definition send_targets (r : ConnectorSend) : nat :=
  length (List.filter (fun b => b)
    [negb (truthy (cs_roomId r) ==? None); negb (truthy (cs_recipientAgentId r) ==? None); cs_broadcast r]).

Definition send_recipient (r : ConnectorSend) : list (string * json) :=
  match truthy (cs_roomId r) with
  | Some room => [("kind", JStr "group"); ("id", JStr room)]
  | None =>
      if cs_broadcast r then [("kind", JStr "broadcast")]
      else [("kind", JStr "agent"); ("id", JStr (default "" (cs_recipientAgentId r)))]
  end.

Definition send_metadata (r : ConnectorSend) : list (string * json) :=
  ([("ekho_origin", JStr EKHO_ORIGIN_STAMP)] ++
   (if (length (cs_mentions r) =? 0)%nat then [] else [("mentions", jlist (cs_mentions r))]) ++
   match truthy (cs_replyTo r) with Some m => [("reply_to_message_id", JStr m)] | None => [] end)%list.

Section Send.
Context `{Signing}.

(** Up to the request: [conversation], [correlation] and [nonce] are the fresh
    values it draws. *)
Definition send_prepare (a : ConnectorAgent) (r : ConnectorSend) (conversation correlation nonce sentAt : string)
    : result ConnectorSendError ConnectorPayload :=
  match ca_credentials a, ca_identity a with
  | Some c, Some i =>
      throw_if negb (ca_client a) with NotConnected ;;
      throw_if ca_paused a with AgentPaused ;;
      throw_if trim (cs_text r) ==? "" with EmptyText ;;
      throw_if MAX_SEND_TEXT <? Z.of_nat (String.length (cs_text r)) with TextTooLong ;;
      throw_if negb (send_targets r =? 1)%nat with NotExactlyOneTarget ;;
      let conversationId := default conversation (truthy (cs_roomId r)) in
      Ok (MkConnectorPayload (send_recipient r) "direct" "normal" (JObj [("text", JStr (cs_text r))])
            (send_metadata r) conversationId correlation
            (buildSignedSendFields i (sc_fleetId c) (sc_agentId c) (send_recipient r) conversationId
               (cs_text r) nonce sentAt "direct" "normal" []))
  | _, _ => Throw NotConnected
  end.
End Send.

Definition room_name (s : MessageStore) (room : string) : string :=
  match select_one (fun r => fst r ==? room) (st_rooms s) with Some r => snd r | None => room end.

(** Once the relay has answered with a message id: our own copy. *)
Definition send_complete (a : ConnectorAgent) (r : ConnectorSend) (p : ConnectorPayload)
    (message_id sentAt storedAt : string) : ConnectorAgent :=
  set_store
    (add (ao_queueMax opts) (ca_store a)
       [MkStored message_id (cp_conversation_id p) DirOut (self_id a) (ao_displayName opts) false
          (cp_message_type p) (cp_priority p) (cs_text r) [] (cs_mentions r)
          ((fun m => MkReplyTo m "" "") <$> truthy (cs_replyTo r))
          ((fun room => (room, room_name (ca_store a) room)) <$> truthy (cs_roomId r))
          (MkVerification StatusSelfSigned None (Some (sf_key_id (cp_signed p)))) sentAt storedAt (Some "self")])
    a.

(** ** Rooms *)

Inductive RoomMemberError := AmbiguousMember (matches : nat) | UnknownMember.

(** One member: an id of the roster, or the one display name that matches. *)
Definition resolve_member (roster : list RosterSnapshot) (m : string) : result RoomMemberError string :=
  match select_one (fun r => rs_agent_id r ==? m) roster with
  | Some byId => Ok (rs_agent_id byId)
  | None =>
      match List.filter (fun r => lower_string (rs_display_name r) ==? lower_string m) roster with
      | [r] => Ok (rs_agent_id r)
      | [] => Throw UnknownMember
      | l => Throw (AmbiguousMember (length l))
      end
  end.

Fixpoint resolve_members (roster : list RosterSnapshot) (ms : list string) : result RoomMemberError (list string) :=
  match ms with
  | [] => Ok []
  | m :: ms' =>
      let? i := resolve_member roster m in
      let? is_ := resolve_members roster ms' in
      Ok (i :: is_)
  end.

(** Once the relay has made the room. *)
Definition room_opened (a : ConnectorAgent) (id_ name : string) : ConnectorAgent :=
  set_store (setFleetView (ca_store a) None (Some [(id_, name)]) None) a.

(** ** Start-up *)

Inductive ConnectError :=
  | CredentialsUnavailable | IdentityUnavailable (r : IdentityUnavailableReason) | NotEnrolled | EnrollmentFailed
  | PinSyncFailed.

(** [enrolment] is the relay's answer to the enrol request: the credentials and the
    operator keys, or nothing when it was refused. *)
Definition connect (a : ConnectorAgent) (freshSeed at_ : string)
    (enrolment : option (StoredCredentials * list OperatorKeyEntry)) : ConnectorAgent * option ConnectError :=
  match credentialsState (ca_credentialsFile a) with
  | CredentialsUnusable =>
      (MkConnectorAgent (ca_store a) (ca_client a) (ca_credentials a) (ca_identity a) (ca_status a) (ca_paused a)
         (ca_polling a) (ca_deadLetters a)
         (MkIdentityDir (dir_identity (ca_identityFile a))
            (preserveUnusableFile (ca_credentialsFile a) (dir_preserved (ca_identityFile a))))
         (ca_credentialsFile a),
       Some CredentialsUnavailable)
  | stored =>
      let enrolled := match stored with CredentialsOk _ => true | _ => false end in
      let '(dir, loaded) := loadOrCreateIdentity (ca_identityFile a) (negb enrolled) freshSeed in
      match loaded with
      | Throw why =>
          (MkConnectorAgent (ca_store a) (ca_client a) (ca_credentials a) (ca_identity a) AsIdentityUnavailable
             (ca_paused a) (ca_polling a) (ca_deadLetters a) dir (ca_credentialsFile a),
           Some (IdentityUnavailable why))
      | Ok i =>
          let with_identity := MkConnectorAgent (ca_store a) (ca_client a) (ca_credentials a) (Some i) (ca_status a)
                                 (ca_paused a) (ca_polling a) (ca_deadLetters a) dir (ca_credentialsFile a) in
          let connected c i dir file :=
            MkConnectorAgent (ca_store a) true (Some c) (Some i) (if ca_paused a then AsPaused else AsConnected)
              (ca_paused a) (ca_polling a) (ca_deadLetters a) dir file in
          match stored with
          | CredentialsOk c => (connected c i dir (ca_credentialsFile a), None)
          | _ =>
              if (truthy (ao_fleetId opts) ==? None) || (truthy (ao_enrollmentToken opts) ==? None)
              then (with_identity, Some NotEnrolled)
              else match enrolment with
                   | None => (with_identity, Some EnrollmentFailed)
                   | Some (c, keys) =>
                       let '(i', changed) :=
                         if (length keys =? 0)%nat then (i, Some false)
                         else syncPinnedOperatorKeys at_ i keys (Some (sc_fleetId c)) in
                       match changed with
                       | Some changed =>
                           (connected c i' (if changed then MkIdentityDir (saveIdentity i') (dir_preserved dir) else dir)
                              (saveCredentials c), None)
                       | None =>
                           (MkConnectorAgent (ca_store a) true (Some c) (Some i') (ca_status a) (ca_paused a)
                              (ca_polling a) (ca_deadLetters a) dir (saveCredentials c), Some PinSyncFailed)
                       end
                   end
          end
      end
  end.

Definition stop (a : ConnectorAgent) : ConnectorAgent :=
  MkConnectorAgent (ca_store a) (ca_client a) (ca_credentials a) (ca_identity a) AsStopped
    (ca_paused a) (ca_polling a) (ca_deadLetters a) (ca_identityFile a) (ca_credentialsFile a).
End Agent.
