(* ===== verification/McpSafety.v ===== *)
(** * The connector's agent: runs and their effect on the store

    [agent_op] is one uninterrupted piece of the agent's code; [agent_run] is any
    interleaving of them.  Every operation acts on the store by a list of store
    operations ([store_ops]), which is how the theorems on the store carry over. *)

From S2P Require Import Prelude Json IsoTime JsValues Identity TrustSync TrustSafety Verify VerifyProperties IdentityFile McpStore McpStoreProperties McpAgent.
Import Ascii String.
Open Scope string_scope.
Open Scope Z_scope.

(** ** The pass over a batch *)

Section Ingest.
Context `{Crypto} `{NodeCrypto} (opts : AgentOptions).

Definition burn_all (s : MessageStore) (ns : list string) : MessageStore := foldl markNonceSeen s ns.

Lemma burn_all_fields ns s :
  st_messages (burn_all s ns) = st_messages s /\ st_seenMessageIds (burn_all s ns) = st_seenMessageIds s /\
  st_disk (burn_all s ns) = st_disk s.
Proof.
  revert s. induction ns as [|n ns IH]; intros s; [done|]. apply (IH (markNonceSeen s n)).
Qed.

(** The nonces a message burns. *)
Definition burns (v : option VerifyResult) (m : SignedMessage) : list string :=
  match v, burned_nonce m with
  | Some r, Some n => if vr_verified r then [n] else []
  | _, _ => []
  end.

Lemma burn_is s v m : burn s v m = burn_all s (burns v m).
Proof. unfold burn, burns. by repeat case_match. Qed.

Lemma judge_message_store mode batch s s' self at_ v raw :
  st_seenMessageIds s = st_seenMessageIds s' ->
  judge_message mode batch s self at_ v raw = judge_message mode batch s' self at_ v raw.
Proof. intros Hs. unfold judge_message, skipped, messageSeen. by rewrite Hs. Qed.

(** The verdict on each message does not depend on the messages before it. *)
Definition outcome_in (batch : InboxBatch) (s : MessageStore) (self at_ : string)
    (verdicts : gmap string (option VerifyResult)) (raw : ConnectorMessage) : outcome :=
  judge_message (ao_requireSigned opts) batch s self at_ (verdict_of verdicts raw) raw.

Definition kept (o : outcome) : option StoredMessage := match o with Kept m => Some m | _ => None end.
Definition rejected (o : outcome) : option DeadLetterRecord := match o with Rejected d => Some d | _ => None end.

Definition burns_in (batch : InboxBatch) (s : MessageStore) (self at_ : string)
    (verdicts : gmap string (option VerifyResult)) (raw : ConnectorMessage) : list string :=
  match outcome_in batch s self at_ verdicts raw with
  | Kept _ => burns (verdict_of verdicts raw) (cm_signed raw)
  | _ => []
  end.

Lemma ingest_fold batch self verdicts at_ : forall msgs s0 ns g,
  ig_store g = burn_all s0 ns ->
  let g' := foldl (ingest_step opts batch self verdicts at_) g msgs in
  let os := map (outcome_in batch s0 self at_ verdicts) msgs in
  ig_store g' = burn_all s0 (ns ++ concat (map (burns_in batch s0 self at_ verdicts) msgs)) /\
  ig_accepted g' = (ig_accepted g ++ omap kept os)%list /\
  ig_rejects g' = (ig_rejects g ++ omap rejected os)%list.
Proof.
  induction msgs as [|raw msgs IH]; intros s0 ns g Hg; [cbn; by rewrite !app_nil_r|].
  cbn [foldl map]. set (g1 := ingest_step opts batch self verdicts at_ g raw).
  assert (H1 : ig_store g1 = burn_all s0 (ns ++ burns_in batch s0 self at_ verdicts raw) /\
               ig_accepted g1 = (ig_accepted g ++ omap kept [outcome_in batch s0 self at_ verdicts raw])%list /\
               ig_rejects g1 = (ig_rejects g ++ omap rejected [outcome_in batch s0 self at_ verdicts raw])%list).
  { unfold g1, ingest_step, burns_in, outcome_in.
    rewrite (judge_message_store _ _ _ s0) by (rewrite Hg; apply burn_all_fields).
    destruct (judge_message _ _ s0 _ _ _ _) as [|d|m]; cbn; rewrite ?app_nil_r; try done.
    rewrite burn_is, Hg. unfold burn_all. by rewrite foldl_app. }
  destruct H1 as (Hs & Ha & Hr). destruct (IH s0 _ g1 Hs) as (Hs' & Ha' & Hr').
  split_and!.
  - rewrite Hs'. cbn [concat]. by rewrite <- app_assoc.
  - rewrite Ha', Ha, <- app_assoc. f_equal. cbn. by destruct (kept _).
  - rewrite Hr', Hr, <- app_assoc. f_equal. cbn. by destruct (rejected _).
Qed.

(** The pass of an ingest: what it keeps, rejects and burns; nothing when the
    verdicts cannot be computed. *)
Definition verdicts_of (now : Z) (at_ : string) (a : ConnectorAgent) (batch : InboxBatch) (fleet : option string)
    : option (gmap string (option VerifyResult)) := snd (judge now at_ a batch fleet).

Definition outcomes (now : Z) (at_ : string) (a : ConnectorAgent) (batch : InboxBatch) (fleet : option string)
    : list outcome :=
  match verdicts_of now at_ a batch fleet with
  | Some vs => map (outcome_in batch (ca_store a) (self_id a) at_ vs) (ib_messages batch)
  | None => []
  end.

Definition burned_by (now : Z) (at_ : string) (a : ConnectorAgent) (batch : InboxBatch) (fleet : option string)
    : list string :=
  match verdicts_of now at_ a batch fleet with
  | Some vs => concat (map (burns_in batch (ca_store a) (self_id a) at_ vs) (ib_messages batch))
  | None => []
  end.

Lemma ingest_pass_spec now at_ a batch fleet vs :
  verdicts_of now at_ a batch fleet = Some vs ->
  let g := ingest_pass opts vs at_ a batch in
  ig_store g = burn_all (ca_store a) (burned_by now at_ a batch fleet) /\
  ig_accepted g = omap kept (outcomes now at_ a batch fleet) /\
  ig_rejects g = omap rejected (outcomes now at_ a batch fleet).
Proof.
  intros Hvs. unfold outcomes, burned_by. rewrite Hvs.
  by apply (ingest_fold batch _ _ at_ _ (ca_store a) [] (MkIngesting (ca_store a) [] [])).
Qed.

(** What an ingest that completes leaves, and one that throws. *)
Lemma ingest_done now at_ a batch fleet vs : verdicts_of now at_ a batch fleet = Some vs ->
  let g := ingest_pass opts vs at_ a batch in let a1 := fst (judge now at_ a batch fleet) in
  ingest opts now at_ a batch fleet =
  (MkConnectorAgent
     (setFleetView (add (ao_queueMax opts) (ig_store g) (ig_accepted g))
        (Some (map roster_snapshot (ib_roster batch))) (ib_rooms batch) (Some (ib_operator_trusted batch)))
     (ca_client a1) (ca_credentials a1) (ca_identity a1) (ca_status a1) (ca_paused a1)
     (ca_polling a1) (ca_deadLetters a1 ++ ig_rejects g) (ca_identityFile a1) (ca_credentialsFile a1),
   Some (ig_accepted g)).
Proof. unfold verdicts_of, ingest. destruct (judge _ _ _ _ _) as [a1 o]. cbn [snd]. by intros ->. Qed.

Lemma ingest_throws now at_ a batch fleet : verdicts_of now at_ a batch fleet = None ->
  ingest opts now at_ a batch fleet = (fst (judge now at_ a batch fleet), None).
Proof. unfold verdicts_of, ingest. destruct (judge _ _ _ _ _) as [a1 o]. cbn [snd]. by intros ->. Qed.

(** The sync and the verdicts touch the identity only. *)
Lemma judge_fields now at_ a batch fleet : let a1 := fst (judge now at_ a batch fleet) in
  ca_store a1 = ca_store a /\ ca_polling a1 = ca_polling a /\ ca_deadLetters a1 = ca_deadLetters a /\
  ca_credentialsFile a1 = ca_credentialsFile a.
Proof. unfold judge. destruct (ca_identity a); [|done]. by destruct (syncPinnedOperatorKeys _ _ _ _). Qed.

Lemma kept_inv batch s self at_ v raw m :
  judge_message (ao_requireSigned opts) batch s self at_ v raw = Kept m ->
  skipped s self (cm_signed raw) = false /\
  admits (ao_requireSigned opts) (vf_status (sd_verification m)) = true /\
  m = stored_of (ib_roster batch) (default [] (ib_rooms batch)) at_ (default "" (sm_message_id (cm_signed raw))) raw
        (classify (cm_signed raw) v (ib_operator_trusted batch)).
Proof.
  unfold judge_message. destruct (skipped _ _ _); [done|]. destruct (admits _ _) eqn:Ha; [|done].
  by intros [= <-].
Qed.

Lemma kept_unread batch s self at_ v raw m :
  judge_message (ao_requireSigned opts) batch s self at_ v raw = Kept m -> isUnread m = true.
Proof. intros (_ & _ & ->)%kept_inv. done. Qed.
End Ingest.

(** ** Runs *)

Inductive agent_op :=
  | AoPollBegin
  | AoPollReply (now : Z) (at_ : string) (reply : option InboxBatch)
  | AoSent (r : ConnectorSend) (p : ConnectorPayload) (message_id sentAt storedAt : string)
  | AoRead (limit : nat) (after : option string) (cursor createdAt : string)
  | AoRoomOpened (id_ name : string)
  | AoRestart (freshSeed at_ : string).

Section Runs.
Context `{Crypto} `{NodeCrypto} (opts : AgentOptions).

(** A new process over the same state directory. *)
Definition new_process (a : ConnectorAgent) : ConnectorAgent :=
  MkConnectorAgent (load_store (st_disk (ca_store a))) false None None AsStarting false false
    (ca_deadLetters a) (ca_identityFile a) (ca_credentialsFile a).

(** The reply of an outstanding poll arrives; its [finally] runs with it, since the
    acknowledgement in between touches no state. *)
Definition agent_step (a : ConnectorAgent) (op : agent_op) : ConnectorAgent :=
  match op with
  | AoPollBegin => default a (poll_begin opts a)
  | AoPollReply now at_ reply =>
      if ca_polling a then poll_end (fst (fst (poll_receive opts now at_ a reply))) else a
  | AoSent r p message_id sentAt storedAt => send_complete opts a r p message_id sentAt storedAt
  | AoRead limit after cursor createdAt =>
      set_store (fst (takeUnread (ca_store a) limit after cursor createdAt)) a
  | AoRoomOpened id_ name => room_opened a id_ name
  | AoRestart freshSeed at_ => fst (connect opts (new_process a) freshSeed at_ None)
  end.

Definition agent_run (a : ConnectorAgent) (ops : list agent_op) : ConnectorAgent := foldl agent_step a ops.

Definition fleet_of (a : ConnectorAgent) (batch : InboxBatch) : option string :=
  match ib_fleet_id batch with Some f => Some f | None => sc_fleetId <$> ca_credentials a end.

(** The agent after the controls of a batch. *)
Definition with_controls (a : ConnectorAgent) (batch : InboxBatch) : ConnectorAgent :=
  let paused := foldl apply_control (ca_paused a) (ib_controls batch) in
  MkConnectorAgent (ca_store a) (ca_client a) (ca_credentials a) (ca_identity a)
    (if paused then AsPaused else AsConnected) paused (ca_polling a) (ca_deadLetters a)
    (ca_identityFile a) (ca_credentialsFile a).

Lemma poll_receive_batch now at_ a batch :
  poll_receive opts now at_ a (Some batch) =
  (fst (ingest opts now at_ (with_controls a batch) batch (fleet_of a batch)),
   default [] (snd (ingest opts now at_ (with_controls a batch) batch (fleet_of a batch))),
   match snd (ingest opts now at_ (with_controls a batch) batch (fleet_of a batch)) with
   | Some _ => map (fun m => sm_message_id (cm_signed m)) (ib_messages batch)
   | None => []
   end).
Proof.
  change (poll_receive opts now at_ a (Some batch)) with
    (match ingest opts now at_ (with_controls a batch) batch (fleet_of a batch) with
     | (a', Some stored) => (a', stored, map (fun m => sm_message_id (cm_signed m)) (ib_messages batch))
     | (a', None) => (a', [], [])
     end).
  by destruct (ingest opts now at_ (with_controls a batch) batch (fleet_of a batch)) as [a' [stored|]].
Qed.

(** The store's side of an ingest. *)
Definition ingest_ops (now : Z) (at_ : string) (a : ConnectorAgent) (batch : InboxBatch) (fleet : option string)
    : list store_op :=
  match verdicts_of now at_ a batch fleet with
  | Some _ => map OpNonce (burned_by opts now at_ a batch fleet) ++
      [OpAdd (omap kept (outcomes opts now at_ a batch fleet));
       OpView (Some (map roster_snapshot (ib_roster batch))) (ib_rooms batch) (Some (ib_operator_trusted batch))]
  | None => []
  end.

Definition store_ops (a : ConnectorAgent) (op : agent_op) : list store_op :=
  match op with
  | AoPollBegin => []
  | AoPollReply now at_ (Some batch) =>
      if ca_polling a
      then ingest_ops now at_ (with_controls a batch) batch (fleet_of a batch)
      else []
  | AoPollReply _ _ None => []
  | AoSent r p message_id sentAt storedAt =>
      [OpAdd [MkStored message_id (cp_conversation_id p) DirOut (self_id a) (ao_displayName opts) false
          (cp_message_type p) (cp_priority p) (cs_text r) [] (cs_mentions r)
          ((fun m => MkReplyTo m "" "") <$> truthy (cs_replyTo r))
          ((fun room => (room, room_name (ca_store a) room)) <$> truthy (cs_roomId r))
          (MkVerification StatusSelfSigned None (Some (sf_key_id (cp_signed p)))) sentAt storedAt (Some "self")]]
  | AoRead limit after cursor createdAt => [OpTake limit after cursor createdAt]
  | AoRoomOpened id_ name => [OpView None (Some [(id_, name)]) None]
  | AoRestart _ _ => [OpRestart]
  end.

Lemma store_run_nonces max s ns : fst (store_run max s (map OpNonce ns)) = burn_all s ns.
Proof.
  revert s. induction ns as [|n ns IH]; intros s; [done|]. unfold store_run in *. simpl.
  specialize (IH (markNonceSeen s n)). destruct (run_with _ _ _). exact IH.
Qed.

Lemma connect_store a freshSeed at_ enrolment : ca_store (fst (connect opts a freshSeed at_ enrolment)) = ca_store a.
Proof.
  unfold connect. by repeat (case_match; simpl in *; simplify_eq/=).
Qed.

Lemma ingest_store now at_ a batch fleet :
  ca_store (fst (ingest opts now at_ a batch fleet)) =
    fst (store_run (ao_queueMax opts) (ca_store a) (ingest_ops now at_ a batch fleet)).
Proof.
  unfold ingest_ops. destruct (verdicts_of now at_ a batch fleet) as [vs|] eqn:Hvs.
  2:{ rewrite ingest_throws by done. apply judge_fields. }
  destruct (ingest_pass_spec opts now at_ a batch fleet vs Hvs) as (Hs & Ha & _).
  pose proof (store_run_nonces (ao_queueMax opts) (ca_store a) (burned_by opts now at_ a batch fleet)) as Hn.
  rewrite (ingest_done _ _ _ _ _ _ _ Hvs). unfold store_run in *. rewrite run_with_app. cbn [fst]. rewrite Hn. cbn. by rewrite Hs, Ha.
Qed.

(** An operation of the agent is a list of operations of the store. *)
Lemma agent_step_store a op :
  ca_store (agent_step a op) = fst (store_run (ao_queueMax opts) (ca_store a) (store_ops a op)).
Proof.
  destruct op as [|now at_ [batch|]|r p i sa st|limit after cursor at_|i n|seed at_]; cbn [agent_step store_ops].
  - unfold poll_begin. by repeat case_match.
  - destruct (ca_polling a); [|done]. rewrite poll_receive_batch.
    exact (ingest_store now at_ (with_controls a batch) batch (fleet_of a batch)).
  - by destruct (ca_polling a).
  - done.
  - unfold store_run. simpl. by destruct (takeUnread (ca_store a) limit after cursor at_).
  - done.
  - by rewrite connect_store.
Qed.
End Runs.

(** ** What the store holds *)

(** A property of the stored messages that reading does not change holds of the
    ring, of every batch on record, and of what is on disk. *)
Definition all_stored (P : StoredMessage -> Prop) (s : MessageStore) : Prop :=
  (forall m, m ∈ st_messages s -> P m) /\
  (forall c m, c ∈ st_cursors s -> m ∈ cr_messages c -> P m).

Definition all_durable (P : StoredMessage -> Prop) (s : MessageStore) : Prop :=
  all_stored P s /\ all_stored P (load_store (st_disk s)).

Definition read_stable (P : StoredMessage -> Prop) : Prop := forall cursor m, P m -> P (mark_read cursor m).

Section Stored.
Context (P : StoredMessage -> Prop) (Hstable : read_stable P).

Lemma all_stored_load_file s : all_stored P s -> all_stored P (load_store (Some (queue_file s))).
Proof.
  intros [Hm Hc]. split; [exact Hm|]. intros c m Hin. apply (Hc c m).
  change (c ∈ omap id (map Some (st_cursors s))) in Hin. by rewrite omap_id_Some in Hin.
Qed.

Lemma all_durable_persist s : all_stored P s -> all_durable P (persist s).
Proof. intros Hs. split; [exact Hs|]. by apply all_stored_load_file. Qed.

Lemma elem_of_evict e l m : m ∈ evict e l -> m ∈ l.
Proof.
  revert e. induction l as [|x l IH]; intros e; [done|]. simpl. case_match.
  - intros [->|Hm]%elem_of_cons; [by left|right; by apply IH in Hm].
  - intros Hm%IH. by right.
Qed.

Lemma all_stored_confirm s c : all_stored P s -> all_stored P (confirm s c).
Proof.
  intros [Hm Hc]. unfold confirm. destruct (find_cursor c (st_cursors s)) as [e|]; [|by split]. split; simpl.
  - intros m (m0 & Hm0 & ->)%elem_of_update_where. case_match; [by apply Hstable, Hm|by apply Hm].
  - intros k m Hk Hin. assert (Hex : exists k0, k0 ∈ st_cursors s /\ cr_messages k0 = cr_messages k).
    { clear -Hk. induction (st_cursors s) as [|x l IH]; simpl in Hk; [by apply elem_of_nil in Hk|].
      destruct (cr_cursor x ==? c); apply elem_of_cons in Hk as [->|Hk].
      - exists x. split; [by left|done].
      - exists k. split; [by right|done].
      - exists x. split; [by left|done].
      - destruct (IH Hk) as (k0 & ? & ?). exists k0. split; [by right|done]. }
    destruct Hex as (k0 & Hk0 & He). apply (Hc k0); [done|by rewrite He].
Qed.

Lemma all_stored_step max s op :
  all_durable P s -> (forall ms m, op = OpAdd ms -> m ∈ ms -> P m) -> all_durable P (fst (store_step max s op)).
Proof.
  intros [Hs Hd] Hadd. destruct op as [ms|limit after cursor at_|cursor|n|r rm t| |]; cbn -[persist load_store].
  - unfold add. destruct ms as [|x ms]; [by split|]. apply all_durable_persist. destruct Hs as [Hm Hc].
    split; [|exact Hc]. cbn [st_messages]. intros m Hin.
    assert (Hin' : m ∈ st_messages s \/ m ∈ x :: ms).
    { revert Hin. case_match; rewrite elem_of_app; [intros [?%elem_of_evict|]|]; tauto. }
    destruct Hin' as [?|?]; [by apply Hm|by eapply Hadd].
  - apply all_durable_persist. set (s1 := match truthy after with Some a => confirm s a | None => s end).
    assert (H1 : all_stored P s1) by (unfold s1; destruct (truthy after); [by apply all_stored_confirm|done]).
    destruct H1 as [Hm Hc]. split; [exact Hm|]. cbn [st_cursors]. intros k m Hk%elem_of_shift_to Hin.
    apply elem_of_app in Hk as [Hk|Hk%list_elem_of_singleton]; [by eapply Hc|]. subst k. simpl in Hin.
    apply elem_of_taken, (elem_of_select isUnread) in Hin as [Hin _]. by apply Hm.
  - by split.
  - by split.
  - by apply all_durable_persist.
  - by apply all_durable_persist.
  - split; [exact Hd|]. replace (st_disk (load_store (st_disk s))) with (st_disk s); [exact Hd|].
    unfold load_store. destruct (st_disk s); [|done]. by case_match.
Qed.

Lemma all_stored_run max ops : forall s,
  all_durable P s -> (forall ms m, OpAdd ms ∈ ops -> m ∈ ms -> P m) -> all_durable P (fst (store_run max s ops)).
Proof.
  induction ops as [|op ops IH]; intros s Hs Hadd; [exact Hs|]. unfold store_run in *. simpl.
  pose proof (all_stored_step max s op Hs) as H1. destruct (store_step max s op) as [s1 r] eqn:E.
  specialize (IH s1). destruct (run_with (store_step max) s1 ops) as [s2 rs]. simpl in *. apply IH.
  - apply H1. intros ms m -> Hm. apply (Hadd ms m); [by left|done].
  - intros ms m Hin. apply Hadd. by right.
Qed.
End Stored.

(** Every message a read of the client can return. *)
Definition readable (a : ConnectorAgent) (m : StoredMessage) : Prop :=
  (exists limit after cursor at_, m ∈ snd (takeUnread (ca_store a) limit after cursor at_)) \/
  (exists cursor batch, replay (ca_store a) cursor = Some batch /\ m ∈ batch) \/
  (exists c limit, m ∈ conversation (ca_store a) c limit).

Lemma readable_stored P a m : read_stable P -> all_stored P (ca_store a) -> readable a m -> P m.
Proof.
  intros Hst Hs [(limit & after & cursor & at_ & Hm)|[(cursor & batch & Hb & Hm)|(c & limit & Hm)]].
  - unfold takeUnread in Hm. cbn [snd] in Hm.
    set (s1 := match truthy after with Some x => confirm (ca_store a) x | None => ca_store a end) in *.
    assert (H1 : all_stored P s1) by (unfold s1; destruct (truthy after); [by apply all_stored_confirm|done]).
    apply elem_of_taken, (elem_of_select isUnread) in Hm as [Hm _]. by apply H1.
  - unfold replay, find_cursor in Hb. destruct (select_one _ _) as [k|] eqn:Hk; [|done]. injection Hb as <-.
    apply select_one_Some in Hk as [Hk _]. by apply (proj2 Hs k).
  - unfold conversation, slice_last in Hm.
    assert (Hf : m ∈ select (fun x => sd_conversation_id x ==? c) (st_messages (ca_store a))).
    { revert Hm. case_match; [done|]. apply elem_of_dropped. }
    apply elem_of_select in Hf as [Hin _]. by apply Hs.
Qed.

(** ** Verdicts *)

(** Distinct, present message ids: the relay's own batches have them. *)
Definition distinct_ids (batch : InboxBatch) : Prop :=
  NoDup (map message_key (map cm_signed (ib_messages batch))).

(** The verdict on a message is the verifier's on a message of the batch with its
    id: on itself, when the ids are distinct. *)
Lemma batch_verdict `{Crypto} `{NodeCrypto} batch i self fleet roster seen now vs raw r :
  verifyBatch (map cm_signed (ib_messages batch)) i self fleet roster seen now = Some vs ->
  raw ∈ ib_messages batch -> sm_message_id (cm_signed raw) <> None -> verdict_of vs raw = Some r ->
  exists opts signed, vo_seenNonces opts = seen /\ vo_operatorKeys opts = id_pinned i /\
    signed ∈ ib_messages batch /\ message_key (cm_signed signed) = message_key (cm_signed raw) /\
    verifyInbound (cm_signed signed) opts = Some r /\ (distinct_ids batch -> cm_signed signed = cm_signed raw).
Proof.
  intros Hvs Hin Hid Hr. unfold verdict_of in Hr.
  assert (Hkey : default "" (sm_message_id (cm_signed raw)) = message_key (cm_signed raw)).
  { unfold message_key. by destruct (sm_message_id (cm_signed raw)). }
  rewrite Hkey in Hr.
  destruct (verifyBatch_lookup _ _ _ _ _ _ _ _ _ _ Hvs Hr) as (fl & m & _ & Hm & Hk & Hv).
  apply list_elem_of_In, in_map_iff in Hm as (signed & <- & Hs%list_elem_of_In).
  eexists _, signed. split_and!; [..|exact Hv|]; [done|done|done|done|].
  intros Hnd. apply (same_key_same_message (map cm_signed (ib_messages batch))); [done|by apply list_elem_of_fmap_2..|done].
Qed.

(** ** The trust root over a run *)

Section Trust.
Context `{Crypto} `{NodeCrypto} (opts : AgentOptions) (roots : gmap string string) (ops : list agent_op).

(** Past first contact, and every pin rooted; it survives being saved. *)
Record anchored (i : EkhoIdentity) : Prop := {
  an_latched : latched i;
  an_rooted : forall k pub, id_pinned i !! k = Some pub -> Rooted roots k pub;
  an_seed : id_seedHex i <> "";
  an_tofu : id_tofuAt i <> Some ""
}.

Lemma sync_seed now i es fleet : id_seedHex (fst (syncPinnedOperatorKeys now i es fleet)) = id_seedHex i.
Proof. unfold syncPinnedOperatorKeys. cbv zeta. by repeat case_match. Qed.

Lemma anchored_sync now i es fleet : anchored i -> anchored (fst (syncPinnedOperatorKeys now i es fleet)).
Proof.
  intros [Hl Hr Hs Ht]. destruct (sync_latched now i es fleet Hl) as (Hl' & Ht' & _). constructor.
  - exact Hl'.
  - intros k pub Hk. eapply Rooted_trans; [exact Hr|]. by apply (latched_rooted now i es fleet).
  - by rewrite sync_seed.
  - by rewrite Ht'.
Qed.

(** Credentials are on disk, and the identity in memory and on disk is anchored. *)
Record trust_ok (a : ConnectorAgent) : Prop := {
  to_credentials : exists c, credentialsState (ca_credentialsFile a) = CredentialsOk c;
  to_memory : forall i, ca_identity a = Some i -> anchored i;
  to_disk : exists i, dir_identity (ca_identityFile a) = saveIdentity i /\ anchored i
}.

Lemma trust_ok_judge now at_ a batch fleet : trust_ok a -> trust_ok (fst (judge now at_ a batch fleet)).
Proof.
  intros [Hc Hm Hd]. unfold judge. destruct (ca_identity a) as [i|] eqn:Hi; [|constructor; simpl; [exact Hc|rewrite Hi; by intros ?|exact Hd]].
  pose proof (anchored_sync at_ i (ib_operator_keys batch) fleet (Hm i eq_refl)) as Ha.
  destruct (syncPinnedOperatorKeys at_ i (ib_operator_keys batch) fleet) as [i' changed]. simpl in Ha.
  constructor; simpl; [exact Hc|by intros ? [= <-]|]. destruct (default false changed); [by exists i'|exact Hd].
Qed.

Lemma trust_ok_restart a seed at_ : trust_ok a -> trust_ok (fst (connect opts (new_process a) seed at_ None)).
Proof.
  intros [(c & Hc) Hm (i & Hd & Hi)]. unfold connect. cbn [new_process ca_credentialsFile ca_identityFile].
  rewrite Hc. unfold loadOrCreateIdentity. rewrite Hd. unfold saveIdentity.
  rewrite (identity_round i) by apply Hi. constructor; cbn; [by exists c|by intros ? [= <-]|by exists i].
Qed.

Lemma trust_ok_step a op : trust_ok a -> trust_ok (agent_step opts a op).
Proof.
  intros Hok. destruct op as [|now at_ [batch|]|r p i sa st|limit after cursor at_|i n|seed at_]; cbn [agent_step].
  - unfold poll_begin. destruct Hok. by repeat case_match.
  - destruct (ca_polling a); [|done]. rewrite poll_receive_batch. cbn [fst].
    assert (Hj : trust_ok (fst (judge now at_ (with_controls a batch) batch (fleet_of a batch)))).
    { apply trust_ok_judge. by destruct Hok. }
    destruct (verdicts_of now at_ (with_controls a batch) batch (fleet_of a batch)) as [vs|] eqn:Hvs.
    + rewrite (ingest_done _ _ _ _ _ _ _ Hvs). by destruct Hj.
    + rewrite (ingest_throws _ _ _ _ _ _ Hvs). by destruct Hj.
  - destruct (ca_polling a); [|done]. by destruct Hok.
  - by destruct Hok.
  - by destruct Hok.
  - by destruct Hok.
  - by apply trust_ok_restart.
Qed.

(** ** What a verified message in the store vouches for *)

(** [m] is a message of an answer to a poll, and a rooted key signed the text of a
    message of that answer with its id: of [m] itself when the ids are distinct. *)
Definition vouched (m : StoredMessage) : Prop :=
  exists now at_ batch fleet raw signed, AoPollReply now at_ (Some batch) ∈ ops /\
    raw ∈ ib_messages batch /\ signed ∈ ib_messages batch /\
    sm_message_id (cm_signed raw) = Some (sd_message_id m) /\
    sd_text m = body_text (sm_body (cm_signed raw)) /\
    sd_sender_agent_id m = default "" (sm_sender_agent_id (cm_signed raw)) /\
    sd_sender_operator m = isOperatorMessage (cm_signed raw) /\
    message_key (cm_signed signed) = sd_message_id m /\ rooted_signature roots fleet (cm_signed signed) /\
    (distinct_ids batch -> cm_signed signed = cm_signed raw).

Definition verified_vouched (m : StoredMessage) : Prop :=
  vf_status (sd_verification m) = StatusVerified -> vouched m.

(** In "require" mode nothing else is kept, apart from what the relay attests. *)
Definition admitted (m : StoredMessage) : Prop :=
  sd_direction m = DirIn -> admits (ao_requireSigned opts) (vf_status (sd_verification m)) = true.

Lemma verified_vouched_stable : read_stable verified_vouched.
Proof. intros cursor m Hm Hv. destruct (Hm Hv) as (n & t & b & f & raw & s & Hr). by exists n, t, b, f, raw, s. Qed.

Lemma admitted_stable : read_stable admitted.
Proof. intros cursor m Hm Hd. by apply Hm. Qed.

Lemma verdict_verified now at_ a batch fleet vs raw r :
  trust_ok a -> verdicts_of now at_ a batch fleet = Some vs -> raw ∈ ib_messages batch ->
  sm_message_id (cm_signed raw) <> None -> verdict_of vs raw = Some r -> vr_verified r = true ->
  exists f signed, signed ∈ ib_messages batch /\ message_key (cm_signed signed) = message_key (cm_signed raw) /\
    rooted_signature roots f (cm_signed signed) /\ (distinct_ids batch -> cm_signed signed = cm_signed raw).
Proof.
  intros Hok Hvs Hin Hid Hr Hv. pose proof (trust_ok_judge now at_ a batch fleet Hok) as [_ Hmem _].
  unfold verdicts_of, judge in *. destruct (ca_identity a) as [i|].
  2:{ injection Hvs as <-. revert Hr. unfold verdict_of. by rewrite lookup_empty. }
  destruct (syncPinnedOperatorKeys at_ i (ib_operator_keys batch) fleet) as [i' changed]. cbn in *.
  specialize (Hmem i' eq_refl).
  destruct (batch_verdict _ _ _ _ _ _ _ _ _ _ Hvs Hin Hid Hr) as (opts' & signed & _ & Hk & Hs & Hkey & Hinb & Hd).
  exists (vo_fleetId opts'), signed. split_and!; [done|done| |done].
  apply verified_rooted; [|unfold verifies; by rewrite Hinb]. rewrite Hk. apply Hmem.
Qed.

(** An outcome of the pass is that of a message under the verdicts. *)
Lemma outcomes_elem now at_ a batch fleet o : o ∈ outcomes opts now at_ a batch fleet ->
  exists vs raw, verdicts_of now at_ a batch fleet = Some vs /\ raw ∈ ib_messages batch /\
    o = outcome_in opts batch (ca_store a) (self_id a) at_ vs raw.
Proof.
  unfold outcomes. destruct (verdicts_of _ _ _ _ _) as [vs|]; [|by intros ?%elem_of_nil].
  intros (raw & <- & Hraw%list_elem_of_In)%list_elem_of_In%in_map_iff. by exists vs, raw.
Qed.

Lemma kept_vouched now at_ a batch fleet m :
  trust_ok a -> AoPollReply now at_ (Some batch) ∈ ops ->
  m ∈ omap kept (outcomes opts now at_ a batch fleet) -> verified_vouched m.
Proof.
  intros Hok Hop (o & Ho & Hk)%list_elem_of_omap Hv.
  destruct (outcomes_elem _ _ _ _ _ _ Ho) as (vs & raw & Hvs & Hraw & ->).
  unfold outcome_in in Hk. destruct (judge_message _ _ _ _ _ _ _) as [|d|m'] eqn:Hj; [done|done|].
  injection Hk as ->. apply kept_inv in Hj as (Hsk & _ & ->). cbn in Hv.
  assert (Hid : exists i, sm_message_id (cm_signed raw) = Some i).
  { unfold skipped in Hsk. destruct (sm_message_id (cm_signed raw)) as [i|]; [by exists i|done]. }
  destruct Hid as [i Hid]. unfold classify in Hv.
  destruct (signature_of (cm_signed raw)); [|by case_match].
  destruct (verdict_of _ raw) as [r|] eqn:Hr; [|done]. destruct (vr_verified r) eqn:Hvr; [|done].
  destruct (verdict_verified now at_ a batch fleet vs raw r Hok Hvs Hraw) as (f & signed & Hs & Hkey & Hf & Hd);
    [by rewrite Hid|done|done|].
  exists now, at_, batch, f, raw, signed. cbn. rewrite Hid. split_and!; try done.
  rewrite Hkey. unfold message_key. by rewrite Hid.
Qed.

Lemma kept_admitted now at_ a batch fleet m :
  m ∈ omap kept (outcomes opts now at_ a batch fleet) -> admitted m.
Proof.
  intros (o & Ho & Hk)%list_elem_of_omap _.
  destruct (outcomes_elem _ _ _ _ _ _ Ho) as (vs & raw & _ & _ & ->). unfold outcome_in in Hk.
  destruct (judge_message _ _ _ _ _ _ _) as [|d|m'] eqn:Hj; [done|done|]. injection Hk as ->.
  by apply kept_inv in Hj as (_ & Ha & _).
Qed.
End Trust.
