(* ===== verification/McpProperties.v ===== *)
(** * Properties of the MCP connector

    What reaches the client of the connector, whatever the relay serves it, and
    what happens to every message a poll acknowledges. *)

From S2P Require Import Prelude Json IsoTime JsValues Identity TrustSync TrustSafety Verify VerifyProperties IdentityFile McpStore McpStoreProperties McpAgent McpSafety.
Import Ascii String.
Open Scope string_scope.
Open Scope Z_scope.

(** ** Lemmas on runs *)

Section Runs.
Context `{Crypto} `{NodeCrypto} (opts : AgentOptions).

Lemma agent_run_cons a op ops : agent_run opts a (op :: ops) = agent_run opts (agent_step opts a op) ops.
Proof. reflexivity. Qed.

Lemma agent_run_trust roots ops : forall a, trust_ok roots a -> trust_ok roots (agent_run opts a ops).
Proof.
  induction ops as [|op ops IH]; intros a Ha; [done|]. rewrite agent_run_cons. apply IH. by apply trust_ok_step.
Qed.

Lemma ingest_ops_add now at_ a batch fleet ms :
  OpAdd ms ∈ ingest_ops opts now at_ a batch fleet -> ms = omap kept (outcomes opts now at_ a batch fleet).
Proof.
  unfold ingest_ops. destruct (verdicts_of _ _ _ _ _); [|by intros ?%elem_of_nil].
  intros [Hin|Hin]%elem_of_app; [by apply list_elem_of_In, in_map_iff in Hin as (n & ? & _)|].
  by apply elem_of_cons in Hin as [[= ->]|?%list_elem_of_singleton].
Qed.

Lemma ingest_ops_takes now at_ a batch fleet limit after cursor t :
  OpTake limit after cursor t ∉ ingest_ops opts now at_ a batch fleet.
Proof.
  unfold ingest_ops. destruct (verdicts_of _ _ _ _ _); [|by intros ?%elem_of_nil].
  intros [Hin|Hin]%elem_of_app; [by apply list_elem_of_In, in_map_iff in Hin as (n & ? & _)|].
  repeat (apply elem_of_cons in Hin as [Hin|Hin]; [done|]). by apply elem_of_nil in Hin.
Qed.

Lemma agent_step_stored roots ops a op :
  trust_ok roots a -> op ∈ ops ->
  all_durable (verified_vouched roots ops) (ca_store a) -> all_durable (admitted opts) (ca_store a) ->
  all_durable (verified_vouched roots ops) (ca_store (agent_step opts a op)) /\
  all_durable (admitted opts) (ca_store (agent_step opts a op)).
Proof.
  intros Ht Hop Hv Ha. rewrite agent_step_store.
  assert (Hadd : forall ms m, OpAdd ms ∈ store_ops opts a op -> m ∈ ms -> verified_vouched roots ops m /\ admitted opts m).
  { intros ms m Hin Hm. destruct op as [|now at_ [batch|]|r p i sa st|limit after cursor at_|i n|seed at_];
      cbn [store_ops] in Hin.
    - by apply elem_of_nil in Hin.
    - destruct (ca_polling a); [|by apply elem_of_nil in Hin]. apply ingest_ops_add in Hin as ->.
      split; [|by eapply kept_admitted]. eapply kept_vouched; [|exact Hop|exact Hm]. by destruct Ht.
    - by apply elem_of_nil in Hin.
    - apply list_elem_of_singleton in Hin as [= ->]. by apply list_elem_of_singleton in Hm as ->.
    - by apply list_elem_of_singleton in Hin.
    - by apply list_elem_of_singleton in Hin.
    - by apply list_elem_of_singleton in Hin. }
  split; (apply all_stored_run; [|done|intros ms m Hin Hm; by apply (Hadd ms m)]).
  - apply verified_vouched_stable.
  - apply admitted_stable.
Qed.

Lemma agent_run_stored roots all ops : ops ⊆ all -> forall a,
  trust_ok roots a ->
  all_durable (verified_vouched roots all) (ca_store a) -> all_durable (admitted opts) (ca_store a) ->
  all_durable (verified_vouched roots all) (ca_store (agent_run opts a ops)) /\
  all_durable (admitted opts) (ca_store (agent_run opts a ops)).
Proof.
  induction ops as [|op ops IH]; intros Hsub a Ht Hv Ha; [done|].
  destruct (agent_step_stored roots all a op) as [Hv1 Ha1]; [done|set_solver|done|done|].
  rewrite agent_run_cons. apply IH; [set_solver|by apply trust_ok_step|done|done].
Qed.

(** A message leaves the unread ones only by a read that confirms it. *)
Lemma unread_step a op m :
  synced (ca_store a) -> m ∈ unread (st_messages (ca_store a)) ->
  m ∈ unread (st_messages (ca_store (agent_step opts a op))) \/
  exists limit c cursor at_ batch, op = AoRead limit (Some c) cursor at_ /\
    replay (ca_store a) c = Some batch /\ sd_message_id m ∈ message_ids batch.
Proof.
  intros Hs Hm. rewrite agent_step_store.
  pose proof (run_refines (ao_queueMax opts) (ca_store a) (store_ops opts a op) Hs) as Hrun.
  destruct (waiting_until_confirmed (store_ops opts a op) (mailbox_of (ca_store a)) m Hm)
    as [Hw|(o1 & limit & c & cursor & at_ & o2 & batch & Ho & Hb & Hi)].
  { left. rewrite Hrun in Hw. exact Hw. }
  right. destruct op as [|now at' [b|]|r p i sa st|limit' after cursor' at'|i n|seed at']; cbn [store_ops] in Ho.
  - by destruct o1.
  - exfalso. assert (Hin : OpTake limit (Some c) cursor at_ ∈ (o1 ++ OpTake limit (Some c) cursor at_ :: o2)%list)
      by (apply elem_of_app; right; by left).
    rewrite <- Ho in Hin. destruct (ca_polling a); [|by apply elem_of_nil in Hin]. by apply ingest_ops_takes in Hin.
  - by destruct o1.
  - by destruct o1 as [|? [|? ?]].
  - destruct o1 as [|? [|? ?]]; [|done..]. injection Ho as -> -> -> -> _.
    exists limit, c, cursor, at_, batch. split_and!; [done| |done]. by rewrite <- batch_of_cursors.
  - by destruct o1 as [|? [|? ?]].
  - by destruct o1 as [|? [|? ?]].
Qed.

Lemma agent_step_synced a op : synced (ca_store a) -> synced (ca_store (agent_step opts a op)).
Proof. intros Hs. rewrite agent_step_store. by apply store_run_synced. Qed.

Lemma agent_run_synced ops : forall a, synced (ca_store a) -> synced (ca_store (agent_run opts a ops)).
Proof. induction ops as [|op ops IH]; intros a Hs; [done|].
  rewrite agent_run_cons. apply IH. by apply agent_step_synced. Qed.

Lemma unread_run ops : forall a m,
  synced (ca_store a) -> m ∈ unread (st_messages (ca_store a)) ->
  m ∈ unread (st_messages (ca_store (agent_run opts a ops))) \/
  exists ops1 limit c cursor at_ ops2 batch, ops = (ops1 ++ AoRead limit (Some c) cursor at_ :: ops2)%list /\
    replay (ca_store (agent_run opts a ops1)) c = Some batch /\ sd_message_id m ∈ message_ids batch.
Proof.
  induction ops as [|op ops IH]; intros a m Hs Hm; [by left|].
  destruct (unread_step a op m Hs Hm) as [H1|(limit & c & cursor & at_ & batch & -> & Hb & Hi)].
  2:{ right. by exists [], limit, c, cursor, at_, ops, batch. }
  destruct (IH (agent_step opts a op) m (agent_step_synced _ _ Hs) H1)
    as [Hw|(o1 & limit & c & cursor & at_ & o2 & batch & -> & Hb & Hi)]; [left; by rewrite agent_run_cons|].
  right. exists (op :: o1), limit, c, cursor, at_, o2, batch. by rewrite agent_run_cons.
Qed.

Lemma dead_letters_kept a op d : d ∈ ca_deadLetters a -> d ∈ ca_deadLetters (agent_step opts a op).
Proof.
  intros Hd. destruct op as [|now at_ [batch|]|r p i sa st|limit after cursor at_|i n|seed at_]; cbn [agent_step]; try done.
  - unfold poll_begin. by repeat case_match.
  - destruct (ca_polling a); [|done]. rewrite poll_receive_batch.
    set (b := with_controls a batch). destruct (judge_fields now at_ b batch (fleet_of a batch)) as (_ & _ & Hj & _).
    destruct (verdicts_of now at_ b batch (fleet_of a batch)) as [vs|] eqn:Hvs.
    + rewrite (ingest_done _ _ _ _ _ _ _ Hvs). cbn. rewrite Hj. apply elem_of_app. by left.
    + rewrite (ingest_throws _ _ _ _ _ _ Hvs). cbn. by rewrite Hj.
  - by destruct (ca_polling a).
  - unfold connect. by repeat (case_match; simpl in *; simplify_eq/=).
Qed.

Lemma dead_letters_run ops : forall a d, d ∈ ca_deadLetters a -> d ∈ ca_deadLetters (agent_run opts a ops).
Proof.
  induction ops as [|op ops IH]; intros a d Hd; [done|]. rewrite agent_run_cons. apply IH. by apply dead_letters_kept.
Qed.

(** ** The bound over a run *)

Definition reply_fits (b : nat) (op : agent_op) : Prop :=
  match op with AoPollReply _ _ (Some batch) => (length (ib_messages batch) <= b)%nat | _ => True end.

Lemma fitting_nonces max b ns s ops :
  fitting max b (burn_all s ns) ops -> fitting max b s (map OpNonce ns ++ ops).
Proof. revert s. induction ns as [|n ns IH]; intros s Hf; [done|]. split; [done|]. by apply (IH (markNonceSeen s n)). Qed.

Lemma length_omap_map {A B C} (f : A -> B) (g : B -> option C) (l : list A) : (length (omap g (map f l)) <= length l)%nat.
Proof. induction l as [|x l IH]; [done|]. cbn. destruct (g (f x)); cbn; lia. Qed.

(** While a poll is outstanding the store still has room. *)
Definition room_ok (a : ConnectorAgent) : Prop := ca_polling a = true -> hasRoom (ao_queueMax opts) (ca_store a) = true.

Lemma hasRoom_le max s s' : (unreadCount s' <= unreadCount s)%nat -> hasRoom max s = true -> hasRoom max s' = true.
Proof. unfold hasRoom. intros Hl Hr. bools. apply Z.ltb_lt. lia. Qed.

Lemma unread_confirm_le s c : (unreadCount (confirm s c) <= unreadCount s)%nat.
Proof.
  unfold confirm. destruct (find_cursor c (st_cursors s)) as [e|]; [|done]. unfold unreadCount. simpl.
  rewrite unread_mark_read. apply List.filter_length_le.
Qed.

Lemma room_ok_step a op : room_ok a -> room_ok (agent_step opts a op).
Proof.
  intros Hr. destruct op as [|now at_ [batch|]|r p i sa st|limit after cursor at_|i n|seed at_]; cbn [agent_step].
  - unfold poll_begin. destruct (_ || ca_polling a); [done|].
    destruct (hasRoom (ao_queueMax opts) (ca_store a)) eqn:Hh; [by intros _|done].
  - destruct (ca_polling a) eqn:Hp; [|intros Hp'; congruence]. rewrite poll_receive_batch. by intros ?.
  - destruct (ca_polling a) eqn:Hp; [|intros Hp'; congruence]. by intros ?.
  - intros Hp. eapply hasRoom_le; [|by apply Hr]. unfold unreadCount. cbn -[add]. rewrite unread_add. cbn. by rewrite app_nil_r.
  - intros Hp. eapply hasRoom_le; [|by apply Hr]. unfold unreadCount. cbn.
    destruct (truthy after); [apply unread_confirm_le|done].
  - exact Hr.
  - intros Hp. exfalso. revert Hp. unfold connect. by repeat (case_match; simpl in *; simplify_eq/=).
Qed.

Lemma agent_step_fits b a op : (1 <= b)%nat -> room_ok a -> reply_fits b op ->
  fitting (ao_queueMax opts) b (ca_store a) (store_ops opts a op).
Proof.
  intros Hb Hr Hf. destruct op as [|now at_ [batch|]|r p i sa st|limit after cursor at_|i n|seed at_]; cbn [store_ops]; try done.
  - destruct (ca_polling a) eqn:Hp; [|done]. unfold ingest_ops.
    destruct (verdicts_of _ _ _ _ _) as [vs|] eqn:Hvs; [|done]. apply fitting_nonces. split; [|split; exact I].
    left. split.
    + eapply hasRoom_le; [|by apply Hr]. unfold unreadCount. by destruct (burn_all_fields (burned_by opts now at_ (with_controls a batch) batch (fleet_of a batch)) (ca_store a)) as [-> _].
    + unfold outcomes. rewrite Hvs. eapply Nat.le_trans; [apply length_omap_map|exact Hf].
  - split; [by right|done].
Qed.

Lemma bounded_agent_run b ops : forall a,
  0 <= ao_queueMax opts -> (1 <= b)%nat -> room_ok a -> bounded (ao_queueMax opts) b (ca_store a) ->
  (forall op, op ∈ ops -> reply_fits b op) -> bounded (ao_queueMax opts) b (ca_store (agent_run opts a ops)).
Proof.
  induction ops as [|op ops IH]; intros a Hq Hb Hr Hs Hf; [done|].
  rewrite agent_run_cons. apply IH; [done|done|by apply room_ok_step| |by intros o Ho; apply Hf; right].
  rewrite agent_step_store. apply bounded_run; [done..|].
  apply agent_step_fits; [done|done|]. apply Hf. by left.
Qed.
End Runs.

(** ** Burned nonces *)

Section Nonces.
Context `{Crypto} `{NodeCrypto} (opts : AgentOptions).

(** [n] has at most [j] elements after it. *)
Definition recent (n : string) (j : nat) (l : list string) : Prop :=
  exists pre post, l = (pre ++ n :: post)%list /\ (length post <= j)%nat.

Lemma recent_elem n j l : recent n j l -> n ∈ l.
Proof. intros (pre & post & -> & _). apply elem_of_app. right. by left. Qed.

Lemma recent_push n j l x : (S j < SEEN_CAP)%nat -> recent n j l -> recent n (S j) (push_seen SEEN_CAP l x).
Proof.
  intros Hj (pre & post & -> & Hp). unfold push_seen. case_bool_decide.
  - exists pre, post. split; [done|lia].
  - unfold shift_to. rewrite <- app_assoc. cbn [app]. rewrite drop_app_le by (rewrite length_app; cbn; rewrite length_app; cbn; lia).
    eexists _, (post ++ [x])%list. split; [done|]. rewrite length_app. cbn. lia.
Qed.

Lemma recent_push_new n l : n ∉ l -> recent n 0 (push_seen SEEN_CAP l n).
Proof.
  intros Hn. unfold push_seen. rewrite bool_decide_false by done. unfold shift_to.
  rewrite drop_app_le by (rewrite length_app; cbn; unfold SEEN_CAP; lia). eexists _, []. split; [done|cbn; lia].
Qed.

Lemma push_all_recent n ns : forall l j, recent n j l -> (j + length ns < SEEN_CAP)%nat ->
  n ∈ foldl (push_seen SEEN_CAP) l ns.
Proof.
  induction ns as [|x ns IH]; intros l j Hr Hj; [by eapply recent_elem|].
  cbn [foldl]. apply (IH _ (S j)); [apply recent_push; [cbn in Hj; lia|done]|cbn in Hj; lia].
Qed.

Lemma push_all_keeps n ns : forall l, n ∉ l -> n ∈ ns -> (length ns <= SEEN_CAP)%nat ->
  n ∈ foldl (push_seen SEEN_CAP) l ns.
Proof.
  induction ns as [|x ns IH]; intros l Hl Hn Hlen; [by apply elem_of_nil in Hn|]. cbn [foldl length] in *.
  destruct (decide (x = n)) as [->|Hne].
  - eapply push_all_recent; [by apply recent_push_new|lia].
  - apply IH; [|by apply elem_of_cons in Hn as [?|?]|lia]. unfold push_seen. case_bool_decide; [done|].
    intros Hin%elem_of_shift_to. apply elem_of_app in Hin as [?|?%list_elem_of_singleton]; congruence.
Qed.

Lemma burn_all_nonces ns s : st_seenNonces (burn_all s ns) = foldl (push_seen SEEN_CAP) (st_seenNonces s) ns.
Proof. revert s. induction ns as [|n ns IH]; intros s; [done|]. exact (IH (markNonceSeen s n)). Qed.

Lemma ingest_nonces now at_ a batch fleet :
  st_seenNonces (ca_store (fst (ingest opts now at_ a batch fleet))) =
  foldl (push_seen SEEN_CAP) (st_seenNonces (ca_store a)) (burned_by opts now at_ a batch fleet).
Proof.
  destruct (verdicts_of now at_ a batch fleet) as [vs|] eqn:Hvs.
  - rewrite <- burn_all_nonces. destruct (ingest_pass_spec opts now at_ a batch fleet vs Hvs) as (<- & _ & _).
    rewrite (ingest_done _ _ _ _ _ _ _ Hvs). cbn [fst ca_store setFleetView persist st_seenNonces]. unfold add. by case_match.
  - rewrite (ingest_throws _ _ _ _ _ _ Hvs). unfold burned_by. rewrite Hvs. cbn.
    by destruct (judge_fields now at_ a batch fleet) as (-> & _).
Qed.

Lemma length_burned_by now at_ a batch fleet :
  (length (burned_by opts now at_ a batch fleet) <= length (ib_messages batch))%nat.
Proof.
  unfold burned_by. destruct (verdicts_of now at_ a batch fleet) as [vs|]; [|cbn; lia].
  induction (ib_messages batch) as [|raw l IH]; [done|]. cbn [map concat length]. rewrite length_app.
  assert (length (burns_in opts batch (ca_store a) (self_id a) at_ vs raw) <= 1)%nat; [|lia].
  unfold burns_in, burns. repeat case_match; cbn; lia.
Qed.

Lemma kept_verdict at_ a batch vs raw m :
  outcome_in opts batch (ca_store a) (self_id a) at_ vs raw = Kept m ->
  vf_status (sd_verification m) = StatusVerified ->
  exists r, verdict_of vs raw = Some r /\ vr_verified r = true /\ sm_message_id (cm_signed raw) <> None.
Proof.
  intros (Hsk & _ & ->)%kept_inv. cbn. unfold classify.
  destruct (signature_of (cm_signed raw)); [|by case_match].
  destruct (verdict_of _ raw) as [r|]; [|done]. destruct (vr_verified r) eqn:Hr; [|done]. intros _.
  exists r. split_and!; [done|done|]. unfold skipped in Hsk. by destruct (sm_message_id (cm_signed raw)).
Qed.

Lemma verdict_fresh now at_ a batch fleet vs raw r n :
  verdicts_of now at_ a batch fleet = Some vs ->
  distinct_ids batch -> raw ∈ ib_messages batch -> sm_message_id (cm_signed raw) <> None ->
  burned_nonce (cm_signed raw) = Some n -> verdict_of vs raw = Some r -> vr_verified r = true ->
  n ∉ st_seenNonces (ca_store a).
Proof.
  intros Hvs Hnd Hin Hid Hn Hr Hv. unfold verdicts_of, judge in Hvs. destruct (ca_identity a) as [i|].
  2:{ injection Hvs as <-. revert Hr. unfold verdict_of. by rewrite lookup_empty. }
  destruct (syncPinnedOperatorKeys _ _ _ _) as [i' changed]. cbn in Hvs.
  destruct (batch_verdict _ _ _ _ _ _ _ _ _ _ Hvs Hin Hid Hr) as (opts' & signed & Hseen & _ & _ & _ & Hinb & Heq).
  rewrite (Heq Hnd) in Hinb. assert (Hver : verifies (cm_signed raw) opts' = true) by (unfold verifies; by rewrite Hinb).
  apply verified_iff in Hver as (k & pub & sig & c & G). pose proof (gn_fresh _ _ _ _ _ _ G) as Hf.
  pose proof (gn_canonical _ _ _ _ _ _ G) as Hc. unfold burned_nonce in Hn. rewrite Hc in Hn.
  apply truthy_Some in Hn as [Hn Hne]. unfold fresh_nonce in Hf.
  destruct (prop c "nonce") as [[| | |n'| |]|]; [done..| |done|done|done]. injection Hn as ->.
  intros Hseen'. apply Hf. rewrite Hseen. cbn. rewrite (bool_decide_false _ Hne). cbn.
  rewrite bool_decide_true; [done|]. unfold seenNonceSet. by apply elem_of_list_to_set.
Qed.
End Nonces.

(** ** A concrete connector

    It pins [A]; the peer [a1] is endorsed by [A] and signs [demo_message]. *)

Definition demo_credentials_of : StoredCredentials := MkStoredCredentials "a2" "s" "http://relay" "f".

Definition demo_connector : ConnectorAgent :=
  MkConnectorAgent (load_store None) true (Some demo_credentials_of) (Some demo_recipient_identity) AsConnected
    false false [] (MkIdentityDir (saveIdentity demo_recipient_identity) []) (saveCredentials demo_credentials_of).

Definition demo_agent_opts (mode : RequireSignedMode) : AgentOptions := MkAgentOptions None None "Grok" mode 10.

Definition demo_inbox_message (m : SignedMessage) : ConnectorMessage :=
  MkConnectorMessage m "c1" (JObj []) "t" None None None.

(** The signature fields of [demo_message] around another text. *)
Definition forged_message (message_id text : string) : SignedMessage :=
  let m := demo_message message_id in
  MkSigned (sm_message_id m) (sm_sender_kind m) (sm_sender_agent_id m) (sm_message_type m) (sm_priority m)
    (JObj [("text", JStr text)]) (sm_operator_sig m) (sm_agent_sig m) (sm_key_id m) (sm_sig_canonical m).

Definition demo_batch (ms : list SignedMessage) : InboxBatch :=
  MkInboxBatch (map demo_inbox_message ms) [] false
    [MkInboxRosterEntry "a1" "Tars" "openclaw" "healthy" (re_identity_public_key demo_entry) (re_key_id demo_entry)
       (re_endorsed_by_key_id demo_entry) (re_endorsement_sig demo_entry)] None (Some "f") [].

Definition demo_now : Z := 1767225600000.

(** Polls with a forged and a genuine message, a restart and a read. *)
Definition demo_agent_ops : list agent_op :=
  [AoPollBegin; AoPollReply demo_now "t" (Some (demo_batch [forged_message "m0" "evil"; demo_message "m1"]));
   AoRestart "seed" "t"; AoRead 5 None "k1" "t"].

Definition demo_after (mode : RequireSignedMode) : ConnectorAgent :=
  @agent_run toy_crypto toy_node (demo_agent_opts mode) demo_connector demo_agent_ops.

Example demo_after_ids :
  map (fun m => (sd_message_id m, sd_text m, vf_status (sd_verification m))) (st_messages (ca_store (demo_after ModeRequire))) =
    [("m1", "hi", StatusVerified)] /\
  map dr_reason (ca_deadLetters (demo_after ModeRequire)) = ["body-mismatch"].
Proof. vm_compute. done. Qed.

Lemma demo_trust_ok : trust_ok (H := toy_crypto) (id_pinned demo_recipient_identity) demo_connector.
Proof.
  assert (Ha : anchored (H := toy_crypto) (id_pinned demo_recipient_identity) demo_recipient_identity).
  { constructor; [left; apply insert_non_empty|by intros k pub Hk; apply rooted_pin|done|done]. }
  constructor; [by exists demo_credentials_of|by intros i [= <-]|by exists demo_recipient_identity].
Qed.

Section Theorems.
Context `{Crypto} `{NodeCrypto} (opts : AgentOptions).

(** C8. What the client is told is verified, is. Start a connector past first
    contact on an empty store and let a hostile relay answer its polls as it likes,
    with sends, reads and restarts in between: every message a read, a replay or a
    conversation can then return with status "verified" is a message of one of the
    relay's answers, and a key rooted in the connector's original pins signed the
    text, sender and fleet of a message that answer served under its id: of the
    message itself when the ids of the answer are distinct
    ([duplicate_id_forges_verified] is what happens when they are not).  In "require"
    mode every inbound message is verified or attested by the relay. *)
Theorem client_sees_verified_only_if_rooted roots a ops m :
  trust_ok roots a -> ca_store a = load_store None -> readable (agent_run opts a ops) m ->
  (vf_status (sd_verification m) = StatusVerified -> vouched roots ops m) /\
  (ao_requireSigned opts = ModeRequire -> sd_direction m = DirIn ->
   vf_status (sd_verification m) = StatusVerified \/ vf_status (sd_verification m) = StatusRelayAttested).
Proof.
  intros Ht Hs Hr. assert (Hnil : forall P, all_durable P (ca_store a)).
  { intros P. rewrite Hs. split; split; cbn; try (by intros ? ?%elem_of_nil); by intros ? ? ?%elem_of_nil. }
  destruct (agent_run_stored opts roots ops ops (fun _ H => H) a Ht (Hnil _) (Hnil _)) as [[Hv _] [Ha _]]. split.
  - apply (readable_stored (verified_vouched roots ops) _ _ (verified_vouched_stable roots ops) Hv Hr).
  - intros Hm Hdir.
    pose proof (readable_stored (admitted opts) _ _ (admitted_stable opts) Ha Hr Hdir) as Had.
    rewrite Hm in Had. cbn in Had. apply orb_true_iff in Had as [Had|Had]; bools; auto.
Qed.

(** Nothing a poll acknowledges is lost. A message id the poll acknowledges is
    that of a message of its answer, and each message with that id is our own echo, a heartbeat, a
    message id stored before, or is in the dead-letter file with its reason from
    then on, or is in the store with its text and remains unread, through restarts
    and evictions, until the client confirms a batch carrying its id.  (A poll whose
    verdicts throw acknowledges nothing.) *)
Theorem acknowledged_is_accounted_for a now at_ batch raw i later :
  let a1 := agent_step opts a (AoPollReply now at_ (Some batch)) in
  synced (ca_store a) -> ca_polling a = true ->
  Some i ∈ snd (poll_receive opts now at_ a (Some batch)) ->
  raw ∈ ib_messages batch -> sm_message_id (cm_signed raw) = Some i ->
  sm_sender_agent_id (cm_signed raw) = Some (self_id a) \/ sm_message_type (cm_signed raw) = Some "heartbeat" \/
  messageSeen (ca_store a) i = true \/
  (exists d, d ∈ ca_deadLetters (agent_run opts a1 later) /\ dr_message d = raw) \/
  (exists m, sd_message_id m = i /\ sd_text m = body_text (sm_body (cm_signed raw)) /\
     (m ∈ unread (st_messages (ca_store (agent_run opts a1 later))) \/
      exists ops1 limit c cursor t ops2 carried, later = (ops1 ++ AoRead limit (Some c) cursor t :: ops2)%list /\
        replay (ca_store (agent_run opts a1 ops1)) c = Some carried /\ i ∈ message_ids carried)).
Proof.
  intros a1 Hs Hp Hack Hraw Hi. rewrite poll_receive_batch in Hack. cbn [snd] in Hack.
  set (b := with_controls a batch) in *. set (fl := fleet_of a batch) in *.
  destruct (verdicts_of now at_ b batch fl) as [vs|] eqn:Hvs.
  2:{ rewrite (ingest_throws _ _ _ _ _ _ Hvs) in Hack. by apply elem_of_nil in Hack. }
  clear Hack. set (o := outcome_in opts batch (ca_store b) (self_id b) at_ vs raw).
  assert (Ho : o ∈ outcomes opts now at_ b batch fl).
  { unfold o, outcomes. rewrite Hvs. apply list_elem_of_In, in_map. by apply list_elem_of_In. }
  destruct o as [|d|m] eqn:Eo; unfold o, outcome_in in Eo.
  - unfold judge_message in Eo. destruct (skipped _ _ _) eqn:Hk; [|by destruct (admits _ _)].
    unfold skipped in Hk. rewrite Hi in Hk. apply orb_true_iff in Hk as [Hk|Hk]; [|by right; right; left].
    apply orb_true_iff in Hk as [Hk|Hk]; bools; [by left|by right; left].
  - right; right; right; left. exists d. split.
    + apply dead_letters_run. unfold a1. cbn [agent_step]. rewrite Hp, poll_receive_batch. fold b fl.
      rewrite (ingest_done _ _ _ _ _ _ _ Hvs).
      cbn [fst poll_end set_polling ca_deadLetters]. apply elem_of_app. right.
      destruct (ingest_pass_spec opts now at_ b batch fl vs Hvs) as (_ & _ & ->). apply list_elem_of_omap. by exists (Rejected d).
    + unfold judge_message in Eo. destruct (skipped _ _ _); [done|]. destruct (admits _ _); [done|]. by injection Eo as <-.
  - right; right; right; right. exists m. pose proof (kept_unread opts _ _ _ _ _ _ _ Eo) as Hu.
    apply kept_inv in Eo as (_ & _ & Hm). split_and!; [by rewrite Hm; cbn; rewrite Hi|by rewrite Hm|].
    assert (Hin : m ∈ unread (st_messages (ca_store a1))).
    { unfold a1. cbn [agent_step]. rewrite Hp, poll_receive_batch. fold b fl. rewrite (ingest_done _ _ _ _ _ _ _ Hvs).
      cbn [fst poll_end set_polling ca_store].
      destruct (ingest_pass_spec opts now at_ b batch fl vs Hvs) as (_ & Hacc & _). cbn -[add].
      rewrite unread_add. apply elem_of_app. right. rewrite Hacc. apply elem_of_select. split; [|done].
      apply list_elem_of_omap. by exists (Kept m). }
    destruct (unread_run opts later a1 m) as [Hw|(o1 & limit & c & cursor & t & o2 & cb & Hl & Hb & Hc)];
      [by apply agent_step_synced|done|by left|right].
    exists o1, limit, c, cursor, t, o2, cb. split_and!; [done|done|]. rewrite Hm in Hc. cbn in Hc. by rewrite Hi in Hc.
Qed.

(** The connector's store stays bounded. However polls, sends, reads, rooms and
    restarts interleave, an agent whose polls are answered with at most [b]
    messages never holds more than [queueMax + b] messages, 16 batches, 500 nonces
    and 500 message ids, in memory or in the queue file: the check made before a
    request still holds when its answer arrives. *)
Theorem connector_store_bounded a b ops :
  0 <= ao_queueMax opts -> (1 <= b)%nat -> ca_store a = load_store None -> ca_polling a = false ->
  (forall op, op ∈ ops -> reply_fits b op) ->
  let s := ca_store (agent_run opts a ops) in
  within (ao_queueMax opts) b s /\ within (ao_queueMax opts) b (load_store (st_disk s)).
Proof.
  intros Hq Hb Hs Hp Hf. apply bounded_agent_run; [done|done|unfold room_ok; congruence| |done].
  rewrite Hs. by apply bounded_empty.
Qed.

(** Admission is the gate of the plugin. In "require" mode the connector keeps a
    message exactly when [shouldAutowake] would let it act (peer replies enabled),
    except that a signed operator message without a verdict is refused even when
    the operator is trusted; in the other modes it drops exactly the signed
    messages that failed, and so keeps all that [shouldAutowake] passes. *)
Theorem admission_is_the_gate msg verdict trusted mode :
  let signed := negb (signature_of msg ==? None) in
  let unjudged := isOperatorMessage msg && signed && (verdict ==? None) in
  admits ModeRequire (vf_status (classify msg verdict trusted)) =
    shouldAutowake msg verdict trusted true ModeRequire && negb unjudged /\
  (mode <> ModeRequire ->
   admits mode (vf_status (classify msg verdict trusted)) =
     negb (signed && match verdict with Some v => negb (vr_verified v) | None => false end) /\
   (shouldAutowake msg verdict trusted true mode = true ->
    admits mode (vf_status (classify msg verdict trusted)) = true)).
Proof.
  unfold classify, shouldAutowake.
  destruct (signature_of msg) as [sig|], verdict as [v|], (isOperatorMessage msg), trusted, mode;
    try destruct (vr_verified v); cbn; try (split; [reflexivity|]); intros; try done; split; done.
Qed.

(** An accepted signature is burned. While its nonce is on record, no poll keeps
    a message with that nonce in its signed payload as verified; and a poll (of at
    most 500 messages) that keeps a message as verified puts its nonce on record.
    Only a nonce that is a non-empty string counts: it is the kind the signers
    draw. *)
Theorem accepted_signature_burned now at_ a batch fleet vs raw m n :
  verdicts_of now at_ a batch fleet = Some vs ->
  raw ∈ ib_messages batch -> distinct_ids batch -> burned_nonce (cm_signed raw) = Some n ->
  outcome_in opts batch (ca_store a) (self_id a) at_ vs raw = Kept m ->
  vf_status (sd_verification m) = StatusVerified ->
  nonceSeen (ca_store a) n = false /\
  ((length (ib_messages batch) <= SEEN_CAP)%nat ->
   nonceSeen (ca_store (fst (ingest opts now at_ a batch fleet))) n = true).
Proof.
  intros Hvs Hraw Hd Hn Ho Hv.
  destruct (kept_verdict opts at_ a batch vs raw m Ho Hv) as (r & Hr & Hvr & Hid).
  assert (Hfresh : n ∉ st_seenNonces (ca_store a)) by by eapply verdict_fresh.
  split; [by apply bool_decide_eq_false|]. intros Hlen. apply bool_decide_eq_true.
  rewrite ingest_nonces. apply push_all_keeps; [done| |].
  - unfold burned_by. rewrite Hvs. apply list_elem_of_In, in_concat. exists [n]. split; [|by left].
    apply in_map_iff. exists raw. split; [|by apply list_elem_of_In].
    unfold burns_in. rewrite Ho. unfold burns. by rewrite Hr, Hn, Hvr.
  - etrans; [apply length_burned_by|exact Hlen].
Qed.
End Theorems.

(** ** Sending *)

Section Sending.
Context `{Crypto} `{NodeCrypto} `{Signing} (opts : AgentOptions).

(** A send is refused or signed as sent. [send] proceeds exactly when the agent is
    connected, not paused by the operator, the text is not blank and has at most
    8000 characters, and exactly one of room, agent and broadcast is named; the
    payload then names that target, carries the text, and its signature fields are
    those of this text, target, type and priority under the agent's own key and
    fleet. *)
Theorem connector_send_rules a r conv corr nonce sentAt :
  let targets := [negb (truthy (cs_roomId r) ==? None); negb (truthy (cs_recipientAgentId r) ==? None); cs_broadcast r] in
  (is_ok (send_prepare a r conv corr nonce sentAt) = true <->
   ca_client a = true /\ ca_credentials a <> None /\ ca_identity a <> None /\ ca_paused a = false /\
   trim (cs_text r) <> "" /\ Z.of_nat (String.length (cs_text r)) <= MAX_SEND_TEXT /\
   exists k, targets !! k = Some true /\ forall j, targets !! j = Some true -> j = k) /\
  forall p c i, send_prepare a r conv corr nonce sentAt = Ok p ->
    ca_credentials a = Some c -> ca_identity a = Some i ->
    body_text (cp_body p) = cs_text r /\
    (cp_recipient p = match truthy (cs_roomId r) with
                      | Some room => [("kind", JStr "group"); ("id", JStr room)]
                      | None => if cs_broadcast r then [("kind", JStr "broadcast")]
                                else [("kind", JStr "agent"); ("id", JStr (default "" (cs_recipientAgentId r)))]
                      end) /\
    (cs_broadcast r = true -> truthy (cs_roomId r) = None) /\
    cp_signed p = buildSignedSendFields i (sc_fleetId c) (sc_agentId c) (cp_recipient p) (cp_conversation_id p)
      (body_text (cp_body p)) nonce sentAt (cp_message_type p) (cp_priority p) [].
Proof.
  intros targets. unfold send_prepare.
  assert (Htargets : (send_targets r =? 1)%nat = true <->
            exists k, targets !! k = Some true /\ forall j, targets !! j = Some true -> j = k).
  { unfold targets, send_targets. destruct (negb _), (negb _), (cs_broadcast r); cbn; split; intros Hx; try done;
      try (destruct Hx as (k & _ & Hu); pose proof (Hu 0%nat eq_refl); pose proof (Hu 1%nat eq_refl); lia);
      try (destruct Hx as (k & _ & Hu); pose proof (Hu 0%nat eq_refl); pose proof (Hu 2%nat eq_refl); lia);
      try (destruct Hx as (k & _ & Hu); pose proof (Hu 1%nat eq_refl); pose proof (Hu 2%nat eq_refl); lia);
      try (by destruct Hx as ([|[|[|k]]] & Hk & _)).
    - exists 0%nat. split; [done|]. intros [|[|[|j]]] Hj; first [done|discriminate Hj|by destruct j].
    - exists 1%nat. split; [done|]. intros [|[|[|j]]] Hj; first [done|discriminate Hj|by destruct j].
    - exists 2%nat. split; [done|]. intros [|[|[|j]]] Hj; first [done|discriminate Hj|by destruct j]. }
  destruct (ca_credentials a) as [c|]; [|split; [split; [done|by intros (_ & Hx & _)]|done]].
  destruct (ca_identity a) as [i|]; [|split; [split; [done|by intros (_ & _ & Hx & _)]|done]].
  destruct (ca_client a); [cbn [negb]|split; [split; [done|by intros (Hx & _)]|done]].
  destruct (ca_paused a); [split; [split; [done|by intros (_ & _ & _ & Hx & _)]|done]|].
  destruct (bool_decide_reflect (trim (cs_text r) = "")) as [He|He];
    [split; [split; [done|by intros (_ & _ & _ & _ & Hx & _)]|done]|].
  destruct (Z.ltb_spec MAX_SEND_TEXT (Z.of_nat (String.length (cs_text r)))) as [Hl|Hl];
    [split; [split; [done|intros (_ & _ & _ & _ & _ & Hx & _); lia]|done]|].
  destruct (send_targets r =? 1)%nat eqn:Et; cbn [negb].
  - split; [split; [intros _; split_and!; try done; by apply Htargets|done]|].
    intros p c' i' [= <-] [= <-] [= <-]. split_and!; [done|done| |done].
    intros Hb. destruct (truthy (cs_roomId r)) as [room|] eqn:Hr; [|done]. exfalso. unfold send_targets in Et.
    rewrite Hb, Hr, (bool_decide_false (Some room = None)) in Et by done. cbn in Et. destruct (negb _) in Et; discriminate Et.
  - split; [split; [done|]|done]. intros (_ & _ & _ & _ & _ & _ & Hx). apply Htargets in Hx. congruence.
Qed.
End Sending.

(** ** Witnesses *)

Lemma stored_readable a m : m ∈ st_messages (ca_store a) -> readable a m.
Proof.
  intros Hm. right. right. exists (sd_conversation_id m), 0%nat. unfold conversation. cbn [slice_last Nat.eqb].
  apply (elem_of_select (fun x => sd_conversation_id x ==? sd_conversation_id m)). split; [done|].
  by apply bool_decide_eq_true.
Qed.

Lemma client_sees_verified_only_if_rooted_witness : exists m,
  st_messages (ca_store (demo_after ModeRequire)) = [m] /\ sd_text m = "hi" /\
  @vouched toy_crypto toy_node (id_pinned demo_recipient_identity) demo_agent_ops m.
Proof.
  assert (Hx : exists m, st_messages (ca_store (demo_after ModeRequire)) = [m] /\ sd_text m = "hi" /\
                 vf_status (sd_verification m) = StatusVerified).
  { eexists. split_and!; vm_compute; reflexivity. }
  destruct Hx as (m & Hm & Ht & Hv). exists m. split_and!; [exact Hm|exact Ht|].
  refine (proj1 (@client_sees_verified_only_if_rooted toy_crypto toy_node (demo_agent_opts ModeRequire)
    (id_pinned demo_recipient_identity) demo_connector demo_agent_ops m demo_trust_ok eq_refl _) Hv).
  apply stored_readable. change (m ∈ st_messages (ca_store (demo_after ModeRequire))). rewrite Hm. by left.
Defined.

Definition demo_polling : ConnectorAgent := set_polling true demo_connector.

Lemma acknowledged_is_accounted_for_witness :
  let batch := demo_batch [demo_message "m1"] in
  messageSeen (ca_store demo_polling) "m1" = true \/
  exists m, sd_message_id m = "m1" /\ sd_text m = "hi".
Proof.
  intros batch.
  destruct (@acknowledged_is_accounted_for toy_crypto toy_node (demo_agent_opts ModeWarn) demo_polling demo_now
    "t" batch (demo_inbox_message (demo_message "m1")) "m1" [] (synced_load None) eq_refl)
    as [Hf|[Hf|[Hs|[(d & Hd & _)|(m & Hi & Ht & _)]]]].
  - apply (bool_decide_unpack _). vm_compute. exact I.
  - by left.
  - reflexivity.
  - discriminate Hf.
  - discriminate Hf.
  - left. exact Hs.
  - exfalso. vm_compute in Hd. by apply elem_of_nil in Hd.
  - right. by exists m.
Defined.

Lemma connector_store_bounded_witness :
  within 10 25 (ca_store (demo_after ModeRequire)) /\
  within 10 25 (load_store (st_disk (ca_store (demo_after ModeRequire)))).
Proof.
  refine (@connector_store_bounded toy_crypto toy_node (demo_agent_opts ModeRequire) demo_connector 25
    demo_agent_ops _ _ eq_refl eq_refl _); [cbn; lia|lia|].
  intros op Hop. unfold demo_agent_ops in Hop.
  repeat (apply elem_of_cons in Hop as [->|Hop]; [cbn; first [exact I|lia]|]). by apply elem_of_nil in Hop.
Defined.

Lemma accepted_signature_burned_witness :
  nonceSeen (ca_store (fst (@ingest toy_crypto toy_node (demo_agent_opts ModeWarn) demo_now "t" demo_connector
    (demo_batch [demo_message "m1"]) (Some "f")))) "n1" = true.
Proof.
  assert (Hvs : exists vs, @verdicts_of toy_crypto toy_node demo_now "t" demo_connector
     (demo_batch [demo_message "m1"]) (Some "f") = Some vs /\ mjoin (vs !! "m1") = Some (MkVerdict true KPeer None (Some "ka1"))).
  { eexists. split; vm_compute; reflexivity. }
  destruct Hvs as (vs & Hvs & H1).
  assert (Hx : exists m, @outcome_in (demo_agent_opts ModeWarn) (demo_batch [demo_message "m1"]) (ca_store demo_connector)
     (self_id demo_connector) "t" vs (demo_inbox_message (demo_message "m1")) = Kept m /\
     vf_status (sd_verification m) = StatusVerified).
  { unfold outcome_in. change (mjoin (vs !! "m1")) with (verdict_of vs (demo_inbox_message (demo_message "m1"))) in H1.
    rewrite H1. eexists. split; vm_compute; reflexivity. }
  destruct Hx as (m & Ho & Hv).
  refine (proj2 (@accepted_signature_burned toy_crypto toy_node (demo_agent_opts ModeWarn) demo_now "t" demo_connector
    (demo_batch [demo_message "m1"]) (Some "f") vs (demo_inbox_message (demo_message "m1")) m "n1" Hvs _ _ _ Ho Hv) _).
  - by left.
  - apply NoDup_singleton.
  - vm_compute. reflexivity.
  - cbn. unfold SEEN_CAP. lia.
Defined.

(** One message id, two texts. Verdicts are kept by message id, so a relay that
    serves a genuine message preceded by a forgery under the same id has the
    forgery, which carries the copied signature over another text, stored and shown
    as verified, in "require" mode too; its own id makes it a "body-mismatch". *)
Example duplicate_id_forges_verified :
  let shown ids_texts :=
    map (fun m => (sd_text m, vf_status (sd_verification m)))
      (default [] (snd (@ingest toy_crypto toy_node (demo_agent_opts ModeRequire) demo_now "t" demo_connector
              (demo_batch ids_texts) (Some "f")))) in
  shown [forged_message "m1" "evil"; demo_message "m1"] = [("evil", StatusVerified); ("hi", StatusVerified)] /\
  shown [forged_message "m0" "evil"; demo_message "m1"] = [("hi", StatusVerified)].
Proof. vm_compute. done. Qed.

(** The relay names the fleet: a connector enrolled in [g] verifies a message signed
    for the fleet [f] when the batch says [f]. *)
Example relay_names_the_fleet :
  map (fun m => vf_status (sd_verification m))
    (snd (fst (@poll_receive toy_crypto toy_node (demo_agent_opts ModeRequire) demo_now "t"
      (MkConnectorAgent (load_store None) true (Some (MkStoredCredentials "a2" "s" "r" "g"))
         (Some demo_recipient_identity) AsConnected false true [] (MkIdentityDir (saveIdentity demo_recipient_identity) [])
         (saveCredentials demo_credentials_of))
      (Some (demo_batch [demo_message "m1"]))))) = [StatusVerified].
Proof. vm_compute. reflexivity. Qed.
