(* ===== verification/OAuth.v ===== *)
(** * The connector's authorization server

    [packages/mcp-connector/src/oauth.ts], class [OAuthServer] (the bearer
    header and the digest comparison of [auth.ts] are [ConnectorEdge]'s): dynamic
    client registration, the consent the operator gives with a password, authorization codes with
    PKCE, rotating refresh tokens, and the check of an access token.  Operations
    return the state next to the result, because a refusal may have changed it (a
    code is spent, a failure counted).  Error descriptions are not modelled. *)

From S2P Require Import Prelude Json IsoTime JsValues Identity ConnectorEdge.
Import Ascii String.
Open Scope string_scope.
Open Scope Z_scope.

Definition ACCESS_TOKEN_TTL_SECONDS : Z := 3600.
Definition REFRESH_TOKEN_TTL_SECONDS : Z := 30 * 24 * 3600.
Definition CODE_TTL_MS : Z := 10 * 60000.
Definition CONSENT_TTL_MS : Z := 10 * 60000.
Definition MAX_CLIENTS : nat := 32.
Definition MAX_TOKENS : nat := 200.
Definition MAX_CONSENTS : nat := 200.
Definition SCOPE : string := "ekho".
Definition LOGIN_MAX_FAILURES : Z := 5.
Definition LOGIN_WINDOW_MS : Z := 15 * 60000.

(** The parts of a parsed [URL] the source reads; [url_add] sets query parameters
    on one.  [None] is the throw of the constructor. *)
Record Url := MkUrl { url_protocol : string; url_host : string; url_hostname : string; url_hash : string }.

Class UrlApi := {
  url_parse : string -> option Url;
  url_add : string -> list (string * string) -> string
}.

(** ** Data *)

Record RegisteredClient := MkClient {
  rc_client_id : string;
  rc_client_name : option string;
  rc_redirect_uris : list string;
  rc_grant_types : list string;
  rc_client_id_issued_at : Z
}.

Inductive TokenKind := AccessToken | RefreshToken.

#[export] Instance TokenKind_eq_dec : EqDecision TokenKind.
Proof. solve_decision. Defined.

Record StoredToken := MkToken {
  tk_hash : string;
  tk_kind : TokenKind;
  tk_client_id : string;
  tk_resource : string;
  tk_scope : string;
  tk_expires_at : Z
}.

Record PendingCode := MkCode {
  pc_client_id : string;
  pc_redirect_uri : string;
  pc_code_challenge : string;
  pc_resource : string;
  pc_scope : string;
  pc_expires_at : Z
}.

Record AuthorizeParams := MkParams {
  ap_client_id : string;
  ap_redirect_uri : string;
  ap_code_challenge : string;
  ap_state : option string;
  ap_scope : option string;
  ap_resource : option string
}.

Record PendingConsent := MkConsent { pn_params : AuthorizeParams; pn_expires_at : Z }.

Record LoginFailure := MkLoginFailure { lf_count : Z; lf_windowStart : Z }.

(** [sv_consents] is a [Map] that is evicted from in insertion order; [sv_disk] is
    the state file. *)
Record OAuthServer := MkServer {
  sv_clients : list RegisteredClient;
  sv_tokens : list StoredToken;
  sv_codes : gmap string PendingCode;
  sv_consents : list (string * PendingConsent);
  sv_loginFailures : gmap string LoginFailure;
  sv_disk : option (list RegisteredClient * list StoredToken)
}.

Record OAuthServerOptions := MkOAuthOptions {
  oo_publicUrl : string;
  oo_mcpPath : string;
  oo_password : string;
  oo_allowedRedirectHosts : list string
}.

(** The HTTP status and the error code. *)
Definition OAuthError : Type := Z * string.

Definition with_tokens (ts : list StoredToken) (s : OAuthServer) : OAuthServer :=
  MkServer (sv_clients s) ts (sv_codes s) (sv_consents s) (sv_loginFailures s) (sv_disk s).
Definition with_clients (cs : list RegisteredClient) (s : OAuthServer) : OAuthServer :=
  MkServer cs (sv_tokens s) (sv_codes s) (sv_consents s) (sv_loginFailures s) (sv_disk s).
Definition with_codes (cs : gmap string PendingCode) (s : OAuthServer) : OAuthServer :=
  MkServer (sv_clients s) (sv_tokens s) cs (sv_consents s) (sv_loginFailures s) (sv_disk s).
Definition with_consents (cs : list (string * PendingConsent)) (s : OAuthServer) : OAuthServer :=
  MkServer (sv_clients s) (sv_tokens s) (sv_codes s) cs (sv_loginFailures s) (sv_disk s).
Definition with_failures (fs : gmap string LoginFailure) (s : OAuthServer) : OAuthServer :=
  MkServer (sv_clients s) (sv_tokens s) (sv_codes s) (sv_consents s) fs (sv_disk s).

(** The constructor: clients and tokens come from the file, the rest is empty. *)
Definition load_server (disk : option (list RegisteredClient * list StoredToken)) : OAuthServer :=
  match disk with
  | Some (clients, tokens) => MkServer clients tokens ∅ [] ∅ disk
  | None => MkServer [] [] ∅ [] ∅ disk
  end.

(** Expired tokens go, then the oldest over the bound. *)
Definition live_tokens (now : Z) (ts : list StoredToken) : list StoredToken :=
  let ts := List.filter (fun t => now <? tk_expires_at t) ts in drop (length ts - MAX_TOKENS) ts.

Definition oauth_persist (now : Z) (s : OAuthServer) : OAuthServer :=
  let ts := live_tokens now (sv_tokens s) in
  MkServer (sv_clients s) ts (sv_codes s) (sv_consents s) (sv_loginFailures s) (Some (sv_clients s, ts)).

Definition isLoopback (host : string) : bool :=
  (host ==? "localhost") || (host ==? "127.0.0.1") || (host ==? "[::1]").

(** ** Regular expressions *)

Definition is_alnum (c : ascii) : bool :=
  let n := nat_of_ascii c in
  ((48 <=? n) && (n <=? 57) || (65 <=? n) && (n <=? 90) || (97 <=? n) && (n <=? 122))%nat.

(** [/^[...]{43,128}$/] *)
Definition between_43_and_128 (ok : ascii -> bool) (s : string) : bool :=
  let l := list_ascii_of_string s in
  (43 <=? length l)%nat && (length l <=? 128)%nat && forallb ok l.

Definition is_challenge (s : string) : bool :=
  between_43_and_128 (fun c => is_alnum c || (c ==? "_"%char) || (c ==? "-"%char)) s.

Definition is_verifier (s : string) : bool :=
  between_43_and_128 (fun c => is_alnum c || (c ==? "."%char) || (c ==? "_"%char) || (c ==? "~"%char) || (c ==? "-"%char)) s.

(** [s.split(/\s+/).filter(Boolean)] *)
Fixpoint words_acc (acc : string) (s : string) : list string :=
  let flush := if acc ==? "" then [] else [acc] in
  match s with
  | EmptyString => flush
  | String c s' => if Prelude.is_space c then (flush ++ words_acc "" s')%list else words_acc (acc +:+ String c "") s'
  end.
Definition words (s : string) : list string := words_acc "" s.

Section OAuth.
Context `{Crypto} `{NodeCrypto} `{UrlApi}.
Context (opts : OAuthServerOptions).

Definition issuer : string := oo_publicUrl opts.
Definition resource : string := oo_publicUrl opts +:+ oo_mcpPath opts.

(** ** Registration *)

Definition getClient (s : OAuthServer) (clientId : string) : option RegisteredClient :=
  select_one (fun c => rc_client_id c ==? clientId) (sv_clients s).

Definition hasLiveRefreshToken (now : Z) (s : OAuthServer) (clientId : string) : bool :=
  existsb (fun t => (tk_kind t ==? RefreshToken) && (tk_client_id t ==? clientId) && (now <? tk_expires_at t))
    (sv_tokens s).

Definition validateRedirectUri (u : string) : option OAuthError :=
  match url_parse u with
  | None => Some (400, "invalid_redirect_uri")
  | Some parsed =>
      let loop := isLoopback (url_hostname parsed) || isLoopback (url_host parsed) in
      let hosts := oo_allowedRedirectHosts opts in
      if negb (url_hash parsed ==? "") then Some (400, "invalid_redirect_uri")
      else if (url_protocol parsed ==? "http:") && negb loop then Some (400, "invalid_redirect_uri")
      else if negb (url_protocol parsed ==? "https:") && negb (url_protocol parsed ==? "http:")
      then Some (400, "invalid_redirect_uri")
      else if negb (length hosts =? 0)%nat && negb loop && negb (bool_decide (lower_string (url_hostname parsed) ∈ hosts))
      then Some (400, "invalid_redirect_uri")
      else None
  end.

(** The first uri that is refused. *)
Fixpoint validateRedirectUris (us : list string) : option OAuthError :=
  match us with
  | [] => None
  | u :: us' => match validateRedirectUri u with Some e => Some e | None => validateRedirectUris us' end
  end.

(** [Array.isArray(b.k) ? b.k.map(String) : dflt] *)
Definition strings_or (b : json) (k : string) (dflt : list string) : list string :=
  match prop b k with Some (JArr l) => map js_String l | _ => dflt end.

(** What a registration must be: the uris and the grants, or the refusal. *)
Definition registration (body : json) : result OAuthError (list string * list string) :=
  throw_if negb (match body with JObj _ | JArr _ => true | _ => false end) with (400, "invalid_client_metadata") ;;
  let uris := strings_or body "redirect_uris" [] in
  throw_if (length uris =? 0)%nat || (10 <? length uris)%nat with (400, "invalid_redirect_uri") ;;
  match validateRedirectUris uris with
  | Some e => Throw e
  | None =>
      throw_if negb (match prop body "token_endpoint_auth_method" with
                     | None | Some JNull => true
                     | v => is_str v "none"
                     end) with (400, "invalid_client_metadata") ;;
      let grants := strings_or body "grant_types" ["authorization_code"] in
      throw_if existsb (fun g => negb (g ==? "authorization_code") && negb (g ==? "refresh_token")) grants
        with (400, "invalid_client_metadata") ;;
      throw_if existsb (fun r => negb (r ==? "code")) (strings_or body "response_types" ["code"])
        with (400, "invalid_client_metadata") ;;
      Ok (uris, grants)
  end.

(** Drop the client at the index the source found, and all its tokens. *)
Definition removeClient (gone : RegisteredClient) (idx : nat) (s : OAuthServer) : OAuthServer :=
  with_tokens (List.filter (fun t => negb (tk_client_id t ==? rc_client_id gone)) (sv_tokens s))
    (with_clients (take idx (sv_clients s) ++ drop (S idx) (sv_clients s)) s).

(** Room for one more client: at the bound, the oldest without a live refresh token
    goes; nobody goes when there is none. *)
Definition make_room (now : Z) (s : OAuthServer) : option OAuthServer :=
  if (length (sv_clients s) <? MAX_CLIENTS)%nat then Some s
  else match list_find (fun c => hasLiveRefreshToken now s (rc_client_id c) = false) (sv_clients s) with
       | Some (idx, gone) => Some (removeClient gone idx s)
       | None => None
       end.

(** [fresh] is the random client id. *)
Definition registerClient (now : Z) (fresh : string) (s : OAuthServer) (body : json)
    : OAuthServer * result OAuthError RegisteredClient :=
  match registration body with
  | Throw e => (s, Throw e)
  | Ok (uris, grants) =>
      let client := MkClient fresh (substring 0 120 <$> string_field body "client_name") uris
                      (if bool_decide ("refresh_token" ∈ grants) then grants else grants ++ ["refresh_token"])
                      (now / 1000) in
      match make_room now s with
      | None => (s, Throw (429, "too_many_clients"))
      | Some s => (oauth_persist now (with_clients (sv_clients s ++ [client]) s), Ok client)
      end
  end.

(** ** Authorization *)

Record AuthorizeQuery := MkQuery {
  aq_client_id : option string;
  aq_redirect_uri : option string;
  aq_response_type : option string;
  aq_code_challenge : option string;
  aq_code_challenge_method : option string;
  aq_resource : option string;
  aq_scope : option string;
  aq_state : option string
}.

(** The validated parameters, or where to send the browser with an error. *)
Inductive Authorization :=
  | Authorize (p : AuthorizeParams)
  | RedirectError (redirect : string).

Definition fail_redirect (redirectUri error : string) (state : option string) : Authorization :=
  RedirectError (url_add redirectUri
    ([("error", error)] ++ (match truthy state with Some x => [("state", x)] | None => [] end) ++ [("iss", issuer)])).

Definition validateAuthorizeRequest (s : OAuthServer) (q : AuthorizeQuery) : result OAuthError Authorization :=
  fetch client := (match truthy (aq_client_id q) with Some c => getClient s c | None => None end)
    orelse (400, "invalid_client") ;;
  fetch redirectUri := (match truthy (aq_redirect_uri q) with
                        | Some u => Some u
                        | None => match rc_redirect_uris client with [u] => Some u | _ => None end
                        end) orelse (400, "invalid_request") ;;
  throw_if negb (bool_decide (redirectUri ∈ rc_redirect_uris client)) with (400, "invalid_request") ;;
  let fail error := Ok (fail_redirect redirectUri error (aq_state q)) in
  if negb (aq_response_type q ==? Some "code") then fail "unsupported_response_type"
  else match truthy (aq_code_challenge q) with
       | None => fail "invalid_request"
       | Some challenge =>
           if negb (is_challenge challenge) then fail "invalid_request"
           else if negb (aq_code_challenge_method q ==? Some "S256") then fail "invalid_request"
           else if match aq_resource q with Some r => negb (r ==? resource) | None => false end then fail "invalid_target"
           else if match aq_scope q with Some sc => existsb (fun w => negb (w ==? SCOPE)) (words sc) | None => false end
           then fail "invalid_scope"
           else Ok (Authorize (MkParams (rc_client_id client) redirectUri challenge (aq_state q) (Some SCOPE)
                                 (Some (default resource (aq_resource q)))))
       end.

(** [Map.set]: a new key goes to the end. *)
Definition set_consent (nonce : string) (c : PendingConsent) (l : list (string * PendingConsent)) :=
  if existsb (fun kv => fst kv ==? nonce) l
  then map (fun kv => if fst kv ==? nonce then (nonce, c) else kv) l
  else (l ++ [(nonce, c)])%list.

Definition beginConsent (now : Z) (nonce : string) (s : OAuthServer) (params : AuthorizeParams) : OAuthServer :=
  let l := set_consent nonce (MkConsent params (now + CONSENT_TTL_MS)) (sv_consents s) in
  let l := List.filter (fun kv => now <? pn_expires_at (snd kv)) l in
  with_consents (drop (length l - MAX_CONSENTS) l) s.

(** Whether the address must wait; an outdated window is forgotten. *)
Definition loginThrottled (now : Z) (s : OAuthServer) (clientKey : string) : OAuthServer * bool :=
  match sv_loginFailures s !! clientKey with
  | None => (s, false)
  | Some e =>
      if LOGIN_WINDOW_MS <? now - lf_windowStart e
      then (with_failures (delete clientKey (sv_loginFailures s)) s, false)
      else (s, LOGIN_MAX_FAILURES <=? lf_count e)
  end.

Definition count_failure (now : Z) (fs : gmap string LoginFailure) (clientKey : string) : gmap string LoginFailure :=
  match fs !! clientKey with
  | Some e => if LOGIN_WINDOW_MS <? now - lf_windowStart e then <[clientKey := MkLoginFailure 1 now]> fs
              else <[clientKey := MkLoginFailure (lf_count e + 1) (lf_windowStart e)]> fs
  | None => <[clientKey := MkLoginFailure 1 now]> fs
  end.

Definition pending_consent (s : OAuthServer) (nonce : option string) : option (string * PendingConsent) :=
  match truthy nonce with
  | Some n => select_one (fun kv => fst kv ==? n) (sv_consents s)
  | None => None
  end.

(** [fresh] is the random code; the result is the redirect that carries it. *)
Definition completeConsent (now : Z) (fresh : string) (s : OAuthServer) (nonce password : option string)
    (clientKey : string) : OAuthServer * result OAuthError string :=
  let '(s, throttled) := loginThrottled now s clientKey in
  if throttled then (s, Throw (429, "slow_down"))
  else match pending_consent s nonce with
       | Some (n, pending) =>
           if pn_expires_at pending <=? now then (s, Throw (400, "invalid_request"))
           else if negb (match truthy password with Some p => constantTimeEqual node_sha256 p (oo_password opts) | None => false end)
           then (with_failures (count_failure now (sv_loginFailures s) clientKey) s, Throw (401, "access_denied"))
           else
             let p := pn_params pending in
             let code := MkCode (ap_client_id p) (ap_redirect_uri p) (ap_code_challenge p)
                           (default resource (ap_resource p)) (default SCOPE (ap_scope p)) (now + CODE_TTL_MS) in
             (with_codes (<[fresh := code]> (sv_codes s))
                (with_failures (delete clientKey (sv_loginFailures s))
                   (with_consents (delete_where (fun kv => fst kv ==? n) (sv_consents s)) s)),
              Ok (url_add (ap_redirect_uri p)
                    ([("code", fresh)] ++ (match truthy (ap_state p) with Some x => [("state", x)] | None => [] end)
                       ++ [("iss", issuer)])))
       | None => (s, Throw (400, "invalid_request"))
       end.

(** ** Tokens *)

Record TokenForm := MkTokenForm {
  tf_grant_type : option string;
  tf_client_id : option string;
  tf_code : option string;
  tf_redirect_uri : option string;
  tf_code_verifier : option string;
  tf_refresh_token : option string;
  tf_resource : option string
}.

(** The two random tokens a grant mints. *)
Record FreshTokens := MkFresh { fr_access : string; fr_refresh : string }.

Definition issueTokens (now : Z) (f : FreshTokens) (s : OAuthServer) (clientId res scope : string) : OAuthServer :=
  oauth_persist now (with_tokens (sv_tokens s ++
    [MkToken (node_sha256 (fr_access f)) AccessToken clientId res scope (now + ACCESS_TOKEN_TTL_SECONDS * 1000);
     MkToken (node_sha256 (fr_refresh f)) RefreshToken clientId res scope (now + REFRESH_TOKEN_TTL_SECONDS * 1000)]) s).

(** PKCE: the verifier hashes to the challenge. *)
Definition pkce_ok (verifier challenge : string) : bool :=
  constantTimeEqual node_sha256 (b64url (sha256 verifier)) challenge.

(** The checks on a code, in their order. *)
Definition check_code (now : Z) (client : RegisteredClient) (form : TokenForm) (code : option PendingCode)
    : result OAuthError PendingCode :=
  fetch code := code orelse (400, "invalid_grant") ;;
  throw_if pc_expires_at code <=? now with (400, "invalid_grant") ;;
  throw_if negb (pc_client_id code ==? rc_client_id client) with (400, "invalid_grant") ;;
  throw_if (match tf_redirect_uri form with Some u => negb (u ==? pc_redirect_uri code) | None => false end)
    with (400, "invalid_grant") ;;
  let verifier := default "" (tf_code_verifier form) in
  throw_if negb (is_verifier verifier) with (400, "invalid_grant") ;;
  throw_if negb (pkce_ok verifier (pc_code_challenge code)) with (400, "invalid_grant") ;;
  throw_if (match tf_resource form with Some r => negb (r ==? pc_resource code) | None => false end)
    with (400, "invalid_target") ;;
  Ok code.

Definition check_refresh (now : Z) (client : RegisteredClient) (form : TokenForm) (stored : option StoredToken)
    : result OAuthError StoredToken :=
  fetch t := stored orelse (400, "invalid_grant") ;;
  throw_if tk_expires_at t <=? now with (400, "invalid_grant") ;;
  throw_if negb (tk_client_id t ==? rc_client_id client) with (400, "invalid_grant") ;;
  throw_if (match tf_resource form with Some r => negb (r ==? tk_resource t) | None => false end)
    with (400, "invalid_target") ;;
  Ok t.

Definition is_refresh_token (presented : string) (t : StoredToken) : Prop :=
  tk_kind t = RefreshToken /\ tk_hash t = node_sha256 presented.

#[global] Instance is_refresh_token_dec presented t : Decision (is_refresh_token presented t).
Proof. unfold is_refresh_token. apply _. Defined.

(** A token response carries the tokens just minted. *)
Definition token (now : Z) (f : FreshTokens) (s : OAuthServer) (form : TokenForm)
    : OAuthServer * result OAuthError FreshTokens :=
  match (match truthy (tf_client_id form) with Some c => getClient s c | None => None end) with
  | None => (s, Throw (401, "invalid_client"))
  | Some client =>
      if tf_grant_type form ==? Some "authorization_code" then
        let code := match truthy (tf_code form) with Some c => sv_codes s !! c | None => None end in
        let s := match truthy (tf_code form) with Some c => with_codes (delete c (sv_codes s)) s | None => s end in
        match check_code now client form code with
        | Throw e => (s, Throw e)
        | Ok code => (issueTokens now f s (rc_client_id client) (pc_resource code) (pc_scope code), Ok f)
        end
      else if tf_grant_type form ==? Some "refresh_token" then
        let found := list_find (is_refresh_token (default "" (tf_refresh_token form))) (sv_tokens s) in
        match check_refresh now client form (snd <$> found), found with
        | Ok t, Some (idx, _) =>
            let s := with_tokens (take idx (sv_tokens s) ++ drop (S idx) (sv_tokens s)) s in
            (issueTokens now f s (rc_client_id client) (tk_resource t) (tk_scope t), Ok f)
        | Throw e, _ => (s, Throw e)
        | Ok _, None => (s, Throw (400, "invalid_grant"))
        end
      else (s, Throw (400, "unsupported_grant_type"))
  end.

(** ** The resource server *)

Inductive AccessRefusal := UnknownToken | TokenExpired | OtherResource.

Definition verifyAccessToken (now : Z) (s : OAuthServer) (t : string) : result AccessRefusal string :=
  fetch stored := select_one (fun x => (tk_kind x ==? AccessToken) && (tk_hash x ==? node_sha256 t)) (sv_tokens s)
    orelse UnknownToken ;;
  throw_if tk_expires_at stored <=? now with TokenExpired ;;
  throw_if negb (tk_resource stored ==? resource) with OtherResource ;;
  Ok (tk_client_id stored).

(** The subject of an authenticated request. *)
Definition authenticate (now : Z) (s : OAuthServer) (header : option string) : option string :=
  match bearerFromHeader header with
  | Some t => match verifyAccessToken now s t with Ok c => Some c | Throw _ => None end
  | None => None
  end.

(** ** The routes of [http.ts] *)

(** GET /oauth/authorize: the browser is redirected with an error, or shown the
    consent page that carries the nonce. *)
Definition authorize_get (now : Z) (nonce : string) (s : OAuthServer) (q : AuthorizeQuery)
    : OAuthServer * result OAuthError Authorization :=
  match validateAuthorizeRequest s q with
  | Ok (Authorize params) => (beginConsent now nonce s params, Ok (Authorize params))
  | r => (s, r)
  end.

(** What reaches the server: the four routes that change it, with the values they
    draw, and a restart of the process. *)
Inductive oauth_op :=
  | OpRegister (now : Z) (fresh : string) (body : json)
  | OpAuthorize (now : Z) (nonce : string) (q : AuthorizeQuery)
  | OpConsent (now : Z) (fresh : string) (nonce password : option string) (clientKey : string)
  | OpToken (now : Z) (f : FreshTokens) (form : TokenForm)
  | OpRestart.

Definition oauth_step (s : OAuthServer) (op : oauth_op) : OAuthServer :=
  match op with
  | OpRegister now fresh body => fst (registerClient now fresh s body)
  | OpAuthorize now nonce q => fst (authorize_get now nonce s q)
  | OpConsent now fresh nonce password key => fst (completeConsent now fresh s nonce password key)
  | OpToken now f form => fst (token now f s form)
  | OpRestart => load_server (sv_disk s)
  end.

Definition oauth_run (s : OAuthServer) (ops : list oauth_op) : OAuthServer := fold_left oauth_step ops s.

(** The server started without a state file. *)
Definition oauth_reach (ops : list oauth_op) : OAuthServer := oauth_run (load_server None) ops.
End OAuth.
