(* ===== verification/OAuthSafety.v ===== *)
(** * The authorization server over a run

    What each operation of [OAuth] does to the tables, and the facts that hold in
    every state reached from an empty one: the bounds, the state file, where every
    code, consent and token comes from. *)

From S2P Require Import Prelude Json IsoTime JsValues Identity ConnectorEdge OAuth.
Import Ascii String.
Open Scope string_scope.
Open Scope Z_scope.

Section Safety.
Context `{Crypto} `{NodeCrypto} `{UrlApi}.
Context (opts : OAuthServerOptions).

(** ** What an operation that succeeds has checked *)

Lemma throttled_keeps now s key :
  sv_clients (fst (loginThrottled now s key)) = sv_clients s /\
  sv_tokens (fst (loginThrottled now s key)) = sv_tokens s /\
  sv_codes (fst (loginThrottled now s key)) = sv_codes s /\
  sv_consents (fst (loginThrottled now s key)) = sv_consents s /\
  sv_disk (fst (loginThrottled now s key)) = sv_disk s.
Proof. unfold loginThrottled. by repeat case_match. Qed.

Lemma pending_consent_spec s s' nonce n c :
  sv_consents s' = sv_consents s -> pending_consent s' nonce = Some (n, c) ->
  nonce = Some n /\ (n, c) ∈ sv_consents s.
Proof.
  unfold pending_consent. intros <- Hc. destruct (truthy nonce) as [m|] eqn:Hn; [|done].
  apply select_one_Some in Hc as [Hin Hm]. bools. simpl in Hm. subst m. by apply truthy_Some in Hn as [-> _].
Qed.

(** The code a consent to [p] mints. *)
Definition code_of (now : Z) (p : AuthorizeParams) : PendingCode :=
  MkCode (ap_client_id p) (ap_redirect_uri p) (ap_code_challenge p)
    (default (resource opts) (ap_resource p)) (default SCOPE (ap_scope p)) (now + CODE_TTL_MS).

Definition redirect_of (fresh : string) (p : AuthorizeParams) : string :=
  url_add (ap_redirect_uri p)
    ([("code", fresh)] ++ (match truthy (ap_state p) with Some x => [("state", x)] | None => [] end)
       ++ [("iss", issuer opts)]).

(** A consent in [s] to [p], which still runs at [now], given with the password. *)
Definition consents_to (now : Z) (s : OAuthServer) (nonce password : option string) (p : AuthorizeParams) : Prop :=
  exists n until pw, nonce = Some n /\ (n, MkConsent p until) ∈ sv_consents s /\ now < until /\
    password = Some pw /\ constantTimeEqual node_sha256 pw (oo_password opts) = true.

Lemma completeConsent_Ok now fresh s nonce password key u :
  snd (completeConsent opts now fresh s nonce password key) = Ok u ->
  exists p, consents_to now s nonce password p /\ u = redirect_of fresh p /\
    sv_codes (fst (completeConsent opts now fresh s nonce password key)) = <[fresh := code_of now p]> (sv_codes s) /\
    snd (loginThrottled now s key) = false.
Proof.
  unfold completeConsent. destruct (throttled_keeps now s key) as (_ & _ & Hc & Hn & _).
  destruct (loginThrottled now s key) as [s1 thr]. simpl in Hc, Hn. destruct thr; [done|].
  destruct (pending_consent s1 nonce) as [[n [p until]]|] eqn:Hp; [|done].
  apply (pending_consent_spec s) in Hp as [-> Hin]; [|done]. simpl.
  destruct (until <=? now) eqn:Hu; [done|].
  destruct (truthy password) as [pw|] eqn:Hpw; [|done]. apply truthy_Some in Hpw as [-> _].
  destruct (constantTimeEqual node_sha256 pw (oo_password opts)) eqn:Hok; [|done]. simpl. intros [= <-].
  exists p. split_and!; [|done|by rewrite Hc|done]. exists n, until, pw. bools. done.
Qed.

(** A consent that is not given changes no table but the failures. *)
Lemma completeConsent_keeps now fresh s nonce password key :
  let s' := fst (completeConsent opts now fresh s nonce password key) in
  sv_clients s' = sv_clients s /\ sv_tokens s' = sv_tokens s /\ sv_disk s' = sv_disk s /\
  (forall kv, kv ∈ sv_consents s' -> kv ∈ sv_consents s) /\
  (length (sv_consents s') <= length (sv_consents s))%nat /\
  (is_ok (snd (completeConsent opts now fresh s nonce password key)) = false -> sv_codes s' = sv_codes s).
Proof.
  unfold completeConsent. destruct (throttled_keeps now s key) as (H1' & H2' & Hc & Hn & Hd).
  destruct (loginThrottled now s key) as [s1 thr]. simpl in *. rewrite <- H1', <- H2', <- Hc, <- Hn, <- Hd.
  destruct thr; [done|]. destruct (pending_consent s1 nonce) as [[n c]|]; [|done].
  destruct (pn_expires_at c <=? now); [done|]. destruct (negb _); [done|]. simpl. split_and!; try done.
  - intros kv [? _]%elem_of_delete_where. done.
  - apply List.filter_length_le.
Qed.

Lemma check_code_Ok now client form code pc :
  check_code now client form code = Ok pc ->
  code = Some pc /\ now < pc_expires_at pc /\ pc_client_id pc = rc_client_id client /\
  pkce_ok (default "" (tf_code_verifier form)) (pc_code_challenge pc) = true /\
  (tf_redirect_uri form = None \/ tf_redirect_uri form = Some (pc_redirect_uri pc)) /\
  (tf_resource form = None \/ tf_resource form = Some (pc_resource pc)).
Proof.
  unfold check_code. intros Hc. inv_ok Hc; bools; split_and!; try done; try lia; auto;
    repeat match goal with E : _ = ?x |- context [?x] => rewrite <- E end; auto; by right; f_equal.
Qed.

Lemma check_refresh_Ok now client form st t :
  check_refresh now client form st = Ok t ->
  st = Some t /\ now < tk_expires_at t /\ tk_client_id t = rc_client_id client /\
  (tf_resource form = None \/ tf_resource form = Some (tk_resource t)).
Proof. unfold check_refresh. intros Hc. inv_ok Hc; bools; split_and!; try done; try lia; auto; by right; f_equal. Qed.

(** ** Tokens *)

Lemma live_tokens_incl now ts t : t ∈ live_tokens now ts -> t ∈ ts /\ now < tk_expires_at t.
Proof.
  unfold live_tokens. intros Ht. apply elem_of_drop_incl in Ht.
  apply list_elem_of_In, filter_In in Ht as [Ht Hl]. bools. split; [by apply list_elem_of_In|done].
Qed.

Lemma live_tokens_bound now ts : (length (live_tokens now ts) <= MAX_TOKENS)%nat.
Proof. unfold live_tokens. rewrite length_drop. lia. Qed.

(** Under the bound nothing but expiry removes a token. *)
Lemma live_tokens_all now ts t :
  (length ts <= MAX_TOKENS)%nat -> t ∈ ts -> now < tk_expires_at t -> t ∈ live_tokens now ts.
Proof.
  intros Hl Ht He. unfold live_tokens. pose proof (List.filter_length_le (fun t => now <? tk_expires_at t) ts).
  replace (_ - MAX_TOKENS)%nat with 0%nat by lia. simpl. apply list_elem_of_In, filter_In.
  split; [by apply list_elem_of_In|by apply Z.ltb_lt].
Qed.

Definition minted (now : Z) (f : FreshTokens) (c res sc : string) : list StoredToken :=
  [MkToken (node_sha256 (fr_access f)) AccessToken c res sc (now + ACCESS_TOKEN_TTL_SECONDS * 1000);
   MkToken (node_sha256 (fr_refresh f)) RefreshToken c res sc (now + REFRESH_TOKEN_TTL_SECONDS * 1000)].

(** What a token request presents when it succeeds: a code with its verifier, or a
    refresh token. *)
Definition by_code (now : Z) (s : OAuthServer) (form : TokenForm) (pc : PendingCode) : Prop :=
  exists k, tf_grant_type form = Some "authorization_code" /\ tf_code form = Some k /\ sv_codes s !! k = Some pc /\
    now < pc_expires_at pc /\ pkce_ok (default "" (tf_code_verifier form)) (pc_code_challenge pc) = true /\
    (tf_redirect_uri form = None \/ tf_redirect_uri form = Some (pc_redirect_uri pc)).

Definition by_refresh (now : Z) (s : OAuthServer) (form : TokenForm) (i : nat) (t : StoredToken) : Prop :=
  tf_grant_type form = Some "refresh_token" /\
  list_find (is_refresh_token (default "" (tf_refresh_token form))) (sv_tokens s) = Some (i, t) /\
  now < tk_expires_at t.

Lemma token_Ok now f s form g :
  snd (token now f s form) = Ok g ->
  g = f /\ exists client s1 res sc, client ∈ sv_clients s /\ tf_client_id form = Some (rc_client_id client) /\
    fst (token now f s form) = issueTokens now f s1 (rc_client_id client) res sc /\
    sv_clients s1 = sv_clients s /\ sv_consents s1 = sv_consents s /\ sv_loginFailures s1 = sv_loginFailures s /\
    ((exists pc, by_code now s form pc /\ pc_client_id pc = rc_client_id client /\ pc_resource pc = res /\
        sv_tokens s1 = sv_tokens s /\ exists k, tf_code form = Some k /\ sv_codes s1 = delete k (sv_codes s)) \/
     (exists i t, by_refresh now s form i t /\ tk_client_id t = rc_client_id client /\ tk_resource t = res /\
        sv_tokens s1 = (take i (sv_tokens s) ++ drop (S i) (sv_tokens s))%list /\ sv_codes s1 = sv_codes s)).
Proof.
  unfold token. destruct (truthy (tf_client_id form)) as [c|] eqn:Hc; [|done]. apply truthy_Some in Hc as [Hc _].
  destruct (getClient s c) as [client|] eqn:Hg; [|done]. apply select_one_Some in Hg as [Hin Hid]. bools.
  case_bool_decide as Hgt.
  - destruct (truthy (tf_code form)) as [k|] eqn:Hk; [|done]. apply truthy_Some in Hk as [Hk _].
    destruct (check_code _ _ _ _) as [pc|] eqn:Hck; [|done]. simpl. intros [= <-]. split; [done|].
    apply check_code_Ok in Hck as (Hpc & He & Hcl & Hp & Hu & _).
    eexists client, _, _, _. split_and!; [done|by rewrite Hc, Hid|reflexivity|done|done|done|].
    left. exists pc. split_and!; [|done|done|done|by exists k]. exists k. done.
  - case_bool_decide as Hgr; [|done].
    destruct (list_find _ _) as [[i t]|] eqn:Hf; [|done]. change (snd <$> Some (i, t)) with (Some t).
    destruct (check_refresh now client form (Some t)) as [t'|] eqn:Hck; [|done]. simpl. intros [= <-]. split; [done|].
    apply check_refresh_Ok in Hck as ([= ->] & He & Hcl & _).
    eexists client, _, _, _. split_and!; [done|by rewrite Hc, Hid|reflexivity|done|done|done|].
    right. exists i, t'. done.
Qed.

(** A refused request may only have spent a code. *)
Lemma token_Throw now f s form e :
  snd (token now f s form) = Throw e ->
  fst (token now f s form) = s \/ exists k, tf_code form = Some k /\ fst (token now f s form) = with_codes (delete k (sv_codes s)) s.
Proof.
  unfold token. destruct (match truthy (tf_client_id form) with Some _ => _ | None => _ end) as [client|]; [|by left].
  case_bool_decide.
  - destruct (truthy (tf_code form)) as [k|] eqn:Hk.
    + apply truthy_Some in Hk as [Hk _]. destruct (check_code _ _ _ _); [done|]. intros _. right. by exists k.
    + destruct (check_code _ _ _ _); [done|]. by left.
  - case_bool_decide; [|by left]. destruct (list_find _ _) as [[i t]|]; [|by left]. change (snd <$> Some (i, t)) with (Some t).
    destruct (check_refresh now client form (Some t)); [done|]. by left.
Qed.

(** ** Registration *)

Lemma registerClient_Ok now fresh s body client :
  snd (registerClient opts now fresh s body) = Ok client ->
  exists uris grants s1, registration opts body = Ok (uris, grants) /\ make_room now s = Some s1 /\
    rc_client_id client = fresh /\ rc_redirect_uris client = uris /\
    fst (registerClient opts now fresh s body) = oauth_persist now (with_clients (sv_clients s1 ++ [client]) s1).
Proof.
  unfold registerClient. destruct (registration opts body) as [[uris grants]|]; [|done].
  destruct (make_room now s) as [s1|] eqn:Hm; [|done]. simpl. intros [= <-]. by exists uris, grants, s1.
Qed.

Lemma registerClient_Throw now fresh s body e :
  snd (registerClient opts now fresh s body) = Throw e -> fst (registerClient opts now fresh s body) = s.
Proof.
  unfold registerClient. destruct (registration opts body) as [[uris grants]|]; [|done].
  destruct (make_room now s); done.
Qed.

Lemma validateRedirectUris_all us : validateRedirectUris opts us = None -> forall u, u ∈ us -> validateRedirectUri opts u = None.
Proof.
  induction us as [|v us IH]; simpl; intros Hv u Hu; [by apply elem_of_nil in Hu|].
  destruct (validateRedirectUri opts v) eqn:E; [done|]. apply elem_of_cons in Hu as [->|Hu]; [done|]. by apply IH.
Qed.

Lemma registration_uris body uris grants :
  registration opts body = Ok (uris, grants) ->
  (1 <= length uris <= 10)%nat /\ forall u, u ∈ uris -> validateRedirectUri opts u = None.
Proof.
  unfold registration. intros Hr. inv_ok Hr; (split; [|by apply validateRedirectUris_all]);
    match goal with E : (_ =? 0)%nat || (_ <? _)%nat = false |- _ => apply orb_false_iff in E as [Ez%Nat.eqb_neq El%Nat.ltb_ge] end; lia.
Qed.

(** What making room costs: nobody, or one client that cannot refresh, with its
    tokens. *)
Lemma make_room_spec now s s1 :
  make_room now s = Some s1 ->
  (s1 = s /\ (length (sv_clients s) < MAX_CLIENTS)%nat) \/
  exists i gone, s1 = removeClient gone i s /\ sv_clients s !! i = Some gone /\
    hasLiveRefreshToken now s (rc_client_id gone) = false.
Proof.
  unfold make_room. destruct (Nat.ltb_spec (length (sv_clients s)) MAX_CLIENTS); [intros [= <-]; by left|].
  destruct (list_find _ _) as [[i gone]|] eqn:Hf; [|done]. intros [= <-]. right.
  apply list_find_Some in Hf as (Hi & Hl & _). by exists i, gone.
Qed.

Lemma hasLive_true now s c :
  hasLiveRefreshToken now s c = true <->
  exists t, t ∈ sv_tokens s /\ tk_kind t = RefreshToken /\ tk_client_id t = c /\ now < tk_expires_at t.
Proof.
  unfold hasLiveRefreshToken. rewrite existsb_exists. split.
  - intros (t & Ht & Hp). bools. exists t. split_and!; try done. by apply list_elem_of_In.
  - intros (t & Ht & <- & <- & He). exists t. split; [by apply list_elem_of_In|].
    rewrite !bool_decide_eq_true_2 by done. by apply Z.ltb_lt.
Qed.
End Safety.

(** ** Histories

    An event of a history is an operation together with the operations before it,
    from which the state it met is known. *)
Definition happened {A} (P : list A -> A -> Prop) (ops : list A) : Prop :=
  exists before op after, ops = (before ++ op :: after)%list /\ P before op.

Lemma happened_app {A} (P : list A -> A -> Prop) ops ops' : happened P ops -> happened P (ops ++ ops').
Proof. intros (b & op & a & -> & HP). exists b, op, (a ++ ops')%list. by rewrite <- app_assoc. Qed.

Lemma happened_now {A} (P : list A -> A -> Prop) ops op : P ops op -> happened P (ops ++ [op]).
Proof. intros HP. by exists ops, op, []. Qed.

Section Reach.
Context `{Crypto} `{NodeCrypto} `{UrlApi}.
Context (opts : OAuthServerOptions).
Abbreviation reach := (oauth_reach opts).

Definition registers (c : RegisteredClient) (before : list oauth_op) (op : oauth_op) : Prop :=
  exists now fresh body, op = OpRegister now fresh body /\ snd (registerClient opts now fresh (reach before) body) = Ok c.

Definition asks (p : AuthorizeParams) (before : list oauth_op) (op : oauth_op) : Prop :=
  exists now nonce q, op = OpAuthorize now nonce q /\
    validateAuthorizeRequest opts (reach before) q = Ok (Authorize p).

(** The operator consents to [p] with the password, and [code] is drawn for it. *)
Definition consents (now : Z) (code : string) (p : AuthorizeParams) (before : list oauth_op) (op : oauth_op) : Prop :=
  exists nonce password key, op = OpConsent now code nonce password key /\
    is_ok (snd (completeConsent opts now code (reach before) nonce password key)) = true /\
    consents_to opts now (reach before) nonce password p.

(** A code of client [c] is exchanged for the tokens [f]. *)
Definition exchanges (c : string) (before : list oauth_op) (op : oauth_op) : Prop :=
  exists now f form pc, op = OpToken now f form /\ snd (token now f (reach before) form) = Ok f /\
    by_code now (reach before) form pc /\ pc_client_id pc = c.

(** Where everything the server holds comes from. *)
Record sourced (ops : list oauth_op) : Prop := {
  src_clients : forall c, c ∈ sv_clients (reach ops) -> happened (registers c) ops;
  src_consents : forall n p until, (n, MkConsent p until) ∈ sv_consents (reach ops) -> happened (asks p) ops;
  src_codes : forall k pc, sv_codes (reach ops) !! k = Some pc ->
    exists now p, pc = code_of opts now p /\ happened (consents now k p) ops;
  src_tokens : forall t, t ∈ sv_tokens (reach ops) -> happened (exchanges (tk_client_id t)) ops
}.

(** The bounds, the owners of the tokens and the state file. *)
Record server_ok (s : OAuthServer) : Prop := {
  sok_clients : (length (sv_clients s) <= MAX_CLIENTS)%nat;
  sok_tokens : (length (sv_tokens s) <= MAX_TOKENS)%nat;
  sok_consents : (length (sv_consents s) <= MAX_CONSENTS)%nat;
  sok_owned : forall t, t ∈ sv_tokens s -> tk_client_id t ∈ map rc_client_id (sv_clients s);
  sok_disk : sv_disk s = Some (sv_clients s, sv_tokens s) \/ (sv_disk s = None /\ sv_clients s = [] /\ sv_tokens s = [])
}.

Lemma reach_snoc ops op : reach (ops ++ [op]) = oauth_step opts (reach ops) op.
Proof. unfold oauth_reach, oauth_run. by rewrite fold_left_app. Qed.

Lemma server_ok_restart s : server_ok s -> server_ok (load_server (sv_disk s)) /\
  sv_clients (load_server (sv_disk s)) = sv_clients s /\ sv_tokens (load_server (sv_disk s)) = sv_tokens s.
Proof.
  intros []. destruct sok_disk0 as [Hd|(Hd & Hc & Ht)]; rewrite Hd.
  - split_and!; [|done|done]. split; simpl; try done; [unfold MAX_CONSENTS; lia|by left].
  - rewrite Hc, Ht. split_and!; [|done|done]. split; simpl; try (unfold MAX_CLIENTS, MAX_TOKENS, MAX_CONSENTS; lia).
    + by intros t ?%elem_of_nil. 
    + by right.
Qed.

(** Persisting restores what it concerns. *)
Lemma server_ok_persist now s :
  (length (sv_clients s) <= MAX_CLIENTS)%nat -> (length (sv_consents s) <= MAX_CONSENTS)%nat ->
  (forall t, t ∈ sv_tokens s -> tk_client_id t ∈ map rc_client_id (sv_clients s)) ->
  server_ok (oauth_persist now s).
Proof.
  intros Hc Hn Ho. split; simpl; [done|apply live_tokens_bound|done| |by left].
  intros t [Ht _]%live_tokens_incl. by apply Ho.
Qed.

Lemma removeClient_owned gone i s :
  sv_clients s !! i = Some gone ->
  (forall t, t ∈ sv_tokens s -> tk_client_id t ∈ map rc_client_id (sv_clients s)) ->
  forall t, t ∈ sv_tokens (removeClient gone i s) -> tk_client_id t ∈ map rc_client_id (sv_clients (removeClient gone i s)).
Proof.
  intros Hi Ho t Ht. simpl in *. apply list_elem_of_In, filter_In in Ht as [Ht Hne]. bools.
  apply list_elem_of_In in Ht. specialize (Ho t Ht). apply list_elem_of_In, in_map_iff in Ho as (c & Hc & Hin).
  apply list_elem_of_In, in_map_iff. exists c. split; [done|].
  rewrite <- (take_drop_middle _ _ _ Hi) in Hin. apply in_app_iff in Hin. apply in_app_iff.
  destruct Hin as [?|[->|?]]; [by left|congruence|by right].
Qed.

Lemma removeClient_length gone i s :
  sv_clients s !! i = Some gone -> length (sv_clients (removeClient gone i s)) = pred (length (sv_clients s)).
Proof. intros Hi%lookup_lt_Some. simpl. rewrite length_app, length_take, length_drop. lia. Qed.

Lemma register_ok now fresh s body : server_ok s -> server_ok (fst (registerClient opts now fresh s body)).
Proof.
  intros Hs. destruct (snd (registerClient opts now fresh s body)) as [client|e] eqn:Hr.
  2:{ by rewrite (registerClient_Throw _ _ _ _ _ _ Hr). }
  apply registerClient_Ok in Hr as (uris & grants & s1 & _ & Hm & _ & _ & ->). destruct Hs.
  apply make_room_spec in Hm as [[-> Hlt]|(i & gone & -> & Hi & _)]; apply server_ok_persist; simpl; try done.
  - rewrite length_app. simpl. lia.
  - intros t Ht. rewrite map_app. apply elem_of_app. left. by apply sok_owned0.
  - pose proof (removeClient_length gone i s Hi) as Hl. simpl in Hl. rewrite length_app, Hl. simpl.
    apply lookup_lt_Some in Hi. lia.
  - intros t Ht. rewrite map_app. apply elem_of_app. left. by apply (removeClient_owned gone i s).
Qed.

Lemma beginConsent_bound now nonce s p : (length (sv_consents (beginConsent now nonce s p)) <= MAX_CONSENTS)%nat.
Proof. unfold beginConsent. simpl. rewrite length_drop. lia. Qed.

Lemma token_ok now f s form : server_ok s -> server_ok (fst (token now f s form)).
Proof.
  intros Hs. destruct (snd (token now f s form)) as [g|e] eqn:Hr.
  2:{ apply token_Throw in Hr as [->|(k & _ & ->)]; [done|]. by destruct Hs. }
  apply token_Ok in Hr as (_ & client & s1 & res & sc & Hin & _ & -> & Hc & Hn & _ & Hsrc). destruct Hs.
  assert (Hsub : forall t, t ∈ sv_tokens s1 -> t ∈ sv_tokens s).
  { destruct Hsrc as [(pc & _ & _ & _ & -> & _)|(i & t & _ & _ & _ & -> & _)]; [done|]. intros ?. apply elem_of_take_drop. }
  apply server_ok_persist; simpl; [by rewrite Hc|by rewrite Hn|].
  rewrite Hc. intros t [Ht|Ht]%elem_of_app; [by apply sok_owned0, Hsub|].
  assert (tk_client_id t = rc_client_id client) as ->.
  { repeat (apply elem_of_cons in Ht as [->|Ht]; [done|]). by apply elem_of_nil in Ht. }
  by apply list_elem_of_fmap_2.
Qed.

Lemma server_ok_step s op : server_ok s -> server_ok (oauth_step opts s op).
Proof.
  intros Hs. destruct op as [now fresh body|now nonce q|now fresh nonce password key|now f form|]; simpl.
  - by apply register_ok.
  - unfold authorize_get. destruct (validateAuthorizeRequest opts s q) as [[p|]|]; [|done|done]. destruct Hs.
    split; try done. apply beginConsent_bound.
  - destruct (completeConsent_keeps opts now fresh s nonce password key) as (Hc & Ht & Hd & _ & Hl & _). destruct Hs.
    split; rewrite ?Hc, ?Ht, ?Hd; try done. lia.
  - by apply token_ok.
  - by apply server_ok_restart.
Qed.

Lemma reach_ok ops : server_ok (reach ops).
Proof.
  induction ops as [|op ops IH] using rev_ind; [|rewrite reach_snoc; by apply server_ok_step].
  split; simpl; try (unfold MAX_CLIENTS, MAX_TOKENS, MAX_CONSENTS; lia); [by intros t ?%elem_of_nil|by right].
Qed.

(** ** Provenance *)

Lemma sourced_later ops op (s' := oauth_step opts (reach ops) op) :
  sourced ops ->
  (forall c, c ∈ sv_clients s' -> c ∈ sv_clients (reach ops) \/ registers c ops op) ->
  (forall n p u, (n, MkConsent p u) ∈ sv_consents s' -> (n, MkConsent p u) ∈ sv_consents (reach ops) \/ asks p ops op) ->
  (forall k pc, sv_codes s' !! k = Some pc -> sv_codes (reach ops) !! k = Some pc \/
     exists now p, pc = code_of opts now p /\ consents now k p ops op) ->
  (forall t, t ∈ sv_tokens s' -> (exists t', t' ∈ sv_tokens (reach ops) /\ tk_client_id t' = tk_client_id t) \/
     exchanges (tk_client_id t) ops op) ->
  sourced (ops ++ [op]).
Proof.
  intros [Hc Hn Hk Ht] Hc' Hn' Hk' Ht'. split; rewrite reach_snoc; fold s'.
  - intros c [Hin|He]%Hc'; [by apply happened_app, Hc|by apply happened_now].
  - intros n p u [Hin|He]%Hn'; [by eapply happened_app, Hn|by apply happened_now].
  - intros k pc [Hin|(now & p & -> & He)]%Hk'; [|by exists now, p; split; [|apply happened_now]].
    destruct (Hk k pc Hin) as (now & p & -> & He). exists now, p. split; [done|by apply happened_app].
  - intros t [(t' & Hin & <-)|He]%Ht'; [by apply happened_app, Ht|by apply happened_now].
Qed.

Lemma elem_of_set_consent nonce c l kv : kv ∈ set_consent nonce c l -> kv ∈ l \/ kv = (nonce, c).
Proof.
  unfold set_consent. case_match.
  - rewrite list_elem_of_fmap. intros ([k v] & -> & Hin). case_bool_decide; [by right|by left].
  - rewrite elem_of_app, list_elem_of_singleton. tauto.
Qed.

Lemma consents_after_begin now nonce s p kv :
  kv ∈ sv_consents (beginConsent now nonce s p) -> kv ∈ sv_consents s \/ kv = (nonce, MkConsent p (now + CONSENT_TTL_MS)).
Proof.
  unfold beginConsent. simpl. intros Hin%elem_of_drop_incl.
  apply list_elem_of_In, filter_In in Hin as [Hin _]. by apply elem_of_set_consent, list_elem_of_In.
Qed.

Lemma token_from now f s form t :
  snd (token now f s form) = Ok f -> t ∈ sv_tokens (fst (token now f s form)) ->
  (exists t', t' ∈ sv_tokens s /\ tk_client_id t' = tk_client_id t) \/
  exists pc, by_code now s form pc /\ pc_client_id pc = tk_client_id t.
Proof.
  intros (_ & client & s1 & res & sc & _ & _ & -> & _ & _ & _ & Hsrc)%token_Ok Ht.
  simpl in Ht. apply live_tokens_incl in Ht as [Ht _]. apply elem_of_app in Ht as [Ht|Ht].
  { left. exists t. split; [|done]. destruct Hsrc as [(pc & _ & _ & _ & <- & _)|(i & t' & _ & _ & _ & Hs1 & _)]; [done|].
    rewrite Hs1 in Ht. by apply elem_of_take_drop in Ht. }
  assert (tk_client_id t = rc_client_id client) as ->.
  { repeat (apply elem_of_cons in Ht as [->|Ht]; [done|]). by apply elem_of_nil in Ht. }
  destruct Hsrc as [(pc & Hpc & Hcl & _)|(i & t' & (_ & Hf & _) & Hcl & _)]; [right; by exists pc|left].
  exists t'. split; [|done]. apply list_find_Some in Hf as (Hl & _). by eapply list_elem_of_lookup_2.
Qed.

Lemma sourced_register ops now fresh body : sourced ops -> sourced (ops ++ [OpRegister now fresh body]).
Proof.
  intros Hs.
  destruct (snd (registerClient opts now fresh (reach ops) body)) as [client|e] eqn:Hr.
  2:{ apply sourced_later; [done|..]; simpl; rewrite (registerClient_Throw _ _ _ _ _ _ Hr); eauto. }
  pose proof (registerClient_Ok _ _ _ _ _ _ Hr) as (uris & grants & s1 & _ & Hm & _ & _ & Hst).
  assert (Hs1 : sv_consents s1 = sv_consents (reach ops) /\ sv_codes s1 = sv_codes (reach ops) /\
    (forall c, c ∈ sv_clients s1 -> c ∈ sv_clients (reach ops)) /\ (forall t, t ∈ sv_tokens s1 -> t ∈ sv_tokens (reach ops))).
  { apply make_room_spec in Hm as [[-> _]|(i & gone & -> & _)]; [done|]. simpl. split_and!; [done|done|intros ?; apply elem_of_take_drop|].
    intros t Ht. apply list_elem_of_In, filter_In in Ht as [Ht _]. by apply list_elem_of_In. }
  destruct Hs1 as (Hn1 & Hk1 & Hc1 & Ht1). apply sourced_later; [done|..]; simpl; rewrite Hst; simpl.
  + intros c [Hc|Hc%list_elem_of_singleton]%elem_of_app; [left; by apply Hc1|right]. subst c. by exists now, fresh, body.
  + rewrite Hn1. eauto.
  + rewrite Hk1. eauto.
  + intros t [Ht _]%live_tokens_incl. eauto.
Qed.

Lemma sourced_token ops now f form : sourced ops -> sourced (ops ++ [OpToken now f form]).
Proof.
  intros Hs.
  destruct (snd (token now f (reach ops) form)) as [g|e] eqn:Hr.
  + pose proof (token_Ok _ _ _ _ _ Hr) as (-> & client & s1 & res & sc & _ & _ & Hst & Hc1 & Hn1 & _ & Hsrc).
    apply sourced_later; [done|..]; simpl.
    * rewrite Hst. simpl. rewrite Hc1. eauto.
    * rewrite Hst. simpl. rewrite Hn1. eauto.
    * rewrite Hst. simpl. intros k pc Hk. left.
      destruct Hsrc as [(? & _ & _ & _ & _ & k' & _ & Hs1)|(? & ? & _ & _ & _ & _ & Hs1)]; rewrite Hs1 in Hk; [|done].
      by apply lookup_delete_Some in Hk as [_ ?].
    * intros t Ht. destruct (token_from _ _ _ _ _ Hr Ht) as [?|(pc & Hpc & Hcl)]; [by left|right].
      exists now, f, form, pc. done.
  + destruct (token_Throw _ _ _ _ _ Hr) as [Hst|(k' & _ & Hst)]; apply sourced_later; try done; simpl; rewrite Hst; simpl; eauto.
    intros k pc Hk. by apply lookup_delete_Some in Hk as [_ ?]; left.
Qed.

Lemma sourced_step ops op : sourced ops -> sourced (ops ++ [op]).
Proof.
  intros Hs. destruct op as [now fresh body|now nonce q|now fresh nonce password key|now f form|].
  - by apply sourced_register.
  - (* the authorization request *)
    apply sourced_later; [done|..]; simpl; unfold authorize_get;
      destruct (validateAuthorizeRequest opts (reach ops) q) as [[p|]|] eqn:Hv; eauto.
    intros n p' u [Hin|[= -> -> ->]]%consents_after_begin; [by left|right]. by exists now, nonce, q.
  - (* the consent *)
    destruct (completeConsent_keeps opts now fresh (reach ops) nonce password key) as (Hc & Ht & _ & Hn & _ & Hk).
    apply sourced_later; [done|..]; simpl; rewrite ?Hc, ?Ht; eauto.
    intros k pc Hpc. destruct (snd (completeConsent opts now fresh (reach ops) nonce password key)) as [u|e] eqn:Hr.
    2:{ left. by rewrite Hk in Hpc by done. }
    pose proof (completeConsent_Ok _ _ _ _ _ _ _ _ Hr) as (p & Hp & _ & Hcodes & _). rewrite Hcodes in Hpc.
    apply lookup_insert_Some in Hpc as [[<- <-]|[_ ?]]; [right|by left]. exists now, p. split; [done|].
    exists nonce, password, key. by rewrite Hr.
  - by apply sourced_token.
  - (* restart *)
    destruct (server_ok_restart (reach ops) (reach_ok ops)) as (_ & Hc & Ht).
    apply sourced_later; [done|..]; simpl; rewrite ?Hc, ?Ht; eauto; unfold load_server; repeat case_match; simpl.
    all: try (intros ? ? ? []%elem_of_nil). all: by intros ? ? ?%lookup_empty_Some.
Qed.

Lemma reach_sourced ops : sourced ops.
Proof.
  induction ops as [|op ops IH] using rev_ind; [|by apply sourced_step].
  split; simpl; intros *; first [by intros ?%elem_of_nil|by intros ?%lookup_empty_Some].
Qed.
End Reach.
