(* ===== verification/OAuthProperties.v ===== *)
(** * Properties of the authorization server

    Who obtains an access token, where a code travels, what can be used again,
    what registration may cost others and how many passwords can be tried. *)

From S2P Require Import Prelude Json IsoTime JsValues Identity ConnectorEdge OAuth OAuthSafety.
Import Ascii String.
Open Scope string_scope.
Open Scope Z_scope.

Section Properties.
Context `{Crypto} `{NodeCrypto} `{UrlApi}.
Context (opts : OAuthServerOptions).

(** ** Failures of the password *)

Definition failures_ok (s : OAuthServer) : Prop := map_Forall (fun _ e => 1 <= lf_count e) (sv_loginFailures s).

Definition is_consent_of (key : string) (op : oauth_op) : Prop :=
  exists now fresh nonce password, op = OpConsent now fresh nonce password key.

Lemma failures_other s op key :
  op <> OpRestart -> ~ is_consent_of key op ->
  sv_loginFailures (oauth_step opts s op) !! key = sv_loginFailures s !! key.
Proof.
  intros Hr Hk. destruct op as [now fresh body|now nonce q|now fresh nonce password key'|now f form|]; simpl; [..|done].
  - destruct (snd (registerClient opts now fresh s body)) as [c|e] eqn:E.
    + apply registerClient_Ok in E as (? & ? & s1 & _ & Hm & _ & _ & ->). simpl.
      by apply make_room_spec in Hm as [[-> _]|(? & ? & -> & _)].
    + by rewrite (registerClient_Throw _ _ _ _ _ _ E).
  - unfold authorize_get. by destruct (validateAuthorizeRequest opts s q) as [[]|].
  - assert (key' <> key) by (intros ->; apply Hk; unfold is_consent_of; eauto).
    assert (Ht : sv_loginFailures (fst (loginThrottled now s key')) !! key = sv_loginFailures s !! key).
    { unfold loginThrottled. repeat case_match; try done. simpl. by rewrite lookup_delete_ne. }
    unfold completeConsent. destruct (loginThrottled now s key') as [s1 thr]. simpl in Ht. rewrite <- Ht.
    unfold count_failure. repeat (case_match; simpl; rewrite ?lookup_insert_ne, ?lookup_delete_ne by done; try done).
  - destruct (snd (token now f s form)) as [g|e] eqn:E.
    + apply token_Ok in E as (_ & ? & s1 & ? & ? & _ & _ & -> & _ & _ & Hf & _). simpl. by rewrite Hf.
    + by apply token_Throw in E as [->|(? & _ & ->)].
Qed.

(** Whether an answer to the consent form is refused for its password. *)
Definition refused_password (key : string) (s : OAuthServer) (op : oauth_op) : bool :=
  match op with
  | OpConsent now fresh nonce password k =>
      (k ==? key) && match snd (completeConsent opts now fresh s nonce password k) with
                     | Throw (code, _) => code =? 401
                     | Ok _ => false
                     end
  | _ => false
  end.

(** The passwords of an address that a run refuses. *)
Fixpoint refused_passwords (key : string) (s : OAuthServer) (ops : list oauth_op) : Z :=
  match ops with
  | [] => 0
  | op :: ops => (if refused_password key s op then 1 else 0) + refused_passwords key (oauth_step opts s op) ops
  end.

(** The address answers in one window, never with success; the process runs on. *)
Fixpoint guessing (key : string) (t : Z) (s : OAuthServer) (ops : list oauth_op) : Prop :=
  match ops with
  | [] => True
  | op :: ops =>
      match op with
      | OpRestart => False
      | OpConsent now fresh nonce password k =>
          k = key -> t <= now <= t + LOGIN_WINDOW_MS /\ is_ok (snd (completeConsent opts now fresh s nonce password k)) = false
      | _ => True
      end /\ guessing key t (oauth_step opts s op) ops
  end.

(** How many more the window starting at [t] can see refused. *)
Definition left_after (t : Z) (e : option LoginFailure) : Z :=
  match e with
  | None => LOGIN_MAX_FAILURES
  | Some e => Z.max 0 (LOGIN_MAX_FAILURES - lf_count e) + (if t <=? lf_windowStart e then 0 else LOGIN_MAX_FAILURES)
  end.

Lemma left_after_consent key t s now fresh nonce password :
  t <= now <= t + LOGIN_WINDOW_MS ->
  is_ok (snd (completeConsent opts now fresh s nonce password key)) = false ->
  (if refused_password key s (OpConsent now fresh nonce password key) then 1 else 0) +
    left_after t (sv_loginFailures (oauth_step opts s (OpConsent now fresh nonce password key)) !! key)
  <= left_after t (sv_loginFailures s !! key).
Proof.
  intros Ht Hok. unfold refused_password. rewrite bool_decide_eq_true_2 by done. simpl. revert Hok.
  unfold completeConsent, loginThrottled. destruct (sv_loginFailures s !! key) as [e|] eqn:He.
  - destruct (LOGIN_WINDOW_MS <? now - lf_windowStart e) eqn:Hw; bools.
    + assert (Hlt : (t <=? lf_windowStart e) = false) by (apply Z.leb_gt; lia).
      destruct (pending_consent _ nonce) as [[n c]|]; [destruct (pn_expires_at c <=? now); [|destruct (negb _)]|];
        simpl; try done; unfold count_failure; simpl;
        rewrite ?lookup_delete_eq, ?lookup_insert_eq; simpl; rewrite ?Hlt; intros _;
        unfold LOGIN_MAX_FAILURES in *; repeat case_match; lia.
    + destruct (LOGIN_MAX_FAILURES <=? lf_count e) eqn:Hc; [intros _; simpl; rewrite He; simpl; lia|].
      destruct (pending_consent _ nonce) as [[n c]|]; [destruct (pn_expires_at c <=? now); [|destruct (negb _)]|];
        simpl; try done; unfold count_failure; rewrite ?He; intros _; try (simpl; lia).
      rewrite (proj2 (Z.ltb_ge _ _) Hw), lookup_insert_eq. simpl. bools.
      unfold LOGIN_MAX_FAILURES in *; case_match; lia.
  - destruct (pending_consent _ nonce) as [[n c]|]; [destruct (pn_expires_at c <=? now); [|destruct (negb _)]|];
      simpl; try done; unfold count_failure; rewrite ?He; intros _; try (simpl; lia).
    rewrite lookup_insert_eq. simpl. rewrite (proj2 (Z.leb_le t now)) by lia. unfold LOGIN_MAX_FAILURES. lia.
Qed.

Lemma refused_passwords_le key t ops : forall s,
  guessing key t s ops -> refused_passwords key s ops <= left_after t (sv_loginFailures s !! key).
Proof.
  induction ops as [|op ops IH]; intros s Hg; cbn [refused_passwords].
  { unfold left_after, LOGIN_MAX_FAILURES. repeat case_match; lia. }
  destruct Hg as [Hop Hg]. specialize (IH _ Hg).
  assert (Hdec : is_consent_of key op \/ ~ is_consent_of key op).
  { destruct op as [| |now fresh nonce password k| |]; try (right; intros (? & ? & ? & ? & ?); done).
    destruct (decide (k = key)) as [->|]; [left; by exists now, fresh, nonce, password|].
    right. intros (? & ? & ? & ? & [= ]). done. }
  destruct Hdec as [(now & fresh & nonce & password & ->)|Hno].
  - destruct (Hop eq_refl) as [Ht Hok]. pose proof (left_after_consent key t s now fresh nonce password Ht Hok). lia.
  - rewrite failures_other in IH; [|by intros ->|done].
    assert (refused_password key s op = false) as ->; [|lia].
    destruct op as [| |? ? ? ? k| |]; try done. unfold refused_password. rewrite bool_decide_eq_false_2; [done|].
    intros ->. apply Hno. unfold is_consent_of. eauto.
Qed.

Lemma failures_ok_reach ops : failures_ok (oauth_reach opts ops).
Proof.
  induction ops as [|op ops IH] using rev_ind; [apply map_Forall_empty|].
  rewrite reach_snoc. set (s := oauth_reach opts ops) in *.
  assert (Hr : op = OpRestart \/ op <> OpRestart) by (destruct op; [right..|left]; done). destruct Hr as [->|Hr].
  { simpl. unfold failures_ok, load_server. repeat case_match; apply map_Forall_empty. }
  intros key e He. destruct op as [| |now fresh nonce password key'| |]; [..|done];
    try (rewrite failures_other in He by (try done; intros (? & ? & ? & ? & ?); done); by apply (IH key)).
  destruct (decide (key' = key)) as [->|].
  2:{ rewrite failures_other in He by (try done; intros (? & ? & ? & ? & [= ]); done). by apply (IH key). }
  revert He. simpl. unfold completeConsent.
  assert (Hs1 : failures_ok (fst (loginThrottled now s key))).
  { unfold loginThrottled. repeat case_match; try done. by apply map_Forall_delete. }
  destruct (loginThrottled now s key) as [s1 thr]. simpl in Hs1.
  destruct thr; [by apply Hs1|].
  destruct (pending_consent s1 nonce) as [[n c]|]; [|by apply Hs1].
  destruct (pn_expires_at c <=? now); [by apply Hs1|]. destruct (negb _); simpl.
  - unfold count_failure. destruct (sv_loginFailures s1 !! key) as [e'|] eqn:He'.
    + pose proof (Hs1 key e' He') as Hle. simpl in Hle. destruct (LOGIN_WINDOW_MS <? now - lf_windowStart e');
        rewrite lookup_insert_eq; intros [= <-]; simpl; lia.
    + rewrite lookup_insert_eq; intros [= <-]; simpl; lia.
  - rewrite lookup_delete_eq. done.
Qed.

(** ** What is used once *)

(** The refresh tokens a run mints, by digest. *)
Definition minted_refresh (ops : list oauth_op) : list string :=
  omap (fun op => match op with OpToken _ f _ => Some (node_sha256 (fr_refresh f)) | _ => None end) ops.

Definition refresh_hashes (s : OAuthServer) : list string :=
  map tk_hash (List.filter (fun t => tk_kind t ==? RefreshToken) (sv_tokens s)).

Lemma refresh_hashes_app ts ts' s :
  refresh_hashes (with_tokens (ts ++ ts') s) = (refresh_hashes (with_tokens ts s) ++ refresh_hashes (with_tokens ts' s))%list.
Proof. unfold refresh_hashes. simpl. by rewrite List.filter_app, map_app. Qed.

Lemma live_tokens_sublist now ts : sublist (live_tokens now ts) ts.
Proof. unfold live_tokens. etrans; [apply sublist_drop|apply filter_sublist]. Qed.

(** An operation forgets refresh tokens, and adds at most the one it mints. *)
Lemma refresh_hashes_step s op :
  server_ok s ->
  sublist (refresh_hashes (oauth_step opts s op)) (refresh_hashes s ++ minted_refresh [op])%list.
Proof.
  intros Hs. assert (Hsame : forall s', sv_tokens s' = sv_tokens s -> sublist (refresh_hashes s') (refresh_hashes s ++ minted_refresh [op])%list).
  { intros s' Hs'. unfold refresh_hashes. rewrite Hs'. by apply sublist_inserts_r. }
  destruct op as [now fresh body|now nonce q|now fresh nonce password key|now f form|]; simpl.
  - destruct (snd (registerClient opts now fresh s body)) as [c|e] eqn:E.
    2:{ apply Hsame. by rewrite (registerClient_Throw _ _ _ _ _ _ E). }
    apply registerClient_Ok in E as (? & ? & s1 & _ & Hm & _ & _ & ->). apply sublist_inserts_r.
    unfold refresh_hashes. simpl. apply sublist_map, sublist_filter. etrans; [apply live_tokens_sublist|].
    apply make_room_spec in Hm as [[-> _]|(? & ? & -> & _)]; [done|]. simpl. apply filter_sublist.
  - apply Hsame. unfold authorize_get. by destruct (validateAuthorizeRequest opts s q) as [[]|].
  - apply Hsame. by destruct (completeConsent_keeps opts now fresh s nonce password key) as (_ & ? & _).
  - destruct (snd (token now f s form)) as [g|e] eqn:E.
    2:{ apply Hsame. by apply token_Throw in E as [->|(? & _ & ->)]. }
    apply token_Ok in E as (_ & ? & s1 & ? & ? & _ & _ & -> & _ & _ & _ & Hsrc). unfold refresh_hashes at 1. simpl.
    etrans; [apply sublist_map, sublist_filter, live_tokens_sublist|]. rewrite List.filter_app, map_app. simpl.
    apply sublist_app; [|done]. apply sublist_map, sublist_filter.
    destruct Hsrc as [(? & _ & _ & _ & -> & _)|(i & ? & _ & _ & _ & -> & _)]; [done|].
    rewrite <- (take_drop i (sv_tokens s)) at 3. apply sublist_app; [done|].
    rewrite <- Nat.add_1_r, <- drop_drop. apply sublist_drop.
  - apply Hsame. by apply server_ok_restart.
Qed.

(** A refresh token a request spends is gone, when no other has its digest. *)
Lemma spent_refresh now s f form g presented :
  NoDup (refresh_hashes s ++ [node_sha256 (fr_refresh f)])%list ->
  snd (token now f s form) = Ok g -> tf_grant_type form = Some "refresh_token" ->
  default "" (tf_refresh_token form) = presented ->
  node_sha256 presented ∈ refresh_hashes s /\ node_sha256 presented ∉ refresh_hashes (fst (token now f s form)).
Proof.
  intros Hnd (_ & c & s1 & res & sc & _ & _ & -> & _ & _ & _ & Hsrc)%token_Ok Hg Hp.
  destruct Hsrc as [(pc & (k & Hg' & _) & _)|(i & t & (_ & Hf & _) & _ & _ & Hs1 & _)]; [congruence|].
  apply list_find_Some in Hf as (Hl & [Hk Hh] & _). rewrite Hp in Hh.
  assert (Hsplit : refresh_hashes s = (refresh_hashes (with_tokens (take i (sv_tokens s)) s) ++
    node_sha256 presented :: refresh_hashes (with_tokens (drop (S i) (sv_tokens s)) s))%list).
  { unfold refresh_hashes at 1. rewrite <- (take_drop_middle _ _ _ Hl) at 1. rewrite List.filter_app, map_app. simpl.
    rewrite bool_decide_eq_true_2 by done. simpl. by rewrite Hh. }
  split; [rewrite Hsplit; apply elem_of_app; right; by left|].
  intros Hin. unfold refresh_hashes at 1 in Hin. simpl in Hin.
  apply (sublist_subseteq _ _ (sublist_map _ _ _ (sublist_filter _ _ _ (live_tokens_sublist _ _)))) in Hin.
  rewrite Hs1, !List.filter_app, !map_app in Hin. simpl in Hin. rewrite Hsplit in Hnd.
  unfold refresh_hashes in Hnd. simpl in Hnd. rewrite <- app_assoc in Hnd. simpl in Hnd.
  apply NoDup_app in Hnd as (_ & Hd & Hn). apply NoDup_cons in Hn as [Hn _].
  rewrite !elem_of_app in Hin. rewrite elem_of_app in Hn. destruct Hin as [[Hin|Hin]|Hin].
  - apply (Hd _ Hin). by left.
  - apply Hn. by left.
  - apply Hn. by right.
Qed.

Lemma elem_of_hashes s presented :
  node_sha256 presented ∉ refresh_hashes s -> list_find (is_refresh_token presented) (sv_tokens s) = None.
Proof.
  intros Hn. apply list_find_None, Forall_forall. intros t Ht [Hk Hh]. apply Hn. rewrite <- Hh.
  apply list_elem_of_fmap_2, list_elem_of_In, filter_In. split; [by apply list_elem_of_In|by apply bool_decide_eq_true].
Qed.

Lemma refresh_hashes_run ops : forall s,
  server_ok s -> sublist (refresh_hashes (oauth_run opts s ops)) (refresh_hashes s ++ minted_refresh ops)%list.
Proof.
  induction ops as [|op ops IH]; intros s Hs; [by apply sublist_inserts_r|].
  etrans; [apply (IH (oauth_step opts s op)), server_ok_step, Hs|].
  change (minted_refresh (op :: ops)) with (minted_refresh ([op] ++ ops)%list). unfold minted_refresh. rewrite omap_app, app_assoc.
  apply sublist_app; [|done]. by apply refresh_hashes_step.
Qed.

(** A code, once asked for, is gone until it is drawn again. *)
Lemma code_gone k ops : forall s,
  sv_codes s !! k = None -> (forall now nonce password key, OpConsent now k nonce password key ∉ ops) ->
  sv_codes (oauth_run opts s ops) !! k = None.
Proof.
  induction ops as [|op ops IH]; intros s Hk Hno; [done|].
  apply (IH (oauth_step opts s op)); [|intros now nonce password key Hin; apply (Hno now nonce password key); by right].
  destruct op as [now fresh body|now nonce q|now fresh nonce password key|now f form|]; simpl.
  - destruct (snd (registerClient opts now fresh s body)) as [c|e] eqn:E.
    2:{ by rewrite (registerClient_Throw _ _ _ _ _ _ E). }
    apply registerClient_Ok in E as (? & ? & s1 & _ & Hm & _ & _ & ->). simpl.
    by apply make_room_spec in Hm as [[-> _]|(? & ? & -> & _)].
  - unfold authorize_get. by destruct (validateAuthorizeRequest opts s q) as [[]|].
  - assert (fresh <> k) by (intros ->; eapply Hno; by left).
    destruct (snd (completeConsent opts now fresh s nonce password key)) as [u|e] eqn:E.
    + apply completeConsent_Ok in E as (p & _ & _ & -> & _). by rewrite lookup_insert_ne.
    + destruct (completeConsent_keeps opts now fresh s nonce password key) as (_ & _ & _ & _ & _ & ->); [done|by rewrite E].
  - destruct (snd (token now f s form)) as [g|e] eqn:E.
    + apply token_Ok in E as (_ & ? & s1 & ? & ? & _ & _ & -> & _ & _ & _ & Hsrc). simpl.
      destruct Hsrc as [(? & _ & _ & _ & _ & k' & _ & ->)|(? & ? & _ & _ & _ & _ & ->)]; [|done].
      apply lookup_delete_None. by right.
    + apply token_Throw in E as [->|(k' & _ & ->)]; [done|]. simpl. apply lookup_delete_None. by right.
  - unfold load_server. repeat case_match; apply lookup_empty.
Qed.

Lemma asked_code_gone now f s form k client :
  tf_grant_type form = Some "authorization_code" -> tf_code form = Some k -> k <> "" ->
  (c ← truthy (tf_client_id form); getClient s c) = Some client ->
  sv_codes (fst (token now f s form)) !! k = None.
Proof.
  intros Hg Hk Hne Hc. unfold token.
  replace (match truthy (tf_client_id form) with Some c => getClient s c | None => None end) with (Some client)
    by (rewrite <- Hc; by destruct (truthy (tf_client_id form))).
  rewrite bool_decide_eq_true_2 by done. rewrite (proj2 (truthy_Some (tf_code form) k)) by done.
  destruct (check_code _ _ _ _); simpl; apply lookup_delete_eq.
Qed.

Lemma no_code_throws now f s form k :
  tf_grant_type form = Some "authorization_code" -> tf_code form = Some k -> sv_codes s !! k = None ->
  exists e, snd (token now f s form) = Throw e.
Proof.
  intros Hg Hk Hn. destruct (snd (token now f s form)) as [g|e] eqn:E; [|by exists e].
  apply token_Ok in E as (_ & ? & ? & ? & ? & _ & _ & _ & _ & _ & _ & [(pc & (k' & _ & Hk' & Hl & _) & _)|(? & ? & (Hg' & _) & _)]);
    congruence.
Qed.

Lemma no_refresh_throws now f s form presented :
  tf_grant_type form = Some "refresh_token" -> default "" (tf_refresh_token form) = presented ->
  node_sha256 presented ∉ refresh_hashes s -> exists e, snd (token now f s form) = Throw e.
Proof.
  intros Hg Hp Hn. destruct (snd (token now f s form)) as [g|e] eqn:E; [|by exists e].
  apply token_Ok in E as (_ & ? & ? & ? & ? & _ & _ & _ & _ & _ & _ & [(pc & (k' & Hg' & _) & _)|(? & ? & (_ & Hf & _) & _)]);
    [congruence|]. by rewrite Hp, (elem_of_hashes _ _ Hn) in Hf.
Qed.

Lemma oauth_run_app s ops ops' : oauth_run opts s (ops ++ ops') = oauth_run opts (oauth_run opts s ops) ops'.
Proof. apply fold_left_app. Qed.

Lemma reach_split before op after :
  oauth_reach opts (before ++ op :: after) = oauth_run opts (oauth_step opts (oauth_reach opts before) op) after.
Proof. unfold oauth_reach. by rewrite oauth_run_app. Qed.

Lemma minted_refresh_app ops ops' : minted_refresh (ops ++ ops') = (minted_refresh ops ++ minted_refresh ops')%list.
Proof. apply omap_app. Qed.

(** ** The theorems *)

(** C27. Whatever requests the authorization server has answered since it started
    empty, restarts included, an access token it accepts for a client goes back to
    a consent: the operator's password was given on the consent page of an
    authorization request of that very client, the code drawn then was exchanged
    within ten minutes, and whoever exchanged it knew a verifier whose digest is
    the challenge of that request. A token obtained by refreshing goes back to the
    same exchange. The client is still registered. *)
Theorem access_requires_consent ops t now c :
  verifyAccessToken opts now (oauth_reach opts ops) t = Ok c ->
  (exists o1 now1 code nonce pw key p o2 now2 f form o3,
     ops = (o1 ++ OpConsent now1 code nonce (Some pw) key :: o2 ++ OpToken now2 f form :: o3)%list /\
     constantTimeEqual node_sha256 pw (oo_password opts) = true /\
     is_ok (snd (completeConsent opts now1 code (oauth_reach opts o1) nonce (Some pw) key)) = true /\
     (exists n until, nonce = Some n /\ (n, MkConsent p until) ∈ sv_consents (oauth_reach opts o1) /\ now1 < until) /\
     happened (asks opts p) o1 /\
     ap_client_id p = c /\ tf_code form = Some code /\ now2 < now1 + CODE_TTL_MS /\
     pkce_ok (default "" (tf_code_verifier form)) (ap_code_challenge p) = true) /\
  c ∈ map rc_client_id (sv_clients (oauth_reach opts ops)).
Proof.
  unfold verifyAccessToken. intros Hv. inv_ok Hv. apply select_one_Some in E as [Hin _].
  split; [|by apply reach_ok].
  destruct (reach_sourced opts ops) as [_ _ _ Ht].
  destruct (Ht _ Hin) as (o & op & o3 & -> & now2 & f & form & pc & -> & _ & (code & _ & Hcode & Hl & Hexp & Hp & _) & Hc).
  destruct (src_codes _ _ (reach_sourced opts o) _ _ Hl) as (now1 & p & -> & o1 & op & o2 & -> & nonce & pw & key & -> & Hok & Hcons).
  destruct Hcons as (n & until & pw' & -> & Hn & Hu & -> & Heq).
  exists o1, now1, code, (Some n), pw', key, p, o2, now2, f, form, o3. split_and!; try done.
  - by rewrite <- app_assoc.
  - by exists n, until.
  - exact (src_consents _ _ (reach_sourced opts o1) _ _ _ Hn).
Qed.

(** A code only travels to a redirect uri its client registered: when the
    consent succeeds, the location the browser is sent to is built on a uri of a
    registration that succeeded for the client of the request, and that uri passed
    [validateRedirectUri]; the location carries the code, the state of the request
    and the issuer. *)
Theorem code_goes_to_registered_uri ops now code nonce password key u :
  snd (completeConsent opts now code (oauth_reach opts ops) nonce password key) = Ok u ->
  exists p client, u = redirect_of opts code p /\ happened (asks opts p) ops /\
    happened (registers opts client) ops /\ ap_client_id p = rc_client_id client /\
    ap_redirect_uri p ∈ rc_redirect_uris client /\ validateRedirectUri opts (ap_redirect_uri p) = None.
Proof.
  intros (p & (n & until & pw & _ & Hn & _) & -> & _)%completeConsent_Ok.
  pose proof (src_consents _ _ (reach_sourced opts ops) _ _ _ Hn) as Hasks. pose proof Hasks as Hasks'.
  destruct Hasks as (o & op & o' & -> & now0 & nonce0 & q & -> & Hv).
  unfold validateAuthorizeRequest in Hv.
  destruct (match truthy (aq_client_id q) with Some _ => _ | None => _ end) as [client|] eqn:Hc; [|done].
  destruct (match truthy (aq_redirect_uri q) with Some _ => _ | None => _ end) as [uri|]; [|done].
  destruct (bool_decide_reflect (uri ∈ rc_redirect_uris client)) as [Huri|]; [|done]. simpl in Hv.
  assert (Hp : ap_client_id p = rc_client_id client /\ ap_redirect_uri p = uri).
  { inv_ok Hv; done. }
  destruct Hp as [Hpc Hpu]. exists p, client. rewrite Hpu.
  assert (Hreg : happened (registers opts client) o).
  { apply (src_clients _ _ (reach_sourced opts o)). destruct (truthy (aq_client_id q)); [|done].
    by apply select_one_Some in Hc as [? _]. }
  split_and!; try done.
  - by apply happened_app.
  - destruct Hreg as (a & op & a' & _ & now1 & fresh & body & _ & Hr).
    apply registerClient_Ok in Hr as (uris & grants & s1 & Hr & _ & _ & Hu & _).
    apply registration_uris in Hr as [_ Hall]. apply Hall. by rewrite <- Hu.
Qed.

(** Registration, which anybody may ask for, never costs an established client
    anything. In every state the server reaches, a client that holds a refresh
    token which has not expired keeps its registration and every token of its that
    has not expired; a refused registration changes nothing; a valid one is refused
    only when all of the 32 places are held by such clients; and whoever loses its
    place loses its tokens with it. *)
Theorem registration_keeps_established ops now fresh body :
  let s := oauth_reach opts ops in
  let '(s', r) := registerClient opts now fresh s body in
  (forall c, c ∈ sv_clients s -> hasLiveRefreshToken now s (rc_client_id c) = true ->
     c ∈ sv_clients s' /\
     forall t, t ∈ sv_tokens s -> tk_client_id t = rc_client_id c -> now < tk_expires_at t -> t ∈ sv_tokens s') /\
  (forall e, r = Throw e -> s' = s /\
     ((exists e', registration opts body = Throw e' /\ e = e') \/
      (e = (429, "too_many_clients") /\ length (sv_clients s) = MAX_CLIENTS /\
       forall c, c ∈ sv_clients s -> hasLiveRefreshToken now s (rc_client_id c) = true))) /\
  (forall client, r = Ok client -> client ∈ sv_clients s' /\
     forall t, t ∈ sv_tokens s' -> tk_client_id t ∈ map rc_client_id (sv_clients s')).
Proof.
  cbv zeta. set (s := oauth_reach opts ops). pose proof (reach_ok opts ops) as Hs. fold s in Hs.
  pose proof (register_ok opts now fresh s body Hs) as Hs'.
  destruct (registerClient opts now fresh s body) as [s' r] eqn:Hr. simpl in Hs'. unfold registerClient in Hr.
  destruct (registration opts body) as [[uris grants]|e] eqn:Hreg.
  2:{ injection Hr as <- <-. split_and!; [done| |done]. intros e' [= <-]. split; [done|]. left. by exists e. }
  destruct (make_room now s) as [s1|] eqn:Hm; injection Hr as <- <-.
  - split_and!; [|done|].
    2:{ intros client [= <-]. split; [simpl; apply elem_of_app; right; by left|]. apply Hs'. }
    apply make_room_spec in Hm as [[-> _]|(i & gone & -> & Hi & Hno)]; intros c Hc Hlive.
    + split; [simpl; apply elem_of_app; by left|]. intros t Ht _ He. apply live_tokens_all; [apply Hs|done|done].
    + assert (Hne : rc_client_id c <> rc_client_id gone) by (intros Heq; by rewrite Heq, Hno in Hlive).
      split.
      * simpl. apply elem_of_app. left. rewrite <- (take_drop_middle _ _ _ Hi) in Hc.
        apply elem_of_app in Hc. apply elem_of_app. destruct Hc as [Hc|Hc]; [by left|right].
        by apply elem_of_cons in Hc as [->|Hc].
      * intros t Ht Heq He. apply live_tokens_all; simpl; [|  |done].
        { etrans; [apply List.filter_length_le|apply Hs]. }
        apply list_elem_of_In, filter_In. split; [by apply list_elem_of_In|]. apply negb_true_iff, bool_decide_eq_false. congruence.
  - split_and!; [done| |done]. intros e [= <-]. split; [done|]. right. unfold make_room in Hm.
    destruct (Nat.ltb_spec (length (sv_clients s)) MAX_CLIENTS) as [|Hge]; [done|].
    destruct (list_find _ _) as [[i gone]|] eqn:Hf; [done|]. apply list_find_None in Hf. rewrite Forall_forall in Hf.
    split_and!; [done|pose proof (sok_clients _ Hs); lia|]. intros c Hc. apply not_false_is_true, Hf, Hc.
Qed.

(** C28. Codes and refresh tokens are used once. After a request of a registered
    client that presents a code, whatever its outcome, no later request obtains
    tokens for that code, unless the server draws the very same code again. And no
    refresh token is used twice: when the refresh tokens a run mints have different
    digests, a request that presents one which an earlier request used is refused. *)
Theorem codes_and_refresh_tokens_single_use before now1 f1 form1 between now2 f2 form2 :
  let s1 := oauth_reach opts before in
  let s2 := oauth_reach opts (before ++ OpToken now1 f1 form1 :: between) in
  (forall k client, k <> "" -> tf_code form1 = Some k -> tf_code form2 = Some k ->
     tf_grant_type form1 = Some "authorization_code" -> tf_grant_type form2 = Some "authorization_code" ->
     (c ← truthy (tf_client_id form1); getClient s1 c) = Some client ->
     (forall now nonce password key, OpConsent now k nonce password key ∉ between) ->
     exists e, snd (token now2 f2 s2 form2) = Throw e) /\
  (NoDup (minted_refresh (before ++ OpToken now1 f1 form1 :: between)) ->
   default "" (tf_refresh_token form1) = default "" (tf_refresh_token form2) ->
   tf_grant_type form1 = Some "refresh_token" -> tf_grant_type form2 = Some "refresh_token" ->
   is_ok (snd (token now1 f1 s1 form1)) = true ->
   exists e, snd (token now2 f2 s2 form2) = Throw e).
Proof.
  cbv zeta. rewrite reach_split. simpl. split.
  - intros k client Hne Hk1 Hk2 Hg1 Hg2 Hc Hno. apply (no_code_throws _ _ _ _ k); [done|done|].
    apply code_gone; [|done]. by eapply asked_code_gone.
  - intros Hnd Heq Hg1 Hg2 Hok. apply (no_refresh_throws _ _ _ _ _ Hg2 eq_refl). rewrite <- Heq.
    destruct (snd (token now1 f1 (oauth_reach opts before) form1)) as [g|] eqn:E; [|done]. clear Hok.
    pose proof (reach_ok opts before) as Hs1.
    assert (Hb : sublist (refresh_hashes (oauth_reach opts before)) (minted_refresh before))
      by exact (refresh_hashes_run before (load_server None) (reach_ok opts [])).
    change (OpToken now1 f1 form1 :: between) with ([OpToken now1 f1 form1] ++ between)%list in Hnd.
    rewrite !minted_refresh_app in Hnd. simpl in Hnd.
    assert (Hnd1 : NoDup (refresh_hashes (oauth_reach opts before) ++ [node_sha256 (fr_refresh f1)])%list).
    { eapply (sublist_NoDup _ (minted_refresh before ++ [node_sha256 (fr_refresh f1)])); [|by apply sublist_app].
      change (?x :: minted_refresh between) with ([x] ++ minted_refresh between)%list in Hnd. rewrite app_assoc in Hnd.
      by apply NoDup_app in Hnd as [? _]. }
    destruct (spent_refresh _ _ _ _ _ _ Hnd1 E Hg1 eq_refl) as [Hin Hout].
    intros Hback. apply (sublist_subseteq _ _ (refresh_hashes_run between _ (token_ok now1 f1 _ form1 Hs1))) in Hback.
    apply elem_of_app in Hback as [?|Hback]; [done|]. apply (sublist_subseteq _ _ Hb) in Hin.
    apply NoDup_app in Hnd as (_ & Hd & _). apply (Hd _ Hin). by right.
Qed.

(** The operator's password cannot be searched for. In any fifteen minutes of
    any history of a running server, at most nine answers of one address to the
    consent form are refused for their password (five of one window, four of the
    next), as long as none succeeds. And an address with five refused answers in
    an open window is refused whatever it answers, the right password included. *)
Theorem password_guesses_bounded ops key t ops' :
  guessing key t (oauth_reach opts ops) ops' ->
  refused_passwords key (oauth_reach opts ops) ops' <= 9 /\
  (forall s e now fresh nonce password, sv_loginFailures s !! key = Some e -> LOGIN_MAX_FAILURES <= lf_count e ->
     now - lf_windowStart e <= LOGIN_WINDOW_MS ->
     completeConsent opts now fresh s nonce password key = (s, Throw (429, "slow_down"))).
Proof.
  intros Hg. split.
  - pose proof (refused_passwords_le key t ops' _ Hg) as Hle. pose proof (failures_ok_reach ops) as Hf.
    unfold left_after in Hle. destruct (sv_loginFailures _ !! key) as [e|] eqn:He; [|unfold LOGIN_MAX_FAILURES in *; lia].
    specialize (Hf key e He). simpl in Hf. unfold LOGIN_MAX_FAILURES in *. case_match; lia.
  - intros s e now fresh nonce password He Hc Hw. unfold completeConsent, loginThrottled. rewrite He.
    rewrite (proj2 (Z.ltb_ge _ _) Hw), (proj2 (Z.leb_le _ _) Hc). done.
Qed.
End Properties.

(** ** Witnesses *)

(** Urls that are what they say, for the witnesses. *)
Definition toy_urls : UrlApi := {|
  url_parse := fun u => Some (MkUrl "https:" u u "");
  url_add := fun u ps => fold_left (fun acc kv => acc +:+ "&" +:+ fst kv +:+ "=" +:+ snd kv) ps u
|}.

Definition demo_oauth : OAuthServerOptions := MkOAuthOptions "https://ekho.test" "/mcp" "pw" [].

Local Existing Instance toy_crypto.
Local Existing Instance toy_node.
Local Existing Instance toy_urls.

Definition demo_verifier : string := "0123456789012345678901234567890123456789012".
Definition demo_registration : json := JObj [("redirect_uris", JArr [JStr "https://app/cb"])].
Definition demo_query (c : string) : AuthorizeQuery :=
  MkQuery (Some c) None (Some "code") (Some demo_verifier) (Some "S256") None None None.
Definition demo_exchange (c code : string) : TokenForm :=
  MkTokenForm (Some "authorization_code") (Some c) (Some code) None (Some demo_verifier) None None.
Definition demo_refresh (c tok : string) : TokenForm :=
  MkTokenForm (Some "refresh_token") (Some c) None None None (Some tok) None.

(** A client registers, asks, is consented to and exchanges its code. *)
Definition demo_login (now : Z) (c : string) : list oauth_op :=
  [OpRegister now c demo_registration; OpAuthorize now ("n" +:+ c) (demo_query c);
   OpConsent now ("ac" +:+ c) (Some ("n" +:+ c)) (Some "pw") "10.0.0.1";
   OpToken now (MkFresh ("at" +:+ c) ("rt" +:+ c)) (demo_exchange c ("ac" +:+ c))].

Lemma access_requires_consent_witness :
  verifyAccessToken demo_oauth 2000 (oauth_reach demo_oauth (demo_login 1000 "a" ++ [OpRestart])) "ata" = Ok "a" /\
  "a" ∈ map rc_client_id (sv_clients (oauth_reach demo_oauth (demo_login 1000 "a" ++ [OpRestart]))).
Proof.
  assert (Hv : verifyAccessToken demo_oauth 2000 (oauth_reach demo_oauth (demo_login 1000 "a" ++ [OpRestart])) "ata" = Ok "a")
    by (vm_compute; reflexivity).
  split; [exact Hv|]. exact (proj2 (access_requires_consent demo_oauth (demo_login 1000 "a" ++ [OpRestart]) "ata" 2000 "a" Hv)).
Defined.

Lemma code_goes_to_registered_uri_witness :
  exists p, "https://app/cb&code=x&iss=https://ekho.test" = redirect_of demo_oauth "x" p /\ ap_client_id p = "a".
Proof.
  assert (Hc : snd (completeConsent demo_oauth 1000 "x" (oauth_reach demo_oauth (take 2 (demo_login 1000 "a")))
                      (Some "na") (Some "pw") "10.0.0.1") = Ok "https://app/cb&code=x&iss=https://ekho.test")
    by (vm_compute; reflexivity).
  destruct (code_goes_to_registered_uri demo_oauth (take 2 (demo_login 1000 "a")) 1000 "x" (Some "na") (Some "pw") "10.0.0.1" _ Hc)
    as (p & client & Hu & Ha & Hr & Hid & _).
  exists p. split; [exact Hu|]. rewrite Hid. destruct Hr as (o & op & o' & Ho & now & fresh & body & -> & Hk).
  destruct o as [|o1 [|o2 [|o3 o]]]; try discriminate Ho.
  - injection Ho as <- <- <- _. apply registerClient_Ok in Hk as (_ & _ & _ & _ & _ & Hk & _). exact Hk.
Defined.

Lemma codes_and_refresh_tokens_single_use_witness :
  (exists e, snd (token 3000 (MkFresh "at2" "rt2") (oauth_reach demo_oauth (demo_login 1000 "a")) (demo_exchange "a" "aca")) = Throw e) /\
  (exists e, snd (token 3000 (MkFresh "at3" "rt3")
     (oauth_reach demo_oauth (demo_login 1000 "a" ++ [OpToken 2000 (MkFresh "at2" "rt2") (demo_refresh "a" "rta")]))
     (demo_refresh "a" "rta")) = Throw e).
Proof.
  split.
  - pose proof (codes_and_refresh_tokens_single_use demo_oauth (take 3 (demo_login 1000 "a")) 1000 (MkFresh "ata" "rta")
      (demo_exchange "a" "aca") [] 3000 (MkFresh "at2" "rt2") (demo_exchange "a" "aca")) as Hs. cbv zeta in Hs.
    destruct Hs as [Hs _]. eapply (Hs "aca"); try reflexivity; [discriminate|].
    intros now nonce password key Hin. apply elem_of_nil in Hin. exact Hin.
  - pose proof (codes_and_refresh_tokens_single_use demo_oauth (demo_login 1000 "a") 2000 (MkFresh "at2" "rt2")
      (demo_refresh "a" "rta") [] 3000 (MkFresh "at3" "rt3") (demo_refresh "a" "rta")) as Hs. cbv zeta in Hs.
    destruct Hs as [_ Hs]. apply Hs; try reflexivity.
    apply (bool_decide_unpack _). vm_compute. exact I.
Defined.

Definition demo_guess (now : Z) : oauth_op := OpConsent now "x" (Some "na") (Some "guess") "10.0.0.9".

Lemma password_guesses_bounded_witness :
  refused_passwords demo_oauth "10.0.0.9" (oauth_reach demo_oauth (take 2 (demo_login 1000 "a")))
    (map demo_guess [1001; 1002; 1003; 1004; 1005; 1006; 1007]) <= 9 /\
  refused_passwords demo_oauth "10.0.0.9" (oauth_reach demo_oauth (take 2 (demo_login 1000 "a")))
    (map demo_guess [1001; 1002; 1003; 1004; 1005; 1006; 1007]) = 5.
Proof.
  split; [|vm_compute; reflexivity].
  apply (password_guesses_bounded demo_oauth (take 2 (demo_login 1000 "a")) "10.0.0.9" 1001).
  vm_compute. repeat split; intros; try discriminate; auto.
Defined.

(** The bound on tokens is over all clients at once. *)
Fixpoint refreshes (now : Z) (c : string) (tok : string) (n : nat) : list oauth_op :=
  match n with
  | O => []
  | S n => OpToken now (MkFresh ("A" +:+ tok) ("R" +:+ tok)) (demo_refresh c tok) :: refreshes now c ("R" +:+ tok) n
  end.

(** What the bound of 200 tokens costs, shown on a run: it is shared by all
    clients and drops the oldest token whoever holds it. One client that refreshes
    198 times within the hour its access tokens live pushes out the refresh token of
    another, which had thirty days to go: that client is not established any more,
    cannot refresh, and an anonymous registration may take its place. *)
Example refreshing_evicts_other_clients :
  let before := (demo_login 1000 "b" ++ demo_login 1000 "a")%list in
  let after := (before ++ refreshes 2000 "a" "rta" 198)%list in
  hasLiveRefreshToken 2000 (oauth_reach demo_oauth before) "b" = true /\
  snd (token 2000 (MkFresh "at9" "rt9") (oauth_reach demo_oauth before) (demo_refresh "b" "rtb")) = Ok (MkFresh "at9" "rt9") /\
  hasLiveRefreshToken 2000 (oauth_reach demo_oauth after) "b" = false /\
  snd (token 2000 (MkFresh "at9" "rt9") (oauth_reach demo_oauth after) (demo_refresh "b" "rtb")) = Throw (400, "invalid_grant").
Proof. vm_compute. auto. Qed.
